(* ===== verification/_CoqProject ===== *)
-Q . S2P
Prelude.v
Types.v
Identity.v
OrSet.v
Lww.v
AntiEntropy.v
Admission.v
Egress.v
EgressProps.v
MembershipWire.v
Swim.v
HyParView.v
JoinProtocol.v
MessageCache.v
SendBudget.v
Float64.v
PeerTiming.v
TopicMesh.v
Announce.v
Probes.v
EagerReply.v
EagerReplyProps.v
Presence.v
PresenceProps.v
PresenceTasks.v
PresenceWitness.v
Plumtree.v
PlumtreeProps.v
PlumtreeNet.v
PlumtreeWitness.v
KeyCodec.v
KeyCache.v
KeyCacheProps.v
KeyExchange.v
KeyExchangeProps.v
KeyRecovery.v
KeyCacheWitness.v
Compat.v
CompatProps.v
CompatEgress.v
KeyLicence.v
CompatWitness.v
Coordinator.v
CoordinatorProps.v
CoordinatorWitness.v
Transport.v
TransportProps.v
TransportWitness.v
Rendezvous.v
RendezvousProps.v
RendezvousWitness.v
CoordinatorClient.v
CoordinatorClientProps.v
Runtime.v
RuntimeProps.v
RuntimeWitness.v
PeerScoring.v
PeerScoringProps.v
SendLayer.v
SendLayerProps.v
SendLayerFence.v
SendLayerWitness.v
