(* ===== verification/Prelude.v ===== *)
(** * Saorsa Gossip: a verification library

    Saorsa Gossip is a Rust workspace for a gossip overlay: nodes find each
    other and keep partial views (membership), disseminate messages over
    per-topic trees (pubsub), synchronise replicated data (crdt-sync), announce
    their presence, and help each other join (coordinator, rendezvous) over an
    authenticated QUIC transport.  This library models the parts that carry the
    protocol logic as executable definitions, named as in the source, and proves
    what makes them correct.

    ** Parts and files

    Shared:
    - [Prelude.v]: results and their bind, machine integers ([u64] as a [Z]
      kept in range, wrap-around and saturation written out), hash maps and
      sets iterated in an unspecified order ([HashIter], [SetIter]), bounded
      loops, counting lemmas, tactics and the hint database [gossip].
    - [Types.v] (crates/types/src/lib.rs): identifiers, message kinds, the
      message header with its version-dispatched wire format, presence
      records, topic priorities, and the [PeerHealthOracle] interface through
      which pub-sub consults SWIM.
    - [Identity.v] (crates/identity): key pairs and the named identities with
      their key store.
    - [Float64.v]: [f64] as the Standard Library's [spec_float].

    Replicated data (crates/crdt-sync/src/lib.rs):
    - [OrSet.v]: the observed-remove set with tombstones, changelog, deltas,
      compaction and canonical form.  [Lww.v]: [VectorClock], [LwwRegister].
    - [AntiEntropy.v]: [DeltaCrdt] as a class with laws, discharged for the set;
      the manager and its background task as a step relation.

    Membership (crates/membership/src/lib.rs):
    - [MembershipWire.v], [Swim.v], [HyParView.v], [JoinProtocol.v]: the message
      formats and the transport interface; the SWIM failure detector with its
      three tasks; the HyParView views, handlers, commit protocol and degree
      maintenance; the JOIN ledger and loop.

    Publish-subscribe (crates/pubsub):
    - [Admission.v] (admission.rs): topic priorities, the admission decision,
      per-peer bulk depth and counters.
    - [Egress.v], [EgressProps.v] (egress.rs): the leaf egress limiter -- token
      bucket, escrow for recovery traffic, recovery intents with their rotation
      and displacement, waiters and the fence on reconfiguration.
    - [MessageCache.v], [SendBudget.v], [PeerTiming.v], [TopicMesh.v],
      [Announce.v], [Probes.v], [EagerReply.v] with [EagerReplyProps.v] (lib.rs,
      timing.rs): the bounded message cache; the outbound send budgets and the
      gate for critical traffic; the adaptive time-outs, cooldowns and peer
      scores; a topic's eager and lazy peers with cooling, rescue and degree
      maintenance; the announcement queues; the recovery probes in flight; the
      replies to IWANT requests.
    - [Plumtree.v], [PlumtreeProps.v], [PlumtreeNet.v], [PlumtreeWitness.v]
      (lib.rs): one topic of the Plumtree core -- publishing, dispatch by kind,
      the EAGER, IHAVE, IWANT and anti-entropy handlers, the replay cache and
      late offers -- and a network of such nodes.
    - [SendLayer.v], [SendLayerProps.v], [SendLayerFence.v],
      [SendLayerWitness.v] (lib.rs): what stands between a message and the
      transport -- byte reservation, admission with its Bulk guards, claims, the
      fence, results and their booking -- for single sends, fan-outs and the
      rounds of the background tasks.
    - [KeyCodec.v], [KeyCache.v], [KeyCacheProps.v], [KeyExchange.v],
      [KeyExchangeProps.v], [KeyRecovery.v], [KeyCacheWitness.v] (key_cache.rs and
      its callers in lib.rs): frames that name their key instead of carrying it,
      the cache of keys per session, the control messages and the recovery of a
      missing key between two nodes.
    - [Compat.v], [CompatProps.v], [CompatEgress.v], [KeyLicence.v],
      [CompatWitness.v] (compat.rs): the migration policy between wire versions
      -- journal of modern floors, grants, ingress checks and the transport
      wrapper that chooses the format of what leaves, key references included.
    - [PeerScoring.v], [PeerScoringProps.v] (peer_scoring.rs): the scores shown
      in diagnostics.

    Around it:
    - [Presence.v], [PresenceProps.v], [PresenceTasks.v], [PresenceWitness.v]
      (crates/presence, crates/groups): beacons, friend-of-a-friend queries, the
      rate limiter, the broadcast task with start and stop.
    - [Coordinator.v], [CoordinatorProps.v], [CoordinatorWitness.v]
      (crates/coordinator): signed adverts, the adapter over the application's
      bootstrap cache, the handler, the bootstrap flow, the publishers and the
      deprecated caches.
    - [Rendezvous.v], [RendezvousProps.v], [RendezvousWitness.v]
      (crates/rendezvous, crates/runtime/src/rendezvous.rs): provider summaries,
      their shards and topics, and the client that publishes and collects them.
    - [Transport.v], [TransportProps.v], [TransportWitness.v]
      (crates/transport): the adapter over ant-quic -- authenticated sessions,
      guarded sends, sends with one reconnect, dialling, the receiver, peer
      tracking, errors and their classification -- and the protocol handler.
    - [CoordinatorClient.v], [CoordinatorClientProps.v], [Runtime.v],
      [RuntimeProps.v], [RuntimeWitness.v] (crates/runtime): the coordinator
      client, and the builder and context that put a node together.

    How they interact: the runtime gives one identity to all parts; pub-sub
    sends through the policy wrapper ([CompatEgress]), which uses the transport's
    guarded sends ([Transport.admission]) and its sessions; it consults SWIM
    through [PeerHealthOracle]; presence, coordinator and rendezvous send through
    the transport or pub-sub and check signatures of [Identity].

    The interfaces between parts are classes: [DeltaCrdt] with
    [DeltaCrdtLaws] (anti-entropy against any CRDT), [PeerHealthOracle]
    (pub-sub against SWIM, instance [Swim.swim_oracle]), [Transport] and
    [SliceRandom] (membership against the codec, the transport and [rand]),
    [LruCache] and [LruPut] (the lru crate), [Hashes], [MlDsa], [Postcard],
    [WireFormat], [PresenceWire], [CoordCodec], [SummaryCodec], [QueryCodec]
    (hashes, signatures and encodings), [BootstrapCache], [AntStreams], [AntNode]
    (ant-quic), [Libm] ([powf]) and [Display].  The witness files give concrete
    instances of those with laws.

    ** How state and effects are modelled

    A struct behind locks is a record; a method is a function from the record
    to the new record and its result; an [Err] or a panic is a value.  The
    clock, random numbers, hash functions, the codec and the transport are
    parameters or explicit arguments; a handler that reads the clock several
    times takes each reading.  Code that awaits while other code runs is cut
    at its awaits into critical sections, and the theorems on it quantify over
    every interleaving ([AntiEntropy.step], [Swim.step], [HyParView.node_step],
    the entry, poll and exit points of [Egress], [EagerReply.exec],
    [Plumtree.call_step], [SendLayer.exec], [Presence.exec]).  [HashMap] iteration order is arbitrary
    but fixed per map value.

    ** What the theorems show

    - [OrSet]: replicas that merged the same operations are equal; deltas are
      complete; the representation invariant holds in every reachable state;
      an add concurrent with a remove wins; the canonical form depends only on
      the contents.
    - [Lww]: vector-clock comparison is the pointwise order; two registers
      converge, and three need not (a counterexample).
    - [AntiEntropy]: what is recorded for a peer is what the peer has, under
      every interleaving with failures; a round delivers; a compacted-away
      peer is never served again (a counterexample to eventual delivery).
    - [Types]: header round trip for every version, dispatch on unknown
      versions, bounds of TTL and hop counters.
    - [Admission]: the complete decision table, the bulk depth bound, counter
      accounting.
    - [EgressProps]: what is charged never exceeds what the bucket held plus
      rate times elapsed time, to the fraction of a byte; the state invariant; termination of the charging loop;
      escrow respected by data; fairness of displacement; no reservation
      survives a reconfiguration.
    - [Swim]: no ACK is lost to a stale timeout; verdicts are justified in
      every reachable state; crashes are detected; relays and fan-out are
      exact.
    - [HyParView]: the commit is atomic and deadlock-free; its exact effect;
      views stay bounded under every interleaving; maintenance heals the
      views; exactly which configurations panic; message cascades terminate.
    - [JoinProtocol]: dial bounds and pacing; JOIN always returns.
    - [MessageCache], [SendBudget]: byte and entry accounting in every
      reachable state; the lanes of the send budget stay bounded.
    - [TopicMesh]: the mesh invariant; degree maintenance terminates within its
      bounds; a peer cools for at least its floor; rescue restores fan-out.
    - [Announce]: the queues are bounded; an identifier taken for sending is
      sent, put back or expired.
    - [EagerReplyProps]: the reply lifecycle, whose events follow the table the
      source documents except for three named deviations; a reply completes once; no recovery probe is stranded.
    - [PlumtreeProps], [PlumtreeNet]: what a node delivers was signed by its
      sender, and from the network only what is news to its subscribers, its own
      publications included; a refused payload never leaves; a message
      reaches every node of a connected network; a forged identifier can
      suppress a message (a counterexample).
    - [SendLayerProps], [SendLayerFence]: Bulk depth is what the calls under way
      hold and what digests without an attempt have lost (the latter blocks a
      peer's Bulk traffic in the end); the stages of a fan-out account for its
      peers; the byte budget refuses only relayed frames of topics that are not
      Critical; the fence refuses no admitted frame; a skipped local publish is
      announced.
    - [KeyCodec], [KeyCacheProps], [KeyRecovery]: frames round-trip; the cache
      invariant; a reference changes nothing of what is delivered; a missing key
      is recovered.
    - [KeyLicence]: the cache, the encoder of a fan-out and the transport use a
      reference only under a licence of that connection.
    - [CompatProps], [CompatEgress]: version 1 leaves only under a live grant
      for that session; a modern floor is permanent; the format of every frame;
      what the inner-envelope verifier accepts.
    - [PresenceProps], [PresenceTasks]: a record held is signed by its peer,
      made by the node's own task, or was handed over by the application; a query is served once; the beacon that survives does not depend on the
      order of arrival; a beacon reaches the other side; a returned stop has
      stopped the task.
    - [CoordinatorProps]: the best reachable advert is chosen; a query is
      answered once; a published advert is found; an unsolicited response can
      take over the choice (a counterexample).
    - [RendezvousProps]: which providers are listed, and that a published
      summary is collected and listed.
    - [TransportProps]: a session token names one connection; with the policy,
      version-1 bytes leave only on the connection that holds the grant; what a
      send delivers and the exact cause of each of its results; how failures are
      classified; peer tracking.
    - [CoordinatorClientProps], [RuntimeProps]: what a coordinator lookup asks
      and returns; the parts of a built runtime have one identity.
    - [PeerScoringProps]: entries follow the evidence, not the polling.

    ** Bounds and fuel

    [loop_pow n] iterates up to [2^n] times; the egress loops use 66, above
    the number of bytes a 64-bit budget can hold, and
    [EgressProps.charging_terminates] shows that they exit.  [join] takes the
    rounds per seed; [join_total] shows that 11 suffice (ten attempts and the
    round that finds the seed exhausted).  The commit's rounds are bounded by
    the code's own constant (8).  The degree maintenance of a topic takes one
    unit of fuel per eager peer and one more; [TopicMesh.mesh_maintenance] shows
    that this suffices.  [KeyCodec]'s varints have at most ten groups, as a
    64-bit value; its lists of elements and the records of the journal in
    [Compat] take the number of bytes left as fuel, and each element consumes
    one.  The control flusher of [KeyExchange], the client of
    [CoordinatorClient] and the tasks of [Coordinator] recurse on the list of
    what happens to them.

    ** What is not modelled

    Logging and tracing (with the log redaction of crates/types/src/logging.rs)
    and the statistics snapshots; task spawning, timers and shutdown channels
    (they only decide when a step happens) and the loops of pub-sub that call the
    modelled operations; the sharding of the topic map; lock fairness and poisoning; channel
    capacities; the accessors that only forward; test-only code; benches,
    examples and the two command-line binaries with their updaters (process
    control and I/O around the crates).  Third-party code -- ant-quic,
    post-quantum cryptography, postcard, CBOR, serde, rand, the lru crate, hash
    functions -- is a parameter with the documented laws that a theorem
    needs. *)

From stdpp Require Export base gmap sets fin_maps list strings sorting.
From Stdlib Require Export ZArith Lia.

(** ** Scopes and notations *)

Declare Scope gossip_scope.
Delimit Scope gossip_scope with gossip.

(** ** Results

    [anyhow::Result] and the crate-specific [Result] types: an [Ok] value or
    an [Err] carrying the error that the code constructs. *)

Inductive result (A E : Type) : Type :=
| Ok (a : A)
| Err (e : E).
Arguments Ok {A E} a.
Arguments Err {A E} e.

Definition result_bind {A B E} (r : result A E) (f : A → result B E) : result B E :=
  match r with
  | Ok a => f a
  | Err e => Err e
  end.

Notation "'let?' x ':=' r 'in' k" := (result_bind r (fun x => k))
  (at level 10, x name, r at level 100, k at level 200)
  : gossip_scope.
Notation "'let?' ' p ':=' r 'in' k" := (result_bind r (fun x => let ' p := x in k))
  (at level 10, p pattern, r at level 100, k at level 200)
  : gossip_scope.

#[global] Open Scope gossip_scope.

Definition is_ok {A E} (r : result A E) : bool :=
  match r with Ok _ => true | Err _ => false end.

(** ** Machine integers

    A [u64] (and, on the 64-bit targets of the workspace, a [usize]) is a [Z]
    kept in range.  Unchecked [+] and [*] wrap (the workspace's release
    profile does not enable overflow checks); [saturating_*] clamp. *)

Definition U64_MAX : Z := 18446744073709551615.
Definition U128_MAX : Z := 340282366920938463463374607431768211455.

Definition u64 (z : Z) : Prop := (0 ≤ z ≤ U64_MAX)%Z.

Definition u64_wrap (z : Z) : Z := (z mod (U64_MAX + 1))%Z.
Definition u64_add (a b : Z) : Z := u64_wrap (a + b).
Definition u64_sub (a b : Z) : Z := u64_wrap (a - b).
Definition u64_sat_add (a b : Z) : Z := Z.min U64_MAX (a + b).
Definition u64_sat_mul (a b : Z) : Z := Z.min U64_MAX (a * b).
Definition u128_sat_add (a b : Z) : Z := Z.min U128_MAX (a + b).
Definition u128_sat_mul (a b : Z) : Z := Z.min U128_MAX (a * b).
Definition sat_sub (a b : Z) : Z := Z.max 0 (a - b).

(** [Instant::duration_since] and [saturating_duration_since]: both clamp at
    zero (nanoseconds). *)
Definition elapsed_ns (now since : Z) : Z := Z.max 0 (now - since).

Definition NANOS_PER_SEC : Z := 1000000000.
Definition NANOS_PER_MILLI : Z := 1000000.

Lemma u64_wrap_small z : u64 z → u64_wrap z = z.
Proof. unfold u64, u64_wrap, U64_MAX. intros. apply Z.mod_small. lia. Qed.

Lemma u64_wrap_range z : u64 (u64_wrap z).
Proof.
  unfold u64, u64_wrap, U64_MAX.
  pose proof (Z.mod_pos_bound z (18446744073709551615 + 1)). lia.
Qed.

Lemma u64_add_exact a b : u64 (a + b) → u64_add a b = (a + b)%Z.
Proof. apply u64_wrap_small. Qed.

Lemma u64_sub_exact a b : u64 (a - b) → u64_sub a b = (a - b)%Z.
Proof. apply u64_wrap_small. Qed.

(** ** Hash maps

    [HashMap] and [HashSet] are [gmap] and [gset].  Their iteration order is
    not specified: [hiter m] is the order in which one particular map value is
    iterated, and all that is known of it is that every entry appears exactly
    once. *)

Class HashIter (K V : Type) `{Countable K} := {
  hiter : gmap K V → list (K * V);
  hiter_perm : ∀ m, hiter m ≡ₚ map_to_list m;
}.
#[global] Hint Mode HashIter ! ! - - : typeclass_instances.

(** One order that satisfies the interface; the witnesses run with it. *)
Definition canonical_iter {K V} `{Countable K} : HashIter K V :=
  {| hiter := map_to_list; hiter_perm m := reflexivity (map_to_list m) |}.

Section HashIterFacts.
Context {K V : Type} `{Countable K} `{!HashIter K V}.
Implicit Types (m : gmap K V) (k : K) (v : V).

Lemma elem_of_hiter m k v : (k, v) ∈ hiter m ↔ m !! k = Some v.
Proof. rewrite (hiter_perm m). apply elem_of_map_to_list. Qed.

Lemma NoDup_hiter m : NoDup (hiter m).
Proof. rewrite (hiter_perm m). apply NoDup_map_to_list. Qed.

Lemma NoDup_hiter_keys m : NoDup (hiter m).*1.
Proof. rewrite (hiter_perm m). apply NoDup_fst_map_to_list. Qed.

Lemma length_hiter m : length (hiter m) = size m.
Proof. rewrite (hiter_perm m). apply length_map_to_list. Qed.

Lemma elem_of_hiter_keys m k : k ∈ (hiter m).*1 ↔ is_Some (m !! k).
Proof.
  rewrite list_elem_of_fmap. split.
  - intros ([k' v] & -> & Hin). exists v. by apply elem_of_hiter.
  - intros [v Hv]. exists (k, v). split; [done|]. by apply elem_of_hiter.
Qed.
End HashIterFacts.

(** The same for [HashSet]. *)
Class SetIter (A : Type) `{Countable A} := {
  siter : gset A → list A;
  siter_perm : ∀ X, siter X ≡ₚ elements X;
}.
#[global] Hint Mode SetIter ! - - : typeclass_instances.

Definition canonical_siter {A} `{Countable A} : SetIter A :=
  {| siter := elements; siter_perm X := reflexivity (elements X) |}.

Lemma elem_of_siter {A} `{Countable A} `{!SetIter A} (X : gset A) (x : A) :
  x ∈ siter X ↔ x ∈ X.
Proof. rewrite (siter_perm X). apply elem_of_elements. Qed.

Lemma siter_NoDup {A} `{Countable A} `{!SetIter A} (X : gset A) : NoDup (siter X).
Proof. rewrite (siter_perm X). apply NoDup_elements. Qed.

Lemma siter_length {A} `{Countable A} `{!SetIter A} (X : gset A) : length (siter X) = size X.
Proof. by rewrite (siter_perm X). Qed.

(** [map.entry(k).or_default().insert(x)] on a map of sets. *)
Definition entry_insert {K T} `{Countable K, Countable T}
    (k : K) (x : T) (m : gmap K (gset T)) : gmap K (gset T) :=
  <[k := {[x]} ∪ default ∅ (m !! k)]> m.

(** [map.entry(k).or_default().extend(xs)] on a map of sets. *)
Definition entry_extend {K T} `{Countable K, Countable T}
    (k : K) (xs : gset T) (m : gmap K (gset T)) : gmap K (gset T) :=
  <[k := default ∅ (m !! k) ∪ xs]> m.

(** The set stored at a key, empty when the key is absent. *)
Definition tags_at {K T} `{Countable K, Countable T}
    (m : gmap K (gset T)) (k : K) : gset T := default ∅ (m !! k).

Lemma list_to_map_hiter {K V} `{Countable K} `{!HashIter K V} (m : gmap K V) :
  list_to_map (hiter m) = m.
Proof.
  rewrite (list_to_map_proper _ (map_to_list m)).
  - apply list_to_map_to_list.
  - apply NoDup_hiter_keys.
  - apply hiter_perm.
Qed.

Lemma difference_empty_incl {A} `{Countable A} (X Y : gset A) :
  X ∖ Y = ∅ → ∀ x, x ∈ X → x ∈ Y.
Proof. intros Hd x Hx. destruct (decide (x ∈ Y)); [done|]. set_solver. Qed.

Lemma gset_nonempty {A} `{Countable A} (X : gset A) : X ≠ ∅ ↔ ∃ x, x ∈ X.
Proof. split; [apply set_choose_L|]. intros [x Hx] ->. set_solver. Qed.

Section TagMaps.
Context {K T : Type} `{Countable K, Countable T}.
Implicit Types (m : gmap K (gset T)) (k : K) (xs : gset T).

(** No key is mapped to the empty set. *)
Definition no_empty m : Prop := map_Forall (λ _ xs, xs ≠ ∅) m.

Lemma tags_at_empty k : tags_at (∅ : gmap K (gset T)) k = ∅.
Proof. unfold tags_at. by rewrite lookup_empty. Qed.

Lemma tags_at_insert m k k' xs :
  tags_at (<[k := xs]> m) k' = if decide (k = k') then xs else tags_at m k'.
Proof. unfold tags_at. rewrite lookup_insert. by case_decide. Qed.

Lemma tags_at_delete m k k' :
  tags_at (delete k m) k' = if decide (k = k') then ∅ else tags_at m k'.
Proof. unfold tags_at. rewrite lookup_delete. by case_decide. Qed.

Lemma tags_at_entry_insert m k k' x :
  tags_at (entry_insert k x m) k' =
  if decide (k = k') then {[x]} ∪ tags_at m k' else tags_at m k'.
Proof. unfold entry_insert. rewrite tags_at_insert. case_decide; by subst. Qed.

Lemma tags_at_entry_extend m k k' xs :
  tags_at (entry_extend k xs m) k' =
  if decide (k = k') then tags_at m k' ∪ xs else tags_at m k'.
Proof. unfold entry_extend. rewrite tags_at_insert. case_decide; by subst. Qed.

Lemma tags_at_Some m k xs : m !! k = Some xs → tags_at m k = xs.
Proof. unfold tags_at. by intros ->. Qed.

Lemma tags_at_None m k : m !! k = None → tags_at m k = ∅.
Proof. unfold tags_at. by intros ->. Qed.

Lemma no_empty_lookup m k :
  no_empty m → m !! k = if decide (tags_at m k = ∅) then None else Some (tags_at m k).
Proof.
  intros Hne. unfold tags_at. destruct (m !! k) as [xs|] eqn:E; simpl.
  - specialize (Hne k xs E). by rewrite decide_False.
  - by rewrite decide_True.
Qed.

(** Maps without empty entries are determined by their tag sets. *)
Lemma no_empty_ext m1 m2 :
  no_empty m1 → no_empty m2 → (∀ k, tags_at m1 k = tags_at m2 k) → m1 = m2.
Proof.
  intros H1 H2 Heq. apply map_eq. intros k.
  rewrite (no_empty_lookup m1), (no_empty_lookup m2) by done. by rewrite Heq.
Qed.

Lemma no_empty_empty : no_empty ∅.
Proof. apply map_Forall_empty. Qed.

Lemma no_empty_insert m k xs : no_empty m → xs ≠ ∅ → no_empty (<[k := xs]> m).
Proof. intros. by apply map_Forall_insert_2. Qed.

Lemma no_empty_delete m k : no_empty m → no_empty (delete k m).
Proof. apply map_Forall_delete. Qed.

Lemma no_empty_entry_insert m k x : no_empty m → no_empty (entry_insert k x m).
Proof. intros. apply no_empty_insert; [done | set_solver]. Qed.

Lemma no_empty_entry_extend m k xs : no_empty m → xs ≠ ∅ → no_empty (entry_extend k xs m).
Proof. intros. apply no_empty_insert; [done | set_solver]. Qed.
End TagMaps.

(** [Iterator::max] on integers. *)
Definition iter_max (l : list Z) : option Z :=
  foldl (λ acc q, Some (match acc with Some m => Z.max m q | None => q end)) None l.

Lemma iter_max_spec l m :
  iter_max l = Some m ↔ m ∈ l ∧ ∀ q, q ∈ l → (q ≤ m)%Z.
Proof.
  unfold iter_max.
  assert (∀ l a, foldl (λ acc q, Some (match acc with Some m => Z.max m q | None => q end)) (Some a) l
    = Some (foldr Z.max a l)) as Hacc.
  { intros l'. induction l' as [|x l' IH]; intros a; simpl; [done|]. rewrite IH. f_equal.
    clear. induction l'; simpl; lia. }
  destruct l as [|x l]; simpl; [set_solver|]. rewrite Hacc.
  assert (foldr Z.max x l ∈ x :: l ∧ ∀ q, q ∈ x :: l → (q ≤ foldr Z.max x l)%Z) as [Hin Hmax].
  { clear. induction l as [|y l [IH1 IH2]]; simpl.
    - split; [by left|]. intros q Hq. apply list_elem_of_singleton in Hq. lia.
    - split.
      + destruct (Z.max_spec y (foldr Z.max x l)) as [[_ ->]|[_ ->]]; set_solver.
      + intros q Hq. apply elem_of_cons in Hq as [->|[->|Hq]%elem_of_cons]; [..|].
        * specialize (IH2 x). etrans; [apply IH2; by left|lia].
        * lia.
        * specialize (IH2 q). etrans; [apply IH2; by right|lia]. }
  split.
  - intros [= <-]. done.
  - intros [Hm1 Hm2]. f_equal. apply Z.le_antisymm; [by apply Hm2|by apply Hmax].
Qed.

(** Bits above [v]. *)
Lemma lor_shift (v x k : Z) : (0 ≤ k → 0 ≤ v < 2 ^ k → Z.lor v (Z.shiftl x k) = v + x * 2 ^ k)%Z.
Proof.
  intros Hk Hv. assert (Hz : Z.land v (Z.shiftl x k) = 0%Z).
  { apply Z.bits_inj'. intros i Hi. rewrite Z.land_spec, Z.bits_0.
    destruct (decide (i < k)%Z); [by rewrite Z.shiftl_spec_low, andb_false_r|].
    rewrite <-(Z.mod_small v (2 ^ k)%Z), Z.mod_pow2_bits_high by lia. done. }
  rewrite <-Z.lxor_lor, <-Z.add_nocarry_lxor by done. rewrite Z.shiftl_mul_pow2 by lia. done.
Qed.

(** [Iterator::min_by_key]: the first element that no later one is strictly
    below. *)
Definition min_by {A} (lt : A → A → bool) (l : list A) : option A :=
  foldl (λ acc x, Some (match acc with Some m => if lt x m then x else m | None => x end)) None l.

Lemma min_by_elem {A} (lt : A → A → bool) (l : list A) (x : A) :
  min_by lt l = Some x → x ∈ l.
Proof.
  unfold min_by.
  assert (∀ l (a : option A), foldl (λ acc x, Some (match acc with Some m => if lt x m then x else m | None => x end)) a l = Some x →
    x ∈ l ∨ a = Some x) as Hacc.
  { intros l'. induction l' as [|y l' IH]; intros a Hf; simpl in Hf; [by right|].
    destruct (IH _ Hf) as [Hin|Heq]; [left; by right|]. injection Heq as Heq.
    destruct a as [m|]; [destruct (lt y m)|]; subst; auto; left; by left. }
  intros Hf. by destruct (Hacc l None Hf).
Qed.

Lemma min_by_is_Some {A} (lt : A → A → bool) (l : list A) :
  l ≠ [] → is_Some (min_by lt l).
Proof.
  unfold min_by. destruct l as [|x l]; [done|]. intros _. simpl. generalize x. clear x.
  induction l as [|y l IH]; intros x; simpl; [by eexists|]. apply IH.
Qed.

(** [slice::sort_by]: stable. *)
Fixpoint insert_by {A} (cmp : A → A → comparison) (x : A) (l : list A) : list A :=
  match l with
  | [] => [x]
  | y :: l' => match cmp x y with Gt => y :: insert_by cmp x l' | _ => x :: l end
  end.
Definition sort_by {A} (cmp : A → A → comparison) (l : list A) : list A := foldr (insert_by cmp) [] l.

Lemma insert_by_perm {A} (cmp : A → A → comparison) (x : A) (l : list A) : insert_by cmp x l ≡ₚ x :: l.
Proof. induction l as [|y l IH]; cbn; [done|]. destruct (cmp x y); [done..|]. rewrite IH. apply Permutation_swap. Qed.

Lemma sort_by_perm {A} (cmp : A → A → comparison) (l : list A) : sort_by cmp l ≡ₚ l.
Proof. induction l as [|x l IH]; cbn; [done|]. unfold sort_by in IH. by rewrite insert_by_perm, IH. Qed.

(** Sorting by an integer key. *)
Lemma sort_by_sorted {A} (key : A → Z) (l : list A) :
  StronglySorted (λ x y, (key x ≤ key y)%Z) (sort_by (λ x y, Z.compare (key x) (key y)) l).
Proof.
  induction l as [|x l IH]; cbn; [constructor|]. unfold sort_by in IH. induction IH as [|y s Hs IHs Hy]; cbn; [repeat constructor|].
  destruct (Z.compare_spec (key x) (key y)) as [E|E|E].
  1,2: constructor; [by constructor|]; constructor; [lia|]; eapply Forall_impl; [exact Hy|]; cbn; lia.
  constructor; [done|]. rewrite insert_by_perm. constructor; [lia|done].
Qed.

(** ** Loops

    [loop_pow n body x] runs [body] until it exits ([inr]), for up to [2^n]
    iterations: enough for loops whose length is bounded by a machine word,
    and executable because it stops at the first exit. *)
Fixpoint loop_pow {A B} (n : nat) (body : A → A + B) (x : A) : A + B :=
  match n with
  | O => body x
  | S n => match loop_pow n body x with inl y => loop_pow n body y | inr z => inr z end
  end.

Lemma loop_pow_inv {A B} (P : A → Prop) (Q : B → Prop) (body : A → A + B) (n : nat) (x : A) :
  (∀ x, P x → match body x with inl y => P y | inr z => Q z end) →
  P x → match loop_pow n body x with inl y => P y | inr z => Q z end.
Proof.
  intros Hbody. revert x. induction n as [|n IH]; intros x Hx; cbn [loop_pow]; [by apply Hbody|].
  specialize (IH x Hx) as H1. destruct (loop_pow n body x) as [y|z]; [by apply IH|done].
Qed.

(** A measure that every iteration decreases, and that starts below [2^n],
    makes the loop exit. *)
Lemma loop_pow_terminates {A B} (P : A → Prop) (mu : A → Z) (body : A → A + B) (n : nat) (x : A) :
  (∀ x y, P x → body x = inl y → P y ∧ (mu y + 1 ≤ mu x)%Z) →
  (∀ x, P x → (0 ≤ mu x)%Z) →
  P x → (mu x < 2 ^ Z.of_nat n)%Z → ∃ z, loop_pow n body x = inr z.
Proof.
  intros Hdec Hpos.
  assert (∀ n x y, P x → loop_pow n body x = inl y → P y ∧ (mu y + 2 ^ Z.of_nat n ≤ mu x)%Z) as Hl.
  { intros k. induction k as [|k IH]; intros a b Ha Hab; cbn [loop_pow] in Hab.
    - apply (Hdec a b Ha Hab).
    - destruct (loop_pow k body a) as [c|] eqn:E; [|done].
      destruct (IH a c Ha E) as [Hc ?], (IH c b) as [Hb ?]; try done. split; [done|].
      rewrite Nat2Z.inj_succ, Z.pow_succ_r by lia. lia. }
  intros Hx Hmu. destruct (loop_pow n body x) as [y|z] eqn:E; [|by exists z].
  destruct (Hl n x y Hx E) as [Hy Hle]. specialize (Hpos y Hy). lia.
Qed.

#[global] Arguments loop_pow : simpl never.

(** An invariant of the steps is an invariant of their sequences. *)
Lemma rtc_preserve {A} (P : A → Prop) (R : A → A → Prop) (x y : A) :
  (∀ x y, R x y → P x → P y) → P x → rtc R x y → P y.
Proof. intros Hstep Hx Hr. induction Hr; eauto. Qed.

(** ** Counting map entries *)

Section MapCount.
Context {K V : Type} `{Countable K}.
Implicit Types (m : gmap K V) (k : K) (x : V).

(** [.iter().filter(p).count()]. *)
Definition map_count (P : K * V → Prop) `{!∀ i, Decision (P i)} m : Z := Z.of_nat (size (filter P m)).

Context (P : K * V → Prop) `{!∀ i, Decision (P i)}.

Lemma map_count_nonneg m : (0 ≤ map_count P m)%Z.
Proof. unfold map_count. lia. Qed.

Lemma map_count_empty : map_count P (∅ : gmap K V) = 0%Z.
Proof. unfold map_count. by rewrite map_filter_empty, map_size_empty. Qed.

Lemma map_count_le_size m : (map_count P m ≤ Z.of_nat (size m))%Z.
Proof.
  unfold map_count. apply inj_le. apply map_subseteq_size. apply map_filter_subseteq.
Qed.

Lemma map_count_insert m k x :
  m !! k = None →
  map_count P (<[k := x]> m) = (map_count P m + if decide (P (k, x)) then 1 else 0)%Z.
Proof.
  intros Hk. unfold map_count. case_decide as HP.
  - rewrite map_filter_insert_True by done. rewrite map_size_insert_None; [lia|].
    apply map_lookup_filter_None. by left.
  - rewrite map_filter_insert_False by done. rewrite delete_id by done. lia.
Qed.

Lemma map_count_delete m k x :
  m !! k = Some x →
  map_count P m = (map_count P (delete k m) + if decide (P (k, x)) then 1 else 0)%Z.
Proof.
  intros Hk. rewrite <-(insert_delete_id m k x) at 1 by done.
  apply map_count_insert. apply lookup_delete_eq.
Qed.

Lemma map_count_update m k x y :
  m !! k = Some x →
  map_count P (<[k := y]> m) =
    (map_count P m + (if decide (P (k, y)) then 1 else 0) - (if decide (P (k, x)) then 1 else 0))%Z.
Proof.
  intros Hk. rewrite <-insert_delete_eq, map_count_insert by apply lookup_delete_eq.
  rewrite (map_count_delete m k x Hk). lia.
Qed.

Lemma map_count_pos m : (0 < map_count P m)%Z ↔ ∃ k x, m !! k = Some x ∧ P (k, x).
Proof.
  unfold map_count. split.
  - intros Hpos. destruct (map_choose (filter P m)) as (k & x & Hkx).
    { intros E. rewrite E, map_size_empty in Hpos. lia. }
    apply map_lookup_filter_Some in Hkx as [? ?]. eauto.
  - intros (k & x & Hk & HP). enough (size (filter P m) ≠ 0)%nat by lia.
    apply map_size_ne_0_lookup. exists k, x. by apply map_lookup_filter_Some.
Qed.
End MapCount.

(** ** Sums over map values *)

Section MapSum.
Context {K V : Type} `{Countable K} (f : V → Z).

(** [.values().map(f).sum()]. *)
Definition map_sum (m : gmap K V) : Z := map_fold (λ _ x acc, f x + acc)%Z 0%Z m.

Lemma map_sum_empty : map_sum ∅ = 0%Z.
Proof. apply map_fold_empty. Qed.

Lemma map_sum_insert m k x : m !! k = None → map_sum (<[k := x]> m) = (f x + map_sum m)%Z.
Proof. intros Hk. unfold map_sum. rewrite map_fold_insert_L; [done|intros; lia|done]. Qed.

Lemma map_sum_delete m k x : m !! k = Some x → map_sum m = (f x + map_sum (delete k m))%Z.
Proof. intros Hk. rewrite <-(insert_delete_id m k x Hk) at 1. apply map_sum_insert, lookup_delete_eq. Qed.

Lemma map_sum_update m k x y : m !! k = Some x → map_sum (<[k := y]> m) = (map_sum m + f y - f x)%Z.
Proof. intros Hk. rewrite (map_sum_delete m k x Hk), <-insert_delete_eq, map_sum_insert by apply lookup_delete_eq. lia. Qed.

Lemma map_sum_le m k x : (∀ y, 0 ≤ f y)%Z → m !! k = Some x → (f x ≤ map_sum m)%Z.
Proof.
  intros Hf Hk. rewrite (map_sum_delete m k x Hk). enough (0 ≤ map_sum (delete k m))%Z by lia. unfold map_sum.
  apply (map_fold_weak_ind (λ r _, 0 ≤ r)%Z); [done|]. intros k' y m' r _ Hr. specialize (Hf y). lia.
Qed.
End MapSum.

Lemma map_count_mono {K V} `{Countable K} (P : K * V → Prop) `{!∀ i, Decision (P i)} (Q : K * V → Prop) `{!∀ i, Decision (Q i)} (m : gmap K V) :
  (∀ i, P i → Q i) → (map_count P m ≤ map_count Q m)%Z.
Proof.
  intros HPQ. induction m as [|k x m Hk IH] using map_ind.
  - rewrite map_count_empty. apply map_count_nonneg.
  - rewrite !map_count_insert by done. specialize (HPQ (k, x)). repeat case_decide; tauto || lia.
Qed.

Lemma map_count_split {K V} `{Countable K} (P : K * V → Prop) `{!∀ i, Decision (P i)} (Q : K * V → Prop) `{!∀ i, Decision (Q i)} (m : gmap K V) :
  (∀ i, Q i ↔ ¬ P i) → (map_count P m + map_count Q m = Z.of_nat (size m))%Z.
Proof.
  intros HQ. induction m as [|k x m Hk IH] using map_ind.
  - by rewrite !map_count_empty, map_size_empty.
  - rewrite !map_count_insert, map_size_insert_None by done. rewrite Nat2Z.inj_succ.
    specialize (HQ (k, x)). repeat case_decide; tauto || lia.
Qed.

(** ** Automation *)

(** Case analysis on every [decide] and [match] of the goal. *)
Ltac split_cases := repeat (case_decide || case_match); simplify_eq/=.

(** Set equality by cases on membership in [X] and [Y] ([set_solver] itself is
    intuitionistic). *)
Ltac set_by_cases X Y :=
  apply set_eq; let t := fresh "t" in intros t;
  destruct (decide (t ∈ X)), (decide (t ∈ Y)); set_solver.

Create HintDb gossip.
Create Rewrite HintDb gossip.
#[export] Hint Resolve u64_wrap_range : gossip.
#[export] Hint Resolve no_empty_empty no_empty_insert no_empty_delete
  no_empty_entry_insert no_empty_entry_extend : gossip.
#[export] Hint Rewrite @tags_at_empty @tags_at_insert @tags_at_delete
  @tags_at_entry_insert @tags_at_entry_extend : gossip.
#[export] Hint Rewrite u64_wrap_small using (unfold u64 in *; lia) : gossip.
