(* ===== verification/Types.v ===== *)
(** * Core types ([crates/types/src/lib.rs])

    Identifiers, message kinds, the versioned wire header with its manual
    serde implementation, presence records, and the priority and admission
    vocabularies shared by the membership and pub-sub layers.

    The hash functions and the byte format below [serde] are third-party
    crates; they enter through the classes [Hashes] and [WireFormat], which
    state their documented behaviour. *)

From Stdlib Require Import Ascii String.
From S2P Require Import Prelude.

#[local] Open Scope Z_scope.

(** ** Bytes *)

Definition is_byte (z : Z) : Prop := 0 ≤ z ≤ 255.
#[global] Instance is_byte_dec z : Decision (is_byte z).
Proof. unfold is_byte. apply _. Defined.

(** [\[u8; n\]]. *)
Definition is_array (n : nat) (l : list Z) : Prop := length l = n ∧ Forall is_byte l.
#[global] Instance is_array_dec n l : Decision (is_array n l).
Proof. unfold is_array. apply _. Defined.

(** The bytes of an ASCII literal ([b"..."]). *)
Definition bytes_of_string (s : string) : list Z :=
  (λ c, Z.of_N (N_of_ascii c)) <$> String.list_ascii_of_string s.

(** [u64::to_le_bytes]. *)
Fixpoint le_bytes (n : nat) (w : Z) : list Z :=
  match n with
  | O => []
  | S n => w mod 256 :: le_bytes n (w / 256)
  end.
Definition u64_to_le_bytes (w : Z) : list Z := le_bytes 8 w.

(** The hash functions of the [blake3] and [sha2] crates. *)
Class Hashes := {
  blake3 : list Z → list Z;
  sha256 : list Z → list Z;
  blake3_array : ∀ l, is_array 32 (blake3 l);
  sha256_array : ∀ l, is_array 32 (sha256 l);
}.

(** ** Identifiers *)

Record TopicId := mkTopicId { topic_bytes : list Z }.
Record PeerId := mkPeerId { peer_bytes : list Z }.

#[global] Instance TopicId_eq_dec : EqDecision TopicId.
Proof. solve_decision. Defined.
#[global] Instance TopicId_countable : Countable TopicId.
Proof. by apply (inj_countable' topic_bytes mkTopicId); intros []. Defined.
#[global] Instance PeerId_eq_dec : EqDecision PeerId.
Proof. solve_decision. Defined.
#[global] Instance PeerId_countable : Countable PeerId.
Proof. by apply (inj_countable' peer_bytes mkPeerId); intros []. Defined.

(** [<\[u8\] as Ord>::cmp]: lexicographic order on byte slices. *)
Fixpoint bytes_compare (l k : list Z) : comparison :=
  match l, k with
  | [], [] => Eq
  | [], _ :: _ => Lt
  | _ :: _, [] => Gt
  | x :: l, y :: k =>
      match Z.compare x y with
      | Eq => bytes_compare l k
      | c => c
      end
  end.

Definition PEER_ID_DOMAIN_SEPARATOR : list Z := bytes_of_string "AUTONOMI_PEER_ID_V2:".

Section Derivations.
Context `{!Hashes}.

Definition from_entity (entity_id : list Z) : TopicId := mkTopicId (blake3 entity_id).

(** Feeding a hasher piecewise hashes the concatenation of the pieces. *)
Definition from_pubkey (pubkey : list Z) : PeerId :=
  mkPeerId (sha256 (PEER_ID_DOMAIN_SEPARATOR ++ pubkey)).
End Derivations.

(** ** Message kinds *)

Inductive MessageKind :=
| Eager | IHave | IWant | Ping | Ack | Find | Presence | AntiEntropy | Shuffle.

#[global] Instance MessageKind_eq_dec : EqDecision MessageKind.
Proof. solve_decision. Defined.

Definition from_u8 (value : Z) : option MessageKind :=
  match value with
  | 0 => Some Eager
  | 1 => Some IHave
  | 2 => Some IWant
  | 3 => Some Ping
  | 4 => Some Ack
  | 5 => Some Find
  | 6 => Some Presence
  | 7 => Some AntiEntropy
  | 8 => Some Shuffle
  | _ => None
  end.

Definition to_u8 (kind : MessageKind) : Z :=
  match kind with
  | Eager => 0 | IHave => 1 | IWant => 2 | Ping => 3 | Ack => 4
  | Find => 5 | Presence => 6 | AntiEntropy => 7 | Shuffle => 8
  end.

(** ** The message header *)

Record MessageHeader := mkHeader {
  version : Z;
  topic : TopicId;
  msg_id : list Z;
  kind : MessageKind;
  hop : Z;
  ttl : Z;
  payload_hash : option (list Z);
}.

Inductive HeaderError := HopCountOverflow | TtlExpired.

Module Header.
Definition new (t : TopicId) (k : MessageKind) (ttl : Z) : MessageHeader :=
  {| version := 1; topic := t; msg_id := replicate 32 0; kind := k;
     hop := 0; ttl := ttl; payload_hash := None |}.

Definition seal_payload_hash `{!Hashes} (h : MessageHeader) (payload : option (list Z))
    : MessageHeader :=
  {| version := 2; topic := topic h; msg_id := msg_id h; kind := kind h;
     hop := hop h; ttl := ttl h;
     payload_hash := Some (blake3 (default [] payload)) |}.

Definition calculate_msg_id `{!Hashes}
    (t : TopicId) (epoch : Z) (signer : PeerId) (payload_hash : list Z) : list Z :=
  take 32 (blake3 (topic_bytes t ++ u64_to_le_bytes epoch ++ peer_bytes signer
                     ++ payload_hash)).

Definition increment_hop (h : MessageHeader) : result MessageHeader HeaderError :=
  if decide (hop h = 255) then Err HopCountOverflow
  else Ok {| version := version h; topic := topic h; msg_id := msg_id h;
             kind := kind h; hop := hop h + 1; ttl := ttl h;
             payload_hash := payload_hash h |}.

Definition decrement_ttl (h : MessageHeader) : result MessageHeader HeaderError :=
  if decide (ttl h = 0) then Err TtlExpired
  else Ok {| version := version h; topic := topic h; msg_id := msg_id h;
             kind := kind h; hop := hop h; ttl := ttl h - 1;
             payload_hash := payload_hash h |}.

(** The field types of the struct: what every [MessageHeader] value
    satisfies in Rust. *)
Definition typed (h : MessageHeader) : Prop :=
  is_byte (version h) ∧ is_array 32 (topic_bytes (topic h)) ∧ is_array 32 (msg_id h) ∧
  is_byte (hop h) ∧ is_byte (ttl h) ∧
  match payload_hash h with Some b => is_array 32 b | None => True end.

(** A header built by [new] and possibly sealed: v1 has no hash. *)
Definition version_consistent (h : MessageHeader) : Prop :=
  version h < 2 → payload_hash h = None.
End Header.

(** ** The wire format

    [Serialize]/[Deserialize] are written against serde's data model: a tuple
    is the sequence of its elements, each with a static type. *)

Inductive WireTy := TyU8 | TyArray (n : nat) | TyKind | TyOptArray (n : nat).

Inductive WireVal :=
| VU8 (z : Z)
| VArray (l : list Z)
| VKind (k : MessageKind)
| VOptArray (o : option (list Z)).

Definition has_ty (v : WireVal) (t : WireTy) : Prop :=
  match v, t with
  | VU8 z, TyU8 => is_byte z
  | VArray l, TyArray n => is_array n l
  | VKind _, TyKind => True
  | VOptArray None, TyOptArray _ => True
  | VOptArray (Some l), TyOptArray n => is_array n l
  | _, _ => False
  end.

(** The element codec of the format crate ([postcard]): an encoder, a typed
    prefix decoder, and its documented properties: a decoder returns values of
    the requested type, and undoes the encoder whatever bytes follow. *)
Class WireFormat := {
  enc : WireVal → list Z;
  dec : WireTy → list Z → option (WireVal * list Z);
  dec_enc : ∀ v t rest, has_ty v t → dec t (enc v ++ rest) = Some (v, rest);
  dec_typed : ∀ t l v rest, dec t l = Some (v, rest) → has_ty v t;
}.

Section Serde.
Context `{!WireFormat}.

(** [Serialize for MessageHeader]: seven elements from version 2 on, six
    before. *)
Definition header_elements (h : MessageHeader) : list WireVal :=
  [VU8 (version h); VArray (topic_bytes (topic h)); VArray (msg_id h);
   VKind (kind h); VU8 (hop h); VU8 (ttl h)]
  ++ (if bool_decide (2 ≤ version h) then [VOptArray (payload_hash h)] else []).

Definition serialize (h : MessageHeader) : list Z :=
  concat (enc <$> header_elements h).

(** [visit_seq]: the fields in order; the tail is read only when the version
    just read is at least 2. *)
Definition deserialize (l : list Z) : option (MessageHeader * list Z) :=
  match dec TyU8 l with
  | Some (VU8 version, l) =>
    match dec (TyArray 32) l with
    | Some (VArray topic, l) =>
      match dec (TyArray 32) l with
      | Some (VArray msg_id, l) =>
        match dec TyKind l with
        | Some (VKind kind, l) =>
          match dec TyU8 l with
          | Some (VU8 hop, l) =>
            match dec TyU8 l with
            | Some (VU8 ttl, l) =>
              let build payload_hash :=
                mkHeader version (mkTopicId topic) msg_id kind hop ttl payload_hash in
              if bool_decide (2 ≤ version) then
                match dec (TyOptArray 32) l with
                | Some (VOptArray payload_hash, l) => Some (build payload_hash, l)
                | _ => None
                end
              else Some (build None, l)
            | _ => None
            end
          | _ => None
          end
        | _ => None
        end
      | _ => None
      end
    | _ => None
    end
  | _ => None
  end.
End Serde.

(** ** Presence and FOAF records *)

Record PresenceRecord := mkPresence {
  presence_tag : list Z;
  addr_hints : list string;
  since : Z;
  expires : Z;
  seq : Z;
  four_words : option string;
  signature : list Z;
  signer_pubkey : list Z;
}.

Module PresenceRec.
(** [unix_secs()] is the argument [now]. *)
Definition new_with_seq (now : Z) (tag : list Z) (hints : list string)
    (ttl_seconds seq : Z) : PresenceRecord :=
  {| presence_tag := tag; addr_hints := hints; since := now;
     expires := u64_add now ttl_seconds; seq := seq; four_words := None;
     signature := []; signer_pubkey := [] |}.

Definition new (now : Z) (tag : list Z) (hints : list string) (ttl_seconds : Z)
    : PresenceRecord :=
  {| presence_tag := tag; addr_hints := hints; since := now;
     expires := u64_add now ttl_seconds; seq := 0; four_words := None;
     signature := []; signer_pubkey := [] |}.

Definition with_four_words (now : Z) (tag : list Z) (hints : list string)
    (ttl_seconds : Z) (words : string) : PresenceRecord :=
  {| presence_tag := tag; addr_hints := hints; since := now;
     expires := u64_add now ttl_seconds; seq := 0; four_words := Some words;
     signature := []; signer_pubkey := [] |}.

Definition is_expired (now : Z) (r : PresenceRecord) : bool :=
  bool_decide (expires r ≤ now).
End PresenceRec.

Record FoafQuery := mkFoafQuery {
  query_id : list Z;
  target_four_words : string;
  fq_hop : Z;
  max_hops : Z;
  visited : list PeerId;
  originator : PeerId;
}.

Record FoafResponse := mkFoafResponse {
  fr_query_id : list Z;
  fr_peer_id : PeerId;
  fr_addr_hints : list string;
  fr_hops : Z;
}.

(** ** Health, priorities and admission *)

Inductive PeerHealth := HealthAlive | HealthSuspect | HealthDead.
#[global] Instance PeerHealth_eq_dec : EqDecision PeerHealth.
Proof. solve_decision. Defined.

(** Constructors in the derived [Ord] order: Bulk < Normal < Critical. *)
Inductive TopicPriority := Bulk | Normal | Critical.
#[global] Instance TopicPriority_eq_dec : EqDecision TopicPriority.
Proof. solve_decision. Defined.

Definition priority_default : TopicPriority := Normal.

Inductive AdmissionDropReason := PeerDead | PeerSuspect | BulkBackpressure | PeerCooled.
#[global] Instance AdmissionDropReason_eq_dec : EqDecision AdmissionDropReason.
Proof. solve_decision. Defined.

Inductive AdmissionDecision := Admit | Drop (reason : AdmissionDropReason).
#[global] Instance AdmissionDecision_eq_dec : EqDecision AdmissionDecision.
Proof. solve_decision. Defined.

(** [PeerHealthOracle]: the read side that pub-sub consults. *)
Class PeerHealthOracle (S : Type) := {
  health_of : S → PeerId → option PeerHealth;
}.

(** ** A concrete format

    Postcard's layout for the four element types: bytes as they are, arrays
    without a length, an enum as its variant index, an option as a 0/1 tag. *)

Definition split_array (n : nat) (l : list Z) : option (list Z * list Z) :=
  if decide ((n ≤ length l)%nat ∧ Forall is_byte (take n l))
  then Some (take n l, drop n l) else None.

Definition postcard_enc (v : WireVal) : list Z :=
  match v with
  | VU8 z => [z]
  | VArray l => l
  | VKind k => [to_u8 k]
  | VOptArray None => [0]
  | VOptArray (Some l) => 1 :: l
  end.

Definition postcard_dec (t : WireTy) (l : list Z) : option (WireVal * list Z) :=
  match t, l with
  | TyU8, z :: l => if decide (is_byte z) then Some (VU8 z, l) else None
  | TyArray n, l => '(a, l) ← split_array n l; Some (VArray a, l)
  | TyKind, z :: l => k ← from_u8 z; Some (VKind k, l)
  | TyOptArray n, 0 :: l => Some (VOptArray None, l)
  | TyOptArray n, 1 :: l => '(a, l) ← split_array n l; Some (VOptArray (Some a), l)
  | _, _ => None
  end.

Lemma split_array_app n a rest :
  is_array n a → split_array n (a ++ rest) = Some (a, rest).
Proof.
  intros [<- Hb]. unfold split_array. rewrite take_app_length, drop_app_length, length_app.
  rewrite decide_True; [done | split; [lia | done]].
Qed.

Lemma split_array_typed n l a rest : split_array n l = Some (a, rest) → is_array n a.
Proof.
  unfold split_array. intros. split_cases. destruct_and!. split; [|done].
  rewrite length_take. lia.
Qed.

Lemma from_u8_to_u8 k : from_u8 (to_u8 k) = Some k.
Proof. by destruct k. Qed.

Lemma postcard_dec_enc v t rest :
  has_ty v t → postcard_dec t (postcard_enc v ++ rest) = Some (v, rest).
Proof.
  destruct v as [z|a|k|[a|]], t as [|n| |n]; simpl; try done; intros Hty.
  - by rewrite decide_True.
  - by rewrite split_array_app.
  - by rewrite from_u8_to_u8.
  - by rewrite split_array_app.
Qed.

Lemma postcard_dec_typed t l v rest :
  postcard_dec t l = Some (v, rest) → has_ty v t.
Proof.
  destruct t as [|n| |n], l as [|z l]; simpl; intros Hd; try done;
    repeat case_match; simplify_option_eq; try done;
    repeat (case_match; simplify_eq/=); eauto using split_array_typed.
Qed.

Definition postcard_format : WireFormat :=
  {| enc := postcard_enc; dec := postcard_dec;
     dec_enc := postcard_dec_enc; dec_typed := postcard_dec_typed |}.

(** ** Header properties *)

Section HeaderFacts.
Context `{!WireFormat}.

Lemma header_elements_v1 h :
  version h < 2 →
  header_elements h =
    [VU8 (version h); VArray (topic_bytes (topic h)); VArray (msg_id h);
     VKind (kind h); VU8 (hop h); VU8 (ttl h)].
Proof. intros. unfold header_elements. rewrite bool_decide_eq_false_2 by lia. done. Qed.

Lemma deserialize_serialize h rest :
  Header.typed h → Header.version_consistent h →
  deserialize (serialize h ++ rest) = Some (h, rest).
Proof.
  intros (Hv & Ht & Hm & Hh & Httl & Hp) Hc. unfold deserialize, serialize, header_elements.
  destruct h as [v [t] m k hp tt ph]; simpl in *.
  rewrite <-!app_assoc. rewrite !dec_enc by done.
  case_bool_decide; simpl.
  - rewrite <-app_assoc, dec_enc; [done | by destruct ph].
  - unfold Header.version_consistent in Hc; simpl in Hc. by rewrite Hc by lia.
Qed.

Lemma deserialize_version_dispatch l h rest :
  deserialize l = Some (h, rest) → Header.typed h ∧ Header.version_consistent h.
Proof.
  unfold deserialize. intros Hd.
  repeat (case_match; simplify_eq/=; try done);
  repeat match goal with H : dec _ _ = Some _ |- _ => apply dec_typed in H; simpl in H end;
  unfold Header.typed, Header.version_consistent; simpl;
  repeat case_bool_decide; naive_solver lia.
Qed.
End HeaderFacts.

(** [n] successive [decrement_ttl]s, as a frame is relayed hop by hop. *)
Fixpoint decrement_ttl_n (n : nat) (h : MessageHeader) : result MessageHeader HeaderError :=
  match n with
  | O => Ok h
  | S n => let? h := Header.decrement_ttl h in decrement_ttl_n n h
  end.

Lemma decrement_ttl_n_spec (n : nat) (h : MessageHeader) :
  is_byte (ttl h) →
  decrement_ttl_n n h =
    (if decide (Z.of_nat n ≤ ttl h) then
       Ok (mkHeader (version h) (topic h) (msg_id h) (kind h) (hop h)
             (ttl h - Z.of_nat n) (payload_hash h))
     else Err TtlExpired).
Proof.
  revert h. induction n as [|n IH]; intros h Hb; unfold is_byte in *.
  - simpl. rewrite decide_True by lia. rewrite Z.sub_0_r. by destruct h.
  - simpl. unfold Header.decrement_ttl. case_decide as H0.
    + simpl. rewrite decide_False by lia. done.
    + simpl. rewrite IH by (simpl; lia). simpl.
      repeat case_decide; try lia; [|done]. do 2 f_equal. lia.
Qed.

(** A header survives the wire: decoding what [serialize] wrote returns
    the header and leaves the following bytes, for version 1 headers (which
    carry no payload hash) and sealed version 2 headers alike. *)
Theorem header_roundtrip `{!WireFormat} (h : MessageHeader) (rest : list Z) :
  Header.typed h → Header.version_consistent h →
  deserialize (serialize h ++ rest) = Some (h, rest).
Proof. apply deserialize_serialize. Qed.

(** Version dispatch: whatever bytes are decoded, the result is a typed
    header, and a version 1 buffer never yields a payload hash. *)
Theorem header_version_dispatch `{!WireFormat} (l : list Z) (h : MessageHeader) (rest : list Z) :
  deserialize l = Some (h, rest) → Header.typed h ∧ Header.version_consistent h.
Proof. apply deserialize_version_dispatch. Qed.

(** Relaying is bounded: [n] decrements of a TTL succeed exactly when
    [n ≤ ttl], and then leave [ttl - n] with every other field unchanged. *)
Theorem ttl_bounds_relay (n : nat) (h : MessageHeader) :
  is_byte (ttl h) →
  decrement_ttl_n n h =
    (if decide (Z.of_nat n ≤ ttl h) then
       Ok (mkHeader (version h) (topic h) (msg_id h) (kind h) (hop h)
             (ttl h - Z.of_nat n) (payload_hash h))
     else Err TtlExpired).
Proof. apply decrement_ttl_n_spec. Qed.

(** ** Witnesses *)

Module TypesWitness.
Definition sample_header : MessageHeader :=
  mkHeader 2 (mkTopicId (replicate 32 7)) (replicate 32 9) IWant 3 5 (Some (replicate 32 1)).

Lemma header_roundtrip_witness :
  @deserialize postcard_format (@serialize postcard_format sample_header ++ [42]) = Some (sample_header, [42]).
Proof.
  apply (@header_roundtrip postcard_format).
  - repeat split; apply (bool_decide_unpack _); by vm_compute.
  - intros H2. by vm_compute in H2.
Defined.

Lemma header_version_dispatch_witness :
  Header.typed (Header.new (mkTopicId (replicate 32 7)) Ping 4) ∧
  Header.version_consistent (Header.new (mkTopicId (replicate 32 7)) Ping 4).
Proof.
  apply (@header_version_dispatch postcard_format
    ([1] ++ replicate 32 7 ++ replicate 32 0 ++ [3; 0; 4]) _ []).
  by vm_compute.
Defined.

Lemma ttl_bounds_relay_witness : decrement_ttl_n 6 sample_header = Err TtlExpired.
Proof. apply (ttl_bounds_relay 6 sample_header). split; by vm_compute. Defined.
End TypesWitness.
