(* ===== verification/Identity.v ===== *)
(** * Identities ([crates/identity/src/lib.rs])

    The ML-DSA key pair over the signature library, and named identities that
    are kept in a key-store directory.  The directory is a map from paths to
    file contents; whether an operation on it succeeds is an argument, since
    the system may refuse any of them. *)

From Stdlib Require Import Ascii.
From S2P Require Import Prelude Types.

#[local] Open Scope Z_scope.

(** The [saorsa_pqc] signatures: parsing keys and signatures, key generation
    from randomness, signing and verification.  [None] is an [Err]. *)
Class MlDsa := {
  pqc_generate : Z → option (list Z * list Z);
  pqc_secret_key : list Z → option (list Z);
  pqc_public_key : list Z → option (list Z);
  pqc_signature : list Z → option (list Z);
  pqc_sign : list Z → list Z → option (list Z);
  pqc_verify : list Z → list Z → list Z → option bool;
}.

Module Identity.

(** ** The key pair *)

Record MlDsaKeyPair := mkKeyPair { public_key : list Z; secret_key : list Z }.

Definition generate `{MlDsa} (randomness : Z) : option MlDsaKeyPair :=
  kp ← pqc_generate randomness; Some (mkKeyPair kp.1 kp.2).

Definition from_keypair_bytes (public_key secret_key : list Z) : MlDsaKeyPair := mkKeyPair public_key secret_key.
Definition peer_id `{Hashes} (k : MlDsaKeyPair) : PeerId := from_pubkey (public_key k).

Definition sign `{MlDsa} (k : MlDsaKeyPair) (message : list Z) : option (list Z) :=
  sk ← pqc_secret_key (secret_key k); pqc_sign sk message.

Definition verify `{MlDsa} (public_key message signature : list Z) : option bool :=
  pk ← pqc_public_key public_key;
  sig ← pqc_signature signature;
  pqc_verify pk message sig.

(** A key pair whose signatures verify. *)
Definition good_key `{MlDsa} (k : MlDsaKeyPair) : Prop :=
  public_key k ≠ [] ∧ ∀ m, ∃ sig, sign k m = Some sig ∧ sig ≠ [] ∧ verify (public_key k) m sig = Some true.

(** ** Identities *)

Record NamedIdentity := mkIdentity { key_pair : MlDsaKeyPair; alias : string }.

(** [postcard] on the two types. *)
Class IdentityCodec := {
  encode_keypair : MlDsaKeyPair → option (list Z);
  decode_keypair : list Z → option MlDsaKeyPair;
  encode_identity : NamedIdentity → option (list Z);
  decode_identity : list Z → option NamedIdentity;
}.

Definition identity_new `{MlDsa} (name : string) (randomness : Z) : option NamedIdentity :=
  k ← generate randomness; Some (mkIdentity k name).

(** [str::replace('-', "_")]. *)
Definition underscored (c : ascii) : ascii := if decide (c = "-"%char) then "_"%char else c.
Fixpoint map_string (f : ascii → ascii) (s : string) : string :=
  match s with
  | EmptyString => EmptyString
  | String.String c s => String.String (f c) (map_string f s)
  end.

(** [Path::join]: an absolute second path replaces the first. *)
Definition starts_with_slash (s : string) : bool :=
  match s with String.String c _ => bool_decide (c = "/"%char) | EmptyString => false end.
Fixpoint ends_with_slash (s : string) : bool :=
  match s with
  | EmptyString => false
  | String.String c EmptyString => bool_decide (c = "/"%char)
  | String.String _ s => ends_with_slash s
  end.
Definition path_join (base f : string) : string :=
  if starts_with_slash f then f
  else match base with
  | EmptyString => f
  | _ => if ends_with_slash base then (base +:+ f)%string else (base +:+ "/" +:+ f)%string
  end.

Definition keystore_file_path (four_words keystore_path : string) : string :=
  path_join keystore_path (map_string underscored four_words +:+ ".identity")%string.

Definition Files : Type := gmap string (list Z).

(** What the system answers: whether a read, the creation of the directory
    and a write succeed. *)
Record Io := mkIo { io_read : bool; io_mkdir : bool; io_write : bool }.

Inductive IdentityError := ReadFailed | DecodeFailed | MkdirFailed | EncodeFailed | WriteFailed | KeygenFailed.

Section Keystore.
Context `{MlDsa} `{IdentityCodec}.

Definition load_from_keystore (fs : Files) (io : Io) (four_words keystore_path : string) : result NamedIdentity IdentityError :=
  match (if io_read io then (fs : gmap string (list Z)) !! keystore_file_path four_words keystore_path else None) with
  | None => Err ReadFailed
  | Some data => match decode_identity data with Some i => Ok i | None => Err DecodeFailed end
  end.

Definition save_to_keystore (fs : Files) (io : Io) (i : NamedIdentity) (four_words keystore_path : string) : Files * result unit IdentityError :=
  if io_mkdir io then
    match encode_identity i with
    | None => (fs, Err EncodeFailed)
    | Some data =>
        if io_write io then (<[keystore_file_path four_words keystore_path := data]> (fs : gmap string (list Z)), Ok ())
        else (fs, Err WriteFailed)
    end
  else (fs, Err MkdirFailed).

Definition load_or_create (fs : Files) (io : Io) (four_words display_name keystore_path : string) (randomness : Z) :
    Files * result NamedIdentity IdentityError :=
  match load_from_keystore fs io four_words keystore_path with
  | Ok i => (fs, Ok i)
  | Err _ =>
      match identity_new display_name randomness with
      | None => (fs, Err KeygenFailed)
      | Some i =>
          let '(fs, r) := save_to_keystore fs io i four_words keystore_path in
          (fs, let? _ := r in Ok i)
      end
  end.

(** An identity that was obtained once is obtained again, whatever name and
    randomness the second call has, as long as the file can be read; and the
    second call writes nothing. *)
Lemma load_or_create_stable (fs fs' : Files) (io io' : Io) (fw name name' path : string) (rnd rnd' : Z) (i : NamedIdentity) :
  (∀ i data, encode_identity i = Some data → decode_identity data = Some i) →
  load_or_create fs io fw name path rnd = (fs', Ok i) → io_read io' = true →
  load_or_create fs' io' fw name' path rnd' = (fs', Ok i).
Proof.
  intros Hcodec Hc Hr.
  assert (load_from_keystore fs' io' fw path = Ok i) as Hl; [|unfold load_or_create; by rewrite Hl].
  unfold load_from_keystore. rewrite Hr. revert Hc. unfold load_or_create.
  destruct (load_from_keystore fs io fw path) as [j|e] eqn:Hload.
  - intros [= <- <-]. unfold load_from_keystore in Hload. destruct (io_read io); [|done].
    destruct ((fs : gmap string (list Z)) !! _) as [data|]; [|done]. by destruct (decode_identity data).
  - destruct (identity_new name rnd) as [j|]; [|done]. unfold save_to_keystore.
    destruct (io_mkdir io); [|done]. destruct (encode_identity j) as [data|] eqn:He; [|done].
    destruct (io_write io); [|done]. cbn [result_bind]. intros [= <- <-]. rewrite lookup_insert_eq, (Hcodec _ _ He). done.
Qed.

(** A failed read counts as "not found": an existing identity is replaced. *)
Lemma unreadable_identity_replaced (fs : Files) (fw name path : string) (rnd : Z) (i : NamedIdentity) (data : list Z) :
  identity_new name rnd = Some i → encode_identity i = Some data →
  load_or_create fs (mkIo false true true) fw name path rnd = (<[keystore_file_path fw path := data]> (fs : gmap string (list Z)), Ok i).
Proof. intros Hn He. unfold load_or_create, save_to_keystore. cbn [load_from_keystore io_read io_mkdir io_write]. by rewrite Hn, He. Qed.
End Keystore.

(** Two names share one file. *)
Example keystore_names_collide (path : string) : keystore_file_path "ocean-moon" path = keystore_file_path "ocean_moon" path.
Proof. reflexivity. Qed.
End Identity.
