(* ===== verification/OrSet.v ===== *)
(** * The observed-remove set ([crates/crdt-sync/src/lib.rs], [OrSet])

    The replicated set with per-element tag sets, tombstones and a versioned
    changelog from which deltas are produced.  An element is present when it
    has a live tag; removing it moves every observed tag to the tombstones. *)

From S2P Require Import Prelude Types.

#[local] Open Scope Z_scope.

(** [(PeerId, u64)]. *)
Abbreviation UniqueTag := (PeerId * Z)%type.

(** [HashMap<T, HashSet<UniqueTag>>]. *)
Abbreviation TagMap T := (gmap T (gset UniqueTag)).

(** The comparator of [canonical_tags]: not greater. *)
Definition tag_le (x y : UniqueTag) : Prop :=
  match bytes_compare (peer_bytes x.1) (peer_bytes y.1) with
  | Lt => True
  | Eq => x.2 ≤ y.2
  | Gt => False
  end.
#[global] Instance tag_le_dec : RelDecision tag_le.
Proof. intros x y. unfold tag_le. destruct (bytes_compare _ _); apply _. Defined.

Lemma bytes_compare_refl l : bytes_compare l l = Eq.
Proof. induction l as [|x l IH]; simpl; [done|]. by rewrite Z.compare_refl. Qed.

Lemma bytes_compare_eq l k : bytes_compare l k = Eq → l = k.
Proof.
  revert k. induction l as [|x l IH]; intros [|y k]; simpl; try done.
  destruct (Z.compare_spec x y); try done. subst. intros ?. f_equal. by apply IH.
Qed.

Lemma bytes_compare_antisym l k : bytes_compare k l = CompOpp (bytes_compare l k).
Proof.
  revert k. induction l as [|x l IH]; intros [|y k]; simpl; try done.
  rewrite (Z.compare_antisym x y). destruct (x ?= y); simpl; auto.
Qed.

Lemma bytes_compare_lt_trans l k j :
  bytes_compare l k = Lt → bytes_compare k j = Lt → bytes_compare l j = Lt.
Proof.
  revert k j. induction l as [|x l IH]; intros [|y k] [|z j]; simpl; try done.
  destruct (Z.compare_spec x y), (Z.compare_spec y z), (Z.compare_spec x z);
    subst; try done; try lia; eauto.
Qed.

#[global] Instance tag_le_total : Total tag_le.
Proof.
  intros [[p] n] [[q] m]. unfold tag_le; simpl. rewrite (bytes_compare_antisym p q).
  destruct (bytes_compare p q); simpl; auto. lia.
Qed.

#[global] Instance tag_le_trans : Transitive tag_le.
Proof.
  intros [[p] n] [[q] m] [[r] o]. unfold tag_le; simpl.
  destruct (bytes_compare p q) eqn:E1, (bytes_compare q r) eqn:E2; try done;
    try apply bytes_compare_eq in E1; try apply bytes_compare_eq in E2; subst.
  - rewrite bytes_compare_refl. lia.
  - by rewrite E2.
  - by rewrite E1.
  - by rewrite (bytes_compare_lt_trans _ _ _ E1 E2).
Qed.

#[global] Instance tag_le_antisymm : AntiSymm eq tag_le.
Proof.
  intros [[p] n] [[q] m]. unfold tag_le; simpl. rewrite (bytes_compare_antisym p q).
  destruct (bytes_compare p q) eqn:E; simpl; try done.
  apply bytes_compare_eq in E. subst. intros. do 2 f_equal. lia.
Qed.

Module OrSet.
Section OrSet.
Context {T : Type} `{Countable T} `{!HashIter T (gset UniqueTag)}.
Implicit Types (e : T) (tag : UniqueTag) (m : TagMap T).

(** (additions, removals) of one version. *)
Abbreviation ChangelogEntry := (TagMap T * TagMap T)%type.

Record OrSet := mkOrSet {
  elements : TagMap T;
  tombstones : TagMap T;
  version : Z;
  changelog_floor : Z;
  changelog : gmap Z ChangelogEntry;
}.

Record OrSetDelta := mkDelta {
  d_added : TagMap T;
  d_removed : TagMap T;
  d_version : Z;
}.

Definition new : OrSet := mkOrSet ∅ ∅ 0 0 ∅.

Definition add (s : OrSet) (element : T) (tag : UniqueTag) : OrSet :=
  let elements' := entry_insert element tag (elements s) in
  let tombstones' :=
    match tombstones s !! element with
    | Some ts =>
        let ts := ts ∖ {[tag]} in
        if decide (ts = ∅) then delete element (tombstones s)
        else <[element := ts]> (tombstones s)
    | None => tombstones s
    end in
  let version' := u64_add (version s) 1 in
  let entry := default (∅, ∅) (changelog s !! version') in
  mkOrSet elements' tombstones' version' (changelog_floor s)
    (<[version' := (entry_insert element tag entry.1, entry.2)]> (changelog s)).

Definition remove (s : OrSet) (element : T) : OrSet :=
  match elements s !! element with
  | Some tags =>
      let tombstones' :=
        set_fold (λ tag m, entry_insert element tag m) (tombstones s) tags in
      let version' := u64_add (version s) 1 in
      let entry := default (∅, ∅) (changelog s !! version') in
      mkOrSet (delete element (elements s)) tombstones' version' (changelog_floor s)
        (<[version' := (entry.1, entry_extend element tags entry.2)]> (changelog s))
  | None => s
  end.

Definition contains (s : OrSet) (element : T) : bool :=
  bool_decide (is_Some (elements s !! element)).

Definition len (s : OrSet) : nat := size (elements s).

Definition is_empty (s : OrSet) : bool := bool_decide (elements s = ∅).

Definition record_changelog_entry (s : OrSet) (added removed : TagMap T) : OrSet :=
  if decide (added = ∅ ∧ removed = ∅) then s
  else
    let version' := u64_add (version s) 1 in
    mkOrSet (elements s) (tombstones s) version' (changelog_floor s)
      (<[version' := (added, removed)]> (changelog s)).

(** One iteration of the "merge elements" loop: the incoming tags that are
    not tombstoned are inserted; those that were not already present are
    reported in [added]. *)
Definition merge_added_step (ts : TagMap T) (st : TagMap T * TagMap T)
    (item : T * gset UniqueTag) : TagMap T * TagMap T :=
  let '(els, added) := st in
  let '(elem, tags) := item in
  let live_tags := tags ∖ tags_at ts elem in
  if decide (live_tags = ∅) then st
  else
    let our_tags := tags_at els elem in
    let fresh := live_tags ∖ our_tags in
    (<[elem := our_tags ∪ live_tags]> els,
     if decide (fresh = ∅) then added else entry_extend elem fresh added).

(** One iteration of the "merge tombstones" loop. *)
Definition merge_removed_step (st : TagMap T * TagMap T * TagMap T)
    (item : T * gset UniqueTag) : TagMap T * TagMap T * TagMap T :=
  let '(els, ts, removed) := st in
  let '(elem, tags) := item in
  let new_tombstones := tags ∖ tags_at ts elem in
  let our_tombstones := tags_at ts elem ∪ tags in
  let ts' := <[elem := our_tombstones]> ts in
  let removed' :=
    if decide (new_tombstones = ∅) then removed
    else <[elem := new_tombstones]> removed in
  let els' :=
    match els !! elem with
    | Some our_tags =>
        let our_tags := our_tags ∖ our_tombstones in
        if decide (our_tags = ∅) then delete elem els else <[elem := our_tags]> els
    | None => els
    end in
  (els', ts', removed').

Definition apply_delta_parts (s : OrSet) (incoming_added incoming_removed : TagMap T)
    : OrSet :=
  let '(els, added) :=
    foldl (merge_added_step (tombstones s)) (elements s, ∅) (hiter incoming_added) in
  let '(els, ts, removed) :=
    foldl merge_removed_step (els, tombstones s, ∅) (hiter incoming_removed) in
  record_changelog_entry
    (mkOrSet els ts (version s) (changelog_floor s) (changelog s)) added removed.

Definition merge_state (s other : OrSet) : OrSet :=
  apply_delta_parts s (elements other) (tombstones other).

Definition merge (s : OrSet) (delta : OrSetDelta) : OrSet :=
  apply_delta_parts s (d_added delta) (d_removed delta).

Definition compact (s : OrSet) (keep_versions : Z) : OrSet :=
  if decide (keep_versions < version s) then
    let min_version := version s - keep_versions in
    mkOrSet (elements s) (tombstones s) (version s)
      (Z.max (changelog_floor s) min_version)
      (filter (λ kv, min_version < kv.1) (changelog s))
  else s.

(** [for (elem, tags) in src { acc.entry(elem).or_default().extend(tags) }]. *)
Definition extend_all (acc src : TagMap T) : TagMap T :=
  foldl (λ acc item, entry_extend item.1 item.2 acc) acc (hiter src).

(** The loop of [delta] over versions [from .. from + n - 1]; [None] as soon
    as a version is missing from the changelog. *)
Fixpoint collect_delta (log : gmap Z ChangelogEntry) (from : Z) (n : nat)
    (added removed : TagMap T) : option (TagMap T * TagMap T) :=
  match n with
  | O => Some (added, removed)
  | S n =>
      '(adds, removes) ← log !! from;
      collect_delta log (from + 1) n (extend_all added adds) (extend_all removed removes)
  end.

Definition delta (s : OrSet) (since_version : Z) : option OrSetDelta :=
  if decide (version s ≤ since_version) then None
  else if decide (since_version < changelog_floor s) then None
  else
    '(added, removed) ←
      collect_delta (changelog s) (since_version + 1)
        (Z.to_nat (version s - since_version)) ∅ ∅;
    Some (mkDelta added removed (version s)).

(** [.values().chain(..).flat_map(..).filter(..).map(..).max()]. *)
Definition max_retained_sequence_for_peer `{!SetIter UniqueTag} (s : OrSet) (peer : PeerId)
    : option Z :=
  let tags := ((hiter (elements s)).*2 ++ (hiter (tombstones s)).*2) ≫= siter in
  iter_max (filter (λ tag, tag.1 = peer) tags).*2.

(** The deterministic wire form: [BTreeMap]s are determined by their entries,
    tag vectors are sorted by peer bytes and then sequence number. *)
Record CanonicalRetainedOrSet := mkCanonical {
  c_elements : gmap T (list UniqueTag);
  c_tombstones : gmap T (list UniqueTag);
  c_version : Z;
  c_changelog_floor : Z;
  c_changelog : gmap Z (gmap T (list UniqueTag) * gmap T (list UniqueTag));
}.

Definition canonical_tags `{!SetIter UniqueTag} (tags : gset UniqueTag) : list UniqueTag :=
  merge_sort tag_le (siter tags).

Definition canonical_retained_wire `{!SetIter UniqueTag} (s : OrSet) : CanonicalRetainedOrSet :=
  {| c_elements := canonical_tags <$> elements s;
     c_tombstones := canonical_tags <$> tombstones s;
     c_version := 0; c_changelog_floor := 0; c_changelog := ∅ |}.

(** ** Denotation

    [live s e] and [dead s e] are the live tags and the tombstones of an
    element: all that merging depends on. *)

Definition live (s : OrSet) (e : T) : gset UniqueTag := tags_at (elements s) e.
Definition dead (s : OrSet) (e : T) : gset UniqueTag := tags_at (tombstones s) e.

(** Two replicas hold the same replicated state (versions and changelogs are
    local bookkeeping). *)
Definition same_state (s1 s2 : OrSet) : Prop :=
  ∀ e, live s1 e = live s2 e ∧ dead s1 e = dead s2 e.

#[global] Instance same_state_equiv : Equivalence same_state.
Proof.
  split.
  - by intros s e.
  - intros s t Hst e. by destruct (Hst e).
  - intros s t u Hst Htu e. destruct (Hst e) as [-> ->]. apply Htu.
Qed.

(** The representation invariant: no empty tag sets, and no live tag is
    tombstoned. *)
Record wf (s : OrSet) : Prop := {
  wf_elements : no_empty (elements s);
  wf_tombstones : no_empty (tombstones s);
  wf_disjoint : ∀ e, live s e ## dead s e;
}.

Lemma tags_at_list_to_map_cons (k : T) (xs : gset UniqueTag) (l : list (T * gset UniqueTag)) e :
  tags_at (list_to_map ((k, xs) :: l) : TagMap T) e =
  if decide (k = e) then xs else tags_at (list_to_map l : TagMap T) e.
Proof. simpl. apply tags_at_insert. Qed.

Lemma tags_at_list_to_map_not_in (k : T) (l : list (T * gset UniqueTag)) :
  k ∉ l.*1 → tags_at (list_to_map l : TagMap T) k = ∅.
Proof. intros. apply tags_at_None. by apply not_elem_of_list_to_map_1. Qed.

Lemma merge_added_step_spec (ts els added : TagMap T) (k : T) (xs : gset UniqueTag)
    (els1 added1 : TagMap T) :
  no_empty els → no_empty added →
  merge_added_step ts (els, added) (k, xs) = (els1, added1) →
  no_empty els1 ∧ no_empty added1 ∧
  ∀ e, tags_at els1 e = (if decide (k = e) then tags_at els e ∪ (xs ∖ tags_at ts e)
                         else tags_at els e) ∧
       tags_at added1 e = (if decide (k = e)
                           then tags_at added e ∪ (xs ∖ tags_at ts e ∖ tags_at els e)
                           else tags_at added e).
Proof.
  intros Hels Hadd Hstep. unfold merge_added_step in Hstep.
  assert (∀ ys, ys ≠ ∅ → tags_at els k ∪ ys ≠ ∅) as Hu by (clear; set_solver).
  repeat case_decide; simplify_eq/=;
    (split_and!; [by auto using no_empty_insert, no_empty_entry_extend..|]);
    clear Hels Hadd Hu;
    intros e; autorewrite with gossip; case_decide; subst; set_solver.
Qed.

(** The "merge elements" loop. *)
Lemma merge_added_fold (ts : TagMap T) (l : list (T * gset UniqueTag)) (els added : TagMap T) :
  NoDup l.*1 → no_empty els → no_empty added →
  let inc := list_to_map l : TagMap T in
  let st := foldl (merge_added_step ts) (els, added) l in
  no_empty st.1 ∧ no_empty st.2 ∧
  ∀ e, tags_at st.1 e = tags_at els e ∪ (tags_at inc e ∖ tags_at ts e) ∧
       tags_at st.2 e = tags_at added e ∪ (tags_at inc e ∖ tags_at ts e ∖ tags_at els e).
Proof.
  revert els added. induction l as [|[k xs] l IH]; intros els added Hnd Hels Hadd.
  - cbn. split_and!; [done..|]. intros e. rewrite tags_at_empty. set_solver.
  - apply NoDup_cons in Hnd as [Hk Hnd]. cbn [foldl].
    destruct (merge_added_step ts (els, added) (k, xs)) as [els1 added1] eqn:Hstep.
    assert (no_empty els1 ∧ no_empty added1 ∧
      ∀ e, tags_at els1 e = (if decide (k = e) then tags_at els e ∪ (xs ∖ tags_at ts e)
                             else tags_at els e) ∧
           tags_at added1 e = (if decide (k = e)
                               then tags_at added e ∪ (xs ∖ tags_at ts e ∖ tags_at els e)
                               else tags_at added e)) as (Hels1 & Hadd1 & Hone).
    { by eapply merge_added_step_spec. }
    destruct (IH els1 added1 Hnd Hels1 Hadd1) as (? & ? & Hall).
    split_and!; [done..|]. intros e. destruct (Hall e) as [-> ->], (Hone e) as [-> ->].
    rewrite tags_at_list_to_map_cons. destruct (decide (k = e)) as [->|]; [|done].
    rewrite tags_at_list_to_map_not_in by done. clear. set_solver.
Qed.

Lemma merge_removed_step_spec (els ts removed : TagMap T) (k : T) (xs : gset UniqueTag)
    (els1 ts1 removed1 : TagMap T) :
  no_empty els → no_empty ts → no_empty removed → xs ≠ ∅ → tags_at removed k = ∅ →
  merge_removed_step (els, ts, removed) (k, xs) = (els1, ts1, removed1) →
  no_empty els1 ∧ no_empty ts1 ∧ no_empty removed1 ∧
  ∀ e, tags_at els1 e = (if decide (k = e) then tags_at els e ∖ (tags_at ts e ∪ xs)
                         else tags_at els e) ∧
       tags_at ts1 e = (if decide (k = e) then tags_at ts e ∪ xs else tags_at ts e) ∧
       tags_at removed1 e = (if decide (k = e) then xs ∖ tags_at ts e else tags_at removed e).
Proof.
  intros Hels Hts Hrm Hxs Hk0 Hstep. unfold merge_removed_step in Hstep.
  assert (tags_at ts k ∪ xs ≠ ∅) as Hu by (clear -Hxs; set_solver).
  destruct (els !! k) as [ours|] eqn:Ek; [apply tags_at_Some in Ek | apply tags_at_None in Ek];
    repeat case_decide; simplify_eq/=;
    (split_and!; [by auto using no_empty_insert, no_empty_delete..|]);
    clear Hels Hts Hrm Hxs Hu;
    intros e; autorewrite with gossip; case_decide; subst; set_solver.
Qed.

(** The "merge tombstones" loop. *)
Lemma merge_removed_fold (l : list (T * gset UniqueTag)) (els ts removed : TagMap T) :
  NoDup l.*1 → no_empty els → no_empty ts → no_empty removed →
  Forall (λ item, item.2 ≠ ∅) l → (∀ k, k ∈ l.*1 → tags_at removed k = ∅) →
  let inc := list_to_map l : TagMap T in
  let st := foldl merge_removed_step (els, ts, removed) l in
  no_empty st.1.1 ∧ no_empty st.1.2 ∧ no_empty st.2 ∧
  ∀ e, tags_at st.1.1 e = (if decide (tags_at inc e = ∅) then tags_at els e
                           else tags_at els e ∖ (tags_at ts e ∪ tags_at inc e)) ∧
       tags_at st.1.2 e = tags_at ts e ∪ tags_at inc e ∧
       tags_at st.2 e = tags_at removed e ∪ (tags_at inc e ∖ tags_at ts e).
Proof.
  revert els ts removed. induction l as [|[k xs] l IH]; intros els ts removed Hnd Hels Hts Hrm Hne Hfresh.
  - cbn. split_and!; [done..|]. intros e. rewrite tags_at_empty, decide_True by done. set_solver.
  - apply NoDup_cons in Hnd as [Hk Hnd]. apply Forall_cons in Hne as [Hxs Hne]. simpl in Hk, Hxs.
    cbn [foldl].
    destruct (merge_removed_step (els, ts, removed) (k, xs)) as [[els1 ts1] removed1] eqn:Hstep.
    assert (no_empty els1 ∧ no_empty ts1 ∧ no_empty removed1 ∧
      ∀ e, tags_at els1 e = (if decide (k = e) then tags_at els e ∖ (tags_at ts e ∪ xs)
                             else tags_at els e) ∧
           tags_at ts1 e = (if decide (k = e) then tags_at ts e ∪ xs else tags_at ts e) ∧
           tags_at removed1 e = (if decide (k = e) then xs ∖ tags_at ts e else tags_at removed e))
      as (Hels1 & Hts1 & Hrm1 & Hone).
    { eapply merge_removed_step_spec; eauto. apply Hfresh. by left. }
    destruct (IH els1 ts1 removed1 Hnd Hels1 Hts1 Hrm1 Hne) as (? & ? & ? & Hall).
    { intros k' Hk'. destruct (Hone k') as (_ & _ & ->).
      rewrite decide_False by (intros Heq; apply Hk; by rewrite Heq). apply Hfresh. by right. }
    split_and!; [done..|]. intros e.
    destruct (Hall e) as (-> & -> & ->), (Hone e) as (-> & -> & ->).
    rewrite !tags_at_list_to_map_cons. destruct (decide (k = e)) as [->|]; [|done].
    rewrite !tags_at_list_to_map_not_in by done.
    rewrite (Hfresh e) by (by left).
    rewrite decide_True by done. rewrite decide_False by done. clear. set_solver.
Qed.

Lemma no_empty_hiter (m : TagMap T) : no_empty m → Forall (λ item, item.2 ≠ ∅) (hiter m).
Proof.
  intros Hne. apply Forall_forall. intros [k xs] Hin. apply elem_of_hiter in Hin.
  by apply (Hne k).
Qed.

(** What [apply_delta_parts] reports as new. *)
Definition fresh_added (s : OrSet) (inc : TagMap T) (e : T) : gset UniqueTag :=
  tags_at inc e ∖ dead s e ∖ live s e.
Definition fresh_removed (s : OrSet) (inc : TagMap T) (e : T) : gset UniqueTag :=
  tags_at inc e ∖ dead s e.

(** The effect of merging incoming additions [A] and removals [R]: removals
    accumulate, additions are kept unless tombstoned on either side, and what
    was new is logged under the next version (or nothing happens at all). *)
Lemma apply_delta_parts_spec (s : OrSet) (A R : TagMap T) :
  wf s → no_empty R →
  let s' := apply_delta_parts s A R in
  wf s' ∧
  (∀ e, dead s' e = dead s e ∪ tags_at R e) ∧
  (∀ e, live s' e = (live s e ∪ tags_at A e) ∖ (dead s e ∪ tags_at R e)) ∧
  changelog_floor s' = changelog_floor s ∧
  ((version s' = version s ∧ changelog s' = changelog s ∧
    (∀ e, fresh_added s A e = ∅ ∧ fresh_removed s R e = ∅)) ∨
   (version s' = u64_add (version s) 1 ∧
    ∃ a r, changelog s' = <[version s' := (a, r)]> (changelog s) ∧ no_empty a ∧ no_empty r ∧
      ∀ e, tags_at a e = fresh_added s A e ∧ tags_at r e = fresh_removed s R e)).
Proof.
  intros [Hel Hto Hdis] HR s'. subst s'. unfold apply_delta_parts.
  pose proof (merge_added_fold (tombstones s) (hiter A) (elements s) ∅
                (NoDup_hiter_keys A) Hel no_empty_empty) as HA.
  rewrite list_to_map_hiter in HA. cbv zeta in HA.
  destruct (foldl (merge_added_step _) _ (hiter A)) as [els added].
  destruct HA as (Hels & Hadded & HA); simpl in *.
  pose proof (merge_removed_fold (hiter R) els (tombstones s) ∅
                (NoDup_hiter_keys R) Hels Hto no_empty_empty (no_empty_hiter R HR)
                (λ k _, tags_at_empty k)) as HB.
  rewrite list_to_map_hiter in HB. cbv zeta in HB.
  destruct (foldl merge_removed_step _ (hiter R)) as [[els' ts'] removed].
  destruct HB as (Hels' & Hts' & Hremoved & HB); simpl in *.
  assert (∀ e, tags_at ts' e = dead s e ∪ tags_at R e) as HD by (intros e; apply HB).
  assert (∀ e, tags_at els' e = (live s e ∪ tags_at A e) ∖ (dead s e ∪ tags_at R e)) as HL.
  { intros e. destruct (HB e) as (-> & _). destruct (HA e) as (-> & _).
    specialize (Hdis e). unfold live, dead in *. case_decide; set_solver. }
  assert (∀ e, tags_at added e = fresh_added s A e ∧ tags_at removed e = fresh_removed s R e) as HF.
  { intros e. destruct (HB e) as (_ & _ & ->). destruct (HA e) as (_ & ->).
    rewrite !tags_at_empty. unfold fresh_added, fresh_removed, live, dead. set_solver. }
  assert (wf (mkOrSet els' ts' (version s) (changelog_floor s) (changelog s))) as Hwf.
  { split; [done..|]. intros e. unfold live, dead; simpl. rewrite HL, HD. set_solver. }
  unfold record_changelog_entry. case_decide as Hnew.
  - destruct Hnew as [-> ->]. split_and!; [done..|]. left. split_and!; [done..|].
    intros e. destruct (HF e) as [<- <-]. by rewrite !tags_at_empty.
  - split_and!; [destruct Hwf; by split|done..|]. right. split; [done|].
    by exists added, removed.
Qed.

(** ** Local operations *)

Lemma wf_new : wf new.
Proof. split; simpl; auto with gossip. intros e. unfold live, dead; simpl. by rewrite !tags_at_empty. Qed.

Lemma add_spec (s : OrSet) (element : T) (tag : UniqueTag) :
  wf s →
  let s' := add s element tag in
  wf s' ∧
  (∀ e, live s' e = if decide (element = e) then {[tag]} ∪ live s e else live s e) ∧
  (∀ e, dead s' e = if decide (element = e) then dead s e ∖ {[tag]} else dead s e).
Proof.
  intros [Hel Hto Hdis] s'.
  assert (∀ e, live s' e = if decide (element = e) then {[tag]} ∪ live s e else live s e) as HL.
  { intros e. apply tags_at_entry_insert. }
  assert (∀ e, dead s' e = if decide (element = e) then dead s e ∖ {[tag]} else dead s e) as HD.
  { intros e. subst s'. unfold dead, add; simpl.
    destruct (tombstones s !! element) as [ts|] eqn:Et.
    - apply tags_at_Some in Et as <-. case_decide as Hemp; autorewrite with gossip;
        destruct (decide (element = e)) as [->|]; done.
    - destruct (decide (element = e)) as [->|]; [|done].
      rewrite tags_at_None by done. set_solver. }
  split_and!; [split|done..].
  - by apply no_empty_entry_insert.
  - subst s'; simpl. repeat case_match; auto using no_empty_delete, no_empty_insert.
  - intros e. rewrite HL, HD. specialize (Hdis e). case_decide; set_solver.
Qed.

Lemma fold_insert_spec (element : T) (xs : gset UniqueTag) (m : TagMap T) :
  no_empty m →
  no_empty (set_fold (λ tag m, entry_insert element tag m) m xs) ∧
  ∀ e, tags_at (set_fold (λ tag m, entry_insert element tag m) m xs) e =
    if decide (element = e) then tags_at m e ∪ xs else tags_at m e.
Proof.
  intros Hm. apply (set_fold_ind_L (λ (r : TagMap T) (xs : gset UniqueTag),
    no_empty r ∧ ∀ e, tags_at r e = if decide (element = e) then tags_at m e ∪ xs else tags_at m e)).
  - split; [done|]. intros e. case_decide; set_solver.
  - intros tag xs' r Htag [Hr IH]. split; [by apply no_empty_entry_insert|].
    intros e. rewrite tags_at_entry_insert, IH. case_decide; set_solver.
Qed.

Lemma remove_spec (s : OrSet) (element : T) :
  wf s →
  let s' := remove s element in
  wf s' ∧
  (∀ e, live s' e = if decide (element = e) then ∅ else live s e) ∧
  (∀ e, dead s' e = if decide (element = e) then dead s e ∪ live s e else dead s e).
Proof.
  intros [Hel Hto Hdis] s'. subst s'. unfold remove.
  destruct (elements s !! element) as [tags|] eqn:Et; simpl.
  - apply tags_at_Some in Et as <-.
    destruct (fold_insert_spec element (tags_at (elements s) element) (tombstones s) Hto)
      as [Hto' HD].
    match goal with |- context [mkOrSet ?a ?b ?c ?d ?l] => set (s' := mkOrSet a b c d l) end.
    assert (∀ e, live s' e = if decide (element = e) then ∅ else live s e) as HL.
    { intros e. unfold live; simpl. apply tags_at_delete. }
    assert (∀ e, dead s' e = if decide (element = e) then dead s e ∪ live s e else dead s e) as HD'.
    { intros e. unfold dead; simpl. rewrite HD. by destruct (decide (element = e)) as [->|]. }
    split_and!; [split|done..]; [by apply no_empty_delete|done|].
    intros e. rewrite HL, HD'. specialize (Hdis e). case_decide; set_solver.
  - apply tags_at_None in Et. split_and!; [done|intros e..].
    + destruct (decide (element = e)) as [->|]; done.
    + destruct (decide (element = e)) as [->|]; [|done]. unfold live. rewrite Et. set_solver.
Qed.

Lemma contains_live (s : OrSet) (e : T) : wf s → contains s e = bool_decide (live s e ≠ ∅).
Proof.
  intros [Hel _ _]. unfold contains, live. rewrite (no_empty_lookup (elements s)) by done.
  case_decide; repeat case_bool_decide; naive_solver.
Qed.

(** ** Merging *)

Lemma merge_state_spec (s other : OrSet) :
  wf s → wf other →
  wf (merge_state s other) ∧
  (∀ e, dead (merge_state s other) e = dead s e ∪ dead other e) ∧
  (∀ e, live (merge_state s other) e = (live s e ∪ live other e) ∖ (dead s e ∪ dead other e)).
Proof.
  intros Hs [_ Hot _]. destruct (apply_delta_parts_spec s (elements other) (tombstones other) Hs Hot)
    as (? & ? & ? & _). done.
Qed.

Lemma merge_spec (s : OrSet) (d : OrSetDelta) :
  wf s → no_empty (d_removed d) →
  wf (merge s d) ∧
  (∀ e, dead (merge s d) e = dead s e ∪ tags_at (d_removed d) e) ∧
  (∀ e, live (merge s d) e =
        (live s e ∪ tags_at (d_added d) e) ∖ (dead s e ∪ tags_at (d_removed d) e)).
Proof.
  intros Hs Hd. destruct (apply_delta_parts_spec s (d_added d) (d_removed d) Hs Hd)
    as (? & ? & ? & _). done.
Qed.

(** Merging a whole sequence of states. *)
Definition merge_states (s : OrSet) (others : list OrSet) : OrSet := foldl merge_state s others.

Lemma merge_states_spec (others : list OrSet) (s : OrSet) :
  wf s → Forall wf others →
  wf (merge_states s others) ∧
  (∀ e tag, tag ∈ dead (merge_states s others) e ↔
            tag ∈ dead s e ∨ ∃ o, o ∈ others ∧ tag ∈ dead o e) ∧
  (∀ e tag, tag ∈ live (merge_states s others) e ↔
            (tag ∈ live s e ∨ ∃ o, o ∈ others ∧ tag ∈ live o e) ∧
            tag ∉ dead (merge_states s others) e).
Proof.
  revert s. induction others as [|o others IH]; intros s Hs Hos.
  - cbn. split_and!; [done| |]; intros e tag.
    + set_solver.
    + pose proof (wf_disjoint s Hs e). set_solver.
  - apply Forall_cons in Hos as [Ho Hos]. cbn.
    destruct (merge_state_spec s o Hs Ho) as (Hwf & HD & HL).
    destruct (IH (merge_state s o) Hwf Hos) as (Hwf' & HD' & HL'). clear IH.
    change (foldl merge_state (merge_state s o) others) with (merge_states (merge_state s o) others).
    split_and!; [done| |]; intros e tag; specialize (HD e); specialize (HL e).
    + rewrite HD', HD. set_solver.
    + rewrite HL', HL, HD', HD. set_solver.
Qed.

(** ** The changelog *)

(** The tags logged for [e] under versions [from .. from + n - 1], for one
    side ([fst]: additions, [snd]: removals) of the entries. *)
Fixpoint log_union (side : ChangelogEntry → TagMap T) (log : gmap Z ChangelogEntry)
    (from : Z) (n : nat) (e : T) : gset UniqueTag :=
  match n with
  | O => ∅
  | S n =>
      match log !! from with Some entry => tags_at (side entry) e | None => ∅ end
      ∪ log_union side log (from + 1) n e
  end.

Lemma log_union_snoc (side : ChangelogEntry → TagMap T) (log : gmap Z ChangelogEntry) (from : Z) (n : nat) (e : T) :
  log_union side log from (S n) e =
  log_union side log from n e
  ∪ match log !! (from + Z.of_nat n) with Some entry => tags_at (side entry) e | None => ∅ end.
Proof.
  revert from. induction n as [|n IH]; intros from.
  - simpl. rewrite Z.add_0_r. set_solver.
  - change (log_union side log from (S (S n)) e) with
      (match log !! from with Some entry => tags_at (side entry) e | None => ∅ end
       ∪ log_union side log (from + 1) (S n) e).
    rewrite IH. simpl. replace (from + 1 + Z.of_nat n) with (from + Z.pos (Pos.of_succ_nat n)) by lia.
    set_solver.
Qed.

Lemma log_union_ext (side : ChangelogEntry → TagMap T) (log log' : gmap Z ChangelogEntry) (from : Z) (n : nat) (e : T) :
  (∀ v, from ≤ v < from + Z.of_nat n → log !! v = log' !! v) →
  log_union side log from n e = log_union side log' from n e.
Proof.
  revert from. induction n as [|n IH]; intros from Heq; [done|]. simpl.
  rewrite (Heq from) by lia. rewrite (IH (from + 1)); [done|]. intros v Hv. apply Heq. lia.
Qed.

Lemma extend_all_spec (acc src : TagMap T) :
  no_empty acc → no_empty src →
  no_empty (extend_all acc src) ∧
  ∀ e, tags_at (extend_all acc src) e = tags_at acc e ∪ tags_at src e.
Proof.
  intros Hacc Hsrc. unfold extend_all.
  assert (∀ e, tags_at src e = tags_at (list_to_map (hiter src) : TagMap T) e) as Hin.
  { intros e. by rewrite list_to_map_hiter. }
  pose proof (no_empty_hiter src Hsrc) as Hne. pose proof (NoDup_hiter_keys src) as Hnd.
  setoid_rewrite Hin. clear Hsrc Hin. revert acc Hacc.
  induction (hiter src) as [|[k xs] l IH]; intros acc Hacc.
  - cbn. split; [done|]. intros e. rewrite tags_at_empty. set_solver.
  - apply Forall_cons in Hne as [Hxs Hne]. apply NoDup_cons in Hnd as [Hk Hnd]. simpl in Hxs, Hk.
    cbn [foldl fst snd].
    destruct (IH Hne Hnd (entry_extend k xs acc)) as [? IHe]; [by apply no_empty_entry_extend|].
    split; [done|]. intros e. rewrite IHe, tags_at_entry_extend, tags_at_list_to_map_cons.
    destruct (decide (k = e)) as [->|]; [|done].
    rewrite tags_at_list_to_map_not_in by done. clear. set_solver.
Qed.

Definition log_no_empty (log : gmap Z ChangelogEntry) : Prop :=
  map_Forall (λ _ entry, no_empty entry.1 ∧ no_empty entry.2) log.

Lemma collect_delta_spec (log : gmap Z ChangelogEntry) (n : nat) (from : Z) (a r : TagMap T) :
  log_no_empty log → no_empty a → no_empty r →
  (∀ v, from ≤ v < from + Z.of_nat n → is_Some (log !! v)) →
  ∃ A R, collect_delta log from n a r = Some (A, R) ∧ no_empty A ∧ no_empty R ∧
    ∀ e, tags_at A e = tags_at a e ∪ log_union fst log from n e ∧
         tags_at R e = tags_at r e ∪ log_union snd log from n e.
Proof.
  intros Hlog. revert from a r. induction n as [|n IH]; intros from a r Ha Hr Hall.
  - exists a, r. split_and!; [done..|]. intros e. simpl. set_solver.
  - destruct (Hall from) as [[adds rems] Hfrom]; [lia|].
    destruct (Hlog from _ Hfrom) as [Hadds Hrems]; simpl in Hadds, Hrems.
    destruct (extend_all_spec a adds Ha Hadds) as [Ha' HA].
    destruct (extend_all_spec r rems Hr Hrems) as [Hr' HR].
    destruct (IH (from + 1) (extend_all a adds) (extend_all r rems) Ha' Hr')
      as (A & R & Hc & HAne & HRne & Hu).
    { intros v Hv. apply Hall. lia. }
    exists A, R. split_and!; [|done..|].
    + simpl. by rewrite Hfrom.
    + intros e. destruct (Hu e) as [-> ->]. simpl. rewrite Hfrom, HA, HR. simpl. clear. set_solver.
Qed.

(** The changelog holds exactly the versions above the floor. *)
Record log_ok (s : OrSet) : Prop := {
  log_floor : 0 ≤ changelog_floor s ≤ version s;
  log_dom : ∀ v, is_Some (changelog s !! v) ↔ changelog_floor s < v ≤ version s;
  log_entries : log_no_empty (changelog s);
}.

Lemma log_ok_new : log_ok new.
Proof.
  split; simpl; [lia| |apply map_Forall_empty].
  intros v. rewrite lookup_empty. split; [by intros []|lia].
Qed.

(** How one operation moves a replica: not at all, by one logged version, or
    by dropping old changelog entries. *)
Definition quiet (s s' : OrSet) : Prop :=
  version s' = version s ∧ changelog_floor s' = changelog_floor s ∧
  changelog s' = changelog s ∧ same_state s s'.

Definition advances (s s' : OrSet) : Prop :=
  version s' = version s + 1 ∧ changelog_floor s' = changelog_floor s ∧
  ∃ a r, changelog s' = <[version s + 1 := (a, r)]> (changelog s) ∧
    no_empty a ∧ no_empty r ∧
    ∀ e, dead s' e = dead s e ∪ tags_at r e ∧
         live s' e = (live s e ∪ tags_at a e) ∖ dead s' e.

(** The operations a replica performs.  Tags are unique: an [add] never
    reuses a tag that was already removed. *)
Inductive step : OrSet → OrSet → Prop :=
| step_add s e tag : version s < U64_MAX → tag ∉ dead s e → step s (add s e tag)
| step_remove s e : version s < U64_MAX → step s (remove s e)
| step_merge_state s o : version s < U64_MAX → wf o → step s (merge_state s o)
| step_merge s d : version s < U64_MAX → no_empty (d_removed d) → step s (merge s d)
| step_compact s k : 0 ≤ k → step s (compact s k).

Lemma next_version (s : OrSet) :
  log_ok s → version s < U64_MAX → u64_add (version s) 1 = version s + 1.
Proof. intros [? _ _] ?. apply u64_add_exact. unfold u64. lia. Qed.

Lemma next_unlogged (s : OrSet) : log_ok s → changelog s !! (version s + 1) = None.
Proof.
  intros [_ Hdom _]. apply eq_None_not_Some. rewrite Hdom. lia.
Qed.

Lemma apply_delta_parts_moves (s : OrSet) (A R : TagMap T) :
  wf s → log_ok s → version s < U64_MAX → no_empty R →
  quiet s (apply_delta_parts s A R) ∨ advances s (apply_delta_parts s A R).
Proof.
  intros Hs Hl Hv HR.
  destruct (apply_delta_parts_spec s A R Hs HR) as (_ & HD & HL & Hfl & [(Hve & Hlog & Hno)|(Hve & Hlog)]).
  - left. split_and!; [done..|]. intros e. rewrite HD, HL. destruct (Hno e) as [Ha Hr].
    pose proof (wf_disjoint s Hs e) as Hd. unfold fresh_added, fresh_removed in *.
    pose proof (difference_empty_incl _ _ Hr) as Hr'.
    pose proof (difference_empty_incl _ _ Ha) as Ha'. clear -Ha' Hr' Hd.
    split; apply set_eq; intros tag; specialize (Ha' tag); specialize (Hr' tag); set_solver.
  - right. rewrite next_version in Hve by done. rewrite Hve in Hlog.
    split_and!; [done..|]. destruct Hlog as (a & r & Hlog & Ha & Hr & Hf).
    exists a, r. split_and!; [done..|]. intros e. rewrite HL, HD.
    destruct (Hf e) as [-> ->]. unfold fresh_added, fresh_removed. clear.
    split; set_by_cases (dead s e) (live s e).
Qed.

Lemma add_advances (s : OrSet) (e : T) (tag : UniqueTag) :
  wf s → log_ok s → version s < U64_MAX → tag ∉ dead s e → advances s (add s e tag).
Proof.
  intros Hs Hl Hv Htag. destruct (add_spec s e tag Hs) as (_ & HL & HD).
  split_and!; [by apply next_version|done|].
  exists (entry_insert e tag ∅), ∅. split_and!; [|by auto with gossip..|].
  - simpl. rewrite next_version, next_unlogged by done. done.
  - intros e'. pose proof (wf_disjoint s Hs e') as Hd.
    rewrite HL, HD, tags_at_entry_insert, !tags_at_empty. clear -Htag Hd.
    destruct (decide (e = e')) as [->|]; set_solver.
Qed.

Lemma remove_moves (s : OrSet) (e : T) :
  wf s → log_ok s → version s < U64_MAX → quiet s (remove s e) ∨ advances s (remove s e).
Proof.
  intros Hs Hl Hv. destruct (remove_spec s e Hs) as (_ & HL & HD).
  unfold remove in *. destruct (elements s !! e) as [tags|] eqn:Et; [right|by left].
  split_and!; [by apply next_version|done|].
  assert (tags ≠ ∅) by (by apply (wf_elements s Hs e)).
  exists ∅, (entry_extend e tags ∅). split_and!; [|by auto with gossip..|].
  - simpl. rewrite next_version, next_unlogged by done. done.
  - intros e'. pose proof (wf_disjoint s Hs e') as Hd. apply tags_at_Some in Et as <-.
    rewrite HL, HD, tags_at_entry_extend, !tags_at_empty. unfold live, dead in *. clear -Hd.
    destruct (decide (e = e')) as [->|]; set_solver.
Qed.

Lemma quiet_log_ok (s s' : OrSet) : quiet s s' → log_ok s → log_ok s'.
Proof. intros (Hv & Hf & Hl & _) [? ? ?]. split; rewrite ?Hv, ?Hf, ?Hl; done. Qed.

Lemma advances_log_ok (s s' : OrSet) : advances s s' → log_ok s → log_ok s'.
Proof.
  intros (Hv & Hf & a & r & Hl & Ha & Hr & _) [Hfl Hdom Hent]. split; rewrite ?Hv, ?Hf, ?Hl.
  - lia.
  - intros v. rewrite lookup_insert_is_Some, Hdom. destruct (decide (v = version s + 1)); lia.
  - by apply map_Forall_insert_2.
Qed.

Lemma compact_log_ok (s : OrSet) k : 0 ≤ k → log_ok s → log_ok (compact s k).
Proof.
  intros Hk [Hfl Hdom Hent]. unfold compact. case_decide; [|by split].
  split; simpl.
  - lia.
  - intros v. split.
    + intros [en [Hen Hlt]%map_lookup_filter_Some]. simpl in Hlt.
      pose proof (proj1 (Hdom v) (ex_intro _ en Hen)). lia.
    + intros Hv. destruct (proj2 (Hdom v)) as [en Hen]; [lia|].
      exists en. apply map_lookup_filter_Some. simpl. split; [done|lia].
  - apply map_Forall_lookup. intros v en [Hen _]%map_lookup_filter_Some. by apply (Hent v).
Qed.

(** Every step keeps both invariants and is one of the three moves. *)
Lemma step_inv (s s' : OrSet) :
  step s s' → wf s → log_ok s →
  wf s' ∧ log_ok s' ∧ (quiet s s' ∨ advances s s' ∨ ∃ k, 0 ≤ k ∧ s' = compact s k).
Proof.
  intros Hstep Hwf Hlog.
  assert (wf s' ∧ (quiet s s' ∨ advances s s' ∨ ∃ k, 0 ≤ k ∧ s' = compact s k)) as [Hwf' Hmove].
  { inversion Hstep as [? e tag Hv Htag|? e Hv|? o Hv Ho|? d Hv Hd|? k Hk]; subst.
    - split; [by apply add_spec|]. right; left. by apply add_advances.
    - split; [by apply remove_spec|]. destruct (remove_moves s e); auto.
    - split; [by apply merge_state_spec|].
      destruct (apply_delta_parts_moves s (elements o) (tombstones o)); auto using wf_tombstones.
    - split; [by apply merge_spec|].
      destruct (apply_delta_parts_moves s (d_added d) (d_removed d)); auto.
    - split; [|by eauto]. destruct Hwf. unfold compact. by case_decide. }
  split_and!; [done| |done].
  destruct Hmove as [?|[?|(k & ? & ->)]];
    eauto using quiet_log_ok, advances_log_ok, compact_log_ok.
Qed.

(** The log of [s] above the version of [s0] accounts for everything that
    happened since. *)
Definition covers (s0 s : OrSet) : Prop :=
  version s0 ≤ version s ∧
  (changelog_floor s ≤ version s0 →
   let n := Z.to_nat (version s - version s0) in
   ∀ e, dead s e = dead s0 e ∪ log_union snd (changelog s) (version s0 + 1) n e ∧
        live s e = (live s0 e ∪ log_union fst (changelog s) (version s0 + 1) n e) ∖ dead s e).

Lemma covers_refl (s : OrSet) : wf s → covers s s.
Proof.
  intros Hwf. split; [lia|]. intros _. cbv zeta. rewrite Z.sub_diag. intros e. simpl.
  pose proof (wf_disjoint s Hwf e). set_solver.
Qed.

Lemma covers_advances (s0 s s' : OrSet) : covers s0 s → advances s s' → covers s0 s'.
Proof.
  intros [Hle Hc] (Hv & Hf & a & r & Hl & _ & _ & Hst). split; [lia|].
  rewrite Hf, Hv, Hl. cbv zeta in *. intros Hfl e. specialize (Hc Hfl e) as [HD HL].
  destruct (Hst e) as [HD' HL'].
  replace (Z.to_nat (version s + 1 - version s0)) with (S (Z.to_nat (version s - version s0))) by lia.
  rewrite !log_union_snoc.
  replace (version s0 + 1 + Z.of_nat (Z.to_nat (version s - version s0))) with (version s + 1) by lia.
  rewrite lookup_insert_eq.
  assert (∀ side, log_union side (<[version s + 1 := (a, r)]> (changelog s)) (version s0 + 1)
                    (Z.to_nat (version s - version s0)) e
                = log_union side (changelog s) (version s0 + 1)
                    (Z.to_nat (version s - version s0)) e) as Hext.
  { intros side. apply log_union_ext. intros v Hv'. apply lookup_insert_ne. lia. }
  rewrite !Hext. simpl. rewrite HL'. rewrite HD' in *. rewrite HL, HD. clear.
  split; [set_solver|]. set_by_cases (dead s0 e) (log_union snd (changelog s) (version s0 + 1)
    (Z.to_nat (version s - version s0)) e).
Qed.

Lemma covers_compact (s0 s : OrSet) k : covers s0 s → 0 ≤ k → covers s0 (compact s k).
Proof.
  intros [Hle Hc] Hk. unfold compact. case_decide; [|done]. split; [done|]. simpl. cbv zeta in *.
  intros Hfl e. destruct (Hc ltac:(lia) e) as [HD HL]. unfold dead, live in *. simpl.
  assert (∀ side, log_union side (filter (λ kv, version s - k < kv.1) (changelog s)) (version s0 + 1)
                    (Z.to_nat (version s - version s0)) e
                = log_union side (changelog s) (version s0 + 1)
                    (Z.to_nat (version s - version s0)) e) as Hext.
  { intros side. apply log_union_ext. intros v Hv'. rewrite map_lookup_filter.
    destruct (changelog s !! v); simpl; [|done]. by rewrite option_guard_True by (simpl; lia). }
  by rewrite !Hext.
Qed.

Lemma covers_steps (s0 s : OrSet) :
  rtc step s0 s → wf s0 → log_ok s0 → wf s ∧ log_ok s ∧ covers s0 s.
Proof.
  intros Hsteps Hwf Hlog. revert s Hsteps. apply (rtc_ind_r (λ s, wf s ∧ log_ok s ∧ covers s0 s)).
  - auto using covers_refl.
  - intros s s' _ Hstep (Hs & Hl & Hc). destruct (step_inv s s' Hstep Hs Hl) as (? & ? & Hm).
    split_and!; [done..|]. destruct Hm as [(Hv & Hf & Hlg & Hss)|[?|(k & ? & ->)]].
    + destruct Hc as [Hle Hc]. split; [by rewrite Hv|]. rewrite Hf, Hv, Hlg. cbv zeta in *. intros Hfl e.
      destruct (Hss e) as [<- <-]. by apply Hc.
    + by eapply covers_advances.
    + by apply covers_compact.
Qed.

(** A delta is produced whenever the floor allows it, and merging it into a
    replica that already holds the older state gives the newer one. *)
Lemma delta_completes (s0 s : OrSet) :
  rtc step s0 s → wf s0 → log_ok s0 →
  version s0 < version s → changelog_floor s ≤ version s0 →
  ∃ d, delta s (version s0) = Some d ∧ d_version d = version s ∧ no_empty (d_removed d) ∧
    ∀ r, wf r → same_state (merge (merge_state r s0) d) (merge_state r s).
Proof.
  intros Hsteps Hwf Hlog Hlt Hfl.
  destruct (covers_steps s0 s Hsteps Hwf Hlog) as (Hs & Hls & _ & Hc).
  specialize (Hc Hfl). destruct Hls as [Hfloor Hdom Hent].
  destruct (collect_delta_spec (changelog s) (Z.to_nat (version s - version s0))
              (version s0 + 1) ∅ ∅ Hent no_empty_empty no_empty_empty)
    as (A & R & Hcol & HA & HR & Hu).
  { intros v Hv. apply Hdom. lia. }
  exists (mkDelta A R (version s)). split_and!; [|done..|].
  { unfold delta. rewrite !decide_False by lia. by rewrite Hcol. }
  intros r Hr e. destruct (merge_state_spec r s0 Hr Hwf) as (Hr0 & HD0 & HL0).
  destruct (merge_spec (merge_state r s0) (mkDelta A R (version s)) Hr0 HR) as (_ & HD1 & HL1).
  destruct (merge_state_spec r s Hr Hs) as (_ & HD2 & HL2).
  rewrite HD1, HL1, HD2, HL2, HD0, HL0. simpl. destruct (Hu e) as [-> ->], (Hc e) as [HD HL].
  rewrite !tags_at_empty, HL, HD. clear.
  generalize (log_union fst (changelog s) (version s0 + 1) (Z.to_nat (version s - version s0)) e) as A.
  generalize (log_union snd (changelog s) (version s0 + 1) (Z.to_nat (version s - version s0)) e) as R.
  intros R A. split; [|set_solver]. apply set_eq. intros t.
  destruct (decide (t ∈ R)), (decide (t ∈ dead s0 e)), (decide (t ∈ dead r e)); set_solver.
Qed.

(** ** Queries and the canonical form *)

Lemma max_retained_spec `{!SetIter UniqueTag} (s : OrSet) (peer : PeerId) (m : Z) :
  max_retained_sequence_for_peer s peer = Some m ↔
  (∃ e, (peer, m) ∈ live s e ∪ dead s e) ∧
  (∀ e q, (peer, q) ∈ live s e ∪ dead s e → q ≤ m).
Proof.
  unfold max_retained_sequence_for_peer. rewrite iter_max_spec.
  assert (∀ q, q ∈ (filter (λ tag : UniqueTag, tag.1 = peer)
      (((hiter (elements s)).*2 ++ (hiter (tombstones s)).*2) ≫= siter)).*2 ↔
      ∃ e, (peer, q) ∈ live s e ∪ dead s e) as Hin.
  { intros q. rewrite list_elem_of_fmap. setoid_rewrite list_elem_of_filter.
    setoid_rewrite list_elem_of_bind. setoid_rewrite elem_of_app.
    setoid_rewrite list_elem_of_fmap. unfold live, dead, tags_at. split.
    - intros ([p n] & -> & Hp & xs & Hin%elem_of_siter & Hxs). simpl in *. subst p.
      destruct Hxs as [([e ?] & -> & He%elem_of_hiter)|([e ?] & -> & He%elem_of_hiter)];
        exists e; simpl in *; rewrite He; set_solver.
    - intros (e & He). exists (peer, q). split; [done|]. split; [done|].
      apply elem_of_union in He as [He|He].
      + destruct (elements s !! e) as [xs|] eqn:E; [|set_solver]. exists xs.
        split; [by apply elem_of_siter|]. left. exists (e, xs). by rewrite elem_of_hiter.
      + destruct (tombstones s !! e) as [xs|] eqn:E; [|set_solver]. exists xs.
        split; [by apply elem_of_siter|]. right. exists (e, xs). by rewrite elem_of_hiter. }
  setoid_rewrite Hin. naive_solver.
Qed.

Lemma canonical_tags_unique (si1 si2 : SetIter UniqueTag) (X : gset UniqueTag) :
  canonical_tags (SetIter0 := si1) X = canonical_tags (SetIter0 := si2) X.
Proof.
  unfold canonical_tags. apply (Sorted_unique tag_le).
  - apply Sorted_merge_sort, _.
  - apply Sorted_merge_sort, _.
  - by rewrite !merge_sort_Permutation, (siter_perm (SetIter := si1)), (siter_perm (SetIter := si2)).
Qed.

(** ** Properties *)

(** C16. Convergence: replicas that have merged the same states, in whatever
    order and however often, hold the same live tags and tombstones, and
    merging is commutative. *)
Theorem orset_convergence (s : OrSet) (xs ys : list OrSet) :
  wf s → Forall wf xs → Forall wf ys → (∀ o, o ∈ xs ↔ o ∈ ys) →
  same_state (merge_states s xs) (merge_states s ys) ∧
  ∀ o, o ∈ xs → same_state (merge_state s o) (merge_state o s).
Proof.
  intros Hs Hxs Hys Hiff. split.
  - destruct (merge_states_spec xs s Hs Hxs) as (_ & HDx & HLx).
    destruct (merge_states_spec ys s Hs Hys) as (_ & HDy & HLy).
    intros e. split; apply set_eq; intros tag.
    + rewrite HLx, HLy, HDx, HDy. by setoid_rewrite Hiff.
    + rewrite HDx, HDy. by setoid_rewrite Hiff.
  - intros o Ho. rewrite Forall_forall in Hxs. specialize (Hxs o Ho).
    destruct (merge_state_spec s o Hs Hxs) as (_ & HD & HL).
    destruct (merge_state_spec o s Hxs Hs) as (_ & HD' & HL').
    intros e. rewrite HD, HD', HL, HL'. clear. set_solver.
Qed.

(** C18. Every state a replica reaches from [new] by local operations, merges
    and compactions satisfies the representation invariant (no empty tag
    sets, no tag both live and tombstoned), and its changelog holds exactly
    the versions above the floor. *)
Theorem orset_reachable_invariant (s : OrSet) : rtc step new s → wf s ∧ log_ok s.
Proof.
  intros Hsteps. destruct (covers_steps new s Hsteps wf_new log_ok_new) as (? & ? & _). done.
Qed.

(** C17. Delta completeness: when the changelog floor has not passed an older
    state's version, a delta since that version is produced, and merging it
    into any replica that holds the older state has the effect of merging the
    whole newer state. *)
Theorem orset_delta_complete (s0 s : OrSet) :
  rtc step s0 s → wf s0 → log_ok s0 →
  version s0 < version s → changelog_floor s ≤ version s0 →
  ∃ d, delta s (version s0) = Some d ∧ d_version d = version s ∧
    ∀ r, wf r → same_state (merge (merge_state r s0) d) (merge_state r s).
Proof.
  intros. destruct (delta_completes s0 s) as (d & ? & ? & _ & ?); eauto.
Qed.

(** Observed-remove semantics: after replica [a] removed [e] and merged
    [b], the element is present exactly when [b] carries a live tag for it
    that [a] had never seen; a concurrent add wins, an observed one is
    removed. *)
Theorem orset_add_wins (a b : OrSet) (e : T) :
  wf a → wf b →
  (contains (merge_state (remove a e) b) e = true ↔
   ∃ tag, tag ∈ live b e ∧ tag ∉ live a e ∧ tag ∉ dead a e).
Proof.
  intros Ha Hb. destruct (remove_spec a e Ha) as (Hr & HL & HD).
  destruct (merge_state_spec (remove a e) b Hr Hb) as (Hm & _ & HLm).
  rewrite contains_live, bool_decide_eq_true by done.
  rewrite gset_nonempty, HLm, HL, HD, !decide_True by done.
  pose proof (wf_disjoint b Hb e) as Hd. clear -Hd.
  split; intros [tag Htag]; exists tag; set_solver.
Qed.

(** [max_retained_sequence_for_peer] is the greatest sequence number of
    the peer among all live tags and tombstones, whatever the iteration
    order. *)
Theorem orset_max_retained `{!SetIter UniqueTag} (s : OrSet) (peer : PeerId) (m : Z) :
  max_retained_sequence_for_peer s peer = Some m ↔
  (∃ e, (peer, m) ∈ live s e ∪ dead s e) ∧
  (∀ e q, (peer, q) ∈ live s e ∪ dead s e → q ≤ m).
Proof. apply max_retained_spec. Qed.

(** The canonical retained form is deterministic: replicas with the same
    replicated state produce the same wire value, whatever the hash iteration
    orders on the two nodes. *)
Theorem orset_canonical_deterministic (si1 si2 : SetIter UniqueTag) (s1 s2 : OrSet) :
  wf s1 → wf s2 → same_state s1 s2 →
  canonical_retained_wire (SetIter0 := si1) s1 = canonical_retained_wire (SetIter0 := si2) s2.
Proof.
  intros H1 H2 Hss.
  assert (elements s1 = elements s2) as He.
  { apply no_empty_ext; [by apply wf_elements..|]. intros e. by destruct (Hss e). }
  assert (tombstones s1 = tombstones s2) as Ht.
  { apply no_empty_ext; [by apply wf_tombstones..|]. intros e. by destruct (Hss e). }
  unfold canonical_retained_wire. rewrite He, Ht.
  f_equal; apply map_fmap_ext; intros; apply canonical_tags_unique.
Qed.
End OrSet.
Arguments OrSet T {_ _}.
Arguments OrSetDelta T {_ _}.
End OrSet.

(** ** Witnesses *)

Module OrSetWitness.
Import OrSet.
#[local] Instance nat_iter : HashIter nat (gset UniqueTag) := canonical_iter.
#[local] Instance tag_siter : SetIter UniqueTag := canonical_siter.

Definition alice : PeerId := mkPeerId (replicate 32 1).
Definition bob : PeerId := mkPeerId (replicate 32 2).
(** Alice adds 7 and 9, then removes 7; Bob adds 7. *)
Definition replica_a1 : OrSet nat := add (add new 7%nat (alice, 1)) 9%nat (alice, 2).
Definition replica_a : OrSet nat := remove replica_a1 7%nat.
Definition replica_b : OrSet nat := add new 7%nat (bob, 1).


Lemma replica_a1_steps : rtc step new replica_a1.
Proof.
  eapply rtc_l; [apply (step_add new 7%nat (alice, 1))|].
  - by vm_compute.
  - apply (bool_decide_unpack _). by vm_compute.
  - apply rtc_once, step_add; [by vm_compute|]. apply (bool_decide_unpack _). by vm_compute.
Qed.

Lemma replica_a_steps : rtc step replica_a1 replica_a.
Proof. apply rtc_once, step_remove. by vm_compute. Qed.

Lemma wf_replica_a1 : wf replica_a1.
Proof. unfold replica_a1. apply add_spec, add_spec, wf_new. Qed.

Lemma log_ok_replica_a1 : log_ok replica_a1.
Proof. by destruct (covers_steps _ _ replica_a1_steps wf_new log_ok_new) as (? & ? & ?). Qed.

Lemma wf_replica_a : wf replica_a.
Proof. apply remove_spec, wf_replica_a1. Qed.

Lemma wf_replica_b : wf replica_b.
Proof. apply add_spec, wf_new. Qed.

Lemma orset_convergence_witness :
  same_state (merge_states new [replica_a; replica_b])
             (merge_states new [replica_b; replica_a; replica_b]).
Proof.
  apply orset_convergence.
  - apply wf_new.
  - rewrite !Forall_cons, Forall_nil. auto using wf_replica_a, wf_replica_b.
  - rewrite !Forall_cons, Forall_nil. auto using wf_replica_a, wf_replica_b.
  - intros o. set_solver.
Defined.

Lemma orset_reachable_invariant_witness : wf replica_a1 ∧ log_ok replica_a1.
Proof. apply orset_reachable_invariant, replica_a1_steps. Defined.

Lemma orset_delta_complete_witness :
  ∃ d, delta replica_a (version replica_a1) = Some d ∧ d_version d = version replica_a ∧
    ∀ r, wf r → same_state (merge (merge_state r replica_a1) d) (merge_state r replica_a).
Proof.
  apply orset_delta_complete.
  - apply replica_a_steps.
  - apply wf_replica_a1.
  - apply log_ok_replica_a1.
  - by vm_compute.
  - by vm_compute.
Defined.

(** Alice removes 7 while Bob adds it concurrently: Bob's add wins. *)
Lemma orset_add_wins_witness : contains (merge_state (remove replica_a1 7%nat) replica_b) 7%nat = true.
Proof.
  apply orset_add_wins; [apply wf_replica_a1|apply wf_replica_b|].
  exists (bob, 1). split_and!; apply (bool_decide_unpack _); by vm_compute.
Defined.

Lemma orset_canonical_deterministic_witness :
  canonical_retained_wire (merge_state replica_a replica_b)
  = canonical_retained_wire (merge_state replica_b replica_a).
Proof.
  apply orset_canonical_deterministic.
  - apply merge_state_spec; [apply wf_replica_a|apply wf_replica_b].
  - apply merge_state_spec; [apply wf_replica_b|apply wf_replica_a].
  - intros e. destruct (merge_state_spec _ _ wf_replica_a wf_replica_b) as (_ & HD & HL).
    destruct (merge_state_spec _ _ wf_replica_b wf_replica_a) as (_ & HD' & HL').
    rewrite HD, HD', HL, HL'. clear. set_solver.
Defined.

Example max_retained_example :
  max_retained_sequence_for_peer replica_a alice = Some 2 ∧
  max_retained_sequence_for_peer replica_b alice = None.
Proof. by vm_compute. Qed.
End OrSetWitness.
