(* ===== verification/Lww.v ===== *)
(** * Vector clocks and the last-writer-wins register
      ([crates/crdt-sync/src/lib.rs], [VectorClock] and [LwwRegister]) *)

From S2P Require Import Prelude Types OrSet.

#[local] Open Scope Z_scope.

(** ** Vector clocks *)

Module VectorClock.
Section VectorClock.
Context `{!HashIter PeerId Z}.

Record VectorClock := mkClock { clocks : gmap PeerId Z }.

#[global] Instance VectorClock_eq_dec : EqDecision VectorClock.
Proof. solve_decision. Defined.

Definition new : VectorClock := mkClock ∅.

Definition increment (c : VectorClock) (peer : PeerId) : VectorClock :=
  mkClock (<[peer := u64_add (default 0 (clocks c !! peer)) 1]> (clocks c)).

Definition get (c : VectorClock) (peer : PeerId) : Z := default 0 (clocks c !! peer).

(** One iteration: [let our = entry(peer).or_insert(0); *our = our.max(time)]. *)
Definition merge_entry (m : gmap PeerId Z) (item : PeerId * Z) : gmap PeerId Z :=
  <[item.1 := Z.max (default 0 (m !! item.1)) item.2]> m.

Definition merge (c other : VectorClock) : VectorClock :=
  mkClock (foldl merge_entry (clocks c) (hiter (clocks other))).

(** The first loop of [happens_before]; [None] is the early [return false]. *)
Fixpoint scan_ours (other : VectorClock) (l : list (PeerId * Z)) (strictly_less : bool)
    : option bool :=
  match l with
  | [] => Some strictly_less
  | (peer, our_time) :: l =>
      let other_time := get other peer in
      if bool_decide (other_time < our_time) then None
      else scan_ours other l (strictly_less || bool_decide (our_time < other_time))
  end.

(** The second loop: entries only in [other]. *)
Fixpoint scan_theirs (c other : VectorClock) (l : list PeerId) (strictly_less : bool) : bool :=
  match l with
  | [] => strictly_less
  | peer :: l =>
      scan_theirs c other l
        (strictly_less
         || bool_decide (clocks c !! peer = None) && bool_decide (0 < get other peer))
  end.

Definition happens_before (c other : VectorClock) : bool :=
  match scan_ours other (hiter (clocks c)) false with
  | None => false
  | Some strictly_less => scan_theirs c other (hiter (clocks other)).*1 strictly_less
  end.

Definition concurrent (c other : VectorClock) : bool :=
  negb (happens_before c other) && negb (happens_before other c)
  && bool_decide (c ≠ other).

(** ** Order *)

(** Clock values are [u64]s, and an entry, once created, is positive. *)
Definition wf (c : VectorClock) : Prop := map_Forall (λ _ t, 0 < t ≤ U64_MAX) (clocks c).

Definition vle (c d : VectorClock) : Prop := ∀ p, get c p ≤ get d p.

Lemma clock_wf_new : wf new.
Proof. apply map_Forall_empty. Qed.

Lemma get_nonneg c p : wf c → 0 ≤ get c p ≤ U64_MAX.
Proof.
  intros Hwf. unfold get. destruct (clocks c !! p) eqn:E; simpl.
  - specialize (Hwf p _ E). simpl in Hwf. lia.
  - unfold U64_MAX. lia.
Qed.

Lemma get_pos_iff c p : wf c → (0 < get c p ↔ is_Some (clocks c !! p)).
Proof.
  intros Hwf. unfold get. destruct (clocks c !! p) eqn:E; simpl.
  - specialize (Hwf p _ E). simpl in Hwf. split; [by eexists|lia].
  - split; [lia|by intros []].
Qed.

(** Positive clocks are determined by their readings. *)
Lemma clock_ext c d : wf c → wf d → (∀ p, get c p = get d p) → c = d.
Proof.
  intros Hc Hd Hget. destruct c as [c], d as [d]. f_equal. apply map_eq. intros p.
  specialize (Hget p). unfold get in Hget; simpl in *.
  destruct (c !! p) eqn:E1, (d !! p) eqn:E2; simpl in Hget; subst; try done.
  - specialize (Hc p _ E1). simpl in Hc. lia.
  - specialize (Hd p _ E2). simpl in Hd. lia.
Qed.

Lemma scan_ours_ok (other : VectorClock) (l : list (PeerId * Z)) (b : bool) :
  Forall (λ item, item.2 ≤ get other item.1) l →
  scan_ours other l b =
    Some (b || existsb (λ item, bool_decide (item.2 < get other item.1)) l).
Proof.
  intros Hl. revert b. induction Hl as [|[p t] l Hle Hl IH]; intros b; simpl in *.
  - by rewrite orb_false_r.
  - rewrite bool_decide_eq_false_2 by lia. rewrite IH. by rewrite orb_assoc.
Qed.

Lemma scan_ours_fail (other : VectorClock) (l : list (PeerId * Z)) (b : bool) :
  ¬ Forall (λ item, item.2 ≤ get other item.1) l → scan_ours other l b = None.
Proof.
  revert b. induction l as [|[p t] l IH]; intros b Hn; simpl.
  - destruct Hn. constructor.
  - case_bool_decide as Hlt; [done|]. apply IH. intros Hl. apply Hn.
    constructor; [simpl; lia|done].
Qed.

Lemma scan_theirs_spec c other l b :
  scan_theirs c other l b =
    b || existsb (λ p, bool_decide (clocks c !! p = None) && bool_decide (0 < get other p)) l.
Proof.
  revert b. induction l as [|p l IH]; intros b; simpl; [by rewrite orb_false_r|].
  rewrite IH. by rewrite orb_assoc.
Qed.

Lemma forall_ours c other :
  wf other →
  Forall (λ item, item.2 ≤ get other item.1) (hiter (clocks c)) ↔ vle c other.
Proof.
  intros Ho. rewrite Forall_forall. split.
  - intros Hall p. unfold get at 1. destruct (clocks c !! p) as [t|] eqn:E; simpl.
    + apply elem_of_hiter in E. by apply (Hall (p, t)).
    + apply get_nonneg, Ho.
  - intros Hle [p t] Hin%elem_of_hiter. specialize (Hle p). unfold get at 1 in Hle.
    by rewrite Hin in Hle.
Qed.

Lemma happens_before_order c d :
  wf c → wf d →
  happens_before c d = true ↔ vle c d ∧ ∃ p, get c p < get d p.
Proof.
  intros Hc Hd. unfold happens_before.
  destruct (decide (Forall (λ item, item.2 ≤ get d item.1) (hiter (clocks c)))) as [Hall|Hall];
    [rewrite scan_ours_ok by done | rewrite scan_ours_fail by done];
    rewrite forall_ours in Hall by done; [|naive_solver].
  rewrite scan_theirs_spec. simpl. rewrite orb_true_iff, !existsb_exists.
  setoid_rewrite andb_true_iff. setoid_rewrite bool_decide_eq_true.
  setoid_rewrite <-list_elem_of_In. split.
  - intros [([p t] & Hin%elem_of_hiter & Hlt)|(p & Hin & Hnone & Hpos)]; (split; [done|]).
    + exists p. unfold get at 1. by rewrite Hin.
    + exists p. unfold get at 1. by rewrite Hnone.
  - intros [_ [p Hlt]]. destruct (clocks c !! p) as [t|] eqn:E.
    + left. exists (p, t). rewrite elem_of_hiter. split; [done|].
      unfold get at 1 in Hlt. by rewrite E in Hlt.
    + right. exists p. pose proof (get_nonneg c p Hc). split_and!; [|done|lia].
      apply elem_of_hiter_keys. rewrite <-get_pos_iff by done. lia.
Qed.

Lemma merge_fold_get (l : list (PeerId * Z)) (m : gmap PeerId Z) p :
  NoDup l.*1 →
  foldl merge_entry m l !! p =
    match (list_to_map l : gmap PeerId Z) !! p with
    | Some t => Some (Z.max (default 0 (m !! p)) t)
    | None => m !! p
    end.
Proof.
  revert m. induction l as [|[q t] l IH]; intros m Hnd; simpl; [by rewrite lookup_empty|].
  apply NoDup_cons in Hnd as [Hq Hnd]. simpl in Hq. rewrite IH by done. unfold merge_entry. simpl.
  destruct (decide (q = p)) as [->|Hne].
  - rewrite !lookup_insert_eq. by rewrite (not_elem_of_list_to_map_1 l p).
  - by rewrite !lookup_insert_ne.
Qed.

Lemma merge_get c d p : wf c → wf d → get (merge c d) p = Z.max (get c p) (get d p).
Proof.
  intros Hc Hd. pose proof (get_nonneg c p Hc). unfold get, merge in *; simpl.
  rewrite merge_fold_get, list_to_map_hiter by apply NoDup_hiter_keys.
  destruct (clocks d !! p); simpl; lia.
Qed.

Lemma merge_wf c d : wf c → wf d → wf (merge c d).
Proof.
  intros Hc Hd p t. unfold merge; simpl.
  rewrite merge_fold_get, list_to_map_hiter by apply NoDup_hiter_keys.
  pose proof (get_nonneg c p Hc) as Hg. unfold get in Hg.
  destruct (clocks d !! p) eqn:E.
  - intros [= <-]. specialize (Hd p _ E). simpl in Hd. lia.
  - apply Hc.
Qed.

Lemma increment_get c p q :
  wf c → get c p < U64_MAX →
  get (increment c p) q = if decide (p = q) then get c p + 1 else get c q.
Proof.
  intros Hc Hlt. pose proof (get_nonneg c p Hc). unfold get, increment in *; simpl.
  rewrite lookup_insert. destruct (decide (p = q)) as [->|]; simpl; [|done].
  apply u64_add_exact. unfold u64. lia.
Qed.

Lemma increment_wf c p : wf c → get c p < U64_MAX → wf (increment c p).
Proof.
  intros Hc Hlt q t. pose proof (get_nonneg c p Hc) as Hg. unfold increment, get in *; simpl.
  rewrite lookup_insert. case_decide; [|apply Hc]. intros [= <-].
  rewrite u64_add_exact by (unfold u64; lia). lia.
Qed.
End VectorClock.
End VectorClock.

(** ** The register *)

Module LwwRegister.
Import VectorClock.
Section LwwRegister.
Context {T : Type} `{!HashIter PeerId Z}.

(** [DefaultHasher] over a [Vec<(&PeerId, &u64)>]: the algorithm is not
    specified by the standard library, only that it is a function of what is
    hashed. *)
Context (default_hash : list (PeerId * Z) → Z).

Record LwwRegister := mkRegister { value : T; clock : VectorClock }.

Definition new (v : T) : LwwRegister := mkRegister v VectorClock.new.

Definition set (r : LwwRegister) (v : T) (peer : PeerId) : LwwRegister :=
  mkRegister v (increment (clock r) peer).

Definition get (r : LwwRegister) : T := value r.

(** [sort_by_key(|(peer, _)| peer.as_bytes())]: the keys of a map are
    distinct, so the order of the values never matters. *)
Definition hash_clock (r : LwwRegister) : Z :=
  default_hash (merge_sort tag_le (hiter (clocks (clock r)))).

Definition merge (r other : LwwRegister) : LwwRegister :=
  if happens_before (clock other) (clock r) then
    mkRegister (value r) (VectorClock.merge (clock r) (clock other))
  else if happens_before (clock r) (clock other) then
    mkRegister (value other) (clock other)
  else if concurrent (clock r) (clock other) then
    mkRegister
      (if bool_decide (hash_clock other < hash_clock r) then value other else value r)
      (VectorClock.merge (clock r) (clock other))
  else r.

(** ** Helper facts *)

Lemma merge_comm (c d : VectorClock) :
  VectorClock.wf c → VectorClock.wf d → VectorClock.merge c d = VectorClock.merge d c.
Proof.
  intros Hc Hd. apply clock_ext; [by apply merge_wf..|]. intros p.
  rewrite !merge_get by done. lia.
Qed.

Lemma merge_absorb (c d : VectorClock) :
  VectorClock.wf c → VectorClock.wf d → vle d c → VectorClock.merge c d = c.
Proof.
  intros Hc Hd Hle. apply clock_ext; [by apply merge_wf|done|]. intros p.
  rewrite merge_get by done. specialize (Hle p). lia.
Qed.

Lemma happens_before_irrefl (c d : VectorClock) :
  VectorClock.wf c → VectorClock.wf d →
  happens_before c d = true → happens_before d c = false.
Proof.
  intros Hc Hd Hcd. apply not_true_is_false. intros Hdc.
  apply happens_before_order in Hcd as [_ [p Hp]], Hdc as [Hle _]; [|done..].
  specialize (Hle p). lia.
Qed.

(** Two clocks are equal, strictly ordered one way or the other, or
    concurrent. *)
Lemma clock_cases (c d : VectorClock) :
  c ≠ d → happens_before c d = false → happens_before d c = false → concurrent c d = true.
Proof. intros Hne H1 H2. unfold concurrent. rewrite H1, H2. by rewrite bool_decide_eq_true_2. Qed.

Lemma happens_before_neq (c d : VectorClock) :
  VectorClock.wf c → VectorClock.wf d → happens_before c d = true → c ≠ d.
Proof. intros Hc Hd Hlt ->. pose proof (happens_before_irrefl d d Hc Hd Hlt). congruence. Qed.

Lemma merge_later (a b : LwwRegister) :
  VectorClock.wf (clock a) → VectorClock.wf (clock b) →
  happens_before (clock a) (clock b) = true →
  merge a b = b ∧ merge b a = b.
Proof.
  intros Ha Hb Hlt. unfold merge. rewrite Hlt, happens_before_irrefl by done.
  apply happens_before_order in Hlt as [Hle _]; [|done..].
  rewrite merge_absorb by done. by destruct b.
Qed.

Lemma concurrent_sym (c d : VectorClock) : concurrent c d = concurrent d c.
Proof.
  unfold concurrent. rewrite (andb_comm (negb (happens_before c d))). f_equal.
  apply bool_decide_ext. split; congruence.
Qed.

Lemma merge_clock (a b : LwwRegister) :
  VectorClock.wf (clock a) → VectorClock.wf (clock b) →
  clock (merge a b) = VectorClock.merge (clock a) (clock b).
Proof.
  intros Ha Hb. unfold merge.
  destruct (happens_before (clock b) (clock a)) eqn:E1; [done|].
  destruct (happens_before (clock a) (clock b)) eqn:E2.
  { apply happens_before_order in E2 as [Hle _]; [|done..]. simpl.
    rewrite merge_comm by done. by rewrite merge_absorb. }
  destruct (concurrent _ _) eqn:E3; [done|].
  destruct (decide (clock a = clock b)) as [Heq|Hne].
  - rewrite <-Heq. symmetry. apply merge_absorb; [done..|]. intros p. lia.
  - by rewrite clock_cases in E3.
Qed.

Lemma incomparable_concurrent (c d : VectorClock) (x y : PeerId) :
  VectorClock.wf c → VectorClock.wf d →
  VectorClock.get d x < VectorClock.get c x → VectorClock.get c y < VectorClock.get d y →
  concurrent c d = true ∧ happens_before c d = false ∧ happens_before d c = false.
Proof.
  intros Hc Hd Hx Hy.
  assert (happens_before c d = false) as H1.
  { apply not_true_is_false. intros [Hle _]%happens_before_order; [|done..]. specialize (Hle x). lia. }
  assert (happens_before d c = false) as H2.
  { apply not_true_is_false. intros [Hle _]%happens_before_order; [|done..]. specialize (Hle y). lia. }
  split_and!; [|done..]. apply clock_cases; [|done..]. intros ->. lia.
Qed.

Lemma merge_incomparable (a b : LwwRegister) (x y : PeerId) :
  VectorClock.wf (clock a) → VectorClock.wf (clock b) →
  VectorClock.get (clock b) x < VectorClock.get (clock a) x →
  VectorClock.get (clock a) y < VectorClock.get (clock b) y →
  merge a b = mkRegister (if bool_decide (hash_clock b < hash_clock a) then value b else value a)
                         (VectorClock.merge (clock a) (clock b)).
Proof.
  intros Ha Hb Hx Hy. destruct (incomparable_concurrent _ _ x y Ha Hb Hx Hy) as (H1 & H2 & H3).
  unfold merge. by rewrite H1, H2, H3.
Qed.

Lemma merge_same_clock (a b : LwwRegister) :
  VectorClock.wf (clock a) → clock a = clock b → merge a b = a.
Proof.
  intros Ha Heq. unfold merge, concurrent. rewrite <-Heq.
  destruct (happens_before (clock a) (clock a)) eqn:E.
  - by rewrite (happens_before_irrefl _ _ Ha Ha E) in E.
  - by rewrite bool_decide_eq_false_2 by auto.
Qed.

Lemma clock_merge_assoc (c d e : VectorClock) :
  VectorClock.wf c → VectorClock.wf d → VectorClock.wf e →
  VectorClock.merge (VectorClock.merge c d) e = VectorClock.merge c (VectorClock.merge d e).
Proof.
  intros Hc Hd He. apply clock_ext; [auto using merge_wf..|]. intros p.
  rewrite !merge_get by auto using merge_wf. lia.
Qed.

(** A first write by [x] has the clock [{x: 1}]. *)
Lemma first_write_get (x : PeerId) (v : T) (y : PeerId) :
  VectorClock.get (clock (set (new v) v x)) y = if decide (x = y) then 1 else 0.
Proof.
  unfold VectorClock.get, set, new, increment; simpl. rewrite lookup_insert.
  by case_decide.
Qed.

Lemma first_write_wf (x : PeerId) (v : T) : VectorClock.wf (clock (set (new v) v x)).
Proof. apply increment_wf; [apply clock_wf_new|]. by vm_compute. Qed.

#[local] Ltac first_write_solve :=
  first [done | rewrite ?merge_clock, ?merge_get by done;
                repeat match goal with x := _ |- _ => subst x end;
                rewrite ?first_write_get; repeat case_decide; congruence || lia].

(** ** Properties *)

(** [happens_before] is the strict pointwise order on vector clocks,
    [concurrent] is exactly incomparability of different clocks, and [merge]
    gives the least upper bound, whatever order the hash maps are iterated
    in. *)
Theorem vector_clock_order (c d : VectorClock) :
  VectorClock.wf c → VectorClock.wf d →
  (happens_before c d = true ↔ vle c d ∧ c ≠ d) ∧
  (concurrent c d = true ↔ ¬ vle c d ∧ ¬ vle d c) ∧
  VectorClock.wf (VectorClock.merge c d) ∧
  vle c (VectorClock.merge c d) ∧ vle d (VectorClock.merge c d) ∧
  (∀ u, vle c u → vle d u → vle (VectorClock.merge c d) u).
Proof.
  intros Hc Hd.
  assert (∀ x y, VectorClock.wf x → VectorClock.wf y →
    happens_before x y = true ↔ vle x y ∧ x ≠ y) as Hhb.
  { intros x y Hx Hy. split.
    - intros Hlt. split; [by apply happens_before_order in Hlt as [? _]|by apply happens_before_neq].
    - intros [Hle Hne]. apply not_false_is_true. intros Hf.
      apply Hne, clock_ext; [done..|]. intros p. pose proof (Hle p).
      destruct (decide (VectorClock.get x p < VectorClock.get y p)); [|lia].
      enough (happens_before x y = true) by congruence.
      apply happens_before_order; eauto. }
  split_and!; [by apply Hhb| |by apply merge_wf|intros p; rewrite merge_get by done; lia..|].
  - unfold concurrent. rewrite !andb_true_iff, !negb_true_iff, bool_decide_eq_true.
    rewrite <-!not_true_iff_false, !Hhb by done.
    assert (vle c c) by (intros p; lia).
    split; [|intros [? ?]; naive_solver]. intros [[H1 H2] Hne]. naive_solver.
  - intros u Hcu Hdu p. rewrite merge_get by done. specialize (Hcu p). specialize (Hdu p). lia.
Qed.

(** Two replicas that exchange registers agree: the register with the
    strictly later clock wins on both sides, and concurrent writes with
    different clock hashes resolve to the same value with the joined clock. *)
Theorem lww_pair_converges (a b : LwwRegister) :
  VectorClock.wf (clock a) → VectorClock.wf (clock b) →
  (happens_before (clock a) (clock b) = true → merge a b = b ∧ merge b a = b) ∧
  (concurrent (clock a) (clock b) = true → hash_clock a ≠ hash_clock b →
   merge a b = merge b a ∧
   value (merge a b) = (if decide (hash_clock a < hash_clock b) then value a else value b)) ∧
  (∀ p, VectorClock.get (clock (merge a b)) p =
        Z.max (VectorClock.get (clock a) p) (VectorClock.get (clock b) p)).
Proof.
  intros Ha Hb. split_and!; [by apply merge_later| |].
  - intros Hcon Hhash.
    assert (happens_before (clock a) (clock b) = false ∧ happens_before (clock b) (clock a) = false)
      as [H1 H2].
    { unfold concurrent in Hcon. rewrite !andb_true_iff, !negb_true_iff in Hcon. tauto. }
    unfold merge. rewrite (concurrent_sym (clock b)), Hcon, H1, H2, merge_comm by done.
    split; [f_equal|simpl]; repeat case_bool_decide; try case_decide; lia || done.
  - intros p. rewrite merge_clock by done. by apply merge_get.
Qed.

(** Merging registers is not associative: three concurrent first writes
    whose clock hashes are ordered as in the hypotheses give, merged in two
    groupings, registers with the same clock and different values, and
    merging those two again changes neither.  The replicas stay apart. *)
Theorem lww_merge_not_associative (a b c : T) (p q r : PeerId) :
  let A := set (new a) a p in
  let B := set (new b) b q in
  let C := set (new c) c r in
  NoDup [p; q; r] →
  hash_clock A < hash_clock B → hash_clock B < hash_clock C →
  hash_clock C < hash_clock (merge A B) → hash_clock A < hash_clock (merge B C) →
  let left := merge (merge A B) C in
  let right := merge A (merge B C) in
  clock left = clock right ∧ value left = c ∧ value right = a ∧
  merge left right = left ∧ merge right left = right.
Proof.
  intros A B C Hnd HAB HBC HC HA left right. subst left right.
  rewrite !NoDup_cons, !not_elem_of_cons in Hnd. destruct Hnd as ((Hpq & Hpr & _) & (Hqr & _) & _).
  pose proof (first_write_wf p a : VectorClock.wf (clock A)) as HwA.
  pose proof (first_write_wf q b : VectorClock.wf (clock B)) as HwB.
  pose proof (first_write_wf r c : VectorClock.wf (clock C)) as HwC.
  assert (VectorClock.wf (clock (merge A B)) ∧ VectorClock.wf (clock (merge B C))) as [HwAB HwBC]
    by (rewrite !merge_clock by done; auto using merge_wf).
  rewrite (merge_incomparable (merge A B) C p r), (merge_incomparable A (merge B C) p q)
    by first_write_solve.
  rewrite (bool_decide_eq_true_2 (_ C < _)), (bool_decide_eq_false_2 (_ < _ A)) by lia.
  rewrite !merge_clock by done. cbn [value clock].
  rewrite clock_merge_assoc by done.
  split_and!; [done..| |]; apply merge_same_clock; simpl; auto using merge_wf.
Qed.
End LwwRegister.
End LwwRegister.

(** ** Witnesses *)

Module LwwWitness.
Import VectorClock LwwRegister.
#[local] Instance clock_iter : HashIter PeerId Z := canonical_iter.

Definition pa : PeerId := mkPeerId (replicate 32 1).
Definition pb : PeerId := mkPeerId (replicate 32 2).
Definition pc : PeerId := mkPeerId (replicate 32 3).

(** A hash that orders the three first writes and puts joined clocks last. *)
Definition toy_hash (l : list (PeerId * Z)) : Z :=
  100 * Z.of_nat (length l) + foldr (λ item acc, nth 0 (peer_bytes item.1) 0 + acc) 0 l.

Lemma vector_clock_order_witness :
  happens_before (increment VectorClock.new pa) (increment (increment VectorClock.new pa) pb) = true.
Proof.
  assert (VectorClock.wf (increment VectorClock.new pa)) as H1
    by (apply increment_wf; [apply clock_wf_new|by vm_compute]).
  assert (VectorClock.wf (increment (increment VectorClock.new pa) pb)) as H2
    by (apply increment_wf; [done|by vm_compute]).
  apply (proj1 (vector_clock_order _ _ H1 H2)). split.
  - intros p. rewrite (increment_get _ pb p H1) by by vm_compute.
    case_decide; [subst; by vm_compute|lia].
  - by apply (bool_decide_unpack _); vm_compute.
Defined.

Lemma lww_pair_converges_witness :
  let a := set (new 11) 11 pa in
  let b := set (new 21) 21 pb in
  merge toy_hash a b = merge toy_hash b a ∧ value (merge toy_hash a b) = 11.
Proof.
  intros a b.
  destruct (lww_pair_converges toy_hash a b (first_write_wf pa 11) (first_write_wf pb 21))
    as (_ & Hcon & _).
  destruct (Hcon ltac:(by vm_compute) ltac:(by vm_compute)) as [Heq _].
  split; [exact Heq|by vm_compute].
Defined.

Lemma lww_merge_not_associative_witness :
  let A := set (new 1) 1 pa in
  let B := set (new 2) 2 pb in
  let C := set (new 3) 3 pc in
  value (merge toy_hash (merge toy_hash A B) C) = 3 ∧
  value (merge toy_hash A (merge toy_hash B C)) = 1.
Proof.
  intros A B C.
  assert (NoDup [pa; pb; pc]) as Hnd by (apply (bool_decide_unpack _); by vm_compute).
  destruct (lww_merge_not_associative toy_hash 1 2 3 pa pb pc Hnd) as (_ & Hl & Hr & _);
    [by vm_compute..|]. split; [exact Hl|exact Hr].
Defined.
End LwwWitness.
