(* ===== verification/AntiEntropy.v ===== *)
(** * Anti-entropy ([crates/crdt-sync/src/lib.rs], [DeltaCrdt] and
      [AntiEntropyManager])

    The manager periodically sends every peer the delta since the last local
    version that peer is recorded to hold.  The interface [DeltaCrdt] is the
    trait; [DeltaCrdtLaws] is what the manager relies on, discharged for the
    observed-remove set.  The background task is a step relation: its
    [tokio::select!] loop releases every lock at each [await], so that the
    manager's methods, local writes and the peers run in between. *)

From S2P Require Import Prelude Types OrSet.

#[local] Open Scope Z_scope.

(** ** The trait *)

(** [merge] takes [&mut self]: it gives the new state and its [Result]. *)
Class DeltaCrdt (T Delta : Type) := {
  crdt_merge : T → Delta → T * result () string;
  crdt_delta : T → Z → option Delta;
  crdt_version : T → Z;
}.
#[global] Hint Mode DeltaCrdt ! - : typeclass_instances.

(** What an implementation promises: [evolves] is a replica's own history,
    [includes r s] says replica [r] has everything of state [s]. *)
Class DeltaCrdtLaws (T Delta : Type) `{!DeltaCrdt T Delta} := {
  good : T → Prop;
  evolves : T → T → Prop;
  includes : T → T → Prop;
  mergeable : T → Delta → Prop;
  evolves_preorder :: PreOrder evolves;
  evolves_good s s' : good s → evolves s s' → good s';
  evolves_version s s' : good s → evolves s s' → crdt_version s ≤ crdt_version s';
  includes_self s : good s → includes s s;
  includes_evolves r r' s : good r → includes r s → evolves r r' → includes r' s;
  includes_same_version r s s' :
    good s → evolves s s' → crdt_version s' = crdt_version s → includes r s → includes r s';
  merge_evolves r d : good r → mergeable r d → evolves r (crdt_merge r d).1;
  merge_ok r d : mergeable r d → (crdt_merge r d).2 = Ok ();
  delta_complete r s s' d :
    good s → evolves s s' → crdt_delta s' (crdt_version s) = Some d →
    good r → includes r s → mergeable r d → includes (crdt_merge r d).1 s';
}.

Module AntiEntropy.
Section AntiEntropy.
Context {T Delta : Type} `{!DeltaCrdt T Delta} `{!HashIter PeerId Z}.

(** The shared state behind the two [RwLock]s. *)
Record AntiEntropyManager := mkManager {
  crdt : T;
  peer_versions : gmap PeerId Z;
}.

Definition new (c : T) : AntiEntropyManager := mkManager c ∅.

Definition set_versions (m : AntiEntropyManager) (v : gmap PeerId Z) : AntiEntropyManager :=
  mkManager (crdt m) v.

(** [versions.entry(peer_id).or_insert(0)]. *)
Definition or_insert_zero (p : PeerId) (v : gmap PeerId Z) : gmap PeerId Z :=
  match v !! p with Some _ => v | None => <[p := 0]> v end.

Definition add_peer (m : AntiEntropyManager) (p : PeerId) : AntiEntropyManager :=
  set_versions m (or_insert_zero p (peer_versions m)).

Definition remove_peer (m : AntiEntropyManager) (p : PeerId) : AntiEntropyManager :=
  set_versions m (delete p (peer_versions m)).

Definition update_peer_version (m : AntiEntropyManager) (p : PeerId) (version : Z)
    : AntiEntropyManager :=
  set_versions m (<[p := version]> (peer_versions m)).

(** [crdt.merge(delta)?] returns early, before the peer is registered.  The
    two locks are taken one after the other; what happens between them is an
    interleaving of [step_local] and [step_add_peer] below. *)
Definition apply_delta (m : AntiEntropyManager) (p : PeerId) (d : Delta) (_version : Z)
    : AntiEntropyManager * result () string :=
  match crdt_merge (crdt m) d with
  | (c, Err e) => (mkManager c (peer_versions m), Err e)
  | (c, Ok _) => (mkManager c (or_insert_zero p (peer_versions m)), Ok ())
  end.

Definition get_crdt (m : AntiEntropyManager) : T := crdt m.

(** ** The background task of [start]

    The points at which the task holds no lock. *)
Inductive Task :=
| Waiting                                                (* in [select!] *)
| Syncing (rest : list (PeerId * Z))                     (* in the [for] loop *)
| Calling (p : PeerId) (d : Delta) (sent_version : Z) (rest : list (PeerId * Z))
                                                         (* awaiting the callback *)
| Recording (p : PeerId) (sent_version : Z) (rest : list (PeerId * Z))
                                                         (* awaiting the write lock *)
| Stopped.

(** [interval.tick()]: the peers are snapshot under the read lock. *)
Definition on_tick (m : AntiEntropyManager) : Task := Syncing (hiter (peer_versions m)).

(** The head of the [for] loop: the delta and the version it brings the peer
    to are read under one lock. *)
Definition next_peer (m : AntiEntropyManager) (rest : list (PeerId * Z)) : Task :=
  match rest with
  | [] => Waiting
  | (p, v) :: rest =>
      match crdt_delta (crdt m) v with
      | Some d => Calling p d (crdt_version (crdt m)) rest
      | None => Syncing rest
      end
  end.

(** After the callback: [Err] is only logged. *)
Definition after_callback (res : result () string) (p : PeerId) (sent_version : Z)
    (rest : list (PeerId * Z)) : Task :=
  match res with
  | Ok _ => Recording p sent_version rest
  | Err _ => Syncing rest
  end.

Definition record_sent (m : AntiEntropyManager) (p : PeerId) (sent_version : Z)
    : AntiEntropyManager :=
  update_peer_version m p sent_version.

(** ** The system: manager, task, and the replicas of the peers *)

Record System := mkSystem {
  mgr : AntiEntropyManager;
  task : Task;
  remotes : PeerId → T;
}.

Definition set_remote (p : PeerId) (t : T) (f : PeerId → T) : PeerId → T :=
  λ q, if decide (p = q) then t else f q.

Section Laws.
Context `{!DeltaCrdtLaws T Delta}.

(** The task alone, with the peer's reaction to the callback: [Ok] is
    returned only once the peer merged the delta; on [Err] it may or may not
    have. *)
Inductive task_step : System → System → Prop :=
| step_tick m R : task_step (mkSystem m Waiting R) (mkSystem m (on_tick m) R)
| step_next m rest R :
    task_step (mkSystem m (Syncing rest) R) (mkSystem m (next_peer m rest) R)
| step_delivered m p d v rest R :
    mergeable (R p) d →
    task_step (mkSystem m (Calling p d v rest) R)
      (mkSystem m (after_callback (Ok ()) p v rest) (set_remote p (crdt_merge (R p) d).1 R))
| step_record m p v rest R :
    task_step (mkSystem m (Recording p v rest) R)
      (mkSystem (record_sent m p v) (Syncing rest) R).

(** The whole system.  [acks] are the peers for which the application calls
    [update_peer_version], which by its contract it does with a version the
    peer holds. *)
Inductive step (acks : PeerId → Prop) : System → System → Prop :=
| step_task S S' : task_step S S' → step acks S S'
| step_failed m p d v rest R e :
    step acks (mkSystem m (Calling p d v rest) R) (mkSystem m (after_callback (Err e) p v rest) R)
| step_failed_delivered m p d v rest R e :
    mergeable (R p) d →
    step acks (mkSystem m (Calling p d v rest) R)
      (mkSystem m (after_callback (Err e) p v rest) (set_remote p (crdt_merge (R p) d).1 R))
| step_shutdown m R : step acks (mkSystem m Waiting R) (mkSystem m Stopped R)
| step_add_peer m t R p : step acks (mkSystem m t R) (mkSystem (add_peer m p) t R)
| step_remove_peer m t R p : step acks (mkSystem m t R) (mkSystem (remove_peer m p) t R)
| step_apply_delta m t R p d v :
    mergeable (crdt m) d →
    step acks (mkSystem m t R) (mkSystem (apply_delta m p d v).1 t R)
| step_ack m t R p s :
    acks p → good s → evolves s (crdt m) → includes (R p) s →
    step acks (mkSystem m t R) (mkSystem (update_peer_version m p (crdt_version s)) t R)
| step_local m t R c :
    evolves (crdt m) c →
    step acks (mkSystem m t R) (mkSystem (mkManager c (peer_versions m)) t R)
| step_remote m t R p r :
    evolves (R p) r → step acks (mkSystem m t R) (mkSystem m t (set_remote p r R)).

(** ** Invariant *)

(** [v] is a version of ours whose state peer [p] holds. *)
Definition holds (S : System) (p : PeerId) (v : Z) : Prop :=
  ∃ s, good s ∧ evolves s (crdt (mgr S)) ∧ crdt_version s = v ∧ includes (remotes S p) s.

Definition task_ok (S : System) : Prop :=
  match task S with
  | Waiting | Stopped => True
  | Syncing rest => Forall (λ item, holds S item.1 item.2) rest
  | Calling p d v rest =>
      Forall (λ item, holds S item.1 item.2) rest ∧
      ∃ s s', good s ∧ evolves s s' ∧ evolves s' (crdt (mgr S)) ∧ crdt_version s' = v ∧
        includes (remotes S p) s ∧ crdt_delta s' (crdt_version s) = Some d
  | Recording p v rest => Forall (λ item, holds S item.1 item.2) rest ∧ holds S p v
  end.

Record invariant (S : System) : Prop := {
  inv_good : good (crdt (mgr S));
  inv_remotes : ∀ p, good (remotes S p);
  inv_origin : ∃ s0, good s0 ∧ evolves s0 (crdt (mgr S)) ∧ crdt_version s0 = 0 ∧
                     ∀ p, includes (remotes S p) s0;
  inv_versions : map_Forall (λ p v, holds S p v) (peer_versions (mgr S));
  inv_task : task_ok S;
}.

(** Everything in the invariant survives the two replicas moving on. *)
Definition extends (S S' : System) : Prop :=
  evolves (crdt (mgr S)) (crdt (mgr S')) ∧ ∀ p, evolves (remotes S p) (remotes S' p).

Lemma holds_extends (S S' : System) (p : PeerId) (v : Z) :
  (∀ p, good (remotes S p)) → extends S S' → holds S p v → holds S' p v.
Proof.
  intros Hg [Hc Hr] (s & Hs & Hev & Hv & Hin). exists s. split_and!; [done| |done|].
  - by transitivity (crdt (mgr S)).
  - by apply (includes_evolves (remotes S p)).
Qed.

Lemma holds_list_extends (S S' : System) (l : list (PeerId * Z)) :
  (∀ p, good (remotes S p)) → extends S S' →
  Forall (λ item, holds S item.1 item.2) l → Forall (λ item, holds S' item.1 item.2) l.
Proof. intros Hg He Hl. eapply Forall_impl; [exact Hl|]. intros [p v]. by apply holds_extends. Qed.

(** The parts of the invariant that only depend on how the replicas evolve. *)
Lemma invariant_extends (S S' : System) :
  invariant S → extends S S' →
  map_Forall (λ p v, holds S' p v) (peer_versions (mgr S')) → task_ok S' → invariant S'.
Proof.
  intros [Hg Hgr (s0 & Hs0 & Hev & Hv & Hin) _ _] [Hc Hr] Hpv Ht. split; [| | |done..].
  - by apply (evolves_good (crdt (mgr S))).
  - intros p. by apply (evolves_good (remotes S p)).
  - exists s0. split_and!; [done|by transitivity (crdt (mgr S))|done|].
    intros p. by apply (includes_evolves (remotes S p)).
Qed.

Lemma versions_extend (S S' : System) :
  extends S S' → invariant S → map_Forall (λ p v, holds S' p v) (peer_versions (mgr S)).
Proof. intros He [_ Hgr _ Hpv _] p v Hp. eapply holds_extends; eauto. Qed.

Lemma task_extends (S S' : System) :
  extends S S' → invariant S → task S' = task S → task_ok S'.
Proof.
  intros He [_ Hgr _ _ Ht] Heq. unfold task_ok in *. rewrite Heq.
  destruct (task S) as [|rest|p d v rest|p v rest|]; [done| | | |done].
  - by eapply holds_list_extends.
  - destruct Ht as [Hl (s & s' & ? & ? & ? & ? & ? & ?)].
    split; [by eapply holds_list_extends|]. exists s, s'. destruct He as [Hc Hr].
    split_and!; try done; [by transitivity (crdt (mgr S))|by apply (includes_evolves (remotes S p))].
  - destruct Ht as [Hl Hp]. split; [by eapply holds_list_extends|by eapply holds_extends].
Qed.

Lemma holds_zero (S : System) (p : PeerId) : invariant S → holds S p 0.
Proof. intros [_ _ (s0 & ? & ? & ? & Hin) _ _]. exists s0. auto. Qed.

Lemma extends_refl (S S' : System) :
  crdt (mgr S') = crdt (mgr S) → remotes S' = remotes S → extends S S'.
Proof. intros Hc Hr. split; [by rewrite Hc|intros p; by rewrite Hr]. Qed.

Lemma extends_remote m t t' R p r :
  evolves (R p) r → extends (mkSystem m t R) (mkSystem m t' (set_remote p r R)).
Proof.
  intros Hev. split; [done|]. intros q. simpl. unfold set_remote. case_decide; by subst.
Qed.

Lemma or_insert_zero_forall (P : PeerId → Z → Prop) p v :
  P p 0 → map_Forall P v → map_Forall P (or_insert_zero p v).
Proof.
  intros H0 Hv. unfold or_insert_zero. destruct (v !! p); [done|].
  by apply map_Forall_insert_2.
Qed.

(** A delivered delta brings the peer to the version that was read with it. *)
Lemma delivered_holds m p d v rest R :
  invariant (mkSystem m (Calling p d v rest) R) → mergeable (R p) d →
  extends (mkSystem m (Calling p d v rest) R)
          (mkSystem m (Recording p v rest) (set_remote p (crdt_merge (R p) d).1 R)) ∧
  holds (mkSystem m (Recording p v rest) (set_remote p (crdt_merge (R p) d).1 R)) p v.
Proof.
  intros [Hg Hgr _ _ [_ (s & s' & Hs & Hss' & Hs'c & Hv & Hin & Hd)]] Hm. simpl in *.
  split; [by apply extends_remote, merge_evolves|].
  exists s'. simpl. split_and!; [by apply (evolves_good s)|done|done|].
  unfold set_remote. rewrite decide_True by done. by apply (delta_complete _ s).
Qed.

Lemma task_step_invariant (S S' : System) : task_step S S' → invariant S → invariant S'.
Proof.
  intros Hstep Hinv. pose proof Hinv as [Hg Hgr Horig Hpv Ht].
  destruct Hstep as [m R|m rest R|m p d v rest R Hm|m p v rest R].
  - apply (invariant_extends _ _ Hinv); [by apply extends_refl|done|]. simpl.
    apply Forall_forall. intros [p v] Hin%elem_of_hiter. by apply (Hpv p v).
  - apply (invariant_extends _ _ Hinv); [by apply extends_refl|done|].
    unfold task_ok in *; simpl in *. destruct rest as [|[p v] rest]; simpl; [done|].
    apply Forall_cons in Ht as [(s & Hs & Hev & Hv & Hin) Hrest]. simpl in *.
    destruct (crdt_delta (crdt m) v) as [d|] eqn:Hd; [|done].
    split; [done|]. exists s, (crdt m). split_and!; try done. by rewrite Hv.
  - destruct (delivered_holds m p d v rest R Hinv Hm) as [He Hp].
    apply (invariant_extends _ _ Hinv); [exact He|exact (versions_extend _ _ He Hinv)|].
    split; [|exact Hp]. eapply holds_list_extends; [|exact He|]; [done|apply Ht].
  - apply (invariant_extends _ _ Hinv); [by apply extends_refl| |apply Ht].
    simpl. apply map_Forall_insert_2; [apply Ht|done].
Qed.

Lemma step_invariant acks (S S' : System) : step acks S S' → invariant S → invariant S'.
Proof.
  intros Hstep Hinv. destruct Hstep as
    [S S' Ht|m p d v rest R e|m p d v rest R e Hm|m R|m t R p|m t R p|m t R p d v Hm
    |m t R p s _ Hs Hev Hin|m t R c Hc|m t R p r Hr].
  - by eapply task_step_invariant.
  - apply (invariant_extends _ _ Hinv); [by apply extends_refl|apply Hinv|].
    simpl. apply (inv_task _ Hinv).
  - destruct (delivered_holds m p d v rest R Hinv Hm) as [He _].
    apply (invariant_extends _ _ Hinv); [exact He|exact (versions_extend _ _ He Hinv)|].
    simpl. eapply holds_list_extends; [|exact He|]; [apply Hinv|apply (inv_task _ Hinv)].
  - apply (invariant_extends _ _ Hinv); [by apply extends_refl|apply Hinv|done].
  - apply (invariant_extends _ _ Hinv); [by apply extends_refl| |apply (inv_task _ Hinv)].
    simpl. apply or_insert_zero_forall; [exact (holds_zero _ p Hinv)|apply (inv_versions _ Hinv)].
  - apply (invariant_extends _ _ Hinv); [by apply extends_refl| |apply (inv_task _ Hinv)].
    simpl. apply map_Forall_delete, (inv_versions _ Hinv).
  - assert (extends (mkSystem m t R) (mkSystem (apply_delta m p d v).1 t R)) as He.
    { pose proof (merge_ok _ _ Hm) as Hok. pose proof (merge_evolves _ _ (inv_good _ Hinv) Hm) as Hev.
      unfold apply_delta. simpl in *. destruct (crdt_merge (crdt m) d) as [c [[]|]]; [|done].
      split; simpl in *; [done|]. done. }
    apply (invariant_extends _ _ Hinv); [exact He| |by apply (task_extends _ _ He Hinv)].
    pose proof (versions_extend _ _ He Hinv) as Hv. simpl in Hv.
    pose proof (merge_ok _ _ Hm) as Hok. unfold apply_delta in *. simpl in *.
    destruct (crdt_merge (crdt m) d) as [c [[]|]]; [|done]. simpl in *.
    apply or_insert_zero_forall; [|done].
    eapply holds_extends; [apply Hinv|exact He|exact (holds_zero _ p Hinv)].
  - apply (invariant_extends _ _ Hinv); [by apply extends_refl| |apply (inv_task _ Hinv)].
    simpl. apply map_Forall_insert_2; [by exists s|apply (inv_versions _ Hinv)].
  - assert (extends (mkSystem m t R) (mkSystem (mkManager c (peer_versions m)) t R)) as He
      by (split; simpl; done).
    apply (invariant_extends _ _ Hinv); [exact He|exact (versions_extend _ _ He Hinv)|by apply (task_extends _ _ He Hinv)].
  - assert (extends (mkSystem m t R) (mkSystem m t (set_remote p r R))) as He
      by by apply extends_remote.
    apply (invariant_extends _ _ Hinv); [exact He|exact (versions_extend _ _ He Hinv)|by apply (task_extends _ _ He Hinv)].
Qed.

Lemma steps_invariant acks (S S' : System) : rtc (step acks) S S' → invariant S → invariant S'.
Proof. induction 1; eauto using step_invariant. Qed.

(** ** A full round *)

(** What the callback needs: a delta that the peer can merge, or nothing to
    send because the peer is up to date. *)
Definition servable (c r : T) (v : Z) : Prop :=
  match crdt_delta c v with
  | Some d => mergeable r d
  | None => v = crdt_version c
  end.

Lemma holds_current (S : System) (p : PeerId) :
  holds S p (crdt_version (crdt (mgr S))) → includes (remotes S p) (crdt (mgr S)).
Proof. intros (s & ? & ? & ? & ?). by apply (includes_same_version _ s). Qed.

Lemma round_from (rest : list (PeerId * Z)) (m : AntiEntropyManager) (R : PeerId → T) :
  invariant (mkSystem m (Syncing rest) R) → NoDup rest.*1 →
  Forall (λ item, servable (crdt m) (R item.1) item.2) rest →
  ∃ m' R', rtc task_step (mkSystem m (Syncing rest) R) (mkSystem m' Waiting R') ∧
    crdt m' = crdt m ∧
    (∀ p, p ∈ rest.*1 → includes (R' p) (crdt m)) ∧
    (∀ p, p ∉ rest.*1 → R' p = R p).
Proof.
  revert m R. induction rest as [|[p v] rest IH]; intros m R Hinv Hnd Hs.
  { exists m, R. split_and!; [|done| |done]; [apply rtc_once, (step_next m [] R)|].
    intros p Hp. simpl in Hp. by apply not_elem_of_nil in Hp. }
  apply NoDup_cons in Hnd as [Hp Hnd]. apply Forall_cons in Hs as [Hp1 Hs]. cbn [fst snd] in *.
  pose proof (task_step_invariant _ _ (step_next m ((p, v) :: rest) R) Hinv) as Hinv1.
  unfold servable in Hp1. simpl in Hinv1. destruct (crdt_delta (crdt m) v) as [d|] eqn:Hd.
  - pose proof (task_step_invariant _ _ (step_delivered m p d _ rest R Hp1) Hinv1) as Hinv2.
    pose proof (task_step_invariant _ _ (step_record m p _ rest _) Hinv2) as Hinv3.
    edestruct IH as (m' & R' & Hsteps & Hc & Hall & Hkeep); [exact Hinv3|done| |].
    { rewrite Forall_forall in *. intros [q w] Hq. specialize (Hs _ Hq). simpl in *.
      unfold set_remote. rewrite decide_False; [done|]. intros ->. apply Hp.
      apply list_elem_of_fmap. by exists (q, w). }
    exists m', R'. split_and!.
    + eapply rtc_l; [apply step_next|]. simpl. rewrite Hd.
      eapply rtc_l; [by apply step_delivered|]. eapply rtc_l; [apply step_record|exact Hsteps].
    + by rewrite Hc.
    + intros q [Hq|Hq]%elem_of_cons; [|by apply Hall]. cbn in Hq. subst q. rewrite (Hkeep p Hp).
      exact (holds_current _ p (proj2 (inv_task _ Hinv2))).
    + intros q [Hqp Hq]%not_elem_of_cons. rewrite Hkeep by done.
      unfold set_remote. by rewrite decide_False by (cbn in Hqp; congruence).
  - destruct (IH m R Hinv1 Hnd Hs) as (m' & R' & Hsteps & Hc & Hall & Hkeep).
    exists m', R'. split_and!; [|done| |].
    + eapply rtc_l; [apply step_next|]. simpl. by rewrite Hd.
    + intros q [Hq|Hq]%elem_of_cons; [|by apply Hall]. cbn in Hq. subst q. rewrite (Hkeep p Hp).
      apply (holds_current (mkSystem m Waiting R)). simpl. rewrite <-Hp1.
      pose proof (inv_task _ Hinv) as Ht. simpl in Ht. by apply Forall_cons in Ht as [? _].
    + intros q [_ Hq]%not_elem_of_cons. by apply Hkeep.
Qed.

(** ** Peers that can no longer be served *)

Definition unservable (c : T) (v : Z) : Prop := ∀ c', evolves c c' → crdt_delta c' v = None.

Definition starved (p : PeerId) (S : System) : Prop :=
  unservable (crdt (mgr S)) 0 ∧
  (∀ v, peer_versions (mgr S) !! p = Some v → unservable (crdt (mgr S)) v) ∧
  match task S with
  | Waiting | Stopped => True
  | Syncing rest => ∀ v, (p, v) ∈ rest → unservable (crdt (mgr S)) v
  | Calling q _ _ rest | Recording q _ rest =>
      q ≠ p ∧ ∀ v, (p, v) ∈ rest → unservable (crdt (mgr S)) v
  end.

Lemma unservable_evolves (c c' : T) (v : Z) :
  unservable c v → evolves c c' → unservable c' v.
Proof. intros Hu He c2 Hc2. apply Hu. by transitivity c'. Qed.

Lemma starved_evolves (p : PeerId) m m' t R R' :
  starved p (mkSystem m t R) → evolves (crdt m) (crdt m') →
  (∀ v, peer_versions m' !! p = Some v → peer_versions m !! p = Some v ∨ v = 0) →
  starved p (mkSystem m' t R').
Proof.
  intros (H0 & Hv & Ht) He Hpv. simpl in *. split_and!; simpl.
  - by eapply unservable_evolves.
  - intros v [Hp| ->]%Hpv; eapply unservable_evolves; eauto.
  - destruct t as [| | | |]; [done| | | |done].
    + intros v Hin. eapply unservable_evolves; eauto.
    + destruct Ht as [? Ht]. split; [done|]. intros v Hin. eapply unservable_evolves; eauto.
    + destruct Ht as [? Ht]. split; [done|]. intros v Hin. eapply unservable_evolves; eauto.
Qed.

Lemma or_insert_zero_lookup p q (m : gmap PeerId Z) v :
  or_insert_zero q m !! p = Some v → m !! p = Some v ∨ v = 0.
Proof.
  unfold or_insert_zero. destruct (m !! q) eqn:E; [auto|]. rewrite lookup_insert.
  case_decide; naive_solver.
Qed.

Lemma starved_step acks (p : PeerId) (S S' : System) :
  step acks S S' → ¬ acks p → (∀ q, good (remotes S q)) → good (crdt (mgr S)) →
  starved p S → starved p S'.
Proof.
  intros Hstep Hack Hgr Hg Hst. destruct Hstep as
    [S S' Ht|m q d v rest R e|m q d v rest R e Hm|m R|m t R q|m t R q|m t R q d v Hm
    |m t R q s Hq Hs Hev Hin|m t R c Hc|m t R q r Hr];
    try (by destruct Hst as (? & ? & ? & ?); split_and!);
    try (by destruct Hst as (? & ? & _); split_and!).
  - destruct Ht as [m R|m rest R|m q d v rest R Hm|m q v rest R];
      destruct Hst as (H0 & Hv & Hrest); split_and!; simpl in *; try done.
    + intros v Hin%elem_of_hiter. by apply Hv.
    + destruct rest as [|[q v] rest]; simpl; [done|].
      destruct (crdt_delta (crdt m) v) as [d|] eqn:Hd.
      * split; [intros ->|intros w Hw; apply Hrest; by right].
        specialize (Hrest v ltac:(by left) (crdt m) ltac:(done)). congruence.
      * intros w Hw. apply Hrest. by right.
    + intros w. rewrite lookup_insert_ne by apply Hrest. apply Hv.
    + apply Hrest.
  - apply (starved_evolves p m _ t R _ Hst); simpl; [done|]. apply or_insert_zero_lookup.
  - apply (starved_evolves p m _ t R _ Hst); simpl; [done|]. intros v. rewrite lookup_delete.
    case_decide; naive_solver.
  - pose proof (merge_evolves _ _ Hg Hm) as He. unfold apply_delta. simpl in *.
    destruct (crdt_merge (crdt m) d) as [c [[]|]];
      apply (starved_evolves p m _ t R _ Hst); simpl; try done; [apply or_insert_zero_lookup|auto].
  - apply (starved_evolves p m _ t R _ Hst); simpl; [done|]. intros w.
    rewrite lookup_insert_ne by congruence. auto.
  - apply (starved_evolves p m _ t R _ Hst); simpl; auto.
  - apply (starved_evolves p m _ t R _ Hst); simpl; [done|auto].
Qed.

(** ** Properties *)

(** C19. Anti-entropy never over-reports: in every interleaving of the
    background task with local writes, peer changes, failed and successful
    callbacks, a peer recorded at version [v] holds a state of ours with that
    version, and a peer recorded at the current version holds everything we
    have. *)
Theorem anti_entropy_safe acks (c s0 : T) (R : PeerId → T) (S : System) :
  good s0 → evolves s0 c → crdt_version s0 = 0 →
  (∀ p, good (R p) ∧ includes (R p) s0) →
  rtc (step acks) (mkSystem (new c) Waiting R) S →
  ∀ p v, peer_versions (mgr S) !! p = Some v →
    holds S p v ∧ (v = crdt_version (crdt (mgr S)) → includes (remotes S p) (crdt (mgr S))).
Proof.
  intros Hs0 Hev Hv0 HR Hsteps.
  assert (invariant S) as Hinv.
  { apply (steps_invariant _ _ _ Hsteps). split; simpl; [|apply HR| |apply map_Forall_empty|done].
    - by apply (evolves_good s0).
    - exists s0. split_and!; try done. apply HR. }
  intros p v Hp. pose proof (inv_versions _ Hinv p v Hp) as Hh. simpl in Hh.
  split; [done|]. intros ->. by apply holds_current.
Qed.

(** A round delivers: from any state between two ticks, if every
    recorded version can be served from the changelog, the task's loop
    terminates and afterwards every registered peer has everything we have. *)
Theorem sync_round_delivers (m : AntiEntropyManager) (R : PeerId → T) :
  invariant (mkSystem m Waiting R) →
  (∀ p v, peer_versions m !! p = Some v → servable (crdt m) (R p) v) →
  ∃ m' R', rtc task_step (mkSystem m Waiting R) (mkSystem m' Waiting R') ∧
    crdt m' = crdt m ∧
    ∀ p, is_Some (peer_versions m !! p) → includes (R' p) (crdt m).
Proof.
  intros Hinv Hs.
  destruct (round_from (hiter (peer_versions m)) m R) as (m' & R' & Hsteps & Hc & Hall & _).
  - exact (task_step_invariant _ _ (step_tick m R) Hinv).
  - apply NoDup_hiter_keys.
  - apply Forall_forall. intros [p v] Hin%elem_of_hiter. by apply Hs.
  - exists m', R'. split_and!; [|done|].
    + eapply rtc_l; [apply step_tick|exact Hsteps].
    + intros p Hp. by apply Hall, elem_of_hiter_keys.
Qed.

(** A peer whose recorded version can no longer be served is never sent
    anything again: unless the application itself acknowledges a newer
    version for it, no interleaving ever calls the callback for that peer,
    re-registering it included. *)
Theorem starved_peer_stays_starved acks (p : PeerId) (S S' : System) :
  rtc (step acks) S S' → ¬ acks p → invariant S → starved p S →
  ∀ d v rest, task S' ≠ Calling p d v rest.
Proof.
  intros Hsteps Hack Hinv Hst d v rest Ht.
  assert (starved p S') as (_ & _ & Hs').
  { clear Ht. induction Hsteps as [|S1 S2 S3 H12 _ IH]; [done|]. apply IH.
    - by apply (step_invariant acks S1).
    - apply (starved_step acks p S1 S2 H12 Hack); [apply Hinv|apply Hinv|done]. }
  rewrite Ht in Hs'. by destruct Hs'.
Qed.

(** Removing a peer while its callback is in flight is undone by the version
    recorded afterwards. *)
Lemma remove_peer_undone acks (m : AntiEntropyManager) (p : PeerId) (d : Delta) (v : Z) rest R :
  mergeable (R p) d →
  ∃ S, rtc (step acks) (mkSystem (remove_peer m p) (Calling p d v rest) R) S ∧
    peer_versions (mgr S) !! p = Some v.
Proof.
  intros Hm. eexists. split.
  - eapply rtc_l; [by apply step_task, step_delivered|].
    eapply rtc_l; [apply step_task, step_record|apply rtc_refl].
  - simpl. apply lookup_insert_eq.
Qed.
End Laws.
End AntiEntropy.
Arguments AntiEntropyManager T : clear implicits.
End AntiEntropy.

(** ** The observed-remove set as an instance *)

Section OrSetInstance.
Context {T : Type} `{Countable T} `{!HashIter T (gset UniqueTag)}.
Import OrSet.

#[export] Instance orset_delta_crdt : DeltaCrdt (OrSet T) (OrSetDelta T) := {
  crdt_merge s d := (OrSet.merge s d, Ok ());
  crdt_delta := OrSet.delta;
  crdt_version := OrSet.version;
}.

(** Every tombstone and every live tag of [s] is known to [r]. *)
Definition orset_includes (r s : OrSet T) : Prop :=
  ∀ e, dead s e ⊆ dead r e ∧ live s e ⊆ live r e ∪ dead r e.

Lemma delta_Some_inv (s : OrSet T) (v : Z) (d : OrSetDelta T) :
  OrSet.delta s v = Some d → v < version s ∧ changelog_floor s ≤ v.
Proof. unfold OrSet.delta. do 2 (case_decide; [done|]). intros _. lia. Qed.

Lemma orset_includes_step (r r' s : OrSet T) :
  wf r → log_ok r → orset_includes r s → OrSet.step r r' → orset_includes r' s.
Proof.
  intros Hwf Hlog Hin Hstep e. specialize (Hin e) as [Hd Hl].
  destruct (OrSet.step_inv r r' Hstep Hwf Hlog) as (_ & _ & Hm).
  destruct Hm as [(_ & _ & _ & Hss)|[(_ & _ & a & rm & _ & _ & _ & Hst)|(k & _ & ->)]].
  - destruct (Hss e) as [<- <-]. done.
  - destruct (Hst e) as [HD HL]. rewrite HL, HD. clear -Hd Hl.
    split; [set_solver|]. intros t Ht. destruct (decide (t ∈ dead r e ∪ tags_at rm e)); set_solver.
  - unfold compact. case_decide; done.
Qed.

Lemma orset_includes_steps (r r' s : OrSet T) :
  rtc OrSet.step r r' → wf r → log_ok r → orset_includes r s → orset_includes r' s.
Proof.
  induction 1 as [|r r1 r2 H1 _ IH]; [done|]. intros Hwf Hlog Hin.
  destruct (OrSet.step_inv r r1 H1 Hwf Hlog) as (? & ? & _).
  apply IH; [done..|]. by apply (orset_includes_step r).
Qed.

Lemma orset_same_version (s s' : OrSet T) :
  rtc OrSet.step s s' → wf s → log_ok s → version s' = version s → same_state s s'.
Proof.
  intros Hsteps Hwf Hlog Hv.
  destruct (covers_steps s s' Hsteps Hwf Hlog) as (Hwf' & [Hfl _ _] & _ & Hc).
  specialize (Hc ltac:(lia)). cbv zeta in Hc. rewrite Hv, Z.sub_diag in Hc. simpl in Hc.
  intros e. destruct (Hc e) as [HD HL]. pose proof (wf_disjoint s Hwf e) as Hdis.
  rewrite HL, HD. clear -Hdis. set_solver.
Qed.

Lemma orset_delta_includes (r s s' : OrSet T) (d : OrSetDelta T) :
  wf s → log_ok s → rtc OrSet.step s s' → OrSet.delta s' (version s) = Some d →
  wf r → orset_includes r s → no_empty (d_removed d) → orset_includes (OrSet.merge r d) s'.
Proof.
  intros Hwf Hlog Hsteps Hd Hr Hin Hne. pose proof (delta_Some_inv _ _ _ Hd) as [Hlt Hfl].
  destruct (delta_completes s s' Hsteps Hwf Hlog Hlt Hfl) as (d' & Hd' & _ & _ & Hsame).
  rewrite Hd in Hd'. injection Hd' as <-.
  destruct (covers_steps s s' Hsteps Hwf Hlog) as (Hwf' & _ & _).
  intros e. specialize (Hsame r Hr e) as [HL HD]. specialize (Hin e) as [Hdin Hlin].
  destruct (merge_state_spec r s Hr Hwf) as (Hrs & HDs & HLs).
  destruct (merge_state_spec r s' Hr Hwf') as (_ & HDs' & HLs').
  destruct (merge_spec (merge_state r s) d Hrs Hne) as (_ & HDm & HLm).
  destruct (merge_spec r d Hr Hne) as (_ & HDr & HLr).
  rewrite HDm, HDs, HDs' in HD. rewrite HLm, HLs, HLs', HDs in HL. rewrite HDr, HLr.
  clear -Hdin Hlin HD HL.
  assert (dead s' e ⊆ dead r e ∪ tags_at (d_removed d) e) as Hdead by set_solver.
  split; [done|]. intros t Ht.
  destruct (decide (t ∈ dead r e ∪ tags_at (d_removed d) e)); [set_solver|].
  assert (t ∈ (live r e ∪ live s' e) ∖ (dead r e ∪ dead s' e)) as Hin by set_solver.
  rewrite <-HL in Hin. clear -Hin Hlin n. set_solver.
Qed.

#[export] Program Instance orset_delta_laws : DeltaCrdtLaws (OrSet T) (OrSetDelta T) := {
  good s := wf s ∧ log_ok s;
  evolves := rtc OrSet.step;
  includes := orset_includes;
  mergeable r d := version r < U64_MAX ∧ no_empty (d_removed d);
}.
Next Obligation. intros s s' [Hw Hl] Hs. by destruct (covers_steps s s' Hs Hw Hl) as (? & ? & _). Qed.
Next Obligation. intros s s' [Hw Hl] Hs. by destruct (covers_steps s s' Hs Hw Hl) as (_ & _ & ? & _). Qed.
Next Obligation. intros s _ e. set_solver. Qed.
Next Obligation. intros r r' s [Hw Hl] Hin Hs. by apply (orset_includes_steps r). Qed.
Next Obligation.
  intros r s s' [Hw Hl] Hs Hv Hin e.
  destruct (orset_same_version s s' Hs Hw Hl Hv e) as [<- <-]. apply Hin.
Qed.
Next Obligation. intros r d _ [Hv Hne]. apply rtc_once. by apply step_merge. Qed.
Next Obligation. done. Qed.
Next Obligation. intros r s s' d [Hw Hl] Hs Hd [Hr _] Hin [_ Hne]. by apply (orset_delta_includes r s). Qed.

(** Compaction only ever raises the floor. *)
Lemma floor_mono (s s' : OrSet T) :
  rtc OrSet.step s s' → wf s → log_ok s → changelog_floor s ≤ changelog_floor s'.
Proof.
  induction 1 as [|s s1 s2 H1 _ IH]; [lia|]. intros Hw Hl.
  destruct (OrSet.step_inv s s1 H1 Hw Hl) as (Hw1 & Hl1 & Hm). specialize (IH Hw1 Hl1).
  destruct Hm as [(_ & Hf & _)|[(_ & Hf & _)|(k & Hk & ->)]]; [lia..|].
  etransitivity; [|exact IH]. unfold compact. case_decide; simpl; lia.
Qed.

Lemma below_floor_unservable (s : OrSet T) (v : Z) :
  wf s → log_ok s → v < changelog_floor s → AntiEntropy.unservable s v.
Proof.
  intros Hw Hl Hv s' Hs. simpl in Hs. pose proof (floor_mono s s' Hs Hw Hl).
  destruct (crdt_delta s' v) as [d|] eqn:E; [|done].
  apply delta_Some_inv in E as [_ ?]. lia.
Qed.
End OrSetInstance.

(** ** Witnesses *)

Module AntiEntropyWitness.
Import OrSet AntiEntropy OrSetWitness.
#[local] Existing Instance nat_iter.
#[local] Instance version_iter : HashIter PeerId Z := canonical_iter.

Definition no_acks : PeerId → Prop := λ _, False.
Definition fresh_peers : PeerId → OrSet nat := λ _, OrSet.new.
Definition mgr0 : AntiEntropyManager (OrSet nat) := add_peer (AntiEntropy.new replica_a1) bob.

Lemma good_new : good (OrSet.new : OrSet nat).
Proof. split; [apply wf_new|apply log_ok_new]. Qed.

Lemma includes_new (r : OrSet nat) : includes r OrSet.new.
Proof.
  intros e. assert (dead (OrSet.new : OrSet nat) e = ∅ ∧ live (OrSet.new : OrSet nat) e = ∅)
    as [-> ->] by (split; apply tags_at_empty). set_solver.
Qed.

Lemma mgr0_invariant : invariant (mkSystem mgr0 Waiting fresh_peers).
Proof.
  apply (steps_invariant no_acks (mkSystem (AntiEntropy.new replica_a1) Waiting fresh_peers)).
  - apply rtc_once, step_add_peer.
  - split; simpl; [split; [apply wf_replica_a1|apply log_ok_replica_a1]| | |apply map_Forall_empty|done].
    + intros p. apply good_new.
    + exists OrSet.new. split; [apply good_new|]. split_and!; [apply replica_a1_steps|done|].
      intros p. apply includes_new.
Qed.

Lemma new_mergeable (d : OrSetDelta nat) :
  no_empty (d_removed d) → mergeable (OrSet.new : OrSet nat) d.
Proof. intros Hd. split; [by vm_compute|done]. Qed.

Lemma sync_round_delivers_witness :
  ∃ m' R', rtc task_step (mkSystem mgr0 Waiting fresh_peers) (mkSystem m' Waiting R') ∧
    crdt m' = replica_a1 ∧
    ∀ p, is_Some (peer_versions mgr0 !! p) → includes (R' p) replica_a1.
Proof.
  apply (sync_round_delivers mgr0 fresh_peers mgr0_invariant).
  intros p v Hp. assert (v = 0) as ->.
  { revert Hp. unfold mgr0, add_peer, or_insert_zero. simpl. rewrite lookup_empty. simpl.
    rewrite lookup_insert. case_decide; [by intros [= <-]|]. by rewrite lookup_empty. }
  unfold servable. change (crdt mgr0) with replica_a1.
  destruct (delta_completes OrSet.new replica_a1 replica_a1_steps wf_new log_ok_new)
    as (d & Hd & _ & Hne & _); [by vm_compute..|].
  simpl. change 0 with (version (OrSet.new : OrSet nat)). rewrite Hd. by apply new_mergeable.
Defined.

Lemma anti_entropy_safe_witness :
  ∃ m' R', peer_versions mgr0 !! bob = Some 0 ∧ crdt m' = replica_a1 ∧
    holds (mkSystem mgr0 Waiting R') bob 0.
Proof.
  exists mgr0, fresh_peers.
  assert (peer_versions mgr0 !! bob = Some 0) as Hb by by vm_compute.
  split_and!; [exact Hb|reflexivity|].
  apply (anti_entropy_safe no_acks replica_a1 OrSet.new fresh_peers (mkSystem mgr0 Waiting fresh_peers)).
  - apply good_new.
  - apply replica_a1_steps.
  - reflexivity.
  - intros p. split; [apply good_new|apply includes_new].
  - apply rtc_once, step_add_peer.
  - exact Hb.
Defined.

(** The changelog is compacted down to one version while Bob is still at
    version 0. *)
Definition mgr_compacted : AntiEntropyManager (OrSet nat) :=
  mkManager (compact replica_a1 1) (peer_versions mgr0).

Lemma starved_peer_stays_starved_witness :
  peer_versions mgr_compacted !! bob = Some 0 ∧
  ∀ (d : OrSetDelta nat) v rest,
    task (mkSystem mgr_compacted (on_tick mgr_compacted) fresh_peers) ≠ Calling bob d v rest.
Proof.
  split; [by vm_compute|].
  assert (rtc OrSet.step replica_a1 (compact replica_a1 1)) as Hc by (apply rtc_once, step_compact; lia).
  assert (invariant (mkSystem mgr_compacted Waiting fresh_peers)) as Hinv.
  { apply (step_invariant no_acks (mkSystem mgr0 Waiting fresh_peers)); [|apply mgr0_invariant].
    exact (step_local no_acks mgr0 Waiting fresh_peers (compact replica_a1 1) Hc). }
  apply (starved_peer_stays_starved no_acks bob (mkSystem mgr_compacted Waiting fresh_peers));
    [apply rtc_once, step_task, step_tick|by intros []|exact Hinv|].
  assert (unservable (compact replica_a1 1) 0) as Hu.
  { destruct (inv_good _ Hinv). apply below_floor_unservable; [done..|by vm_compute]. }
  split_and!; [exact Hu| |done].
  intros v Hv. assert (v = 0) as -> by (revert Hv; vm_compute; by intros [= <-]). exact Hu.
Defined.
End AntiEntropyWitness.
