(* ===== verification/Admission.v ===== *)
(** * Admission control ([crates/pubsub/src/admission.rs])

    The gate in front of the per-peer outbound pipeline: the topic-priority
    registry, the decision matrix, the per-(priority, reason) counters and the
    per-peer estimate of Bulk work in flight.  Each counter is an atomic
    incremented on its own and the per-peer map is only touched under its
    lock, so one call is one transition of [AdmissionControl]. *)

From S2P Require Import Prelude Types.

#[local] Open Scope Z_scope.

Module Admission.

Definition DEFAULT_PER_PEER_BULK_SLACK_THRESHOLD : Z := 64.
Definition DEFAULT_PER_PEER_CRITICAL_QUEUE_CAP : Z := 256.

Record PerPeerAdmissionCounts := mkCounts {
  bulk_queue_depth : Z;
  normal_queue_depth : Z;
  critical_queue_depth : Z;
}.

(** ** Counters *)

Record AdmissionStats := mkStats {
  admitted_critical : Z;
  admitted_normal : Z;
  admitted_bulk : Z;
  dropped_bulk_peer_dead : Z;
  dropped_bulk_peer_suspect : Z;
  dropped_bulk_peer_cooled : Z;
  dropped_bulk_backpressure : Z;
  dropped_normal_peer_dead : Z;
  dropped_normal_peer_suspect : Z;
  dropped_critical_hard_error : Z;
  dropped_critical_cooling : Z;
  dropped_critical_no_target : Z;
}.

Definition stats_default : AdmissionStats := mkStats 0 0 0 0 0 0 0 0 0 0 0 0.

(** A reference to one of the atomics. *)
Inductive Counter :=
| AdmittedCritical
| AdmittedNormal
| AdmittedBulk
| DroppedBulkPeerDead
| DroppedBulkPeerSuspect
| DroppedBulkPeerCooled
| DroppedBulkBackpressure
| DroppedNormalPeerDead
| DroppedNormalPeerSuspect
| DroppedCriticalHardError
| DroppedCriticalCooling
| DroppedCriticalNoTarget.

#[global] Instance Counter_eq_dec : EqDecision Counter.
Proof. solve_decision. Defined.

Definition load (c : Counter) (s : AdmissionStats) : Z :=
  match c with
  | AdmittedCritical => admitted_critical s
  | AdmittedNormal => admitted_normal s
  | AdmittedBulk => admitted_bulk s
  | DroppedBulkPeerDead => dropped_bulk_peer_dead s
  | DroppedBulkPeerSuspect => dropped_bulk_peer_suspect s
  | DroppedBulkPeerCooled => dropped_bulk_peer_cooled s
  | DroppedBulkBackpressure => dropped_bulk_backpressure s
  | DroppedNormalPeerDead => dropped_normal_peer_dead s
  | DroppedNormalPeerSuspect => dropped_normal_peer_suspect s
  | DroppedCriticalHardError => dropped_critical_hard_error s
  | DroppedCriticalCooling => dropped_critical_cooling s
  | DroppedCriticalNoTarget => dropped_critical_no_target s
  end.

(** [counter.fetch_add(1, Relaxed)]: wraps. *)
Definition fetch_add1 (c : Counter) (s : AdmissionStats) : AdmissionStats :=
  let bump d := if decide (c = d) then u64_add (load d s) 1 else load d s in
  mkStats (bump AdmittedCritical) (bump AdmittedNormal) (bump AdmittedBulk) (bump DroppedBulkPeerDead) (bump DroppedBulkPeerSuspect) (bump DroppedBulkPeerCooled) (bump DroppedBulkBackpressure) (bump DroppedNormalPeerDead) (bump DroppedNormalPeerSuspect) (bump DroppedCriticalHardError) (bump DroppedCriticalCooling) (bump DroppedCriticalNoTarget).

(** [snapshot] loads every counter. *)
Definition snapshot (s : AdmissionStats) : AdmissionStats :=
  mkStats (load AdmittedCritical s) (load AdmittedNormal s) (load AdmittedBulk s) (load DroppedBulkPeerDead s) (load DroppedBulkPeerSuspect s) (load DroppedBulkPeerCooled s) (load DroppedBulkBackpressure s) (load DroppedNormalPeerDead s) (load DroppedNormalPeerSuspect s) (load DroppedCriticalHardError s) (load DroppedCriticalCooling s) (load DroppedCriticalNoTarget s).

Definition admit_counter (priority : TopicPriority) : Counter :=
  match priority with
  | Critical => AdmittedCritical
  | Normal => AdmittedNormal
  | Bulk => AdmittedBulk
  end.

Definition record_admit (s : AdmissionStats) (priority : TopicPriority) : AdmissionStats :=
  fetch_add1 (admit_counter priority) s.

Definition record_critical_hard_error (s : AdmissionStats) : AdmissionStats :=
  fetch_add1 DroppedCriticalHardError s.
Definition record_critical_cooling (s : AdmissionStats) : AdmissionStats :=
  fetch_add1 DroppedCriticalCooling s.
Definition record_critical_no_target (s : AdmissionStats) : AdmissionStats :=
  fetch_add1 DroppedCriticalNoTarget s.

Definition drop_counter (priority : TopicPriority) (reason : AdmissionDropReason) : Counter :=
  match priority, reason with
  | Critical, _ => DroppedCriticalHardError
  | Normal, PeerDead => DroppedNormalPeerDead
  | Normal, PeerSuspect => DroppedNormalPeerSuspect
  | Bulk, PeerDead => DroppedBulkPeerDead
  | Bulk, PeerSuspect => DroppedBulkPeerSuspect
  | Bulk, PeerCooled => DroppedBulkPeerCooled
  | Bulk, BulkBackpressure => DroppedBulkBackpressure
  | Normal, _ => DroppedBulkBackpressure
  end.

Definition record_drop (s : AdmissionStats) (priority : TopicPriority)
    (reason : AdmissionDropReason) : AdmissionStats :=
  fetch_add1 (drop_counter priority reason) s.

(** ** Configuration and registry *)

Record AdmissionConfig := mkConfig {
  per_peer_bulk_slack_threshold : Z;
  per_peer_critical_queue_cap : Z;
}.

Definition config_default : AdmissionConfig :=
  mkConfig DEFAULT_PER_PEER_BULK_SLACK_THRESHOLD DEFAULT_PER_PEER_CRITICAL_QUEUE_CAP.

Definition Registry := gmap TopicId TopicPriority.

Definition register (r : Registry) (topic : TopicId) (priority : TopicPriority) : Registry :=
  <[topic := priority]> r.

Definition priority_for (r : Registry) (topic : TopicId) : TopicPriority :=
  default priority_default (r !! topic).

Definition registry_snapshot (r : Registry) : gmap TopicId TopicPriority := r.

(** ** The engine *)

Record AdmissionControl := mkControl {
  registry : Registry;
  config : AdmissionConfig;
  stats : AdmissionStats;
  per_peer : gmap PeerId Z;  (* [PerPeerQueueState.bulk_depth] *)
}.

Definition new : AdmissionControl := mkControl ∅ config_default stats_default ∅.

Definition with_config (a : AdmissionControl) (c : AdmissionConfig) : AdmissionControl :=
  mkControl (registry a) c (stats a) (per_peer a).

Definition with_stats (a : AdmissionControl) (s : AdmissionStats) : AdmissionControl :=
  mkControl (registry a) (config a) s (per_peer a).

Definition with_per_peer (a : AdmissionControl) (m : gmap PeerId Z) : AdmissionControl :=
  mkControl (registry a) (config a) (stats a) m.

Definition with_registry (a : AdmissionControl) (r : Registry) : AdmissionControl :=
  mkControl r (config a) (stats a) (per_peer a).

(** Record the reason's counter and return the drop. *)
Definition reject (a : AdmissionControl) (priority : TopicPriority) (reason : AdmissionDropReason)
    : AdmissionControl * AdmissionDecision :=
  (with_stats a (record_drop (stats a) priority reason), Drop reason).

(** Deliberately empty in the source: Normal and Critical keep no queue. *)
Definition note_admission_locked (a : AdmissionControl) (_ : PeerId) (_ : TopicPriority)
    : AdmissionControl := a.

(** [guard.entry(peer).or_default()] creates the entry even when the
    admission is then refused. *)
Definition admit_bulk (a : AdmissionControl) (peer : PeerId) (health : option PeerHealth)
    (is_peer_cooled : bool) (priority : TopicPriority) : AdmissionControl * AdmissionDecision :=
  if bool_decide (health = Some HealthDead) then reject a priority PeerDead
  else if bool_decide (health = Some HealthSuspect) then reject a priority PeerSuspect
  else if is_peer_cooled then reject a priority PeerCooled
  else
    let bulk_depth := default 0 (per_peer a !! peer) in
    if bool_decide (per_peer_bulk_slack_threshold (config a) ≤ bulk_depth) then
      reject (with_per_peer a (<[peer := bulk_depth]> (per_peer a))) priority BulkBackpressure
    else
      let a := with_per_peer a (<[peer := u64_sat_add bulk_depth 1]> (per_peer a)) in
      (with_stats a (record_admit (stats a) priority), Admit).

(** [AdmissionControl::admit]. *)
Definition admit_ (a : AdmissionControl) (topic : TopicId) (peer : PeerId)
    (health : option PeerHealth) (is_peer_cooled : bool) : AdmissionControl * AdmissionDecision :=
  let priority := priority_for (registry a) topic in
  match priority with
  | Critical =>
      let a := with_stats a (record_admit (stats a) priority) in
      (note_admission_locked a peer priority, Admit)
  | Normal =>
      if bool_decide (health = Some HealthDead) then reject a priority PeerDead
      else if bool_decide (health = Some HealthSuspect) then reject a priority PeerSuspect
      else
        let a := with_stats a (record_admit (stats a) priority) in
        (note_admission_locked a peer priority, Admit)
  | Bulk => admit_bulk a peer health is_peer_cooled priority
  end.

Definition release_bulk (a : AdmissionControl) (peer : PeerId) : AdmissionControl :=
  match per_peer a !! peer with
  | Some bulk_depth => with_per_peer a (<[peer := sat_sub bulk_depth 1]> (per_peer a))
  | None => a
  end.

Definition per_peer_snapshot (a : AdmissionControl) : gmap PeerId PerPeerAdmissionCounts :=
  (λ bulk_depth, mkCounts bulk_depth 0 0) <$> per_peer a.

(** ** Runs *)

Definition depth (a : AdmissionControl) (peer : PeerId) : Z := default 0 (per_peer a !! peer).

(** What the publish path does with the engine. *)
Inductive Op :=
| OpRegister (topic : TopicId) (priority : TopicPriority)
| OpAdmit (topic : TopicId) (peer : PeerId) (health : option PeerHealth) (cooled : bool)
| OpRelease (peer : PeerId).

Definition exec (a : AdmissionControl) (op : Op) : AdmissionControl * option AdmissionDecision :=
  match op with
  | OpRegister t p => (with_registry a (register (registry a) t p), None)
  | OpAdmit t p h c => let (a, d) := admit_ a t p h c in (a, Some d)
  | OpRelease p => (release_bulk a p, None)
  end.

Fixpoint run (a : AdmissionControl) (ops : list Op) : AdmissionControl :=
  match ops with
  | [] => a
  | op :: ops => run (exec a op).1 ops
  end.

(** The effect of one operation on the number of Bulk messages in flight to
    [peer]. *)
Definition op_net (a : AdmissionControl) (peer : PeerId) (op : Op) : Z :=
  match op with
  | OpAdmit t p h c =>
      if decide (p = peer ∧ priority_for (registry a) t = Bulk ∧ (admit_ a t p h c).2 = Admit)
      then 1 else 0
  | OpRelease p => if decide (p = peer) then -1 else 0
  | OpRegister _ _ => 0
  end.

Fixpoint in_flight (a : AdmissionControl) (peer : PeerId) (ops : list Op) (n : Z) : Z :=
  match ops with
  | [] => n
  | op :: ops => in_flight (exec a op).1 peer ops (n + op_net a peer op)
  end.

(** Every release matches an earlier admission to the same peer. *)
Fixpoint disciplined (a : AdmissionControl) (ops : list Op) : Prop :=
  match ops with
  | [] => True
  | op :: ops =>
      match op with OpRelease p => 0 < depth a p | _ => True end ∧
      disciplined (exec a op).1 ops
  end.

(** Every admission outcome, over all counters that [admit] can touch. *)
Definition total (s : AdmissionStats) : Z :=
  admitted_critical s + admitted_normal s + admitted_bulk s +
  dropped_bulk_peer_dead s + dropped_bulk_peer_suspect s + dropped_bulk_peer_cooled s +
  dropped_bulk_backpressure s + dropped_normal_peer_dead s + dropped_normal_peer_suspect s.

Definition is_admit (op : Op) : bool := match op with OpAdmit _ _ _ _ => true | _ => false end.

(** ** The decision, as a table *)

(** The documented matrix: [None] means the peer is unknown to SWIM. *)
Definition decision_spec (priority : TopicPriority) (health : option PeerHealth) (cooled : bool)
    (bulk_depth threshold : Z) : AdmissionDecision :=
  match priority, health with
  | Critical, _ => Admit
  | _, Some HealthDead => Drop PeerDead
  | _, Some HealthSuspect => Drop PeerSuspect
  | Normal, _ => Admit
  | Bulk, _ =>
      if cooled then Drop PeerCooled
      else if decide (bulk_depth < threshold) then Admit
      else Drop BulkBackpressure
  end.

Definition outcome_counter (priority : TopicPriority) (d : AdmissionDecision) : Counter :=
  match d with
  | Admit => admit_counter priority
  | Drop reason => drop_counter priority reason
  end.

(** The counters an outcome can touch never include the Critical ones beyond
    [admitted_critical]. *)
Lemma admit_spec (a : AdmissionControl) (t : TopicId) (p : PeerId) (h : option PeerHealth) (c : bool) :
  let priority := priority_for (registry a) t in
  let d := decision_spec priority h c (depth a p) (per_peer_bulk_slack_threshold (config a)) in
  (admit_ a t p h c).2 = d ∧
  registry (admit_ a t p h c).1 = registry a ∧
  config (admit_ a t p h c).1 = config a ∧
  stats (admit_ a t p h c).1 = fetch_add1 (outcome_counter priority d) (stats a) ∧
  ∀ q, depth (admit_ a t p h c).1 q =
       if decide (q = p ∧ priority = Bulk ∧ d = Admit) then u64_sat_add (depth a p) 1 else depth a q.
Proof.
  intros priority d. unfold admit_. fold priority. subst d.
  assert (∀ m x q, default 0 (<[p := x]> m !! q) = if decide (q = p) then x else default 0 ((m : gmap PeerId Z) !! q)) as Hins.
  { intros m x q. rewrite lookup_insert. repeat case_decide; naive_solver. }
  destruct priority.
  - unfold admit_bulk, reject. simpl.
    destruct h as [[| |]|]; simpl; destruct c; simpl;
      repeat (rewrite (bool_decide_eq_false_2 (_ = _)) by done); simpl; unfold depth;
      try (case_bool_decide; case_decide; try lia); simpl;
      do 4 (split; [reflexivity|]); intros q; simpl; rewrite ?Hins;
      repeat case_decide; naive_solver.
  - destruct h as [[| |]|]; simpl; do 4 (split; [reflexivity|]); intros q;
      rewrite decide_False by naive_solver; done.
  - simpl. do 4 (split; [reflexivity|]). intros q. rewrite decide_False by naive_solver. done.
Qed.

Lemma release_depth (a : AdmissionControl) (p q : PeerId) :
  depth (release_bulk a p) q = if decide (q = p) then sat_sub (depth a p) 1 else depth a q.
Proof.
  unfold release_bulk, depth. destruct (per_peer a !! p) eqn:E; simpl.
  - rewrite lookup_insert. repeat case_decide; naive_solver.
  - case_decide; [|done]. subst. by rewrite E.
Qed.

(** ** Depth invariant *)

Definition depth_ok (a : AdmissionControl) : Prop :=
  0 ≤ per_peer_bulk_slack_threshold (config a) ≤ U64_MAX ∧
  ∀ p, 0 ≤ depth a p ≤ per_peer_bulk_slack_threshold (config a).

Lemma decision_bulk_admit h c n k : decision_spec Bulk h c n k = Admit → n < k.
Proof. destruct h as [[| |]|], c; simpl; try done; by case_decide. Qed.

Lemma exec_config (a : AdmissionControl) (op : Op) : config (exec a op).1 = config a.
Proof.
  destruct op as [t pr|t p h c|p]; simpl; [done| |].
  - destruct (admit_ a t p h c) eqn:E. pose proof (admit_spec a t p h c) as (_ & _ & Hc & _).
    by rewrite E in Hc.
  - unfold release_bulk. by destruct (per_peer a !! p).
Qed.

Lemma exec_admit_fst (a : AdmissionControl) t p h c :
  (exec a (OpAdmit t p h c)).1 = (admit_ a t p h c).1.
Proof. simpl. by destruct (admit_ a t p h c). Qed.

(** One operation changes the depth by exactly its net effect, as long as a
    release has something to release. *)
Lemma exec_depth (a : AdmissionControl) (op : Op) (q : PeerId) :
  depth_ok a → match op with OpRelease p => 0 < depth a p | _ => True end →
  depth (exec a op).1 q = depth a q + op_net a q op.
Proof.
  intros [Hk Hd] Hrel. destruct op as [t pr|t p h c|p].
  - simpl. unfold depth, with_registry. simpl. lia.
  - rewrite exec_admit_fst. pose proof (admit_spec a t p h c) as (Hdec & _ & _ & _ & Hdep).
    rewrite Hdep. simpl. rewrite Hdec. pose proof (Hd p).
    destruct (decide (q = p ∧ _ ∧ _)) as [(-> & Hb & Had)|Hn].
    + rewrite decide_True by done. rewrite Hb in Had. apply decision_bulk_admit in Had.
      unfold u64_sat_add. lia.
    + rewrite decide_False by naive_solver. lia.
  - simpl. rewrite release_depth. pose proof (Hd p). unfold sat_sub.
    repeat case_decide; subst; first [lia | congruence].
Qed.

Lemma exec_depth_ok (a : AdmissionControl) (op : Op) : depth_ok a → depth_ok (exec a op).1.
Proof.
  intros [Hk Hd]. split; [by rewrite exec_config|]. intros q. rewrite exec_config.
  destruct op as [t pr|t p h c|p].
  - apply Hd.
  - rewrite exec_admit_fst. pose proof (admit_spec a t p h c) as (_ & _ & _ & _ & Hdep).
    rewrite Hdep. pose proof (Hd q). destruct (decide (q = p ∧ _)) as [(-> & Hb & Had)|]; [|lia].
    rewrite Hb in Had. apply decision_bulk_admit in Had. unfold u64_sat_add. lia.
  - simpl. rewrite release_depth. pose proof (Hd q). pose proof (Hd p). unfold sat_sub.
    case_decide; subst; lia.
Qed.

Lemma run_depth_ok (ops : list Op) (a : AdmissionControl) : depth_ok a → depth_ok (run a ops).
Proof. revert a. induction ops as [|op ops IH]; intros a Ha; simpl; auto using exec_depth_ok. Qed.

Lemma depth_ok_new (c : AdmissionConfig) :
  0 ≤ per_peer_bulk_slack_threshold c ≤ U64_MAX → depth_ok (with_config new c).
Proof. intros Hc. split; [done|]. intros p. unfold depth. simpl. rewrite lookup_empty. simpl. lia. Qed.

Lemma run_in_flight (ops : list Op) (a : AdmissionControl) (p : PeerId) (n : Z) :
  depth_ok a → disciplined a ops →
  in_flight a p ops n = n + depth (run a ops) p - depth a p.
Proof.
  revert a n. induction ops as [|op ops IH]; intros a n Ha Hdis; simpl in *; [lia|].
  destruct Hdis as [Hrel Hdis]. rewrite IH by auto using exec_depth_ok.
  pose proof (exec_depth a op p Ha Hrel). lia.
Qed.

(** ** Counter facts *)

Lemma load_fetch_add1 (c d : Counter) (s : AdmissionStats) :
  load d (fetch_add1 c s) = if decide (c = d) then u64_add (load d s) 1 else load d s.
Proof. destruct d; reflexivity. Qed.

(** The outcomes of [admit]: never one of the three Critical drop counters. *)
Definition admission_counter (c : Counter) : bool :=
  match c with
  | DroppedCriticalHardError | DroppedCriticalCooling | DroppedCriticalNoTarget => false
  | _ => true
  end.

Lemma outcome_admission priority h c n k :
  admission_counter (outcome_counter priority (decision_spec priority h c n k)) = true.
Proof. destruct priority, h as [[| |]|], c; simpl; try done; by case_decide. Qed.

Lemma total_fetch_add1 (c : Counter) (s : AdmissionStats) :
  (∀ d, 0 ≤ load d s) → total s < U64_MAX → admission_counter c = true →
  total (fetch_add1 c s) = total s + 1.
Proof.
  intros Hpos Hlt Hc. unfold total in *.
  pose proof (Hpos AdmittedCritical). pose proof (Hpos AdmittedNormal). pose proof (Hpos AdmittedBulk).
  pose proof (Hpos DroppedBulkPeerDead). pose proof (Hpos DroppedBulkPeerSuspect).
  pose proof (Hpos DroppedBulkPeerCooled). pose proof (Hpos DroppedBulkBackpressure).
  pose proof (Hpos DroppedNormalPeerDead). pose proof (Hpos DroppedNormalPeerSuspect).
  simpl in *.
  destruct c; try done; unfold fetch_add1; cbn -[u64_add U64_MAX];
    repeat first [rewrite decide_False by done | rewrite decide_True by done];
    rewrite u64_add_exact; try lia; unfold u64; lia.
Qed.

Lemma fetch_add1_nonneg (c : Counter) (s : AdmissionStats) :
  (∀ d, 0 ≤ load d s) → ∀ d, 0 ≤ load d (fetch_add1 c s).
Proof.
  intros Hpos d. rewrite load_fetch_add1. case_decide; [|done]. unfold u64_add.
  pose proof (u64_wrap_range (load d s + 1)) as Hr. unfold u64 in Hr. lia.
Qed.

Lemma exec_stats (a : AdmissionControl) (op : Op) :
  stats (exec a op).1 = stats a ∨
  is_admit op = true ∧ ∃ c, admission_counter c = true ∧ stats (exec a op).1 = fetch_add1 c (stats a).
Proof.
  destruct op as [t pr|t p h c|p]; [by left| |].
  - right. split; [done|]. rewrite exec_admit_fst.
    pose proof (admit_spec a t p h c) as (_ & _ & _ & Hst & _). eexists. split; [|exact Hst].
    apply outcome_admission.
  - left. simpl. unfold release_bulk. by destruct (per_peer a !! p).
Qed.

Lemma run_stats (ops : list Op) (a : AdmissionControl) :
  (∀ d, 0 ≤ load d (stats a)) →
  total (stats a) + Z.of_nat (length (filter is_admit ops)) ≤ U64_MAX →
  total (stats (run a ops)) = total (stats a) + Z.of_nat (length (filter is_admit ops)) ∧
  ∀ c, admission_counter c = false → load c (stats (run a ops)) = load c (stats a).
Proof.
  revert a. induction ops as [|op ops IH]; intros a Hpos Hlen; [simpl; split; [lia|done]|].
  cbn [run]. rewrite filter_cons in *.
  destruct (exec_stats a op) as [Hs|(Ha & c & Hc & Hs)].
  - destruct op as [t pr|t p h cl|p]; simpl in Hlen |- *.
    + apply (IH (with_registry a (register (registry a) t pr))); done.
    + exfalso. rewrite exec_admit_fst in Hs.
      pose proof (admit_spec a t p h cl) as (_ & _ & _ & Hst & _).
      pose proof (total_fetch_add1 (outcome_counter (priority_for (registry a) t)
        (decision_spec (priority_for (registry a) t) h cl (depth a p)
           (per_peer_bulk_slack_threshold (config a)))) (stats a) Hpos) as Ht.
      rewrite <-Hst, Hs in Ht.
      specialize (Ht ltac:(lia) ltac:(apply outcome_admission)). lia.
    + simpl in Hs. rewrite <-Hs in Hpos, Hlen |- *. by apply IH.
  - rewrite decide_True in Hlen |- * by (by rewrite Ha). simpl in Hlen |- *.
    pose proof (total_fetch_add1 c (stats a) Hpos ltac:(lia) Hc) as Ht.
    destruct (IH (exec a op).1) as [IHt IHc]; rewrite ?Hs.
    + by apply fetch_add1_nonneg.
    + lia.
    + split; [rewrite IHt, Hs; lia|]. intros d Hd. rewrite IHc, Hs by done.
      rewrite load_fetch_add1, decide_False; [done|]. congruence.
Qed.

(** ** Properties *)

(** [admit] implements the decision matrix: Critical is always admitted,
    Normal is refused exactly for Dead and Suspect peers, Bulk additionally
    for cooled peers and at the slack threshold; it touches exactly the
    counter of its outcome, and only an admitted Bulk message changes a queue
    depth, by one, for that peer. *)
Theorem admission_matrix (a : AdmissionControl) (t : TopicId) (p : PeerId)
    (h : option PeerHealth) (c : bool) :
  depth_ok a →
  let priority := priority_for (registry a) t in
  let d := decision_spec priority h c (depth a p) (per_peer_bulk_slack_threshold (config a)) in
  let a' := (admit_ a t p h c).1 in
  (admit_ a t p h c).2 = d ∧
  registry a' = registry a ∧ config a' = config a ∧
  (∀ k, load k (stats a') =
        if decide (outcome_counter priority d = k) then u64_add (load k (stats a)) 1
        else load k (stats a)) ∧
  (∀ q, depth a' q =
        if decide (q = p ∧ priority = Bulk ∧ d = Admit) then depth a q + 1 else depth a q).
Proof.
  intros [Hk Hd] priority d a'. pose proof (admit_spec a t p h c) as (H1 & H2 & H3 & H4 & H5).
  fold priority d a' in H1, H2, H3, H4, H5. split_and!; [done..| |].
  - intros k. rewrite H4. apply load_fetch_add1.
  - intros q. rewrite H5. destruct (decide _) as [(-> & Hb & Had)|]; [|done].
    unfold d in Had. rewrite Hb in Had. apply decision_bulk_admit in Had.
    pose proof (Hd p). unfold u64_sat_add. lia.
Qed.

(** In every run the Bulk work admitted and not yet released to a peer
    stays within the slack threshold, and when releases match admissions the
    recorded depth is exactly that amount. *)
Theorem bulk_depth_bounded (cfg : AdmissionConfig) (ops : list Op) (p : PeerId) :
  0 ≤ per_peer_bulk_slack_threshold cfg ≤ U64_MAX →
  0 ≤ depth (run (with_config new cfg) ops) p ≤ per_peer_bulk_slack_threshold cfg ∧
  (disciplined (with_config new cfg) ops →
   depth (run (with_config new cfg) ops) p = in_flight (with_config new cfg) p ops 0).
Proof.
  intros Hcfg. pose proof (depth_ok_new cfg Hcfg) as H0. split.
  - pose proof (run_depth_ok ops _ H0) as [_ Hd].
    assert (∀ l a, config (run a l) = config a) as Hconf.
    { induction l as [|op l IH]; intros a; simpl; [done|]. by rewrite IH, exec_config. }
    specialize (Hd p). rewrite Hconf in Hd. exact Hd.
  - intros Hdis. rewrite (run_in_flight ops _ p 0 H0 Hdis).
    unfold depth at 3. simpl. rewrite lookup_empty. simpl. lia.
Qed.

(** The counters account for every call: after a run of fewer than
    [2^64] admissions they sum to the number of calls of [admit], and the
    Critical hard-error counter is untouched by the engine itself. *)
Theorem admission_accounting (cfg : AdmissionConfig) (ops : list Op) :
  Z.of_nat (length (filter is_admit ops)) ≤ U64_MAX →
  total (stats (run (with_config new cfg) ops)) = Z.of_nat (length (filter is_admit ops)) ∧
  dropped_critical_hard_error (stats (run (with_config new cfg) ops)) = 0.
Proof.
  intros Hlen. destruct (run_stats ops (with_config new cfg)) as [Ht Hc].
  - intros d. by destruct d.
  - done.
  - split; [done|]. by apply (Hc DroppedCriticalHardError).
Qed.
End Admission.

(** ** Witnesses *)

Module AdmissionWitness.
Import Admission.

Definition bulk_topic : TopicId := mkTopicId (replicate 32 9).
Definition peer : PeerId := mkPeerId (replicate 32 1).
Definition small : AdmissionConfig := mkConfig 1 1.
Definition sample_ops : list Op :=
  [OpRegister bulk_topic Bulk; OpAdmit bulk_topic peer (Some HealthAlive) false;
   OpAdmit bulk_topic peer None false; OpRelease peer;
   OpAdmit bulk_topic peer None false].

Lemma admission_matrix_witness :
  (admit_ (run (with_config new small) (take 2 sample_ops)) bulk_topic peer None false).2
  = Drop BulkBackpressure.
Proof.
  destruct (admission_matrix (run (with_config new small) (take 2 sample_ops)) bulk_topic peer None false)
    as [Hd _].
  - apply run_depth_ok, depth_ok_new. vm_compute. split; discriminate.
  - rewrite Hd. by vm_compute.
Defined.

Lemma bulk_depth_bounded_witness :
  depth (run (with_config new small) sample_ops) peer
  = in_flight (with_config new small) peer sample_ops 0.
Proof.
  apply bulk_depth_bounded.
  - vm_compute. split; discriminate.
  - vm_compute. repeat split.
Defined.

Lemma admission_accounting_witness :
  total (stats (run (with_config new small) sample_ops)) = 3.
Proof.
  destruct (admission_accounting small sample_ops) as [Ht _].
  - by vm_compute.
  - rewrite Ht. by vm_compute.
Defined.
End AdmissionWitness.
