(* ===== verification/Egress.v ===== *)
(** * Leaf egress enforcement ([crates/pubsub/src/egress.rs])

    The serialized-byte budget of a leaf node: an integer token bucket with
    exact remainders, recovery intents that escrow bytes in 7:1
    critical/ordinary slots with a rotation over scopes, fair displacement
    when a class is full, bounded waiters, and the reservation fence in front
    of the transport.  Every method takes the state lock once, so a method is
    one transition; [Instant]s are nanoseconds and the clock reading is an
    argument. *)

From S2P Require Import Prelude Types.

#[local] Open Scope Z_scope.

Module Egress.

Definition RECOVERY_RESERVE_PERCENT : Z := 25.
Definition RECOVERY_RESERVE_MAX_PERCENT : Z := 50.
Definition DEFAULT_MAX_WAITERS : Z := 256.
Definition DEFAULT_MAX_WAITERS_PER_PEER : Z := 8.
Definition DEFAULT_MAX_INTENTS : Z := 1024.
Definition CRITICAL_MAX_WAITERS : Z := 16.
Definition CRITICAL_MAX_INTENTS : Z := 64.
Definition ORDINARY_MAX_WAITERS : Z := DEFAULT_MAX_WAITERS - CRITICAL_MAX_WAITERS.
Definition ORDINARY_MAX_INTENTS : Z := DEFAULT_MAX_INTENTS - CRITICAL_MAX_INTENTS.
Definition ORDINARY_MAX_WAITERS_PER_PEER : Z := DEFAULT_MAX_WAITERS_PER_PEER - 1.
Definition MAX_PURPOSE_ROWS : Z := 1024.
(** [MAX_CACHE_AGE_SECS] of [lib.rs]. *)
Definition MAX_CACHE_AGE_SECS : Z := 60.
Definition RECOVERY_INTENT_MAX_AGE : Z := MAX_CACHE_AGE_SECS * NANOS_PER_SEC.
Definition RECOVERY_INTENT_MAX_LIFETIME : Z := u64_sat_mul MAX_CACHE_AGE_SECS 2 * NANOS_PER_SEC.
Definition RECOVERY_CRITICAL_SLOTS : Z := 7.
Definition RECOVERY_TOTAL_SLOTS : Z := RECOVERY_CRITICAL_SLOTS + 1.
Definition RECOVERY_MAX_QUANTUM_BYTES : Z := 16 * 1024.
Definition DISPLACEMENT_TOKEN_CAPACITY : Z := 8.
Definition DISPLACEMENT_REFILL_NANOS_PER_TOKEN : Z := 2000000000.
Definition DISPLACEMENT_CREDIT_CAP : Z :=
  DISPLACEMENT_TOKEN_CAPACITY * DISPLACEMENT_REFILL_NANOS_PER_TOKEN.

(** ** Configuration *)

Inductive BytePolicy := ObserveOnly | ShedNormal.
#[global] Instance BytePolicy_eq_dec : EqDecision BytePolicy.
Proof. solve_decision. Defined.

Record LeafEgressConfig := mkConfig {
  soft_bytes_per_second : Z;
  hard_bytes_per_second : Z;
  burst_bytes : Z;
  max_serialized_frame_bytes : Z;
  policy : BytePolicy;
}.
#[global] Instance LeafEgressConfig_eq_dec : EqDecision LeafEgressConfig.
Proof. solve_decision. Defined.

Definition config_default : LeafEgressConfig := mkConfig 0 0 0 0 ObserveOnly.

(** [usize] fits [u64]: the conversion never fails here. *)
Definition validate (c : LeafEgressConfig) : option LeafEgressConfig :=
  if decide (hard_bytes_per_second c = 0) then None
  else
    let maximum := max_serialized_frame_bytes c in
    if decide (0 < maximum ∧ maximum ≤ burst_bytes c ∧
               (soft_bytes_per_second c = 0 ∨ soft_bytes_per_second c ≤ hard_bytes_per_second c))
    then Some c else None.

(** ** State *)

(** [[u8; 32]]. *)
Abbreviation Id := (list Z).

Record RecoveryIntentKey := mkKey {
  key_peer : Id;
  key_scope : Id;
  key_family : Id;
  key_operation : Id;
}.
#[global] Instance RecoveryIntentKey_eq_dec : EqDecision RecoveryIntentKey.
Proof. solve_decision. Defined.
#[global] Program Instance RecoveryIntentKey_countable : Countable RecoveryIntentKey :=
  inj_countable' (λ k, (key_peer k, key_scope k, key_family k, key_operation k))
    (λ '(p, s, f, o), mkKey p s f o) _.
Next Obligation. by intros []. Qed.

Inductive ReserveError := Disabled | Oversized | Deferred | WaiterLimit | IntentLimit | Reconfigured.

Inductive RecoveryClass := Ordinary | CriticalEager.
#[global] Instance RecoveryClass_eq_dec : EqDecision RecoveryClass.
Proof. solve_decision. Defined.

Record Intent := mkIntent {
  i_bytes : Z;
  last_observed : Z;
  created_at : Z;
  i_order : Z;
  charged : Z;
  i_class : RecoveryClass;
}.

Record Promotion := mkPromotion {
  p_key : RecoveryIntentKey;
  visits_remaining : Z;
}.

Record State := mkState {
  config : option LeafEgressConfig;
  generation : Z;
  tokens : Z;
  remainder : Z;
  soft_tokens : Z;
  soft_remainder : Z;
  last_refill : Z;
  intents : gmap RecoveryIntentKey Intent;
  waiters_by_peer : gmap Id (Z * Z);
  next_order : Z;
  recovery_quantum : Z;
  recovery_slot : Z;
  recovery_slot_remaining : Z;
  ordinary_scopes : list Id;
  ordinary_scope_counts : gmap Id Z;
  displacement_credit : Z * Z;
  displacement_last_refill : Z;
  promoted : option Promotion;
}.

Definition set_config (v : option LeafEgressConfig) (s : State) : State :=
  mkState v (generation s) (tokens s) (remainder s) (soft_tokens s) (soft_remainder s) (last_refill s) (intents s) (waiters_by_peer s) (next_order s) (recovery_quantum s) (recovery_slot s) (recovery_slot_remaining s) (ordinary_scopes s) (ordinary_scope_counts s) (displacement_credit s) (displacement_last_refill s) (promoted s).
Definition set_generation (v : Z) (s : State) : State :=
  mkState (config s) v (tokens s) (remainder s) (soft_tokens s) (soft_remainder s) (last_refill s) (intents s) (waiters_by_peer s) (next_order s) (recovery_quantum s) (recovery_slot s) (recovery_slot_remaining s) (ordinary_scopes s) (ordinary_scope_counts s) (displacement_credit s) (displacement_last_refill s) (promoted s).
Definition set_tokens (v : Z) (s : State) : State :=
  mkState (config s) (generation s) v (remainder s) (soft_tokens s) (soft_remainder s) (last_refill s) (intents s) (waiters_by_peer s) (next_order s) (recovery_quantum s) (recovery_slot s) (recovery_slot_remaining s) (ordinary_scopes s) (ordinary_scope_counts s) (displacement_credit s) (displacement_last_refill s) (promoted s).
Definition set_remainder (v : Z) (s : State) : State :=
  mkState (config s) (generation s) (tokens s) v (soft_tokens s) (soft_remainder s) (last_refill s) (intents s) (waiters_by_peer s) (next_order s) (recovery_quantum s) (recovery_slot s) (recovery_slot_remaining s) (ordinary_scopes s) (ordinary_scope_counts s) (displacement_credit s) (displacement_last_refill s) (promoted s).
Definition set_soft_tokens (v : Z) (s : State) : State :=
  mkState (config s) (generation s) (tokens s) (remainder s) v (soft_remainder s) (last_refill s) (intents s) (waiters_by_peer s) (next_order s) (recovery_quantum s) (recovery_slot s) (recovery_slot_remaining s) (ordinary_scopes s) (ordinary_scope_counts s) (displacement_credit s) (displacement_last_refill s) (promoted s).
Definition set_soft_remainder (v : Z) (s : State) : State :=
  mkState (config s) (generation s) (tokens s) (remainder s) (soft_tokens s) v (last_refill s) (intents s) (waiters_by_peer s) (next_order s) (recovery_quantum s) (recovery_slot s) (recovery_slot_remaining s) (ordinary_scopes s) (ordinary_scope_counts s) (displacement_credit s) (displacement_last_refill s) (promoted s).
Definition set_last_refill (v : Z) (s : State) : State :=
  mkState (config s) (generation s) (tokens s) (remainder s) (soft_tokens s) (soft_remainder s) v (intents s) (waiters_by_peer s) (next_order s) (recovery_quantum s) (recovery_slot s) (recovery_slot_remaining s) (ordinary_scopes s) (ordinary_scope_counts s) (displacement_credit s) (displacement_last_refill s) (promoted s).
Definition set_intents (v : gmap RecoveryIntentKey Intent) (s : State) : State :=
  mkState (config s) (generation s) (tokens s) (remainder s) (soft_tokens s) (soft_remainder s) (last_refill s) v (waiters_by_peer s) (next_order s) (recovery_quantum s) (recovery_slot s) (recovery_slot_remaining s) (ordinary_scopes s) (ordinary_scope_counts s) (displacement_credit s) (displacement_last_refill s) (promoted s).
Definition set_waiters_by_peer (v : gmap Id (Z * Z)) (s : State) : State :=
  mkState (config s) (generation s) (tokens s) (remainder s) (soft_tokens s) (soft_remainder s) (last_refill s) (intents s) v (next_order s) (recovery_quantum s) (recovery_slot s) (recovery_slot_remaining s) (ordinary_scopes s) (ordinary_scope_counts s) (displacement_credit s) (displacement_last_refill s) (promoted s).
Definition set_next_order (v : Z) (s : State) : State :=
  mkState (config s) (generation s) (tokens s) (remainder s) (soft_tokens s) (soft_remainder s) (last_refill s) (intents s) (waiters_by_peer s) v (recovery_quantum s) (recovery_slot s) (recovery_slot_remaining s) (ordinary_scopes s) (ordinary_scope_counts s) (displacement_credit s) (displacement_last_refill s) (promoted s).
Definition set_recovery_quantum (v : Z) (s : State) : State :=
  mkState (config s) (generation s) (tokens s) (remainder s) (soft_tokens s) (soft_remainder s) (last_refill s) (intents s) (waiters_by_peer s) (next_order s) v (recovery_slot s) (recovery_slot_remaining s) (ordinary_scopes s) (ordinary_scope_counts s) (displacement_credit s) (displacement_last_refill s) (promoted s).
Definition set_recovery_slot (v : Z) (s : State) : State :=
  mkState (config s) (generation s) (tokens s) (remainder s) (soft_tokens s) (soft_remainder s) (last_refill s) (intents s) (waiters_by_peer s) (next_order s) (recovery_quantum s) v (recovery_slot_remaining s) (ordinary_scopes s) (ordinary_scope_counts s) (displacement_credit s) (displacement_last_refill s) (promoted s).
Definition set_recovery_slot_remaining (v : Z) (s : State) : State :=
  mkState (config s) (generation s) (tokens s) (remainder s) (soft_tokens s) (soft_remainder s) (last_refill s) (intents s) (waiters_by_peer s) (next_order s) (recovery_quantum s) (recovery_slot s) v (ordinary_scopes s) (ordinary_scope_counts s) (displacement_credit s) (displacement_last_refill s) (promoted s).
Definition set_ordinary_scopes (v : list Id) (s : State) : State :=
  mkState (config s) (generation s) (tokens s) (remainder s) (soft_tokens s) (soft_remainder s) (last_refill s) (intents s) (waiters_by_peer s) (next_order s) (recovery_quantum s) (recovery_slot s) (recovery_slot_remaining s) v (ordinary_scope_counts s) (displacement_credit s) (displacement_last_refill s) (promoted s).
Definition set_ordinary_scope_counts (v : gmap Id Z) (s : State) : State :=
  mkState (config s) (generation s) (tokens s) (remainder s) (soft_tokens s) (soft_remainder s) (last_refill s) (intents s) (waiters_by_peer s) (next_order s) (recovery_quantum s) (recovery_slot s) (recovery_slot_remaining s) (ordinary_scopes s) v (displacement_credit s) (displacement_last_refill s) (promoted s).
Definition set_displacement_credit (v : Z * Z) (s : State) : State :=
  mkState (config s) (generation s) (tokens s) (remainder s) (soft_tokens s) (soft_remainder s) (last_refill s) (intents s) (waiters_by_peer s) (next_order s) (recovery_quantum s) (recovery_slot s) (recovery_slot_remaining s) (ordinary_scopes s) (ordinary_scope_counts s) v (displacement_last_refill s) (promoted s).
Definition set_displacement_last_refill (v : Z) (s : State) : State :=
  mkState (config s) (generation s) (tokens s) (remainder s) (soft_tokens s) (soft_remainder s) (last_refill s) (intents s) (waiters_by_peer s) (next_order s) (recovery_quantum s) (recovery_slot s) (recovery_slot_remaining s) (ordinary_scopes s) (ordinary_scope_counts s) (displacement_credit s) v (promoted s).
Definition set_promoted (v : option Promotion) (s : State) : State :=
  mkState (config s) (generation s) (tokens s) (remainder s) (soft_tokens s) (soft_remainder s) (last_refill s) (intents s) (waiters_by_peer s) (next_order s) (recovery_quantum s) (recovery_slot s) (recovery_slot_remaining s) (ordinary_scopes s) (ordinary_scope_counts s) (displacement_credit s) (displacement_last_refill s) v.

Record EgressCounters := mkCounters {
  demanded_bytes : Z;
  charged_bytes : Z;
  sent_bytes : Z;
  send_failures : Z;
  data_deferred : Z;
  recovery_waited : Z;
  budget_timeouts : Z;
  queue_overflow : Z;
  intent_displaced : Z;
  displacement_rate_limited : Z;
  invariant_violations : Z;
  shed_suppressed : Z;
}.

Inductive Counter :=
| DemandedBytes
| ChargedBytes
| SentBytes
| SendFailures
| DataDeferred
| RecoveryWaited
| BudgetTimeouts
| QueueOverflow
| IntentDisplaced
| DisplacementRateLimited
| InvariantViolations
| ShedSuppressed.
#[global] Instance Counter_eq_dec : EqDecision Counter.
Proof. solve_decision. Defined.

Definition counters_default : EgressCounters := mkCounters 0 0 0 0 0 0 0 0 0 0 0 0.

Definition load (k : Counter) (c : EgressCounters) : Z :=
  match k with
  | DemandedBytes => demanded_bytes c
  | ChargedBytes => charged_bytes c
  | SentBytes => sent_bytes c
  | SendFailures => send_failures c
  | DataDeferred => data_deferred c
  | RecoveryWaited => recovery_waited c
  | BudgetTimeouts => budget_timeouts c
  | QueueOverflow => queue_overflow c
  | IntentDisplaced => intent_displaced c
  | DisplacementRateLimited => displacement_rate_limited c
  | InvariantViolations => invariant_violations c
  | ShedSuppressed => shed_suppressed c
  end.

(** [counter.fetch_add(n, Relaxed)]: wraps. *)
Definition fetch_add (k : Counter) (n : Z) (c : EgressCounters) : EgressCounters :=
  let bump d := if decide (k = d) then u64_add (load d c) n else load d c in
  mkCounters (bump DemandedBytes) (bump ChargedBytes) (bump SentBytes) (bump SendFailures) (bump DataDeferred) (bump RecoveryWaited) (bump BudgetTimeouts) (bump QueueOverflow) (bump IntentDisplaced) (bump DisplacementRateLimited) (bump InvariantViolations) (bump ShedSuppressed).

Record PurposeCounters := mkPurpose {
  p_demanded_bytes : Z;
  p_charged_bytes : Z;
  p_deferred : Z;
  p_sent_bytes : Z;
  p_send_failures : Z;
}.
Definition purpose_default : PurposeCounters := mkPurpose 0 0 0 0 0.

Record ByteReservation := mkReservation {
  r_key : RecoveryIntentKey;
  r_generation : Z;
}.

Definition matches (r : ByteReservation) (key : RecoveryIntentKey) (generation : Z) : bool :=
  bool_decide (r_key r = key) && bool_decide (r_generation r = generation).

(** ** Flags: one atomic byte *)

Definition FLAG_ENABLED : Z := Z.shiftl 1 0.
Definition FLAG_ENFORCING : Z := Z.shiftl 1 1.
Definition FLAG_DEFERRED_RESIDUE : Z := Z.shiftl 1 2.

Record LeafEgressLimiter := mkLimiter {
  state : State;
  flags : Z;
  ordinary_waiters : Z;  (* semaphore permits left *)
  critical_waiters : Z;
  counters : EgressCounters;
  purpose_counters : gmap (Id * string) PurposeCounters;
}.

Definition with_state (l : LeafEgressLimiter) (s : State) (c : EgressCounters) : LeafEgressLimiter :=
  mkLimiter s (flags l) (ordinary_waiters l) (critical_waiters l) c (purpose_counters l).

Definition disabled (now : Z) : LeafEgressLimiter :=
  mkLimiter
    (mkState None 0 0 0 0 0 now ∅ ∅ 0 1 0 1 [] ∅
       (DISPLACEMENT_CREDIT_CAP, DISPLACEMENT_CREDIT_CAP) now None)
    0 ORDINARY_MAX_WAITERS CRITICAL_MAX_WAITERS counters_default ∅.

Definition enabled (l : LeafEgressLimiter) : bool :=
  negb (Z.land (flags l) FLAG_ENABLED =? 0).
Definition enforcing (l : LeafEgressLimiter) : bool :=
  negb (Z.land (flags l) FLAG_ENFORCING =? 0).
Definition deferred_residue (l : LeafEgressLimiter) : bool :=
  negb (Z.land (flags l) FLAG_DEFERRED_RESIDUE =? 0).
(** [fetch_and(!FLAG_DEFERRED_RESIDUE)] on a byte. *)
Definition clear_deferred_residue (l : LeafEgressLimiter) : LeafEgressLimiter :=
  mkLimiter (state l) (Z.land (flags l) (Z.lxor 255 FLAG_DEFERRED_RESIDUE))
    (ordinary_waiters l) (critical_waiters l) (counters l) (purpose_counters l).

(** ** Scope rotation *)

(** A frame still being paid for. *)
Definition pending (i : Intent) : bool := bool_decide (charged i < i_bytes i).

Definition add_ordinary_pending (s : State) (scope : Id) : State :=
  let count := default 0 (ordinary_scope_counts s !! scope) in
  let s := if decide (count = 0) then set_ordinary_scopes (ordinary_scopes s ++ [scope]) s else s in
  set_ordinary_scope_counts (<[scope := u64_sat_add count 1]> (ordinary_scope_counts s)) s.

Definition add_ordinary_pending_front (s : State) (scope : Id) : State :=
  let count := default 0 (ordinary_scope_counts s !! scope) in
  let s := if decide (count = 0) then set_ordinary_scopes (scope :: ordinary_scopes s) s else s in
  set_ordinary_scope_counts (<[scope := u64_sat_add count 1]> (ordinary_scope_counts s)) s.

Definition remove_ordinary_pending (s : State) (scope : Id) : State :=
  match ordinary_scope_counts s !! scope with
  | Some count =>
      let count := sat_sub count 1 in
      if decide (count = 0) then
        set_ordinary_scopes (filter (λ candidate, candidate ≠ scope) (ordinary_scopes s))
          (set_ordinary_scope_counts (delete scope (ordinary_scope_counts s)) s)
      else set_ordinary_scope_counts (<[scope := count]> (ordinary_scope_counts s)) s
  | None => s
  end.

(** Drop an intent that is still pending from the ordinary bookkeeping. *)
Definition forget_pending (s : State) (key : RecoveryIntentKey) (i : Intent) : State :=
  if bool_decide (i_class i = Ordinary) && pending i
  then remove_ordinary_pending s (key_scope key) else s.

(** [state.intents.remove(&key)] followed by the pending bookkeeping. *)
Definition remove_intent (s : State) (key : RecoveryIntentKey) : State :=
  match intents s !! key with
  | Some i => forget_pending (set_intents (delete key (intents s)) s) key i
  | None => s
  end.

(** Clears a stale promotion as it looks. *)
Definition promotion_live (s : State) : State * bool :=
  match promoted s with
  | None => (s, false)
  | Some promotion =>
      let live :=
        bool_decide (0 < visits_remaining promotion) &&
        match intents s !! p_key promotion with Some i => pending i | None => false end in
      (if live then s else set_promoted None s, live)
  end.

Definition spend_displacement_token (s : State) (class : RecoveryClass) : option State :=
  let '(ordinary, critical) := displacement_credit s in
  match class with
  | Ordinary =>
      if decide (ordinary < DISPLACEMENT_REFILL_NANOS_PER_TOKEN) then None
      else Some (set_displacement_credit (ordinary - DISPLACEMENT_REFILL_NANOS_PER_TOKEN, critical) s)
  | CriticalEager =>
      if decide (critical < DISPLACEMENT_REFILL_NANOS_PER_TOKEN) then None
      else Some (set_displacement_credit (ordinary, critical - DISPLACEMENT_REFILL_NANOS_PER_TOKEN) s)
  end.

Definition advance_recovery_slot (s : State) : State :=
  set_recovery_slot_remaining (recovery_quantum s)
    (set_recovery_slot ((recovery_slot s + 1) mod RECOVERY_TOTAL_SLOTS) s).

Section Limiter.
Context `{!HashIter RecoveryIntentKey Intent} `{!HashIter Id Z}.

(** ** Fair displacement *)

Definition class_pending (class : RecoveryClass) (i : Intent) : bool :=
  bool_decide (i_class i = class) && pending i.

(** The counting loop of [displace_intent_for_fair_admission]. *)
Definition pending_per_peer (s : State) (class : RecoveryClass) : gmap Id Z :=
  foldl (λ per_peer item,
    if class_pending class item.2
    then <[key_peer item.1 := default 0 (per_peer !! key_peer item.1) + 1]> per_peer
    else per_peer) ∅ (hiter (intents s)).

(** [(charged, Reverse(created_at), Reverse(order))], lexicographically. *)
Definition victim_lt (a b : RecoveryIntentKey * Intent) : bool :=
  let (x, y) := (a.2, b.2) in
  bool_decide (charged x < charged y) ||
  bool_decide (charged x = charged y) &&
    (bool_decide (created_at y < created_at x) ||
     bool_decide (created_at y = created_at x) && bool_decide (i_order y < i_order x)).

Definition peer_lt (a b : Id) : bool :=
  match bytes_compare a b with Lt => true | _ => false end.

Definition fairness_victim (per_peer : gmap Id Z) (s : State) (class : RecoveryClass)
    (newcomer_peer : Id) : option RecoveryIntentKey :=
  n_max ← iter_max (hiter per_peer).*2;
  let n_new := default 0 (per_peer !! newcomer_peer) in
  if decide (n_max ≤ u64_sat_add n_new 1) then None
  else
    victim_peer ← min_by peer_lt (filter (λ item, item.2 = n_max) (hiter per_peer)).*1;
    fst <$> min_by victim_lt
      (filter (λ item, class_pending class item.2 && bool_decide (key_peer item.1 = victim_peer))
        (hiter (intents s))).

Definition displace_intent_for_fair_admission (s : State) (c : EgressCounters)
    (class : RecoveryClass) (key : RecoveryIntentKey) : State * EgressCounters * bool :=
  match fairness_victim (pending_per_peer s class) s class (key_peer key) with
  | None => (s, c, false)
  | Some victim =>
      match spend_displacement_token s class with
      | None => (s, fetch_add DisplacementRateLimited 1 c, false)
      | Some s =>
          match intents s !! victim with
          | Some _ => (remove_intent s victim, fetch_add IntentDisplaced 1 c, true)
          | None => (s, c, false)
          end
      end
  end.

(** ** Charging *)

Definition has_critical (s : State) : bool :=
  existsb (λ item, class_pending CriticalEager item.2) (hiter (intents s)).

(** The class the current slot serves; idle classes donate their slots. *)
Definition slot_class (s : State) : option RecoveryClass :=
  match has_critical s, negb (bool_decide (ordinary_scopes s = [])) with
  | false, false => None
  | true, false => Some CriticalEager
  | false, true => Some Ordinary
  | true, true =>
      if bool_decide (recovery_slot s < RECOVERY_CRITICAL_SLOTS) then Some CriticalEager
      else Some Ordinary
  end.

Definition order_lt (a b : RecoveryIntentKey * Intent) : bool :=
  bool_decide (i_order a.2 < i_order b.2).

(** The oldest pending intent of the class (and scope). *)
Definition recovery_head (s : State) (class : RecoveryClass) (ordinary_scope : option Id)
    : option (RecoveryIntentKey * Intent) :=
  min_by order_lt
    (filter (λ item, class_pending class item.2 &&
                     match ordinary_scope with
                     | Some scope => bool_decide (key_scope item.1 = scope)
                     | None => true
                     end)
      (hiter (intents s))).

(** The promotion's visit budget, burnt by any visit to its scope. *)
Definition burn_promotion_visit (s : State) (key : RecoveryIntentKey) : State :=
  match promoted s with
  | None => s
  | Some promotion =>
      if decide (key_scope (p_key promotion) = key_scope key) then
        let visits := sat_sub (visits_remaining promotion) 1 in
        let fully_charged :=
          match intents s !! p_key promotion with
          | Some i => bool_decide (i_bytes i ≤ charged i)
          | None => false
          end in
        if fully_charged || bool_decide (visits = 0) then set_promoted None s
        else set_promoted (Some (mkPromotion (p_key promotion) visits)) s
      else s
  end.

(** The end of an iteration: rotate and advance when the slot is used up. *)
Definition finish_slot (s : State) (class : RecoveryClass) (ordinary_scope : option Id) : State :=
  let '(s, promoted_at_front) :=
    match class, ordinary_scope, promoted s with
    | Ordinary, Some scope, Some promotion =>
        if decide (key_scope (p_key promotion) = scope) then promotion_live s else (s, false)
    | _, _, _ => (s, false)
    end in
  let scope_empty :=
    match ordinary_scope with
    | Some scope => bool_decide (ordinary_scope_counts s !! scope = None)
    | None => false
    end in
  if decide (recovery_slot_remaining s = 0) then
    let s :=
      if bool_decide (class = Ordinary) && negb scope_empty && negb promoted_at_front then
        match ordinary_scopes s with
        | scope :: rest => set_ordinary_scopes (rest ++ [scope]) s
        | [] => s
        end
      else s in
    advance_recovery_slot s
  else s.

(** Charge [delta] bytes to the head. *)
Definition charge_head (s : State) (class : RecoveryClass) (ordinary_scope : option Id)
    (key : RecoveryIntentKey) (i : Intent) (delta : Z) : State :=
  let s := set_tokens (tokens s - delta) s in
  let s := set_recovery_slot_remaining (recovery_slot_remaining s - delta) s in
  let s :=
    match intents s !! key with
    | Some i =>
        set_intents
          (<[key := mkIntent (i_bytes i) (last_observed i) (created_at i) (i_order i)
                      (u64_sat_add (charged i) delta) (i_class i)]> (intents s)) s
    | None => s
    end in
  let s :=
    if bool_decide (class = Ordinary) && bool_decide (delta = i_bytes i - charged i)
    then remove_ordinary_pending s (key_scope key) else s in
  let s := if bool_decide (class = Ordinary) then burn_promotion_visit s key else s in
  finish_slot s class ordinary_scope.

(** One iteration of the [while]: [inl] goes round again, [inr] leaves. *)
Definition charge_step (sc : State * EgressCounters)
    : (State * EgressCounters) + (State * EgressCounters) :=
  let '(s, c) := sc in
  if decide (tokens s ≤ 0) then inr (s, c)
  else
    match slot_class s with
    | None => inr (s, c)
    | Some class =>
        let ordinary_scope :=
          match class with Ordinary => head (ordinary_scopes s) | CriticalEager => None end in
        match recovery_head s class ordinary_scope with
        | None =>
            match class with
            | Ordinary =>
                match ordinary_scope with
                | Some scope =>
                    inl (set_ordinary_scopes (tail (ordinary_scopes s))
                          (set_ordinary_scope_counts (delete scope (ordinary_scope_counts s)) s), c)
                | None => inl (s, c)
                end
            | CriticalEager => inr (s, c)
            end
        | Some (key, i) =>
            let delta := Z.min (Z.min (i_bytes i - charged i) (tokens s)) (recovery_slot_remaining s) in
            if decide (delta = 0) then inl (advance_recovery_slot s, c)
            else inl (charge_head s class ordinary_scope key i delta, fetch_add ChargedBytes delta c)
        end
    end.

(** The number of iterations is below [2 * tokens + scopes + 1]. *)
Definition charge_ready_recovery (s : State) (c : EgressCounters) : State * EgressCounters :=
  match loop_pow 66 charge_step (s, c) with
  | inl sc => sc
  | inr sc => sc
  end.

(** ** Refill *)

(** One bucket: [scaled = elapsed * rate + remainder]. *)
Definition refill_bucket (rate elapsed toks rem burst : Z) : Z * Z :=
  let scaled := u128_sat_add (u128_sat_mul elapsed rate) rem in
  (Z.min (u64_sat_add toks (Z.min U64_MAX (scaled / NANOS_PER_SEC))) burst,
   scaled mod NANOS_PER_SEC).

Definition refill_displacement (s : State) (now : Z) : State :=
  let elapsed := elapsed_ns now (displacement_last_refill s) in
  if decide (0 < elapsed) then
    let top := λ credit,
      Z.min (u64_sat_add credit (Z.min U64_MAX elapsed)) DISPLACEMENT_CREDIT_CAP in
    let '(ordinary, critical) := displacement_credit s in
    set_displacement_last_refill now (set_displacement_credit (top ordinary, top critical) s)
  else s.

Definition expired (now : Z) (i : Intent) : bool :=
  bool_decide (RECOVERY_INTENT_MAX_AGE ≤ elapsed_ns now (last_observed i)) ||
  bool_decide (RECOVERY_INTENT_MAX_LIFETIME ≤ elapsed_ns now (created_at i)).

Definition sweep_expired (s : State) (now : Z) : State :=
  foldl remove_intent s (filter (λ item, expired now item.2) (hiter (intents s))).*1.

Definition refill (s : State) (c : EgressCounters) (now : Z) : State * EgressCounters :=
  match config s with
  | None => (s, c)
  | Some cfg =>
      let elapsed := elapsed_ns now (last_refill s) in
      let '(t, r) := refill_bucket (hard_bytes_per_second cfg) elapsed (tokens s) (remainder s)
                       (burst_bytes cfg) in
      let s := set_remainder r (set_tokens t s) in
      let s :=
        if decide (0 < soft_bytes_per_second cfg) then
          let '(t, r) := refill_bucket (soft_bytes_per_second cfg) elapsed (soft_tokens s)
                           (soft_remainder s) (burst_bytes cfg) in
          set_soft_remainder r (set_soft_tokens t s)
        else s in
      let s := set_last_refill now s in
      let s := sweep_expired (refill_displacement s now) now in
      charge_ready_recovery s c
  end.

(** ** Data reservations *)

Definition recovery_reserve (s : State) (cfg : LeafEgressConfig) : Z :=
  let floor := u64_sat_mul (burst_bytes cfg) RECOVERY_RESERVE_PERCENT / 100 in
  let ceiling := u64_sat_mul (burst_bytes cfg) RECOVERY_RESERVE_MAX_PERCENT / 100 in
  let demand :=
    iter_max ((λ i, i_bytes i - charged i) <$> filter (λ i, pending i) (hiter (intents s)).*2) in
  Z.min (Z.max (default floor demand) floor) (Z.max ceiling floor).

Definition data_hard_denied (s : State) (cfg : LeafEgressConfig) (bytes : Z) : bool :=
  let reserve := recovery_reserve s cfg in
  bool_decide (tokens s < bytes) || bool_decide (sat_sub (tokens s) bytes < reserve).

Definition try_reserve_data_at (l : LeafEgressLimiter) (key : RecoveryIntentKey)
    (frame_bytes : Z) (relayed : bool) (now : Z)
    : LeafEgressLimiter * result ByteReservation ReserveError :=
  let '(s, c) := refill (state l) (counters l) now in
  match config s with
  | None => (with_state l s c, Err Disabled)
  | Some cfg =>
      if decide (max_serialized_frame_bytes cfg < frame_bytes) then (with_state l s c, Err Oversized)
      else
        let bytes := frame_bytes in
        let c := fetch_add DemandedBytes bytes c in
        let hard_denied := data_hard_denied s cfg bytes in
        let soft_denied := relayed && bool_decide (0 < soft_bytes_per_second cfg)
                           && bool_decide (soft_tokens s < bytes) in
        if hard_denied || soft_denied then
          (with_state l s (fetch_add DataDeferred 1 c), Err Deferred)
        else
          let s := set_tokens (tokens s - bytes) s in
          let s := if relayed && bool_decide (0 < soft_bytes_per_second cfg)
                   then set_soft_tokens (soft_tokens s - bytes) s else s in
          (with_state l s (fetch_add ChargedBytes bytes c), Ok (mkReservation key (generation s)))
  end.

(** Charged in full, never denied: the bucket floors at zero. *)
Definition reserve_protected (l : LeafEgressLimiter) (key : RecoveryIntentKey)
    (frame_bytes : Z) (relayed : bool) (now : Z)
    : LeafEgressLimiter * option ByteReservation :=
  let '(s, c) := refill (state l) (counters l) now in
  match config s with
  | None => (with_state l s c, None)
  | Some cfg =>
      let bytes := frame_bytes in
      let c := fetch_add DemandedBytes bytes c in
      let c := if bool_decide (max_serialized_frame_bytes cfg < frame_bytes)
                  || data_hard_denied s cfg bytes
               then fetch_add ShedSuppressed 1 c else c in
      let s := set_tokens (sat_sub (tokens s) bytes) s in
      let s := if relayed && bool_decide (0 < soft_bytes_per_second cfg)
               then set_soft_tokens (sat_sub (soft_tokens s) bytes) s else s in
      (with_state l s (fetch_add ChargedBytes bytes c), Some (mkReservation key (generation s)))
  end.

(** ** Recovery reservations *)

Definition count_class (s : State) (class : RecoveryClass) : Z :=
  map_count (λ item, i_class item.2 = class) (intents s).

(** A registered ordinary intent that is now requested as critical moves to
    the critical class, if that has room or can be made to. *)
Definition upgrade_class (s : State) (c : EgressCounters) (key : RecoveryIntentKey) (i : Intent)
    (class : RecoveryClass) : State * EgressCounters * option ReserveError :=
  if bool_decide (class = CriticalEager) && bool_decide (i_class i ≠ CriticalEager) then
    let '(s, c, admitted) :=
      if decide (CRITICAL_MAX_INTENTS ≤ count_class s CriticalEager)
      then displace_intent_for_fair_admission s c CriticalEager key else (s, c, true) in
    if negb admitted then (s, fetch_add QueueOverflow 1 c, Some IntentLimit)
    else
      match intents s !! key with
      | Some i =>
          let s := forget_pending s key i in
          (set_intents (<[key := mkIntent (i_bytes i) (last_observed i) (created_at i) (i_order i)
                                   (charged i) CriticalEager]> (intents s)) s, c, None)
      | None => (s, c, None)
      end
  else (s, c, None).

(** The key is already registered: upgrade its class, check its size, renew. *)
Definition observe_existing (s : State) (c : EgressCounters) (key : RecoveryIntentKey) (i : Intent)
    (bytes now : Z) (class : RecoveryClass) : State * EgressCounters * option ReserveError :=
  match upgrade_class s c key i class with
  | (s, c, Some e) => (s, c, Some e)
  | (s, c, None) =>
      match intents s !! key with
      | Some i =>
          if decide (i_bytes i ≠ bytes) then (s, c, Some Oversized)
          else (set_intents (<[key := mkIntent (i_bytes i) now (created_at i) (i_order i)
                                       (charged i) (i_class i)]> (intents s)) s, c, None)
      | None => (s, c, None)
      end
  end.

(** What a new intent takes over from the family member it replaces:
    [(order, created_at, credit, preserved_scope_position)]. *)
Definition inherit_family (s : State) (key : RecoveryIntentKey) (bytes now : Z)
    (class : RecoveryClass) : State * (Z * Z * Z * bool) :=
  match head (filter (λ item, key_family item.1 = key_family key) (hiter (intents s))) with
  | Some (previous_key, previous) =>
      let s := set_intents (delete previous_key (intents s)) s in
      let credit := Z.min (charged previous) bytes in
      let preserve :=
        bool_decide (i_class previous = Ordinary) && bool_decide (class = Ordinary)
        && bool_decide (key_scope previous_key = key_scope key) && pending previous
        && bool_decide (credit < bytes) in
      let s := if negb preserve then forget_pending s previous_key previous else s in
      (s, (i_order previous, created_at previous, credit, preserve))
  | None =>
      (set_next_order (u64_sat_add (next_order s) 1) s, (next_order s, now, 0, false))
  end.

Definition div_ceil (a b : Z) : Z := (a + b - 1) / b.

(** Enter a pending ordinary intent in the rotation, at the front when it was
    admitted by displacement and no promotion is outstanding. *)
Definition enter_rotation (s : State) (key : RecoveryIntentKey) (bytes : Z)
    (admitted_by_displacement : bool) : State :=
  let enters_rotation := bool_decide (ordinary_scope_counts s !! key_scope key = None) in
  if admitted_by_displacement && enters_rotation then
    let '(s, live) := promotion_live s in
    if live then add_ordinary_pending s (key_scope key)
    else
      let visits := div_ceil bytes (Z.max (recovery_quantum s) 1) + 1 in
      add_ordinary_pending_front (set_promoted (Some (mkPromotion key visits)) s) (key_scope key)
  else add_ordinary_pending s (key_scope key).

Definition class_limit (class : RecoveryClass) : Z :=
  match class with Ordinary => ORDINARY_MAX_INTENTS | CriticalEager => CRITICAL_MAX_INTENTS end.

Definition register_new (s : State) (c : EgressCounters) (key : RecoveryIntentKey)
    (bytes now : Z) (class : RecoveryClass) : State * EgressCounters * option ReserveError :=
  let '(s, (order, created, credit, preserved)) := inherit_family s key bytes now class in
  let full :=
    bool_decide (DEFAULT_MAX_INTENTS ≤ Z.of_nat (size (intents s)))
    || bool_decide (class_limit class ≤ count_class s class) in
  let '(s, c, admitted) :=
    if full then displace_intent_for_fair_admission s c class key else (s, c, true) in
  if negb admitted then (s, fetch_add QueueOverflow 1 c, Some IntentLimit)
  else
    let s := set_intents (<[key := mkIntent bytes now created order credit class]> (intents s)) s in
    let s :=
      if bool_decide (class = Ordinary) && bool_decide (credit < bytes) && negb preserved
      then enter_rotation s key bytes full else s in
    (s, fetch_add DemandedBytes bytes c, None).

Definition try_reserve_recovery_at_class (l : LeafEgressLimiter) (key : RecoveryIntentKey)
    (frame_bytes gen now : Z) (class : RecoveryClass)
    : LeafEgressLimiter * result ByteReservation ReserveError :=
  let '(s, c) := refill (state l) (counters l) now in
  if decide (generation s ≠ gen) then (with_state l s c, Err Reconfigured)
  else
    match config s with
    | None => (with_state l s c, Err Disabled)
    | Some cfg =>
        if decide (max_serialized_frame_bytes cfg < frame_bytes) then (with_state l s c, Err Oversized)
        else
          let bytes := frame_bytes in
          let registered :=
            match intents s !! key with
            | Some i => observe_existing s c key i bytes now class
            | None => register_new s c key bytes now class
            end in
          match registered with
          | (s, c, Some e) => (with_state l s c, Err e)
          | (s, c, None) =>
              let '(s, c) := charge_ready_recovery s c in
              match intents s !! key with
              | Some i =>
                  if pending i then (with_state l s c, Err Deferred)
                  else (with_state l (set_intents (delete key (intents s)) s) c,
                        Ok (mkReservation key gen))
              | None => (with_state l s c, Err Deferred)
              end
          end
    end.

Definition try_reserve_recovery_at (l : LeafEgressLimiter) (key : RecoveryIntentKey)
    (frame_bytes gen now : Z) : LeafEgressLimiter * result ByteReservation ReserveError :=
  try_reserve_recovery_at_class l key frame_bytes gen now Ordinary.

Definition try_reserve_recovery (l : LeafEgressLimiter) (key : RecoveryIntentKey)
    (frame_bytes now : Z) : LeafEgressLimiter * result ByteReservation ReserveError :=
  try_reserve_recovery_at l key frame_bytes (generation (state l)) now.

Definition try_reserve_data (l : LeafEgressLimiter) (key : RecoveryIntentKey)
    (frame_bytes : Z) (relayed : bool) (now : Z)
    : LeafEgressLimiter * result ByteReservation ReserveError :=
  try_reserve_data_at l key frame_bytes relayed now.

(** [Drop for IntentGuard] calls this while armed. *)
Definition cancel_intent (l : LeafEgressLimiter) (key : RecoveryIntentKey) (gen : Z)
    : LeafEgressLimiter :=
  if decide (generation (state l) = gen)
  then with_state l (remove_intent (state l) key) (counters l) else l.

(** ** Configuration, fence and accounting *)

Definition configure (l : LeafEgressLimiter) (requested : option LeafEgressConfig) (now : Z)
    : LeafEgressLimiter * bool :=
  let validated :=
    match requested with
    | Some candidate =>
        if decide (hard_bytes_per_second candidate = 0) then Some None
        else Some <$> validate candidate
    | None => Some None
    end in
  match validated with
  | None => (l, false)
  | Some validated =>
      let s := state l in
      if decide (config s = validated) then (l, true)
      else
        let was_enabled := bool_decide (is_Some (config s)) in
        let toks := match validated with Some cfg => burst_bytes cfg | None => 0 end in
        let quantum :=
          match validated with
          | Some cfg =>
              Z.max 1 (Z.min (hard_bytes_per_second cfg / 8) RECOVERY_MAX_QUANTUM_BYTES)
          | None => 1
          end in
        let s := mkState validated (u64_add (generation s) 1) toks 0 toks 0 now ∅
                   (waiters_by_peer s) (next_order s) quantum 0 quantum [] ∅
                   (DISPLACEMENT_CREDIT_CAP, DISPLACEMENT_CREDIT_CAP) now None in
        let is_enabled := bool_decide (is_Some validated) in
        let bits := if is_enabled then FLAG_ENABLED else 0 in
        let bits :=
          match validated with
          | Some cfg =>
              if decide (policy cfg = ShedNormal) then Z.lor bits FLAG_ENFORCING else bits
          | None => bits
          end in
        let bits := if negb is_enabled && was_enabled then Z.lor bits FLAG_DEFERRED_RESIDUE else bits in
        (mkLimiter s bits (ordinary_waiters l) (critical_waiters l) (counters l) (purpose_counters l),
         true)
  end.

Definition validate_reservation (l : LeafEgressLimiter) (key : option RecoveryIntentKey)
    (reservation : option ByteReservation) : LeafEgressLimiter * bool :=
  if negb (enabled l) then (l, bool_decide (reservation = None))
  else if bool_decide (config (state l) = None) then (l, bool_decide (reservation = None))
  else
    let valid :=
      match key, reservation with
      | Some key, Some owned => matches owned key (generation (state l))
      | _, _ => false
      end in
    (if valid then l else with_state l (state l) (fetch_add InvariantViolations 1 (counters l)), valid).

(** A full purpose table drops the row and counts the overflow. *)
Definition update_purpose (l : LeafEgressLimiter) (topic : Id) (purpose : string)
    (f : PurposeCounters → PurposeCounters) : LeafEgressLimiter :=
  let rows := purpose_counters l in
  if bool_decide (MAX_PURPOSE_ROWS ≤ Z.of_nat (size rows))
     && bool_decide (rows !! (topic, purpose) = None)
  then with_state l (state l) (fetch_add QueueOverflow 1 (counters l))
  else
    mkLimiter (state l) (flags l) (ordinary_waiters l) (critical_waiters l) (counters l)
      (<[(topic, purpose) := f (default purpose_default (rows !! (topic, purpose)))]> rows).

Definition record_purpose_demand (l : LeafEgressLimiter) (topic : Id) (purpose : string)
    (bytes : Z) (is_charged : bool) : LeafEgressLimiter :=
  update_purpose l topic purpose (λ e,
    if is_charged then
      mkPurpose (u64_sat_add (p_demanded_bytes e) bytes) (u64_sat_add (p_charged_bytes e) bytes)
        (p_deferred e) (p_sent_bytes e) (p_send_failures e)
    else
      mkPurpose (u64_sat_add (p_demanded_bytes e) bytes) (p_charged_bytes e)
        (u64_sat_add (p_deferred e) 1) (p_sent_bytes e) (p_send_failures e)).

Definition record_send_outcome (l : LeafEgressLimiter) (topic : Id) (purpose : string)
    (frame_bytes : Z) (sent : bool) : LeafEgressLimiter :=
  if negb (enabled l) then l
  else
    let c := if sent then fetch_add SentBytes frame_bytes (counters l)
             else fetch_add SendFailures 1 (counters l) in
    update_purpose (with_state l (state l) c) topic purpose (λ e,
      if sent then
        mkPurpose (p_demanded_bytes e) (p_charged_bytes e) (p_deferred e)
          (u64_sat_add (p_sent_bytes e) frame_bytes) (p_send_failures e)
      else
        mkPurpose (p_demanded_bytes e) (p_charged_bytes e) (p_deferred e) (p_sent_bytes e)
          (u64_sat_add (p_send_failures e) 1)).

(** ** Waiters *)

Definition with_waiters (l : LeafEgressLimiter) (s : State) (o c : Z) : LeafEgressLimiter :=
  mkLimiter s (flags l) o c (counters l) (purpose_counters l).

(** [try_acquire_owned] on the class semaphore, then the per-peer caps; the
    global permit is returned when the per-peer check refuses. *)
Definition waiter_permit (l : LeafEgressLimiter) (peer : Id) (class : RecoveryClass)
    : result LeafEgressLimiter ReserveError :=
  let permits := match class with Ordinary => ordinary_waiters l | CriticalEager => critical_waiters l end in
  if decide (permits ≤ 0) then Err WaiterLimit
  else
    let s := state l in
    let '(ord, crit) := default (0, 0) (waiters_by_peer s !! peer) in
    let class_count := match class with Ordinary => ord | CriticalEager => crit end in
    let limit := match class with Ordinary => ORDINARY_MAX_WAITERS_PER_PEER | CriticalEager => 1 end in
    if decide (limit ≤ class_count ∨ DEFAULT_MAX_WAITERS_PER_PEER ≤ ord + crit) then Err WaiterLimit
    else
      Ok (match class with
          | Ordinary =>
              with_waiters l
                (set_waiters_by_peer (<[peer := (ord + 1, crit)]> (waiters_by_peer s)) s)
                (ordinary_waiters l - 1) (critical_waiters l)
          | CriticalEager =>
              with_waiters l
                (set_waiters_by_peer (<[peer := (ord, crit + 1)]> (waiters_by_peer s)) s)
                (ordinary_waiters l) (critical_waiters l - 1)
          end).

(** [Drop for WaiterPermit], and the release of its semaphore permit. *)
Definition drop_waiter_permit (l : LeafEgressLimiter) (peer : Id) (class : RecoveryClass)
    : LeafEgressLimiter :=
  let s := state l in
  let s :=
    match waiters_by_peer s !! peer with
    | Some (ord, crit) =>
        let '(ord, crit) :=
          match class with
          | Ordinary => (sat_sub ord 1, crit)
          | CriticalEager => (ord, sat_sub crit 1)
          end in
        if decide (ord + crit = 0) then set_waiters_by_peer (delete peer (waiters_by_peer s)) s
        else set_waiters_by_peer (<[peer := (ord, crit)]> (waiters_by_peer s)) s
    | None => s
    end in
  match class with
  | Ordinary => with_waiters l s (ordinary_waiters l + 1) (critical_waiters l)
  | CriticalEager => with_waiters l s (ordinary_waiters l) (critical_waiters l + 1)
  end.

(** [reserve_recovery_class], cut at its awaits: entry, the outcome of each
    poll ([try_reserve_recovery_at_class], retried on [Deferred]), and the
    timeout. *)
Definition reserve_recovery_enter (l : LeafEgressLimiter) (key : RecoveryIntentKey)
    (class : RecoveryClass) : result (LeafEgressLimiter * Z) ReserveError :=
  if negb (enabled l) then Err Disabled
  else
    let? l := waiter_permit l (key_peer key) class in
    Ok (with_state l (state l) (fetch_add RecoveryWaited 1 (counters l)), generation (state l)).

(** Leaving: the intent guard is disarmed by success and by a kept timeout,
    and the waiter permit is dropped. *)
Definition reserve_recovery_exit (l : LeafEgressLimiter) (key : RecoveryIntentKey) (gen : Z)
    (class : RecoveryClass) (outcome : option (result ByteReservation ReserveError))
    (keep_intent_on_timeout : bool) : LeafEgressLimiter * result ByteReservation ReserveError :=
  let '(l, res) :=
    match outcome with
    | Some (Ok reservation) => (l, Ok reservation)
    | Some (Err error) => (cancel_intent l key gen, Err error)
    | None =>
        let l := with_state l (state l) (fetch_add BudgetTimeouts 1 (counters l)) in
        (if keep_intent_on_timeout then l else cancel_intent l key gen, Err Deferred)
    end in
  (drop_waiter_permit l (key_peer key) class, res).

(** The two public waiting entry points are [reserve_recovery_enter], polls
    and [reserve_recovery_exit] at their class; [reserve_critical_eager] never
    keeps its intent on a timeout. *)
Definition reserve_critical_eager_exit (l : LeafEgressLimiter) (key : RecoveryIntentKey) (gen : Z)
    (outcome : option (result ByteReservation ReserveError))
    : LeafEgressLimiter * result ByteReservation ReserveError :=
  reserve_recovery_exit l key gen CriticalEager outcome false.

(** ** Snapshot *)

Record LeafEgressPurposeSnapshot := mkRow {
  row_topic : Id;
  row_purpose : string;
  row_counters : PurposeCounters;
}.

Record LeafEgressSnapshot := mkSnapshot {
  snap_counters : EgressCounters;
  pending_recovery_intents : Z;
  by_topic_and_purpose : list LeafEgressPurposeSnapshot;
}.

(** [topic.cmp(..).then_with(|| purpose.cmp(..))], not greater. *)
Definition row_le (x y : LeafEgressPurposeSnapshot) : Prop :=
  match bytes_compare (row_topic x) (row_topic y) with
  | Lt => True
  | Eq => String.compare (row_purpose x) (row_purpose y) ≠ Gt
  | Gt => False
  end.
#[global] Instance row_le_dec : RelDecision row_le.
Proof. intros x y. unfold row_le. destruct (bytes_compare _ _); apply _. Defined.

Definition snapshot `{!HashIter (Id * string) PurposeCounters} (l : LeafEgressLimiter)
    : LeafEgressSnapshot :=
  mkSnapshot (counters l) (Z.of_nat (size (intents (state l))))
    (merge_sort row_le
      ((λ item, mkRow item.1.1 item.1.2 item.2) <$> hiter (purpose_counters l))).
End Limiter.
End Egress.
