(* ===== verification/EgressProps.v ===== *)
(** * Leaf egress enforcement: invariants and properties

    Proofs about [Egress]: the rotation bookkeeping agrees with the pending
    intents, the charging loop terminates, every operation preserves the
    limiter's invariant, and no sequence of reservations exceeds the byte
    budget, to the fraction of a byte. *)

From S2P Require Import Prelude Types Egress.
Import Egress.

#[local] Open Scope Z_scope.

Module EgressProps.

(** ** The ordinary rotation *)

(** Pending ordinary intents of a scope. *)
Definition in_scope (scope : Id) (item : RecoveryIntentKey * Intent) : Prop :=
  class_pending Ordinary item.2 = true ∧ key_scope item.1 = scope.

Definition scope_load (m : gmap RecoveryIntentKey Intent) (scope : Id) : Z :=
  map_count (in_scope scope) m.

(** The counts and the queue describe exactly the pending ordinary intents. *)
Record rot_ok (m : gmap RecoveryIntentKey Intent) (counts : gmap Id Z) (scopes : list Id) : Prop := {
  rot_counts : ∀ scope, default 0 (counts !! scope) = scope_load m scope;
  rot_pos : map_Forall (λ _ n, 0 < n) counts;
  rot_nodup : NoDup scopes;
  rot_scopes : ∀ scope, scope ∈ scopes ↔ is_Some (counts !! scope);
}.

Lemma rot_ok_empty : rot_ok ∅ ∅ [].
Proof.
  split.
  - intros scope. unfold scope_load. by rewrite lookup_empty, map_count_empty.
  - apply map_Forall_empty.
  - constructor.
  - intros scope. rewrite lookup_empty, elem_of_nil. split; [done|by intros []].
Qed.

Lemma rot_count_Some m counts scopes scope :
  rot_ok m counts scopes → 0 < scope_load m scope → counts !! scope = Some (scope_load m scope).
Proof.
  intros [Hc _ _ _] Hpos. specialize (Hc scope). destruct (counts !! scope); simpl in Hc; [by f_equal|lia].
Qed.

Lemma rot_count_None m counts scopes scope :
  rot_ok m counts scopes → scope_load m scope = 0 → counts !! scope = None.
Proof.
  intros [Hc Hp _ _] Hz. specialize (Hc scope). destruct (counts !! scope) eqn:E; [|done].
  specialize (Hp scope _ E). simpl in *. lia.
Qed.

Lemma rot_scopes_load m counts scopes scope :
  rot_ok m counts scopes → scope ∈ scopes ↔ 0 < scope_load m scope.
Proof.
  intros Hok. rewrite (rot_scopes _ _ _ Hok). split.
  - intros [n Hn]. pose proof (rot_counts _ _ _ Hok scope) as Hc. rewrite Hn in Hc. simpl in Hc.
    specialize (rot_pos _ _ _ Hok scope n Hn). simpl. lia.
  - intros Hpos. rewrite (rot_count_Some _ _ _ _ Hok Hpos). by eexists.
Qed.

(** Only the loads matter. *)
Lemma rot_ok_ext m m' counts scopes :
  (∀ scope, scope_load m' scope = scope_load m scope) → rot_ok m counts scopes → rot_ok m' counts scopes.
Proof. intros Hext [H1 H2 H3 H4]. split; try done. intros scope. by rewrite H1, Hext. Qed.

Definition bump (scope scope' : Id) : Z := if decide (scope' = scope) then 1 else 0.

(** Adding at either end of the queue. *)
Lemma rot_add m m' counts scopes scope scopes' :
  rot_ok m counts scopes →
  (∀ x, scope_load m' x = scope_load m x + bump scope x) →
  scope_load m' scope ≤ U64_MAX →
  scopes' = (if decide (default 0 (counts !! scope) = 0) then scopes ++ [scope] else scopes) ∨
  scopes' = (if decide (default 0 (counts !! scope) = 0) then scope :: scopes else scopes) →
  rot_ok m' (<[scope := u64_sat_add (default 0 (counts !! scope)) 1]> counts) scopes'.
Proof.
  intros Hok Hload Hmax Hsc. pose proof Hok as [Hc Hp Hnd Hs].
  assert (u64_sat_add (default 0 (counts !! scope)) 1 = scope_load m' scope) as Hn.
  { rewrite Hc, Hload. unfold u64_sat_add, bump in *. rewrite Hload in Hmax.
    unfold bump in Hmax. rewrite decide_True in * by done. lia. }
  assert (0 < scope_load m' scope) as Hpos.
  { rewrite Hload. unfold bump. rewrite decide_True by done.
    pose proof (map_count_nonneg (in_scope scope) m). unfold scope_load. lia. }
  assert (default 0 (counts !! scope) = 0 → scope ∉ scopes) as Hnotin.
  { intros Hz. rewrite (rot_scopes_load _ _ _ _ Hok), <-Hc, Hz. lia. }
  assert (default 0 (counts !! scope) ≠ 0 → scope ∈ scopes) as Hin.
  { intros Hz. rewrite (rot_scopes_load _ _ _ _ Hok), <-Hc.
    pose proof (map_count_nonneg (in_scope scope) m). rewrite Hc in *. unfold scope_load in *. lia. }
  split.
  - intros x. rewrite lookup_insert. destruct (decide (scope = x)) as [<-|Hne]; simpl; [done|].
    rewrite Hc, Hload. unfold bump. rewrite decide_False by congruence. lia.
  - apply map_Forall_insert_2; [lia|done].
  - destruct Hsc as [-> | ->]; case_decide; try done.
    + apply NoDup_app. split_and!; [done| |apply NoDup_singleton].
      intros x Hx ->%list_elem_of_singleton. by apply Hnotin.
    + apply NoDup_cons. auto.
  - intros x. rewrite lookup_insert. specialize (Hs x).
    destruct Hsc as [-> | ->], (decide (scope = x)) as [<-|Hne], (decide (default 0 _ = 0)) as [Hz|Hz];
      rewrite ?elem_of_app, ?list_elem_of_singleton, ?elem_of_cons; naive_solver.
Qed.

Lemma rot_remove m m' counts scopes scope :
  rot_ok m counts scopes →
  (∀ x, scope_load m' x = scope_load m x - bump scope x) →
  rot_ok m'
    (match counts !! scope with
     | Some n => if decide (sat_sub n 1 = 0) then delete scope counts else <[scope := sat_sub n 1]> counts
     | None => counts
     end)
    (match counts !! scope with
     | Some n => if decide (sat_sub n 1 = 0) then filter (λ x, x ≠ scope) scopes else scopes
     | None => scopes
     end).
Proof.
  intros Hok Hload. pose proof Hok as [Hc Hp Hnd Hs].
  assert (0 < scope_load m scope) as Hpos.
  { pose proof (Hload scope) as Hl. unfold bump in Hl. rewrite decide_True in Hl by done.
    pose proof (map_count_nonneg (in_scope scope) m'). unfold scope_load in *. lia. }
  rewrite (rot_count_Some _ _ _ _ Hok Hpos).
  assert (sat_sub (scope_load m scope) 1 = scope_load m' scope) as ->.
  { rewrite Hload. unfold bump, sat_sub. rewrite decide_True by done. lia. }
  assert (∀ x, x ≠ scope → scope_load m' x = scope_load m x) as Hother.
  { intros x Hx. rewrite Hload. unfold bump. rewrite decide_False by done. lia. }
  case_decide as Hz; split.
  - intros x. rewrite lookup_delete. case_decide as E; simpl; [by subst|].
    rewrite Hc, Hother; congruence.
  - by apply map_Forall_delete.
  - by apply NoDup_filter.
  - intros x. rewrite list_elem_of_filter, lookup_delete, Hs. case_decide; subst.
    + split; [naive_solver|by intros []].
    + naive_solver.
  - intros x. rewrite lookup_insert. case_decide as E; simpl; [by subst|].
    rewrite Hc, Hother; congruence.
  - apply map_Forall_insert_2; [|done].
    pose proof (map_count_nonneg (in_scope scope) m'). unfold scope_load in *. lia.
  - done.
  - intros x. rewrite lookup_insert, Hs. case_decide; subst; [|done].
    rewrite (rot_count_Some _ _ _ _ Hok Hpos). naive_solver.
Qed.
(** ** Loads under map updates *)

Definition load_of (k : RecoveryIntentKey) (i : Intent) (x : Id) : Z :=
  if class_pending Ordinary i then bump (key_scope k) x else 0.

Lemma in_scope_load k i x : (if decide (in_scope x (k, i)) then 1 else 0) = load_of k i x.
Proof.
  unfold load_of, bump. destruct (class_pending Ordinary i) eqn:E.
  - case_decide as H; case_decide as H'; try done; destruct H; unfold in_scope; simpl; naive_solver.
  - rewrite decide_False; [done|]. unfold in_scope. simpl. rewrite E. naive_solver.
Qed.

Lemma scope_load_insert m k i x :
  m !! k = None → scope_load (<[k := i]> m) x = scope_load m x + load_of k i x.
Proof. intros Hk. unfold scope_load. by rewrite map_count_insert, in_scope_load. Qed.

Lemma scope_load_delete m k i x :
  m !! k = Some i → scope_load (delete k m) x = scope_load m x - load_of k i x.
Proof.
  intros Hk. unfold scope_load. rewrite (map_count_delete _ m k i Hk), in_scope_load. lia.
Qed.

Lemma scope_load_update m k i j x :
  m !! k = Some i → scope_load (<[k := j]> m) x = scope_load m x + load_of k j x - load_of k i x.
Proof. intros Hk. unfold scope_load. by rewrite (map_count_update _ m k i), !in_scope_load. Qed.

(** ** The invariant *)

Record cfg_ok (cfg : LeafEgressConfig) : Prop := {
  cfg_hard : 0 < hard_bytes_per_second cfg ≤ U64_MAX;
  cfg_soft : 0 ≤ soft_bytes_per_second cfg ≤ U64_MAX;
  cfg_frame : 0 < max_serialized_frame_bytes cfg ≤ burst_bytes cfg;
  cfg_burst : burst_bytes cfg ≤ U64_MAX;
}.

Definition cap (s : State) : Z :=
  match config s with Some cfg => burst_bytes cfg | None => 0 end.

Definition intent_ok (limit : Z) (i : Intent) : Prop := 0 ≤ charged i ≤ i_bytes i ∧ i_bytes i ≤ limit.

Record inv (s : State) : Prop := {
  inv_cfg : match config s with Some cfg => cfg_ok cfg | None => True end;
  inv_tokens : 0 ≤ tokens s ≤ cap s;
  inv_soft : 0 ≤ soft_tokens s ≤ cap s;
  inv_rem : 0 ≤ remainder s < NANOS_PER_SEC ∧ 0 ≤ soft_remainder s < NANOS_PER_SEC;
  inv_slot : 1 ≤ recovery_quantum s ∧ 0 ≤ recovery_slot_remaining s ≤ recovery_quantum s ∧
             0 ≤ recovery_slot s < RECOVERY_TOTAL_SLOTS;
  inv_credit : 0 ≤ (displacement_credit s).1 ≤ DISPLACEMENT_CREDIT_CAP ∧
               0 ≤ (displacement_credit s).2 ≤ DISPLACEMENT_CREDIT_CAP;
  inv_intents : map_Forall (λ _ i, intent_ok (cap s) i) (intents s);
  inv_caps : count_class s Ordinary ≤ ORDINARY_MAX_INTENTS ∧
             count_class s CriticalEager ≤ CRITICAL_MAX_INTENTS;
  inv_rot : rot_ok (intents s) (ordinary_scope_counts s) (ordinary_scopes s);
}.

(** What only [refill], [configure] and the data path touch. *)
Definition fixed (s : State) :=
  (config s, generation s, remainder s, soft_tokens s, soft_remainder s, last_refill s,
   recovery_quantum s).

(** [fixed], with what charging and displacement may touch. *)
Definition static (s : State) :=
  (fixed s, tokens s, recovery_slot s, recovery_slot_remaining s, displacement_credit s).

Lemma inv_static (s s' : State) :
  inv s → static s' = static s →
  map_Forall (λ _ i, intent_ok (cap s) i) (intents s') →
  count_class s' Ordinary ≤ ORDINARY_MAX_INTENTS →
  count_class s' CriticalEager ≤ CRITICAL_MAX_INTENTS →
  rot_ok (intents s') (ordinary_scope_counts s') (ordinary_scopes s') → inv s'.
Proof.
  intros [H1 H2 H3 H4 H5 H6 _ _ _] Hst Hi Ho Hc Hr.
  unfold static, fixed in Hst. injection Hst as Ecfg _ Erem Est Esr _ Eq Et Es Esl Ecr.
  split; unfold cap in *; rewrite ?Ecfg, ?Erem, ?Est, ?Esr, ?Eq, ?Et, ?Es, ?Esl, ?Ecr; done.
Qed.

Lemma count_class_def (s : State) (class : RecoveryClass) :
  count_class s class = map_count (λ item, i_class item.2 = class) (intents s).
Proof. reflexivity. Qed.

(** ** Removing intents *)

Lemma remove_ordinary_pending_fields (s : State) (scope : Id) :
  let s' := remove_ordinary_pending s scope in
  static s' = static s ∧ intents s' = intents s ∧ next_order s' = next_order s ∧
  promoted s' = promoted s ∧ waiters_by_peer s' = waiters_by_peer s ∧
  displacement_last_refill s' = displacement_last_refill s ∧
  ordinary_scope_counts s' =
    match ordinary_scope_counts s !! scope with
    | Some n => if decide (sat_sub n 1 = 0) then delete scope (ordinary_scope_counts s)
                else <[scope := sat_sub n 1]> (ordinary_scope_counts s)
    | None => ordinary_scope_counts s
    end ∧
  ordinary_scopes s' =
    match ordinary_scope_counts s !! scope with
    | Some n => if decide (sat_sub n 1 = 0) then filter (λ x, x ≠ scope) (ordinary_scopes s)
                else ordinary_scopes s
    | None => ordinary_scopes s
    end.
Proof.
  unfold remove_ordinary_pending. destruct (ordinary_scope_counts s !! scope); [|done].
  case_decide; done.
Qed.

Lemma forget_pending_fields (s : State) (key : RecoveryIntentKey) (i : Intent) :
  let s' := forget_pending s key i in
  static s' = static s ∧ intents s' = intents s ∧ promoted s' = promoted s ∧
  next_order s' = next_order s.
Proof.
  unfold forget_pending. case_match; [|done].
  destruct (remove_ordinary_pending_fields s (key_scope key)) as (? & ? & ? & ? & _). done.
Qed.

(** After the intent left the map, forgetting it re-establishes the rotation. *)
Lemma forget_pending_rot (m : gmap RecoveryIntentKey Intent) (s : State) (key : RecoveryIntentKey)
    (i : Intent) :
  rot_ok m (ordinary_scope_counts s) (ordinary_scopes s) →
  (∀ x, scope_load (intents s) x = scope_load m x - load_of key i x) →
  let s' := forget_pending s key i in
  rot_ok (intents s') (ordinary_scope_counts s') (ordinary_scopes s').
Proof.
  intros Hrot Hload. unfold forget_pending. fold (class_pending Ordinary i).
  unfold load_of in Hload. destruct (class_pending Ordinary i).
  - destruct (remove_ordinary_pending_fields s (key_scope key)) as (_ & -> & _ & _ & _ & _ & -> & ->).
    by apply (rot_remove m).
  - apply (rot_ok_ext m); [|done]. intros x. rewrite Hload. lia.
Qed.

Lemma remove_intent_static (s : State) (key : RecoveryIntentKey) :
  static (remove_intent s key) = static s ∧
  intents (remove_intent s key) = delete key (intents s).
Proof.
  unfold remove_intent. destruct (intents s !! key) as [i|] eqn:E.
  - destruct (forget_pending_fields (set_intents (delete key (intents s)) s) key i) as (-> & -> & _).
    done.
  - by rewrite delete_id.
Qed.

Lemma count_delete_le (m : gmap RecoveryIntentKey Intent) (k : RecoveryIntentKey)
    (P : RecoveryIntentKey * Intent → Prop) `{!∀ x, Decision (P x)} :
  map_count P (delete k m) ≤ map_count P m.
Proof.
  destruct (m !! k) as [i|] eqn:E.
  - rewrite (map_count_delete P m k i E). case_decide; lia.
  - rewrite delete_id by done. lia.
Qed.

Lemma remove_intent_inv (s : State) (key : RecoveryIntentKey) : inv s → inv (remove_intent s key).
Proof.
  intros Hinv. destruct (remove_intent_static s key) as [Hst Hint].
  apply (inv_static s _ Hinv Hst).
  - rewrite Hint. by apply map_Forall_delete, inv_intents.
  - rewrite count_class_def, Hint. etransitivity; [apply count_delete_le|apply (inv_caps s Hinv)].
  - rewrite count_class_def, Hint. etransitivity; [apply count_delete_le|apply (inv_caps s Hinv)].
  - unfold remove_intent. destruct (intents s !! key) as [i|] eqn:E; [|apply (inv_rot s Hinv)].
    apply (forget_pending_rot (intents s)); [apply (inv_rot s Hinv)|].
    intros x. simpl. by apply scope_load_delete.
Qed.

Lemma remove_intents_inv (keys : list RecoveryIntentKey) (s : State) :
  inv s → inv (foldl remove_intent s keys) ∧ static (foldl remove_intent s keys) = static s.
Proof.
  revert s. induction keys as [|k keys IH]; intros s Hs; simpl; [done|].
  destruct (IH (remove_intent s k)) as [? ->]; [by apply remove_intent_inv|].
  split; [done|]. apply remove_intent_static.
Qed.
(** ** Charging *)

Section Charging.
Context `{!HashIter RecoveryIntentKey Intent} `{!HashIter Id Z}.

Lemma recovery_head_Some s class os k i :
  recovery_head s class os = Some (k, i) →
  intents s !! k = Some i ∧ class_pending class i = true ∧
  match os with Some scope => key_scope k = scope | None => True end.
Proof.
  unfold recovery_head. intros Hm%min_by_elem. apply list_elem_of_filter in Hm as [Hp Hin].
  apply elem_of_hiter in Hin. apply Is_true_true, andb_true_iff in Hp as [Hc Hs]. simpl in *.
  split_and!; [done..|]. destruct os; [|done]. by apply bool_decide_eq_true in Hs.
Qed.

Lemma recovery_head_None s class os k i :
  recovery_head s class os = None → intents s !! k = Some i → class_pending class i = true →
  match os with Some scope => key_scope k ≠ scope | None => False end.
Proof.
  unfold recovery_head. intros Hm Hk Hc. apply elem_of_hiter in Hk.
  assert (filter (λ item, class_pending class item.2 &&
      match os with Some scope => bool_decide (key_scope item.1 = scope) | None => true end)
      (hiter (intents s)) = []) as Hnil.
  { destruct (filter _ _) as [|item rest]; [done|].
    destruct (min_by_is_Some order_lt (item :: rest)) as [? Hs]; [done|]. congruence. }
  destruct os as [scope|]; [intros <-|];
    (apply (not_elem_of_nil (k, i)); rewrite <-Hnil; apply list_elem_of_filter;
     split; [|done]; simpl; rewrite Hc; simpl).
  - by apply bool_decide_pack.
  - done.
Qed.

Lemma has_critical_true s :
  has_critical s = true ↔ ∃ k i, intents s !! k = Some i ∧ class_pending CriticalEager i = true.
Proof.
  unfold has_critical. rewrite existsb_exists. split.
  - intros ([k i] & Hin & Hc). apply list_elem_of_In, elem_of_hiter in Hin. eauto.
  - intros (k & i & Hk & Hc). exists (k, i). split; [|done]. by apply list_elem_of_In, elem_of_hiter.
Qed.

(** A scope in the rotation has a pending ordinary intent, and conversely. *)
Lemma rotation_pending s scope :
  inv s → scope ∈ ordinary_scopes s →
  ∃ k i, intents s !! k = Some i ∧ class_pending Ordinary i = true ∧ key_scope k = scope.
Proof.
  intros Hinv Hin. apply (rot_scopes_load _ _ _ _ (inv_rot s Hinv)) in Hin.
  apply map_count_pos in Hin as (k & i & Hk & Hc & Hs). eauto.
Qed.

Lemma pending_rotation s k i :
  inv s → intents s !! k = Some i → class_pending Ordinary i = true → key_scope k ∈ ordinary_scopes s.
Proof.
  intros Hinv Hk Hc. apply (rot_scopes_load _ _ _ _ (inv_rot s Hinv)).
  apply map_count_pos. by exists k, i.
Qed.

(** A slot is served only if its class has a pending head. *)
Lemma slot_head s class :
  inv s → slot_class s = Some class →
  ∃ k i, recovery_head s class (match class with Ordinary => head (ordinary_scopes s) | CriticalEager => None end)
         = Some (k, i).
Proof.
  intros Hinv Hslot.
  destruct (recovery_head s class _) as [[k i]|] eqn:E; [by eauto|]. exfalso.
  destruct class.
  - assert (ordinary_scopes s ≠ []) as Hne.
    { intros Hn. unfold slot_class in Hslot. rewrite Hn in Hslot. simpl in Hslot.
      by destruct (has_critical s). }
    destruct (ordinary_scopes s) as [|scope rest] eqn:Es; [done|].
    destruct (rotation_pending s scope Hinv) as (k & i & Hk & Hc & Hsc); [rewrite Es; by left|].
    by apply (recovery_head_None _ _ _ k i E Hk Hc).
  - assert (has_critical s = true) as Hc.
    { unfold slot_class in Hslot. destruct (has_critical s); [done|].
      destruct (negb _) in Hslot; done. }
    apply has_critical_true in Hc as (k & i & Hk & Hc).
    apply (recovery_head_None _ _ _ k i E Hk Hc).
Qed.

Lemma slot_none s :
  inv s → slot_class s = None → map_Forall (λ _ i, pending i = false) (intents s).
Proof.
  intros Hinv Hslot k i Hk. apply not_true_is_false. intros Hp. unfold slot_class in Hslot.
  destruct (has_critical s) eqn:Hc.
  { by destruct (negb _) in Hslot; [destruct (bool_decide _) in Hslot|]. }
  destruct (negb _) eqn:Ho in Hslot; [done|]. rewrite negb_false_iff, bool_decide_eq_true in Ho.
  destruct (i_class i) eqn:Ei.
  - pose proof (pending_rotation s k i Hinv Hk) as Hin. rewrite Ho in Hin.
    apply (not_elem_of_nil (key_scope k)), Hin. unfold class_pending. by rewrite Ei, Hp.
  - assert (has_critical s = true); [|congruence]. apply has_critical_true. exists k, i.
    split; [done|]. unfold class_pending. by rewrite Ei, Hp.
Qed.

(** ** Parts of an iteration that only touch the promotion and the queue *)

Lemma burn_promotion_visit_fields s key :
  ∃ p, burn_promotion_visit s key = set_promoted p s.
Proof.
  assert (s = set_promoted (promoted s) s) as Hid by by destruct s.
  unfold burn_promotion_visit. repeat case_match; eauto.
Qed.

Lemma promotion_live_fields s : ∃ p, (promotion_live s).1 = set_promoted p s.
Proof.
  assert (s = set_promoted (promoted s) s) as Hid by by destruct s.
  unfold promotion_live. repeat (case_match; simpl); eauto.
Qed.

Lemma rot_ok_perm m counts scopes scopes' :
  scopes' ≡ₚ scopes → rot_ok m counts scopes → rot_ok m counts scopes'.
Proof.
  intros Hp [H1 H2 H3 H4]. split; try done.
  - by rewrite Hp.
  - intros scope. by rewrite Hp.
Qed.

Lemma finish_slot_fields s class os :
  1 ≤ recovery_quantum s → 0 ≤ recovery_slot_remaining s ≤ recovery_quantum s →
  0 ≤ recovery_slot s < RECOVERY_TOTAL_SLOTS →
  let s' := finish_slot s class os in
  fixed s' = fixed s ∧ tokens s' = tokens s ∧ displacement_credit s' = displacement_credit s ∧
  intents s' = intents s ∧ ordinary_scope_counts s' = ordinary_scope_counts s ∧
  ordinary_scopes s' ≡ₚ ordinary_scopes s ∧
  0 < recovery_slot_remaining s' ≤ recovery_quantum s ∧
  0 ≤ recovery_slot s' < RECOVERY_TOTAL_SLOTS.
Proof.
  intros Hq Hr Hsl. unfold finish_slot.
  assert (∃ p b, match class, os, promoted s with
    | Ordinary, Some scope, Some promotion =>
        if decide (key_scope (p_key promotion) = scope) then promotion_live s else (s, false)
    | _, _, _ => (s, false) end = (set_promoted p s, b)) as (p & b & ->).
  { assert (s = set_promoted (promoted s) s) as Hid by by destruct s.
    destruct (promotion_live_fields s) as [p Hp].
    destruct class; [destruct os as [scope|]; [destruct (promoted s) as [pr|] eqn:Epr|]|];
      try case_decide; try (exists (promoted s), false; by rewrite <-Hid).
    - exists p, (promotion_live s).2. rewrite <-Hp. by destruct (promotion_live s).
    - exists (Some pr), false. by rewrite <-Hid.
    - exists None, false. by rewrite <-Hid. }
  pose proof (Z.mod_pos_bound (recovery_slot s + 1) RECOVERY_TOTAL_SLOTS ltac:(done)) as Hmod.
  simpl. case_decide as Hz.
  - destruct (_ && _ && _); simpl.
    + destruct (ordinary_scopes s) as [|scope rest] eqn:Es; simpl; rewrite ?Es.
      * split_and!; try done; lia.
      * split_and!; try done; try lia. by rewrite Permutation_app_comm.
    + split_and!; try done; lia.
  - simpl. split_and!; try done; lia.
Qed.
(** The intent after [delta] more bytes. *)
Definition paid_more (i : Intent) (delta : Z) : Intent :=
  mkIntent (i_bytes i) (last_observed i) (created_at i) (i_order i) (charged i + delta) (i_class i).

Lemma pending_spec i : pending i = true ↔ charged i < i_bytes i.
Proof. unfold pending. apply bool_decide_eq_true. Qed.

Lemma class_pending_spec class i :
  class_pending class i = true ↔ i_class i = class ∧ charged i < i_bytes i.
Proof. unfold class_pending. by rewrite andb_true_iff, bool_decide_eq_true, pending_spec. Qed.

(** Paying moves the load of the scope only when the frame is complete. *)
Lemma load_paid key i delta x :
  charged i < i_bytes i → 0 < delta ≤ i_bytes i - charged i →
  load_of key (paid_more i delta) x =
    if decide (i_class i = Ordinary ∧ delta = i_bytes i - charged i)
    then load_of key i x - bump (key_scope key) x else load_of key i x.
Proof.
  intros Hp Hd. unfold load_of, class_pending, pending, paid_more.
  cbn [i_bytes charged i_class].
  destruct (i_class i); [|rewrite decide_False by naive_solver; reflexivity].
  rewrite (bool_decide_eq_true_2 (Ordinary = Ordinary)) by done. cbn [andb].
  rewrite (bool_decide_eq_true_2 (charged i < i_bytes i)) by lia.
  case_decide as E.
  - destruct E as [_ E]. rewrite bool_decide_eq_false_2 by lia. lia.
  - assert (delta ≠ i_bytes i - charged i) by (intros ?; by apply E).
    by rewrite bool_decide_eq_true_2 by lia.
Qed.

Lemma charge_head_effect s class os key i delta :
  inv s → intents s !! key = Some i → class_pending class i = true →
  0 < delta → delta ≤ i_bytes i - charged i → delta ≤ tokens s → delta ≤ recovery_slot_remaining s →
  let s' := charge_head s class os key i delta in
  inv s' ∧ fixed s' = fixed s ∧ displacement_credit s' = displacement_credit s ∧
  tokens s' = tokens s - delta ∧ 0 < recovery_slot_remaining s' ∧
  intents s' = <[key := paid_more i delta]> (intents s).
Proof.
  intros Hinv Hkey Hc Hd0 Hd1 Hd2 Hd3.
  pose proof Hc as [Hcl Hpend]%class_pending_spec.
  pose proof (inv_intents s Hinv key i Hkey) as [Hch Hcap]. simpl in Hch, Hcap.
  assert (cap s ≤ U64_MAX) as HcapU.
  { pose proof (inv_cfg s Hinv) as Hcfg. unfold cap in *. destruct (config s); [by destruct Hcfg|].
    unfold U64_MAX. lia. }
  (* the state before the promotion and the slot are looked at *)
  set (s2 := set_intents (<[key := paid_more i delta]> (intents s))
              (set_recovery_slot_remaining (recovery_slot_remaining s - delta)
                (set_tokens (tokens s - delta) s))).
  set (s3 := if bool_decide (class = Ordinary) && bool_decide (delta = i_bytes i - charged i)
             then remove_ordinary_pending s2 (key_scope key) else s2).
  assert (static s3 = static s2 ∧ intents s3 = intents s2) as [Hst3 Hin3].
  { unfold s3. case_match; [|done].
    destruct (remove_ordinary_pending_fields s2 (key_scope key)) as (? & ? & _). done. }
  assert (rot_ok (intents s3) (ordinary_scope_counts s3) (ordinary_scopes s3)) as Hrot3.
  { pose proof (inv_rot s Hinv) as Hrot. unfold s3.
    destruct (bool_decide (class = Ordinary) && _) eqn:Hb.
    - apply andb_true_iff in Hb as [Hb1 Hb2]. rewrite bool_decide_eq_true in Hb1, Hb2.
      destruct (remove_ordinary_pending_fields s2 (key_scope key)) as (_ & -> & _ & _ & _ & _ & -> & ->).
      apply (rot_remove (intents s)); [done|]. intros x. simpl.
      rewrite (scope_load_update _ _ i), load_paid by (done || lia).
      rewrite decide_True by naive_solver. lia.
    - apply (rot_ok_ext (intents s)); [|done]. intros x. simpl.
      rewrite (scope_load_update _ _ i), load_paid by (done || lia).
      rewrite decide_False; [lia|]. intros [? ?]. revert Hb.
      rewrite !bool_decide_eq_true_2 by congruence. done. }
  assert (∃ p, charge_head s class os key i delta = finish_slot (set_promoted p s3) class os) as [p Hp].
  { unfold charge_head. cbn [intents set_tokens set_recovery_slot_remaining]. rewrite Hkey.
    unfold u64_sat_add. rewrite Z.min_r by lia. fold (paid_more i delta).
    change (set_intents (<[key:=paid_more i delta]> _) _) with s2. fold s3.
    case_match; [apply (burn_promotion_visit_fields s3 key) || idtac|].
    - destruct (burn_promotion_visit_fields s3 key) as [p ->]. by exists p.
    - exists (promoted s3). by destruct s3. }
  unfold static, fixed in Hst3. injection Hst3 as Ecfg Egen Erem Est Esr Elr Eq Et Es Esl Ecr.
  destruct (inv_slot s Hinv) as (Hq & Hsr & Hs).
  destruct (finish_slot_fields (set_promoted p s3) class os) as (Hf & Ht & Hcr & Hi & Hcn & Hsc & Hr & Hsl).
  { simpl. rewrite Eq. done. }
  { simpl. rewrite Esl, Eq. simpl. lia. }
  { simpl. rewrite Es. done. }
  cbv zeta. rewrite Hp. set (s' := finish_slot (set_promoted p s3) class os) in *. simpl in *.
  assert (intents s' = <[key:=paid_more i delta]> (intents s)) as Hint by (by rewrite Hi, Hin3).
  assert (tokens s' = tokens s - delta) as Htok by (by rewrite Ht, Et).
  assert (fixed s' = fixed s) as Hfix by (rewrite Hf; unfold fixed; simpl; congruence).
  split_and!; [|done| |done|lia|done].
  2: { rewrite Hcr. by rewrite Ecr. }
  pose proof Hfix as Hfix'. unfold fixed in Hfix'. injection Hfix' as Ecfg' _ Erem' Est' Esr' _ Eq'.
  assert (cap s' = cap s) as Ecap by (unfold cap; by rewrite Ecfg').
  assert (∀ cl, count_class s' cl = count_class s cl) as Hcount.
  { intros cl. rewrite !count_class_def, Hint, (map_count_update _ _ _ i) by done. simpl.
    case_decide; lia. }
  split; rewrite ?Ecap, ?Ecfg', ?Erem', ?Est', ?Esr', ?Eq', ?Htok, ?Hcount; try apply Hinv.
  - pose proof (inv_tokens s Hinv). lia.
  - split_and!; lia.
  - rewrite Hcr, Ecr. apply Hinv.
  - rewrite Hint. apply map_Forall_insert_2; [|apply Hinv]. unfold intent_ok, paid_more. simpl. lia.
  - rewrite Hi, Hcn. by apply (rot_ok_perm _ _ (ordinary_scopes s3)).
Qed.
(** ** The charging loop *)

Definition measure (sc : State * EgressCounters) : Z :=
  2 * tokens sc.1 + (if decide (recovery_slot_remaining sc.1 = 0) then 1 else 0).

(** How far charging got: [d] bytes moved from the bucket to the intents. *)
Record charged_by (d : Z) (s : State) (c : EgressCounters) (s' : State) (c' : EgressCounters) : Prop := {
  cb_nonneg : 0 ≤ d;
  cb_fixed : fixed s' = fixed s;
  cb_credit : displacement_credit s' = displacement_credit s;
  cb_tokens : tokens s' = tokens s - d;
  cb_charged : charged_bytes c' = u64_wrap (charged_bytes c + d);
  cb_keys : ∀ k, is_Some (intents s' !! k) ↔ is_Some (intents s !! k);
}.

Lemma u64_wrap_id z : u64 z → u64_wrap (z + 0) = z.
Proof. intros Hz. rewrite Z.add_0_r. by apply u64_wrap_small. Qed.

Lemma charged_by_refl s c : u64 (charged_bytes c) → charged_by 0 s c s c.
Proof. intros Hc. split; try done; [lia|by rewrite u64_wrap_id]. Qed.

Lemma charged_by_trans d e s c s1 c1 s2 c2 :
  charged_by d s c s1 c1 → charged_by e s1 c1 s2 c2 → charged_by (d + e) s c s2 c2.
Proof.
  intros [? Hf Hcr Ht Hc Hk] [? Hf' Hcr' Ht' Hc' Hk']. split; [lia|congruence|congruence|lia| |].
  - rewrite Hc', Hc. unfold u64_wrap. rewrite Zplus_mod_idemp_l. f_equal. lia.
  - intros k. by rewrite Hk'.
Qed.

Lemma charged_by_range d s c s' c' : charged_by d s c s' c' → u64 (charged_bytes c').
Proof. intros Hcb. rewrite (cb_charged _ _ _ _ _ Hcb). apply u64_wrap_range. Qed.

(** An iteration either leaves, with nothing left to do, or makes progress. *)
Lemma charge_step_effect s c :
  inv s → u64 (charged_bytes c) →
  match charge_step (s, c) with
  | inr (s', c') =>
      s' = s ∧ c' = c ∧ (tokens s = 0 ∨ map_Forall (λ _ i, pending i = false) (intents s))
  | inl (s', c') =>
      inv s' ∧ (∃ d, charged_by d s c s' c') ∧ measure (s', c') + 1 ≤ measure (s, c)
  end.
Proof.
  intros Hinv Hu. unfold charge_step. pose proof (inv_tokens s Hinv) as Htok.
  destruct (decide (tokens s ≤ 0)) as [Hz|Hz]; [split_and!; [done..|left; lia]|].
  destruct (slot_class s) as [class|] eqn:Hslot.
  2: { split_and!; [done..|]. right. by apply slot_none. }
  destruct (slot_head s class Hinv Hslot) as (key & i & Hhead).
  rewrite Hhead. apply recovery_head_Some in Hhead as (Hkey & Hcp & _).
  pose proof Hcp as [_ Hpend]%class_pending_spec.
  destruct (inv_slot s Hinv) as (Hq & Hsr & Hsl).
  case_decide as Hd.
  - assert (recovery_slot_remaining s = 0) as Hr0 by lia. split_and!.
    + pose proof (Z.mod_pos_bound (recovery_slot s + 1) RECOVERY_TOTAL_SLOTS ltac:(done)).
      destruct Hinv. split; try done. simpl. split_and!; lia.
    + exists 0. destruct (charged_by_refl s c Hu). by split.
    + unfold measure. simpl. repeat case_decide; lia.
  - destruct (charge_head_effect s class
      (match class with Ordinary => head (ordinary_scopes s) | CriticalEager => None end)
      key i (Z.min (Z.min (i_bytes i - charged i) (tokens s)) (recovery_slot_remaining s)) Hinv Hkey Hcp)
      as (Hinv' & Hfix & Hcr & Ht & Hr & Hint); [lia..|].
    split_and!; [done| |].
    + eexists. split; [|done..|reflexivity|]; [lia|].
      intros k. rewrite Hint, lookup_insert. case_decide; [subst|done]. rewrite Hkey. naive_solver.
    + unfold measure. simpl. rewrite Ht. repeat case_decide; lia.
Qed.

(** The loop exits, well within its fuel. *)
Lemma charge_loop_exits s c :
  inv s → u64 (charged_bytes c) →
  ∃ s' c', loop_pow 66 charge_step (s, c) = inr (s', c') ∧ inv s' ∧
    (∃ d, charged_by d s c s' c') ∧
    (tokens s' = 0 ∨ map_Forall (λ _ i, pending i = false) (intents s')).
Proof.
  intros Hinv Hu.
  set (P := λ sc : State * EgressCounters, inv sc.1 ∧ ∃ d, charged_by d s c sc.1 sc.2).
  assert (P (s, c)) as HP0 by (split; [done|]; exists 0; by apply charged_by_refl).
  assert (∀ sc, P sc → match charge_step sc with
    | inl sc' => P sc' ∧ measure sc' + 1 ≤ measure sc
    | inr sc' => P sc' ∧ (tokens sc'.1 = 0 ∨ map_Forall (λ _ i, pending i = false) (intents sc'.1))
    end) as Hstep.
  { intros [s1 c1] HP. destruct HP as [Hi [d Hd]]. simpl in Hi, Hd.
    pose proof (charged_by_range _ _ _ _ _ Hd) as Hu1.
    pose proof (charge_step_effect s1 c1 Hi Hu1) as Hs.
    destruct (charge_step (s1, c1)) as [[s2 c2]|[s2 c2]].
    - destruct Hs as (Hi2 & [e He] & Hm). split; [|done]. split; [done|].
      exists (d + e). by eapply charged_by_trans.
    - destruct Hs as (-> & -> & Hdone). split; [|done]. split; [done|]. by exists d. }
  destruct (loop_pow_terminates P measure charge_step 66 (s, c)) as [sc Hsc].
  - intros x y Hx Hy. specialize (Hstep x Hx). by rewrite Hy in Hstep.
  - intros x [Hx _]. pose proof (inv_tokens _ Hx). unfold measure. case_decide; lia.
  - done.
  - pose proof (inv_tokens s Hinv). pose proof (inv_cfg s Hinv) as Hcfg.
    assert (tokens s ≤ U64_MAX) as Ht.
    { unfold cap in *. destruct (config s); [destruct Hcfg; lia|unfold U64_MAX; lia]. }
    unfold measure, U64_MAX in *. simpl. change (2 ^ Z.of_nat 66) with 73786976294838206464.
    case_decide; lia.
  - pose proof (loop_pow_inv P
      (λ sc, P sc ∧ (tokens sc.1 = 0 ∨ map_Forall (λ _ i, pending i = false) (intents sc.1)))
      charge_step 66 (s, c)) as Hinvs.
    rewrite Hsc in Hinvs. destruct sc as [s' c']. cbn [fst snd] in *.
    destruct Hinvs as [[? ?] ?]; [|done|by exists s', c'].
    intros x Hx. specialize (Hstep x Hx). destruct (charge_step x); [by destruct Hstep|done].
Qed.

Lemma charge_ready_recovery_effect s c :
  inv s → u64 (charged_bytes c) →
  let '(s', c') := charge_ready_recovery s c in
  inv s' ∧ (∃ d, charged_by d s c s' c') ∧
  (tokens s' = 0 ∨ map_Forall (λ _ i, pending i = false) (intents s')).
Proof.
  intros Hinv Hu. unfold charge_ready_recovery.
  by destruct (charge_loop_exits s c Hinv Hu) as (s' & c' & -> & ? & ? & ?).
Qed.
(** ** Refill *)

Definition ledger (s : State) : Z := tokens s * NANOS_PER_SEC + remainder s.

Lemma refill_bucket_ok rate elapsed toks rem burst :
  0 ≤ rate → 0 ≤ elapsed → 0 ≤ toks ≤ burst → 0 ≤ rem < NANOS_PER_SEC →
  let '(t, r) := refill_bucket rate elapsed toks rem burst in
  0 ≤ t ≤ burst ∧ 0 ≤ r < NANOS_PER_SEC ∧
  t * NANOS_PER_SEC + r ≤ toks * NANOS_PER_SEC + rem + elapsed * rate.
Proof.
  intros Hrate Hel Ht Hr. unfold refill_bucket.
  set (scaled := u128_sat_add (u128_sat_mul elapsed rate) rem).
  assert (0 ≤ elapsed * rate) as Hp by (apply Z.mul_nonneg_nonneg; lia).
  assert (0 ≤ scaled ≤ elapsed * rate + rem) as Hs.
  { unfold scaled, u128_sat_add, u128_sat_mul, U128_MAX. lia. }
  pose proof (Z.div_mod scaled NANOS_PER_SEC ltac:(done)) as Hdm.
  pose proof (Z.mod_pos_bound scaled NANOS_PER_SEC ltac:(done)) as Hm.
  pose proof (Z.div_pos scaled NANOS_PER_SEC ltac:(lia) ltac:(done)) as Hdp.
  unfold u64_sat_add, U64_MAX, NANOS_PER_SEC in *. lia.
Qed.

Lemma sweep_expired_effect s now :
  inv s → inv (sweep_expired s now) ∧ static (sweep_expired s now) = static s.
Proof. intros Hs. unfold sweep_expired. by apply remove_intents_inv. Qed.

(** What one refill may add to the bucket. *)
Definition allowance (s : State) (now : Z) : Z :=
  match config s with
  | Some cfg => elapsed_ns now (last_refill s) * hard_bytes_per_second cfg
  | None => 0
  end.

(** [d] bytes were charged and the bucket gained at most [gain]. *)
Record spent (gain d : Z) (s : State) (c : EgressCounters) (s' : State) (c' : EgressCounters) : Prop := {
  sp_nonneg : 0 ≤ d;
  sp_config : config s' = config s;
  sp_generation : generation s' = generation s;
  sp_charged : charged_bytes c' = u64_wrap (charged_bytes c + d);
  sp_ledger : d * NANOS_PER_SEC + ledger s' ≤ ledger s + gain;
}.

Lemma spent_range gain d s c s' c' : spent gain d s c s' c' → u64 (charged_bytes c').
Proof. intros Hs. rewrite (sp_charged _ _ _ _ _ _ Hs). apply u64_wrap_range. Qed.

Lemma spent_refl s c : u64 (charged_bytes c) → spent 0 0 s c s c.
Proof. intros Hc. split; try done; [by rewrite u64_wrap_id|lia]. Qed.

Lemma spent_trans g h d e s c s1 c1 s2 c2 :
  spent g d s c s1 c1 → spent h e s1 c1 s2 c2 → spent (g + h) (d + e) s c s2 c2.
Proof.
  intros [? ? ? Hc ?] [? ? ? Hc' ?]. split; [lia|congruence|congruence| |lia].
  rewrite Hc', Hc. unfold u64_wrap. rewrite Zplus_mod_idemp_l. f_equal. lia.
Qed.

Lemma charged_by_spent d s c s' c' : charged_by d s c s' c' → spent 0 d s c s' c'.
Proof.
  intros [? Hf _ Ht Hc _]. unfold fixed in Hf. injection Hf as ? ? Hr _ _ _ _.
  split; try done. unfold ledger. rewrite Ht, Hr. lia.
Qed.

Lemma charged_by_last d s c s' c' : charged_by d s c s' c' → last_refill s' = last_refill s.
Proof. intros [_ Hf _ _ _ _]. unfold fixed in Hf. by injection Hf. Qed.

(** The state between the clock part of [refill] and the charging loop. *)
Lemma refill_clock_inv s cfg now t r st sr credit :
  inv s → config s = Some cfg →
  0 ≤ t ≤ burst_bytes cfg → 0 ≤ r < NANOS_PER_SEC →
  0 ≤ st ≤ burst_bytes cfg → 0 ≤ sr < NANOS_PER_SEC →
  0 ≤ credit.1 ≤ DISPLACEMENT_CREDIT_CAP → 0 ≤ credit.2 ≤ DISPLACEMENT_CREDIT_CAP →
  ∀ dl, inv (set_displacement_last_refill dl (set_displacement_credit credit
    (set_last_refill now (set_soft_remainder sr (set_soft_tokens st
      (set_remainder r (set_tokens t s))))))).
Proof.
  intros Hinv Hcfg Ht Hr Hst Hsr Hc1 Hc2 dl. destruct Hinv.
  split; unfold cap in *; simpl; rewrite ?Hcfg in *; try done.
Qed.

Lemma refill_displacement_fields s now :
  0 ≤ (displacement_credit s).1 ≤ DISPLACEMENT_CREDIT_CAP →
  0 ≤ (displacement_credit s).2 ≤ DISPLACEMENT_CREDIT_CAP →
  ∃ credit dl, refill_displacement s now
    = set_displacement_last_refill dl (set_displacement_credit credit s) ∧
    0 ≤ credit.1 ≤ DISPLACEMENT_CREDIT_CAP ∧ 0 ≤ credit.2 ≤ DISPLACEMENT_CREDIT_CAP.
Proof.
  intros H1 H2. unfold refill_displacement. case_decide as He.
  - destruct (displacement_credit s) as [o k]. simpl in *.
    eexists (_, _), now. split; [reflexivity|].
    unfold u64_sat_add, U64_MAX, DISPLACEMENT_CREDIT_CAP, DISPLACEMENT_TOKEN_CAPACITY,
      DISPLACEMENT_REFILL_NANOS_PER_TOKEN in *. simpl. lia.
  - exists (displacement_credit s), (displacement_last_refill s). by destruct s.
Qed.

Lemma refill_effect s c now :
  inv s → u64 (charged_bytes c) →
  let '(s', c') := refill s c now in
  inv s' ∧ (∃ d, spent (allowance s now) d s c s' c') ∧
  (is_Some (config s) → last_refill s' = now).
Proof.
  intros Hinv Hu. unfold refill, allowance. destruct (config s) as [cfg|] eqn:Hcfg.
  2: { split_and!; [done| |by intros []]. exists 0. by apply spent_refl. }
  pose proof (inv_cfg s Hinv) as Hc. rewrite Hcfg in Hc. destruct Hc as [Hh Hs Hf Hb].
  pose proof (inv_tokens s Hinv) as Ht. pose proof (inv_soft s Hinv) as Hst.
  unfold cap in Ht, Hst. rewrite Hcfg in Ht, Hst. destruct (inv_rem s Hinv) as [Hr Hsr].
  destruct (inv_credit s Hinv) as [Hc1 Hc2].
  assert (0 ≤ elapsed_ns now (last_refill s)) as Hel by (unfold elapsed_ns; lia).
  pose proof (refill_bucket_ok (hard_bytes_per_second cfg) (elapsed_ns now (last_refill s))
    (tokens s) (remainder s) (burst_bytes cfg) ltac:(lia) Hel Ht Hr) as Hb1.
  pose proof (refill_bucket_ok (soft_bytes_per_second cfg) (elapsed_ns now (last_refill s))
    (soft_tokens s) (soft_remainder s) (burst_bytes cfg) ltac:(lia) Hel Hst Hsr) as Hb2.
  destruct (refill_bucket (hard_bytes_per_second cfg) _ _ _ _) as [t r].
  destruct (refill_bucket (soft_bytes_per_second cfg) _ _ _ _) as [st sr].
  destruct Hb1 as (Ht1 & Hr1 & Hl1), Hb2 as (Ht2 & Hr2 & _).
  match goal with |- let '(_, _) := charge_ready_recovery (sweep_expired ?x now) c in _ => set (s1 := x) end.
  assert (∃ st' sr' credit dl,
    s1 = set_displacement_last_refill dl (set_displacement_credit credit
      (set_last_refill now (set_soft_remainder sr' (set_soft_tokens st'
        (set_remainder r (set_tokens t s)))))) ∧
    0 ≤ st' ≤ burst_bytes cfg ∧ 0 ≤ sr' < NANOS_PER_SEC ∧
    0 ≤ credit.1 ≤ DISPLACEMENT_CREDIT_CAP ∧ 0 ≤ credit.2 ≤ DISPLACEMENT_CREDIT_CAP)
    as (st' & sr' & credit & dl & Hs1 & H1 & H2 & H3 & H4).
  { unfold s1. set (s0 := set_remainder r (set_tokens t s)).
    assert (∃ st' sr', (if decide (0 < soft_bytes_per_second cfg)
                        then set_soft_remainder sr (set_soft_tokens st s0) else s0)
                       = set_soft_remainder sr' (set_soft_tokens st' s0) ∧
            0 ≤ st' ≤ burst_bytes cfg ∧ 0 ≤ sr' < NANOS_PER_SEC) as (st' & sr' & -> & H1 & H2).
    { case_decide; [by exists st, sr|]. exists (soft_tokens s), (soft_remainder s). done. }
    destruct (refill_displacement_fields (set_last_refill now (set_soft_remainder sr'
      (set_soft_tokens st' s0))) now) as (credit & dl & -> & H3 & H4); [done..|].
    by exists st', sr', credit, dl. }
  assert (inv s1) as Hi1 by (rewrite Hs1; by apply (refill_clock_inv s cfg)).
  assert (ledger s1 = t * NANOS_PER_SEC + r ∧ config s1 = config s ∧ generation s1 = generation s
          ∧ last_refill s1 = now) as (Hlg & Hcf & Hgn & Hlr) by (by rewrite Hs1).
  destruct (sweep_expired_effect s1 now Hi1) as [Hi2 Hst2].
  set (s2 := sweep_expired s1 now) in *.
  pose proof (charge_ready_recovery_effect s2 c Hi2 Hu) as Hch.
  destruct (charge_ready_recovery s2 c) as [s' c']. destruct Hch as (Hi3 & [d Hd] & _).
  unfold static, fixed in Hst2. injection Hst2 as E1 E2 E3 E4 E5 E6 E7 E8 E9 E10 E11.
  split_and!; [done| |].
  - exists d. destruct (charged_by_spent _ _ _ _ _ Hd) as [? Ec Eg Ecb El].
    split; [done|congruence|congruence|done|]. unfold ledger in *. lia.
  - intros _. rewrite (charged_by_last _ _ _ _ _ Hd). congruence.
Qed.
(** ** Displacement *)

Lemma fairness_victim_spec per_peer s class peer victim :
  fairness_victim per_peer s class peer = Some victim →
  ∃ n_max i, intents s !! victim = Some i ∧ class_pending class i = true ∧
    per_peer !! key_peer victim = Some n_max ∧
    (∀ p n, per_peer !! p = Some n → n ≤ n_max) ∧
    u64_sat_add (default 0 (per_peer !! peer)) 1 < n_max.
Proof.
  unfold fairness_victim. intros Hv.
  apply bind_Some in Hv as (n_max & Hmax & Hv). apply iter_max_spec in Hmax as [_ Hmax].
  case_decide as Hlt; [done|].
  apply bind_Some in Hv as (vp & Hvp & Hv). apply fmap_Some in Hv as ([k i] & Hm & ->).
  apply min_by_elem, list_elem_of_fmap in Hvp as ([vp' n] & -> & Hin).
  apply list_elem_of_filter in Hin as [Hn Hin]. apply elem_of_hiter in Hin. simpl in *. subst n.
  apply min_by_elem, list_elem_of_filter in Hm as [Hc Hin2]. apply elem_of_hiter in Hin2.
  apply Is_true_true, andb_true_iff in Hc as [Hc Hp]. apply bool_decide_eq_true in Hp. simpl in *.
  exists n_max, i. split_and!; [done|done|by rewrite Hp| |lia].
  intros p n Hpn. apply Hmax, list_elem_of_fmap. exists (p, n). split; [done|]. by apply elem_of_hiter.
Qed.

Lemma load_fetch_add k d n c :
  load d (fetch_add k n c) = if decide (k = d) then u64_add (load d c) n else load d c.
Proof. by destruct d. Qed.

Lemma fetch_add_other k n c : k ≠ ChargedBytes → charged_bytes (fetch_add k n c) = charged_bytes c.
Proof.
  intros Hk. change (load ChargedBytes (fetch_add k n c) = load ChargedBytes c).
  by rewrite load_fetch_add, decide_False.
Qed.

(** What registration leaves alone: everything but the intents, the
    rotation, the promotion and the displacement credit. *)
Definition quiet (s : State) (c : EgressCounters) (s' : State) (c' : EgressCounters) : Prop :=
  fixed s' = fixed s ∧ tokens s' = tokens s ∧ recovery_slot s' = recovery_slot s ∧
  recovery_slot_remaining s' = recovery_slot_remaining s ∧ charged_bytes c' = charged_bytes c.

Lemma quiet_trans s c s1 c1 s2 c2 : quiet s c s1 c1 → quiet s1 c1 s2 c2 → quiet s c s2 c2.
Proof. unfold quiet. intuition congruence. Qed.

Lemma static_quiet s s' c : static s' = static s → quiet s c s' c.
Proof.
  unfold static, quiet. intros Hst. apply pair_equal_spec in Hst as [Hst _].
  apply pair_equal_spec in Hst as [Hst ->]. apply pair_equal_spec in Hst as [Hst ->].
  apply pair_equal_spec in Hst as [-> ->]. done.
Qed.

Lemma spend_displacement_inv s class s' :
  inv s → spend_displacement_token s class = Some s' →
  inv s' ∧ intents s' = intents s ∧ ∀ c, quiet s c s' c.
Proof.
  intros Hinv. unfold spend_displacement_token.
  pose proof (inv_credit s Hinv) as Hcr. destruct (displacement_credit s) as [o k]. simpl in Hcr.
  destruct class; case_decide; try done; intros [= <-]; (split; [|done]); destruct Hinv;
    split; try done; simpl; unfold DISPLACEMENT_REFILL_NANOS_PER_TOKEN in *; lia.
Qed.

Lemma displace_effect s c class key :
  inv s →
  let '(s', c', admitted) := displace_intent_for_fair_admission s c class key in
  inv s' ∧ quiet s c s' c' ∧
  (if admitted then
     ∃ victim i, intents s !! victim = Some i ∧ class_pending class i = true ∧
       fairness_victim (pending_per_peer s class) s class (key_peer key) = Some victim ∧
       intents s' = delete victim (intents s)
   else intents s' = intents s).
Proof.
  intros Hinv. unfold displace_intent_for_fair_admission.
  destruct (fairness_victim _ s class (key_peer key)) as [victim|] eqn:Hv; [|done].
  destruct (spend_displacement_token s class) as [s1|] eqn:Hsp.
  2: { split_and!; [done| |done]. unfold quiet. split_and!; try done. }
  destruct (spend_displacement_inv s class s1 Hinv Hsp) as (Hi1 & Hint & Hq).
  apply fairness_victim_spec in Hv as Hvs. destruct Hvs as (n & i & Hk & Hc & _).
  rewrite Hint, Hk. destruct (remove_intent_static s1 victim) as [Hst Hdel].
  split_and!; [by apply remove_intent_inv| |].
  - specialize (Hq c). pose proof (static_quiet _ _ c Hst) as Hq2.
    unfold quiet in *. intuition congruence.
  - exists victim, i. by rewrite Hdel, Hint.
Qed.

Lemma quiet_cap s c s' c' : quiet s c s' c' → cap s' = cap s.
Proof. intros (Hf & _). unfold fixed in Hf. injection Hf as Hc _ _ _ _ _ _. unfold cap. by rewrite Hc. Qed.

(** Replacing intents and rotation in a state that otherwise only moved
    quietly. *)
Lemma quiet_inv s c s' c' :
  inv s → quiet s c s' c' →
  0 ≤ (displacement_credit s').1 ≤ DISPLACEMENT_CREDIT_CAP ∧
  0 ≤ (displacement_credit s').2 ≤ DISPLACEMENT_CREDIT_CAP →
  map_Forall (λ _ i, intent_ok (cap s) i) (intents s') →
  count_class s' Ordinary ≤ ORDINARY_MAX_INTENTS → count_class s' CriticalEager ≤ CRITICAL_MAX_INTENTS →
  rot_ok (intents s') (ordinary_scope_counts s') (ordinary_scopes s') → inv s'.
Proof.
  intros Hinv Hq Hcr Hi Ho Hc Hr. pose proof (quiet_cap _ _ _ _ Hq) as Ecap.
  destruct Hq as (Hf & Ht & Hs & Hsr & _). unfold fixed in Hf. injection Hf as E1 E2 E3 E4 E5 E6 E7.
  destruct Hinv. split; rewrite ?Ecap, ?E1, ?E3, ?E4, ?E5, ?E7, ?Ht, ?Hs, ?Hsr; done.
Qed.

(** ** Registration *)

Lemma load_of_class key i x : i_class i = CriticalEager → load_of key i x = 0.
Proof. intros Hc. unfold load_of, class_pending. by rewrite Hc. Qed.

Lemma load_of_not_pending key i x : pending i = false → load_of key i x = 0.
Proof. intros Hp. unfold load_of, class_pending. by rewrite Hp, andb_false_r. Qed.

(** Updating fields of an intent that the rotation does not look at. *)
Lemma set_intent_inv s key i j :
  inv s → intents s !! key = Some i → i_class j = i_class i → charged j = charged i →
  i_bytes j = i_bytes i → inv (set_intents (<[key := j]> (intents s)) s).
Proof.
  intros Hinv Hk Hc Hch Hb. apply (inv_static s); [done|done| | | |].
  - apply map_Forall_insert_2; [|apply Hinv]. pose proof (inv_intents s Hinv key i Hk) as Hi.
    unfold intent_ok in *. by rewrite Hch, Hb.
  - rewrite count_class_def. simpl. rewrite (map_count_update _ _ _ i) by done. simpl. rewrite Hc.
    pose proof (inv_caps s Hinv). rewrite count_class_def in *. lia.
  - rewrite count_class_def. simpl. rewrite (map_count_update _ _ _ i) by done. simpl. rewrite Hc.
    pose proof (inv_caps s Hinv). rewrite !count_class_def in *. lia.
  - apply (rot_ok_ext (intents s)); [|apply Hinv]. intros x. simpl.
    rewrite (scope_load_update _ _ i) by done.
    assert (load_of key j x = load_of key i x) as ->; [|lia].
    unfold load_of, class_pending, pending. by rewrite Hc, Hch, Hb.
Qed.

(** Upgrading an ordinary intent to the critical class. *)
Lemma upgrade_inv s key i :
  inv s → intents s !! key = Some i → i_class i = Ordinary →
  count_class s CriticalEager < CRITICAL_MAX_INTENTS →
  let j := mkIntent (i_bytes i) (last_observed i) (created_at i) (i_order i) (charged i) CriticalEager in
  let s' := set_intents (<[key := j]> (intents (forget_pending s key i))) (forget_pending s key i) in
  inv s' ∧ static s' = static s ∧ intents s' = <[key := j]> (intents s).
Proof.
  intros Hinv Hk Hc Hlt j s'.
  destruct (forget_pending_fields s key i) as (Hst & Hint & _ & _).
  assert (static s' = static s) as Hst' by (unfold s', static in *; exact Hst).
  assert (intents s' = <[key := j]> (intents s)) as Hint' by (unfold s'; simpl; by rewrite Hint).
  split_and!; [|done|done]. apply (inv_static s _ Hinv Hst').
  - rewrite Hint'. apply map_Forall_insert_2; [|apply Hinv]. apply (inv_intents s Hinv key i Hk).
  - rewrite count_class_def, Hint', (map_count_update _ _ _ i) by done. simpl. rewrite Hc.
    pose proof (inv_caps s Hinv). rewrite !count_class_def in *. simpl. lia.
  - rewrite count_class_def, Hint', (map_count_update _ _ _ i) by done. simpl. rewrite Hc.
    rewrite !count_class_def in *. simpl. lia.
  - rewrite Hint'.
    pose proof (forget_pending_rot (intents s) (set_intents (<[key := j]> (intents s)) s) key i
      (inv_rot s Hinv)) as Hrot. cbv zeta in Hrot.
    assert (ordinary_scope_counts s' = ordinary_scope_counts
              (forget_pending (set_intents (<[key := j]> (intents s)) s) key i) ∧
            ordinary_scopes s' = ordinary_scopes
              (forget_pending (set_intents (<[key := j]> (intents s)) s) key i)) as [-> ->].
    { unfold s', forget_pending, remove_ordinary_pending. simpl. repeat case_match; done. }
    destruct (forget_pending_fields (set_intents (<[key := j]> (intents s)) s) key i) as (_ & Hi2 & _).
    rewrite Hi2 in Hrot. apply Hrot. intros x. simpl.
    rewrite (scope_load_update _ _ i), (load_of_class key j) by done. lia.
Qed.

Lemma upgrade_class_effect s c key i class :
  inv s → intents s !! key = Some i →
  let '(s', c', e) := upgrade_class s c key i class in
  inv s' ∧ quiet s c s' c' ∧ (e = None → is_Some (intents s' !! key)).
Proof.
  intros Hinv Hk. unfold upgrade_class.
  destruct (bool_decide (class = CriticalEager) && _) eqn:Hb.
  2: { split_and!; [done..|]. intros _. by exists i. }
  apply andb_true_iff in Hb as [_ Hb]. apply bool_decide_eq_true in Hb.
  assert (i_class i = Ordinary) as Hc by (by destruct (i_class i)).
  destruct (decide (CRITICAL_MAX_INTENTS ≤ count_class s CriticalEager)) as [Hfull|Hfree].
  - pose proof (displace_effect s c CriticalEager key Hinv) as Hd.
    destruct (displace_intent_for_fair_admission s c CriticalEager key) as [[s1 c1] adm].
    destruct Hd as (Hi1 & Hq1 & Hadm). destruct adm; cbn [negb].
    + destruct Hadm as (victim & vi & Hvk & Hvc & _ & Hint).
      apply class_pending_spec in Hvc as [Hvc _].
      assert (intents s1 !! key = Some i) as Hk1.
      { rewrite Hint, lookup_delete_ne; [done|]. intros ->. congruence. }
      rewrite Hk1. destruct (upgrade_inv s1 key i Hi1 Hk1 Hc) as (Hi2 & Hst2 & Hint2).
      { pose proof (inv_caps s Hinv) as [_ Hcap]. rewrite count_class_def in *.
        rewrite Hint. rewrite (map_count_delete _ (intents s) victim vi Hvk), decide_True in Hcap by done.
        lia. }
      split_and!; [done| |].
      * eapply quiet_trans; [exact Hq1|]. by apply static_quiet.
      * intros _. rewrite Hint2, lookup_insert_eq. by eexists.
    + split; [done|]. split; [|done]. destruct Hq1 as (? & ? & ? & ? & ?). unfold quiet.
      by rewrite fetch_add_other.
  - cbn [negb]. rewrite Hk. destruct (upgrade_inv s key i Hinv Hk Hc) as (Hi2 & Hst2 & Hint2); [lia|].
    split_and!; [done|by apply static_quiet|].
    intros _. rewrite Hint2, lookup_insert_eq. by eexists.
Qed.

Lemma observe_existing_effect s c key i bytes now class :
  inv s → intents s !! key = Some i →
  let '(s', c', _) := observe_existing s c key i bytes now class in
  inv s' ∧ quiet s c s' c'.
Proof.
  intros Hinv Hk. unfold observe_existing. pose proof (upgrade_class_effect s c key i class Hinv Hk) as Hup.
  destruct (upgrade_class s c key i class) as [[s1 c1] [e|]]; destruct Hup as (Hi1 & Hq1 & Hk1); [done|].
  destruct (Hk1 eq_refl) as [i1 Hi1k]. rewrite Hi1k. case_decide; [done|].
  split; [by apply (set_intent_inv s1 key i1)|]. eapply quiet_trans; [exact Hq1|done].
Qed.
Lemma size_classes s : Z.of_nat (size (intents s)) = count_class s Ordinary + count_class s CriticalEager.
Proof.
  rewrite !count_class_def. symmetry. apply map_count_split. intros [k i]. simpl.
  by destruct (i_class i).
Qed.

(** Adding to the rotation, at either end. *)
Lemma add_pending_rot m s scope front :
  rot_ok m (ordinary_scope_counts s) (ordinary_scopes s) →
  (∀ x, scope_load (intents s) x = scope_load m x + bump scope x) →
  scope_load (intents s) scope ≤ U64_MAX →
  let s' := if front : bool then add_ordinary_pending_front s scope else add_ordinary_pending s scope in
  static s' = static s ∧ intents s' = intents s ∧
  rot_ok (intents s') (ordinary_scope_counts s') (ordinary_scopes s').
Proof.
  intros Hrot Hload Hmax. destruct front; unfold add_ordinary_pending_front, add_ordinary_pending; cbv zeta;
    (split; [by case_decide|]); (split; [by case_decide|]);
    match goal with |- rot_ok (intents ?x) _ _ =>
      replace (intents x) with (intents s) by by case_decide end; simpl;
    apply (rot_add m _ (ordinary_scope_counts s) (ordinary_scopes s)
             _ _ Hrot Hload Hmax) || idtac.
  - replace (ordinary_scope_counts (if decide _ then _ else s)) with (ordinary_scope_counts s)
      by by case_decide.
    apply (rot_add m _ (ordinary_scope_counts s) (ordinary_scopes s) scope); try done.
    right. by case_decide.
  - replace (ordinary_scope_counts (if decide _ then _ else s)) with (ordinary_scope_counts s)
      by by case_decide.
    apply (rot_add m _ (ordinary_scope_counts s) (ordinary_scopes s) scope); try done.
    left. by case_decide.
Qed.

Lemma enter_rotation_rot m s key bytes adm :
  rot_ok m (ordinary_scope_counts s) (ordinary_scopes s) →
  (∀ x, scope_load (intents s) x = scope_load m x + bump (key_scope key) x) →
  scope_load (intents s) (key_scope key) ≤ U64_MAX →
  let s' := enter_rotation s key bytes adm in
  static s' = static s ∧ intents s' = intents s ∧
  rot_ok (intents s') (ordinary_scope_counts s') (ordinary_scopes s').
Proof.
  intros Hrot Hload Hmax. unfold enter_rotation.
  destruct (adm && _); [|by apply (add_pending_rot m s (key_scope key) false)].
  destruct (promotion_live_fields s) as [p Hp].
  destruct (promotion_live s) as [s1 live]. simpl in Hp. subst s1. destruct live.
  - by apply (add_pending_rot m (set_promoted p s) (key_scope key) false).
  - by apply (add_pending_rot m (set_promoted _ (set_promoted p s)) (key_scope key) true).
Qed.

Lemma scope_load_le_class s scope : scope_load (intents s) scope ≤ count_class s Ordinary.
Proof.
  rewrite count_class_def. unfold scope_load. apply map_count_mono.
  intros [k i] [Hc _]. by apply class_pending_spec in Hc as [? _].
Qed.

(** Inserting a new intent below its class limit. *)
Lemma insert_new_inv s key j adm bytes :
  inv s → intents s !! key = None → intent_ok (cap s) j →
  count_class s (i_class j) < class_limit (i_class j) →
  let s1 := set_intents (<[key := j]> (intents s)) s in
  let s' := if class_pending Ordinary j then enter_rotation s1 key bytes adm else s1 in
  inv s' ∧ static s' = static s.
Proof.
  intros Hinv Hk Hj Hlt s1 s'.
  assert (∀ cl, count_class s1 cl = count_class s cl + if decide (i_class j = cl) then 1 else 0) as Hcount.
  { intros cl. rewrite !count_class_def. unfold s1. simpl. by rewrite map_count_insert. }
  assert (count_class s1 Ordinary ≤ ORDINARY_MAX_INTENTS ∧
          count_class s1 CriticalEager ≤ CRITICAL_MAX_INTENTS) as [Ho Hc].
  { rewrite !Hcount. pose proof (inv_caps s Hinv). destruct (i_class j); simpl in *; lia. }
  assert (static s' = static s ∧ intents s' = intents s1 ∧
    rot_ok (intents s') (ordinary_scope_counts s') (ordinary_scopes s')) as (Hst & Hint & Hrot).
  { assert (∀ x, scope_load (intents s1) x = scope_load (intents s) x + load_of key j x) as Hl.
    { intros x. unfold s1. simpl. by apply scope_load_insert. }
    unfold s'. unfold load_of in Hl. destruct (class_pending Ordinary j).
    - apply (enter_rotation_rot (intents s) s1 key bytes adm (inv_rot s Hinv) Hl).
      pose proof (scope_load_le_class s1 (key_scope key)).
      unfold ORDINARY_MAX_INTENTS, DEFAULT_MAX_INTENTS, CRITICAL_MAX_INTENTS, U64_MAX in *. lia.
    - split_and!; [done..|]. apply (rot_ok_ext (intents s)); [|exact (inv_rot s Hinv)].
      intros x. rewrite Hl. lia. }
  split; [|done]. apply (inv_static s _ Hinv Hst); [| | |done].
  - rewrite Hint. unfold s1. simpl. by apply map_Forall_insert_2, inv_intents.
  - by rewrite count_class_def, Hint, <-count_class_def.
  - by rewrite count_class_def, Hint, <-count_class_def.
Qed.

Lemma delete_absent (m : gmap RecoveryIntentKey Intent) (k k' : RecoveryIntentKey) :
  m !! k = None → delete k' m !! k = None.
Proof. intros Hk. rewrite lookup_delete. by case_decide. Qed.

Lemma inherit_family_effect s key bytes now class :
  inv s → intents s !! key = None → 0 ≤ bytes →
  let '(s1, (order, created, credit, preserved)) := inherit_family s key bytes now class in
  0 ≤ credit ≤ bytes ∧ static s1 = static s ∧ intents s1 !! key = None ∧
  (if preserved then
     class = Ordinary ∧ credit < bytes ∧
     ∃ k i, intents s !! k = Some i ∧ class_pending Ordinary i = true ∧
       key_scope k = key_scope key ∧ s1 = set_intents (delete k (intents s)) s
   else inv s1).
Proof.
  intros Hinv Hk Hb. unfold inherit_family.
  destruct (head (filter _ _)) as [[pk pi]|] eqn:Hh.
  2: { split_and!; [lia|lia|done|done|]. by apply (inv_static s); try apply Hinv. }
  assert (intents s !! pk = Some pi) as Hpk.
  { apply elem_of_hiter. apply head_Some_elem_of in Hh. by apply list_elem_of_filter in Hh as [_ ?]. }
  pose proof (inv_intents s Hinv pk pi Hpk) as [Hch _]. simpl in Hch.
  destruct (bool_decide (i_class pi = Ordinary) && _ && _ && _ && _) eqn:Hpres; cbn [negb].
  - rewrite !andb_true_iff, !bool_decide_eq_true in Hpres. destruct Hpres as ((((Hc & Hcl) & Hs) & Hp) & Hcb).
    split_and!; [lia|lia|done|by apply delete_absent|done|done|].
    exists pk, pi. split_and!; try done. unfold class_pending. by rewrite Hc, Hp.
  - assert (forget_pending (set_intents (delete pk (intents s)) s) pk pi = remove_intent s pk) as ->.
    { unfold remove_intent. by rewrite Hpk. }
    destruct (remove_intent_static s pk) as [Hst Hint].
    split_and!; [lia|lia|done| |by apply remove_intent_inv].
    rewrite Hint. by apply delete_absent.
Qed.

Lemma register_new_effect s c key bytes now class :
  inv s → intents s !! key = None → 0 ≤ bytes ≤ cap s →
  let '(s', c', _) := register_new s c key bytes now class in
  inv s' ∧ quiet s c s' c'.
Proof.
  intros Hinv Hk Hb. unfold register_new.
  pose proof (inherit_family_effect s key bytes now class Hinv Hk ltac:(lia)) as Hinh.
  destruct (inherit_family s key bytes now class) as [s1 [[[order created] credit] preserved]].
  destruct Hinh as (Hcr & Hst1 & Hk1 & Hp). pose proof (static_quiet _ _ c Hst1) as Hq1.
  assert (cap s1 = cap s) as Hcap by by apply (quiet_cap _ c _ c).
  destruct preserved.
  - destruct Hp as (-> & Hlt & pk & pi & Hpk & Hpc & Hsc & ->).
    pose proof Hpc as [Hpcl _]%class_pending_spec. pose proof (inv_caps s Hinv) as [Ho Hc].
    set (s1 := set_intents (delete pk (intents s)) s) in *.
    assert (count_class s1 Ordinary = count_class s Ordinary - 1) as Hco.
    { rewrite !count_class_def. unfold s1. simpl.
      rewrite (map_count_delete _ (intents s) pk pi Hpk), decide_True by done. lia. }
    assert (count_class s1 CriticalEager = count_class s CriticalEager) as Hcc.
    { rewrite !count_class_def. unfold s1. simpl.
      rewrite (map_count_delete _ (intents s) pk pi Hpk), decide_False by (simpl; congruence). lia. }
    rewrite (bool_decide_eq_false_2 (DEFAULT_MAX_INTENTS ≤ _)), (bool_decide_eq_false_2 (class_limit _ ≤ _))
      by (rewrite ?size_classes; unfold class_limit, ORDINARY_MAX_INTENTS, DEFAULT_MAX_INTENTS, CRITICAL_MAX_INTENTS in *; lia).
    cbn [orb negb]. rewrite andb_false_r.
    split; [|unfold quiet; by rewrite fetch_add_other].
    apply (inv_static s); [done|exact Hst1|..]; simpl.
    + apply map_Forall_insert_2; [|by apply map_Forall_delete, inv_intents].
      unfold intent_ok. simpl. lia.
    + rewrite count_class_def. simpl. rewrite map_count_insert by done. simpl.
      rewrite !count_class_def in Hco. simpl in Hco. rewrite count_class_def in Ho. lia.
    + rewrite count_class_def. simpl. rewrite map_count_insert by done. simpl.
      rewrite !count_class_def in Hcc. simpl in Hcc. rewrite count_class_def in Hc. lia.
    + apply (rot_ok_ext (intents s)); [|apply (inv_rot s Hinv)]. intros x.
      rewrite scope_load_insert, (scope_load_delete _ _ pi) by done. unfold load_of.
      rewrite Hpc, (proj2 (class_pending_spec Ordinary (mkIntent _ _ _ _ _ _))) by done.
      rewrite Hsc. lia.
  - set (full := bool_decide _ || bool_decide _).
    assert (let '(s2, c2, admitted) := if full then displace_intent_for_fair_admission s1 c class key
                                       else (s1, c, true) in
      inv s2 ∧ quiet s c s2 c2 ∧ (admitted = true → intents s2 !! key = None ∧
        count_class s2 class < class_limit class)) as Hadm.
    { destruct full eqn:Hfull.
      - pose proof (displace_effect s1 c class key Hp) as Hd.
        destruct (displace_intent_for_fair_admission s1 c class key) as [[s2 c2] adm].
        destruct Hd as (Hi2 & Hq2 & Hd). split_and!; [done|by eapply quiet_trans|..].
        intros ->. destruct Hd as (victim & vi & Hvk & [Hvc _]%class_pending_spec & _ & Hint).
        rewrite Hint. split; [by apply delete_absent|].
        pose proof (inv_caps s1 Hp) as [Ho Hc]. rewrite count_class_def, Hint.
        pose proof (map_count_delete (λ item, i_class item.2 = class) (intents s1) victim vi Hvk) as Hm.
        rewrite decide_True in Hm by done. rewrite count_class_def in Ho, Hc.
        destruct class; simpl in *; lia.
      - split_and!; [done..|]. intros _. split; [done|]. unfold full in Hfull.
        apply orb_false_iff in Hfull as [_ Hf]. apply bool_decide_eq_false in Hf. lia. }
    destruct (if full then _ else _) as [[s2 c2] admitted]. destruct Hadm as (Hi2 & Hq2 & Hadm).
    destruct admitted; cbn [negb].
    2: { split; [done|]. destruct Hq2 as (? & ? & ? & ? & ?). unfold quiet. by rewrite fetch_add_other. }
    destruct (Hadm eq_refl) as [Hk2 Hlt2]. rewrite andb_true_r.
    destruct (insert_new_inv s2 key (mkIntent bytes now created order credit class) full bytes Hi2 Hk2)
      as [Hi3 Hst3]; [|done|].
    { rewrite (quiet_cap _ _ _ _ Hq2). unfold intent_ok. simpl. lia. }
    assert (class_pending Ordinary (mkIntent bytes now created order credit class)
            = bool_decide (class = Ordinary) && bool_decide (credit < bytes)) as Heq by reflexivity.
    rewrite Heq in Hi3, Hst3. split; [exact Hi3|].
    pose proof (static_quiet _ _ c2 Hst3) as (? & ? & ? & ? & _).
    destruct Hq2 as (? & ? & ? & ? & ?). unfold quiet. rewrite fetch_add_other by done.
    intuition congruence.
Qed.
(** ** Operations *)

Lemma set_tokens_inv s t st :
  inv s → 0 ≤ t ≤ cap s → 0 ≤ st ≤ cap s → inv (set_soft_tokens st (set_tokens t s)).
Proof. intros Hinv Ht Hst. destruct Hinv. split; try done. Qed.

Lemma set_soft_same s t : set_soft_tokens (soft_tokens s) (set_tokens t s) = set_tokens t s.
Proof. by destruct s. Qed.

Lemma tokens_inv (s : State) (t : Z) : inv s → 0 ≤ t ≤ cap s → inv (set_tokens t s).
Proof. intros Hinv Ht. rewrite <-set_soft_same. apply set_tokens_inv; [done..|apply Hinv]. Qed.

Lemma data_hard_denied_false s cfg bytes :
  data_hard_denied s cfg bytes = false →
  bytes ≤ tokens s ∧ recovery_reserve s cfg ≤ tokens s - bytes ∨
  bytes ≤ tokens s ∧ recovery_reserve s cfg ≤ 0.
Proof.
  unfold data_hard_denied, sat_sub. rewrite orb_false_iff, !bool_decide_eq_false. lia.
Qed.

Lemma charged_fetch n c :
  charged_bytes (fetch_add ChargedBytes n c) = u64_wrap (charged_bytes c + n).
Proof. reflexivity. Qed.

Lemma try_reserve_data_effect l key bytes relayed now :
  inv (state l) → u64 (charged_bytes (counters l)) → 0 ≤ bytes →
  let '(l', res) := try_reserve_data_at l key bytes relayed now in
  inv (state l') ∧
  (∃ d, spent (allowance (state l) now) d (state l) (counters l) (state l') (counters l')) ∧
  (is_Some (config (state l)) → last_refill (state l') = now) ∧
  flags l' = flags l ∧
  match res with
  | Ok r =>
      r = mkReservation key (generation (state l)) ∧
      let s1 := (refill (state l) (counters l) now).1 in
      ∃ cfg, config s1 = Some cfg ∧ bytes ≤ max_serialized_frame_bytes cfg ∧
        tokens (state l') = tokens s1 - bytes ∧ 0 ≤ tokens (state l') ∧
        recovery_reserve s1 cfg ≤ tokens (state l') ∧ intents (state l') = intents s1
  | Err _ => True
  end.
Proof.
  intros Hinv Hu Hb. unfold try_reserve_data_at.
  pose proof (refill_effect (state l) (counters l) now Hinv Hu) as Hr.
  destruct (refill (state l) (counters l) now) as [s c]. destruct Hr as (Hi & [d Hd] & Hl).
  pose proof (spent_range _ _ _ _ _ _ Hd) as Hu1.
  destruct (config s) as [cfg|] eqn:Hcfg; [|by split_and!; eauto].
  destruct (decide (max_serialized_frame_bytes cfg < bytes)) as [Hov|Hfit]; [by split_and!; eauto|].
  destruct (data_hard_denied s cfg bytes || _) eqn:Hden.
  { split_and!; [done| |done|done|done]. exists d. by destruct Hd. }
  apply orb_false_iff in Hden as [Hhard Hsoft].
  pose proof (data_hard_denied_false _ _ _ Hhard) as Hroom.
  pose proof (inv_tokens s Hi) as Ht. pose proof (inv_soft s Hi) as Hst.
  set (s2 := if relayed && _ then _ else _).
  assert (∃ st, 0 ≤ st ≤ cap s ∧ s2 = set_soft_tokens st (set_tokens (tokens s - bytes) s)) as (st & Hst2 & Hs2).
  { unfold s2. destruct (relayed && _) eqn:Hrl.
    - exists (soft_tokens s - bytes). split; [|done]. simpl in Hsoft. rewrite bool_decide_eq_false in Hsoft. lia.
    - exists (soft_tokens s). split; [done|]. by rewrite set_soft_same. }
  assert (inv s2) as Hi2 by (rewrite Hs2; apply set_tokens_inv; [done|lia|done]).
  cbn [with_state state counters flags]. split_and!; [done| | |done| |].
  - exists (d + bytes). destruct Hd as [? ? ? Hc Hl1]. rewrite Hs2. split; [lia|done|done| |].
    + rewrite charged_fetch, fetch_add_other, Hc by done. unfold u64_wrap.
      rewrite Zplus_mod_idemp_l. f_equal. lia.
    + unfold ledger in *. simpl. lia.
  - intros Hsome. rewrite Hs2. simpl. by apply Hl.
  - rewrite Hs2. simpl. f_equal. by destruct Hd.
  - exists cfg. rewrite Hs2. simpl. split_and!; try done; try lia.
Qed.

Lemma reserve_protected_effect l key bytes relayed now :
  inv (state l) → u64 (charged_bytes (counters l)) → 0 ≤ bytes →
  let '(l', res) := reserve_protected l key bytes relayed now in
  inv (state l') ∧ u64 (charged_bytes (counters l')) ∧ flags l' = flags l ∧
  config (state l') = config (state l) ∧
  res = match config (state l) with
        | Some _ => Some (mkReservation key (generation (state l)))
        | None => None
        end.
Proof.
  intros Hinv Hu Hb. unfold reserve_protected.
  pose proof (refill_effect (state l) (counters l) now Hinv Hu) as Hr.
  destruct (refill (state l) (counters l) now) as [s c]. destruct Hr as (Hi & [d Hd] & Hl).
  pose proof (spent_range _ _ _ _ _ _ Hd) as Hu1. pose proof (sp_config _ _ _ _ _ _ Hd) as Ec.
  pose proof (sp_generation _ _ _ _ _ _ Hd) as Eg. rewrite <-Ec, <-Eg.
  destruct (config s) as [cfg|] eqn:Hcfg; [|by split_and!].
  pose proof (inv_tokens s Hi) as Ht. pose proof (inv_soft s Hi) as Hst.
  cbn [with_state state counters flags].
  set (s2 := if relayed && _ then _ else _).
  assert (∃ st, 0 ≤ st ≤ cap s ∧ s2 = set_soft_tokens st (set_tokens (sat_sub (tokens s) bytes) s))
    as (st & Hst2 & ->).
  { unfold s2. destruct (relayed && _); [|exists (soft_tokens s); by rewrite set_soft_same].
    exists (sat_sub (soft_tokens s) bytes). split; [|done]. unfold sat_sub. lia. }
  split_and!; [|apply u64_wrap_range|done|done|done].
  apply set_tokens_inv; [done| |done]. unfold sat_sub. lia.
Qed.

(** A fully charged intent leaves without touching the rotation. *)
Lemma claim_inv s key i :
  inv s → intents s !! key = Some i → pending i = false → inv (set_intents (delete key (intents s)) s).
Proof.
  intros Hinv Hk Hp. assert (remove_intent s key = set_intents (delete key (intents s)) s) as <-.
  { unfold remove_intent, forget_pending. rewrite Hk, Hp. by rewrite andb_false_r. }
  by apply remove_intent_inv.
Qed.

Lemma quiet_spent s c s' c' :
  u64 (charged_bytes c) → quiet s c s' c' → spent 0 0 s c s' c'.
Proof.
  intros Hu (Hf & Ht & _ & _ & Hc). unfold fixed in Hf. injection Hf as E1 E2 E3 _ _ _ _.
  split; try done; [by rewrite Hc, u64_wrap_id|]. unfold ledger. rewrite Ht, E3. lia.
Qed.

Lemma quiet_last s c s' c' : quiet s c s' c' → last_refill s' = last_refill s.
Proof. intros (Hf & _). unfold fixed in Hf. by injection Hf. Qed.

Lemma try_reserve_recovery_effect l key bytes gen now class :
  inv (state l) → u64 (charged_bytes (counters l)) → 0 ≤ bytes →
  let '(l', res) := try_reserve_recovery_at_class l key bytes gen now class in
  inv (state l') ∧
  (∃ d, spent (allowance (state l) now) d (state l) (counters l) (state l') (counters l')) ∧
  (is_Some (config (state l)) → last_refill (state l') = now) ∧
  flags l' = flags l ∧
  match res with
  | Ok r => r = mkReservation key (generation (state l)) ∧ is_Some (config (state l))
  | Err _ => True
  end.
Proof.
  intros Hinv Hu Hb. unfold try_reserve_recovery_at_class.
  pose proof (refill_effect (state l) (counters l) now Hinv Hu) as Hr.
  destruct (refill (state l) (counters l) now) as [s c]. destruct Hr as (Hi & [d Hd] & Hl).
  pose proof (spent_range _ _ _ _ _ _ Hd) as Hu1. pose proof (sp_config _ _ _ _ _ _ Hd) as Ec.
  pose proof (sp_generation _ _ _ _ _ _ Hd) as Eg.
  destruct (decide (generation s ≠ gen)) as [|Hgen]; [by split_and!; eauto|].
  destruct (config s) as [cfg|] eqn:Hcfg; [|by split_and!; eauto].
  destruct (decide (max_serialized_frame_bytes cfg < bytes)) as [|Hfit]; [by split_and!; eauto|].
  assert (bytes ≤ cap s) as Hcap.
  { pose proof (inv_cfg s Hi) as Hc. unfold cap. rewrite Hcfg in *. destruct Hc. lia. }
  set (reg := match intents s !! key with Some i => _ | None => _ end).
  assert (let '(s1, c1, _) := reg in inv s1 ∧ quiet s c s1 c1) as Hreg.
  { unfold reg. destruct (intents s !! key) as [i|] eqn:Hk.
    - by apply observe_existing_effect.
    - by apply register_new_effect. }
  destruct reg as [[s1 c1] e]. destruct Hreg as [Hi1 Hq1].
  pose proof (quiet_spent _ _ _ _ Hu1 Hq1) as Hs1.
  pose proof (spent_trans _ _ _ _ _ _ _ _ _ _ Hd Hs1) as Hd1. rewrite !Z.add_0_r in Hd1.
  pose proof (spent_range _ _ _ _ _ _ Hd1) as Hu2.
  assert (is_Some (config (state l)) → last_refill s1 = now) as Hl1.
  { intros Hsm. rewrite (quiet_last _ _ _ _ Hq1). by apply Hl. }
  destruct e as [e|]; [by split_and!; eauto|].
  pose proof (charge_ready_recovery_effect s1 c1 Hi1 Hu2) as Hch.
  destruct (charge_ready_recovery s1 c1) as [s2 c2]. destruct Hch as (Hi2 & [d2 Hd2] & _).
  pose proof (spent_trans _ _ _ _ _ _ _ _ _ _ Hd1 (charged_by_spent _ _ _ _ _ Hd2)) as Hd3.
  rewrite Z.add_0_r in Hd3.
  assert (is_Some (config (state l)) → last_refill s2 = now) as Hl2.
  { intros Hsm. rewrite (charged_by_last _ _ _ _ _ Hd2). by apply Hl1. }
  destruct (intents s2 !! key) as [i|] eqn:Hk2; [|by split_and!; eauto].
  destruct (pending i) eqn:Hp; [by split_and!; eauto|]. simpl.
  split_and!; [by eapply claim_inv| |done|done| |].
  - exists (d + d2). destruct Hd3. split; done.
  - f_equal. apply dec_stable in Hgen. congruence.
  - rewrite <-Ec. by eexists.
Qed.

Lemma cancel_intent_effect l key gen :
  inv (state l) →
  inv (state (cancel_intent l key gen)) ∧ static (state (cancel_intent l key gen)) = static (state l) ∧
  counters (cancel_intent l key gen) = counters l ∧ flags (cancel_intent l key gen) = flags l.
Proof.
  intros Hinv. unfold cancel_intent. case_decide; [|done]. simpl.
  split_and!; [by apply remove_intent_inv|apply remove_intent_static|done|done].
Qed.
(** ** The limiter *)

Definition flags_ok (l : LeafEgressLimiter) : Prop :=
  enabled l = bool_decide (is_Some (config (state l))) ∧
  enforcing l = match config (state l) with
                | Some cfg => bool_decide (policy cfg = ShedNormal)
                | None => false
                end.

Record limiter_ok (l : LeafEgressLimiter) : Prop := {
  lim_inv : inv (state l);
  lim_charged : u64 (charged_bytes (counters l));
  lim_flags : flags_ok l;
}.

(** A request as it can arrive: every field is a [u64]. *)
Definition typed_config (cfg : LeafEgressConfig) : Prop :=
  u64 (soft_bytes_per_second cfg) ∧ u64 (hard_bytes_per_second cfg) ∧
  u64 (burst_bytes cfg) ∧ u64 (max_serialized_frame_bytes cfg).

Lemma flags_ok_same l l' :
  flags l' = flags l → config (state l') = config (state l) → flags_ok l → flags_ok l'.
Proof. unfold flags_ok, enabled, enforcing. intros -> ->. done. Qed.

Lemma validate_ok cfg cfg' :
  typed_config cfg → validate cfg = Some cfg' → cfg' = cfg ∧ cfg_ok cfg.
Proof.
  intros (Hs & Hh & Hb & Hm). unfold validate. case_decide; [done|]. case_decide as Hok; [|done].
  intros [= <-]. split; [done|]. unfold u64 in *. split; lia.
Qed.

Lemma configure_effect l requested now :
  limiter_ok l → (∀ cfg, requested = Some cfg → typed_config cfg) →
  limiter_ok (configure l requested now).1.
Proof.
  intros [Hinv Hc Hf] Hty. unfold configure.
  set (validated := match requested with Some _ => _ | None => _ end).
  assert (∀ v, validated = Some v → match v with Some cfg => cfg_ok cfg | None => True end) as Hval.
  { unfold validated. intros v. destruct requested as [cfg|]; [|by intros [= <-]].
    case_decide; [by intros [= <-]|].
    destruct (validate cfg) as [cfg'|] eqn:E; [|done]. intros [= <-].
    by destruct (validate_ok cfg cfg' (Hty cfg eq_refl) E) as [-> ?]. }
  destruct validated as [v|]; [|done]. specialize (Hval v eq_refl).
  destruct (decide (config (state l) = v)); [done|]. simpl. split; simpl.
  - split; simpl; unfold cap; simpl; try done.
    + destruct v as [cfg|]; [destruct Hval; lia|lia].
    + destruct v as [cfg|]; [destruct Hval; lia|lia].
    + destruct v; unfold RECOVERY_MAX_QUANTUM_BYTES, RECOVERY_TOTAL_SLOTS, RECOVERY_CRITICAL_SLOTS;
        split_and!; lia.
    + apply rot_ok_empty.
  - done.
  - unfold flags_ok, enabled, enforcing. simpl.
    destruct v as [cfg|]; [destruct (policy cfg)|]; destruct (bool_decide (is_Some (config (state l))));
      by vm_compute.
Qed.

Lemma clear_deferred_residue_effect l : limiter_ok l → limiter_ok (clear_deferred_residue l).
Proof.
  intros [Hi Hc Hf]. split; [done..|]. unfold flags_ok, enabled, enforcing in *. simpl.
  by rewrite <-!Z.land_assoc.
Qed.

Lemma update_purpose_effect l topic purpose f : limiter_ok l → limiter_ok (update_purpose l topic purpose f).
Proof. intros [Hi Hc Hf]. unfold update_purpose. by case_match. Qed.

Lemma waiters_inv s w : inv s → inv (set_waiters_by_peer w s).
Proof. intros Hinv. by destruct Hinv. Qed.

Lemma waiter_permit_effect l peer class l' :
  limiter_ok l → waiter_permit l peer class = Ok l' → limiter_ok l'.
Proof.
  intros [Hi Hc Hf]. unfold waiter_permit. case_decide; [done|].
  destruct (default _ _) as [o k]. case_decide; [done|].
  destruct class; intros [= <-]; (split; [by apply waiters_inv|done|done]).
Qed.

Lemma drop_waiter_permit_effect l peer class :
  limiter_ok l → limiter_ok (drop_waiter_permit l peer class).
Proof.
  intros [Hi Hc Hf]. unfold drop_waiter_permit.
  match goal with |- limiter_ok (match class with Ordinary => with_waiters l ?x _ _ | _ => _ end) =>
    assert (∃ w, x = set_waiters_by_peer w (state l)) as [w ->] end.
  { assert (state l = set_waiters_by_peer (waiters_by_peer (state l)) (state l)) as Hid
      by by destruct (state l).
    destruct (waiters_by_peer (state l) !! peer) as [[o k]|]; [|by eauto].
    destruct class; case_decide; eauto. }
  destruct class; (split; [by apply waiters_inv|done|done]).
Qed.

(** ** Runs *)

Inductive Op :=
| OpData (key : RecoveryIntentKey) (bytes : Z) (relayed : bool) (now : Z)
| OpProtected (key : RecoveryIntentKey) (bytes : Z) (relayed : bool) (now : Z)
| OpRecovery (key : RecoveryIntentKey) (bytes gen now : Z) (class : RecoveryClass)
| OpCancel (key : RecoveryIntentKey) (gen : Z)
| OpConfigure (requested : option LeafEgressConfig) (now : Z)
| OpClearResidue
| OpValidate (key : option RecoveryIntentKey) (reservation : option ByteReservation)
| OpDemand (topic : Id) (purpose : string) (bytes : Z) (is_charged : bool)
| OpOutcome (topic : Id) (purpose : string) (bytes : Z) (sent : bool)
| OpWait (peer : Id) (class : RecoveryClass)
| OpUnwait (peer : Id) (class : RecoveryClass).

Definition exec (l : LeafEgressLimiter) (op : Op) : LeafEgressLimiter :=
  match op with
  | OpData key bytes relayed now => (try_reserve_data_at l key bytes relayed now).1
  | OpProtected key bytes relayed now => (reserve_protected l key bytes relayed now).1
  | OpRecovery key bytes gen now class => (try_reserve_recovery_at_class l key bytes gen now class).1
  | OpCancel key gen => cancel_intent l key gen
  | OpConfigure requested now => (configure l requested now).1
  | OpClearResidue => clear_deferred_residue l
  | OpValidate key reservation => (validate_reservation l key reservation).1
  | OpDemand topic purpose bytes is_charged => record_purpose_demand l topic purpose bytes is_charged
  | OpOutcome topic purpose bytes sent => record_send_outcome l topic purpose bytes sent
  | OpWait peer class => match waiter_permit l peer class with Ok l' => l' | Err _ => l end
  | OpUnwait peer class => drop_waiter_permit l peer class
  end.

Definition run (l : LeafEgressLimiter) (ops : list Op) : LeafEgressLimiter := foldl exec l ops.

Definition op_typed (op : Op) : Prop :=
  match op with
  | OpData _ bytes _ _ | OpProtected _ bytes _ _ | OpRecovery _ bytes _ _ _ => u64 bytes
  | OpConfigure (Some cfg) _ => typed_config cfg
  | _ => True
  end.

Lemma exec_ok l op : limiter_ok l → op_typed op → limiter_ok (exec l op).
Proof.
  intros Hok Hty. pose proof Hok as [Hi Hc Hf]. destruct op; simpl in *.
  - pose proof (try_reserve_data_effect l key bytes relayed now Hi Hc) as He.
    destruct (try_reserve_data_at l key bytes relayed now) as [l' r].
    destruct He as (Hi' & [d Hd] & _ & Hfl & _); [unfold u64 in *; lia|].
    split; [done|by eapply spent_range|]. apply (flags_ok_same l); [done|apply Hd|done].
  - pose proof (reserve_protected_effect l key bytes relayed now Hi Hc) as He.
    destruct (reserve_protected l key bytes relayed now) as [l' r].
    destruct He as (Hi' & Hc' & Hfl & Hcf & _); [unfold u64 in *; lia|].
    split; [done..|]. by apply (flags_ok_same l).
  - pose proof (try_reserve_recovery_effect l key bytes gen now class Hi Hc) as He.
    destruct (try_reserve_recovery_at_class l key bytes gen now class) as [l' r].
    destruct He as (Hi' & [d Hd] & _ & Hfl & _); [unfold u64 in *; lia|].
    split; [done|by eapply spent_range|]. apply (flags_ok_same l); [done|apply Hd|done].
  - destruct (cancel_intent_effect l key gen Hi) as (Hi' & Hst & Hcn & Hfl).
    split; [done|by rewrite Hcn|]. apply (flags_ok_same l); [done| |done].
    unfold static, fixed in Hst. by injection Hst.
  - apply configure_effect; [done|]. intros cfg ->. done.
  - by apply clear_deferred_residue_effect.
  - unfold validate_reservation. repeat case_match; try done.
  - by apply update_purpose_effect.
  - unfold record_send_outcome. case_match; [done|]. apply update_purpose_effect.
    split; [done| |done]. simpl. by destruct sent.
  - destruct (waiter_permit l peer class) eqn:E; [|done]. by eapply waiter_permit_effect.
  - by apply drop_waiter_permit_effect.
Qed.

Lemma disabled_ok now : limiter_ok (disabled now).
Proof.
  split; [|by vm_compute|by vm_compute]. split; simpl; unfold cap; simpl; try done; try lia.
  apply rot_ok_empty.
Qed.

Lemma run_ok ops l : limiter_ok l → Forall op_typed ops → limiter_ok (run l ops).
Proof.
  revert l. induction ops as [|op ops IH]; intros l Hl Hty; simpl; [done|].
  apply Forall_cons in Hty as [Hop Hty]. apply IH; [by apply exec_ok|done].
Qed.
(** ** The budget along a run *)

(** Neither the bucket nor the charged counter moved. *)
Definition unmoved (l l' : LeafEgressLimiter) : Prop :=
  config (state l') = config (state l) ∧ generation (state l') = generation (state l) ∧
  ledger (state l') = ledger (state l) ∧ last_refill (state l') = last_refill (state l) ∧
  charged_bytes (counters l') = charged_bytes (counters l).

Lemma unmoved_spent l l' :
  u64 (charged_bytes (counters l)) → unmoved l l' →
  spent 0 0 (state l) (counters l) (state l') (counters l').
Proof.
  intros Hu (? & ? & Hl & _ & Hc). split; try done; [by rewrite Hc, u64_wrap_id|lia].
Qed.

Lemma unmoved_trans l l1 l2 : unmoved l l1 → unmoved l1 l2 → unmoved l l2.
Proof. unfold unmoved. intuition congruence. Qed.

Lemma update_purpose_unmoved l topic purpose f : unmoved l (update_purpose l topic purpose f).
Proof. unfold update_purpose. by case_match. Qed.

Lemma drop_waiter_unmoved l peer class : unmoved l (drop_waiter_permit l peer class).
Proof.
  unfold drop_waiter_permit. destruct (waiters_by_peer (state l) !! peer) as [[o k]|], class;
    simpl; try case_decide; done.
Qed.

(** The clock an operation reads, if any. *)
Definition op_time (op : Op) : option Z :=
  match op with
  | OpData _ _ _ now | OpRecovery _ _ _ now _ => Some now
  | _ => None
  end.

(** Everything but protected sends, which overspend by design, and
    reconfiguration, which refills the bucket. *)
Definition metered (op : Op) : bool :=
  match op with OpProtected _ _ _ _ | OpConfigure _ _ => false | _ => true end.

Lemma exec_spent l op cfg :
  limiter_ok l → op_typed op → metered op = true → config (state l) = Some cfg →
  (∀ now, op_time op = Some now → last_refill (state l) ≤ now) →
  ∃ d, spent ((last_refill (state (exec l op)) - last_refill (state l)) * hard_bytes_per_second cfg) d
         (state l) (counters l) (state (exec l op)) (counters (exec l op)) ∧
       last_refill (state (exec l op)) = default (last_refill (state l)) (op_time op).
Proof.
  intros [Hi Hc Hf] Hty Hm Hcfg Hclk.
  assert (op_time op = None → unmoved l (exec l op)) as Hun.
  { intros Hno. destruct op as [| | |key gen| | |key res|topic purpose bytes ch|topic purpose bytes sent
      |peer class|peer class]; try done; simpl.
    - destruct (cancel_intent_effect l key gen Hi) as (_ & Hst & Hcn & _).
      unfold static, fixed in Hst. injection Hst as E1 E2 E3 E4 E5 E6 E7 E8 _ _ _.
      unfold unmoved, ledger. rewrite E1, E2, E3, E6, E8, Hcn. done.
    - unfold validate_reservation. repeat case_match; done.
    - apply update_purpose_unmoved.
    - unfold record_send_outcome. case_match; [done|].
      eapply unmoved_trans; [|apply update_purpose_unmoved]. by destruct sent.
    - destruct (waiter_permit l peer class) as [l'|] eqn:E; [|done]. unfold waiter_permit in E.
      case_decide; [done|]. destruct (default _ _) as [o k]. case_decide; [done|].
      destruct class; injection E as <-; done.
    - apply drop_waiter_unmoved. }
  destruct (op_time op) as [now|] eqn:Htime.
  - assert (allowance (state l) now = (now - last_refill (state l)) * hard_bytes_per_second cfg) as Hall.
    { unfold allowance, elapsed_ns. rewrite Hcfg. specialize (Hclk now eq_refl). f_equal. lia. }
    destruct op as [key bytes relayed t| |key bytes gen t class| | | | | | | |]; try done;
      injection Htime as <-; simpl in Hty; unfold u64 in Hty; cbn [exec].
    + pose proof (try_reserve_data_effect l key bytes relayed t Hi Hc ltac:(lia)) as He.
      destruct (try_reserve_data_at l key bytes relayed t) as [l' r].
      destruct He as (_ & [d Hd] & Hl & _). cbn [fst]. rewrite Hl by (by rewrite Hcfg).
      exists d. by rewrite <-Hall.
    + pose proof (try_reserve_recovery_effect l key bytes gen t class Hi Hc ltac:(lia)) as He.
      destruct (try_reserve_recovery_at_class l key bytes gen t class) as [l' r].
      destruct He as (_ & [d Hd] & Hl & _). cbn [fst]. rewrite Hl by (by rewrite Hcfg).
      exists d. by rewrite <-Hall.
  - specialize (Hun eq_refl). pose proof (unmoved_spent l _ Hc Hun) as Hs.
    destruct Hun as (_ & _ & _ & Hl & _). rewrite Hl, Z.sub_diag. simpl. exists 0. done.
Qed.

(** Clock readings never run backwards. *)
Fixpoint clocked (t : Z) (ops : list Op) : Prop :=
  match ops with
  | [] => True
  | op :: ops =>
      match op_time op with
      | Some now => t ≤ now ∧ clocked now ops
      | None => clocked t ops
      end
  end.

Lemma run_spent ops l cfg :
  limiter_ok l → Forall op_typed ops → Forall (λ op, metered op = true) ops →
  config (state l) = Some cfg → clocked (last_refill (state l)) ops →
  ∃ d, spent ((last_refill (state (run l ops)) - last_refill (state l)) * hard_bytes_per_second cfg) d
         (state l) (counters l) (state (run l ops)) (counters (run l ops)).
Proof.
  revert l. induction ops as [|op ops IH]; intros l Hok Hty Hm Hcfg Hclk; simpl.
  { exists 0. rewrite Z.sub_diag. apply spent_refl, Hok. }
  apply Forall_cons in Hty as [Hop Hty]. apply Forall_cons in Hm as [Hmo Hm].
  destruct (exec_spent l op cfg Hok Hop Hmo Hcfg) as (d & Hd & Hl).
  { intros now Hnow. simpl in Hclk. rewrite Hnow in Hclk. apply Hclk. }
  destruct (IH (exec l op)) as [e He]; [by apply exec_ok|done|done| | |].
  - by rewrite (sp_config _ _ _ _ _ _ Hd).
  - rewrite Hl. simpl in Hclk. destruct (op_time op); [by destruct Hclk|done].
  - exists (d + e). pose proof (spent_trans _ _ _ _ _ _ _ _ _ _ Hd He) as Hs.
    destruct Hs. split; try done. fold (run (exec l op) ops). lia.
Qed.
(** ** Fairness of displacement *)

(** Pending intents of a class held by a peer. *)
Definition of_peer (class : RecoveryClass) (p : Id) (item : RecoveryIntentKey * Intent) : Prop :=
  class_pending class item.2 = true ∧ key_peer item.1 = p.

#[global] Instance of_peer_dec (class : RecoveryClass) (p : Id) item : Decision (of_peer class p item).
Proof. unfold of_peer. apply _. Defined.

Definition peer_load (m : gmap RecoveryIntentKey Intent) (class : RecoveryClass) (p : Id) : Z :=
  map_count (of_peer class p) m.

Lemma count_hiter (P : RecoveryIntentKey * Intent → Prop) `{!∀ x, Decision (P x)}
    (m : gmap RecoveryIntentKey Intent) :
  Z.of_nat (length (filter P (hiter m))) = map_count P m.
Proof.
  unfold map_count. f_equal. rewrite (hiter_perm m), map_filter_alt.
  symmetry. apply map_size_list_to_map. eapply NoDup_fmap_fst.
  - intros k x y Hx%list_elem_of_filter Hy%list_elem_of_filter.
    destruct Hx as [_ Hx], Hy as [_ Hy]. apply elem_of_map_to_list in Hx, Hy. congruence.
  - apply NoDup_filter, NoDup_map_to_list.
Qed.

Lemma pending_per_peer_fold (class : RecoveryClass) (l : list (RecoveryIntentKey * Intent)) (acc : gmap Id Z) (p : Id) :
  default 0 (foldl (λ per_peer item,
      if class_pending class item.2
      then <[key_peer item.1 := default 0 (per_peer !! key_peer item.1) + 1]> per_peer
      else per_peer) acc l !! p) =
  default 0 (acc !! p) + Z.of_nat (length (filter (of_peer class p) l)).
Proof.
  revert acc. induction l as [|[k i] l IH]; intros acc; [simpl; lia|].
  cbn [foldl]. rewrite IH, filter_cons. cbn [fst snd].
  destruct (class_pending class i) eqn:E.
  - rewrite lookup_insert. destruct (decide (key_peer k = p)) as [<-|Hne].
    + rewrite decide_True by done. simpl. lia.
    + rewrite decide_False; [done|]. intros [_ ?]. done.
  - rewrite decide_False; [done|]. intros [? _]. simpl in *. congruence.
Qed.

Lemma pending_per_peer_spec (s : State) (class : RecoveryClass) (p : Id) :
  default 0 (pending_per_peer s class !! p) = peer_load (intents s) class p.
Proof.
  unfold pending_per_peer, peer_load. rewrite pending_per_peer_fold, count_hiter.
  by rewrite lookup_empty.
Qed.

Lemma peer_load_le (s : State) (class : RecoveryClass) (p : Id) :
  inv s → peer_load (intents s) class p < U64_MAX.
Proof.
  intros Hinv. pose proof (inv_caps s Hinv) as [Ho Hc].
  assert (peer_load (intents s) class p ≤ count_class s class) as Hle.
  { rewrite count_class_def. apply map_count_mono. intros [k i] [Hcp _].
    by apply class_pending_spec in Hcp as [? _]. }
  unfold ORDINARY_MAX_INTENTS, DEFAULT_MAX_INTENTS, CRITICAL_MAX_INTENTS, U64_MAX in *.
  destruct class; lia.
Qed.

(** ** Properties *)

(** Every state the limiter reaches from [disabled], by any sequence of
    reservations, cancellations, reconfigurations and accounting calls with
    [u64] arguments, satisfies its invariant: the buckets stay within the
    burst, no intent is charged beyond its size, at most 960 ordinary and 64
    critical intents are held, the scope rotation lists exactly the scopes
    with pending ordinary intents, and the lock-free flags agree with the
    configuration. *)
Theorem egress_invariant (t0 : Z) (ops : list Op) :
  Forall op_typed ops → limiter_ok (run (disabled t0) ops).
Proof. intros Hty. apply run_ok; [apply disabled_ok|done]. Qed.

(** The recovery charging loop always terminates, and leaves either an
    empty bucket or no unpaid intent; every byte it takes from the bucket is
    counted as charged. *)
Theorem charging_terminates (s : State) (c : EgressCounters) :
  inv s → u64 (charged_bytes c) →
  ∃ s' c', loop_pow 66 charge_step (s, c) = inr (s', c') ∧
    charge_ready_recovery s c = (s', c') ∧
    (tokens s' = 0 ∨ map_Forall (λ _ i, pending i = false) (intents s')) ∧
    ∃ d, 0 ≤ d ∧ tokens s' = tokens s - d ∧
      charged_bytes c' = u64_wrap (charged_bytes c + d).
Proof.
  intros Hinv Hu. destruct (charge_loop_exits s c Hinv Hu) as (s' & c' & Heq & _ & [d Hd] & Hdone).
  exists s', c'. split_and!; [done|by unfold charge_ready_recovery; rewrite Heq|done|].
  exists d. by destruct Hd.
Qed.

(** C20. The byte budget holds, to the fraction of a byte: over any run of
    reservations, recoveries, cancellations and accounting with clock readings
    that do not run backwards, the bytes charged plus what the bucket holds at
    the end are at most what it held at the start plus the hard rate times the
    elapsed time -- whole tokens together with the remainder the bucket carries
    from one refill to the next, in billionths of a byte, with no slack.  So
    from a bucket that carries no fraction (a configured one does not) the bytes
    charged are at most the initial tokens plus the rate times the elapsed time,
    rounded down. *)
Theorem egress_budget (l : LeafEgressLimiter) (cfg : LeafEgressConfig) (ops : list Op) :
  limiter_ok l → config (state l) = Some cfg →
  Forall op_typed ops → Forall (λ op, metered op = true) ops →
  clocked (last_refill (state l)) ops →
  let l' := run l ops in
  let earned := hard_bytes_per_second cfg * (last_refill (state l') - last_refill (state l)) in
  ∃ d, 0 ≤ d ∧ charged_bytes (counters l') = u64_wrap (charged_bytes (counters l) + d) ∧
    (d + tokens (state l')) * NANOS_PER_SEC + remainder (state l') ≤ tokens (state l) * NANOS_PER_SEC + remainder (state l) + earned ∧
    (remainder (state l) = 0 → d + tokens (state l') ≤ tokens (state l) + earned / NANOS_PER_SEC).
Proof.
  intros Hok Hcfg Hty Hm Hclk l' earned. destruct (run_spent ops l cfg Hok Hty Hm Hcfg Hclk) as [d Hd].
  fold l' in Hd. destruct Hd as [Hn _ _ Hc Hl].
  pose proof (inv_rem _ (lim_inv _ (run_ok ops l Hok Hty))) as [Hr _]. fold l' in Hr.
  assert ((d + tokens (state l')) * NANOS_PER_SEC + remainder (state l') ≤ tokens (state l) * NANOS_PER_SEC + remainder (state l) + earned) as Hb
    by (unfold ledger in Hl; subst earned; lia).
  exists d. split_and!; [done..|]. intros Hz.
  assert (d + tokens (state l') - tokens (state l) ≤ earned / NANOS_PER_SEC); [|lia].
  apply Z.div_le_lower_bound; [done|lia].
Qed.

(** Data never spends the recovery escrow: a granted data reservation
    carries its key and the current generation, fits the frame limit, takes
    exactly its bytes from the refilled bucket and leaves at least the
    recovery reserve, which lies between a quarter and a half of the burst
    (rounded down). *)
Theorem data_respects_escrow (l : LeafEgressLimiter) (key : RecoveryIntentKey) (bytes : Z)
    (relayed : bool) (now : Z) (r : ByteReservation) :
  limiter_ok l → u64 bytes →
  (try_reserve_data_at l key bytes relayed now).2 = Ok r →
  let s1 := (refill (state l) (counters l) now).1 in
  let l' := (try_reserve_data_at l key bytes relayed now).1 in
  r = mkReservation key (generation (state l)) ∧
  ∃ cfg, config s1 = Some cfg ∧ bytes ≤ max_serialized_frame_bytes cfg ∧
    tokens (state l') = tokens s1 - bytes ∧
    recovery_reserve s1 cfg ≤ tokens (state l') ∧
    recovery_reserve s1 cfg ≤ Z.max (u64_sat_mul (burst_bytes cfg) 25 / 100)
                                    (u64_sat_mul (burst_bytes cfg) 50 / 100) ∧
    u64_sat_mul (burst_bytes cfg) 25 / 100 ≤ recovery_reserve s1 cfg.
Proof.
  intros [Hi Hc _] Hb Hr s1 l'.
  pose proof (try_reserve_data_effect l key bytes relayed now Hi Hc ltac:(unfold u64 in Hb; lia)) as He.
  subst s1 l'. destruct (try_reserve_data_at l key bytes relayed now) as [l' res]. simpl in Hr. subst res.
  destruct He as (_ & _ & _ & _ & -> & cfg & Hcfg & Hfit & Ht & _ & Hres & _). split; [done|].
  exists cfg. split_and!; [done..| |]; unfold recovery_reserve, RECOVERY_RESERVE_PERCENT,
    RECOVERY_RESERVE_MAX_PERCENT; lia.
Qed.

(** Displacement is fair and cannot be undone in kind: a victim is a
    pending intent of the same class, of a peer with the most pending intents
    of the class, which holds at least two more than the newcomer's peer; it
    is the only intent removed, and after the newcomer registers the victim's
    peer is not entitled to displace it back. *)
Theorem displacement_fair (s : State) (c : EgressCounters) (class : RecoveryClass)
    (key : RecoveryIntentKey) (s' : State) (c' : EgressCounters) :
  inv s → displace_intent_for_fair_admission s c class key = (s', c', true) →
  ∃ victim i,
    intents s !! victim = Some i ∧ class_pending class i = true ∧
    intents s' = delete victim (intents s) ∧
    (∀ p, peer_load (intents s) class p ≤ peer_load (intents s) class (key_peer victim)) ∧
    peer_load (intents s) class (key_peer key) + 1 < peer_load (intents s) class (key_peer victim) ∧
    ¬ (peer_load (intents s') class (key_peer victim) + 1
       < peer_load (intents s') class (key_peer key) + 1).
Proof.
  intros Hinv Hd. pose proof (displace_effect s c class key Hinv) as He. rewrite Hd in He.
  destruct He as (_ & _ & victim & i & Hk & Hc & Hv & Hint).
  apply fairness_victim_spec in Hv as (n & j & Hj & _ & Hn & Hmax & Hlt).
  pose proof (pending_per_peer_spec s class (key_peer victim)) as Hvl. rewrite Hn in Hvl. simpl in Hvl.
  rewrite pending_per_peer_spec in Hlt. pose proof (peer_load_le s class (key_peer key) Hinv).
  unfold u64_sat_add in Hlt. rewrite Z.min_r in Hlt by lia.
  exists victim, i. split_and!; [done|done|done| |lia|].
  - intros p. rewrite <-Hvl, <-pending_per_peer_spec.
    destruct (pending_per_peer s class !! p) as [m|] eqn:E; simpl; [by apply (Hmax p)|].
    pose proof (map_count_nonneg (of_peer class (key_peer victim)) (intents s)).
    unfold peer_load in *. lia.
  - assert (∀ p, peer_load (intents s') class p =
      peer_load (intents s) class p - if decide (key_peer victim = p) then 1 else 0) as Hl.
    { intros p. unfold peer_load. rewrite Hint, (map_count_delete _ (intents s) victim i Hk).
      repeat case_decide; unfold of_peer in *; simpl in *; try lia; naive_solver. }
    rewrite !Hl, decide_True by done. case_decide; [|lia]. congruence || lia.
Qed.

(** The fence admits a reservation exactly while the configuration it was
    minted under is in force: a granted reservation passes for its own key,
    and no reservation of an earlier generation passes after a
    reconfiguration that changed the policy. *)
Theorem fence_generation (l : LeafEgressLimiter) (key : RecoveryIntentKey) (r : ByteReservation)
    (cfg : LeafEgressConfig) (now : Z) :
  limiter_ok l → is_Some (config (state l)) → typed_config cfg → u64 (generation (state l)) →
  r = mkReservation key (generation (state l)) →
  (validate_reservation l (Some key) (Some r)).2 = true ∧
  (∀ key', key' ≠ key → (validate_reservation l (Some key') (Some r)).2 = false) ∧
  (validate cfg = Some cfg → config (state l) ≠ Some cfg →
   (configure l (Some cfg) now).2 = true ∧
   (validate_reservation (configure l (Some cfg) now).1 (Some key) (Some r)).2 = false).
Proof.
  intros Hok [cfg0 Hc0] Hty Hg ->. pose proof (lim_flags _ Hok) as [Hen _].
  rewrite Hc0, bool_decide_eq_true_2 in Hen by by eexists.
  split_and!.
  - unfold validate_reservation. rewrite Hen, Hc0. simpl. unfold matches. simpl.
    by rewrite !bool_decide_eq_true_2.
  - intros key' Hne. unfold validate_reservation. rewrite Hen, Hc0. simpl. unfold matches. simpl.
    by rewrite (bool_decide_eq_false_2 (key = key')) by congruence.
  - intros Hval Hne. pose proof (configure_effect l (Some cfg) now Hok) as Hok'.
    destruct (lim_flags _ (Hok' ltac:(by intros ? [= <-]))) as [Hen' _]. revert Hen'.
    assert (hard_bytes_per_second cfg ≠ 0) as Hh.
    { destruct (validate_ok cfg cfg Hty Hval) as [_ [? _ _ _]]. lia. }
    unfold configure. rewrite decide_False by done. rewrite Hval. simpl.
    rewrite decide_False by done. simpl. intros Hen'. split; [done|].
    unfold validate_reservation. rewrite Hen'. simpl. unfold matches. simpl.
    rewrite (bool_decide_eq_false_2 (generation (state l) = _)); [by rewrite andb_false_r|].
    unfold u64_add, u64_wrap, u64, U64_MAX in *.
    destruct (decide (generation (state l) = 18446744073709551615)) as [->|].
    + by vm_compute.
    + rewrite Z.mod_small by lia. lia.
Qed.

End Charging.
End EgressProps.

(** ** Witnesses *)

Module EgressWitness.
Import EgressProps.
#[local] Instance intent_iter : HashIter RecoveryIntentKey Intent := canonical_iter.
#[local] Instance peer_iter : HashIter Id Z := canonical_iter.

Definition cfg : LeafEgressConfig := mkConfig 0 1000 200 100 ShedNormal.
Definition cfg' : LeafEgressConfig := mkConfig 0 2000 200 100 ShedNormal.
Definition key (peer op : Z) : RecoveryIntentKey := mkKey [peer] [7] [peer; op] [op].

(** A flood from peer 1 against a bucket of 200 bytes: the first two frames
    are paid at once, the other three wait. *)
Definition flood : list Op :=
  [OpConfigure (Some cfg) 0;
   OpRecovery (key 1 1) 100 1 0 Ordinary; OpRecovery (key 1 2) 100 1 0 Ordinary;
   OpRecovery (key 1 3) 100 1 0 Ordinary; OpRecovery (key 1 4) 100 1 0 Ordinary;
   OpRecovery (key 1 5) 100 1 0 Ordinary].

Definition l0 : LeafEgressLimiter := run (disabled 0) (take 1 flood).
Definition flooded : LeafEgressLimiter := run (disabled 0) flood.

Lemma flood_typed : Forall op_typed flood.
Proof. repeat (apply Forall_cons_2; [by repeat split; vm_compute|]). apply Forall_nil_2. Qed.

Lemma l0_ok : limiter_ok l0.
Proof. apply run_ok; [apply disabled_ok|]. apply Forall_take, flood_typed. Qed.

Lemma flooded_ok : limiter_ok flooded.
Proof. apply run_ok; [apply disabled_ok|apply flood_typed]. Qed.

Lemma egress_invariant_witness :
  limiter_ok (run (disabled 0) flood) ∧ size (intents (state (run (disabled 0) flood))) = 3%nat.
Proof. split; [apply (egress_invariant 0 flood), flood_typed|by vm_compute]. Defined.

Lemma charging_terminates_witness :
  ∃ s' c', charge_ready_recovery (set_tokens 50 (state flooded)) counters_default = (s', c').
Proof.
  assert (inv (set_tokens 50 (state flooded))) as Hinv.
  { apply (tokens_inv (state flooded) 50 (lim_inv _ flooded_ok)). by repeat split; vm_compute. }
  destruct (charging_terminates (set_tokens 50 (state flooded)) counters_default Hinv)
    as (s' & c' & _ & Heq & _); [by repeat split; vm_compute|].
  exists s', c'. exact Heq.
Defined.

Lemma egress_budget_witness :
  let l' := run l0 (drop 1 flood) in
  let earned := hard_bytes_per_second cfg * (last_refill (state l') - last_refill (state l0)) in
  ∃ d, 0 ≤ d ∧ charged_bytes (counters l') = u64_wrap (charged_bytes (counters l0) + d) ∧
    (d + tokens (state l')) * NANOS_PER_SEC + remainder (state l') ≤ tokens (state l0) * NANOS_PER_SEC + remainder (state l0) + earned ∧
    (remainder (state l0) = 0 → d + tokens (state l') ≤ tokens (state l0) + earned / NANOS_PER_SEC).
Proof.
  apply (egress_budget l0 cfg (drop 1 flood)).
  - apply l0_ok.
  - by vm_compute.
  - apply Forall_drop, flood_typed.
  - repeat (apply Forall_cons_2; [done|]). apply Forall_nil_2.
  - by repeat split; vm_compute.
Defined.

Lemma data_respects_escrow_witness :
  ∃ c, config (refill (state l0) (counters l0) 0).1 = Some c ∧
    recovery_reserve (refill (state l0) (counters l0) 0).1 c
    ≤ tokens (state (try_reserve_data_at l0 (key 2 1) 100 false 0).1).
Proof.
  destruct (data_respects_escrow l0 (key 2 1) 100 false 0 (mkReservation (key 2 1) 1))
    as (_ & c & Hc & _ & _ & Hr & _).
  - apply l0_ok.
  - by repeat split; vm_compute.
  - by vm_compute.
  - exists c. split; [exact Hc|exact Hr].
Defined.

Lemma displacement_fair_witness :
  ∃ s' c' victim,
    displace_intent_for_fair_admission (state flooded) (counters flooded) Ordinary (key 2 1)
      = (s', c', true) ∧
    intents s' = delete victim (intents (state flooded)) ∧
    peer_load (intents (state flooded)) Ordinary [2] + 1
      < peer_load (intents (state flooded)) Ordinary (key_peer victim).
Proof.
  destruct (displace_intent_for_fair_admission (state flooded) (counters flooded) Ordinary (key 2 1))
    as [[s' c'] adm] eqn:E.
  assert (adm = true) as ->.
  { assert ((displace_intent_for_fair_admission (state flooded) (counters flooded) Ordinary (key 2 1)).2
            = true) as Ht by by vm_compute. by rewrite E in Ht. }
  destruct (displacement_fair _ _ _ _ s' c' (lim_inv _ flooded_ok) E)
    as (victim & i & _ & _ & Hint & _ & Hlt & _).
  exists s', c', victim. split_and!; [reflexivity|exact Hint|exact Hlt].
Defined.

Lemma fence_generation_witness :
  (validate_reservation l0 (Some (key 1 1)) (Some (mkReservation (key 1 1) 1))).2 = true ∧
  (validate_reservation (configure l0 (Some cfg') 5).1 (Some (key 1 1))
     (Some (mkReservation (key 1 1) 1))).2 = false.
Proof.
  destruct (fence_generation l0 (key 1 1) (mkReservation (key 1 1) 1) cfg' 5) as (H1 & _ & H2).
  - apply l0_ok.
  - by eexists.
  - by repeat split; vm_compute.
  - by repeat split; vm_compute.
  - by vm_compute.
  - split; [exact H1|]. apply H2; by vm_compute.
Defined.

(** [try_reserve_data] reads the clock before it takes the state lock, so two
    callers can refill with readings out of order.  [last_refill] then moves
    back and the next refill credits the interval again: at 1000 bytes per
    second, 4000 bytes in three seconds. *)
Lemma refill_out_of_order :
  let big := mkConfig 0 1000 10000 1000 ObserveOnly in
  let s := set_tokens 0 (state (configure (disabled 0) (Some big) 0).1) in
  let '(s1, c1) := refill s counters_default (2 * NANOS_PER_SEC) in
  let '(s2, c2) := refill s1 c1 (1 * NANOS_PER_SEC) in
  let '(s3, _) := refill s2 c2 (3 * NANOS_PER_SEC) in
  tokens s3 = 4000.
Proof. by vm_compute. Qed.
End EgressWitness.
