(* ===== verification/MembershipWire.v ===== *)
(** * Membership messages and transport
      ([crates/membership/src/lib.rs], message enums and constants)

    The messages that SWIM and HyParView exchange on the [Membership] stream,
    the protocol constants, and the interfaces to code outside the crate: the
    postcard codec and the transport ([GossipTransport]), and the [rand]
    crate's [choose_multiple].  Every send attempt is appended to a log, so
    that the handlers' outputs can be stated. *)

From S2P Require Import Prelude Types.

#[local] Open Scope Z_scope.

(** ** Constants *)

Definition DEFAULT_ACTIVE_DEGREE : Z := 8.
Definition MAX_ACTIVE_DEGREE : Z := 12.
Definition DEFAULT_PASSIVE_DEGREE : Z := 64.
Definition MAX_PASSIVE_DEGREE : Z := 128.
Definition SHUFFLE_PERIOD_SECS : Z := 30.
Definition SWIM_PROBE_INTERVAL_SECS : Z := 1.
Definition SWIM_SUSPECT_TIMEOUT_SECS : Z := 3.
Definition SWIM_PROBE_FANOUT : Z := 3.
Definition SWIM_INDIRECT_PROBE_FANOUT : Z := 3.
Definition SWIM_ACK_TIMEOUT_MS : Z := 500.
Definition ACTIVE_RANDOM_WALK_LENGTH : nat := 6.
Definition PASSIVE_RANDOM_WALK_LENGTH : nat := 3.
Definition SHUFFLE_ACTIVE_SIZE : Z := 3.
Definition SHUFFLE_PASSIVE_SIZE : Z := 4.

(** [Duration::from_millis], [Duration::from_secs] in nanoseconds. *)
Definition from_millis (ms : Z) : Z := ms * NANOS_PER_MILLI.
Definition from_secs (s : Z) : Z := s * NANOS_PER_SEC.

(** ** Messages *)

Inductive SwimMessage :=
| Ping
| Ack
| PingReq (target requester : PeerId)
| AckResponse (target requester : PeerId).

Inductive NeighborPriority := High | Low.
#[global] Instance NeighborPriority_eq_dec : EqDecision NeighborPriority.
Proof. solve_decision. Defined.

(** A [usize] time-to-live is a [nat]: the handlers decrement it only when it
    is positive. *)
Inductive HyParViewMessage :=
| Join (sender : PeerId) (ttl : nat)
| ForwardJoin (sender new_peer : PeerId) (ttl : nat)
| Neighbor (sender : PeerId) (priority : NeighborPriority)
| NeighborReply (accepted : bool)
| Shuffle (sender : PeerId) (peers : list PeerId) (ttl : nat)
| ShuffleReply (peers : list PeerId)
| Disconnect.

Inductive MembershipProtocolMessage :=
| HyParView (m : HyParViewMessage)
| Swim (m : SwimMessage).

#[global] Instance SwimMessage_eq_dec : EqDecision SwimMessage.
Proof. solve_decision. Defined.
#[global] Instance HyParViewMessage_eq_dec : EqDecision HyParViewMessage.
Proof. solve_decision. Defined.
#[global] Instance MembershipProtocolMessage_eq_dec : EqDecision MembershipProtocolMessage.
Proof. solve_decision. Defined.

(** ** Interfaces *)

(** The attempts to send, oldest first. *)
Notation Wire := (list (PeerId * list Z)).

(** The codec and the transport: the outcome of an attempt can depend on
    everything that was attempted before. *)
Class Transport := {
  to_stdvec : MembershipProtocolMessage → result (list Z) string;
  from_bytes : list Z → result MembershipProtocolMessage string;
  send_to_peer : Wire → PeerId → list Z → result () string;
}.

(** [SliceRandom::choose_multiple]: [amount] distinct positions of the slice,
    or all of them; the first argument is the generator's entropy. *)
Class SliceRandom := {
  choose_multiple : Z → list PeerId → nat → list PeerId;
  choose_multiple_length s l n : length (choose_multiple s l n) = Nat.min n (length l);
  choose_multiple_sub s l n : ∃ rest, l ≡ₚ choose_multiple s l n ++ rest;
}.

Definition canonical_choice : SliceRandom.
Proof.
  refine {| choose_multiple _ l n := take n l |}.
  - intros. apply length_take.
  - intros _ l n. exists (drop n l). by rewrite take_drop.
Defined.

(** ** Sending *)

Section Send.
Context `{!Transport}.

(** Serialize, then hand to the transport; both failures are the caller's
    [Err]. *)
Definition send (w : Wire) (peer : PeerId) (m : MembershipProtocolMessage) : Wire * result () string :=
  match to_stdvec m with
  | Ok bytes => (w ++ [(peer, bytes)], send_to_peer w peer bytes)
  | Err e => (w, Err e)
  end.

(** A loop that sends to each peer and only logs failures. *)
Definition send_best_effort (w : Wire) (peers : list PeerId) (m : MembershipProtocolMessage) : Wire :=
  foldl (λ w peer, (send w peer m).1) w peers.

(** A loop that sends a message to each peer and returns at the first failure
    (the [?] operator). *)
Fixpoint send_each (w : Wire) (peers : list PeerId) (m : PeerId → MembershipProtocolMessage) : Wire * result () string :=
  match peers with
  | [] => (w, Ok ())
  | peer :: rest =>
      match send w peer (m peer) with
      | (w', Ok _) => send_each w' rest m
      | (w', Err e) => (w', Err e)
      end
  end.

(** Messages the codec can encode, with their encoding. *)
Definition encodes (m : MembershipProtocolMessage) (bytes : list Z) : Prop := to_stdvec m = Ok bytes.

Lemma send_encoded (w : Wire) (peer : PeerId) (m : MembershipProtocolMessage) (bytes : list Z) :
  encodes m bytes → send w peer m = (w ++ [(peer, bytes)], send_to_peer w peer bytes).
Proof. unfold send. by intros ->. Qed.

Lemma send_best_effort_wire (w : Wire) (peers : list PeerId) (m : MembershipProtocolMessage) (bytes : list Z) :
  encodes m bytes → send_best_effort w peers m = w ++ ((λ p, (p, bytes)) <$> peers).
Proof.
  intros Hm. unfold send_best_effort. revert w. induction peers as [|p ps IH]; intros w; simpl.
  - by rewrite app_nil_r.
  - rewrite IH, (send_encoded _ _ _ _ Hm). simpl. by rewrite <-app_assoc.
Qed.

(** [send_each] attempts a prefix of the peers: all of them on success; on
    failure the last attempted one is the one that failed. *)
Lemma send_each_wire (w : Wire) (peers : list PeerId) (m : PeerId → MembershipProtocolMessage) (enc : PeerId → list Z) :
  (∀ p, p ∈ peers → encodes (m p) (enc p)) →
  ∃ done rest, peers = done ++ rest ∧
    (send_each w peers m).1 = w ++ ((λ p, (p, enc p)) <$> done) ∧
    match (send_each w peers m).2 with
    | Ok _ => rest = []
    | Err e => ∃ init bad, done = init ++ [bad] ∧
        send_to_peer (w ++ ((λ p, (p, enc p)) <$> init)) bad (enc bad) = Err e
    end.
Proof.
  revert w. induction peers as [|p ps IH]; intros w Henc; simpl.
  - exists [], []. split; [done|]. simpl. by rewrite app_nil_r.
  - rewrite (send_encoded _ _ _ (enc p)) by (apply Henc; by left).
    destruct (send_to_peer w p (enc p)) as [[]|e] eqn:Hs.
    + destruct (IH (w ++ [(p, enc p)])) as (done & rest & -> & Hw & Hr).
      { intros q Hq. apply Henc. by right. }
      exists (p :: done), rest. split; [done|]. split; [by rewrite Hw, <-app_assoc|].
      destruct (send_each _ _ _).2 as [|e]; [done|].
      destruct Hr as (init & bad & -> & Hbad). exists (p :: init), bad. split; [done|].
      by rewrite <-app_assoc in Hbad.
    + exists [p], ps. split; [done|]. split; [done|]. exists [], p. split; [done|].
      simpl. by rewrite app_nil_r.
Qed.

Lemma send_each_all (w : Wire) (peers : list PeerId) (m : PeerId → MembershipProtocolMessage) (enc : PeerId → list Z) :
  (∀ p, p ∈ peers → encodes (m p) (enc p)) →
  (∀ v p b, send_to_peer v p b = Ok ()) →
  send_each w peers m = (w ++ ((λ p, (p, enc p)) <$> peers), Ok ()).
Proof.
  intros Henc Hok. destruct (send_each_wire w peers m enc Henc) as (done & rest & -> & Hw & Hr).
  destruct (send_each w (done ++ rest) m) as [w' [[]|e]]; simpl in *.
  - by rewrite Hw, Hr, app_nil_r.
  - destruct Hr as (init & bad & _ & Hbad). by rewrite Hok in Hbad.
Qed.
End Send.

Lemma choose_multiple_elem `{!SliceRandom} (s : Z) (l : list PeerId) (n : nat) (p : PeerId) :
  p ∈ choose_multiple s l n → p ∈ l.
Proof. intros Hp. destruct (choose_multiple_sub s l n) as [rest Hl]. rewrite Hl. apply elem_of_app. by left. Qed.

Lemma choose_multiple_NoDup `{!SliceRandom} (s : Z) (l : list PeerId) (n : nat) :
  NoDup l → NoDup (choose_multiple s l n).
Proof.
  intros Hnd. destruct (choose_multiple_sub s l n) as [rest Hl].
  rewrite Hl in Hnd at 1. by apply NoDup_app in Hnd as [? _].
Qed.

#[export] Hint Resolve choose_multiple_elem choose_multiple_NoDup : gossip.
