(* ===== verification/Swim.v ===== *)
(** * SWIM failure detection ([crates/membership/src/lib.rs], [SwimDetector])

    The detector keeps three tables behind locks: the peers' states, the
    direct probes in flight, and the indirect probes it relays for others.
    Every method is a definition on the detector; a handler that reads the
    clock several times takes its readings as arguments.

    The three background tasks and the ACK handlers release every lock at
    each [await].  [Sys] adds their program points to the detector, and
    [step] runs one critical section of one of them, in any order and
    interleaved with every other method. *)

From S2P Require Import Prelude Types MembershipWire.

#[local] Open Scope Z_scope.

Module Swim.

(** ** Data *)

Inductive PeerState := Alive | Suspect | Dead.
#[global] Instance PeerState_eq_dec : EqDecision PeerState.
Proof. solve_decision. Defined.

Record SwimPeerEntry := mkEntry {
  state : PeerState;
  last_update : Z;
}.

Record SwimDetector := mkDetector {
  self_peer_id : PeerId;
  states : gmap PeerId SwimPeerEntry;
  pending_probes : gmap PeerId Z;
  pending_indirect_probes : gmap (PeerId * PeerId) Z;
  probe_period : Z;
  suspect_timeout : Z;
  probe_fanout : Z;
}.

Definition set_states (d : SwimDetector) (st : gmap PeerId SwimPeerEntry) : SwimDetector :=
  mkDetector (self_peer_id d) st (pending_probes d) (pending_indirect_probes d)
    (probe_period d) (suspect_timeout d) (probe_fanout d).
Definition set_pending (d : SwimDetector) (pending : gmap PeerId Z) : SwimDetector :=
  mkDetector (self_peer_id d) (states d) pending (pending_indirect_probes d)
    (probe_period d) (suspect_timeout d) (probe_fanout d).
Definition set_indirect (d : SwimDetector) (indirect : gmap (PeerId * PeerId) Z) : SwimDetector :=
  mkDetector (self_peer_id d) (states d) (pending_probes d) indirect
    (probe_period d) (suspect_timeout d) (probe_fanout d).

Definition new (self_peer_id : PeerId) (probe_period suspect_timeout probe_fanout : Z) : SwimDetector :=
  mkDetector self_peer_id ∅ ∅ ∅ probe_period suspect_timeout probe_fanout.

(** ** Peer states *)

Definition set_alive (st : gmap PeerId SwimPeerEntry) (peer : PeerId) (now : Z) : gmap PeerId SwimPeerEntry :=
  <[peer := mkEntry Alive now]> st.

Definition mark_alive (d : SwimDetector) (peer : PeerId) (now : Z) : SwimDetector :=
  set_states d (set_alive (states d) peer now).

(** The table after an Alive peer became Suspect; other peers stay. *)
Definition suspect_entry (st : gmap PeerId SwimPeerEntry) (peer : PeerId) (now : Z) : gmap PeerId SwimPeerEntry :=
  match st !! peer with
  | Some entry =>
      if decide (state entry = Alive) then <[peer := mkEntry Suspect now]> st else st
  | None => st
  end.

Definition mark_suspect (d : SwimDetector) (peer : PeerId) (now : Z) : SwimDetector :=
  set_states d (suspect_entry (states d) peer now).

Definition mark_dead (d : SwimDetector) (peer : PeerId) (now : Z) : SwimDetector :=
  set_states d (<[peer := mkEntry Dead now]> (states d)).

Definition get_state (d : SwimDetector) (peer : PeerId) : option PeerState :=
  state <$> states d !! peer.

Definition remove_peer (d : SwimDetector) (peer : PeerId) : SwimDetector :=
  set_states d (delete peer (states d)).

(** ** Direct probes *)

Definition record_probe (d : SwimDetector) (peer : PeerId) (now : Z) : SwimDetector :=
  set_pending d (<[peer := now]> (pending_probes d)).

Definition clear_probe (d : SwimDetector) (peer : PeerId) : SwimDetector * bool :=
  (set_pending d (delete peer (pending_probes d)), bool_decide (is_Some (pending_probes d !! peer))).

(** [pending.entry(peer).or_insert_with(Instant::now)] of the probe task. *)
Definition record_probe_if_absent (d : SwimDetector) (peer : PeerId) (now : Z) : SwimDetector :=
  match pending_probes d !! peer with
  | Some _ => d
  | None => record_probe d peer now
  end.

(** A probe or request made at [t] is too old at [now]. *)
Definition timed_out (now t : Z) : Prop := elapsed_ns now t >= from_millis SWIM_ACK_TIMEOUT_MS.
#[global] Instance timed_out_dec now t : Decision (timed_out now t).
Proof. unfold timed_out, Z.ge. solve_decision. Defined.

(** ** Indirect probes *)

Definition record_indirect_probe_request (d : SwimDetector) (requester target : PeerId) (now : Z) : SwimDetector :=
  set_indirect d (<[(target, requester) := now]>
    (filter (λ kt, ¬ timed_out now kt.2) (pending_indirect_probes d))).

Definition clear_indirect_probe_request (d : SwimDetector) (requester target : PeerId) : SwimDetector :=
  set_indirect d (delete (target, requester) (pending_indirect_probes d)).

(** [health_of] of the oracle that pub-sub consults. *)
Definition health (st : PeerState) : PeerHealth :=
  match st with
  | Alive => HealthAlive
  | Suspect => HealthSuspect
  | Dead => HealthDead
  end.

#[export] Instance swim_oracle : PeerHealthOracle SwimDetector := {
  health_of d peer := health <$> get_state d peer;
}.

Section Swim.
Context `{!Transport} `{!SliceRandom}.
Context `{!HashIter PeerId SwimPeerEntry} `{!HashIter PeerId Z} `{!HashIter (PeerId * PeerId) Z}.

Definition get_peers_in_state (d : SwimDetector) (s : PeerState) : list PeerId :=
  (filter (λ pe, state pe.2 = s) (hiter (states d))).*1.

(** The retain closure pushes the requesters in the order in which it visits
    the table. *)
Definition take_indirect_probe_requesters (d : SwimDetector) (target : PeerId) (now : Z) : SwimDetector * list PeerId :=
  (set_indirect d (filter (λ kt, kt.1.1 ≠ target ∧ ¬ timed_out now kt.2) (pending_indirect_probes d)),
   (λ kt, kt.1.2) <$> filter (λ kt, kt.1.1 = target ∧ ¬ timed_out now kt.2)
     (hiter (pending_indirect_probes d))).

(** ** Message handlers *)

Definition handle_ping (d : SwimDetector) (w : Wire) (sender : PeerId) (now : Z) : SwimDetector * Wire * result () string :=
  let d := mark_alive d sender now in
  let '(w, r) := send w sender (MembershipWire.Swim Ack) in
  (d, w, r).

Definition ack_response (target requester : PeerId) : MembershipProtocolMessage :=
  MembershipWire.Swim (AckResponse target requester).

Definition handle_ack (d : SwimDetector) (w : Wire) (sender : PeerId) (now_alive now_take : Z) : SwimDetector * Wire * result () string :=
  let d := (clear_probe d sender).1 in
  let d := mark_alive d sender now_alive in
  let '(d, indirect_requesters) := take_indirect_probe_requesters d sender now_take in
  let '(w, r) := send_each w indirect_requesters (ack_response sender) in
  (d, w, r).

(** The Alive peers that can probe [target] for this node. *)
Definition alive_peers_except (d : SwimDetector) (target : PeerId) : list PeerId :=
  (filter (λ pe, state pe.2 = Alive ∧ pe.1 ≠ target ∧ pe.1 ≠ self_peer_id d) (hiter (states d))).*1.

Definition request_indirect_probes (d : SwimDetector) (w : Wire) (target : PeerId) (seed : Z) : Wire * result () string :=
  let alive_peers := alive_peers_except d target in
  if decide (alive_peers = []) then (w, Ok ())
  else
    let probe_count := Nat.min (Z.to_nat SWIM_INDIRECT_PROBE_FANOUT) (length alive_peers) in
    let peers_to_ask := choose_multiple seed alive_peers probe_count in
    (send_best_effort w peers_to_ask (MembershipWire.Swim (PingReq target (self_peer_id d))), Ok ()).

Definition handle_ping_req (d : SwimDetector) (w : Wire) (requester target : PeerId) (now : Z) : SwimDetector * Wire * result () string :=
  let d := record_indirect_probe_request d requester target now in
  match to_stdvec (MembershipWire.Swim Ping) with
  | Err e => (d, w, Err e)
  | Ok bytes =>
      match send_to_peer w target bytes with
      | Err err => (clear_indirect_probe_request d requester target, w ++ [(target, bytes)], Err err)
      | Ok _ => (d, w ++ [(target, bytes)], Ok ())
      end
  end.

Definition handle_ack_response (d : SwimDetector) (target : PeerId) (now : Z) : SwimDetector * result () string :=
  let d := (clear_probe d target).1 in
  (mark_alive d target now, Ok ()).

(** ** The probe-timeout task *)

(** The scan under the probe table's read lock. *)
Definition timeout_scan (d : SwimDetector) (now : Z) : list (PeerId * Z) :=
  filter (λ pt, timed_out now pt.2) (hiter (pending_probes d)).

(** The re-check and the write, with the probe table and the state table
    locked; [None] is the [continue] for a probe answered since the scan. *)
Definition timeout_mark (d : SwimDetector) (now : Z) (peer : PeerId) (probe_time : Z) : option SwimDetector :=
  if decide (pending_probes d !! peer = Some probe_time)
  then Some (set_states d (suspect_entry (states d) peer now))
  else None.

(** The task's removal of the timed-out probe, in a critical section of its
    own. *)
Definition timeout_clear (d : SwimDetector) (peer : PeerId) : SwimDetector :=
  set_pending d (delete peer (pending_probes d)).

(** The task asks for indirect probes like [request_indirect_probes] does. *)
Definition timeout_ask (d : SwimDetector) (w : Wire) (peer : PeerId) (seed : Z) : Wire :=
  let alive_peers := alive_peers_except d peer in
  if decide (alive_peers = []) then w
  else
    let probe_count := Nat.min (Z.to_nat SWIM_INDIRECT_PROBE_FANOUT) (length alive_peers) in
    send_best_effort w (choose_multiple seed alive_peers probe_count)
      (MembershipWire.Swim (PingReq peer (self_peer_id d))).

(** One tick of the task when nothing runs in between; each request for
    indirect probes draws its own entropy. *)
Definition timeout_peer (now : Z) (seed : PeerId → Z) (dw : SwimDetector * Wire) (pt : PeerId * Z) : SwimDetector * Wire :=
  match timeout_mark dw.1 now pt.1 pt.2 with
  | None => dw
  | Some d =>
      let d := timeout_clear d pt.1 in
      (d, timeout_ask d dw.2 pt.1 (seed pt.1))
  end.

Definition timeout_tick (d : SwimDetector) (w : Wire) (now : Z) (seed : PeerId → Z) : SwimDetector * Wire :=
  foldl (timeout_peer now seed) (d, w) (timeout_scan d now).

(** ** The probe task *)

Definition peers_to_probe (d : SwimDetector) (seed : Z) : list PeerId :=
  let alive_peers := get_peers_in_state d Alive in
  choose_multiple seed alive_peers (Nat.min (Z.to_nat (probe_fanout d)) (length alive_peers)).

(** The clock is read once per probe. *)
Definition probe_peer (clk : PeerId → Z) (dw : SwimDetector * Wire) (peer : PeerId) : SwimDetector * Wire :=
  (record_probe_if_absent dw.1 peer (clk peer), (send dw.2 peer (MembershipWire.Swim Ping)).1).

Definition probe_tick (d : SwimDetector) (w : Wire) (clk : PeerId → Z) (seed : Z) : SwimDetector * Wire :=
  foldl (probe_peer clk) (d, w) (peers_to_probe d seed).

(** ** The suspect-timeout task: one critical section per tick. *)

Definition suspect_expired (d : SwimDetector) (now : Z) (entry : SwimPeerEntry) : Prop :=
  state entry = Suspect ∧ elapsed_ns now (last_update entry) > from_secs (suspect_timeout d).
#[global] Instance suspect_expired_dec d now entry : Decision (suspect_expired d now entry).
Proof. unfold suspect_expired, Z.gt. solve_decision. Defined.

Definition suspect_tick (d : SwimDetector) (now : Z) : SwimDetector :=
  let to_mark_dead := (filter (λ pe, suspect_expired d now pe.2) (hiter (states d))).*1 in
  set_states d (foldl (λ st peer, <[peer := mkEntry Dead now]> st) (states d) to_mark_dead).

#[global] Arguments suspect_tick : simpl never.

(** The part of degree maintenance that changes the detector: it forgets
    peers without a live connection. *)
Definition retain_connected (d : SwimDetector) (connected : gset PeerId) : SwimDetector :=
  mkDetector (self_peer_id d)
    (filter (λ pe, pe.1 ∈ connected) (states d))
    (filter (λ pt, pt.1 ∈ connected) (pending_probes d))
    (filter (λ kt, kt.1.1 ∈ connected ∧ kt.1.2 ∈ connected) (pending_indirect_probes d))
    (probe_period d) (suspect_timeout d) (probe_fanout d).

(** ** Interleavings *)

(** Program points of the probe-timeout task: waiting for its tick; with
    timed-out probes left to treat (and the tick's [now]); and after marking a
    peer, before clearing its probe, and before asking for indirect probes. *)
Inductive TimeoutTask :=
| TIdle
| TWork (now : Z) (todo : list (PeerId * Z))
| TMarked (now : Z) (peer : PeerId) (todo : list (PeerId * Z))
| TAsk (now : Z) (peer : PeerId) (todo : list (PeerId * Z)).

(** [acking]: the peers of the ACK and AckResponse handlers that have cleared
    the probe and not yet marked the peer alive.  [probing]: the peers the
    probe task has still to record in its current round. *)
Record Sys := mkSys {
  det : SwimDetector;
  acking : list PeerId;
  task : TimeoutTask;
  probing : list PeerId;
  wire : Wire;
}.

Definition with_det (S : Sys) (d : SwimDetector) : Sys :=
  mkSys d (acking S) (task S) (probing S) (wire S).
Definition with_task (S : Sys) (d : SwimDetector) (t : TimeoutTask) : Sys :=
  mkSys d (acking S) t (probing S) (wire S).

(** One critical section. *)
Inductive Event :=
| EAckClear (p : PeerId)
| EAckMark (p : PeerId) (now : Z)
| EAckTake (p : PeerId) (now : Z)
| EMarkAlive (p : PeerId) (now : Z)
| EMarkSuspect (p : PeerId) (now : Z)
| EMarkDead (p : PeerId) (now : Z)
| ERemovePeer (p : PeerId)
| ERecordProbe (p : PeerId) (now : Z)
| EClearProbe (p : PeerId)
| EPingReq (requester target : PeerId) (now : Z)
| EClearIndirect (requester target : PeerId)
| ESend (p : PeerId) (m : MembershipProtocolMessage)
| ETimeoutScan (now : Z)
| ETimeoutMark (p : PeerId) (now : Z)
| ETimeoutClear (p : PeerId)
| ETimeoutAsk (p : PeerId) (seed : Z)
| ETimeoutDone
| EProbePick (seed : Z)
| EProbe (p : PeerId) (now : Z)
| ESuspectTick (now : Z)
| ERetain (connected : gset PeerId).

Inductive step (S : Sys) : Event → Sys → Prop :=
| step_ack_clear p :
    step S (EAckClear p)
      (mkSys (clear_probe (det S) p).1 (p :: acking S) (task S) (probing S) (wire S))
| step_ack_mark p now pre post :
    acking S = pre ++ p :: post →
    step S (EAckMark p now)
      (mkSys (mark_alive (det S) p now) (pre ++ post) (task S) (probing S) (wire S))
| step_ack_take p now :
    step S (EAckTake p now) (with_det S (take_indirect_probe_requesters (det S) p now).1)
| step_mark_alive p now : step S (EMarkAlive p now) (with_det S (mark_alive (det S) p now))
| step_mark_suspect p now : step S (EMarkSuspect p now) (with_det S (mark_suspect (det S) p now))
| step_mark_dead p now : step S (EMarkDead p now) (with_det S (mark_dead (det S) p now))
| step_remove_peer p : step S (ERemovePeer p) (with_det S (remove_peer (det S) p))
| step_record_probe p now : step S (ERecordProbe p now) (with_det S (record_probe (det S) p now))
| step_clear_probe p : step S (EClearProbe p) (with_det S (clear_probe (det S) p).1)
| step_ping_req requester target now :
    step S (EPingReq requester target now)
      (with_det S (record_indirect_probe_request (det S) requester target now))
| step_clear_indirect requester target :
    step S (EClearIndirect requester target)
      (with_det S (clear_indirect_probe_request (det S) requester target))
| step_send p m :
    step S (ESend p m) (mkSys (det S) (acking S) (task S) (probing S) (send (wire S) p m).1)
| step_timeout_scan now :
    task S = TIdle →
    step S (ETimeoutScan now) (with_task S (det S) (TWork now (timeout_scan (det S) now)))
| step_timeout_mark now p t todo d :
    task S = TWork now ((p, t) :: todo) → timeout_mark (det S) now p t = Some d →
    step S (ETimeoutMark p now) (with_task S d (TMarked now p todo))
| step_timeout_skip now p t todo :
    task S = TWork now ((p, t) :: todo) → timeout_mark (det S) now p t = None →
    step S (ETimeoutMark p now) (with_task S (det S) (TWork now todo))
| step_timeout_clear now p todo :
    task S = TMarked now p todo →
    step S (ETimeoutClear p) (with_task S (timeout_clear (det S) p) (TAsk now p todo))
| step_timeout_ask now p todo seed :
    task S = TAsk now p todo →
    step S (ETimeoutAsk p seed)
      (mkSys (det S) (acking S) (TWork now todo) (probing S) (timeout_ask (det S) (wire S) p seed))
| step_timeout_done now :
    task S = TWork now [] → step S ETimeoutDone (with_task S (det S) TIdle)
| step_probe_pick seed :
    probing S = [] →
    step S (EProbePick seed) (mkSys (det S) (acking S) (task S) (peers_to_probe (det S) seed) (wire S))
| step_probe p now rest :
    probing S = p :: rest →
    step S (EProbe p now)
      (mkSys (record_probe_if_absent (det S) p now) (acking S) (task S) rest
         (send (wire S) p (MembershipWire.Swim Ping)).1)
| step_suspect_tick now : step S (ESuspectTick now) (with_det S (suspect_tick (det S) now))
| step_retain connected : step S (ERetain connected) (with_det S (retain_connected (det S) connected)).

Inductive run : Sys → list Event → Sys → Prop :=
| run_nil S : run S [] S
| run_cons S e S1 es S2 : step S e S1 → run S1 es S2 → run S (e :: es) S2.

Definition initial (self : PeerId) (period timeout fanout : Z) : Sys :=
  mkSys (new self period timeout fanout) [] TIdle [] [].

Inductive reachable (self : PeerId) (period timeout fanout : Z) : Sys → Prop :=
| reachable_init : reachable self period timeout fanout (initial self period timeout fanout)
| reachable_step S e S' :
    reachable self period timeout fanout S → step S e S' → reachable self period timeout fanout S'.

(** ** Tables *)

Lemma timed_out_iff (now t : Z) : timed_out now t ↔ t + from_millis SWIM_ACK_TIMEOUT_MS <= now.
Proof.
  unfold timed_out, elapsed_ns, from_millis, SWIM_ACK_TIMEOUT_MS, NANOS_PER_MILLI. lia.
Qed.

Lemma lookup_foldl_mark (x : SwimPeerEntry) (l : list PeerId) (m : gmap PeerId SwimPeerEntry) (p : PeerId) :
  foldl (λ st q, <[q := x]> st) m l !! p = if decide (p ∈ l) then Some x else m !! p.
Proof.
  revert m. induction l as [|q l IH]; intros m; cbn [foldl].
  - rewrite decide_False; [done|]. apply not_elem_of_nil.
  - rewrite IH. destruct (decide (p ∈ l)) as [Hl|Hl].
    + rewrite decide_True; [done|]. by right.
    + destruct (decide (p = q)) as [->|Hne].
      * rewrite decide_True by (by left). apply lookup_insert_eq.
      * rewrite decide_False by set_solver. by apply lookup_insert_ne.
Qed.

Lemma elem_of_hiter_filter (P : PeerId * SwimPeerEntry → Prop) `{!∀ x, Decision (P x)} (m : gmap PeerId SwimPeerEntry) (p : PeerId) :
  p ∈ (filter P (hiter m)).*1 ↔ ∃ e, m !! p = Some e ∧ P (p, e).
Proof.
  rewrite list_elem_of_fmap. split.
  - intros ([q e] & -> & [HP Hin]%list_elem_of_filter). exists e. by rewrite <-elem_of_hiter.
  - intros (e & He & HP). exists (p, e). split; [done|]. apply list_elem_of_filter.
    by rewrite elem_of_hiter.
Qed.

Lemma NoDup_hiter_filter (P : PeerId * SwimPeerEntry → Prop) `{!∀ x, Decision (P x)} (m : gmap PeerId SwimPeerEntry) :
  NoDup (filter P (hiter m)).*1.
Proof.
  eapply sublist_NoDup; [apply (NoDup_hiter_keys m)|]. apply fmap_sublist, sublist_filter.
Qed.

Lemma lookup_suspect_tick (d : SwimDetector) (now : Z) (p : PeerId) :
  states (suspect_tick d now) !! p =
  (λ e, if decide (suspect_expired d now e) then mkEntry Dead now else e) <$> states d !! p.
Proof.
  unfold suspect_tick; cbn [states set_states]. rewrite lookup_foldl_mark.
  destruct (states d !! p) as [e|] eqn:He; cbn.
  - destruct (decide (suspect_expired d now e)) as [Hx|Hx].
    + rewrite decide_True; [done|]. apply elem_of_hiter_filter. eauto.
    + rewrite decide_False; [done|]. rewrite elem_of_hiter_filter. intros (e' & ? & ?). naive_solver.
  - rewrite decide_False; [done|]. rewrite elem_of_hiter_filter. naive_solver.
Qed.

Lemma lookup_suspect_entry (st : gmap PeerId SwimPeerEntry) (p q : PeerId) (now : Z) :
  suspect_entry st p now !! q =
  (λ e, if decide (q = p ∧ state e = Alive) then mkEntry Suspect now else e) <$> st !! q.
Proof.
  unfold suspect_entry. destruct (decide (q = p)) as [->|Hne].
  - destruct (st !! p) as [e|] eqn:He; cbn; [|done].
    destruct (decide (state e = Alive)) as [Ha|Ha].
    + rewrite lookup_insert_eq. by rewrite decide_True.
    + rewrite He. rewrite decide_False; [done|]. naive_solver.
  - assert ((λ e, if decide (q = p ∧ state e = Alive) then mkEntry Suspect now else e) <$> st !! q = st !! q) as ->.
    { destruct (st !! q); cbn; [|done]. rewrite decide_False; [done|]. naive_solver. }
    destruct (st !! p); [|done]. case_decide; [|done]. by rewrite lookup_insert_ne.
Qed.

(** ** The ACK race *)

Definition is_alive (d : SwimDetector) (p : PeerId) : Prop := get_state d p = Some Alive.

(** No probe of [p] is open, and [p] is alive or about to be marked so. *)
Definition answered (p : PeerId) (S : Sys) : Prop :=
  pending_probes (det S) !! p = None ∧ (p ∈ acking S ∨ is_alive (det S) p).

(** The critical sections that open a new probe of [p] or change its state on
    purpose.  The timeout task's marking is not one of them. *)
Definition disturbs (p : PeerId) (e : Event) : Prop :=
  match e with
  | ERecordProbe q _ | EProbe q _ | EMarkSuspect q _ | EMarkDead q _ | ERemovePeer q => q = p
  | ERetain connected => p ∉ connected
  | _ => False
  end.

Lemma is_alive_insert (d : SwimDetector) (p q : PeerId) (e : SwimPeerEntry) :
  state e = Alive ∨ q ≠ p → is_alive d p → is_alive (set_states d (<[q := e]> (states d))) p.
Proof.
  unfold is_alive, get_state. cbn. intros Hor Hp.
  destruct (decide (q = p)) as [->|]; [rewrite lookup_insert_eq|by rewrite lookup_insert_ne].
  cbn. f_equal. tauto.
Qed.

Lemma is_alive_mark_alive (d : SwimDetector) (p : PeerId) (now : Z) : is_alive (mark_alive d p now) p.
Proof. unfold is_alive, get_state. cbn. unfold set_alive. by rewrite lookup_insert_eq. Qed.

Lemma is_alive_suspect_entry (d : SwimDetector) (p q : PeerId) (now : Z) :
  q ≠ p → is_alive d p → is_alive (set_states d (suspect_entry (states d) q now)) p.
Proof.
  unfold is_alive, get_state. cbn. rewrite lookup_suspect_entry. intros Hne Hp.
  destruct (states d !! p) as [e|]; cbn in *; [|done]. rewrite decide_False; [done|]. naive_solver.
Qed.

Lemma is_alive_suspect_tick (d : SwimDetector) (p : PeerId) (now : Z) :
  is_alive d p → is_alive (suspect_tick d now) p.
Proof.
  unfold is_alive, get_state. rewrite lookup_suspect_tick. intros Hp.
  destruct (states d !! p) as [e|]; cbn in *; [|done]. injection Hp as He.
  rewrite decide_False; [by rewrite <-He|]. unfold suspect_expired. rewrite He. naive_solver.
Qed.

Lemma is_alive_retain (d : SwimDetector) (p : PeerId) (X : gset PeerId) :
  p ∈ X → is_alive d p → is_alive (retain_connected d X) p.
Proof.
  unfold is_alive, get_state. cbn. intros HX. destruct (states d !! p) as [e|] eqn:He; [|done].
  intros Hp. by rewrite (proj2 (map_lookup_filter_Some _ _ p e)).
Qed.

Lemma pending_record_if_absent (d : SwimDetector) (p q : PeerId) (now : Z) :
  q ≠ p → pending_probes (record_probe_if_absent d q now) !! p = pending_probes d !! p.
Proof.
  intros Hne. unfold record_probe_if_absent. destruct (pending_probes d !! q); [done|].
  cbn. by rewrite lookup_insert_ne.
Qed.

Lemma states_record_if_absent (d : SwimDetector) (q : PeerId) (now : Z) :
  states (record_probe_if_absent d q now) = states d.
Proof. unfold record_probe_if_absent. by destruct (pending_probes d !! q). Qed.

Lemma timeout_mark_Some (d d' : SwimDetector) (now t : Z) (p : PeerId) :
  timeout_mark d now p t = Some d' →
  pending_probes d !! p = Some t ∧ d' = set_states d (suspect_entry (states d) p now).
Proof. unfold timeout_mark. case_decide; naive_solver. Qed.

Lemma answered_step (p : PeerId) (S S' : Sys) (e : Event) :
  step S e S' → ¬ disturbs p e → answered p S → answered p S'.
Proof.
  intros Hstep Hd [Hpend Hor]. unfold answered in *.
  destruct Hstep as [q|q now pre post Hacking|q now|q now|q now|q now|q|q now|q|r t now|r t|q m
    |now Ht|now q t todo d Ht Hm|now q t todo Ht Hm|now q todo Ht|now q todo seed Ht|now Ht
    |seed Hp|q now rest Hp|now|X]; cbn in *;
    try (split; [first [done | apply lookup_delete_None; by right]
                |destruct Hor; [by left + (left; by right)|by right]]).
  - split; [done|]. destruct (decide (q = p)) as [->|Hne].
    + right. apply is_alive_mark_alive.
    + rewrite Hacking in Hor. destruct Hor as [Hin|Ha]; [left; set_solver|right].
      by apply is_alive_insert; [right|].
  - split; [done|]. destruct Hor; [by left|right]. destruct (decide (q = p)) as [->|].
    + apply is_alive_mark_alive.
    + by apply is_alive_insert; [right|].
  - split; [done|]. destruct Hor; [by left|right]. by apply is_alive_suspect_entry.
  - split; [done|]. destruct Hor; [by left|right]. by apply is_alive_insert; [right|].
  - split; [done|]. destruct Hor as [|Ha]; [by left|right]. unfold is_alive, get_state in *. cbn.
    by rewrite lookup_delete_ne.
  - split; [by rewrite lookup_insert_ne|done].
  - apply timeout_mark_Some in Hm as [Hq ->]. cbn. split; [done|]. destruct Hor; [by left|right].
    apply is_alive_suspect_entry; [congruence|done].
  - rewrite pending_record_if_absent by done. split; [done|]. unfold is_alive, get_state in *.
    by rewrite states_record_if_absent.
  - split; [done|]. destruct Hor; [by left|right]. by apply is_alive_suspect_tick.
  - split; [apply map_lookup_filter_None; by left|]. destruct Hor; [by left|right].
    apply is_alive_retain; [by destruct (decide (p ∈ X))|done].
Qed.

Lemma answered_run (p : PeerId) (S S' : Sys) (es : list Event) :
  run S es S' → Forall (λ e, ¬ disturbs p e) es → answered p S → answered p S'.
Proof.
  induction 1; [done|]. intros [? ?]%Forall_cons ?. eauto using answered_step.
Qed.

(** C21. An ACK is never lost to the probe-timeout task.  Once the handler of
    an ACK (or AckResponse) from [p] has cleared the probe, then however the
    background tasks and all other calls interleave -- a timeout tick may have
    scanned the probe long before -- as soon as no ACK of [p] is half way, [p]
    is Alive, unless a new probe of [p] was recorded, or [p] was suspected,
    killed or dropped explicitly. *)
Theorem ack_not_lost (p : PeerId) (S S1 S2 : Sys) (es : list Event) :
  step S (EAckClear p) S1 → run S1 es S2 → Forall (λ e, ¬ disturbs p e) es →
  p ∉ acking S2 → is_alive (det S2) p.
Proof.
  intros Hclear Hrun Hes Hdone. destruct (answered_run p S1 S2 es Hrun Hes) as [_ []]; [|done..].
  inversion Hclear; subst. split; cbn; [apply lookup_delete_eq|left; by left].
Qed.

(** ** Verdicts *)

(** Everything the timeout task still has to treat had timed out when its tick
    started. *)
Definition task_ok (t : TimeoutTask) : Prop :=
  match t with
  | TIdle => True
  | TWork now todo | TMarked now _ todo | TAsk now _ todo => Forall (λ pt, timed_out now pt.2) todo
  end.

Lemma suspect_timeout_step (S S' : Sys) (e : Event) :
  step S e S' → suspect_timeout (det S') = suspect_timeout (det S) ∧ self_peer_id (det S') = self_peer_id (det S).
Proof.
  destruct 1 as [| | | | | | | | | | | | |now q t todo d Ht Hm| | | | | | q now rest Hp| | ]; try done.
  - by apply timeout_mark_Some in Hm as [_ ->].
  - cbn. unfold record_probe_if_absent. by destruct (_ !! _).
Qed.

Lemma task_ok_step (S S' : Sys) (e : Event) : step S e S' → task_ok (task S) → task_ok (task S').
Proof.
  destruct 1 as [| | | | | | | | | | | |now Ht|now q t todo d Ht Hm|now q t todo Ht Hm
    |now q todo Ht|now q todo seed Ht|now Ht| | | | ]; try done; rewrite Ht; cbn; intros Hok.
  - apply Forall_forall. intros pt [? _]%list_elem_of_filter. done.
  - by apply Forall_cons in Hok as [_ ?].
  - by apply Forall_cons in Hok as [_ ?].
  - done.
  - done.
Qed.

Lemma reachable_task_ok (self : PeerId) (period timeout fanout : Z) (S : Sys) :
  reachable self period timeout fanout S → task_ok (task S) ∧ suspect_timeout (det S) = timeout.
Proof.
  induction 1 as [|S e S' _ [IH1 IH2] Hstep]; [done|].
  destruct (suspect_timeout_step _ _ _ Hstep). split; [by eapply task_ok_step|congruence].
Qed.

(** How [p]'s entry can change in one critical section. *)
Lemma entry_change (S S' : Sys) (e : Event) (p : PeerId) :
  step S e S' → states (det S') !! p ≠ states (det S) !! p →
  match e with
  | EAckMark q now | EMarkAlive q now => q = p ∧ states (det S') !! p = Some (mkEntry Alive now)
  | EMarkSuspect q now =>
      q = p ∧ is_alive (det S) p ∧ states (det S') !! p = Some (mkEntry Suspect now)
  | EMarkDead q now => q = p ∧ states (det S') !! p = Some (mkEntry Dead now)
  | ERemovePeer q => q = p ∧ states (det S') !! p = None
  | ERetain X => p ∉ X ∧ states (det S') !! p = None
  | ESuspectTick now => ∃ since,
      states (det S) !! p = Some (mkEntry Suspect since) ∧
      elapsed_ns now since > from_secs (suspect_timeout (det S)) ∧
      states (det S') !! p = Some (mkEntry Dead now)
  | ETimeoutMark q now => q = p ∧ is_alive (det S) p ∧
      states (det S') !! p = Some (mkEntry Suspect now) ∧
      ∃ t todo, task S = TWork now ((p, t) :: todo) ∧ pending_probes (det S) !! p = Some t
  | _ => False
  end.
Proof.
  destruct 1 as [q|q now pre post Hacking|q now|q now|q now|q now|q|q now|q|r t now|r t|q m
    |now Ht|now q t todo d Ht Hm|now q t todo Ht Hm|now q todo Ht|now q todo seed Ht|now Ht
    |seed Hp|q now rest Hp|now|X]; intros Hne; try done; cbn in *.
  - unfold set_alive in *. destruct (decide (q = p)) as [->|]; [by rewrite lookup_insert_eq|].
    by rewrite lookup_insert_ne in Hne.
  - unfold set_alive in *. destruct (decide (q = p)) as [->|]; [by rewrite lookup_insert_eq|].
    by rewrite lookup_insert_ne in Hne.
  - rewrite lookup_suspect_entry in *. unfold is_alive, get_state.
    destruct (states (det S) !! p) as [e|]; [|done]. cbn in *. case_decide as Hx; [|done]. destruct Hx as [-> Ha]. by rewrite Ha.
  - destruct (decide (q = p)) as [->|]; [by rewrite lookup_insert_eq|].
    by rewrite lookup_insert_ne in Hne.
  - destruct (decide (q = p)) as [->|]; [by rewrite lookup_delete_eq|].
    by rewrite lookup_delete_ne in Hne.
  - apply timeout_mark_Some in Hm as [Hq ->]. cbn in *. rewrite lookup_suspect_entry in *.
    unfold is_alive, get_state. destruct (states (det S) !! p) as [e|]; [|done]. cbn in *.
    case_decide as Hx; [|done]. destruct Hx as [-> Ha]. rewrite Ha. repeat split; eauto.
  - by rewrite states_record_if_absent in Hne.
  - rewrite lookup_suspect_tick in *. destruct (states (det S) !! p) as [[st since]|]; [|done].
    cbn in *. case_decide as Hx; [|done]. destruct Hx as [Hs Hx]. cbn in *. subst st.
    by exists since.
  - destruct (states (det S) !! p) as [e|] eqn:He.
    + destruct (decide (p ∈ X)) as [HX|HX].
      { by rewrite (proj2 (map_lookup_filter_Some _ _ p e)) in Hne. }
      split; [done|]. apply map_lookup_filter_None. right. cbn. naive_solver.
    + exfalso. apply Hne, map_lookup_filter_None. by left.
Qed.

(** Explicit calls that take [p] out of Alive. *)
Definition drops (p : PeerId) (e : Event) : Prop :=
  match e with
  | EMarkSuspect q _ | EMarkDead q _ | ERemovePeer q => q = p
  | ERetain connected => p ∉ connected
  | _ => False
  end.

(** C22. Verdicts are justified in every reachable state, under every
    interleaving.  Apart from explicit calls, a peer stops being Alive only
    because the timeout task found a probe of it open that was sent at least
    500 ms before, and it then becomes Suspect; and it becomes Dead only by
    [mark_dead], or because it had been Suspect for longer than the suspect
    timeout. *)
Theorem verdicts_justified (self : PeerId) (period timeout fanout : Z) (S S' : Sys) (e : Event) (p : PeerId) :
  reachable self period timeout fanout S → step S e S' →
  (is_alive (det S) p → ¬ is_alive (det S') p →
    drops p e ∨
    ∃ now t, e = ETimeoutMark p now ∧ pending_probes (det S) !! p = Some t ∧
      t + from_millis SWIM_ACK_TIMEOUT_MS <= now ∧ get_state (det S') p = Some Suspect) ∧
  (get_state (det S) p ≠ Some Dead → get_state (det S') p = Some Dead →
    (∃ now, e = EMarkDead p now) ∨
    ∃ now since, e = ESuspectTick now ∧ states (det S) !! p = Some (mkEntry Suspect since) ∧
      elapsed_ns now since > from_secs timeout).
Proof.
  intros [Htask Hto]%reachable_task_ok Hstep. pose proof (entry_change S S' e p Hstep) as Hch.
  unfold is_alive, get_state in *. split.
  - intros Ha Hna. destruct e; try (destruct Hch; congruence); cbn in Hch |- *;
      try (destruct Hch as [-> Hch]; [congruence|]; auto).
    + rewrite Hch in Hna. cbn in Hna. congruence.
    + rewrite Hch in Hna. cbn in Hna. congruence.
    + destruct Hch as (_ & Hs & t & todo & Ht & Hp). rewrite Ht in Htask. right.
      exists now, t. rewrite Hs. apply Forall_cons in Htask as [Hx%timed_out_iff _]. done.
    + destruct Hch as (since & Hs & _); [congruence|]. rewrite Hs in Ha. done.
    + destruct Hch; [congruence|]. by left.
  - intros Hnd Hd. destruct e; try (destruct Hch; congruence); cbn in Hch |- *;
      try (destruct Hch as [-> Hch]; [congruence|]); try (rewrite Hch in Hd; done); eauto.
    + destruct Hch as [_ Hs]. rewrite Hs in Hd. done.
    + destruct Hch as (_ & Hs & _). rewrite Hs in Hd. done.
    + destruct Hch as (since & Hs & Hx & _); [congruence|]. right. exists now, since. by rewrite <-Hto.
    + destruct Hch as [_ Hs]; [congruence|]. rewrite Hs in Hd. done.
Qed.

(** ** Detection *)

Definition open_timeout (d : SwimDetector) (now : Z) (p : PeerId) : Prop :=
  match pending_probes d !! p with Some t => timed_out now t | None => False end.
#[global] Instance open_timeout_dec d now p : Decision (open_timeout d now p).
Proof. unfold open_timeout. destruct (pending_probes d !! p); solve_decision. Defined.

Lemma timeout_fold_lookup (now : Z) (seed : PeerId → Z) (l : list (PeerId * Z)) (d : SwimDetector) (w : Wire) (q : PeerId) :
  NoDup l.*1 → (∀ p t, (p, t) ∈ l → pending_probes d !! p = Some t) →
  states (foldl (timeout_peer now seed) (d, w) l).1 !! q =
    (λ e, if decide (q ∈ l.*1 ∧ state e = Alive) then mkEntry Suspect now else e) <$> states d !! q ∧
  pending_probes (foldl (timeout_peer now seed) (d, w) l).1 !! q =
    (if decide (q ∈ l.*1) then None else pending_probes d !! q) ∧
  suspect_timeout (foldl (timeout_peer now seed) (d, w) l).1 = suspect_timeout d.
Proof.
  revert d w. induction l as [|[p t] l IH]; intros d w Hnd Hl; cbn [foldl].
  - cbn. split; [|done]. destruct (states d !! q); cbn; [|done]. rewrite decide_False; [done|]. set_solver.
  - cbn in Hnd. apply NoDup_cons in Hnd as [Hp Hnd]. unfold timeout_peer at 2 4 6. unfold timeout_mark. cbn [fst snd].
    rewrite decide_True by (apply Hl; by left). edestruct IH as (-> & -> & ->); [done| |].
    + intros p' t' Hin. cbn. rewrite lookup_delete_ne; [apply Hl; by right|].
      intros ->. apply Hp. apply list_elem_of_fmap. by exists (p', t').
    + cbn. rewrite lookup_suspect_entry. repeat split.
      * destruct (states d !! q) as [e|]; cbn; [|done]. f_equal.
        destruct (decide (q = p)) as [->|].
        -- rewrite (decide_False (P := _ ∧ state _ = _)); [|naive_solver].
           destruct (decide (state e = Alive)) as [Ha|Ha].
           ++ rewrite !decide_True; [done|set_solver|done].
           ++ rewrite !decide_False; naive_solver.
        -- rewrite (decide_False (P := q = p ∧ _)) by naive_solver.
           apply decide_ext. set_solver.
      * destruct (decide (q = p)) as [->|].
        -- rewrite decide_False by done. rewrite lookup_delete_eq. rewrite decide_True; [done|set_solver].
        -- rewrite lookup_delete_ne by done. apply decide_ext. set_solver.
Qed.

Lemma elem_of_timeout_scan (d : SwimDetector) (now : Z) (p : PeerId) (t : Z) :
  (p, t) ∈ timeout_scan d now ↔ pending_probes d !! p = Some t ∧ timed_out now t.
Proof. unfold timeout_scan. rewrite list_elem_of_filter, elem_of_hiter. cbn. tauto. Qed.

Lemma elem_of_timeout_scan_key (d : SwimDetector) (now : Z) (p : PeerId) :
  p ∈ (timeout_scan d now).*1 ↔ open_timeout d now p.
Proof.
  rewrite list_elem_of_fmap. unfold open_timeout. split.
  - intros ([q t] & -> & [Hq Ht]%elem_of_timeout_scan). cbn. by rewrite Hq.
  - destruct (pending_probes d !! p) as [t|] eqn:Hp; [|done]. intros Ht. exists (p, t).
    by rewrite elem_of_timeout_scan.
Qed.

Lemma NoDup_timeout_scan (d : SwimDetector) (now : Z) : NoDup (timeout_scan d now).*1.
Proof.
  unfold timeout_scan. eapply sublist_NoDup; [apply (NoDup_hiter_keys (pending_probes d))|].
  apply fmap_sublist, sublist_filter.
Qed.

(** Failures are detected.  An uninterrupted timeout tick at [n1] closes
    exactly the probes that are at least 500 ms old and turns exactly their
    Alive peers Suspect; a suspect tick more than the suspect timeout later
    turns those peers Dead. *)
Theorem crash_detected (d : SwimDetector) (w : Wire) (seed : PeerId → Z) (n1 n2 : Z) (p : PeerId) :
  let d1 := (timeout_tick d w n1 seed).1 in
  (pending_probes d1 !! p = if decide (open_timeout d n1 p) then None else pending_probes d !! p) ∧
  (states d1 !! p =
    (λ e, if decide (open_timeout d n1 p ∧ state e = Alive) then mkEntry Suspect n1 else e) <$> states d !! p) ∧
  (is_alive d p → open_timeout d n1 p → elapsed_ns n2 n1 > from_secs (suspect_timeout d) →
    states (suspect_tick d1 n2) !! p = Some (mkEntry Dead n2)).
Proof.
  cbn zeta. unfold timeout_tick.
  destruct (timeout_fold_lookup n1 seed (timeout_scan d n1) d w p) as (Hs & Hp & Ht).
  { apply NoDup_timeout_scan. }
  { by intros q t [? _]%elem_of_timeout_scan. }
  pose proof (elem_of_timeout_scan_key d n1 p) as Hkey.
  rewrite (decide_ext _ _ _ _ Hkey) in Hp.
  assert (states (foldl (timeout_peer n1 seed) (d, w) (timeout_scan d n1)).1 !! p =
    (λ e, if decide (open_timeout d n1 p ∧ state e = Alive) then mkEntry Suspect n1 else e) <$> states d !! p) as Hs'.
  { rewrite Hs. destruct (states d !! p); [|done]. cbn. f_equal. apply decide_ext. by rewrite Hkey. }
  split; [done|]. split; [done|]. intros Ha Ho Hx.
  rewrite lookup_suspect_tick, Hs'. unfold is_alive, get_state in Ha.
  destruct (states d !! p) as [e|]; [|done]. cbn in *. injection Ha as Ha.
  rewrite (decide_True (P := open_timeout d n1 p ∧ _)) by done.
  rewrite decide_True; [done|]. split; [done|]. cbn. by rewrite Ht.
Qed.

(** ** Indirect probes *)

(** The requesters that [target]'s ACK is relayed to. *)
Definition waits_for (d : SwimDetector) (target : PeerId) (now : Z) (r : PeerId) : Prop :=
  ∃ t, pending_indirect_probes d !! (target, r) = Some t ∧ ¬ timed_out now t.

Lemma elem_of_requesters (d : SwimDetector) (target : PeerId) (now : Z) (r : PeerId) :
  r ∈ (take_indirect_probe_requesters d target now).2 ↔ waits_for d target now r.
Proof.
  cbn. rewrite list_elem_of_fmap. unfold waits_for. split.
  - intros ([[x y] t] & -> & [[Hx Ht] Hin]%list_elem_of_filter). cbn in *. subst x.
    exists t. by rewrite <-elem_of_hiter.
  - intros (t & Hin & Ht). exists ((target, r), t). split; [done|]. apply list_elem_of_filter.
    by rewrite elem_of_hiter.
Qed.

Lemma NoDup_requesters (d : SwimDetector) (target : PeerId) (now : Z) :
  NoDup (take_indirect_probe_requesters d target now).2.
Proof.
  cbn. apply NoDup_fmap_2_strong.
  - intros [[x y] t] [[x' y'] t'] [[Hx _] Hin]%list_elem_of_filter [[Hx' _] Hin']%list_elem_of_filter Heq.
    cbn in *. subst. rewrite elem_of_hiter in Hin, Hin'. naive_solver.
  - apply NoDup_filter, NoDup_hiter.
Qed.

(** An ACK from [sender] closes its probe, marks it Alive, and closes
    every indirect probe of it.  The AckResponse goes to the requesters whose
    indirect probe of [sender] has not expired, each once, in some order, up
    to the first transport failure: then the error is returned and the
    remaining requesters, whose entries are already gone, get nothing. *)
Theorem ack_relays (d : SwimDetector) (w : Wire) (sender : PeerId) (n1 n2 : Z) (enc : PeerId → list Z) :
  (∀ r, encodes (ack_response sender r) (enc r)) →
  let '(d', w', res) := handle_ack d w sender n1 n2 in
  pending_probes d' = delete sender (pending_probes d) ∧
  states d' = <[sender := mkEntry Alive n1]> (states d) ∧
  (∀ target r t, pending_indirect_probes d' !! (target, r) = Some t ↔
    pending_indirect_probes d !! (target, r) = Some t ∧ target ≠ sender ∧ ¬ timed_out n2 t) ∧
  ∃ attempted lost,
    NoDup (attempted ++ lost) ∧ (∀ r, r ∈ attempted ++ lost ↔ waits_for d sender n2 r) ∧
    w' = w ++ ((λ r, (r, enc r)) <$> attempted) ∧
    match res with
    | Ok _ => lost = []
    | Err e => ∃ relayed bad, attempted = relayed ++ [bad] ∧
        send_to_peer (w ++ ((λ r, (r, enc r)) <$> relayed)) bad (enc bad) = Err e
    end.
Proof.
  intros Henc. unfold handle_ack.
  pose proof (elem_of_requesters (mark_alive (clear_probe d sender).1 sender n1) sender n2) as Hel.
  pose proof (NoDup_requesters (mark_alive (clear_probe d sender).1 sender n1) sender n2) as Hnd.
  destruct (take_indirect_probe_requesters _ sender n2) as [d' reqs] eqn:Htake.
  destruct (send_each_wire w reqs (ack_response sender) enc) as (attempted & lost & -> & Hw & Hr).
  { intros p _. apply Henc. }
  destruct (send_each w (attempted ++ lost) (ack_response sender)) as [w' res]. cbn in *.
  injection Htake as <- _. cbn. split; [done|]. split; [done|]. split.
  - intros target r t. rewrite map_lookup_filter_Some. cbn. tauto.
  - exists attempted, lost. split; [done|]. split; [by apply Hel|]. split; [done|]. done.
Qed.

Lemma elem_of_alive_peers_except (d : SwimDetector) (target p : PeerId) :
  p ∈ alive_peers_except d target ↔ is_alive d p ∧ p ≠ target ∧ p ≠ self_peer_id d.
Proof.
  unfold alive_peers_except, is_alive, get_state. rewrite elem_of_hiter_filter. cbn. split.
  - intros (e & -> & Ha & ?). cbn. by rewrite Ha.
  - intros (Ha & ?). destruct (states d !! p) as [e|]; [|done]. injection Ha as Ha. eauto.
Qed.

Lemma ask_wire (d : SwimDetector) (w : Wire) (target : PeerId) (seed : Z) (bytes : list Z) :
  encodes (MembershipWire.Swim (PingReq target (self_peer_id d))) bytes →
  ∃ asked, timeout_ask d w target seed = w ++ ((λ p, (p, bytes)) <$> asked) ∧
    NoDup asked ∧ length asked = Nat.min 3 (length (alive_peers_except d target)) ∧
    ∀ p, p ∈ asked → is_alive d p ∧ p ≠ target ∧ p ≠ self_peer_id d.
Proof.
  intros Henc. unfold timeout_ask. case_decide as He.
  - exists []. rewrite He. cbn. rewrite app_nil_r. split; [done|]. split; [apply NoDup_nil_2|].
    split; [done|]. intros p Hp. by apply not_elem_of_nil in Hp.
  - eexists. split; [by apply send_best_effort_wire|]. split.
    + apply choose_multiple_NoDup, NoDup_hiter_filter.
    + split; [rewrite choose_multiple_length; change (Z.to_nat SWIM_INDIRECT_PROBE_FANOUT) with 3%nat; lia|].
      intros p Hp. by apply elem_of_alive_peers_except, (choose_multiple_elem _ _ _ _ Hp).
Qed.

Lemma request_is_ask (d : SwimDetector) (w : Wire) (target : PeerId) (seed : Z) :
  request_indirect_probes d w target seed = (timeout_ask d w target seed, Ok ()).
Proof. unfold request_indirect_probes, timeout_ask. by case_decide. Qed.

(** A request for indirect probes asks distinct peers, min(3, candidates)
    of them, all Alive, never the suspect itself and never this node; failing
    sends are skipped and the call succeeds.  The timeout task's own copy of
    the code sends the same. *)
Theorem indirect_probe_fanout (d : SwimDetector) (w : Wire) (target : PeerId) (seed : Z) (bytes : list Z) :
  encodes (MembershipWire.Swim (PingReq target (self_peer_id d))) bytes →
  request_indirect_probes d w target seed = (timeout_ask d w target seed, Ok ()) ∧
  ∃ asked, timeout_ask d w target seed = w ++ ((λ p, (p, bytes)) <$> asked) ∧
    NoDup asked ∧ length asked = Nat.min 3 (length (alive_peers_except d target)) ∧
    ∀ p, p ∈ asked → is_alive d p ∧ p ≠ target ∧ p ≠ self_peer_id d.
Proof. intros Henc. split; [apply request_is_ask|by apply ask_wire]. Qed.

(** A failed relay leaves no entry behind; a successful one leaves exactly the
    new one of this pair. *)
Lemma ping_req_entry (d : SwimDetector) (w : Wire) (requester target : PeerId) (now : Z) (bytes : list Z) :
  encodes (MembershipWire.Swim Ping) bytes →
  let '(d', w', res) := handle_ping_req d w requester target now in
  w' = w ++ [(target, bytes)] ∧
  pending_indirect_probes d' !! (target, requester) =
    match res with Ok _ => Some now | Err _ => None end.
Proof.
  intros Henc. unfold handle_ping_req. rewrite Henc.
  destruct (send_to_peer w target bytes) as [[]|e]; cbn; split; try done.
  - apply lookup_insert_eq.
  - apply lookup_delete_eq.
Qed.

(** An uninterrupted tick is one of the interleavings. *)
Lemma timeout_fold_run (now : Z) (seed : PeerId → Z) (l : list (PeerId * Z)) (d : SwimDetector) (w : Wire) (ack pr : list PeerId) :
  ∃ es, run (mkSys d ack (TWork now l) pr w) es
    (mkSys (foldl (timeout_peer now seed) (d, w) l).1 ack TIdle pr
           (foldl (timeout_peer now seed) (d, w) l).2).
Proof.
  revert d w. induction l as [|[p t] l IH]; intros d w.
  - exists [ETimeoutDone]. econstructor; [by eapply step_timeout_done|]. constructor.
  - cbn [foldl]. unfold timeout_peer at 2 4. cbn [fst snd].
    destruct (timeout_mark d now p t) as [d1|] eqn:Hm.
    + destruct (IH (timeout_clear d1 p) (timeout_ask (timeout_clear d1 p) w p (seed p))) as [es Hes].
      exists (ETimeoutMark p now :: ETimeoutClear p :: ETimeoutAsk p (seed p) :: es).
      econstructor; [by eapply step_timeout_mark|]. econstructor; [by eapply step_timeout_clear|].
      econstructor; [by eapply step_timeout_ask|]. exact Hes.
    + destruct (IH d w) as [es Hes]. exists (ETimeoutMark p now :: es).
      econstructor; [by eapply step_timeout_skip|]. exact Hes.
Qed.

Lemma timeout_tick_run (d : SwimDetector) (w : Wire) (now : Z) (seed : PeerId → Z) (ack pr : list PeerId) :
  ∃ es, run (mkSys d ack TIdle pr w) es
    (mkSys (timeout_tick d w now seed).1 ack TIdle pr (timeout_tick d w now seed).2).
Proof.
  destruct (timeout_fold_run now seed (timeout_scan d now) d w ack pr) as [es Hes].
  exists (ETimeoutScan now :: es). econstructor; [by apply step_timeout_scan|]. exact Hes.
Qed.

(** The task's clearing of a timed-out probe is a critical section of its own:
    it also deletes a newer probe that was recorded after the marking. *)
Lemma timeout_clear_drops_newer (S : Sys) (now t : Z) (p : PeerId) (todo : list (PeerId * Z)) :
  task S = TMarked now p todo →
  ∃ S', run S [EAckClear p; EAckMark p t; ERecordProbe p t; ETimeoutClear p] S' ∧
    is_alive (det S') p ∧ pending_probes (det S') !! p = None.
Proof.
  intros Ht. eexists. split.
  - econstructor; [apply step_ack_clear|]. econstructor; [by apply (step_ack_mark _ p t [])|].
    econstructor; [apply step_record_probe|]. econstructor; [by eapply step_timeout_clear|]. constructor.
  - cbn. split; [apply is_alive_mark_alive|apply lookup_delete_eq].
Qed.
End Swim.
End Swim.

(** ** Concrete runs *)

Module SwimWitness.
Import Swim.

Definition peer (n : Z) : PeerId := mkPeerId (replicate 32 n).

(** Postcard's layout of the SWIM messages: the variant indices, then the
    peer identifiers as they are. *)
Definition swim_bytes (m : MembershipProtocolMessage) : result (list Z) string :=
  match m with
  | MembershipWire.Swim Ping => Ok [1; 0]
  | MembershipWire.Swim Ack => Ok [1; 1]
  | MembershipWire.Swim (PingReq t r) => Ok ([1; 2] ++ peer_bytes t ++ peer_bytes r)
  | MembershipWire.Swim (AckResponse t r) => Ok ([1; 3] ++ peer_bytes t ++ peer_bytes r)
  | HyParView Disconnect => Ok [0; 6]
  | HyParView _ => Err "not a SWIM message"%string
  end.

(** A transport that cannot reach peer 9. *)
#[local] Instance lossy_transport : Transport := {
  to_stdvec := swim_bytes;
  from_bytes _ := Err "closed"%string;
  send_to_peer _ p _ := if decide (p = peer 9) then Err "unreachable"%string else Ok ();
}.
#[local] Instance witness_choice : SliceRandom := canonical_choice.
#[local] Instance witness_states : HashIter PeerId SwimPeerEntry := canonical_iter.
#[local] Instance witness_pending : HashIter PeerId Z := canonical_iter.
#[local] Instance witness_indirect : HashIter (PeerId * PeerId) Z := canonical_iter.

Definition ms (n : Z) : Z := from_millis n.

(** Peer 1 is alive with a probe sent at time 0; peers 2 to 5 are alive. *)
Definition d0 : SwimDetector :=
  mkDetector (peer 0)
    (foldl (λ st n, set_alive st (peer n) 0) ∅ [1; 2; 3; 4; 5])
    {[peer 1 := 0]} ∅ 1 3 3.

(** The timeout task has scanned the probe; the ACK arrives before the task
    treats it. *)
Definition racing : Sys := mkSys d0 [] (TWork (ms 600) [(peer 1, 0)]) [] [].

Lemma ack_not_lost_witness :
  ∃ S1 S2, step racing (EAckClear (peer 1)) S1 ∧
    run S1 [ETimeoutMark (peer 1) (ms 600); EAckMark (peer 1) (ms 601); ESuspectTick (ms 602)] S2 ∧
    is_alive (det S2) (peer 1).
Proof.
  assert (∃ S2, run (mkSys (clear_probe d0 (peer 1)).1 [peer 1] (task racing) [] [])
      [ETimeoutMark (peer 1) (ms 600); EAckMark (peer 1) (ms 601); ESuspectTick (ms 602)] S2 ∧ acking S2 = [])
    as (S2 & Hrun & Hack).
  { eexists. split.
    - econstructor; [by eapply step_timeout_skip|]. econstructor; [by apply (step_ack_mark _ _ _ [])|].
      econstructor; [apply step_suspect_tick|]. constructor.
    - done. }
  eexists _, S2. split; [apply step_ack_clear|]. split; [exact Hrun|].
  eapply (ack_not_lost (peer 1) racing _ S2); [apply step_ack_clear|exact Hrun| |].
  - repeat constructor; intros [].
  - rewrite Hack. apply not_elem_of_nil.
Defined.

(** The same two tasks without the ACK: the peer becomes Suspect. *)
Definition joined : Sys :=
  with_det (initial (peer 0) 1 3 3) (mark_alive (new (peer 0) 1 3 3) (peer 1) 0).
Definition probed : Sys := with_det joined (record_probe (det joined) (peer 1) 0).
Definition scanned : Sys :=
  with_task probed (det probed) (TWork (ms 600) (timeout_scan (det probed) (ms 600))).

Lemma verdicts_justified_witness :
  ∃ S', step scanned (ETimeoutMark (peer 1) (ms 600)) S' ∧
    (drops (peer 1) (ETimeoutMark (peer 1) (ms 600)) ∨
     ∃ now t, ETimeoutMark (peer 1) (ms 600) = ETimeoutMark (peer 1) now ∧
       pending_probes (det scanned) !! peer 1 = Some t ∧
       t + from_millis SWIM_ACK_TIMEOUT_MS <= now ∧ get_state (det S') (peer 1) = Some Suspect).
Proof.
  assert (∃ d', timeout_mark (det scanned) (ms 600) (peer 1) 0 = Some d' ∧ get_state d' (peer 1) = Some Suspect)
    as (d' & Hm & Hs) by (eexists; split; vm_compute; reflexivity).
  assert (step scanned (ETimeoutMark (peer 1) (ms 600)) (with_task scanned d' (TMarked (ms 600) (peer 1) []))) as Hstep.
  { eapply step_timeout_mark; [vm_compute; reflexivity|exact Hm]. }
  eexists. split; [exact Hstep|].
  apply (verdicts_justified (peer 0) 1 3 3 scanned); [|exact Hstep|vm_compute; reflexivity|].
  - eapply reachable_step; [|by apply (step_timeout_scan probed)].
    eapply reachable_step; [|apply (step_record_probe joined)].
    eapply reachable_step; [|apply (step_mark_alive (initial (peer 0) 1 3 3))]. apply reachable_init.
  - cbn. unfold is_alive. rewrite Hs. discriminate.
Defined.

Lemma crash_detected_witness :
  is_alive d0 (peer 1) ∧ open_timeout d0 (ms 500) (peer 1) ∧ ms 4000 - ms 500 > from_secs 3 ∧
  states (suspect_tick (timeout_tick d0 [] (ms 500) (λ _, 0)).1 (ms 4000)) !! peer 1 =
    Some (mkEntry Dead (ms 4000)).
Proof.
  split; [vm_compute; reflexivity|]. split; [apply timed_out_iff; vm_compute; discriminate|].
  split; [vm_compute; reflexivity|].
  apply crash_detected; [vm_compute; reflexivity|apply timed_out_iff; vm_compute; discriminate|vm_compute; reflexivity].
Defined.

(** Peers 9 and 2 wait for peer 1's ACK. *)
Definition relaying : SwimDetector :=
  set_indirect d0 (list_to_map [((peer 1, peer 9), 0); ((peer 1, peer 2), 0)]).

Definition ack_enc (r : PeerId) : list Z := [1; 3] ++ peer_bytes (peer 1) ++ peer_bytes r.

(** The run meets the unreachable requester first or second depending on the
    table's order; either way the relation below is the theorem's. *)
Lemma ack_relays_witness :
  (∀ r, encodes (ack_response (peer 1) r) (ack_enc r)) ∧
  waits_for relaying (peer 1) (ms 100) (peer 2) ∧
  let '(d', w', res) := handle_ack relaying [] (peer 1) (ms 100) (ms 100) in
  pending_probes d' = delete (peer 1) (pending_probes relaying) ∧
  states d' = <[peer 1 := mkEntry Alive (ms 100)]> (states relaying) ∧
  (∀ target r t, pending_indirect_probes d' !! (target, r) = Some t ↔
    pending_indirect_probes relaying !! (target, r) = Some t ∧ target ≠ peer 1 ∧ ¬ timed_out (ms 100) t) ∧
  ∃ attempted lost,
    NoDup (attempted ++ lost) ∧ (∀ r, r ∈ attempted ++ lost ↔ waits_for relaying (peer 1) (ms 100) r) ∧
    w' = [] ++ ((λ r, (r, ack_enc r)) <$> attempted) ∧
    match res with
    | Ok _ => lost = []
    | Err e => ∃ relayed bad, attempted = relayed ++ [bad] ∧
        send_to_peer ([] ++ ((λ r, (r, ack_enc r)) <$> relayed)) bad (ack_enc bad) = Err e
    end.
Proof.
  split; [done|]. split.
  - exists 0. split; [vm_compute; reflexivity|]. rewrite timed_out_iff. vm_compute. auto.
  - apply (ack_relays relaying [] (peer 1) (ms 100) (ms 100) ack_enc). done.
Defined.

(** One failing relay costs the other requester its answer. *)
Lemma failed_relay_loses_acks :
  ∃ d : SwimDetector, waits_for d (peer 1) (ms 100) (peer 2) ∧ waits_for d (peer 1) (ms 100) (peer 9) ∧
    (handle_ack d [] (peer 1) (ms 100) (ms 100)).2 = Err "unreachable"%string ∧
    pending_indirect_probes (handle_ack d [] (peer 1) (ms 100) (ms 100)).1.1 = ∅.
Proof.
  exists relaying. repeat split.
  - exists 0. split; [vm_compute; reflexivity|]. rewrite timed_out_iff. vm_compute. auto.
  - exists 0. split; [vm_compute; reflexivity|]. rewrite timed_out_iff. vm_compute. auto.
Qed.

Lemma indirect_probe_fanout_witness :
  encodes (MembershipWire.Swim (PingReq (peer 1) (peer 0))) ([1; 2] ++ peer_bytes (peer 1) ++ peer_bytes (peer 0)) ∧
  length (alive_peers_except d0 (peer 1)) = 4%nat ∧
  (request_indirect_probes d0 [] (peer 1) 0 = (timeout_ask d0 [] (peer 1) 0, Ok ()) ∧
  ∃ asked, timeout_ask d0 [] (peer 1) 0 =
      [] ++ ((λ p, (p, [1; 2] ++ peer_bytes (peer 1) ++ peer_bytes (peer 0))) <$> asked) ∧
    NoDup asked ∧ length asked = Nat.min 3 (length (alive_peers_except d0 (peer 1))) ∧
    ∀ p, p ∈ asked → is_alive d0 p ∧ p ≠ peer 1 ∧ p ≠ self_peer_id d0).
Proof.
  split; [done|]. split; [vm_compute; reflexivity|].
  apply (indirect_probe_fanout d0 [] (peer 1) 0). done.
Defined.
End SwimWitness.
