(* ===== verification/HyParView.v ===== *)
(** * HyParView membership ([crates/membership/src/lib.rs],
      [HyParViewMembership] and [MembershipConfig])

    The two partial views, the active-view commit with its lock protocol, the
    message handlers and the dispatcher, and the degree-maintenance task.  A
    handler is one definition that runs its critical sections in order;
    [vstep] is one critical section on the views, so that every interleaving
    of handlers and tasks is a sequence of [vstep]s.  [usize] configuration
    values are [Z]; views are [gset]s iterated in an unspecified order. *)

From S2P Require Import Prelude Types MembershipWire Swim.
From Stdlib Require Import Wellfounded.List_Extension Wellfounded.Inverse_Image Wellfounded.Inclusion.
Import Swim.

#[local] Open Scope Z_scope.

(** An IP address and a port. *)
Notation SocketAddr := (list Z * Z)%type.

Module HyParView.

(** ** Configuration *)

Record MembershipConfig := mkConfig {
  active_degree : Z;
  max_active_degree : Z;
  max_passive_degree : Z;
  shuffle_period : Z;
  shuffle_active_size : Z;
  shuffle_passive_size : Z;
  adaptive_enabled : bool;
}.

Definition config_default : MembershipConfig :=
  mkConfig DEFAULT_ACTIVE_DEGREE MAX_ACTIVE_DEGREE MAX_PASSIVE_DEGREE
    (from_secs SHUFFLE_PERIOD_SECS) SHUFFLE_ACTIVE_SIZE SHUFFLE_PASSIVE_SIZE true.

Definition with_active_degree (c : MembershipConfig) (degree : Z) : MembershipConfig :=
  mkConfig degree (max_active_degree c) (max_passive_degree c) (shuffle_period c)
    (shuffle_active_size c) (shuffle_passive_size c) (adaptive_enabled c).
Definition with_max_active_degree (c : MembershipConfig) (degree : Z) : MembershipConfig :=
  mkConfig (active_degree c) degree (max_passive_degree c) (shuffle_period c)
    (shuffle_active_size c) (shuffle_passive_size c) (adaptive_enabled c).
Definition with_max_passive_degree (c : MembershipConfig) (degree : Z) : MembershipConfig :=
  mkConfig (active_degree c) (max_active_degree c) degree (shuffle_period c)
    (shuffle_active_size c) (shuffle_passive_size c) (adaptive_enabled c).
Definition with_shuffle_period (c : MembershipConfig) (period : Z) : MembershipConfig :=
  mkConfig (active_degree c) (max_active_degree c) (max_passive_degree c) period
    (shuffle_active_size c) (shuffle_passive_size c) (adaptive_enabled c).
Definition with_shuffle_active_size (c : MembershipConfig) (n : Z) : MembershipConfig :=
  mkConfig (active_degree c) (max_active_degree c) (max_passive_degree c) (shuffle_period c)
    n (shuffle_passive_size c) (adaptive_enabled c).
Definition with_shuffle_passive_size (c : MembershipConfig) (n : Z) : MembershipConfig :=
  mkConfig (active_degree c) (max_active_degree c) (max_passive_degree c) (shuffle_period c)
    (shuffle_active_size c) n (adaptive_enabled c).
Definition with_adaptive_enabled (c : MembershipConfig) (enabled : bool) : MembershipConfig :=
  mkConfig (active_degree c) (max_active_degree c) (max_passive_degree c) (shuffle_period c)
    (shuffle_active_size c) (shuffle_passive_size c) enabled.

(** ** State *)

Record HyParViewMembership := mkMembership {
  local_peer_id : PeerId;
  active : gset PeerId;
  passive : gset PeerId;
  peer_addrs : gmap PeerId SocketAddr;
  swim : SwimDetector;
  config : MembershipConfig;
  seen_peers : gmap PeerId Z;
}.

Definition set_active (m : HyParViewMembership) (v : gset PeerId) : HyParViewMembership :=
  mkMembership (local_peer_id m) v (passive m) (peer_addrs m) (swim m) (config m) (seen_peers m).
Definition set_passive (m : HyParViewMembership) (v : gset PeerId) : HyParViewMembership :=
  mkMembership (local_peer_id m) (active m) v (peer_addrs m) (swim m) (config m) (seen_peers m).
Definition set_addrs (m : HyParViewMembership) (v : gmap PeerId SocketAddr) : HyParViewMembership :=
  mkMembership (local_peer_id m) (active m) (passive m) v (swim m) (config m) (seen_peers m).
Definition set_swim (m : HyParViewMembership) (v : SwimDetector) : HyParViewMembership :=
  mkMembership (local_peer_id m) (active m) (passive m) (peer_addrs m) v (config m) (seen_peers m).
Definition set_seen (m : HyParViewMembership) (v : gmap PeerId Z) : HyParViewMembership :=
  mkMembership (local_peer_id m) (active m) (passive m) (peer_addrs m) (swim m) (config m) v.

Definition new (local_peer_id : PeerId) (config : MembershipConfig) : HyParViewMembership :=
  mkMembership local_peer_id ∅ ∅ ∅
    (Swim.new local_peer_id SWIM_PROBE_INTERVAL_SECS SWIM_SUSPECT_TIMEOUT_SECS SWIM_PROBE_FANOUT)
    config ∅.

Definition with_degrees (local_peer_id : PeerId) (active_degree passive_degree : Z) : HyParViewMembership :=
  new local_peer_id
    (mkConfig active_degree (max_active_degree config_default)
       (Z.max passive_degree MAX_PASSIVE_DEGREE) (shuffle_period config_default)
       (shuffle_active_size config_default) (shuffle_passive_size config_default)
       (adaptive_enabled config_default)).

(** [HashSet::len] as a [usize]. *)
Definition len (v : gset PeerId) : Z := Z.of_nat (size v).

Definition store_peer_addr (m : HyParViewMembership) (peer : PeerId) (addr : SocketAddr) : HyParViewMembership :=
  set_addrs m (<[peer := addr]> (peer_addrs m)).

Definition get_peer_addr (m : HyParViewMembership) (peer : PeerId) : option SocketAddr :=
  peer_addrs m !! peer.

Definition see (m : HyParViewMembership) (peer : PeerId) (now : Z) : HyParViewMembership :=
  set_seen m (<[peer := now]> (seen_peers m)).

Definition add_to_passive (m : HyParViewMembership) (peer : PeerId) : HyParViewMembership :=
  if decide (peer = local_peer_id m) then m
  else if decide (peer ∈ active m) then m
  else if decide (len (passive m) < max_passive_degree (config m))
  then set_passive m ({[peer]} ∪ passive m)
  else m.

(** ** The active-view commit *)

Definition COMMIT_TRY_ROUNDS : nat := 8.

Inductive CommitLock := LSwim | LActive | LPassive.
#[global] Instance CommitLock_eq_dec : EqDecision CommitLock.
Proof. solve_decision. Defined.

Definition apply_commit (c : MembershipConfig) (st : gmap PeerId SwimPeerEntry) (act : gset PeerId)
    (pas : option (gset PeerId)) (to_demote : option PeerId) (peer : PeerId) (now : Z) :
    gmap PeerId SwimPeerEntry * gset PeerId * option (gset PeerId) :=
  let '(act, pas) :=
    match to_demote with
    | Some q =>
        (act ∖ {[q]},
         match pas with
         | Some v => Some (if decide (len v < max_passive_degree c) then {[q]} ∪ v else v)
         | None => None
         end)
    | None => (act, pas)
    end in
  (set_alive st peer now, {[peer]} ∪ act, pas).

(** What a round of the commit finds: the membership when it has all its
    locks, and which [try_write]s succeed. *)
Record Round := mkRound {
  at_round : HyParViewMembership;
  try_swim : bool;
  try_active : bool;
  try_passive : bool;
}.

(** The waits of a commit: the locks held, and the lock waited for. *)
Notation Waits := (list (list CommitLock * CommitLock)).

Section HyParView.
Context `{!Transport} `{!SetIter PeerId}.

Definition demotion (c : MembershipConfig) (act : gset PeerId) : option PeerId :=
  if decide (len act >= active_degree c) then head (siter act) else None.

(** The changes of a commit on a membership whose locks it holds; the passive
    view is locked only for a demotion. *)
Definition commit (m : HyParViewMembership) (peer : PeerId) (now : Z) : HyParViewMembership :=
  let to_demote := demotion (config m) (active m) in
  let pas := match to_demote with Some _ => Some (passive m) | None => None end in
  let '(st, act, pas) :=
    apply_commit (config m) (states (swim m)) (active m) pas to_demote peer now in
  set_swim (set_passive (set_active m act) (default (passive m) pas)) (set_states (swim m) st).

(** One round: a lock waited for is already held, the others are tried. *)
Definition commit_round (r : Round) (wait_for : option CommitLock) (peer : PeerId) (now : Z) :
    CommitLock + HyParViewMembership :=
  let m := at_round r in
  if negb (bool_decide (wait_for = Some LSwim) || try_swim r) then inl LSwim
  else if negb (bool_decide (wait_for = Some LActive) || try_active r) then inl LActive
  else
    match demotion (config m) (active m) with
    | Some _ =>
        if bool_decide (wait_for = Some LPassive) || try_passive r
        then inr (commit m peer now) else inl LPassive
    | None => inr (commit m peer now)
    end.

Definition round_waits (wait_for : option CommitLock) : Waits :=
  match wait_for with Some l => [([], l)] | None => [] end.

(** The fallback after [COMMIT_TRY_ROUNDS] busy rounds. *)
Definition commit_fallback (r : Round) (peer : PeerId) (now : Z) : HyParViewMembership * Waits :=
  let m := at_round r in
  (commit m peer now,
   [([], LSwim); ([LSwim], LActive)] ++
   match demotion (config m) (active m) with
   | Some _ => [([LSwim; LActive], LPassive)]
   | None => []
   end).

(** [budget] is [COMMIT_TRY_ROUNDS - busy_rounds]; [i] counts the rounds. *)
Fixpoint commit_rounds (env : nat → Round) (peer : PeerId) (now : Z) (budget i : nat) (wait_for : option CommitLock) :
    HyParViewMembership * Waits :=
  match budget with
  | O => commit_fallback (env i) peer now
  | S budget =>
      match commit_round (env i) wait_for peer now with
      | inr m => (m, round_waits wait_for)
      | inl busy =>
          let '(m, ws) := commit_rounds env peer now budget (S i) (Some busy) in
          (m, round_waits wait_for ++ ws)
      end
  end.

Definition commit_active (env : nat → Round) (peer : PeerId) (now : Z) : HyParViewMembership * Waits :=
  commit_rounds env peer now COMMIT_TRY_ROUNDS 0 None.

(** A call that finds its locks free. *)
Definition add_active (m : HyParViewMembership) (peer : PeerId) (now : Z) : HyParViewMembership :=
  (commit_active (λ _, mkRound m true true true) peer now).1.

Definition remove_active (m : HyParViewMembership) (peer : PeerId) (now : Z) : HyParViewMembership :=
  let removed := bool_decide (peer ∈ active m) in
  let m := set_active m (active m ∖ {[peer]}) in
  if removed then set_swim m (mark_dead (swim m) peer now) else m.

Definition promote (m : HyParViewMembership) (peer : PeerId) (now : Z) : HyParViewMembership :=
  let was_passive := bool_decide (peer ∈ passive m) in
  let m := set_passive m (passive m ∖ {[peer]}) in
  if was_passive then add_active m peer now else m.

(** [try_read] fails under contention. *)
Definition active_view (m : HyParViewMembership) (contended : bool) : list PeerId :=
  if contended then [] else siter (active m).
Definition passive_view (m : HyParViewMembership) (contended : bool) : list PeerId :=
  if contended then [] else siter (passive m).

(** ** Sampling and sending *)

Definition random_active_peer_except (m : HyParViewMembership) (exclude : PeerId) : option PeerId :=
  head (filter (λ p, p ≠ exclude) (siter (active m))).

Definition sample_active (m : HyParViewMembership) (count : Z) : list PeerId :=
  take (Z.to_nat count) (siter (active m)).
Definition sample_passive (m : HyParViewMembership) (count : Z) : list PeerId :=
  take (Z.to_nat count) (siter (passive m)).

Definition send_hyparview_message (w : Wire) (peer : PeerId) (msg : HyParViewMessage) : Wire * result () string :=
  send w peer (HyParView msg).

Definition send_ping (w : Wire) (target : PeerId) : Wire * result () string :=
  send w target (MembershipWire.Swim Ping).

(** ** Message handlers *)

Definition shuffle (m : HyParViewMembership) (w : Wire) : Wire * result () string :=
  match head (siter (active m)) with
  | None => (w, Ok ())
  | Some target =>
      let shuffle_list := [local_peer_id m]
        ++ sample_active m (shuffle_active_size (config m))
        ++ sample_passive m (shuffle_passive_size (config m)) in
      send_hyparview_message w target
        (Shuffle (local_peer_id m) shuffle_list PASSIVE_RANDOM_WALK_LENGTH)
  end.

(** A tick of the shuffle task: the target and the active sample come from one
    read of the active view; a failed send is only logged. *)
Definition shuffle_tick (m : HyParViewMembership) (w : Wire) : Wire :=
  match head (siter (active m)) with
  | None => w
  | Some target =>
      let shuffle_list := [local_peer_id m]
        ++ take (Z.to_nat (shuffle_active_size (config m))) (siter (active m))
        ++ take (Z.to_nat (shuffle_passive_size (config m))) (siter (passive m)) in
      (send w target (HyParView (Shuffle (local_peer_id m) shuffle_list PASSIVE_RANDOM_WALK_LENGTH))).1
  end.

(** The loop over received peers. *)
Definition integrate (m : HyParViewMembership) (peers : list PeerId) : HyParViewMembership :=
  foldl (λ m peer, if decide (peer ≠ local_peer_id m) then add_to_passive m peer else m) m peers.

Definition handle_shuffle (m : HyParViewMembership) (w : Wire) (sender : PeerId) (peers : list PeerId) (ttl : nat) (now : Z) :
    HyParViewMembership * Wire * result () string :=
  let m := see m sender now in
  let next :=
    if decide ((0 < ttl)%nat ∧ len (active m) > 1) then random_active_peer_except m sender else None in
  match next with
  | Some next =>
      let '(w, r) := send_hyparview_message w next (Shuffle sender peers (ttl - 1)) in
      (m, w, r)
  | None =>
      let reply_peers := sample_passive m (Z.of_nat (length peers)) in
      match send_hyparview_message w sender (ShuffleReply reply_peers) with
      | (w, Err e) => (m, w, Err e)
      | (w, Ok _) => (integrate m peers, w, Ok ())
      end
  end.

Definition handle_shuffle_reply (m : HyParViewMembership) (peers : list PeerId) : HyParViewMembership :=
  integrate m peers.

Definition handle_join (m : HyParViewMembership) (w : Wire) (new_peer : PeerId) (ttl : nat) (now_seen now_alive : Z) :
    HyParViewMembership * Wire * result () string :=
  let m := see m new_peer now_seen in
  let m := add_active m new_peer now_alive in
  let w :=
    if decide (0 < ttl)%nat then
      let forward_targets := filter (λ p, p ≠ new_peer) (siter (active m)) in
      send_best_effort w forward_targets
        (HyParView (ForwardJoin (local_peer_id m) new_peer (ttl - 1)))
    else w in
  (m, w, Ok ()).

Definition handle_forward_join (m : HyParViewMembership) (w : Wire) (_sender new_peer : PeerId) (ttl : nat) (now_seen now_alive : Z) :
    HyParViewMembership * Wire * result () string :=
  let m := see m new_peer now_seen in
  let active_count := len (active m) in
  let '(m, w, r) :=
    if decide (ttl = 0%nat ∨ active_count < active_degree (config m)) then
      let m := add_active m new_peer now_alive in
      let priority := if decide (active_count = 0) then High else Low in
      let '(w, r) := send_hyparview_message w new_peer (Neighbor (local_peer_id m) priority) in
      (m, w, r)
    else
      match random_active_peer_except m new_peer with
      | Some next =>
          let '(w, r) := send_hyparview_message w next
            (ForwardJoin (local_peer_id m) new_peer (ttl - 1)) in
          (m, w, r)
      | None => (m, w, Ok ())
      end in
  match r with
  | Err e => (m, w, Err e)
  | Ok _ =>
      (if decide (ttl = PASSIVE_RANDOM_WALK_LENGTH) then add_to_passive m new_peer else m, w, Ok ())
  end.

Definition handle_neighbor (m : HyParViewMembership) (w : Wire) (sender : PeerId) (priority : NeighborPriority) (now_seen now_alive : Z) :
    HyParViewMembership * Wire * result () string :=
  let m := see m sender now_seen in
  let active_count := len (active m) in
  let accepted :=
    bool_decide (priority = High) || bool_decide (active_count < max_active_degree (config m)) in
  let m := if accepted then add_active m sender now_alive else m in
  let '(w, r) := send_hyparview_message w sender (NeighborReply accepted) in
  (m, w, r).

Definition handle_neighbor_reply (m : HyParViewMembership) (sender : PeerId) (accepted : bool) (now : Z) :
    HyParViewMembership :=
  if accepted then set_swim m (mark_alive (swim m) sender now)
  else if decide (sender ∈ active m)
  then add_to_passive (set_active m (active m ∖ {[sender]})) sender
  else m.

Definition handle_disconnect (m : HyParViewMembership) (sender : PeerId) (now_dead now_alive : Z) : HyParViewMembership :=
  let m := remove_active m sender now_dead in
  match head (siter (passive m)) with
  | Some candidate => promote m candidate now_alive
  | None => m
  end.

(** ** Dispatch

    [clk] gives the successive readings of the clock during the call. *)

Definition dispatch_hyparview (m : HyParViewMembership) (w : Wire) (sender : PeerId) (msg : HyParViewMessage) (clk : nat → Z) :
    HyParViewMembership * Wire * result () string :=
  match msg with
  | Join join_sender ttl => handle_join m w join_sender ttl (clk 0%nat) (clk 1%nat)
  | ForwardJoin fwd_sender new_peer ttl =>
      handle_forward_join m w fwd_sender new_peer ttl (clk 0%nat) (clk 1%nat)
  | Neighbor nbr_sender priority => handle_neighbor m w nbr_sender priority (clk 0%nat) (clk 1%nat)
  | NeighborReply accepted => (handle_neighbor_reply m sender accepted (clk 0%nat), w, Ok ())
  | Shuffle shuf_sender peers ttl => handle_shuffle m w shuf_sender peers ttl (clk 0%nat)
  | ShuffleReply peers => (handle_shuffle_reply m peers, w, Ok ())
  | Disconnect => (handle_disconnect m sender (clk 0%nat) (clk 1%nat), w, Ok ())
  end.

Section Dispatch.
Context `{!HashIter (PeerId * PeerId) Z}.

Definition dispatch_swim (m : HyParViewMembership) (w : Wire) (sender : PeerId) (msg : SwimMessage) (clk : nat → Z) :
    HyParViewMembership * Wire * result () string :=
  let '(d, w, r) :=
    match msg with
    | Ping => handle_ping (swim m) w sender (clk 0%nat)
    | Ack => handle_ack (swim m) w sender (clk 0%nat) (clk 1%nat)
    | PingReq target requester => handle_ping_req (swim m) w requester target (clk 0%nat)
    | AckResponse target _ =>
        let '(d, r) := handle_ack_response (swim m) target (clk 0%nat) in (d, w, r)
    end in
  (set_swim m d, w, r).

Definition dispatch (m : HyParViewMembership) (w : Wire) (sender : PeerId) (msg : MembershipProtocolMessage) (clk : nat → Z) :
    HyParViewMembership * Wire * result () string :=
  match msg with
  | HyParView hpv_msg => dispatch_hyparview m w sender hpv_msg clk
  | MembershipWire.Swim swim_msg => dispatch_swim m w sender swim_msg clk
  end.

Definition dispatch_message (m : HyParViewMembership) (w : Wire) (sender : PeerId) (data : list Z) (clk : nat → Z) :
    HyParViewMembership * Wire * result () string :=
  match from_bytes data with
  | Err e => (m, w, Err e)
  | Ok msg => dispatch m w sender msg clk
  end.
End Dispatch.

(** ** Adaptive degrees *)

Section Adaptive.
(** [(n as f64).ln() * 2.0], rounded up, as [usize]: the standard library
    does not fix the precision of [ln]. *)
Context (ceil_2ln : Z → Z).

(** Peers seen in the last five minutes. *)
Definition recent (now t : Z) : Prop := elapsed_ns now t < from_secs 300.
#[global] Instance recent_dec now t : Decision (recent now t).
Proof. unfold recent. apply _. Defined.

Definition estimated_network_size (m : HyParViewMembership) (now : Z) : Z :=
  Z.max (len (active m) + len (passive m) + 1)
    (Z.of_nat (size (filter (λ pt, recent now pt.2) (seen_peers m)))).

(** [Ord::clamp], which panics unless [min <= max]. *)
Definition clamp (x lo hi : Z) : option Z :=
  if decide (lo <= hi) then Some (if decide (x < lo) then lo else if decide (x > hi) then hi else x)
  else None.

Definition calculate_adaptive_degrees (m : HyParViewMembership) (now : Z) : option (Z * Z) :=
  let c := config m in
  if negb (adaptive_enabled c) then Some (active_degree c, max_passive_degree c)
  else
    let n := estimated_network_size m now in
    act ← clamp (ceil_2ln n) (active_degree c) (max_active_degree c);
    pas ← clamp (u64_wrap (act * 8)) (u64_wrap (active_degree c * 8)) (max_passive_degree c);
    Some (act, pas).

(** At most 2 towards the target. *)
Definition smooth (prev target : Z) : Z :=
  if decide (target > prev) then prev + Z.min (target - prev) 2 else prev - Z.min (prev - target) 2.

(** ** Degree maintenance *)

Definition retain_active (m : HyParViewMembership) (connected : gset PeerId) : HyParViewMembership :=
  let disconnected := active m ∖ connected in
  let act := active m ∩ connected in
  let pas := passive m ∪ (disconnected ∖ {[local_peer_id m]}) in
  let m := set_swim (set_active m act) (retain_connected (swim m) connected) in
  set_passive m (pas ∖ ({[local_peer_id m]} ∪ act)).

Definition promote_one (now : PeerId → Z) (m : HyParViewMembership) (peer : PeerId) : HyParViewMembership :=
  let m := set_passive m (passive m ∖ {[peer]}) in
  let m := set_active m ({[peer]} ∪ active m) in
  set_swim m (mark_alive (swim m) peer (now peer)).

Definition demote_one (smoothed_passive : Z) (m : HyParViewMembership) (peer : PeerId) : HyParViewMembership :=
  let m := set_active m (active m ∖ {[peer]}) in
  if decide (len (passive m) < smoothed_passive) then set_passive m ({[peer]} ∪ passive m) else m.

(** The critical section of a tick, with every lock held. *)
Definition maintain (m : HyParViewMembership) (smoothed_active smoothed_passive : Z) (connected : gset PeerId) (now : PeerId → Z) :
    HyParViewMembership :=
  let m := retain_active m connected in
  let active_count := len (active m) in
  let m :=
    if decide (active_count < smoothed_active ∧ passive m ≠ ∅) then
      let to_promote := smoothed_active - active_count in
      let peers := take (Z.to_nat to_promote) (filter (λ p, p ∈ connected) (siter (passive m))) in
      foldl (promote_one now) m peers
    else m in
  let m :=
    if decide (active_count > max_active_degree (config m)) then
      let to_demote := active_count - max_active_degree (config m) in
      let peers := take (Z.to_nat to_demote) (siter (active m)) in
      foldl (demote_one smoothed_passive) m peers
    else m in
  let passive_count := len (passive m) in
  if decide (passive_count > smoothed_passive) then
    let to_remove := passive_count - smoothed_passive in
    let peers := take (Z.to_nat to_remove) (siter (passive m)) in
    foldl (λ m peer, set_passive m (passive m ∖ {[peer]})) m peers
  else m.

(** The task's own variables: the degrees of the last tick. *)
Record MaintTask := mkMaint { prev_active_target : Z; prev_passive_max : Z }.

Definition maint_init (c : MembershipConfig) : MaintTask := mkMaint (active_degree c) (max_passive_degree c).

(** One tick; [None] is a panic, which ends the task. *)
Definition maintenance_tick (m : HyParViewMembership) (t : MaintTask) (now_degrees : Z) (connected : gset PeerId)
    (now_alive : PeerId → Z) (now_seen : Z) : option (HyParViewMembership * MaintTask) :=
  '(target_active, target_passive) ← calculate_adaptive_degrees m now_degrees;
  let smoothed_active := smooth (prev_active_target t) target_active in
  let smoothed_passive := smooth (prev_passive_max t) target_passive in
  let m := maintain m smoothed_active smoothed_passive connected now_alive in
  Some (set_seen m (filter (λ pt, recent now_seen pt.2) (seen_peers m)),
        mkMaint smoothed_active smoothed_passive).
End Adaptive.

(** ** Views *)

Lemma len_empty : len ∅ = 0.
Proof. unfold len. by rewrite size_empty. Qed.

Lemma len_nonneg (v : gset PeerId) : 0 <= len v.
Proof. unfold len. lia. Qed.

Lemma len_add (v : gset PeerId) (p : PeerId) :
  len ({[p]} ∪ v) = len v + if decide (p ∈ v) then 0 else 1.
Proof.
  unfold len. case_decide as Hp.
  - replace ({[p]} ∪ v) with v by set_solver. lia.
  - rewrite size_union by set_solver. rewrite size_singleton. lia.
Qed.

Lemma len_remove (v : gset PeerId) (p : PeerId) :
  len (v ∖ {[p]}) = len v - if decide (p ∈ v) then 1 else 0.
Proof.
  unfold len. case_decide as Hp.
  - rewrite size_difference by set_solver. rewrite size_singleton.
    assert (size v ≠ 0)%nat by (intros E%size_empty_iff; set_solver). lia.
  - replace (v ∖ {[p]}) with v by set_solver. lia.
Qed.

Lemma len_mono (v v' : gset PeerId) : v ⊆ v' → len v <= len v'.
Proof. intros. unfold len. apply inj_le. by apply subseteq_size. Qed.

Lemma head_siter_Some (v : gset PeerId) (p : PeerId) : head (siter v) = Some p → p ∈ v.
Proof.
  intros Hh. apply elem_of_siter. destruct (siter v); [done|]. injection Hh as ->. by left.
Qed.

Lemma head_siter_None (v : gset PeerId) : head (siter v) = None → v = ∅.
Proof.
  intros Hh. apply set_eq. intros x. rewrite <-elem_of_siter. destruct (siter v); [set_solver|done].
Qed.

Lemma demotion_Some (c : MembershipConfig) (v : gset PeerId) (q : PeerId) :
  demotion c v = Some q → q ∈ v ∧ active_degree c <= len v.
Proof. unfold demotion. case_decide; [|done]. intros ?%head_siter_Some. split; [done|lia]. Qed.

Lemma demotion_None (c : MembershipConfig) (v : gset PeerId) :
  demotion c v = None → len v < active_degree c ∨ v = ∅.
Proof. unfold demotion. case_decide; [intros ?%head_siter_None; by right|]. left. lia. Qed.

(** The peers a commit demotes, as a set. *)
Definition demoted (m : HyParViewMembership) : gset PeerId :=
  match demotion (config m) (active m) with Some q => {[q]} | None => ∅ end.

Lemma commit_active_eq (m : HyParViewMembership) (peer : PeerId) (now : Z) :
  active (commit m peer now) = {[peer]} ∪ active m ∖ demoted m.
Proof. unfold commit, demoted. destruct (demotion _ _); cbn; [done|]. set_solver. Qed.

Lemma commit_passive_eq (m : HyParViewMembership) (peer : PeerId) (now : Z) :
  passive (commit m peer now) =
  if decide (len (passive m) < max_passive_degree (config m)) then demoted m ∪ passive m else passive m.
Proof. unfold commit, demoted. destruct (demotion _ _); cbn; case_decide; set_solver. Qed.

Lemma commit_rest (m : HyParViewMembership) (peer : PeerId) (now : Z) :
  local_peer_id (commit m peer now) = local_peer_id m ∧ config (commit m peer now) = config m ∧
  swim (commit m peer now) = mark_alive (swim m) peer now ∧
  peer_addrs (commit m peer now) = peer_addrs m ∧ seen_peers (commit m peer now) = seen_peers m.
Proof. unfold commit. by destruct (demotion _ _). Qed.

Lemma commit_active_uncontended (m : HyParViewMembership) (peer : PeerId) (now : Z) :
  commit_active (λ _, mkRound m true true true) peer now = (commit m peer now, []).
Proof.
  unfold commit_active. cbn. unfold commit_round. cbn. by destruct (demotion _ _).
Qed.

Lemma add_active_eq (m : HyParViewMembership) (peer : PeerId) (now : Z) :
  add_active m peer now = commit m peer now.
Proof. unfold add_active. by rewrite commit_active_uncontended. Qed.

(** How large a commit can leave the views. *)
Lemma commit_len (m : HyParViewMembership) (peer : PeerId) (now : Z) :
  len (active (commit m peer now)) <= Z.max (len (active m)) (Z.max 1 (active_degree (config m))) ∧
  len (passive (commit m peer now)) <= Z.max (len (passive m)) (max_passive_degree (config m)).
Proof.
  rewrite commit_active_eq, commit_passive_eq. unfold demoted.
  destruct (demotion (config m) (active m)) as [q|] eqn:Hd.
  - apply demotion_Some in Hd as [Hq Hlen]. split.
    + rewrite len_add, len_remove. rewrite (decide_True (P := q ∈ active m)) by done. case_decide; lia.
    + case_decide; [|lia]. rewrite len_add. case_decide; lia.
  - apply demotion_None in Hd. replace (active m ∖ ∅) with (active m) by set_solver.
    replace (∅ ∪ passive m) with (passive m) by set_solver. split; [|case_decide; lia].
    rewrite len_add. destruct Hd as [Hd| ->]; [case_decide; lia|]. rewrite len_empty. case_decide; lia.
Qed.

(** ** The lock protocol *)

(** The fixed order: SWIM state, active view, passive view. *)
Definition rank (l : CommitLock) : nat :=
  match l with LSwim => 0 | LActive => 1 | LPassive => 2 end.

Lemma commit_round_inr (r : Round) (wait_for : option CommitLock) (peer : PeerId) (now : Z) (m : HyParViewMembership) :
  commit_round r wait_for peer now = inr m → m = commit (at_round r) peer now.
Proof.
  unfold commit_round. intros Hr. repeat case_match; congruence.
Qed.

Lemma commit_rounds_spec (env : nat → Round) (peer : PeerId) (now : Z) (budget i : nat) (wait_for : option CommitLock) :
  ∃ k, (i <= k <= i + budget)%nat ∧
    (commit_rounds env peer now budget i wait_for).1 = commit (at_round (env k)) peer now ∧
    ∀ held l, (held, l) ∈ (commit_rounds env peer now budget i wait_for).2 →
      held = [] ∨ (k = (i + budget)%nat ∧ ∀ h, h ∈ held → (rank h < rank l)%nat).
Proof.
  revert i wait_for. induction budget as [|b IH]; intros i wait_for; cbn [commit_rounds].
  - exists i. split; [lia|]. split; [done|]. intros held l Hin. right. split; [lia|].
    intros h Hh. unfold commit_fallback in Hin. cbn [snd] in Hin. destruct (demotion _ _); cbn in Hin;
      repeat (apply elem_of_cons in Hin as [[= -> ->]|Hin]); set_unfold; destruct_or?; subst; cbn; try lia; done.
  - destruct (commit_round (env i) wait_for peer now) as [busy|m] eqn:Hr.
    + destruct (IH (S i) (Some busy)) as (k & Hk & Hm & Hw).
      destruct (commit_rounds env peer now b (S i) (Some busy)) as [m ws]. cbn [fst snd] in *.
      exists k. split; [lia|]. split; [done|]. intros held l [Hin|Hin]%elem_of_app.
      * left. destruct wait_for; cbn in Hin; set_unfold; naive_solver.
      * destruct (Hw held l Hin) as [|[-> ?]]; [by left|]. right. split; [lia|done].
    + apply commit_round_inr in Hr as ->. exists i. split; [lia|]. split; [done|].
      intros held l Hin. left. cbn [snd] in Hin. destruct wait_for; cbn in Hin; set_unfold; naive_solver.
Qed.

(** The active-view commit completes whatever the contention: after at
    most eight busy rounds it has all its locks in some round [k], and its
    whole effect is one atomic commit on the membership as it is then.  It
    holds none of the three locks while it waits for another, except in the
    fallback round, where it waits in the fixed lock order. *)
Theorem commit_lock_discipline (env : nat → Round) (peer : PeerId) (now : Z) :
  ∃ k, (k <= COMMIT_TRY_ROUNDS)%nat ∧
    (commit_active env peer now).1 = commit (at_round (env k)) peer now ∧
    ∀ held l, (held, l) ∈ (commit_active env peer now).2 →
      held = [] ∨ (k = COMMIT_TRY_ROUNDS ∧ ∀ h, h ∈ held → (rank h < rank l)%nat).
Proof.
  destruct (commit_rounds_spec env peer now COMMIT_TRY_ROUNDS 0 None) as (k & Hk & Hm & Hw).
  exists k. split; [lia|]. split; [done|exact Hw].
Qed.

(** What a commit does.  The peer is in the active view and Alive in SWIM;
    a view that has reached its target degree gives up one peer (its first)
    to the passive view when there is room, and nothing else changes.  A new
    peer therefore never grows a full view; but when the peer was active
    already, a full view shrinks, or the peer ends up in both views. *)
Theorem commit_effect (m : HyParViewMembership) (peer : PeerId) (now : Z) :
  let m' := add_active m peer now in
  peer ∈ active m' ∧ get_state (swim m') peer = Some Alive ∧
  (len (active m) < active_degree (config m) →
    active m' = {[peer]} ∪ active m ∧ passive m' = passive m) ∧
  (active_degree (config m) <= len (active m) → active m ≠ ∅ →
    ∃ q, q ∈ active m ∧ active m' = {[peer]} ∪ active m ∖ {[q]} ∧
      passive m' = (if decide (len (passive m) < max_passive_degree (config m)) then {[q]} ∪ passive m else passive m) ∧
      (peer ∉ active m → len (active m') = len (active m)) ∧
      (peer ∈ active m → peer ≠ q → len (active m') = len (active m) - 1)).
Proof.
  cbn zeta. rewrite add_active_eq.
  rewrite commit_passive_eq, commit_active_eq. destruct (commit_rest m peer now) as (_ & _ & -> & _).
  split; [set_solver|]. split; [by apply is_alive_mark_alive|].
  unfold demoted. destruct (demotion (config m) (active m)) as [q|] eqn:Hd.
  - apply demotion_Some in Hd as [Hq Hlen]. split; [lia|]. intros _ _. exists q.
    split; [done|]. split; [done|]. split; [done|]. rewrite len_add, len_remove.
    rewrite (decide_True (P := q ∈ active m)) by done. split; intros Hp.
    + rewrite decide_False by set_solver. lia.
    + intros Hne. rewrite decide_True by set_solver. lia.
  - apply demotion_None in Hd. split.
    + intros _. split; [set_solver|]. case_decide; set_solver.
    + intros Hlen Hne. exfalso. destruct Hd; [lia|done].
Qed.

(** ** Degree maintenance *)

Lemma foldl_promote (now : PeerId → Z) (l : list PeerId) (m : HyParViewMembership) :
  let m' := foldl (promote_one now) m l in
  active m' = list_to_set l ∪ active m ∧ passive m' = passive m ∖ list_to_set l ∧
  local_peer_id m' = local_peer_id m ∧ config m' = config m ∧ seen_peers m' = seen_peers m ∧
  (∀ p, is_Some (states (swim m') !! p) ↔ p ∈ l ∨ is_Some (states (swim m) !! p)).
Proof.
  cbn zeta. revert m. induction l as [|q l IH]; intros m; cbn [foldl].
  - cbn. repeat split; [set_solver|set_solver|set_solver..].
  - destruct (IH (promote_one now m q)) as (-> & -> & -> & -> & -> & Hs). cbn.
    repeat split; [set_solver|set_solver| |].
    + rewrite Hs. cbn. unfold set_alive. rewrite lookup_insert_is_Some'. set_solver.
    + rewrite Hs. cbn. unfold set_alive. rewrite lookup_insert_is_Some'. set_solver.
Qed.

Lemma foldl_demote (sp : Z) (l : list PeerId) (m : HyParViewMembership) :
  let m' := foldl (demote_one sp) m l in
  active m' = active m ∖ list_to_set l ∧ passive m ⊆ passive m' ⊆ passive m ∪ list_to_set l ∧
  len (passive m') <= Z.max (len (passive m)) sp ∧
  local_peer_id m' = local_peer_id m ∧ config m' = config m ∧ swim m' = swim m ∧ seen_peers m' = seen_peers m.
Proof.
  cbn zeta. revert m. induction l as [|q l IH]; intros m; cbn [foldl].
  - repeat split; [set_solver|set_solver|set_solver|lia].
  - destruct (IH (demote_one sp m q)) as (-> & Hp & Hlen & -> & -> & -> & ->).
    unfold demote_one in *. cbn in *. case_decide as Hroom; cbn in *.
    + rewrite len_add in Hlen. repeat split; [set_solver..|]. case_decide; lia.
    + repeat split; [set_solver..|lia].
Qed.

Lemma foldl_trim (l : list PeerId) (m : HyParViewMembership) :
  let m' := foldl (λ m peer, set_passive m (passive m ∖ {[peer]})) m l in
  passive m' = passive m ∖ list_to_set l ∧ active m' = active m ∧
  local_peer_id m' = local_peer_id m ∧ config m' = config m ∧ swim m' = swim m ∧ seen_peers m' = seen_peers m.
Proof.
  cbn zeta. revert m. induction l as [|q l IH]; intros m; cbn [foldl].
  - repeat split. set_solver.
  - destruct (IH (set_passive m (passive m ∖ {[q]}))) as (-> & -> & -> & -> & -> & ->). cbn.
    repeat split. set_solver.
Qed.

Lemma length_siter (v : gset PeerId) : Z.of_nat (length (siter v)) = len v.
Proof. rewrite (siter_perm v). done. Qed.

Lemma len_list_to_set (l : list PeerId) : NoDup l → len (list_to_set l) = Z.of_nat (length l).
Proof. intros. unfold len. by rewrite size_list_to_set. Qed.

(** Removing the first [n] peers of a view. *)
Lemma len_remove_prefix (v : gset PeerId) (n : Z) :
  0 <= n <= len v → len (v ∖ list_to_set (take (Z.to_nat n) (siter v))) = len v - n.
Proof.
  intros Hn. pose proof (length_siter v) as Hl.
  assert (NoDup (take (Z.to_nat n) (siter v))) as Hnd.
  { eapply sublist_NoDup; [apply siter_NoDup|]. apply sublist_take. }
  assert (list_to_set (take (Z.to_nat n) (siter v)) ⊆ v) as Hsub.
  { intros x [y Hx]%elem_of_list_to_set%list_elem_of_lookup. apply lookup_take_Some in Hx as [Hx _].
    apply elem_of_siter, list_elem_of_lookup. eauto. }
  unfold len in *. rewrite size_difference by done. rewrite size_list_to_set by done.
  rewrite length_take. lia.
Qed.

Lemma take_siter_sub (v : gset PeerId) (n : nat) (p : PeerId) : p ∈ take n (siter v) → p ∈ v.
Proof.
  intros [i Hi]%list_elem_of_lookup. apply lookup_take_Some in Hi as [Hi _].
  apply elem_of_siter, list_elem_of_lookup. eauto.
Qed.

(** The membership after each stage of a maintenance tick. *)
Definition healed (m : HyParViewMembership) (sa : Z) (connected : gset PeerId) (now : PeerId → Z) : HyParViewMembership :=
  let m := retain_active m connected in
  if decide (len (active m) < sa ∧ passive m ≠ ∅) then
    foldl (promote_one now) m
      (take (Z.to_nat (sa - len (active m))) (filter (λ p, p ∈ connected) (siter (passive m))))
  else m.

(** The connected peers known to either view. *)
Definition candidates (m : HyParViewMembership) (connected : gset PeerId) : gset PeerId :=
  (active m ∪ passive m) ∩ connected.

Lemma retain_active_sets (m : HyParViewMembership) (connected : gset PeerId) :
  local_peer_id m ∉ connected →
  active (retain_active m connected) = active m ∩ connected ∧
  active (retain_active m connected) ∪ (passive (retain_active m connected) ∩ connected) = candidates m connected ∧
  active (retain_active m connected) ## passive (retain_active m connected) ∧
  local_peer_id m ∉ passive (retain_active m connected).
Proof.
  intros Hl. unfold retain_active, candidates. cbn. repeat split; [|set_solver..].
  apply set_eq. intros x. destruct (decide (x ∈ connected)), (decide (x ∈ active m)); set_solver.
Qed.

(** Promotion takes connected candidates until the target or the candidates
    are reached. *)
Lemma healed_spec (m : HyParViewMembership) (sa : Z) (connected : gset PeerId) (now : PeerId → Z) :
  local_peer_id m ∉ connected →
  let m1 := retain_active m connected in
  let m' := healed m sa connected now in
  active m1 ⊆ active m' ⊆ connected ∧ active m' ## passive m' ∧ local_peer_id m ∉ passive m' ∧
  Z.min sa (len (candidates m connected)) <= len (active m') <= Z.max sa (len (active m1)) ∧
  (sa <= len (active m1) → m' = m1) ∧
  config m' = config m ∧ local_peer_id m' = local_peer_id m ∧ seen_peers m' = seen_peers m ∧
  (∀ p, is_Some (states (swim m') !! p) → p ∈ connected).
Proof.
  intros Hl. cbn zeta. destruct (retain_active_sets m connected Hl) as (Ha & Hc & Hd & Hlp).
  assert (∀ p, is_Some (states (swim (retain_active m connected)) !! p) → p ∈ connected) as Hst.
  { intros p [e [_ He]%map_lookup_filter_Some]. done. }
  unfold healed. case_decide as Hcond.
  - set (m1 := retain_active m connected) in *.
    set (cand := filter (λ p, p ∈ connected) (siter (passive m1))).
    set (l := take (Z.to_nat (sa - len (active m1))) cand).
    destruct (foldl_promote now l m1) as (-> & -> & -> & -> & -> & Hs).
    assert (∀ p, p ∈ l → p ∈ passive m1 ∧ p ∈ connected) as Hin.
    { intros p [i [Hi _]%lookup_take_Some]%list_elem_of_lookup. apply list_elem_of_lookup_2 in Hi.
      apply list_elem_of_filter in Hi as [? ?]. by rewrite elem_of_siter in *. }
    assert (NoDup cand) as Hndc by apply NoDup_filter, siter_NoDup.
    assert (NoDup l) as Hnd by (eapply sublist_NoDup; [exact Hndc|apply sublist_take]).
    assert (len (list_to_set l ∪ active m1) = Z.of_nat (length l) + len (active m1)) as Hlen.
    { unfold len. rewrite size_union by set_solver. rewrite size_list_to_set by done. lia. }
    assert (len (candidates m connected) = len (active m1) + Z.of_nat (length cand)) as Hcand.
    { rewrite <-Hc. unfold len. rewrite size_union by set_solver.
      assert (passive m1 ∩ connected = list_to_set cand) as ->.
      { apply set_eq. intros x. rewrite elem_of_list_to_set. unfold cand.
        rewrite list_elem_of_filter, elem_of_siter. set_solver. }
      rewrite size_list_to_set by done. lia. }
    rewrite Hlen, Hcand. pose proof (length_take cand (Z.to_nat (sa - len (active m1)))) as Hlt.
    fold l in Hlt. split; [set_solver|]. split; [set_solver|]. split; [set_solver|].
    split; [lia|]. split; [lia|]. repeat split.
    intros p Hp. apply Hs in Hp as [Hp|Hp]; [by apply Hin|by apply Hst].
  - split; [set_solver|]. split; [done|]. split; [done|]. split; [|repeat split; done].
    split; [|lia]. destruct (decide (len (active (retain_active m connected)) < sa)) as [Hlt|]; [|lia].
    assert (passive (retain_active m connected) = ∅) as Hemp.
    { destruct (decide (passive (retain_active m connected) = ∅)); [done|]. exfalso. by apply Hcond. }
    rewrite <-Hc, Hemp. replace (active (retain_active m connected) ∪ ∅ ∩ connected)
      with (active (retain_active m connected)) by set_solver. lia.
Qed.

(** The demotion stage. *)
Definition shrunk (m : HyParViewMembership) (count sp : Z) : HyParViewMembership :=
  if decide (count > max_active_degree (config m)) then
    foldl (demote_one sp) m (take (Z.to_nat (count - max_active_degree (config m))) (siter (active m)))
  else m.

(** The trimming stage. *)
Definition trimmed (m : HyParViewMembership) (sp : Z) : HyParViewMembership :=
  if decide (len (passive m) > sp) then
    foldl (λ m peer, set_passive m (passive m ∖ {[peer]})) m
      (take (Z.to_nat (len (passive m) - sp)) (siter (passive m)))
  else m.

Lemma maintain_stages (m : HyParViewMembership) (sa sp : Z) (connected : gset PeerId) (now : PeerId → Z) :
  maintain m sa sp connected now =
  trimmed (shrunk (healed m sa connected now) (len (active (retain_active m connected))) sp) sp.
Proof. done. Qed.

Lemma trimmed_spec (m : HyParViewMembership) (sp : Z) :
  0 <= sp →
  let m' := trimmed m sp in
  passive m' ⊆ passive m ∧ len (passive m') <= sp ∧ active m' = active m ∧
  local_peer_id m' = local_peer_id m ∧ config m' = config m ∧ swim m' = swim m ∧ seen_peers m' = seen_peers m.
Proof.
  intros Hsp. cbn zeta. unfold trimmed. case_decide.
  - destruct (foldl_trim (take (Z.to_nat (len (passive m) - sp)) (siter (passive m))) m)
      as (-> & -> & -> & -> & -> & ->).
    rewrite len_remove_prefix by lia. repeat split; [set_solver|lia].
  - repeat split; [done|lia].
Qed.

Lemma shrunk_spec (m : HyParViewMembership) (count sp : Z) :
  0 <= max_active_degree (config m) → count <= len (active m) →
  let m' := shrunk m count sp in
  active m' ⊆ active m ∧ passive m ⊆ passive m' ⊆ passive m ∪ (active m ∖ active m') ∧
  len (active m') = len (active m) - Z.max 0 (count - max_active_degree (config m)) ∧
  local_peer_id m' = local_peer_id m ∧ config m' = config m ∧ swim m' = swim m ∧ seen_peers m' = seen_peers m.
Proof.
  intros Hmax Hcount. cbn zeta. unfold shrunk. case_decide.
  - set (l := take _ (siter (active m))).
    assert (∀ p, p ∈ l → p ∈ active m) as Hl by (intros p; apply take_siter_sub).
    destruct (foldl_demote sp l m) as (-> & Hp & _ & -> & -> & -> & ->).
    unfold l at 5. rewrite len_remove_prefix by lia. repeat split; [set_solver..|lia].
  - repeat split; [set_solver..|lia].
Qed.

Lemma maintain_spec (m : HyParViewMembership) (sa sp : Z) (connected : gset PeerId) (now : PeerId → Z) :
  local_peer_id m ∉ connected → 0 <= sp → sa <= max_active_degree (config m) → 0 <= max_active_degree (config m) →
  let m' := maintain m sa sp connected now in
  active m' ⊆ connected ∧ active m' ## passive m' ∧ local_peer_id m ∉ active m' ∪ passive m' ∧
  Z.min sa (len (candidates m connected)) <= len (active m') <= max_active_degree (config m) ∧
  len (passive m') <= sp ∧ (∀ p, is_Some (states (swim m') !! p) → p ∈ connected) ∧
  config m' = config m ∧ local_peer_id m' = local_peer_id m ∧ seen_peers m' = seen_peers m.
Proof.
  intros Hl Hsp Hsa Hmax. cbn zeta. rewrite maintain_stages.
  destruct (healed_spec m sa connected now Hl) as (Ha & Hd & Hlp & Hlen & Hfull & Hc & Hlocal & Hseen & Hst).
  set (h := healed m sa connected now) in *. set (count := len (active (retain_active m connected))) in *.
  assert (count <= len (active h)) as Hcount by (apply len_mono, Ha).
  destruct (shrunk_spec h count sp) as (Sa & Sp & Slen & Slocal & Sc & Ssw & Sseen); [by rewrite Hc|done|].
  set (s := shrunk h count sp) in *. rewrite Hc in Slen.
  destruct (trimmed_spec s sp Hsp) as (Tp & Tlen & -> & -> & -> & -> & ->).
  set (t := trimmed s sp) in *. rewrite Sc, Hc, Slocal, Hlocal, Sseen, Hseen, Ssw.
  split; [set_solver|]. split; [set_solver|]. split; [set_solver|]. split.
  - rewrite Slen. destruct (decide (count <= max_active_degree (config m))) as [Hle|Hgt]; [lia|].
    rewrite Hfull in * by lia. fold count. lia.
  - repeat split; done.
Qed.

(** C24. Degree maintenance heals the views, from any state: afterwards every
    active peer has a live connection and so does every peer SWIM still
    tracks, the views are disjoint and do not contain this node, the passive
    view is within its limit, and the active view is within its maximum and
    holds at least as many peers as the target, or every connected peer that
    the node knew. *)
Theorem maintenance_heals (m : HyParViewMembership) (sa sp : Z) (connected : gset PeerId) (now : PeerId → Z) :
  local_peer_id m ∉ connected → 0 <= sp → sa <= max_active_degree (config m) → 0 <= max_active_degree (config m) →
  let m' := maintain m sa sp connected now in
  active m' ⊆ connected ∧ (∀ p, is_Some (states (swim m') !! p) → p ∈ connected) ∧
  active m' ## passive m' ∧ local_peer_id m ∉ active m' ∪ passive m' ∧
  len (passive m') <= sp ∧
  Z.min sa (len ((active m ∪ passive m) ∩ connected)) <= len (active m') <= max_active_degree (config m).
Proof.
  intros. cbn zeta. destruct (maintain_spec m sa sp connected now) as (? & ? & ? & ? & ? & ? & _); done.
Qed.

(** ** Adaptive degrees *)

Lemma clamp_Some (x lo hi y : Z) : clamp x lo hi = Some y → lo <= y <= hi.
Proof. unfold clamp. repeat case_decide; intros [=]; lia. Qed.

Lemma clamp_is_Some (x lo hi : Z) : is_Some (clamp x lo hi) ↔ lo <= hi.
Proof.
  unfold clamp. case_decide; split; intros Hc; done.
Qed.

Lemma smooth_bounds (prev target lo hi : Z) :
  lo <= prev <= hi → lo <= target <= hi → lo <= smooth prev target <= hi.
Proof. unfold smooth. case_decide; lia. Qed.

(** Every tick moves the degree by at most 2, never past the target, and
    reaches it when it is within 2. *)
Lemma smooth_step (prev target : Z) :
  Z.abs (smooth prev target - prev) <= 2 ∧
  Z.abs (smooth prev target - target) = Z.max 0 (Z.abs (prev - target) - 2).
Proof. unfold smooth. case_decide; lia. Qed.

(** The configurations with which adaptive degrees can be computed. *)
Definition config_valid (c : MembershipConfig) : Prop :=
  adaptive_enabled c = true →
  active_degree c <= max_active_degree c ∧ u64_wrap (active_degree c * 8) <= max_passive_degree c.

Lemma degrees_spec (ceil_2ln : Z → Z) (m : HyParViewMembership) (now : Z) :
  match calculate_adaptive_degrees ceil_2ln m now with
  | Some (act, pas) =>
      config_valid (config m) ∧
      active_degree (config m) <= act <= Z.max (active_degree (config m)) (max_active_degree (config m)) ∧
      pas <= max_passive_degree (config m) ∧
      (0 <= max_passive_degree (config m) → 0 <= pas)
  | None => ¬ config_valid (config m)
  end.
Proof.
  unfold calculate_adaptive_degrees, config_valid. destruct (adaptive_enabled (config m)); cbn [negb].
  - destruct (clamp (ceil_2ln _) _ _) as [act|] eqn:H1; cbn [mbind option_bind].
    + pose proof (clamp_Some _ _ _ _ H1). destruct (clamp (u64_wrap (act * 8)) _ _) as [pas|] eqn:H2; cbn.
      * pose proof (clamp_Some _ _ _ _ H2). pose proof (u64_wrap_range (active_degree (config m) * 8)) as Hr.
        unfold u64 in Hr. repeat split; intros; try lia.
      * intros Hv. destruct (Hv eq_refl) as [_ Hv2]. apply (clamp_is_Some (u64_wrap (act * 8))) in Hv2 as [? ?]. congruence.
    + intros Hv. destruct (Hv eq_refl) as [Hv1 _].
      apply (clamp_is_Some (ceil_2ln (estimated_network_size m now))) in Hv1 as [? ?]. congruence.
  - repeat split; intros; try done; lia.
Qed.

(** A maintenance tick returns exactly when the configuration is valid:
    with adaptive degrees and an active degree above the maximum, or eight
    times the active degree above the passive maximum, [Ord::clamp] panics at
    the first tick and the task ends.  When it returns, the degrees moved by
    at most 2. *)
Theorem maintenance_tick_panics (ceil_2ln : Z → Z) (m : HyParViewMembership) (t : MaintTask) (now_degrees : Z)
    (connected : gset PeerId) (now_alive : PeerId → Z) (now_seen : Z) :
  match maintenance_tick ceil_2ln m t now_degrees connected now_alive now_seen with
  | None => ¬ config_valid (config m)
  | Some (m', t') =>
      config_valid (config m) ∧
      Z.abs (prev_active_target t' - prev_active_target t) <= 2 ∧
      Z.abs (prev_passive_max t' - prev_passive_max t) <= 2
  end.
Proof.
  unfold maintenance_tick. pose proof (degrees_spec ceil_2ln m now_degrees) as Hd.
  destruct (calculate_adaptive_degrees ceil_2ln m now_degrees) as [[act pas]|]; cbn; [|done].
  destruct Hd as [Hv _]. split; [done|]. split; apply smooth_step.
Qed.

(** ** Critical sections on the views *)

(** Changes outside the views. *)
Definition same_views (m m' : HyParViewMembership) : Prop :=
  active m' = active m ∧ passive m' = passive m ∧ config m' = config m ∧ local_peer_id m' = local_peer_id m.

(** The critical sections of the handlers; the last one is a maintenance tick
    with degrees within the configured limits. *)
Inductive vstep (m : HyParViewMembership) : HyParViewMembership → Prop :=
| v_commit peer now : vstep m (commit m peer now)
| v_passive_insert p :
    len (passive m) < max_passive_degree (config m) → vstep m (set_passive m ({[p]} ∪ passive m))
| v_active_remove p : vstep m (set_active m (active m ∖ {[p]}))
| v_passive_remove p : vstep m (set_passive m (passive m ∖ {[p]}))
| v_other m' : same_views m m' → vstep m m'
| v_maintain sa sp connected now :
    local_peer_id m ∉ connected →
    sa <= Z.max (active_degree (config m)) (max_active_degree (config m)) →
    0 <= sp <= max_passive_degree (config m) → vstep m (maintain m sa sp connected now).

(** The limits on the views. *)
Definition bounded (m : HyParViewMembership) : Prop :=
  len (active m) <= Z.max 1 (Z.max (active_degree (config m)) (max_active_degree (config m))) ∧
  len (passive m) <= max_passive_degree (config m).

Lemma shrunk_sub (m : HyParViewMembership) (count sp : Z) :
  active (shrunk m count sp) ⊆ active m ∧ config (shrunk m count sp) = config m ∧
  local_peer_id (shrunk m count sp) = local_peer_id m.
Proof.
  unfold shrunk. case_decide; [|done].
  destruct (foldl_demote sp (take (Z.to_nat (count - max_active_degree (config m))) (siter (active m))) m)
    as (-> & _ & _ & -> & -> & _). set_solver.
Qed.

Lemma maintain_len (m : HyParViewMembership) (sa sp : Z) (connected : gset PeerId) (now : PeerId → Z) :
  local_peer_id m ∉ connected → 0 <= sp →
  let m' := maintain m sa sp connected now in
  len (active m') <= Z.max sa (len (active m)) ∧ len (passive m') <= sp ∧
  config m' = config m ∧ local_peer_id m' = local_peer_id m.
Proof.
  intros Hl Hsp. cbn zeta. rewrite maintain_stages.
  destruct (healed_spec m sa connected now Hl) as (_ & _ & _ & Hlen & _ & Hc & Hlocal & _).
  set (s := shrunk _ _ _). assert (active s ⊆ active (healed m sa connected now) ∧
    config s = config (healed m sa connected now) ∧ local_peer_id s = local_peer_id (healed m sa connected now))
    as (Sa & Sc & Sl) by apply shrunk_sub.
  destruct (trimmed_spec s sp Hsp) as (_ & Tlen & -> & -> & -> & _).
  rewrite Sc, Sl, Hc, Hlocal. apply len_mono in Sa.
  assert (len (active (retain_active m connected)) <= len (active m)) by (apply len_mono; cbn; set_solver).
  split; [lia|]. done.
Qed.

Lemma bounded_vstep (m m' : HyParViewMembership) :
  vstep m m' → bounded m → bounded m' ∧ config m' = config m ∧ local_peer_id m' = local_peer_id m.
Proof.
  unfold bounded. destruct 1 as [peer now|p Hroom|p|p|m' (-> & -> & -> & ->)|sa sp connected now Hl Hsa Hsp];
    intros [Ha Hp].
  - destruct (commit_rest m peer now) as (-> & -> & _). pose proof (commit_len m peer now). split; [lia|done].
  - cbn. rewrite len_add. split; [case_decide; lia|done].
  - cbn. rewrite len_remove. split; [case_decide; lia|done].
  - cbn. rewrite len_remove. split; [case_decide; lia|done].
  - done.
  - destruct (maintain_len m sa sp connected now Hl) as (? & ? & -> & ->); [lia|]. split; [lia|done].
Qed.

Lemma bounded_rtc (m m' : HyParViewMembership) : rtc vstep m m' → bounded m → bounded m'.
Proof. induction 1; [done|]. intros Hb. apply IHrtc. by eapply bounded_vstep. Qed.

(** *** Every handler is a sequence of critical sections. *)

Lemma v_see (m : HyParViewMembership) (p : PeerId) (now : Z) : vstep m (see m p now).
Proof. by apply v_other. Qed.

Lemma v_set_swim (m : HyParViewMembership) (d : SwimDetector) : vstep m (set_swim m d).
Proof. by apply v_other. Qed.

Lemma rtc_add_active (m : HyParViewMembership) (p : PeerId) (now : Z) : rtc vstep m (add_active m p now).
Proof. rewrite add_active_eq. apply rtc_once, v_commit. Qed.

Lemma rtc_add_to_passive (m : HyParViewMembership) (p : PeerId) : rtc vstep m (add_to_passive m p).
Proof. unfold add_to_passive. repeat case_decide; try reflexivity. by apply rtc_once, v_passive_insert. Qed.

Lemma rtc_remove_active (m : HyParViewMembership) (p : PeerId) (now : Z) : rtc vstep m (remove_active m p now).
Proof.
  unfold remove_active. case_bool_decide; [|apply rtc_once, v_active_remove].
  eapply rtc_l; [apply v_active_remove|]. apply rtc_once, v_set_swim.
Qed.

Lemma rtc_promote (m : HyParViewMembership) (p : PeerId) (now : Z) : rtc vstep m (promote m p now).
Proof.
  unfold promote. case_bool_decide; [|apply rtc_once, v_passive_remove].
  eapply rtc_l; [apply v_passive_remove|]. apply rtc_add_active.
Qed.

Lemma rtc_integrate (m : HyParViewMembership) (l : list PeerId) : rtc vstep m (integrate m l).
Proof.
  unfold integrate. revert m. induction l as [|p l IH]; intros m; cbn [foldl]; [reflexivity|].
  case_decide; [|apply IH]. etrans; [apply rtc_add_to_passive|apply IH].
Qed.

Lemma rtc_shuffle (m : HyParViewMembership) (w : Wire) (sender : PeerId) (peers : list PeerId) (ttl : nat) (now : Z) :
  rtc vstep m (handle_shuffle m w sender peers ttl now).1.1.
Proof.
  unfold handle_shuffle. eapply rtc_l; [apply (v_see m sender now)|].
  destruct (if decide _ then _ else None).
  - by destruct (send_hyparview_message _ _ _).
  - destruct (send_hyparview_message _ _ _) as [w' []]; cbn; [apply rtc_integrate|reflexivity].
Qed.

Lemma rtc_join (m : HyParViewMembership) (w : Wire) (p : PeerId) (ttl : nat) (n1 n2 : Z) :
  rtc vstep m (handle_join m w p ttl n1 n2).1.1.
Proof.
  unfold handle_join. eapply rtc_l; [apply (v_see m p n1)|]. cbn. apply rtc_add_active.
Qed.

Lemma rtc_forward_join (m : HyParViewMembership) (w : Wire) (s p : PeerId) (ttl : nat) (n1 n2 : Z) :
  rtc vstep m (handle_forward_join m w s p ttl n1 n2).1.1.
Proof.
  unfold handle_forward_join. eapply rtc_l; [apply (v_see m p n1)|].
  destruct (decide (ttl = 0%nat ∨ _)) as [Hacc|Hfwd].
  - destruct (send_hyparview_message _ _ _) as [w' [[]|e]]; cbn.
    + etrans; [apply rtc_add_active|]. case_decide; [apply rtc_add_to_passive|reflexivity].
    + apply rtc_add_active.
  - destruct (random_active_peer_except _ _) as [next|].
    + destruct (send_hyparview_message _ _ _) as [w' [[]|e]]; cbn; [|reflexivity].
      case_decide; [apply rtc_add_to_passive|reflexivity].
    + cbn. case_decide; [apply rtc_add_to_passive|reflexivity].
Qed.

Lemma rtc_neighbor (m : HyParViewMembership) (w : Wire) (s : PeerId) (pr : NeighborPriority) (n1 n2 : Z) :
  rtc vstep m (handle_neighbor m w s pr n1 n2).1.1.
Proof.
  unfold handle_neighbor. eapply rtc_l; [apply (v_see m s n1)|].
  destruct (send_hyparview_message _ _ _) as [w' r]. cbn. destruct (_ || _); [apply rtc_add_active|reflexivity].
Qed.

Lemma rtc_neighbor_reply (m : HyParViewMembership) (s : PeerId) (acc : bool) (now : Z) :
  rtc vstep m (handle_neighbor_reply m s acc now).
Proof.
  unfold handle_neighbor_reply. destruct acc; [apply rtc_once, v_set_swim|].
  case_decide; [|reflexivity]. eapply rtc_l; [apply v_active_remove|]. apply rtc_add_to_passive.
Qed.

Lemma rtc_disconnect (m : HyParViewMembership) (s : PeerId) (n1 n2 : Z) :
  rtc vstep m (handle_disconnect m s n1 n2).
Proof.
  unfold handle_disconnect. etrans; [apply rtc_remove_active|].
  destruct (head _); [apply rtc_promote|reflexivity].
Qed.

#[local] Hint Resolve rtc_shuffle rtc_join rtc_forward_join rtc_neighbor rtc_neighbor_reply
  rtc_disconnect rtc_integrate : gossip.

Lemma rtc_dispatch `{!HashIter (PeerId * PeerId) Z} (m : HyParViewMembership) (w : Wire) (s : PeerId) (msg : MembershipProtocolMessage) (clk : nat → Z) :
  rtc vstep m (dispatch m w s msg clk).1.1.
Proof.
  destruct msg as [msg|msg]; cbn.
  - destruct msg; cbn [dispatch_hyparview fst]; auto with gossip.
  - unfold dispatch_swim. destruct (match msg with Ping => _ | _ => _ end) as [[d w'] r]. cbn.
    apply rtc_once, v_set_swim.
Qed.

Lemma rtc_dispatch_message `{!HashIter (PeerId * PeerId) Z} (m : HyParViewMembership) (w : Wire) (s : PeerId) (data : list Z) (clk : nat → Z) :
  rtc vstep m (dispatch_message m w s data clk).1.1.
Proof. unfold dispatch_message. destruct (from_bytes data); [apply rtc_dispatch|reflexivity]. Qed.

(** ** The node: handlers and the maintenance task *)

(** The task computes its degrees from the views it reads first, and takes the
    locks later: other critical sections run in between. *)
Inductive node_step (ceil_2ln : Z → Z) : HyParViewMembership * option MaintTask → HyParViewMembership * option MaintTask → Prop :=
| n_commit m t peer now : node_step ceil_2ln (m, t) (commit m peer now, t)
| n_passive_insert m t p :
    len (passive m) < max_passive_degree (config m) →
    node_step ceil_2ln (m, t) (set_passive m ({[p]} ∪ passive m), t)
| n_active_remove m t p : node_step ceil_2ln (m, t) (set_active m (active m ∖ {[p]}), t)
| n_passive_remove m t p : node_step ceil_2ln (m, t) (set_passive m (passive m ∖ {[p]}), t)
| n_other m t m' : same_views m m' → node_step ceil_2ln (m, t) (m', t)
| n_tick m t m_read now_degrees act pas connected now_alive :
    config m_read = config m →
    calculate_adaptive_degrees ceil_2ln m_read now_degrees = Some (act, pas) →
    local_peer_id m ∉ connected →
    node_step ceil_2ln (m, Some t)
      (maintain m (smooth (prev_active_target t) act) (smooth (prev_passive_max t) pas) connected now_alive,
       Some (mkMaint (smooth (prev_active_target t) act) (smooth (prev_passive_max t) pas)))
| n_panic m t m_read now_degrees :
    config m_read = config m →
    calculate_adaptive_degrees ceil_2ln m_read now_degrees = None →
    node_step ceil_2ln (m, Some t) (m, None).

Definition task_within (c : MembershipConfig) (t : option MaintTask) : Prop :=
  match t with
  | Some t => prev_active_target t <= Z.max (active_degree c) (max_active_degree c) ∧
      0 <= prev_passive_max t <= max_passive_degree c
  | None => True
  end.

Lemma node_step_inv (ceil_2ln : Z → Z) (n n' : HyParViewMembership * option MaintTask) :
  node_step ceil_2ln n n' → 0 <= max_passive_degree (config n.1) →
  bounded n.1 ∧ task_within (config n.1) n.2 →
  (bounded n'.1 ∧ task_within (config n'.1) n'.2) ∧ config n'.1 = config n.1.
Proof.
  intros Hstep Hc [Hb Ht].
  assert (vstep n.1 n'.1 ∧ task_within (config n.1) n'.2) as [Hv Ht'].
  { destruct Hstep as [| | | | |m t mr nd act pas conn na Hcfg Hd Hl|m t mr nd Hcfg _];
      cbn [fst snd] in *; try (split; [constructor; done|done]).
      pose proof (degrees_spec ceil_2ln mr nd) as Hs. rewrite Hd, Hcfg in Hs.
      destruct Hs as (_ & Ha & Hp & Hp0). destruct Ht as [Ht1 Ht2]. specialize (Hp0 Hc).
      assert (0 <= smooth (prev_passive_max t) pas <= max_passive_degree (config m)).
      { apply smooth_bounds; lia. }
      assert (smooth (prev_active_target t) act <= Z.max (active_degree (config m)) (max_active_degree (config m))).
      { unfold smooth. case_decide; lia. }
      split; [by apply v_maintain|done]. }
  destruct (bounded_vstep _ _ Hv Hb) as (Hb' & Hcfg' & _). by rewrite Hcfg'.
Qed.

Lemma node_reach_inv (ceil_2ln : Z → Z) (n n' : HyParViewMembership * option MaintTask) :
  rtc (node_step ceil_2ln) n n' → 0 <= max_passive_degree (config n.1) →
  bounded n.1 ∧ task_within (config n.1) n.2 → bounded n'.1 ∧ task_within (config n'.1) n'.2.
Proof.
  induction 1 as [|n n1 n2 Hstep _ IH]; [done|]. intros Hc Hinv.
  destruct (node_step_inv ceil_2ln _ _ Hstep Hc Hinv) as [Hinv' Hcfg].
  apply IH; [by rewrite Hcfg|done].
Qed.

(** C23. The views stay within their limits.  From a new node, after any
    interleaving of critical sections of the handlers and of ticks of degree
    maintenance, the active view has at most max(1, active degree, maximum
    active degree) peers and the passive view at most its maximum; and the
    handling of any frame, well-formed or not, keeps it so. *)
Theorem views_bounded `{!HashIter (PeerId * PeerId) Z} (ceil_2ln : Z → Z) (local : PeerId) (c : MembershipConfig)
    (m : HyParViewMembership) (t : option MaintTask) :
  0 <= max_passive_degree c →
  rtc (node_step ceil_2ln) (new local c, Some (maint_init c)) (m, t) →
  bounded m ∧ ∀ w sender data clk, bounded (dispatch_message m w sender data clk).1.1.
Proof.
  intros Hc Hr. destruct (node_reach_inv ceil_2ln _ _ Hr) as [Hb _]; cbn in *; [done| |].
  - unfold bounded. cbn. rewrite len_empty. repeat split; lia.
  - split; [done|]. intros. eapply bounded_rtc; [apply rtc_dispatch_message|done].
Qed.

(** ** Message cascades *)

(** How many further generations of messages a message can cause. *)
Definition hops (msg : MembershipProtocolMessage) : nat :=
  match msg with
  | HyParView (Join _ ttl) => ttl + 2
  | HyParView (ForwardJoin _ _ ttl) => ttl + 2
  | HyParView (Neighbor _ _) => 1
  | HyParView (NeighborReply _) => 0
  | HyParView (Shuffle _ _ ttl) => ttl + 1
  | HyParView (ShuffleReply _) => 0
  | HyParView Disconnect => 0
  | MembershipWire.Swim (PingReq _ _) => 3
  | MembershipWire.Swim Ping => 2
  | MembershipWire.Swim Ack => 1
  | MembershipWire.Swim (AckResponse _ _) => 0
  end.

(** Between [w] and [w'] only messages with fewer than [k] hops were sent. *)
Definition emits (k : nat) (w w' : Wire) : Prop :=
  ∃ sent, w' = w ++ sent ∧ Forall (λ e, ∃ msg, encodes msg e.2 ∧ (hops msg < k)%nat) sent.

Lemma emits_refl (k : nat) (w : Wire) : emits k w w.
Proof. exists []. by rewrite app_nil_r. Qed.

Lemma emits_trans (k : nat) (w1 w2 w3 : Wire) : emits k w1 w2 → emits k w2 w3 → emits k w1 w3.
Proof.
  intros (s1 & -> & H1) (s2 & -> & H2). exists (s1 ++ s2). by rewrite app_assoc, Forall_app.
Qed.

Lemma emits_send (k : nat) (w : Wire) (p : PeerId) (msg : MembershipProtocolMessage) :
  (hops msg < k)%nat → emits k w (send w p msg).1.
Proof.
  intros Hk. unfold send. destruct (to_stdvec msg) as [bytes|] eqn:He; [|apply emits_refl].
  exists [(p, bytes)]. split; [done|]. apply Forall_singleton. by exists msg.
Qed.

Lemma emits_best_effort (k : nat) (w : Wire) (l : list PeerId) (msg : MembershipProtocolMessage) :
  (hops msg < k)%nat → emits k w (send_best_effort w l msg).
Proof.
  intros Hk. unfold send_best_effort. revert w. induction l as [|p l IH]; intros w; [apply emits_refl|].
  cbn [foldl]. eapply emits_trans; [by apply (emits_send k w p msg)|apply IH].
Qed.

Lemma emits_each (k : nat) (w : Wire) (l : list PeerId) (msg : PeerId → MembershipProtocolMessage) :
  (∀ p, hops (msg p) < k)%nat → emits k w (send_each w l msg).1.
Proof.
  intros Hk. revert w. induction l as [|p l IH]; intros w; [apply emits_refl|]. cbn [send_each].
  pose proof (emits_send k w p (msg p) (Hk p)) as Hs.
  destruct (send w p (msg p)) as [w' [[]|e]]; [|done]. eapply emits_trans; [exact Hs|apply IH].
Qed.

Ltac emits_send_at k p msg :=
  match goal with
  | |- context [send_hyparview_message ?w p msg] =>
      let H := fresh "Hs" in
      assert (emits k w (send_hyparview_message w p msg).1) as H by (apply emits_send; cbn; lia);
      destruct (send_hyparview_message w p msg) as [? [[]|]]; try exact H
  end.

Lemma emits_hyparview (m : HyParViewMembership) (w : Wire) (s : PeerId) (msg : HyParViewMessage) (clk : nat → Z) :
  emits (hops (HyParView msg)) w (dispatch_hyparview m w s msg clk).1.2.
Proof.
  destruct msg as [p ttl|f p ttl|p pr|acc|p peers ttl|peers|]; cbn [dispatch_hyparview];
    try apply emits_refl.
  - unfold handle_join. cbn [fst snd]. case_decide; [|apply emits_refl].
    apply emits_best_effort. cbn. lia.
  - unfold handle_forward_join. destruct (decide (ttl = 0%nat ∨ _)) as [Hacc|Hfwd].
    + match goal with |- context [send_hyparview_message w ?q ?x] =>
        emits_send_at (hops (HyParView (ForwardJoin f p ttl))) q x end.
    + destruct (random_active_peer_except _ _) as [next|]; [|apply emits_refl].
      match goal with |- context [send_hyparview_message w ?q ?x] =>
        emits_send_at (hops (HyParView (ForwardJoin f p ttl))) q x end.
  - unfold handle_neighbor. match goal with |- context [send_hyparview_message w ?q ?x] =>
      emits_send_at (hops (HyParView (Neighbor p pr))) q x end.
  - unfold handle_shuffle. case_decide as Hc.
    + destruct (random_active_peer_except _ _) as [next|];
        match goal with |- context [send_hyparview_message w ?q ?x] =>
          emits_send_at (hops (HyParView (Shuffle p peers ttl))) q x end.
    + match goal with |- context [send_hyparview_message w ?q ?x] =>
        emits_send_at (hops (HyParView (Shuffle p peers ttl))) q x end.
Qed.

Lemma emits_swim `{!HashIter (PeerId * PeerId) Z} (m : HyParViewMembership) (w : Wire) (s : PeerId) (msg : SwimMessage) (clk : nat → Z) :
  emits (hops (MembershipWire.Swim msg)) w (dispatch_swim m w s msg clk).1.2.
Proof.
  unfold dispatch_swim. destruct msg as [| |t r|t r].
  - unfold handle_ping. pose proof (emits_send 2 w s (MembershipWire.Swim Ack)) as Hs.
    destruct (send w s _). apply Hs. cbn. lia.
  - unfold handle_ack. destruct (take_indirect_probe_requesters _ _ _) as [d reqs].
    pose proof (emits_each 1 w reqs (ack_response s)) as Hs.
    destruct (send_each w reqs _). apply Hs. intros. cbn. lia.
  - unfold handle_ping_req. pose proof (emits_send 3 w t (MembershipWire.Swim Ping)) as Hs.
    unfold send in Hs. destruct (to_stdvec _) as [bytes|]; [|apply emits_refl].
    destruct (send_to_peer w t bytes); apply Hs; cbn; lia.
  - apply emits_refl.
Qed.

(** A network of nodes running this code: each frame in flight is
    (destination, source, bytes). *)
Record Net := mkNet {
  nodes : gmap PeerId (HyParViewMembership * Wire);
  flight : list (PeerId * PeerId * list Z);
}.

(** Some frame arrives at its destination, in any order; of the frames that
    its handler sends, any may be lost. *)
Inductive deliver `{!HashIter (PeerId * PeerId) Z} (n : Net) : Net → Prop :=
| deliver_frame pre post dst src data clk m w m' r sent delivered :
    flight n = pre ++ (dst, src, data) :: post →
    nodes n !! dst = Some (m, w) →
    dispatch_message m w src data clk = (m', w ++ sent, r) →
    delivered `sublist_of` sent →
    deliver n (mkNet (<[dst := (m', w ++ sent)]> (nodes n))
      (pre ++ ((λ e, (e.1, dst, e.2)) <$> delivered) ++ post)).

(** Hops of a frame. *)
Definition frame_hops (f : PeerId * PeerId * list Z) : nat :=
  match from_bytes f.2 with Ok msg => S (hops msg) | Err _ => 0 end.

Lemma deliver_decreases `{!HashIter (PeerId * PeerId) Z} (n n' : Net) :
  (∀ msg bytes, to_stdvec msg = Ok bytes → from_bytes bytes = Ok msg) →
  deliver n n' → list_ext nat lt (frame_hops <$> flight n') (frame_hops <$> flight n).
Proof.
  intros Hcodec. destruct 1 as [pre post dst src data clk m w m' r sent delivered Hf _ Hd Hsub].
  cbn [flight]. rewrite Hf, !fmap_app, fmap_cons. apply list_ext_intro. apply Forall_fmap, Forall_fmap.
  assert (Forall (λ e, frame_hops (e.1, dst, e.2) < frame_hops (dst, src, data))%nat sent) as Hall.
  { unfold dispatch_message in Hd. unfold frame_hops at 2. cbn [snd].
    destruct (from_bytes data) as [msg|e].
    - assert (emits (hops msg) w (w ++ sent)) as (sent' & Heq%app_inv_head & Hs).
      { replace (w ++ sent) with (dispatch m w src msg clk).1.2 by (by rewrite Hd).
        destruct msg; [apply emits_hyparview|apply emits_swim]. }
      subst sent'. eapply Forall_impl; [exact Hs|]. intros [p bytes] (msg' & Henc & Hlt). cbn in *.
      unfold frame_hops. cbn [snd]. rewrite (Hcodec msg' bytes Henc). lia.
    - injection Hd as _ Hw _. apply (f_equal length) in Hw. rewrite length_app in Hw.
      destruct sent; [constructor|cbn in Hw; lia]. }
  rewrite Forall_forall in Hall |- *. intros e He. apply Hall. by eapply elem_of_sublist.
Qed.

(** C25. No message storms.  In a network of nodes that run this code, every
    cascade of deliveries ends, whatever the views, the order of delivery and
    the losses: each frame only causes frames of strictly smaller remaining
    depth, so after finitely many deliveries nothing is in flight until some
    timer or caller sends again. *)
Theorem cascades_terminate `{!HashIter (PeerId * PeerId) Z} (n : Net) :
  (∀ msg bytes, to_stdvec msg = Ok bytes → from_bytes bytes = Ok msg) →
  Acc (λ n' n, deliver n n') n.
Proof.
  intros Hcodec.
  apply (wf_incl Net (λ n' n, deliver n n') (λ n' n, list_ext nat lt (frame_hops <$> flight n') (frame_hops <$> flight n))).
  - intros n1 n2. by apply deliver_decreases.
  - apply (wf_inverse_image Net (list nat)), wf_list_ext, lt_wf.
Qed.
End HyParView.
End HyParView.

(** ** Concrete runs *)

Module HyParViewWitness.
Import HyParView.

Definition peer (n : Z) : PeerId := mkPeerId (replicate 32 n).

(** A lossless codec: messages are numbered. *)
Definition flat_type : Type :=
  (PeerId * nat) + (PeerId * PeerId * nat) + (PeerId * bool) + bool + (PeerId * list PeerId * nat) +
  list PeerId + () + () + () + (PeerId * PeerId) + (PeerId * PeerId).

Definition flat (m : MembershipProtocolMessage) : flat_type :=
  match m with
  | HyParView (Join s t) => inl (inl (inl (inl (inl (inl (inl (inl (inl (inl (s, t))))))))))
  | HyParView (ForwardJoin s p t) => inl (inl (inl (inl (inl (inl (inl (inl (inl (inr (s, p, t))))))))))
  | HyParView (Neighbor s pr) => inl (inl (inl (inl (inl (inl (inl (inl (inr (s, bool_decide (pr = High))))))))))
  | HyParView (NeighborReply b) => inl (inl (inl (inl (inl (inl (inl (inr b)))))))
  | HyParView (Shuffle s ps t) => inl (inl (inl (inl (inl (inl (inr (s, ps, t)))))))
  | HyParView (ShuffleReply ps) => inl (inl (inl (inl (inl (inr ps)))))
  | HyParView Disconnect => inl (inl (inl (inl (inr ()))))
  | MembershipWire.Swim Ping => inl (inl (inl (inr ())))
  | MembershipWire.Swim Ack => inl (inl (inr ()))
  | MembershipWire.Swim (PingReq t r) => inl (inr (t, r))
  | MembershipWire.Swim (AckResponse t r) => inr (t, r)
  end.

Definition unflat (x : flat_type) : MembershipProtocolMessage :=
  match x with
  | inl (inl (inl (inl (inl (inl (inl (inl (inl (inl (s, t)))))))))) => HyParView (Join s t)
  | inl (inl (inl (inl (inl (inl (inl (inl (inl (inr (s, p, t)))))))))) => HyParView (ForwardJoin s p t)
  | inl (inl (inl (inl (inl (inl (inl (inl (inr (s, b))))))))) =>
      HyParView (Neighbor s (if b : bool then High else Low))
  | inl (inl (inl (inl (inl (inl (inl (inr b))))))) => HyParView (NeighborReply b)
  | inl (inl (inl (inl (inl (inl (inr (s, ps, t))))))) => HyParView (Shuffle s ps t)
  | inl (inl (inl (inl (inl (inr ps))))) => HyParView (ShuffleReply ps)
  | inl (inl (inl (inl (inr ())))) => HyParView Disconnect
  | inl (inl (inl (inr ()))) => MembershipWire.Swim Ping
  | inl (inl (inr ())) => MembershipWire.Swim Ack
  | inl (inr (t, r)) => MembershipWire.Swim (PingReq t r)
  | inr (t, r) => MembershipWire.Swim (AckResponse t r)
  end.

#[local] Instance flat_eq_dec : EqDecision flat_type.
Proof. unfold flat_type. apply _. Defined.
#[local] Instance flat_countable : Countable flat_type.
Proof. unfold flat_type. apply _. Defined.

Lemma unflat_flat (m : MembershipProtocolMessage) : unflat (flat m) = m.
Proof. destruct m as [[| |? []| | | |]|[]]; reflexivity. Qed.

Definition number_codec (m : MembershipProtocolMessage) : result (list Z) string :=
  Ok [Z.pos (encode (flat m))].
Definition number_decode (l : list Z) : result MembershipProtocolMessage string :=
  match l with
  | [Z.pos n] => match decode n with Some x => Ok (unflat x) | None => Err "unknown"%string end
  | _ => Err "length"%string
  end.

Lemma number_codec_roundtrip (m : MembershipProtocolMessage) (bytes : list Z) :
  number_codec m = Ok bytes → number_decode bytes = Ok m.
Proof.
  intros [= <-]. unfold number_decode. rewrite (decode_encode (flat m)). by rewrite unflat_flat.
Qed.

#[local] Instance number_transport : Transport := {
  to_stdvec := number_codec;
  from_bytes := number_decode;
  send_to_peer _ _ _ := Ok ();
}.
#[local] Instance peer_set_iter : SetIter PeerId := canonical_siter.
#[local] Instance relay_iter : HashIter (PeerId * PeerId) Z := canonical_iter.

Definition small : MembershipConfig := mkConfig 2 4 16 (from_secs 30) 3 4 true.
Definition ceil_2ln_table (n : Z) : Z := if decide (n <= 1) then 0 else if decide (n <= 2) then 2 else 4.

(** A node at its target degree, with one passive peer. *)
Definition full_node : HyParViewMembership :=
  set_passive (add_active (add_active (new (peer 0) small) (peer 1) 10) (peer 2) 20) {[peer 3]}.

Lemma commit_effect_witness :
  (2 <= len (active full_node) ∧ active full_node ≠ ∅) ∧
  (∃ q, q ∈ active full_node ∧
    active (add_active full_node (peer 4) 30) = {[peer 4]} ∪ active full_node ∖ {[q]} ∧
    (peer 4 ∉ active full_node → len (active (add_active full_node (peer 4) 30)) = len (active full_node))).
Proof.
  assert (2 <= len (active full_node)) as H1 by (vm_compute; discriminate).
  assert (active full_node ≠ ∅) as H2 by (intros E; rewrite E in H1; vm_compute in H1; auto).
  split; [done|].
  destruct (commit_effect full_node (peer 4) 30) as (_ & _ & _ & Hfull).
  destruct (Hfull H1 H2) as (q & Hq & Ha & _ & Hlen & _). exists q. auto.
Defined.

(** Re-adding an active peer to a full view loses a different one. *)
Lemma readd_shrinks :
  len (active full_node) = 2 ∧
  (len (active (add_active full_node (peer 1) 30)) = 1 ∨
   peer 1 ∈ active (add_active full_node (peer 1) 30) ∩ passive (add_active full_node (peer 1) 30)).
Proof. split; [vm_compute; reflexivity|]. vm_compute. auto. Qed.

(** Peer 2 has lost its connection, peer 3 has one. *)
Lemma maintenance_heals_witness :
  local_peer_id full_node ∉ ({[peer 1; peer 3]} : gset PeerId) ∧ (0 <= 16 ∧ 2 <= 4) ∧
  let m' := maintain full_node 2 16 {[peer 1; peer 3]} (λ _, 40) in
  active m' ⊆ ({[peer 1; peer 3]} : gset PeerId) ∧
  (∀ p, is_Some (states (swim m') !! p) → p ∈ ({[peer 1; peer 3]} : gset PeerId)) ∧
  active m' ## passive m' ∧ local_peer_id full_node ∉ active m' ∪ passive m' ∧
  len (passive m') <= 16 ∧
  Z.min 2 (len ((active full_node ∪ passive full_node) ∩ {[peer 1; peer 3]})) <= len (active m') <= 4.
Proof.
  assert (local_peer_id full_node ∉ ({[peer 1; peer 3]} : gset PeerId)) as H1.
  { apply (bool_decide_eq_true_1 (local_peer_id full_node ∉ ({[peer 1; peer 3]} : gset PeerId))).
    vm_compute. reflexivity. }
  split; [exact H1|]. split; [lia|].
  apply (maintenance_heals full_node 2 16 {[peer 1; peer 3]} (λ _, 40)); [exact H1|lia|vm_compute; discriminate..].
Defined.

Lemma views_bounded_witness :
  0 <= max_passive_degree small ∧
  rtc (node_step ceil_2ln_table) (new (peer 0) small, Some (maint_init small))
    (commit (new (peer 0) small) (peer 1) 10, Some (maint_init small)) ∧
  (bounded (commit (new (peer 0) small) (peer 1) 10) ∧
   ∀ w sender data clk,
     bounded (dispatch_message (commit (new (peer 0) small) (peer 1) 10) w sender data clk).1.1).
Proof.
  assert (rtc (node_step ceil_2ln_table) (new (peer 0) small, Some (maint_init small))
    (commit (new (peer 0) small) (peer 1) 10, Some (maint_init small))) as Hr by (apply rtc_once, n_commit).
  split; [vm_compute; discriminate|]. split; [exact Hr|].
  apply (views_bounded ceil_2ln_table (peer 0) small _ (Some (maint_init small))); [vm_compute; discriminate|exact Hr].
Defined.

(** A configuration that [with_degrees] accepts and whose maintenance task
    panics at its first tick. *)
Lemma with_degrees_panics :
  maintenance_tick ceil_2ln_table (with_degrees (peer 0) 16 64) (maint_init (config (with_degrees (peer 0) 16 64)))
    0 ∅ (λ _, 0) 0 = None.
Proof. vm_compute. reflexivity. Qed.

(** A JOIN in flight to a node with two active peers. *)
Definition joining : Net :=
  mkNet {[peer 0 := (full_node, [])]}
    [(peer 0, peer 5, [Z.pos (encode (flat (HyParView (Join (peer 5) 6))))])].

Lemma cascades_terminate_witness :
  (∀ msg bytes, to_stdvec msg = Ok bytes → from_bytes bytes = Ok msg) ∧
  Acc (λ n' n, deliver n n') joining.
Proof.
  split; [exact number_codec_roundtrip|]. apply (cascades_terminate joining). exact number_codec_roundtrip.
Defined.
End HyParViewWitness.
