(* ===== verification/JoinProtocol.v ===== *)
(** * Joining the overlay ([crates/membership/src/lib.rs], [JoinLedger],
      [join_dial], [join_send] and [Membership::join])

    A JOIN attempt dials a seed and then sends the JOIN frame.  The ledger
    keeps, per seed address, the attempts used, the dial backoff and the loss
    cooldown.  The world that the code runs in is explicit: a clock that
    advances by an arbitrary lag at every operation, the random numbers, the
    dials made so far and the frames sent. *)

From S2P Require Import Prelude Types MembershipWire Swim HyParView.
Import Swim HyParView.

#[local] Open Scope Z_scope.

Module JoinProtocol.

Definition JOIN_MAX_ATTEMPTS : Z := 10.
Definition JOIN_INITIAL_DELAY_MS : Z := 100.
Definition JOIN_MAX_DELAY_MS : Z := 30000.

(** ** The ledger *)

Record JoinSeedState := mkSeed {
  attempts : Z;
  delay_ms : Z;
  loss_delay_ms : Z;
  ready_at : option Z;
}.

Definition seed_default : JoinSeedState := mkSeed 0 JOIN_INITIAL_DELAY_MS JOIN_INITIAL_DELAY_MS None.

Notation JoinLedger := (gmap SocketAddr JoinSeedState).

Definition ledger_new : JoinLedger := ∅.

(** [entry(seed).or_default()], also the value the accessors give for an
    unknown seed. *)
Definition seed_state (ledger : JoinLedger) (seed : SocketAddr) : JoinSeedState :=
  default seed_default (ledger !! seed).

Definition is_exhausted (ledger : JoinLedger) (seed : SocketAddr) : bool :=
  bool_decide (attempts (seed_state ledger seed) >= JOIN_MAX_ATTEMPTS).

(** [random] is [rand::random::<u64>()]. *)
Definition join_jitter_ms (random delay : Z) : Z := sat_sub (random mod (delay / 4)) (delay / 8).

Inductive JoinDial :=
| Answered (peer : PeerId)
| Failed (retry_after : Z) (exhausted : bool)
| Exhausted
| NotReady (ready_at : Z).

Inductive JoinSend := Joined | SendFailed.

(** ** The world *)

(** [dials] has the time and the address of every dial. *)
Record World := mkWorld {
  clock : Z;
  ops : nat;
  dials : list (Z * SocketAddr);
  frames : Wire;
}.

(** [Option::map_or(t, |current| current.max(t))]. *)
Definition later (ready : option Z) (t : Z) : Z :=
  match ready with Some current => Z.max current t | None => t end.

Section Join.
Context `{!Transport} `{!SetIter PeerId}.
(** The delay before the [n]-th operation completes, the [n]-th random number,
    and the outcome of a dial given the dials before it. *)
Context (lag : nat → Z) (random : nat → Z).
Context (dial_bootstrap : list (Z * SocketAddr) → SocketAddr → result PeerId string).
(** [str::parse::<SocketAddr>]. *)
Context (parse : string → option SocketAddr).

Definition elapse (w : World) (ns : Z) : World :=
  mkWorld (clock w + ns + lag (ops w)) (S (ops w)) (dials w) (frames w).

(** [Instant::now()]: time passes before it is read. *)
Definition read_clock (w : World) : World := elapse w 0.

Definition sleep (w : World) (duration : Z) : World := elapse w duration.
Definition sleep_until (w : World) (t : Z) : World := elapse w (Z.max 0 (t - clock w)).

Definition dial (w : World) (addr : SocketAddr) : World * result PeerId string :=
  let w' := elapse w 0 in
  (mkWorld (clock w') (ops w') (dials w ++ [(clock w, addr)]) (frames w'), dial_bootstrap (dials w) addr).

Definition record_loss (ledger : JoinLedger) (w : World) (seed : SocketAddr) : JoinLedger * World * Z :=
  let st := seed_state ledger seed in
  let d := loss_delay_ms st in
  let cooldown := from_millis (d + join_jitter_ms (random (ops w)) d) in
  let w := read_clock w in
  let loss_ready := clock w + cooldown in
  let ready := later (ready_at st) loss_ready in
  (<[seed := mkSeed (attempts st) (delay_ms st) (Z.min (d * 2) JOIN_MAX_DELAY_MS) (Some ready)]> ledger, w, ready).

(** The clock is read only when the seed has a readiness time. *)
Definition wait_check (st : JoinSeedState) (w : World) : World * option Z :=
  match ready_at st with
  | Some t => let w := read_clock w in (w, if decide (t > clock w) then Some t else None)
  | None => (w, None)
  end.

Definition join_dial (ledger : JoinLedger) (w : World) (addr : SocketAddr) : JoinLedger * World * JoinDial :=
  let st := seed_state ledger addr in
  if decide (attempts st >= JOIN_MAX_ATTEMPTS) then (<[addr := st]> ledger, w, Exhausted)
  else
    match wait_check st w with
    | (w, Some t) => (<[addr := st]> ledger, w, NotReady t)
    | (w, None) =>
        let n := attempts st + 1 in
        match dial w addr with
        | (w, Ok peer) =>
            (<[addr := mkSeed n (delay_ms st) (loss_delay_ms st) (ready_at st)]> ledger, w, Answered peer)
        | (w, Err _) =>
            let d := delay_ms st in
            let jitter := join_jitter_ms (random (ops w)) d in
            let retry_after := from_millis (d + jitter) in
            let w := read_clock w in
            let dial_ready := clock w + retry_after in
            (<[addr := mkSeed n (Z.min (d * 2) JOIN_MAX_DELAY_MS) (loss_delay_ms st)
                         (Some (later (ready_at st) dial_ready))]> ledger,
             w, Failed retry_after (bool_decide (n >= JOIN_MAX_ATTEMPTS)))
        end
    end.

Definition with_frames (w : World) (f : Wire) : World := mkWorld (clock w) (ops w) (dials w) f.

Definition join_send (m : HyParViewMembership) (w : World) (addr : SocketAddr) (seed_peer_id : PeerId) :
    HyParViewMembership * World * result JoinSend string :=
  let m := store_peer_addr m seed_peer_id addr in
  match send_hyparview_message (frames w) seed_peer_id (Join (local_peer_id m) ACTIVE_RANDOM_WALK_LENGTH) with
  | (f, Err _) => (m, with_frames w f, Ok SendFailed)
  | (f, Ok _) =>
      let w := read_clock (with_frames w f) in
      (add_active m seed_peer_id (clock w), w, Ok Joined)
  end.

(** The inner loop on one seed: whether it joined, or the error that ends the
    whole JOIN; [None] when the fuel runs out. *)
Fixpoint join_seed (fuel : nat) (m : HyParViewMembership) (ledger : JoinLedger) (w : World) (addr : SocketAddr) :
    option (HyParViewMembership * World * result bool string) :=
  match fuel with
  | O => None
  | S fuel =>
      match join_dial ledger w addr with
      | (ledger, w, Answered seed_peer_id) =>
          match join_send m w addr seed_peer_id with
          | (m, w, Ok SendFailed) => join_seed fuel m ledger w addr
          | (m, w, Ok Joined) => Some (m, w, Ok true)
          | (m, w, Err e) => Some (m, w, Err e)
          end
      | (ledger, w, Failed retry_after _) => join_seed fuel m ledger (sleep w retry_after) addr
      | (ledger, w, NotReady t) => join_seed fuel m ledger (sleep_until w t) addr
      | (_, w, Exhausted) => Some (m, w, Ok false)
      end
  end.

Fixpoint join_seeds (fuel : nat) (m : HyParViewMembership) (w : World) (seeds : list string) :
    option (HyParViewMembership * World * result () string) :=
  match seeds with
  | [] => Some (m, w, Err "JOIN: Failed to connect to any seed nodes"%string)
  | seed :: seeds =>
      match parse seed with
      | None => join_seeds fuel m w seeds
      | Some addr =>
          match join_seed fuel m ledger_new w addr with
          | Some (m, w, Ok true) => Some (m, w, Ok ())
          | Some (m, w, Ok false) => join_seeds fuel m w seeds
          | Some (m, w, Err e) => Some (m, w, Err e)
          | None => None
          end
      end
  end.

Definition join (fuel : nat) (m : HyParViewMembership) (w : World) (seeds : list string) :
    option (HyParViewMembership * World * result () string) :=
  if decide (seeds = []) then Some (m, w, Ok ()) else join_seeds fuel m w seeds.

(** ** One dial *)

Definition seed_ok (st : JoinSeedState) : Prop :=
  0 <= attempts st <= JOIN_MAX_ATTEMPTS ∧
  JOIN_INITIAL_DELAY_MS <= delay_ms st <= JOIN_MAX_DELAY_MS ∧
  JOIN_INITIAL_DELAY_MS <= loss_delay_ms st <= JOIN_MAX_DELAY_MS.

Definition ledger_ok (ledger : JoinLedger) : Prop := map_Forall (λ _, seed_ok) ledger.

Lemma seed_ok_default : seed_ok seed_default.
Proof. done. Qed.

Lemma seed_state_ok (ledger : JoinLedger) (addr : SocketAddr) : ledger_ok ledger → seed_ok (seed_state ledger addr).
Proof. intros Hok. unfold seed_state. destruct (ledger !! addr) eqn:E; [by apply (Hok addr)|done]. Qed.

Lemma seed_state_insert (ledger : JoinLedger) (addr : SocketAddr) (st : JoinSeedState) :
  seed_state (<[addr := st]> ledger) addr = st.
Proof. unfold seed_state. by rewrite lookup_insert_eq. Qed.

Lemma jitter_bounds (r d : Z) : JOIN_INITIAL_DELAY_MS <= d → 0 <= join_jitter_ms r d < d / 4.
Proof.
  unfold join_jitter_ms, sat_sub, JOIN_INITIAL_DELAY_MS. intros Hd.
  assert (0 < d / 4) by (apply Z.div_str_pos; lia).
  assert (0 <= d / 8) by (apply Z.div_pos; lia).
  pose proof (Z.mod_pos_bound r (d / 4)). lia.
Qed.

Context (lag_nonneg : ∀ n, 0 <= lag n).

Lemma wait_check_spec (st : JoinSeedState) (w : World) :
  let '(w', o) := wait_check st w in
  clock w <= clock w' ∧ dials w' = dials w ∧ frames w' = frames w ∧
  match o with
  | Some t => ready_at st = Some t ∧ clock w' < t
  | None => ∀ t, ready_at st = Some t → t <= clock w'
  end.
Proof.
  unfold wait_check. destruct (ready_at st) as [t|]; cbn; [|repeat split; [lia|done]].
  pose proof (lag_nonneg (ops w)). case_decide; repeat split; try done; try lia.
  intros ? [= <-]. lia.
Qed.

(** One JOIN dial on a ledger.  A seed that has used its ten attempts, or
    whose readiness time has not come, is not dialled and keeps its state.
    Otherwise there is exactly one dial, not before the readiness time, and it
    costs one attempt; a failed one doubles the backoff (up to 30 s) and asks
    to wait the old backoff plus less than a quarter of it, recorded as the
    seed's new readiness.  Other seeds are not affected. *)
Lemma join_dial_spec (ledger : JoinLedger) (w : World) (addr : SocketAddr) :
  ledger_ok ledger →
  let st := seed_state ledger addr in
  let '(ledger', w', out) := join_dial ledger w addr in
  let st' := seed_state ledger' addr in
  ledger_ok ledger' ∧ clock w <= clock w' ∧ (∀ other, other ≠ addr → ledger' !! other = ledger !! other) ∧
  match out with
  | Exhausted => attempts st = JOIN_MAX_ATTEMPTS ∧ st' = st ∧ dials w' = dials w
  | NotReady t => ready_at st = Some t ∧ clock w' < t ∧ st' = st ∧ dials w' = dials w
  | Answered _ =>
      st' = mkSeed (attempts st + 1) (delay_ms st) (loss_delay_ms st) (ready_at st) ∧
      ∃ t, dials w' = dials w ++ [(t, addr)] ∧ t <= clock w' ∧ ∀ r, ready_at st = Some r → r <= t
  | Failed retry_after exhausted =>
      from_millis (delay_ms st) <= retry_after < from_millis (delay_ms st + delay_ms st / 4) ∧
      st' = mkSeed (attempts st + 1) (Z.min (delay_ms st * 2) JOIN_MAX_DELAY_MS) (loss_delay_ms st)
              (Some (clock w' + retry_after)) ∧
      (exhausted = true ↔ attempts st' = JOIN_MAX_ATTEMPTS) ∧
      ∃ t, dials w' = dials w ++ [(t, addr)] ∧ t <= clock w' ∧ ∀ r, ready_at st = Some r → r <= t
  end.
Proof.
  intros Hok. cbn zeta. set (st := seed_state ledger addr).
  assert (seed_ok st) as Hst by by apply seed_state_ok. destruct Hst as (Ha & Hd & Hl).
  unfold join_dial. fold st. case_decide as Hx.
  { rewrite seed_state_insert. split; [by apply map_Forall_insert_2|]. split; [lia|].
    split; [intros; by apply lookup_insert_ne|]. split; [lia|done]. }
  pose proof (wait_check_spec st w) as Hw. destruct (wait_check st w) as [w1 [t|]].
  - destruct Hw as (Hc & Hdl & _ & Hr & Ht). rewrite seed_state_insert. split; [by apply map_Forall_insert_2|].
    split; [done|]. split; [intros; by apply lookup_insert_ne|]. done.
  - destruct Hw as (Hc & Hdl & _ & Hr). unfold dial.
    pose proof (lag_nonneg (ops w1)). pose proof (lag_nonneg (S (ops w1))).
    destruct (dial_bootstrap (dials w1) addr) as [peer|e].
    + rewrite seed_state_insert. split; [apply map_Forall_insert_2; [|done]; unfold seed_ok; cbn; lia|].
      cbn. split; [lia|]. split; [intros; by apply lookup_insert_ne|]. split; [done|].
      exists (clock w1). rewrite Hdl. split; [done|]. split; [cbn; lia|done].
    + cbn zeta. rewrite seed_state_insert. cbn.
      pose proof (jitter_bounds (random (S (ops w1))) (delay_ms st)) as Hj.
      split; [apply map_Forall_insert_2; [|done]; unfold seed_ok; cbn; unfold JOIN_INITIAL_DELAY_MS, JOIN_MAX_DELAY_MS in *; lia|].
      split; [lia|]. split; [intros; by apply lookup_insert_ne|].
      unfold from_millis, NANOS_PER_MILLI. split; [lia|]. split.
      { f_equal. f_equal. unfold later. destruct (ready_at st) as [r|]; [|done].
        specialize (Hr r eq_refl). unfold JOIN_INITIAL_DELAY_MS in *. lia. }
      split; [rewrite bool_decide_eq_true; lia|]. exists (clock w1). rewrite Hdl. split; [done|]. split; [cbn; lia|done].
Qed.

(** ** A caller that drives the JOIN step by step *)

Inductive Op :=
| ODial (seed : SocketAddr)
| OLoss (seed : SocketAddr)
| OWait (ns : Z).

Definition run_op (lw : JoinLedger * World) (op : Op) : JoinLedger * World :=
  match op with
  | ODial seed => (join_dial lw.1 lw.2 seed).1
  | OLoss seed => (record_loss lw.1 lw.2 seed).1
  | OWait ns => (lw.1, sleep lw.2 (Z.max 0 ns))
  end.

Definition run_ops (lw : JoinLedger * World) (ops : list Op) : JoinLedger * World := foldl run_op lw ops.

Definition dials_of (addr : SocketAddr) (l : list (Z * SocketAddr)) : Z :=
  Z.of_nat (length (filter (λ d, d.2 = addr) l)).

(** What one step does to seed [addr]: the dials it adds are the attempts it
    uses, none is earlier than the readiness, which never moves back. *)
Record progress (addr : SocketAddr) (lw lw' : JoinLedger * World) (fresh : list (Z * SocketAddr)) : Prop := {
  progress_ok : ledger_ok lw'.1;
  progress_dials : dials lw'.2 = dials lw.2 ++ fresh;
  progress_attempts :
    dials_of addr fresh = attempts (seed_state lw'.1 addr) - attempts (seed_state lw.1 addr);
  progress_ready r : ready_at (seed_state lw.1 addr) = Some r →
    (∃ r', ready_at (seed_state lw'.1 addr) = Some r' ∧ r <= r') ∧ ∀ t, (t, addr) ∈ fresh → r <= t;
}.

Lemma dials_of_nil (addr : SocketAddr) : dials_of addr [] = 0.
Proof. done. Qed.

Lemma dials_of_app (addr : SocketAddr) (l1 l2 : list (Z * SocketAddr)) :
  dials_of addr (l1 ++ l2) = dials_of addr l1 + dials_of addr l2.
Proof. unfold dials_of. rewrite filter_app, length_app. lia. Qed.

Lemma dials_of_one (addr a : SocketAddr) (t : Z) : dials_of addr [(t, a)] = if decide (a = addr) then 1 else 0.
Proof. unfold dials_of. cbn. by destruct (decide (a = addr)). Qed.

Lemma progress_refl (addr : SocketAddr) (l : JoinLedger) (w w' : World) :
  ledger_ok l → dials w' = dials w → progress addr (l, w) (l, w') [].
Proof.
  intros Hok Hd. split; cbn; [done|by rewrite app_nil_r|rewrite dials_of_nil; lia|].
  intros r Hr. split; [by exists r|]. intros t Ht. by apply not_elem_of_nil in Ht.
Qed.

Lemma progress_trans (addr : SocketAddr) (x y z : JoinLedger * World) (f1 f2 : list (Z * SocketAddr)) :
  progress addr x y f1 → progress addr y z f2 → progress addr x z (f1 ++ f2).
Proof.
  intros [Ho1 Hd1 Ha1 Hr1] [Ho2 Hd2 Ha2 Hr2]. split.
  - done.
  - by rewrite Hd2, Hd1, app_assoc.
  - rewrite dials_of_app. lia.
  - intros r Hr. destruct (Hr1 r Hr) as [(r1 & Hr1' & Hle1) Ht1].
    destruct (Hr2 r1 Hr1') as [(r2 & Hr2' & Hle2) Ht2]. split; [exists r2; split; [done|lia]|].
    intros t [Ht|Ht]%elem_of_app; [by apply Ht1|]. specialize (Ht2 t Ht). lia.
Qed.

(** A step that only touches another seed. *)
Lemma progress_other (addr other : SocketAddr) (l l' : JoinLedger) (w w' : World) (fresh : list (Z * SocketAddr)) :
  addr ≠ other → ledger_ok l' → l' !! addr = l !! addr → dials w' = dials w ++ fresh →
  (fresh = [] ∨ ∃ t, fresh = [(t, other)]) → progress addr (l, w) (l', w') fresh.
Proof.
  intros Hne Hok Hl Hd Hf. assert (dials_of addr fresh = 0) as H0.
  { destruct Hf as [->|[t ->]]; [done|]. rewrite dials_of_one. by rewrite decide_False by congruence. }
  split; cbn; [done|done| |]; unfold seed_state; rewrite Hl.
  - rewrite H0. lia.
  - intros r Hr. split; [by exists r|]. intros t Ht. destruct Hf as [->|[t' ->]]; set_solver.
Qed.

Lemma progress_dial (addr seed : SocketAddr) (l : JoinLedger) (w : World) :
  ledger_ok l → ∃ fresh, progress addr (l, w) (run_op (l, w) (ODial seed)) fresh.
Proof.
  intros Hok. cbn [run_op fst snd]. pose proof (join_dial_spec l w seed Hok) as Hs. cbn zeta in Hs.
  destruct (join_dial l w seed) as [[l' w'] out]. cbn [fst]. destruct Hs as (Hok' & _ & Ho & Hout).
  assert (∃ fresh, dials w' = dials w ++ fresh ∧ (fresh = [] ∨ ∃ t, fresh = [(t, seed)]) ∧
    dials_of seed fresh = attempts (seed_state l' seed) - attempts (seed_state l seed) ∧
    ∀ r, ready_at (seed_state l seed) = Some r →
      (∃ r', ready_at (seed_state l' seed) = Some r' ∧ r <= r') ∧ ∀ t, (t, seed) ∈ fresh → r <= t)
    as (fresh & Hd & Hf & Ha & Hr).
  { destruct out as [p|ra ex| |t].
    - destruct Hout as (-> & t & Hd & _ & Ht). exists [(t, seed)]. split; [done|]. split; [eauto|].
      rewrite dials_of_one, decide_True by done. cbn. split; [lia|]. intros r Hr. split; [eauto with lia|].
      intros t' Ht'. apply list_elem_of_singleton in Ht' as [= ->]. by apply Ht.
    - destruct Hout as (Hra & Hst & _ & t & Hd & Hle & Ht). exists [(t, seed)]. split; [done|]. split; [eauto|].
      rewrite dials_of_one, decide_True by done. rewrite Hst. cbn. split; [lia|]. intros r Hr.
      split; [|intros t' Ht'; apply list_elem_of_singleton in Ht' as [= ->]; by apply Ht].
      eexists. split; [done|]. specialize (Ht r Hr). pose proof (seed_state_ok l seed Hok) as (_ & ? & _).
      unfold from_millis, NANOS_PER_MILLI, JOIN_INITIAL_DELAY_MS in *. lia.
    - destruct Hout as (_ & -> & Hd). exists []. rewrite app_nil_r. split; [done|]. split; [by left|].
      rewrite dials_of_nil. split; [lia|]. intros r Hr. split; [eauto with lia|]. intros t Ht. set_solver.
    - destruct Hout as (_ & _ & -> & Hd). exists []. rewrite app_nil_r. split; [done|]. split; [by left|].
      rewrite dials_of_nil. split; [lia|]. intros r Hr. split; [eauto with lia|]. intros t' Ht. set_solver. }
  exists fresh. destruct (decide (addr = seed)) as [->|Hne].
  - by split.
  - eapply progress_other; eauto.
Qed.

Lemma progress_loss (addr seed : SocketAddr) (l : JoinLedger) (w : World) :
  ledger_ok l → progress addr (l, w) (run_op (l, w) (OLoss seed)) [].
Proof.
  intros Hok. pose proof (seed_state_ok l seed Hok) as (Ha & Hd & Hl).
  assert (ledger_ok (run_op (l, w) (OLoss seed)).1) as Hok'.
  { cbn. apply map_Forall_insert_2; [|done]. unfold seed_ok. cbn.
    unfold JOIN_INITIAL_DELAY_MS, JOIN_MAX_DELAY_MS in *. lia. }
  destruct (decide (addr = seed)) as [->|Hne].
  - split; cbn; [done|by rewrite app_nil_r| |]; rewrite seed_state_insert; cbn; [rewrite dials_of_nil; lia|].
    intros r Hr. rewrite Hr. cbn. split; [eexists; split; [done|lia]|]. intros t Ht.
    by apply not_elem_of_nil in Ht.
  - eapply (progress_other addr seed); [done|done| | |by left].
    + cbn. by rewrite lookup_insert_ne.
    + cbn. by rewrite app_nil_r.
Qed.

Lemma progress_op (addr : SocketAddr) (lw : JoinLedger * World) (op : Op) :
  ledger_ok lw.1 → ∃ fresh, progress addr lw (run_op lw op) fresh.
Proof.
  destruct lw as [l w]. intros Hok. destruct op as [seed|seed|ns].
  - by apply progress_dial.
  - exists []. by apply progress_loss.
  - exists []. by apply progress_refl.
Qed.

Lemma progress_run (addr : SocketAddr) (os : list Op) (lw : JoinLedger * World) :
  ledger_ok lw.1 → ∃ fresh, progress addr lw (run_ops lw os) fresh.
Proof.
  unfold run_ops. revert lw. induction os as [|op os IH]; intros [l w] Hok; cbn [foldl].
  - exists []. by apply progress_refl.
  - destruct (progress_op addr (l, w) op Hok) as [f1 H1]. destruct (IH (run_op (l, w) op)) as [f2 H2].
    { apply H1. }
    exists (f1 ++ f2). by eapply progress_trans.
Qed.

(** A caller that drives the JOIN with one ledger, in any order of dials,
    loss reports and waits: the dials of a seed are exactly the attempts the
    ledger counts, never more than ten; and after a failed dial that asked to
    wait [retry_after], whatever the caller does next, the seed is not dialled
    again before that time has passed. *)
Theorem driven_join (os : list Op) (w0 : World) (addr : SocketAddr) :
  dials w0 = [] →
  let '(ledger, w) := run_ops (ledger_new, w0) os in
  dials_of addr (dials w) = attempts (seed_state ledger addr) ∧
  attempts (seed_state ledger addr) <= JOIN_MAX_ATTEMPTS ∧
  match join_dial ledger w addr with
  | (ledger1, w1, Failed retry_after _) =>
      ∀ os2, let w2 := (run_ops (ledger1, w1) os2).2 in
      ∃ fresh, dials w2 = dials w1 ++ fresh ∧ ∀ t, (t, addr) ∈ fresh → clock w1 + retry_after <= t
  | _ => True
  end.
Proof.
  intros Hw0. destruct (progress_run addr os (ledger_new, w0)) as [f Hp].
  { apply map_Forall_empty. }
  destruct (run_ops (ledger_new, w0) os) as [ledger w]. destruct Hp as [Hok Hd Ha _]. cbn [fst snd] in *.
  pose proof (seed_state_ok ledger addr Hok) as (Hle & _). split.
  { rewrite Hd, Hw0. cbn [app]. rewrite Ha. change (seed_state ledger_new addr) with seed_default. cbn. lia. }
  split; [lia|]. pose proof (join_dial_spec ledger w addr Hok) as Hs. cbn zeta in Hs.
  destruct (join_dial ledger w addr) as [[ledger1 w1] [p|ra ex| |t]]; try done.
  destruct Hs as (Hok1 & _ & _ & _ & Hst & _). intros os2.
  destruct (progress_run addr os2 (ledger1, w1) Hok1) as [f2 [_ Hd2 _ Hr2]]. cbn zeta.
  exists f2. split; [exact Hd2|]. intros t Ht. apply (Hr2 (clock w1 + ra)); [cbn; by rewrite Hst|done].
Qed.

(** ** The whole JOIN *)

(** The node has joined through [p], the peer that answered at [addr]. *)
Definition joined_via (m : HyParViewMembership) (addr : SocketAddr) (p : PeerId) : Prop :=
  p ∈ active m ∧ get_state (swim m) p = Some Alive ∧ peer_addrs m !! p = Some addr.

Lemma join_send_spec (m : HyParViewMembership) (w : World) (addr : SocketAddr) (p : PeerId) :
  let '(m', w', r) := join_send m w addr p in
  clock w <= clock w' ∧ dials w' = dials w ∧
  (r = Ok SendFailed ∧ same_views m m' ∨ r = Ok Joined ∧ joined_via m' addr p).
Proof.
  unfold join_send. destruct (send_hyparview_message _ _ _) as [f [[]|e]]; cbn.
  - pose proof (lag_nonneg (ops w)). split; [lia|]. split; [done|]. right. split; [done|].
    rewrite add_active_eq. unfold joined_via. rewrite commit_active_eq.
    destruct (commit_rest (store_peer_addr m p addr) p (clock w + 0 + lag (ops w))) as (_ & _ & -> & -> & _).
    split; [set_solver|]. split; [by apply is_alive_mark_alive|]. cbn. apply lookup_insert_eq.
  - split; [lia|]. split; [done|]. left. done.
Qed.

Lemma join_seed_spec (fuel : nat) (m : HyParViewMembership) (ledger : JoinLedger) (w : World) (addr : SocketAddr) :
  ledger_ok ledger → (∀ t, ready_at (seed_state ledger addr) = Some t → t <= clock w) →
  JOIN_MAX_ATTEMPTS - attempts (seed_state ledger addr) < Z.of_nat fuel →
  ∃ m' w' b fresh, join_seed fuel m ledger w addr = Some (m', w', Ok b) ∧
    clock w <= clock w' ∧ dials w' = dials w ++ fresh ∧ Forall (λ d, d.2 = addr) fresh ∧
    Z.of_nat (length fresh) <= JOIN_MAX_ATTEMPTS - attempts (seed_state ledger addr) ∧
    if b : bool then ∃ p, joined_via m' addr p
    else same_views m m' ∧ Z.of_nat (length fresh) = JOIN_MAX_ATTEMPTS - attempts (seed_state ledger addr).
Proof.
  revert m ledger w. induction fuel as [|fuel IH]; intros m ledger w Hok Hready Hfuel.
  { pose proof (seed_state_ok ledger addr Hok) as (? & _). lia. }
  cbn [join_seed]. pose proof (join_dial_spec ledger w addr Hok) as Hs. cbn zeta in Hs.
  destruct (join_dial ledger w addr) as [[ledger1 w1] [p|ra ex| |t]].
  - destruct Hs as (Hok1 & Hc1 & _ & Hst & t & Hd1 & Hle & _).
    pose proof (join_send_spec m w1 addr p) as Hj. destruct (join_send m w1 addr p) as [[m2 w2] r].
    destruct Hj as (Hc2 & Hd2 & [[-> Hv]|[-> Hj]]).
    + destruct (IH m2 ledger1 w2) as (m' & w' & b & fresh & Heq & Hc & Hd & Hf & Hlen & Hb).
      { done. } { rewrite Hst. cbn. intros r Hr. specialize (Hready r Hr). lia. } { rewrite Hst. cbn. lia. }
      rewrite Hst in Hlen, Hb. cbn [attempts] in Hlen, Hb.
      exists m', w', b, ((t, addr) :: fresh). split; [done|]. split; [lia|].
      split; [by rewrite Hd, Hd2, Hd1, <-app_assoc|]. split; [by constructor|]. cbn [length]. split; [lia|].
      destruct b; [done|]. destruct Hb as [Hv' Hb]. split; [|lia]. unfold same_views in *. naive_solver congruence.
    + exists m2, w2, true, [(t, addr)]. split; [done|]. split; [lia|]. rewrite Hd2. split; [done|].
      split; [by constructor|]. pose proof (seed_state_ok ledger1 addr Hok1) as (Ha & _). rewrite Hst in Ha.
      cbn in *. split; [lia|]. by exists p.
  - destruct Hs as (Hok1 & Hc1 & _ & Hra & Hst & _ & t & Hd1 & Hle & _).
    pose proof (lag_nonneg (ops w1)).
    pose proof (seed_state_ok ledger addr Hok) as (_ & Hdel & _).
    assert (0 <= ra) by (unfold from_millis, NANOS_PER_MILLI, JOIN_INITIAL_DELAY_MS in *; lia).
    destruct (IH m ledger1 (sleep w1 ra)) as (m' & w' & b & fresh & Heq & Hc & Hd & Hf & Hlen & Hb).
    { done. } { rewrite Hst. cbn. intros r [= <-]. lia. } { rewrite Hst. cbn. lia. }
    rewrite Hst in Hlen, Hb. cbn [attempts] in Hlen, Hb. cbn in Hc, Hd.
    exists m', w', b, ((t, addr) :: fresh). split; [done|]. split; [lia|].
    split; [by rewrite Hd, Hd1, <-app_assoc|]. split; [by constructor|]. cbn [length]. split; [lia|].
    destruct b; [done|]. destruct Hb as [Hv Hb]. split; [done|lia].
  - destruct Hs as (_ & Hc & _ & Ha & _ & Hd). exists m, w1, false, [].
    split; [done|]. split; [done|]. split; [by rewrite app_nil_r|]. split; [done|]. cbn. rewrite Ha.
    split; [lia|]. split; [done|lia].
  - destruct Hs as (_ & Hc & _ & Hr & Ht & _). specialize (Hready t Hr). lia.
Qed.

Lemma join_seeds_spec (fuel : nat) (seeds : list string) (m : HyParViewMembership) (w : World) :
  JOIN_MAX_ATTEMPTS < Z.of_nat fuel →
  ∃ m' w' r fresh, join_seeds fuel m w seeds = Some (m', w', r) ∧
    clock w <= clock w' ∧ dials w' = dials w ++ fresh ∧ Forall (λ d, d.2 ∈ omap parse seeds) fresh ∧
    match r with
    | Ok _ => Z.of_nat (length fresh) <= JOIN_MAX_ATTEMPTS * Z.of_nat (length (omap parse seeds)) ∧
        ∃ addr p, addr ∈ omap parse seeds ∧ joined_via m' addr p
    | Err _ => Z.of_nat (length fresh) = JOIN_MAX_ATTEMPTS * Z.of_nat (length (omap parse seeds)) ∧ same_views m m'
    end.
Proof.
  intros Hfuel. revert m w. induction seeds as [|seed seeds IH]; intros m w; cbn [join_seeds].
  - exists m, w. eexists _, []. split; [done|]. split; [lia|]. split; [by rewrite app_nil_r|]. done.
  - assert (omap parse (seed :: seeds) =
      match parse seed with Some a => a :: omap parse seeds | None => omap parse seeds end) as Hom by done.
    rewrite Hom. destruct (parse seed) as [addr|] eqn:Hparse; [|apply IH].
    destruct (join_seed_spec fuel m ledger_new w addr) as (m1 & w1 & b & f1 & Heq & Hc1 & Hd1 & Hf1 & Hl1 & Hb).
    { apply map_Forall_empty. } { done. } { done. }
    change (attempts (seed_state ledger_new addr)) with 0 in *. rewrite Heq. destruct b.
    + exists m1, w1, (Ok ()), f1. split; [done|]. split; [done|]. split; [done|]. split.
      { eapply Forall_impl; [exact Hf1|]. intros [t a]. cbn. intros ->. by left. }
      cbn [length]. unfold JOIN_MAX_ATTEMPTS in *. split; [lia|]. destruct Hb as [p Hb]. exists addr, p.
      split; [by left|done].
    + destruct Hb as [Hv1 Hl1']. destruct (IH m1 w1) as (m' & w' & r & f2 & Heq2 & Hc2 & Hd2 & Hf2 & Hr).
      exists m', w', r, (f1 ++ f2). split; [done|]. split; [lia|].
      split; [by rewrite Hd2, Hd1, app_assoc|]. split.
      { apply Forall_app. split.
        - eapply Forall_impl; [exact Hf1|]. intros [t a]. cbn. intros ->. by left.
        - eapply Forall_impl; [exact Hf2|]. intros [t a]. cbn. intros ?. by right. }
      rewrite length_app. cbn [length]. unfold JOIN_MAX_ATTEMPTS in *. destruct r.
      * destruct Hr as (Hl & a' & p & Ha & Hj). split; [lia|]. exists a', p. split; [by right|done].
      * destruct Hr as (Hl & Hv). split; [lia|]. unfold same_views in *. naive_solver congruence.
Qed.

(** JOIN always returns: eleven rounds per seed are enough, for every
    behaviour of the network, the clock and the generator.  It succeeds with
    no seeds, or once a seed's peer is in the active view, Alive in SWIM and
    with its address stored; it fails only after ten dials for every seed
    entry that parses, and then the views are unchanged.  It never dials an
    address that is not a seed, nor a seed entry more than ten times. *)
Theorem join_total (m : HyParViewMembership) (w : World) (seeds : list string) :
  ∃ m' w' r fresh, join 11 m w seeds = Some (m', w', r) ∧
    clock w <= clock w' ∧ dials w' = dials w ++ fresh ∧ Forall (λ d, d.2 ∈ omap parse seeds) fresh ∧
    match r with
    | Ok _ =>
        Z.of_nat (length fresh) <= JOIN_MAX_ATTEMPTS * Z.of_nat (length (omap parse seeds)) ∧
        (seeds = [] ∨ ∃ addr p, addr ∈ omap parse seeds ∧ joined_via m' addr p)
    | Err _ =>
        Z.of_nat (length fresh) = JOIN_MAX_ATTEMPTS * Z.of_nat (length (omap parse seeds)) ∧ same_views m m'
    end.
Proof.
  unfold join. case_decide as Hnil.
  - subst seeds. exists m, w, (Ok ()), []. split; [done|]. split; [lia|]. split; [by rewrite app_nil_r|].
    split; [done|]. split; [done|]. by left.
  - destruct (join_seeds_spec 11 seeds m w) as (m' & w' & r & fresh & ? & ? & ? & ? & Hr); [done|].
    exists m', w', r, fresh. do 4 (split; [done|]). destruct r; [|done].
    destruct Hr as [? ?]. split; [done|]. by right.
Qed.
End Join.
End JoinProtocol.

(** ** Concrete runs *)

Module JoinWitness.
Import JoinProtocol HyParViewWitness.
#[local] Existing Instance number_transport.
#[local] Existing Instance peer_set_iter.

Definition one_ns (n : nat) : Z := 1.
Definition no_jitter (n : nat) : Z := 0.

(** The first two dials fail, later ones are answered. *)
Definition flaky (log : list (Z * SocketAddr)) (addr : SocketAddr) : result PeerId string :=
  if decide (length log < 2)%nat then Err "timed out"%string else Ok (peer 7).

Definition parse_seed (s : string) : option SocketAddr :=
  if decide (s = "10.0.0.1:9000"%string) then Some ([10; 0; 0; 1], 9000) else None.

Definition start : World := mkWorld 0 0 [] [].
Definition node : HyParViewMembership := new (peer 0) config_default.
Definition seeds : list string := ["nonsense"%string; "10.0.0.1:9000"%string].
Definition seed_addr : SocketAddr := ([10; 0; 0; 1], 9000).

Lemma one_ns_nonneg (n : nat) : 0 <= one_ns n.
Proof. unfold one_ns. lia. Qed.

(** The third dial joins, after backoffs of 100 and 200 ms. *)
Lemma join_total_witness :
  (∀ n, 0 <= one_ns n) ∧
  (∃ m' w' r fresh, join one_ns no_jitter flaky parse_seed 11 node start seeds = Some (m', w', r) ∧
    clock start <= clock w' ∧ dials w' = dials start ++ fresh ∧
    Forall (λ d, d.2 ∈ omap parse_seed seeds) fresh ∧
    match r with
    | Ok _ =>
        Z.of_nat (length fresh) <= JOIN_MAX_ATTEMPTS * Z.of_nat (length (omap parse_seed seeds)) ∧
        (seeds = [] ∨ ∃ addr p, addr ∈ omap parse_seed seeds ∧ joined_via m' addr p)
    | Err _ =>
        Z.of_nat (length fresh) = JOIN_MAX_ATTEMPTS * Z.of_nat (length (omap parse_seed seeds)) ∧ same_views node m'
    end) ∧
  match join one_ns no_jitter flaky parse_seed 11 node start seeds with
  | Some (m', w', Ok _) => length (dials w') = 3%nat ∧ clock w' > from_millis 300
  | _ => False
  end.
Proof.
  split; [exact one_ns_nonneg|]. split.
  - apply (join_total one_ns no_jitter flaky parse_seed one_ns_nonneg node start seeds).
  - vm_compute. split; reflexivity.
Defined.

Lemma driven_join_witness :
  dials start = [] ∧ (∀ n, 0 <= one_ns n) ∧
  let '(ledger, w) := run_ops one_ns no_jitter flaky (ledger_new, start) [ODial seed_addr] in
  dials_of seed_addr (dials w) = attempts (seed_state ledger seed_addr) ∧
  attempts (seed_state ledger seed_addr) <= JOIN_MAX_ATTEMPTS ∧
  match join_dial one_ns no_jitter flaky ledger w seed_addr with
  | (ledger1, w1, Failed retry_after _) =>
      ∀ os2, let w2 := (run_ops one_ns no_jitter flaky (ledger1, w1) os2).2 in
      ∃ fresh, dials w2 = dials w1 ++ fresh ∧ ∀ t, (t, seed_addr) ∈ fresh → clock w1 + retry_after <= t
  | _ => True
  end.
Proof.
  split; [reflexivity|]. split; [exact one_ns_nonneg|].
  apply (driven_join one_ns no_jitter flaky one_ns_nonneg [ODial seed_addr] start seed_addr). reflexivity.
Defined.
End JoinWitness.
