(* ===== verification/MessageCache.v ===== *)
(** * The bounded message cache ([crates/pubsub/src/lib.rs],
      [BoundedMessageCache] and [TopicState]'s use of it)

    Each topic caches recent messages to answer IWANT and anti-entropy
    requests.  The cache bounds age, bytes and count on top of the [lru]
    crate's [LruCache], whose documented behaviour is the class [LruCache]:
    an ordered list of entries, most recently used first. *)

From S2P Require Import Prelude Types.

#[local] Open Scope Z_scope.

(** ** Association lists in recency order *)

Section Assoc.
Context {K V : Type} `{!EqDecision K}.
Implicit Types (l : list (K * V)) (k : K).

Fixpoint assoc (k : K) (l : list (K * V)) : option V :=
  match l with
  | [] => None
  | (k', v) :: l => if decide (k' = k) then Some v else assoc k l
  end.

Definition without (k : K) (l : list (K * V)) : list (K * V) := filter (λ kv, kv.1 ≠ k) l.

Lemma assoc_Some l k v : assoc k l = Some v → (k, v) ∈ l.
Proof.
  induction l as [|[k' v'] l IH]; [done|]. cbn. case_decide; [|right; auto].
  intros [= ->]. subst. by left.
Qed.

Lemma assoc_None l k : assoc k l = None ↔ k ∉ l.*1.
Proof.
  induction l as [|[k' v'] l IH]; cbn; [set_solver|]. case_decide; set_solver.
Qed.

Lemma assoc_elem l k v : NoDup l.*1 → (k, v) ∈ l → assoc k l = Some v.
Proof.
  induction l as [|[k' v'] l IH]; cbn; [set_solver|].
  intros [Hk Hnd]%NoDup_cons [[= -> ->]|Hin]%elem_of_cons; [by rewrite decide_True|].
  rewrite decide_False; [auto|]. intros ->. apply Hk. apply list_elem_of_fmap. by exists (k, v).
Qed.

Lemma elem_of_without l k kv : kv ∈ without k l ↔ kv.1 ≠ k ∧ kv ∈ l.
Proof. unfold without. by rewrite list_elem_of_filter. Qed.

Lemma without_id l k : k ∉ l.*1 → without k l = l.
Proof.
  induction l as [|[k' v'] l IH]; [done|]. intros Hk. unfold without in *.
  rewrite filter_cons_True by set_solver. f_equal. apply IH. set_solver.
Qed.

Lemma NoDup_filter_keys (P : K * V → Prop) `{!∀ x, Decision (P x)} l : NoDup l.*1 → NoDup (filter P l).*1.
Proof. intros Hnd. eapply sublist_NoDup; [exact Hnd|]. apply fmap_sublist, sublist_filter. Qed.

Lemma NoDup_front l k v : NoDup l.*1 → NoDup ((k, v) :: without k l).*1.
Proof.
  intros Hnd. cbn. apply NoDup_cons. split; [|by apply NoDup_filter_keys].
  rewrite list_elem_of_fmap. intros ([k' v'] & -> & [Hne _]%elem_of_without). by apply Hne.
Qed.

Lemma without_app_mid l1 l2 k v :
  NoDup (l1 ++ (k, v) :: l2).*1 → without k (l1 ++ (k, v) :: l2) = l1 ++ l2.
Proof.
  intros Hnd. rewrite fmap_app in Hnd. apply NoDup_app in Hnd as (_ & H1 & H2).
  cbn in H2. apply NoDup_cons in H2 as [H2 _].
  assert (k ∉ l1.*1) as Hk1 by (intros Hin; by apply (H1 k Hin); left).
  unfold without. rewrite filter_app, filter_cons_False by (cbn; naive_solver).
  f_equal; by apply without_id.
Qed.
End Assoc.

(** Filters that agree on the elements of the list. *)
Lemma filter_ext_in {A} (P Q : A → Prop) `{!∀ x, Decision (P x), !∀ x, Decision (Q x)} (l : list A) :
  (∀ x, x ∈ l → P x ↔ Q x) → filter P l = filter Q l.
Proof.
  induction l as [|x l IH]; intros Hl; [done|].
  assert (filter P l = filter Q l) as Heq by (apply IH; intros; apply Hl; by right).
  destruct (decide (P x)) as [HP|HP].
  - rewrite !filter_cons_True; [by f_equal|apply Hl; [by left|done]|done].
  - rewrite !filter_cons_False; [done|rewrite <-Hl; [done|by left]|done].
Qed.

Lemma filter_all {A} (P : A → Prop) `{!∀ x, Decision (P x)} (l : list A) :
  (∀ x, x ∈ l → P x) → filter P l = l.
Proof.
  induction l as [|x l IH]; intros Hl; [done|].
  rewrite filter_cons_True by (apply Hl; by left). f_equal. apply IH. intros. apply Hl. by right.
Qed.

(** ** The [lru] crate *)

Class LruCache (K V : Type) `{!EqDecision K} := {
  lru : Type;
  lru_new : Z → lru;
  lru_cap : lru → Z;
  lru_iter : lru → list (K * V);
  lru_get : lru → K → lru * option V;
  lru_get_mut : lru → K → (V → V) → lru * option V;
  lru_push : lru → K → V → lru * option (K * V);
  lru_pop : lru → K → lru * option V;
  lru_pop_lru : lru → lru * option (K * V);
  (** A new cache is empty and has the given capacity. *)
  lru_new_spec cap : lru_iter (lru_new cap) = [] ∧ lru_cap (lru_new cap) = cap;
  (** [get] and [get_mut] return the value and make the entry the most recent. *)
  lru_get_spec c k :
    lru_get c k = ((lru_get c k).1, assoc k (lru_iter c)) ∧ lru_cap (lru_get c k).1 = lru_cap c ∧
    lru_iter (lru_get c k).1 =
      match assoc k (lru_iter c) with Some v => (k, v) :: without k (lru_iter c) | None => lru_iter c end;
  lru_get_mut_spec c k f :
    lru_get_mut c k f = ((lru_get_mut c k f).1, assoc k (lru_iter c)) ∧
    lru_cap (lru_get_mut c k f).1 = lru_cap c ∧
    lru_iter (lru_get_mut c k f).1 =
      match assoc k (lru_iter c) with Some v => (k, f v) :: without k (lru_iter c) | None => lru_iter c end;
  (** [push] of a new key into a cache with room just adds it. *)
  lru_push_spec c k v :
    assoc k (lru_iter c) = None → Z.of_nat (length (lru_iter c)) < lru_cap c →
    (lru_push c k v).2 = None ∧ lru_cap (lru_push c k v).1 = lru_cap c ∧
    lru_iter (lru_push c k v).1 = (k, v) :: lru_iter c;
  lru_pop_spec c k :
    (lru_pop c k).2 = assoc k (lru_iter c) ∧ lru_cap (lru_pop c k).1 = lru_cap c ∧
    lru_iter (lru_pop c k).1 = without k (lru_iter c);
  (** [pop_lru] removes the least recently used entry. *)
  lru_pop_lru_spec c :
    lru_cap (lru_pop_lru c).1 = lru_cap c ∧
    match (lru_pop_lru c).2 with
    | Some kv => lru_iter c = lru_iter (lru_pop_lru c).1 ++ [kv]
    | None => lru_iter c = [] ∧ lru_iter (lru_pop_lru c).1 = []
    end;
}.
#[global] Hint Mode LruCache ! ! - : typeclass_instances.

Module MessageCache.

(** ** Data *)

Definition MESSAGE_HEADER_OVERHEAD_BYTES : Z := 256.
Definition MESSAGE_CRYPTO_OVERHEAD_BYTES : Z := 5500.

(** [compat::VerifiedInner]. *)
Record VerifiedInner := mkInner {
  author : PeerId;
  digest : list Z;
  revision : Z;
}.

Record CachedMessage := mkMessage {
  payload : list Z;
  header : MessageHeader;
  dropped : bool;
  local_origin : bool;
  inner_proof : option VerifiedInner;
}.

Record CachedEntry := mkEntry {
  message : CachedMessage;
  bytes : Z;
  inserted_at : Z;
}.

Definition MessageIdType : Type := list Z.

(** [usize] arithmetic saturates like [u64]. *)
Definition estimate_message_bytes (m : CachedMessage) : Z :=
  u64_sat_add (u64_sat_add (Z.of_nat (length (payload m))) MESSAGE_HEADER_OVERHEAD_BYTES)
    MESSAGE_CRYPTO_OVERHEAD_BYTES.

Definition counts_as_live_local (m : CachedMessage) : bool := local_origin m && negb (dropped m).

Section MessageCache.
Context `{!LruCache MessageIdType CachedEntry}.

(** The crate's cache of entries. *)
Notation Lru := (lru (K := MessageIdType) (V := CachedEntry)).

Record BoundedMessageCache := mkCache {
  entries : Lru;
  total_bytes : Z;
  max_count : Z;
  max_bytes : Z;
  max_age : Z;
  evicted_by_age : Z;
  evicted_by_bytes : Z;
  evicted_by_count : Z;
  live_local_origin : Z;
}.

Definition new (count max_bytes age : Z) : BoundedMessageCache :=
  mkCache (lru_new count) 0 count max_bytes age 0 0 0 0.

(** Why an entry leaves, for the counters. *)
Inductive Cause := ByAge | ByBytes | ByCount | Replaced.

Definition count_removed (live : Z) (e : CachedEntry) : Z :=
  if counts_as_live_local (message e) then sat_sub live 1 else live.

(** The bookkeeping after [e] has left the list: bytes, live count
    ([note_removed_entry]) and the counter of the cause. *)
Definition removed (c : BoundedMessageCache) (l : Lru) (e : CachedEntry) (why : Cause) : BoundedMessageCache :=
  mkCache l (sat_sub (total_bytes c) (bytes e)) (max_count c) (max_bytes c) (max_age c)
    (match why with ByAge => u64_sat_add (evicted_by_age c) 1 | _ => evicted_by_age c end)
    (match why with ByBytes => u64_sat_add (evicted_by_bytes c) 1 | _ => evicted_by_bytes c end)
    (match why with ByCount => u64_sat_add (evicted_by_count c) 1 | _ => evicted_by_count c end)
    (count_removed (live_local_origin c) e).

Definition with_entries (c : BoundedMessageCache) (l : Lru) : BoundedMessageCache :=
  mkCache l (total_bytes c) (max_count c) (max_bytes c) (max_age c)
    (evicted_by_age c) (evicted_by_bytes c) (evicted_by_count c) (live_local_origin c).

Definition has_live_local_origin (c : BoundedMessageCache) : bool := bool_decide (live_local_origin c > 0).

Definition set_dropped (e : CachedEntry) : CachedEntry :=
  mkEntry (mkMessage (payload (message e)) (header (message e)) true (local_origin (message e))
             (inner_proof (message e))) (bytes e) (inserted_at e).

(** [get_mut] promotes the entry whether or not the flag changes. *)
Definition mark_dropped (c : BoundedMessageCache) (id : MessageIdType) : BoundedMessageCache * bool :=
  match lru_get_mut (entries c) id set_dropped with
  | (_, None) => (c, false)
  | (l, Some e) =>
      let live :=
        if dropped (message e) then live_local_origin c
        else if local_origin (message e) then sat_sub (live_local_origin c) 1 else live_local_origin c in
      (mkCache l (total_bytes c) (max_count c) (max_bytes c) (max_age c)
         (evicted_by_age c) (evicted_by_bytes c) (evicted_by_count c) live, true)
  end.

Definition expired (c : BoundedMessageCache) (now : Z) (e : CachedEntry) : Prop :=
  elapsed_ns now (inserted_at e) >= max_age c.
#[global] Instance expired_dec c now e : Decision (expired c now e).
Proof. unfold expired, Z.ge. solve_decision. Defined.

Definition drop_expired (c : BoundedMessageCache) (id : MessageIdType) : BoundedMessageCache :=
  match lru_pop (entries c) id with
  | (l, Some e) => removed c l e ByAge
  | (_, None) => c
  end.

Definition prune_expired_at (c : BoundedMessageCache) (now : Z) : BoundedMessageCache :=
  let ids := (filter (λ kv, expired c now kv.2) (lru_iter (entries c))).*1 in
  foldl drop_expired c ids.

(** A [while] loop that pops the least recent entry; one iteration per entry
    and the one that stops are enough. *)
Fixpoint evict_while (fuel : nat) (over : BoundedMessageCache → bool) (why : Cause) (c : BoundedMessageCache) : BoundedMessageCache :=
  match fuel with
  | O => c
  | S fuel =>
      if over c then
        match lru_pop_lru (entries c) with
        | (l, Some (_, e)) => evict_while fuel over why (removed c l e why)
        | (_, None) => c
        end
      else c
  end.

Definition size_of (c : BoundedMessageCache) : nat := length (lru_iter (entries c)).

Definition over_bytes (incoming : Z) (c : BoundedMessageCache) : bool :=
  bool_decide (u64_sat_add (total_bytes c) incoming > max_bytes c).
Definition over_count (c : BoundedMessageCache) : bool :=
  bool_decide (u64_sat_add (Z.of_nat (size_of c)) 1 > max_count c).

Definition ensure_bytes_capacity (c : BoundedMessageCache) (incoming : Z) : BoundedMessageCache :=
  evict_while (S (size_of c)) (over_bytes incoming) ByBytes c.
Definition ensure_count_capacity_for_insert (c : BoundedMessageCache) : BoundedMessageCache :=
  evict_while (S (size_of c)) over_count ByCount c.

Definition add_entry (c : BoundedMessageCache) (id : MessageIdType) (e : CachedEntry) : BoundedMessageCache :=
  let c := mkCache (entries c) (u64_sat_add (total_bytes c) (bytes e)) (max_count c) (max_bytes c) (max_age c)
    (evicted_by_age c) (evicted_by_bytes c) (evicted_by_count c) (live_local_origin c) in
  let c :=
    match lru_push (entries c) id e with
    | (l, Some (_, evicted)) => removed c l evicted ByCount
    | (l, None) => with_entries c l
    end in
  mkCache (entries c) (total_bytes c) (max_count c) (max_bytes c) (max_age c)
    (evicted_by_age c) (evicted_by_bytes c) (evicted_by_count c)
    (if counts_as_live_local (message e) then u64_sat_add (live_local_origin c) 1 else live_local_origin c).

Definition insert_at (c : BoundedMessageCache) (id : MessageIdType) (m : CachedMessage) (now : Z) : BoundedMessageCache * bool :=
  let b := estimate_message_bytes m in
  let c := prune_expired_at c now in
  let c :=
    match lru_pop (entries c) id with
    | (l, Some existing) => removed c l existing Replaced
    | (_, None) => c
    end in
  if decide (b > max_bytes c) then (c, false)
  else
    let c := ensure_bytes_capacity c b in
    let c := ensure_count_capacity_for_insert c in
    (add_entry c id (mkEntry m b now), true).

Definition get_at (c : BoundedMessageCache) (id : MessageIdType) (now : Z) : BoundedMessageCache * option CachedMessage :=
  let c := prune_expired_at c now in
  let '(l, e) := lru_get (entries c) id in
  (with_entries c l, message <$> e).

Definition contains (c : BoundedMessageCache) (id : MessageIdType) : bool :=
  bool_decide (is_Some (assoc id (lru_iter (entries c)))).

Definition ids (c : BoundedMessageCache) : list MessageIdType := (lru_iter (entries c)).*1.

Record CacheStatsSnapshot := mkStats {
  st_msg_count : Z;
  st_total_bytes : Z;
  st_oldest_age_secs : Z;
  st_evicted_by_age : Z;
  st_evicted_by_bytes : Z;
  st_evicted_by_count : Z;
}.

Definition stats_at (c : BoundedMessageCache) (now : Z) : CacheStatsSnapshot :=
  mkStats (Z.of_nat (size_of c)) (total_bytes c)
    (default 0 (iter_max ((λ kv, elapsed_ns now (inserted_at kv.2) / NANOS_PER_SEC) <$> lru_iter (entries c))))
    (evicted_by_age c) (evicted_by_bytes c) (evicted_by_count c).

(** ** [TopicState]'s operations on its cache *)

(** The network cannot replace a message that this process published; the
    clock is read by the lookup and by the insertion. *)
Definition cache_message (c : BoundedMessageCache) (id : MessageIdType) (p : list Z) (h : MessageHeader) (local : bool) (now_get now_insert : Z) :
    BoundedMessageCache * bool :=
  let '(c, owned) :=
    if local then (c, false)
    else
      let '(c, cached) := get_at c id now_get in
      (c, match cached with Some m => local_origin m | None => false end) in
  if owned then (c, false)
  else insert_at c id (mkMessage p h false local None) now_insert.

Definition set_inner_proof (c : BoundedMessageCache) (id : MessageIdType) (proof : option VerifiedInner) : BoundedMessageCache :=
  with_entries c
    (lru_get_mut (entries c) id
       (λ e, mkEntry (mkMessage (payload (message e)) (header (message e)) (dropped (message e))
                        (local_origin (message e)) proof) (bytes e) (inserted_at e))).1.

Definition get_local_origin_message (c : BoundedMessageCache) (id : MessageIdType) (now : Z) : BoundedMessageCache * option CachedMessage :=
  let c := prune_expired_at c now in
  (c, match assoc id (lru_iter (entries c)) with
      | Some e => if local_origin (message e) then Some (message e) else None
      | None => None
      end).

(** ** Invariant *)

Definition bytes_of (l : list (MessageIdType * CachedEntry)) : Z :=
  foldr (λ kv acc, bytes kv.2 + acc) 0 l.
Definition live_of (l : list (MessageIdType * CachedEntry)) : Z :=
  foldr (λ kv acc, (if counts_as_live_local (message kv.2) then 1 else 0) + acc) 0 l.

Record wf (c : BoundedMessageCache) : Prop := {
  wf_nodup : NoDup (lru_iter (entries c)).*1;
  wf_pos : Forall (λ kv, 0 <= bytes kv.2) (lru_iter (entries c));
  wf_bytes : total_bytes c = bytes_of (lru_iter (entries c));
  wf_live : live_local_origin c = live_of (lru_iter (entries c));
  wf_cap : lru_cap (entries c) = max_count c;
  wf_limits : 1 <= max_count c < U64_MAX ∧ 0 <= max_bytes c < U64_MAX;
  wf_len : Z.of_nat (size_of c) <= max_count c;
  wf_total : total_bytes c <= max_bytes c;
}.

Lemma bytes_of_app (l1 l2 : list (MessageIdType * CachedEntry)) : bytes_of (l1 ++ l2) = bytes_of l1 + bytes_of l2.
Proof. unfold bytes_of. induction l1 as [|kv l1 IH]; cbn [app foldr]; lia. Qed.

Lemma live_of_app (l1 l2 : list (MessageIdType * CachedEntry)) : live_of (l1 ++ l2) = live_of l1 + live_of l2.
Proof. unfold live_of. induction l1 as [|kv l1 IH]; cbn [app foldr]; lia. Qed.

Lemma bytes_of_nonneg (l : list (MessageIdType * CachedEntry)) : Forall (λ kv, 0 <= bytes kv.2) l → 0 <= bytes_of l.
Proof. unfold bytes_of. induction 1; cbn; lia. Qed.

Lemma live_of_bounds (l : list (MessageIdType * CachedEntry)) : 0 <= live_of l <= Z.of_nat (length l).
Proof.
  unfold live_of. induction l as [|kv l IH]; [cbn; lia|]. cbn [foldr length].
  destruct (counts_as_live_local _); lia.
Qed.

(** Removing one entry, wherever it is: the lists and the counters agree. *)
Lemma wf_removed (c : BoundedMessageCache) (l : Lru) (k : MessageIdType) (e : CachedEntry) (l1 l2 : list (MessageIdType * CachedEntry)) (why : Cause) :
  wf c → lru_iter (entries c) = l1 ++ (k, e) :: l2 → lru_iter l = l1 ++ l2 → lru_cap l = lru_cap (entries c) →
  wf (removed c l e why).
Proof.
  intros [Hnd Hpos Hb Hl Hcap Hlim Hlen Htot] Heq Hl' Hc'. unfold size_of in *.
  rewrite Heq in *. rewrite fmap_app in Hnd. apply Forall_app in Hpos as [Hp1 [Hpe Hp2]%Forall_cons].
  apply NoDup_app in Hnd as (Hn1 & Hdis & [Hke Hn2]%NoDup_cons).
  rewrite bytes_of_app in Hb. rewrite live_of_app in Hl. cbn in Hb, Hl, Hpe.
  pose proof (bytes_of_nonneg l1 Hp1). pose proof (bytes_of_nonneg l2 Hp2).
  pose proof (live_of_bounds l1). pose proof (live_of_bounds l2). rewrite length_app in Hlen. cbn in Hlen.
  split; cbn; rewrite ?Hl', ?Hc'.
  - rewrite fmap_app. apply NoDup_app. split; [done|]. split; [|done]. intros x Hx Hx2. apply (Hdis x Hx). by right.
  - by apply Forall_app.
  - rewrite bytes_of_app. unfold sat_sub. unfold bytes_of in *. lia.
  - rewrite live_of_app. unfold count_removed, sat_sub. unfold live_of in *. destruct (counts_as_live_local _); lia.
  - done.
  - done.
  - unfold size_of. cbn. rewrite Hl', length_app. lia.
  - unfold sat_sub. unfold bytes_of in *. lia.
Qed.

Lemma assoc_split (l : list (MessageIdType * CachedEntry)) (k : MessageIdType) (e : CachedEntry) :
  assoc k l = Some e → ∃ l1 l2, l = l1 ++ (k, e) :: l2.
Proof. intros Ha%assoc_Some. by apply list_elem_of_split. Qed.

(** A [pop] of any key keeps the invariant and removes that key only. *)
Lemma pop_entry (c : BoundedMessageCache) (k : MessageIdType) (why : Cause) :
  wf c →
  let c' := match lru_pop (entries c) k with (l, Some e) => removed c l e why | (_, None) => c end in
  wf c' ∧ lru_iter (entries c') = without k (lru_iter (entries c)) ∧
  max_count c' = max_count c ∧ max_bytes c' = max_bytes c ∧ max_age c' = max_age c.
Proof.
  intros Hwf. cbn zeta. destruct (lru_pop_spec (entries c) k) as (Hr & Hc & Hi).
  destruct (lru_pop (entries c) k) as [l [e|]]; cbn in *.
  - destruct (assoc_split _ _ _ (eq_sym Hr)) as (l1 & l2 & Heq). split; [|done].
    eapply wf_removed; [done|exact Heq| |done]. rewrite Hi, Heq. apply without_app_mid. rewrite <-Heq. apply Hwf.
  - symmetry in Hr. apply assoc_None in Hr. rewrite without_id by done. done.
Qed.

Definition same_limits (c c' : BoundedMessageCache) : Prop :=
  max_count c' = max_count c ∧ max_bytes c' = max_bytes c ∧ max_age c' = max_age c.

Lemma drop_all (ks : list MessageIdType) (c : BoundedMessageCache) :
  wf c →
  wf (foldl drop_expired c ks) ∧ same_limits c (foldl drop_expired c ks) ∧
  lru_iter (entries (foldl drop_expired c ks)) = filter (λ kv, kv.1 ∉ ks) (lru_iter (entries c)).
Proof.
  revert c. induction ks as [|k ks IH]; intros c Hwf; cbn [foldl].
  - split; [done|]. split; [done|]. symmetry. apply filter_all. intros ? _. apply not_elem_of_nil.
  - destruct (pop_entry c k ByAge Hwf) as (Hwf1 & Hi1 & Hm1 & Hm2 & Hm3).
    unfold drop_expired at 2 4 6. destruct (IH _ Hwf1) as (Hwf2 & (Hn1 & Hn2 & Hn3) & Hi2).
    split; [done|]. split; [repeat split; congruence|]. rewrite Hi2, Hi1. unfold without.
    rewrite list_filter_filter. apply list_filter_iff. intros kv. set_solver.
Qed.

Lemma filter_keys_expired (P : MessageIdType * CachedEntry → Prop) `{!∀ x, Decision (P x)} (l : list (MessageIdType * CachedEntry)) :
  NoDup l.*1 → filter (λ kv, kv.1 ∉ (filter P l).*1) l = filter (λ kv, ¬ P kv) l.
Proof.
  intros Hnd. apply filter_ext_in. intros [k e] Hin. cbn. rewrite list_elem_of_fmap. split.
  - intros Hno HP. apply Hno. exists (k, e). split; [done|]. by apply list_elem_of_filter.
  - intros HP ([k' e'] & Hk & [HP' Hin']%list_elem_of_filter). cbn in Hk. subst k'.
    apply HP. replace e with e'; [done|].
    apply (assoc_elem _ _ _ Hnd) in Hin. apply (assoc_elem _ _ _ Hnd) in Hin'. congruence.
Qed.

Lemma prune_spec (c : BoundedMessageCache) (now : Z) :
  wf c →
  wf (prune_expired_at c now) ∧ same_limits c (prune_expired_at c now) ∧
  lru_iter (entries (prune_expired_at c now)) = filter (λ kv, ¬ expired c now kv.2) (lru_iter (entries c)).
Proof.
  intros Hwf. unfold prune_expired_at.
  destruct (drop_all (filter (λ kv, expired c now kv.2) (lru_iter (entries c))).*1 c Hwf) as (Hw & Hl & Hi).
  split; [done|]. split; [done|]. rewrite Hi. apply (filter_keys_expired (λ kv, expired c now kv.2)). apply Hwf.
Qed.

(** The eviction loop pops a suffix of the list, no longer than needed. *)
Lemma evict_while_spec (fuel : nat) (over : BoundedMessageCache → bool) (why : Cause)
    (P : list (MessageIdType * CachedEntry) → bool) (c : BoundedMessageCache) :
  (∀ c', wf c' → same_limits c c' → over c' = P (lru_iter (entries c'))) →
  wf c → (size_of c < fuel)%nat →
  let c' := evict_while fuel over why c in
  wf c' ∧ same_limits c c' ∧ (P (lru_iter (entries c')) = false ∨ lru_iter (entries c') = []) ∧
  ∃ evicted, lru_iter (entries c) = lru_iter (entries c') ++ evicted ∧
    ∀ e rest, evicted = e :: rest → P (lru_iter (entries c') ++ [e]) = true.
Proof.
  revert c. induction fuel as [|fuel IH]; intros c Hover Hwf Hfuel; [lia|]. cbn zeta. cbn [evict_while].
  destruct (over c) eqn:Ho.
  - destruct (lru_pop_lru_spec (entries c)) as [Hcap Hpop].
    destruct (lru_pop_lru (entries c)) as [l [[k e]|]]; cbn in *.
    + assert (wf (removed c l e why)) as Hwf'.
      { eapply (wf_removed c l k e (lru_iter l) []); [done|exact Hpop|by rewrite app_nil_r|done]. }
      destruct (IH (removed c l e why)) as (Hw & Hl & Hdone & evicted & Heq & Hmin).
      * intros c' Hc' Hl'. apply Hover; done.
      * done.
      * unfold size_of in *. cbn. rewrite Hpop, length_app in Hfuel. cbn in Hfuel. lia.
      * split; [done|]. split; [done|]. split; [done|]. exists (evicted ++ [(k, e)]). cbn in Heq.
        rewrite Hpop, Heq, app_assoc. split; [done|]. intros e' rest Hev.
        destruct evicted as [|e0 evicted]; cbn in Hev; [|injection Hev as <- _; by eapply Hmin].
        injection Hev as <- _. rewrite app_nil_r in Heq. rewrite <-Heq, <-Hpop.
        rewrite <-Hover; [done|done|by repeat split].
    + destruct Hpop as [Hnil _]. split; [done|]. split; [done|]. split; [by right|].
      exists []. split; [by rewrite app_nil_r|]. intros; congruence.
  - split; [done|]. split; [done|]. split.
    + left. rewrite <-Hover; [done|done|by repeat split].
    + exists []. split; [by rewrite app_nil_r|]. intros; congruence.
Qed.

Definition too_many (c : BoundedMessageCache) (l : list (MessageIdType * CachedEntry)) : bool :=
  bool_decide (Z.of_nat (length l) + 1 > max_count c).
Definition too_big (c : BoundedMessageCache) (b : Z) (l : list (MessageIdType * CachedEntry)) : bool :=
  bool_decide (bytes_of l + b > max_bytes c).

Lemma over_count_eq (c c' : BoundedMessageCache) :
  wf c' → same_limits c c' → over_count c' = too_many c (lru_iter (entries c')).
Proof.
  intros [_ _ _ _ _ Hlim Hlen _] (Hm & _). unfold over_count, too_many, u64_sat_add, size_of in *.
  apply bool_decide_ext. rewrite Hm in *. lia.
Qed.

Lemma over_bytes_eq (b : Z) (c c' : BoundedMessageCache) :
  wf c' → same_limits c c' → over_bytes b c' = too_big c b (lru_iter (entries c')).
Proof.
  intros [_ _ Hb _ _ Hlim _ _] (_ & Hm & _). unfold over_bytes, too_big, u64_sat_add.
  apply bool_decide_ext. rewrite Hm, Hb in *. lia.
Qed.

Lemma estimate_pos (m : CachedMessage) : 0 < estimate_message_bytes m <= U64_MAX.
Proof.
  unfold estimate_message_bytes, u64_sat_add, MESSAGE_HEADER_OVERHEAD_BYTES, MESSAGE_CRYPTO_OVERHEAD_BYTES, U64_MAX. lia.
Qed.

Lemma add_entry_spec (c : BoundedMessageCache) (id : MessageIdType) (e : CachedEntry) :
  wf c → id ∉ (lru_iter (entries c)).*1 → 0 <= bytes e →
  too_many c (lru_iter (entries c)) = false → too_big c (bytes e) (lru_iter (entries c)) = false →
  wf (add_entry c id e) ∧ same_limits c (add_entry c id e) ∧
  lru_iter (entries (add_entry c id e)) = (id, e) :: lru_iter (entries c).
Proof.
  intros [Hnd Hpos Hb Hl Hcap Hlim Hlen Htot] Hid He Hmany Hbig.
  apply bool_decide_eq_false in Hmany. apply bool_decide_eq_false in Hbig.
  pose proof (live_of_bounds (lru_iter (entries c))) as Hlive. unfold size_of in *.
  unfold add_entry. cbn [entries].
  destruct (lru_push_spec (entries c) id e) as (Hr & Hc & Hi); [by apply assoc_None|lia|].
  destruct (lru_push (entries c) id e) as [l o]. cbn in Hr, Hc, Hi. subst o. cbn.
  split; [|done]. split; cbn; rewrite ?Hi; cbn.
  - by apply NoDup_cons.
  - by constructor.
  - unfold u64_sat_add. unfold bytes_of in *. lia.
  - unfold u64_sat_add. unfold live_of in *. destruct (counts_as_live_local _); lia.
  - congruence.
  - done.
  - unfold size_of. cbn. rewrite Hi. cbn. lia.
  - unfold u64_sat_add. lia.
Qed.

(** What an insertion does to the list of entries. *)
Lemma insert_at_spec (c : BoundedMessageCache) (id : MessageIdType) (m : CachedMessage) (now : Z) :
  wf c →
  let '(c', accepted) := insert_at c id m now in
  let b := estimate_message_bytes m in
  let others := without id (filter (λ kv, ¬ expired c now kv.2) (lru_iter (entries c))) in
  wf c' ∧ same_limits c c' ∧
  if decide (b > max_bytes c) then accepted = false ∧ lru_iter (entries c') = others
  else accepted = true ∧ ∃ kept evicted, others = kept ++ evicted ∧
    lru_iter (entries c') = (id, mkEntry m b now) :: kept ∧
    ∀ e rest, evicted = e :: rest → too_many c (kept ++ [e]) = true ∨ too_big c b (kept ++ [e]) = true.
Proof.
  intros Hwf. unfold insert_at. set (b := estimate_message_bytes m). pose proof (estimate_pos m : 0 < b <= U64_MAX) as Hb.
  destruct (prune_spec c now Hwf) as (Hw1 & Hl1 & Hi1). set (c1 := prune_expired_at c now) in *.
  destruct (pop_entry c1 id Replaced Hw1) as (Hw2 & Hi2 & Hl2).
  set (c2 := match lru_pop (entries c1) id with (l, Some e) => removed c1 l e Replaced | (_, None) => c1 end) in *.
  assert (same_limits c c2) as Hl02 by (unfold same_limits in *; naive_solver congruence).
  rewrite Hi1 in Hi2. destruct Hl02 as (Hm1 & Hm2 & Hm3). rewrite Hm2. case_decide as Hbig.
  { split; [done|]. split; [done|]. done. }
  destruct (evict_while_spec (S (size_of c2)) (over_bytes b) ByBytes (too_big c2 b) c2) as (Hw3 & Hl3 & Hd3 & ev3 & He3 & Hmin3).
  { intros. by apply over_bytes_eq. } { done. } { lia. }
  fold (ensure_bytes_capacity c2 b) in *. set (c3 := ensure_bytes_capacity c2 b) in *.
  destruct (evict_while_spec (S (size_of c3)) over_count ByCount (too_many c3) c3) as (Hw4 & Hl4 & Hd4 & ev4 & He4 & Hmin4).
  { intros. by apply over_count_eq. } { done. } { lia. }
  fold (ensure_count_capacity_for_insert c3) in *. set (c4 := ensure_count_capacity_for_insert c3) in *.
  assert (same_limits c c4) as Hl04 by (unfold same_limits in *; naive_solver congruence).
  assert (lru_iter (entries c2) = lru_iter (entries c4) ++ (ev4 ++ ev3)) as Heq.
  { rewrite He3, He4. by rewrite app_assoc. }
  destruct (add_entry_spec c4 id (mkEntry m b now)) as (Hw5 & Hl5 & Hi5).
  { done. }
  { assert (id ∉ (lru_iter (entries c2)).*1) as Hid.
    { rewrite Hi2, list_elem_of_fmap. intros ([k e] & -> & [Hne _]%elem_of_without). by apply Hne. }
    rewrite Heq, fmap_app in Hid. set_solver. }
  { cbn. lia. }
  { destruct Hl4 as (H4 & _). unfold too_many in *. rewrite H4. destruct Hd4 as [|Hnil]; [done|].
    rewrite Hnil. apply bool_decide_eq_false. cbn [length]. pose proof (wf_limits _ Hw3). lia. }
  { destruct Hl4 as (_ & H4 & _). destruct Hl3 as (_ & H3 & _). unfold too_big in *. rewrite H4, H3.
    cbn [bytes]. apply bool_decide_eq_false. rewrite He4 in Hd3. destruct Hd3 as [Hd3|Hd3].
    - apply bool_decide_eq_false in Hd3. rewrite bytes_of_app in Hd3.
      assert (0 <= bytes_of ev4); [|lia]. apply bytes_of_nonneg.
      destruct Hw3 as [_ Hp _ _ _ _ _ _]. rewrite He4 in Hp. by apply Forall_app in Hp as [_ ?].
    - apply app_eq_nil in Hd3 as [-> _]. cbn. lia. }
  split; [done|]. split; [unfold same_limits in *; naive_solver congruence|]. split; [done|].
  exists (lru_iter (entries c4)), (ev4 ++ ev3). split; [by rewrite <-Hi2|]. split; [done|].
  intros e rest Hev. destruct ev4 as [|e4 ev4]; cbn in Hev.
  - right. rewrite app_nil_r in He4. rewrite <-He4. rewrite <-(Hmin3 e rest Hev).
    unfold too_big. by rewrite Hm2.
  - left. injection Hev as <- _. rewrite <-(Hmin4 e4 ev4 eq_refl). unfold too_many.
    destruct Hl3 as (-> & _). by rewrite Hm1.
Qed.

(** Moving an entry to the front, possibly changed in its flags. *)
Lemma wf_front (c : BoundedMessageCache) (l : Lru) (k : MessageIdType) (e e' : CachedEntry) (live : Z) :
  wf c → assoc k (lru_iter (entries c)) = Some e → lru_iter l = (k, e') :: without k (lru_iter (entries c)) →
  lru_cap l = lru_cap (entries c) → bytes e' = bytes e →
  live = live_local_origin c - (if counts_as_live_local (message e) then 1 else 0)
         + (if counts_as_live_local (message e') then 1 else 0) →
  wf (mkCache l (total_bytes c) (max_count c) (max_bytes c) (max_age c)
        (evicted_by_age c) (evicted_by_bytes c) (evicted_by_count c) live).
Proof.
  intros [Hnd Hpos Hb Hl Hcap Hlim Hlen Htot] Ha Hi Hc He Hlive. unfold size_of in *.
  destruct (assoc_split _ _ _ Ha) as (l1 & l2 & Heq).
  assert (without k (lru_iter (entries c)) = l1 ++ l2) as Hwo.
  { rewrite Heq. apply without_app_mid. by rewrite <-Heq. }
  pose proof (NoDup_front (lru_iter (entries c)) k e' Hnd) as Hnd'.
  rewrite Hwo in Hi, Hnd'. rewrite Heq in *. apply Forall_app in Hpos as [Hp1 [Hpe Hp2]%Forall_cons].
  rewrite bytes_of_app in Hb. rewrite live_of_app in Hl. rewrite length_app in Hlen. cbn in Hb, Hl, Hpe, Hlen.
  split; cbn; rewrite ?Hi; try done.
  - constructor; [cbn; lia|]. by apply Forall_app.
  - change (total_bytes c = bytes e' + bytes_of (l1 ++ l2)). rewrite bytes_of_app. unfold bytes_of in *. lia.
  - change (live = (if counts_as_live_local (message e') then 1 else 0) + live_of (l1 ++ l2)).
    rewrite live_of_app. unfold live_of in *. lia.
  - congruence.
  - unfold size_of. cbn. rewrite Hi. cbn. rewrite length_app. lia.
Qed.

Lemma wf_get_at (c : BoundedMessageCache) (id : MessageIdType) (now : Z) :
  wf c →
  wf (get_at c id now).1 ∧ same_limits c (get_at c id now).1 ∧
  (get_at c id now).2 =
    message <$> assoc id (filter (λ kv, ¬ expired c now kv.2) (lru_iter (entries c))) ∧
  ∀ k e, (k, e) ∈ lru_iter (entries (get_at c id now).1) ↔ (k, e) ∈ lru_iter (entries c) ∧ ¬ expired c now e.
Proof.
  intros Hwf. unfold get_at. destruct (prune_spec c now Hwf) as (Hw & Hl & Hi).
  set (c1 := prune_expired_at c now) in *. destruct (lru_get_spec (entries c1) id) as (Hr & Hcap & Hit).
  destruct (lru_get (entries c1) id) as [l o]. cbn in Hr, Hcap, Hit. injection Hr as ->. cbn.
  rewrite <-Hi. destruct (assoc id (lru_iter (entries c1))) as [e|] eqn:Ha.
  - split; [|split; [done|split; [done|]]].
    + eapply (wf_front c1 l id e e); [done|done|done|done|done|lia].
    + intros k e'. rewrite Hit, elem_of_cons, elem_of_without. cbn.
      assert ((k, e') ∈ lru_iter (entries c1) ↔ (k, e') ∈ lru_iter (entries c) ∧ ¬ expired c now e') as Hel.
      { rewrite Hi, list_elem_of_filter. cbn. tauto. }
      rewrite <-Hel. split.
      * intros [[= -> ->]|[_ ?]]; [by apply assoc_Some|done].
      * intros Hin. destruct (decide (k = id)) as [->|]; [left|by right].
        apply (assoc_elem _ _ _ (wf_nodup _ Hw)) in Hin. congruence.
  - split; [|split; [done|split; [done|]]].
    + destruct Hw as [? ? ? ? ? ? ? ?]. unfold size_of in *. split; cbn; rewrite ?Hit; try done; [congruence|].
      unfold size_of. cbn. by rewrite Hit.
    + intros k e'. rewrite Hit, Hi, list_elem_of_filter. cbn. tauto.
Qed.

Lemma wf_mark_dropped (c : BoundedMessageCache) (id : MessageIdType) : wf c → wf (mark_dropped c id).1.
Proof.
  intros Hwf. unfold mark_dropped. destruct (lru_get_mut_spec (entries c) id set_dropped) as (Hr & Hcap & Hit).
  destruct (lru_get_mut (entries c) id set_dropped) as [l o]. cbn in Hr, Hcap, Hit. injection Hr as ->.
  destruct (assoc id (lru_iter (entries c))) as [e|] eqn:Ha; [|done]. cbn.
  eapply (wf_front c l id e (set_dropped e)); [done|done|done|done|done|].
  unfold counts_as_live_local, set_dropped, sat_sub. cbn.
  destruct (local_origin (message e)) eqn:Hlo, (dropped (message e)) eqn:Hdr; cbn; try lia.
  assert (1 <= live_local_origin c); [|lia]. rewrite (wf_live _ Hwf).
  destruct (assoc_split _ _ _ Ha) as (l1 & l2 & ->). rewrite live_of_app.
  assert (live_of ((id, e) :: l2) = 1 + live_of l2) as ->.
  { unfold live_of. cbn [foldr snd]. unfold counts_as_live_local. by rewrite Hlo, Hdr. }
  pose proof (live_of_bounds l1). pose proof (live_of_bounds l2). lia.
Qed.

Lemma wf_set_inner_proof (c : BoundedMessageCache) (id : MessageIdType) (proof : option VerifiedInner) :
  wf c → wf (set_inner_proof c id proof).
Proof.
  intros Hwf. unfold set_inner_proof, with_entries. set (f := λ e : CachedEntry, _).
  destruct (lru_get_mut_spec (entries c) id f) as (_ & Hcap & Hit).
  destruct (assoc id (lru_iter (entries c))) as [e|] eqn:Ha.
  - eapply (wf_front c _ id e (f e)); [done|done|exact Hit|exact Hcap|done|].
    unfold counts_as_live_local, f. cbn. lia.
  - destruct Hwf as [? ? ? ? ? ? ? ?]. unfold size_of in *. split; cbn; rewrite ?Hit; try done; [congruence|].
    unfold size_of. cbn. by rewrite Hit.
Qed.

Lemma wf_cache_message (c : BoundedMessageCache) (id : MessageIdType) (p : list Z) (h : MessageHeader) (local : bool) (n1 n2 : Z) :
  wf c → wf (cache_message c id p h local n1 n2).1 ∧ same_limits c (cache_message c id p h local n1 n2).1.
Proof.
  intros Hwf. unfold cache_message. set (msg := mkMessage p h false local None). destruct local.
  - pose proof (insert_at_spec c id msg n2 Hwf) as Hins.
    destruct (insert_at c id msg n2) as [c1 acc]. cbn. by destruct Hins as (? & ? & _).
  - destruct (wf_get_at c id n1 Hwf) as (Hw & Hl & _). destruct (get_at c id n1) as [c1 o]. cbn in *.
    destruct (match o with Some m => local_origin m | None => false end); [done|].
    pose proof (insert_at_spec c1 id msg n2 Hw) as Hins.
    destruct (insert_at c1 id msg n2) as [c2 acc]. cbn. destruct Hins as (? & Hl2 & _).
    split; [done|]. unfold same_limits in *. naive_solver congruence.
Qed.

(** ** Reachable caches *)

Inductive cstep (c : BoundedMessageCache) : BoundedMessageCache → Prop :=
| c_insert id m now : cstep c (insert_at c id m now).1
| c_get id now : cstep c (get_at c id now).1
| c_prune now : cstep c (prune_expired_at c now)
| c_mark_dropped id : cstep c (mark_dropped c id).1
| c_set_inner_proof id proof : cstep c (set_inner_proof c id proof)
| c_cache_message id p h local n1 n2 : cstep c (cache_message c id p h local n1 n2).1.

Lemma wf_empty_cache (count limit age : Z) :
  1 <= count < U64_MAX → 0 <= limit < U64_MAX → wf (new count limit age).
Proof.
  intros Hc Hb. destruct (lru_new_spec (K := MessageIdType) (V := CachedEntry) count) as [Hi Hcap].
  split; cbn; rewrite ?Hi; try done; [apply NoDup_nil_2|unfold size_of; cbn; rewrite Hi; cbn; lia|lia].
Qed.

Lemma wf_cstep (c c' : BoundedMessageCache) : cstep c c' → wf c → wf c' .
Proof.
  destruct 1 as [id m now|id now|now|id|id proof|id p h local n1 n2]; intros Hwf.
  - pose proof (insert_at_spec c id m now Hwf) as H. destruct (insert_at c id m now). by destruct H.
  - by apply wf_get_at.
  - by apply prune_spec.
  - by apply wf_mark_dropped.
  - by apply wf_set_inner_proof.
  - by apply wf_cache_message.
Qed.

Lemma live_of_pos (l : list (MessageIdType * CachedEntry)) :
  0 < live_of l ↔ ∃ k e, (k, e) ∈ l ∧ local_origin (message e) = true ∧ dropped (message e) = false.
Proof.
  induction l as [|[k e] l IH].
  - split; [cbn; lia|]. intros (? & ? & Hin & _). by apply not_elem_of_nil in Hin.
  - change (live_of ((k, e) :: l)) with ((if counts_as_live_local (message e) then 1 else 0) + live_of l).
    pose proof (live_of_bounds l). unfold counts_as_live_local.
    destruct (local_origin (message e)) eqn:Hlo, (dropped (message e)) eqn:Hdr; cbn [andb negb];
      try (rewrite Z.add_0_l, IH; split; intros (k' & e' & Hin & ?); exists k', e';
           (split; [|done]); [by right|apply elem_of_cons in Hin as [[= -> ->]|?]; [|done]; naive_solver congruence]).
    split; [|lia]. intros _. exists k, e. split; [by left|done].
Qed.

(** The cache's bookkeeping is exact and its bounds hold after any sequence
    of operations: the byte counter is the sum over the resident entries and
    at most the byte limit, the count limit holds, no id is resident twice,
    and the O(1) predicate on live local messages answers exactly whether one
    is resident. *)
Theorem cache_bookkeeping (count limit age : Z) (c : BoundedMessageCache) :
  1 <= count < U64_MAX → 0 <= limit < U64_MAX → rtc cstep (new count limit age) c →
  NoDup (ids c) ∧ Z.of_nat (length (ids c)) <= max_count c ∧
  total_bytes c = bytes_of (lru_iter (entries c)) ∧ total_bytes c <= max_bytes c ∧
  (has_live_local_origin c = true ↔
    ∃ k e, (k, e) ∈ lru_iter (entries c) ∧ local_origin (message e) = true ∧ dropped (message e) = false).
Proof.
  intros Hc Hb Hr. assert (wf c) as Hwf.
  { assert (wf (new count limit age)) as Hw by by apply wf_empty_cache.
    revert Hw. induction Hr; [done|]. intros. apply IHHr. by eapply wf_cstep. }
  destruct Hwf as [Hnd _ Hby Hl _ _ Hlen Htot]. unfold ids. rewrite length_fmap.
  split; [done|]. split; [done|]. split; [done|]. split; [done|].
  unfold has_live_local_origin. rewrite bool_decide_eq_true, Hl, <-live_of_pos. lia.
Qed.

(** An insertion removes the expired entries and an older copy of the
    message, refuses only a message that exceeds the byte limit by itself, and
    otherwise makes the message the most recent entry.  Of the others it keeps
    the longest most-recent prefix that fits the byte and count limits with
    the new message: it evicts in least-recently-used order and no more than
    needed. *)
Theorem cache_insert_exact (c : BoundedMessageCache) (id : MessageIdType) (m : CachedMessage) (now : Z) :
  wf c →
  let '(c', accepted) := insert_at c id m now in
  let b := estimate_message_bytes m in
  let others := without id (filter (λ kv, ¬ expired c now kv.2) (lru_iter (entries c))) in
  if decide (b > max_bytes c) then accepted = false ∧ lru_iter (entries c') = others
  else accepted = true ∧ ∃ kept evicted, others = kept ++ evicted ∧
    lru_iter (entries c') = (id, mkEntry m b now) :: kept ∧
    ∀ e rest, evicted = e :: rest →
      Z.of_nat (length (kept ++ [e])) + 1 > max_count c ∨ bytes_of (kept ++ [e]) + b > max_bytes c.
Proof.
  intros Hwf. pose proof (insert_at_spec c id m now Hwf) as Hs.
  destruct (insert_at c id m now) as [c' acc]. cbn zeta in *. destruct Hs as (_ & _ & Hs).
  case_decide; [done|]. destruct Hs as (? & kept & ev & ? & ? & Hmin). split; [done|]. exists kept, ev.
  split; [done|]. split; [done|]. intros e rest He. destruct (Hmin e rest He) as [Hm%bool_decide_eq_true|Hm%bool_decide_eq_true]; auto.
Qed.

(** Custody: a frame from the network never replaces a message that this
    process published and that has not expired. *)
Lemma network_keeps_local (c : BoundedMessageCache) (id : MessageIdType) (e : CachedEntry) (p : list Z) (h : MessageHeader) (n1 n2 : Z) :
  wf c → assoc id (lru_iter (entries c)) = Some e → local_origin (message e) = true → ¬ expired c n1 e →
  (cache_message c id p h false n1 n2).2 = false ∧
  assoc id (lru_iter (entries (cache_message c id p h false n1 n2).1)) = Some e.
Proof.
  intros Hwf Ha Hlo Hx. unfold cache_message. destruct (wf_get_at c id n1 Hwf) as (Hw & _ & Hr & Hel).
  destruct (get_at c id n1) as [c1 o]. cbn in *.
  assert (assoc id (filter (λ kv, ¬ expired c n1 kv.2) (lru_iter (entries c))) = Some e) as Haf.
  { apply assoc_elem; [apply NoDup_filter_keys, Hwf|]. apply list_elem_of_filter. split; [done|by apply assoc_Some]. }
  rewrite Hr, Haf. cbn. rewrite Hlo. cbn. split; [done|]. apply assoc_elem; [apply Hw|].
  apply Hel. split; [by apply assoc_Some|done].
Qed.
End MessageCache.
End MessageCache.

(** ** Concrete runs *)

Module MessageCacheWitness.
Import MessageCache.

(** A reference implementation of the [lru] interface: the capacity and the
    entries in recency order. *)
Section RefLru.
Context {K V : Type} `{!EqDecision K}.

Definition ref_lru : Type := (Z * list (K * V))%type.

Definition ref_get_mut (c : ref_lru) (k : K) (f : V → V) : ref_lru * option V :=
  match assoc k c.2 with
  | Some v => ((c.1, (k, f v) :: without k c.2), Some v)
  | None => (c, None)
  end.

Definition ref_push (c : ref_lru) (k : K) (v : V) : ref_lru * option (K * V) :=
  match assoc k c.2 with
  | Some old => ((c.1, (k, v) :: without k c.2), Some (k, old))
  | None =>
      if decide (Z.of_nat (length c.2) < c.1) then ((c.1, (k, v) :: c.2), None)
      else ((c.1, (k, v) :: removelast c.2), last c.2)
  end.

Lemma removelast_last (l : list (K * V)) (x : K * V) : last l = Some x → l = removelast l ++ [x].
Proof.
  induction l as [|y l IH]; [done|]. destruct l as [|z l]; [by intros [= ->]|].
  intros Hl. change (y :: z :: l = y :: (removelast (z :: l) ++ [x])). f_equal. by apply IH.
Qed.

Definition ref_lru_cache : LruCache K V.
Proof.
  refine {| lru := ref_lru;
            lru_new cap := (cap, []);
            lru_cap c := c.1;
            lru_iter c := c.2;
            lru_get c k := ref_get_mut c k id;
            lru_get_mut := ref_get_mut;
            lru_push := ref_push;
            lru_pop c k := ((c.1, without k c.2), assoc k c.2);
            lru_pop_lru c := ((c.1, removelast c.2), last c.2) |}.
  - done.
  - intros c k. unfold ref_get_mut. by destruct (assoc k c.2).
  - intros c k f. unfold ref_get_mut. by destruct (assoc k c.2).
  - intros c k v Ha Hl. unfold ref_push. by rewrite Ha, decide_True.
  - done.
  - intros [cap l]. cbn. split; [done|]. destruct (last l) as [kv|] eqn:Hl; [by apply removelast_last|].
    by apply last_None in Hl as ->.
Defined.
End RefLru.

#[local] Instance witness_lru : LruCache MessageIdType CachedEntry := ref_lru_cache.

Definition hdr : MessageHeader := Header.new (mkTopicId [1]) Eager 10.
Definition msg (n : nat) (local : bool) : CachedMessage := mkMessage (replicate n 0) hdr false local None.

(** Two messages fit. *)
Definition c2 : BoundedMessageCache :=
  (insert_at (insert_at (new 2 20000 1000) [1] (msg 10 true) 0).1 [2] (msg 20 false) 1).1.

Lemma cache_bookkeeping_witness :
  (1 <= 2 < U64_MAX) ∧ (0 <= 20000 < U64_MAX) ∧ rtc cstep (new 2 20000 1000) c2 ∧
  (NoDup (ids c2) ∧ Z.of_nat (length (ids c2)) <= max_count c2 ∧
   total_bytes c2 = bytes_of (lru_iter (entries c2)) ∧ total_bytes c2 <= max_bytes c2 ∧
   (has_live_local_origin c2 = true ↔
     ∃ k e, (k, e) ∈ lru_iter (entries c2) ∧ local_origin (message e) = true ∧ dropped (message e) = false)).
Proof.
  assert (rtc cstep (new 2 20000 1000) c2) as Hr.
  { eapply rtc_l; [apply (c_insert _ [1] (msg 10 true) 0)|]. eapply rtc_l; [apply (c_insert _ [2] (msg 20 false) 1)|].
    apply rtc_refl. }
  split; [unfold U64_MAX; lia|]. split; [unfold U64_MAX; lia|]. split; [exact Hr|].
  apply (cache_bookkeeping 2 20000 1000 c2); [unfold U64_MAX; lia|unfold U64_MAX; lia|exact Hr].
Defined.

(** A third message evicts the least recent one. *)
Lemma cache_insert_exact_witness :
  wf c2 ∧
  (let '(c', accepted) := insert_at c2 [3] (msg 5 false) 2 in
   let b := estimate_message_bytes (msg 5 false) in
   let others := without [3] (filter (λ kv, ¬ expired c2 2 kv.2) (lru_iter (entries c2))) in
   if decide (b > max_bytes c2) then accepted = false ∧ lru_iter (entries c') = others
   else accepted = true ∧ ∃ kept evicted, others = kept ++ evicted ∧
     lru_iter (entries c') = ([3], mkEntry (msg 5 false) b 2) :: kept ∧
     ∀ e rest, evicted = e :: rest →
       Z.of_nat (length (kept ++ [e])) + 1 > max_count c2 ∨ bytes_of (kept ++ [e]) + b > max_bytes c2) ∧
  ids (insert_at c2 [3] (msg 5 false) 2).1 = [[3]; [2]].
Proof.
  assert (wf c2) as Hwf.
  { apply (wf_cstep _ _ (c_insert _ [2] (msg 20 false) 1)), (wf_cstep _ _ (c_insert _ [1] (msg 10 true) 0)).
    apply wf_empty_cache; unfold U64_MAX; lia. }
  split; [exact Hwf|]. split; [|vm_compute; reflexivity].
  apply (cache_insert_exact c2 [3] (msg 5 false) 2). exact Hwf.
Defined.
End MessageCacheWitness.
