(* ===== verification/SendBudget.v ===== *)
(** * Outbound send budgets ([crates/pubsub/src/lib.rs],
      [PeerOutboundBudgets], [CriticalSendGate] and [OutboundSendPermit])

    Every send to a peer holds a permit.  Normal and Bulk data, local-origin
    data and control each have a small lane per peer, counted in a map behind
    a mutex.  Critical data goes through a per-peer FIFO gate: a bounded queue
    and a one-permit semaphore, in a slot shared by reference ([Arc]) and
    reaped when only the gate's map refers to it.

    The threads that run this code are explicit: a [Thread] is a call or a
    permit at one of its points between atomic steps, and [step] lets any of
    them move, so the theorems hold under every interleaving. *)

From S2P Require Import Prelude Types.

#[local] Open Scope Z_scope.

Module SendBudget.

(** ** Constants *)

Definition OUTBOUND_CRITICAL_DATA_PERMITS_PER_PEER : Z := 1.
Definition OUTBOUND_BEST_EFFORT_DATA_PERMITS_PER_PEER : Z := 1.
Definition OUTBOUND_LOCAL_DATA_PERMITS_PER_PEER : Z := 1.
Definition OUTBOUND_CONTROL_PERMITS_PER_PEER : Z := 2.
Definition OUTBOUND_BUDGET_REAP_AFTER : Z := 600 * NANOS_PER_SEC.
Definition OUTBOUND_CRITICAL_QUEUE_PER_PEER : Z := 64.

(** ** Data *)

Inductive OutboundSendClass := Data | Control.
#[global] Instance OutboundSendClass_eq_dec : EqDecision OutboundSendClass.
Proof. solve_decision. Defined.

(** [OutboundSendClass::for_op]. *)
Definition for_op (op : string) : OutboundSendClass :=
  if decide (op = "EAGER"%string) then Data else Control.

Record InFlightDataSlot := mkDataSlot {
  slot_id : Z;
  priority : TopicPriority;
  local_origin : bool;
}.

Record PeerOutboundBudgetEntry := mkBudget {
  critical_data_in_flight : Z;
  best_effort_data_in_flight : Z;
  local_data_in_flight : Z;
  control_in_flight : Z;
  data_slots : list InFlightDataSlot;
  last_used : Z;
}.

Definition entry_new (now : Z) : PeerOutboundBudgetEntry := mkBudget 0 0 0 0 [] now.

Definition is_idle_at (e : PeerOutboundBudgetEntry) (now : Z) : Prop :=
  critical_data_in_flight e = 0 ∧ best_effort_data_in_flight e = 0 ∧ local_data_in_flight e = 0 ∧
  control_in_flight e = 0 ∧ data_slots e = [] ∧ elapsed_ns now (last_used e) > OUTBOUND_BUDGET_REAP_AFTER.
#[global] Instance is_idle_at_dec e now : Decision (is_idle_at e now).
Proof.
  unfold is_idle_at, Z.gt.
  assert (Decision (data_slots e = [])) by (destruct (data_slots e); [by left|by right]).
  solve_decision.
Defined.

Notation Budgets := (gmap PeerId PeerOutboundBudgetEntry).

Definition touch (e : PeerOutboundBudgetEntry) (now : Z) : PeerOutboundBudgetEntry :=
  mkBudget (critical_data_in_flight e) (best_effort_data_in_flight e) (local_data_in_flight e)
    (control_in_flight e) (data_slots e) now.

(** [data_lane_available]. *)
Definition data_lane_available (b : Budgets) (peer : PeerId) (prio : TopicPriority) (local : bool) : bool :=
  if bool_decide (prio = Critical) then true
  else
    match b !! peer with
    | None => true
    | Some e =>
        if local then bool_decide (local_data_in_flight e < OUTBOUND_LOCAL_DATA_PERMITS_PER_PEER)
        else bool_decide (best_effort_data_in_flight e < OUTBOUND_BEST_EFFORT_DATA_PERMITS_PER_PEER)
    end.

Definition is_critical_data (class : OutboundSendClass) (prio : TopicPriority) : bool :=
  bool_decide (class = Data) && bool_decide (prio = Critical).

Definition exhausted (e : PeerOutboundBudgetEntry) (class : OutboundSendClass) (prio : TopicPriority) (local : bool) : bool :=
  match class with
  | Data =>
      if bool_decide (prio = Critical) then false
      else if local then bool_decide (local_data_in_flight e >= OUTBOUND_LOCAL_DATA_PERMITS_PER_PEER)
      else bool_decide (best_effort_data_in_flight e >= OUTBOUND_BEST_EFFORT_DATA_PERMITS_PER_PEER)
  | Control => bool_decide (control_in_flight e >= OUTBOUND_CONTROL_PERMITS_PER_PEER)
  end.

(** The critical section of [try_acquire_for_origin] on the budget map, after
    the gate; the third component is the slot id of a granted permit. *)
Definition acquire_section (b : Budgets) (next_id : Z) (peer : PeerId) (class : OutboundSendClass)
    (prio : TopicPriority) (local : bool) (now : Z) : Budgets * Z * option Z :=
  let b := filter (λ pe, ¬ is_idle_at pe.2 now) b in
  let e := default (entry_new now) (b !! peer) in
  if exhausted e class prio local then (<[peer := touch e now]> b, next_id, None)
  else
    match class with
    | Data =>
        if bool_decide (prio = Critical) then (<[peer := touch e now]> b, next_id, Some 0)
        else
          let e := mkBudget (critical_data_in_flight e)
            (if local then best_effort_data_in_flight e else best_effort_data_in_flight e + 1)
            (if local then local_data_in_flight e + 1 else local_data_in_flight e)
            (control_in_flight e) (data_slots e ++ [mkDataSlot next_id prio local]) now in
          (<[peer := e]> b, u64_add next_id 1, Some next_id)
    | Control =>
        let e := mkBudget (critical_data_in_flight e) (best_effort_data_in_flight e)
          (local_data_in_flight e) (control_in_flight e + 1) (data_slots e) now in
        (<[peer := e]> b, next_id, Some 0)
    end.

(** The slot with the given id, and the slots without it. *)
Fixpoint take_slot (id : Z) (l : list InFlightDataSlot) : option (InFlightDataSlot * list InFlightDataSlot) :=
  match l with
  | [] => None
  | s :: l =>
      if decide (slot_id s = id) then Some (s, l)
      else match take_slot id l with Some (s', l') => Some (s', s :: l') | None => None end
  end.

(** A counter is not decremented below zero (the code logs instead). *)
Definition down (n : Z) : Z := if decide (n = 0) then 0 else n - 1.

Definition release_entry (e : PeerOutboundBudgetEntry) (class : OutboundSendClass) (id now : Z) : PeerOutboundBudgetEntry :=
  match class with
  | Data =>
      match take_slot id (data_slots e) with
      | Some (s, rest) =>
          if bool_decide (priority s = Critical) then
            mkBudget (down (critical_data_in_flight e)) (best_effort_data_in_flight e)
              (local_data_in_flight e) (control_in_flight e) rest now
          else if local_origin s then
            mkBudget (critical_data_in_flight e) (best_effort_data_in_flight e)
              (down (local_data_in_flight e)) (control_in_flight e) rest now
          else
            mkBudget (critical_data_in_flight e) (down (best_effort_data_in_flight e))
              (local_data_in_flight e) (control_in_flight e) rest now
      | None => touch e now
      end
  | Control =>
      mkBudget (critical_data_in_flight e) (best_effort_data_in_flight e) (local_data_in_flight e)
        (down (control_in_flight e)) (data_slots e) now
  end.

Definition release (b : Budgets) (peer : PeerId) (class : OutboundSendClass) (id now : Z) : Budgets :=
  match b !! peer with
  | Some e => <[peer := release_entry e class id now]> b
  | None => b
  end.

(** ** The Critical gate *)

(** The semaphore's available permits, and the queue count. *)
Record CriticalPeerSlot := mkGateSlot { sem : Z; queued : Z }.

Definition slot_new : CriticalPeerSlot := mkGateSlot OUTBOUND_CRITICAL_DATA_PERMITS_PER_PEER 0.

(** [Arc] references are numbers into a heap. *)
Record Gate := mkGate {
  peers : gmap PeerId nat;
  heap : gmap nat CriticalPeerSlot;
  next_arc : nat;
}.

Definition gate_update (g : Gate) (s : nat) (f : CriticalPeerSlot → CriticalPeerSlot) : Gate :=
  mkGate (peers g) (alter f s (heap g)) (next_arc g).

Definition add_queued (n : Z) (s : CriticalPeerSlot) : CriticalPeerSlot := mkGateSlot (sem s) (queued s + n).
Definition add_sem (n : Z) (s : CriticalPeerSlot) : CriticalPeerSlot := mkGateSlot (sem s + n) (queued s).

(** ** Permits and threads *)

Inductive CriticalPermitState := CNone | CReserved (slot : nat) | CEngaged (slot : nat).

(** The last field records the lane for the statements; the code keeps it in
    the slot only. *)
Record OutboundSendPermit := mkPermit {
  pm_peer : PeerId;
  pm_class : OutboundSendClass;
  pm_slot : Z;
  pm_critical : CriticalPermitState;
  pm_local : bool;
}.

Inductive Thread :=
| TReserving (peer : PeerId) (slot : nat)
| TOverflow (peer : PeerId) (slot : nat)
| TReserved (peer : PeerId) (slot : nat)
| TPermit (p : OutboundSendPermit)
| TDropping (peer : PeerId) (c : CriticalPermitState)
| TReleasing (peer : PeerId) (slot : nat).

(** The gate slot a thread holds a reference to. *)
Definition holds (t : Thread) : option (PeerId * nat) :=
  match t with
  | TReserving p s | TOverflow p s | TReserved p s | TReleasing p s => Some (p, s)
  | TPermit pm =>
      match pm_critical pm with CNone => None | CReserved s | CEngaged s => Some (pm_peer pm, s) end
  | TDropping p c => match c with CNone => None | CReserved s | CEngaged s => Some (p, s) end
  end.

Record Sys := mkSys {
  budgets : Budgets;
  next_slot_id : Z;
  gate : Gate;
  threads : gmap nat Thread;
}.

Definition set_thread (S : Sys) (tid : nat) (t : Thread) : Sys :=
  mkSys (budgets S) (next_slot_id S) (gate S) (<[tid := t]> (threads S)).
Definition end_thread (S : Sys) (tid : nat) : Sys :=
  mkSys (budgets S) (next_slot_id S) (gate S) (delete tid (threads S)).
Definition set_gate (S : Sys) (g : Gate) : Sys := mkSys (budgets S) (next_slot_id S) g (threads S).
Definition set_budgets (S : Sys) (b : Budgets) (n : Z) : Sys := mkSys b n (gate S) (threads S).

(** [Arc::strong_count(slot) > 1]: some thread holds the slot. *)
Definition held (ts : gmap nat Thread) (s : nat) : Prop := map_Exists (λ _ t, snd <$> holds t = Some s) ts.
#[global] Instance held_dec ts s : Decision (held ts s).
Proof. unfold held. apply _. Defined.

(** The locked part of [try_reserve]: reap, then find or create the slot. *)
Definition reserve_section (g : Gate) (ts : gmap nat Thread) (peer : PeerId) : Gate * nat :=
  let ps := filter (λ ps, held ts ps.2) (peers g) in
  match ps !! peer with
  | Some s => (mkGate ps (heap g) (next_arc g), s)
  | None => (mkGate (<[peer := next_arc g]> ps) (<[next_arc g := slot_new]> (heap g)) (S (next_arc g)), next_arc g)
  end.

(** The queue count before [fetch_add]. *)
Definition queue_len (g : Gate) (s : nat) : Z := default 0 (queued <$> heap g !! s).
Definition sem_free (g : Gate) (s : nat) : Z := default 0 (sem <$> heap g !! s).

Inductive step (S : Sys) : Sys → Prop :=
(** A Critical send: lock, reap, clone the slot. *)
| s_reserve tid peer g s :
    threads S !! tid = None → reserve_section (gate S) (threads S) peer = (g, s) →
    step S (set_thread (set_gate S g) tid (TReserving peer s))
(** [fetch_add], with room or without. *)
| s_enqueue tid peer s :
    threads S !! tid = Some (TReserving peer s) → queue_len (gate S) s < OUTBOUND_CRITICAL_QUEUE_PER_PEER →
    step S (set_thread (set_gate S (gate_update (gate S) s (add_queued 1))) tid (TReserved peer s))
| s_overflow tid peer s :
    threads S !! tid = Some (TReserving peer s) → queue_len (gate S) s >= OUTBOUND_CRITICAL_QUEUE_PER_PEER →
    step S (set_thread (set_gate S (gate_update (gate S) s (add_queued 1))) tid (TOverflow peer s))
(** The [fetch_sub] of a refused reservation; the call returns [None]. *)
| s_refuse tid peer s :
    threads S !! tid = Some (TOverflow peer s) →
    step S (end_thread (set_gate S (gate_update (gate S) s (add_queued (-1)))) tid)
(** The budget section of a Critical send. *)
| s_critical tid peer s now b n id :
    threads S !! tid = Some (TReserved peer s) →
    acquire_section (budgets S) (next_slot_id S) peer Data Critical false now = (b, n, Some id) →
    step S (set_thread (set_budgets S b n) tid (TPermit (mkPermit peer Data id (CReserved s) false)))
(** Every other send: the budget section alone.  The id counter has not
    wrapped. *)
| s_acquire tid peer class prio local now b n id :
    threads S !! tid = None → is_critical_data class prio = false → next_slot_id S < U64_MAX →
    acquire_section (budgets S) (next_slot_id S) peer class prio local now = (b, n, Some id) →
    step S (set_thread (set_budgets S b n) tid (TPermit (mkPermit peer class id CNone local)))
| s_denied peer class prio local now b n :
    is_critical_data class prio = false →
    acquire_section (budgets S) (next_slot_id S) peer class prio local now = (b, n, None) →
    step S (set_budgets S b n)
(** [engage]: the semaphore grants its permit, or the wait times out and the
    reservation is dropped. *)
| s_engage tid pm s :
    threads S !! tid = Some (TPermit pm) → pm_critical pm = CReserved s → sem_free (gate S) s > 0 →
    step S (set_thread (set_gate S (gate_update (gate S) s (add_sem (-1)))) tid
      (TPermit (mkPermit (pm_peer pm) (pm_class pm) (pm_slot pm) (CEngaged s) (pm_local pm))))
| s_timeout tid pm s :
    threads S !! tid = Some (TPermit pm) → pm_critical pm = CReserved s →
    step S (set_thread (set_gate S (gate_update (gate S) s (add_queued (-1)))) tid
      (TPermit (mkPermit (pm_peer pm) (pm_class pm) (pm_slot pm) CNone (pm_local pm))))
(** Dropping the permit: [release], then the gate's own drop. *)
| s_drop tid pm now :
    threads S !! tid = Some (TPermit pm) →
    step S (set_thread (set_budgets S (release (budgets S) (pm_peer pm) (pm_class pm) (pm_slot pm) now) (next_slot_id S))
      tid (TDropping (pm_peer pm) (pm_critical pm)))
| s_drop_none tid peer :
    threads S !! tid = Some (TDropping peer CNone) → step S (end_thread S tid)
| s_drop_reserved tid peer s :
    threads S !! tid = Some (TDropping peer (CReserved s)) →
    step S (end_thread (set_gate S (gate_update (gate S) s (add_queued (-1)))) tid)
| s_drop_engaged tid peer s :
    threads S !! tid = Some (TDropping peer (CEngaged s)) →
    step S (set_thread (set_gate S (gate_update (gate S) s (add_sem 1))) tid (TReleasing peer s))
| s_released tid peer s :
    threads S !! tid = Some (TReleasing peer s) →
    step S (end_thread (set_gate S (gate_update (gate S) s (add_queued (-1)))) tid).

Definition initial : Sys := mkSys ∅ 1 (mkGate ∅ ∅ 0) ∅.

(** ** Counting threads *)

Definition cnt (f : Thread → bool) (ts : gmap nat Thread) : Z := map_count (λ it, f it.2 = true) ts.

Lemma cnt_nonneg (f : Thread → bool) (ts : gmap nat Thread) : 0 <= cnt f ts.
Proof. apply map_count_nonneg. Qed.

Lemma cnt_insert (f : Thread → bool) (ts : gmap nat Thread) (tid : nat) (t : Thread) :
  ts !! tid = None → cnt f (<[tid := t]> ts) = cnt f ts + Z.b2z (f t).
Proof. intros Ht. unfold cnt. rewrite map_count_insert by done. cbn. by destruct (f t). Qed.

Lemma cnt_update (f : Thread → bool) (ts : gmap nat Thread) (tid : nat) (t t' : Thread) :
  ts !! tid = Some t → cnt f (<[tid := t']> ts) = cnt f ts + Z.b2z (f t') - Z.b2z (f t).
Proof. intros Ht. unfold cnt. rewrite (map_count_update _ _ _ t) by done. cbn. by destruct (f t), (f t'). Qed.

Lemma cnt_delete (f : Thread → bool) (ts : gmap nat Thread) (tid : nat) (t : Thread) :
  ts !! tid = Some t → cnt f (delete tid ts) = cnt f ts - Z.b2z (f t).
Proof.
  intros Ht. unfold cnt. rewrite (map_count_delete _ ts tid t) by done. cbn.
  destruct (f t); [rewrite decide_True by done|rewrite decide_False by done]; cbn; lia.
Qed.

Lemma cnt_pos (f : Thread → bool) (ts : gmap nat Thread) (tid : nat) (t : Thread) :
  ts !! tid = Some t → f t = true → 1 <= cnt f ts.
Proof. intros Ht Hf. pose proof (cnt_delete f ts tid t Ht) as Hd. rewrite Hf in Hd. pose proof (cnt_nonneg f (delete tid ts)). cbn in Hd. lia. Qed.

Lemma cnt_zero (f : Thread → bool) (ts : gmap nat Thread) :
  (∀ tid t, ts !! tid = Some t → f t = false) → cnt f ts = 0.
Proof.
  intros Hf. pose proof (cnt_nonneg f ts). destruct (decide (0 < cnt f ts)) as [Hp|]; [|lia].
  apply map_count_pos in Hp as (tid & t & Ht & Hft). cbn in Hft. rewrite (Hf tid t Ht) in Hft. done.
Qed.

(** Counting only looks at the threads that exist. *)
Lemma cnt_le (f f' : Thread → bool) (ts : gmap nat Thread) :
  (∀ i t, ts !! i = Some t → f t = true → f' t = true) → cnt f ts <= cnt f' ts.
Proof.
  induction ts as [|i t ts Hi IH] using map_ind; intros Hf.
  - unfold cnt. rewrite !map_count_empty. lia.
  - rewrite !cnt_insert by done. specialize (Hf i t (lookup_insert_eq _ _ _)) as Hft.
    assert (cnt f ts <= cnt f' ts).
    { apply IH. intros j t' Hj. apply (Hf j). rewrite lookup_insert_ne; [done|]. congruence. }
    destruct (f t), (f' t); cbn; lia || (by specialize (Hft eq_refl)).
Qed.

(** Two threads that satisfy [f] make a count of two. *)
Lemma cnt_unique (f : Thread → bool) (ts : gmap nat Thread) (i j : nat) (t t' : Thread) :
  cnt f ts <= 1 → ts !! i = Some t → ts !! j = Some t' → f t = true → f t' = true → i = j.
Proof.
  intros Hle Hi Hj Hf Hf'. destruct (decide (i = j)) as [|Hne]; [done|exfalso].
  pose proof (cnt_delete f ts i t Hi) as Hd. rewrite Hf in Hd. cbn in Hd.
  assert (1 <= cnt f (delete i ts)) by (eapply (cnt_pos _ _ j); [by rewrite lookup_delete_ne|done]). lia.
Qed.

(** ** The gate's invariant *)

Definition crit_slot (c : CriticalPermitState) : option nat :=
  match c with CNone => None | CReserved s | CEngaged s => Some s end.

(** Threads that [queued] counts. *)
Definition counted (s : nat) (t : Thread) : bool :=
  match t with
  | TOverflow _ s' | TReserved _ s' | TReleasing _ s' => bool_decide (s' = s)
  | TPermit pm => bool_decide (crit_slot (pm_critical pm) = Some s)
  | TDropping _ c => bool_decide (crit_slot c = Some s)
  | TReserving _ _ => false
  end.

(** Threads that hold the semaphore's permit. *)
Definition engaged (s : nat) (t : Thread) : bool :=
  match t with
  | TPermit pm => match pm_critical pm with CEngaged s' => bool_decide (s' = s) | _ => false end
  | TDropping _ c => match c with CEngaged s' => bool_decide (s' = s) | _ => false end
  | _ => false
  end.

(** Reservations granted and not yet given back. *)
Definition admitted (s : nat) (t : Thread) : bool :=
  match t with TOverflow _ _ => false | _ => counted s t end.

Definition slot_ok (ts : gmap nat Thread) (s : nat) (sl : CriticalPeerSlot) : Prop :=
  queued sl = cnt (counted s) ts ∧ sem sl = 1 - cnt (engaged s) ts ∧ 0 <= sem sl ∧
  cnt (admitted s) ts <= OUTBOUND_CRITICAL_QUEUE_PER_PEER.

Record gate_inv (g : Gate) (ts : gmap nat Thread) : Prop := {
  gi_holds tid t p s : ts !! tid = Some t → holds t = Some (p, s) → peers g !! p = Some s;
  gi_heap p s : peers g !! p = Some s → is_Some (heap g !! s);
  gi_inj p p' s : peers g !! p = Some s → peers g !! p' = Some s → p = p';
  gi_fresh s sl : heap g !! s = Some sl → (s < next_arc g)%nat;
  gi_slots s sl : heap g !! s = Some sl → slot_ok ts s sl;
}.

Lemma counted_holds (s : nat) (t : Thread) : counted s t = true → ∃ p, holds t = Some (p, s).
Proof.
  destruct t as [p s'|p s'|p s'|[p cl id [|s'|s'] lo]|p [|s'|s']|p s']; cbn; try done;
    intros H%bool_decide_eq_true; try injection H as H; try subst; eauto; done.
Qed.

Lemma engaged_counted (s : nat) (t : Thread) : engaged s t = true → counted s t = true.
Proof.
  destruct t as [p s'|p s'|p s'|[p cl id [|s'|s'] lo]|p [|s'|s']|p s']; cbn; try done;
    intros H%bool_decide_eq_true; try done; apply bool_decide_eq_true; by subst.
Qed.

Lemma admitted_counted (s : nat) (t : Thread) : admitted s t = true → counted s t = true.
Proof. by destruct t. Qed.

(** A thread that does not hold [s] counts nowhere at [s]. *)
Lemma not_held_zero (s : nat) (t : Thread) :
  (∀ p, holds t ≠ Some (p, s)) → counted s t = false ∧ engaged s t = false ∧ admitted s t = false.
Proof.
  intros Hno. assert (counted s t = false) as Hc.
  { destruct (counted s t) eqn:E; [|done]. apply counted_holds in E as [p E]. by apply Hno in E. }
  split; [done|]. split.
  - destruct (engaged s t) eqn:E; [|done]. apply engaged_counted in E. congruence.
  - destruct (admitted s t) eqn:E; [|done]. apply admitted_counted in E. congruence.
Qed.

Lemma cnt_mono (f f' : Thread → bool) (ts : gmap nat Thread) :
  (∀ t, f t = true → f' t = true) → cnt f ts <= cnt f' ts.
Proof. intros Hf. apply map_count_mono. intros [i t]. cbn. apply Hf. Qed.

(** *** Preservation *)

(** Counts at [s] do not see a thread that does not hold [s]. *)
Lemma slot_ok_update (ts : gmap nat Thread) (tid : nat) (t0 t1 : Thread) (s : nat) (sl : CriticalPeerSlot) :
  ts !! tid = Some t0 → (∀ p, holds t0 ≠ Some (p, s)) → (∀ p, holds t1 ≠ Some (p, s)) →
  slot_ok ts s sl → slot_ok (<[tid := t1]> ts) s sl.
Proof.
  intros Ht H0 H1. unfold slot_ok. rewrite !(cnt_update _ _ _ _ _ Ht).
  destruct (not_held_zero s t0 H0) as (-> & -> & ->), (not_held_zero s t1 H1) as (-> & -> & ->).
  cbn [Z.b2z]. rewrite !Z.add_0_r, !Z.sub_0_r. done.
Qed.

Lemma slot_ok_insert (ts : gmap nat Thread) (tid : nat) (t : Thread) (s : nat) (sl : CriticalPeerSlot) :
  ts !! tid = None → counted s t = false → slot_ok ts s sl → slot_ok (<[tid := t]> ts) s sl.
Proof.
  intros Ht Hc. assert (engaged s t = false ∧ admitted s t = false) as [He Ha].
  { split; [destruct (engaged s t) eqn:E; [apply engaged_counted in E|]
           |destruct (admitted s t) eqn:E; [apply admitted_counted in E|]]; congruence. }
  unfold slot_ok. rewrite !cnt_insert by done. rewrite Hc, He, Ha. cbn [Z.b2z]. by rewrite !Z.add_0_r.
Qed.

Lemma slot_ok_delete (ts : gmap nat Thread) (tid : nat) (t0 : Thread) (s : nat) (sl : CriticalPeerSlot) :
  ts !! tid = Some t0 → (∀ p, holds t0 ≠ Some (p, s)) → slot_ok ts s sl → slot_ok (delete tid ts) s sl.
Proof.
  intros Ht H0. unfold slot_ok. rewrite !(cnt_delete _ _ _ _ Ht).
  destruct (not_held_zero s t0 H0) as (-> & -> & ->). cbn [Z.b2z]. by rewrite !Z.sub_0_r.
Qed.

Lemma gate_move (g : Gate) (ts : gmap nat Thread) (tid : nat) (t0 t1 : Thread) (p : PeerId) (s : nat)
    (f : CriticalPeerSlot → CriticalPeerSlot) :
  gate_inv g ts → ts !! tid = Some t0 → holds t0 = Some (p, s) →
  (holds t1 = Some (p, s) ∨ holds t1 = None) →
  (∀ sl, heap g !! s = Some sl → slot_ok ts s sl → slot_ok (<[tid := t1]> ts) s (f sl)) →
  gate_inv (gate_update g s f) (<[tid := t1]> ts).
Proof.
  intros [Hh Hheap Hinj Hfr Hsl] Ht H0 H1 Hf. split; cbn.
  - intros i t q s' [[<- <-]|[? Hi]]%lookup_insert_Some Hq; [|by eapply Hh].
    destruct H1 as [H1|H1]; rewrite H1 in Hq; [|done]. injection Hq as <- <-. by eapply Hh.
  - intros q s' Hq%Hheap. destruct Hq as [sl Hq]. rewrite lookup_alter. case_decide; subst; rewrite Hq; by eexists.
  - done.
  - intros s' sl Hs. rewrite lookup_alter in Hs. case_decide; [|by eapply Hfr].
    subst. apply fmap_Some in Hs as (sl0 & Hs & _). by eapply Hfr.
  - intros s' sl Hs. rewrite lookup_alter in Hs. case_decide as Hcase.
    + subst s'. apply fmap_Some in Hs as (sl0 & Hs & ->). by apply Hf; [|apply Hsl].
    + apply (slot_ok_update ts tid t0); [done| | |by apply Hsl]; intros q Hq; [congruence|].
      destruct H1 as [H1|H1]; congruence.
Qed.

Lemma gate_end (g : Gate) (ts : gmap nat Thread) (tid : nat) (t0 : Thread) (p : PeerId) (s : nat)
    (f : CriticalPeerSlot → CriticalPeerSlot) :
  gate_inv g ts → ts !! tid = Some t0 → holds t0 = Some (p, s) →
  (∀ sl, heap g !! s = Some sl → slot_ok ts s sl → slot_ok (delete tid ts) s (f sl)) →
  gate_inv (gate_update g s f) (delete tid ts).
Proof.
  intros [Hh Hheap Hinj Hfr Hsl] Ht H0 Hf. split; cbn.
  - intros i t q s' [? Hi]%lookup_delete_Some Hq. by eapply Hh.
  - intros q s' Hq%Hheap. destruct Hq as [sl Hq]. rewrite lookup_alter. case_decide; subst; rewrite Hq; by eexists.
  - done.
  - intros s' sl Hs. rewrite lookup_alter in Hs. case_decide; [|by eapply Hfr].
    subst. apply fmap_Some in Hs as (sl0 & Hs & _). by eapply Hfr.
  - intros s' sl Hs. rewrite lookup_alter in Hs. case_decide as Hcase.
    + subst s'. apply fmap_Some in Hs as (sl0 & Hs & ->). by apply Hf; [|apply Hsl].
    + apply (slot_ok_delete ts tid t0); [done| |by apply Hsl]. intros q Hq. congruence.
Qed.

(** A thread that holds no slot before or after. *)
Lemma gate_unheld (g : Gate) (ts : gmap nat Thread) (tid : nat) (t1 : Thread) :
  gate_inv g ts → (∀ t0, ts !! tid = Some t0 → holds t0 = None) → holds t1 = None →
  gate_inv g (<[tid := t1]> ts).
Proof.
  intros [Hh Hheap Hinj Hfr Hsl] H0 H1. split; [|done..|].
  - intros i t q s' [[<- <-]|[? Hi]]%lookup_insert_Some Hq; [congruence|by eapply Hh].
  - intros s sl Hs. destruct (ts !! tid) as [t0|] eqn:Ht.
    + apply (slot_ok_update ts tid t0); [done|rewrite (H0 t0 eq_refl); done|by rewrite H1|by apply Hsl].
    + apply slot_ok_insert; [done| |by apply Hsl].
      destruct (not_held_zero s t1) as (? & _); [by rewrite H1|done].
Qed.

Lemma gate_unheld_end (g : Gate) (ts : gmap nat Thread) (tid : nat) (t0 : Thread) :
  gate_inv g ts → ts !! tid = Some t0 → holds t0 = None → gate_inv g (delete tid ts).
Proof.
  intros [Hh Hheap Hinj Hfr Hsl] Ht H0. split; [|done..|].
  - intros i t q s' [? Hi]%lookup_delete_Some Hq. by eapply Hh.
  - intros s sl Hs. apply (slot_ok_delete ts tid t0); [done|by rewrite H0|by apply Hsl].
Qed.

(** Reaping, and finding or creating a slot. *)
Lemma gate_reserve (g g' : Gate) (ts : gmap nat Thread) (tid : nat) (p : PeerId) (s : nat) :
  gate_inv g ts → ts !! tid = None → reserve_section g ts p = (g', s) →
  gate_inv g' (<[tid := TReserving p s]> ts).
Proof.
  intros [Hh Hheap Hinj Hfr Hsl] Ht Hr. unfold reserve_section in Hr.
  set (ps := filter (λ ps, held ts ps.2) (peers g)) in *.
  assert (∀ q s', ps !! q = Some s' → peers g !! q = Some s') as Hps.
  { intros q s' [? _]%map_lookup_filter_Some. done. }
  assert (∀ i t q s', ts !! i = Some t → holds t = Some (q, s') → ps !! q = Some s') as Hkeep.
  { intros i t q s' Hi Hq. apply map_lookup_filter_Some. split; [by eapply Hh|].
    cbn. exists i, t. split; [done|]. by rewrite Hq. }
  assert (∀ s' sl, slot_ok ts s' sl → slot_ok (<[tid := TReserving p s]> ts) s' sl) as Hsame.
  { intros s' sl. by apply slot_ok_insert. }
  destruct (ps !! p) as [s0|] eqn:Hp; injection Hr as <- <-.
  - split; cbn.
    + intros i t q s' [[<- <-]|[? Hi]]%lookup_insert_Some Hq; [by injection Hq as <- <-|by eapply Hkeep].
    + intros q s' Hq. by eapply Hheap, Hps.
    + intros q q' s' Hq Hq'. eapply Hinj; by apply Hps.
    + done.
    + intros s' sl Hs. by apply Hsame, Hsl.
  - assert (∀ q, ps !! q ≠ Some (next_arc g)) as Hnew.
    { intros q Hq%Hps. destruct (Hheap _ _ Hq) as [sl Hs%Hfr]. lia. }
    split; cbn.
    + intros i t q s' [[<- <-]|[? Hi]]%lookup_insert_Some Hq.
      * injection Hq as <- <-. apply lookup_insert_eq.
      * pose proof (Hkeep _ _ _ _ Hi Hq) as Hq'. rewrite lookup_insert_ne; [done|]. congruence.
    + intros q s' [[<- <-]|[? Hq]]%lookup_insert_Some; [rewrite lookup_insert_eq; by eexists|].
      rewrite lookup_insert. case_decide; [by eexists|]. by eapply Hheap, Hps.
    + intros q q' s' [[<- <-]|[? Hq]]%lookup_insert_Some [[<- E]|[? Hq']]%lookup_insert_Some;
        [done|by apply Hnew in Hq'|subst s'; by apply Hnew in Hq|eapply Hinj; by apply Hps].
    + intros s' sl [[<- <-]|[? Hs]]%lookup_insert_Some; [lia|]. apply Hfr in Hs. lia.
    + intros s' sl [[<- <-]|[? Hs]]%lookup_insert_Some; [|by apply Hsame, Hsl].
      apply Hsame. assert (∀ i t, ts !! i = Some t → ∀ q, holds t ≠ Some (q, next_arc g)) as Hno.
      { intros i t Hi q Hq. by apply (Hnew q), (Hkeep i t). }
      unfold slot_ok. rewrite !cnt_zero; [done|..]; intros i t Hi;
        by destruct (not_held_zero (next_arc g) t (Hno i t Hi)) as (? & ? & ?).
Qed.

Lemma admitted_le (s : nat) (ts : gmap nat Thread) : cnt (admitted s) ts <= cnt (counted s) ts.
Proof. apply cnt_mono. intros t. apply admitted_counted. Qed.

(** Arithmetic of one thread's move at its own slot. *)
Ltac slot_arith Ht :=
  unfold slot_ok; intros (? & ? & ? & ?);
  rewrite ?(cnt_update _ _ _ _ _ Ht), ?(cnt_delete _ _ _ _ Ht);
  cbn; repeat (case_bool_decide; [|congruence] || (case_bool_decide; [congruence|])); cbn; repeat split; try lia.

Lemma gate_inv_step (S S' : Sys) :
  step S S' → gate_inv (gate S) (threads S) → gate_inv (gate S') (threads S').
Proof.
  destruct 1 as [tid p g s Ht Hr|tid p s Ht Hq|tid p s Ht Hq|tid p s Ht|tid p s now b n id Ht Hacq
    |tid p class prio local now b n id Ht Hcr Hn Hacq|p class prio local now b n Hcr Hacq
    |tid pm s Ht Hc Hsem|tid pm s Ht Hc|tid pm now Ht|tid p Ht|tid p s Ht|tid p s Ht|tid p s Ht];
    intros Hinv; cbn [gate threads set_thread set_gate set_budgets end_thread].
  - by eapply gate_reserve.
  - eapply (gate_move _ _ tid (TReserving p s) (TReserved p s) p s); [done|done|done|by left|].
    intros sl Hsl. unfold queue_len in Hq. rewrite Hsl in Hq. cbn in Hq.
    pose proof (admitted_le s (threads S)). slot_arith Ht.
  - eapply (gate_move _ _ tid (TReserving p s) (TOverflow p s) p s); [done|done|done|by left|].
    intros sl Hsl. slot_arith Ht.
  - eapply (gate_end _ _ tid (TOverflow p s) p s); [done|done|done|]. intros sl Hsl. slot_arith Ht.
  - replace (gate S) with (gate_update (gate S) s (λ x, x)).
    2:{ unfold gate_update. rewrite alter_id by done. by destruct (gate S). }
    eapply (gate_move _ _ tid (TReserved p s) _ p s); [done|done|done|by left|].
    intros sl Hsl. slot_arith Ht.
  - apply gate_unheld; [done| |done]. intros t0 Ht0. congruence.
  - done.
  - destruct pm as [p cl id c lo]. cbn in Hc. subst c.
    eapply (gate_move _ _ tid _ _ p s); [done|exact Ht|done|by left|].
    intros sl Hsl. unfold sem_free in Hsem. rewrite Hsl in Hsem. cbn in Hsem. slot_arith Ht.
  - destruct pm as [p cl id c lo]. cbn in Hc. subst c.
    eapply (gate_move _ _ tid _ _ p s); [done|exact Ht|done|by right|].
    intros sl Hsl. slot_arith Ht.
  - destruct (holds (TPermit pm)) as [[p s]|] eqn:Hh.
    + replace (gate S) with (gate_update (gate S) s (λ x, x)).
      2:{ unfold gate_update. rewrite alter_id by done. by destruct (gate S). }
      eapply (gate_move _ _ tid (TPermit pm) _ p s); [done|done|done|left; by rewrite <-Hh|].
      intros sl Hsl. slot_arith Ht.
    + apply gate_unheld; [done| |by rewrite <-Hh]. intros t0 Ht0. congruence.
  - by eapply gate_unheld_end.
  - eapply (gate_end _ _ tid _ p s); [done|exact Ht|done|]. intros sl Hsl. slot_arith Ht.
  - eapply (gate_move _ _ tid _ (TReleasing p s) p s); [done|exact Ht|done|by left|].
    intros sl Hsl. slot_arith Ht.
  - eapply (gate_end _ _ tid _ p s); [done|exact Ht|done|]. intros sl Hsl. slot_arith Ht.
Qed.

(** ** The budget map's invariant *)

(** The data-lane slot of a permit to [p]: its id and its lane. *)
Definition lane (p : PeerId) (t : Thread) : option (Z * bool) :=
  match t with
  | TPermit pm =>
      if decide (pm_peer pm = p ∧ pm_class pm = Data ∧ pm_slot pm ≠ 0) then Some (pm_slot pm, pm_local pm) else None
  | _ => None
  end.

Definition best_effort (p : PeerId) (t : Thread) : bool :=
  match lane p t with Some (_, local) => negb local | None => false end.
Definition local_lane (p : PeerId) (t : Thread) : bool :=
  match lane p t with Some (_, local) => local | None => false end.
Definition control (p : PeerId) (t : Thread) : bool :=
  match t with TPermit pm => bool_decide (pm_peer pm = p ∧ pm_class pm = Control) | _ => false end.

(** The data-lane slots of all permits to [p]. *)
Definition lanes (p : PeerId) (ts : gmap nat Thread) : list (Z * bool) :=
  omap (λ it, lane p it.2) (map_to_list ts).

Lemma lanes_insert (p : PeerId) (ts : gmap nat Thread) (tid : nat) (t : Thread) :
  ts !! tid = None → lanes p (<[tid := t]> ts) ≡ₚ option_list (lane p t) ++ lanes p ts.
Proof.
  intros Ht. unfold lanes. rewrite map_to_list_insert by done. cbn. by destruct (lane p t).
Qed.

Lemma lanes_delete (p : PeerId) (ts : gmap nat Thread) (tid : nat) (t : Thread) :
  ts !! tid = Some t → lanes p ts ≡ₚ option_list (lane p t) ++ lanes p (delete tid ts).
Proof.
  intros Ht. rewrite <-(insert_delete_id ts tid t) at 1 by done.
  apply lanes_insert, lookup_delete_eq.
Qed.

Lemma lanes_update (p : PeerId) (ts : gmap nat Thread) (tid : nat) (t t' : Thread) :
  ts !! tid = Some t → lane p t' = None →
  lanes p ts ≡ₚ option_list (lane p t) ++ lanes p (<[tid := t']> ts).
Proof.
  intros Ht Ht'. rewrite (lanes_delete p ts tid t Ht). f_equiv.
  rewrite <-insert_delete_eq, lanes_insert, Ht' by apply lookup_delete_eq. done.
Qed.

Definition slot_lane (s : InFlightDataSlot) : Z * bool := (slot_id s, local_origin s).

Record entry_ok (next : Z) (p : PeerId) (ts : gmap nat Thread) (e : PeerOutboundBudgetEntry) : Prop := {
  eo_lanes : slot_lane <$> data_slots e ≡ₚ lanes p ts;
  eo_nodup : NoDup (slot_id <$> data_slots e);
  eo_slots : Forall (λ s, 0 < slot_id s < next ∧ priority s ≠ Critical) (data_slots e);
  eo_best_effort : best_effort_data_in_flight e = cnt (best_effort p) ts;
  eo_local : local_data_in_flight e = cnt (local_lane p) ts;
  eo_control : control_in_flight e = cnt (control p) ts;
  eo_best_effort_limit : best_effort_data_in_flight e <= OUTBOUND_BEST_EFFORT_DATA_PERMITS_PER_PEER;
  eo_local_limit : local_data_in_flight e <= OUTBOUND_LOCAL_DATA_PERMITS_PER_PEER;
  eo_control_limit : control_in_flight e <= OUTBOUND_CONTROL_PERMITS_PER_PEER;
}.

Definition entry_at (b : Budgets) (p : PeerId) : PeerOutboundBudgetEntry := default (entry_new 0) (b !! p).

Record budget_inv (b : Budgets) (next : Z) (ts : gmap nat Thread) : Prop := {
  bi_next : 0 < next <= U64_MAX;
  bi_entries p : entry_ok next p ts (entry_at b p);
}.

(** The fields that the invariant is about. *)
Definition same_lanes (e e' : PeerOutboundBudgetEntry) : Prop :=
  data_slots e' = data_slots e ∧ best_effort_data_in_flight e' = best_effort_data_in_flight e ∧
  local_data_in_flight e' = local_data_in_flight e ∧ control_in_flight e' = control_in_flight e.

Lemma entry_ok_same (next : Z) (p : PeerId) (ts : gmap nat Thread) (e e' : PeerOutboundBudgetEntry) :
  same_lanes e e' → entry_ok next p ts e → entry_ok next p ts e'.
Proof. intros (H1 & H2 & H3 & H4) []. split; by rewrite ?H1, ?H2, ?H3, ?H4. Qed.

Lemma entry_ok_threads (next : Z) (p : PeerId) (ts ts' : gmap nat Thread) (e : PeerOutboundBudgetEntry) :
  lanes p ts' ≡ₚ lanes p ts → (∀ f, f = best_effort p ∨ f = local_lane p ∨ f = control p → cnt f ts' = cnt f ts) →
  entry_ok next p ts e → entry_ok next p ts' e.
Proof.
  intros Hl Hc []. split; rewrite ?Hl, ?Hc by auto; done.
Qed.

(** A thread whose permit does not change for [p]. *)
Lemma entry_ok_update (next : Z) (p : PeerId) (ts : gmap nat Thread) (tid : nat) (t t' : Thread) (e : PeerOutboundBudgetEntry) :
  ts !! tid = Some t → lane p t' = lane p t → control p t' = control p t →
  entry_ok next p ts e → entry_ok next p (<[tid := t']> ts) e.
Proof.
  intros Ht Hl Hc. apply entry_ok_threads.
  - rewrite (lanes_delete p ts tid t Ht), <-insert_delete_eq, lanes_insert by apply lookup_delete_eq.
    by rewrite Hl.
  - intros f Hf. rewrite (cnt_update _ _ _ _ _ Ht).
    assert (f t' = f t) as ->; [|lia].
    destruct Hf as [-> | [-> | ->]]; unfold best_effort, local_lane; by rewrite ?Hl, ?Hc.
Qed.

(** Threads without a permit. *)
Definition no_permit (t : Thread) : Prop := match t with TPermit _ => False | _ => True end.

Lemma entry_ok_insert (next : Z) (p : PeerId) (ts : gmap nat Thread) (tid : nat) (t : Thread) (e : PeerOutboundBudgetEntry) :
  ts !! tid = None → no_permit t → entry_ok next p ts e → entry_ok next p (<[tid := t]> ts) e.
Proof.
  intros Ht Hn. apply entry_ok_threads.
  - rewrite lanes_insert by done. by destruct t.
  - intros f Hf. rewrite cnt_insert by done. destruct Hf as [-> | [-> | ->]]; destruct t; try done; cbn; lia.
Qed.

Lemma entry_ok_delete (next : Z) (p : PeerId) (ts : gmap nat Thread) (tid : nat) (t : Thread) (e : PeerOutboundBudgetEntry) :
  ts !! tid = Some t → no_permit t → entry_ok next p ts e → entry_ok next p (delete tid ts) e.
Proof.
  intros Ht Hn. apply entry_ok_threads.
  - rewrite (lanes_delete p ts tid t Ht). by destruct t.
  - intros f Hf. rewrite (cnt_delete _ _ _ _ Ht). destruct Hf as [-> | [-> | ->]]; destruct t; try done; cbn; lia.
Qed.

Lemma reap_same (b : Budgets) (now : Z) (p : PeerId) :
  same_lanes (entry_at b p) (default (entry_new now) (filter (λ pe, ¬ is_idle_at pe.2 now) b !! p)).
Proof.
  unfold entry_at. destruct (b !! p) as [e|] eqn:Hb; cbn.
  - destruct (decide (is_idle_at e now)) as [Hi|Hi].
    + rewrite (proj2 (map_lookup_filter_None _ _ p)); [|right; cbn; naive_solver].
      destruct Hi as (_ & H1 & H2 & H3 & H4 & _). cbn. by repeat split.
    + by rewrite (proj2 (map_lookup_filter_Some _ _ p e)).
  - rewrite (proj2 (map_lookup_filter_None _ _ p)) by (by left). by repeat split.
Qed.

Lemma same_lanes_trans (e1 e2 e3 : PeerOutboundBudgetEntry) :
  same_lanes e1 e2 → same_lanes e2 e3 → same_lanes e1 e3.
Proof. unfold same_lanes. naive_solver congruence. Qed.

(** The peers a section does not name. *)
Lemma reap_other (b : Budgets) (now : Z) (p peer : PeerId) (e : PeerOutboundBudgetEntry) :
  p ≠ peer →
  same_lanes (entry_at b p) (entry_at (<[peer := e]> (filter (λ pe, ¬ is_idle_at pe.2 now) b)) p).
Proof.
  intros Hne. unfold entry_at at 2. rewrite lookup_insert_ne by done.
  eapply same_lanes_trans; [apply (reap_same b now)|]. by destruct (filter _ b !! p).
Qed.

Lemma entry_at_insert (b : Budgets) (p : PeerId) (e : PeerOutboundBudgetEntry) : entry_at (<[p := e]> b) p = e.
Proof. unfold entry_at. by rewrite lookup_insert_eq. Qed.

(** A section that grants nothing new, or a Critical permit. *)
Lemma budget_touch (b b' : Budgets) (next n : Z) (ts : gmap nat Thread) (peer : PeerId) (class : OutboundSendClass)
    (prio : TopicPriority) (local : bool) (now : Z) (o : option Z) :
  budget_inv b next ts → acquire_section b next peer class prio local now = (b', n, o) →
  o = None ∨ is_critical_data class prio = true → budget_inv b' n ts ∧ (∀ id, o = Some id → id = 0).
Proof.
  intros [Hn Hb] Hacq Hor. unfold acquire_section in Hacq.
  set (e := default (entry_new now) _) in Hacq.
  assert (b' = <[peer := touch e now]> (filter (λ pe, ¬ is_idle_at pe.2 now) b) ∧ n = next ∧
          (∀ id, o = Some id → id = 0)) as (-> & -> & Hid).
  { unfold is_critical_data in Hor. destruct (exhausted e class prio local); [by injection Hacq as <- <- <-|].
    destruct class; [|injection Hacq as <- <- <-; destruct Hor; done].
    destruct (bool_decide (prio = Critical)) eqn:Hc; [injection Hacq as <- <- <-; naive_solver|].
    injection Hacq as <- <- <-. destruct Hor; done. }
  split; [|done]. split; [done|]. intros p. destruct (decide (p = peer)) as [->|Hne].
  - rewrite entry_at_insert. eapply entry_ok_same; [|apply (Hb peer)].
    eapply same_lanes_trans; [apply (reap_same b now)|]. by repeat split.
  - eapply entry_ok_same; [by apply reap_other|apply Hb].
Qed.

Lemma entry_ok_next (next next' : Z) (p : PeerId) (ts : gmap nat Thread) (e : PeerOutboundBudgetEntry) :
  next <= next' → entry_ok next p ts e → entry_ok next' p ts e.
Proof.
  intros Hle []. split; try done. eapply Forall_impl; [done|]. cbn. intros s [? ?]. split; [lia|done].
Qed.

(** A new permit for [peer] leaves the other peers' lanes alone. *)
Lemma entry_ok_foreign (next : Z) (p : PeerId) (ts : gmap nat Thread) (tid : nat) (pm : OutboundSendPermit) (e : PeerOutboundBudgetEntry) :
  ts !! tid = None → pm_peer pm ≠ p → entry_ok next p ts e → entry_ok next p (<[tid := TPermit pm]> ts) e.
Proof.
  intros Ht Hne. assert (lane p (TPermit pm) = None) as Hl by (cbn; rewrite decide_False; [done|tauto]).
  apply entry_ok_threads.
  - rewrite lanes_insert by done. by rewrite Hl.
  - intros f Hf. rewrite cnt_insert by done.
    assert (f (TPermit pm) = false) as ->; [|cbn; lia].
    destruct Hf as [-> | [-> | ->]]; unfold best_effort, local_lane; rewrite ?Hl; try done.
    cbn. apply bool_decide_false. tauto.
Qed.

Lemma budget_grant (b b' : Budgets) (next n id : Z) (ts : gmap nat Thread) (tid : nat) (peer : PeerId)
    (class : OutboundSendClass) (prio : TopicPriority) (local : bool) (now : Z) :
  budget_inv b next ts → ts !! tid = None → is_critical_data class prio = false → next < U64_MAX →
  acquire_section b next peer class prio local now = (b', n, Some id) →
  budget_inv b' n (<[tid := TPermit (mkPermit peer class id CNone local)]> ts).
Proof.
  intros [Hn Hb] Ht Hcr Hmax Hacq. unfold acquire_section in Hacq.
  set (e := default (entry_new now) _) in Hacq.
  assert (entry_ok next peer ts e) as He by (eapply entry_ok_same; [apply reap_same|apply Hb]).
  destruct (exhausted e class prio local) eqn:Hex; [done|]. unfold is_critical_data in Hcr.
  destruct class.
  - rewrite (bool_decide_true (Data = Data)) in Hcr by done. cbn in Hcr, Hex. rewrite Hcr in Hacq, Hex. injection Hacq as <- <- <-.
    assert (u64_add next 1 = next + 1) as Hadd by (apply u64_add_exact; unfold u64; lia).
    rewrite Hadd. split; [lia|]. intros p. destruct (decide (p = peer)) as [->|Hne].
    2:{ apply entry_ok_foreign; [done|done|]. eapply entry_ok_same; [by apply reap_other|].
        apply (entry_ok_next next); [lia|apply Hb]. }
    rewrite entry_at_insert. destruct He as [Hl Hnd Hsl Hbe Hlo Hco Hbl Hll Hcl].
    assert (lane peer (TPermit (mkPermit peer Data next CNone local)) = Some (next, local)) as Hlane.
    { cbn. rewrite decide_True; [done|]. split; [done|]. split; [done|lia]. }
    split; cbn [data_slots best_effort_data_in_flight local_data_in_flight control_in_flight].
    + rewrite fmap_app, lanes_insert, Hlane by done. cbn. rewrite <-Hl. apply Permutation_app_comm.
    + rewrite fmap_app. apply NoDup_app. split; [done|]. split; [|apply NoDup_singleton].
      intros x (s & -> & Hs)%list_elem_of_fmap E%list_elem_of_singleton. rewrite Forall_forall in Hsl.
      destruct (Hsl s Hs). cbn in E. lia.
    + apply Forall_app. split; [|constructor; [|constructor]].
      * eapply Forall_impl; [done|]. cbn. intros s [? ?]. split; [lia|done].
      * cbn. split; [lia|]. by apply bool_decide_eq_false in Hcr.
    + rewrite cnt_insert by done. unfold best_effort at 2. rewrite Hlane. destruct local; cbn; lia.
    + rewrite cnt_insert by done. unfold local_lane at 2. rewrite Hlane. destruct local; cbn; lia.
    + rewrite cnt_insert by done. cbn. rewrite bool_decide_false by naive_solver. cbn. lia.
    + destruct local; [done|]. apply bool_decide_eq_false in Hex. lia.
    + destruct local; [|done]. apply bool_decide_eq_false in Hex. lia.
    + done.
  - injection Hacq as <- <- <-. split; [lia|]. intros p. destruct (decide (p = peer)) as [->|Hne].
    2:{ apply entry_ok_foreign; [done|done|]. eapply entry_ok_same; [by apply reap_other|apply Hb]. }
    rewrite entry_at_insert. destruct He as [Hl Hnd Hsl Hbe Hlo Hco Hbl Hll Hcl].
    assert (lane peer (TPermit (mkPermit peer Control 0 CNone local)) = None) as Hlane.
    { cbn. rewrite decide_False; [done|]. naive_solver. }
    split; cbn [data_slots best_effort_data_in_flight local_data_in_flight control_in_flight]; try done.
    + rewrite lanes_insert, Hlane by done. done.
    + rewrite cnt_insert by done. unfold best_effort at 2. rewrite Hlane. cbn. lia.
    + rewrite cnt_insert by done. unfold local_lane at 2. rewrite Hlane. cbn. lia.
    + rewrite cnt_insert by done. cbn. rewrite bool_decide_true by done. cbn. lia.
    + cbn in Hex. apply bool_decide_eq_false in Hex. lia.
Qed.

Lemma take_slot_None (id : Z) (l : list InFlightDataSlot) : take_slot id l = None ↔ id ∉ slot_id <$> l.
Proof.
  induction l as [|s l IH]; cbn [take_slot fmap list_fmap]; [set_solver|].
  case_decide as Hs; [set_solver|]. destruct (take_slot id l) as [[s' l']|].
  - split; [done|]. intros Hno. exfalso. assert (id ∉ slot_id <$> l) as H by set_solver. by apply IH in H.
  - split; [|done]. intros _. assert (id ∉ slot_id <$> l) by by apply IH. set_solver.
Qed.

Lemma take_slot_Some (id : Z) (l : list InFlightDataSlot) (s : InFlightDataSlot) (rest : list InFlightDataSlot) :
  take_slot id l = Some (s, rest) → slot_id s = id ∧ l ≡ₚ s :: rest.
Proof.
  revert rest. induction l as [|x l IH]; intros rest; cbn [take_slot]; [done|].
  case_decide as Hx; [intros [= <- <-]; done|]. destruct (take_slot id l) as [[s' l']|]; [|done].
  intros [= <- <-]. destruct (IH l' eq_refl) as [? Hp]. split; [done|]. rewrite Hp. apply Permutation_swap.
Qed.

Lemma down_pos (n : Z) : 1 <= n → down n = n - 1.
Proof. unfold down. case_decide; lia. Qed.

(** What a dropping permit changes in the counts of its own peer. *)
Lemma entry_ok_release (next : Z) (ts : gmap nat Thread) (tid : nat) (pm : OutboundSendPermit) (t' : Thread)
    (e : PeerOutboundBudgetEntry) (now : Z) :
  ts !! tid = Some (TPermit pm) → no_permit t' → entry_ok next (pm_peer pm) ts e →
  entry_ok next (pm_peer pm) (<[tid := t']> ts) (release_entry e (pm_class pm) (pm_slot pm) now).
Proof.
  intros Ht Hn [Hl Hnd Hsl Hbe Hlo Hco Hbl Hll Hcl].
  assert (lane (pm_peer pm) t' = None) as Hl' by by destruct t'.
  assert (best_effort (pm_peer pm) t' = false ∧ local_lane (pm_peer pm) t' = false ∧ control (pm_peer pm) t' = false)
    as (Hb' & Hlo' & Hc') by (by destruct t').
  pose proof (lanes_update (pm_peer pm) ts tid _ t' Ht Hl') as Hup. rewrite Hup in Hl.
  pose proof (cnt_update (best_effort (pm_peer pm)) ts tid _ t' Ht) as Cb.
  pose proof (cnt_update (local_lane (pm_peer pm)) ts tid _ t' Ht) as Cl.
  pose proof (cnt_update (control (pm_peer pm)) ts tid _ t' Ht) as Cc.
  rewrite Hb' in Cb. rewrite Hlo' in Cl. rewrite Hc' in Cc.
  pose proof (cnt_nonneg (best_effort (pm_peer pm)) (<[tid := t']> ts)).
  pose proof (cnt_nonneg (local_lane (pm_peer pm)) (<[tid := t']> ts)).
  pose proof (cnt_nonneg (control (pm_peer pm)) (<[tid := t']> ts)).
  destruct pm as [p class id c lo]. cbn [pm_peer pm_class pm_slot] in *. unfold best_effort, local_lane in Cb, Cl.
  destruct class; cbn [release_entry].
  - assert (control p (TPermit (mkPermit p Data id c lo)) = false) as Hcf.
    { cbn. apply bool_decide_false. naive_solver. }
    rewrite Hcf in Cc. destruct (decide (id = 0)) as [->|Hid].
    + assert (lane p (TPermit (mkPermit p Data 0 c lo)) = None) as Hlane.
      { cbn. rewrite decide_False; [done|]. naive_solver. }
      rewrite Hlane in *. cbn in *.
      rewrite (proj2 (take_slot_None 0 (data_slots e))).
      { split; cbn; try done; unfold best_effort, local_lane in *; lia. }
      intros (s & E & Hs)%list_elem_of_fmap. rewrite Forall_forall in Hsl. destruct (Hsl s Hs). lia.
    + assert (lane p (TPermit (mkPermit p Data id c lo)) = Some (id, lo)) as Hlane.
      { cbn. rewrite decide_True; done. }
      rewrite Hlane in *. cbn in Hl, Cb, Cl, Cc. destruct (take_slot id (data_slots e)) as [[s rest]|] eqn:Htake.
      2:{ apply take_slot_None in Htake. exfalso. apply Htake.
          assert ((id, lo) ∈ slot_lane <$> data_slots e) as (s & E & Hs)%list_elem_of_fmap by (rewrite Hl; by left).
          apply list_elem_of_fmap. exists s. split; [|done]. by injection E. }
      apply take_slot_Some in Htake as [Hsid Hperm].
      assert (slot_lane s = (id, lo)) as Hslane.
      { assert ((id, lo) ∈ slot_lane <$> data_slots e) as (s2 & E & Hs2)%list_elem_of_fmap by (rewrite Hl; by left).
        rewrite Hperm in Hnd, Hs2. cbn in Hnd. apply NoDup_cons in Hnd as [Hni _].
        apply elem_of_cons in Hs2 as [->|Hs2]; [done|]. exfalso. apply Hni. injection E as E1 E2.
        apply list_elem_of_fmap. exists s2. split; [congruence|done]. }
      rewrite Hperm in Hsl, Hnd. apply Forall_cons in Hsl as [[_ Hprio] Hsl]. cbn in Hnd. apply NoDup_cons in Hnd as [_ Hnd].
      assert (slot_lane <$> rest ≡ₚ lanes p (<[tid := t']> ts)) as Hrest.
      { rewrite Hperm in Hl. cbn [fmap list_fmap] in Hl. rewrite Hslane in Hl. by apply Permutation_cons_inv in Hl. }
      rewrite bool_decide_false by done. assert (local_origin s = lo) as -> by (by injection Hslane).
      destruct lo; cbn in Cb, Cl; split; cbn; try done; unfold best_effort, local_lane in *; rewrite ?down_pos; lia.
  - assert (lane p (TPermit (mkPermit p Control id c lo)) = None) as Hlane.
    { cbn. rewrite decide_False; [done|]. naive_solver. }
    assert (control p (TPermit (mkPermit p Control id c lo)) = true) as Hct by (cbn; by apply bool_decide_true).
    rewrite Hlane in *. rewrite Hct in Cc. cbn in Hl, Cb, Cl, Cc.
    split; cbn; try done; unfold best_effort, local_lane in *; rewrite ?down_pos; lia.
Qed.

Lemma budget_release (b : Budgets) (next : Z) (ts : gmap nat Thread) (tid : nat) (pm : OutboundSendPermit) (t' : Thread) (now : Z) :
  budget_inv b next ts → ts !! tid = Some (TPermit pm) → no_permit t' →
  budget_inv (release b (pm_peer pm) (pm_class pm) (pm_slot pm) now) next (<[tid := t']> ts).
Proof.
  intros [Hn Hb] Ht Hno. split; [done|]. intros p. destruct (decide (p = pm_peer pm)) as [->|Hne].
  - pose proof (entry_ok_release next ts tid pm t' _ now Ht Hno (Hb (pm_peer pm))) as Hr.
    unfold release. unfold entry_at in *. destruct (b !! pm_peer pm) as [e|] eqn:He.
    + by rewrite lookup_insert_eq.
    + rewrite He. cbn in *. eapply entry_ok_same; [|exact Hr]. by destruct (pm_class pm).
  - assert (entry_at (release b (pm_peer pm) (pm_class pm) (pm_slot pm) now) p = entry_at b p) as ->.
    { unfold release, entry_at. destruct (b !! pm_peer pm); [|done]. by rewrite lookup_insert_ne. }
    assert (lane p (TPermit pm) = None ∧ control p (TPermit pm) = false) as [H1 H2].
    { split; [cbn; rewrite decide_False; [done|naive_solver]|cbn; apply bool_decide_false; naive_solver]. }
    eapply entry_ok_update; [done| | |apply Hb]; rewrite ?H1, ?H2; by destruct t'.
Qed.

Lemma budget_same (b : Budgets) (next : Z) (ts : gmap nat Thread) (tid : nat) (t t' : Thread) :
  budget_inv b next ts → ts !! tid = Some t → (∀ p, lane p t' = lane p t ∧ control p t' = control p t) →
  budget_inv b next (<[tid := t']> ts).
Proof.
  intros [Hn Hb] Ht Hs. split; [done|]. intros p. destruct (Hs p). by eapply entry_ok_update.
Qed.

Lemma budget_end (b : Budgets) (next : Z) (ts : gmap nat Thread) (tid : nat) (t : Thread) :
  budget_inv b next ts → ts !! tid = Some t → no_permit t → budget_inv b next (delete tid ts).
Proof. intros [Hn Hb] Ht Hs. split; [done|]. intros p. by eapply entry_ok_delete. Qed.

Lemma budget_inv_step (S S' : Sys) :
  step S S' → budget_inv (budgets S) (next_slot_id S) (threads S) →
  budget_inv (budgets S') (next_slot_id S') (threads S').
Proof.
  destruct 1 as [tid p g s Ht Hr|tid p s Ht Hq|tid p s Ht Hq|tid p s Ht|tid p s now b n id Ht Hacq
    |tid p class prio local now b n id Ht Hcr Hn Hacq|p class prio local now b n Hcr Hacq
    |tid pm s Ht Hc Hsem|tid pm s Ht Hc|tid pm now Ht|tid p Ht|tid p s Ht|tid p s Ht|tid p s Ht];
    intros Hinv; cbn [budgets next_slot_id threads set_thread set_gate set_budgets end_thread].
  - destruct Hinv as [Hn Hb]. split; [done|]. intros q. by apply entry_ok_insert.
  - by eapply budget_same.
  - by eapply budget_same.
  - by eapply budget_end.
  - destruct (budget_touch _ _ _ _ _ _ _ _ _ _ _ Hinv Hacq) as [Hinv' Hid]; [by right|].
    rewrite (Hid id eq_refl). eapply budget_same; [done|done|]. intros q. cbn. split.
    + rewrite decide_False; [done|]. naive_solver.
    + apply bool_decide_false. naive_solver.
  - by eapply budget_grant.
  - destruct (budget_touch _ _ _ _ _ _ _ _ _ _ _ Hinv Hacq) as [Hinv' _]; [by left|]. done.
  - by eapply budget_same.
  - by eapply budget_same.
  - by apply budget_release.
  - by eapply budget_end.
  - by eapply budget_end.
  - by eapply budget_same.
  - by eapply budget_end.
Qed.

(** ** Reachable systems *)

Lemma inv_initial : gate_inv (gate initial) (threads initial) ∧ budget_inv (budgets initial) (next_slot_id initial) (threads initial).
Proof.
  split; split; cbn; try done.
  intros p. split; cbn; try done. apply NoDup_nil_2.
Qed.

Lemma inv_reachable (S : Sys) :
  rtc step initial S → gate_inv (gate S) (threads S) ∧ budget_inv (budgets S) (next_slot_id S) (threads S).
Proof.
  intros Hr. remember initial as S0. assert (gate_inv (gate S0) (threads S0) ∧ budget_inv (budgets S0) (next_slot_id S0) (threads S0)) as Hi.
  { subst S0. apply inv_initial. }
  clear HeqS0. induction Hr as [|S0 S1 S2 Hs _ IH]; [done|]. destruct Hi as [Hg Hb]. apply IH. split.
  - by eapply gate_inv_step.
  - by eapply budget_inv_step.
Qed.

(** The Critical sends to [p] that transmit, or have transmitted and not yet
    let go of the semaphore; and those that wait or transmit. *)
Definition critical_sending (p : PeerId) (t : Thread) : bool :=
  match t with
  | TPermit pm => bool_decide (pm_peer pm = p) && match pm_critical pm with CEngaged _ => true | _ => false end
  | TDropping q (CEngaged _) => bool_decide (q = p)
  | _ => false
  end.
Definition critical_queued (p : PeerId) (t : Thread) : bool :=
  match holds t, t with
  | Some _, (TReserving _ _ | TOverflow _ _) => false
  | Some (q, _), _ => bool_decide (q = p)
  | None, _ => false
  end.

Lemma critical_counts (S : Sys) (p : PeerId) :
  gate_inv (gate S) (threads S) →
  cnt (critical_sending p) (threads S) <= 1 ∧
  cnt (critical_queued p) (threads S) <= OUTBOUND_CRITICAL_QUEUE_PER_PEER.
Proof.
  intros [Hh Hheap _ _ Hsl].
  assert (∀ t, critical_sending p t = true → ∃ s, holds t = Some (p, s) ∧ engaged s t = true) as Hsend.
  { intros [q s|q s|q s|[q cl id [|s|s] lo]|q [|s|s]|q s]; cbn; try done; rewrite ?andb_false_r, ?andb_true_r; try done;
      intros ->%bool_decide_eq_true; exists s; by rewrite bool_decide_true. }
  assert (∀ t, critical_queued p t = true → ∃ s, holds t = Some (p, s) ∧ admitted s t = true) as Hqueue.
  { intros [q s|q s|q s|[q cl id [|s|s] lo]|q [|s|s]|q s]; cbn; try done;
      intros ->%bool_decide_eq_true; exists s; by rewrite bool_decide_true. }
  destruct (peers (gate S) !! p) as [s|] eqn:Hp.
  - destruct (Hheap p s Hp) as [sl Hs]. destruct (Hsl s sl Hs) as (_ & Hsem & Hnn & Hadm).
    split.
    + enough (cnt (critical_sending p) (threads S) <= cnt (engaged s) (threads S)) by lia.
      apply cnt_le. intros i t Hi Hf. destruct (Hsend t Hf) as (s' & Hs' & He).
      pose proof (Hh i t p s' Hi Hs'). by replace s with s' by congruence.
    + enough (cnt (critical_queued p) (threads S) <= cnt (admitted s) (threads S)) by lia.
      apply cnt_le. intros i t Hi Hf. destruct (Hqueue t Hf) as (s' & Hs' & He).
      pose proof (Hh i t p s' Hi Hs'). by replace s with s' by congruence.
  - assert (∀ f, (∀ t, f t = true → ∃ s, holds t = Some (p, s)) → cnt f (threads S) = 0) as Hz.
    { intros f Hf. apply cnt_zero. intros i t Hi. destruct (f t) eqn:E; [|done].
      destruct (Hf t E) as [s Hs]. pose proof (Hh i t p s Hi Hs). congruence. }
    rewrite !Hz; [unfold OUTBOUND_CRITICAL_QUEUE_PER_PEER; lia|..]; intros t Ht; [destruct (Hqueue t Ht) as (s & ? & _)|destruct (Hsend t Ht) as (s & ? & _)]; eauto.
Qed.

(** Under every interleaving of acquisitions, gate waits, timeouts and
    drops, each peer has at most one Critical send past the gate and at most
    64 Critical sends queued or in flight, at most one Normal or Bulk relay
    send, one local-origin send and two control sends; and the counters that
    grant permits are exactly the numbers of live permits, so no permit leaks
    and none is counted down twice. *)
Theorem send_lanes_bounded (S : Sys) (p : PeerId) :
  rtc step initial S →
  cnt (critical_sending p) (threads S) <= OUTBOUND_CRITICAL_DATA_PERMITS_PER_PEER ∧
  cnt (critical_queued p) (threads S) <= OUTBOUND_CRITICAL_QUEUE_PER_PEER ∧
  cnt (best_effort p) (threads S) <= OUTBOUND_BEST_EFFORT_DATA_PERMITS_PER_PEER ∧
  cnt (local_lane p) (threads S) <= OUTBOUND_LOCAL_DATA_PERMITS_PER_PEER ∧
  cnt (control p) (threads S) <= OUTBOUND_CONTROL_PERMITS_PER_PEER ∧
  best_effort_data_in_flight (entry_at (budgets S) p) = cnt (best_effort p) (threads S) ∧
  local_data_in_flight (entry_at (budgets S) p) = cnt (local_lane p) (threads S) ∧
  control_in_flight (entry_at (budgets S) p) = cnt (control p) (threads S).
Proof.
  intros [Hg [_ Hb]]%inv_reachable. destruct (critical_counts S p Hg), (Hb p).
  unfold OUTBOUND_CRITICAL_DATA_PERMITS_PER_PEER. repeat split; lia.
Qed.

(** When nothing is in flight to a peer, every lane to it is open. *)
Lemma idle_lane_available (S : Sys) (p : PeerId) (prio : TopicPriority) (local : bool) :
  rtc step initial S → (∀ tid pm, threads S !! tid = Some (TPermit pm) → pm_peer pm ≠ p) →
  data_lane_available (budgets S) p prio local = true.
Proof.
  intros [_ [_ Hb]]%inv_reachable Hno. unfold data_lane_available.
  destruct (bool_decide (prio = Critical)); [done|]. destruct (Hb p) as [_ _ _ Hbe Hlo _ _ _ _].
  assert (∀ t, (∀ pm, t = TPermit pm → pm_peer pm ≠ p) → lane p t = None) as Hlane.
  { intros [] Hpm; cbn; try done. rewrite decide_False; [done|]. specialize (Hpm _ eq_refl). naive_solver. }
  rewrite cnt_zero in Hbe, Hlo; [|intros tid t Ht; unfold local_lane, best_effort; rewrite Hlane; [done|]; intros pm ->; by eapply Hno..].
  unfold entry_at in *. destruct (budgets S !! p) as [e|]; [|done]. cbn in *.
  destruct local; apply bool_decide_true; unfold OUTBOUND_LOCAL_DATA_PERMITS_PER_PEER, OUTBOUND_BEST_EFFORT_DATA_PERMITS_PER_PEER; lia.
Qed.
End SendBudget.

(** ** Concrete runs *)

Module SendBudgetWitness.
Import SendBudget.

Definition peer1 : PeerId := mkPeerId (replicate 32 1).

(** A relay send and a Critical send to the same peer, step by step. *)
Definition b1 : Budgets := (acquire_section ∅ 1 peer1 Data Normal false 5).1.1.
Definition w1 : Sys := set_thread (set_budgets initial b1 2) 0 (TPermit (mkPermit peer1 Data 1 CNone false)).
Definition g2 : Gate := (reserve_section (gate w1) (threads w1) peer1).1.
Definition w2 : Sys := set_thread (set_gate w1 g2) 1 (TReserving peer1 0).
Definition w3 : Sys := set_thread (set_gate w2 (gate_update (gate w2) 0 (add_queued 1))) 1 (TReserved peer1 0).
Definition b4 : Budgets := (acquire_section b1 2 peer1 Data Critical false 6).1.1.
Definition w4 : Sys := set_thread (set_budgets w3 b4 2) 1 (TPermit (mkPermit peer1 Data 0 (CReserved 0) false)).
Definition w5 : Sys :=
  set_thread (set_gate w4 (gate_update (gate w4) 0 (add_sem (-1)))) 1 (TPermit (mkPermit peer1 Data 0 (CEngaged 0) false)).

Lemma w5_reachable : rtc step initial w5.
Proof.
  eapply rtc_l; [apply (s_acquire initial 0 peer1 Data Normal false 5 b1 2 1); vm_compute; reflexivity|].
  eapply rtc_l; [apply (s_reserve w1 1 peer1 g2 0); vm_compute; reflexivity|].
  eapply rtc_l; [apply (s_enqueue w2 1 peer1 0); vm_compute; reflexivity|].
  eapply rtc_l; [apply (s_critical w3 1 peer1 0 6 b4 2 0); vm_compute; reflexivity|].
  eapply rtc_l; [apply (s_engage w4 1 (mkPermit peer1 Data 0 (CReserved 0) false) 0); vm_compute; reflexivity|].
  apply rtc_refl.
Qed.

Lemma send_lanes_bounded_witness :
  rtc step initial w5 ∧ cnt (best_effort peer1) (threads w5) = 1 ∧ cnt (critical_sending peer1) (threads w5) = 1 ∧
  (cnt (critical_sending peer1) (threads w5) <= OUTBOUND_CRITICAL_DATA_PERMITS_PER_PEER ∧
   cnt (critical_queued peer1) (threads w5) <= OUTBOUND_CRITICAL_QUEUE_PER_PEER ∧
   cnt (best_effort peer1) (threads w5) <= OUTBOUND_BEST_EFFORT_DATA_PERMITS_PER_PEER ∧
   cnt (local_lane peer1) (threads w5) <= OUTBOUND_LOCAL_DATA_PERMITS_PER_PEER ∧
   cnt (control peer1) (threads w5) <= OUTBOUND_CONTROL_PERMITS_PER_PEER ∧
   best_effort_data_in_flight (entry_at (budgets w5) peer1) = cnt (best_effort peer1) (threads w5) ∧
   local_data_in_flight (entry_at (budgets w5) peer1) = cnt (local_lane peer1) (threads w5) ∧
   control_in_flight (entry_at (budgets w5) peer1) = cnt (control peer1) (threads w5)).
Proof.
  split; [exact w5_reachable|]. split; [vm_compute; reflexivity|]. split; [vm_compute; reflexivity|].
  exact (send_lanes_bounded w5 peer1 w5_reachable).
Defined.
End SendBudgetWitness.
