(* ===== verification/Float64.v ===== *)
(** * [f64]

    The crate's scores and decays are [f64].  A value is a [spec_float] of the
    Standard Library, with precision 53 and maximal exponent 1024, and the
    arithmetic is the library's correctly rounded arithmetic.  [powf], whose
    result the language leaves unspecified, is a parameter where it is used.
    All NaNs are one value here: the code never looks at a NaN's payload. *)

From Stdlib Require Import SpecFloat.
From S2P Require Import Prelude.

#[local] Open Scope Z_scope.

Module F64.

Definition f64 : Type := spec_float.

Definition prec : Z := 53.
Definition emax : Z := 1024.

(** [z as f64]. *)
Definition of_Z (z : Z) : f64 := binary_normalize prec emax z 0 false.

Definition add (x y : f64) : f64 := SFadd prec emax x y.
Definition sub (x y : f64) : f64 := SFsub prec emax x y.
Definition mul (x y : f64) : f64 := SFmul prec emax x y.
Definition div (x y : f64) : f64 := SFdiv prec emax x y.

Definition ltb (x y : f64) : bool := SFltb x y.
Definition leb (x y : f64) : bool := SFleb x y.

(** A decimal literal: the quotient of two exact integers, correctly
    rounded. *)
Definition decimal (p q : Z) : f64 := div (of_Z p) (of_Z q).

Definition is_nan (x : f64) : bool := match x with S754_nan => true | _ => false end.

(** [f64::max], [f64::min]: a NaN operand loses. *)
Definition fmax (x y : f64) : f64 := if is_nan x then y else if is_nan y then x else if ltb x y then y else x.
Definition fmin (x y : f64) : f64 := if is_nan x then y else if is_nan y then x else if ltb y x then y else x.

(** [f64::clamp]: a NaN stays a NaN. *)
Definition clamp (x lo hi : f64) : f64 := if ltb x lo then lo else if ltb hi x then hi else x.

(** The order of [f64::total_cmp]: the bits as a signed integer. *)
Definition magnitude (m : positive) (e : Z) : Z :=
  if decide (Zpos m < 2 ^ 52) then Zpos m else (e + 1075) * 2 ^ 52 + (Zpos m - 2 ^ 52).
Definition total_key (x : f64) : Z :=
  match x with
  | S754_zero s => if s then -1 else 0
  | S754_finite s m e => if s then - magnitude m e - 1 else magnitude m e
  | S754_infinity s => if s then - (2047 * 2 ^ 52) - 1 else 2047 * 2 ^ 52
  | S754_nan => 2047 * 2 ^ 52 + 2 ^ 51
  end.
Definition total_cmp (x y : f64) : comparison := Z.compare (total_key x) (total_key y).

(** [Duration::as_secs_f64]: seconds plus nanoseconds over a billion. *)
Definition as_secs_f64 (ns : Z) : f64 :=
  add (of_Z (ns / NANOS_PER_SEC)) (div (of_Z (ns mod NANOS_PER_SEC)) (of_Z NANOS_PER_SEC)).

(** The nonnegative value [m * 2^e * s], rounded to nearest, ties to even. *)
Definition round_scaled (m : positive) (e s : Z) : Z :=
  if decide (0 <= e) then Zpos m * s * 2 ^ e
  else
    let d := 2 ^ (- e) in
    let q := (Zpos m * s) / d in
    let r := (Zpos m * s) mod d in
    if decide (2 * r < d) then q
    else if decide (2 * r = d) then (if Z.even q then q else q + 1)
    else q + 1.

(** [Duration::from_secs_f64]: panics ([None]) on a negative, infinite or NaN
    argument and on overflow. *)
Definition DURATION_MAX : Z := (U64_MAX + 1) * NANOS_PER_SEC - 1.
Definition from_secs_f64 (x : f64) : option Z :=
  match x with
  | S754_zero _ => Some 0
  | S754_finite false m e =>
      let ns := round_scaled m e NANOS_PER_SEC in
      if decide (ns <= DURATION_MAX) then Some ns else None
  | _ => None
  end.

(** [x as u64] (saturating; NaN is zero) of a value rounded towards zero. *)
Definition trunc_u64 (x : f64) : Z :=
  match x with
  | S754_finite false m e =>
      Z.min U64_MAX (if decide (0 <= e) then Zpos m * 2 ^ e else Zpos m / 2 ^ (- e))
  | S754_infinity false => U64_MAX
  | _ => 0
  end.

(** [x.ceil() as usize]. *)
Definition ceil_u64 (x : f64) : Z :=
  match x with
  | S754_finite false m e =>
      Z.min U64_MAX (if decide (0 <= e) then Zpos m * 2 ^ e else - ((- Zpos m) / 2 ^ (- e)))
  | S754_infinity false => U64_MAX
  | _ => 0
  end.

(** ** Facts *)

Lemma total_cmp_refl (x : f64) : total_cmp x x = Eq.
Proof. apply Z.compare_refl. Qed.

Lemma ltb_irrefl (x : f64) : ltb x x = false.
Proof.
  unfold ltb, SFltb. destruct x as [|[]| |[] m e]; try done; cbn; rewrite Z.compare_refl; cbn;
    unfold Pos.compare; by rewrite Pos.compare_cont_refl.
Qed.

(** What [clamp] returns is never outside its bounds. *)
Lemma clamp_bounds (x lo hi : f64) :
  ltb hi lo = false → ltb (clamp x lo hi) lo = false ∧ ltb hi (clamp x lo hi) = false.
Proof.
  intros Hb. unfold clamp. destruct (ltb x lo) eqn:E1; [split; [apply ltb_irrefl|done]|].
  destruct (ltb hi x) eqn:E2; [split; [done|apply ltb_irrefl]|done].
Qed.

Lemma SFcompare_sym (x y : f64) : SFcompare y x = CompOpp <$> SFcompare x y.
Proof.
  destruct x as [[]|[]| |[] m e], y as [[]|[]| |[] m' e']; try done; cbn.
  all: rewrite (Z.compare_antisym e e'); destruct (e ?= e')%Z; cbn; try done.
  all: rewrite (Pos.compare_cont_antisym m m' Eq); cbn; try done; by destruct (Pos.compare_cont Eq m' m).
Qed.

(** Only a NaN is neither at least [y] nor below it. *)
Lemma unordered_nan (x y : f64) : is_nan y = false → leb y x = false → ltb x y = false → is_nan x = true.
Proof.
  unfold leb, ltb, SFleb, SFltb. rewrite (SFcompare_sym x y).
  destruct (SFcompare x y) as [[]|] eqn:E; cbn; try done. intros Hy _ _.
  destruct x as [|[]| |[] m e], y as [|[]| |[] m' e']; try done; cbn in E; by destruct (e ?= e')%Z.
Qed.

Lemma leb_not_ltb (x y : f64) : leb y x = true → ltb x y = false.
Proof.
  unfold leb, ltb, SFleb, SFltb. rewrite (SFcompare_sym x y). by destruct (SFcompare x y) as [[]|].
Qed.

End F64.
