(* ===== verification/PeerTiming.v ===== *)
(** * Send timing, cooldowns and peer scores

    ([crates/pubsub/src/timing.rs]; [DecayedCounter] and [PeerScore] of
    [crates/pubsub/src/lib.rs])

    The tracker keeps the last 32 send durations of each peer in a ring and
    derives the send timeout from their 95th percentile.  The cooling
    configuration computes cooldowns.  A score combines answered requests,
    recency and decayed send evidence. *)

From S2P Require Import Prelude Types Float64.
Import F64.

#[local] Open Scope Z_scope.

(** [f64::powf]: its result is unspecified by the language. *)
Class Libm := { powf : f64 → f64 → f64 }.

Module Timing.

(** ** Constants *)

Definition ADAPTIVE_COOLDOWN_INITIAL : Z := 30 * NANOS_PER_SEC.
Definition ADAPTIVE_COOLDOWN_MAX : Z := 300 * NANOS_PER_SEC.
Definition ADAPTIVE_COOLDOWN_DECAY_PER_SEC : f64 := decimal 97 100.
Definition PER_PEER_TIMEOUT_FLOOR : Z := 1500 * NANOS_PER_MILLI.
Definition PER_PEER_TIMEOUT_CEILING : Z := 10 * NANOS_PER_SEC.
Definition PER_PEER_TIMEOUT_MULTIPLIER : f64 := decimal 25 10.
Definition PER_PEER_RTT_SAMPLE_CAP : nat := 32.
Definition PER_PEER_RTT_EWMA_ALPHA : f64 := decimal 2 10.
Definition U32_MAX : Z := 4294967295.

(** ** The round-trip tracker *)

Record PerPeerRttEntry := mkRtt {
  ring : list Z;
  next : nat;
  filled : nat;
  ewma_ms : f64;
  last_sample_at : option Z;
}.

Definition entry_default : PerPeerRttEntry := mkRtt (replicate PER_PEER_RTT_SAMPLE_CAP 0) 0 0 (of_Z 0) None.

Definition entry_record (e : PerPeerRttEntry) (observed_ms now : Z) : PerPeerRttEntry :=
  let filled' := if decide (filled e < PER_PEER_RTT_SAMPLE_CAP)%nat then S (filled e) else filled e in
  let observed_f := of_Z observed_ms in
  mkRtt (<[next e := observed_ms]> (ring e)) ((next e + 1) mod PER_PEER_RTT_SAMPLE_CAP)%nat filled'
    (if SpecFloat.SFeqb (ewma_ms e) (of_Z 0) && bool_decide (filled' = 1%nat) then observed_f
     else add (mul PER_PEER_RTT_EWMA_ALPHA observed_f) (mul (sub (of_Z 1) PER_PEER_RTT_EWMA_ALPHA) (ewma_ms e)))
    (Some now).

(** The index [ceil(0.95 * N) - 1], in [f64]. *)
Definition p95_index (n : nat) : nat :=
  Nat.min (Z.to_nat (ceil_u64 (mul (of_Z (Z.of_nat n)) (decimal 95 100))) - 1) (n - 1).

Definition entry_p95 (e : PerPeerRttEntry) : option Z :=
  if decide (filled e = 0%nat) then None
  else merge_sort (≤) (take (filled e) (ring e)) !! p95_index (filled e).

Notation PerPeerRttTracker := (gmap PeerId PerPeerRttEntry).

Definition observed_millis (observed : Z) : Z := Z.min (observed / NANOS_PER_MILLI) U32_MAX.

Definition record (t : PerPeerRttTracker) (peer : PeerId) (observed now : Z) : PerPeerRttTracker :=
  <[peer := entry_record (default entry_default (t !! peer)) (observed_millis observed) now]> t.

Definition tracker_ewma_ms (t : PerPeerRttTracker) (peer : PeerId) : option f64 := ewma_ms <$> t !! peer.
Definition p95_ms (t : PerPeerRttTracker) (peer : PeerId) : option f64 := of_Z <$> (t !! peer ≫= entry_p95).
Definition sample_count (t : PerPeerRttTracker) (peer : PeerId) : Z := default 0 ((λ e, Z.of_nat (filled e)) <$> t !! peer).

Definition adaptive_timeout (t : PerPeerRttTracker) (peer : PeerId) (legacy_floor : Z) : Z :=
  match p95_ms t peer with
  | None => Z.min legacy_floor PER_PEER_TIMEOUT_CEILING
  | Some p95 =>
      let scaled_ms := mul p95 PER_PEER_TIMEOUT_MULTIPLIER in
      let scaled := trunc_u64 (fmax scaled_ms (of_Z 0)) * NANOS_PER_MILLI in
      Z.min (Z.max scaled PER_PEER_TIMEOUT_FLOOR) PER_PEER_TIMEOUT_CEILING
  end.

(** ** Cooldowns *)

Record AdaptiveCoolingConfig := mkCooling { initial : Z; max : Z; raw_factor : Z }.

Definition config_default : AdaptiveCoolingConfig := mkCooling ADAPTIVE_COOLDOWN_INITIAL ADAPTIVE_COOLDOWN_MAX 2.
Definition with_initial (c : AdaptiveCoolingConfig) (i : Z) : AdaptiveCoolingConfig := mkCooling i (max c) (raw_factor c).
Definition with_max (c : AdaptiveCoolingConfig) (m : Z) : AdaptiveCoolingConfig := mkCooling (initial c) m (raw_factor c).
Definition with_escalation_factor (c : AdaptiveCoolingConfig) (f : Z) : AdaptiveCoolingConfig :=
  mkCooling (initial c) (max c) (if decide (f < 1) then 1 else f).
Definition escalation_factor (c : AdaptiveCoolingConfig) : Z :=
  if decide (raw_factor c < 1) then 1 else raw_factor c.

(** [Duration::checked_mul]. *)
Definition checked_mul (d k : Z) : option Z := if decide (d * k <= DURATION_MAX) then Some (d * k) else None.

Definition next_cooldown (c : AdaptiveCoolingConfig) (previous : Z) : Z :=
  if decide (previous = 0) then Z.min (initial c) (max c)
  else Z.min (default (max c) (checked_mul previous (escalation_factor c))) (max c).

(** [None] is the panic of [from_secs_f64] or of the addition. *)
Definition decay_on_success `{Libm} (c : AdaptiveCoolingConfig) (current elapsed : Z) : option Z :=
  if decide (current <= initial c ∨ elapsed = 0) then Some (Z.max current (initial c))
  else
    let factor := powf ADAPTIVE_COOLDOWN_DECAY_PER_SEC (as_secs_f64 elapsed) in
    let above_initial := as_secs_f64 (sat_sub current (initial c)) in
    match from_secs_f64 (mul above_initial factor) with
    | Some above =>
        if decide (initial c + above <= DURATION_MAX)
        then Some (Z.min (Z.max (initial c + above) (initial c)) (max c)) else None
    | None => None
    end.

Definition escalate_on_dead (c : AdaptiveCoolingConfig) (current : Z) : Z :=
  let base := if decide (current = 0) then initial c else current in
  Z.min (default (max c) (checked_mul base 2)) (max c).

(** ** The ring holds the most recent samples *)

(** The last [n] elements. *)
Definition last_n {A} (n : nat) (l : list A) : list A := drop (length l - n) l.

Definition holds_recent (l : list Z) (e : PerPeerRttEntry) : Prop :=
  length (ring e) = PER_PEER_RTT_SAMPLE_CAP ∧ filled e = Nat.min (length l) PER_PEER_RTT_SAMPLE_CAP ∧
  if decide (length l < PER_PEER_RTT_SAMPLE_CAP)%nat
  then next e = length l ∧ take (length l) (ring e) = l
  else (next e < PER_PEER_RTT_SAMPLE_CAP)%nat ∧
       drop (next e) (ring e) ++ take (next e) (ring e) = last_n PER_PEER_RTT_SAMPLE_CAP l.

Lemma holds_recent_default : holds_recent [] entry_default.
Proof. done. Qed.

(** Overwriting the oldest of a full ring. *)
Lemma ring_overwrite (n : nat) (r : list Z) (x : Z) :
  (n < length r)%nat →
  let r' := <[n := x]> r in
  let n' := ((n + 1) mod length r)%nat in
  drop n' r' ++ take n' r' = drop 1 (drop n r ++ take n r) ++ [x].
Proof.
  intros Hn. destruct (lookup_lt_is_Some_2 r n Hn) as [a Ha].
  pose proof (take_drop_middle r n a Ha) as Hr. cbn.
  set (A := take n r) in *. set (B := drop (S n) r) in *.
  assert (length A = n) as HA by (unfold A; rewrite length_take; lia).
  assert (<[n := x]> r = A ++ x :: B) as ->.
  { rewrite <-Hr, insert_app_r_alt by lia. rewrite HA, Nat.sub_diag. done. }
  assert (drop n r = a :: B) as ->.
  { rewrite <-Hr, drop_app_length' by done. done. }
  cbn. destruct (decide (n + 1 < length r)%nat) as [Hlt|Hge].
  - rewrite Nat.mod_small by lia. rewrite cons_middle, (assoc_L (++)).
    rewrite drop_app_length', take_app_length' by (rewrite length_app; cbn; lia). rewrite (assoc_L (++)). done.
  - replace (n + 1)%nat with (length r) by lia. rewrite Nat.Div0.mod_same.
    assert (B = []) as -> by (unfold B; apply drop_ge; lia). cbn. rewrite drop_0, take_0, app_nil_r. done.
Qed.

Lemma holds_recent_record (l : list Z) (e : PerPeerRttEntry) (ms now : Z) :
  holds_recent l e → holds_recent (l ++ [ms]) (entry_record e ms now).
Proof.
  intros (Hlen & Hf & Hr). unfold holds_recent, entry_record. cbn [ring filled next]. rewrite length_insert, length_app.
  cbn [length]. split; [done|]. split; [rewrite Hf; repeat case_decide; lia|].
  destruct (decide (length l < PER_PEER_RTT_SAMPLE_CAP)%nat) as [Hlt|Hge].
  - destruct Hr as [Hn Ht].
    assert (take (length l + 1) (<[length l:=ms]> (ring e)) = l ++ [ms]) as Hnew.
    { replace (length l + 1)%nat with (S (length l)) by lia.
      rewrite (take_S_r _ _ ms) by (rewrite list_lookup_insert_eq by lia; done).
      rewrite take_insert_ge by lia. by rewrite Ht. }
    rewrite Hn. case_decide as Hd.
    + split; [apply Nat.mod_small; lia|done].
    + assert (length l + 1 = PER_PEER_RTT_SAMPLE_CAP)%nat as Heq by lia.
      rewrite Heq, Nat.Div0.mod_same. unfold last_n. rewrite length_app. cbn [length].
      replace (length l + 1 - PER_PEER_RTT_SAMPLE_CAP)%nat with 0%nat by lia.
      rewrite !drop_0, take_0, app_nil_r. split; [unfold PER_PEER_RTT_SAMPLE_CAP; lia|].
      rewrite <-Hnew. symmetry. apply take_ge. rewrite length_insert. lia.
  - rewrite decide_False by lia. destruct Hr as [Hn Hr]. split; [apply Nat.mod_upper_bound; done|].
    rewrite <-Hlen at 1 2. rewrite ring_overwrite, Hr by lia. unfold last_n.
    rewrite drop_drop, length_app. cbn [length].
    rewrite drop_app_le by lia. f_equal. f_equal. lia.
Qed.

Lemma recent_perm (l : list Z) (e : PerPeerRttEntry) :
  holds_recent l e → take (filled e) (ring e) ≡ₚ last_n PER_PEER_RTT_SAMPLE_CAP l.
Proof.
  intros (Hlen & Hf & Hr). rewrite Hf. unfold last_n in *. case_decide as Hd; destruct Hr as [Hn Hr].
  - rewrite Nat.min_l, Hr by lia. replace (length l - PER_PEER_RTT_SAMPLE_CAP)%nat with 0%nat by lia. done.
  - rewrite Nat.min_r by lia. rewrite take_ge, <-Hr by lia. rewrite <-(take_drop (next e) (ring e)) at 1. apply Permutation_app_comm.
Qed.

(** The [f64] product and ceiling give the exact nearest rank, for every
    possible number of samples. *)
Lemma p95_index_exact (n : nat) :
  (1 <= n <= PER_PEER_RTT_SAMPLE_CAP)%nat → p95_index n = ((95 * n + 99) / 100 - 1)%nat.
Proof.
  intros Hn.
  assert (forallb (λ n, bool_decide (p95_index n = (95 * n + 99) / 100 - 1))%nat (List.seq 1 32) = true) as Hall by (vm_compute; reflexivity).
  rewrite forallb_forall in Hall. specialize (Hall n). rewrite bool_decide_eq_true in Hall.
  apply Hall. apply in_seq. unfold PER_PEER_RTT_SAMPLE_CAP in Hn. lia.
Qed.

Definition count_le (v : Z) (w : list Z) : nat := length (filter (λ x, x <= v) w).
Definition count_lt (v : Z) (w : list Z) : nat := length (filter (λ x, x < v) w).

Lemma filter_length_all (P : Z → Prop) `{!∀ x, Decision (P x)} (w : list Z) :
  (∀ x, x ∈ w → P x) → length (filter P w) = length w.
Proof.
  induction w as [|x w IH]; intros HP; [done|]. rewrite filter_cons_True by (apply HP; by left).
  cbn. f_equal. apply IH. intros y Hy. apply HP. by right.
Qed.

Lemma filter_length_none (P : Z → Prop) `{!∀ x, Decision (P x)} (w : list Z) :
  (∀ x, x ∈ w → ¬ P x) → length (filter P w) = 0%nat.
Proof.
  induction w as [|x w IH]; intros HP; [done|]. rewrite filter_cons_False by (apply HP; by left).
  apply IH. intros y Hy. apply HP. by right.
Qed.

(** The element of rank [i] of a sorted list. *)
Lemma sorted_rank (s : list Z) (i : nat) (v : Z) :
  StronglySorted (≤) s → s !! i = Some v → (i < count_le v s)%nat ∧ (count_lt v s <= i)%nat.
Proof.
  intros Hs Hi. rewrite <-(take_drop_middle s i v Hi) in Hs |- *.
  assert (length (take i s) = i) as Hlen by (rewrite length_take; apply lookup_lt_Some in Hi; lia).
  apply StronglySorted_app in Hs as (Hab & _ & Hb). apply StronglySorted_inv in Hb as [_ Hb]. rewrite Forall_forall in Hb.
  unfold count_le, count_lt. rewrite !filter_app, !length_app. split.
  - rewrite (filter_length_all (λ x, x <= v)), Hlen by (intros x Hx; apply (Hab x v Hx); by left).
    rewrite filter_cons_True by lia. cbn. lia.
  - rewrite (filter_length_none (λ x, x < v) (v :: _)).
    + pose proof (length_filter (λ x, x < v) (take i s)). lia.
    + intros x [->|Hx]%elem_of_cons; [lia|]. specialize (Hb x Hx). lia.
Qed.

(** The entry's percentile is the nearest-rank one of the recent samples. *)
Lemma p95_rank (l : list Z) (e : PerPeerRttEntry) :
  holds_recent l e → l ≠ [] →
  let w := last_n PER_PEER_RTT_SAMPLE_CAP l in
  ∃ v, entry_p95 e = Some v ∧ v ∈ w ∧
    (95 * length w <= 100 * count_le v w)%nat ∧ (100 * count_lt v w < 95 * length w)%nat.
Proof.
  intros Hrec Hne w. pose proof (recent_perm l e Hrec) as Hp. destruct Hrec as (Hlen & Hf & _).
  assert (length l ≠ 0%nat) as Hl by (by destruct l).
  assert (length w = filled e) as Hw.
  { unfold w. rewrite <-Hp, length_take, Hlen, Hf. lia. }
  assert (1 <= filled e <= PER_PEER_RTT_SAMPLE_CAP)%nat as Hr by (rewrite Hf; unfold PER_PEER_RTT_SAMPLE_CAP; lia).
  unfold entry_p95. rewrite decide_False, p95_index_exact by (done || lia).
  set (s := merge_sort (≤) (take (filled e) (ring e))).
  assert (s ≡ₚ w) as Hs by (unfold s; rewrite merge_sort_Permutation; done).
  pose proof (Nat.div_mod_eq (95 * filled e + 99) 100) as Hdiv.
  pose proof (Nat.mod_upper_bound (95 * filled e + 99) 100) as Hmod.
  set (i := ((95 * filled e + 99) / 100 - 1)%nat).
  destruct (lookup_lt_is_Some_2 s i) as [v Hv]; [rewrite Hs, Hw; unfold i; lia|].
  exists v. rewrite Hv. split; [done|]. split; [rewrite <-Hs; eapply list_elem_of_lookup_2; done|].
  assert (StronglySorted (≤) s) as Hsort by (apply StronglySorted_merge_sort; apply _).
  destruct (sorted_rank s i v Hsort Hv) as [Hle Hlt].
  unfold count_le, count_lt in *. rewrite Hs in Hle, Hlt. rewrite Hw. unfold i in *. lia.
Qed.

(** A run of the tracker over the observed sends. *)
Definition run (ops : list (PeerId * Z * Z)) : PerPeerRttTracker :=
  foldl (λ t '(p, observed, now), record t p observed now) ∅ ops.
Definition samples (peer : PeerId) (ops : list (PeerId * Z * Z)) : list Z :=
  omap (λ '(p, observed, _), if decide (p = peer) then Some (observed_millis observed) else None) ops.

Lemma run_recent (ops : list (PeerId * Z * Z)) (peer : PeerId) :
  match run ops !! peer with
  | Some e => holds_recent (samples peer ops) e ∧ samples peer ops ≠ []
  | None => samples peer ops = []
  end.
Proof.
  induction ops as [|[[p o] n] ops IH] using rev_ind; [done|].
  unfold run, samples in *. rewrite foldl_snoc, omap_app. cbn. unfold record. case_decide as Hp.
  - subst p. rewrite lookup_insert_eq. split; [|by destruct (omap _ ops)]. apply holds_recent_record.
    destruct (foldl _ ∅ ops !! peer) as [e|]; cbn; [apply IH|]. rewrite IH. apply holds_recent_default.
  - rewrite app_nil_r, lookup_insert_ne by done. exact IH.
Qed.

(** The send timeout follows the observed sends of the peer: the percentile
    it uses is the nearest-rank 95th percentile of the last 32 samples (at
    least 95% of them are at most it, fewer than 95% below it), although the
    code computes the rank in floating point; the timeout stays between 1.5
    and 10 seconds, and without samples it is the fallback capped at 10
    seconds. *)
Theorem rtt_timeout (ops : list (PeerId * Z * Z)) (peer : PeerId) (legacy_floor : Z) :
  let t := run ops in
  let w := last_n PER_PEER_RTT_SAMPLE_CAP (samples peer ops) in
  if decide (samples peer ops = [])
  then adaptive_timeout t peer legacy_floor = Z.min legacy_floor PER_PEER_TIMEOUT_CEILING
  else (∃ v, p95_ms t peer = Some (of_Z v) ∧ v ∈ w ∧
      (95 * length w <= 100 * count_le v w)%nat ∧ (100 * count_lt v w < 95 * length w)%nat) ∧
    PER_PEER_TIMEOUT_FLOOR <= adaptive_timeout t peer legacy_floor <= PER_PEER_TIMEOUT_CEILING.
Proof.
  intros t w. pose proof (run_recent ops peer) as Hr. unfold adaptive_timeout, p95_ms. fold t in Hr.
  destruct (t !! peer) as [e|] eqn:E; cbn.
  - destruct Hr as [Hr Hne]. rewrite decide_False by done.
    destruct (p95_rank _ e Hr Hne) as (v & Hv & Hrank). rewrite Hv. cbn.
    split; [by exists v|]. unfold PER_PEER_TIMEOUT_FLOOR, PER_PEER_TIMEOUT_CEILING, NANOS_PER_MILLI, NANOS_PER_SEC. lia.
  - by rewrite decide_True.
Qed.

(** Cooldowns stay between the initial value and the cap. *)
Lemma next_cooldown_bounds (c : AdaptiveCoolingConfig) (previous : Z) :
  0 <= initial c <= max c → 0 <= previous → (previous = 0 ∨ initial c <= previous) →
  initial c <= next_cooldown c previous <= max c.
Proof.
  intros Hc H0 Hp. unfold next_cooldown, checked_mul, escalation_factor. repeat case_decide; cbn; nia.
Qed.

Lemma escalate_on_dead_bounds (c : AdaptiveCoolingConfig) (current : Z) :
  0 <= initial c <= max c → 0 <= current → (current = 0 ∨ initial c <= current) →
  initial c <= escalate_on_dead c current <= max c.
Proof. intros Hc H0 Hp. unfold escalate_on_dead, checked_mul. repeat case_decide; cbn; lia. Qed.

Lemma decay_bounds `{Libm} (c : AdaptiveCoolingConfig) (current elapsed d : Z) :
  0 <= initial c <= max c → current <= max c →
  decay_on_success c current elapsed = Some d → initial c <= d <= max c.
Proof.
  intros Hc Hcur. unfold decay_on_success. case_decide; [intros [= <-]; lia|].
  case_match; [|done]. case_decide; [|done]. intros [= <-]. lia.
Qed.

End Timing.

(** ** Peer scores *)

(** How a claimed send relates to the peer's cooling ([SendAttemptKind]). *)
Module SendAttemptKind.
Inductive t := Normal | RecoveryProbe | CooldownBypass.
#[global] Instance eq_dec : EqDecision t.
Proof. solve_decision. Defined.
End SendAttemptKind.

Module Score.
Section Scores.
Context `{Libm}.

Definition PEER_SCORE_DECAY_HALF_LIFE : Z := 300 * NANOS_PER_SEC.
Definition PEER_SCORE_EAGER_MIN : f64 := decimal 45 100.
Definition PEER_SCORE_SEND_MIN_FACTOR : f64 := decimal 35 100.
Definition PEER_SCORE_RETENTION : Z := 2400 * NANOS_PER_SEC.

Record DecayedCounter := mkCounter { value : f64; updated_at : Z }.

Definition counter_new (now : Z) : DecayedCounter := mkCounter (of_Z 0) now.

Definition value_at (c : DecayedCounter) (now : Z) : f64 :=
  let elapsed := as_secs_f64 (elapsed_ns now (updated_at c)) in
  if leb elapsed (of_Z 0) || leb (value c) (of_Z 0) then value c
  else mul (value c) (powf (decimal 5 10) (div elapsed (as_secs_f64 PEER_SCORE_DECAY_HALF_LIFE))).

Definition add_at (c : DecayedCounter) (now : Z) (amount : f64) : DecayedCounter :=
  mkCounter (add (value_at c now) amount) now.

Definition counter_activity (c : DecayedCounter) : option Z :=
  if ltb (of_Z 0) (value c) then Some (updated_at c) else None.

Record PeerScore := mkScore {
  messages_delivered : Z;
  iwant_requests : Z;
  iwant_responses : Z;
  last_seen : Z;
  outbound_send_successes : DecayedCounter;
  outbound_send_timeouts : DecayedCounter;
  cooling_events : DecayedCounter;
  recovery_probes : DecayedCounter;
  recovery_successes : DecayedCounter;
}.

Definition new_at (now : Z) : PeerScore :=
  mkScore 0 0 0 now (counter_new now) (counter_new now) (counter_new now) (counter_new now) (counter_new now).

Record PeerScoreComponents := mkComponents {
  score : f64;
  iwant_response_rate : f64;
  recency : f64;
  send_health : f64;
  c_outbound_send_successes : f64;
  c_outbound_send_timeouts : f64;
  c_cooling_events : f64;
  c_recovery_probes : f64;
  c_recovery_successes : f64;
}.

Definition components_at (s : PeerScore) (now : Z) : PeerScoreComponents :=
  let response_rate :=
    if decide (iwant_requests s > 0) then div (of_Z (iwant_responses s)) (of_Z (iwant_requests s))
    else if decide (messages_delivered s > 0) then decimal 8 10 else decimal 5 10 in
  let secs_since_seen := as_secs_f64 (elapsed_ns now (last_seen s)) in
  let recency := fmax (sub (of_Z 1) (div secs_since_seen (of_Z 300))) (of_Z 0) in
  let successes := value_at (outbound_send_successes s) now in
  let timeouts := value_at (outbound_send_timeouts s) now in
  let coolings := value_at (cooling_events s) now in
  let probes := value_at (recovery_probes s) now in
  let recoveries := value_at (recovery_successes s) now in
  let good := add successes (mul recoveries (of_Z 2)) in
  let bad := add (add timeouts (mul coolings (of_Z 3))) (mul probes (decimal 5 10)) in
  let send_health :=
    if leb good (of_Z 0) && leb bad (of_Z 0) then of_Z 1
    else clamp (div (add good (of_Z 1)) (add (add good bad) (of_Z 1))) (of_Z 0) (of_Z 1) in
  let base := add (mul (fmin response_rate (of_Z 1)) (decimal 6 10)) (mul recency (decimal 4 10)) in
  let send_factor :=
    add PEER_SCORE_SEND_MIN_FACTOR (mul (sub (of_Z 1) PEER_SCORE_SEND_MIN_FACTOR) send_health) in
  mkComponents (clamp (mul base send_factor) (of_Z 0) (of_Z 1)) (fmin response_rate (of_Z 1)) recency
    send_health successes timeouts coolings probes recoveries.

Definition score_at (s : PeerScore) (now : Z) : f64 := score (components_at s now).

(** Record updates ([record_delivery] and [record_iwant_response] read the
    clock; the counters are [u64]). *)
Definition record_delivery (s : PeerScore) (now : Z) : PeerScore :=
  mkScore (u64_add (messages_delivered s) 1) (iwant_requests s) (iwant_responses s) now
    (outbound_send_successes s) (outbound_send_timeouts s) (cooling_events s) (recovery_probes s) (recovery_successes s).
Definition record_seen_at (s : PeerScore) (now : Z) : PeerScore :=
  mkScore (messages_delivered s) (iwant_requests s) (iwant_responses s) (Z.max (last_seen s) now)
    (outbound_send_successes s) (outbound_send_timeouts s) (cooling_events s) (recovery_probes s) (recovery_successes s).
Definition record_iwant_request (s : PeerScore) : PeerScore :=
  mkScore (messages_delivered s) (u64_add (iwant_requests s) 1) (iwant_responses s) (last_seen s)
    (outbound_send_successes s) (outbound_send_timeouts s) (cooling_events s) (recovery_probes s) (recovery_successes s).
Definition record_iwant_response (s : PeerScore) (now : Z) : PeerScore :=
  mkScore (messages_delivered s) (iwant_requests s) (u64_add (iwant_responses s) 1) now
    (outbound_send_successes s) (outbound_send_timeouts s) (cooling_events s) (recovery_probes s) (recovery_successes s).
Definition record_recovery_probe_at (s : PeerScore) (now : Z) : PeerScore :=
  mkScore (messages_delivered s) (iwant_requests s) (iwant_responses s) (last_seen s)
    (outbound_send_successes s) (outbound_send_timeouts s) (cooling_events s)
    (add_at (recovery_probes s) now (of_Z 1)) (recovery_successes s).
Definition record_outbound_send_success_at (s : PeerScore) (now : Z) (kind : SendAttemptKind.t) : PeerScore :=
  mkScore (messages_delivered s) (iwant_requests s) (iwant_responses s) (last_seen s)
    (add_at (outbound_send_successes s) now (of_Z 1)) (outbound_send_timeouts s) (cooling_events s) (recovery_probes s)
    (if decide (kind = SendAttemptKind.RecoveryProbe) then add_at (recovery_successes s) now (of_Z 1) else recovery_successes s).
Definition record_outbound_send_timeout_at (s : PeerScore) (now : Z) : PeerScore :=
  mkScore (messages_delivered s) (iwant_requests s) (iwant_responses s) (last_seen s)
    (outbound_send_successes s) (add_at (outbound_send_timeouts s) now (of_Z 1)) (cooling_events s)
    (recovery_probes s) (recovery_successes s).
Definition record_cooling_event_at (s : PeerScore) (now : Z) : PeerScore :=
  mkScore (messages_delivered s) (iwant_requests s) (iwant_responses s) (last_seen s)
    (outbound_send_successes s) (outbound_send_timeouts s) (add_at (cooling_events s) now (of_Z 1))
    (recovery_probes s) (recovery_successes s).

Definition last_activity (s : PeerScore) : Z :=
  foldl Z.max (last_seen s) (omap counter_activity
    [outbound_send_successes s; outbound_send_timeouts s; cooling_events s; recovery_probes s; recovery_successes s]).

(** A score is never below 0 or above 1, whatever [powf] returns. *)
Lemma score_unit (s : PeerScore) (now : Z) :
  ltb (score_at s now) (of_Z 0) = false ∧ ltb (of_Z 1) (score_at s now) = false.
Proof. apply clamp_bounds. reflexivity. Qed.

(** A peer just met scores at least the EAGER minimum: it can be promoted. *)
Lemma new_peer_eligible (now : Z) : leb PEER_SCORE_EAGER_MIN (score_at (new_at now) now) = true.
Proof.
  unfold score_at, components_at, new_at, value_at, counter_new, elapsed_ns. cbn -[of_Z decimal add mul div sub fmax fmin clamp leb as_secs_f64].
  rewrite Z.sub_diag. vm_compute. reflexivity.
Qed.

End Scores.
End Score.
