(* ===== verification/TopicMesh.v ===== *)
(** * The topic mesh and peer cooling ([crates/pubsub/src/lib.rs],
      [PeerCoolingState] and the membership half of [TopicState])

    Every connected peer of a topic is eager (receives full messages) or lazy
    (receives announcements).  Maintenance keeps the eager set within its
    degree bounds and honours the topic owner's preferred peers.  Peers whose
    sends time out are cooled: demoted, and admitted again only through a
    recovery probe after the cooldown, with a rate-limited bypass meanwhile.

    [TopicMesh] holds the fields of [TopicState] that these methods use.
    [HashSet]s are iterated in an arbitrary order ([SetIter]); the counter of
    probe ids is threaded through. *)

From S2P Require Import Prelude Types Float64 PeerTiming.
Import F64 Timing.

#[local] Open Scope Z_scope.

Module TopicMesh.

(** ** Constants *)

Definition MIN_EAGER_DEGREE : nat := 6.
Definition MAX_EAGER_DEGREE : nat := 12.
Definition MAX_PREFERRED_EAGER_PEERS : nat := 8.
Definition PEER_TIMEOUT_WINDOW : Z := 60 * NANOS_PER_SEC.
Definition PEER_TIMEOUT_THRESHOLD : Z := 8.
Definition PEER_SUPPRESSION_COOLDOWN : Z := 30 * NANOS_PER_SEC.
Definition PEER_SUPPRESSION_BACKOFF_MAX : Z := 300 * NANOS_PER_SEC.
Definition PEER_COOLDOWN_BYPASS_MIN_INTERVAL : Z := 5 * NANOS_PER_SEC.
Definition OPPORTUNISTIC_GRAFT_INTERVAL : Z := 60 * NANOS_PER_SEC.
Definition OPPORTUNISTIC_GRAFT_MAX_REPLACEMENTS : nat := 1.
Definition OPPORTUNISTIC_GRAFT_MIN_SCORE_DELTA : f64 := decimal 20 100.

(** ** Cooling of one peer *)

Record PeerCoolingState := mkCool {
  timeout_window_started : Z;
  timeout_count : Z;
  suppressed_until : option Z;
  cooldown : Z;
  last_suppressed_at : option Z;
  last_suppression_timeout_count : Z;
  recovery_probe_in_flight : bool;
  recovery_probe_id : option Z;
  last_bypass_probe_at : option Z;
}.

Record PeerSuppressionEvent := mkSuppression {
  ev_suppressed_until : Z;
  ev_recent_timeout_count : Z;
  ev_cooldown : Z;
  ev_demoted : bool;
}.

Record PeerTimeoutOutcome := mkOutcome {
  suppression : option PeerSuppressionEvent;
  request_indirect_probe : bool;
}.
Definition outcome_default : PeerTimeoutOutcome := mkOutcome None false.

Record PeerRecoveryProbeEvent := mkProbeEvent {
  pe_suppressed_until : Z;
  pe_recent_timeout_count : Z;
  pe_cooldown : Z;
}.

Record PeerSendAttempt := mkAttempt {
  at_peer : PeerId;
  at_kind : SendAttemptKind.t;
  at_probe_id : option Z;
}.

Definition cooling_new (now : Z) : PeerCoolingState := mkCool now 0 None 0 None 0 false None None.

Definition suppressed_after (c : PeerCoolingState) (now : Z) : bool :=
  match suppressed_until c with Some u => bool_decide (u > now) | None => false end.
Definition suppression_expired_at (c : PeerCoolingState) (now : Z) : bool :=
  match suppressed_until c with Some u => bool_decide (u <= now) | None => false end.
Definition is_suppressed_at (c : PeerCoolingState) (now : Z) : bool :=
  suppressed_after c now || recovery_probe_in_flight c || suppression_expired_at c now.
Definition can_graft_at (c : PeerCoolingState) (now : Z) : bool := negb (is_suppressed_at c now).
Definition recovery_probe_due_at (c : PeerCoolingState) (now : Z) : bool :=
  suppression_expired_at c now && negb (recovery_probe_in_flight c).
Definition cooldown_bypass_due_at (c : PeerCoolingState) (now : Z) : bool :=
  suppressed_after c now && negb (recovery_probe_in_flight c) &&
  match last_bypass_probe_at c with
  | None => true
  | Some at_ => bool_decide (elapsed_ns now at_ >= PEER_COOLDOWN_BYPASS_MIN_INTERVAL)
  end.
Definition note_cooldown_bypass_claimed_at (c : PeerCoolingState) (now : Z) : PeerCoolingState :=
  mkCool (timeout_window_started c) (timeout_count c) (suppressed_until c) (cooldown c) (last_suppressed_at c)
    (last_suppression_timeout_count c) (recovery_probe_in_flight c) (recovery_probe_id c) (Some now).

Definition set_probe (c : PeerCoolingState) (id : option Z) : PeerCoolingState :=
  mkCool (timeout_window_started c) (timeout_count c) (suppressed_until c) (cooldown c) (last_suppressed_at c)
    (last_suppression_timeout_count c) (bool_decide (is_Some id)) id (last_bypass_probe_at c).

(** [claim_send_attempt_at_for] on one peer: the new state, the next probe id
    and what was claimed. *)
Definition claim_at (c : PeerCoolingState) (next_id now : Z) (critical_data : bool) :
    PeerCoolingState * Z * option (SendAttemptKind.t * option Z * option PeerRecoveryProbeEvent) :=
  if suppressed_after c now then
    if critical_data then (c, next_id, Some (SendAttemptKind.Normal, None, None))
    else if negb (cooldown_bypass_due_at c now) then (c, next_id, None)
    else (c, next_id, Some (SendAttemptKind.CooldownBypass, None, None))
  else if suppression_expired_at c now then
    if recovery_probe_in_flight c then
      if critical_data then (c, next_id, Some (SendAttemptKind.Normal, None, None)) else (c, next_id, None)
    else
      (set_probe c (Some next_id), u64_add next_id 1,
       Some (SendAttemptKind.RecoveryProbe, Some next_id,
             Some (mkProbeEvent (default now (suppressed_until c))
                     (Z.max (last_suppression_timeout_count c) 1) (cooldown c))))
  else (c, next_id, Some (SendAttemptKind.Normal, None, None)).

Definition matches_recovery_probe (c : PeerCoolingState) (id : option Z) : bool :=
  recovery_probe_in_flight c && bool_decide (recovery_probe_id c = id).

Definition next_legacy_cooldown (c : PeerCoolingState) : Z :=
  let previous := match suppressed_until c with Some _ => cooldown c | None => 0 end in
  if decide (previous = 0) then PEER_SUPPRESSION_COOLDOWN
  else match checked_mul previous 2 with
       | Some d => Z.min d PEER_SUPPRESSION_BACKOFF_MAX
       | None => PEER_SUPPRESSION_BACKOFF_MAX
       end.

(** The cooldown of a new suppression: adaptive when a configuration is
    given; a Dead peer escalates. *)
Definition new_cooldown (c : PeerCoolingState) (config : option AdaptiveCoolingConfig) (dead : bool) : Z :=
  match config with
  | None => next_legacy_cooldown c
  | Some cfg => if dead then escalate_on_dead cfg (cooldown c) else next_cooldown cfg (cooldown c)
  end.

(** The fields that every suppression sets. *)
Definition suppress (c : PeerCoolingState) (now cd recent : Z) : PeerCoolingState :=
  mkCool now 0 (Some (now + cd)) cd (Some now) recent false None (last_bypass_probe_at c).

(** ** The mesh *)

(** A sender half: whether the receiver is gone, and what was sent. *)
Record Sender (A : Type) := mkSender { closed : bool; sent : list A }.
Arguments mkSender {A} closed sent.
Arguments closed {A} s.
Arguments sent {A} s.

Record SubscriptionMessage := mkSubMessage {
  sm_from : PeerId;
  sm_payload : list Z;
  sm_msg_id : option (list Z);
}.

Inductive LocalSubscriber :=
| BytesOnly (tx : Sender (PeerId * list Z))
| WithMeta (tx : Sender SubscriptionMessage).

Definition is_closed (s : LocalSubscriber) : bool :=
  match s with BytesOnly tx => closed tx | WithMeta tx => closed tx end.

(** [send] and whether it succeeded. *)
Definition subscriber_send (s : LocalSubscriber) (from : PeerId) (p : list Z) (id : option (list Z)) : LocalSubscriber * bool :=
  match s with
  | BytesOnly tx =>
      if closed tx then (s, false) else (BytesOnly (mkSender (closed tx) (sent tx ++ [(from, p)])), true)
  | WithMeta tx =>
      if closed tx then (s, false) else (WithMeta (mkSender (closed tx) (sent tx ++ [mkSubMessage from p id])), true)
  end.

Record TopicMesh := mkMesh {
  eager_peers : gset PeerId;
  lazy_peers : gset PeerId;
  preferred_eager_peers : list PeerId;
  configured_max_eager_degree : nat;
  max_eager_degree : nat;
  peer_scores : gmap PeerId Score.PeerScore;
  peer_cooling : gmap PeerId PeerCoolingState;
  last_opportunistic_graft : option Z;
  subscribers : list LocalSubscriber;
}.

Definition set_peers (m : TopicMesh) (e l : gset PeerId) : TopicMesh :=
  mkMesh e l (preferred_eager_peers m) (configured_max_eager_degree m) (max_eager_degree m)
    (peer_scores m) (peer_cooling m) (last_opportunistic_graft m) (subscribers m).
Definition set_scores (m : TopicMesh) (s : gmap PeerId Score.PeerScore) : TopicMesh :=
  mkMesh (eager_peers m) (lazy_peers m) (preferred_eager_peers m) (configured_max_eager_degree m) (max_eager_degree m)
    s (peer_cooling m) (last_opportunistic_graft m) (subscribers m).
Definition set_cooling (m : TopicMesh) (c : gmap PeerId PeerCoolingState) : TopicMesh :=
  mkMesh (eager_peers m) (lazy_peers m) (preferred_eager_peers m) (configured_max_eager_degree m) (max_eager_degree m)
    (peer_scores m) c (last_opportunistic_graft m) (subscribers m).
Definition set_last_graft (m : TopicMesh) (now : Z) : TopicMesh :=
  mkMesh (eager_peers m) (lazy_peers m) (preferred_eager_peers m) (configured_max_eager_degree m) (max_eager_degree m)
    (peer_scores m) (peer_cooling m) (Some now) (subscribers m).
Definition set_subscribers (m : TopicMesh) (l : list LocalSubscriber) : TopicMesh :=
  mkMesh (eager_peers m) (lazy_peers m) (preferred_eager_peers m) (configured_max_eager_degree m) (max_eager_degree m)
    (peer_scores m) (peer_cooling m) (last_opportunistic_graft m) l.
(** The preferred peers and the configured ceiling; the effective ceiling is
    refreshed ([refresh_preferred_eager_ceiling]). *)
Definition set_preferences (m : TopicMesh) (preferred : list PeerId) (configured : nat) : TopicMesh :=
  mkMesh (eager_peers m) (lazy_peers m) preferred configured (Nat.max configured (length preferred))
    (peer_scores m) (peer_cooling m) (last_opportunistic_graft m) (subscribers m).

(** [with_cache_config], then the instance's ceiling ([new_topic_state]). *)
Definition mesh_new (configured : nat) : TopicMesh :=
  set_preferences (mkMesh ∅ ∅ [] MAX_EAGER_DEGREE MAX_EAGER_DEGREE ∅ ∅ None []) [] configured.

Definition has_live_subscribers (m : TopicMesh) : bool := existsb (λ s, negb (is_closed s)) (subscribers m).

(** Subscribers whose send fails are dropped. *)
Definition deliver_to_local_subscribers (m : TopicMesh) (from : PeerId) (p : list Z) (id : option (list Z)) : TopicMesh :=
  set_subscribers m (omap (λ s, let '(s', ok) := subscriber_send s from p id in if ok then Some s' else None) (subscribers m)).

Section Mesh.
Context `{Libm} `{!SetIter PeerId}.

Definition is_peer_suppressed_at (m : TopicMesh) (peer : PeerId) (now : Z) : bool :=
  match peer_cooling m !! peer with Some c => is_suppressed_at c now | None => false end.

Definition is_peer_cooled_for_admission_at (m : TopicMesh) (peer : PeerId) (now : Z) : bool :=
  is_peer_suppressed_at m peer now &&
  negb match peer_cooling m !! peer with
       | Some c => recovery_probe_due_at c now || cooldown_bypass_due_at c now
       | None => false
       end.

Definition can_graft_peer_at (m : TopicMesh) (peer : PeerId) (now : Z) : bool :=
  match peer_cooling m !! peer with Some c => can_graft_at c now | None => true end.

(** [peer_scores.entry(peer).or_insert_with(new).f()]. *)
Definition update_score (m : TopicMesh) (peer : PeerId) (now : Z) (f : Score.PeerScore → Score.PeerScore) : TopicMesh :=
  set_scores m (<[peer := f (default (Score.new_at now) (peer_scores m !! peer))]> (peer_scores m)).

Definition peer_score_at (m : TopicMesh) (peer : PeerId) (now : Z) : f64 :=
  Score.score_at (default (Score.new_at now) (peer_scores m !! peer)) now.

Definition is_score_eligible_for_eager_at (m : TopicMesh) (peer : PeerId) (now : Z) : bool :=
  can_graft_peer_at m peer now && leb Score.PEER_SCORE_EAGER_MIN (peer_score_at m peer now).

Definition is_healthy_preferred_at (m : TopicMesh) (peer : PeerId) (now : Z) : bool :=
  bool_decide (peer ∈ preferred_eager_peers m) && is_score_eligible_for_eager_at m peer now.

(** Best first. *)
Definition scored_lazy_peers_at (m : TopicMesh) (now : Z) : list (PeerId * f64) :=
  sort_by (λ a b, total_cmp b.2 a.2)
    ((λ p, (p, peer_score_at m p now)) <$> filter (λ p, can_graft_peer_at m p now = true) (siter (lazy_peers m))).
(** Worst first. *)
Definition scored_eager_peers_at (m : TopicMesh) (now : Z) : list (PeerId * f64) :=
  sort_by (λ a b, total_cmp a.2 b.2) ((λ p, (p, peer_score_at m p now)) <$> siter (eager_peers m)).

Definition prune_peer (m : TopicMesh) (peer : PeerId) : TopicMesh * bool :=
  if decide (peer ∈ eager_peers m)
  then (set_peers m (eager_peers m ∖ {[peer]}) ({[peer]} ∪ lazy_peers m), true)
  else (m, false).

Definition graft_peer_at (m : TopicMesh) (peer : PeerId) (now : Z) : TopicMesh * bool :=
  if decide (max_eager_degree m <= size (eager_peers m))%nat then (m, false)
  else if negb (can_graft_peer_at m peer now) then (m, false)
  else if decide (peer ∈ lazy_peers m)
  then (set_peers m ({[peer]} ∪ eager_peers m) (lazy_peers m ∖ {[peer]}), true)
  else (m, false).

Definition add_new_peer_lazy (m : TopicMesh) (peer : PeerId) : TopicMesh * bool :=
  if decide (peer ∈ eager_peers m ∨ peer ∈ lazy_peers m) then (m, false)
  else (set_peers m (eager_peers m) ({[peer]} ∪ lazy_peers m), true).

(** *** Maintenance *)

(** Peers pruned and grafted so far. *)
Notation counts := (nat * nat)%type.

(** The worst eager peer that is not a healthy preferred one. *)
Definition displaceable (m : TopicMesh) (now : Z) : option PeerId :=
  fst <$> head (filter (λ x, is_healthy_preferred_at m x.1 now = false) (scored_eager_peers_at m now)).

(** [prefer_eager_peer_at]; [maintain] is the call of [maintain_degree_at] in
    its last branch, which [None] leaves without fuel. *)
Definition prefer_eager_peer_at (maintain : TopicMesh → option (TopicMesh * counts)) (m : TopicMesh) (peer : PeerId) (now : Z) :
    option (TopicMesh * counts) :=
  if decide (peer ∈ eager_peers m) then Some (m, (0, 0)%nat)
  else if decide (peer ∉ lazy_peers m ∨ is_score_eligible_for_eager_at m peer now = false) then Some (m, (0, 0)%nat)
  else
    let graft m pruned :=
      let '(m', grafted) := graft_peer_at m peer now in
      if grafted then Some (m', (pruned, 1%nat))
      else '(m'', (_, restored)) ← maintain m'; Some (m'', (pruned, restored)) in
    if decide (max_eager_degree m <= size (eager_peers m))%nat then
      match displaceable m now with
      | None => Some (m, (0, 0)%nat)
      | Some displaced =>
          let '(m', pruned) := prune_peer m displaced in
          if pruned then graft m' 1%nat else Some (m', (0, 0)%nat)
      end
    else graft m 0%nat.

(** The loop of [apply_preferred_eager_at] over the preferred peers. *)
Fixpoint apply_preferred (maintain : TopicMesh → option (TopicMesh * counts)) (m : TopicMesh) (ps : list PeerId) (now : Z) (n : counts) :
    option (TopicMesh * counts) :=
  match ps with
  | [] => Some (m, n)
  | peer :: ps =>
      if decide (peer ∈ eager_peers m ∧ is_score_eligible_for_eager_at m peer now = false) then
        let '(m', pruned) := prune_peer m peer in
        apply_preferred maintain m' ps now (if pruned then S n.1 else n.1, n.2)
      else
        '(m', (p, g)) ← prefer_eager_peer_at maintain m peer now;
        apply_preferred maintain m' ps now (n.1 + p, n.2 + g)%nat
  end.

(** [for peer in peers { if self.prune_peer(peer) { pruned += 1 } }], and the
    same for grafts. *)
Fixpoint prune_all (m : TopicMesh) (ps : list PeerId) : TopicMesh * nat :=
  match ps with
  | [] => (m, 0%nat)
  | p :: ps => let '(m, b) := prune_peer m p in let '(m, k) := prune_all m ps in (m, if b then S k else k)
  end.
Fixpoint graft_all (m : TopicMesh) (ps : list PeerId) (now : Z) : TopicMesh * nat :=
  match ps with
  | [] => (m, 0%nat)
  | p :: ps => let '(m, b) := graft_peer_at m p now in let '(m, k) := graft_all m ps now in (m, if b then S k else k)
  end.

(** The eager peers to demote above the ceiling: unhealthy or non-preferred
    ones first, worst first. *)
Definition demotions (m : TopicMesh) (now : Z) : list PeerId :=
  let to_demote := (size (eager_peers m) - max_eager_degree m)%nat in
  let first := (take to_demote (filter (λ x, is_healthy_preferred_at m x.1 now = false) (scored_eager_peers_at m now))).*1 in
  if decide (length first < to_demote)%nat
  then first ++ (take (to_demote - length first) (filter (λ x, is_healthy_preferred_at m x.1 now = true) (scored_eager_peers_at m now))).*1
  else first.

(** The lazy peers to promote below the target: non-preferred ones that score
    well, then the others, best first. *)
Definition target_degree (m : TopicMesh) : nat := Nat.min MIN_EAGER_DEGREE (max_eager_degree m).
#[global] Arguments target_degree : simpl never.
Definition promotions (m : TopicMesh) (now : Z) : list PeerId :=
  let to_promote := (target_degree m - size (eager_peers m))%nat in
  let candidates := filter (λ x, x.1 ∉ preferred_eager_peers m) (scored_lazy_peers_at m now) in
  let first := (take to_promote (filter (λ x, leb Score.PEER_SCORE_EAGER_MIN x.2 = true) candidates)).*1 in
  if decide (length first < to_promote)%nat
  then first ++ (take (to_promote - length first) (filter (λ x, ltb x.2 Score.PEER_SCORE_EAGER_MIN = true) candidates)).*1
  else first.

(** The replacement loop of [opportunistic_graft_at] over the two score
    lists. *)
Fixpoint replace_loop (m : TopicMesh) (now : Z) (eager lazy : list (PeerId * f64)) (n : counts) : TopicMesh * counts :=
  if decide (OPPORTUNISTIC_GRAFT_MAX_REPLACEMENTS <= n.2)%nat then (m, n)
  else
    match eager, lazy with
    | (eager_peer, eager_score) :: eager, (lazy_peer, lazy_score) :: lazy =>
        if leb Score.PEER_SCORE_EAGER_MIN eager_score
           || ltb lazy_score (add eager_score OPPORTUNISTIC_GRAFT_MIN_SCORE_DELTA) then (m, n)
        else
          let '(m, pruned) := prune_peer m eager_peer in
          if pruned then
            let '(m, grafted) := graft_peer_at m lazy_peer now in
            replace_loop m now eager lazy (S n.1, if grafted then S n.2 else n.2)
          else replace_loop m now eager lazy n
    | _, _ => (m, n)
    end.

Definition opportunistic_graft_at (m : TopicMesh) (now : Z) : TopicMesh * counts :=
  if decide (size (eager_peers m) < target_degree m ∨ max_eager_degree m < size (eager_peers m) ∨ lazy_peers m = ∅)%nat
  then (m, (0, 0)%nat)
  else if match last_opportunistic_graft m with
          | Some last => bool_decide (elapsed_ns now last < OPPORTUNISTIC_GRAFT_INTERVAL)
          | None => false
          end then (m, (0, 0)%nat)
  else
    let m := set_last_graft m now in
    replace_loop m now
      (filter (λ x, is_healthy_preferred_at m x.1 now = false) (scored_eager_peers_at m now))
      (filter (λ x, leb Score.PEER_SCORE_EAGER_MIN x.2 = true) (scored_lazy_peers_at m now)) (0, 0)%nat.

(** The part of [maintain_degree_at] after the preferences. *)
Definition rebalance (m : TopicMesh) (now : Z) : TopicMesh * counts :=
  let '(m, p) := if decide (max_eager_degree m < size (eager_peers m))%nat then prune_all m (demotions m now) else (m, 0%nat) in
  let '(m, g) :=
    if decide (size (eager_peers m) < target_degree m ∧ lazy_peers m ≠ ∅)%nat
    then graft_all m (promotions m now) now else (m, 0%nat) in
  let '(m, (p', g')) := opportunistic_graft_at m now in
  (m, (p + p', g + g')%nat).

Fixpoint maintain_degree_fuel (fuel : nat) (m : TopicMesh) (now : Z) : option (TopicMesh * counts) :=
  match fuel with
  | O => None
  | S fuel =>
      '(m, (p, g)) ← apply_preferred (λ m, maintain_degree_fuel fuel m now) m (preferred_eager_peers m) now (0, 0)%nat;
      let '(m, (p', g')) := rebalance m now in
      Some (m, (p + p', g + g')%nat)
  end.

(** Each nested call has one eager peer less. *)
Definition maintain_degree_at (m : TopicMesh) (now : Z) : option (TopicMesh * counts) :=
  maintain_degree_fuel (S (size (eager_peers m))) m now.

(** *** Send outcomes *)

Definition update_cooling (m : TopicMesh) (peer : PeerId) (f : PeerCoolingState → PeerCoolingState) : TopicMesh :=
  set_cooling m (alter f peer (peer_cooling m)).

Definition claim_send_attempt_at_for (m : TopicMesh) (next_id : Z) (peer : PeerId) (now : Z) (critical_data : bool) :
    TopicMesh * Z * option (PeerSendAttempt * option PeerRecoveryProbeEvent) :=
  match peer_cooling m !! peer with
  | None => (m, next_id, Some (mkAttempt peer SendAttemptKind.Normal None, None))
  | Some c =>
      let '(c', next_id, claimed) := claim_at c next_id now critical_data in
      (set_cooling m (<[peer := c']> (peer_cooling m)), next_id,
       '(kind, id, event) ← claimed; Some (mkAttempt peer kind id, event))
  end.

Definition confirm_cooldown_bypass_claim (m : TopicMesh) (peer : PeerId) (now : Z) : TopicMesh :=
  update_cooling m peer (λ c, note_cooldown_bypass_claimed_at c now).

Definition abandon_unsent_recovery_probe (m : TopicMesh) (peer : PeerId) (id : option Z) : TopicMesh :=
  update_cooling m peer (λ c, if matches_recovery_probe c id then set_probe c None else c).

(** One peer of [claim_topic_send_attempts_for_state]: [connected] is the
    transport's view ([None]: unknown), [granted] whether the outbound budget
    gives a permit. *)
Definition claim_one (m : TopicMesh) (next_id : Z) (peer : PeerId) (now : Z) (critical_data : bool)
    (connected : option bool) (granted : bool) : TopicMesh * Z * option PeerSendAttempt :=
  if decide (connected = Some false) then (m, next_id, None)
  else
    match claim_send_attempt_at_for m next_id peer now critical_data with
    | (m, next_id, None) => (m, next_id, None)
    | (m, next_id, Some (attempt, _)) =>
        if negb granted then
          (if decide (at_kind attempt = SendAttemptKind.RecoveryProbe)
           then abandon_unsent_recovery_probe m peer (at_probe_id attempt) else m, next_id, None)
        else
          let m := if decide (at_kind attempt = SendAttemptKind.RecoveryProbe)
                   then update_score m peer now (λ s, Score.record_recovery_probe_at s now) else m in
          let m := if decide (at_kind attempt = SendAttemptKind.CooldownBypass)
                   then confirm_cooldown_bypass_claim m peer now else m in
          (m, next_id, Some attempt)
    end.

(** The decay of a success; [None] is a panic. *)
Definition decay_success (cfg : AdaptiveCoolingConfig) (c : PeerCoolingState) (now : Z) : option Z :=
  match last_suppressed_at c with
  | Some at_ => decay_on_success cfg (cooldown c) (elapsed_ns now at_)
  | None => Some (cooldown c)
  end.

Definition record_send_success_with_context_at (m : TopicMesh) (a : PeerSendAttempt) (now : Z) (cfg : AdaptiveCoolingConfig) :
    option (TopicMesh * bool) :=
  let m := update_score m (at_peer a) now (λ s, Score.record_outbound_send_success_at s now (at_kind a)) in
  let put c := set_cooling m (<[at_peer a := c]> (peer_cooling m)) in
  match peer_cooling m !! at_peer a with
  | None => Some (m, false)
  | Some c =>
      match at_kind a with
      | SendAttemptKind.RecoveryProbe =>
          if negb (matches_recovery_probe c (at_probe_id a)) then Some (m, false)
          else
            cd ← decay_success cfg c now;
            Some (put (mkCool now 0 None cd (last_suppressed_at c) 0 false None (last_bypass_probe_at c)), true)
      | SendAttemptKind.CooldownBypass =>
          cd ← decay_success cfg c now;
          Some (put (mkCool (timeout_window_started c) (timeout_count c) (suppressed_until c) cd (last_suppressed_at c)
            (last_suppression_timeout_count c) (recovery_probe_in_flight c) (recovery_probe_id c) (last_bypass_probe_at c)), false)
      | SendAttemptKind.Normal =>
          if is_suppressed_at c now then Some (m, false)
          else
            cd ← decay_success cfg c now;
            Some (put (mkCool now 0 (suppressed_until c) cd (last_suppressed_at c)
              (last_suppression_timeout_count c) (recovery_probe_in_flight c) (recovery_probe_id c) (last_bypass_probe_at c)), false)
      end
  end.

(** The cooling floor. *)
Definition eligible_eager (m : TopicMesh) (now : Z) : gset PeerId :=
  filter (λ p, is_peer_suppressed_at m p now = false) (eager_peers m).
Definition eligible_eager_after_suppressing_at (m : TopicMesh) (peer : PeerId) (now : Z) : option nat :=
  if decide (has_live_subscribers m = false ∨ peer ∉ eager_peers m) then None
  else Some (size (eligible_eager m now ∖ {[peer]})).
Definition has_graft_eligible_lazy_peer_at (m : TopicMesh) (now : Z) : bool :=
  bool_decide (set_Exists (λ p, can_graft_peer_at m p now = true) (lazy_peers m)).
Definition cooling_floor_blocks_at (m : TopicMesh) (peer : PeerId) (now : Z) : bool :=
  match eligible_eager_after_suppressing_at m peer now with
  | None => false
  | Some after =>
      if decide (after = 0%nat) then true
      else if has_graft_eligible_lazy_peer_at m now then false
      else bool_decide ((after + 1)%nat = target_degree m)
  end.
Definition cooling_floor_last_peer_blocks_at (m : TopicMesh) (peer : PeerId) (now : Z) : bool :=
  bool_decide (eligible_eager_after_suppressing_at m peer now = Some 0%nat).

(** The cooling state after one more timeout in the window. *)
Definition count_timeout (c : PeerCoolingState) (now : Z) : PeerCoolingState :=
  let fresh := bool_decide (elapsed_ns now (timeout_window_started c) > PEER_TIMEOUT_WINDOW) in
  mkCool (if fresh then now else timeout_window_started c)
    (u64_sat_add (if fresh then 0 else timeout_count c) 1)
    (suppressed_until c) (cooldown c) (last_suppressed_at c) (last_suppression_timeout_count c)
    (recovery_probe_in_flight c) (recovery_probe_id c) (last_bypass_probe_at c).

Definition set_window (c : PeerCoolingState) (started count : Z) : PeerCoolingState :=
  mkCool started count (suppressed_until c) (cooldown c) (last_suppressed_at c) (last_suppression_timeout_count c)
    (recovery_probe_in_flight c) (recovery_probe_id c) (last_bypass_probe_at c).

(** A suppression: the new cooling state, the score events and the demotion
    of the peer. *)
Definition book_suppression (m : TopicMesh) (a : PeerSendAttempt) (c : PeerCoolingState) (now cd recent : Z) : TopicMesh * PeerTimeoutOutcome :=
  let m := set_cooling m (<[at_peer a := suppress c now cd recent]> (peer_cooling m)) in
  let m := if decide (at_kind a = SendAttemptKind.RecoveryProbe)
           then update_score m (at_peer a) now (λ s, Score.record_outbound_send_timeout_at s now) else m in
  let m := update_score m (at_peer a) now (λ s, Score.record_cooling_event_at s now) in
  let '(m, demoted) := prune_peer m (at_peer a) in
  (m, mkOutcome (Some (mkSuppression (now + cd) recent cd demoted)) false).

Definition record_send_timeout_inner_at (m : TopicMesh) (a : PeerSendAttempt) (now : Z)
    (config : option AdaptiveCoolingConfig) (health : option PeerHealth) : TopicMesh * PeerTimeoutOutcome :=
  let peer := at_peer a in
  let put m c := set_cooling m (<[peer := c]> (peer_cooling m)) in
  match at_kind a with
  | SendAttemptKind.CooldownBypass => (m, outcome_default)
  | SendAttemptKind.RecoveryProbe =>
      match peer_cooling m !! peer with
      | None => (m, outcome_default)
      | Some c =>
          if negb (matches_recovery_probe c (at_probe_id a)) then (m, outcome_default)
          else book_suppression m a c now (new_cooldown c config false) 1
      end
  | SendAttemptKind.Normal =>
      let m := update_score m peer now (λ s, Score.record_outbound_send_timeout_at s now) in
      let floor_blocks := cooling_floor_blocks_at m peer now in
      let dead_floor_blocks := cooling_floor_last_peer_blocks_at m peer now in
      let c := default (cooling_new now) (peer_cooling m !! peer) in
      if is_suppressed_at c now then (put m c, outcome_default)
      else
        let c := count_timeout c now in
        if bool_decide (health = Some HealthDead) && negb dead_floor_blocks then
          book_suppression m a c now (new_cooldown c config true) (Z.max (timeout_count c) 1)
        else if bool_decide (timeout_count c >= PEER_TIMEOUT_THRESHOLD) && bool_decide (health = Some HealthSuspect) then
          (put m (set_window c now (sat_sub PEER_TIMEOUT_THRESHOLD 1)), mkOutcome None true)
        else if bool_decide (timeout_count c < PEER_TIMEOUT_THRESHOLD) || floor_blocks then (put m c, outcome_default)
        else book_suppression m a c now (new_cooldown c config false) (timeout_count c)
  end.

(** *** Membership *)

Record NotConnectedEviction := mkEviction { evicted_eager : bool; evicted_lazy : bool; evicted_cooling : bool }.

(** [evict_not_connected_peer], on these fields. *)
Definition evict_not_connected_peer (m : TopicMesh) (peer : PeerId) : TopicMesh * NotConnectedEviction :=
  (set_cooling (set_peers m (eager_peers m ∖ {[peer]}) (lazy_peers m ∖ {[peer]})) (delete peer (peer_cooling m)),
   mkEviction (bool_decide (peer ∈ eager_peers m)) (bool_decide (peer ∈ lazy_peers m))
     (bool_decide (is_Some (peer_cooling m !! peer)))).

(** [clear_disconnected_peer_cooling]. *)
Definition clear_disconnected_peer_cooling (m : TopicMesh) (connected : gset PeerId) : TopicMesh :=
  set_cooling m (filter (λ pc, pc.1 ∈ connected) (peer_cooling m)).

Definition record_inbound_peer_activity_at (m : TopicMesh) (peer : PeerId) (now : Z) : TopicMesh * bool :=
  let m := update_score m peer now (λ s, Score.record_seen_at s now) in
  (set_cooling m (delete peer (peer_cooling m)), bool_decide (is_Some (peer_cooling m !! peer))).

Definition is_member (m : TopicMesh) (peer : PeerId) : Prop := peer ∈ eager_peers m ∨ peer ∈ lazy_peers m.
#[global] Instance is_member_dec m peer : Decision (is_member m peer).
Proof. unfold is_member. apply _. Defined.

Definition prune_churned_peer_state (m : TopicMesh) (now : Z) : TopicMesh :=
  let m := set_scores m (filter (λ ps, is_member m ps.1) (peer_scores m)) in
  set_cooling m (filter (λ pc, is_member m pc.1 ∨ suppressed_after pc.2 now = true ∨ recovery_probe_in_flight pc.2 = true)
    (peer_cooling m)).

(** One topic of [clean_expired_peer_cooling]. *)
Definition clean_expired_cooling (m : TopicMesh) (now : Z) : TopicMesh :=
  set_cooling m (filter (λ pc, is_member m pc.1 ∨ ¬ (suppression_expired_at pc.2 now = true ∧ recovery_probe_in_flight pc.2 = false))
    (peer_cooling m)).

(** The remaining suppression and score by which a rescue chooses. *)
Definition remaining (m : TopicMesh) (peer : PeerId) (now : Z) : Z :=
  default 0 (u ← peer_cooling m !! peer ≫= suppressed_until; Some (elapsed_ns u now)).
Definition rescue_lt (m : TopicMesh) (now : Z) (a b : PeerId) : bool :=
  match Z.compare (remaining m a now) (remaining m b now) with
  | Lt => true
  | Gt => false
  | Eq => match total_cmp (peer_score_at m b now) (peer_score_at m a now) with Lt => true | _ => false end
  end.

Definition rescue_suppressed_eager_peer_if_needed_at (m : TopicMesh) (now : Z) : TopicMesh * option PeerId :=
  if negb (has_live_subscribers m) then (m, None)
  else if decide (set_Exists (λ p, is_peer_suppressed_at m p now = false) (eager_peers m)) then (m, None)
  else
    match min_by (rescue_lt m now)
            (filter (λ p, is_peer_suppressed_at m p now = true) (siter (eager_peers m) ++ siter (lazy_peers m))) with
    | None => (m, None)
    | Some best =>
        let m := update_cooling m best (λ c,
          mkCool (timeout_window_started c) (timeout_count c) None (cooldown c) (last_suppressed_at c)
            (last_suppression_timeout_count c) false None (last_bypass_probe_at c)) in
        if decide (best ∈ lazy_peers m) then
          let m :=
            if decide (max_eager_degree m <= size (eager_peers m))%nat then
              match displaceable m now with Some worst => (prune_peer m worst).1 | None => m end
            else m in
          ((graft_peer_at m best now).1, Some best)
        else (m, Some best)
    end.

(** [set_topic_peers_with_preferred_eager], on these fields: membership,
    preference, maintenance.  New peers start lazy. *)
Definition set_connected (m : TopicMesh) (connected : gset PeerId) : TopicMesh :=
  let m := set_peers m (eager_peers m ∩ connected) (lazy_peers m ∩ connected) in
  let m := clear_disconnected_peer_cooling m connected in
  foldl (λ m p, (add_new_peer_lazy m p).1) m (siter connected).
Definition set_topic_peers_with_preferred_eager (m : TopicMesh) (connected : gset PeerId) (preferred : option PeerId) (now : Z) :
    option (TopicMesh * counts * bool) :=
  let m := set_connected m connected in
  let m := match preferred with Some p => set_preferences m [p] (configured_max_eager_degree m) | None => m end in
  '(m, n) ← maintain_degree_at m now;
  Some (m, n, match preferred with Some p => bool_decide (p ∈ eager_peers m) | None => true end).

(** [initialize_topic_peers]. *)
Definition initialize_topic_peers (m : TopicMesh) (peers : list PeerId) (now : Z) : option (TopicMesh * counts) :=
  maintain_degree_at (foldl (λ m p, (add_new_peer_lazy m p).1) m peers) now.

(** [set_topic_preferred_eager_set]: at most eight distinct peers, in the
    caller's order. *)
Fixpoint retained_preferences (acc : list PeerId) (peers : list PeerId) : list PeerId :=
  match peers with
  | [] => acc
  | p :: peers =>
      if decide (MAX_PREFERRED_EAGER_PEERS <= length acc)%nat then acc
      else retained_preferences (if decide (p ∈ acc) then acc else acc ++ [p]) peers
  end.
Definition set_topic_preferred_eager_set (m : TopicMesh) (peers : list PeerId) (now : Z) : option (TopicMesh * counts * nat) :=
  let m := set_preferences m (retained_preferences [] peers) (configured_max_eager_degree m) in
  '(m, n) ← maintain_degree_at m now;
  Some (m, n, length (preferred_eager_peers m)).

(** One topic of [set_eager_degree_ceiling]. *)
Definition set_eager_degree_ceiling (m : TopicMesh) (degree : nat) (now : Z) : option (TopicMesh * counts) :=
  let maximum := if decide (degree = 0%nat) then MAX_EAGER_DEGREE else degree in
  maintain_degree_at (set_preferences m (preferred_eager_peers m) maximum) now.

(** ** Membership moves *)

(** Suppression does not depend on the clock: it ends with a recovery. *)
Lemma is_suppressed_eq (c : PeerCoolingState) (now : Z) :
  is_suppressed_at c now = bool_decide (is_Some (suppressed_until c)) || recovery_probe_in_flight c.
Proof.
  unfold is_suppressed_at, suppressed_after, suppression_expired_at.
  destruct (suppressed_until c) as [u|]; cbn; [|by rewrite orb_false_r].
  destruct (decide (u > now)).
  - rewrite bool_decide_true by done. done.
  - rewrite (bool_decide_true (u <= now)) by lia. by rewrite orb_true_r.
Qed.

Lemma can_graft_suppressed (m : TopicMesh) (p : PeerId) (now : Z) :
  can_graft_peer_at m p now = negb (is_peer_suppressed_at m p now).
Proof. unfold can_graft_peer_at, is_peer_suppressed_at, can_graft_at. by destruct (peer_cooling m !! p). Qed.

(** Eager and lazy are disjoint, and the ceiling fits the preferred peers. *)
Record wf (m : TopicMesh) : Prop := {
  wf_disjoint : eager_peers m ## lazy_peers m;
  wf_ceiling : (length (preferred_eager_peers m) <= max_eager_degree m)%nat;
}.

(** [m'] has the same members and configuration as [m]; peers that became
    eager are not cooling; the eager set grows at most to the ceiling, and
    loses no healthy preferred peer. *)
Record moves (now : Z) (m m' : TopicMesh) : Prop := {
  mv_members : eager_peers m' ∪ lazy_peers m' = eager_peers m ∪ lazy_peers m;
  mv_disjoint : eager_peers m ## lazy_peers m → eager_peers m' ## lazy_peers m';
  mv_preferred : preferred_eager_peers m' = preferred_eager_peers m;
  mv_configured : configured_max_eager_degree m' = configured_max_eager_degree m;
  mv_max : max_eager_degree m' = max_eager_degree m;
  mv_scores : peer_scores m' = peer_scores m;
  mv_cooling : peer_cooling m' = peer_cooling m;
  mv_subscribers : subscribers m' = subscribers m;
  mv_new p : p ∈ eager_peers m' → p ∈ eager_peers m ∨ can_graft_peer_at m p now = true;
  mv_size : (size (eager_peers m') <= Nat.max (size (eager_peers m)) (max_eager_degree m))%nat;
  mv_protects p : is_healthy_preferred_at m p now = true → p ∈ eager_peers m → p ∈ eager_peers m';
}.

(** What the peers' eligibility depends on. *)
Lemma mv_graft (now : Z) (m m' : TopicMesh) (p : PeerId) :
  moves now m m' → can_graft_peer_at m' p now = can_graft_peer_at m p now.
Proof. intros Hm. unfold can_graft_peer_at. by rewrite (mv_cooling _ _ _ Hm). Qed.
Lemma mv_eligible (now : Z) (m m' : TopicMesh) (p : PeerId) :
  moves now m m' → is_score_eligible_for_eager_at m' p now = is_score_eligible_for_eager_at m p now.
Proof.
  intros Hm. unfold is_score_eligible_for_eager_at, peer_score_at. rewrite (mv_graft now m m') by done.
  by rewrite (mv_scores _ _ _ Hm).
Qed.
Lemma mv_healthy (now : Z) (m m' : TopicMesh) (p : PeerId) :
  moves now m m' → is_healthy_preferred_at m' p now = is_healthy_preferred_at m p now.
Proof.
  intros Hm. unfold is_healthy_preferred_at. by rewrite (mv_eligible now m m'), (mv_preferred _ _ _ Hm) by done.
Qed.

Lemma moves_refl (now : Z) (m : TopicMesh) : moves now m m.
Proof. constructor; auto; lia. Qed.

Lemma moves_trans (now : Z) (m1 m2 m3 : TopicMesh) : moves now m1 m2 → moves now m2 m3 → moves now m1 m3.
Proof.
  intros H1 H2. constructor; try (etrans; [eapply H2|eapply H1]).
  - intros ?. by apply H2, H1.
  - intros p Hp. apply (mv_new _ _ _ H2) in Hp as [Hp|Hp]; [by apply (mv_new _ _ _ H1)|].
    right. by rewrite <-(mv_graft now m1 m2).
  - pose proof (mv_size _ _ _ H1). pose proof (mv_size _ _ _ H2). rewrite (mv_max _ _ _ H1) in *. lia.
  - intros p Hp Hin. apply (mv_protects _ _ _ H2); [by rewrite (mv_healthy now m1 m2)|]. by apply (mv_protects _ _ _ H1).
Qed.

Lemma moves_wf (now : Z) (m m' : TopicMesh) : moves now m m' → wf m → wf m'.
Proof. intros Hm [Hd Hc]. constructor; [by apply Hm|]. by rewrite (mv_preferred _ _ _ Hm), (mv_max _ _ _ Hm). Qed.

Lemma moves_set_last_graft (now : Z) (m : TopicMesh) : moves now m (set_last_graft m now).
Proof. constructor; try done; auto; cbn; lia. Qed.

(** Demoting the peers of [ps]. *)
Lemma moves_demote (now : Z) (m : TopicMesh) (X : gset PeerId) :
  X ⊆ eager_peers m → (∀ p, p ∈ X → is_healthy_preferred_at m p now = false) →
  moves now m (set_peers m (eager_peers m ∖ X) (X ∪ lazy_peers m)).
Proof.
  intros HX Hh. constructor; try done; cbn.
  - set_by_cases X (eager_peers m).
  - set_solver.
  - set_solver.
  - assert (size (eager_peers m ∖ X) <= size (eager_peers m))%nat by (apply subseteq_size; set_solver). lia.
  - intros p Hp Hin. apply elem_of_difference. split; [done|]. intros HpX. specialize (Hh p HpX). congruence.
Qed.

(** Promoting the peers of [X]. *)
Lemma moves_promote (now : Z) (m : TopicMesh) (X : gset PeerId) :
  X ⊆ lazy_peers m → (∀ p, p ∈ X → can_graft_peer_at m p now = true) →
  (size (X ∪ eager_peers m) <= max_eager_degree m)%nat →
  moves now m (set_peers m (X ∪ eager_peers m) (lazy_peers m ∖ X)).
Proof.
  intros HX Hg Hs. constructor; try done; cbn.
  - set_by_cases X (lazy_peers m).
  - set_solver.
  - intros p [?|?]%elem_of_union; auto.
  - lia.
  - set_solver.
Qed.

Lemma prune_peer_eq (m : TopicMesh) (p : PeerId) :
  p ∈ eager_peers m → prune_peer m p = (set_peers m (eager_peers m ∖ {[p]}) ({[p]} ∪ lazy_peers m), true).
Proof. intros Hp. unfold prune_peer. by rewrite decide_True. Qed.

Lemma graft_peer_eq (m : TopicMesh) (p : PeerId) (now : Z) :
  p ∈ lazy_peers m → can_graft_peer_at m p now = true → (size (eager_peers m) < max_eager_degree m)%nat →
  graft_peer_at m p now = (set_peers m ({[p]} ∪ eager_peers m) (lazy_peers m ∖ {[p]}), true).
Proof. intros Hp Hg Hs. unfold graft_peer_at. rewrite decide_False, Hg, decide_True by (done || lia). done. Qed.

Lemma set_peers_set_peers (m : TopicMesh) (e l e' l' : gset PeerId) : set_peers (set_peers m e l) e' l' = set_peers m e' l'.
Proof. done. Qed.
Lemma set_peers_id (m : TopicMesh) : set_peers m (eager_peers m) (lazy_peers m) = m.
Proof. by destruct m. Qed.

Lemma size_difference_singleton (X : gset PeerId) (p : PeerId) : p ∈ X → size X = S (size (X ∖ {[p]})).
Proof.
  intros Hp. rewrite size_difference, size_singleton by set_solver.
  assert (size ({[p]} : gset PeerId) <= size X)%nat as Hle by (apply subseteq_size; set_solver). rewrite size_singleton in Hle. lia.
Qed.

Lemma prune_all_eq (ps : list PeerId) (m : TopicMesh) :
  NoDup ps → (∀ p, p ∈ ps → p ∈ eager_peers m) →
  prune_all m ps = (set_peers m (eager_peers m ∖ list_to_set ps) (list_to_set ps ∪ lazy_peers m), length ps).
Proof.
  revert m. induction ps as [|p ps IH]; intros m Hnd Hin; cbn.
  - rewrite difference_empty_L, union_empty_l_L. by rewrite set_peers_id.
  - apply NoDup_cons in Hnd as [Hp Hnd]. rewrite prune_peer_eq by (apply Hin; by left).
    rewrite IH; [|done|].
    + cbn. rewrite set_peers_set_peers. do 2 f_equal; set_solver.
    + intros q Hq. cbn. apply elem_of_difference. split; [apply Hin; by right|]. set_solver.
Qed.

Lemma graft_all_eq (ps : list PeerId) (m : TopicMesh) (now : Z) :
  NoDup ps → (∀ p, p ∈ ps → p ∈ lazy_peers m ∧ can_graft_peer_at m p now = true) → eager_peers m ## lazy_peers m →
  (size (eager_peers m) + length ps <= max_eager_degree m)%nat →
  graft_all m ps now = (set_peers m (list_to_set ps ∪ eager_peers m) (lazy_peers m ∖ list_to_set ps), length ps).
Proof.
  revert m. induction ps as [|p ps IH]; intros m Hnd Hin Hd Hs; cbn.
  - rewrite difference_empty_L, union_empty_l_L. by rewrite set_peers_id.
  - apply NoDup_cons in Hnd as [Hp Hnd]. destruct (Hin p) as [Hpl Hpg]; [by left|]. cbn in Hs.
    rewrite graft_peer_eq by (done || lia). rewrite IH; [|done| | |].
    + cbn. rewrite set_peers_set_peers. do 2 f_equal; set_solver.
    + intros q Hq. cbn. destruct (Hin q) as [Hql Hqg]; [by right|]. split; [set_solver|done].
    + cbn. set_solver.
    + cbn. rewrite size_union, size_singleton by set_solver. lia.
Qed.

(** ** Score lists *)

Lemma elem_of_scored_eager (m : TopicMesh) (now : Z) (x : PeerId * f64) :
  x ∈ scored_eager_peers_at m now ↔ x.1 ∈ eager_peers m ∧ x.2 = peer_score_at m x.1 now.
Proof.
  unfold scored_eager_peers_at. rewrite sort_by_perm, list_elem_of_fmap. setoid_rewrite elem_of_siter. split.
  - by intros (p & -> & Hp).
  - destruct x as [p f]. cbn. intros [Hp ->]. eauto.
Qed.

Lemma elem_of_scored_lazy (m : TopicMesh) (now : Z) (x : PeerId * f64) :
  x ∈ scored_lazy_peers_at m now ↔
  x.1 ∈ lazy_peers m ∧ can_graft_peer_at m x.1 now = true ∧ x.2 = peer_score_at m x.1 now.
Proof.
  unfold scored_lazy_peers_at. rewrite sort_by_perm, list_elem_of_fmap. setoid_rewrite list_elem_of_filter.
  setoid_rewrite elem_of_siter. split.
  - by intros (p & -> & Hp & Hg).
  - destruct x as [p f]. cbn. intros (Hp & Hg & ->). eauto.
Qed.

Lemma NoDup_scored_eager (m : TopicMesh) (now : Z) : NoDup (scored_eager_peers_at m now).*1.
Proof.
  unfold scored_eager_peers_at. rewrite (fmap_Permutation fst _ _ (sort_by_perm _ _)).
  rewrite <-list_fmap_compose. cbn. rewrite list_fmap_id. apply siter_NoDup.
Qed.

Lemma NoDup_scored_lazy (m : TopicMesh) (now : Z) : NoDup (scored_lazy_peers_at m now).*1.
Proof.
  unfold scored_lazy_peers_at. rewrite (fmap_Permutation fst _ _ (sort_by_perm _ _)).
  rewrite <-list_fmap_compose. cbn. rewrite list_fmap_id. apply NoDup_filter, siter_NoDup.
Qed.

Lemma length_scored_eager (m : TopicMesh) (now : Z) : length (scored_eager_peers_at m now) = size (eager_peers m).
Proof. unfold scored_eager_peers_at. by rewrite sort_by_perm, length_fmap, siter_length. Qed.

Lemma NoDup_fst_filter (P : PeerId * f64 → Prop) `{!∀ x, Decision (P x)} (l : list (PeerId * f64)) :
  NoDup l.*1 → NoDup (filter P l).*1.
Proof. intros Hnd. eapply sublist_NoDup; [exact Hnd|]. apply fmap_sublist, sublist_filter. Qed.

Lemma NoDup_fst_take (n : nat) (l : list (PeerId * f64)) : NoDup l.*1 → NoDup (take n l).*1.
Proof. intros Hnd. eapply sublist_NoDup; [exact Hnd|]. apply fmap_sublist, sublist_take. Qed.

Lemma length_filter_split {A} (f : A → bool) (l : list A) :
  (length (filter (λ x, f x = true) l) + length (filter (λ x, f x = false) l))%nat = length l.
Proof.
  induction l as [|x l IH]; [done|]. destruct (f x) eqn:E.
  - rewrite filter_cons_True, (filter_cons_False (λ x, f x = false)) by congruence. cbn. lia.
  - rewrite filter_cons_False, (filter_cons_True (λ x, f x = false)) by congruence. cbn. lia.
Qed.

(** There are at most as many healthy preferred eager peers as preferences. *)
Lemma healthy_count (m : TopicMesh) (now : Z) :
  (length (filter (λ x, is_healthy_preferred_at m x.1 now = true) (scored_eager_peers_at m now))
    <= length (preferred_eager_peers m))%nat.
Proof.
  rewrite <-(length_fmap fst). apply submseteq_length, NoDup_submseteq.
  - apply NoDup_fst_filter, NoDup_scored_eager.
  - intros p ([q f] & -> & [Hh _]%list_elem_of_filter)%list_elem_of_fmap. cbn in *.
    unfold is_healthy_preferred_at in Hh. apply andb_true_iff in Hh as [Hh _]. by apply bool_decide_eq_true in Hh.
Qed.

(** Above the ceiling, or at it with a healthy preferred peer left out, some
    eager peer may be displaced. *)
Lemma displaceable_Some (m : TopicMesh) (now : Z) (p : PeerId) :
  displaceable m now = Some p → p ∈ eager_peers m ∧ is_healthy_preferred_at m p now = false.
Proof.
  unfold displaceable. destruct (filter _ _) as [|x l] eqn:E; [done|]. cbn. intros [= <-].
  assert (x ∈ filter (λ x, is_healthy_preferred_at m x.1 now = false) (scored_eager_peers_at m now)) as Hx by (rewrite E; by left).
  apply list_elem_of_filter in Hx as [Hh Hx]. apply elem_of_scored_eager in Hx as [Hx _]. done.
Qed.

Lemma displaceable_None (m : TopicMesh) (now : Z) :
  displaceable m now = None → ∀ p, p ∈ eager_peers m → is_healthy_preferred_at m p now = true.
Proof.
  unfold displaceable. destruct (filter _ _) as [|x l] eqn:E; [|done]. intros _ p Hp.
  destruct (is_healthy_preferred_at m p now) eqn:Hh; [done|].
  assert ((p, peer_score_at m p now) ∈ filter (λ x, is_healthy_preferred_at m x.1 now = false) (scored_eager_peers_at m now)) as Hx.
  { apply list_elem_of_filter. split; [done|]. by apply elem_of_scored_eager. }
  rewrite E in Hx. by apply elem_of_nil in Hx.
Qed.

Lemma displaceable_room (m : TopicMesh) (now : Z) (p : PeerId) :
  wf m → p ∉ eager_peers m → is_healthy_preferred_at m p now = true →
  (max_eager_degree m <= size (eager_peers m))%nat → is_Some (displaceable m now).
Proof.
  intros [_ Hc] Hp Hh Hs. destruct (displaceable m now) as [|] eqn:E; [by eexists|].
  pose proof (displaceable_None m now E) as Hall. exfalso.
  enough (size (eager_peers m) < length (preferred_eager_peers m))%nat by lia.
  assert (elements ({[p]} ∪ eager_peers m) ⊆+ preferred_eager_peers m) as Hsub.
  { apply NoDup_submseteq; [apply NoDup_elements|]. intros q Hq. apply elem_of_elements in Hq.
    assert (is_healthy_preferred_at m q now = true) as Hhq.
    { apply elem_of_union in Hq as [->%elem_of_singleton|Hq]; [done|]. by apply Hall. }
    unfold is_healthy_preferred_at in Hhq. apply andb_true_iff in Hhq as [Hhq _]. by apply bool_decide_eq_true in Hhq. }
  apply submseteq_length in Hsub. change (size ({[p]} ∪ eager_peers m) <= length (preferred_eager_peers m))%nat in Hsub.
  rewrite size_union, size_singleton in Hsub by set_solver. lia.
Qed.

(** ** Rebalancing *)

Lemma demotions_spec (m : TopicMesh) (now : Z) :
  wf m → (max_eager_degree m < size (eager_peers m))%nat →
  NoDup (demotions m now) ∧ length (demotions m now) = (size (eager_peers m) - max_eager_degree m)%nat ∧
  ∀ p, p ∈ demotions m now → p ∈ eager_peers m ∧ is_healthy_preferred_at m p now = false.
Proof.
  intros [_ Hc] Hs. unfold demotions. set (n := (size (eager_peers m) - max_eager_degree m)%nat).
  set (bad := filter (λ x, is_healthy_preferred_at m x.1 now = false) (scored_eager_peers_at m now)).
  pose proof (length_filter_split (λ x, is_healthy_preferred_at m x.1 now) (scored_eager_peers_at m now)) as Hl.
  pose proof (healthy_count m now) as Hh. rewrite length_scored_eager in Hl. fold bad in Hl.
  assert (length (take n bad).*1 = n) as Hn by (rewrite length_fmap, length_take; unfold n; lia).
  rewrite decide_False by lia. split; [|split; [done|]].
  - apply NoDup_fst_take, NoDup_fst_filter, NoDup_scored_eager.
  - intros p ([q f] & -> & Hq)%list_elem_of_fmap. apply elem_of_take in Hq as (i & Hq & _).
    apply list_elem_of_lookup_2, list_elem_of_filter in Hq as [Hq1 Hq2]. by apply elem_of_scored_eager in Hq2 as [Hq2 _].
Qed.

(** The peers to promote are lazy, not cooling and fit the target; when they
    do not reach it, no other non-preferred peer could be promoted. *)
Lemma promotions_spec (m : TopicMesh) (now : Z) :
  let n := (target_degree m - size (eager_peers m))%nat in
  NoDup (promotions m now) ∧ (length (promotions m now) <= n)%nat ∧
  (∀ p, p ∈ promotions m now → p ∈ lazy_peers m ∧ can_graft_peer_at m p now = true) ∧
  (length (promotions m now) = n ∨
   ∀ p, p ∈ lazy_peers m → can_graft_peer_at m p now = true → p ∉ preferred_eager_peers m →
     is_nan (peer_score_at m p now) = false → p ∈ promotions m now).
Proof.
  intros n. unfold promotions. fold n.
  set (cand := filter (λ x, x.1 ∉ preferred_eager_peers m) (scored_lazy_peers_at m now)).
  set (good := filter (λ x, leb Score.PEER_SCORE_EAGER_MIN x.2 = true) cand).
  set (poor := filter (λ x, ltb x.2 Score.PEER_SCORE_EAGER_MIN = true) cand).
  assert (∀ x, x ∈ cand → x.1 ∈ lazy_peers m ∧ can_graft_peer_at m x.1 now = true) as Hcand.
  { intros x [_ Hx]%list_elem_of_filter. apply elem_of_scored_lazy in Hx as (? & ? & _). done. }
  assert (NoDup cand.*1) as Hnc by apply NoDup_fst_filter, NoDup_scored_lazy.
  assert (∀ k l, l = good ∨ l = poor → ∀ p, p ∈ (take k l).*1 → p ∈ l.*1 ∧ p ∈ lazy_peers m ∧ can_graft_peer_at m p now = true) as Htake.
  { intros k l Hl p ([q f] & -> & Hq)%list_elem_of_fmap. apply elem_of_take in Hq as (i & Hq & _). apply list_elem_of_lookup_2 in Hq.
    split; [apply list_elem_of_fmap; by exists (q, f)|]. apply (Hcand (q, f)).
    by destruct Hl as [-> | ->]; apply list_elem_of_filter in Hq as [_ Hq]. }
  case_decide as Hd; rewrite length_fmap, length_take in Hd.
  - rewrite (take_ge good) by lia. rewrite length_app, !length_fmap, length_take. split; [|split; [lia|split]].
    + apply NoDup_app. split; [by apply NoDup_fst_filter|]. split; [|by apply NoDup_fst_take, NoDup_fst_filter].
      intros p ([q f] & -> & Hq)%list_elem_of_fmap Hp. apply Htake in Hp as [Hp _]; [|by right].
      apply list_elem_of_fmap in Hp as ([q' f'] & [= <-] & Hp).
      apply list_elem_of_filter in Hq as [Hq1 Hq]. apply list_elem_of_filter in Hp as [Hp1 Hp]. cbn in *.
      apply list_elem_of_filter in Hq as [_ Hq], Hp as [_ Hp].
      apply elem_of_scored_lazy in Hq as (_ & _ & Hq), Hp as (_ & _ & Hp). cbn in *. subst.
      apply leb_not_ltb in Hq1. congruence.
    + intros p [Hp|Hp]%elem_of_app; [|by apply Htake in Hp as [_ ?]; [|by right]].
      rewrite <-(firstn_all good) in Hp. by apply Htake in Hp as [_ ?]; [|by left].
    + destruct (decide (n <= length good + length poor)%nat); [left; lia|right]. intros p Hl Hg Hpref Hnan.
      rewrite (take_ge poor) by lia. rewrite <-fmap_app. apply list_elem_of_fmap. exists (p, peer_score_at m p now). split; [done|].
      assert ((p, peer_score_at m p now) ∈ cand) as Hin.
      { apply list_elem_of_filter. split; [done|]. by apply elem_of_scored_lazy. }
      apply elem_of_app. unfold good, poor. rewrite !list_elem_of_filter. cbn.
      destruct (leb Score.PEER_SCORE_EAGER_MIN (peer_score_at m p now)) eqn:E1; [by left|].
      destruct (ltb (peer_score_at m p now) Score.PEER_SCORE_EAGER_MIN) eqn:E2; [by right|].
      by rewrite (unordered_nan _ Score.PEER_SCORE_EAGER_MIN) in Hnan.
  - rewrite length_fmap, length_take. split; [by apply NoDup_fst_take, NoDup_fst_filter|]. split; [lia|]. split; [|left; lia].
    intros p Hp. by apply Htake in Hp as [_ ?]; [|by left].
Qed.

(** One swap at most: the loop stops after its first replacement. *)
Lemma replace_loop_spec (m : TopicMesh) (now : Z) (es ls : list (PeerId * f64)) :
  eager_peers m ## lazy_peers m → (size (eager_peers m) <= max_eager_degree m)%nat →
  (∀ x, x ∈ es → x.1 ∈ eager_peers m ∧ is_healthy_preferred_at m x.1 now = false) →
  (∀ x, x ∈ ls → x.1 ∈ lazy_peers m ∧ can_graft_peer_at m x.1 now = true) →
  let m' := (replace_loop m now es ls (0, 0)%nat).1 in
  moves now m m' ∧ size (eager_peers m') = size (eager_peers m).
Proof.
  intros Hd Hs He Hl. destruct es as [|[e fe] es]; [by split; [apply moves_refl|]|].
  destruct ls as [|[l fl] ls]; [by split; [apply moves_refl|]|]. cbn.
  rewrite decide_False by (unfold OPPORTUNISTIC_GRAFT_MAX_REPLACEMENTS; lia).
  destruct (leb _ fe || _); [by split; [apply moves_refl|]|].
  destruct (He (e, fe)) as [Hee Heh]; [by left|]. destruct (Hl (l, fl)) as [Hll Hlg]; [by left|]. cbn in Hee, Heh, Hll, Hlg.
  rewrite prune_peer_eq by done. pose proof (size_difference_singleton _ _ Hee) as Hsz.
  set (m1 := set_peers m (eager_peers m ∖ {[e]}) ({[e]} ∪ lazy_peers m)).
  assert (moves now m m1) as Hm1.
  { apply moves_demote; [set_solver|]. by intros p ->%elem_of_singleton. }
  rewrite graft_peer_eq; [|cbn; set_solver|by rewrite (mv_graft now m m1)|cbn; lia].
  assert (moves now m1 (set_peers m1 ({[l]} ∪ eager_peers m1) (lazy_peers m1 ∖ {[l]}))) as Hm2.
  { apply moves_promote; [cbn; set_solver|intros p ->%elem_of_singleton; by rewrite (mv_graft now m m1)|].
    cbn. rewrite size_union, size_singleton by set_solver. lia. }
  replace (replace_loop _ now es ls _) with (set_peers m1 ({[l]} ∪ eager_peers m1) (lazy_peers m1 ∖ {[l]}), (1, 1)%nat)
    by (by destruct es).
  cbn [fst]. split; [by eapply moves_trans|]. unfold m1. cbn [eager_peers set_peers].
  rewrite size_union, size_singleton by set_solver. lia.
Qed.

Lemma opportunistic_spec (m : TopicMesh) (now : Z) :
  eager_peers m ## lazy_peers m →
  let m' := (opportunistic_graft_at m now).1 in
  moves now m m' ∧ size (eager_peers m') = size (eager_peers m) ∧
  ((size (eager_peers m) < target_degree m)%nat → m' = m).
Proof.
  intros Hd. unfold opportunistic_graft_at. case_decide as Hc; [by split; [apply moves_refl|]|].
  destruct (match last_opportunistic_graft m with Some _ => _ | None => _ end); [by split; [apply moves_refl|]|].
  set (m1 := set_last_graft m now).
  assert (∀ x, x ∈ filter (λ x, is_healthy_preferred_at m1 x.1 now = false) (scored_eager_peers_at m1 now) →
    x.1 ∈ eager_peers m1 ∧ is_healthy_preferred_at m1 x.1 now = false) as He.
  { intros x [Hh Hx]%list_elem_of_filter. by apply elem_of_scored_eager in Hx as [Hx _]. }
  assert (∀ x, x ∈ filter (λ x, leb Score.PEER_SCORE_EAGER_MIN x.2 = true) (scored_lazy_peers_at m1 now) →
    x.1 ∈ lazy_peers m1 ∧ can_graft_peer_at m1 x.1 now = true) as Hl.
  { intros x [_ Hx]%list_elem_of_filter. by apply elem_of_scored_lazy in Hx as (? & ? & _). }
  destruct (replace_loop_spec m1 now _ _ Hd ltac:(cbn; lia) He Hl) as [Hmv Hsz].
  split; [eapply moves_trans; [apply moves_set_last_graft|exact Hmv]|]. split; [exact Hsz|]. intros Hlt. lia.
Qed.

(** What maintenance achieves. *)
Record maintained (now : Z) (m m' : TopicMesh) : Prop := {
  mt_moves : moves now m m';
  mt_bound : (size (eager_peers m') <= max_eager_degree m)%nat;
  mt_full : (target_degree m <= size (eager_peers m'))%nat ∨
    ∀ p, p ∈ lazy_peers m' → can_graft_peer_at m p now = true → p ∉ preferred_eager_peers m →
      is_nan (peer_score_at m p now) = true;
  mt_preferred p : p ∈ eager_peers m ∪ lazy_peers m → is_healthy_preferred_at m p now = true → p ∈ eager_peers m';
}.

(** Demotion down to the ceiling. *)
Lemma demote_spec (m : TopicMesh) (now : Z) :
  wf m →
  let m' := (if decide (max_eager_degree m < size (eager_peers m))%nat then prune_all m (demotions m now) else (m, 0%nat)).1 in
  moves now m m' ∧ (size (eager_peers m') <= max_eager_degree m)%nat.
Proof.
  intros Hwf. case_decide as Hd; [|split; [apply moves_refl|cbn; lia]].
  destruct (demotions_spec m now Hwf Hd) as (Hnd & Hlen & Hin).
  rewrite prune_all_eq by (done || (intros p Hp; by apply Hin)). cbn. split.
  - apply moves_demote; [intros p Hp%elem_of_list_to_set; by apply Hin|]. intros p Hp%elem_of_list_to_set. by apply Hin.
  - rewrite size_difference, size_list_to_set, Hlen by (done || (intros p Hp%elem_of_list_to_set; by apply Hin)). lia.
Qed.

(** Promotion up to the target. *)
Lemma promote_spec (m : TopicMesh) (now : Z) :
  eager_peers m ## lazy_peers m → (size (eager_peers m) <= max_eager_degree m)%nat →
  let m' := (if decide (size (eager_peers m) < target_degree m ∧ lazy_peers m ≠ ∅)%nat
             then graft_all m (promotions m now) now else (m, 0%nat)).1 in
  moves now m m' ∧ (size (eager_peers m') <= max_eager_degree m)%nat ∧
  ((target_degree m <= size (eager_peers m'))%nat ∨
    ∀ p, p ∈ lazy_peers m' → can_graft_peer_at m p now = true → p ∉ preferred_eager_peers m →
      is_nan (peer_score_at m p now) = true).
Proof.
  intros Hdis Hs. case_decide as Hd.
  - destruct Hd as [Hd _]. destruct (promotions_spec m now) as (Hnd & Hlen & Hin & Hfull).
    assert (target_degree m <= max_eager_degree m)%nat as Ht by (unfold target_degree; lia).
    assert (list_to_set (promotions m now) ⊆ lazy_peers m) as Hsub by (intros p Hp%elem_of_list_to_set; by apply Hin).
    assert (size (list_to_set (promotions m now) ∪ eager_peers m) = length (promotions m now) + size (eager_peers m))%nat as Hsz.
    { rewrite size_union, size_list_to_set by (done || set_solver). done. }
    rewrite graft_all_eq by (done || lia). cbn [fst eager_peers lazy_peers set_peers]. rewrite Hsz. split; [|split; [lia|]].
    + apply moves_promote; [done|intros p Hp%elem_of_list_to_set; by apply Hin|lia].
    + destruct Hfull as [Hfull|Hfull]; [left; lia|right]. intros p Hp Hg Hpref.
      destruct (is_nan _) eqn:E; [done|]. exfalso. apply elem_of_difference in Hp as [Hpl Hp]. apply Hp, elem_of_list_to_set. auto.
  - split; [apply moves_refl|]. split; [done|]. cbn [fst]. destruct (decide (lazy_peers m = ∅)) as [E|E]; [right; rewrite E; set_solver|].
    left. destruct (decide (size (eager_peers m) < target_degree m)%nat); [|lia]. exfalso. by apply Hd.
Qed.

Lemma rebalance_spec (m : TopicMesh) (now : Z) :
  wf m → (∀ p, p ∈ eager_peers m ∪ lazy_peers m → is_healthy_preferred_at m p now = true → p ∈ eager_peers m) →
  maintained now m (rebalance m now).1.
Proof.
  intros Hwf Hpref. unfold rebalance.
  destruct (demote_spec m now Hwf) as [Hm1 Hs1].
  destruct (if decide _ then prune_all m _ else _) as [m1 p1]. cbn in Hm1, Hs1.
  pose proof (mv_disjoint _ _ _ Hm1 (wf_disjoint _ Hwf)) as Hd1. rewrite <-(mv_max _ _ _ Hm1) in Hs1.
  destruct (promote_spec m1 now Hd1 Hs1) as (Hm2 & Hs2 & Hf2).
  destruct (if decide _ then graft_all m1 _ now else _) as [m2 g2]. cbn in Hm2, Hs2, Hf2.
  destruct (opportunistic_spec m2 now (mv_disjoint _ _ _ Hm2 Hd1)) as (Hm3 & Hs3 & Hf3).
  destruct (opportunistic_graft_at m2 now) as [m3 [p3 g3]]. cbn in Hm3, Hs3, Hf3 |- *.
  assert (moves now m m3) as Hm by (eapply moves_trans; [exact Hm1|]; by eapply moves_trans).
  assert (target_degree m1 = target_degree m ∧ target_degree m2 = target_degree m) as [Ht1 Ht2].
  { unfold target_degree. by rewrite (mv_max _ _ _ Hm2), (mv_max _ _ _ Hm1). }
  constructor; [done| | |].
  - rewrite (mv_max _ _ _ Hm1) in Hs2. lia.
  - destruct (decide (target_degree m <= size (eager_peers m3))%nat); [by left|right].
    rewrite Hf3 by lia. destruct Hf2 as [Hf2|Hf2]; [lia|]. intros p Hp Hg Hnp.
    specialize (Hf2 p Hp). rewrite (mv_graft now m m1), (mv_preferred _ _ _ Hm1) in Hf2 by done.
    unfold peer_score_at in *. rewrite (mv_scores _ _ _ Hm1) in Hf2. by apply Hf2.
  - intros p Hp Hh. apply (mv_protects _ _ _ Hm); [done|]. by apply Hpref.
Qed.

(** ** Preferences, and the whole of maintenance *)

Section Preferences.
Context (now : Z) (fuel : nat) (maintain : TopicMesh → option (TopicMesh * counts)).
Context (Hmaintain : ∀ m, wf m → (size (eager_peers m) < fuel)%nat →
  ∃ m' n, maintain m = Some (m', n) ∧ maintained now m m').

(** A nested call happens only above the ceiling, on a smaller eager set. *)
Definition enough (m : TopicMesh) : Prop :=
  (size (eager_peers m) <= fuel)%nat ∨ (size (eager_peers m) <= max_eager_degree m)%nat.

Lemma prefer_graft (m : TopicMesh) (peer : PeerId) :
  wf m → peer ∈ lazy_peers m → is_score_eligible_for_eager_at m peer now = true → (size (eager_peers m) < max_eager_degree m)%nat →
  ∃ m', graft_peer_at m peer now = (m', true) ∧ moves now m m' ∧ peer ∈ eager_peers m'.
Proof.
  intros [Hd _] Hp He Hs. unfold is_score_eligible_for_eager_at in He. apply andb_true_iff in He as [Hg _].
  eexists. rewrite graft_peer_eq by done. split; [done|]. split; [|cbn; set_solver].
  apply moves_promote; [set_solver|by intros q ->%elem_of_singleton|]. rewrite size_union, size_singleton by set_solver. lia.
Qed.

Lemma prefer_spec (m : TopicMesh) (peer : PeerId) :
  wf m → enough m →
  ∃ m' n, prefer_eager_peer_at maintain m peer now = Some (m', n) ∧ moves now m m' ∧
    (peer ∈ eager_peers m ∪ lazy_peers m → is_healthy_preferred_at m peer now = true → peer ∈ eager_peers m').
Proof.
  intros Hwf Hfuel. unfold prefer_eager_peer_at. case_decide as Hpe; [do 2 eexists; split; [done|]; split; [apply moves_refl|done]|].
  case_decide as Hno.
  { do 2 eexists. split; [done|]. split; [apply moves_refl|]. intros Hin Hh. exfalso.
    unfold is_healthy_preferred_at in Hh. apply andb_true_iff in Hh as [_ Hh]. destruct Hno; [set_solver|congruence]. }
  assert (peer ∈ lazy_peers m) as Hpl by (destruct (decide (peer ∈ lazy_peers m)); [done|exfalso; apply Hno; by left]).
  assert (is_score_eligible_for_eager_at m peer now = true) as Hel
    by (destruct (is_score_eligible_for_eager_at m peer now); [done|exfalso; apply Hno; by right]).
  case_decide as Hfull.
  2:{ destruct (prefer_graft m peer Hwf Hpl Hel) as (m' & -> & Hm & Hin); [lia|]. eauto. }
  destruct (displaceable m now) as [d|] eqn:Hdisp.
  2:{ do 2 eexists. split; [done|]. split; [apply moves_refl|]. intros _ Hh. exfalso.
      destruct (displaceable_room m now peer Hwf Hpe Hh Hfull) as [x Hx]. congruence. }
  apply displaceable_Some in Hdisp as [Hd Hdh]. rewrite prune_peer_eq by done.
  set (m1 := set_peers m (eager_peers m ∖ {[d]}) ({[d]} ∪ lazy_peers m)).
  assert (moves now m m1) as Hm1 by (apply moves_demote; [set_solver|by intros q ->%elem_of_singleton]).
  pose proof (size_difference_singleton _ _ Hd) as Hsz. pose proof (moves_wf _ _ _ Hm1 Hwf) as Hwf1.
  destruct (decide (size (eager_peers m1) < max_eager_degree m1)%nat) as [Hlt|Hge].
  - destruct (prefer_graft m1 peer Hwf1) as (m' & -> & Hm & Hin); [cbn; set_solver|by rewrite (mv_eligible now m m1)|done|].
    do 2 eexists. split; [done|]. split; [by eapply moves_trans|done].
  - unfold graft_peer_at. rewrite decide_True by lia.
    destruct (Hmaintain m1 Hwf1) as (m' & [p g] & -> & Hmt).
    { destruct Hfuel as [Hfuel|Hfuel]; unfold m1 in *; cbn in *; lia. }
    cbn. do 2 eexists. split; [done|]. split; [eapply moves_trans; [exact Hm1|apply Hmt]|].
    intros _ Hh. apply (mt_preferred _ _ _ Hmt); [cbn; set_solver|by rewrite (mv_healthy now m m1)].
Qed.

Lemma enough_moves (m m' : TopicMesh) : moves now m m' → enough m → enough m'.
Proof. intros Hm He. unfold enough in *. rewrite (mv_max _ _ _ Hm). pose proof (mv_size _ _ _ Hm). lia. Qed.

Lemma apply_preferred_spec (ps : list PeerId) (m : TopicMesh) (n : counts) :
  wf m → enough m →
  ∃ m' n', apply_preferred maintain m ps now n = Some (m', n') ∧ moves now m m' ∧
    ∀ p, p ∈ ps → p ∈ eager_peers m ∪ lazy_peers m → is_healthy_preferred_at m p now = true → p ∈ eager_peers m'.
Proof.
  revert m n. induction ps as [|peer ps IH]; intros m n Hwf Hen; cbn [apply_preferred].
  { do 2 eexists. split; [done|]. split; [apply moves_refl|]. intros p []%elem_of_nil. }
  assert (∀ m1 n1, moves now m m1 →
    (peer ∈ eager_peers m ∪ lazy_peers m → is_healthy_preferred_at m peer now = true → peer ∈ eager_peers m1) →
    ∃ m' n', apply_preferred maintain m1 ps now n1 = Some (m', n') ∧ moves now m m' ∧
      ∀ p, p ∈ peer :: ps → p ∈ eager_peers m ∪ lazy_peers m → is_healthy_preferred_at m p now = true → p ∈ eager_peers m') as Hrest.
  { intros m1 n1 Hm1 Hp1. destruct (IH m1 n1) as (m' & n' & -> & Hm' & Hps); [by eapply moves_wf|by eapply enough_moves|].
    do 2 eexists. split; [done|]. split; [by eapply moves_trans|]. intros p Hp Hin Hh.
    apply elem_of_cons in Hp as [->|Hp].
    - apply (mv_protects _ _ _ Hm'); [by rewrite (mv_healthy now m m1)|auto].
    - apply Hps; [done|by rewrite (mv_members _ _ _ Hm1)|by rewrite (mv_healthy now m m1)]. }
  case_decide as Hd.
  - destruct Hd as [Hpe Hel]. rewrite prune_peer_eq by done. apply Hrest.
    + apply moves_demote; [set_solver|]. intros q ->%elem_of_singleton. unfold is_healthy_preferred_at. by rewrite Hel, andb_false_r.
    + intros _ Hh. unfold is_healthy_preferred_at in Hh. rewrite Hel, andb_false_r in Hh. done.
  - destruct (prefer_spec m peer Hwf Hen) as (m1 & [p g] & -> & Hm1 & Hp1). cbn. by apply Hrest.
Qed.
End Preferences.

(** Maintenance terminates and achieves its goals. *)
Lemma mesh_maintain_spec (fuel : nat) (m : TopicMesh) (now : Z) :
  wf m → (size (eager_peers m) < fuel)%nat →
  ∃ m' n, maintain_degree_fuel fuel m now = Some (m', n) ∧ maintained now m m'.
Proof.
  revert m. induction fuel as [|fuel IH]; intros m Hwf Hf; [lia|]. cbn [maintain_degree_fuel].
  destruct (apply_preferred_spec now fuel _ IH (preferred_eager_peers m) m (0, 0)%nat Hwf) as (m1 & [p g] & -> & Hm1 & Hpref);
    [left; lia|]. cbn.
  destruct (rebalance m1 now) as [m2 [p' g']] eqn:Hreb. do 2 eexists. split; [done|].
  assert (maintained now m1 m2) as Hmt.
  { replace m2 with (rebalance m1 now).1 by (by rewrite Hreb). apply rebalance_spec; [by eapply moves_wf|].
    intros q Hq Hh. rewrite (mv_healthy now m m1) in Hh by done. rewrite (mv_members _ _ _ Hm1) in Hq.
    apply Hpref; [|done|done]. unfold is_healthy_preferred_at in Hh. apply andb_true_iff in Hh as [Hh _]. by apply bool_decide_eq_true in Hh. }
  destruct Hmt as [Hm2 Hb Hfull Hp2]. constructor.
  - by eapply moves_trans.
  - by rewrite <-(mv_max _ _ _ Hm1).
  - unfold target_degree, peer_score_at in *. rewrite (mv_max _ _ _ Hm1), (mv_scores _ _ _ Hm1), (mv_preferred _ _ _ Hm1) in Hfull.
    destruct Hfull as [?|Hfull]; [by left|right]. intros q Hq Hg. apply Hfull; [done|]. by rewrite (mv_graft now m m1).
  - intros q Hq Hh. apply Hp2; [by rewrite (mv_members _ _ _ Hm1)|by rewrite (mv_healthy now m m1)].
Qed.

(** [refresh_connected_peers_snapshot_once] on one topic. *)
Definition retain_connected (m : TopicMesh) (connected : gset PeerId) : TopicMesh :=
  clear_disconnected_peer_cooling (set_peers m (eager_peers m ∩ connected) (lazy_peers m ∩ connected)) connected.

(** ** Every operation on the mesh *)

Inductive mesh_step (m : TopicMesh) : TopicMesh → Prop :=
| ms_prune p : mesh_step m (prune_peer m p).1
| ms_new_peer p : mesh_step m (add_new_peer_lazy m p).1
| ms_maintain now m' n : maintain_degree_at m now = Some (m', n) → mesh_step m m'
| ms_connected X pref now m' n b : set_topic_peers_with_preferred_eager m X pref now = Some (m', n, b) → mesh_step m m'
| ms_initialize ps now m' n : initialize_topic_peers m ps now = Some (m', n) → mesh_step m m'
| ms_preferred ps now m' n k : set_topic_preferred_eager_set m ps now = Some (m', n, k) → mesh_step m m'
| ms_ceiling d now m' n : set_eager_degree_ceiling m d now = Some (m', n) → mesh_step m m'
| ms_refresh X : mesh_step m (retain_connected m X)
| ms_evict p : mesh_step m (evict_not_connected_peer m p).1
| ms_rescue now : mesh_step m (rescue_suppressed_eager_peer_if_needed_at m now).1
| ms_claim next p now crit conn granted : mesh_step m (claim_one m next p now crit conn granted).1.1
| ms_abandon p id : mesh_step m (abandon_unsent_recovery_probe m p id)
| ms_success a now cfg m' b : record_send_success_with_context_at m a now cfg = Some (m', b) → mesh_step m m'
| ms_timeout a now cfg h : mesh_step m (record_send_timeout_inner_at m a now cfg h).1
| ms_inbound p now : mesh_step m (record_inbound_peer_activity_at m p now).1
| ms_score p now f : mesh_step m (update_score m p now f)
| ms_churn now : mesh_step m (prune_churned_peer_state m now)
| ms_clean now : mesh_step m (clean_expired_cooling m now)
| ms_subscribers l : mesh_step m (set_subscribers m l).

(** The representation invariant. *)
Record mesh_ok (m : TopicMesh) : Prop := {
  ok_disjoint : eager_peers m ## lazy_peers m;
  ok_degree : (size (eager_peers m) <= max_eager_degree m)%nat;
  ok_ceiling : max_eager_degree m = Nat.max (configured_max_eager_degree m) (length (preferred_eager_peers m));
  ok_configured : (1 <= configured_max_eager_degree m)%nat;
  ok_preferred : (length (preferred_eager_peers m) <= MAX_PREFERRED_EAGER_PEERS)%nat;
}.

Lemma mesh_ok_wf (m : TopicMesh) : mesh_ok m → wf m.
Proof. intros Hm. constructor; [apply Hm|]. rewrite (ok_ceiling _ Hm). lia. Qed.

(** Operations that only shrink or rearrange the eager set below the ceiling,
    with the configuration unchanged. *)
Lemma mesh_ok_peers (m m' : TopicMesh) :
  mesh_ok m → eager_peers m' ## lazy_peers m' → (size (eager_peers m') <= max_eager_degree m)%nat →
  preferred_eager_peers m' = preferred_eager_peers m → configured_max_eager_degree m' = configured_max_eager_degree m →
  max_eager_degree m' = max_eager_degree m → mesh_ok m'.
Proof. intros [Hd Hs Hc H1 Hp] Hd' Hs' E1 E2 E3. constructor; rewrite ?E1, ?E2, ?E3; done. Qed.

Lemma mesh_ok_moves (now : Z) (m m' : TopicMesh) : moves now m m' → mesh_ok m → mesh_ok m'.
Proof.
  intros Hm Hok. apply (mesh_ok_peers m); [done|by apply Hm, Hok| |apply Hm..].
  pose proof (mv_size _ _ _ Hm). pose proof (ok_degree _ Hok). lia.
Qed.

(** Maintenance restores the bound after any change of peers or ceiling. *)
Lemma mesh_ok_maintain (m m' : TopicMesh) (now : Z) (n : counts) :
  eager_peers m ## lazy_peers m → max_eager_degree m = Nat.max (configured_max_eager_degree m) (length (preferred_eager_peers m)) →
  (1 <= configured_max_eager_degree m)%nat → (length (preferred_eager_peers m) <= MAX_PREFERRED_EAGER_PEERS)%nat →
  maintain_degree_at m now = Some (m', n) → mesh_ok m'.
Proof.
  intros Hd Hc H1 Hp Hmt. destruct (mesh_maintain_spec (S (size (eager_peers m))) m now) as (m1 & n1 & Hmt' & Hspec);
    [constructor; [done|rewrite Hc; lia]|lia|].
  unfold maintain_degree_at in Hmt. rewrite Hmt in Hmt'. injection Hmt' as <- <-.
  destruct Hspec as [Hm Hb _ _]. constructor; rewrite ?(mv_max _ _ _ Hm), ?(mv_configured _ _ _ Hm), ?(mv_preferred _ _ _ Hm); try done.
  by apply Hm.
Qed.

Lemma mesh_ok_same (m m' : TopicMesh) :
  eager_peers m' = eager_peers m → lazy_peers m' = lazy_peers m →
  preferred_eager_peers m' = preferred_eager_peers m → configured_max_eager_degree m' = configured_max_eager_degree m →
  max_eager_degree m' = max_eager_degree m → mesh_ok m → mesh_ok m'.
Proof. intros E1 E2 E3 E4 E5 Hok. apply (mesh_ok_peers m); [done|rewrite E1, E2; apply Hok|rewrite E1; apply Hok|done..]. Qed.

Lemma mesh_ok_prune (m : TopicMesh) (p : PeerId) : mesh_ok m → mesh_ok (prune_peer m p).1.
Proof.
  intros Hok. unfold prune_peer. case_decide; [|done]. pose proof (ok_disjoint _ Hok). pose proof (ok_degree _ Hok).
  apply (mesh_ok_peers m); cbn; try done; [set_solver|].
  assert (size (eager_peers m ∖ {[p]}) <= size (eager_peers m))%nat by (apply subseteq_size; set_solver). lia.
Qed.

Lemma mesh_ok_graft (m : TopicMesh) (p : PeerId) (now : Z) : mesh_ok m → mesh_ok (graft_peer_at m p now).1.
Proof.
  intros Hok. unfold graft_peer_at. repeat (case_decide || case_match); try done. pose proof (ok_disjoint _ Hok).
  apply (mesh_ok_peers m); cbn; try done; [set_solver|]. rewrite size_union, size_singleton by set_solver. lia.
Qed.

Lemma mesh_ok_shrink (m : TopicMesh) (E L : gset PeerId) :
  E ⊆ eager_peers m → L ⊆ lazy_peers m → mesh_ok m → mesh_ok (set_peers m E L).
Proof.
  intros HE HL Hok. pose proof (ok_disjoint _ Hok). pose proof (ok_degree _ Hok). apply (mesh_ok_peers m); cbn; try done; [set_solver|].
  apply subseteq_size in HE. lia.
Qed.

Lemma add_new_lazy_fold (ps : list PeerId) (m : TopicMesh) :
  let m' := foldl (λ m p, (add_new_peer_lazy m p).1) m ps in
  eager_peers m' = eager_peers m ∧ (eager_peers m ## lazy_peers m → eager_peers m' ## lazy_peers m') ∧
  eager_peers m' ∪ lazy_peers m' = eager_peers m ∪ lazy_peers m ∪ list_to_set ps ∧
  preferred_eager_peers m' = preferred_eager_peers m ∧ configured_max_eager_degree m' = configured_max_eager_degree m ∧
  max_eager_degree m' = max_eager_degree m ∧ peer_cooling m' = peer_cooling m ∧ peer_scores m' = peer_scores m.
Proof.
  revert m. induction ps as [|p ps IH]; intros m; cbn; [repeat split; auto; set_solver|].
  destruct (IH (add_new_peer_lazy m p).1) as (H1 & H2 & H3 & H4 & H5 & H6 & H7 & H8).
  unfold add_new_peer_lazy in *. case_decide as Hd; cbn [fst eager_peers lazy_peers set_peers] in *.
  - split; [done|]. split; [done|]. split; [|done]. rewrite H3. apply set_eq. intros q. destruct (decide (q = p)); set_solver.
  - split; [done|]. split; [intros Hdis; apply H2; set_solver|]. split; [|done]. rewrite H3. apply set_eq. set_solver.
Qed.

Lemma mesh_ok_book (m : TopicMesh) (a : PeerSendAttempt) (c : PeerCoolingState) (now cd recent : Z) :
  mesh_ok m → mesh_ok (book_suppression m a c now cd recent).1.
Proof.
  intros Hok. unfold book_suppression. rewrite (surjective_pairing (prune_peer _ _)). cbn [fst]. apply mesh_ok_prune.
  eapply mesh_ok_same, Hok; by case_decide.
Qed.

Lemma mesh_ok_timeout (m : TopicMesh) (a : PeerSendAttempt) (now : Z) (cfg : option AdaptiveCoolingConfig) (h : option PeerHealth) :
  mesh_ok m → mesh_ok (record_send_timeout_inner_at m a now cfg h).1.
Proof.
  intros Hok. unfold record_send_timeout_inner_at. cbv zeta.
  assert (∀ c : PeerCoolingState, mesh_ok (set_cooling (update_score m (at_peer a) now (λ s, Score.record_outbound_send_timeout_at s now))
    (<[at_peer a := c]> (peer_cooling m)))) as Hput by (intros c; by eapply mesh_ok_same, Hok).
  destruct (at_kind a); [|destruct (peer_cooling m !! _); [destruct (negb _)|]|]; try done; [|by apply mesh_ok_book].
  destruct (is_suppressed_at _ now); [apply Hput|].
  destruct (bool_decide (h = Some HealthDead) && _); [by apply mesh_ok_book; eapply mesh_ok_same, Hok|].
  destruct (_ && bool_decide (h = Some HealthSuspect)); [apply Hput|].
  destruct (_ || _); [apply Hput|by apply mesh_ok_book; eapply mesh_ok_same, Hok].
Qed.

Lemma mesh_ok_success (m m' : TopicMesh) (a : PeerSendAttempt) (now : Z) (cfg : AdaptiveCoolingConfig) (b : bool) :
  record_send_success_with_context_at m a now cfg = Some (m', b) → mesh_ok m → mesh_ok m'.
Proof.
  intros Hs Hok. unfold record_send_success_with_context_at in Hs. cbv zeta in Hs.
  repeat case_match; simplify_option_eq; eapply mesh_ok_same, Hok; done.
Qed.

Lemma mesh_ok_rescue (m : TopicMesh) (now : Z) : mesh_ok m → mesh_ok (rescue_suppressed_eager_peer_if_needed_at m now).1.
Proof.
  intros Hok. unfold rescue_suppressed_eager_peer_if_needed_at.
  destruct (negb _); [done|]. case_decide; [done|]. destruct (min_by _ _) as [best|]; [|done]. cbv zeta.
  set (m1 := update_cooling m best _). assert (mesh_ok m1) as Hok1 by (by eapply mesh_ok_same, Hok).
  case_decide; [|done]. cbn [fst]. apply mesh_ok_graft. case_decide; [|done]. case_match; [by apply mesh_ok_prune|done].
Qed.

Lemma mesh_ok_claim (m : TopicMesh) (next : Z) (p : PeerId) (now : Z) (crit : bool) (conn : option bool) (granted : bool) :
  mesh_ok m → mesh_ok (claim_one m next p now crit conn granted).1.1.
Proof.
  intros Hok. unfold claim_one. case_decide; [done|].
  assert (∃ m1 n r, claim_send_attempt_at_for m next p now crit = (m1, n, r) ∧ mesh_ok m1) as (m1 & n & r & -> & Hok1).
  { unfold claim_send_attempt_at_for. destruct (peer_cooling m !! p) as [c|]; [|by eauto].
    destruct (claim_at c next now crit) as [[c' n] r]. do 3 eexists. split; [done|]. by eapply mesh_ok_same, Hok. }
  destruct r as [[att ev]|]; [|done]. destruct (negb granted); repeat case_decide; cbn [fst]; try done; eapply mesh_ok_same, Hok1; done.
Qed.

Lemma retained_preferences_length (peers acc : list PeerId) :
  (length acc <= MAX_PREFERRED_EAGER_PEERS)%nat → (length (retained_preferences acc peers) <= MAX_PREFERRED_EAGER_PEERS)%nat.
Proof.
  revert acc. induction peers as [|p peers IH]; intros acc Hl; cbn; [done|]. case_decide; [done|]. apply IH.
  case_decide; [done|]. rewrite length_app. cbn. lia.
Qed.

Lemma set_connected_spec (m : TopicMesh) (X : gset PeerId) :
  let m' := set_connected m X in
  (eager_peers m ## lazy_peers m → eager_peers m' ## lazy_peers m') ∧ eager_peers m' ∪ lazy_peers m' = X ∧
  preferred_eager_peers m' = preferred_eager_peers m ∧ configured_max_eager_degree m' = configured_max_eager_degree m ∧
  max_eager_degree m' = max_eager_degree m.
Proof.
  unfold set_connected. cbv zeta. set (m1 := clear_disconnected_peer_cooling _ X).
  destruct (add_new_lazy_fold (siter X) m1) as (H1 & H2 & H3 & H4 & H5 & H6 & _). cbv zeta in *. subst m1. cbn in *.
  split; [intros Hd; apply H2; set_solver|]. split; [|done]. rewrite H3. apply set_eq. intros p.
  rewrite !elem_of_union, elem_of_list_to_set, elem_of_siter. set_solver.
Qed.

Lemma mesh_step_ok (m m' : TopicMesh) : mesh_step m m' → mesh_ok m → mesh_ok m'.
Proof.
  intros Hstep Hok. pose proof (ok_disjoint _ Hok). pose proof (ok_configured _ Hok). pose proof (ok_preferred _ Hok). destruct Hstep.
  - by apply mesh_ok_prune.
  - unfold add_new_peer_lazy. case_decide; [done|]. apply (mesh_ok_peers m); try done; [set_solver|apply Hok].
  - eapply mesh_ok_maintain; [..|done]; apply Hok.
  - unfold set_topic_peers_with_preferred_eager in *. destruct (set_connected_spec m X) as (Hd & _ & E1 & E2 & E3).
    cbv zeta in *. simplify_option_eq. destruct_and?. simplify_eq. case_match; simplify_eq.
    destruct pref as [p|].
    + eapply mesh_ok_maintain; [..|eassumption]; cbn; rewrite ?E2; auto. unfold MAX_PREFERRED_EAGER_PEERS. lia.
    + eapply mesh_ok_maintain; [..|eassumption]; rewrite ?E1, ?E2, ?E3; auto; apply Hok.
  - unfold initialize_topic_peers in *. destruct (add_new_lazy_fold ps m) as (E0 & Hd & _ & E1 & E2 & E3 & _).
    eapply mesh_ok_maintain; [..|eassumption]; rewrite ?E1, ?E2, ?E3; auto; apply Hok.
  - unfold set_topic_preferred_eager_set in *. cbv zeta in *. simplify_option_eq. case_match; simplify_eq.
    eapply mesh_ok_maintain; [..|eassumption]; cbn; auto. apply retained_preferences_length. cbn. lia.
  - unfold set_eager_degree_ceiling in *. eapply mesh_ok_maintain; [..|eassumption]; cbn; auto. case_decide; unfold MAX_EAGER_DEGREE; lia.
  - unfold retain_connected, clear_disconnected_peer_cooling. eapply (mesh_ok_same (set_peers m _ _)); [done..|]. apply mesh_ok_shrink; [set_solver..|done].
  - cbn. eapply (mesh_ok_same (set_peers m _ _)); [done..|]. apply mesh_ok_shrink; [set_solver..|done].
  - by apply mesh_ok_rescue.
  - by apply mesh_ok_claim.
  - by eapply mesh_ok_same, Hok.
  - by eapply mesh_ok_success.
  - by apply mesh_ok_timeout.
  - by eapply mesh_ok_same, Hok.
  - by eapply mesh_ok_same, Hok.
  - by eapply mesh_ok_same, Hok.
  - by eapply mesh_ok_same, Hok.
  - by eapply mesh_ok_same, Hok.
Qed.

(** C26. Whatever the sequence of memberships, preferences, ceilings, send
    outcomes, rescues and clean-ups: no peer is both eager and lazy, the
    eager set stays within its ceiling, the ceiling is at least one and is
    exactly the configured degree raised to fit the preferred peers, and at
    most eight peers are preferred. *)
Theorem mesh_invariant (configured : nat) (m : TopicMesh) :
  (1 <= configured)%nat → rtc mesh_step (mesh_new configured) m →
  eager_peers m ## lazy_peers m ∧ (size (eager_peers m) <= max_eager_degree m)%nat ∧ (1 <= max_eager_degree m)%nat ∧
  max_eager_degree m = Nat.max (configured_max_eager_degree m) (length (preferred_eager_peers m)) ∧
  (length (preferred_eager_peers m) <= MAX_PREFERRED_EAGER_PEERS)%nat.
Proof.
  intros Hc Hr. assert (mesh_ok m) as [Hd Hs Hm H1 Hp].
  { eapply (rtc_preserve mesh_ok mesh_step); [apply mesh_step_ok| |exact Hr]. constructor; cbn -[size]; rewrite ?size_empty; try done; lia. }
  repeat split; try done. lia.
Qed.

(** Maintenance terminates, although it calls itself through the
    preference step above the ceiling, and achieves its goals: the members of
    the topic are the same and are still each eager or lazy; the eager set is
    within the ceiling; a peer becomes eager only if it is not cooling; every
    preferred member that is neither cooling nor below the score threshold is
    eager; and if the eager set is below the target degree, then no other
    peer could have been promoted (only peers that cool, are preferred but
    not eligible, or whose score is not a number stay lazy). *)
Theorem mesh_maintenance (m : TopicMesh) (now : Z) :
  eager_peers m ## lazy_peers m → (length (preferred_eager_peers m) <= max_eager_degree m)%nat →
  ∃ m' pruned grafted, maintain_degree_at m now = Some (m', (pruned, grafted)) ∧
    eager_peers m' ## lazy_peers m' ∧ eager_peers m' ∪ lazy_peers m' = eager_peers m ∪ lazy_peers m ∧
    (size (eager_peers m') <= max_eager_degree m)%nat ∧
    (∀ p, p ∈ eager_peers m' → p ∈ eager_peers m ∨ is_peer_suppressed_at m p now = false) ∧
    (∀ p, p ∈ preferred_eager_peers m → p ∈ eager_peers m ∪ lazy_peers m →
      is_score_eligible_for_eager_at m p now = true → p ∈ eager_peers m') ∧
    ((target_degree m <= size (eager_peers m'))%nat ∨
      ∀ p, p ∈ lazy_peers m' → is_peer_suppressed_at m p now = true ∨ p ∈ preferred_eager_peers m ∨
        is_nan (peer_score_at m p now) = true).
Proof.
  intros Hd Hc. destruct (mesh_maintain_spec (S (size (eager_peers m))) m now) as (m' & [p g] & Hmt & [Hm Hb Hf Hp]); [by constructor|lia|].
  exists m', p, g. split; [done|]. split; [by apply Hm|]. split; [apply Hm|]. split; [done|].
  split; [intros q Hq; apply (mv_new _ _ _ Hm) in Hq as [?|Hg]; [by left|right]; rewrite can_graft_suppressed in Hg; by apply negb_true_iff in Hg|].
  split; [intros q Hq Hin Hel; apply Hp; [done|]; unfold is_healthy_preferred_at; by rewrite bool_decide_true, Hel by done|].
  destruct Hf as [?|Hf]; [by left|right]. intros q Hq. specialize (Hf q Hq). rewrite can_graft_suppressed in Hf.
  destruct (is_peer_suppressed_at m q now); [by left|right]. destruct (decide (q ∈ preferred_eager_peers m)); auto.
Qed.

(** ** The fan-out floor *)

Lemma suppressed_time (m : TopicMesh) (p : PeerId) (now now' : Z) :
  is_peer_suppressed_at m p now = is_peer_suppressed_at m p now'.
Proof. unfold is_peer_suppressed_at. destruct (peer_cooling m !! p); [|done]. by rewrite !is_suppressed_eq. Qed.

Lemma elem_of_eligible (m : TopicMesh) (p : PeerId) (now : Z) :
  p ∈ eligible_eager m now ↔ p ∈ eager_peers m ∧ is_peer_suppressed_at m p now = false.
Proof. unfold eligible_eager. rewrite elem_of_filter. tauto. Qed.

(** An eager peer with an unchanged cooling state stays eligible. *)
Lemma eligible_frame (m m' : TopicMesh) (p : PeerId) (now now' : Z) :
  p ∈ eligible_eager m now → p ∈ eager_peers m' → peer_cooling m' !! p = peer_cooling m !! p → p ∈ eligible_eager m' now'.
Proof.
  rewrite !elem_of_eligible. intros [_ Hs] He Hc. split; [done|]. rewrite (suppressed_time m' p now' now).
  unfold is_peer_suppressed_at in *. by rewrite Hc.
Qed.

Lemma book_suppression_frame (m : TopicMesh) (a : PeerSendAttempt) (c : PeerCoolingState) (now cd recent : Z) (q : PeerId) :
  q ≠ at_peer a → q ∈ eager_peers m →
  q ∈ eager_peers (book_suppression m a c now cd recent).1 ∧
  peer_cooling (book_suppression m a c now cd recent).1 !! q = peer_cooling m !! q.
Proof.
  intros Hq He. unfold book_suppression, prune_peer.
  repeat case_decide; (split; [cbn; set_solver|cbn [fst peer_cooling set_peers set_cooling set_scores update_score]; by rewrite lookup_insert_ne]).
Qed.

(** A timeout touches no other peer. *)
Lemma timeout_frame (m : TopicMesh) (a : PeerSendAttempt) (now : Z) (cfg : option AdaptiveCoolingConfig) (h : option PeerHealth) (q : PeerId) :
  q ≠ at_peer a → q ∈ eager_peers m →
  let m' := (record_send_timeout_inner_at m a now cfg h).1 in
  q ∈ eager_peers m' ∧ peer_cooling m' !! q = peer_cooling m !! q.
Proof.
  intros Hq He. unfold record_send_timeout_inner_at. cbv zeta.
  destruct (at_kind a); [|destruct (peer_cooling m !! at_peer a); [destruct (negb _)|]|]; try done; [|by apply book_suppression_frame].
  repeat match goal with |- context [if ?b then _ else _] => destruct b end; cbn [fst];
    try (by apply (book_suppression_frame (update_score m _ _ _))); cbn; by rewrite lookup_insert_ne.
Qed.

(** The last eligible eager peer is not suppressed. *)
Lemma timeout_last_peer (m : TopicMesh) (a : PeerSendAttempt) (now now' : Z) (cfg : option AdaptiveCoolingConfig) (h : option PeerHealth) :
  has_live_subscribers m = true → at_peer a ∈ eligible_eager m now → eligible_eager m now ∖ {[at_peer a]} = ∅ →
  at_peer a ∈ eligible_eager (record_send_timeout_inner_at m a now cfg h).1 now'.
Proof.
  intros Hlive Hp Hlast. pose proof Hp as [He Hs]%elem_of_eligible. unfold is_peer_suppressed_at in Hs.
  unfold record_send_timeout_inner_at. cbv zeta. destruct (at_kind a); [|destruct (peer_cooling m !! at_peer a) as [c|] eqn:Ec|];
    try by (eapply eligible_frame; [exact Hp|done|done]).
  - set (m1 := update_score m _ now _).
    assert (eligible_eager_after_suppressing_at m1 (at_peer a) now = Some 0%nat) as Hafter.
    { unfold eligible_eager_after_suppressing_at. rewrite decide_False; [|intros [E|E]; [change (has_live_subscribers m = false) in E; congruence|done]].
      change (eligible_eager m1 now) with (eligible_eager m now). by rewrite Hlast. }
    set (c := default (cooling_new now) (peer_cooling m1 !! at_peer a)).
    assert (is_suppressed_at c now = false) as Hc.
    { subst c m1. cbn. destruct (peer_cooling m !! at_peer a); [done|]. by rewrite is_suppressed_eq. }
    assert (∀ c', suppressed_until c' = suppressed_until c → recovery_probe_in_flight c' = recovery_probe_in_flight c →
      at_peer a ∈ eligible_eager (set_cooling m1 (<[at_peer a := c']> (peer_cooling m1))) now') as Hput.
    { intros c' E1 E2. apply elem_of_eligible. split; [done|]. unfold is_peer_suppressed_at. cbn. rewrite lookup_insert_eq.
      rewrite is_suppressed_eq in *. by rewrite E1, E2. }
    unfold cooling_floor_blocks_at, cooling_floor_last_peer_blocks_at. rewrite Hafter, Hc.
    rewrite (decide_True (P := 0%nat = 0%nat)), (bool_decide_true (Some 0%nat = Some 0%nat)) by done. rewrite andb_false_r, orb_true_r.
    destruct (_ && _); cbn [fst]; by apply Hput.
  - unfold matches_recovery_probe. rewrite is_suppressed_eq in Hs. apply orb_false_iff in Hs as [_ ->]. cbn.
    eapply eligible_frame; [exact Hp|done|done].
Qed.

(** Send timeouts never silence a topic with live local subscribers: if
    some eager peer is not cooling, then after booking any timed-out attempt,
    with any health verdict (Dead included) and cooling configuration, some
    eager peer is still not cooling. *)
Theorem cooling_floor (m : TopicMesh) (a : PeerSendAttempt) (now now' : Z) (cfg : option AdaptiveCoolingConfig) (h : option PeerHealth) :
  has_live_subscribers m = true → eligible_eager m now ≠ ∅ →
  eligible_eager (record_send_timeout_inner_at m a now cfg h).1 now' ≠ ∅.
Proof.
  intros Hlive Hne. apply gset_nonempty. destruct (decide (eligible_eager m now ∖ {[at_peer a]} = ∅)) as [Hlast|Hother].
  - exists (at_peer a). apply timeout_last_peer; [done| |done]. apply gset_nonempty in Hne as [q Hq].
    destruct (decide (q = at_peer a)) as [<-|]; [done|]. set_solver.
  - apply gset_nonempty in Hother as [q Hq]. apply elem_of_difference in Hq as [Hq Hn].
    assert (q ≠ at_peer a) as Hqa by set_solver. pose proof Hq as [He _]%elem_of_eligible.
    destruct (timeout_frame m a now cfg h q Hqa He) as [He' Hc']. exists q. by eapply eligible_frame.
Qed.

(** Among suppressed eager peers one can be displaced. *)
Lemma displaceable_suppressed (m : TopicMesh) (now : Z) :
  eager_peers m ≠ ∅ → (∀ p, p ∈ eager_peers m → is_peer_suppressed_at m p now = true) → is_Some (displaceable m now).
Proof.
  intros Hne Hall. destruct (displaceable m now) as [|] eqn:E; [by eexists|exfalso].
  apply gset_nonempty in Hne as [q Hq]. pose proof (displaceable_None m now E q Hq) as Hh.
  unfold is_healthy_preferred_at, is_score_eligible_for_eager_at in Hh. rewrite can_graft_suppressed, (Hall q Hq) in Hh.
  cbn in Hh. by rewrite andb_false_r in Hh.
Qed.

(** Making room among suppressed eager peers and promoting a lazy one. *)
Lemma rescue_promote (m : TopicMesh) (now : Z) (best : PeerId) :
  eager_peers m ## lazy_peers m → (size (eager_peers m) <= max_eager_degree m)%nat → (1 <= max_eager_degree m)%nat →
  (∀ p, p ∈ eager_peers m → is_peer_suppressed_at m p now = true) →
  best ∈ lazy_peers m → is_peer_suppressed_at m best now = false →
  let m' := (graft_peer_at (if decide (max_eager_degree m <= size (eager_peers m))%nat
               then match displaceable m now with Some worst => (prune_peer m worst).1 | None => m end else m) best now).1 in
  best ∈ eager_peers m' ∧ peer_cooling m' = peer_cooling m ∧
  eager_peers m' ∪ lazy_peers m' = eager_peers m ∪ lazy_peers m ∧ (size (eager_peers m') <= max_eager_degree m)%nat.
Proof.
  intros Hd Hs H1 Hall Hb Hbs.
  assert (∃ X, (if decide (max_eager_degree m <= size (eager_peers m))%nat
      then match displaceable m now with Some worst => (prune_peer m worst).1 | None => m end else m)
    = set_peers m (eager_peers m ∖ X) (X ∪ lazy_peers m) ∧ X ⊆ eager_peers m ∧ (size (eager_peers m ∖ X) < max_eager_degree m)%nat)
    as (X & -> & HX & HXs).
  { case_decide as Hfull.
    - destruct (displaceable_suppressed m now) as [w Hw]; [|done|].
      { intros E. rewrite E, size_empty in Hfull. lia. }
      rewrite Hw. apply displaceable_Some in Hw as [Hw _]. rewrite prune_peer_eq by done. exists {[w]}.
      pose proof (size_difference_singleton _ _ Hw). split; [done|]. split; [set_solver|lia].
    - exists ∅. rewrite difference_empty_L, union_empty_l_L, set_peers_id. split; [done|]. split; [set_solver|lia]. }
  set (m1 := set_peers m _ _).
  assert (can_graft_peer_at m1 best now = true) as Hg.
  { unfold m1. rewrite can_graft_suppressed. change (negb (is_peer_suppressed_at m best now) = true). by rewrite Hbs. }
  rewrite graft_peer_eq; [|unfold m1; cbn; set_solver|done|done]. subst m1. cbn -[size].
  split; [set_solver|]. split; [done|].
  split; [apply set_eq; intros t; destruct (decide (t = best)), (decide (t ∈ X)); set_solver|].
  rewrite size_union, size_singleton by set_solver. lia.
Qed.

(** The rescue before a local publish restores a delivery path: on a topic
    with live local subscribers that has an eager peer or a cooling member,
    some eager peer is not cooling afterwards, the members are the same and
    the ceiling holds. *)
Theorem rescue_restores_fanout (m : TopicMesh) (now now' : Z) (p : PeerId) :
  has_live_subscribers m = true → eager_peers m ## lazy_peers m → (size (eager_peers m) <= max_eager_degree m)%nat →
  (1 <= max_eager_degree m)%nat → p ∈ eager_peers m ∨ (p ∈ lazy_peers m ∧ is_peer_suppressed_at m p now = true) →
  let m' := (rescue_suppressed_eager_peer_if_needed_at m now).1 in
  eligible_eager m' now' ≠ ∅ ∧ eager_peers m' ∪ lazy_peers m' = eager_peers m ∪ lazy_peers m ∧
  (size (eager_peers m') <= max_eager_degree m)%nat.
Proof.
  intros Hlive Hdis Hsz H1 Hp. unfold rescue_suppressed_eager_peer_if_needed_at. rewrite Hlive. cbn [negb].
  case_decide as Hex.
  { destruct Hex as (q & Hq & Hs). split; [|done]. apply gset_nonempty. exists q. apply elem_of_eligible.
    split; [done|]. by rewrite (suppressed_time _ _ _ now). }
  assert (∀ q, q ∈ eager_peers m → is_peer_suppressed_at m q now = true) as Hall.
  { intros q Hq. destruct (is_peer_suppressed_at m q now) eqn:E; [done|]. exfalso. apply Hex. by exists q. }
  set (l := filter _ _).
  assert (∀ q, q ∈ l ↔ is_peer_suppressed_at m q now = true ∧ (q ∈ eager_peers m ∨ q ∈ lazy_peers m)) as Hl.
  { intros q. unfold l. rewrite list_elem_of_filter, elem_of_app, !elem_of_siter. tauto. }
  destruct (min_by_is_Some (rescue_lt m now) l) as [best Hbest].
  { intros E. assert (p ∈ l) as Hin by (apply Hl; destruct Hp as [Hp|[Hp Hs]]; auto). rewrite E in Hin. by apply elem_of_nil in Hin. }
  rewrite Hbest. apply min_by_elem, Hl in Hbest as [Hbs Hbm]. cbv zeta.
  set (m1 := update_cooling m best _).
  assert (is_peer_suppressed_at m1 best now = false) as Hb1.
  { unfold is_peer_suppressed_at in *. unfold m1. cbn. rewrite lookup_alter_eq. destruct (peer_cooling m !! best); [|done]. done. }
  assert (∀ q, q ≠ best → is_peer_suppressed_at m1 q now = is_peer_suppressed_at m q now) as Hother.
  { intros q Hq. unfold is_peer_suppressed_at, m1. cbn. by rewrite lookup_alter_ne. }
  case_decide as Hbl; cbn [fst].
  - destruct (rescue_promote m1 now best) as (He & Hc & Hmem & Hs'); try done.
    { intros q Hq. assert (q ≠ best) by (intros ->; set_solver). rewrite Hother by done. by apply Hall. }
    split; [|done]. apply gset_nonempty. exists best. apply elem_of_eligible. split; [done|].
    rewrite (suppressed_time _ _ _ now). unfold is_peer_suppressed_at in *. by rewrite Hc.
  - split; [|done]. apply gset_nonempty. exists best. apply elem_of_eligible. split; [|by rewrite (suppressed_time _ _ _ now)].
    destruct Hbm; [done|]. by destruct Hbl.
Qed.

End Mesh.
End TopicMesh.

(** ** Witnesses *)

Module TopicMeshWitness.
Import TopicMesh.

(** Decidable facts by computation. *)
Ltac by_decide := apply (bool_decide_unpack _); vm_compute; exact I.

#[local] Instance flat_libm : Libm := {| powf _ _ := of_Z 1 |}.
#[local] Instance peers_iter : SetIter PeerId := canonical_siter.

Definition p1 : PeerId := mkPeerId [1].
Definition p2 : PeerId := mkPeerId [2].
Definition p3 : PeerId := mkPeerId [3].
Definition listener : LocalSubscriber := BytesOnly (mkSender false []).

Lemma mesh_invariant_witness :
  let m := (add_new_peer_lazy (mesh_new 2) p1).1 in
  eager_peers m ## lazy_peers m ∧ (size (eager_peers m) <= max_eager_degree m)%nat ∧ (1 <= max_eager_degree m)%nat ∧
  max_eager_degree m = Nat.max (configured_max_eager_degree m) (length (preferred_eager_peers m)) ∧
  (length (preferred_eager_peers m) <= MAX_PREFERRED_EAGER_PEERS)%nat.
Proof. apply (mesh_invariant 2); [lia|]. apply rtc_once. apply ms_new_peer. Defined.

(** Two eager peers above a ceiling of one, and a lazy preferred peer. *)
Definition crowded : TopicMesh := mkMesh {[p1; p2]} {[p3]} [p3] 1 1 ∅ ∅ None [].

Lemma mesh_maintenance_witness :
  ∃ m' pruned grafted, maintain_degree_at crowded 0 = Some (m', (pruned, grafted)) ∧ p3 ∈ eager_peers m' ∧ (size (eager_peers m') <= 1)%nat.
Proof.
  destruct (mesh_maintenance crowded 0) as (m' & p & g & Hm & _ & _ & Hs & _ & Hp & _); [by_decide|by_decide|].
  exists m', p, g. split; [exact Hm|]. split; [|exact Hs]. apply Hp; [by left|by_decide|vm_compute; reflexivity].
Defined.

(** The preference step above the ceiling recurses into maintenance and
    forgets what the nested call pruned: two peers leave the eager set and
    one is reported. *)
Lemma nested_prunes_uncounted :
  (λ r, (elements (eager_peers r.1), r.2)) <$> maintain_degree_at crowded 0 = Some ([p3], (1, 1)%nat).
Proof. vm_compute. reflexivity. Qed.

Definition lonely : TopicMesh := mkMesh {[p1]} {[p2]} [] 2 2 ∅ ∅ None [listener].

Lemma cooling_floor_witness :
  eligible_eager (record_send_timeout_inner_at lonely (mkAttempt p1 SendAttemptKind.Normal None) 5 (Some config_default) (Some HealthDead)).1 9 ≠ ∅.
Proof. apply (cooling_floor lonely _ 5 9); [reflexivity|]. apply gset_nonempty. exists p1. apply elem_of_eligible. split; [by_decide|reflexivity]. Defined.

Definition stranded : TopicMesh :=
  mkMesh ∅ {[p1]} [] 2 2 ∅ {[p1 := suppress (cooling_new 0) 0 30 8]} None [listener].

Lemma rescue_restores_fanout_witness :
  let m' := (rescue_suppressed_eager_peer_if_needed_at stranded 7).1 in
  eligible_eager m' 8 ≠ ∅ ∧ eager_peers m' ∪ lazy_peers m' = {[p1]} ∧ (size (eager_peers m') <= 2)%nat.
Proof.
  destruct (rescue_restores_fanout stranded 7 8 p1) as (H1 & H2 & H3); [reflexivity|by_decide|by_decide|by_decide| |].
  - right. split; [by_decide|reflexivity].
  - split; [exact H1|]. split; [rewrite H2; by_decide|exact H3].
Defined.

End TopicMeshWitness.
