(* ===== verification/Announce.v ===== *)
(** * Announcement queues ([crates/pubsub/src/lib.rs], the IHAVE half of
      [TopicState] and of [flush_ihave_batches])

    Lazy peers learn of messages by batched IHAVE announcements.  Besides the
    ordinary queue there are two lists of peers that are owed a direct
    announcement: those of a local publish whose fan-out reached nobody
    ("stranded"), and those whose full send was withheld ("withheld"), where
    the entries of a local publish are retained until each peer has been
    handed the announcement.

    A flush snapshots its work under the topic lock, sends without it, and
    books the hand-offs under the lock again: [flush_work] and [flush_done]
    are the two critical sections. *)

From S2P Require Import Prelude Types MessageCache.
Import MessageCache.

#[local] Open Scope Z_scope.

Module Announce.

Definition MAX_IHAVE_BATCH_SIZE : nat := 1024.
Definition MAX_PENDING_IHAVE : nat := MAX_IHAVE_BATCH_SIZE.
Definition MAX_CACHE_AGE : Z := 60 * NANOS_PER_SEC.
Definition ANTI_ENTROPY_INTERVAL : Z := 30 * NANOS_PER_SEC.
Definition RETAINED_ANNOUNCE_TTL : Z := ANTI_ENTROPY_INTERVAL.

Record StrandedIhaveEntry := mkStranded {
  s_msg_id : MessageIdType;
  s_targets : list PeerId;
  s_served : list PeerId;
  s_advertised : list PeerId;
  s_retry_expires : Z;
  s_retry_delivered : bool;
}.

Record LazyWithheldEntry := mkWithheld {
  w_msg_id : MessageIdType;
  w_targets : list PeerId;
  w_cold_relay : bool;
  w_served : list PeerId;
  w_retain_until : option Z;
}.

Definition has_unresolved_retained_target (e : LazyWithheldEntry) : bool :=
  bool_decide (is_Some (w_retain_until e)) && existsb (λ p, bool_decide (p ∉ w_served e)) (w_targets e).

(** The fields of [TopicState]. *)
Record Queues := mkQueues {
  pending_ihave : list MessageIdType;
  ihave_advertised : gmap MessageIdType (gset PeerId);
  stranded_ihave : list StrandedIhaveEntry;
  lazy_withheld : list LazyWithheldEntry;
}.

Definition queues_new : Queues := mkQueues [] ∅ [] [].

Definition set_stranded (q : Queues) (l : list StrandedIhaveEntry) : Queues :=
  mkQueues (pending_ihave q) (ihave_advertised q) l (lazy_withheld q).
Definition set_withheld (q : Queues) (l : list LazyWithheldEntry) : Queues :=
  mkQueues (pending_ihave q) (ihave_advertised q) (stranded_ihave q) l.

(** [list.iter_mut().find(p)] and an update of what it finds. *)
Fixpoint update_first {A} (p : A → bool) (f : A → A) (l : list A) : list A :=
  match l with
  | [] => []
  | x :: l => if p x then f x :: l else x :: update_first p f l
  end.

(** [if !l.contains(&x) { l.push(x) }], for one or several. *)
Definition push_new {A} `{!EqDecision A} (l : list A) (x : A) : list A := if decide (x ∈ l) then l else l ++ [x].
Definition push_all_new {A} `{!EqDecision A} (l xs : list A) : list A := foldl push_new l xs.

(** The cap of both lists: the oldest entries make room for one more. *)
Definition make_room {A} (l : list A) : list A :=
  if decide (MAX_IHAVE_BATCH_SIZE <= length l)%nat then drop (length l - MAX_IHAVE_BATCH_SIZE + 1) l else l.

(** ** Stranded publishes *)

Definition is_stranded (id : MessageIdType) (e : StrandedIhaveEntry) : bool := bool_decide (s_msg_id e = id).

Definition queue_stranded_ihave (q : Queues) (id : MessageIdType) (peers : list PeerId) (now : Z) : Queues :=
  if decide (peers = []) then q
  else if existsb (is_stranded id) (stranded_ihave q) then
    set_stranded q (update_first (is_stranded id) (λ e,
      mkStranded (s_msg_id e) (push_all_new (s_targets e) peers) (s_served e) (s_advertised e)
        (s_retry_expires e) (s_retry_delivered e)) (stranded_ihave q))
  else
    set_stranded q (make_room (stranded_ihave q) ++ [mkStranded id peers [] [] (now + MAX_CACHE_AGE) false]).

Definition stranded_add_served (e : StrandedIhaveEntry) (peer : PeerId) (delivered : bool) : StrandedIhaveEntry :=
  mkStranded (s_msg_id e) (s_targets e) (push_new (s_served e) peer) (s_advertised e) (s_retry_expires e) delivered.

Definition record_stranded_ihave_served (q : Queues) (id : MessageIdType) (peer : PeerId) : Queues :=
  set_stranded q (update_first (is_stranded id) (λ e, stranded_add_served e peer (s_retry_delivered e)) (stranded_ihave q)).

Definition record_stranded_ihave_advertised (q : Queues) (batch : list MessageIdType) (peer : PeerId) : Queues :=
  set_stranded q ((λ e,
    if decide (s_msg_id e ∈ batch) then
      mkStranded (s_msg_id e) (s_targets e) (s_served e) (push_new (s_advertised e) peer) (s_retry_expires e) (s_retry_delivered e)
    else e) <$> stranded_ihave q).

Definition stranded_ihave_served_peers (q : Queues) (id : MessageIdType) : list PeerId :=
  default [] (s_served <$> List.find (is_stranded id) (stranded_ihave q)).
Definition stranded_retry_expires (q : Queues) (id : MessageIdType) : option Z :=
  s_retry_expires <$> List.find (is_stranded id) (stranded_ihave q).

Definition record_stranded_retry_delivered (q : Queues) (id : MessageIdType) (peer : PeerId) : Queues :=
  set_stranded q (update_first (is_stranded id) (λ e, stranded_add_served e peer true) (stranded_ihave q)).

Definition remove_stranded_ihave (q : Queues) (id : MessageIdType) : Queues :=
  set_stranded q (filter (λ e, s_msg_id e ≠ id) (stranded_ihave q)).

Definition stranded_ihave_targets_for (q : Queues) (batch : list MessageIdType) : list PeerId :=
  push_all_new [] (e ← filter (λ e, s_msg_id e ∈ batch) (stranded_ihave q);
    filter (λ p, p ∉ s_served e ∧ p ∉ s_advertised e) (s_targets e)).

(** ** The ordinary queue *)

(** The [while] loop drops the oldest ids down to one below the cap. *)
Definition push_pending_ihave (q : Queues) (id : MessageIdType) : Queues * nat :=
  let dropped := (length (pending_ihave q) - (MAX_PENDING_IHAVE - 1))%nat in
  (mkQueues (drop dropped (pending_ihave q) ++ [id])
     (foldl (λ m x, delete x m) (ihave_advertised q) (take dropped (pending_ihave q)))
     (stranded_ihave q) (lazy_withheld q), dropped).

Definition ihave_target_pending (q : Queues) (batch : list MessageIdType) (peer : PeerId) : bool :=
  existsb (λ id, bool_decide (peer ∉ tags_at (ihave_advertised q) id)) batch.

Definition record_ihave_handoff (q : Queues) (batch : list MessageIdType) (peer : PeerId) : Queues :=
  mkQueues (pending_ihave q) (foldl (λ m id, entry_insert id peer m) (ihave_advertised q) batch)
    (stranded_ihave q) (lazy_withheld q).

(** ** Withheld sends *)

Definition is_withheld (id : MessageIdType) (e : LazyWithheldEntry) : bool := bool_decide (w_msg_id e = id).

Definition queue_lazy_withheld (q : Queues) (id : MessageIdType) (peers : list PeerId) (cold_relay : bool) : Queues :=
  if decide (peers = [] ∧ cold_relay = false) then q
  else if existsb (is_withheld id) (lazy_withheld q) then
    set_withheld q (update_first (is_withheld id) (λ e,
      mkWithheld (w_msg_id e) (push_all_new (w_targets e) peers) (w_cold_relay e || cold_relay) (w_served e)
        (w_retain_until e)) (lazy_withheld q))
  else set_withheld q (make_room (lazy_withheld q) ++ [mkWithheld id peers cold_relay [] None]).

Definition queue_retained_announce (q : Queues) (id : MessageIdType) (peers : list PeerId) (now : Z) : Queues :=
  if decide (peers = []) then q
  else
    let deadline := now + RETAINED_ANNOUNCE_TTL in
    let q := queue_lazy_withheld q id peers false in
    set_withheld q (update_first (is_withheld id) (λ e,
      mkWithheld (w_msg_id e) (w_targets e) (w_cold_relay e) (w_served e)
        (Some (match w_retain_until e with Some t => Z.max t deadline | None => deadline end))) (lazy_withheld q)).

Definition set_targets (e : LazyWithheldEntry) (l : list PeerId) : LazyWithheldEntry :=
  mkWithheld (w_msg_id e) l (w_cold_relay e) (w_served e) (w_retain_until e).

Definition record_lazy_withheld_advertised (q : Queues) (batch : list MessageIdType) (peers : list PeerId) : Queues :=
  if decide (peers = []) then q
  else set_withheld q ((λ e,
    if decide (is_Some (w_retain_until e) ∧ w_msg_id e ∈ batch)
    then set_targets e (filter (λ p, p ∉ peers) (w_targets e)) else e) <$> lazy_withheld q).

(** One entry of [prune_retained_announces]; [connected] is the transport's
    view. *)
Definition prune_retained (now : Z) (connected : PeerId → option bool) (e : LazyWithheldEntry) : option LazyWithheldEntry :=
  match w_retain_until e with
  | None => Some e
  | Some deadline =>
      if decide (deadline <= now) then None
      else
        let l := filter (λ p, p ∉ w_served e ∧ connected p ≠ Some false) (w_targets e) in
        if decide (l = []) then None else Some (set_targets e l)
  end.
Definition prune_retained_announces (q : Queues) (now : Z) (connected : PeerId → option bool) : Queues :=
  set_withheld q (omap (prune_retained now connected) (lazy_withheld q)).

(** The retained entries whose id is no longer pending, as one batch. *)
Definition to_retry (q : Queues) : list LazyWithheldEntry :=
  filter (λ e, has_unresolved_retained_target e = true ∧ w_msg_id e ∉ pending_ihave q) (lazy_withheld q).
Definition unserved (e : LazyWithheldEntry) : list PeerId := filter (λ p, p ∉ w_served e) (w_targets e).
Definition retained_announce_work (q : Queues) : option (list MessageIdType * list PeerId) :=
  let l := to_retry q in
  if decide (l = []) then None else Some (w_msg_id <$> l, push_all_new [] (e ← l; unserved e)).

Definition drop_resolved_retained_announces (q : Queues) : Queues :=
  set_withheld q (filter (λ e, w_retain_until e = None ∨ has_unresolved_retained_target e = true) (lazy_withheld q)).

(** [servable id]: the cache holds the message and the validator did not drop
    it. *)
Definition offer_pending_cold_relay_to_new_eager (q : Queues) (eager : gset PeerId) (servable : MessageIdType → bool) (peers : list PeerId) : Queues :=
  if decide (peers = []) then q
  else set_withheld q ((λ e,
    if decide (w_cold_relay e = true ∧ w_msg_id e ∈ pending_ihave q ∧ servable (w_msg_id e) = true) then
      set_targets e (foldl (λ l p, if decide (p ∈ w_served e) then l else push_new l p)
        (filter (λ p, p ∈ eager) (w_targets e)) peers)
    else e) <$> lazy_withheld q).

Definition record_lazy_withheld_served (q : Queues) (id : MessageIdType) (peer : PeerId) : Queues :=
  set_withheld q (update_first (is_withheld id) (λ e,
    mkWithheld (w_msg_id e) (w_targets e) (w_cold_relay e) (push_new (w_served e) peer) (w_retain_until e)) (lazy_withheld q)).

Definition lazy_withheld_targets_for (q : Queues) (batch : list MessageIdType) : list PeerId :=
  push_all_new [] (e ← filter (λ e, w_msg_id e ∈ batch) (lazy_withheld q); unserved e).

Definition consume_flushed_ihave_batch (q : Queues) (batch : list MessageIdType) : Queues :=
  if decide (batch = []) then q
  else mkQueues (filter (λ id, id ∉ batch) (pending_ihave q)) (filter (λ ip, ip.1 ∉ batch) (ihave_advertised q))
    (stranded_ihave q)
    (filter (λ e, w_msg_id e ∉ batch ∨ has_unresolved_retained_target e = true) (lazy_withheld q)).

(** ** The flush *)

Record Work := mkWork {
  work_batch : list MessageIdType;
  work_targets : list PeerId;
  work_retained : bool;
}.

Section Flush.
Context `{!SetIter PeerId}.

(** The ordinary batch's recipients: direct targets, then the lazy peers;
    under byte enforcement only those not yet handed the whole batch. *)
Definition ihave_targets (q : Queues) (lazy : gset PeerId) (enforcing : bool) (batch : list MessageIdType) : list PeerId :=
  let l := push_all_new (push_all_new (stranded_ihave_targets_for q batch) (lazy_withheld_targets_for q batch)) (siter lazy) in
  if enforcing then filter (λ p, ihave_target_pending q batch p = true) l else l.

(** One topic of the flush's first pass: prune, then snapshot. *)
Definition flush_work (q : Queues) (lazy : gset PeerId) (enforcing : bool) (now : Z) (connected : PeerId → option bool) : Queues * list Work :=
  let q := prune_retained_announces q now connected in
  let batch := take MAX_IHAVE_BATCH_SIZE (pending_ihave q) in
  (q, (if decide (pending_ihave q = []) then [] else [mkWork batch (ihave_targets q lazy enforcing batch) false])
      ++ match retained_announce_work q with Some (b, t) => [mkWork b t true] | None => [] end).

(** Booking: [advertised] are the peers that accepted the announcement,
    [deferred] whether the byte budget deferred some. *)
Definition flush_done (q : Queues) (w : Work) (advertised : list PeerId) (deferred enforcing : bool) : Queues :=
  if work_retained w then
    drop_resolved_retained_announces (record_lazy_withheld_advertised q (work_batch w) advertised)
  else
    let q := record_lazy_withheld_advertised q (work_batch w) advertised in
    let q := foldl (λ q p, record_stranded_ihave_advertised (record_ihave_handoff q (work_batch w) p) (work_batch w) p) q advertised in
    let all_handed_off := negb enforcing || forallb (λ p, negb (ihave_target_pending q (work_batch w) p)) (work_targets w) in
    if negb deferred && all_handed_off then consume_flushed_ihave_batch q (work_batch w) else q.

(** ** Runs *)

(** Every operation on the queues. *)
Inductive Op :=
| OStrand (id : MessageIdType) (peers : list PeerId) (now : Z)
| OServed (id : MessageIdType) (peer : PeerId)
| ORetryDelivered (id : MessageIdType) (peer : PeerId)
| ORemoveStranded (id : MessageIdType)
| OPush (id : MessageIdType)
| OWithhold (id : MessageIdType) (peers : list PeerId) (cold : bool)
| ORetain (id : MessageIdType) (peers : list PeerId) (now : Z)
| OOfferCold (eager : gset PeerId) (servable : MessageIdType → bool) (peers : list PeerId)
| OFlush (lazy : gset PeerId) (enforcing : bool) (now : Z) (connected : PeerId → option bool)
| ODone (w : Work) (advertised : list PeerId) (deferred enforcing : bool).

Definition exec (q : Queues) (o : Op) : Queues :=
  match o with
  | OStrand id peers now => queue_stranded_ihave q id peers now
  | OServed id peer => record_lazy_withheld_served (record_stranded_ihave_served q id peer) id peer
  | ORetryDelivered id peer => record_stranded_retry_delivered q id peer
  | ORemoveStranded id => remove_stranded_ihave q id
  | OPush id => (push_pending_ihave q id).1
  | OWithhold id peers cold => queue_lazy_withheld q id peers cold
  | ORetain id peers now => queue_retained_announce q id peers now
  | OOfferCold eager servable peers => offer_pending_cold_relay_to_new_eager q eager servable peers
  | OFlush lazy enforcing now connected => (flush_work q lazy enforcing now connected).1
  | ODone w advertised deferred enforcing => flush_done q w advertised deferred enforcing
  end.
Definition run (q : Queues) (ops : list Op) : Queues := foldl exec q ops.

(** The bounds, and that an id has one entry in each list. *)
Record queues_ok (q : Queues) : Prop := {
  qo_pending : (length (pending_ihave q) <= MAX_PENDING_IHAVE)%nat;
  qo_stranded : (length (stranded_ihave q) <= MAX_IHAVE_BATCH_SIZE)%nat;
  qo_withheld : (length (lazy_withheld q) <= MAX_IHAVE_BATCH_SIZE)%nat;
  qo_stranded_ids : NoDup (s_msg_id <$> stranded_ihave q);
  qo_withheld_ids : NoDup (w_msg_id <$> lazy_withheld q);
}.

Lemma length_update_first {A} (P : A → bool) (f : A → A) (l : list A) : length (update_first P f l) = length l.
Proof. induction l as [|x l IH]; cbn; [done|]. destruct (P x); cbn; by rewrite ?IH. Qed.

Lemma fmap_update_first {A B} (P : A → bool) (f : A → A) (key : A → B) (l : list A) :
  (∀ x, key (f x) = key x) → key <$> update_first P f l = key <$> l.
Proof. intros Hk. induction l as [|x l IH]; cbn; [done|]. destruct (P x); cbn; by rewrite ?Hk, ?IH. Qed.

Lemma elem_of_update_first {A} (P : A → bool) (f : A → A) (l : list A) (x : A) :
  x ∈ l → x ∈ update_first P f l ∨ (P x = true ∧ f x ∈ update_first P f l).
Proof.
  induction l as [|y l IH]; cbn; [by intros ?%elem_of_nil|]. intros [->|Hx]%elem_of_cons.
  - destruct (P y) eqn:E; [right|left]; [split; [done|by left]|by left].
  - destruct (P y); [left; by right|]. destruct (IH Hx) as [?|[? ?]]; [left|right]; [by right|]. split; [done|by right].
Qed.

Lemma existsb_false_key {A B} `{!EqDecision B} (key : A → B) (k : B) (l : list A) :
  existsb (λ x, bool_decide (key x = k)) l = false → k ∉ key <$> l.
Proof.
  intros He (x & -> & Hx)%list_elem_of_fmap.
  assert (existsb (λ y, bool_decide (key y = key x)) l = true); [|congruence].
  apply existsb_exists. exists x. split; [by apply list_elem_of_In|]. by apply bool_decide_eq_true.
Qed.

Lemma make_room_length {A} (l : list A) : (length (make_room l) < MAX_IHAVE_BATCH_SIZE)%nat.
Proof. unfold make_room. case_decide; [rewrite length_drop|]; unfold MAX_IHAVE_BATCH_SIZE in *; lia. Qed.

Lemma make_room_sublist {A} (l : list A) : sublist (make_room l) l.
Proof. unfold make_room. case_decide; [apply sublist_drop|done]. Qed.

Lemma NoDup_keys_sublist {A B} (key : A → B) (l l' : list A) : sublist l' l → NoDup (key <$> l) → NoDup (key <$> l').
Proof. intros Hs Hn. eapply sublist_NoDup; [exact Hn|]. by apply fmap_sublist. Qed.

(** Adding an entry with a new id. *)
Lemma add_entry_ids {A B} (key : A → B) (l : list A) (x : A) :
  key x ∉ key <$> l → NoDup (key <$> l) → NoDup (key <$> make_room l ++ [x]).
Proof.
  intros Hx Hn. rewrite fmap_app. apply NoDup_app. split; [by eapply NoDup_keys_sublist; [apply make_room_sublist|]|].
  split; [|apply NoDup_singleton]. intros k Hk Hin%list_elem_of_singleton. subst. apply Hx.
  apply list_elem_of_fmap in Hk as (y & Hy & Hin). apply list_elem_of_fmap. exists y. split; [done|].
  by eapply elem_of_submseteq; [|apply sublist_submseteq, make_room_sublist].
Qed.

Lemma omap_keys {A B} (f : A → option A) (key : A → B) (l : list A) :
  (∀ x y, f x = Some y → key y = key x) → sublist (key <$> omap f l) (key <$> l).
Proof.
  intros Hk. induction l as [|x l IH]; [done|]. cbn. destruct (f x) as [y|] eqn:E; cbn.
  - rewrite (Hk _ _ E). by constructor.
  - by constructor.
Qed.

Lemma length_omap_le {A B} (f : A → option B) (l : list A) : (length (omap f l) <= length l)%nat.
Proof. induction l as [|x l IH]; [done|]. cbn. destruct (f x); cbn; lia. Qed.

Lemma ok_stranded (q : Queues) (l : list StrandedIhaveEntry) :
  queues_ok q → (length l <= MAX_IHAVE_BATCH_SIZE)%nat → NoDup (s_msg_id <$> l) → queues_ok (set_stranded q l).
Proof. intros [] ? ?. by split. Qed.
Lemma ok_withheld (q : Queues) (l : list LazyWithheldEntry) :
  queues_ok q → (length l <= MAX_IHAVE_BATCH_SIZE)%nat → NoDup (w_msg_id <$> l) → queues_ok (set_withheld q l).
Proof. intros [] ? ?. by split. Qed.

(** Updates that keep the ids, and those that remove entries. *)
Lemma ok_stranded_keys (q : Queues) (l : list StrandedIhaveEntry) :
  queues_ok q → sublist (s_msg_id <$> l) (s_msg_id <$> stranded_ihave q) → queues_ok (set_stranded q l).
Proof.
  intros Hq Hs. apply ok_stranded; [done| |].
  - pose proof (sublist_length _ _ Hs) as Hl. rewrite !length_fmap in Hl. pose proof (qo_stranded _ Hq). lia.
  - by eapply sublist_NoDup; [exact (qo_stranded_ids _ Hq)|].
Qed.
Lemma ok_withheld_keys (q : Queues) (l : list LazyWithheldEntry) :
  queues_ok q → sublist (w_msg_id <$> l) (w_msg_id <$> lazy_withheld q) → queues_ok (set_withheld q l).
Proof.
  intros Hq Hs. apply ok_withheld; [done| |].
  - pose proof (sublist_length _ _ Hs) as Hl. rewrite !length_fmap in Hl. pose proof (qo_withheld _ Hq). lia.
  - by eapply sublist_NoDup; [exact (qo_withheld_ids _ Hq)|].
Qed.

Lemma fmap_keys_eq {A B} (f : A → A) (key : A → B) (l : list A) : (∀ x, key (f x) = key x) → key <$> (f <$> l) = key <$> l.
Proof. intros Hk. induction l as [|x l IH]; [done|]. rewrite !fmap_cons. by rewrite Hk, IH. Qed.

Lemma filter_keys {A B} (P : A → Prop) `{!∀ x, Decision (P x)} (key : A → B) (l : list A) : sublist (key <$> filter P l) (key <$> l).
Proof. apply fmap_sublist, sublist_filter. Qed.

Lemma queue_stranded_ok (q : Queues) (id : MessageIdType) (peers : list PeerId) (now : Z) :
  queues_ok q → queues_ok (queue_stranded_ihave q id peers now).
Proof.
  intros Hq. unfold queue_stranded_ihave. case_decide; [done|]. destruct (existsb _ _) eqn:E.
  - apply ok_stranded_keys; [done|]. by rewrite fmap_update_first.
  - apply ok_stranded; [done| |].
    + rewrite length_app. pose proof (make_room_length (stranded_ihave q)). cbn. lia.
    + apply add_entry_ids; [|apply Hq]. by apply existsb_false_key.
Qed.

Lemma queue_withheld_ok (q : Queues) (id : MessageIdType) (peers : list PeerId) (cold : bool) :
  queues_ok q → queues_ok (queue_lazy_withheld q id peers cold).
Proof.
  intros Hq. unfold queue_lazy_withheld. case_decide; [done|]. destruct (existsb _ _) eqn:E.
  - apply ok_withheld_keys; [done|]. by rewrite fmap_update_first.
  - apply ok_withheld; [done| |].
    + rewrite length_app. pose proof (make_room_length (lazy_withheld q)). cbn. lia.
    + apply add_entry_ids; [|apply Hq]. by apply existsb_false_key.
Qed.

Lemma queue_retained_ok (q : Queues) (id : MessageIdType) (peers : list PeerId) (now : Z) :
  queues_ok q → queues_ok (queue_retained_announce q id peers now).
Proof.
  intros Hq. unfold queue_retained_announce. case_decide; [done|].
  apply ok_withheld_keys; [by apply queue_withheld_ok|]. by rewrite fmap_update_first.
Qed.

Lemma push_pending_ok (q : Queues) (id : MessageIdType) : queues_ok q → queues_ok (push_pending_ihave q id).1.
Proof.
  intros []. split; cbn [push_pending_ihave fst pending_ihave stranded_ihave lazy_withheld]; [|done..].
  rewrite length_app, length_drop. cbn [length]. unfold MAX_PENDING_IHAVE, MAX_IHAVE_BATCH_SIZE in *. lia.
Qed.

Lemma handoffs_ok (q : Queues) (batch : list MessageIdType) (advertised : list PeerId) :
  queues_ok q → queues_ok (foldl (λ q p, record_stranded_ihave_advertised (record_ihave_handoff q batch p) batch p) q advertised).
Proof.
  revert q. induction advertised as [|p l IH]; intros q Hq; [done|]. cbn [foldl]. apply IH. apply ok_stranded_keys.
  - by destruct Hq.
  - rewrite fmap_keys_eq; [done|]. intros x. by case_decide.
Qed.

Lemma advertised_ok (q : Queues) (batch : list MessageIdType) (peers : list PeerId) :
  queues_ok q → queues_ok (record_lazy_withheld_advertised q batch peers).
Proof.
  intros Hq. unfold record_lazy_withheld_advertised. case_decide; [done|]. apply ok_withheld_keys; [done|].
  rewrite fmap_keys_eq; [done|]. intros x. by case_decide.
Qed.

Lemma consume_ok (q : Queues) (batch : list MessageIdType) : queues_ok q → queues_ok (consume_flushed_ihave_batch q batch).
Proof.
  intros Hq. unfold consume_flushed_ihave_batch. case_decide; [done|]. destruct Hq. split; cbn.
  - etrans; [apply length_filter|done].
  - done.
  - etrans; [apply length_filter|done].
  - done.
  - by eapply sublist_NoDup; [|apply filter_keys].
Qed.

Lemma flush_done_ok (q : Queues) (w : Work) (advertised : list PeerId) (deferred enforcing : bool) :
  queues_ok q → queues_ok (flush_done q w advertised deferred enforcing).
Proof.
  intros Hq. unfold flush_done. destruct (work_retained w).
  - apply ok_withheld_keys; [by apply advertised_ok|]. apply filter_keys.
  - destruct (_ && _); [apply consume_ok|]; by apply handoffs_ok, advertised_ok.
Qed.

Lemma prune_retained_key (now : Z) (connected : PeerId → option bool) (e e' : LazyWithheldEntry) :
  prune_retained now connected e = Some e' → w_msg_id e' = w_msg_id e.
Proof. unfold prune_retained. intros H. repeat (case_match || case_decide); by simplify_eq. Qed.

Lemma announce_exec_ok (q : Queues) (o : Op) : queues_ok q → queues_ok (exec q o).
Proof.
  intros Hq. destruct o; cbn [exec].
  - by apply queue_stranded_ok.
  - apply ok_withheld_keys; [apply ok_stranded_keys; [done|]|]; by rewrite fmap_update_first.
  - apply ok_stranded_keys; [done|]. by rewrite fmap_update_first.
  - apply ok_stranded_keys; [done|]. apply filter_keys.
  - by apply push_pending_ok.
  - by apply queue_withheld_ok.
  - by apply queue_retained_ok.
  - unfold offer_pending_cold_relay_to_new_eager. case_decide; [done|]. apply ok_withheld_keys; [done|].
    rewrite fmap_keys_eq; [done|]. intros x. by case_decide.
  - apply ok_withheld_keys; [done|]. apply omap_keys, prune_retained_key.
  - by apply flush_done_ok.
Qed.

Lemma announce_run_ok (ops : list Op) (q : Queues) : queues_ok q → queues_ok (run q ops).
Proof. revert q. induction ops as [|o ops IH]; intros q Hq; [done|]. by apply IH, announce_exec_ok. Qed.

Lemma queues_new_ok : queues_ok queues_new.
Proof. split; cbn; [lia..| |]; constructor. Qed.

Lemma flush_batches_fit (q : Queues) (lazy : gset PeerId) (enforcing : bool) (now : Z) (connected : PeerId → option bool) (w : Work) :
  queues_ok q → w ∈ (flush_work q lazy enforcing now connected).2 → (length (work_batch w) <= MAX_IHAVE_BATCH_SIZE)%nat.
Proof.
  intros Hq Hw. assert (queues_ok (prune_retained_announces q now connected)) as Hq'.
  { apply (announce_exec_ok q (OFlush lazy enforcing now connected)), Hq. }
  unfold flush_work in Hw. cbn [snd] in Hw. revert Hw Hq'. generalize (prune_retained_announces q now connected). intros q1 Hw Hq1.
  apply elem_of_app in Hw as [Hw|Hw].
  - case_decide; [by apply elem_of_nil in Hw|]. apply list_elem_of_singleton in Hw. subst. cbn [work_batch]. rewrite length_take. lia.
  - unfold retained_announce_work in Hw. case_decide; [by apply elem_of_nil in Hw|]. apply list_elem_of_singleton in Hw. subst.
    cbn [work_batch]. rewrite length_fmap. unfold to_retry. etrans; [apply length_filter|apply Hq1].
Qed.

(** Whatever sequence of operations a topic sees, its announcement queues
    stay within their caps of 1024 entries with one entry per message id in
    the stranded and withheld lists, and no IHAVE batch built by a flush
    exceeds the protocol's 1024 ids. *)
Theorem announce_bounds (ops : list Op) (lazy : gset PeerId) (enforcing : bool) (now : Z) (connected : PeerId → option bool) :
  let q := run queues_new ops in
  queues_ok q ∧ Forall (λ w, (length (work_batch w) <= MAX_IHAVE_BATCH_SIZE)%nat) (flush_work q lazy enforcing now connected).2.
Proof.
  cbn zeta. pose proof (announce_run_ok ops queues_new queues_new_ok) as Hq. split; [done|].
  apply Forall_forall. intros w Hw. by eapply flush_batches_fit.
Qed.

(** ** Custody of retained announcements *)

(** Peer [p] is owed an announcement of [id] until [d] at least. *)
Definition owes (id : MessageIdType) (p : PeerId) (d : Z) (e : LazyWithheldEntry) : Prop :=
  w_msg_id e = id ∧ p ∈ w_targets e ∧ p ∉ w_served e ∧ ∃ t, w_retain_until e = Some t ∧ d <= t.
Definition owed (q : Queues) (id : MessageIdType) (p : PeerId) (d : Z) : Prop := ∃ e, e ∈ lazy_withheld q ∧ owes id p d e.

(** A full list makes room for a new id by dropping this one. *)
Definition evicts (q : Queues) (id id' : MessageIdType) : bool :=
  negb (existsb (is_withheld id') (lazy_withheld q))
  && bool_decide (MAX_IHAVE_BATCH_SIZE <= length (lazy_withheld q))%nat
  && bool_decide (w_msg_id <$> head (lazy_withheld q) = Some id).

(** The operations that end the obligation. *)
Definition resolves (q : Queues) (id : MessageIdType) (p : PeerId) (d : Z) (o : Op) : bool :=
  match o with
  | OServed id' p' => bool_decide (id' = id ∧ p' = p)
  | OWithhold id' peers cold => bool_decide (peers ≠ [] ∨ cold = true) && evicts q id id'
  | ORetain id' peers _ => bool_decide (peers ≠ []) && evicts q id id'
  | OOfferCold eager _ _ => bool_decide (p ∉ eager)
  | OFlush _ _ now connected => bool_decide (d <= now) || bool_decide (connected p = Some false)
  | ODone w advertised _ _ => bool_decide (id ∈ work_batch w) && bool_decide (p ∈ advertised)
  | OStrand _ _ _ | ORetryDelivered _ _ | ORemoveStranded _ | OPush _ => false
  end.
Fixpoint unresolved (q : Queues) (id : MessageIdType) (p : PeerId) (d : Z) (ops : list Op) : bool :=
  match ops with
  | [] => true
  | o :: ops => negb (resolves q id p d o) && unresolved (exec q o) id p d ops
  end.

Lemma push_all_new_mem {A} `{!EqDecision A} (xs l : list A) (x : A) : x ∈ push_all_new l xs ↔ x ∈ l ∨ x ∈ xs.
Proof.
  unfold push_all_new. revert l. induction xs as [|y xs IH]; intros l; cbn [foldl].
  - rewrite elem_of_nil. tauto.
  - rewrite IH. unfold push_new. rewrite elem_of_cons. case_decide; [|rewrite elem_of_app, list_elem_of_singleton]; naive_solver.
Qed.

Lemma owed_update (q : Queues) (id : MessageIdType) (p : PeerId) (d : Z) (P : LazyWithheldEntry → bool) (f : LazyWithheldEntry → LazyWithheldEntry) :
  (∀ e, P e = true → owes id p d e → owes id p d (f e)) → owed q id p d → owed (set_withheld q (update_first P f (lazy_withheld q))) id p d.
Proof.
  intros Hf (e & He & Ho). destruct (elem_of_update_first P f _ _ He) as [Hin|[HP Hin]]; [by exists e|].
  exists (f e). split; [done|by apply Hf].
Qed.

Lemma owed_fmap (q : Queues) (id : MessageIdType) (p : PeerId) (d : Z) (f : LazyWithheldEntry → LazyWithheldEntry) :
  (∀ e, owes id p d e → owes id p d (f e)) → owed q id p d → owed (set_withheld q (f <$> lazy_withheld q)) id p d.
Proof. intros Hf (e & He & Ho). exists (f e). split; [by apply list_elem_of_fmap_2|by apply Hf]. Qed.

Lemma owed_filter (q : Queues) (id : MessageIdType) (p : PeerId) (d : Z) (P : LazyWithheldEntry → Prop) `{!∀ e, Decision (P e)} :
  (∀ e, owes id p d e → P e) → owed q id p d → owed (set_withheld q (filter P (lazy_withheld q))) id p d.
Proof. intros Hf (e & He & Ho). exists e. split; [|done]. apply list_elem_of_filter. split; [by apply Hf|done]. Qed.

Lemma owes_unresolved (id : MessageIdType) (p : PeerId) (d : Z) (e : LazyWithheldEntry) :
  owes id p d e → has_unresolved_retained_target e = true.
Proof.
  intros (_ & Hp & Hs & t & Ht & _). unfold has_unresolved_retained_target. apply andb_true_iff. split.
  - apply bool_decide_eq_true. rewrite Ht. by eexists.
  - apply existsb_exists. exists p. split; [by apply list_elem_of_In|]. by apply bool_decide_eq_true.
Qed.

(** A new entry evicts at most the oldest one. *)
Lemma owed_append (q : Queues) (id id' : MessageIdType) (p : PeerId) (d : Z) (e' : LazyWithheldEntry) :
  queues_ok q → existsb (is_withheld id') (lazy_withheld q) = false → evicts q id id' = false → owed q id p d →
  owed (set_withheld q (make_room (lazy_withheld q) ++ [e'])) id p d.
Proof.
  intros Hq Hnew Hev (e & He & Ho). exists e. split; [|done]. cbn [set_withheld lazy_withheld]. apply elem_of_app. left.
  unfold make_room. case_decide as Hfull; [|done]. pose proof (qo_withheld _ Hq) as Hlen.
  replace (length (lazy_withheld q) - MAX_IHAVE_BATCH_SIZE + 1)%nat with 1%nat by lia.
  unfold evicts in Hev. rewrite Hnew, (bool_decide_eq_true_2 _ Hfull) in Hev. cbn in Hev. apply bool_decide_eq_false in Hev.
  destruct (lazy_withheld q) as [|e0 l]; [by apply elem_of_nil in He|]. cbn [drop]. apply elem_of_cons in He as [->|He]; [|done].
  destruct Hev. cbn. by rewrite (proj1 Ho).
Qed.

Lemma owed_withhold (q : Queues) (id id' : MessageIdType) (p : PeerId) (d : Z) (peers : list PeerId) (cold : bool) :
  queues_ok q → bool_decide (peers ≠ [] ∨ cold = true) && evicts q id id' = false → owed q id p d →
  owed (queue_lazy_withheld q id' peers cold) id p d.
Proof.
  intros Hq Hev Ho. unfold queue_lazy_withheld. destruct (decide (peers = [] ∧ cold = false)) as [Hnil|Hnil]; [done|]. destruct (existsb _ _) eqn:E.
  - apply owed_update; [|done]. intros e _ (? & ? & ? & ?). split; [done|]. split; [|done]. cbn [w_targets]. apply push_all_new_mem. by left.
  - apply (owed_append q id id'); [done|done| |done]. rewrite bool_decide_eq_true_2 in Hev; [done|].
    destruct (decide (peers = [])), cold; naive_solver.
Qed.

Lemma owed_retain (q : Queues) (id id' : MessageIdType) (p : PeerId) (d now : Z) (peers : list PeerId) :
  queues_ok q → bool_decide (peers ≠ []) && evicts q id id' = false → owed q id p d →
  owed (queue_retained_announce q id' peers now) id p d.
Proof.
  intros Hq Hev Ho. unfold queue_retained_announce. destruct (decide (peers = [])) as [Hnil|Hnil]; [done|]. apply owed_update.
  - intros e _ (? & ? & ? & t & Ht & ?). split; [done|]. do 2 (split; [done|]). cbn [w_retain_until]. rewrite Ht. eexists. split; [done|]. lia.
  - apply owed_withhold; [done| |done]. rewrite bool_decide_eq_true_2 in Hev by done. rewrite bool_decide_eq_true_2; [done|]. by left.
Qed.

Lemma owed_prune (q : Queues) (id : MessageIdType) (p : PeerId) (d now : Z) (connected : PeerId → option bool) :
  now < d → connected p ≠ Some false → owed q id p d → owed (prune_retained_announces q now connected) id p d.
Proof.
  intros Hnow Hc (e & He & Hid & Hp & Hs & t & Ht & Hd).
  set (l := filter (λ x, x ∉ w_served e ∧ connected x ≠ Some false) (w_targets e)).
  assert (p ∈ l) as Hl by (by apply list_elem_of_filter).
  exists (set_targets e l). split; [|by repeat (split; [done|]); exists t].
  apply list_elem_of_omap. exists e. split; [done|]. unfold prune_retained. rewrite Ht, decide_False by lia. fold l.
  rewrite decide_False; [done|]. intros Hnil. rewrite Hnil in Hl. by apply elem_of_nil in Hl.
Qed.

Lemma owed_advertised (q : Queues) (id : MessageIdType) (p : PeerId) (d : Z) (batch : list MessageIdType) (peers : list PeerId) :
  ¬ (id ∈ batch ∧ p ∈ peers) → owed q id p d → owed (record_lazy_withheld_advertised q batch peers) id p d.
Proof.
  intros Hn Ho. unfold record_lazy_withheld_advertised. case_decide; [done|]. apply owed_fmap; [|done].
  intros e (Hid & Hp & Hrest). case_decide as Hb; [|done]. split; [done|]. split; [|done]. cbn [set_targets w_targets].
  apply list_elem_of_filter. split; [|done]. intros Hin. apply Hn. split; [|done]. rewrite <- Hid. apply Hb.
Qed.

Lemma owed_ext (q q' : Queues) (id : MessageIdType) (p : PeerId) (d : Z) : lazy_withheld q' = lazy_withheld q → owed q id p d → owed q' id p d.
Proof. unfold owed. by intros ->. Qed.

Lemma handoffs_withheld (q : Queues) (batch : list MessageIdType) (l : list PeerId) :
  lazy_withheld (foldl (λ q p, record_stranded_ihave_advertised (record_ihave_handoff q batch p) batch p) q l) = lazy_withheld q.
Proof. revert q. induction l as [|p l IH]; intros q; [done|]. cbn [foldl]. by rewrite IH. Qed.

Lemma owed_done (q : Queues) (id : MessageIdType) (p : PeerId) (d : Z) (w : Work) (advertised : list PeerId) (deferred enforcing : bool) :
  ¬ (id ∈ work_batch w ∧ p ∈ advertised) → owed q id p d → owed (flush_done q w advertised deferred enforcing) id p d.
Proof.
  intros Hn Ho. assert (Ho' := owed_advertised _ _ _ _ (work_batch w) advertised Hn Ho). unfold flush_done. destruct (work_retained w).
  - apply owed_filter; [|done]. intros e He. right. by eapply owes_unresolved.
  - set (q1 := foldl _ _ _). assert (owed q1 id p d) as H1 by (eapply owed_ext; [apply handoffs_withheld|done]).
    destruct (_ && _); [|done]. unfold consume_flushed_ihave_batch. case_decide; [done|]. destruct H1 as (e & He & Hoe).
    exists e. split; [|done]. cbn [lazy_withheld]. apply list_elem_of_filter. split; [|done]. right. by eapply owes_unresolved.
Qed.

Lemma owed_step (q : Queues) (id : MessageIdType) (p : PeerId) (d : Z) (o : Op) :
  queues_ok q → resolves q id p d o = false → owed q id p d → owed (exec q o) id p d.
Proof.
  intros Hq Hr Ho. destruct o; cbn [exec resolves] in *.
  - unfold queue_stranded_ihave. case_decide; [done|]. by destruct (existsb _ _).
  - apply bool_decide_eq_false in Hr. apply (owed_update (record_stranded_ihave_served q id0 peer)); [|done].
    intros e Hid%bool_decide_eq_true (Hi & Ht & Hs & Hu). do 2 (split; [done|]). split; [|done]. cbn [w_served].
    unfold push_new. case_decide; [done|]. rewrite elem_of_app, list_elem_of_singleton. naive_solver.
  - done.
  - done.
  - done.
  - by apply owed_withhold.
  - by apply owed_retain.
  - apply bool_decide_eq_false in Hr. unfold offer_pending_cold_relay_to_new_eager. case_decide; [done|]. apply owed_fmap; [|done].
    intros e (? & Hp & Hs & Ht). case_decide; [|done]. split; [done|]. split; [|done]. cbn [set_targets w_targets].
    assert (∀ xs l, p ∈ l → p ∈ foldl (λ l p0, if decide (p0 ∈ w_served e) then l else push_new l p0) l xs) as Hf.
    { induction xs as [|x xs IH]; intros l Hl; [done|]. cbn [foldl]. apply IH. case_decide; [done|]. unfold push_new.
      case_decide; [done|]. apply elem_of_app. by left. }
    apply Hf, list_elem_of_filter. split; [|done]. by destruct (decide (p ∈ eager)).
  - apply orb_false_iff in Hr as [H1%bool_decide_eq_false H2%bool_decide_eq_false]. apply owed_prune; [lia|done|done].
  - apply owed_done; [|done]. intros [H1 H2]. by rewrite !bool_decide_eq_true_2 in Hr.
Qed.

(** *** What a flush announces *)

(** [p] has not been handed [id] with an ordinary batch. *)
Definition unadvertised (q : Queues) (id : MessageIdType) (p : PeerId) : Prop := p ∉ tags_at (ihave_advertised q) id.

Lemma tags_at_deletes (xs : list MessageIdType) (m : gmap MessageIdType (gset PeerId)) (id : MessageIdType) :
  tags_at (foldl (λ m x, delete x m) m xs) id ⊆ tags_at m id.
Proof.
  revert m. induction xs as [|x xs IH]; intros m; [done|]. cbn [foldl]. etrans; [apply IH|]. rewrite tags_at_delete. by case_decide.
Qed.

Lemma tags_at_handoff (batch : list MessageIdType) (m : gmap MessageIdType (gset PeerId)) (peer : PeerId) (id : MessageIdType) (p : PeerId) :
  p ∈ tags_at (foldl (λ m id, entry_insert id peer m) m batch) id → p ∈ tags_at m id ∨ (p = peer ∧ id ∈ batch).
Proof.
  revert m. induction batch as [|x batch IH]; intros m; cbn [foldl]; [by left|]. intros [Hp|[-> Hin]]%IH.
  - rewrite tags_at_entry_insert in Hp. case_decide; [subst|by left]. apply elem_of_union in Hp as [->%elem_of_singleton|Hp]; [|by left].
    right. split; [done|by left].
  - right. split; [done|by right].
Qed.

Lemma tags_at_handoffs (q : Queues) (batch : list MessageIdType) (l : list PeerId) (id : MessageIdType) (p : PeerId) :
  p ∈ tags_at (ihave_advertised (foldl (λ q p, record_stranded_ihave_advertised (record_ihave_handoff q batch p) batch p) q l)) id →
  p ∈ tags_at (ihave_advertised q) id ∨ (p ∈ l ∧ id ∈ batch).
Proof.
  revert q. induction l as [|x l IH]; intros q; cbn [foldl]; [by left|]. intros [Hp|[Hl Hb]]%IH.
  - apply tags_at_handoff in Hp as [Hp|[-> Hb]]; [by left|]. right. split; [by left|done].
  - right. split; [by right|done].
Qed.

Lemma withheld_advertised_map (q : Queues) (batch : list MessageIdType) (peers : list PeerId) :
  ihave_advertised (record_lazy_withheld_advertised q batch peers) = ihave_advertised q.
Proof. unfold record_lazy_withheld_advertised. by case_decide. Qed.

Lemma unadvertised_done (q : Queues) (id : MessageIdType) (p : PeerId) (w : Work) (advertised : list PeerId) (deferred enforcing : bool) :
  ¬ (id ∈ work_batch w ∧ p ∈ advertised) → unadvertised q id p → unadvertised (flush_done q w advertised deferred enforcing) id p.
Proof.
  unfold unadvertised, flush_done. intros Hn Hu. destruct (work_retained w).
  - cbn [drop_resolved_retained_announces set_withheld ihave_advertised]. by rewrite withheld_advertised_map.
  - set (q1 := foldl _ _ _). assert (p ∉ tags_at (ihave_advertised q1) id) as H1.
    { intros [Hp|[? ?]]%tags_at_handoffs; [|naive_solver]. rewrite withheld_advertised_map in Hp. done. }
    destruct (_ && _); [|done]. unfold consume_flushed_ihave_batch. case_decide; [done|]. cbn [ihave_advertised].
    intros Hp. apply H1. revert Hp. unfold tags_at. rewrite map_lookup_filter. destruct (ihave_advertised q1 !! id); [cbn|done].
    case_guard; [done|]. intros []%elem_of_empty.
Qed.

Lemma unadvertised_step (q : Queues) (id : MessageIdType) (p : PeerId) (d : Z) (o : Op) :
  resolves q id p d o = false → unadvertised q id p → unadvertised (exec q o) id p.
Proof.
  assert (∀ q id' peers cold, ihave_advertised (queue_lazy_withheld q id' peers cold) = ihave_advertised q) as Hw.
  { intros q0 id' peers cold. unfold queue_lazy_withheld. case_decide; [done|]. by destruct (existsb _ _). }
  intros Hr Hu. unfold unadvertised in *. destruct o; cbn [exec].
  - unfold queue_stranded_ihave. case_decide; [done|]. by destruct (existsb _ _).
  - done.
  - done.
  - done.
  - intros Hp. apply Hu. eapply tags_at_deletes, Hp.
  - by rewrite Hw.
  - unfold queue_retained_announce. destruct (decide (peers = [])); [done|]. cbn [set_withheld ihave_advertised]. by rewrite Hw.
  - unfold offer_pending_cold_relay_to_new_eager. by case_decide.
  - done.
  - apply unadvertised_done; [|done]. intros [H1 H2]. cbn [resolves] in Hr. by rewrite !bool_decide_eq_true_2 in Hr.
Qed.

Lemma unresolved_run (ops : list Op) (q : Queues) (id : MessageIdType) (p : PeerId) (d : Z) :
  queues_ok q → owed q id p d → unadvertised q id p → unresolved q id p d ops = true →
  queues_ok (run q ops) ∧ owed (run q ops) id p d ∧ unadvertised (run q ops) id p.
Proof.
  revert q. induction ops as [|o ops IH]; intros q Hq Ho Hu Hun; [done|].
  cbn [unresolved] in Hun. apply andb_true_iff in Hun as [Hr%negb_true_iff Hun].
  apply IH; [by apply announce_exec_ok|by apply owed_step|by eapply unadvertised_step|done].
Qed.

Lemma owes_unserved (id : MessageIdType) (p : PeerId) (d : Z) (e : LazyWithheldEntry) : owes id p d e → p ∈ unserved e.
Proof. intros (_ & ? & ? & _). by apply list_elem_of_filter. Qed.

Lemma ordinary_targets_owed (q : Queues) (lazy : gset PeerId) (enforcing : bool) (batch : list MessageIdType) (id : MessageIdType) (p : PeerId) (d : Z) :
  owed q id p d → unadvertised q id p → id ∈ batch → p ∈ ihave_targets q lazy enforcing batch.
Proof.
  intros (e & He & Ho) Hu Hb. unfold ihave_targets. set (l := push_all_new _ _).
  assert (p ∈ l) as Hl.
  { apply push_all_new_mem. left. apply push_all_new_mem. right. apply push_all_new_mem. right.
    apply list_elem_of_bind. exists e. split; [by eapply owes_unserved|]. apply list_elem_of_filter. split; [|done].
    by rewrite (proj1 Ho). }
  destruct enforcing; [|done]. apply list_elem_of_filter. split; [|done]. apply existsb_exists. exists id.
  split; [by apply list_elem_of_In|]. by apply bool_decide_eq_true.
Qed.

Lemma flush_announces (q : Queues) (lazy : gset PeerId) (enforcing : bool) (now : Z) (connected : PeerId → option bool) (id : MessageIdType) (p : PeerId) (d : Z) :
  queues_ok q → owed q id p d → unadvertised q id p → now < d → connected p ≠ Some false →
  ∃ w, w ∈ (flush_work q lazy enforcing now connected).2 ∧ id ∈ work_batch w ∧ p ∈ work_targets w.
Proof.
  intros Hq Ho Hu Hnow Hc. assert (Ho' := owed_prune _ _ _ _ _ connected Hnow Hc Ho).
  unfold flush_work. cbn [snd]. set (q1 := prune_retained_announces q now connected) in *.
  destruct (decide (id ∈ pending_ihave q1)) as [Hpend|Hpend].
  - assert (id ∈ take MAX_IHAVE_BATCH_SIZE (pending_ihave q1)) as Hb.
    { rewrite take_ge; [done|]. apply (qo_pending _ Hq). }
    eexists. split; [|split]; [apply elem_of_app; left; rewrite decide_False; [by apply list_elem_of_singleton|]|..].
    + intros Hnil. rewrite Hnil in Hpend. by apply elem_of_nil in Hpend.
    + exact Hb.
    + cbn [work_targets]. by eapply ordinary_targets_owed.
  - destruct Ho' as (e & He & Hoe). assert (e ∈ to_retry q1) as Hr.
    { apply list_elem_of_filter. split; [|done]. split; [by eapply owes_unresolved|]. by rewrite (proj1 Hoe). }
    unfold retained_announce_work. rewrite (decide_False (P := to_retry q1 = [])) by (intros Hnil; rewrite Hnil in Hr; by apply elem_of_nil in Hr).
    eexists. split; [apply elem_of_app; right; by apply list_elem_of_singleton|]. cbn [work_batch work_targets]. split.
    + apply list_elem_of_fmap. exists e. split; [|done]. by rewrite (proj1 Hoe).
    + apply push_all_new_mem. right. apply list_elem_of_bind. exists e. split; [by eapply owes_unserved|done].
Qed.

(** With unique ids the first match is the entry of that id. *)
Lemma update_first_withheld (id : MessageIdType) (f : LazyWithheldEntry → LazyWithheldEntry) (l : list LazyWithheldEntry) (e : LazyWithheldEntry) :
  NoDup (w_msg_id <$> l) → e ∈ l → w_msg_id e = id → f e ∈ update_first (is_withheld id) f l.
Proof.
  intros Hn He Hid. induction l as [|x l IH]; [by apply elem_of_nil in He|]. cbn [update_first].
  rewrite fmap_cons in Hn. apply NoDup_cons in Hn as [Hx Hn]. apply elem_of_cons in He as [->|He].
  - unfold is_withheld at 1. rewrite bool_decide_eq_true_2 by done. by left.
  - unfold is_withheld at 1. rewrite bool_decide_eq_false_2; [right; by apply IH|].
    intros Heq. apply Hx, list_elem_of_fmap. exists e. split; [congruence|done].
Qed.

Lemma retain_owes (q : Queues) (id : MessageIdType) (p : PeerId) (peers : list PeerId) (now : Z) :
  queues_ok q → p ∈ peers → (∀ e, e ∈ lazy_withheld q → w_msg_id e = id → p ∉ w_served e) →
  owed (queue_retained_announce q id peers now) id p (now + RETAINED_ANNOUNCE_TTL).
Proof.
  intros Hq Hp Hs. unfold queue_retained_announce. destruct (decide (peers = [])) as [->|Hne]; [by apply elem_of_nil in Hp|].
  pose proof (queue_withheld_ok q id peers false Hq) as Hq1.
  assert (∃ e, e ∈ lazy_withheld (queue_lazy_withheld q id peers false) ∧ w_msg_id e = id ∧ p ∈ w_targets e ∧ p ∉ w_served e) as (e & He & Hid & Ht & Hse).
  { unfold queue_lazy_withheld. rewrite decide_False by naive_solver. destruct (existsb _ _) eqn:E.
    - apply existsb_exists in E as (e & He%list_elem_of_In & Hid%bool_decide_eq_true).
      eexists. split; [by eapply update_first_withheld; [apply Hq|exact He|]|]. cbn. split; [done|]. split; [|by apply Hs].
      apply push_all_new_mem. by right.
    - eexists. split; [apply elem_of_app; right; by apply list_elem_of_singleton|]. cbn. do 2 (split; [done|]). apply not_elem_of_nil. }
  eexists. split; [by eapply update_first_withheld; [apply Hq1|exact He|]|]. do 3 (split; [done|]). cbn [w_retain_until].
  eexists. split; [done|]. destruct (w_retain_until e); lia.
Qed.

(** A local publish whose eager copy to peer [p] was skipped puts [p] under
    custody: as long as none of the resolving events happens (the peer is
    handed the announcement, pulls the message, disconnects or leaves the
    eager set, the retention time passes, or 1024 newer entries push this one
    out), whatever other operations run and however many flush batches
    containing the id are consumed, the entry survives and every flush before
    the deadline announces the id to [p]. *)
Theorem retained_announce_custody (q : Queues) (id : MessageIdType) (p : PeerId) (peers : list PeerId) (now : Z) (ops : list Op) :
  queues_ok q → p ∈ peers → (∀ e, e ∈ lazy_withheld q → w_msg_id e = id → p ∉ w_served e) → p ∉ tags_at (ihave_advertised q) id →
  let deadline := now + RETAINED_ANNOUNCE_TTL in
  let q1 := queue_retained_announce q id peers now in
  unresolved q1 id p deadline ops = true →
  owed (run q1 ops) id p deadline ∧
  ∀ lazy enforcing now' connected, now' < deadline → connected p ≠ Some false →
    ∃ w, w ∈ (flush_work (run q1 ops) lazy enforcing now' connected).2 ∧ id ∈ work_batch w ∧ p ∈ work_targets w.
Proof.
  intros Hq Hp Hs Hu deadline q1 Hun.
  destruct (unresolved_run ops q1 id p deadline) as (Hq' & Ho' & Hu'); [by apply queue_retained_ok|by apply retain_owes| |done|].
  - subst q1. unfold unadvertised, queue_retained_announce. destruct (decide (peers = [])); [done|]. cbn [set_withheld ihave_advertised].
    unfold queue_lazy_withheld. destruct (decide (peers = [] ∧ false = false)); [done|]. by destruct (existsb _ _).
  - split; [done|]. intros lazy enforcing now' connected Hnow Hc. by eapply flush_announces.
Qed.

End Flush.
End Announce.

(** ** Witnesses *)

Module AnnounceWitness.
Import Announce.

#[local] Instance peers_iter : SetIter PeerId := canonical_siter.

Definition p1 : PeerId := mkPeerId [1].
Definition p2 : PeerId := mkPeerId [2].
Definition online (_ : PeerId) : option bool := Some true.

(** The publish is queued, an ordinary batch reaches only [p2] and is
    consumed; [p1] is still announced to. *)
Definition first_flush : list Op :=
  [OPush [7]; OFlush ∅ false 1 online; ODone (mkWork [[7]] [p1; p2] false) [p2] false false].

Lemma retained_announce_custody_witness :
  let q := run (queue_retained_announce queues_new [7] [p1; p2] 0) first_flush in
  pending_ihave q = [] ∧ ∃ w, w ∈ (flush_work q ∅ false 2 online).2 ∧ [7] ∈ work_batch w ∧ p1 ∈ work_targets w.
Proof.
  split; [vm_compute; reflexivity|].
  apply (retained_announce_custody queues_new [7] p1 [p1; p2] 0 first_flush);
    [apply queues_new_ok|by left|by intros e ?%elem_of_nil|apply not_elem_of_empty|vm_compute; reflexivity|reflexivity|done].
Defined.

(** The record of hand-offs can outlive the pending ids: under byte
    enforcement a flush is in flight with one of its two targets deferred
    while 1024 newer ids push its batch out; booking it then files a hand-off
    for an id that no later batch contains. *)
Lemma advertised_leak :
  let q := run queues_new ([OPush [0]] ++ (OPush <$> ((λ n, [1; Z.of_nat n]) <$> List.seq 0 1024))
    ++ [ODone (mkWork [[0]] [p1; p2] false) [p1] true true]) in
  bool_decide ([0] ∈ pending_ihave q) = false ∧ ihave_advertised q !! [0] = Some {[p1]}.
Proof. vm_compute. done. Qed.

End AnnounceWitness.
