(* ===== verification/Probes.v ===== *)
(** * Recovery probes in flight ([crates/pubsub/src/lib.rs],
      [PeerCoolingState::recovery_probe_in_flight])

    A cooled peer whose cooldown has passed is offered one send, its recovery
    probe, and nothing else until the probe's result is booked.  A probe that
    is never booked would suppress the peer for good, so this file tracks
    where probes are armed and cleared: only a claim arms one, for the peer
    and under the id of the attempt it returns; booking that attempt, or
    abandoning it, clears it; no other operation of the mesh arms any. *)

From S2P Require Import Prelude Types Float64 PeerTiming TopicMesh.
Import F64 Timing TopicMesh.

#[local] Open Scope Z_scope.

Module Probes.
Section Probes.
Context `{Libm} `{!SetIter PeerId}.

Definition in_flight (m : TopicMesh) (p : PeerId) (i : option Z) : Prop :=
  ∃ c, peer_cooling m !! p = Some c ∧ recovery_probe_in_flight c = true ∧ recovery_probe_id c = i.

(** Nothing is armed. *)
Definition keeps_probes (m m' : TopicMesh) : Prop := ∀ p i, in_flight m' p i → in_flight m p i.

#[global] Instance keeps_probes_preorder : PreOrder keeps_probes.
Proof. split; [by intros m p i|]. intros m1 m2 m3 H1 H2 p i Hi. by apply H1, H2. Qed.

Lemma keeps_cooling (m m' : TopicMesh) : peer_cooling m' = peer_cooling m → keeps_probes m m'.
Proof. intros E p i. unfold in_flight. by rewrite E. Qed.

Lemma keeps_sub (m m' : TopicMesh) : peer_cooling m' ⊆ peer_cooling m → keeps_probes m m'.
Proof. intros E p i (c & Hc & Hf & Hi). exists c. split; [|done]. by eapply lookup_weaken. Qed.

(** Replacing one peer's state by one with the same probe or none. *)
Lemma keeps_insert (m : TopicMesh) (p : PeerId) (c c' : PeerCoolingState) :
  peer_cooling m !! p = Some c →
  (recovery_probe_in_flight c' = true → recovery_probe_in_flight c = true ∧ recovery_probe_id c' = recovery_probe_id c) →
  keeps_probes m (set_cooling m (<[p := c']> (peer_cooling m))).
Proof.
  intros Hc Hk q i (x & Hx & Hf & Hi). cbn in Hx. rewrite lookup_insert in Hx. case_decide as E; [|by exists x].
  simplify_eq. destruct (Hk Hf) as [Hf' Hi']. exists c. split; [done|]. by rewrite Hi'.
Qed.

(** A state without a probe arms nothing. *)
Lemma keeps_insert_idle (m : TopicMesh) (p : PeerId) (c' : PeerCoolingState) :
  recovery_probe_in_flight c' = false → keeps_probes m (set_cooling m (<[p := c']> (peer_cooling m))).
Proof.
  intros Hk q i (x & Hx & Hf & Hi). cbn in Hx. rewrite lookup_insert in Hx. case_decide; [|by exists x]. simplify_eq. congruence.
Qed.

Lemma keeps_alter (m : TopicMesh) (p : PeerId) (f : PeerCoolingState → PeerCoolingState) :
  (∀ c, recovery_probe_in_flight (f c) = true → recovery_probe_in_flight c = true ∧ recovery_probe_id (f c) = recovery_probe_id c) →
  keeps_probes m (update_cooling m p f).
Proof.
  intros Hf q i (x & Hx & Hfl & Hi). cbn in Hx. rewrite lookup_alter in Hx. case_decide; [|by exists x]. subst.
  apply fmap_Some in Hx as (c & Hc & ->). destruct (Hf c Hfl) as [H1 H2]. exists c. split; [done|]. by rewrite <- H2.
Qed.

Lemma abandon_keeps (m : TopicMesh) (p : PeerId) (i : option Z) : keeps_probes m (abandon_unsent_recovery_probe m p i).
Proof. apply keeps_alter. intros c. by destruct (matches_recovery_probe c i). Qed.

Lemma abandon_clears (m : TopicMesh) (p : PeerId) (i : option Z) : ¬ in_flight (abandon_unsent_recovery_probe m p i) p i.
Proof.
  intros (x & Hx & Hf & Hi). cbn in Hx. rewrite lookup_alter, decide_True in Hx by done.
  apply fmap_Some in Hx as (c & Hc & ->). unfold matches_recovery_probe in *.
  destruct (recovery_probe_in_flight c) eqn:E; cbn in *; [|congruence].
  case_bool_decide; cbn in *; congruence.
Qed.

(** ** Claims *)

Lemma claim_at_probe (c c' : PeerCoolingState) (next next' now : Z) (crit : bool) r :
  claim_at c next now crit = (c', next', r) →
  (c' = c ∧ ∀ k i e, r = Some (k, i, e) → k ≠ SendAttemptKind.RecoveryProbe) ∨
  (recovery_probe_in_flight c = false ∧ c' = set_probe c (Some next) ∧ ∃ e, r = Some (SendAttemptKind.RecoveryProbe, Some next, e)).
Proof.
  unfold claim_at. intros E.
  repeat match type of E with (if ?b then _ else _) = _ => destruct b eqn:? end; simplify_eq;
    try (left; split; [done|]; intros; simplify_eq; done).
  right. split; [done|]. split; [done|]. by eexists.
Qed.

Lemma claim_one_spec (m : TopicMesh) (next : Z) (p : PeerId) (now : Z) (crit : bool) (conn : option bool) (granted : bool) m' next' r :
  claim_one m next p now crit conn granted = (m', next', r) →
  (∀ a, r = Some a → at_peer a = p) ∧
  ((keeps_probes m m' ∧ ∀ a, r = Some a → at_kind a ≠ SendAttemptKind.RecoveryProbe) ∨
   (∃ a, r = Some a ∧ at_kind a = SendAttemptKind.RecoveryProbe ∧ at_probe_id a = Some next ∧
      (∀ i, ¬ in_flight m p i) ∧ ∀ q i, in_flight m' q i → in_flight m q i ∨ (q = p ∧ i = Some next))).
Proof.
  unfold claim_one. case_decide; [intros; simplify_eq; split; [done|]; left; by split|].
  unfold claim_send_attempt_at_for. destruct (peer_cooling m !! p) as [c|] eqn:Hc.
  2: { cbn [at_kind at_probe_id]. rewrite !decide_False by done. destruct granted; cbn [negb]; intros; simplify_eq.
    - split; [by intros ? [= <-]|]. left. split; [done|]. by intros ? [= <-].
    - split; [done|]. left. by split. }
  destruct (claim_at c next now crit) as [[c' n'] r'] eqn:E. destruct (claim_at_probe _ _ _ _ _ _ _ E) as [[-> Hr]|(Hidle & -> & e & ->)].
  - assert (keeps_probes m (set_cooling m (<[p := c]> (peer_cooling m)))) as Hk by (by eapply keeps_insert).
    destruct r' as [[[k i] e]|]; cbn; [|intros; simplify_eq; split; [done|]; left; by split].
    specialize (Hr k i e eq_refl). destruct granted; cbn; rewrite (decide_False (P := k = SendAttemptKind.RecoveryProbe)) by done; intros; simplify_eq.
    + split; [by intros ? [= <-]|]. left. split; [|by intros ? [= <-]]. etrans; [exact Hk|]. case_decide; [|done].
      apply keeps_alter. done.
    + split; [done|]. left. by split.
  - cbn. rewrite !decide_True by done. set (m1 := set_cooling m _).
    assert (∀ q i, in_flight m1 q i → in_flight m q i ∨ (q = p ∧ i = Some next)) as H1.
    { intros q i (x & Hx & Hf & Hi). cbn in Hx. rewrite lookup_insert in Hx. case_decide; [|left; by exists x]. simplify_eq. by right. }
    assert (∀ i, ¬ in_flight m p i) as H2 by (intros i (x & Hx & Hf & _); congruence).
    destruct granted; cbn; intros; simplify_eq.
    + split; [by intros ? [= <-]|]. right. eexists. do 4 (split; [done|]). rewrite decide_False by done. done.
    + split; [done|]. left. split; [|done]. intros q i Hi. destruct (H1 q i) as [?|[-> ->]]; [by eapply abandon_keeps|done|].
      by apply abandon_clears in Hi.
Qed.

(** ** Booking one attempt *)

Definition clears (m : TopicMesh) (a : PeerSendAttempt) : Prop :=
  at_kind a = SendAttemptKind.RecoveryProbe → ¬ in_flight m (at_peer a) (at_probe_id a).

Lemma not_matching (m : TopicMesh) (p : PeerId) (c : PeerCoolingState) (i : option Z) :
  peer_cooling m !! p = Some c → matches_recovery_probe c i = false → ¬ in_flight m p i.
Proof.
  intros Hc Hm (x & Hx & Hf & Hi). simplify_eq. unfold matches_recovery_probe in Hm. rewrite Hf in Hm. cbn in Hm.
  by apply bool_decide_eq_false in Hm.
Qed.

Lemma insert_idle_clears (m : TopicMesh) (p : PeerId) (c : PeerCoolingState) (i : option Z) :
  recovery_probe_in_flight c = false → ¬ in_flight (set_cooling m (<[p := c]> (peer_cooling m))) p i.
Proof. intros Hc (x & Hx & Hf & _). cbn in Hx. rewrite lookup_insert, decide_True in Hx by done. simplify_eq. congruence. Qed.

Lemma success_probes (m m' : TopicMesh) (a : PeerSendAttempt) (now : Z) (cfg : AdaptiveCoolingConfig) b :
  record_send_success_with_context_at m a now cfg = Some (m', b) → keeps_probes m m' ∧ clears m' a.
Proof.
  unfold record_send_success_with_context_at. set (m1 := update_score m _ _ _).
  assert (keeps_probes m m1) as H1 by (by apply keeps_cooling). destruct (peer_cooling m1 !! at_peer a) as [c|] eqn:Hc.
  2: { intros; simplify_eq. split; [done|]. intros _ (x & Hx & _). congruence. }
  intros E. destruct (at_kind a) eqn:Hk.
  1, 3: split; [etrans; [exact H1|]|intros ?; congruence].
  - destruct (is_suppressed_at c now); [by simplify_eq|]. apply bind_Some in E as (cd & _ & E). simplify_eq. by eapply keeps_insert.
  - apply bind_Some in E as (cd & _ & E). simplify_eq. by eapply keeps_insert.
  - destruct (matches_recovery_probe c (at_probe_id a)) eqn:Hm; cbn in E.
    + apply bind_Some in E as (cd & _ & E). simplify_eq. split; [etrans; [exact H1|]; by apply (keeps_insert_idle m1)|].
      intros _. by apply (insert_idle_clears m1).
    + simplify_eq. split; [done|]. intros _. by eapply not_matching.
Qed.

Lemma suppression_probes (m : TopicMesh) (a : PeerSendAttempt) (c : PeerCoolingState) (now cd recent : Z) :
  keeps_probes m (book_suppression m a c now cd recent).1 ∧ ∀ i, ¬ in_flight (book_suppression m a c now cd recent).1 (at_peer a) i.
Proof.
  unfold book_suppression. set (m1 := set_cooling m _). set (m2 := if decide _ then _ else m1). set (m3 := update_score m2 _ _ _).
  assert (peer_cooling m3 = peer_cooling m1) as E by (subst m3 m2; by case_decide).
  assert (peer_cooling (prune_peer m3 (at_peer a)).1 = peer_cooling m1) as E' by (rewrite <- E; unfold prune_peer; by case_decide).
  destruct (prune_peer m3 (at_peer a)) as [m4 d]. cbn [fst] in *. split.
  - etrans; [|by apply keeps_cooling]. by apply keeps_insert_idle.
  - intros i Hi. apply (keeps_cooling m1) in Hi; [|done]. by apply insert_idle_clears in Hi.
Qed.

Lemma timeout_probes (m : TopicMesh) (a : PeerSendAttempt) (now : Z) (cfg : option AdaptiveCoolingConfig) (h : option PeerHealth) :
  keeps_probes m (record_send_timeout_inner_at m a now cfg h).1 ∧ clears (record_send_timeout_inner_at m a now cfg h).1 a.
Proof.
  unfold record_send_timeout_inner_at, clears. destruct (at_kind a) eqn:Hk.
  1, 3: split; [|done].
  - set (m1 := update_score m _ _ _). cbn zeta. change (peer_cooling m) with (peer_cooling m1).
    assert (keeps_probes m m1) as H1 by (by apply keeps_cooling). etrans; [exact H1|].
    set (c := default (cooling_new now) (peer_cooling m1 !! at_peer a)).
    assert (∀ c', recovery_probe_in_flight c' = recovery_probe_in_flight c → recovery_probe_id c' = recovery_probe_id c →
      keeps_probes m1 (set_cooling m1 (<[at_peer a := c']> (peer_cooling m1)))) as Hput.
    { intros c' E1 E2. subst c. destruct (peer_cooling m1 !! at_peer a) as [c|] eqn:Hc; cbn in *.
      - apply (keeps_insert m1 _ c); [done|]. intros Hf. rewrite <- E1. done.
      - by apply (keeps_insert_idle m1). }
    destruct (is_suppressed_at c now); [by apply Hput|]. destruct (_ && _); [apply suppression_probes|].
    destruct (_ && _); [by apply Hput|]. destruct (_ || _); [by apply Hput|apply suppression_probes].
  - done.
  - destruct (peer_cooling m !! at_peer a) as [c|] eqn:Hc; [|split; [done|]; intros _ (x & Hx & _); cbn in Hx; congruence].
    destruct (matches_recovery_probe c (at_probe_id a)) eqn:Hm; cbn [negb].
    + split; [apply suppression_probes|]. intros _. apply suppression_probes.
    + split; [done|]. intros _. by eapply not_matching.
Qed.

Lemma evict_probes (m : TopicMesh) (p : PeerId) :
  keeps_probes m (evict_not_connected_peer m p).1 ∧ ∀ i, ¬ in_flight (evict_not_connected_peer m p).1 p i.
Proof.
  split; [apply keeps_sub, delete_subseteq|]. intros i (x & Hx & _). cbn in Hx. by rewrite lookup_delete, decide_True in Hx.
Qed.

(** ** Every operation of the mesh *)

Lemma maintain_probes (m m' : TopicMesh) (now : Z) (n : nat * nat) :
  wf m → maintain_degree_at m now = Some (m', n) → keeps_probes m m'.
Proof.
  intros Hwf E. destruct (mesh_maintain_spec (S (size (eager_peers m))) m now Hwf) as (m1 & n1 & E1 & Hm); [lia|].
  unfold maintain_degree_at in E. rewrite E in E1. simplify_eq. apply keeps_cooling, Hm.
Qed.

Lemma graft_cooling (m : TopicMesh) (p : PeerId) (now : Z) : peer_cooling (graft_peer_at m p now).1 = peer_cooling m.
Proof. unfold graft_peer_at. by repeat (case_decide || case_match). Qed.
Lemma prune_cooling (m : TopicMesh) (p : PeerId) : peer_cooling (prune_peer m p).1 = peer_cooling m.
Proof. unfold prune_peer. by case_decide. Qed.

Lemma rescue_probes (m : TopicMesh) (now : Z) : keeps_probes m (rescue_suppressed_eager_peer_if_needed_at m now).1.
Proof.
  unfold rescue_suppressed_eager_peer_if_needed_at. destruct (negb _); [done|]. case_decide; [done|].
  destruct (min_by _ _) as [best|]; [|done]. cbv zeta. set (m1 := update_cooling m best _).
  assert (keeps_probes m m1) as H1 by (by apply keeps_alter). case_decide; [|done]. cbn [fst]. etrans; [exact H1|].
  apply keeps_cooling. rewrite graft_cooling. case_decide; [|done]. case_match; [apply prune_cooling|done].
Qed.

Lemma set_connected_probes (m : TopicMesh) (X : gset PeerId) : keeps_probes m (set_connected m X).
Proof.
  unfold set_connected. cbv zeta. set (m1 := clear_disconnected_peer_cooling _ X).
  destruct (add_new_lazy_fold (siter X) m1) as (_ & _ & _ & _ & _ & _ & E & _). cbv zeta in E.
  apply keeps_sub. rewrite E. apply map_filter_subseteq.
Qed.

Lemma connected_maintained (m m' : TopicMesh) (X : gset PeerId) (pref : option PeerId) (now : Z) (n : nat * nat) (b : bool) :
  mesh_ok m → set_topic_peers_with_preferred_eager m X pref now = Some (m', n, b) → keeps_probes (set_connected m X) m'.
Proof.
  intros Hok E. unfold set_topic_peers_with_preferred_eager in E. destruct (set_connected_spec m X) as (Hd & _ & E1 & E2 & E3). cbv zeta in *.
  apply bind_Some in E as ([m2 n2] & E & E'). simplify_eq.
  pose proof (ok_disjoint _ Hok). pose proof (ok_configured _ Hok). pose proof (ok_ceiling _ Hok). destruct pref as [p|].
  - etrans; [|eapply maintain_probes, E]; [by apply keeps_cooling|]. split; cbn; [by apply Hd|]. rewrite ?E2. lia.
  - eapply maintain_probes, E. split; [by apply Hd|]. rewrite E1, E3. lia.
Qed.

(** Disconnected peers have no probe in flight. *)
Lemma connected_probes (m m' : TopicMesh) (X : gset PeerId) (pref : option PeerId) (now : Z) (n : nat * nat) (b : bool) :
  mesh_ok m → set_topic_peers_with_preferred_eager m X pref now = Some (m', n, b) →
  keeps_probes m m' ∧ ∀ p i, in_flight m' p i → p ∈ X.
Proof.
  intros Hok E%connected_maintained; [|done]. split; [etrans; [apply set_connected_probes|done]|].
  intros p i (c & Hc & _)%E. unfold set_connected in Hc. cbv zeta in Hc. set (m1 := clear_disconnected_peer_cooling _ X) in Hc.
  destruct (add_new_lazy_fold (siter X) m1) as (_ & _ & _ & _ & _ & _ & E4 & _). cbv zeta in E4. rewrite E4 in Hc.
  by apply map_lookup_filter_Some in Hc as [_ Hp].
Qed.

(** Only a claim that arms a probe adds one. *)
Lemma mesh_step_probes (m m' : TopicMesh) :
  mesh_ok m → mesh_step m m' →
  keeps_probes m m' ∨ ∃ next p now crit conn granted, m' = (claim_one m next p now crit conn granted).1.1.
Proof.
  intros Hok Hs. pose proof (mesh_ok_wf _ Hok) as Hwf. pose proof (ok_disjoint _ Hok). pose proof (ok_configured _ Hok).
  pose proof (ok_ceiling _ Hok). destruct Hs; try (right; by repeat eexists); left.
  - apply keeps_cooling, prune_cooling.
  - apply keeps_cooling. unfold add_new_peer_lazy. by case_decide.
  - by eapply maintain_probes.
  - by eapply connected_probes.
  - unfold initialize_topic_peers in *. destruct (add_new_lazy_fold ps m) as (_ & Hd & _ & E1 & _ & E3 & E4 & _). cbv zeta in *.
    etrans; [apply keeps_cooling, E4|]. eapply maintain_probes; [|done]. split; [by apply Hd|]. rewrite E1, E3. lia.
  - unfold set_topic_preferred_eager_set in *. cbv zeta in *. simplify_option_eq. case_match; simplify_eq.
    etrans; [|eapply maintain_probes; [|eassumption]]; [by apply keeps_cooling|]. split; cbn; [done|]. lia.
  - unfold set_eager_degree_ceiling in *. etrans; [|eapply maintain_probes; [|eassumption]]; [by apply keeps_cooling|].
    split; cbn; [done|]. case_decide; unfold MAX_EAGER_DEGREE; lia.
  - apply keeps_sub, map_filter_subseteq.
  - apply evict_probes.
  - apply rescue_probes.
  - apply abandon_keeps.
  - by eapply success_probes.
  - apply timeout_probes.
  - apply keeps_sub, delete_subseteq.
  - by apply keeps_cooling.
  - apply keeps_sub, map_filter_subseteq.
  - apply keeps_sub, map_filter_subseteq.
  - by apply keeps_cooling.
Qed.

End Probes.
End Probes.
