(* ===== verification/EagerReply.v ===== *)
(** * Replies to IWANT requests ([crates/pubsub/src/lib.rs], the lifecycle of
      [DeferredEagerReply] and [EagerReplyClaim])

    A peer that asks for a cached message by IWANT is answered with a full
    copy.  Two records per (requester, message) track the answer: custody, a
    request that waits for a retry tick, and a claim, one answer between its
    claim and its completion.  The IWANT handler and the retry tick both claim
    before they send; a completion presents its token and has an effect only
    while the claim still carries it.

    Every access is a critical section under the topic's write lock; what
    happens between them (limiter, admission, signing, transport) is a choice
    of the step.  [Node] holds one topic, the process-wide counters and the
    tasks between their critical sections; [exec] is one critical section.
    The counters do not wrap here: the code's are 64 bits wide. *)

From S2P Require Import Prelude Types Float64 PeerTiming MessageCache TopicMesh Announce.
Import F64 Timing MessageCache TopicMesh Announce.

#[local] Open Scope Z_scope.

Module EagerReply.

Definition MAX_DEFERRED_EAGER_REPLIES : nat := MAX_IHAVE_BATCH_SIZE.
Definition EAGER_REPLY_CLAIM_TTL : Z := PER_PEER_TIMEOUT_CEILING * 6.

Record DeferredEagerReply := mkDeferred {
  d_id : Z;
  d_peer : PeerId;
  d_msg_id : MessageIdType;
  d_requested_at : Z;
}.
#[global] Instance deferred_eq_dec : EqDecision DeferredEagerReply.
Proof. solve_decision. Defined.

Record EagerReplyClaim := mkClaim {
  c_token : Z;
  c_claimed_at : Z;
  c_rerequested : bool;
  c_probe : option Z;
}.

Record EagerReplyCompletion := mkCompletion {
  e_peer : PeerId;
  e_msg_id : MessageIdType;
  e_token : Z;
  e_own_custody : option DeferredEagerReply;
}.

Record AdmittedEagerReply := mkAdmission {
  a_completion : EagerReplyCompletion;
  a_rerequested : bool;
}.

Inductive EagerReplyOutcome := Sent | Deferred | Failed.
#[global] Instance outcome_eq_dec : EqDecision EagerReplyOutcome.
Proof. solve_decision. Defined.

#[global] Instance attempt_eq_dec : EqDecision PeerSendAttempt.
Proof. solve_decision. Defined.

Definition Key : Type := PeerId * MessageIdType.
Definition d_key (e : DeferredEagerReply) : Key := (d_peer e, d_msg_id e).
Definition e_key (c : EagerReplyCompletion) : Key := (e_peer c, e_msg_id c).

Section EagerReply.
Context `{Libm} `{!SetIter PeerId} `{!LruCache MessageIdType CachedEntry}.

(** The fields of [TopicState] that the replies use. *)
Record Topic := mkTopic {
  mesh : TopicMesh;
  queues : Queues;
  cache : BoundedMessageCache;
  deferred_eager_replies : list DeferredEagerReply;
  eager_reply_claims : gmap Key EagerReplyClaim;
}.
Definition set_mesh (s : Topic) (m : TopicMesh) : Topic := mkTopic m (queues s) (cache s) (deferred_eager_replies s) (eager_reply_claims s).
Definition set_custody (s : Topic) (l : list DeferredEagerReply) : Topic := mkTopic (mesh s) (queues s) (cache s) l (eager_reply_claims s).
Definition set_claims (s : Topic) (m : gmap Key EagerReplyClaim) : Topic := mkTopic (mesh s) (queues s) (cache s) (deferred_eager_replies s) m.

(** ** The operations of a topic *)

Definition claim_live (now : Z) (c : EagerReplyClaim) : bool := bool_decide (elapsed_ns now (c_claimed_at c) < EAGER_REPLY_CLAIM_TTL).

(** The probes of the claims that expire, with their peers. *)
Definition expired_probes (s : Topic) (now : Z) : list (PeerId * Z) :=
  omap (λ kc : Key * EagerReplyClaim, if claim_live now kc.2 then None else pair kc.1.1 <$> c_probe kc.2)
    (map_to_list (eager_reply_claims s)).

Definition prune_eager_reply_claims (s : Topic) (now : Z) : Topic :=
  let s' := set_claims s (filter (λ kc, claim_live now kc.2 = true) (eager_reply_claims s)) in
  set_mesh s' (foldl (λ m pp, abandon_unsent_recovery_probe m pp.1 (Some pp.2)) (mesh s') (expired_probes s now)).

(** The message of a reply can still be served. *)
Definition servable (c : BoundedMessageCache) (id : MessageIdType) : bool :=
  match assoc id (lru_iter (entries c)) with Some e => negb (dropped (message e)) | None => false end.

Definition custody_live (c : BoundedMessageCache) (now : Z) (e : DeferredEagerReply) : bool :=
  bool_decide (elapsed_ns now (d_requested_at e) < max_age c) && servable c (d_msg_id e).

Definition prune_deferred_eager_replies (s : Topic) (now : Z) : Topic :=
  let c := prune_expired_at (cache s) now in
  prune_eager_reply_claims (mkTopic (mesh s) (queues s) c
    (filter (λ e, custody_live c now e = true) (deferred_eager_replies s)) (eager_reply_claims s)) now.

Definition attach_probe_to_eager_reply_claim (s : Topic) (k : Key) (token : Z) (a : PeerSendAttempt) : Topic :=
  if decide (at_kind a = SendAttemptKind.RecoveryProbe) then
    match eager_reply_claims s !! k with
    | Some c =>
        if decide (c_token c = token) then
          set_claims s (<[k := mkClaim (c_token c) (c_claimed_at c) (c_rerequested c) (at_probe_id a)]> (eager_reply_claims s))
        else s
    | None => s
    end
  else s.

Definition eager_reply_claimed (s : Topic) (k : Key) : bool := bool_decide (is_Some (eager_reply_claims s !! k)).

Definition insert_eager_reply_claim (s : Topic) (k : Key) (token now : Z) : Topic :=
  set_claims s (<[k := mkClaim token now false None]> (eager_reply_claims s)).

(** [true]: this serve owns the reply, under [token]. *)
Definition claim_eager_reply_for_iwant (s : Topic) (k : Key) (token now : Z) : Topic * bool :=
  let s := prune_eager_reply_claims s now in
  match eager_reply_claims s !! k with
  | Some c => (set_claims s (<[k := mkClaim (c_token c) (c_claimed_at c) true (c_probe c)]> (eager_reply_claims s)), false)
  | None => (insert_eager_reply_claim s k token now, true)
  end.

Definition drop_own (s : Topic) (own : option DeferredEagerReply) : Topic :=
  match own with
  | Some e => set_custody s (filter (λ x, d_id x ≠ d_id e) (deferred_eager_replies s))
  | None => s
  end.

Definition admit_eager_reply_completion (s : Topic) (c : EagerReplyCompletion) : Topic * option AdmittedEagerReply :=
  match eager_reply_claims s !! e_key c with
  | Some cl =>
      if decide (c_token cl = e_token c)
      then (set_claims s (delete (e_key c) (eager_reply_claims s)), Some (mkAdmission c (c_rerequested cl)))
      else (drop_own s (e_own_custody c), None)
  | None => (drop_own s (e_own_custody c), None)
  end.

(** [next] is the process-wide custody counter. *)
Definition retain_deferred_eager_reply (s : Topic) (next : Z) (k : Key) (now : Z) : Topic * Z * bool :=
  let s := prune_deferred_eager_replies s now in
  if existsb (λ e, bool_decide (d_key e = k)) (deferred_eager_replies s) then (s, next, true)
  else if decide (MAX_DEFERRED_EAGER_REPLIES <= length (deferred_eager_replies s))%nat then (s, next, false)
  else (set_custody s (deferred_eager_replies s ++ [mkDeferred next k.1 k.2 now]), next + 1, true).

Definition apply_eager_reply_outcome (s : Topic) (next : Z) (a : AdmittedEagerReply) (o : EagerReplyOutcome) (now : Z) : Topic * Z :=
  let c := a_completion a in
  match o with
  | Sent =>
      (mkTopic (mesh s)
         (record_lazy_withheld_served (record_stranded_ihave_served (queues s) (e_msg_id c) (e_peer c)) (e_msg_id c) (e_peer c))
         (cache s) (filter (λ e, d_key e ≠ e_key c) (deferred_eager_replies s)) (eager_reply_claims s), next)
  | Deferred => (retain_deferred_eager_reply s next (e_key c) now).1
  | Failed =>
      let s := drop_own s (e_own_custody c) in
      if a_rerequested a then (retain_deferred_eager_reply s next (e_key c) now).1 else (s, next)
  end.

Definition settle_eager_reply (s : Topic) (next : Z) (c : EagerReplyCompletion) (o : EagerReplyOutcome) (now : Z) : Topic * Z :=
  match admit_eager_reply_completion s c with
  | (s, Some a) => apply_eager_reply_outcome s next a o now
  | (s, None) => (s, next)
  end.

Definition drop_eager_reply_records_for_peer (s : Topic) (p : PeerId) : Topic :=
  mkTopic (mesh s) (queues s) (cache s) (filter (λ e, d_peer e ≠ p) (deferred_eager_replies s))
    (filter (λ kc, kc.1.1 ≠ p) (eager_reply_claims s)).

(** [evict_not_connected_peer], with the reply records. *)
Definition evict_peer (s : Topic) (p : PeerId) : Topic :=
  set_mesh (drop_eager_reply_records_for_peer s p) (evict_not_connected_peer (mesh s) p).1.

(** The disconnect cleanup of [set_topic_peers_with_preferred_eager]; [None] is a panic. *)
Definition set_topic_peers (s : Topic) (connected : gset PeerId) (preferred : option PeerId) (now : Z) : option Topic :=
  '(m, _, _) ← set_topic_peers_with_preferred_eager (mesh s) connected preferred now;
  Some (mkTopic m (queues s) (cache s) (filter (λ e, d_peer e ∈ connected) (deferred_eager_replies s))
    (filter (λ kc, kc.1.1 ∈ connected) (eager_reply_claims s))).

(** ** Booking *)

Record SendAttemptResults := mkResults {
  r_sent : list PeerSendAttempt;
  r_timed_out : list PeerSendAttempt;
  r_not_connected : list PeerSendAttempt;
}.

Section Booking.
Context (config : AdaptiveCoolingConfig) (health : PeerId → option PeerHealth).

Fixpoint book_sent (m : TopicMesh) (now : Z) (l : list PeerSendAttempt) : option TopicMesh :=
  match l with
  | [] => Some m
  | a :: l => '(m, _) ← record_send_success_with_context_at m a now config; book_sent m now l
  end.

(** [book_topic_send_attempt_results] on a topic; [None] is a panic. *)
Definition book_topic_send_attempt_results (s : Topic) (r : SendAttemptResults) (now : Z) : option Topic :=
  m ← book_sent (mesh s) now (r_sent r);
  let s := foldl (λ s a, evict_peer s (at_peer a)) (set_mesh s m) (r_not_connected r) in
  Some (set_mesh s (foldl (λ m a, (record_send_timeout_inner_at m a now (Some config) (health (at_peer a))).1) (mesh s) (r_timed_out r))).

Definition complete_eager_reply (s : Topic) (next : Z) (c : EagerReplyCompletion) (o : EagerReplyOutcome) (r : SendAttemptResults) (now : Z) :
    option (Topic * Z) :=
  match admit_eager_reply_completion s c with
  | (s, None) => Some (s, next)
  | (s, Some a) =>
      let '(s, next) := apply_eager_reply_outcome s next a o now in
      s ← book_topic_send_attempt_results s r now; Some (s, next)
  end.
End Booking.

(** How a send task ends. *)
Inductive SendResult := RSent | RTimedOut | RNotConnected | RDeferred | RError | RPanicked.

Definition recovery_probe_timeout (a : PeerSendAttempt) : list PeerSendAttempt :=
  if decide (at_kind a = SendAttemptKind.RecoveryProbe) then [a] else [].

(** The end of [send_to_peer_bounded_outcome_tracked]. *)
Definition tracked_booking (a : PeerSendAttempt) (r : SendResult) : EagerReplyOutcome * SendAttemptResults :=
  match r with
  | RSent => (Sent, mkResults [a] [] [])
  | RTimedOut => (Failed, mkResults [] [a] [])
  | RNotConnected => (Failed, mkResults [] [] [a])
  | RDeferred => (Deferred, mkResults [] (recovery_probe_timeout a) [])
  | RError | RPanicked => (Failed, mkResults [] (recovery_probe_timeout a) [])
  end.

(** [SendTaskSet::collect_results] on one attempt, and the outcome that the
    retry tick derives from it. *)
Definition collect_results (a : PeerSendAttempt) (r : SendResult) : SendAttemptResults :=
  match r with
  | RSent => mkResults [a] [] []
  | RNotConnected => mkResults [] [] [a]
  | RTimedOut | RDeferred | RError => mkResults [] [a] []
  | RPanicked => mkResults [] (recovery_probe_timeout a) []
  end.
Definition retry_outcome (r : SendAttemptResults) : EagerReplyOutcome :=
  if decide (r_sent r ≠ []) then Sent
  else if decide (r_timed_out r ≠ [] ∨ r_not_connected r ≠ []) then Failed
  else Deferred.
Definition retry_booking (a : PeerSendAttempt) (r : SendResult) : EagerReplyOutcome * SendAttemptResults :=
  (retry_outcome (collect_results a r), collect_results a r).

(** ** The tasks *)

(** A reply task between two critical sections; it is known by its token.
    - [Serving]: an IWANT serve that holds the claim and has not sent;
    - [Sending]: the attempt is with the transport (an IWANT serve, or a
      retry when the completion names custody);
    - [Settling]: an IWANT serve about to present its outcome;
    - [Dropping]: the send was cancelled and its guard books the probe. *)
Inductive Thread :=
| Serving (k : Key)
| Sending (c : EagerReplyCompletion) (a : PeerSendAttempt)
| Settling (c : EagerReplyCompletion) (o : EagerReplyOutcome)
| Dropping (c : EagerReplyCompletion) (a : PeerSendAttempt).

Record Node := mkNode {
  topic : option Topic;
  next_custody : Z;
  next_token : Z;
  next_probe : Z;
  threads : gmap Z Thread;
  ticks : list DeferredEagerReply;
  plain : list PeerSendAttempt;
}.

Definition with_topic (n : Node) (s : Topic) : Node :=
  mkNode (Some s) (next_custody n) (next_token n) (next_probe n) (threads n) (ticks n) (plain n).
Definition with_threads (n : Node) (ts : gmap Z Thread) : Node :=
  mkNode (topic n) (next_custody n) (next_token n) (next_probe n) ts (ticks n) (plain n).
Definition with_ticks (n : Node) (l : list DeferredEagerReply) : Node :=
  mkNode (topic n) (next_custody n) (next_token n) (next_probe n) (threads n) l (plain n).
Definition with_plain (n : Node) (l : list PeerSendAttempt) : Node :=
  mkNode (topic n) (next_custody n) (next_token n) (next_probe n) (threads n) (ticks n) l.
Definition with_probe (n : Node) (i : Z) : Node :=
  mkNode (topic n) (next_custody n) (next_token n) i (threads n) (ticks n) (plain n).
Definition with_custody (n : Node) (i : Z) : Node :=
  mkNode (topic n) i (next_token n) (next_probe n) (threads n) (ticks n) (plain n).

(** The process takes the next token for a new task. *)
Definition spawn (n : Node) (t : Thread) : Node :=
  mkNode (topic n) (next_custody n) (next_token n + 1) (next_probe n) (<[next_token n := t]> (threads n)) (ticks n) (plain n).
Definition move (n : Node) (t : Z) (th : Thread) : Node := with_threads n (<[t := th]> (threads n)).
Definition finish (n : Node) (t : Z) : Node := with_threads n (delete t (threads n)).

Definition current (s : Topic) (k : Key) (t : Z) : bool := bool_decide (c_token <$> eager_reply_claims s !! k = Some t).

Definition serve_completion (k : Key) (t : Z) : EagerReplyCompletion := mkCompletion k.1 k.2 t None.
Definition retry_completion (e : DeferredEagerReply) (t : Z) : EagerReplyCompletion := mkCompletion (d_peer e) (d_msg_id e) t (Some e).

(** [claim_topic_send_attempts_for_reply] for a serve: [conn] is the
    transport's view of the peer, [granted] the outbound budget's. *)
Definition claim_for_reply (n : Node) (t : Z) (k : Key) (now : Z) (critical : bool) (conn : option bool) (granted : bool) : Node :=
  let refused n := move n t (Settling (serve_completion k t) Deferred) in
  match topic n with
  | Some s =>
      if current s k t then
        match claim_one (mesh s) (next_probe n) k.1 now critical conn granted with
        | (m, i, None) => refused (with_probe (with_topic n (set_mesh s m)) i)
        | (m, i, Some a) =>
            let s := attach_probe_to_eager_reply_claim (set_mesh s m) k t a in
            move (with_probe (with_topic n s) i) t (Sending (serve_completion k t) a)
        end
      else refused n
  | None => refused n
  end.

(** The last critical section of [flush_deferred_eager_replies] for one
    entry. *)
Definition retry_claim (n : Node) (s : Topic) (e : DeferredEagerReply) (now : Z) (admitted critical : bool) (conn : option bool) (granted : bool) : Node :=
  let k := d_key e in
  let s := prune_eager_reply_claims s now in
  if eager_reply_claimed s k || negb admitted then with_topic n s
  else
    match claim_one (mesh s) (next_probe n) (d_peer e) now critical conn granted with
    | (m, i, None) => with_probe (with_topic n (set_mesh s m)) i
    | (m, i, Some a) =>
        let t := next_token n in
        let s := attach_probe_to_eager_reply_claim (insert_eager_reply_claim (set_mesh s m) k t now) k t a in
        spawn (with_probe (with_topic n s) i) (Sending (retry_completion e t) a)
    end.

Fixpoint remove_first {A} `{!EqDecision A} (x : A) (l : list A) : list A :=
  match l with
  | [] => []
  | y :: l => if decide (x = y) then l else y :: remove_first x l
  end.

(** The first critical section of the retry for one entry. *)
Definition retry_tick (n : Node) (s : Topic) (e : DeferredEagerReply) (now : Z) : Node :=
  let s := prune_deferred_eager_replies s now in
  if bool_decide (e ∈ deferred_eager_replies s) && negb (eager_reply_claimed s (d_key e))
  then with_ticks (with_topic n s) (ticks n ++ [e]) else with_topic n s.

(** A reply that may not be sent any more leaves custody. *)
Definition discard (n : Node) (e : DeferredEagerReply) : Node :=
  match topic n with
  | None => n
  | Some s => with_topic n (set_custody s (filter (λ x, x ≠ e) (deferred_eager_replies s)))
  end.

(** The guard of a cancelled send: it books a probe, later and under the
    lock, and nothing otherwise. *)
Definition drop_claims (n : Node) (t : Z) (c : EagerReplyCompletion) (a : PeerSendAttempt) : Node :=
  if decide (at_kind a = SendAttemptKind.RecoveryProbe) then move n t (Dropping c a) else finish n t.

(** ** Critical sections *)

Inductive Op :=
| OIwant (k : Key) (now : Z)
| ORefuse (t : Z) (failed : bool)
| OClaim (t : Z) (now : Z) (critical : bool) (conn : option bool) (granted : bool)
| OComplete (t : Z) (r : SendResult) (now : Z) (health : PeerId → option PeerHealth)
| OCancel (t : Z)
| ODropBook (t : Z) (now : Z) (health : PeerId → option PeerHealth)
| OSettle (t : Z) (now : Z)
| OAbort (t : Z)
| OTick (e : DeferredEagerReply) (now : Z)
| OSkip (e : DeferredEagerReply)
| ODiscard (e : DeferredEagerReply)
| ORetry (e : DeferredEagerReply) (now : Z) (admitted critical : bool) (conn : option bool) (granted : bool)
| OPlainClaim (p : PeerId) (now : Z) (critical : bool) (conn : option bool) (granted : bool)
| OPlainBook (a : PeerSendAttempt) (r : SendResult) (now : Z) (health : PeerId → option PeerHealth)
| OPrune (now : Z)
| OConnected (connected : gset PeerId) (preferred : option PeerId) (now : Z)
| ORemoveTopic
| ONewTopic (degree : nat) (c : BoundedMessageCache).

Section Exec.
Context (config : AdaptiveCoolingConfig).

(** A completion presented through [complete_eager_reply]; without the topic
    nothing is left to complete. *)
Definition present (n : Node) (c : EagerReplyCompletion) (b : EagerReplyOutcome * SendAttemptResults) (now : Z) (health : PeerId → option PeerHealth) : option Node :=
  match topic n with
  | None => Some n
  | Some s => '(s, i) ← complete_eager_reply config health s (next_custody n) c b.1 b.2 now; Some (with_custody (with_topic n s) i)
  end.

Definition booking (c : EagerReplyCompletion) (a : PeerSendAttempt) (r : SendResult) : EagerReplyOutcome * SendAttemptResults :=
  match e_own_custody c with Some _ => retry_booking a r | None => tracked_booking a r end.

(** [None]: the section does not apply, or it panics. *)
Definition exec (n : Node) (o : Op) : option Node :=
  match o with
  | OIwant k now =>
      s ← topic n;
      let '(s, owns) := claim_eager_reply_for_iwant s k (next_token n) now in
      Some (if (owns : bool) then spawn (with_topic n s) (Serving k) else with_topic n s)
  | ORefuse t failed =>
      match threads n !! t with
      | Some (Serving k) => Some (move n t (Settling (serve_completion k t) (if failed then Failed else Deferred)))
      | _ => None
      end
  | OClaim t now critical conn granted =>
      match threads n !! t with
      | Some (Serving k) => Some (claim_for_reply n t k now critical conn granted)
      | _ => None
      end
  | OComplete t r now health =>
      match threads n !! t with
      | Some (Sending c a) =>
          n' ← present n c (booking c a r) now health;
          Some (match e_own_custody c with
                | Some _ => finish n' t
                | None => move n' t (Settling c (booking c a r).1)
                end)
      | _ => None
      end
  | OCancel t =>
      match threads n !! t with
      | Some (Sending c a) => Some (drop_claims n t c a)
      | _ => None
      end
  | ODropBook t now health =>
      match threads n !! t with
      | Some (Dropping c a) => n' ← present n c (Failed, mkResults [] [a] []) now health; Some (finish n' t)
      | _ => None
      end
  | OSettle t now =>
      match threads n !! t with
      | Some (Settling c o) =>
          Some (finish (match topic n with
                        | None => n
                        | Some s => let '(s, i) := settle_eager_reply s (next_custody n) c o now in with_custody (with_topic n s) i
                        end) t)
      | _ => None
      end
  | OAbort t => Some (finish n t)
  | OTick e now => s ← topic n; Some (retry_tick n s e now)
  | OSkip e => Some (with_ticks n (remove_first e (ticks n)))
  | ODiscard e =>
      if decide (e ∈ ticks n) then
        let n := with_ticks n (remove_first e (ticks n)) in
        Some (discard n e)
      else None
  | ORetry e now admitted critical conn granted =>
      if decide (e ∈ ticks n) then
        let n := with_ticks n (remove_first e (ticks n)) in
        Some (match topic n with
              | None => n
              | Some s => retry_claim n s e now admitted critical conn granted
              end)
      else None
  | OPlainClaim p now critical conn granted =>
      s ← topic n;
      match claim_one (mesh s) (next_probe n) p now critical conn granted with
      | (m, i, None) => Some (with_probe (with_topic n (set_mesh s m)) i)
      | (m, i, Some a) => Some (with_plain (with_probe (with_topic n (set_mesh s m)) i) (plain n ++ [a]))
      end
  | OPlainBook a r now health =>
      if decide (a ∈ plain n) then
        let n := with_plain n (remove_first a (plain n)) in
        match topic n with
        | None => Some n
        | Some s => s ← book_topic_send_attempt_results config health s (collect_results a r) now; Some (with_topic n s)
        end
      else None
  | OPrune now => s ← topic n; Some (with_topic n (prune_deferred_eager_replies (prune_eager_reply_claims s now) now))
  | OConnected connected preferred now => s ← topic n; s ← set_topic_peers s connected preferred now; Some (with_topic n s)
  | ORemoveTopic => Some (mkNode None (next_custody n) (next_token n) (next_probe n) (threads n) (ticks n) (plain n))
  | ONewTopic degree c =>
      if decide (topic n = None ∧ (1 <= degree)%nat)
      then Some (with_topic n (mkTopic (mesh_new degree) queues_new c [] ∅)) else None
  end.

Fixpoint run (n : Node) (ops : list Op) : option Node :=
  match ops with
  | [] => Some n
  | o :: ops => n ← exec n o; run n ops
  end.
End Exec.

Definition node_new : Node := mkNode None 1 1 1 ∅ [] [].

(** ** The specification: one reply, seen through its two records *)

Record Owner := mkOwner { o_token : Z; o_since : Z; o_again : bool }.
Record Reply := mkReply { v_custody : option DeferredEagerReply; v_owner : option Owner }.

Definition no_reply : Reply := mkReply None None.

(** The states of the lifecycle table. *)
Inductive Phase := Idle | Pending | InFlight (t : Z).
Definition phase (v : Reply) : Phase :=
  match v_owner v, v_custody v with
  | Some o, _ => InFlight (o_token o)
  | None, Some _ => Pending
  | None, None => Idle
  end.

(** What happens to a reply.  [live] tells which custody entries survive the
    pruning at that moment, [fresh] is the entry that a request put back into
    custody gets ([None] when custody is full). *)
Inductive Event :=
| EvExpireClaims (now : Z)
| EvExpire (live : DeferredEagerReply → bool)
| EvIwant (t now : Z)
| EvRetry (t now : Z)
| EvComplete (t : Z) (own : option DeferredEagerReply) (o : EagerReplyOutcome) (live : DeferredEagerReply → bool) (fresh : option DeferredEagerReply)
| EvDiscard (e : DeferredEagerReply)
| EvDrop.

Definition keep {A} (p : A → bool) (x : option A) : option A := y ← x; if p y then Some y else None.
Definition not_own (own : option DeferredEagerReply) (x : DeferredEagerReply) : bool := bool_decide (Some (d_id x) ≠ d_id <$> own).
Definition owner_live (now : Z) (o : Owner) : bool := bool_decide (elapsed_ns now (o_since o) < EAGER_REPLY_CLAIM_TTL).
Definition requeue (live : DeferredEagerReply → bool) (fresh x : option DeferredEagerReply) : option DeferredEagerReply :=
  match keep live x with Some e => Some e | None => fresh end.

Definition next (v : Reply) (ev : Event) : Reply :=
  match ev with
  | EvExpireClaims now => mkReply (v_custody v) (keep (owner_live now) (v_owner v))
  | EvExpire live => mkReply (keep live (v_custody v)) (v_owner v)
  | EvIwant t now =>
      mkReply (v_custody v) (Some (match v_owner v with Some o => mkOwner (o_token o) (o_since o) true | None => mkOwner t now false end))
  | EvRetry t now => mkReply (v_custody v) (Some (default (mkOwner t now false) (v_owner v)))
  | EvComplete t own o live fresh =>
      if decide (o_token <$> v_owner v = Some t) then
        mkReply (match o with
                 | Sent => None
                 | Deferred => requeue live fresh (v_custody v)
                 | Failed =>
                     let x := keep (not_own own) (v_custody v) in
                     if default false (o_again <$> v_owner v) then requeue live fresh x else x
                 end) None
      else mkReply (keep (not_own own) (v_custody v)) (v_owner v)
  | EvDiscard e => mkReply (keep (λ x, bool_decide (x ≠ e)) (v_custody v)) (v_owner v)
  | EvDrop => no_reply
  end.

(** ** The documented table

    The rows of the table above [DeferredEagerReply], with its two notes, and
    nothing else: the event, the reply it finds and the phase it leaves.  "Custody
    for [k] remains" is custody other than the completion's own entry; a
    completion of a token that is not current is stale.  A pruning that finds
    nothing old, or the removal of an entry that is not there, leaves the phase
    as it is ([row_not_expired], [row_no_ttl], [row_other]). *)
Inductive row : Event → Reply → Phase → Prop :=
| row_claim t now v : phase v = Idle ∨ phase v = Pending → row (EvIwant t now) v (InFlight t)
| row_coalesced t now v u : phase v = InFlight u → row (EvIwant t now) v (InFlight u)
| row_retry t now v : phase v = Pending → row (EvRetry t now) v (InFlight t)
| row_skipped t now v u : phase v = InFlight u → row (EvRetry t now) v (InFlight u)
| row_sent t own live fresh v : phase v = InFlight t → row (EvComplete t own Sent live fresh) v Idle
| row_deferred t own live fresh v : phase v = InFlight t → row (EvComplete t own Deferred live fresh) v Pending
| row_failed_idle t own live fresh v :
    phase v = InFlight t → o_again <$> v_owner v = Some false → keep (not_own own) (v_custody v) = None → row (EvComplete t own Failed live fresh) v Idle
| row_failed_remains t own live fresh v e :
    phase v = InFlight t → o_again <$> v_owner v = Some false → keep (not_own own) (v_custody v) = Some e → row (EvComplete t own Failed live fresh) v Pending
| row_failed_again t own live fresh v :
    phase v = InFlight t → o_again <$> v_owner v = Some true → row (EvComplete t own Failed live fresh) v Pending
| row_stale t own o live fresh v :
    phase v ≠ InFlight t → (∀ e, phase v = Pending → v_custody v = Some e → not_own own e = true) → row (EvComplete t own o live fresh) v (phase v)
| row_stale_own t own o live fresh v e :
    phase v = Pending → v_custody v = Some e → not_own own e = false → row (EvComplete t own o live fresh) v Idle
| row_drop v : row EvDrop v Idle
| row_expired live v e : phase v = Pending → v_custody v = Some e → live e = false → row (EvExpire live) v Idle
| row_not_expired live v : (∀ e, phase v = Pending → v_custody v = Some e → live e = true) → row (EvExpire live) v (phase v)
| row_ttl now v o : v_owner v = Some o → owner_live now o = false → row (EvExpireClaims now) v (phase (mkReply (v_custody v) None))
| row_no_ttl now v : (∀ o, v_owner v = Some o → owner_live now o = true) → row (EvExpireClaims now) v (phase v)
| row_other e v : v_custody v ≠ Some e ∨ phase v ≠ Pending → row (EvDiscard e) v (phase v).

(** What the code does besides: a retry claims a reply whose custody was dropped
    since the tick looked ([retry_claim] re-reads the claim only); a request that
    should return to custody is lost when custody is full
    ([retain_deferred_eager_reply]'s answer is not looked at); and the flusher
    gives up a request whose payload it may not forward or cannot sign. *)
Inductive deviation : Event → Reply → Phase → Prop :=
| dev_retry t now v : phase v = Idle → deviation (EvRetry t now) v (InFlight t)
| dev_full t own o live v :
    phase v = InFlight t → o = Deferred ∨ (o = Failed ∧ o_again <$> v_owner v = Some true) →
    keep live (if decide (o = Failed) then keep (not_own own) (v_custody v) else v_custody v) = None → deviation (EvComplete t own o live None) v Idle
| dev_discard e v : phase v = Pending → v_custody v = Some e → deviation (EvDiscard e) v Idle.

(** What a topic shows of a key. *)
Definition view_claim (c : EagerReplyClaim) : Owner := mkOwner (c_token c) (c_claimed_at c) (c_rerequested c).
Definition view (s : Topic) (k : Key) : Reply :=
  mkReply (List.find (λ e, bool_decide (d_key e = k)) (deferred_eager_replies s)) (view_claim <$> eager_reply_claims s !! k).
Definition node_view (n : Node) (k : Key) : Reply := default no_reply (flip view k <$> topic n).

(** *** The events of a critical section, for one key *)

Definition cache_live (s : Topic) (now : Z) : DeferredEagerReply → bool := custody_live (prune_expired_at (cache s) now) now.

(** [prune_deferred_eager_replies]: custody, then claims. *)
Definition expire_events (s : Topic) (now : Z) : list Event := [EvExpire (cache_live s now); EvExpireClaims now].

Definition requeues (s : Topic) (c : EagerReplyCompletion) (o : EagerReplyOutcome) : bool :=
  match o with
  | Sent => false
  | Deferred => true
  | Failed => default false (c_rerequested <$> eager_reply_claims s !! e_key c)
  end.
(** The entry a requeued request gets. *)
Definition fresh_entry (s : Topic) (i : Z) (c : EagerReplyCompletion) (o : EagerReplyOutcome) (now : Z) : option DeferredEagerReply :=
  let l := match o with Failed => deferred_eager_replies (drop_own s (e_own_custody c)) | _ => deferred_eager_replies s end in
  if decide (MAX_DEFERRED_EAGER_REPLIES <= length (filter (λ e, cache_live s now e = true) l))%nat then None
  else Some (mkDeferred i (e_peer c) (e_msg_id c) now).

Definition settle_events (s : Topic) (i : Z) (c : EagerReplyCompletion) (o : EagerReplyOutcome) (now : Z) (k : Key) : list Event :=
  if decide (k = e_key c) then [EvComplete (e_token c) (e_own_custody c) o (cache_live s now) (fresh_entry s i c o now)]
  else if current s (e_key c) (e_token c) && requeues s c o then expire_events s now else [].

Definition gone_from (k : Key) (l : list PeerSendAttempt) : bool := existsb (λ a, bool_decide (at_peer a = k.1)) l.

Definition completion_events (n : Node) (s : Topic) (c : EagerReplyCompletion) (o : EagerReplyOutcome) (gone : list PeerSendAttempt) (now : Z) (k : Key) : list Event :=
  settle_events s (next_custody n) c o now k
  ++ (if current s (e_key c) (e_token c) && gone_from k gone then [EvDrop] else []).

Definition events (n : Node) (op : Op) (k : Key) : list Event :=
  match topic n with
  | None => []
  | Some s =>
      match op with
      | OIwant k' now => EvExpireClaims now :: (if decide (k = k') then [EvIwant (next_token n) now] else [])
      | OComplete t r now _ =>
          match threads n !! t with
          | Some (Sending c a) => completion_events n s c (booking c a r).1 (r_not_connected (booking c a r).2) now k
          | _ => []
          end
      | ODropBook t now _ =>
          match threads n !! t with Some (Dropping c a) => completion_events n s c Failed [] now k | _ => [] end
      | OSettle t now =>
          match threads n !! t with Some (Settling c o) => completion_events n s c o [] now k | _ => [] end
      | OTick _ now => expire_events s now
      | ODiscard e => [EvDiscard e]
      | ORetry e now admitted critical conn granted =>
          EvExpireClaims now ::
          (if decide (k = d_key e) then
             let s' := prune_eager_reply_claims s now in
             if admitted && bool_decide (is_Some (claim_one (mesh s') (next_probe n) (d_peer e) now critical conn granted).2)
             then [EvRetry (next_token n) now] else []
           else [])
      | OPlainBook a r _ _ => if gone_from k (r_not_connected (collect_results a r)) then [EvDrop] else []
      | OPrune now => EvExpireClaims now :: expire_events s now
      | OConnected connected _ _ => if decide (k.1 ∈ connected) then [] else [EvDrop]
      | ORemoveTopic => [EvDrop]
      | ORefuse _ _ | OClaim _ _ _ _ _ | OCancel _ | OAbort _ | OSkip _ | OPlainClaim _ _ _ _ _ | ONewTopic _ _ => []
      end
  end.

End EagerReply.
End EagerReply.
