(* ===== verification/EagerReplyProps.v ===== *)
(** * Properties of the replies to IWANT requests

    The invariant of a node, the refinement of the lifecycle specification and
    how that relates to the documented table, the custody of recovery probes and the uniqueness of completions, for the
    definitions of [EagerReply]. *)

From S2P Require Import Prelude Types Float64 PeerTiming MessageCache TopicMesh Announce Probes EagerReply.
Import F64 Timing MessageCache TopicMesh Announce Probes EagerReply.

#[local] Open Scope Z_scope.

Module EagerReplyProps.
Section EagerReplyProps.
Context `{Libm} `{!SetIter PeerId} `{!LruCache MessageIdType CachedEntry}.

(** ** Custody as a map *)

Definition keys (s : Topic) : list Key := d_key <$> deferred_eager_replies s.
Definition has_key (k : Key) (e : DeferredEagerReply) : bool := bool_decide (d_key e = k).

Lemma find_none (k : Key) (l : list DeferredEagerReply) : k ∉ d_key <$> l → List.find (has_key k) l = None.
Proof.
  induction l as [|x l IH]; [done|]. rewrite fmap_cons. intros Hn%not_elem_of_cons. cbn [List.find]. unfold has_key at 1.
  destruct Hn as [Hx Hn]. rewrite bool_decide_eq_false_2 by congruence. by apply IH.
Qed.

Lemma find_filter (k : Key) (P : DeferredEagerReply → Prop) `{!∀ e, Decision (P e)} (l : list DeferredEagerReply) :
  NoDup (d_key <$> l) → List.find (has_key k) (filter P l) = keep (λ e, bool_decide (P e)) (List.find (has_key k) l).
Proof.
  induction l as [|x l IH]; [done|]. rewrite fmap_cons. intros [Hx Hn]%NoDup_cons. cbn [List.find]. rewrite filter_cons.
  destruct (has_key k x) eqn:Hk.
  - apply bool_decide_eq_true in Hk as <-. cbn [keep mbind option_bind]. destruct (decide (P x)).
    + cbn [List.find]. unfold has_key at 1. by rewrite !bool_decide_eq_true_2.
    + rewrite (bool_decide_eq_false_2 (P x)) by done. apply find_none. intros Hin. apply Hx.
      apply list_elem_of_fmap in Hin as (y & Hy & [_ Hin]%list_elem_of_filter). apply list_elem_of_fmap. by exists y.
  - case_decide; cbn [List.find]; rewrite ?Hk; by apply IH.
Qed.

Lemma keep_ext {A} (p q : A → bool) (x : option A) : (∀ y, x = Some y → p y = q y) → keep p x = keep q x.
Proof. destruct x; cbn; [|done]. intros Hpq. by rewrite Hpq. Qed.

Lemma keep_all {A} (p : A → bool) (x : option A) : (∀ y, x = Some y → p y = true) → keep p x = x.
Proof. destruct x; cbn; [|done]. intros Hpq. by rewrite Hpq. Qed.

Lemma find_key (k : Key) (l : list DeferredEagerReply) (e : DeferredEagerReply) : List.find (has_key k) l = Some e → e ∈ l ∧ d_key e = k.
Proof. intros [Hin Hk]%find_some. split; [by apply list_elem_of_In|]. by apply bool_decide_eq_true in Hk. Qed.

(** ** The operations implement the specification *)

Lemma view_prune_claims (s : Topic) (now : Z) (k : Key) : view (prune_eager_reply_claims s now) k = next (view s k) (EvExpireClaims now).
Proof.
  unfold view, prune_eager_reply_claims. cbn [set_mesh set_claims deferred_eager_replies eager_reply_claims next v_custody v_owner]. f_equal.
  rewrite map_lookup_filter. destruct (eager_reply_claims s !! k) as [c|]; cbn; [|done]. unfold claim_live, owner_live. cbn.
  by repeat case_match.
Qed.

Lemma view_prune_deferred (s : Topic) (now : Z) (k : Key) :
  NoDup (keys s) → view (prune_deferred_eager_replies s now) k = foldl next (view s k) (expire_events s now).
Proof.
  intros Hn. unfold prune_deferred_eager_replies. rewrite view_prune_claims. unfold view.
  cbn [foldl expire_events next v_custody v_owner deferred_eager_replies eager_reply_claims]. f_equal. change (λ e, bool_decide (d_key e = k)) with (has_key k).
  rewrite find_filter by done. apply keep_ext. intros y _. unfold cache_live. by destruct (custody_live _ _ _).
Qed.

Lemma view_drop_own (s : Topic) (own : option DeferredEagerReply) (k : Key) :
  NoDup (keys s) → view (drop_own s own) k = mkReply (keep (not_own own) (v_custody (view s k))) (v_owner (view s k)).
Proof.
  intros Hn. unfold drop_own, view. destruct own as [e|]; cbn [set_custody deferred_eager_replies eager_reply_claims v_custody v_owner]; f_equal.
  - change (λ e, bool_decide (d_key e = k)) with (has_key k). rewrite find_filter by done. apply keep_ext. intros y _. unfold not_own. cbn.
    destruct (decide (d_id y = d_id e)) as [E|E].
    + rewrite !bool_decide_eq_false_2; [done|intros Hne; apply Hne; congruence..].
    + by rewrite !bool_decide_eq_true_2 by congruence.
  - symmetry. apply keep_all. intros y _. by apply bool_decide_eq_true.
Qed.

Lemma existsb_find (k : Key) (l : list DeferredEagerReply) : existsb (has_key k) l = bool_decide (is_Some (List.find (has_key k) l)).
Proof.
  induction l as [|x l IH]; [done|]. cbn [existsb List.find]. destruct (has_key k x); [|done].
  done.
Qed.

Lemma find_snoc (k : Key) (l : list DeferredEagerReply) (e : DeferredEagerReply) :
  List.find (has_key k) (l ++ [e]) = match List.find (has_key k) l with Some x => Some x | None => if has_key k e then Some e else None end.
Proof. induction l as [|x l IH]; [done|]. cbn [app List.find]. by destruct (has_key k x). Qed.

(** A request put back into custody. *)
Definition retained (s : Topic) (i : Z) (k : Key) (now : Z) : option DeferredEagerReply :=
  if decide (MAX_DEFERRED_EAGER_REPLIES <= length (filter (λ e, cache_live s now e = true) (deferred_eager_replies s)))%nat then None
  else Some (mkDeferred i k.1 k.2 now).

Lemma view_retain (s : Topic) (i : Z) (k k' : Key) (now : Z) :
  NoDup (keys s) →
  view (retain_deferred_eager_reply s i k now).1.1 k' =
  let v := foldl next (view s k') (expire_events s now) in
  if decide (k' = k) then mkReply (match v_custody v with Some e => Some e | None => retained s i k now end) (v_owner v) else v.
Proof.
  intros Hn. unfold retain_deferred_eager_reply. rewrite <- (view_prune_deferred s now k') by done.
  assert (deferred_eager_replies (prune_deferred_eager_replies s now) = filter (λ e, cache_live s now e = true) (deferred_eager_replies s)) as Hd by done.
  unfold retained. rewrite <- Hd. generalize (prune_deferred_eager_replies s now). intros s'. cbn zeta. clear.
  change (λ e, bool_decide (d_key e = k)) with (has_key k). rewrite existsb_find. unfold view. change (λ e, bool_decide (d_key e = k')) with (has_key k').
  destruct (bool_decide_reflect (is_Some (List.find (has_key k) (deferred_eager_replies s')))) as [[e He]|Hno].
  - cbn [fst]. case_decide as Hk; [subst|done]. cbn [v_custody v_owner]. by rewrite He.
  - apply eq_None_not_Some in Hno. case_decide as Hfull; cbn [fst].
    + case_decide as Hk; [subst|done]. cbn. by rewrite Hno.
    + cbn [set_custody deferred_eager_replies eager_reply_claims]. rewrite find_snoc. case_decide as Hk.
      * subst. rewrite Hno. cbn [v_custody v_owner]. f_equal. unfold has_key, d_key. cbn. rewrite bool_decide_eq_true_2; [done|]. by destruct k.
      * assert (has_key k' (mkDeferred i k.1 k.2 now) = false) as ->; [|by case_match].
        apply bool_decide_eq_false. unfold d_key. cbn. destruct k. naive_solver.
Qed.

(** The custody entry a completion names is the only one with its id. *)
Definition own_ok (s : Topic) (c : EagerReplyCompletion) : Prop :=
  ∀ e x, e_own_custody c = Some e → x ∈ deferred_eager_replies s → d_id x = d_id e → d_key x = e_key c.

Lemma keep_other_key (s : Topic) (c : EagerReplyCompletion) (k : Key) :
  own_ok s c → k ≠ e_key c → keep (not_own (e_own_custody c)) (v_custody (view s k)) = v_custody (view s k).
Proof.
  intros Ho Hk. apply keep_all. intros x [Hin Hx]%find_key. apply bool_decide_eq_true. intros Heq.
  destruct (e_own_custody c) as [e|] eqn:E; [|done]. injection Heq as Heq. apply Hk. rewrite <- Hx. by eapply Ho.
Qed.

Lemma drop_own_keys (s : Topic) (own : option DeferredEagerReply) : NoDup (keys s) → NoDup (keys (drop_own s own)).
Proof.
  intros Hn. destruct own as [e|]; [|done]. eapply sublist_NoDup; [exact Hn|]. apply fmap_sublist, sublist_filter.
Qed.

(** Releasing a claim. *)
Lemma view_release (s : Topic) (k k' : Key) :
  view (set_claims s (delete k (eager_reply_claims s))) k' = mkReply (v_custody (view s k')) (if decide (k' = k) then None else v_owner (view s k')).
Proof. unfold view. cbn. f_equal. rewrite lookup_delete. by repeat case_decide. Qed.

Lemma current_view (s : Topic) (k : Key) (t : Z) : current s k t = bool_decide (o_token <$> v_owner (view s k) = Some t).
Proof. unfold current, view. cbn [v_owner]. apply bool_decide_ext. by destruct (eager_reply_claims s !! k). Qed.

Lemma reply_eta (v : Reply) : mkReply (v_custody v) (v_owner v) = v.
Proof. by destruct v. Qed.

Lemma view_apply (s : Topic) (i : Z) (c : EagerReplyCompletion) (cl : EagerReplyClaim) (o : EagerReplyOutcome) (now : Z) (k : Key) :
  NoDup (keys s) → own_ok s c → eager_reply_claims s !! e_key c = Some cl → c_token cl = e_token c →
  view (apply_eager_reply_outcome (set_claims s (delete (e_key c) (eager_reply_claims s))) i (mkAdmission c (c_rerequested cl)) o now).1 k =
  foldl next (view s k) (settle_events s i c o now k).
Proof.
  intros Hn Ho Hcl Ht. set (s1 := set_claims s _).
  assert (current s (e_key c) (e_token c) = true) as Hcur by (unfold current; rewrite Hcl; cbn; by rewrite Ht, bool_decide_eq_true_2).
  assert (v_owner (view s (e_key c)) = Some (view_claim cl)) as Hv by (unfold view; cbn; by rewrite Hcl).
  assert (∀ k', view s1 k' = mkReply (v_custody (view s k')) (if decide (k' = e_key c) then None else v_owner (view s k'))) as H1 by apply view_release.
  unfold settle_events. rewrite Hcur. cbn [andb]. unfold requeues. rewrite Hcl. cbn [fmap option_fmap option_map default].
  unfold apply_eager_reply_outcome. cbn [a_completion a_rerequested].
  destruct o; [|..].
  - cbn [fst]. unfold view at 1. cbn [deferred_eager_replies eager_reply_claims s1 set_claims].
    change (λ e, bool_decide (d_key e = k)) with (has_key k). rewrite find_filter by done.
    pose proof (f_equal v_owner (H1 k)) as H2. cbn [view v_owner eager_reply_claims s1 set_claims] in H2. rewrite H2. case_decide as Hk.
    + subst. cbn [foldl next]. rewrite decide_True by (rewrite Hv; cbn; congruence). f_equal.
      destruct (List.find _ _) as [x|] eqn:E; [|done]. apply find_key in E as [_ E]. cbn. by rewrite bool_decide_eq_false_2 by naive_solver.
    + cbn [foldl]. trans (mkReply (v_custody (view s k)) (v_owner (view s k))); [|apply reply_eta]. f_equal. apply keep_all. intros x [_ E]%find_key. apply bool_decide_eq_true. congruence.
  - rewrite view_retain by done. rewrite H1. cbn [expire_events foldl next v_custody v_owner]. case_decide as Hk; cbn [foldl next].
    + subst. rewrite decide_True by (rewrite Hv; cbn; congruence). done.
    + done.
  - assert (NoDup (keys (drop_own s1 (e_own_custody c)))) as Hn2 by (by apply drop_own_keys).
    assert (∀ k', view (drop_own s1 (e_own_custody c)) k' =
      mkReply (keep (not_own (e_own_custody c)) (v_custody (view s k'))) (if decide (k' = e_key c) then None else v_owner (view s k'))) as H2.
    { intros k'. rewrite view_drop_own by done. by rewrite H1. }
    destruct (c_rerequested cl) eqn:Hr.
    + rewrite view_retain by done. rewrite H2. cbn [expire_events foldl next v_custody v_owner]. case_decide as Hk; cbn [foldl next].
      * subst. rewrite decide_True by (rewrite Hv; cbn; congruence). rewrite Hv. cbn. rewrite Hr.
        unfold requeue, retained, fresh_entry, cache_live. by destruct (e_own_custody c).
      * rewrite keep_other_key by done. by destruct (e_own_custody c).
    + cbn [fst]. rewrite H2. case_decide as Hk; cbn [foldl next].
      * subst. rewrite decide_True by (rewrite Hv; cbn; congruence). rewrite Hv. cbn. by rewrite Hr.
      * rewrite keep_other_key by done. apply reply_eta.
Qed.

Lemma view_stale (s : Topic) (i : Z) (c : EagerReplyCompletion) (o : EagerReplyOutcome) (now : Z) (k : Key) :
  NoDup (keys s) → own_ok s c → current s (e_key c) (e_token c) = false →
  view (drop_own s (e_own_custody c)) k = foldl next (view s k) (settle_events s i c o now k).
Proof.
  intros Hn Ho Hcur. rewrite view_drop_own by done. unfold settle_events. rewrite Hcur. cbn [andb].
  rewrite current_view in Hcur. apply bool_decide_eq_false in Hcur. case_decide as Hk; cbn [foldl next].
  - subst. by rewrite decide_False.
  - rewrite keep_other_key by done. apply reply_eta.
Qed.

(** The gate, as the specification sees it. *)
Lemma gate_spec (s : Topic) (c : EagerReplyCompletion) :
  (∃ cl, eager_reply_claims s !! e_key c = Some cl ∧ c_token cl = e_token c ∧ current s (e_key c) (e_token c) = true ∧
     admit_eager_reply_completion s c = (set_claims s (delete (e_key c) (eager_reply_claims s)), Some (mkAdmission c (c_rerequested cl)))) ∨
  (current s (e_key c) (e_token c) = false ∧ admit_eager_reply_completion s c = (drop_own s (e_own_custody c), None)).
Proof.
  unfold admit_eager_reply_completion, current. destruct (eager_reply_claims s !! e_key c) as [cl|]; [|by right]. cbn. case_decide as Ht.
  - left. exists cl. repeat split; [done|]. apply bool_decide_eq_true. by rewrite Ht.
  - right. split; [|done]. apply bool_decide_eq_false. congruence.
Qed.

Lemma view_settle (s : Topic) (i : Z) (c : EagerReplyCompletion) (o : EagerReplyOutcome) (now : Z) (k : Key) :
  NoDup (keys s) → own_ok s c → view (settle_eager_reply s i c o now).1 k = foldl next (view s k) (settle_events s i c o now k).
Proof.
  intros Hn Ho. unfold settle_eager_reply. destruct (gate_spec s c) as [(cl & Hcl & Ht & _ & ->)|[Hcur ->]].
  - by apply view_apply.
  - by apply view_stale.
Qed.

(** ** How the records of a topic change *)

(** Custody entries disappear or are new, claims disappear or keep their token
    and probe, and the mesh moves by its own operations. *)
Record evolves (s : Topic) (i : Z) (s' : Topic) (i' : Z) : Prop := {
  ev_counter : i <= i';
  ev_keys : NoDup (keys s) → NoDup (keys s');
  ev_ids : (∀ x, x ∈ deferred_eager_replies s → d_id x < i) → NoDup (d_id <$> deferred_eager_replies s) → NoDup (d_id <$> deferred_eager_replies s');
  ev_custody x : x ∈ deferred_eager_replies s' → x ∈ deferred_eager_replies s ∨ i <= d_id x < i';
  ev_claims k cl' : eager_reply_claims s' !! k = Some cl' →
    ∃ cl, eager_reply_claims s !! k = Some cl ∧ c_token cl' = c_token cl ∧ c_probe cl' = c_probe cl;
  ev_mesh : rtc mesh_step (mesh s) (mesh s');
}.

Lemma evolves_refl (s : Topic) (i : Z) : evolves s i s i.
Proof. split; [lia|done|done|by left|by eauto|done]. Qed.

Lemma evolves_trans (s1 s2 s3 : Topic) (i1 i2 i3 : Z) : evolves s1 i1 s2 i2 → evolves s2 i2 s3 i3 → evolves s1 i1 s3 i3.
Proof.
  intros [A1 A2 A0 A3 A4 A5] [B1 B2 B0 B3 B4 B5]. split; [lia|auto| | | |by etrans].
  - intros Hid Hn. apply B0; [|by apply A0]. intros x Hx. destruct (A3 x Hx) as [Hx'|]; [|lia]. specialize (Hid x Hx'). lia.
  - intros x Hx. destruct (B3 x Hx) as [Hx'|?]; [|right; lia]. destruct (A3 x Hx'); [by left|right; lia].
  - intros k cl3 E3. destruct (B4 k cl3 E3) as (cl2 & E2 & T2 & P2). destruct (A4 k cl2 E2) as (cl1 & E1 & T1 & P1).
    exists cl1. split; [done|]. split; congruence.
Qed.

(** The same records with another mesh. *)
Lemma evolves_mesh (s : Topic) (i : Z) (m : TopicMesh) : rtc mesh_step (mesh s) m → evolves s i (set_mesh s m) i.
Proof. intros Hm. split; [lia|done|done|by left|by eauto|done]. Qed.

Lemma evolves_filter (s s' : Topic) (i : Z) :
  sublist (deferred_eager_replies s') (deferred_eager_replies s) → eager_reply_claims s' ⊆ eager_reply_claims s →
  rtc mesh_step (mesh s) (mesh s') → evolves s i s' i.
Proof.
  intros Hl Hc Hm. split; [lia| | | | |done].
  - intros Hn. eapply sublist_NoDup; [exact Hn|]. by apply fmap_sublist.
  - intros _ Hn. eapply sublist_NoDup; [exact Hn|]. by apply fmap_sublist.
  - intros x Hx. left. by eapply elem_of_submseteq; [|apply sublist_submseteq].
  - intros k cl Hk. exists cl. split; [|done]. by eapply lookup_weaken.
Qed.

Lemma abandon_all_steps (l : list (PeerId * Z)) (m : TopicMesh) :
  rtc mesh_step m (foldl (λ m pp, abandon_unsent_recovery_probe m pp.1 (Some pp.2)) m l).
Proof. revert m. induction l as [|x l IH]; intros m; [done|]. cbn [foldl]. eapply rtc_l; [apply ms_abandon|apply IH]. Qed.

Lemma evolves_prune_claims (s : Topic) (i now : Z) : evolves s i (prune_eager_reply_claims s now) i.
Proof. apply evolves_filter; cbn; [done|apply map_filter_subseteq|apply abandon_all_steps]. Qed.

Lemma evolves_prune_deferred (s : Topic) (i now : Z) : evolves s i (prune_deferred_eager_replies s now) i.
Proof. eapply evolves_trans; [|apply evolves_prune_claims]. apply evolves_filter; cbn; [apply sublist_filter|done|done]. Qed.

Lemma evolves_drop_own (s : Topic) (i : Z) (own : option DeferredEagerReply) : evolves s i (drop_own s own) i.
Proof. destruct own; [|apply evolves_refl]. apply evolves_filter; cbn; [apply sublist_filter|done|done]. Qed.

Lemma evolves_retain (s : Topic) (i : Z) (k : Key) (now : Z) :
  evolves s i (retain_deferred_eager_reply s i k now).1.1 (retain_deferred_eager_reply s i k now).1.2.
Proof.
  unfold retain_deferred_eager_reply. eapply evolves_trans; [apply (evolves_prune_deferred s i now)|].
  generalize (prune_deferred_eager_replies s now). intros s'. change (λ e, bool_decide (d_key e = k)) with (has_key k).
  destruct (existsb _ _) eqn:E; [apply evolves_refl|]. case_decide; [apply evolves_refl|]. cbn [fst snd]. split; [lia| | | |by eauto|done].
  - unfold keys. cbn. intros Hn. rewrite fmap_app. apply NoDup_app. split; [done|]. split; [|apply NoDup_singleton].
    intros x Hx Hin%list_elem_of_singleton. subst x. apply existsb_false_key in E. apply E. cbn in Hx.
    unfold d_key in Hx at 1. cbn in Hx. by destruct k.
  - cbn. intros Hid Hn. rewrite fmap_app. apply NoDup_app. split; [done|]. split; [|apply NoDup_singleton].
    intros x (y & -> & Hy)%list_elem_of_fmap Hin%list_elem_of_singleton. specialize (Hid y Hy). cbn in Hin. lia.
  - cbn. intros x [Hx|Hx%list_elem_of_singleton]%elem_of_app; [by left|]. subst. cbn. right. lia.
Qed.

Lemma evolves_release (s : Topic) (i : Z) (k : Key) : evolves s i (set_claims s (delete k (eager_reply_claims s))) i.
Proof. apply evolves_filter; cbn; [done|apply delete_subseteq|done]. Qed.

Lemma evolves_apply (s : Topic) (i : Z) (a : AdmittedEagerReply) (o : EagerReplyOutcome) (now : Z) :
  evolves s i (apply_eager_reply_outcome s i a o now).1 (apply_eager_reply_outcome s i a o now).2.
Proof.
  unfold apply_eager_reply_outcome. destruct o; cbn [fst snd].
  - apply evolves_filter; cbn; [apply sublist_filter|done|done].
  - apply evolves_retain.
  - eapply evolves_trans; [apply (evolves_drop_own s i (e_own_custody (a_completion a)))|]. destruct (a_rerequested a); [apply evolves_retain|apply evolves_refl].
Qed.

Lemma evolves_settle (s : Topic) (i : Z) (c : EagerReplyCompletion) (o : EagerReplyOutcome) (now : Z) :
  evolves s i (settle_eager_reply s i c o now).1 (settle_eager_reply s i c o now).2.
Proof.
  unfold settle_eager_reply. destruct (gate_spec s c) as [(cl & _ & _ & _ & ->)|[_ ->]].
  - eapply evolves_trans; [apply evolves_release|apply evolves_apply].
  - apply evolves_drop_own.
Qed.

Lemma evolves_evict (s : Topic) (i : Z) (p : PeerId) : evolves s i (evict_peer s p) i.
Proof. apply evolves_filter; cbn; [apply sublist_filter|apply map_filter_subseteq|]. apply rtc_once, ms_evict. Qed.

Lemma evolves_evict_all (l : list PeerSendAttempt) (s : Topic) (i : Z) : evolves s i (foldl (λ s a, evict_peer s (at_peer a)) s l) i.
Proof.
  revert s. induction l as [|a l IH]; intros s; [apply evolves_refl|]. cbn [foldl]. eapply evolves_trans; [apply evolves_evict|apply IH].
Qed.

Lemma book_sent_steps (cfg : AdaptiveCoolingConfig) (l : list PeerSendAttempt) (m m' : TopicMesh) (now : Z) :
  book_sent cfg m now l = Some m' → rtc mesh_step m m'.
Proof.
  revert m. induction l as [|a l IH]; intros m; cbn [book_sent]; [by intros [= ->]|].
  intros ([m1 b] & E & Hl)%bind_Some. eapply rtc_l; [by eapply ms_success|by apply IH].
Qed.

Lemma book_timeouts_steps (cfg : AdaptiveCoolingConfig) (health : PeerId → option PeerHealth) (l : list PeerSendAttempt) (m : TopicMesh) (now : Z) :
  rtc mesh_step m (foldl (λ m a, (record_send_timeout_inner_at m a now (Some cfg) (health (at_peer a))).1) m l).
Proof. revert m. induction l as [|a l IH]; intros m; [done|]. cbn [foldl]. eapply rtc_l; [apply ms_timeout|apply IH]. Qed.

Lemma evolves_book (cfg : AdaptiveCoolingConfig) (health : PeerId → option PeerHealth) (s s' : Topic) (i : Z) (r : SendAttemptResults) (now : Z) :
  book_topic_send_attempt_results cfg health s r now = Some s' → evolves s i s' i.
Proof.
  unfold book_topic_send_attempt_results. intros (m & Hm & [= <-])%bind_Some.
  eapply evolves_trans; [eapply evolves_mesh, book_sent_steps, Hm|].
  eapply evolves_trans; [apply evolves_evict_all|]. apply evolves_mesh, book_timeouts_steps.
Qed.

Lemma evolves_complete (cfg : AdaptiveCoolingConfig) (health : PeerId → option PeerHealth) (s s' : Topic) (i i' : Z) (c : EagerReplyCompletion) (o : EagerReplyOutcome)
    (r : SendAttemptResults) (now : Z) :
  complete_eager_reply cfg health s i c o r now = Some (s', i') → evolves s i s' i'.
Proof.
  unfold complete_eager_reply. destruct (gate_spec s c) as [(cl & _ & _ & _ & ->)|[_ ->]]; [|intros [= <- <-]; apply evolves_drop_own].
  set (s1 := set_claims s _). pose proof (evolves_apply s1 i (mkAdmission c (c_rerequested cl)) o now) as Ha.
  destruct (apply_eager_reply_outcome s1 i _ o now) as [s2 i2]. intros (s3 & Hb & [= <- <-])%bind_Some.
  eapply evolves_trans; [apply evolves_release|]. eapply evolves_trans; [exact Ha|]. by eapply evolves_book.
Qed.

(** ** Who answers for a probe in flight *)

(** Every probe in flight is recorded on a claim of its peer, or is held by
    somebody else. *)
Definition owned (s : Topic) (held : PeerId → Z → Prop) : Prop :=
  ∀ p i, in_flight (mesh s) p i →
    ∃ j, i = Some j ∧ ((∃ (k : Key) cl, eager_reply_claims s !! k = Some cl ∧ k.1 = p ∧ c_probe cl = Some j) ∨ held p j).

Definition probe_of (a : PeerSendAttempt) : option Z := if decide (at_kind a = SendAttemptKind.RecoveryProbe) then at_probe_id a else None.

Lemma owned_keeps (s s' : Topic) (held : PeerId → Z → Prop) :
  owned s held → keeps_probes (mesh s) (mesh s') → eager_reply_claims s' = eager_reply_claims s → owned s' held.
Proof. intros Ho Hk E p i Hi. rewrite E. by apply Ho, Hk. Qed.

Lemma owned_weaken (s : Topic) (held held' : PeerId → Z → Prop) : (∀ p j, held p j → held' p j) → owned s held → owned s held'.
Proof. intros Hh Ho p i Hi. destruct (Ho p i Hi) as (j & ? & [?|?]); eauto. Qed.

Lemma abandon_all_keeps (l : list (PeerId * Z)) (m : TopicMesh) :
  keeps_probes m (foldl (λ m pp, abandon_unsent_recovery_probe m pp.1 (Some pp.2)) m l).
Proof. revert m. induction l as [|x l IH]; intros m; [done|]. cbn [foldl]. etrans; [apply abandon_keeps|apply IH]. Qed.

Lemma abandon_all_clears (l : list (PeerId * Z)) (m : TopicMesh) (p : PeerId) (j : Z) :
  (p, j) ∈ l → ¬ in_flight (foldl (λ m pp, abandon_unsent_recovery_probe m pp.1 (Some pp.2)) m l) p (Some j).
Proof.
  revert m. induction l as [|x l IH]; intros m; [by intros ?%elem_of_nil|]. cbn [foldl]. intros [<-|Hin]%elem_of_cons; [|by apply IH].
  intros Hi. apply abandon_all_keeps in Hi. by apply abandon_clears in Hi.
Qed.

Lemma elem_of_expired (s : Topic) (now : Z) (k : Key) (cl : EagerReplyClaim) (j : Z) :
  eager_reply_claims s !! k = Some cl → claim_live now cl = false → c_probe cl = Some j → (k.1, j) ∈ expired_probes s now.
Proof.
  intros Hk Hl Hp. unfold expired_probes. apply list_elem_of_omap. exists (k, cl). split; [by apply elem_of_map_to_list|].
  cbn. by rewrite Hl, Hp.
Qed.

(** The TTL prune clears the probes of the claims it drops. *)
Lemma owned_prune_claims (s : Topic) (held : PeerId → Z → Prop) (now : Z) : owned s held → owned (prune_eager_reply_claims s now) held.
Proof.
  intros Ho p i Hi. cbn in Hi. assert (Hi' := Hi). apply abandon_all_keeps in Hi'.
  destruct (Ho p i Hi') as (j & -> & [(k & cl & Hk & <- & Hp)|Hh]); exists j; (split; [done|]); [|by right]. left.
  destruct (claim_live now cl) eqn:El.
  - exists k, cl. split; [|done]. cbn. by apply map_lookup_filter_Some.
  - exfalso. revert Hi. by eapply abandon_all_clears, elem_of_expired.
Qed.

Lemma owned_prune_deferred (s : Topic) (held : PeerId → Z → Prop) (now : Z) : owned s held → owned (prune_deferred_eager_replies s now) held.
Proof. intros Ho. by apply owned_prune_claims. Qed.

Lemma owned_drop_own (s : Topic) (held : PeerId → Z → Prop) (own : option DeferredEagerReply) : owned s held → owned (drop_own s own) held.
Proof. by destruct own. Qed.

Lemma owned_retain (s : Topic) (held : PeerId → Z → Prop) (i : Z) (k : Key) (now : Z) : owned s held → owned (retain_deferred_eager_reply s i k now).1.1 held.
Proof.
  intros Ho%(owned_prune_deferred _ _ now). unfold retain_deferred_eager_reply. destruct (existsb _ _); [done|]. by case_decide.
Qed.

Lemma owned_apply (s : Topic) (held : PeerId → Z → Prop) (i : Z) (a : AdmittedEagerReply) (o : EagerReplyOutcome) (now : Z) :
  owned s held → owned (apply_eager_reply_outcome s i a o now).1 held.
Proof.
  intros Ho. unfold apply_eager_reply_outcome. destruct o; [done|by apply owned_retain|]. apply (owned_drop_own _ _ (e_own_custody (a_completion a))) in Ho.
  destruct (a_rerequested a); [by apply owned_retain|done].
Qed.

Lemma owned_release (s : Topic) (held : PeerId → Z → Prop) (k : Key) (cl : EagerReplyClaim) :
  owned s held → eager_reply_claims s !! k = Some cl →
  owned (set_claims s (delete k (eager_reply_claims s))) (λ p j, held p j ∨ (p = k.1 ∧ c_probe cl = Some j)).
Proof.
  intros Ho Hk p i Hi. destruct (Ho p i Hi) as (j & -> & [(k' & cl' & Hk' & <- & Hp)|Hh]); exists j; (split; [done|]); [|by right; left].
  destruct (decide (k = k')) as [->|Hne]; [simplify_eq; by right; right|]. left. exists k', cl'. split; [|done]. cbn. by rewrite lookup_delete_ne.
Qed.

Lemma owned_evict (s : Topic) (held : PeerId → Z → Prop) (p : PeerId) : owned s held → owned (evict_peer s p) held.
Proof.
  intros Ho q i Hi. destruct (evict_probes (mesh s) p) as [Hk Hn]. destruct (decide (q = p)) as [->|Hne]; [by destruct (Hn i)|].
  destruct (Ho q i) as (j & -> & [(k & cl & Hc & <- & Hp)|Hh]); [by apply Hk|..]; exists j; (split; [done|]); [left|by right].
  exists k, cl. split; [|done]. cbn. by apply map_lookup_filter_Some.
Qed.

(** The results that [a] is booked with: its own, or none when it carries no
    probe. *)
Definition settles (a : PeerSendAttempt) (r : SendAttemptResults) : Prop :=
  r = mkResults [a] [] [] ∨ r = mkResults [] [a] [] ∨ r = mkResults [] [] [a] ∨
  (r = mkResults [] [] [] ∧ at_kind a ≠ SendAttemptKind.RecoveryProbe).

Lemma probe_timeout_settles (a : PeerSendAttempt) : settles a (mkResults [] (recovery_probe_timeout a) []).
Proof. unfold recovery_probe_timeout, settles. case_decide; auto. Qed.

Lemma collect_settles (a : PeerSendAttempt) (r : SendResult) : settles a (collect_results a r).
Proof. destruct r; cbn; try apply probe_timeout_settles; unfold settles; auto. Qed.

Lemma booking_settles (c : EagerReplyCompletion) (a : PeerSendAttempt) (r : SendResult) : settles a (booking c a r).2.
Proof.
  unfold booking. destruct (e_own_custody c); [apply collect_settles|]. destruct r; cbn; try apply probe_timeout_settles; unfold settles; auto.
Qed.

Lemma owned_clears (s s' : Topic) (held : PeerId → Z → Prop) (a : PeerSendAttempt) :
  owned s (λ p j, held p j ∨ (p = at_peer a ∧ probe_of a = Some j)) → keeps_probes (mesh s) (mesh s') →
  eager_reply_claims s' = eager_reply_claims s → clears (mesh s') a → owned s' held.
Proof.
  intros Ho Hk E Hc p i Hi. destruct (Ho p i) as (j & -> & [Hcl|[Hh|[-> Hp]]]); [by apply Hk|..]; exists j; (split; [done|]);
    [left; by rewrite E|by right|]. exfalso. unfold probe_of in Hp. case_decide as Hkind; [|done]. apply (Hc Hkind). by rewrite Hp.
Qed.

Lemma owned_book (cfg : AdaptiveCoolingConfig) (health : PeerId → option PeerHealth) (s s' : Topic) (held : PeerId → Z → Prop)
    (a : PeerSendAttempt) (r : SendAttemptResults) (now : Z) :
  owned s (λ p j, held p j ∨ (p = at_peer a ∧ probe_of a = Some j)) → settles a r →
  book_topic_send_attempt_results cfg health s r now = Some s' → owned s' held.
Proof.
  intros Ho Hs Hb. unfold book_topic_send_attempt_results in Hb. apply bind_Some in Hb as (m & Hm & [= <-]).
  destruct Hs as [->|[->|[->|[-> Hk]]]]; cbn [r_sent r_timed_out r_not_connected foldl book_sent] in *; simplify_eq.
  - apply bind_Some in Hm as ([m1 b] & E & [= <-]). apply success_probes in E as [H1 H2]. by eapply owned_clears.
  - destruct (timeout_probes (mesh s) a now (Some cfg) (health (at_peer a))) as [H1 H2]. by eapply owned_clears.
  - destruct (evict_probes (mesh s) (at_peer a)) as [H1 H2].
    assert (owned (evict_peer s (at_peer a)) (λ p j, held p j ∨ (p = at_peer a ∧ probe_of a = Some j))) as Ho' by (by apply owned_evict).
    eapply owned_clears; [exact Ho'|done|done|]. intros _. apply H2.
  - eapply owned_clears; [exact Ho|done|done|]. by intros ?.
Qed.

(** A completion whose claim, while current, records the probe of [a]. *)
Lemma owned_complete (cfg : AdaptiveCoolingConfig) (health : PeerId → option PeerHealth) (s s' : Topic) (held : PeerId → Z → Prop) (i i' : Z)
    (c : EagerReplyCompletion) (a : PeerSendAttempt) (o : EagerReplyOutcome) (r : SendAttemptResults) (now : Z) :
  owned s held → settles a r → at_peer a = e_peer c →
  (∀ cl, eager_reply_claims s !! e_key c = Some cl → c_token cl = e_token c → c_probe cl = probe_of a) →
  complete_eager_reply cfg health s i c o r now = Some (s', i') → owned s' held.
Proof.
  intros Ho Hs Hp Hlink. unfold complete_eager_reply. destruct (gate_spec s c) as [(cl & Hcl & Ht & _ & ->)|[_ ->]]; [|intros [= <- <-]; by apply owned_drop_own].
  assert (Ho1 := owned_release s held _ _ Ho Hcl). rewrite (Hlink _ Hcl Ht) in Ho1. cbn [e_key fst] in Ho1. rewrite <- Hp in Ho1.
  apply (owned_apply _ _ i (mkAdmission c (c_rerequested cl)) o now) in Ho1. destruct (apply_eager_reply_outcome _ _ _ _ _) as [s2 i2].
  intros (s3 & Hb & [= <- <-])%bind_Some. by eapply owned_book.
Qed.

Lemma owned_settle (s : Topic) (held : PeerId → Z → Prop) (i : Z) (c : EagerReplyCompletion) (o : EagerReplyOutcome) (now : Z) :
  owned s held → (∀ cl, eager_reply_claims s !! e_key c = Some cl → c_token cl = e_token c → c_probe cl = None) →
  owned (settle_eager_reply s i c o now).1 held.
Proof.
  intros Ho Hlink. unfold settle_eager_reply. destruct (gate_spec s c) as [(cl & Hcl & Ht & _ & ->)|[_ ->]]; [|by apply owned_drop_own].
  apply owned_apply. eapply owned_weaken; [|by eapply owned_release]. intros p j [?|[_ Hj]]; [done|]. rewrite (Hlink _ Hcl Ht) in Hj. done.
Qed.

(** ** The node's invariant *)

Definition held (l : list PeerSendAttempt) (p : PeerId) (j : Z) : Prop := ∃ a, a ∈ l ∧ at_peer a = p ∧ probe_of a = Some j.

(** A custody entry seen earlier: its id is used up. *)
Definition known (n : Node) (e : DeferredEagerReply) : Prop :=
  d_id e < next_custody n ∧ ∀ s x, topic n = Some s → x ∈ deferred_eager_replies s → d_id x = d_id e → x = e.
Definition own_known (n : Node) (c : EagerReplyCompletion) : Prop :=
  ∀ e, e_own_custody c = Some e → known n e ∧ d_key e = e_key c.
(** While a task's claim is current, the claim records the task's probe. *)
Definition link (n : Node) (k : Key) (t : Z) (probe : option Z) : Prop :=
  ∀ s cl, topic n = Some s → eager_reply_claims s !! k = Some cl → c_token cl = t → c_probe cl = probe.
Definition thread_ok (n : Node) (t : Z) (th : Thread) : Prop :=
  match th with
  | Serving k => link n k t None
  | Sending c a | Dropping c a => e_token c = t ∧ at_peer a = e_peer c ∧ own_known n c ∧ link n (e_key c) t (probe_of a)
  | Settling c _ => e_token c = t ∧ own_known n c ∧ link n (e_key c) t None
  end.

Record inv (n : Node) : Prop := {
  inv_custody s : topic n = Some s → NoDup (keys s) ∧ NoDup (d_id <$> deferred_eager_replies s) ∧ ∀ x, x ∈ deferred_eager_replies s → d_id x < next_custody n;
  inv_claims s k cl : topic n = Some s → eager_reply_claims s !! k = Some cl → c_token cl < next_token n;
  inv_threads t th : threads n !! t = Some th → t < next_token n ∧ thread_ok n t th;
  inv_ticks e : e ∈ ticks n → known n e;
  inv_owned s : topic n = Some s → owned s (held (plain n));
  inv_mesh s : topic n = Some s → mesh_ok (mesh s);
}.

Lemma mesh_steps_ok (m m' : TopicMesh) : rtc mesh_step m m' → mesh_ok m → mesh_ok m'.
Proof. induction 1 as [|m1 m2 m3 Hs _ IH]; [done|]. intros Hm. by apply IH, (mesh_step_ok m1). Qed.

(** What the tasks know survives when the topic evolves. *)
Lemma known_evolve (n : Node) (s s' : Topic) (i' : Z) (e : DeferredEagerReply) :
  topic n = Some s → evolves s (next_custody n) s' i' → known n e → known (with_custody (with_topic n s') i') e.
Proof.
  intros Hs Hev [Hid Hu]. pose proof (ev_counter _ _ _ _ Hev). split; [cbn; lia|]. cbn. intros s1 x [= <-] Hx Heq.
  destruct (ev_custody _ _ _ _ Hev x Hx) as [Hin|Hnew]; [by eapply Hu|lia].
Qed.

Lemma link_evolve (n : Node) (s s' : Topic) (i' : Z) (k : Key) (t : Z) (pr : option Z) :
  topic n = Some s → evolves s (next_custody n) s' i' → link n k t pr → link (with_custody (with_topic n s') i') k t pr.
Proof.
  intros Hs Hev Hl s1 cl [= <-] Hk Ht. destruct (ev_claims _ _ _ _ Hev k cl Hk) as (cl0 & Hk0 & E1 & E2). rewrite E2. apply (Hl s); congruence.
Qed.

Lemma thread_ok_evolve (n : Node) (s s' : Topic) (i' t : Z) (th : Thread) :
  topic n = Some s → evolves s (next_custody n) s' i' → thread_ok n t th → thread_ok (with_custody (with_topic n s') i') t th.
Proof.
  intros Hs Hev. assert (∀ c, own_known n c → own_known (with_custody (with_topic n s') i') c) as Hown.
  { intros c Hc e He. destruct (Hc e He). split; [by eapply known_evolve|done]. }
  destruct th; cbn [thread_ok]; intros Hth; [|destruct Hth as (? & ? & ? & ?)|destruct Hth as (? & ? & ?)|destruct Hth as (? & ? & ? & ?)];
    split_and?; auto; by eapply link_evolve.
Qed.

Lemma inv_evolve (n : Node) (s s' : Topic) (i' : Z) :
  inv n → topic n = Some s → evolves s (next_custody n) s' i' → owned s' (held (plain n)) → inv (with_custody (with_topic n s') i').
Proof.
  intros Hn Hs Hev Ho. destruct (inv_custody _ Hn s Hs) as (Hk & Hnd & Hid). pose proof (ev_counter _ _ _ _ Hev). split; cbn.
  - intros s1 [= <-]. split; [by apply Hev|]. split; [by apply (ev_ids _ _ _ _ Hev)|]. intros x Hx. destruct (ev_custody _ _ _ _ Hev x Hx) as [Hin|]; [|lia]. specialize (Hid x Hin). lia.
  - intros s1 k cl [= <-] Hk'. destruct (ev_claims _ _ _ _ Hev k cl Hk') as (cl0 & Hk0 & -> & _). by eapply (inv_claims _ Hn).
  - intros t th Ht. destruct (inv_threads _ Hn t th Ht). split; [done|]. by eapply thread_ok_evolve.
  - intros e He. eapply known_evolve; [done..|]. by apply (inv_ticks _ Hn).
  - by intros s1 [= <-].
  - intros s1 [= <-]. eapply mesh_steps_ok; [apply Hev|]. by apply (inv_mesh _ Hn).
Qed.

(** Bookkeeping of the tasks. *)
Lemma inv_threads_change (n : Node) (ts : gmap Z Thread) :
  inv n → (∀ t th, ts !! t = Some th → t < next_token n ∧ thread_ok n t th) → inv (with_threads n ts).
Proof. intros Hn Hts. split; cbn; try apply Hn. intros t th Ht. destruct (Hts t th Ht) as [Hlt Hok]. split; [done|]. by destruct th. Qed.

Lemma inv_move (n : Node) (t : Z) (th : Thread) : inv n → t < next_token n → thread_ok n t th → inv (move n t th).
Proof.
  intros Hn Ht Hok. apply inv_threads_change; [done|]. intros t' th' [[<- <-]|[Hne Hl]]%lookup_insert_Some; [done|]. by apply (inv_threads _ Hn).
Qed.
Lemma inv_finish (n : Node) (t : Z) : inv n → inv (finish n t).
Proof. intros Hn. apply inv_threads_change; [done|]. intros t' th' [_ Hl]%lookup_delete_Some. by apply (inv_threads _ Hn). Qed.

Lemma inv_with_ticks (n : Node) (l : list DeferredEagerReply) : inv n → (∀ e, e ∈ l → known n e) → inv (with_ticks n l).
Proof. intros Hn Hl. split; cbn; try apply Hn. done. Qed.

Lemma inv_with_probe (n : Node) (i : Z) : inv n → inv (with_probe n i).
Proof. intros Hn. split; cbn; apply Hn. Qed.

Lemma elem_of_remove_first {A} `{!EqDecision A} (x y : A) (l : list A) : y ∈ remove_first x l → y ∈ l.
Proof. induction l as [|z l IH]; [done|]. cbn. case_decide; [by right|]. intros [->|?]%elem_of_cons; [by left|right; auto]. Qed.
Lemma remove_first_or {A} `{!EqDecision A} (x y : A) (l : list A) : y ∈ l → y = x ∨ y ∈ remove_first x l.
Proof.
  induction l as [|z l IH]; [by intros ?%elem_of_nil|]. cbn. intros [->|Hy]%elem_of_cons; case_decide as Hd; [by left|right; by left|by right|].
  destruct (IH Hy); [by left|right; by right].
Qed.

(** *** New claims and new probes *)

Lemma owned_claim (s : Topic) (h : PeerId → Z → Prop) (next : Z) (p : PeerId) (now : Z) (crit : bool) (conn : option bool) (granted : bool) m next' r :
  owned s h → claim_one (mesh s) next p now crit conn granted = (m, next', r) →
  match r with
  | None => owned (set_mesh s m) h
  | Some a => at_peer a = p ∧ owned (set_mesh s m) (λ q j, h q j ∨ (q = p ∧ probe_of a = Some j))
  end.
Proof.
  intros Ho E%claim_one_spec. destruct E as [Hp [[Hk Hr]|(a & -> & Hkind & Hid & _ & Hi)]].
  - destruct r as [a|]; [split; [by apply Hp|]|]; [|by eapply owned_keeps]. eapply owned_weaken; [|by eapply owned_keeps]. by left.
  - split; [by apply Hp|]. intros q i [Hq|[-> ->]]%Hi.
    + destruct (Ho q i Hq) as (j & -> & [?|?]); exists j; (split; [done|]); [by left|by right; left].
    + exists next. split; [done|]. right. right. unfold probe_of. by rewrite decide_True.
Qed.

(** Recording the new probe on a claim that records none. *)
Lemma owned_record (s : Topic) (h : PeerId → Z → Prop) (k : Key) (cl : EagerReplyClaim) :
  owned s (λ q j, h q j ∨ (q = k.1 ∧ c_probe cl = Some j)) → (∀ cl', eager_reply_claims s !! k = Some cl' → c_probe cl' = None) →
  owned (set_claims s (<[k := cl]> (eager_reply_claims s))) h.
Proof.
  intros Ho Hk p i Hi. destruct (Ho p i Hi) as (j & -> & [(k' & cl' & Hk' & <- & Hp)|[Hh|[-> Hp]]]); exists j; (split; [done|]); [left|by right|left].
  - exists k', cl'. split; [|done]. cbn. rewrite lookup_insert_ne; [done|]. intros ->. specialize (Hk _ Hk'). congruence.
  - exists k, cl. split; [|done]. cbn. by rewrite lookup_insert, decide_True.
Qed.

Lemma attach_insert (s : Topic) (k : Key) (t now : Z) (a : PeerSendAttempt) :
  attach_probe_to_eager_reply_claim (insert_eager_reply_claim s k t now) k t a =
  set_claims s (<[k := mkClaim t now false (probe_of a)]> (eager_reply_claims s)).
Proof.
  unfold attach_probe_to_eager_reply_claim, probe_of. case_decide; [|done].
  cbn [insert_eager_reply_claim set_claims eager_reply_claims]. rewrite lookup_insert, decide_True by done. cbn [c_token].
  rewrite decide_True by done. unfold set_claims. cbn. by rewrite insert_insert, decide_True.
Qed.

Lemma attach_current (s : Topic) (k : Key) (t : Z) (a : PeerSendAttempt) (cl : EagerReplyClaim) :
  eager_reply_claims s !! k = Some cl → c_token cl = t → c_probe cl = None →
  attach_probe_to_eager_reply_claim s k t a =
  set_claims s (<[k := mkClaim (c_token cl) (c_claimed_at cl) (c_rerequested cl) (probe_of a)]> (eager_reply_claims s)).
Proof.
  intros Hk Ht Hp. unfold attach_probe_to_eager_reply_claim, probe_of. case_decide.
  - by rewrite Hk, decide_True.
  - rewrite <- Hp. rewrite insert_id; [by destruct s|]. by destruct cl.
Qed.

(** A task takes a claim, or records its probe on it. *)
Lemma inv_put (n : Node) (s : Topic) (k : Key) (cl : EagerReplyClaim) (m : TopicMesh) (th : Thread) (next' : Z) :
  inv n → topic n = Some s → rtc mesh_step (mesh s) m → next_token n <= next' → c_token cl < next' →
  (∀ cl', eager_reply_claims s !! k = Some cl' → c_probe cl' = None) →
  owned (set_mesh s m) (λ q j, held (plain n) q j ∨ (q = k.1 ∧ c_probe cl = Some j)) →
  let s' := set_claims (set_mesh s m) (<[k := cl]> (eager_reply_claims s)) in
  thread_ok (with_topic n s') (c_token cl) th →
  inv (mkNode (Some s') (next_custody n) next' (next_probe n) (<[c_token cl := th]> (threads n)) (ticks n) (plain n)).
Proof.
  intros Hn Hs Hm Hnext Hlt Hfree Ho s' Hth. destruct (inv_custody _ Hn s Hs) as (Hk & Hnd & Hid). set (n' := mkNode _ _ _ _ _ _ _).
  assert (∀ e, known n e → known n' e) as Hknown.
  { intros e [? Hu]. split; [done|]. cbn. intros s1 x [= <-] Hx. by apply (Hu s x Hs Hx). }
  split; cbn.
  - by intros s1 [= <-].
  - intros s1 k' cl' [= <-] Hc. subst s'. cbn in Hc. apply lookup_insert_Some in Hc as [[_ <-]|[_ Hc]]; [done|]. pose proof (inv_claims _ Hn s k' cl' Hs Hc). lia.
  - assert (∀ k' t pr', t ≠ c_token cl → link n k' t pr' → link n' k' t pr') as Hlink.
    { intros k' t pr' Hne Hl s1 cl' [= <-] Hc Ht. subst s'. cbn in Hc. apply lookup_insert_Some in Hc as [[_ <-]|[_ Hc]]; [congruence|]. by eapply Hl. }
    intros t th' [[<- <-]|[Hne Hl]]%lookup_insert_Some; [split; [done|]; exact Hth|].
    destruct (inv_threads _ Hn t th' Hl) as [Hlt' Hok]. split; [lia|].
    assert (∀ c, own_known n c → own_known n' c) as Hown by (intros c Hc e He; destruct (Hc e He); auto).
    destruct th'; cbn [thread_ok] in *; destruct_and?; split_and?; auto.
  - intros e He. by apply Hknown, (inv_ticks _ Hn).
  - intros s1 [= <-]. by apply (owned_record (set_mesh s m)).
  - intros s1 [= <-]. eapply mesh_steps_ok; [exact Hm|]. by apply (inv_mesh _ Hn).
Qed.

Lemma claim_one_step (m : TopicMesh) (next : Z) (p : PeerId) (now : Z) (crit : bool) (conn : option bool) (granted : bool) m' next' r :
  claim_one m next p now crit conn granted = (m', next', r) → rtc mesh_step m m'.
Proof. intros E. apply rtc_once. replace m' with ((claim_one m next p now crit conn granted).1.1) by (by rewrite E). apply ms_claim. Qed.

(** *** Every critical section keeps the invariant *)

Lemma inv_with_topic (n : Node) (s s' : Topic) :
  inv n → topic n = Some s → evolves s (next_custody n) s' (next_custody n) → owned s' (held (plain n)) → inv (with_topic n s').
Proof. intros Hn Hs Hev Ho. by eapply (inv_evolve n s s' (next_custody n)). Qed.

Lemma inv_prune (n : Node) (s : Topic) (now : Z) : inv n → topic n = Some s → inv (with_topic n (prune_eager_reply_claims s now)).
Proof. intros Hn Hs. eapply inv_with_topic; [done..|apply evolves_prune_claims|]. by apply owned_prune_claims, (inv_owned _ Hn). Qed.

Lemma inv_prune_deferred (n : Node) (s : Topic) (now : Z) : inv n → topic n = Some s → inv (with_topic n (prune_deferred_eager_replies s now)).
Proof. intros Hn Hs. eapply inv_with_topic; [done..|apply evolves_prune_deferred|]. by apply owned_prune_deferred, (inv_owned _ Hn). Qed.

Lemma inv_iwant (n : Node) (s : Topic) (k : Key) (now : Z) :
  inv n → topic n = Some s →
  let '(s', owns) := claim_eager_reply_for_iwant s k (next_token n) now in
  inv (if owns then spawn (with_topic n s') (Serving k) else with_topic n s').
Proof.
  intros Hn Hs. unfold claim_eager_reply_for_iwant. pose proof (inv_prune n s now Hn Hs) as Hn1.
  set (s1 := prune_eager_reply_claims s now) in *. destruct (eager_reply_claims s1 !! k) as [c|] eqn:Hk.
  - change (with_topic n ?x) with (with_topic (with_topic n s1) x). eapply (inv_with_topic (with_topic n s1) s1); [done..| |].
    + split; [cbn; lia|done|done|by left| |done]. cbn. intros k' cl' [[<- <-]|[_ Hc]]%lookup_insert_Some; [by exists c|by exists cl'].
    + intros p i Hi. destruct (inv_owned _ Hn1 s1 eq_refl p i Hi) as (j & -> & [(k' & cl & Hc & <- & Hp)|Hh]); exists j; (split; [done|]); [left|by right].
      destruct (decide (k' = k)) as [->|Hne].
      * exists k. eexists. split; [cbn; by rewrite lookup_insert, decide_True|]. split; [done|]. cbn. congruence.
      * exists k', cl. split; [|done]. cbn. by rewrite lookup_insert_ne.
  - cbn [insert_eager_reply_claim].
    apply (inv_put (with_topic n s1) s1 k (mkClaim (next_token n) now false None) (mesh s1) (Serving k) (next_token n + 1));
      [done|done|done|cbn; lia|cbn; lia|by rewrite Hk| |].
    + eapply owned_weaken; [|apply (inv_owned _ Hn1 s1 eq_refl)]. by left.
    + intros s2 cl [= <-] Hc Ht. cbn in Hc. rewrite lookup_insert, decide_True in Hc by done. by simplify_eq.
Qed.

Lemma inv_refused (n : Node) (t : Z) (k : Key) (o : EagerReplyOutcome) :
  inv n → t < next_token n → link n k t None → inv (move n t (Settling (serve_completion k t) o)).
Proof.
  intros Hn Ht Hl. apply inv_move; [done..|]. cbn. split; [done|]. split; [by intros e|]. by destruct k.
Qed.

Lemma inv_claim_for_reply (n : Node) (t : Z) (k : Key) (now : Z) (crit : bool) (conn : option bool) (granted : bool) :
  inv n → threads n !! t = Some (Serving k) → inv (claim_for_reply n t k now crit conn granted).
Proof.
  intros Hn Hth. destruct (inv_threads _ Hn t _ Hth) as [Hlt Hlink]. cbn in Hlink. unfold claim_for_reply.
  destruct (topic n) as [s|] eqn:Hs; [|by apply inv_refused]. destruct (current s k t) eqn:Hcur; [|by apply inv_refused].
  destruct (claim_one _ _ _ _ _ _ _) as [[m i] r] eqn:E. pose proof (claim_one_step _ _ _ _ _ _ _ _ _ _ E) as Hm.
  apply (owned_claim s (held (plain n))) in E; [|by apply (inv_owned _ Hn)].
  unfold current in Hcur. apply bool_decide_eq_true, fmap_Some in Hcur as (cl & Hcl & Ht). symmetry in Ht.
  pose proof (Hlink s cl Hs Hcl Ht) as Hpr. destruct r as [a|].
  - destruct E as [Hp Ho]. rewrite (attach_current _ k t a cl) by done. set (s' := set_claims _ _).
    subst t. apply (inv_put (with_probe n i) s k (mkClaim (c_token cl) (c_claimed_at cl) (c_rerequested cl) (probe_of a)) m (Sending (serve_completion k (c_token cl)) a) (next_token n));
      [by apply inv_with_probe|done|done|cbn; lia|done| |done|].
    + intros cl' Hc'. by simplify_eq.
    + cbn. split; [done|]. split; [done|]. split; [by intros e|]. intros s1 cl' [= <-] Hc' _. cbn in Hc'. destruct k.
      rewrite lookup_insert, decide_True in Hc' by done. by simplify_eq.
  - apply (inv_refused (with_probe (with_topic n (set_mesh s m)) i)); [|done|].
    + apply inv_with_probe. by eapply inv_with_topic; [..|apply evolves_mesh|].
    + intros s1 cl' [= <-] Hc Ht'. by eapply Hlink.
Qed.

Lemma inv_retry_claim (n : Node) (s : Topic) (e : DeferredEagerReply) (now : Z) (adm crit : bool) (conn : option bool) (granted : bool) :
  inv n → topic n = Some s → known n e → inv (retry_claim n s e now adm crit conn granted).
Proof.
  intros Hn Hs He. unfold retry_claim. cbn zeta. pose proof (inv_prune n s now Hn Hs) as Hn1.
  assert (known (with_topic n (prune_eager_reply_claims s now)) e) as He1.
  { apply (known_evolve n s _ (next_custody n)); [done|apply evolves_prune_claims|done]. }
  set (s1 := prune_eager_reply_claims s now) in *. destruct (_ || _) eqn:Hc; [done|]. apply orb_false_iff in Hc as [Hc _].
  apply bool_decide_eq_false, eq_None_not_Some in Hc. destruct (claim_one _ _ _ _ _ _ _) as [[m i] r] eqn:E.
  pose proof (claim_one_step _ _ _ _ _ _ _ _ _ _ E) as Hm. apply (owned_claim s1 (held (plain n))) in E; [|by apply (inv_owned _ Hn1)].
  destruct r as [a|].
  - destruct E as [Hp Ho]. rewrite attach_insert.
    apply (inv_put (with_probe (with_topic n s1) i) s1 (d_key e) (mkClaim (next_token n) now false (probe_of a)) m (Sending (retry_completion e (next_token n)) a) (next_token n + 1));
      [by apply inv_with_probe|done|done|cbn; lia|cbn; lia|by rewrite Hc|done|].
    cbn. split; [done|]. split; [done|]. split.
    + intros e' [= <-]. split; [|done]. split; [apply He1|]. cbn. intros s2 x [= <-] Hx. by apply (proj2 He1 s1 x).
    + intros s2 cl [= <-] Hc' _. cbn in Hc'. rewrite lookup_insert, decide_True in Hc' by done. by simplify_eq.
  - apply inv_with_probe. by apply (inv_with_topic (with_topic n s1) s1); [done|done|apply evolves_mesh|].
Qed.

Lemma inv_present (cfg : AdaptiveCoolingConfig) (n n' : Node) (c : EagerReplyCompletion) (a : PeerSendAttempt) b (now : Z) (health : PeerId → option PeerHealth) :
  inv n → settles a b.2 → at_peer a = e_peer c → link n (e_key c) (e_token c) (probe_of a) →
  present cfg n c b now health = Some n' → inv n' ∧ next_token n' = next_token n ∧ threads n' = threads n.
Proof.
  intros Hn Hs Hp Hl. unfold present. destruct (topic n) as [s|] eqn:Hs'; [|by intros [= <-]].
  intros ([s2 i] & Hc & [= <-])%bind_Some. split; [|done]. eapply inv_evolve; [done..|by eapply evolves_complete|].
  eapply owned_complete; [by apply (inv_owned _ Hn)|done|done| |done]. intros cl. by apply Hl.
Qed.

(** A completion, presented once, is stale from then on. *)
Lemma evolves_not_current (s s' : Topic) (i i' : Z) (k : Key) (t : Z) : evolves s i s' i' → current s k t = false → current s' k t = false.
Proof.
  intros Hev Hc. apply bool_decide_eq_false in Hc. apply bool_decide_eq_false. intros Hc'. apply Hc. apply fmap_Some in Hc' as (cl' & Hk & ->).
  destruct (ev_claims _ _ _ _ Hev k cl' Hk) as (cl & -> & -> & _). done.
Qed.

Lemma release_not_current (s : Topic) (k : Key) (t : Z) : current (set_claims s (delete k (eager_reply_claims s))) k t = false.
Proof. apply bool_decide_eq_false. cbn. rewrite lookup_delete, decide_True by done. done. Qed.

Lemma complete_not_current (cfg : AdaptiveCoolingConfig) (health : PeerId → option PeerHealth) (s s' : Topic) (i i' : Z) (c : EagerReplyCompletion)
    (o : EagerReplyOutcome) (r : SendAttemptResults) (now : Z) :
  complete_eager_reply cfg health s i c o r now = Some (s', i') → current s' (e_key c) (e_token c) = false.
Proof.
  unfold complete_eager_reply. destruct (gate_spec s c) as [(cl & _ & _ & _ & ->)|[Hc ->]].
  - set (s1 := set_claims s _). pose proof (evolves_apply s1 i (mkAdmission c (c_rerequested cl)) o now) as Ha.
    destruct (apply_eager_reply_outcome s1 i _ o now) as [s2 i2]. intros (s3 & Hb & [= <- <-])%bind_Some.
    eapply evolves_not_current; [by eapply (evolves_book _ _ _ _ 0)|]. eapply evolves_not_current; [exact Ha|]. apply release_not_current.
  - intros [= <- <-]. eapply evolves_not_current; [apply (evolves_drop_own _ 0)|done].
Qed.

Lemma settle_not_current (s : Topic) (i : Z) (c : EagerReplyCompletion) (o : EagerReplyOutcome) (now : Z) :
  current (settle_eager_reply s i c o now).1 (e_key c) (e_token c) = false.
Proof.
  unfold settle_eager_reply. destruct (gate_spec s c) as [(cl & _ & _ & _ & ->)|[Hc ->]].
  - eapply evolves_not_current; [apply evolves_apply|apply release_not_current].
  - eapply evolves_not_current; [apply (evolves_drop_own _ 0)|done].
Qed.

Lemma not_current_link (n : Node) (s : Topic) (k : Key) (t : Z) (pr : option Z) : topic n = Some s → current s k t = false → link n k t pr.
Proof. intros Hs Hc s' cl Hs' Hk Ht. simplify_eq. apply bool_decide_eq_false in Hc. destruct Hc. by rewrite Hk. Qed.

Lemma present_not_current (cfg : AdaptiveCoolingConfig) (n n' : Node) (c : EagerReplyCompletion) b (now : Z) (health : PeerId → option PeerHealth) (pr : option Z) :
  present cfg n c b now health = Some n' → link n' (e_key c) (e_token c) pr.
Proof.
  unfold present. destruct (topic n) as [s|] eqn:Hs; [|intros [= <-] s cl; congruence].
  intros ([s2 i] & Hc & [= <-])%bind_Some. eapply not_current_link; [done|]. by eapply complete_not_current.
Qed.

Lemma inv_skip (n : Node) (e : DeferredEagerReply) : inv n → inv (with_ticks n (remove_first e (ticks n))).
Proof. intros Hn. apply inv_with_ticks; [done|]. intros e' He%elem_of_remove_first. by apply (inv_ticks _ Hn). Qed.

Lemma NoDup_fmap_inj {A B} (f : A → B) (l : list A) (x y : A) : NoDup (f <$> l) → x ∈ l → y ∈ l → f x = f y → x = y.
Proof.
  induction l as [|z l IH]; [by intros _ ?%elem_of_nil|]. rewrite fmap_cons. intros [Hz Hn]%NoDup_cons [->|Hx]%elem_of_cons [->|Hy]%elem_of_cons Hf; [done|..].
  - destruct Hz. rewrite Hf. by apply list_elem_of_fmap_2.
  - destruct Hz. rewrite <- Hf. by apply list_elem_of_fmap_2.
  - by apply IH.
Qed.

Lemma inv_plain (n : Node) (l : list PeerSendAttempt) :
  inv n → (∀ s, topic n = Some s → owned s (held l)) → inv (with_plain n l).
Proof. intros Hn Ho. split; cbn; try apply Hn. done. Qed.

Lemma inv_plain_claim (cfg : AdaptiveCoolingConfig) (n n' : Node) (p : PeerId) (now : Z) (crit : bool) (conn : option bool) (granted : bool) :
  inv n → exec cfg n (OPlainClaim p now crit conn granted) = Some n' → inv n'.
Proof.
  intros Hn. cbn [exec]. intros (s & Hs & E)%bind_Some. destruct (claim_one _ _ _ _ _ _ _) as [[m i] r] eqn:Ec.
  pose proof (claim_one_step _ _ _ _ _ _ _ _ _ _ Ec) as Hm. apply (owned_claim s (held (plain n))) in Ec; [|by apply (inv_owned _ Hn)].
  destruct r as [a|]; simplify_eq.
  - destruct Ec as [Hp Ho]. assert (owned (set_mesh s m) (held (plain n ++ [a]))) as Ho'.
    { eapply owned_weaken; [|exact Ho]. intros q j [(b & Hb & ? & ?)|[-> Hj]]; [exists b|exists a]; rewrite elem_of_app, list_elem_of_singleton; auto. }
    assert (inv (with_plain n (plain n ++ [a]))) as Hn1.
    { apply inv_plain; [done|]. intros s' Hs'. simplify_eq. eapply owned_weaken; [|by apply (inv_owned _ Hn)].
      intros q j (b & Hb & ?). exists b. rewrite elem_of_app. auto. }
    apply (inv_with_probe (with_topic (with_plain n (plain n ++ [a])) (set_mesh s m))).
    by eapply (inv_with_topic (with_plain n (plain n ++ [a]))); [..|apply evolves_mesh|].
  - apply inv_with_probe. by eapply inv_with_topic; [..|apply evolves_mesh|].
Qed.

Lemma inv_plain_book (cfg : AdaptiveCoolingConfig) (n n' : Node) (a : PeerSendAttempt) (r : SendResult) (now : Z) (health : PeerId → option PeerHealth) :
  inv n → exec cfg n (OPlainBook a r now health) = Some n' → inv n'.
Proof.
  intros Hn. cbn [exec]. case_decide as Ha; [|done]. cbn [with_plain topic]. destruct (topic n) as [s|] eqn:Hs.
  2: { intros [= <-]. apply inv_plain; [done|]. congruence. }
  intros (s' & Hb & [= <-])%bind_Some.
  assert (owned s (λ p j, held (remove_first a (plain n)) p j ∨ (p = at_peer a ∧ probe_of a = Some j))) as Ho.
  { eapply owned_weaken; [|by apply (inv_owned _ Hn)]. intros p j (b & Hb' & Hp & Hj). destruct (remove_first_or a b _ Hb') as [->|?]; [by right|].
    left. by exists b. }
  apply (inv_plain (with_topic n s')).
  - eapply inv_with_topic; [done..|by eapply evolves_book|]. eapply owned_weaken; [|eapply owned_book; [exact Ho|apply collect_settles|exact Hb]].
    intros p j (b & Hb' & ?). exists b. split; [|done]. by eapply elem_of_remove_first.
  - intros s1 [= <-]. eapply owned_book; [exact Ho|apply collect_settles|exact Hb].
Qed.

Lemma inv_connected (n : Node) (s s' : Topic) (X : gset PeerId) (pref : option PeerId) (now : Z) :
  inv n → topic n = Some s → set_topic_peers s X pref now = Some s' → inv (with_topic n s').
Proof.
  intros Hn Hs. unfold set_topic_peers. intros ([[m k] b] & E & [= <-])%bind_Some.
  destruct (connected_probes _ _ _ _ _ _ _ (inv_mesh _ Hn s Hs) E) as [Hk HX]. eapply inv_with_topic; [done..| |].
  - apply evolves_filter; cbn; [apply sublist_filter|apply map_filter_subseteq|]. apply rtc_once. by eapply ms_connected.
  - intros p i Hi. cbn in Hi. destruct (inv_owned _ Hn s Hs p i) as (j & -> & [(k' & cl & Hc & <- & Hp)|Hh]); [by apply Hk|..]; exists j; (split; [done|]); [left|by right].
    exists k', cl. split; [|done]. cbn. apply map_lookup_filter_Some. split; [done|]. by eapply HX.
Qed.

Lemma inv_new_topic (n : Node) (degree : nat) (c : BoundedMessageCache) :
  inv n → topic n = None → (1 <= degree)%nat → inv (with_topic n (mkTopic (mesh_new degree) queues_new c [] ∅)).
Proof.
  intros Hn Hs Hd. split; cbn.
  - intros s [= <-]. split; [constructor|]. split; [constructor|]. by intros x ?%elem_of_nil.
  - intros s k cl [= <-]. cbn. by rewrite lookup_empty.
  - intros t th Ht. destruct (inv_threads _ Hn t th Ht) as [Hlt Hok]. split; [done|].
    assert (∀ e, known n e → known (with_topic n (mkTopic (mesh_new degree) queues_new c [] ∅)) e) as Hk.
    { intros e [? _]. split; [done|]. cbn. by intros s x [= <-] ?%elem_of_nil. }
    assert (∀ k t' pr, link (with_topic n (mkTopic (mesh_new degree) queues_new c [] ∅)) k t' pr) as Hl.
    { intros k t' pr s cl [= <-]. cbn. by rewrite lookup_empty. }
    assert (∀ c', own_known n c' → own_known (with_topic n (mkTopic (mesh_new degree) queues_new c [] ∅)) c') as Hown.
    { intros c' Hc e He. destruct (Hc e He). auto. }
    destruct th; cbn [thread_ok] in *; destruct_and?; split_and?; auto.
  - intros e He. destruct (inv_ticks _ Hn e He) as [? _]. split; [done|]. cbn. by intros s x [= <-] ?%elem_of_nil.
  - intros s [= <-] p i (x & Hx & _). cbn in Hx. by rewrite lookup_empty in Hx.
  - intros s [= <-]. split; cbn; [set_solver|rewrite size_empty; lia|lia|done|unfold MAX_PREFERRED_EAGER_PEERS; lia].
Qed.

Lemma inv_no_topic (n : Node) : inv n → inv (mkNode None (next_custody n) (next_token n) (next_probe n) (threads n) (ticks n) (plain n)).
Proof.
  intros Hn. split; cbn; try done.
  - intros t th Ht. destruct (inv_threads _ Hn t th Ht) as [Hlt Hok]. split; [done|].
    assert (∀ c, own_known n c → own_known (mkNode None (next_custody n) (next_token n) (next_probe n) (threads n) (ticks n) (plain n)) c) as Hown.
    { intros c Hc e He. destruct (Hc e He) as [[? _] ?]. split; [|done]. split; [done|by intros s x]. }
    assert (∀ k t' pr, link (mkNode None (next_custody n) (next_token n) (next_probe n) (threads n) (ticks n) (plain n)) k t' pr) as Hl by (by intros k t' pr s cl).
    destruct th; cbn [thread_ok] in *; destruct_and?; split_and?; auto.
  - intros e He. destruct (inv_ticks _ Hn e He) as [? _]. split; [done|]. by intros s x.
Qed.

Lemma exec_inv (cfg : AdaptiveCoolingConfig) (n n' : Node) (o : Op) : inv n → exec cfg n o = Some n' → inv n'.
Proof.
  intros Hn. destruct o; try (by eapply inv_plain_claim); try (by eapply inv_plain_book); cbn [exec].
  - intros (s & Hs & E)%bind_Some. pose proof (inv_iwant n s k now Hn Hs) as Hi. destruct (claim_eager_reply_for_iwant _ _ _ _). by simplify_eq.
  - destruct (threads n !! t) as [[k| | |]|] eqn:Ht; try done. intros [= <-]. destruct (inv_threads _ Hn t _ Ht). by apply inv_refused.
  - destruct (threads n !! t) as [[k| | |]|] eqn:Ht; try done. intros [= <-]. by apply inv_claim_for_reply.
  - destruct (threads n !! t) as [[|c a| |]|] eqn:Ht; try done. intros (n1 & Hp & [= <-])%bind_Some.
    destruct (inv_threads _ Hn t _ Ht) as [Hlt (<- & Ha & _ & Hl)]. pose proof (present_not_current _ _ _ _ _ _ _ None Hp) as Hl1.
    apply (inv_present cfg n n1 c a) in Hp as (Hn1 & E1 & E2); [|done|apply booking_settles|done|done].
    destruct (e_own_custody c) eqn:Eo; [by apply inv_finish|]. apply inv_move; [done|by rewrite E1|].
    split; [done|]. split; [intros e; congruence|done].
  - destruct (threads n !! t) as [[|c a| |]|] eqn:Ht; try done. intros [= <-]. destruct (inv_threads _ Hn t _ Ht).
    unfold drop_claims. case_decide; [by apply inv_move|by apply inv_finish].
  - destruct (threads n !! t) as [[| | |c a]|] eqn:Ht; try done. intros (n1 & Hp & [= <-])%bind_Some.
    destruct (inv_threads _ Hn t _ Ht) as [Hlt (<- & Ha & _ & Hl)]. apply inv_finish.
    eapply (inv_present cfg n n1 c a), Hp; [done| |done|done]. right. by left.
  - destruct (threads n !! t) as [[| |c o|]|] eqn:Ht; try done. intros [= <-]. apply inv_finish. destruct (topic n) as [s|] eqn:Hs; [|done].
    destruct (inv_threads _ Hn t _ Ht) as [Hlt (<- & _ & Hl)]. pose proof (evolves_settle s (next_custody n) c o now) as Hev.
    pose proof (owned_settle s _ (next_custody n) c o now (inv_owned _ Hn s Hs)) as Ho. destruct (settle_eager_reply _ _ _ _ _) as [s2 i2].
    eapply inv_evolve; [done..|]. apply Ho. intros cl. by apply Hl.
  - intros [= <-]. by apply inv_finish.
  - intros (s & Hs & [= <-])%bind_Some. pose proof (inv_prune_deferred n s now Hn Hs) as Hn1. unfold retry_tick. destruct (bool_decide _ && _) eqn:E; [|done].
    apply andb_true_iff in E as [He%bool_decide_eq_true _]. apply (inv_with_ticks (with_topic n _)); [done|].
    intros e' [Hin|Hin%list_elem_of_singleton]%elem_of_app; [by apply (inv_ticks _ Hn1)|subst e']. destruct (inv_custody _ Hn1 _ eq_refl) as (_ & Hnd & Hid).
    split; [by apply Hid|]. intros s' x [= <-] Hx Heq. by eapply NoDup_fmap_inj.
  - intros [= <-]. by apply inv_skip.
  - case_decide as He; [|done]. intros [= <-]. assert (inv (with_ticks n (remove_first e (ticks n)))) as Hn1 by (by apply inv_skip).
    unfold discard. cbn [with_ticks topic]. destruct (topic n) as [s|] eqn:Hs; [|done]. apply (inv_with_topic (with_ticks n _) s); [done|done| |exact (inv_owned _ Hn s Hs)].
    apply evolves_filter; cbn; [apply sublist_filter|done|done].
  - case_decide as He; [|done]. intros [= <-]. assert (inv (with_ticks n (remove_first e (ticks n)))) as Hn1 by (by apply inv_skip).
    cbn [with_ticks topic]. destruct (topic n) as [s|] eqn:Hs; [|done]. apply inv_retry_claim; [done|done|]. apply (inv_ticks _ Hn), He.
  - intros (s & Hs & [= <-])%bind_Some. eapply (inv_prune_deferred (with_topic n _)); [|done]. by apply inv_prune.
  - intros (s & Hs & (s' & Hs' & [= <-])%bind_Some)%bind_Some. by eapply inv_connected.
  - intros [= <-]. by apply inv_no_topic.
  - case_decide as Hd; [|done]. intros [= <-]. destruct Hd. by apply inv_new_topic.
Qed.

(** ** The critical sections implement the specification *)

Lemma view_evict (s : Topic) (p : PeerId) (k : Key) : NoDup (keys s) → view (evict_peer s p) k = if decide (p = k.1) then no_reply else view s k.
Proof.
  intros Hn. unfold view. cbn [evict_peer drop_eager_reply_records_for_peer set_mesh deferred_eager_replies eager_reply_claims].
  change (λ e, bool_decide (d_key e = k)) with (has_key k). rewrite find_filter by done. rewrite map_lookup_filter.
  assert (∀ x, List.find (has_key k) (deferred_eager_replies s) = Some x → d_peer x = k.1) as Hx by (intros x [_ <-]%find_key; done).
  case_decide as Hp; [unfold no_reply|]; f_equal.
  - destruct (List.find _ _) as [x|] eqn:E; cbn; [|done]. rewrite bool_decide_eq_false_2; [done|]. specialize (Hx x eq_refl). congruence.
  - destruct (eager_reply_claims s !! k); cbn; [|done]. case_guard; cbn in *; congruence.
  - apply keep_all. intros x Hf. apply bool_decide_eq_true. rewrite (Hx x Hf). congruence.
  - destruct (eager_reply_claims s !! k); cbn; [|done]. case_guard; cbn in *; [done|]. exfalso. naive_solver.
Qed.

Lemma view_evict_all (l : list PeerSendAttempt) (s : Topic) (k : Key) :
  NoDup (keys s) → view (foldl (λ s a, evict_peer s (at_peer a)) s l) k = if gone_from k l then no_reply else view s k.
Proof.
  revert s. induction l as [|a l IH]; intros s Hn; [done|]. cbn [foldl]. rewrite IH by (by apply (ev_keys _ _ _ _ (evolves_evict s 0 (at_peer a)))).
  rewrite view_evict by done. unfold gone_from. cbn [existsb]. case_bool_decide; [rewrite decide_True by done|rewrite decide_False by done]; [by destruct (existsb _ _)|done].
Qed.

Lemma view_book (cfg : AdaptiveCoolingConfig) (health : PeerId → option PeerHealth) (s s' : Topic) (r : SendAttemptResults) (now : Z) (k : Key) :
  NoDup (keys s) → book_topic_send_attempt_results cfg health s r now = Some s' →
  view s' k = if gone_from k (r_not_connected r) then no_reply else view s k.
Proof.
  intros Hn. unfold book_topic_send_attempt_results. intros (m & _ & [= <-])%bind_Some.
  change (view (set_mesh ?x _) k) with (view x k). by rewrite view_evict_all.
Qed.

Lemma view_complete (cfg : AdaptiveCoolingConfig) (health : PeerId → option PeerHealth) (s s' : Topic) (i i' : Z) (c : EagerReplyCompletion)
    (o : EagerReplyOutcome) (r : SendAttemptResults) (now : Z) (k : Key) :
  NoDup (keys s) → own_ok s c → complete_eager_reply cfg health s i c o r now = Some (s', i') →
  view s' k = foldl next (view s k) (settle_events s i c o now k ++ (if current s (e_key c) (e_token c) && gone_from k (r_not_connected r) then [EvDrop] else [])).
Proof.
  intros Hn Ho. unfold complete_eager_reply. destruct (gate_spec s c) as [(cl & Hcl & Ht & Hcur & ->)|[Hcur ->]].
  - rewrite Hcur. cbn [andb]. set (s1 := set_claims s _). pose proof (evolves_apply s1 i (mkAdmission c (c_rerequested cl)) o now) as Ha.
    pose proof (view_apply s i c cl o now k Hn Ho Hcl Ht) as Hv. fold s1 in Hv. destruct (apply_eager_reply_outcome s1 i _ o now) as [s2 i2]. cbn [fst snd] in *.
    intros (s3 & Hb & [= <- <-])%bind_Some. rewrite (view_book cfg health s2 s3 r now k) by (done || by apply (ev_keys _ _ _ _ Ha)).
    rewrite foldl_app, <- Hv. by destruct (gone_from k (r_not_connected r)).
  - intros [= <- <-]. rewrite Hcur. cbn [andb]. rewrite app_nil_r. by apply view_stale.
Qed.

Lemma own_known_ok (n : Node) (s : Topic) (c : EagerReplyCompletion) : topic n = Some s → own_known n c → own_ok s c.
Proof. intros Hs Hc e x He Hx Hid. destruct (Hc e He) as [[_ Hu] <-]. by rewrite (Hu s x Hs Hx Hid). Qed.

Lemma view_iwant (s : Topic) (k k' : Key) (t now : Z) :
  view (claim_eager_reply_for_iwant s k' t now).1 k =
  foldl next (view s k) (EvExpireClaims now :: (if decide (k = k') then [EvIwant t now] else [])).
Proof.
  cbn [foldl]. rewrite <- view_prune_claims. unfold claim_eager_reply_for_iwant. generalize (prune_eager_reply_claims s now). intros s1.
  case_decide as Hk; [subst k'|].
  - cbn [foldl next]. unfold view. destruct (eager_reply_claims s1 !! k) as [c|] eqn:E; cbn [fst insert_eager_reply_claim set_claims deferred_eager_replies eager_reply_claims v_custody v_owner];
      rewrite lookup_insert, decide_True by done; done.
  - cbn [foldl]. unfold view. destruct (eager_reply_claims s1 !! k') as [c|] eqn:E; cbn [fst insert_eager_reply_claim set_claims deferred_eager_replies eager_reply_claims];
      by rewrite lookup_insert_ne.
Qed.

Lemma view_attach (s : Topic) (k k' : Key) (t : Z) (a : PeerSendAttempt) : view (attach_probe_to_eager_reply_claim s k' t a) k = view s k.
Proof.
  unfold attach_probe_to_eager_reply_claim. case_decide; [|done]. destruct (eager_reply_claims s !! k') as [c|] eqn:E; [|done]. case_decide; [|done].
  unfold view. cbn. f_equal. rewrite lookup_insert. case_decide; [|done]. subst. by rewrite E.
Qed.

Lemma view_retry (n : Node) (s : Topic) (e : DeferredEagerReply) (now : Z) (adm crit : bool) (conn : option bool) (granted : bool) (k : Key) :
  node_view (retry_claim n s e now adm crit conn granted) k =
  foldl next (view s k) (EvExpireClaims now ::
    (if decide (k = d_key e) then
       if adm && bool_decide (is_Some (claim_one (mesh (prune_eager_reply_claims s now)) (next_probe n) (d_peer e) now crit conn granted).2)
       then [EvRetry (next_token n) now] else []
     else [])).
Proof.
  cbn [foldl]. rewrite <- view_prune_claims. unfold retry_claim. cbn zeta. generalize (prune_eager_reply_claims s now). intros s1.
  destruct (eager_reply_claimed s1 (d_key e)) eqn:Hc; cbn [orb].
  - change (node_view (with_topic n s1) k) with (view s1 k). case_decide; [|done]. subst. case_match; [|done]. cbn [foldl next].
    apply bool_decide_eq_true in Hc as [cl Hcl]. unfold view. cbn. by rewrite Hcl.
  - apply bool_decide_eq_false, eq_None_not_Some in Hc. destruct adm; cbn [andb negb]; [|case_decide; done].
    destruct (claim_one _ _ _ _ _ _ _) as [[m i] [a|]]; cbn [snd]; [rewrite bool_decide_eq_true_2 by done|case_decide; done].
    rewrite attach_insert. unfold node_view, view. cbn. rewrite lookup_insert. case_decide as Hk; [subst|].
    + rewrite decide_True by done. cbn. by rewrite Hc.
    + by rewrite decide_False.
Qed.

Lemma present_refines (cfg : AdaptiveCoolingConfig) (n n' : Node) (c : EagerReplyCompletion) b (now : Z) (health : PeerId → option PeerHealth) (k : Key) :
  inv n → own_known n c → present cfg n c b now health = Some n' →
  node_view n' k = foldl next (node_view n k)
    (match topic n with None => [] | Some s => completion_events n s c b.1 (r_not_connected b.2) now k end).
Proof.
  intros Hn Hc. unfold present. destruct (topic n) as [s|] eqn:Hs; [|by intros [= <-]].
  intros ([s2 i2] & E & [= <-])%bind_Some. unfold node_view at 2. rewrite Hs. cbn [fmap option_fmap option_map default flip].
  eapply view_complete; [by apply (inv_custody _ Hn)|by eapply own_known_ok|exact E].
Qed.

Lemma view_claim_for_reply (n : Node) (t : Z) (k' : Key) (now : Z) (crit : bool) (conn : option bool) (granted : bool) (k : Key) :
  node_view (claim_for_reply n t k' now crit conn granted) k = node_view n k.
Proof.
  unfold claim_for_reply. destruct (topic n) as [s|] eqn:Hs; [|done]. destruct (current s k' t); [|done].
  destruct (claim_one _ _ _ _ _ _ _) as [[m i] [a|]]; unfold node_view at 2; rewrite Hs; cbn [fmap option_fmap option_map default flip]; [|done].
  change (node_view (move (with_probe (with_topic n ?x) i) t _) k) with (view x k). by rewrite view_attach.
Qed.

Lemma view_set_topic_peers (s s' : Topic) (X : gset PeerId) (pref : option PeerId) (now : Z) (k : Key) :
  NoDup (keys s) → set_topic_peers s X pref now = Some s' → view s' k = foldl next (view s k) (if decide (k.1 ∈ X) then [] else [EvDrop]).
Proof.
  intros Hn. unfold set_topic_peers. intros ([[m x] b] & _ & [= <-])%bind_Some. unfold view.
  cbn [deferred_eager_replies eager_reply_claims]. change (λ e, bool_decide (d_key e = k)) with (has_key k). rewrite find_filter by done.
  rewrite map_lookup_filter.
  assert (∀ x, List.find (has_key k) (deferred_eager_replies s) = Some x → d_peer x = k.1) as Hx by (intros y [_ <-]%find_key; done).
  case_decide as Hp; cbn [foldl next]; [|unfold no_reply]; f_equal.
  - apply keep_all. intros y Hy. apply bool_decide_eq_true. by rewrite (Hx y Hy).
  - destruct (eager_reply_claims s !! k); cbn; [|done]. case_guard; cbn in *; [done|]. done.
  - destruct (List.find _ _) as [y|] eqn:E; cbn; [|done]. rewrite bool_decide_eq_false_2; [done|]. by rewrite (Hx y eq_refl).
  - destruct (eager_reply_claims s !! k); cbn; [|done]. case_guard; cbn in *; [|done]. done.
Qed.

Lemma exec_refines (cfg : AdaptiveCoolingConfig) (n n' : Node) (o : Op) (k : Key) :
  inv n → exec cfg n o = Some n' → node_view n' k = foldl next (node_view n k) (events n o k).
Proof.
  intros Hn. assert (∀ s, topic n = Some s → node_view n k = view s k) as Hv by (intros s Hs; unfold node_view; by rewrite Hs).
  unfold events. destruct o; cbn [exec].
  - intros (s & Hs & E)%bind_Some. rewrite Hs, (Hv s Hs), <- view_iwant. destruct (claim_eager_reply_for_iwant _ _ _ _) as [s1 []]; by simplify_eq.
  - destruct (threads n !! t) as [[| | |]|]; try done. intros [= <-]. by destruct (topic n).
  - destruct (threads n !! t) as [[| | |]|]; try done. intros [= <-]. rewrite view_claim_for_reply. by destruct (topic n).
  - destruct (threads n !! t) as [[|c a| |]|] eqn:Ht; try done. intros (n1 & Hp & [= <-])%bind_Some.
    destruct (inv_threads _ Hn t _ Ht) as [_ (_ & _ & Hown & _)]. rewrite <- (present_refines cfg n n1 c (booking c a r) now health k Hn Hown Hp).
    by destruct (e_own_custody c).
  - destruct (threads n !! t) as [[|c a| |]|]; try done. intros [= <-]. unfold drop_claims. by destruct (topic n), (decide (at_kind a = SendAttemptKind.RecoveryProbe)).
  - destruct (threads n !! t) as [[| | |c a]|] eqn:Ht; try done. intros (n1 & Hp & [= <-])%bind_Some.
    destruct (inv_threads _ Hn t _ Ht) as [_ (_ & _ & Hown & _)]. exact (present_refines cfg n n1 c (Failed, mkResults [] [a] []) now health k Hn Hown Hp).
  - destruct (threads n !! t) as [[| |c o|]|] eqn:Ht; try done. intros [= <-]. destruct (inv_threads _ Hn t _ Ht) as [_ (_ & Hown & _)].
    destruct (topic n) as [s|] eqn:Hs; [|done]. rewrite (Hv s eq_refl). unfold completion_events. rewrite andb_false_r, app_nil_r.
    rewrite <- view_settle; [|by apply (inv_custody _ Hn)|by eapply own_known_ok]. by destruct (settle_eager_reply _ _ _ _ _).
  - intros [= <-]. by destruct (topic n).
  - intros (s & Hs & [= <-])%bind_Some. rewrite Hs, (Hv s Hs). cbn [foldl]. rewrite <- view_prune_deferred by (by apply (inv_custody _ Hn)).
    unfold retry_tick. by destruct (_ && _).
  - intros [= <-]. by destruct (topic n).
  - case_decide as He; [|done]. intros [= <-]. unfold discard. cbn [with_ticks topic]. destruct (topic n) as [s|] eqn:Hs; [|done]. rewrite (Hv s eq_refl). cbn [foldl next].
    unfold node_view, view. cbn. f_equal. change (λ e, bool_decide (d_key e = k)) with (has_key k). rewrite find_filter by (by apply (inv_custody _ Hn)). done.
  - case_decide as He; [|done]. intros [= <-]. cbn [with_ticks topic]. destruct (topic n) as [s|] eqn:Hs; [|done]. rewrite (Hv s eq_refl). apply (view_retry (with_ticks n (remove_first e (ticks n)))).
  - intros (s & Hs & E)%bind_Some. rewrite Hs, (Hv s Hs). cbn [foldl]. by destruct (claim_one _ _ _ _ _ _ _) as [[m i] [a|]]; simplify_eq.
  - case_decide as He; [|done]. cbn [with_plain topic]. destruct (topic n) as [s|] eqn:Hs; [|by intros [= <-]]. rewrite (Hv s eq_refl).
    intros (s1 & Hb & [= <-])%bind_Some. change (node_view (with_topic _ s1) k) with (view s1 k).
    rewrite (view_book _ _ _ _ _ _ k ltac:(by apply (inv_custody _ Hn)) Hb). by destruct (gone_from _ _).
  - intros (s & Hs & [= <-])%bind_Some. rewrite Hs, (Hv s Hs). cbn [foldl]. rewrite <- view_prune_claims.
    change (foldl next ?v (expire_events s now)) with (foldl next v (expire_events (prune_eager_reply_claims s now) now)). rewrite <- view_prune_deferred; [done|].
    by destruct (inv_custody _ Hn s Hs).
  - intros (s & Hs & (s' & Hs' & [= <-])%bind_Some)%bind_Some. rewrite Hs, (Hv s Hs). eapply view_set_topic_peers; [by apply (inv_custody _ Hn)|exact Hs'].
  - intros [= <-]. unfold node_view. by destruct (topic n).
  - case_decide as Hd; [|done]. intros [= <-]. destruct Hd as [Hs _]. unfold node_view. by rewrite Hs.
Qed.

(** ** Runs *)

Section Runs.
Context (cfg : AdaptiveCoolingConfig).

(** A critical section of the reply protocol, or anything else the topic
    does: its announcement queues and its cache change freely, its mesh by
    operations that arm no probe (those are the claims above,
    [mesh_step_probes]). *)
Inductive step (n : Node) : Node → Prop :=
| step_exec o n' : exec cfg n o = Some n' → step n n'
| step_other s m q c : topic n = Some s → rtc mesh_step (mesh s) m → keeps_probes (mesh s) m →
    step n (with_topic n (mkTopic m q c (deferred_eager_replies s) (eager_reply_claims s))).

Definition reachable (n : Node) : Prop := rtc step node_new n.

Lemma node_new_inv : inv node_new.
Proof. split; cbn; try done. by intros e ?%elem_of_nil. Qed.

Lemma reply_step_inv (n n' : Node) : inv n → step n n' → inv n'.
Proof.
  intros Hn [o n1 E|s m q c Hs Hm Hk]; [by eapply exec_inv|]. eapply inv_with_topic; [done..| |].
  - apply evolves_filter; cbn; done.
  - eapply owned_keeps; [by apply (inv_owned _ Hn)|done|done].
Qed.

Lemma steps_inv (n n' : Node) : inv n → rtc step n n' → inv n'.
Proof. intros Hn Hs. eapply (rtc_preserve inv); [|done|done]. intros x y Hxy Hx. by eapply reply_step_inv. Qed.

Lemma reachable_inv (n : Node) : reachable n → inv n.
Proof. apply steps_inv, node_new_inv. Qed.
End Runs.

(** *** The table of the lifecycle *)

Lemma phase_free (x : option DeferredEagerReply) : phase (mkReply x None) = match x with Some _ => Pending | None => Idle end.
Proof. by destruct x. Qed.

(** A completion that finds its own token. *)
Lemma completion_table (x : option DeferredEagerReply) (w : Owner) (own : option DeferredEagerReply) (o : EagerReplyOutcome) (live : DeferredEagerReply → bool)
    (fresh : option DeferredEagerReply) :
  let v := mkReply x (Some w) in let ev := EvComplete (o_token w) own o live fresh in
  row ev v (phase (next v ev)) ∨ deviation ev v (phase (next v ev)).
Proof.
  intros v ev. subst v ev. cbn [next v_owner v_custody]. rewrite decide_True by done. rewrite phase_free. destruct o.
  - left. by apply row_sent.
  - unfold requeue. destruct (keep live x) eqn:E; [left; by apply row_deferred|]. destruct fresh; [left; by apply row_deferred|].
    right. apply dev_full; [done|by left|done].
  - cbn [fmap option_fmap option_map default]. destruct (o_again w) eqn:Ha.
    + unfold requeue. destruct (keep live (keep (not_own own) x)) eqn:E; [left; apply row_failed_again; [done|by cbn; rewrite Ha]|].
      destruct fresh; [left; apply row_failed_again; [done|by cbn; rewrite Ha]|]. right. apply dev_full; [done|right; split; [done|by cbn; rewrite Ha]|done].
    + left. destruct (keep (not_own own) x) eqn:E; [eapply row_failed_remains|apply row_failed_idle]; try done; by cbn; rewrite Ha.
Qed.

(** Every event follows the table or is one of the deviations. *)
Lemma lifecycle_table (v : Reply) (ev : Event) : row ev v (phase (next v ev)) ∨ deviation ev v (phase (next v ev)).
Proof.
  destruct v as [x ow], ev; cbn [next v_custody v_owner].
  - left. destruct ow as [o|]; cbn [keep mbind option_bind]; [|by apply row_no_ttl]. destruct (owner_live now o) eqn:E; [|by eapply row_ttl].
    apply row_no_ttl. by intros o' [= <-].
  - left. destruct ow as [o|]; [by apply (row_not_expired live (mkReply x (Some o)))|]. destruct x as [e|]; cbn [keep mbind option_bind]; [|by apply row_not_expired].
    destruct (live e) eqn:E; [|by eapply row_expired]. apply row_not_expired. by intros e' _ [= <-].
  - left. destruct ow as [o|]; [by apply row_coalesced|]. apply row_claim. destruct x; auto.
  - destruct ow as [o|]; [left; by apply row_skipped|]. destruct x; [left; by apply row_retry|right; by apply dev_retry].
  - destruct (decide (o_token <$> ow = Some t)) as [Ht|Ht].
    + destruct ow as [w|]; [|done]. injection Ht as <-. pose proof (completion_table x w own o live fresh) as Hc. cbn [next v_owner v_custody] in Hc.
      by rewrite decide_True in Hc by done.
    + left. destruct ow as [w|]; [apply (row_stale t own o live fresh (mkReply x (Some w))); [|done]; intros [= E]; destruct Ht; by rewrite <-E|].
      destruct x as [e|]; cbn [keep mbind option_bind]; [|by apply row_stale]. destruct (not_own own e) eqn:E; [|by eapply row_stale_own].
      apply row_stale; [done|]. by intros e' _ [= <-].
  - destruct ow as [o|]; [left; apply (row_other e (mkReply x (Some o))); by right|]. destruct x as [y|]; cbn [keep mbind option_bind]; [|left; apply row_other; by left].
    case_bool_decide as Hy; [left; apply row_other; left; cbn; congruence|]. right. apply dev_discard; [done|]. cbn. by destruct (decide (y = e)) as [->|].
  - left. apply row_drop.
Qed.

(** The table has no row for a deviation. *)
Lemma deviation_undocumented (v : Reply) (ev : Event) (p : Phase) : deviation ev v p → ¬ row ev v p.
Proof.
  intros Hd Hr. destruct Hd as [t now v Hv|t own o live v Hv Ho Hk|e v Hv He].
  - inversion Hr; simplify_eq; congruence.
  - destruct Ho as [->|[-> Ha]]; inversion Hr; simplify_eq; congruence.
  - inversion Hr; simplify_eq; naive_solver.
Qed.

(** C27. The lifecycle is implemented, and this is how it relates to its
    documentation: in every reachable state, whatever the interleaving of
    IWANT serves, retry ticks, completions, cancelled and aborted sends,
    prunings and disconnects, (1) each critical section acts on the records of
    each (requester, message) exactly as the specified events for that key do,
    one key never disturbing another, and (2) the rest of the topic leaves them
    alone; (3) every specified event, in any reply, either moves it along a row
    of the documented table or is one of three deviations -- a retry that
    claims from [Idle], a request that should return to a custody that is full,
    an entry the flusher gives up -- and (4) the table has no row for those. *)
Theorem reply_lifecycle_refines (cfg : AdaptiveCoolingConfig) (n : Node) (k : Key) :
  reachable cfg n →
  (∀ o n', exec cfg n o = Some n' → node_view n' k = foldl next (node_view n k) (events n o k)) ∧
  (∀ s m q c, topic n = Some s →
     node_view (with_topic n (mkTopic m q c (deferred_eager_replies s) (eager_reply_claims s))) k = node_view n k) ∧
  (∀ v ev, row ev v (phase (next v ev)) ∨ deviation ev v (phase (next v ev))) ∧
  (∀ v ev p, deviation ev v p → ¬ row ev v p).
Proof.
  intros Hn%reachable_inv. split_and!.
  - intros o n'. by apply exec_refines.
  - intros s m q c Hs. unfold node_view. by rewrite Hs.
  - apply lifecycle_table.
  - apply deviation_undocumented.
Qed.

(** *** A probe is never left behind *)

(** No recovery probe is ever stranded by the reply protocol.  In every
    reachable state, once the claims of a peer are past their time to live
    and no other send to the peer is outstanding, the next pruning leaves the
    peer without a probe in flight, so that its next send is a fresh probe:
    however many sends were cancelled, aborted or completed too late. *)
Theorem reply_probe_not_stranded (cfg : AdaptiveCoolingConfig) (n : Node) (s : Topic) (p : PeerId) (now : Z) :
  reachable cfg n → topic n = Some s →
  (∀ a, a ∈ plain n → at_peer a ≠ p) →
  (∀ k cl, eager_reply_claims s !! k = Some cl → k.1 = p → EAGER_REPLY_CLAIM_TTL <= now - c_claimed_at cl) →
  ∀ i, ¬ in_flight (mesh (prune_eager_reply_claims s now)) p i.
Proof.
  intros Hn%reachable_inv Hs Hplain Hold i Hi.
  destruct (owned_prune_claims s (held (plain n)) now (inv_owned _ Hn s Hs) p i Hi) as (j & _ & [(k & cl & Hk & Hp & _)|(a & Ha & Hp & _)]).
  - cbn in Hk. apply map_lookup_filter_Some in Hk as [Hk Hl]. specialize (Hold k cl Hk Hp). cbn in Hl. unfold claim_live in Hl.
    apply bool_decide_eq_true in Hl. unfold elapsed_ns in Hl. lia.
  - by apply (Hplain a).
Qed.

(** *** A reply completes once *)

(** Tokens enter only as the next one. *)
Definition fresh_token (n : Node) (ev : Event) : Prop :=
  match ev with EvIwant t _ | EvRetry t _ => t = next_token n | _ => True end.

Lemma completion_fresh (n : Node) (s : Topic) (c : EagerReplyCompletion) (o : EagerReplyOutcome) (gone : list PeerSendAttempt) (now : Z) (k : Key) :
  Forall (fresh_token n) (completion_events n s c o gone now k).
Proof. unfold completion_events, settle_events. apply Forall_app. split; repeat case_match; by repeat constructor. Qed.

Lemma events_fresh (n : Node) (o : Op) (k : Key) : Forall (fresh_token n) (events n o k).
Proof. unfold events. destruct (topic n); [|done]. destruct o; repeat case_match; try apply completion_fresh; by repeat constructor. Qed.

Definition owns (v : Reply) (t : Z) : Prop := o_token <$> v_owner v = Some t.

Lemma next_owns (n : Node) (v : Reply) (ev : Event) (t : Z) : fresh_token n ev → t < next_token n → owns (next v ev) t → owns v t.
Proof.
  unfold owns. destruct v as [cu ow], ev; cbn [fresh_token next v_owner]; intros Hf Hlt; try done.
  - destruct ow as [w|]; cbn; [|done]. by destruct (owner_live now w).
  - destruct ow; cbn; [done|]. intros [= ?]. lia.
  - destruct ow; cbn; [done|]. intros [= ?]. lia.
  - by case_decide.
Qed.

Lemma events_owns (n : Node) (evs : list Event) (v : Reply) (t : Z) :
  Forall (fresh_token n) evs → t < next_token n → owns (foldl next v evs) t → owns v t.
Proof.
  intros Hf Hlt. revert v. induction Hf as [|ev evs Hev _ IH]; intros v Ho; [done|]. cbn [foldl] in Ho. by eapply next_owns, IH.
Qed.

Lemma present_token (cfg : AdaptiveCoolingConfig) (n n' : Node) (c : EagerReplyCompletion) b (now : Z) (health : PeerId → option PeerHealth) :
  present cfg n c b now health = Some n' → next_token n' = next_token n.
Proof. unfold present. destruct (topic n); [|by intros [= <-]]. by intros ([s2 i2] & _ & [= <-])%bind_Some. Qed.

Lemma claim_for_reply_token (n : Node) (t : Z) (k : Key) (now : Z) (crit : bool) (conn : option bool) (granted : bool) :
  next_token (claim_for_reply n t k now crit conn granted) = next_token n.
Proof. unfold claim_for_reply. by repeat case_match. Qed.

Lemma retry_claim_token (n : Node) (s : Topic) (e : DeferredEagerReply) (now : Z) (adm crit : bool) (conn : option bool) (granted : bool) :
  next_token n <= next_token (retry_claim n s e now adm crit conn granted).
Proof. unfold retry_claim. repeat case_match; cbn; lia. Qed.

Lemma exec_token (cfg : AdaptiveCoolingConfig) (n n' : Node) (o : Op) : exec cfg n o = Some n' → next_token n <= next_token n'.
Proof.
  destruct o; cbn [exec]; unfold retry_tick, discard, drop_claims; intros E.
  - apply bind_Some in E as (s & _ & E). destruct (claim_eager_reply_for_iwant _ _ _ _) as [? []]; simplify_eq; cbn; lia.
  - repeat case_match; simplify_eq; cbn; lia.
  - repeat case_match; simplify_eq. by rewrite claim_for_reply_token.
  - destruct (threads n !! t) as [[]|]; try done. apply bind_Some in E as (n1 & Hp%present_token & E). repeat case_match; simplify_eq; cbn; lia.
  - repeat case_match; simplify_eq; cbn; lia.
  - destruct (threads n !! t) as [[]|]; try done. apply bind_Some in E as (n1 & Hp%present_token & E). simplify_eq. cbn. lia.
  - repeat case_match; simplify_eq; cbn; lia.
  - simplify_eq. cbn. lia.
  - apply bind_Some in E as (s & _ & E). repeat case_match; simplify_eq; cbn; lia.
  - simplify_eq. cbn. lia.
  - case_decide; [|done]. injection E as <-. cbn. case_match; cbn; lia.
  - case_decide; [|done]. injection E as <-. cbn [with_ticks topic]. case_match; [|cbn; lia]. by etrans; [|apply retry_claim_token].
  - apply bind_Some in E as (s & _ & E). repeat case_match; simplify_eq; cbn; lia.
  - case_decide; [|done]. cbn [with_plain topic] in E. case_match; [|simplify_eq; cbn; lia]. apply bind_Some in E as (s' & _ & E). simplify_eq. cbn. lia.
  - apply bind_Some in E as (s & _ & E). simplify_eq. cbn. lia.
  - apply bind_Some in E as (s & _ & E). apply bind_Some in E as (s' & _ & E). simplify_eq. cbn. lia.
  - simplify_eq. cbn. lia.
  - case_decide; simplify_eq. cbn. lia.
Qed.

(** A token that is used up and owns nothing stays so. *)
Definition spent (n : Node) (k : Key) (t : Z) : Prop := inv n ∧ t < next_token n ∧ ¬ owns (node_view n k) t.

Lemma step_spent (cfg : AdaptiveCoolingConfig) (n n' : Node) (k : Key) (t : Z) : step cfg n n' → spent n k t → spent n' k t.
Proof.
  intros Hs (Hn & Ht & Ho). split; [by eapply reply_step_inv|]. destruct Hs as [o n' E|s m q c Hs Hm Hk].
  - pose proof (exec_token _ _ _ _ E). split; [lia|]. rewrite (exec_refines _ _ _ _ k Hn E). intros Ho'. apply Ho.
    eapply events_owns; [apply events_fresh|exact Ht|exact Ho'].
  - split; [done|]. unfold node_view in *. rewrite Hs in Ho. done.
Qed.

(** The completion a critical section presents to the gate. *)
Definition presents (n : Node) (o : Op) : option EagerReplyCompletion :=
  match o with
  | OComplete t _ _ _ => match threads n !! t with Some (Sending c _) => Some c | _ => None end
  | ODropBook t _ _ => match threads n !! t with Some (Dropping c _) => Some c | _ => None end
  | OSettle t _ => match threads n !! t with Some (Settling c _) => Some c | _ => None end
  | _ => None
  end.

Lemma current_owns (s : Topic) (k : Key) (t : Z) : current s k t = true ↔ owns (view s k) t.
Proof. rewrite current_view. apply bool_decide_eq_true. Qed.

Lemma complete_events_spent (n : Node) (s : Topic) (c : EagerReplyCompletion) (o : EagerReplyOutcome) (gone : list PeerSendAttempt) (now : Z) :
  ¬ owns (foldl next (view s (e_key c)) (completion_events n s c o gone now (e_key c))) (e_token c).
Proof.
  unfold completion_events, settle_events. rewrite decide_True by done. cbn [app foldl].
  assert (¬ owns (next (view s (e_key c)) (EvComplete (e_token c) (e_own_custody c) o (cache_live s now) (fresh_entry s (next_custody n) c o now))) (e_token c)) as H1.
  { unfold owns. cbn [next]. by case_decide. }
  by destruct (_ && _).
Qed.

Lemma presents_spent (cfg : AdaptiveCoolingConfig) (n n' : Node) (o : Op) (c : EagerReplyCompletion) :
  inv n → presents n o = Some c → exec cfg n o = Some n' → spent n' (e_key c) (e_token c).
Proof.
  intros Hn Hp E. split; [by eapply exec_inv|]. pose proof (exec_token _ _ _ _ E) as Htok. rewrite (exec_refines _ _ _ _ (e_key c) Hn E).
  assert (∀ t th, threads n !! t = Some th → e_token c = t → e_token c < next_token n') as Hlt.
  { intros t th Ht <-. destruct (inv_threads _ Hn _ _ Ht). lia. }
  assert (∀ t th, threads n !! t = Some th → thread_ok n t th) as Hok by (intros t th Ht; by apply (inv_threads _ Hn)).
  unfold events, node_view. destruct o; try done; cbn [presents] in Hp; destruct (threads n !! _) as [[]|] eqn:Ht; try done; simplify_eq;
    destruct (Hok _ _ Ht) as (Etok & _); (split; [by eapply Hlt|]); (destruct (topic n) as [s|]; [apply complete_events_spent|done]).
Qed.

(** A reply completes at most once: after a completion has been presented,
    no later state of any run has a claim with its token, so every further
    presentation of it is stale; and a stale completion changes nothing of
    the topic, neither mesh nor queues nor claims, except that it removes the
    custody entry it was dispatched for. *)
Theorem reply_completes_once (cfg : AdaptiveCoolingConfig) (n n' n'' : Node) (o : Op) (c : EagerReplyCompletion) :
  reachable cfg n → presents n o = Some c → exec cfg n o = Some n' → rtc (step cfg) n' n'' →
  (∀ s, topic n'' = Some s → current s (e_key c) (e_token c) = false) ∧
  (∀ s s', topic n = Some s → topic n' = Some s' → current s (e_key c) (e_token c) = false → s' = drop_own s (e_own_custody c)).
Proof.
  intros Hn%reachable_inv Hp E Hr. split.
  - assert (spent n'' (e_key c) (e_token c)) as (_ & _ & Ho).
    { eapply (rtc_preserve (λ x, spent x (e_key c) (e_token c))); [|by eapply presents_spent|exact Hr]. intros x y Hxy. by eapply step_spent. }
    intros s Hs. apply not_true_iff_false. intros Hc%current_owns. apply Ho. unfold node_view. by rewrite Hs.
  - intros s s' Hs Hs' Hcur. destruct (gate_spec s c) as [(cl & _ & _ & Hc & _)|[_ Ha]]; [congruence|].
    destruct o; try done; cbn [presents exec] in *; destruct (threads n !! _) as [[]|] eqn:Ht; try done; simplify_eq.
    + apply bind_Some in E as (n1 & E & [= <-]). unfold present in E. rewrite Hs in E. unfold complete_eager_reply in E. rewrite Ha in E.
      cbn in E. injection E as <-. destruct (e_own_custody c); cbn in Hs'; by simplify_eq.
    + apply bind_Some in E as (n1 & E & [= <-]). unfold present in E. rewrite Hs in E. unfold complete_eager_reply in E. rewrite Ha in E.
      cbn in E. injection E as <-. cbn in Hs'. by simplify_eq.
    + unfold settle_eager_reply in Hs'. rewrite Hs, Ha in Hs'. cbn in Hs'. by simplify_eq.
Qed.

Lemma run_steps (cfg : AdaptiveCoolingConfig) (ops : list Op) (n n' : Node) : run cfg n ops = Some n' → rtc (step cfg) n n'.
Proof.
  revert n. induction ops as [|o ops IH]; intros n; cbn [run]; [by intros [= ->]|].
  intros (n1 & E & Hr)%bind_Some. eapply rtc_l; [by eapply step_exec|by apply IH].
Qed.

End EagerReplyProps.
End EagerReplyProps.

(** ** Witnesses *)

Module EagerReplyWitness.
Import EagerReplyProps.

#[local] Instance flat_libm : Libm := {| powf _ _ := of_Z 1 |}.
#[local] Instance peers_iter : SetIter PeerId := canonical_siter.
#[local] Instance ref_cache : LruCache MessageIdType CachedEntry := MessageCacheWitness.ref_lru_cache.

Definition p1 : PeerId := mkPeerId [1].
Definition k1 : Key := (p1, [7]).
Definition up : option bool := Some true.
Definition cached : BoundedMessageCache :=
  (insert_at (new 8 100000 (60 * NANOS_PER_SEC)) [7] (MessageCacheWitness.msg 10 true) 0).1.

(** A deferred reply waits in custody and is picked up by a tick. *)
Definition deferred1 : DeferredEagerReply := mkDeferred 1 p1 [7] 0.
Definition waiting : list Op := [ONewTopic 3 cached; OIwant k1 0; ORefuse 1 false; OSettle 1 0; OTick deferred1 1].
(** Meanwhile the peer asks again and is served. *)
Definition served : list Op := [OIwant k1 2; OClaim 2 2 false up true; OComplete 2 RSent 3 (λ _, None); OSettle 2 3].

(** The state after a run that does not fail. *)
Definition after (ops : list Op) : Node := default node_new (run config_default node_new ops).
Definition runs (ops : list Op) : bool := if run config_default node_new ops then true else false.

Lemma after_steps (ops : list Op) : runs ops = true → reachable config_default (after ops).
Proof.
  unfold runs, after. destruct (run config_default node_new ops) as [n|] eqn:E; [|done]. intros _. by eapply run_steps.
Qed.

Lemma reply_lifecycle_refines_witness :
  phase (node_view (after waiting) k1) = Pending ∧
  (∀ o n', exec config_default (after waiting) o = Some n' →
     node_view n' k1 = foldl next (node_view (after waiting) k1) (events (after waiting) o k1)).
Proof.
  split; [vm_compute; reflexivity|].
  apply (reply_lifecycle_refines config_default (after waiting) k1). apply after_steps. vm_compute. reflexivity.
Defined.

(** The reply has been completed and the retry tick, which looked at custody
    before that, sends it a second time: the table has no such row. *)
Lemma retry_after_served :
  (λ n, phase (node_view n k1)) <$> run config_default node_new (waiting ++ served) = Some Idle ∧
  (λ n, (phase (node_view n k1), threads n !! 3)) <$> run config_default node_new (waiting ++ served ++ [ORetry deferred1 4 true false up true]) =
    Some (InFlight 3, Some (Sending (retry_completion deferred1 3) (mkAttempt p1 SendAttemptKind.Normal None))).
Proof. vm_compute. done. Qed.

Lemma reply_completes_once_witness :
  (λ s, current s k1 2) <$> EagerReply.topic (after (waiting ++ take 2 served)) = Some true ∧
  (∀ s, EagerReply.topic (after (waiting ++ take 3 served)) = Some s → current s k1 2 = false).
Proof.
  split; [vm_compute; reflexivity|].
  apply (reply_completes_once config_default (after (waiting ++ take 2 served)) (after (waiting ++ take 3 served)) (after (waiting ++ take 3 served))
    (OComplete 2 RSent 3 (λ _, None)) (serve_completion k1 2)); [apply after_steps; vm_compute; reflexivity| |vm_compute; reflexivity|apply rtc_refl].
  vm_compute. reflexivity.
Defined.

(** A dead peer is cooled; after the cooldown a reply is its recovery probe,
    and the task that sends it is aborted. *)
Definition day : Z := 86400 * NANOS_PER_SEC.
Definition aborted_probe : list Op :=
  [ONewTopic 3 cached; OPlainClaim p1 0 false up true;
   OPlainBook (mkAttempt p1 SendAttemptKind.Normal None) RTimedOut 0 (λ _, Some HealthDead);
   OIwant k1 day; OClaim 1 day false up true; OAbort 1].

Definition topic_of (n : Node) : Topic := default (mkTopic (mesh_new 1) queues_new cached [] ∅) (EagerReply.topic n).
Definition probing (s : Topic) (p : PeerId) : bool :=
  match peer_cooling (mesh s) !! p with Some c => recovery_probe_in_flight c | None => false end.

Lemma reply_probe_not_stranded_witness :
  probing (topic_of (after aborted_probe)) p1 = true ∧
  ∀ i, ¬ in_flight (mesh (prune_eager_reply_claims (topic_of (after aborted_probe)) (day + EAGER_REPLY_CLAIM_TTL))) p1 i.
Proof.
  split; [vm_compute; reflexivity|].
  apply (reply_probe_not_stranded config_default (after aborted_probe)); [apply after_steps; vm_compute; reflexivity|vm_compute; reflexivity|..].
  - assert (plain (after aborted_probe) = []) as -> by (vm_compute; reflexivity). by intros a ?%elem_of_nil.
  - assert (eager_reply_claims (topic_of (after aborted_probe)) = {[ k1 := mkClaim 1 day false (Some 1) ]}) as -> by (vm_compute; reflexivity).
    intros k cl [<- <-]%lookup_singleton_Some _. vm_compute. discriminate.
Defined.

End EagerReplyWitness.
