(* ===== verification/Presence.v ===== *)
(** * Presence ([crates/presence/src/lib.rs], [crates/presence/src/rate_limiter.rs],
      [crates/groups/src/lib.rs])

    A node announces itself to the peers of its groups with signed beacons,
    keeps the freshest beacon of every peer per group, and finds peers it has
    no beacon of with bounded friend-of-a-friend queries.

    The manager's fields are behind separate locks.  A call is a thread that
    stops before each lock it takes: [Handler] (one received message),
    [Beaconer] (the broadcast task), [Foaf] and [Find] (queries), [Starter] and
    [Stopper].  [handler_step], [beacon_step], ... run one thread to its next
    lock; [exec] interleaves the threads of a node.  Clocks, environment
    variables and random numbers are the [Reading] of a step.  A message that
    is handed to the transport is a [Sent]; its failure changes nothing, except
    that a beacon's time-out removes the peer. *)

From S2P Require Import Prelude Types Identity Float64.
Import Identity F64.

#[local] Open Scope Z_scope.

(** ** The rate limiter *)

Module RateLimiter.

Record RateLimitConfig := mkConfig { cfg_max_tokens : f64; cfg_refill_rate : f64 }.
Definition default_config : RateLimitConfig := mkConfig (of_Z 3) (decimal 2 10).

Record TokenBucket := mkBucket {
  tokens : f64;
  max_tokens : f64;
  refill_rate : f64;
  last_refill : Z;
}.

Definition bucket_new (max rate : f64) (now : Z) : TokenBucket := mkBucket max max rate now.

Definition refill (b : TokenBucket) (now : Z) : TokenBucket :=
  let elapsed := as_secs_f64 (elapsed_ns now (last_refill b)) in
  let tokens_to_add := mul elapsed (refill_rate b) in
  mkBucket (fmin (add (tokens b) tokens_to_add) (max_tokens b)) (max_tokens b) (refill_rate b) now.

Definition try_consume (b : TokenBucket) (now : Z) : TokenBucket * bool :=
  let b := refill b now in
  if leb (of_Z 1) (tokens b)
  then (mkBucket (sub (tokens b) (of_Z 1)) (max_tokens b) (refill_rate b) (last_refill b), true)
  else (b, false).

Record RateLimiter := mkLimiter { buckets : gmap PeerId TokenBucket; config : RateLimitConfig }.

Definition limiter_new (c : RateLimitConfig) : RateLimiter := mkLimiter ∅ c.

(** A new bucket reads the clock ([created]), [refill] reads it again. *)
Definition check_rate_limit (l : RateLimiter) (peer : PeerId) (created now : Z) : RateLimiter * bool :=
  let b := default (bucket_new (cfg_max_tokens (config l)) (cfg_refill_rate (config l)) created) (buckets l !! peer) in
  let '(b, allowed) := try_consume b now in
  (mkLimiter (<[peer := b]> (buckets l)) (config l), allowed).

Definition bucket_recent (now max_age : Z) (b : TokenBucket) : bool :=
  bool_decide (elapsed_ns now (last_refill b) ≤ max_age).

Definition cleanup_stale (l : RateLimiter) (max_age now : Z) : RateLimiter * nat :=
  let kept := filter (λ kv, bucket_recent now max_age kv.2 = true) (buckets l) in
  (mkLimiter kept (config l), (size (buckets l) - size kept)%nat).

Definition peer_count (l : RateLimiter) : nat := size (buckets l).
End RateLimiter.
Import RateLimiter.

(** ** Groups *)

Inductive CipherSuite := MlKem768MlDsa65.

Module Group.

Record GroupContext := mkGroup {
  g_topic_id : TopicId;
  g_cipher_suite : CipherSuite;
  g_epoch : Z;
  g_presence_exporter : option (list Z);
}.

Definition new (topic_id : TopicId) : GroupContext := mkGroup topic_id MlKem768MlDsa65 0 None.
Definition with_presence_exporter (topic_id : TopicId) (secret : list Z) : GroupContext :=
  mkGroup topic_id (g_cipher_suite (new topic_id)) (g_epoch (new topic_id)) (Some secret).
Definition from_entity `{Hashes} (entity_id : list Z) : GroupContext := new (Types.from_entity entity_id).
Definition set_presence_exporter (g : GroupContext) (secret : list Z) : GroupContext :=
  mkGroup (g_topic_id g) (g_cipher_suite g) (g_epoch g) (Some secret).
Definition presence_exporter (g : GroupContext) : option (list Z) := g_presence_exporter g.
Definition next_epoch (g : GroupContext) : GroupContext :=
  mkGroup (g_topic_id g) (g_cipher_suite g) (u64_add (g_epoch g) 1) (g_presence_exporter g).
End Group.
Import Group.

(** ** Third-party code: [blake3]'s keyed hash *)

Class KeyedHash := { blake3_keyed : list Z → list Z → list Z }.

Definition derive_presence_secret `{KeyedHash} (exporter user_id : list Z) (time_slice : Z) : list Z :=
  take 32 (blake3_keyed exporter (user_id ++ u64_to_le_bytes time_slice)).

Definition derive_presence_tag `{KeyedHash} (exporter : list Z) (user : PeerId) (time_slice : Z) : list Z :=
  derive_presence_secret exporter (peer_bytes user) time_slice.

(** The fields of [SignablePresenceRecord], in order. *)
Definition signable (r : PresenceRecord) : list Z * list string * Z * Z * Z * option string :=
  (presence_tag r, addr_hints r, since r, expires r, seq r, four_words r).

Module Presence.

Notation QueryId := (list Z).

Inductive PresenceStatus := Online | Offline | Unknown.

Inductive PresenceMessage :=
| Beacon (topic_id : TopicId) (sender : PeerId) (record : PresenceRecord) (epoch : Z)
| Query (query_id : QueryId) (topic_id : TopicId) (ttl : Z) (origin : PeerId)
| QueryResponse (query_id : QueryId) (topic_id : TopicId) (records : list (PeerId * PresenceRecord)).

(** [postcard] on the signed fields and on messages. *)
Class PresenceWire := {
  encode_signable : list Z * list string * Z * Z * Z * option string → option (list Z);
  encode_message : PresenceMessage → option (list Z);
  decode_message : list Z → option PresenceMessage;
}.

Definition signable_bytes `{PresenceWire} (r : PresenceRecord) : list Z := default [] (encode_signable (signable r)).

(** ** Pending queries *)

Definition REBOOT_GRACE_SECS : Z := 120.

Record PendingQuery := mkPending {
  pq_topic_id : TopicId;
  pq_started_at : Z;
  pq_responses : gmap PeerId PresenceRecord;
  pq_response_count : Z;
}.

Definition pending_new (topic : TopicId) (now : Z) : PendingQuery := mkPending topic now ∅ 0.

Definition add_response (m : gmap PeerId PresenceRecord) (pr : PeerId * PresenceRecord) : gmap PeerId PresenceRecord :=
  match m !! pr.1 with
  | Some existing =>
      if decide (seq existing < seq pr.2) then <[pr.1 := pr.2]> m
      else if decide (u64_sat_add (since existing) REBOOT_GRACE_SECS < since pr.2) then <[pr.1 := pr.2]> m
      else m
  | None => <[pr.1 := pr.2]> m
  end.

Definition add_responses (q : PendingQuery) (records : list (PeerId * PresenceRecord)) : PendingQuery :=
  mkPending (pq_topic_id q) (pq_started_at q) (foldl add_response (pq_responses q) records)
    (u64_add (pq_response_count q) 1).

Definition pending_expired (now : Z) (q : PendingQuery) : bool :=
  bool_decide (10 * NANOS_PER_SEC < elapsed_ns now (pq_started_at q)).

(** ** The manager *)

Notation Beacons := (gmap TopicId (gmap PeerId PresenceRecord)).

(** [m_task] and [m_shutdown] name the broadcast task of a handle and of a
    sender. *)
Record PresenceManager := mkManager {
  m_peer_id : PeerId;
  m_groups : gmap TopicId GroupContext;
  m_task : option nat;
  m_shutdown : option nat;
  m_beacons : Beacons;
  m_peers : gset PeerId;
  m_hints : list string;
  m_four_words : option string;
  m_seen : gmap QueryId Z;
  m_pending : gmap QueryId PendingQuery;
  m_identity : option MlDsaKeyPair;
  m_limiter : RateLimiter;
  m_seq : Z;
}.

Definition new_with_four_words (me : PeerId) (groups : gmap TopicId GroupContext) (fw : option string) : PresenceManager :=
  mkManager me groups None None ∅ ∅ [] fw ∅ ∅ None (limiter_new default_config) 0.
Definition new (me : PeerId) (groups : gmap TopicId GroupContext) : PresenceManager := new_with_four_words me groups None.
Definition new_with_identity (me : PeerId) (groups : gmap TopicId GroupContext) (fw : option string) (k : MlDsaKeyPair) : PresenceManager :=
  mkManager me groups None None ∅ ∅ [] fw ∅ ∅ (Some k) (limiter_new default_config) 0.

Definition set_groups (s : PresenceManager) (x : gmap TopicId GroupContext) : PresenceManager :=
  let 'mkManager me _ t c b p h w sn pd i l q := s in mkManager me x t c b p h w sn pd i l q.
Definition set_task (s : PresenceManager) (x : option nat) : PresenceManager :=
  let 'mkManager me g _ c b p h w sn pd i l q := s in mkManager me g x c b p h w sn pd i l q.
Definition set_shutdown (s : PresenceManager) (x : option nat) : PresenceManager :=
  let 'mkManager me g t _ b p h w sn pd i l q := s in mkManager me g t x b p h w sn pd i l q.
Definition set_beacons (s : PresenceManager) (x : Beacons) : PresenceManager :=
  let 'mkManager me g t c _ p h w sn pd i l q := s in mkManager me g t c x p h w sn pd i l q.
Definition set_peers (s : PresenceManager) (x : gset PeerId) : PresenceManager :=
  let 'mkManager me g t c b _ h w sn pd i l q := s in mkManager me g t c b x h w sn pd i l q.
Definition set_addr_hints (s : PresenceManager) (x : list string) : PresenceManager :=
  let 'mkManager me g t c b p _ w sn pd i l q := s in mkManager me g t c b p x w sn pd i l q.
Definition set_four_words (s : PresenceManager) (x : string) : PresenceManager :=
  let 'mkManager me g t c b p h _ sn pd i l q := s in mkManager me g t c b p h (Some x) sn pd i l q.
Definition set_seen (s : PresenceManager) (x : gmap QueryId Z) : PresenceManager :=
  let 'mkManager me g t c b p h w _ pd i l q := s in mkManager me g t c b p h w x pd i l q.
Definition set_pending (s : PresenceManager) (x : gmap QueryId PendingQuery) : PresenceManager :=
  let 'mkManager me g t c b p h w sn _ i l q := s in mkManager me g t c b p h w sn x i l q.
Definition set_identity (s : PresenceManager) (k : MlDsaKeyPair) : PresenceManager :=
  let 'mkManager me g t c b p h w sn pd _ l q := s in mkManager me g t c b p h w sn pd (Some k) l q.
Definition set_limiter (s : PresenceManager) (x : RateLimiter) : PresenceManager :=
  let 'mkManager me g t c b p h w sn pd i _ q := s in mkManager me g t c b p h w sn pd i x q.
Definition set_seq (s : PresenceManager) (x : Z) : PresenceManager :=
  let 'mkManager me g t c b p h w sn pd i l _ := s in mkManager me g t c b p h w sn pd i l x.

Definition add_broadcast_peer (s : PresenceManager) (p : PeerId) : PresenceManager := set_peers s ({[p]} ∪ m_peers s).
Definition remove_broadcast_peer (s : PresenceManager) (p : PeerId) : PresenceManager := set_peers s (m_peers s ∖ {[p]}).
Definition replace_broadcast_peers (s : PresenceManager) (ps : list PeerId) : PresenceManager :=
  set_peers s (list_to_set (filter (λ p, p ≠ m_peer_id s) ps)).
Definition broadcast_peer_count (s : PresenceManager) : nat := size (m_peers s).

Definition add_addr_hint (s : PresenceManager) (hint : string) : PresenceManager :=
  if decide (hint ∈ m_hints s) then s else set_addr_hints s (m_hints s ++ [hint]).
Definition get_addr_hints (s : PresenceManager) : list string := m_hints s.

Definition topic_beacons (s : PresenceManager) (topic : TopicId) : gmap PeerId PresenceRecord := default ∅ (m_beacons s !! topic).

Definition get_status (s : PresenceManager) (now : Z) (peer : PeerId) (topic : TopicId) : PresenceStatus :=
  match m_beacons s !! topic with
  | None => Unknown
  | Some tb =>
      match tb !! peer with
      | None => Unknown
      | Some r => if PresenceRec.is_expired now r then Offline else Online
      end
  end.

Definition fresh (now : Z) (pr : PeerId * PresenceRecord) : Prop := PresenceRec.is_expired now pr.2 = false.
#[global] Instance fresh_dec (now : Z) (pr : PeerId * PresenceRecord) : Decision (fresh now pr).
Proof. unfold fresh. apply _. Defined.

(** Removes the expired beacons of every topic; the argument of the source is
    unused. *)
Definition cleanup_expired (s : PresenceManager) (now : Z) : PresenceManager * nat :=
  let kept := filter (fresh now) <$> m_beacons s in
  (set_beacons s kept,
   map_fold (λ t tb n, (n + (size tb - size (filter (fresh now) tb)))%nat) 0%nat (m_beacons s)).

Definition get_group_presence (s : PresenceManager) (topic : TopicId) : gmap PeerId PresenceRecord := topic_beacons s topic.
Definition pending_query_count (s : PresenceManager) : nat := size (m_pending s).

Definition cleanup_pending_queries (s : PresenceManager) (now : Z) : PresenceManager * nat :=
  let kept := filter (λ kq, pending_expired now kq.2 = false) (m_pending s) in
  (set_pending s kept, (size (m_pending s) - size kept)%nat).

Definition SEEN_MAX_AGE : Z := 30 * NANOS_PER_SEC.
Definition cleanup_seen_queries (s : PresenceManager) (now : Z) : PresenceManager * nat :=
  let kept := filter (λ kt, elapsed_ns now kt.2 ≤ SEEN_MAX_AGE) (m_seen s) in
  (set_seen s kept, (size (m_seen s) - size kept)%nat).

(** The whole method runs under the beacons' write lock.  The topic's map is
    created even when the beacon is dropped. *)
Definition handle_beacon (s : PresenceManager) (topic : TopicId) (peer : PeerId) (r : PresenceRecord) : PresenceManager :=
  let tb := topic_beacons s topic in
  let stale :=
    match tb !! peer with
    | Some existing =>
        let is_newer_seq := bool_decide (seq existing < seq r) in
        let is_reboot := bool_decide (u64_sat_add (since existing) REBOOT_GRACE_SECS < since r) in
        negb is_newer_seq && negb is_reboot
    | None => false
    end in
  set_beacons s (<[topic := if stale then tb else <[peer := r]> tb]> (m_beacons s)).

Record Sent := mkSent { sent_to : PeerId; sent_message : PresenceMessage; sent_data : list Z }.

(** What one step reads of its surroundings: [Instant::now()] at its first and
    last use, the Unix time, [COMMUNITAS_PRESENCE_REQUIRE_SIGNED] as a flag,
    random numbers, a fresh query identifier, and the peers whose beacon sends
    timed out. *)
Record Reading := mkReading {
  r_now : Z;
  r_later : Z;
  r_unix : Z;
  r_require_signed : bool;
  r_random : list nat;
  r_query_id : QueryId;
  r_timed_out : gset PeerId;
}.

(** ** Random selection: the first [fanout] places of a partial shuffle

    [gen_range(i..n)] is [i] plus the random number modulo [n - i].  [None] is
    an index out of bounds. *)

Definition swap (l : list nat) (i j : nat) : option (list nat) :=
  match l !! i, l !! j with
  | Some a, Some b => Some (<[i := b]> (<[j := a]> l))
  | _, _ => None
  end.

Fixpoint shuffle (n i fanout : nat) (random : list nat) (indices : list nat) : option (list nat) :=
  match fanout with
  | O => Some indices
  | S fanout =>
      let j := (i + hd 0 random mod (n - i))%nat in
      indices ← swap indices i j; shuffle n (S i) fanout (tl random) indices
  end.

Definition select_peers (peers : list PeerId) (fanout : nat) (random : list nat) : option (list PeerId) :=
  indices ← shuffle (length peers) 0 fanout random (List.seq 0 (length peers));
  mapM (λ idx, peers !! idx) (take fanout indices).

Section Presence.
Context `{Hashes} `{MlDsa} `{KeyedHash} `{PresenceWire}.
Context `{!HashIter PeerId PresenceRecord} `{!HashIter TopicId GroupContext} `{!SetIter PeerId}.

Definition get_online_peers (s : PresenceManager) (now : Z) (topic : TopicId) : list PeerId :=
  match m_beacons s !! topic with
  | None => []
  | Some tb => (filter (fresh now) (hiter tb)).*1
  end.

Definition get_groups (s : PresenceManager) : list TopicId := (hiter (m_groups s)).*1.

(** The transport gets a message only when it serialises. *)
Definition send_all (msg : PresenceMessage) (to : list PeerId) : list Sent :=
  match encode_message msg with
  | Some data => (λ p, mkSent p msg data) <$> to
  | None => []
  end.

(** ** Validation, under the groups' read lock *)

Definition validate_presence_record (s : PresenceManager) (require_signed : bool)
    (topic : TopicId) (peer : PeerId) (r : PresenceRecord) : bool :=
  if bool_decide (is_Some (m_groups s !! topic)) then
    match bool_decide (signature r ≠ []), bool_decide (signer_pubkey r ≠ []) with
    | true, true =>
        if decide (from_pubkey (signer_pubkey r) = peer) then
          match verify (signer_pubkey r) (signable_bytes r) (signature r) with
          | Some true => true
          | Some false => false
          | None => false
          end
        else false
    | false, false => negb require_signed
    | _, _ => false
    end
  else false.

(** ** A received message *)

Inductive Handler :=
| AtBeacon (topic : TopicId) (sender : PeerId) (record : PresenceRecord)
| AtBeaconStore (topic : TopicId) (sender : PeerId) (record : PresenceRecord)
| AtQuery (q : QueryId) (topic : TopicId) (ttl : Z) (origin : PeerId)
| AtCollect (q : QueryId) (topic : TopicId) (ttl : Z) (origin : PeerId)
| AtForward (q : QueryId) (topic : TopicId) (ttl : Z) (origin : PeerId)
| AtResponse (q : QueryId) (topic : TopicId) (records : list (PeerId * PresenceRecord))
| AtFilter (q : QueryId) (topic : TopicId) (todo valid : list (PeerId * PresenceRecord))
| AtAggregate (q : QueryId) (topic : TopicId) (valid : list (PeerId * PresenceRecord))
| AtStore (topic : TopicId) (todo : list (PeerId * PresenceRecord))
| Returned (r : option PeerId)
| DecodeError
| Panicked.

Definition rate_limit_peer (m : PresenceMessage) : option PeerId :=
  match m with
  | Beacon _ sender _ _ => Some sender
  | Query _ _ _ origin => Some origin
  | QueryResponse _ _ _ => None
  end.

Definition dispatch (m : PresenceMessage) : Handler :=
  match m with
  | Beacon topic sender record _ => AtBeacon topic sender record
  | Query q topic ttl origin => AtQuery q topic ttl origin
  | QueryResponse q topic records => AtResponse q topic records
  end.

(** From the wire to the first lock after the limiter's. *)
Definition receive (s : PresenceManager) (data : list Z) (rd : Reading) : PresenceManager * Handler :=
  match decode_message data with
  | None => (s, DecodeError)
  | Some m =>
      match rate_limit_peer m with
      | Some peer =>
          let '(l, allowed) := check_rate_limit (m_limiter s) peer (r_now rd) (r_later rd) in
          (set_limiter s l, if allowed then dispatch m else Returned None)
      | None => (s, dispatch m)
      end
  end.

(** The answer to a query, and the forwarded copies. *)
Definition query_response (s : PresenceManager) (now : Z) (q : QueryId) (topic : TopicId) (origin : PeerId) : list Sent :=
  let records := match m_beacons s !! topic with Some tb => filter (fresh now) (hiter tb) | None => [] end in
  match records with
  | [] => []
  | _ => send_all (QueryResponse q topic records) [origin]
  end.

Definition query_forward (s : PresenceManager) (random : list nat) (q : QueryId) (topic : TopicId) (ttl : Z) (origin : PeerId)
    : option (list Sent) :=
  let peers := siter (m_peers s) in
  let fanout := Nat.min 3 (length peers) in
  if bool_decide (0 < ttl) && bool_decide (0 < fanout)%nat then
    selected ← select_peers peers fanout random;
    Some (send_all (Query q topic (sat_sub ttl 1) origin) (filter (λ p, p ≠ origin) selected))
  else Some [].

Definition handler_step (rd : Reading) (s : PresenceManager) (h : Handler) : PresenceManager * list Sent * Handler :=
  match h with
  | AtBeacon topic sender record =>
      (s, [], if validate_presence_record s (r_require_signed rd) topic sender record
              then AtBeaconStore topic sender record else Returned None)
  | AtBeaconStore topic sender record => (handle_beacon s topic sender record, [], Returned (Some sender))
  | AtQuery q topic ttl origin =>
      match m_seen s !! q with
      | Some _ => (s, [], Returned None)
      | None => (set_seen s (<[q := r_now rd]> (m_seen s)), [], AtCollect q topic ttl origin)
      end
  | AtCollect q topic ttl origin => (s, query_response s (r_unix rd) q topic origin, AtForward q topic ttl origin)
  | AtForward q topic ttl origin =>
      match query_forward s (r_random rd) q topic ttl origin with
      | Some sent => (s, sent, Returned None)
      | None => (s, [], Panicked)
      end
  | AtResponse q topic records =>
      match m_pending s !! q with
      | None => (s, [], Returned None)
      | Some pq => (s, [], if decide (pq_topic_id pq = topic) then AtFilter q topic records [] else Returned None)
      end
  | AtFilter q topic [] [] => (s, [], Returned None)
  | AtFilter q topic [] valid => (s, [], AtAggregate q topic valid)
  | AtFilter q topic (pr :: todo) valid =>
      if PresenceRec.is_expired (r_unix rd) pr.2 then (s, [], AtFilter q topic todo valid)
      else if validate_presence_record s (r_require_signed rd) topic pr.1 pr.2
      then (s, [], AtFilter q topic todo (valid ++ [pr]))
      else (s, [], AtFilter q topic todo valid)
  | AtAggregate q topic valid =>
      match m_pending s !! q with
      | None => (s, [], Returned None)
      | Some pq =>
          (if decide (pq_topic_id pq = topic)
           then set_pending s (<[q := add_responses pq valid]> (m_pending s)) else s,
           [], AtStore topic valid)
      end
  | AtStore topic [] => (s, [], Returned None)
  | AtStore topic (pr :: todo) => (handle_beacon s topic pr.1 pr.2, [], AtStore topic todo)
  | Returned _ | DecodeError | Panicked => (s, [], h)
  end.

Definition finished (h : Handler) : bool :=
  match h with Returned _ | DecodeError | Panicked => true | _ => false end.

(** A whole call, undisturbed: one reading per section. *)
Fixpoint handler_run (rds : list Reading) (s : PresenceManager) (h : Handler) : PresenceManager * list Sent * Handler :=
  match rds with
  | [] => (s, [], h)
  | rd :: rds =>
      if finished h then (s, [], h)
      else
        let '(s, sent, h) := handler_step rd s h in
        let '(s, sent', h) := handler_run rds s h in
        (s, sent ++ sent', h)
  end.

Definition handle_presence_message (s : PresenceManager) (data : list Z) (rd : Reading) (rds : list Reading)
    : PresenceManager * list Sent * Handler :=
  let '(s, h) := receive s data rd in handler_run rds s h.

(** ** The broadcast task *)

Inductive Beaconer :=
| Waiting
| Topics (todo : list (TopicId * GroupContext))
| Hinted (todo : list (TopicId * GroupContext)) (topic : TopicId) (g : GroupContext) (tag : list Z) (hints : list string)
| Built (todo : list (TopicId * GroupContext)) (topic : TopicId) (g : GroupContext) (r : PresenceRecord)
| Signed (todo : list (TopicId * GroupContext)) (topic : TopicId) (g : GroupContext) (r : PresenceRecord)
| Encoded (todo : list (TopicId * GroupContext)) (msg : PresenceMessage) (data : list Z)
| Sending (todo : list (TopicId * GroupContext)) (peers : list PeerId).

Definition exporter_or_plaintext (allow_plaintext : bool) (g : GroupContext) : option (list Z) :=
  match presence_exporter g with
  | Some secret => Some secret
  | None => if allow_plaintext then Some (replicate 32 0) else None
  end.

Definition record_hints (hints : list string) : list string :=
  match hints with [] => ["127.0.0.1:8080"%string] | _ => hints end.

Definition with_seq (r : PresenceRecord) (n : Z) : PresenceRecord :=
  mkPresence (presence_tag r) (addr_hints r) (since r) (expires r) n (four_words r) (signature r) (signer_pubkey r).
Definition with_signature (r : PresenceRecord) (sig pk : list Z) : PresenceRecord :=
  mkPresence (presence_tag r) (addr_hints r) (since r) (expires r) (seq r) (four_words r) sig pk.

Definition build_record (fw : option string) (now : Z) (tag : list Z) (hints : list string) (ttl n : Z) : PresenceRecord :=
  with_seq (match fw with
            | Some w => PresenceRec.with_four_words now tag hints ttl w
            | None => PresenceRec.new now tag hints ttl
            end) n.

Definition sign_record (identity : option MlDsaKeyPair) (r : PresenceRecord) : PresenceRecord :=
  match identity with
  | Some k =>
      match sign k (signable_bytes r) with
      | Some sig => with_signature r sig (public_key k)
      | None => r
      end
  | None => r
  end.

(** A task's parameters and its tick counter. *)
Record Task := mkTask {
  tk_interval : Z;
  tk_allow_plaintext : bool;
  tk_ticks : Z;
  tk_stop : bool;
  tk_at : Beaconer;
}.
Definition task_at (t : Task) (b : Beaconer) : Task :=
  mkTask (tk_interval t) (tk_allow_plaintext t) (tk_ticks t) (tk_stop t) b.

(** After the topics of a tick: every tenth tick cleans the limiter. *)
Definition tick_done (rd : Reading) (s : PresenceManager) (t : Task) : PresenceManager * Task :=
  let n := u64_add (tk_ticks t) 1 in
  (if decide (n mod 10 = 0)
   then set_limiter s (cleanup_stale (m_limiter s) (300 * NANOS_PER_SEC) (r_now rd)).1 else s,
   mkTask (tk_interval t) (tk_allow_plaintext t) n (tk_stop t) Waiting).

Definition beacon_step (rd : Reading) (s : PresenceManager) (t : Task) : PresenceManager * list Sent * Task :=
  match tk_at t with
  | Waiting => (s, [], task_at t (Topics (hiter (m_groups s))))
  | Topics [] => let '(s, t) := tick_done rd s t in (s, [], t)
  | Topics ((topic, g) :: todo) =>
      match exporter_or_plaintext (tk_allow_plaintext t) g with
      | None => (s, [], task_at t (Topics todo))
      | Some secret =>
          let tag := derive_presence_tag secret (m_peer_id s) (r_unix rd / 3600) in
          (s, [], task_at t (Hinted todo topic g tag (record_hints (m_hints s))))
      end
  | Hinted todo topic g tag hints =>
      let r := build_record (m_four_words s) (r_unix rd) tag hints (u64_wrap (tk_interval t * 3)) (m_seq s) in
      (set_seq s (u64_add (m_seq s) 1), [], task_at t (Built todo topic g r))
  | Built todo topic g r => (s, [], task_at t (Signed todo topic g (sign_record (m_identity s) r)))
  | Signed todo topic g r =>
      let s := set_beacons s (<[topic := <[m_peer_id s := r]> (topic_beacons s topic)]> (m_beacons s)) in
      let msg := Beacon topic (m_peer_id s) r (g_epoch g) in
      (s, [], task_at t (match encode_message msg with
                         | Some data => Encoded todo msg data
                         | None => Topics todo
                         end))
  | Encoded todo msg data =>
      let peers := siter (m_peers s) in
      (s, (λ p, mkSent p msg data) <$> peers, task_at t (Sending todo peers))
  | Sending todo peers =>
      let timed_out := filter (λ p, p ∈ r_timed_out rd) peers in
      (set_peers s (m_peers s ∖ list_to_set timed_out), [], task_at t (Topics todo))
  end.

(** ** Queries of our own *)

Inductive Foaf :=
| FBegin (topic : TopicId) (ttl timeout_ms : Z)
| FMark (q : QueryId) (topic : TopicId) (ttl timeout_ms : Z)
| FSend (q : QueryId) (topic : TopicId) (ttl timeout_ms : Z)
| FWait (q : QueryId) (timeout_ms start : Z)
| FTake (q : QueryId)
| FDone (results : list (PeerId * PresenceRecord))
| FPanicked.

Definition foaf_step (rd : Reading) (s : PresenceManager) (f : Foaf) : PresenceManager * list Sent * Foaf :=
  match f with
  | FBegin topic ttl timeout_ms =>
      let q := r_query_id rd in
      (set_pending s (<[q := pending_new topic (r_now rd)]> (m_pending s)), [], FMark q topic ttl timeout_ms)
  | FMark q topic ttl timeout_ms =>
      (set_seen s (<[q := r_now rd]> (m_seen s)), [], FSend q topic ttl timeout_ms)
  | FSend q topic ttl timeout_ms =>
      let peers := siter (m_peers s) in
      let fanout := Nat.min 3 (length peers) in
      match (if bool_decide (0 < fanout)%nat then select_peers peers fanout (r_random rd) else Some []) with
      | Some selected => (s, send_all (Query q topic ttl (m_peer_id s)) selected, FWait q timeout_ms (r_later rd))
      | None => (s, [], FPanicked)
      end
  | FWait q timeout_ms start =>
      if decide (elapsed_ns (r_now rd) start < timeout_ms * NANOS_PER_MILLI) then
        match m_pending s !! q with
        | Some pq => if decide (3 ≤ pq_response_count pq) then (s, [], FTake q) else (s, [], f)
        | None => (s, [], f)
        end
      else (s, [], FTake q)
  | FTake q =>
      match m_pending s !! q with
      | Some pq => (set_pending s (delete q (m_pending s)), [], FDone (filter (fresh (r_unix rd)) (hiter (pq_responses pq))))
      | None => (s, [], FDone [])
      end
  | FDone _ | FPanicked => (s, [], f)
  end.

(** [find]: the local beacons of every group, then a query per group. *)
Inductive Find :=
| FindBegin (user : PeerId)
| FindLocal (user : PeerId) (groups todo : list TopicId)
| FindQuery (user : PeerId) (f : Foaf) (todo : list TopicId)
| Found (hints : list string)
| FindPanicked.

Definition find_next (user : PeerId) (todo : list TopicId) : Find :=
  match todo with
  | [] => Found []
  | topic :: todo => FindQuery user (FBegin topic 3 3000) todo
  end.

(** The record of [user] in a query's results. *)
Definition find_user (user : PeerId) (now : Z) (results : list (PeerId * PresenceRecord)) : option PresenceRecord :=
  snd <$> head (filter (λ pr, pr.1 = user ∧ fresh now pr) results).

Definition find_step (rd : Reading) (s : PresenceManager) (f : Find) : PresenceManager * list Sent * Find :=
  match f with
  | FindBegin user => (s, [], FindLocal user (get_groups s) (get_groups s))
  | FindLocal user groups [] => (s, [], find_next user groups)
  | FindLocal user groups (topic :: todo) =>
      match get_group_presence s topic !! user with
      | Some r => if PresenceRec.is_expired (r_unix rd) r then (s, [], FindLocal user groups todo) else (s, [], Found (addr_hints r))
      | None => (s, [], FindLocal user groups todo)
      end
  | FindQuery user (FDone results) todo =>
      match find_user user (r_unix rd) results with
      | Some r => (s, [], Found (addr_hints r))
      | None => (s, [], find_next user todo)
      end
  | FindQuery user FPanicked todo => (s, [], FindPanicked)
  | FindQuery user f todo => let '(s, sent, f) := foaf_step rd s f in (s, sent, FindQuery user f todo)
  | Found _ | FindPanicked => (s, [], f)
  end.

(** ** Starting and stopping the broadcast task

    A stopper holds the lock of the task's handle while it waits, [Joining].
    [tk_stop] of a task: its channel holds a signal, or its sender is gone. *)

Inductive Starter :=
| StartBegin (interval : Z) (allow_plaintext : bool)
| StartStore (tid : nat)
| StartShutdown (tid : nat)
| StartDone (ok : bool).

Inductive Stopper :=
| StopBegin
| StopTake
| Joining (tid : nat)
| StopOk
| StopPanicked
| StopTimeout.

#[global] Instance starter_eq_dec : EqDecision Starter.
Proof. solve_decision. Defined.
#[global] Instance stopper_eq_dec : EqDecision Stopper.
Proof. solve_decision. Defined.

(** ** A node and its threads *)

Record Node := mkNode {
  mgr : PresenceManager;
  handlers : list Handler;
  foafs : list Foaf;
  finds : list Find;
  tasks : gmap nat Task;
  panicked : gset nat;
  starters : list Starter;
  stoppers : list Stopper;
  next_task : nat;
  wire : list Sent;
}.

Definition boot (s : PresenceManager) : Node := mkNode s [] [] [] ∅ ∅ [] [] 0 [].

Definition set_mgr (n : Node) (s : PresenceManager) : Node :=
  let 'mkNode _ h f d t p a b k w := n in mkNode s h f d t p a b k w.
Definition set_tasks (n : Node) (x : gmap nat Task) : Node :=
  let 'mkNode s h f d _ p a b k w := n in mkNode s h f d x p a b k w.
Definition set_starters (n : Node) (x : list Starter) : Node :=
  let 'mkNode s h f d t p _ b k w := n in mkNode s h f d t p x b k w.
Definition set_stoppers (n : Node) (x : list Stopper) : Node :=
  let 'mkNode s h f d t p a _ k w := n in mkNode s h f d t p a x k w.

Definition joining (x : Stopper) : Prop := match x with Joining _ => True | _ => False end.
#[global] Instance joining_dec (x : Stopper) : Decision (joining x).
Proof. destruct x; apply _. Defined.
Definition task_locked (n : Node) : Prop := Exists joining (stoppers n).
#[global] Instance task_locked_dec (n : Node) : Decision (task_locked n).
Proof. unfold task_locked. apply _. Defined.

Definition signal (tid : nat) (ts : gmap nat Task) : gmap nat Task :=
  alter (λ t, mkTask (tk_interval t) (tk_allow_plaintext t) (tk_ticks t) true (tk_at t)) tid ts.

(** Dropping or using a sender reaches its task. *)
Definition signal_opt (tid : option nat) (ts : gmap nat Task) : gmap nat Task :=
  match tid with Some tid => signal tid ts | None => ts end.

Definition spawn (n : Node) (t : Task) : Node :=
  let 'mkNode s h f d ts p a b k w := n in mkNode s h f d (<[k := t]> ts) p a b (S k) w.

Definition start_step (n : Node) (i : nat) (x : Starter) : Node :=
  match x with
  | StartBegin interval allow_plaintext =>
      if decide (task_locked n) then n
      else match m_task (mgr n) with
      | Some _ => set_starters n (<[i := StartDone false]> (starters n))
      | None => spawn (set_starters n (<[i := StartStore (next_task n)]> (starters n)))
                  (mkTask interval allow_plaintext 0 false Waiting)
      end
  | StartStore tid =>
      if decide (task_locked n) then n
      else set_starters (set_mgr n (set_task (mgr n) (Some tid))) (<[i := StartShutdown tid]> (starters n))
  | StartShutdown tid =>
      set_starters (set_tasks (set_mgr n (set_shutdown (mgr n) (Some tid))) (signal_opt (m_shutdown (mgr n)) (tasks n)))
        (<[i := StartDone true]> (starters n))
  | StartDone _ => n
  end.

(** [timeout]: the five seconds of grace have passed. *)
Definition stop_step (n : Node) (i : nat) (timeout : bool) (x : Stopper) : Node :=
  match x with
  | StopBegin =>
      set_stoppers (set_tasks (set_mgr n (set_shutdown (mgr n) None)) (signal_opt (m_shutdown (mgr n)) (tasks n)))
        (<[i := StopTake]> (stoppers n))
  | StopTake =>
      if decide (task_locked n) then n
      else match m_task (mgr n) with
      | None => set_stoppers n (<[i := StopOk]> (stoppers n))
      | Some tid => set_stoppers (set_mgr n (set_task (mgr n) None)) (<[i := Joining tid]> (stoppers n))
      end
  | Joining tid =>
      match tasks n !! tid with
      | None => set_stoppers n (<[i := if decide (tid ∈ panicked n) then StopPanicked else StopOk]> (stoppers n))
      | Some _ => if timeout then set_stoppers (set_tasks n (delete tid (tasks n))) (<[i := StopTimeout]> (stoppers n)) else n
      end
  | _ => n
  end.

(** One step of a task: a zero interval panics, a stopped task may leave at
    the [select!], and otherwise it runs on. *)
Definition task_step (n : Node) (tid : nat) (leave : bool) (rd : Reading) : Node :=
  match tasks n !! tid with
  | None => n
  | Some t =>
      let 'mkNode s h f d ts p a b k w := n in
      if decide (tk_interval t = 0) then mkNode s h f d (delete tid ts) ({[tid]} ∪ p) a b k w
      else if leave then
        match tk_at t, tk_stop t with
        | Waiting, true => mkNode s h f d (delete tid ts) p a b k w
        | _, _ => n
        end
      else
        let '(s, sent, t) := beacon_step rd s t in
        mkNode s h f d (<[tid := t]> ts) p a b k (w ++ sent)
  end.

(** The methods that are one critical section. *)
Inductive AppOp :=
| AddPeer (p : PeerId)
| RemovePeer (p : PeerId)
| ReplacePeers (ps : list PeerId)
| SetHints (hints : list string)
| AddHint (hint : string)
| SetFourWords (w : string)
| SetIdentity (k : MlDsaKeyPair)
| SetGroups (g : gmap TopicId GroupContext)
| CleanupExpired (now : Z)
| CleanupPending (now : Z)
| CleanupSeen (now : Z)
| HandleBeacon (topic : TopicId) (peer : PeerId) (r : PresenceRecord).

Definition app (s : PresenceManager) (o : AppOp) : PresenceManager :=
  match o with
  | AddPeer p => add_broadcast_peer s p
  | RemovePeer p => remove_broadcast_peer s p
  | ReplacePeers ps => replace_broadcast_peers s ps
  | SetHints hints => set_addr_hints s hints
  | AddHint hint => add_addr_hint s hint
  | SetFourWords w => set_four_words s w
  | SetIdentity k => set_identity s k
  | SetGroups g => set_groups s g
  | CleanupExpired now => (cleanup_expired s now).1
  | CleanupPending now => (cleanup_pending_queries s now).1
  | CleanupSeen now => (cleanup_seen_queries s now).1
  | HandleBeacon topic peer r => handle_beacon s topic peer r
  end.

Inductive Op :=
| OReceive (data : list Z) (rd : Reading)
| OHandler (i : nat) (rd : Reading)
| OFoafCall (topic : TopicId) (ttl timeout_ms : Z)
| OFoaf (i : nat) (rd : Reading)
| OFindCall (user : PeerId)
| OFind (i : nat) (rd : Reading)
| OStartCall (interval : Z) (allow_plaintext : bool)
| OStart (i : nat)
| OStopCall
| OStop (i : nat) (timeout : bool)
| OTask (tid : nat) (leave : bool) (rd : Reading)
| OApp (o : AppOp).

Definition exec (n : Node) (o : Op) : Node :=
  let 'mkNode s h f d ts p a b k w := n in
  match o with
  | OReceive data rd => let '(s, x) := receive s data rd in mkNode s (h ++ [x]) f d ts p a b k w
  | OHandler i rd =>
      match h !! i with
      | Some x => let '(s, sent, x) := handler_step rd s x in mkNode s (<[i := x]> h) f d ts p a b k (w ++ sent)
      | None => n
      end
  | OFoafCall topic ttl timeout_ms => mkNode s h (f ++ [FBegin topic ttl timeout_ms]) d ts p a b k w
  | OFoaf i rd =>
      match f !! i with
      | Some x => let '(s, sent, x) := foaf_step rd s x in mkNode s h (<[i := x]> f) d ts p a b k (w ++ sent)
      | None => n
      end
  | OFindCall user => mkNode s h f (d ++ [FindBegin user]) ts p a b k w
  | OFind i rd =>
      match d !! i with
      | Some x => let '(s, sent, x) := find_step rd s x in mkNode s h f (<[i := x]> d) ts p a b k (w ++ sent)
      | None => n
      end
  | OStartCall interval plain => mkNode s h f d ts p (a ++ [StartBegin interval plain]) b k w
  | OStart i => match a !! i with Some x => start_step n i x | None => n end
  | OStopCall => mkNode s h f d ts p a (b ++ [StopBegin]) k w
  | OStop i timeout => match b !! i with Some x => stop_step n i timeout x | None => n end
  | OTask tid leave rd => task_step n tid leave rd
  | OApp o => set_mgr n (app s o)
  end.

Definition run (n : Node) (os : list Op) : Node := foldl exec n os.
End Presence.
End Presence.
