(* ===== verification/PresenceProps.v ===== *)
(** * What presence guarantees

    Theorems on [Presence]: the random selection, which records are stored and
    from which of three origins they come, which of a peer's beacons survives, how often a
    query is answered and forwarded, and a beacon's way from one node to
    another. *)

From S2P Require Import Prelude Types Identity Float64 Presence.
Import RateLimiter Group Identity Presence.

#[local] Open Scope Z_scope.

Module PresenceProps.

(** ** The partial shuffle *)

Lemma swap_perm (l : list nat) (i j : nat) :
  (i < length l)%nat → (j < length l)%nat → ∃ l', swap l i j = Some l' ∧ l' ≡ₚ l.
Proof.
  intros Hi Hj. unfold swap.
  destruct (lookup_lt_is_Some_2 l i Hi) as [a Ha], (lookup_lt_is_Some_2 l j Hj) as [b Hb].
  rewrite Ha, Hb. eexists; split; [done|].
  destruct (decide (i = j)) as [<-|Hne].
  { assert (a = b) as -> by congruence. rewrite list_insert_insert_eq, list_insert_id by done. done. }
  apply Permutation_inj. split; [by rewrite !length_insert|].
  exists (λ k, if decide (k = i) then j else if decide (k = j) then i else k). split.
  - intros x y. repeat case_decide; congruence.
  - intros k. destruct (decide (k = i)) as [->|]; [|destruct (decide (k = j)) as [->|]].
    + rewrite list_lookup_insert_eq by (rewrite length_insert; lia). done.
    + rewrite list_lookup_insert_ne, list_lookup_insert_eq by done || lia. done.
    + by rewrite !list_lookup_insert_ne.
Qed.

Lemma shuffle_perm (n fanout i : nat) (random l : list nat) :
  length l = n → (i + fanout ≤ n)%nat → ∃ l', shuffle n i fanout random l = Some l' ∧ l' ≡ₚ l.
Proof.
  revert i random l. induction fanout as [|fanout IH]; intros i random l Hn Hle; [by exists l|].
  cbn [shuffle]. set (r := hd 0%nat random).
  pose proof (Nat.mod_upper_bound r (n - i) ltac:(lia)).
  destruct (swap_perm l i (i + r mod (n - i))) as (l1 & -> & Hp); [lia..|].
  destruct (IH (S i) (tl random) l1) as (l2 & Hs & Hp2); [by rewrite Hp|lia|].
  exists l2. split; [by cbn; rewrite Hs|]. by rewrite Hp2.
Qed.

Lemma picked_NoDup {A} (l : list A) (ks : list nat) (xs : list A) :
  NoDup l → NoDup ks → Forall2 (λ k x, l !! k = Some x) ks xs → NoDup xs.
Proof.
  intros Hl Hks HF. induction HF as [|k x ks xs Hk HF IH]; [constructor|].
  apply NoDup_cons in Hks as [Hnin Hks]. constructor; [|by apply IH].
  intros [j Hj]%list_elem_of_lookup. destruct (Forall2_lookup_r _ _ _ _ _ HF Hj) as (k' & Hk' & Hx).
  apply Hnin. rewrite (NoDup_lookup _ _ _ _ Hl Hk Hx). by eapply list_elem_of_lookup_2.
Qed.

(** The selection is [fanout] distinct peers of the list. *)
Lemma select_peers_spec (peers : list PeerId) (fanout : nat) (random : list nat) :
  NoDup peers → (fanout ≤ length peers)%nat →
  ∃ sel, select_peers peers fanout random = Some sel ∧ length sel = fanout ∧ NoDup sel ∧ sel ⊆ peers.
Proof.
  intros Hnd Hle. unfold select_peers.
  destruct (shuffle_perm (length peers) fanout 0 random (List.seq 0 (length peers))) as (l & -> & Hp).
  { by rewrite length_seq. } { lia. }
  cbn [mbind option_bind].
  assert (NoDup l) as Hl by (rewrite Hp; apply NoDup_ListNoDup, seq_NoDup).
  assert (∀ k, k ∈ l → (k < length peers)%nat) as Hb.
  { intros k. rewrite Hp, list_elem_of_In, in_seq. lia. }
  assert (length l = length peers) as Hlen by (rewrite Hp; apply length_seq).
  assert (Forall (λ k, is_Some (peers !! k)) (take fanout l)) as Hall.
  { apply Forall_forall. intros k (j & Hj & _)%elem_of_take. apply lookup_lt_is_Some, Hb. by eapply list_elem_of_lookup_2. }
  apply mapM_is_Some_2 in Hall as [sel Hsel]. rewrite Hsel. exists sel. split; [done|].
  apply mapM_Some in Hsel. split; [|split].
  - rewrite <-(Forall2_length _ _ _ Hsel), length_take. lia.
  - eapply picked_NoDup; [done| |done]. eapply sublist_NoDup; [exact Hl|apply sublist_take].
  - intros p [j Hj]%list_elem_of_lookup. destruct (Forall2_lookup_r _ _ _ _ _ Hsel Hj) as (k & _ & Hk).
    by eapply list_elem_of_lookup_2.
Qed.

(** ** Which beacon survives *)

(** The rule by which a record replaces the one that is held. *)
Definition fresher (existing r : PresenceRecord) : bool :=
  bool_decide (seq existing < seq r) || bool_decide (u64_sat_add (since existing) REBOOT_GRACE_SECS < since r).

Definition keep (old : option PresenceRecord) (r : PresenceRecord) : PresenceRecord :=
  match old with Some existing => if fresher existing r then r else existing | None => r end.

Lemma topic_beacons_insert (s : PresenceManager) (t t' : TopicId) (tb : gmap PeerId PresenceRecord) :
  topic_beacons (set_beacons s (<[t := tb]> (m_beacons s))) t' = if decide (t = t') then tb else topic_beacons s t'.
Proof.
  unfold topic_beacons. destruct s; cbn [m_beacons set_beacons]. destruct (decide (t = t')) as [<-|].
  - by rewrite lookup_insert_eq.
  - by rewrite lookup_insert_ne.
Qed.

Lemma handle_beacon_lookup (s : PresenceManager) (t t' : TopicId) (p p' : PeerId) (r : PresenceRecord) :
  topic_beacons (handle_beacon s t p r) t' !! p' =
    if decide ((t, p) = (t', p')) then Some (keep (topic_beacons s t !! p) r) else topic_beacons s t' !! p'.
Proof.
  unfold handle_beacon. rewrite topic_beacons_insert. unfold keep, fresher.
  destruct (decide (t = t')) as [<-|Ht]; [|rewrite decide_False by congruence; done].
  destruct (decide ((t, p) = (t, p'))) as [[= <-]|Hp].
  - destruct (topic_beacons s t !! p) as [e|] eqn:He; [|by rewrite lookup_insert_eq].
    destruct (bool_decide _), (bool_decide _); cbn; by rewrite ?lookup_insert_eq, ?He.
  - assert (p ≠ p') by congruence. destruct (topic_beacons s t !! p) as [e|]; [|by rewrite lookup_insert_ne].
    destruct (negb _ && negb _); [done|]. by rewrite lookup_insert_ne.
Qed.

Lemma add_response_lookup (m : gmap PeerId PresenceRecord) (p p' : PeerId) (r : PresenceRecord) :
  add_response m (p, r) !! p' = if decide (p = p') then Some (keep (m !! p) r) else m !! p'.
Proof.
  unfold add_response, keep, fresher. cbn [fst snd]. destruct (decide (p = p')) as [<-|Hp].
  - destruct (m !! p) as [e|] eqn:He; [|by rewrite lookup_insert_eq].
    destruct (decide (seq e < seq r)); [by rewrite bool_decide_true, lookup_insert_eq by done|].
    rewrite (bool_decide_false (seq e < seq r)) by done. cbn.
    destruct (decide (u64_sat_add (since e) REBOOT_GRACE_SECS < since r)).
    + by rewrite bool_decide_true, lookup_insert_eq.
    + by rewrite bool_decide_false.
  - destruct (m !! p); [repeat case_decide|]; by rewrite ?lookup_insert_ne.
Qed.

(** Beacons handled one after the other. *)
Definition Arrival : Type := TopicId * PeerId * PresenceRecord.
Definition deliver (s : PresenceManager) (es : list Arrival) : PresenceManager :=
  foldl (λ s e, handle_beacon s e.1.1 e.1.2 e.2) s es.
Definition records_of (es : list Arrival) (t : TopicId) (p : PeerId) : list PresenceRecord :=
  (filter (λ e, e.1 = (t, p)) es).*2.

Lemma deliver_lookup (es : list Arrival) (s : PresenceManager) (t : TopicId) (p : PeerId) :
  topic_beacons (deliver s es) t !! p = foldl (λ o r, Some (keep o r)) (topic_beacons s t !! p) (records_of es t p).
Proof.
  revert s. induction es as [|[[t' p'] r] es IH]; intros s; [done|].
  cbn [deliver foldl fst snd]. fold (deliver (handle_beacon s t' p' r) es). rewrite IH, handle_beacon_lookup.
  unfold records_of. rewrite filter_cons. cbn [fst].
  destruct (decide ((t', p') = (t, p))) as [[= -> ->]|Hne]; done.
Qed.

(** The beacons of one life of a peer: a beacon with a smaller number is not
    much younger, and a number is used once. *)
Definition one_life (rs : list PresenceRecord) : Prop :=
  ∀ r r', r ∈ rs → r' ∈ rs → seq r ≤ seq r' → since r ≤ u64_sat_add (since r') REBOOT_GRACE_SECS ∧ (seq r = seq r' → r = r').

Definition newest (rs : list PresenceRecord) (m : PresenceRecord) : Prop := m ∈ rs ∧ ∀ r, r ∈ rs → seq r ≤ seq m.

Lemma keep_newest (rs : list PresenceRecord) (m r : PresenceRecord) :
  one_life (rs ++ [r]) → newest rs m → newest (rs ++ [r]) (keep (Some m) r).
Proof.
  intros Hl [Hm Hmax]. unfold keep, fresher.
  destruct (decide (seq m < seq r)) as [Hlt|Hge].
  - rewrite (bool_decide_true (seq m < seq r)) by done. cbn.
    split; [set_solver|]. intros x [Hx| ->%list_elem_of_singleton]%elem_of_app; [|lia]. specialize (Hmax x Hx). lia.
  - destruct (Hl r m) as [Hs _]; [set_solver..|lia|].
    rewrite !bool_decide_false by lia. cbn.
    split; [set_solver|]. intros x [Hx| ->%list_elem_of_singleton]%elem_of_app; [|lia]. by apply Hmax.
Qed.

Lemma fold_newest (rs : list PresenceRecord) :
  one_life rs → rs ≠ [] → ∃ m, foldl (λ o r, Some (keep o r)) None rs = Some m ∧ newest rs m.
Proof.
  induction rs as [|r rs IH] using rev_ind; [done|]. intros Hl _. rewrite foldl_snoc.
  destruct (decide (rs = [])) as [->|Hne].
  { exists r. split; [done|]. split; [set_solver|]. intros x ->%list_elem_of_singleton. lia. }
  destruct IH as (m & -> & Hm); [intros x y Hx Hy; apply Hl; set_solver|done|].
  eexists; split; [done|]. by apply keep_newest.
Qed.

Lemma newest_unique (rs : list PresenceRecord) (m m' : PresenceRecord) :
  one_life rs → newest rs m → newest rs m' → m = m'.
Proof. intros Hl [Hm Hx] [Hm' Hx']. specialize (Hx _ Hm'). specialize (Hx' _ Hm). apply (Hl m m'); [done..|lia|lia]. Qed.

(** The beacon that is held for a peer does not depend on the order of
    arrival.  Whatever beacons of whatever topics and peers arrive, as long as
    those of one peer in one topic are of one life of that peer, two orders of
    arrival leave the same record for every topic and peer, and it is the one
    with the highest number that arrived. *)
Theorem beacons_converge (s : PresenceManager) (es es' : list Arrival) (t : TopicId) (p : PeerId) :
  m_beacons s = ∅ → es ≡ₚ es' → (∀ t p, one_life (records_of es t p)) →
  topic_beacons (deliver s es) t !! p = topic_beacons (deliver s es') t !! p
  ∧ match topic_beacons (deliver s es) t !! p with
    | Some r => newest (records_of es t p) r
    | None => records_of es t p = []
    end.
Proof.
  intros Hs Hp Hl. rewrite !deliver_lookup.
  assert (topic_beacons s t !! p = None) as -> by (unfold topic_beacons; by rewrite Hs).
  assert (records_of es t p ≡ₚ records_of es' t p) as Hr by (unfold records_of; by rewrite Hp).
  destruct (decide (records_of es t p = [])) as [Hn|Hn].
  { rewrite Hn in Hr. apply Permutation_nil_l in Hr. by rewrite Hn, <-Hr. }
  destruct (fold_newest _ (Hl t p) Hn) as (m & -> & Hm).
  assert (one_life (records_of es' t p)) as Hl' by (intros x y; rewrite <-Hr; apply Hl).
  destruct (fold_newest _ Hl') as (m' & -> & Hm').
  { intros He. apply Hn. rewrite He in Hr. by apply Permutation_nil_r in Hr. }
  split; [|done]. f_equal. eapply newest_unique; [apply Hl|exact Hm|].
  destruct Hm' as [Hin Hmax]. split; [by rewrite Hr|]. intros x. rewrite Hr. apply Hmax.
Qed.

(** ** Where records come from *)

Section Safety.
Context `{Hashes} `{MlDsa} `{KeyedHash} `{PresenceWire}.
Context `{!HashIter PeerId PresenceRecord} `{!HashIter TopicId GroupContext} `{!SetIter PeerId}.

Definition signed_by (p : PeerId) (r : PresenceRecord) : Prop :=
  signature r ≠ [] ∧ from_pubkey (signer_pubkey r) = p
  ∧ verify (signer_pubkey r) (signable_bytes r) (signature r) = Some true.

Lemma validate_signed (s : PresenceManager) (t : TopicId) (p : PeerId) (r : PresenceRecord) :
  validate_presence_record s true t p r = true → is_Some (m_groups s !! t) ∧ signed_by p r.
Proof.
  unfold validate_presence_record, signed_by. case_bool_decide as Hg; [|done].
  case_bool_decide as Hsig; case_bool_decide as Hpk; [|done..].
  destruct (decide (from_pubkey (signer_pubkey r) = p)) as [Hp|]; [|done].
  destruct (verify _ _ _) as [[]|]; done.
Qed.

Lemma signal_opt_ok (P : Task → Prop) (o : option nat) (ts : gmap nat Task) :
  (∀ t, P t → P (mkTask (tk_interval t) (tk_allow_plaintext t) (tk_ticks t) true (tk_at t))) →
  map_Forall (λ _, P) ts → map_Forall (λ _, P) (signal_opt o ts).
Proof.
  intros HP Ht. destruct o as [tid|]; [|done]. intros i t. cbn [signal_opt]. unfold signal. destruct (decide (tid = i)) as [<-|].
  - rewrite lookup_alter_eq. intros (t0 & Hl & ->)%fmap_Some_1. apply HP, (Ht _ _ Hl).
  - rewrite lookup_alter_ne by done. apply Ht.
Qed.

Section Authentic.
Context (me : PeerId) (G : gset TopicId).

(** Records of the node's own beacon task, and records the application passes to
    [handle_beacon], which stores what it is given. *)
Context (made : TopicId → PresenceRecord → Prop) (handed : TopicId → PeerId → PresenceRecord → Prop).

Definition vouched (t : TopicId) (pr : PeerId * PresenceRecord) : Prop := t ∈ G ∧ signed_by pr.1 pr.2.
Definition stored_ok (t : TopicId) (p : PeerId) (r : PresenceRecord) : Prop := (t ∈ G ∧ ((p = me ∧ made t r) ∨ signed_by p r)) ∨ handed t p r.

Definition responses_ok (m : gmap PeerId PresenceRecord) : Prop := map_Forall signed_by m.

Record mgr_ok (s : PresenceManager) : Prop := {
  mo_me : m_peer_id s = me;
  mo_groups : dom (m_groups s) ⊆ G;
  mo_beacons : ∀ t p r, topic_beacons s t !! p = Some r → stored_ok t p r;
  mo_pending : map_Forall (λ _ pq, responses_ok (pq_responses pq)) (m_pending s);
}.

Definition handler_ok (h : Handler) : Prop :=
  match h with
  | AtBeaconStore t p r => vouched t (p, r)
  | AtFilter _ t _ valid => Forall (vouched t) valid
  | AtAggregate _ t valid => Forall (vouched t) valid
  | AtStore t todo => Forall (vouched t) todo
  | _ => True
  end.

Definition foaf_ok (f : Foaf) : Prop :=
  match f with FDone rs => Forall (λ pr, signed_by pr.1 pr.2) rs | _ => True end.
Definition find_ok (f : Find) : Prop := match f with FindQuery _ f _ => foaf_ok f | _ => True end.

Definition topics_ok (todo : list (TopicId * GroupContext)) : Prop := Forall (λ tg, tg.1 ∈ G) todo.
Definition task_ok (t : Task) : Prop :=
  match tk_at t with
  | Waiting => True
  | Topics todo | Encoded todo _ _ | Sending todo _ => topics_ok todo
  | Hinted todo topic _ _ _ | Built todo topic _ _ | Signed todo topic _ _ => topic ∈ G ∧ topics_ok todo
  end.

Record node_ok (n : Node) : Prop := {
  no_mgr : mgr_ok (mgr n);
  no_handlers : Forall handler_ok (handlers n);
  no_foafs : Forall foaf_ok (foafs n);
  no_finds : Forall find_ok (finds n);
  no_tasks : map_Forall (λ _, task_ok) (tasks n);
}.

(** Signatures are required and the application joins topics of [G] only. *)
Definition op_ok (o : Op) : Prop :=
  match o with
  | OHandler _ rd => r_require_signed rd = true
  | OApp (SetGroups g) => dom g ⊆ G
  | _ => True
  end.

(** What a step puts in from outside the network. *)
Definition origin_ok (n : Node) (o : Op) : Prop :=
  match o with
  | OTask tid _ _ => ∀ tk todo t g r, tasks n !! tid = Some tk → tk_at tk = Signed todo t g r → made t r
  | OApp (HandleBeacon t p r) => handed t p r
  | _ => True
  end.

Lemma mgr_ok_same (s s' : PresenceManager) :
  m_peer_id s' = m_peer_id s → m_groups s' = m_groups s → m_beacons s' = m_beacons s → m_pending s' = m_pending s →
  mgr_ok s → mgr_ok s'.
Proof.
  intros H1' H2' H3' H4' [Hm Hg Hb Hp]. split; [congruence|by rewrite H2'| |by rewrite H4'].
  intros t p r. unfold topic_beacons. rewrite H3'. apply Hb.
Qed.

Lemma mgr_ok_handle_beacon (s : PresenceManager) (t : TopicId) (p : PeerId) (r : PresenceRecord) :
  stored_ok t p r → mgr_ok s → mgr_ok (handle_beacon s t p r).
Proof.
  intros Hr [Hm Hg Hb Hp]. split; [by destruct s..| |by destruct s].
  intros t' p' r'. rewrite handle_beacon_lookup.
  destruct (decide ((t, p) = (t', p'))) as [[= <- <-]|]; [|apply Hb].
  intros [= <-]. unfold keep. destruct (topic_beacons s t !! p) as [e|] eqn:He; [|done].
  destruct (fresher e r); [done|]. by apply Hb.
Qed.

Lemma mgr_ok_set_pending (s : PresenceManager) (m : gmap QueryId PendingQuery) :
  map_Forall (λ _ pq, responses_ok (pq_responses pq)) m → mgr_ok s → mgr_ok (set_pending s m).
Proof. intros Hm' [Hm Hg Hb Hp]. split; by destruct s. Qed.

Lemma responses_ok_fold (t : TopicId) (l : list (PeerId * PresenceRecord)) (m : gmap PeerId PresenceRecord) :
  Forall (vouched t) l → responses_ok m → responses_ok (foldl add_response m l).
Proof.
  intros Hl. revert m. induction Hl as [|[p r] l [_ Hr] _ IH]; intros m Hm; [done|].
  cbn [foldl]. apply IH. intros p' r'. rewrite add_response_lookup.
  destruct (decide (p = p')) as [<-|]; [|apply Hm]. intros [= <-]. unfold keep.
  destruct (m !! p) as [e|] eqn:He; [|done]. destruct (fresher e r); [done|]. by apply Hm.
Qed.

Lemma vouched_stored (t : TopicId) (pr : PeerId * PresenceRecord) : vouched t pr → stored_ok t pr.1 pr.2.
Proof. intros [Ht Hs]. left. split; [done|by right]. Qed.

Lemma validate_vouched (s : PresenceManager) (t : TopicId) (pr : PeerId * PresenceRecord) :
  mgr_ok s → validate_presence_record s true t pr.1 pr.2 = true → vouched t pr.
Proof. intros [_ Hg _ _] [Ht Hs]%validate_signed. split; [|done]. by apply Hg, elem_of_dom. Qed.

Lemma handler_step_ok (rd : Reading) (s : PresenceManager) (h : Handler) :
  r_require_signed rd = true → mgr_ok s → handler_ok h →
  mgr_ok (handler_step rd s h).1.1 ∧ handler_ok (handler_step rd s h).2.
Proof.
  intros Hrd Hs Hh. destruct h as [t p r|t p r|q t ttl o|q t ttl o|q t ttl o|q t rs|q t todo valid|q t valid|t todo|ro| |];
    cbn [handler_step]; rewrite ?Hrd.
  - split; [done|]. destruct (validate_presence_record s true t p r) eqn:Hv; [|done].
    by apply (validate_vouched s t (p, r)).
  - split; [|done]. apply mgr_ok_handle_beacon; [|done]. by apply (vouched_stored t (p, r)).
  - destruct (m_seen s !! q); (split; [|done]); [done|]. eapply mgr_ok_same, Hs; by destruct s.
  - done.
  - by destruct (query_forward _ _ _ _ _ _).
  - destruct (m_pending s !! q); [|done]. destruct (decide _); cbn; auto.
  - destruct todo as [|pr todo]; [by destruct valid|].
    destruct (PresenceRec.is_expired _ _); [done|].
    destruct (validate_presence_record s true t pr.1 pr.2) eqn:Hv; [|done].
    split; [done|]. apply Forall_app_2; [done|]. constructor; [|done]. by apply (validate_vouched s).
  - destruct (m_pending s !! q) as [pq|] eqn:Hq; [|done]. destruct (decide _); [|done].
    split; [|done]. apply mgr_ok_set_pending; [|done]. destruct Hs as [_ _ _ Hp].
    apply map_Forall_insert_2; [|done]. cbn. eapply responses_ok_fold; [done|]. exact (Hp _ _ Hq).
  - destruct todo as [|pr todo]; [done|]. apply Forall_cons in Hh as [Hpr Hh].
    split; [|done]. apply mgr_ok_handle_beacon; [|done]. by apply vouched_stored.
  - done.
  - done.
  - done.
Qed.

Lemma receive_ok (rd : Reading) (s : PresenceManager) (data : list Z) :
  mgr_ok s → mgr_ok (receive s data rd).1 ∧ handler_ok (receive s data rd).2.
Proof.
  intros Hs. unfold receive. destruct (decode_message data) as [m|]; [|done].
  assert (handler_ok (dispatch m)) as Hd by (by destruct m).
  destruct (rate_limit_peer m) as [p|]; [|done].
  destruct (check_rate_limit _ _ _ _) as [l a]. split; [|by destruct a].
  eapply mgr_ok_same, Hs; by destruct s.
Qed.

Lemma foaf_step_ok (rd : Reading) (s : PresenceManager) (f : Foaf) :
  mgr_ok s → foaf_ok f → mgr_ok (foaf_step rd s f).1.1 ∧ foaf_ok (foaf_step rd s f).2.
Proof.
  intros Hs Hf. destruct f as [t ttl ms|q t ttl ms|q t ttl ms|q ms st|q|rs|]; cbn [foaf_step].
  - split; [|done]. apply mgr_ok_set_pending; [|done]. apply map_Forall_insert_2; [by apply map_Forall_empty|apply Hs].
  - split; [|done]. eapply mgr_ok_same, Hs; by destruct s.
  - by destruct (if bool_decide _ then _ else _).
  - destruct (decide _); [|done]. destruct (m_pending s !! q); [|done]. by destruct (decide _).
  - destruct (m_pending s !! q) as [pq|] eqn:Hq; [|split; [done|by constructor]]. split.
    + apply mgr_ok_set_pending; [|done]. apply map_Forall_delete, Hs.
    + apply Forall_forall. intros [p r] [_ Hin%elem_of_hiter]%list_elem_of_filter. exact (mo_pending _ Hs _ _ Hq _ _ Hin).
  - done.
  - done.
Qed.

Lemma find_step_ok (rd : Reading) (s : PresenceManager) (f : Find) :
  mgr_ok s → find_ok f → mgr_ok (find_step rd s f).1.1 ∧ find_ok (find_step rd s f).2.
Proof.
  intros Hs Hf.
  assert (∀ u todo, find_ok (find_next u todo)) as Hnext by (by intros u []).
  assert (∀ u g todo, foaf_ok g → let r := (let '(s', sent, g') := foaf_step rd s g in (s', sent, FindQuery u g' todo)) in
    mgr_ok r.1.1 ∧ find_ok r.2) as Hq.
  { intros u g todo Hg. pose proof (foaf_step_ok rd s g Hs Hg). by destruct (foaf_step rd s g) as [[s' sent] g']. }
  destruct f as [u|u g todo|u g todo|hs|]; cbn [find_step]; [done| | |done..].
  - destruct todo as [|t todo]; [split; [done|apply Hnext]|]. destruct (get_group_presence s t !! u); [|done]. by destruct (PresenceRec.is_expired _ _).
  - destruct g as [| | | | |rs|]; try (by apply Hq); [|done].
    destruct (find_user _ _ _); split; [done..|apply Hnext].
Qed.

Lemma beacon_step_ok (rd : Reading) (s : PresenceManager) (t : Task) :
  (∀ todo tp g r, tk_at t = Signed todo tp g r → made tp r) → mgr_ok s → task_ok t → mgr_ok (beacon_step rd s t).1.1 ∧ task_ok (beacon_step rd s t).2.
Proof.
  intros Hmade Hs Ht. destruct t as [iv plain ticks stop b]. unfold beacon_step, task_ok in *.
  cbn [tk_at] in *. destruct b as [|todo|todo tp g tag hints|todo tp g r|todo tp g r|todo msg data|todo ps];
    cbn [fst snd task_at tk_at tk_interval tk_allow_plaintext tk_ticks tk_stop].
  - split; [done|]. apply Forall_forall. intros [tp g] Hin%elem_of_hiter. by apply (mo_groups _ Hs), elem_of_dom.
  - destruct todo as [|[tp g] todo].
    + unfold tick_done. destruct (decide _); (split; [|done]); [|done]. eapply mgr_ok_same, Hs; by destruct s.
    + apply Forall_cons in Ht as [Htp Ht]. by destruct (exporter_or_plaintext _ _).
  - split; [|done]. eapply mgr_ok_same, Hs; by destruct s.
  - done.
  - destruct Ht as [Htp Ht]. split.
    + destruct Hs as [Hm Hg Hb Hp]. split; [by destruct s..| |by destruct s].
      intros t' p' r'. rewrite topic_beacons_insert. destruct (decide (tp = t')) as [<-|]; [|apply Hb].
      destruct (decide (p' = me)) as [->|Hne]; [|rewrite Hm, lookup_insert_ne by done; apply Hb].
      rewrite Hm, lookup_insert_eq. intros [= <-]. left. split; [done|]. left. split; [done|]. by eapply Hmade.
    + by destruct (encode_message _).
  - done.
  - split; [|done]. eapply mgr_ok_same, Hs; by destruct s.
Qed.

Lemma app_ok (n : Node) (s : PresenceManager) (o : AppOp) : op_ok (OApp o) → origin_ok n (OApp o) → mgr_ok s → mgr_ok (app s o).
Proof.
  intros Ho Hor Hs. destruct o as [p|p|ps|hs|h|w|k|g|now|now|now|t p r]; cbn [app];
    try (eapply mgr_ok_same, Hs; by destruct s).
  - unfold add_addr_hint. destruct (decide _); [done|]. eapply mgr_ok_same, Hs; by destruct s.
  - destruct Hs as [Hm Hg Hb Hp]. split; by destruct s.
  - destruct Hs as [Hm Hg Hb Hp]. split; [by destruct s..| |by destruct s].
    intros t p r. unfold topic_beacons. destruct s as [? ? ? ? B ? ? ? ? ? ? ? ?]. cbn [cleanup_expired fst set_beacons m_beacons] in *.
    rewrite lookup_fmap. specialize (Hb t p). unfold topic_beacons in Hb. cbn [m_beacons] in Hb.
    destruct (B !! t) as [tb|]; [|done]. cbn in Hb |- *. rewrite map_lookup_filter_Some. intros [Hr _]. by apply Hb.
  - apply mgr_ok_set_pending; [|done]. intros q pq [Hq _]%map_lookup_filter_Some. exact (mo_pending _ Hs _ _ Hq).
  - apply mgr_ok_handle_beacon; [by right|done].
Qed.

Lemma start_step_ok (n : Node) (i : nat) (x : Starter) : node_ok n → node_ok (start_step n i x).
Proof.
  intros Hn. destruct n as [s h f d ts p a b k w], Hn as [Hs Hh Hf Hd Ht]. destruct x as [iv plain|tid|tid|ok]; cbn [start_step];
    try destruct (decide _); try done.
  - destruct (m_task _); [by split|]. split; [done..|]. cbn. by apply map_Forall_insert_2.
  - split; [|done..]. eapply mgr_ok_same, Hs; by destruct s.
  - split; [|done..|]; cbn. { eapply mgr_ok_same, Hs; by destruct s. } by apply signal_opt_ok.
Qed.

Lemma stop_step_ok (n : Node) (i : nat) (timeout : bool) (x : Stopper) : node_ok n → node_ok (stop_step n i timeout x).
Proof.
  intros Hn. destruct n as [s h f d ts p a b k w], Hn as [Hs Hh Hf Hd Ht]. destruct x as [| |tid| | |]; cbn [stop_step]; try done.
  - split; [|done..|]; cbn. { eapply mgr_ok_same, Hs; by destruct s. } by apply signal_opt_ok.
  - destruct (decide _); [done|]. destruct (m_task _); [|by split].
    split; [|done..]. eapply mgr_ok_same, Hs; by destruct s.
  - cbn [tasks]. destruct (ts !! tid); [|by split]. destruct timeout; [|done]. split; [done..|]. by apply map_Forall_delete.
Qed.

Lemma task_step_ok (n : Node) (tid : nat) (leave : bool) (rd : Reading) : origin_ok n (OTask tid leave rd) → node_ok n → node_ok (task_step n tid leave rd).
Proof.
  intros Hor Hn. unfold task_step. destruct (tasks n !! tid) as [t|] eqn:Ht'; [|done].
  destruct n as [s h f d ts p a b k w], Hn as [Hs Hh Hf Hd Ht]. cbn in *.
  destruct (decide _); [split; [done..|]; by apply map_Forall_delete|].
  destruct leave.
  - destruct (tk_at t), (tk_stop t); try done. split; [done..|]; by apply map_Forall_delete.
  - destruct (beacon_step_ok rd s t) as [Hs' Hb]; [intros todo tp g r; by apply Hor|done|exact (Ht _ _ Ht')|].
    destruct (beacon_step rd s t) as [[s' sent] t']. split; [done..|]. by apply map_Forall_insert_2.
Qed.

Lemma exec_auth (n : Node) (o : Op) : op_ok o → origin_ok n o → node_ok n → node_ok (exec n o).
Proof.
  intros Ho Hor Hn. destruct o as [data rd|i rd|t ttl ms|i rd|u|i rd|iv plain|i| |i tm|tid lv rd|o].
  all: try (destruct n as [s h f d ts p a b k w]; cbn [exec]).
  all: try (destruct Hn as [Hs Hh Hf Hd Ht]; cbn in Hs, Hh, Hf, Hd, Ht).
  - destruct (receive_ok rd s data Hs). destruct (receive s data rd). split; [done| |done..]. by apply Forall_app_2; [|constructor].
  - destruct (h !! i) as [x|] eqn:Hx; [|by split].
    destruct (handler_step_ok rd s x Ho Hs) as [? ?]; [by eapply Forall_lookup_1|].
    destruct (handler_step rd s x) as [[s' sent] x']. split; [done| |done..]. by apply Forall_insert.
  - split; [done..| |done|done]. by apply Forall_app_2; [|constructor].
  - destruct (f !! i) as [x|] eqn:Hx; [|by split].
    destruct (foaf_step_ok rd s x Hs) as [? ?]; [by eapply Forall_lookup_1|].
    destruct (foaf_step rd s x) as [[s' sent] x']. split; [done..| |done|done]. by apply Forall_insert.
  - split; [done..| |done]. by apply Forall_app_2; [|constructor].
  - destruct (d !! i) as [x|] eqn:Hx; [|by split].
    destruct (find_step_ok rd s x Hs) as [? ?]; [by eapply Forall_lookup_1|].
    destruct (find_step rd s x) as [[s' sent] x']. split; [done..| |done]. by apply Forall_insert.
  - by split.
  - destruct (a !! i); [apply start_step_ok|]; by split.
  - by split.
  - destruct (b !! i); [apply stop_step_ok|]; by split.
  - apply task_step_ok; [exact Hor|by split].
  - split; [by eapply app_ok|done..].
Qed.

Lemma run_auth (os : list Op) (n : Node) :
  Forall op_ok os → (∀ os1 o os2, os = os1 ++ o :: os2 → origin_ok (run n os1) o) → node_ok n → node_ok (run n os).
Proof.
  intros Hos. revert n. induction Hos as [|o os Ho Hos IH]; intros n Hor Hn; [done|]. apply IH.
  - intros os1 o' os2 ->. by apply (Hor (o :: os1) o' os2).
  - apply exec_auth; [done|by apply (Hor [] o os)|done].
Qed.
End Authentic.

(** The beacon task made [r] for topic [t] in the run [os]: it came to the point
    where it stores the beacon it has just signed. *)
Definition beaconed (s : PresenceManager) (os : list Op) (t : TopicId) (r : PresenceRecord) : Prop :=
  ∃ os1 tid leave rd os2 tk todo g,
    os = os1 ++ OTask tid leave rd :: os2 ∧ tasks (run (boot s) os1) !! tid = Some tk ∧ tk_at tk = Signed todo t g r.

(** C28. Only authenticated records are believed.  Where signatures are
    required, whatever messages arrive and however the handlers, queries,
    beacon tasks and application calls of a node interleave, every record held
    has one of three origins: it is signed by the key that the peer's identifier
    is the hash of, in a topic the node joined; or the node's own beacon task
    made it in this run, under the node's own identifier, for a topic the node
    joined; or the application passed just this record, for this topic and this
    peer, to the public [handle_beacon], which stores without validating.  And
    every record that a query returns to the application is so signed. *)
Theorem presence_authentic (me : PeerId) (G : gset TopicId) (fw : option string) (k : option MlDsaKeyPair) (g : gmap TopicId GroupContext) (os : list Op) :
  dom g ⊆ G → Forall (op_ok G) os →
  let s := match k with Some k => new_with_identity me g fw k | None => new_with_four_words me g fw end in
  let n := run (boot s) os in
  (∀ t p r, topic_beacons (mgr n) t !! p = Some r →
    (t ∈ G ∧ signed_by p r) ∨ (t ∈ G ∧ p = me ∧ beaconed s os t r) ∨ OApp (HandleBeacon t p r) ∈ os)
  ∧ (∀ rs p r, FDone rs ∈ foafs n → (p, r) ∈ rs → signed_by p r).
Proof.
  intros Hg Hos s n. set (handed := λ t p r, OApp (HandleBeacon t p r) ∈ os).
  assert (node_ok me G (beaconed s os) handed n) as [[_ _ Hb _] _ Hf _ _].
  { apply run_auth; [done| |].
    - intros os1 o os2 E. destruct o as [| | | | | | | | | |tid leave rd|o]; try done.
      + intros tk todo t g' r Htk Hat. by exists os1, tid, leave, rd, os2, tk, todo, g'.
      + destruct o; try done. cbn. unfold handed. rewrite E. set_solver.
    - split; [|constructor..|done]. subst s. destruct k; split; try done.
      all: intros t p r; unfold topic_beacons; cbn; rewrite lookup_empty; done. }
  split; [intros t p r Hr; destruct (Hb t p r Hr) as [[Ht [[-> Hm]|Hs]]|Hh]; auto|]. intros rs p r Hin Hr. rewrite Forall_forall in Hf.
  specialize (Hf _ Hin). cbn in Hf. rewrite Forall_forall in Hf. exact (Hf _ Hr).
Qed.

(** ** How often a query is answered and forwarded *)

Section QueryOnce.
Context (q : QueryId).

(** Queries ([true]) or answers ([false]) with the identifier [q]. *)
Definition about (forward : bool) (m : PresenceMessage) : bool :=
  match m with
  | Query q' _ _ _ => forward && bool_decide (q' = q)
  | QueryResponse q' _ _ => negb forward && bool_decide (q' = q)
  | Beacon _ _ _ _ => false
  end.
Definition sent_about (forward : bool) (w : list Sent) : nat := length (filter (λ x, about forward (sent_message x) = true) w).

Definition budget (forward : bool) : nat := if forward then 3 else 1.

(** What a handler may still send about [q]. *)
Definition may_send (forward : bool) (h : Handler) : nat :=
  match h with
  | AtCollect q' _ _ _ => if decide (q' = q) then budget forward else 0
  | AtForward q' _ _ _ => if decide (q' = q) then (if forward then 3 else 0) else 0
  | _ => 0
  end.
Definition may_send_all (forward : bool) (hs : list Handler) : nat := sum_list_with (may_send forward) hs.

Definition unseen (forward : bool) (s : PresenceManager) : nat := if m_seen s !! q then 0 else budget forward.

(** A query of our own that does not carry [q]. *)
Definition foaf_other (f : Foaf) : Prop :=
  match f with FMark q' _ _ _ | FSend q' _ _ _ => q' ≠ q | _ => True end.
Definition find_other (f : Find) : Prop := match f with FindQuery _ f _ => foaf_other f | _ => True end.

(** A query that is sent does not go back to its origin. *)
Definition not_back (x : Sent) : Prop :=
  match sent_message x with Query q' _ _ o => q' = q → sent_to x ≠ o | _ => True end.

(** A task holds beacons only. *)
Definition task_other (t : Task) : Prop :=
  match tk_at t with Encoded _ m _ => ∃ t p r e, m = Beacon t p r e | _ => True end.

Record once_ok (n : Node) : Prop := {
  on_budget : ∀ forward, (sent_about forward (wire n) + may_send_all forward (handlers n) + unseen forward (mgr n) ≤ budget forward)%nat;
  on_foafs : Forall foaf_other (foafs n);
  on_finds : Forall find_other (finds n);
  on_tasks : map_Forall (λ _, task_other) (tasks n);
  on_back : Forall not_back (wire n);
}.

(** Other queries get other identifiers, and [q] is not forgotten. *)
Definition keeps_q (o : Op) : Prop :=
  match o with
  | OFoaf _ rd | OFind _ rd => r_query_id rd ≠ q
  | OApp (CleanupSeen _) => False
  | _ => True
  end.

Lemma sent_about_app (fw : bool) (w w' : list Sent) : sent_about fw (w ++ w') = (sent_about fw w + sent_about fw w')%nat.
Proof. unfold sent_about. by rewrite filter_app, length_app. Qed.

Lemma sent_about_le (fw : bool) (w : list Sent) : (sent_about fw w ≤ length w)%nat.
Proof. apply length_filter. Qed.

Lemma sent_about_none (fw : bool) (w : list Sent) : Forall (λ x, about fw (sent_message x) = false) w → sent_about fw w = 0%nat.
Proof.
  intros Hw. induction Hw as [|x w Hx _ IH]; [done|]. unfold sent_about in *. rewrite filter_cons, decide_False by congruence. done.
Qed.

Lemma send_all_Forall (P : Sent → Prop) (m : PresenceMessage) (to : list PeerId) :
  (∀ p data, p ∈ to → P (mkSent p m data)) → Forall P (send_all m to).
Proof.
  intros HP. unfold send_all. destruct (encode_message m) as [data|]; [|constructor].
  apply Forall_forall. intros x (p & -> & Hp)%list_elem_of_fmap. by apply HP.
Qed.

Lemma send_all_length (m : PresenceMessage) (to : list PeerId) : (length (send_all m to) ≤ length to)%nat.
Proof. unfold send_all. destruct (encode_message m); [rewrite length_fmap|cbn]; lia. Qed.

Lemma query_response_about (fw : bool) (s : PresenceManager) (now : Z) (q' : QueryId) (t : TopicId) (o : PeerId) :
  (sent_about fw (query_response s now q' t o) ≤ if decide (q' = q) then (if fw then 0 else 1) else 0)%nat
  ∧ Forall not_back (query_response s now q' t o).
Proof.
  unfold query_response. destruct (match m_beacons s !! t with Some _ => _ | None => _ end) as [|pr rs]; [split; [cbn; lia|constructor]|].
  set (m := QueryResponse q' t (pr :: rs)). split; [|by apply send_all_Forall].
  destruct (decide (q' = q)) as [->|Hq]; [destruct fw|].
  - rewrite sent_about_none; [done|]. by apply send_all_Forall.
  - pose proof (sent_about_le false (send_all m [o])). pose proof (send_all_length m [o]). cbn in *. lia.
  - rewrite sent_about_none; [done|]. apply send_all_Forall. intros p data _. cbn. rewrite bool_decide_false by done. by destruct fw.
Qed.

Lemma query_forward_about (s : PresenceManager) (rnd : list nat) (q' : QueryId) (t : TopicId) (ttl : Z) (o : PeerId) :
  ∃ sent, query_forward s rnd q' t ttl o = Some sent ∧ Forall not_back sent
    ∧ ∀ fw, (sent_about fw sent ≤ if decide (q' = q) then (if fw then 3 else 0) else 0)%nat.
Proof.
  unfold query_forward. set (k := Nat.min 3 (length (siter (m_peers s)))).
  destruct (bool_decide (0 < ttl) && bool_decide (0 < k)%nat); [|exists []; split; [done|]; split; [constructor|intros fw; cbn; lia]].
  destruct (select_peers_spec (siter (m_peers s)) k rnd) as (sel & -> & Hlen & _ & _); [apply siter_NoDup|lia|].
  cbn [mbind option_bind]. set (m := Query q' t (sat_sub ttl 1) o). eexists; split; [done|]. split.
  { apply send_all_Forall. intros p data [Hp _]%list_elem_of_filter. cbn. done. }
  intros fw. set (to := filter (λ p, p ≠ o) sel). assert (length to ≤ length sel)%nat by apply length_filter. assert (k ≤ 3)%nat by (subst k; lia).
  destruct (decide (q' = q)) as [->|Hq]; [destruct fw|].
  - pose proof (sent_about_le true (send_all m to)). pose proof (send_all_length m to). lia.
  - rewrite sent_about_none; [done|]. by apply send_all_Forall.
  - rewrite sent_about_none; [done|]. apply send_all_Forall. intros p data _. cbn. rewrite bool_decide_false by done. by destruct fw.
Qed.

Lemma handler_step_once (rd : Reading) (s : PresenceManager) (h : Handler) :
  Forall not_back (handler_step rd s h).1.2
  ∧ ∀ fw, (sent_about fw (handler_step rd s h).1.2 + may_send fw (handler_step rd s h).2 + unseen fw (handler_step rd s h).1.1
      ≤ may_send fw h + unseen fw s)%nat.
Proof.
  destruct h as [t p r|t p r|q' t ttl o|q' t ttl o|q' t ttl o|q' t rs|q' t todo valid|q' t valid|t todo|ro| |];
    cbn [handler_step].
  - split; [constructor|]. intros fw. by destruct (validate_presence_record _ _ _ _ _).
  - split; [constructor|]. intros fw. unfold unseen. by destruct s.
  - destruct (m_seen s !! q') as [ts|] eqn:Hq; [split; [constructor|done]|]. split; [constructor|]. intros fw.
    unfold unseen. cbn [fst snd may_send sent_about filter length]. destruct s as [? ? ? ? ? ? ? ? sn ? ? ? ?]. cbn [m_seen set_seen] in *.
    destruct (decide (q' = q)) as [->|Hne].
    + rewrite lookup_insert_eq, Hq. cbn. lia.
    + rewrite lookup_insert_ne by done. cbn. lia.
  - destruct (query_response_about true s (r_unix rd) q' t o) as [_ Hb]. split; [done|]. intros fw.
    destruct (query_response_about fw s (r_unix rd) q' t o) as [Ha _]. cbn [fst snd may_send]. destruct (decide (q' = q)), fw; cbn [budget] in *; lia.
  - destruct (query_forward_about s (r_random rd) q' t ttl o) as (sent & -> & Hb & Ha). split; [done|].
    intros fw. specialize (Ha fw). cbn [fst snd may_send]. lia.
  - destruct (m_pending s !! q'); [destruct (decide _)|]; by split; [constructor|].
  - destruct todo as [|pr todo]; [by destruct valid; split; [constructor| |constructor|]|].
    destruct (PresenceRec.is_expired _ _); [by split; [constructor|]|].
    by destruct (validate_presence_record _ _ _ _ _); split; [constructor| |constructor|].
  - destruct (m_pending s !! q'); [|by split; [constructor|]]. destruct (decide _); split; try constructor; intros fw; unfold unseen; by destruct s.
  - destruct todo as [|pr todo]; [by split; [constructor|]|]. split; [constructor|]. intros fw. unfold unseen. by destruct s.
  - split; [constructor|done].
  - split; [constructor|done].
  - split; [constructor|done].
Qed.

(** A step that has nothing to do with [q]. *)
Definition aside (s s' : PresenceManager) (sent : list Sent) : Prop :=
  m_seen s' !! q = m_seen s !! q ∧ Forall (λ x, ∀ fw, about fw (sent_message x) = false) sent.

Lemma aside_not_back (s s' : PresenceManager) (sent : list Sent) : aside s s' sent → Forall not_back sent.
Proof.
  intros [_ Hs]. eapply Forall_impl; [exact Hs|]. intros [p m data] Ha. specialize (Ha true). unfold not_back. cbn in *.
  destruct m; try done. cbn in Ha. by case_bool_decide.
Qed.

Lemma aside_about (s s' : PresenceManager) (sent : list Sent) (fw : bool) :
  aside s s' sent → sent_about fw sent = 0%nat ∧ unseen fw s' = unseen fw s.
Proof.
  intros [Hs Ha]. split; [|unfold unseen; by rewrite Hs]. apply sent_about_none. eapply Forall_impl; [exact Ha|]. naive_solver.
Qed.

Lemma foaf_step_aside (rd : Reading) (s : PresenceManager) (f : Foaf) :
  r_query_id rd ≠ q → foaf_other f →
  foaf_other (foaf_step rd s f).2 ∧ aside s (foaf_step rd s f).1.1 (foaf_step rd s f).1.2.
Proof.
  intros Hrd Hf. destruct f as [t ttl ms|q' t ttl ms|q' t ttl ms|q' ms st|q'|rs|]; cbn [foaf_step].
  - split; [done|]. split; [by destruct s|constructor].
  - split; [done|]. split; [|constructor]. destruct s; cbn in *. by rewrite lookup_insert_ne.
  - destruct (if bool_decide _ then _ else _); (split; [done|]); (split; [done|]); [|constructor].
    apply send_all_Forall. intros p data _ fw. cbn in *. rewrite bool_decide_false by done. by destruct fw.
  - destruct (decide _); [destruct (m_pending s !! q'); [destruct (decide _)|]|]; by repeat split.
  - destruct (m_pending s !! q'); by repeat split; destruct s.
  - by repeat split.
  - by repeat split.
Qed.

Lemma find_step_aside (rd : Reading) (s : PresenceManager) (f : Find) :
  r_query_id rd ≠ q → find_other f →
  find_other (find_step rd s f).2 ∧ aside s (find_step rd s f).1.1 (find_step rd s f).1.2.
Proof.
  intros Hrd Hf.
  assert (∀ u todo, find_other (find_next u todo)) as Hnext by (by intros u []).
  assert (∀ u g todo, foaf_other g → let r := (let '(s', sent, g') := foaf_step rd s g in (s', sent, FindQuery u g' todo)) in
    find_other r.2 ∧ aside s r.1.1 r.1.2) as Hq.
  { intros u g todo Hg. pose proof (foaf_step_aside rd s g Hrd Hg). by destruct (foaf_step rd s g) as [[s' sent] g']. }
  destruct f as [u|u g todo|u g todo|hs|]; cbn [find_step]; [by repeat split| | |by repeat split..].
  - destruct todo as [|t todo]; [split; [apply Hnext|by repeat split]|].
    destruct (get_group_presence s t !! u); [destruct (PresenceRec.is_expired _ _)|]; by repeat split.
  - destruct g as [| | | | |rs|]; try (by apply Hq); [|by repeat split].
    destruct (find_user _ _ _); (split; [apply Hnext || done|by repeat split]).
Qed.

Lemma beacon_step_aside (rd : Reading) (s : PresenceManager) (t : Task) :
  task_other t → task_other (beacon_step rd s t).2 ∧ aside s (beacon_step rd s t).1.1 (beacon_step rd s t).1.2.
Proof.
  intros Ht. destruct t as [iv plain ticks stop b]. unfold beacon_step, task_other in *.
  cbn [tk_at] in *. destruct b as [|todo|todo tp g tag hints|todo tp g r|todo tp g r|todo msg data|todo ps];
    cbn [fst snd task_at tk_at tk_interval tk_allow_plaintext tk_ticks tk_stop]; try (by repeat split; destruct s).
  - destruct todo as [|[tp g] todo]; [|by destruct (exporter_or_plaintext _ _); repeat split].
    unfold tick_done. destruct (decide _); repeat split; try done; by destruct s.
  - split; [|by repeat split; destruct s]. destruct (encode_message _); [|done]. by repeat eexists.
  - destruct Ht as (t & p & r & e & ->). split; [done|]. split; [done|].
    apply Forall_forall. intros x (p' & -> & _)%list_elem_of_fmap. done.
Qed.

Lemma receive_aside (rd : Reading) (s : PresenceManager) (data : list Z) :
  (∀ fw, may_send fw (receive s data rd).2 = 0%nat) ∧ m_seen (receive s data rd).1 = m_seen s.
Proof.
  unfold receive. destruct (decode_message data) as [m|]; [|done].
  assert (∀ fw, may_send fw (dispatch m) = 0%nat) by (by destruct m).
  destruct (rate_limit_peer m) as [p|]; [|done]. destruct (check_rate_limit _ _ _ _) as [l a]. split; [by destruct a|by destruct s].
Qed.

Lemma app_aside (s : PresenceManager) (o : AppOp) : keeps_q (OApp o) → aside s (app s o) [].
Proof.
  intros Ho. split; [|constructor]. destruct o; cbn [app]; try (by destruct s); try done.
  unfold add_addr_hint. destruct (decide _); [done|by destruct s].
Qed.

Lemma sum_list_with_insert {A} (f : A → nat) (l : list A) (i : nat) (x y : A) :
  l !! i = Some y → (sum_list_with f (<[i := x]> l) + f y = sum_list_with f l + f x)%nat.
Proof.
  revert i. induction l as [|z l IH]; intros [|i] Hl; [done|done|injection Hl as ->; cbn; lia|].
  specialize (IH i Hl). change (<[S i := x]> (z :: l)) with (z :: <[i := x]> l). cbn [sum_list_with]. lia.
Qed.

(** The part of the invariant that concerns traffic, for any kind of step. *)
Lemma budget_step (w sent : list Sent) (s s' : PresenceManager) (hs hs' : list Handler) :
  (∀ fw, (sent_about fw sent + may_send_all fw hs' + unseen fw s' ≤ may_send_all fw hs + unseen fw s)%nat) →
  (∀ fw, (sent_about fw w + may_send_all fw hs + unseen fw s ≤ budget fw)%nat) →
  ∀ fw, (sent_about fw (w ++ sent) + may_send_all fw hs' + unseen fw s' ≤ budget fw)%nat.
Proof. intros Hstep Hinv fw. specialize (Hstep fw). specialize (Hinv fw). rewrite sent_about_app. lia. Qed.

Lemma budget_aside (s s' : PresenceManager) (sent : list Sent) (hs : list Handler) :
  aside s s' sent → ∀ fw, (sent_about fw sent + may_send_all fw hs + unseen fw s' ≤ may_send_all fw hs + unseen fw s)%nat.
Proof. intros Ha fw. destruct (aside_about _ _ _ fw Ha). lia. Qed.

Lemma start_step_once (n : Node) (i : nat) (x : Starter) : once_ok n → once_ok (start_step n i x).
Proof.
  intros Hn. destruct n as [s h f d ts p a b k w], Hn as [Hs Hf Hd Ht Hw]. destruct x as [iv plain|tid|tid|ok]; cbn [start_step];
    try destruct (decide _); try done.
  - destruct (m_task _); [by split|]. split; [done..| |done]. cbn. by apply map_Forall_insert_2.
  - split; [|done..]. intros fw. specialize (Hs fw). unfold unseen in *. by destruct s.
  - split; [|done..| |done]; cbn; [|by apply signal_opt_ok]. intros fw. specialize (Hs fw). unfold unseen in *. by destruct s.
Qed.

Lemma stop_step_once (n : Node) (i : nat) (timeout : bool) (x : Stopper) : once_ok n → once_ok (stop_step n i timeout x).
Proof.
  intros Hn. destruct n as [s h f d ts p a b k w], Hn as [Hs Hf Hd Ht Hw]. destruct x as [| |tid| | |]; cbn [stop_step]; try done.
  - split; [|done..| |done]; cbn; [|by apply signal_opt_ok]. intros fw. specialize (Hs fw). unfold unseen in *. by destruct s.
  - destruct (decide _); [done|]. destruct (m_task _); [|by split].
    split; [|done..]. intros fw. specialize (Hs fw). unfold unseen in *. by destruct s.
  - cbn [tasks]. destruct (ts !! tid); [|by split]. destruct timeout; [|done]. split; [done..| |done]. by apply map_Forall_delete.
Qed.

Lemma task_step_once (n : Node) (tid : nat) (leave : bool) (rd : Reading) : once_ok n → once_ok (task_step n tid leave rd).
Proof.
  intros Hn. unfold task_step. destruct (tasks n !! tid) as [t|] eqn:Ht'; [|done].
  destruct n as [s h f d ts p a b k w], Hn as [Hs Hf Hd Ht Hw]. cbn [wire handlers mgr foafs finds tasks] in *.
  destruct (decide _); [split; [done..| |done]; by apply map_Forall_delete|].
  destruct leave.
  - destruct (tk_at t), (tk_stop t); try done. split; [done..| |done]; by apply map_Forall_delete.
  - destruct (beacon_step_aside rd s t) as [Hb Ha]; [exact (Ht _ _ Ht')|].
    destruct (beacon_step rd s t) as [[s' sent] t']. cbn [fst snd] in *. split; [|done..| |]; cbn [wire handlers mgr tasks].
    + eapply budget_step, Hs. by apply budget_aside.
    + by apply map_Forall_insert_2.
    + apply Forall_app_2; [done|]. by eapply aside_not_back.
Qed.

Lemma exec_once (n : Node) (o : Op) : keeps_q o → once_ok n → once_ok (exec n o).
Proof.
  intros Ho Hn. destruct o as [data rd|i rd|t ttl ms|i rd|u|i rd|iv plain|i| |i tm|tid lv rd|o].
  all: try (destruct n as [s h f d ts p a b k w]; cbn [exec]).
  all: try (destruct Hn as [Hs Hf Hd Ht Hw]; cbn [wire handlers mgr foafs finds tasks] in *).
  - destruct (receive_aside rd s data) as [Hx Hsn]. destruct (receive s data rd) as [s' x]. cbn [fst snd] in *.
    split; [|done..]. intros fw. specialize (Hs fw). cbn [wire handlers mgr]. unfold unseen, may_send_all in *.
    rewrite sum_list_with_app. cbn. rewrite Hx, Hsn. lia.
  - destruct (h !! i) as [x|] eqn:Hx; [|by split].
    destruct (handler_step_once rd s x) as [Hb Ha].
    destruct (handler_step rd s x) as [[s' sent] x']. cbn [fst snd] in *. split; [|done..|by apply Forall_app_2].
    eapply budget_step, Hs. intros fw. specialize (Ha fw). cbn. unfold may_send_all.
    pose proof (sum_list_with_insert (may_send fw) h i x' x Hx). lia.
  - split; [done| |done..]. by apply Forall_app_2; [|constructor].
  - destruct (f !! i) as [x|] eqn:Hx; [|by split].
    destruct (foaf_step_aside rd s x Ho) as [Hx' Ha]; [by eapply (Forall_lookup_1 foaf_other)|].
    destruct (foaf_step rd s x) as [[s' sent] x']. cbn [fst snd] in *. split; [|by apply Forall_insert|done..|].
    + eapply budget_step, Hs. by apply budget_aside.
    + apply Forall_app_2; [done|]. by eapply aside_not_back.
  - split; [done..| |done|done]. by apply Forall_app_2; [|constructor].
  - destruct (d !! i) as [x|] eqn:Hx; [|by split].
    destruct (find_step_aside rd s x Ho) as [Hx' Ha]; [by eapply (Forall_lookup_1 find_other)|].
    destruct (find_step rd s x) as [[s' sent] x']. cbn [fst snd] in *. split; [|done|by apply Forall_insert|done|].
    + eapply budget_step, Hs. by apply budget_aside.
    + apply Forall_app_2; [done|]. by eapply aside_not_back.
  - by split.
  - destruct (a !! i); [apply start_step_once|]; by split.
  - by split.
  - destruct (b !! i); [apply stop_step_once|]; by split.
  - apply task_step_once. by split.
  - split; [|done..]. pose proof (app_aside s o Ho) as Ha. intros fw. specialize (Hs fw).
    destruct (aside_about _ _ _ fw Ha) as [_ Hu]. cbn [mgr set_mgr wire handlers]. by rewrite Hu.
Qed.

(** A query is answered at most once and forwarded at most three times.
    Under every interleaving of a node's handlers, own queries, beacon tasks
    and application calls, as long as the identifier is not cleaned away and
    no query of the node's own draws it: over the whole run, however often
    copies of the query arrive and however they overlap, the node sends at
    most three queries and at most one answer that carry it, and none of the
    queries goes back to its origin. *)
Theorem query_served_once (s : PresenceManager) (os : list Op) :
  Forall keeps_q os →
  let n := run (boot s) os in
  (sent_about true (wire n) ≤ 3)%nat ∧ (sent_about false (wire n) ≤ 1)%nat
  ∧ ∀ x t ttl o, x ∈ wire n → sent_message x = Query q t ttl o → sent_to x ≠ o.
Proof.
  intros Hos n.
  assert (once_ok n) as [Hb _ _ _ Hw].
  { assert (once_ok (boot s)) as Hboot.
    { split; [|constructor|constructor|apply map_Forall_empty|constructor]. intros fw. cbn. unfold unseen. destruct (m_seen s !! q); lia. }
    subst n. revert Hboot. generalize (boot s). induction Hos as [|o os Ho Hos IH]; intros n Hn; [done|]. by apply IH, exec_once. }
  split; [specialize (Hb true); cbn in Hb; lia|]. split; [specialize (Hb false); cbn in Hb; lia|].
  intros x t ttl o Hx Hm. rewrite Forall_forall in Hw. specialize (Hw _ Hx). unfold not_back in Hw. rewrite Hm in Hw. by apply Hw.
Qed.
End QueryOnce.

(** ** From one node to another *)

Lemma sign_record_signed (k : MlDsaKeyPair) (r : PresenceRecord) :
  good_key k → signed_by (peer_id k) (sign_record (Some k) r) ∧ signer_pubkey (sign_record (Some k) r) ≠ []
    ∧ seq (sign_record (Some k) r) = seq r ∧ expires (sign_record (Some k) r) = expires r.
Proof.
  intros [Hpk Hsig]. destruct (Hsig (signable_bytes r)) as (sig & Hs & Hne & Hv). unfold sign_record. rewrite Hs. done.
Qed.

Lemma signed_validates (s : PresenceManager) (require : bool) (t : TopicId) (p : PeerId) (r : PresenceRecord) :
  is_Some (m_groups s !! t) → signed_by p r → signer_pubkey r ≠ [] → validate_presence_record s require t p r = true.
Proof.
  intros Hg (Hs & Hp & Hv) Hpk. unfold validate_presence_record.
  rewrite !bool_decide_true, decide_True, Hv by done. done.
Qed.

Lemma beacon_handled (s : PresenceManager) (data : list Z) (rd rd1 rd2 : Reading) (t : TopicId) (p : PeerId) (r : PresenceRecord) (e : Z) :
  decode_message data = Some (Beacon t p r e) →
  (check_rate_limit (m_limiter s) p (r_now rd) (r_later rd)).2 = true →
  validate_presence_record s (r_require_signed rd1) t p r = true →
  handle_presence_message s data rd [rd1; rd2] =
    (handle_beacon (set_limiter s (check_rate_limit (m_limiter s) p (r_now rd) (r_later rd)).1) t p r, [], Returned (Some p)).
Proof.
  intros Hd Hl Hv. unfold handle_presence_message, receive. rewrite Hd. cbn [rate_limit_peer].
  destruct (check_rate_limit _ _ _ _) as [l a]. cbn [fst snd] in *. subst a. cbn [dispatch handler_run finished handler_step].
  assert (validate_presence_record (set_limiter s l) (r_require_signed rd1) t p r = true) as ->
    by (unfold validate_presence_record in *; by destruct s). done.
Qed.

Lemma stored_status (s : PresenceManager) (t : TopicId) (p : PeerId) (r : PresenceRecord) (now : Z) :
  fresher (default r (topic_beacons s t !! p)) r = true ∨ topic_beacons s t !! p = None →
  get_status (handle_beacon s t p r) now p t = if decide (now < expires r) then Online else Offline.
Proof.
  intros Hf. pose proof (handle_beacon_lookup s t t p p r) as Hl. rewrite decide_True in Hl by done.
  assert (keep (topic_beacons s t !! p) r = r) as Hk.
  { unfold keep. destruct (topic_beacons s t !! p) as [e|]; [|done]. destruct Hf as [Hf|]; [|done]. cbn in Hf. by rewrite Hf. }
  rewrite Hk in Hl. unfold get_status. unfold topic_beacons in Hl.
  destruct (m_beacons (handle_beacon s t p r) !! t) as [tb|]; cbn in Hl; [|by rewrite lookup_empty in Hl]. rewrite Hl.
  unfold PresenceRec.is_expired. destruct (decide (now < expires r)); [rewrite bool_decide_false by lia|rewrite bool_decide_true by lia]; done.
Qed.

(** A beacon reaches the other side.  When the task of a node whose
    identifier is that of its signing key comes to a topic, four undisturbed
    steps later it has a message for the wire, and any node that joined the
    topic, whose rate limiter lets the sender through and which holds no
    beacon of it with this number or a higher one, answers that message with
    the sender's identifier and from then on reports the sender online until
    three intervals after the beacon was made, and offline after that. *)
Theorem beacon_delivered (k : MlDsaKeyPair) (a : PresenceManager) (t : Task) (topic : TopicId) (g : GroupContext)
    (todo : list (TopicId * GroupContext)) (rd1 rd2 rd3 rd4 : Reading) :
  (∀ m data, encode_message m = Some data → decode_message data = Some m) → (∀ m, is_Some (encode_message m)) → good_key k →
  m_identity a = Some k → m_peer_id a = peer_id k →
  tk_at t = Topics ((topic, g) :: todo) → is_Some (exporter_or_plaintext (tk_allow_plaintext t) g) →
  let '(a1, _, t1) := beacon_step rd1 a t in
  let '(a2, _, t2) := beacon_step rd2 a1 t1 in
  let '(a3, _, t3) := beacon_step rd3 a2 t2 in
  let '(a4, _, t4) := beacon_step rd4 a3 t3 in
  ∃ msg data, tk_at t4 = Encoded todo msg data ∧
    ∀ (b : PresenceManager) (rd rd' rd'' : Reading),
      is_Some (m_groups b !! topic) →
      (check_rate_limit (m_limiter b) (m_peer_id a) (r_now rd) (r_later rd)).2 = true →
      (∀ e, topic_beacons b topic !! m_peer_id a = Some e → seq e < m_seq a) →
      ∃ b', handle_presence_message b data rd [rd'; rd''] = (b', [], Returned (Some (m_peer_id a))) ∧
        ∀ now, get_status b' now (m_peer_id a) topic =
          if decide (now < u64_add (r_unix rd2) (u64_wrap (tk_interval t * 3))) then Online else Offline.
Proof.
  intros Hcodec Henc Hk Hid Hme Hat [secret Hsec].
  unfold beacon_step at 1. rewrite Hat, Hsec. cbn [fst snd task_at tk_at beacon_step tk_interval tk_allow_plaintext].
  set (r := build_record (m_four_words a) _ _ _ _ _).
  assert (m_identity (set_seq a (u64_add (m_seq a) 1)) = Some k) as -> by (by destruct a).
  set (r' := sign_record (Some k) r).
  destruct (sign_record_signed k r Hk) as (Hs & Hpk & Hseq & Hexp). fold r' in Hs, Hpk, Hseq, Hexp.
  assert (seq r = m_seq a ∧ expires r = u64_add (r_unix rd2) (u64_wrap (tk_interval t * 3))) as [Hr1 Hr2]
    by (subst r; unfold build_record; by destruct (m_four_words a)).
  match goal with |- context [Encoded todo (Beacon topic ?p r' ?e) _] => assert (p = m_peer_id a) as -> by (by destruct a) end.
  destruct (Henc (Beacon topic (m_peer_id a) r' (g_epoch g))) as [data Hdata]. rewrite Hdata. eexists _, data. split; [done|].
  intros b rd rd' rd'' Hg Hl Hold. eexists. split.
  - eapply beacon_handled; [by apply Hcodec|done|]. apply signed_validates; [done| |done]. by rewrite Hme.
  - intros now. rewrite <-Hr2, <-Hexp. apply stored_status.
    assert (∀ x, topic_beacons (set_limiter b x) topic = topic_beacons b topic) as -> by (intros; by destruct b).
    destruct (topic_beacons b topic !! m_peer_id a) as [e|] eqn:He; [left|by right].
    unfold fresher. rewrite bool_decide_true; [done|]. specialize (Hold e eq_refl). change (seq e < seq r'). lia.
Qed.
End Safety.
End PresenceProps.
