(* ===== verification/PresenceTasks.v ===== *)
(** * The life of the presence broadcast task

    Theorems on [start_beacons] and [stop_beacons] of [Presence] under every
    interleaving of their critical sections: how many tasks broadcast, and
    what a returned stop guarantees. *)

From S2P Require Import Prelude Types Identity Float64 Presence.
Import RateLimiter Group Identity Presence.

#[local] Open Scope Z_scope.

Module PresenceTasks.

Lemma elem_of_insert_other {A} (l : list A) (i : nat) (x y z : A) : x ∈ l → l !! i = Some y → x ≠ y → x ∈ <[i := z]> l.
Proof.
  intros [j Hj]%list_elem_of_lookup Hi Hne. apply list_elem_of_lookup. exists j.
  rewrite list_lookup_insert_ne; [done|]. intros ->. congruence.
Qed.

Lemma elem_of_insert_new {A} (l : list A) (i : nat) (y z : A) : l !! i = Some y → z ∈ <[i := z]> l.
Proof. intros Hi. apply list_elem_of_lookup. exists i. apply list_lookup_insert_eq. by eapply lookup_lt_Some. Qed.

Section Tasks.
Context `{Hashes} `{MlDsa} `{KeyedHash} `{PresenceWire}.
Context `{!HashIter PeerId PresenceRecord} `{!HashIter TopicId GroupContext} `{!SetIter PeerId}.

(** A start call between its check and its return holds the task it spawned. *)
Definition starting (n : Node) (tid : nat) : Prop := StartStore tid ∈ starters n ∨ StartShutdown tid ∈ starters n.

(** A task that has not been told to stop has a sender. *)
Definition owned (n : Node) : Prop :=
  ∀ tid t, tasks n !! tid = Some t → tk_stop t = false → m_shutdown (mgr n) = Some tid ∨ starting n tid.

Lemma signal_live (o : option nat) (ts : gmap nat Task) (tid : nat) (t : Task) :
  signal_opt o ts !! tid = Some t → tk_stop t = false → o ≠ Some tid ∧ ts !! tid = Some t.
Proof.
  destruct o as [tid'|]; [|done]. cbn [signal_opt]. unfold signal. destruct (decide (tid' = tid)) as [->|Hne].
  - rewrite lookup_alter_eq. intros (t0 & _ & ->)%fmap_Some_1. done.
  - rewrite lookup_alter_ne by done. intros Ht Hs. split; [congruence|done].
Qed.

Lemma beacon_step_frame (rd : Reading) (s : PresenceManager) (t : Task) :
  m_task (beacon_step rd s t).1.1 = m_task s ∧ m_shutdown (beacon_step rd s t).1.1 = m_shutdown s
  ∧ tk_stop (beacon_step rd s t).2 = tk_stop t.
Proof.
  destruct t as [iv plain ticks stop b]. unfold beacon_step.
  destruct b as [|[|[tp g] todo]|todo tp g tag hints|todo tp g r|todo tp g r|todo msg data|todo ps]; cbn [tk_at]; try (by destruct s).
  - unfold tick_done. destruct (decide _); by destruct s.
  - by destruct (exporter_or_plaintext _ _).
Qed.

Lemma handler_step_frame (rd : Reading) (s : PresenceManager) (h : Handler) :
  m_task (handler_step rd s h).1.1 = m_task s ∧ m_shutdown (handler_step rd s h).1.1 = m_shutdown s.
Proof.
  destruct h; cbn [handler_step]; try (by destruct s).
  - destruct (m_seen s !! q); by destruct s.
  - by destruct (query_forward _ _ _ _ _ _).
  - destruct (m_pending s !! q); [by destruct (decide _)|done].
  - destruct todo as [|pr todo]; [by destruct valid|]. destruct (PresenceRec.is_expired _ _); [done|]. by destruct (validate_presence_record _ _ _ _ _).
  - destruct (m_pending s !! q); [|done]. destruct (decide _); by destruct s.
  - destruct todo; [done|]. by destruct s.
Qed.

Lemma foaf_step_frame (rd : Reading) (s : PresenceManager) (f : Foaf) :
  m_task (foaf_step rd s f).1.1 = m_task s ∧ m_shutdown (foaf_step rd s f).1.1 = m_shutdown s.
Proof.
  destruct f; cbn [foaf_step]; try (by destruct s).
  - by destruct (if bool_decide _ then _ else _).
  - destruct (decide _); [|done]. destruct (m_pending s !! q); [by destruct (decide _)|done].
  - destruct (m_pending s !! q); by destruct s.
Qed.

Lemma find_step_frame (rd : Reading) (s : PresenceManager) (f : Find) :
  m_task (find_step rd s f).1.1 = m_task s ∧ m_shutdown (find_step rd s f).1.1 = m_shutdown s.
Proof.
  assert (∀ u g todo, let r := (let '(s', sent, g') := foaf_step rd s g in (s', sent, FindQuery u g' todo)) in
    m_task r.1.1 = m_task s ∧ m_shutdown r.1.1 = m_shutdown s) as Hq.
  { intros u g todo. pose proof (foaf_step_frame rd s g). by destruct (foaf_step rd s g) as [[s' sent] g']. }
  destruct f as [u|u g [|t todo]|u g todo|hs|]; cbn [find_step]; try done.
  - destruct (get_group_presence s t !! u); [by destruct (PresenceRec.is_expired _ _)|done].
  - destruct g; try apply Hq; [by destruct (find_user _ _ _)|done].
Qed.

Lemma app_frame (s : PresenceManager) (o : AppOp) : m_task (app s o) = m_task s ∧ m_shutdown (app s o) = m_shutdown s.
Proof.
  destruct o; cbn [app]; try (by destruct s). unfold add_addr_hint. destruct (decide _); by destruct s.
Qed.

(** The steps of a node that have nothing to do with the task. *)
Definition task_frame (n n' : Node) : Prop :=
  m_task (mgr n') = m_task (mgr n) ∧ m_shutdown (mgr n') = m_shutdown (mgr n)
  ∧ tasks n' = tasks n ∧ starters n' = starters n ∧ stoppers n' = stoppers n.

Definition concerns_task (o : Op) : bool :=
  match o with OStartCall _ _ | OStart _ | OStopCall | OStop _ _ | OTask _ _ _ => true | _ => false end.

Lemma exec_frame (n : Node) (o : Op) : concerns_task o = false → task_frame n (exec n o).
Proof.
  intros Ho. destruct n as [s h f d ts p a b k w]. unfold task_frame.
  destruct o as [data rd|i rd|t ttl ms|i rd|u|i rd|iv plain|i| |i tm|tid lv rd|o]; try done; cbn [exec].
  - unfold receive. destruct (decode_message data) as [m|]; [|done]. destruct (rate_limit_peer m); [|done].
    destruct (check_rate_limit _ _ _ _). by destruct s.
  - destruct (h !! i) as [x|]; [|done]. pose proof (handler_step_frame rd s x). destruct (handler_step rd s x) as [[s' sent] x'].
    cbn in *. tauto.
  - destruct (f !! i) as [x|]; [|done]. pose proof (foaf_step_frame rd s x). destruct (foaf_step rd s x) as [[s' sent] x'].
    cbn in *. tauto.
  - destruct (d !! i) as [x|]; [|done]. pose proof (find_step_frame rd s x). destruct (find_step rd s x) as [[s' sent] x'].
    cbn in *. tauto.
  - pose proof (app_frame s o). cbn in *. tauto.
Qed.

(** ** At most one task broadcasts *)

Lemma owned_frame (n n' : Node) : task_frame n n' → owned n → owned n'.
Proof.
  intros (_ & Hs & Ht & Ha & _) Ho tid t. unfold starting. rewrite Hs, Ht, Ha. apply Ho.
Qed.

Lemma starting_insert (n n' : Node) (i tid : nat) (x y : Starter) :
  starters n !! i = Some x → starters n' = <[i := y]> (starters n) →
  starting n tid → starting n' tid ∨ x = StartStore tid ∨ x = StartShutdown tid.
Proof.
  intros Hi Hn' [Hs|Hs]; unfold starting; rewrite Hn'.
  - destruct (decide (x = StartStore tid)) as [|Hne]; [auto|]. left; left. by eapply elem_of_insert_other.
  - destruct (decide (x = StartShutdown tid)) as [|Hne]; [auto|]. left; right. by eapply elem_of_insert_other.
Qed.

Lemma owned_start (n : Node) (i : nat) (x : Starter) : starters n !! i = Some x → owned n → owned (start_step n i x).
Proof.
  intros Hi Ho. destruct x as [iv plain|tid|tid|ok]; cbn [start_step]; [| | |done].
  - destruct (decide _); [done|]. destruct (m_task (mgr n)).
    + intros tid t Ht Hl. destruct (Ho tid t) as [|Hs]; [by destruct n..|left; by destruct n|right].
      destruct (starting_insert n (set_starters n (<[i := StartDone false]> (starters n))) i tid _ (StartDone false) Hi) as [|[|]]; try done. by destruct n.
    + set (n' := spawn _ _). intros tid t Ht Hl. destruct (decide (tid = next_task n)) as [->|Hne].
      * right. left. subst n'. destruct n; cbn in *. by eapply elem_of_insert_new.
      * destruct (Ho tid t) as [|Hs]; [subst n'; destruct n; cbn in *; by rewrite lookup_insert_ne in Ht|done|left; by destruct n|right].
        destruct (starting_insert n n' i tid _ (StartStore (next_task n)) Hi) as [|[|]]; try done. by destruct n.
  - destruct (decide _); [done|]. set (n' := set_starters _ _). intros tid' t Ht Hl.
    destruct (Ho tid' t) as [|Hs]; [by destruct n|done|left; destruct n as [[] ? ? ? ? ? ? ? ? ?]; done|right].
    destruct (starting_insert n n' i tid' _ (StartShutdown tid) Hi) as [|[[= ->]|]]; try done; [by destruct n|].
    right. subst n'. destruct n; cbn in *. by eapply elem_of_insert_new.
  - set (n' := set_starters _ _). intros tid' t Ht Hl.
    assert (m_shutdown (mgr n') = Some tid) as Hsd by (subst n'; by destruct n as [[] ? ? ? ? ? ? ? ? ?]).
    destruct (signal_live (m_shutdown (mgr n)) (tasks n) tid' t) as [Hne Ht']; [by destruct n|done|].
    destruct (Ho tid' t) as [|Hs]; [done..|].
    destruct (starting_insert n n' i tid' _ (StartDone true) Hi) as [|[|[= ->]]]; try done; [by destruct n|by right|by left].
Qed.

Lemma owned_exec (n : Node) (o : Op) : owned n → owned (exec n o).
Proof.
  intros Ho. destruct (concerns_task o) eqn:Hc; [|by eapply owned_frame, Ho; apply exec_frame].
  destruct o as [| | | | | |iv plain|i| |i tm|tid lv rd|]; try done.
  - intros tid t Ht Hl. destruct n as [s h f d ts p a b k w]. destruct (Ho tid t Ht Hl) as [|Hs]; [by left|right].
    unfold starting in *. cbn in *. set_solver.
  - assert (exec n (OStart i) = match starters n !! i with Some x => start_step n i x | None => n end) as -> by (by destruct n).
    destruct (starters n !! i) eqn:Hi; [by apply owned_start|done].
  - by destruct n.
  - assert (exec n (OStop i tm) = match stoppers n !! i with Some x => stop_step n i tm x | None => n end) as -> by (by destruct n).
    destruct (stoppers n !! i) as [x|]; [|done]. destruct x as [| |tid| | |]; cbn [stop_step]; try done.
    + intros tid t Ht Hl. destruct (signal_live (m_shutdown (mgr n)) (tasks n) tid t) as [Hne Ht']; [by destruct n|done|].
      destruct (Ho tid t) as [|Hs]; [done..|]. right. by destruct n.
    + destruct (decide _); [done|]. destruct (m_task (mgr n)); [|by destruct n].
      intros tid t Ht Hl. destruct (Ho tid t) as [|Hs]; [by destruct n|done|left; by destruct n as [[] ? ? ? ? ? ? ? ? ?]|right; by destruct n].
    + destruct (tasks n !! tid) as [t0|]; [|by destruct n]. destruct tm; [|done].
      intros tid' t Ht Hl. assert (tasks n !! tid' = Some t) as Ht'.
      { destruct n; cbn in *. by apply lookup_delete_Some in Ht as [_ Ht]. }
      destruct (Ho tid' t Ht' Hl); [left|right]; by destruct n.
  - destruct n as [s h f d ts p a b k w]. cbn [exec]. unfold task_step. cbn [tasks]. destruct (ts !! tid) as [t0|] eqn:Ht0; [|done].
    assert (∀ p', owned (mkNode s h f d (delete tid ts) p' a b k w)) as Hdel.
    { intros p' tid' t Ht Hl. cbn [tasks] in Ht. apply lookup_delete_Some in Ht as [_ Ht]. exact (Ho tid' t Ht Hl). }
    destruct (decide _); [done|]. destruct lv; [destruct (tk_at t0), (tk_stop t0); done|].
    pose proof (beacon_step_frame rd s t0) as (_ & Hsd & Hst). destruct (beacon_step rd s t0) as [[s' sent] t']. cbn [fst snd] in *.
    intros tid' t Ht Hl. cbn in Ht. apply lookup_insert_Some in Ht as [[<- <-]|[Hne Ht]].
    + destruct (Ho tid t0) as [|]; [done|congruence|left; cbn in *; congruence|by right].
    + destruct (Ho tid' t) as [|]; [done..|left; cbn in *; congruence|by right].
Qed.

Lemma owned_run (os : list Op) (n : Node) : owned n → owned (run n os).
Proof. revert n. induction os as [|o os IH]; intros n Ho; [done|]. by apply IH, owned_exec. Qed.

(** At most one task broadcasts.  Under every interleaving of starts,
    stops and everything else, whenever no start call is between its check and
    its return, at most one running task has not been told to stop, and it is
    the one whose sender the manager holds. *)
Theorem single_beaconer (s : PresenceManager) (os : list Op) :
  let n := run (boot s) os in
  (∀ tid, ~ starting n tid) →
  ∀ tid t, tasks n !! tid = Some t → tk_stop t = false → m_shutdown (mgr n) = Some tid.
Proof.
  intros n Hn tid t Ht Hl.
  assert (owned n) as Ho by (apply owned_run; intros ? ? Hx; cbn [boot tasks] in Hx; by apply lookup_empty_Some in Hx).
  destruct (Ho tid t Ht Hl) as [|Hs]; [done|]. by apply Hn in Hs.
Qed.

(** ** A returned stop *)

(** No start call is between its check and the store of its handle. *)
Definition no_storing (n : Node) : Prop := ∀ tid, ~ StartStore tid ∈ starters n.

(** Start calls check one at a time. *)
Definition serial_op (n : Node) (o : Op) : Prop :=
  match o with
  | OStart i => ∀ iv plain, starters n !! i = Some (StartBegin iv plain) → no_storing n
  | _ => True
  end.
Fixpoint serial (n : Node) (os : list Op) : Prop :=
  match os with
  | [] => True
  | o :: os => serial_op n o ∧ serial (exec n o) os
  end.

Record held (n : Node) : Prop := {
  he_task : ∀ tid, is_Some (tasks n !! tid) → m_task (mgr n) = Some tid ∨ StartStore tid ∈ starters n ∨ Joining tid ∈ stoppers n;
  he_storing : ∀ tid, StartStore tid ∈ starters n → m_task (mgr n) = None;
  he_one : ∀ i j a b, starters n !! i = Some (StartStore a) → starters n !! j = Some (StartStore b) → i = j;
  he_joining : ∀ tid, Joining tid ∈ stoppers n → m_task (mgr n) = None;
  he_lock : ∀ i j a b, stoppers n !! i = Some (Joining a) → stoppers n !! j = Some (Joining b) → i = j;
}.

Lemma not_locked (n : Node) : ~ task_locked n → ∀ tid, ~ Joining tid ∈ stoppers n.
Proof. intros Hn tid Hin. apply Hn, Exists_exists. by exists (Joining tid). Qed.

Lemma held_frame (n n' : Node) :
  m_task (mgr n') = m_task (mgr n) → (∀ tid, is_Some (tasks n' !! tid) → is_Some (tasks n !! tid)) →
  (∀ i tid, starters n' !! i = Some (StartStore tid) ↔ starters n !! i = Some (StartStore tid)) →
  (∀ i tid, stoppers n' !! i = Some (Joining tid) ↔ stoppers n !! i = Some (Joining tid)) →
  held n → held n'.
Proof.
  intros Hm Ht Ha Hb [H1' H2' H3' H4' H5'].
  assert (∀ tid, StartStore tid ∈ starters n' ↔ StartStore tid ∈ starters n) as Ha' by (intros; rewrite !list_elem_of_lookup; naive_solver).
  assert (∀ tid, Joining tid ∈ stoppers n' ↔ Joining tid ∈ stoppers n) as Hb' by (intros; rewrite !list_elem_of_lookup; naive_solver).
  split.
  - intros tid Hin. rewrite Hm, Ha', Hb'. by apply H1', Ht.
  - intros tid. rewrite Hm, Ha'. apply H2'.
  - intros i j x y. rewrite !Ha. apply H3'.
  - intros tid. rewrite Hm, Hb'. apply H4'.
  - intros i j x y. rewrite !Hb. apply H5'.
Qed.

(** A thread replaced, neither the old nor the new of the kind [K]. *)
Lemma lookup_insert_iff {A B} (K : B → A) (l : list A) (i : nat) (x z : A) :
  l !! i = Some x → (∀ b, x ≠ K b) → (∀ b, z ≠ K b) → ∀ j b, <[i := z]> l !! j = Some (K b) ↔ l !! j = Some (K b).
Proof.
  intros Hi Hx Hz j b. destruct (decide (i = j)) as [<-|]; [|by rewrite list_lookup_insert_ne].
  rewrite list_lookup_insert_eq, Hi by (by eapply lookup_lt_Some). split; intros He; injection He as He; [by destruct (Hz b)|by destruct (Hx b)].
Qed.

Lemma lookup_snoc_iff {A B} (K : B → A) (l : list A) (z : A) :
  (∀ b, z ≠ K b) → ∀ j b, (l ++ [z]) !! j = Some (K b) ↔ l !! j = Some (K b).
Proof.
  intros Hz j b. rewrite lookup_snoc_Some. split; [|intros Hl; left; split; [by eapply lookup_lt_Some|done]].
  intros [[_ ?]|[_ He]]; [done|]. by destruct (Hz b).
Qed.

Lemma signal_opt_is_Some (o : option nat) (ts : gmap nat Task) (tid : nat) : is_Some (signal_opt o ts !! tid) ↔ is_Some (ts !! tid).
Proof. destruct o as [tid'|]; [|done]. apply lookup_alter_is_Some. Qed.

Lemma held_start (n : Node) (i : nat) (x : Starter) :
  starters n !! i = Some x → ((∃ iv plain, x = StartBegin iv plain) → no_storing n) → held n → held (start_step n i x).
Proof.
  intros Hi Hser Hh. destruct x as [iv plain|tid|tid|ok]; cbn [start_step]; [| | |done].
  - specialize (Hser ltac:(eauto)). destruct (decide (task_locked n)) as [|Hfree]; [done|]. pose proof (not_locked n Hfree) as Hnj.
    destruct (m_task (mgr n)) eqn:Hm.
    + eapply held_frame, Hh; destruct n; cbn in *; try done. by apply lookup_insert_iff with (StartBegin iv plain).
    + destruct n as [s h f d ts p a b k w], Hh as [H1' H2' H3' H4' H5']. cbn [mgr tasks starters stoppers next_task set_starters spawn] in *.
      assert (∀ j t, <[i := StartStore k]> a !! j = Some (StartStore t) → j = i ∧ t = k) as Hins.
      { intros j t Hj. apply list_lookup_insert_Some in Hj as [(<- & [= ->] & _)|[_ Hj]]; [done|].
        exfalso. eapply Hser. by eapply list_elem_of_lookup_2. }
      split; cbn [mgr tasks starters stoppers]; [| | |by intros ? ?%Hnj|done].
      * intros t. rewrite lookup_insert_is_Some. intros [<-|[_ Ht]]; [right; left; by eapply elem_of_insert_new|].
        destruct (H1' t Ht) as [|[|]]; [congruence|exfalso; by eapply Hser|exfalso; by eapply Hnj].
      * done.
      * intros j j' t t' [-> _]%Hins [-> _]%Hins. done.
  - destruct (decide (task_locked n)) as [|Hfree]; [done|]. pose proof (not_locked n Hfree) as Hnj.
    destruct n as [s h f d ts p a b k w], Hh as [H1' H2' H3' H4' H5']. cbn [mgr tasks starters stoppers next_task set_starters set_mgr] in *.
    assert (m_task (set_task s (Some tid)) = Some tid) as Hm by (by destruct s).
    assert (∀ j t, <[i := StartShutdown tid]> a !! j = Some (StartStore t) → False) as Hins.
    { intros j t Hj. apply list_lookup_insert_Some in Hj as [(_ & ? & _)|[Hne Hj]]; [done|]. by apply Hne, (H3' i j tid t). }
    split; cbn [mgr tasks starters stoppers]; rewrite ?Hm; [| | |by intros ? ?%Hnj|done].
    + intros t Ht. left. destruct (H1' t Ht) as [Hx|[[j Hj]%list_elem_of_lookup|]]; [|by rewrite <-(H3' i j tid t Hi Hj) in Hj; congruence|exfalso; by eapply Hnj].
      rewrite (H2' tid) in Hx by (by eapply list_elem_of_lookup_2). done.
    + intros t [j Hj]%list_elem_of_lookup. by apply Hins in Hj.
    + intros j j' t t' Hj. by apply Hins in Hj.
  - eapply held_frame, Hh; destruct n as [s h f d ts p a b k w]; cbn in *; try done; [by destruct s|intros t; apply signal_opt_is_Some|].
    by apply lookup_insert_iff with (StartShutdown tid).
Qed.

Lemma held_stop (n : Node) (i : nat) (tm : bool) (x : Stopper) : stoppers n !! i = Some x → held n → held (stop_step n i tm x).
Proof.
  intros Hi Hh. destruct x as [| |tid| | |]; cbn [stop_step]; try done.
  - eapply held_frame, Hh; destruct n as [s h f d ts p a b k w]; cbn in *; try done; [by destruct s|intros t; apply signal_opt_is_Some|].
    by apply lookup_insert_iff with StopBegin.
  - destruct (decide (task_locked n)) as [|Hfree]; [done|]. pose proof (not_locked n Hfree) as Hnj. destruct (m_task (mgr n)) as [tid|] eqn:Hm.
    + destruct n as [s h f d ts p a b k w], Hh as [H1' H2' H3' H4' H5']. cbn [mgr tasks starters stoppers set_stoppers set_mgr] in *.
      assert (m_task (set_task s None) = None) as Hm' by (by destruct s).
      split; cbn [mgr tasks starters stoppers]; rewrite ?Hm'; [|done..|].
      * intros t Ht. destruct (H1' t Ht) as [Hx|[|]]; [|by right; left|exfalso; by eapply Hnj].
        assert (t = tid) as -> by congruence. right; right. by eapply elem_of_insert_new.
      * assert (∀ j t, <[i := Joining tid]> b !! j = Some (Joining t) → j = i) as Hins.
        { intros j t Hj. apply list_lookup_insert_Some in Hj as [(<- & _)|[_ Hj]]; [done|]. exfalso. eapply Hnj. by eapply list_elem_of_lookup_2. }
        intros j j' t t' ->%Hins ->%Hins. done.
    + eapply held_frame, Hh; destruct n; cbn in *; try done. by apply lookup_insert_iff with StopTake.
  - assert (∀ z, (∀ t, z ≠ Joining t) → ∀ ts', (∀ t, is_Some (ts' !! t) → is_Some (tasks n !! t) ∧ t ≠ tid) →
      held (set_stoppers (set_tasks n ts') (<[i := z]> (stoppers n)))) as Hret.
    { intros z Hz ts' Hts. destruct n as [s h f d ts p a b k w], Hh as [H1' H2' H3' H4' H5']. cbn [mgr tasks starters stoppers set_stoppers set_tasks] in *.
      assert (∀ j t, <[i := z]> b !! j = Some (Joining t) → False) as Hins.
      { intros j t Hj. apply list_lookup_insert_Some in Hj as [(_ & ? & _)|[Hne Hj]]; [by eapply Hz|]. by apply Hne, (H5' i j tid t). }
      split; cbn [mgr tasks starters stoppers]; [|done..| |].
      - intros t [Ht Hne]%Hts. destruct (H1' t Ht) as [|[|[j Hj]%list_elem_of_lookup]]; [by left|by right; left|].
        destruct Hne. rewrite <-(H5' i j tid t Hi Hj) in Hj. congruence.
      - intros t [j Hj]%list_elem_of_lookup. by apply Hins in Hj.
      - intros j j' t t' Hj. by apply Hins in Hj. }
    destruct (tasks n !! tid) as [t|] eqn:Ht.
    + destruct tm; [|done]. apply Hret; [done|]. intros t'. rewrite lookup_delete_is_Some. naive_solver.
    + assert (set_tasks n (tasks n) = n) as Hsame by (by destruct n). rewrite <-Hsame at 1. apply Hret; [by destruct (decide _)|].
      intros t' Hin. split; [done|]. intros ->. rewrite Ht in Hin. by destruct Hin.
Qed.

Lemma held_exec (n : Node) (o : Op) : serial_op n o → held n → held (exec n o).
Proof.
  intros Hs Hh. destruct (concerns_task o) eqn:Hc.
  2: { destruct (exec_frame n o Hc) as (Hm & _ & Ht & Ha & Hb). eapply held_frame, Hh; by rewrite ?Hm, ?Ht, ?Ha, ?Hb. }
  destruct o as [| | | | | |iv plain|i| |i tm|tid lv rd|]; try done.
  - eapply held_frame, Hh; destruct n; cbn; try done. by apply lookup_snoc_iff.
  - assert (exec n (OStart i) = match starters n !! i with Some x => start_step n i x | None => n end) as -> by (by destruct n).
    destruct (starters n !! i) eqn:Hi; [|done]. apply held_start; [done| |done]. intros (iv & plain & ->). by apply (Hs iv plain).
  - eapply held_frame, Hh; destruct n; cbn; try done. by apply lookup_snoc_iff.
  - assert (exec n (OStop i tm) = match stoppers n !! i with Some x => stop_step n i tm x | None => n end) as -> by (by destruct n).
    destruct (stoppers n !! i) as [x|] eqn:Hi; [|done]. by apply held_stop.
  - destruct n as [s h f d ts p a b k w]. cbn [exec]. unfold task_step. cbn [tasks]. destruct (ts !! tid) as [t0|] eqn:Ht0; [|done].
    assert (∀ p', held (mkNode s h f d (delete tid ts) p' a b k w)) as Hdel.
    { intros p'. eapply held_frame, Hh; try done. intros t. cbn [tasks]. rewrite lookup_delete_is_Some. tauto. }
    destruct (decide _); [done|]. destruct lv; [destruct (tk_at t0), (tk_stop t0); done|].
    pose proof (beacon_step_frame rd s t0) as (Hm & _ & _). destruct (beacon_step rd s t0) as [[s' sent] t']. cbn [fst snd] in *.
    eapply held_frame, Hh; cbn [mgr tasks starters stoppers]; try done.
    intros t. rewrite lookup_insert_is_Some. intros [<-|[]]; [by rewrite Ht0|done].
Qed.

Lemma held_run (os : list Op) (n : Node) : serial n os → held n → held (run n os).
Proof. revert n. induction os as [|o os IH]; intros n Hs Hh; [done|]. destruct Hs as [Ho Hs]. by apply IH, held_exec. Qed.

(** A stop call that returns from its wait. *)
Lemma stop_returns (n : Node) (i : nat) (timeout : bool) (tid : nat) :
  stoppers n !! i = Some (Joining tid) → stoppers (exec n (OStop i timeout)) !! i ≠ Some (Joining tid) →
  ∃ z, m_task (mgr (exec n (OStop i timeout))) = m_task (mgr n) ∧ starters (exec n (OStop i timeout)) = starters n
    ∧ (∀ t, z ≠ Joining t) ∧ stoppers (exec n (OStop i timeout)) = <[i := z]> (stoppers n).
Proof.
  destruct n as [s h f d ts p a b k w]. cbn [exec stoppers starters mgr]. intros Hi. rewrite Hi. cbn [stop_step tasks].
  intros Hret. destruct (ts !! tid); [destruct timeout|].
  - by exists StopTimeout.
  - by destruct Hret.
  - exists (if decide (tid ∈ p) then StopPanicked else StopOk). repeat split. intros t. by destruct (decide _).
Qed.

(** A stop that returns has stopped the task.  As long as start calls
    check one at a time (stops, handlers and everything else interleave
    freely), when a stop call that waits for a task returns, on success, after
    a panic or on its time-out, and no start call is about to store a handle,
    then no broadcast task runs any more. *)
Theorem stop_guarantee (s : PresenceManager) (os : list Op) (i : nat) (timeout : bool) (tid : nat) :
  m_task s = None → serial (boot s) os →
  let n := run (boot s) os in
  let n' := exec n (OStop i timeout) in
  stoppers n !! i = Some (Joining tid) → stoppers n' !! i ≠ Some (Joining tid) → no_storing n →
  tasks n' = ∅.
Proof.
  intros Hm Hser n n' Hi Hret Hns.
  assert (held n) as Hh.
  { apply held_run; [done|]. split; cbn [boot mgr tasks starters stoppers]; try done; [|set_solver..].
    intros t [x Hx]. by apply lookup_empty_Some in Hx. }
  assert (held n') as Hh' by (by apply held_exec).
  destruct (stop_returns n i timeout tid Hi Hret) as (z & Hm' & Hst & Hz & Hsp). fold n' in Hm', Hst, Hsp.
  rewrite (he_joining n Hh tid) in Hm' by (by eapply list_elem_of_lookup_2).
  apply map_empty. intros t. destruct (tasks n' !! t) as [tk|] eqn:Ht; [exfalso|done].
  destruct (he_task n' Hh' t ltac:(by eexists)) as [|[Hx|Hx]]; [congruence|rewrite Hst in Hx; by eapply Hns|].
  rewrite Hsp in Hx. apply list_elem_of_lookup in Hx as [j Hj].
  apply list_lookup_insert_Some in Hj as [(_ & He & _)|[Hne Hj]]; [by eapply Hz|]. by apply Hne, (he_lock n Hh i j tid t).
Qed.
End Tasks.
End PresenceTasks.
