(* ===== verification/PresenceWitness.v ===== *)
(** * Presence: concrete runs

    Two nodes with a toy hash, a toy signature and a codec by enumeration, and
    the runs that witness the theorems of [PresenceProps] and
    [PresenceTasks]; and the two behaviours that their hypotheses exclude. *)

From S2P Require Import Prelude Types Identity Float64 Presence PresenceProps PresenceTasks.
Import RateLimiter Group Identity Presence PresenceProps PresenceTasks.

#[local] Open Scope Z_scope.

Module PresenceWitness.

(** ** Instances *)

Definition toy_hash (l : list Z) : list Z := (λ z, z mod 256) <$> take 32 (l ++ replicate 32 0).

Lemma toy_hash_array (l : list Z) : is_array 32 (toy_hash l).
Proof.
  split.
  - unfold toy_hash. rewrite length_fmap, length_take, length_app, length_replicate. lia.
  - apply Forall_fmap, Forall_true. intros z. unfold is_byte. cbn. pose proof (Z.mod_pos_bound z 256). lia.
Qed.

#[local] Instance toy_hashes : Hashes :=
  {| blake3 := toy_hash; sha256 := toy_hash; blake3_array := toy_hash_array; sha256_array := toy_hash_array |}.

#[local] Instance toy_keyed : KeyedHash := {| blake3_keyed k m := toy_hash (k ++ m) |}.

#[local] Instance toy_crypto : MlDsa := {|
  pqc_generate r := Some ([r], [r]);
  pqc_secret_key := Some;
  pqc_public_key := Some;
  pqc_signature := Some;
  pqc_sign sk m := Some (1 :: m);
  pqc_verify pk m sig := Some (bool_decide (sig = 1 :: m));
|}.

(** Messages as tuples, enumerated. *)
Definition RecordTuple : Type := list Z * list string * Z * Z * Z * option string * list Z * list Z.
Definition to_tuple (r : PresenceRecord) : RecordTuple :=
  (presence_tag r, addr_hints r, since r, expires r, seq r, four_words r, signature r, signer_pubkey r).
Definition of_tuple (x : RecordTuple) : PresenceRecord :=
  let '(tag, hints, si, ex, n, fw, sig, pk) := x in mkPresence tag hints si ex n fw sig pk.

Definition MessageSum : Type :=
  (TopicId * PeerId * RecordTuple * Z) + (list Z * TopicId * Z * PeerId) + (list Z * TopicId * list (PeerId * RecordTuple)).
Definition to_sum (m : PresenceMessage) : MessageSum :=
  match m with
  | Beacon t p r e => inl (inl (t, p, to_tuple r, e))
  | Query q t ttl o => inl (inr (q, t, ttl, o))
  | QueryResponse q t rs => inr (q, t, (λ pr, (pr.1, to_tuple pr.2)) <$> rs)
  end.
Definition of_sum (m : MessageSum) : PresenceMessage :=
  match m with
  | inl (inl (t, p, r, e)) => Beacon t p (of_tuple r) e
  | inl (inr (q, t, ttl, o)) => Query q t ttl o
  | inr (q, t, rs) => QueryResponse q t ((λ pr, (pr.1, of_tuple pr.2)) <$> rs)
  end.

Lemma of_to_sum (m : PresenceMessage) : of_sum (to_sum m) = m.
Proof.
  destruct m as [t p r e|q t ttl o|q t rs]; cbn; [by destruct r|done|]. f_equal. rewrite <-list_fmap_compose.
  rewrite <-(list_fmap_id rs) at 2. apply list_fmap_ext. intros i [p []] _. done.
Qed.

#[local] Instance toy_wire : PresenceWire := {|
  encode_signable x := Some [Zpos (encode x)];
  encode_message m := Some [Zpos (encode (to_sum m))];
  decode_message data :=
    match data with
    | [Zpos n] => of_sum <$> decode n
    | _ => None
    end;
|}.

Lemma toy_codec (m : PresenceMessage) (data : list Z) : encode_message m = Some data → decode_message data = Some m.
Proof. intros [= <-]. cbn. rewrite decode_encode. cbn. by rewrite of_to_sum. Qed.

#[local] Instance records_iter : HashIter PeerId PresenceRecord := canonical_iter.
#[local] Instance groups_iter : HashIter TopicId GroupContext := canonical_iter.
#[local] Instance peers_iter : SetIter PeerId := canonical_siter.

(** ** Two nodes *)

Definition key : MlDsaKeyPair := mkKeyPair [7; 7] [9].
Definition alice : PeerId := peer_id key.
Definition bob : PeerId := mkPeerId [2].
Definition carol : PeerId := mkPeerId [3].
Definition topic : TopicId := mkTopicId [5].
Definition joined : gmap TopicId GroupContext := {[topic := Group.new topic]}.

Lemma key_good : good_key key.
Proof. split; [done|]. intros m. exists (1 :: m). split; [done|]. split; [done|]. cbn. by rewrite bool_decide_true. Qed.

(** A reading at a second of the day; signatures are required. *)
Definition at_second (t : Z) : Reading := mkReading (t * NANOS_PER_SEC) (t * NANOS_PER_SEC) t true [0; 0; 0]%nat [42] ∅.

Definition alice0 : PresenceManager := new_with_identity alice joined None key.
Definition bob0 : PresenceManager := new_with_four_words bob joined None.
Definition ticking : Task := mkTask 300 true 0 false (Topics [(topic, Group.new topic)]).

Lemma beacon_delivered_witness :
  (check_rate_limit (m_limiter bob0) (m_peer_id alice0) 0 0).2 = true ∧
  let '(a1, _, t1) := beacon_step (at_second 1000) alice0 ticking in
  let '(a2, _, t2) := beacon_step (at_second 1000) a1 t1 in
  let '(a3, _, t3) := beacon_step (at_second 1000) a2 t2 in
  let '(a4, _, t4) := beacon_step (at_second 1000) a3 t3 in
  ∃ msg data, tk_at t4 = Encoded [] msg data ∧
    ∀ (b : PresenceManager) (rd rd' rd'' : Reading),
      is_Some (m_groups b !! topic) →
      (check_rate_limit (m_limiter b) (m_peer_id alice0) (r_now rd) (r_later rd)).2 = true →
      (∀ e, topic_beacons b topic !! m_peer_id alice0 = Some e → seq e < m_seq alice0) →
      ∃ b', handle_presence_message b data rd [rd'; rd''] = (b', [], Returned (Some (m_peer_id alice0))) ∧
        ∀ now, get_status b' now (m_peer_id alice0) topic =
          if decide (now < u64_add 1000 (u64_wrap (300 * 3))) then Online else Offline.
Proof.
  split; [vm_compute; reflexivity|].
  apply (beacon_delivered key alice0 ticking topic (Group.new topic) [] (at_second 1000) (at_second 1000) (at_second 1000) (at_second 1000));
    [apply toy_codec|by eexists|apply key_good|done|done|done|by eexists].
Defined.

(** ** Which beacon survives *)

Definition beacon_at (t n : Z) : PresenceRecord := sign_record (Some key) (build_record None t [1] ["a:1"%string] 900 n).
Definition arrivals : list Arrival := [(topic, alice, beacon_at 1600 2); (topic, alice, beacon_at 1000 0); (topic, alice, beacon_at 1300 1)].
Definition in_order : list Arrival := [(topic, alice, beacon_at 1000 0); (topic, alice, beacon_at 1300 1); (topic, alice, beacon_at 1600 2)].

Lemma arrivals_one_life (t : TopicId) (p : PeerId) : one_life (records_of arrivals t p).
Proof.
  assert (∀ r, r ∈ records_of arrivals t p → r = beacon_at 1600 2 ∨ r = beacon_at 1000 0 ∨ r = beacon_at 1300 1) as Hr.
  { intros r (e & -> & [_ He]%list_elem_of_filter)%list_elem_of_fmap. unfold arrivals in He. rewrite !elem_of_cons in He.
    destruct He as [->|[->|[->|He%elem_of_nil]]]; auto; done. }
  intros r r' [->|[->| ->]]%Hr [->|[->| ->]]%Hr; vm_compute; intuition congruence.
Qed.

Lemma beacons_converge_witness :
  topic_beacons (deliver bob0 arrivals) topic !! alice = Some (beacon_at 1600 2) ∧
  topic_beacons (deliver bob0 arrivals) topic !! alice = topic_beacons (deliver bob0 in_order) topic !! alice.
Proof.
  split; [vm_compute; reflexivity|].
  apply (beacons_converge bob0 arrivals in_order topic alice).
  - reflexivity.
  - unfold arrivals, in_order. rewrite (Permutation_cons_append _ (topic, alice, beacon_at 1600 2)). done.
  - apply arrivals_one_life.
Defined.

(** Two lives: after a restart the numbers begin again.  The first beacon of
    the new life is accepted, and a delayed one of the old life, even an
    expired one, displaces it again. *)
Lemma old_life_displaces :
  topic_beacons (deliver bob0 [(topic, alice, beacon_at 1000 100); (topic, alice, beacon_at 5000 0)]) topic !! alice = Some (beacon_at 5000 0) ∧
  (let b := deliver bob0 [(topic, alice, beacon_at 1000 100); (topic, alice, beacon_at 5000 0); (topic, alice, beacon_at 1000 100)] in
   topic_beacons b topic !! alice = Some (beacon_at 1000 100) ∧ get_status b 5001 alice topic = Offline).
Proof. vm_compute. done. Qed.

(** ** Authenticity *)

Definition bytes_of (m : PresenceMessage) : list Z := default [] (encode_message m).
Definition forged : PresenceMessage := Beacon topic carol (beacon_at 1000 0) 0.
Definition genuine : PresenceMessage := Beacon topic alice (beacon_at 1000 0) 0.
Definition received : list Op :=
  [OReceive (bytes_of forged) (at_second 0); OReceive (bytes_of genuine) (at_second 0);
   OHandler 1 (at_second 1); OHandler 0 (at_second 1); OHandler 0 (at_second 1); OHandler 1 (at_second 1)].
Definition bob1 : Node := run (boot bob0) received.

(** Then the node's own task makes a beacon, and the application stores one
    for [carol] that nobody signed. *)
Definition unsigned : PresenceRecord := build_record None 1000 [1] [] 900 0.
Definition own_and_handed : list Op :=
  [OStartCall 300 true; OStart 0; OStart 0; OStart 0] ++ replicate 5 (OTask 0 false (at_second 2)) ++ [OApp (HandleBeacon topic carol unsigned)].
Definition bob2 : Node := run (boot bob0) (received ++ own_and_handed).

Lemma presence_authentic_witness :
  (topic_beacons (mgr bob2) topic !! alice = Some (beacon_at 1000 0) ∧ is_Some (topic_beacons (mgr bob2) topic !! bob) ∧
   topic_beacons (mgr bob2) topic !! carol = Some unsigned ∧ topic_beacons (mgr bob1) topic !! carol = None) ∧
  (∀ t p r, topic_beacons (mgr bob2) t !! p = Some r →
    (t ∈ ({[topic]} : gset TopicId) ∧ signed_by p r) ∨
    (t ∈ ({[topic]} : gset TopicId) ∧ p = bob ∧ beaconed bob0 (received ++ own_and_handed) t r) ∨
    OApp (HandleBeacon t p r) ∈ received ++ own_and_handed).
Proof.
  split; [split_and!; [vm_compute; reflexivity|vm_compute; by eexists|vm_compute; reflexivity..]|].
  apply (presence_authentic bob {[topic]} None None joined (received ++ own_and_handed)).
  - unfold joined. rewrite dom_singleton_L. done.
  - repeat constructor.
Defined.

(** ** Queries *)

Definition walk_id : list Z := [9].
Definition walk : PresenceMessage := Query walk_id topic 3 carol.
Definition copies : list Op :=
  [OApp (AddPeer (mkPeerId [11])); OApp (AddPeer (mkPeerId [12])); OApp (AddPeer (mkPeerId [13])); OApp (AddPeer (mkPeerId [14]));
   OReceive (bytes_of walk) (at_second 0); OReceive (bytes_of walk) (at_second 0);
   OHandler 0 (at_second 1); OHandler 1 (at_second 1); OHandler 0 (at_second 1); OHandler 0 (at_second 1); OHandler 1 (at_second 1)].

Lemma query_served_once_witness :
  sent_about walk_id true (wire (run (boot (mgr bob1)) copies)) = 3%nat ∧
  sent_about walk_id false (wire (run (boot (mgr bob1)) copies)) = 1%nat ∧
  (sent_about walk_id true (wire (run (boot (mgr bob1)) copies)) ≤ 3)%nat.
Proof.
  split; [vm_compute; reflexivity|]. split; [vm_compute; reflexivity|].
  refine (proj1 (query_served_once walk_id (mgr bob1) copies _)). repeat constructor.
Defined.

(** ** The task *)

Definition quick : Reading := at_second 0.
(** Two start calls overlap; the second's sender replaces the first's. *)
Definition overlap : list Op :=
  [OStartCall 300 true; OStartCall 300 true; OStart 0; OStart 1; OStart 0; OStart 1; OStart 1; OStart 0].

Lemma single_beaconer_witness :
  size (tasks (run (boot bob0) overlap)) = 2%nat ∧
  ∀ tid t, tasks (run (boot bob0) overlap) !! tid = Some t → tk_stop t = false → m_shutdown (mgr (run (boot bob0) overlap)) = Some tid.
Proof.
  split; [vm_compute; reflexivity|].
  apply (single_beaconer bob0 overlap). intros tid. unfold starting.
  replace (starters (run (boot bob0) overlap)) with [StartDone true; StartDone true] by (vm_compute; reflexivity).
  intros [Hs|Hs]; rewrite !elem_of_cons in Hs; destruct Hs as [|[|Hs%elem_of_nil]]; done.
Defined.

(** One start, a stop that has to abort the task in the middle of a tick. *)
Definition stopping : list Op :=
  [OStartCall 300 true; OStart 0; OStart 0; OStart 0; OTask 0 false quick; OStopCall; OStop 0 false; OStop 0 false].

Lemma stop_guarantee_witness :
  size (tasks (run (boot bob0) stopping)) = 1%nat ∧ tasks (exec (run (boot bob0) stopping) (OStop 0 true)) = ∅.
Proof.
  split; [vm_compute; reflexivity|].
  apply (stop_guarantee bob0 stopping 0 true 0); [done| |vm_compute; reflexivity|vm_compute; done|].
  - cbn [serial stopping serial_op]. repeat split. all: intros iv plain Hs tid Hin; vm_compute in Hs; try done.
    apply list_elem_of_lookup in Hin as [[|[|j]] Hj]; vm_compute in Hj; done.
  - intros tid. replace (starters (run (boot bob0) stopping)) with [StartDone true] by (vm_compute; reflexivity).
    intros Hs. by apply list_elem_of_singleton in Hs.
Defined.

(** Overlapping starts: the stop joins the task whose sender was dropped and
    returns, while the other is still in the middle of its tick. *)
Definition detached : list Op :=
  overlap ++ [OTask 0 false quick; OStopCall; OStop 0 false; OStop 0 false; OTask 1 true quick; OStop 0 false].

Lemma overlapping_starts_outlive_stop :
  stoppers (run (boot bob0) detached) = [StopOk] ∧ size (tasks (run (boot bob0) detached)) = 1%nat.
Proof. vm_compute. done. Qed.

(** A zero interval: the start succeeds, the task panics, no beacon is ever
    sent, and a new start is refused. *)
Definition zero_interval : list Op :=
  [OStartCall 0 true; OStart 0; OStart 0; OStart 0; OTask 0 false quick; OStartCall 300 true; OStart 1].

Lemma zero_interval_panics :
  starters (run (boot bob0) zero_interval) = [StartDone true; StartDone false] ∧ size (tasks (run (boot bob0) zero_interval)) = 0%nat.
Proof. vm_compute. done. Qed.
End PresenceWitness.
