(* ===== verification/Plumtree.v ===== *)
(** * The Plumtree handlers ([crates/pubsub/src/lib.rs]: publish, EAGER, IHAVE,
      IWANT, anti-entropy)

    One topic of a node: its state with all the parts that the other files
    model (mesh, queues, cache, replies), the IWANT claims, the payload replay
    cache and the late offers; each handler cut into the critical sections it
    runs under the topic's write lock.

    The topic is one that is not registered with the legacy migration policy,
    for which that policy admits everything.  A section reads the clock once.
    [verdict] is the topic's validator, or constantly [ForwardAndDeliver] when
    none is registered.  Sending is what the transport is asked to do: which
    targets a frame really reaches is a choice of the step.  Counters for
    diagnostics and the observations that only feed [peer_scoring] are left
    out. *)

From S2P Require Import Prelude Types Identity Float64 PeerTiming MessageCache TopicMesh Announce EagerReply.
Import Identity F64 Timing MessageCache TopicMesh Announce EagerReply.

#[local] Open Scope Z_scope.

(** [LruCache::put]: the entry becomes the most recent, and the least recent
    one leaves when the cache was full. *)
Class LruPut (K V : Type) `{!EqDecision K} := {
  put_cache :: LruCache K V;
  lru_put : lru → K → V → lru;
  lru_put_spec (c : lru) (k : K) (v : V) :
    lru_cap (lru_put c k v) = lru_cap c ∧
    (0 < lru_cap c → Z.of_nat (length (lru_iter c)) ≤ lru_cap c →
     lru_iter (lru_put c k v) = take (Z.to_nat (lru_cap c)) ((k, v) :: without k (lru_iter c)));
}.

Module Plumtree.

Definition REPLAY_CACHE_MAX_ENTRIES : Z := 10000.
Definition REPLAY_CACHE_TTL : Z := 300 * NANOS_PER_SEC.
Definition MAX_DEFERRED_IWANT_IDS : nat := MAX_IHAVE_BATCH_SIZE.
Definition MAX_LATE_LOCAL_OFFERS : nat := MAX_IHAVE_BATCH_SIZE.
Definition ZERO_FANOUT_WARN_INTERVAL : Z := 60 * NANOS_PER_SEC.
Definition ZERO_TAIL_FORWARD_LIMIT : nat := 512.
Definition ZERO_WINDOW_FORWARD_LIMIT : nat := 1024.

Record GossipMessage := mkGossip {
  gm_header : MessageHeader;
  gm_payload : option (list Z);
  gm_signature : list Z;
  gm_public_key : list Z;
}.

Record PubSubCacheConfig := mkCacheConfig {
  max_messages_per_topic : Z;
  max_bytes_per_topic : Z;
  cfg_max_age : Z;
}.
Definition default_cache_config : PubSubCacheConfig := mkCacheConfig 2048 (16 * 1024 * 1024) (60 * NANOS_PER_SEC).

Inductive ValidationAction := ForwardAndDeliver | DeliverOnly | DropMessage | LazyForward.
#[global] Instance action_eq_dec : EqDecision ValidationAction.
Proof. solve_decision. Defined.

Inductive SignaturePolicy := AcceptV1 | RejectV1.
#[global] Instance policy_eq_dec : EqDecision SignaturePolicy.
Proof. solve_decision. Defined.

(** ** The laundering guard on payloads *)

Fixpoint take_while {A} (p : A → bool) (l : list A) : list A :=
  match l with
  | [] => []
  | x :: l => if p x then x :: take_while p l else []
  end.
Definition payload_zero_tail (p : list Z) : nat := length (take_while (λ b, bool_decide (b = 0)) (rev p)).

(** The loop stops once the limit is exceeded. *)
Fixpoint zero_run_from (p : list Z) (longest run : nat) : nat :=
  match p with
  | [] => longest
  | b :: p =>
      if decide (b = 0) then
        let run := S run in
        if decide (longest < run)%nat then
          if decide (ZERO_WINDOW_FORWARD_LIMIT < run)%nat then run else zero_run_from p run run
        else zero_run_from p longest run
      else zero_run_from p longest 0
  end.
Definition payload_longest_zero_run (p : list Z) : nat := zero_run_from p 0 0.

Definition forwardable_payload (p : list Z) : bool :=
  bool_decide (payload_zero_tail p ≤ ZERO_TAIL_FORWARD_LIMIT)%nat &&
  bool_decide (payload_longest_zero_run p ≤ ZERO_WINDOW_FORWARD_LIMIT)%nat.

(** ** IWANT claims and late offers *)

Record OutstandingIwant := mkIwant {
  ow_peer : PeerId;
  ow_requested_at : Z;
  ow_retry_pending : bool;
  ow_failures : Z;
  ow_retry_not_before : option Z;
}.

Definition iwant_retry_backoff (failures : Z) : Z :=
  Z.shiftl 1 (Z.max 1 (Z.min failures 5) - 1) * NANOS_PER_SEC.

Record DeferredIwant := mkDeferredIwant {
  di_peer : PeerId;
  di_msg_ids : list MessageIdType;
  di_requested_at : Z;
}.

Notation OfferKey := (Z * MessageIdType)%type.
Record LateLocalOffer := mkOffer {
  lo_cutoff : Z;
  lo_cursor : option OfferKey;
  lo_failures : Z;
  lo_next_attempt : option Z;
}.

Record PayloadReplayEntry := mkReplay { rp_inserted_at : Z; rp_refused : bool }.


Section Plumtree.
Context `{Hashes} `{WireFormat} `{MlDsa} `{Libm} `{!SetIter PeerId}.
Context `{!LruCache MessageIdType CachedEntry} `{!LruPut MessageIdType PayloadReplayEntry}.
Context (policy : SignaturePolicy) (verdict : list Z → ValidationAction) (key : MlDsaKeyPair) (me : PeerId).

(** ** Signatures *)

Definition sign_message (h : MessageHeader) : list Z := default [] (sign key (serialize h)).

Definition verify_signature (h : MessageHeader) (signature public_key : list Z) : bool :=
  match verify public_key (serialize h) signature with Some valid => valid | None => false end.

Definition verify_payload_covering_signature (m : GossipMessage) : bool :=
  match payload_hash (gm_header m) with
  | Some expected => bool_decide (blake3 (default [] (gm_payload m)) = expected)
  | None => negb (bool_decide (policy = RejectV1))
  end.

Definition verify_message_signature (m : GossipMessage) : bool :=
  match version (gm_header m), payload_hash (gm_header m) with
  | 1, None | 2, Some _ =>
      verify_signature (gm_header m) (gm_signature m) (gm_public_key m) && verify_payload_covering_signature m
  | _, _ => false
  end.

Definition msg_id_after_local_sign (signature : list Z) (id : MessageIdType) : option MessageIdType :=
  match signature with [] => None | _ => Some id end.

Definition calculate_msg_id (t : TopicId) (epoch : Z) (p : list Z) : MessageIdType :=
  Header.calculate_msg_id t epoch me (blake3 p).

(** A frame this node signs: header version 2 over the payload. *)
Definition signed_frame (t : TopicId) (id : MessageIdType) (k : MessageKind) (ttl : Z) (p : list Z) : GossipMessage :=
  let h := Header.seal_payload_hash (mkHeader 1 t id k 0 ttl None) (Some p) in
  mkGossip h (Some p) (sign_message h) (public_key key).

(** A cached message, signed again by this node. *)
Definition serve_frame (c : CachedMessage) : GossipMessage :=
  mkGossip (header c) (Some (payload c)) (sign_message (header c)) (public_key key).

(** ** The state of the topic *)

Record TopicState := mkState {
  core : Topic;
  late_local_offers : gmap PeerId LateLocalOffer;
  outstanding_iwants : gmap MessageIdType OutstandingIwant;
  deferred_iwants : list DeferredIwant;
  replay_cache : lru (K := MessageIdType) (V := PayloadReplayEntry);
  last_activity : Z;
  zero_fanout_publishes : Z;
  last_zero_fanout_warn : option Z;
}.

Definition set_core (s : TopicState) (x : Topic) : TopicState :=
  let 'mkState _ o w d r a z l := s in mkState x o w d r a z l.
Definition set_offers (s : TopicState) (x : gmap PeerId LateLocalOffer) : TopicState :=
  let 'mkState c _ w d r a z l := s in mkState c x w d r a z l.
Definition set_iwants (s : TopicState) (x : gmap MessageIdType OutstandingIwant) : TopicState :=
  let 'mkState c o _ d r a z l := s in mkState c o x d r a z l.
Definition set_deferred (s : TopicState) (x : list DeferredIwant) : TopicState :=
  let 'mkState c o w _ r a z l := s in mkState c o w x r a z l.
Definition set_replay (s : TopicState) (x : lru (K := MessageIdType) (V := PayloadReplayEntry)) : TopicState :=
  let 'mkState c o w d _ a z l := s in mkState c o w d x a z l.
Definition touch (s : TopicState) (now : Z) : TopicState :=
  let 'mkState c o w d r _ z l := s in mkState c o w d r now z l.

Definition state_new (c : BoundedMessageCache) (configured : nat) (now : Z) : TopicState :=
  mkState (mkTopic (mesh_new configured) queues_new c [] ∅) ∅ ∅ [] (lru_new REPLAY_CACHE_MAX_ENTRIES) now 0 None.

Definition set_core_mesh (s : TopicState) (m : TopicMesh) : TopicState := set_core s (set_mesh (core s) m).
Definition set_queues (s : TopicState) (q : Queues) : TopicState :=
  set_core s (mkTopic (mesh (core s)) q (cache (core s)) (deferred_eager_replies (core s)) (eager_reply_claims (core s))).
Definition set_cache (s : TopicState) (c : BoundedMessageCache) : TopicState :=
  set_core s (mkTopic (mesh (core s)) (queues (core s)) c (deferred_eager_replies (core s)) (eager_reply_claims (core s))).

Definition has_message (s : TopicState) (id : MessageIdType) : bool := contains (cache (core s)) id.
Definition cached_message_ids (s : TopicState) : list MessageIdType := ids (cache (core s)).
Definition mark_message_dropped (s : TopicState) (id : MessageIdType) : TopicState :=
  set_cache s (mark_dropped (cache (core s)) id).1.

Definition is_idle (s : TopicState) (now ttl : Z) : bool :=
  bool_decide (ttl < elapsed_ns now (last_activity s)) && negb (has_live_subscribers (mesh (core s))).

Definition record_zero_fanout_publish_at (s : TopicState) (now : Z) : TopicState * bool :=
  let due := match last_zero_fanout_warn s with
             | None => true
             | Some last => bool_decide (ZERO_FANOUT_WARN_INTERVAL ≤ elapsed_ns now last)
             end in
  let 'mkState c o w d r a z l := s in
  (mkState c o w d r a (u64_sat_add z 1) (if due then Some now else l), due).

(** ** Payload replays *)

Definition is_payload_replay (s : TopicState) (p : list Z) (now : Z) : TopicState * bool :=
  let s := touch s now in
  let k := blake3 p in
  let '(l, e) := lru_get (replay_cache s) k in
  let live := match e with Some e => bool_decide (elapsed_ns now (rp_inserted_at e) < REPLAY_CACHE_TTL) | None => false end in
  if live then (set_replay s l, true) else (set_replay s (lru_put l k (mkReplay now false)), false).

Definition refuse_payload_replays (s : TopicState) (p : list Z) : TopicState :=
  set_replay s (lru_get_mut (replay_cache s) (blake3 p) (λ e, mkReplay (rp_inserted_at e) true)).1.

Definition payload_replay_was_refused (s : TopicState) (p : list Z) : TopicState * bool :=
  let '(l, e) := lru_get (replay_cache s) (blake3 p) in
  (set_replay s l, match e with Some e => rp_refused e | None => false end).

(** ** Deferred IWANTs *)

Definition iwant_recent (now age : Z) (e : OutstandingIwant) : bool := bool_decide (elapsed_ns now (ow_requested_at e) < age).
Definition still_pending (m : gmap MessageIdType OutstandingIwant) (peer : PeerId) (id : MessageIdType) : bool :=
  match m !! id with Some e => ow_retry_pending e && bool_decide (ow_peer e = peer) | None => false end.

Definition prune_deferred_iwants (s : TopicState) (now : Z) : TopicState :=
  let age := max_age (cache (core s)) in
  let kept := filter (λ kv, iwant_recent now age kv.2 = true) (outstanding_iwants s) in
  set_deferred (set_iwants s kept)
    (filter (λ d, elapsed_ns now (di_requested_at d) < age ∧ existsb (still_pending kept (di_peer d)) (di_msg_ids d) = true)
      (deferred_iwants s)).

Definition same_request (peer : PeerId) (ids : list MessageIdType) (d : DeferredIwant) : bool :=
  bool_decide (di_peer d = peer) && bool_decide (di_msg_ids d = ids).

Definition retain_deferred_iwant (s : TopicState) (peer : PeerId) (ids : list MessageIdType) (now : Z) : TopicState * bool :=
  let s := prune_deferred_iwants s now in
  if existsb (same_request peer ids) (deferred_iwants s) then (s, true)
  else if decide (MAX_DEFERRED_IWANT_IDS < sum_list_with (λ d, length (di_msg_ids d)) (deferred_iwants s) + length ids)%nat
  then (s, false)
  else (set_deferred s (deferred_iwants s ++ [mkDeferredIwant peer ids now]), true).

(** ** Late local offers: a peer that joins late is offered what this node
    published, page by page in the order of insertion *)

Definition prune_late_local_offers (s : TopicState) (now : Z) : TopicState :=
  set_offers s (filter (λ po, elapsed_ns now (lo_cutoff po.2) < max_age (cache (core s))) (late_local_offers s)).

Definition queue_late_local_offer (s : TopicState) (peer : PeerId) (now : Z) : TopicState :=
  let s := set_cache s (prune_expired_at (cache (core s)) now) in
  let s := prune_late_local_offers s now in
  if has_live_local_origin (cache (core s)) then
    match late_local_offers s !! peer with
    | Some _ => s
    | None =>
        if decide (MAX_LATE_LOCAL_OFFERS ≤ size (late_local_offers s))%nat then s
        else set_offers s (<[peer := mkOffer now None 0 None]> (late_local_offers s))
    end
  else s.

Definition late_local_offer_backoff (failures : Z) : Z := Z.shiftl 1 (Z.max 1 (Z.min failures 5) - 1) * NANOS_PER_SEC.

(** The order of the keys: insertion time, then identifier bytes. *)
Definition key_lt (a b : OfferKey) : bool :=
  bool_decide (a.1 < b.1) || bool_decide (a.1 = b.1) && match bytes_compare a.2 b.2 with Lt => true | _ => false end.

Definition offered (o : LateLocalOffer) (kv : MessageIdType * CachedEntry) : bool :=
  local_origin (message kv.2) && negb (dropped (message kv.2)) && bool_decide (inserted_at kv.2 ≤ lo_cutoff o)
  && match lo_cursor o with None => true | Some c => key_lt c (inserted_at kv.2, kv.1) end.

Definition late_local_offer_keys (s : TopicState) (peer : PeerId) (now : Z) : TopicState * option (list OfferKey) :=
  match late_local_offers s !! peer with
  | None => (s, None)
  | Some o =>
      let s := set_cache s (prune_expired_at (cache (core s)) now) in
      match (λ kv, (inserted_at kv.2, kv.1)) <$> filter (λ kv, offered o kv = true) (lru_iter (entries (cache (core s)))) with
      | [] => (set_offers s (delete peer (late_local_offers s)), None)
      | keys => (s, Some keys)
      end
  end.

Definition advance_late_local_offer (s : TopicState) (peer : PeerId) (cursor : OfferKey) : TopicState :=
  set_offers s (alter (λ o, mkOffer (lo_cutoff o) (Some cursor) 0 None) peer (late_local_offers s)).

Definition backoff_late_local_offer (s : TopicState) (peer : PeerId) (cursor : OfferKey) (now : Z) : TopicState :=
  set_offers s (alter (λ o,
    let failures := Z.min 255 (lo_failures o + 1) in
    mkOffer (lo_cutoff o) (Some cursor) failures (Some (now + late_local_offer_backoff failures))) peer (late_local_offers s)).

(** ** Cleaning *)

Definition replay_stale (now : Z) (e : PayloadReplayEntry) : bool := bool_decide (REPLAY_CACHE_TTL < elapsed_ns now (rp_inserted_at e)).

Definition clean_cache (s : TopicState) (now : Z) : TopicState :=
  let s := set_cache s (prune_expired_at (cache (core s)) now) in
  let stale := (filter (λ kv, replay_stale now kv.2 = true) (lru_iter (replay_cache s))).*1 in
  let s := set_replay s (foldl (λ l k, (lru_pop l k).1) (replay_cache s) stale) in
  let m := mesh (core s) in
  let m := set_scores m (filter (λ ps, elapsed_ns now (Score.last_activity ps.2) < Score.PEER_SCORE_RETENTION) (peer_scores m)) in
  set_core_mesh s (set_subscribers m (filter (λ x, is_closed x = false) (subscribers m))).

(** ** EAGER *)

Definition maintained_mesh (m : TopicMesh) (now : Z) : TopicMesh :=
  match maintain_degree_at m now with Some (m, _) => m | None => m end.

(** A duplicate demotes its sender, unless that is a healthy preferred peer. *)
Definition duplicate_prunes (s : TopicState) (from : PeerId) (now : Z) : TopicState :=
  if is_healthy_preferred_at (mesh (core s)) from now then s
  else set_core_mesh s (prune_peer (mesh (core s)) from).1.

(** The duplicate branch before the signature is verified ... *)
Definition eager_duplicate (s : TopicState) (from : PeerId) (now : Z) : TopicState :=
  duplicate_prunes (touch s now) from now.

Definition record_inbound_peer_activity_for_state (s : TopicState) (from : PeerId) (now : Z) : TopicState :=
  set_core_mesh s (record_inbound_peer_activity_at (mesh (core s)) from now).1.

(** ... and the one after. *)
Definition eager_verified_duplicate (s : TopicState) (from : PeerId) (now : Z) : TopicState :=
  duplicate_prunes (record_inbound_peer_activity_for_state (touch s now) from now) from now.

Definition scored (s : TopicState) (from : PeerId) (now : Z) (f : Score.PeerScore → Score.PeerScore) : TopicState :=
  set_core_mesh s (update_score (mesh (core s)) from now f).

(** The sender of an IWANT's answer is credited. *)
Definition answer_iwant (s : TopicState) (from : PeerId) (id : MessageIdType) (now : Z) : TopicState :=
  match outstanding_iwants s !! id with
  | Some _ =>
      scored (set_iwants s (delete id (outstanding_iwants s))) from now (λ x, Score.record_iwant_response x now)
  | None => s
  end.

(** A first arrival, up to and including its place in the caches. *)
Definition eager_store (s : TopicState) (from : PeerId) (h : MessageHeader) (p : list Z) (now : Z) : TopicState :=
  let s := record_inbound_peer_activity_for_state (touch s now) from now in
  let s := set_cache s (cache_message (cache (core s)) (msg_id h) p h false now now).1 in
  let s := scored s from now (λ x, Score.record_delivery x now) in
  answer_iwant s from (msg_id h) now.

(** The peers other than the sender that the message would be pushed to. *)
Definition push_targets (s : TopicState) (from : PeerId) : list PeerId := filter (λ p, p ≠ from) (siter (eager_peers (mesh (core s)))).

(** An unknown sender becomes lazy, and maintenance may promote it. *)
Definition learn_sender (s : TopicState) (from : PeerId) (now : Z) : TopicState :=
  let '(m, added) := add_new_peer_lazy (mesh (core s)) from in
  set_core_mesh s (if added then maintained_mesh m now else m).

(** Delivery and the consequences in the mesh; the result is whom to push to. *)
Definition eager_spread (s : TopicState) (from : PeerId) (id : MessageIdType) (p : list Z) (now : Z) (a : ValidationAction) :
    TopicState * list PeerId :=
  let s := learn_sender s from now in
  let targets := push_targets s from in
  let s := match a with LazyForward => set_queues s (queue_lazy_withheld (queues (core s)) id targets true) | _ => s end in
  let s := match a with
           | ForwardAndDeliver | LazyForward => set_queues s (push_pending_ihave (queues (core s)) id).1
           | _ => s
           end in
  let s := set_core_mesh s (deliver_to_local_subscribers (mesh (core s)) from p (Some id)) in
  (s, match a with ForwardAndDeliver => targets | _ => [] end).

(** What a section that handles an EAGER frame decides. *)
Inductive Receipt :=
| Duplicate
| MissingPayload
| Replay
| Refused
| Accepted (to : list PeerId).

(** The section after the verification of the frame. *)
Definition eager_admit (s : TopicState) (from : PeerId) (m : GossipMessage) (now : Z) : TopicState * Receipt :=
  let h := gm_header m in
  if has_message s (msg_id h) then (eager_verified_duplicate s from now, Duplicate)
  else match gm_payload m with
  | None => (s, MissingPayload)
  | Some p =>
      let s := eager_store s from h p now in
      let '(s, replay) := is_payload_replay s p now in
      if replay then
        let '(s, refused) := payload_replay_was_refused s p in
        (if refused then mark_message_dropped s (msg_id h) else s, Replay)
      else
        let a := verdict p in
        if decide (a = DropMessage) then (refuse_payload_replays (mark_message_dropped s (msg_id h)) p, Refused)
        else let '(s, to) := eager_spread s from (msg_id h) p now a in (s, Accepted to)
  end.

(** ** Publishing *)

(** Under the lock: cache, replay seed, rescue, local delivery.  The result is
    whom to push to. *)
Definition publish_store (s : TopicState) (m : GossipMessage) (p : list Z) (now : Z) : TopicState * list PeerId :=
  let h := gm_header m in
  let s := set_cache s (cache_message (cache (core s)) (msg_id h) p h true now now).1 in
  let s := (is_payload_replay s p now).1 in
  let s := set_core_mesh s (rescue_suppressed_eager_peer_if_needed_at (mesh (core s)) now).1 in
  let targets := siter (eager_peers (mesh (core s))) in
  (set_core_mesh s (deliver_to_local_subscribers (mesh (core s)) me p (Some (msg_id h))), targets).

(** After the sends: [attempted] peers were tried, [succeeded] of them got the
    frame.  [true]: nobody did, and the detached retry is started. *)
Definition publish_finish (s : TopicState) (id : MessageIdType) (attempted : list PeerId) (succeeded : nat) (now : Z) : TopicState * bool :=
  let stranded := bool_decide (0 < length attempted)%nat && bool_decide (succeeded = 0)%nat in
  let s := if decide (succeeded = 0)%nat then (record_zero_fanout_publish_at s now).1 else s in
  let s := set_queues s (push_pending_ihave (queues (core s)) id).1 in
  (if stranded then set_queues s (queue_stranded_ihave (queues (core s)) id attempted now) else s, stranded).

(** ** IHAVE *)

(** Whether [from] may ask for an identifier now, and with how many failures
    behind it. *)
Inductive AskResult := Skip | Ask (failures : Z).
Definition may_ask (s : TopicState) (from : PeerId) (id : MessageIdType) (now : Z) : AskResult :=
  if has_message s id then Skip
  else match outstanding_iwants s !! id with
  | None => Ask 0
  | Some e =>
      if decide (ow_peer e = from) then
        if ow_retry_pending e then Skip
        else match ow_retry_not_before e with
        | Some t => if decide (now < t) then Skip else Ask (ow_failures e)
        | None => Ask (ow_failures e)
        end
      else match ow_retry_not_before e with None => Skip | Some _ => Ask 0 end
  end.

(** The request loop: the identifiers that are requested, in order.  It ends
    early when the table is full. *)
Fixpoint request_all (s : TopicState) (from : PeerId) (ids : list MessageIdType) (now : Z) : TopicState * list MessageIdType :=
  match ids with
  | [] => (s, [])
  | id :: ids =>
      match may_ask s from id now with
      | Skip => request_all s from ids now
      | Ask failures =>
          let s := set_iwants s (delete id (outstanding_iwants s)) in
          if decide (MAX_IHAVE_BATCH_SIZE ≤ size (outstanding_iwants s))%nat then (s, [])
          else
            let s := set_iwants s (<[id := mkIwant from now false failures None]> (outstanding_iwants s)) in
            let s := scored s from now Score.record_iwant_request in
            let '(s, requested) := request_all s from ids now in
            (s, id :: requested)
      end
  end.

Definition ihave_section (s : TopicState) (from : PeerId) (ids : list MessageIdType) (now : Z) : TopicState * list MessageIdType :=
  request_all (prune_deferred_iwants (touch s now) now) from ids now.

(** What became of the IWANT frame. *)
Inductive IwantOutcome := IwantSent | IwantDeferred | IwantFailed.

Definition update_claims (s : TopicState) (from : PeerId) (ids : list MessageIdType) (f : OutstandingIwant → option OutstandingIwant) : TopicState :=
  set_iwants s (foldl (λ m id,
    match m !! id with
    | Some e => if decide (ow_peer e = from) then (match f e with Some e' => <[id := e']> m | None => delete id m end) else m
    | None => m
    end) (outstanding_iwants s) ids).

Definition iwant_outcome (s : TopicState) (from : PeerId) (ids : list MessageIdType) (o : IwantOutcome) (now : Z) : TopicState :=
  match o with
  | IwantSent => update_claims s from ids (λ e, Some (mkIwant (ow_peer e) now (ow_retry_pending e) (ow_failures e) (ow_retry_not_before e)))
  | IwantDeferred =>
      let s := update_claims s from ids (λ e, Some (mkIwant (ow_peer e) (ow_requested_at e) true (ow_failures e) (ow_retry_not_before e))) in
      let '(s, kept) := retain_deferred_iwant s from ids now in
      if kept then s else update_claims s from ids (λ _, None)
  | IwantFailed =>
      update_claims s from ids (λ e,
        let failures := Z.min 255 (ow_failures e + 1) in
        Some (mkIwant (ow_peer e) (ow_requested_at e) (ow_retry_pending e) failures (Some (now + iwant_retry_backoff failures))))
  end.

(** ** IWANT and anti-entropy: what may be served *)

(** [get_message], which promotes the entry. *)
Definition get_message (s : TopicState) (id : MessageIdType) (local_origin_only : bool) (now : Z) : TopicState * option CachedMessage :=
  let '(c, m) := if local_origin_only then get_local_origin_message (cache (core s)) id now else get_at (cache (core s)) id now in
  (set_cache s c, m).

Fixpoint collect (s : TopicState) (ids : list MessageIdType) (local_origin_only : bool) (now : Z) : TopicState * list (MessageIdType * CachedMessage) :=
  match ids with
  | [] => (s, [])
  | id :: ids =>
      let '(s, c) := get_message s id local_origin_only now in
      let '(s, rest) := collect s ids local_origin_only now in
      (s, match c with Some c => if dropped c then rest else (id, c) :: rest | None => rest end)
  end.

Definition iwant_section (s : TopicState) (from : PeerId) (ids : list MessageIdType) (local_origin_only : bool) (now : Z) :
    TopicState * list (MessageIdType * CachedMessage) :=
  let s := if local_origin_only then s else touch s now in
  let '(s, to_send) := collect s ids local_origin_only now in
  match to_send with
  | [] => (s, [])
  | _ =>
      let s := if local_origin_only then record_inbound_peer_activity_for_state (touch s now) from now else s in
      (set_core_mesh s (maintained_mesh (add_new_peer_lazy (mesh (core s)) from).1 now), to_send)
  end.

(** A digest: what the other side lacks is served, and what it has beyond us
    is requested.  [order] is the iteration order of our identifiers. *)
Definition digest_section (s : TopicState) (their_ids : list MessageIdType) (order : list MessageIdType) (now : Z) :
    TopicState * list (MessageIdType * CachedMessage) * list MessageIdType :=
  let s := touch s now in
  let ours := cached_message_ids s in
  let '(s, to_send) := collect s (filter (λ id, id ∉ their_ids) order) false now in
  (s, to_send, filter (λ id, id ∉ ours) their_ids).

Definition response_section (s : TopicState) (missing : list MessageIdType) (now : Z) : TopicState * list MessageIdType :=
  let s := touch s now in (s, filter (λ id, has_message s id = false) missing).

(** ** A node: the topic, the calls between their sections, and what it did *)

Record Out := mkOut { out_to : PeerId; out_msg : GossipMessage }.
Record Delivery := mkDelivery { dl_from : PeerId; dl_id : MessageIdType; dl_payload : list Z }.
(** What the topic's subscribers get: a message from the network, or this
    node's own publish. *)
Inductive Delivered := Received (d : Delivery) | Published (d : Delivery).
Definition delivery (x : Delivered) : Delivery := match x with Received d | Published d => d end.

Inductive AntiEntropyPayload := AEDigest (ids : list MessageIdType) | AEResponse (missing : list MessageIdType).

(** A call between two of its sections.  [Inbound] is a frame from the
    network; the calls named [Start] are also entry points of their own. *)
Inductive Call :=
| Inbound (from : PeerId) (m : GossipMessage)
| EagerProbe (from : PeerId) (m : GossipMessage)
| EagerRecheck (from : PeerId) (m : GossipMessage)
| EagerVerify (from : PeerId) (m : GossipMessage)
| EagerPush (m : GossipMessage) (to : list PeerId)
| PublishStart (t : TopicId) (p : list Z) (epoch : Z) (target : option PeerId)
| PublishPush (m : GossipMessage) (to : list PeerId) (target : option PeerId)
| PublishFinish (m : GossipMessage) (attempted : list PeerId) (succeeded : nat)
| StrandedStart (m : GossipMessage)
| StrandedTry (m : GossipMessage) (deadline : Z)
| StrandedSend (m : GossipMessage) (deadline : Z) (to : list PeerId)
| StrandedBook (m : GossipMessage) (deadline : Z) (reached : list PeerId)
| IhaveStart (t : TopicId) (from : PeerId) (ids : list MessageIdType)
| IhaveFinish (from : PeerId) (ids : list MessageIdType) (o : IwantOutcome)
| IwantStart (from : PeerId) (ids : list MessageIdType) (local_origin_only : bool)
| IwantClaim (from : PeerId) (todo : list (MessageIdType * CachedMessage))
| IwantSettle (c : EagerReplyCompletion) (o : EagerReplyOutcome) (todo : list (MessageIdType * CachedMessage)) (failed : bool)
| RetryStart (e : DeferredEagerReply)
| RetrySign (e : DeferredEagerReply) (c : CachedMessage)
| RetryClaim (e : DeferredEagerReply) (c : CachedMessage)
| RetrySettle (c : EagerReplyCompletion) (o : EagerReplyOutcome)
| DigestStart (t : TopicId) (from : PeerId) (ids : list MessageIdType)
| ResponseStart (t : TopicId) (from : PeerId) (missing : list MessageIdType)
| TriggerStart (t : TopicId)
| DigestSend (t : TopicId) (to : PeerId)
| Ended (ok : bool).

Record Node := mkPNode {
  pn_topic : option TopicState;
  pn_calls : list Call;
  pn_token : Z;
  pn_custody : Z;
  pn_wire : list Out;
  pn_log : list Delivered;                          (* in the order of delivery *)
}.
Definition received (l : list Delivered) : list Delivery := omap (λ x, match x with Received d => Some d | Published _ => None end) l.
Definition pn_received (n : Node) : list Delivery := received (pn_log n).
Definition pn_published (n : Node) : list Delivery := omap (λ x, match x with Published d => Some d | Received _ => None end) (pn_log n).

(** What a step of a call finds: the time, the targets that the send layer
    attempts and reaches, the fate of an IWANT or of a reply and whether the
    transport fails it, whether the egress limiter is enabled, and the order
    in which a hash set is iterated. *)
Record Choice := mkChoice {
  ch_now : Z;
  ch_attempted : list PeerId;
  ch_reached : list PeerId;
  ch_iwant : IwantOutcome;
  ch_reply : EagerReplyOutcome;
  ch_error : bool;
  ch_enabled : bool;
  ch_order : list MessageIdType;
}.

(** [postcard] on messages, on lists of identifiers and on anti-entropy
    payloads. *)
Context (frame_encodes : GossipMessage → bool) (encode_ids : list MessageIdType → option (list Z)).
Context (decode_ids : list Z → option (list MessageIdType)).
Context (encode_ae : AntiEntropyPayload → option (list Z)) (decode_ae : list Z → option AntiEntropyPayload).
(** The bounds of the message cache and the eager ceiling of the instance. *)
Context (cache_config : PubSubCacheConfig) (configured : nat).

Definition fresh_topic (now : Z) : TopicState :=
  state_new (MessageCache.new (max_messages_per_topic cache_config) (max_bytes_per_topic cache_config) (cfg_max_age cache_config))
    configured now.

Definition entry_topic (n : Node) (now : Z) : TopicState := default (fresh_topic now) (pn_topic n).

Definition n_topic (n : Node) (s : TopicState) : Node :=
  mkPNode (Some s) (pn_calls n) (pn_token n) (pn_custody n) (pn_wire n) (pn_log n).
Definition n_send (n : Node) (l : list Out) : Node :=
  mkPNode (pn_topic n) (pn_calls n) (pn_token n) (pn_custody n) (pn_wire n ++ l) (pn_log n).
Definition n_receive (n : Node) (d : Delivery) : Node :=
  mkPNode (pn_topic n) (pn_calls n) (pn_token n) (pn_custody n) (pn_wire n) (pn_log n ++ [Received d]).
Definition n_publish (n : Node) (d : Delivery) : Node :=
  mkPNode (pn_topic n) (pn_calls n) (pn_token n) (pn_custody n) (pn_wire n) (pn_log n ++ [Published d]).
Definition n_counters (n : Node) (token custody : Z) : Node :=
  mkPNode (pn_topic n) (pn_calls n) token custody (pn_wire n) (pn_log n).
Definition n_calls (n : Node) (l : list Call) : Node :=
  mkPNode (pn_topic n) l (pn_token n) (pn_custody n) (pn_wire n) (pn_log n).

(** The frame goes to those targets that the send layer attempts. *)
Definition push_to (m : GossipMessage) (to attempted : list PeerId) : list Out :=
  (λ p, mkOut p m) <$> filter (λ p, p ∈ attempted) to.

(** A request for [ids] that could be built, under the first of them. *)
Definition iwant_frame (t : TopicId) (ids : list MessageIdType) : option GossipMessage :=
  match ids with
  | [] => None
  | id :: _ => p ← encode_ids ids; let m := signed_frame t id IWant 10 p in if frame_encodes m then Some m else None
  end.

(** Whether the identifiers of a request could be encoded. *)
Definition ids_encode (ids : list MessageIdType) : bool := match ids, encode_ids ids with _ :: _, None => false | _, _ => true end.

(** The answers of a digest that may leave, and the request that goes with
    them. *)
Definition digest_frames (t : TopicId) (from : PeerId) (to_send : list (MessageIdType * CachedMessage)) (need : list MessageIdType) : list Out :=
  ((λ ic, mkOut from (serve_frame ic.2)) <$>
     filter (λ ic, forwardable_payload (payload ic.2) = true ∧ frame_encodes (serve_frame ic.2) = true) to_send) ++
  (mkOut from <$> option_list (iwant_frame t need)).

(** [record_verified_inbound_from_peer]. *)
Definition note_inbound (n : Node) (from : PeerId) (now : Z) : Node :=
  n_topic n (record_inbound_peer_activity_for_state (touch (entry_topic n now) now) from now).

(** [dispatch_message] on a decoded frame of the topic: everything but EAGER is
    verified here. *)
Definition inbound_step (n : Node) (now : Z) (from : PeerId) (m : GossipMessage) : Node * Call :=
  let t := Types.topic (gm_header m) in
  match kind (gm_header m) with
  | Eager => (n, EagerProbe from m)
  | IHave | IWant | AntiEntropy =>
      if verify_message_signature m then
        (note_inbound n from now,
         match gm_payload m with
         | None => Ended false
         | Some p =>
             match kind (gm_header m) with
             | IHave => match decode_ids p with Some ids => IhaveStart t from ids | None => Ended false end
             | IWant => match decode_ids p with Some ids => IwantStart from ids false | None => Ended false end
             | _ =>
                 match decode_ae p with
                 | Some (AEDigest ids) => DigestStart t from ids
                 | Some (AEResponse missing) => ResponseStart t from missing
                 | None => Ended false
                 end
             end
         end)
      else (n, Ended false)
  | _ => (if verify_message_signature m then note_inbound n from now else n, Ended true)
  end.

(** One round of [retry_stranded_publish]: look, send, book. *)
Definition stranded_try (n : Node) (m : GossipMessage) (deadline : Z) : Node * Call :=
  let id := msg_id (gm_header m) in
  match pn_topic n with
  | None => (n, Ended true)
  | Some s =>
      if has_message s id then
        let served := stranded_ihave_served_peers (queues (core s)) id in
        match filter (λ p, p ∉ served) (siter (eager_peers (mesh (core s)))) with
        | [] => (n_topic n (set_queues s (remove_stranded_ihave (queues (core s)) id)), Ended true)
        | to => (n, StrandedSend m deadline to)
        end
      else (n, Ended true)
  end.

Definition stranded_send (n : Node) (ch : Choice) (m : GossipMessage) (deadline : Z) (to : list PeerId) : Node * Call :=
  let out := push_to m to (ch_attempted ch) in
  match pn_topic n with
  | None => (n, Ended true)
  | Some s =>
      match out with
      | [] =>
          if ch_enabled ch && bool_decide (ch_now ch < deadline) then (n, StrandedTry m deadline)
          else (n_topic n (set_queues s (remove_stranded_ihave (queues (core s)) (msg_id (gm_header m)))), Ended true)
      | _ => (n_send n out, StrandedBook m deadline (filter (λ p, p ∈ ch_reached ch) (out_to <$> out)))
      end
  end.

Definition stranded_book (n : Node) (ch : Choice) (m : GossipMessage) (deadline : Z) (reached : list PeerId) : Node * Call :=
  let id := msg_id (gm_header m) in
  match pn_topic n with
  | None => (n, Ended true)
  | Some s =>
      let q := foldl (λ q p, record_stranded_retry_delivered q id p) (queues (core s)) reached in
      let pending := existsb (λ p, bool_decide (p ∉ stranded_ihave_served_peers q id)) (siter (eager_peers (mesh (core s)))) in
      let late := bool_decide (deadline ≤ ch_now ch) in
      let q := if negb pending || late then remove_stranded_ihave q id else q in
      (n_topic n (set_queues s q), if ch_enabled ch && pending && negb late then StrandedTry m deadline else Ended true)
  end.

(** One entry of [flush_deferred_eager_replies]. *)
Definition forget_custody (s : TopicState) (e : DeferredEagerReply) : TopicState :=
  set_core s (set_custody (core s) (filter (λ x, x ≠ e) (deferred_eager_replies (core s)))).

Definition retry_start (n : Node) (e : DeferredEagerReply) (now : Z) : Node * Call :=
  match pn_topic n with
  | None => (n, Ended true)
  | Some s =>
      let x := prune_deferred_eager_replies (core s) now in
      (n_topic n (set_core s x),
       if bool_decide (e ∈ deferred_eager_replies x) && negb (eager_reply_claimed x (d_key e)) then
         match assoc (d_msg_id e) (lru_iter (entries (cache x))) with
         | Some c => if dropped (message c) then Ended true else RetrySign e (message c)
         | None => Ended true
         end
       else Ended true)
  end.

(** The reply is claimed when the send layer takes the attempt. *)
Definition retry_claim_step (n : Node) (ch : Choice) (e : DeferredEagerReply) (c : CachedMessage) : Node * Call :=
  match pn_topic n with
  | None => (n, Ended true)
  | Some s =>
      let x := prune_eager_reply_claims (core s) (ch_now ch) in
      if eager_reply_claimed x (d_key e) then (n_topic n (set_core s x), Ended true)
      else if decide (d_peer e ∈ ch_attempted ch) then
        let x := insert_eager_reply_claim x (d_key e) (pn_token n) (ch_now ch) in
        (n_send (n_counters (n_topic n (set_core s x)) (pn_token n + 1) (pn_custody n)) [mkOut (d_peer e) (serve_frame c)],
         RetrySettle (mkCompletion (d_peer e) (d_msg_id e) (pn_token n) (Some e)) (ch_reply ch))
      else (n_topic n (set_core s x), Ended true)
  end.

Definition settle_step (n : Node) (c : EagerReplyCompletion) (o : EagerReplyOutcome) (now : Z) : Node :=
  match pn_topic n with
  | Some s =>
      let '(x, custody) := settle_eager_reply (core s) (pn_custody n) c o now in
      n_counters (n_topic n (set_core s x)) (pn_token n) custody
  | None => n
  end.

(** One reply of an IWANT: claimed, built and sent.  A frame that may not be
    forwarded counts as failed and the next reply follows; an error ends the
    call after the reply is settled. *)
Definition serve_step (n : Node) (ch : Choice) (from : PeerId) (id : MessageIdType) (cached : CachedMessage)
    (todo : list (MessageIdType * CachedMessage)) : Node * Call :=
  match pn_topic n with
  | None => (n, Ended true)
  | Some s =>
      let '(x, owned) := claim_eager_reply_for_iwant (core s) (from, id) (pn_token n) (ch_now ch) in
      if owned then
        let done := IwantSettle (mkCompletion from id (pn_token n) None) in
        let n := n_counters (n_topic n (set_core s x)) (pn_token n + 1) (pn_custody n) in
        let m := serve_frame cached in
        if forwardable_payload (payload cached) then
          if frame_encodes m then
            (n_send n (push_to m [from] (ch_attempted ch)),
             if ch_error ch then done Failed todo true else done (ch_reply ch) todo false)
          else (n, done Failed todo true)
        else (n, done Failed todo false)
      else (n_topic n (set_core s x), IwantClaim from todo)
  end.

Definition digest_send (n : Node) (ch : Choice) (t : TopicId) (to : PeerId) : Node * Call :=
  match pn_topic n with
  | None => (n, Ended true)
  | Some s =>
      match cached_message_ids s with
      | [] => (n, Ended true)
      | ids =>
          match encode_ae (AEDigest ids) with
          | None => (n, Ended false)
          | Some p =>
              let m := signed_frame t (replicate 32 0) AntiEntropy 1 p in
              if frame_encodes m then (n_send n (push_to m [to] (ch_attempted ch)), Ended (negb (ch_error ch))) else (n, Ended false)
          end
      end
  end.

(** One step of a call.  [EagerVerify] is the verification, which needs no
    lock, and the section after it. *)
Definition call_step (n : Node) (ch : Choice) (c : Call) : Node * Call :=
  let now := ch_now ch in
  match c with
  | Inbound from m => inbound_step n now from m
  | EagerProbe from m =>
      let dup := match pn_topic n with Some s => has_message s (msg_id (gm_header m)) | None => false end in
      (n, if dup then EagerRecheck from m else EagerVerify from m)
  | EagerRecheck from m =>
      match pn_topic n with
      | Some s =>
          if has_message s (msg_id (gm_header m)) then (n_topic n (eager_duplicate s from now), Ended true)
          else (n, EagerVerify from m)
      | None => (n, EagerVerify from m)
      end
  | EagerVerify from m =>
      if verify_message_signature m then
        let '(s, r) := eager_admit (entry_topic n now) from m now in
        match r with
        | MissingPayload => (n, Ended false)
        | Accepted to =>
            let p := default [] (gm_payload m) in
            (n_receive (n_topic n s) (mkDelivery from (msg_id (gm_header m)) p), EagerPush m to)
        | _ => (n_topic n s, Ended true)
        end
      else (n, Ended false)
  | EagerPush m to =>
      if forwardable_payload (default [] (gm_payload m)) then
        if frame_encodes m then (n_send n (push_to m to (ch_attempted ch)), Ended true) else (n, Ended false)
      else (n, Ended true)
  | PublishStart t p epoch target =>
      let m := signed_frame t (calculate_msg_id t epoch p) Eager 10 p in
      match msg_id_after_local_sign (gm_signature m) (msg_id (gm_header m)) with
      | None => (n, Ended false)
      | Some id =>
          if frame_encodes m then
            let '(s, to) := publish_store (entry_topic n now) m p now in
            (n_publish (n_topic n s) (mkDelivery me id p), PublishPush m to target)
          else (n, Ended false)
      end
  | PublishPush m to target =>
      let out := push_to m to (ch_attempted ch) in
      (n_send n (out ++ push_to m (option_list target) (ch_attempted ch)),
       PublishFinish m (out_to <$> out) (length (filter (λ p, p ∈ ch_reached ch) (out_to <$> out))))
  | PublishFinish m attempted succeeded =>
      match pn_topic n with
      | Some s =>
          let '(s, stranded) := publish_finish s (msg_id (gm_header m)) attempted succeeded now in
          (n_topic n s, if stranded then StrandedStart m else Ended true)
      | None => (n, if bool_decide (0 < length attempted)%nat && bool_decide (succeeded = 0)%nat then StrandedStart m else Ended true)
      end
  | StrandedStart m =>
      (n, StrandedTry m (default now (s ← pn_topic n; stranded_retry_expires (queues (core s)) (msg_id (gm_header m)))))
  | StrandedTry m deadline => stranded_try n m deadline
  | StrandedSend m deadline to => stranded_send n ch m deadline to
  | StrandedBook m deadline reached => stranded_book n ch m deadline reached
  | IhaveStart t from ids =>
      let '(s, requested) := ihave_section (entry_topic n now) from ids now in
      let n := n_topic n s in
      match requested with
      | [] => (n, Ended true)
      | _ =>
          match iwant_frame t requested with
          | Some m => (n_send n (push_to m [from] (ch_attempted ch)), IhaveFinish from requested (ch_iwant ch))
          | None => (n, Ended false)
          end
      end
  | IhaveFinish from ids o =>
      match pn_topic n with
      | Some s => (n_topic n (iwant_outcome s from ids o now), Ended (negb (ch_error ch)))
      | None => (n, Ended (negb (ch_error ch)))
      end
  | IwantStart from ids local =>
      match pn_topic n, local with
      | None, true => (n, Ended true)
      | _, _ =>
          let '(s, to_send) := iwant_section (entry_topic n now) from ids local now in
          (n_topic n s, IwantClaim from to_send)
      end
  | IwantClaim from [] => (n, Ended true)
  | IwantClaim from ((id, cached) :: todo) => serve_step n ch from id cached todo
  | IwantSettle c o todo failed => (settle_step n c o now, if failed then Ended false else IwantClaim (e_peer c) todo)
  | RetryStart e => retry_start n e now
  | RetrySign e c =>
      if decide (ch_attempted ch = []) then (n, Ended true)
      else if forwardable_payload (payload c) && negb (ch_error ch) && frame_encodes (serve_frame c) then (n, RetryClaim e c)
      else (match pn_topic n with Some s => n_topic n (forget_custody s e) | None => n end, Ended true)
  | RetryClaim e c => retry_claim_step n ch e c
  | RetrySettle c o => (settle_step n c o now, Ended true)
  | DigestStart t from ids =>
      let '(s, to_send, need) := digest_section (entry_topic n now) ids (ch_order ch) now in
      (n_send (n_topic n s) (digest_frames t from to_send need), Ended (ids_encode need))
  | ResponseStart t from missing =>
      match pn_topic n with
      | Some s =>
          let '(s, need) := response_section s missing now in
          (n_send (n_topic n s) (mkOut from <$> option_list (iwant_frame t need)), Ended (ids_encode need))
      | None => (n_send n (mkOut from <$> option_list (iwant_frame t missing)), Ended (ids_encode missing))
      end
  | TriggerStart t =>
      match pn_topic n with
      | Some s =>
          match siter (eager_peers (mesh (core s))) ++ siter (lazy_peers (mesh (core s))) with
          | p :: _ => (n, DigestSend t p)
          | [] => (n, Ended true)
          end
      | None => (n, Ended true)
      end
  | DigestSend t to => digest_send n ch t to
  | Ended _ => (n, c)
  end.

(** A call enters: an EAGER frame is dropped at once unless its header says
    that it is one, and what is another topic's is not this one's. *)
Definition enter (t : TopicId) (c : Call) : Call :=
  match c with
  | Inbound from m => if decide (Types.topic (gm_header m) = t) then c else Ended false
  | EagerProbe from m =>
      if decide (Types.topic (gm_header m) = t ∧ kind (gm_header m) = Eager) then c else Ended false
  | PublishStart t' _ _ _ => if decide (t' = t) then c else Ended false
  | IhaveStart _ _ _ | IwantStart _ _ _ | RetryStart _ | TriggerStart _ => c
  | _ => Ended false
  end.

(** Everything that happens to a node.  [OMesh] is any operation on the mesh
    ([valid_op]); the results of sends are booked there. *)
Inductive POp :=
| OEnter (c : Call)
| OStep (i : nat) (ch : Choice)
| OMesh (m : TopicMesh)
| OQueues (o : Announce.Op)
| OClean (now : Z)
| OOffer (p : PeerId) (now : Z)
| OPage (p : PeerId) (now : Z)
| OOfferDone (p : PeerId) (k : OfferKey)
| OOfferFailed (p : PeerId) (k : OfferKey) (now : Z)
| OUnsubscribe.

Definition on_topic (n : Node) (f : TopicState → TopicState) : Node :=
  match pn_topic n with Some s => n_topic n (f s) | None => n end.

Definition pexec (t : TopicId) (n : Node) (o : POp) : Node :=
  match o with
  | OEnter c => n_calls n (pn_calls n ++ [enter t c])
  | OStep i ch =>
      match pn_calls n !! i with
      | Some c => let '(n', c') := call_step n ch c in n_calls n' (<[i := c']> (pn_calls n))
      | None => n
      end
  | OMesh m => on_topic n (λ s, set_core_mesh s m)
  | OQueues o => on_topic n (λ s, set_queues s (Announce.exec (queues (core s)) o))
  | OClean now => on_topic n (λ s, clean_cache s now)
  | OOffer p now => on_topic n (λ s, queue_late_local_offer s p now)
  | OPage p now => on_topic n (λ s, (late_local_offer_keys s p now).1)
  | OOfferDone p k => on_topic n (λ s, advance_late_local_offer s p k)
  | OOfferFailed p k now => on_topic n (λ s, backoff_late_local_offer s p k now)
  | OUnsubscribe => mkPNode None (pn_calls n) (pn_token n) (pn_custody n) (pn_wire n) (pn_log n)
  end.

Definition valid_op (n : Node) (o : POp) : Prop :=
  match o with
  | OMesh m => ∀ s, pn_topic n = Some s → mesh_step (mesh (core s)) m
  | _ => True
  end.

Definition node_start : Node := mkPNode None [] 1 1 [] [].
Definition prun (t : TopicId) (n : Node) (os : list POp) : Node := foldl (pexec t) n os.

(** ** A frame handled without a break

    [Some to]: the message was delivered, and goes on to [to]. *)

Definition handle_eager (s : TopicState) (from : PeerId) (m : GossipMessage) (now : Z) : TopicState * option (list PeerId) :=
  if has_message s (msg_id (gm_header m)) then (eager_duplicate s from now, None)
  else if verify_message_signature m then
    match eager_admit s from m now with
    | (_, MissingPayload) => (s, None)
    | (s', Accepted to) => (s', Some (if forwardable_payload (default [] (gm_payload m)) then to else []))
    | (s', _) => (s', None)
    end
  else (s, None).
End Plumtree.
End Plumtree.
