(* ===== verification/PlumtreeProps.v ===== *)
(** * What the Plumtree handlers guarantee ([crates/pubsub/src/lib.rs])

    The theorems of [Plumtree]: they hold for every interleaving of the
    sections of concurrent calls, of changes of the mesh, and of the
    background work.  Most sections leave the message cache and the replay
    cache alone, up to removing expired entries ([quiet]); the two that add to
    them are [eager_admit] and [publish_store]. *)

From S2P Require Import Prelude Types Identity Float64 PeerTiming MessageCache TopicMesh Announce EagerReply Plumtree.
Import Identity F64 Timing MessageCache TopicMesh Announce EagerReply Plumtree.

#[local] Open Scope Z_scope.

Module PlumtreeProps.

(** ** The message cache *)

Section Cache.
Context `{!LruCache MessageIdType CachedEntry}.

(** The resident entries. *)
Definition resident (c : BoundedMessageCache) : list (MessageIdType * CachedEntry) := lru_iter (entries c).

(** The cache only loses entries. *)
Definition shrinks (c c' : BoundedMessageCache) : Prop :=
  MessageCache.wf c → MessageCache.wf c' ∧ ∀ k e, (k, e) ∈ resident c' → (k, e) ∈ resident c.

Lemma shrinks_refl (c : BoundedMessageCache) : shrinks c c.
Proof. done. Qed.
Lemma shrinks_trans (c1 c2 c3 : BoundedMessageCache) : shrinks c1 c2 → shrinks c2 c3 → shrinks c1 c3.
Proof. unfold shrinks. naive_solver. Qed.

Lemma prune_shrinks (c : BoundedMessageCache) (now : Z) : shrinks c (prune_expired_at c now).
Proof.
  intros Hwf. destruct (prune_spec c now Hwf) as (Hw & _ & Hi). split; [done|].
  intros k e. unfold resident. rewrite Hi, list_elem_of_filter. by intros [_ ?].
Qed.
Lemma get_at_shrinks (c : BoundedMessageCache) (id : MessageIdType) (now : Z) : shrinks c (get_at c id now).1.
Proof. intros Hwf. destruct (wf_get_at c id now Hwf) as (Hw & _ & _ & Hi). split; [done|]. intros k e [??]%Hi. done. Qed.

Lemma get_at_resident (c : BoundedMessageCache) (id : MessageIdType) (now : Z) (m : CachedMessage) :
  MessageCache.wf c → (get_at c id now).2 = Some m → ∃ e, (id, e) ∈ resident c ∧ message e = m.
Proof.
  intros Hwf. destruct (wf_get_at c id now Hwf) as (_ & _ & -> & _).
  intros (e & He & ->)%fmap_Some. apply assoc_Some in He. apply list_elem_of_filter in He as [_ ?]. eauto.
Qed.
Lemma get_local_resident (c : BoundedMessageCache) (id : MessageIdType) (now : Z) (m : CachedMessage) :
  MessageCache.wf c → (get_local_origin_message c id now).2 = Some m → ∃ e, (id, e) ∈ resident c ∧ message e = m.
Proof.
  intros Hwf. cbn. destruct (assoc id _) as [e|] eqn:He; [|done]. destruct (local_origin _); [|done].
  intros [= <-]. apply assoc_Some in He. apply (prune_shrinks c now Hwf) in He. eauto.
Qed.

(** Whatever a new message displaces, it is the only new entry. *)
Lemma cache_message_resident (c : BoundedMessageCache) (id : MessageIdType) (p : list Z) (h : MessageHeader) (local : bool) (n1 n2 : Z) (k : MessageIdType) (e : CachedEntry) :
  MessageCache.wf c → (k, e) ∈ resident (cache_message c id p h local n1 n2).1 →
  (k, e) ∈ resident c ∨ k = id ∧ e = mkEntry (mkMessage p h false local None) (estimate_message_bytes (mkMessage p h false local None)) n2.
Proof.
  intros Hwf. unfold cache_message. set (m := mkMessage p h false local None).
  assert (∀ c', MessageCache.wf c' → (∀ k e, (k, e) ∈ resident c' → (k, e) ∈ resident c) →
    (k, e) ∈ resident (insert_at c' id m n2).1 → (k, e) ∈ resident c ∨ k = id ∧ e = mkEntry m (estimate_message_bytes m) n2) as Hins.
  { intros c' Hw Hsub Hin. pose proof (insert_at_spec c' id m n2 Hw) as Hs. unfold resident in Hin.
    destruct (insert_at c' id m n2) as [c'' acc]. cbn in Hs, Hin. destruct Hs as (_ & _ & Hs).
    assert (∀ x, x ∈ without id (filter (λ kv, ¬ expired c' n2 kv.2) (lru_iter (entries c'))) → x ∈ resident c) as Ho.
    { intros [k' e'] [_ [_ Hx]%list_elem_of_filter]%elem_of_without. by apply Hsub. }
    case_decide.
    - destruct Hs as [_ Hi]. rewrite Hi in Hin. left. by apply Ho.
    - destruct Hs as (_ & kept & ev & Heq & Hi & _). rewrite Hi in Hin. apply elem_of_cons in Hin as [[= -> ->]|Hin]; [by right|].
      left. apply Ho. rewrite Heq. apply elem_of_app. by left. }
  destruct local; [apply Hins; done|].
  destruct (get_at_shrinks c id n1 Hwf) as [Hw Hsub]. destruct (get_at c id n1) as [c1 o]. cbn in Hw, Hsub.
  destruct (match o with Some m => local_origin m | None => false end); [cbn; auto|]. by apply Hins.
Qed.

Lemma mark_dropped_resident (c : BoundedMessageCache) (id : MessageIdType) (k : MessageIdType) (e : CachedEntry) :
  MessageCache.wf c → (k, e) ∈ resident (mark_dropped c id).1 →
  k ≠ id ∧ (k, e) ∈ resident c ∨ k = id ∧ ∃ e0, (k, e0) ∈ resident c ∧ e = set_dropped e0.
Proof.
  intros Hwf. unfold mark_dropped, resident. destruct (lru_get_mut_spec (entries c) id set_dropped) as (Hr & _ & Hi).
  destruct (lru_get_mut (entries c) id set_dropped) as [l o]. cbn in Hr, Hi. injection Hr as ->.
  destruct (assoc id (lru_iter (entries c))) as [e0|] eqn:Ha; cbn.
  - rewrite Hi, elem_of_cons, elem_of_without. intros [[= -> ->]|[Hne Hin]]; [|by left].
    right. split; [done|]. exists e0. split; [by apply assoc_Some|done].
  - intros Hin. left. split; [|done]. intros ->. apply assoc_None in Ha. apply Ha. apply list_elem_of_fmap. by exists (id, e).
Qed.
End Cache.

(** ** The sections that add nothing *)

Section Stores.
Context `{Hashes} `{WireFormat} `{MlDsa} `{Libm} `{!SetIter PeerId}.
Context `{!LruCache MessageIdType CachedEntry} `{!LruPut MessageIdType PayloadReplayEntry}.

Definition quiet (s s' : TopicState) : Prop := shrinks (cache (core s)) (cache (core s')) ∧ replay_cache s' = replay_cache s.

Lemma quiet_refl (s : TopicState) : quiet s s.
Proof. done. Qed.
Lemma quiet_then (s1 s2 s3 : TopicState) : quiet s1 s2 → quiet s2 s3 → quiet s1 s3.
Proof. unfold quiet. intros [? ?] [? ?]. split; [by eapply shrinks_trans|congruence]. Qed.

(** A state that differs in neither cache. *)
Lemma quiet_eq (s s' : TopicState) : cache (core s') = cache (core s) → replay_cache s' = replay_cache s → quiet s s'.
Proof. intros Hc Hr. split; [rewrite Hc; apply shrinks_refl|done]. Qed.

Lemma quiet_mesh (s : TopicState) (m : TopicMesh) : quiet s (set_core_mesh s m).
Proof. apply quiet_eq; by destruct s. Qed.
Lemma quiet_queues (s : TopicState) (q : Queues) : quiet s (set_queues s q).
Proof. apply quiet_eq; by destruct s. Qed.
Lemma quiet_touch (s : TopicState) (now : Z) : quiet s (touch s now).
Proof. apply quiet_eq; by destruct s. Qed.
Lemma quiet_iwants (s : TopicState) x : quiet s (set_iwants s x).
Proof. apply quiet_eq; by destruct s. Qed.
Lemma quiet_deferred (s : TopicState) x : quiet s (set_deferred s x).
Proof. apply quiet_eq; by destruct s. Qed.
Lemma quiet_offers (s : TopicState) x : quiet s (set_offers s x).
Proof. apply quiet_eq; by destruct s. Qed.
Lemma quiet_zero_fanout (s : TopicState) (now : Z) : quiet s (record_zero_fanout_publish_at s now).1.
Proof. apply quiet_eq; by destruct s. Qed.
Lemma quiet_cache (s : TopicState) (c : BoundedMessageCache) : shrinks (cache (core s)) c → quiet s (set_cache s c).
Proof. intros Hc. split; by destruct s. Qed.
#[local] Hint Resolve quiet_refl quiet_mesh quiet_queues quiet_touch quiet_iwants quiet_deferred quiet_offers quiet_zero_fanout
  quiet_cache shrinks_refl prune_shrinks get_at_shrinks : quiet.
(** A composition of quiet changes, whose last one is on top of the goal. *)
Ltac quiet_chain := repeat first [solve [eauto 3 with quiet nocore] | eapply quiet_then; [|solve [eauto 3 with quiet nocore]]].

Lemma quiet_scored (s : TopicState) (from : PeerId) (now : Z) (f : Score.PeerScore → Score.PeerScore) : quiet s (scored s from now f).
Proof. apply quiet_mesh. Qed.
Lemma quiet_duplicate_prunes (s : TopicState) (from : PeerId) (now : Z) : quiet s (duplicate_prunes s from now).
Proof. unfold duplicate_prunes. case_match; quiet_chain. Qed.
Lemma quiet_activity (s : TopicState) (from : PeerId) (now : Z) : quiet s (record_inbound_peer_activity_for_state s from now).
Proof. apply quiet_mesh. Qed.
Lemma quiet_learn (s : TopicState) (from : PeerId) (now : Z) : quiet s (learn_sender s from now).
Proof. unfold learn_sender. destruct (add_new_peer_lazy _ _). quiet_chain. Qed.
#[local] Hint Resolve quiet_scored quiet_duplicate_prunes quiet_activity quiet_learn : quiet.

Lemma quiet_duplicate (s : TopicState) (from : PeerId) (now : Z) : quiet s (eager_duplicate s from now).
Proof. unfold eager_duplicate. quiet_chain. Qed.
Lemma quiet_verified_duplicate (s : TopicState) (from : PeerId) (now : Z) : quiet s (eager_verified_duplicate s from now).
Proof. unfold eager_verified_duplicate. quiet_chain. Qed.
Lemma quiet_answer (s : TopicState) (from : PeerId) (id : MessageIdType) (now : Z) : quiet s (answer_iwant s from id now).
Proof. unfold answer_iwant. case_match; quiet_chain. Qed.
Lemma quiet_spread (s : TopicState) (from : PeerId) (id : MessageIdType) (p : list Z) (now : Z) (a : ValidationAction) :
  quiet s (eager_spread s from id p now a).1.
Proof. unfold eager_spread. destruct a; cbn [fst]; quiet_chain. Qed.
Lemma quiet_publish_finish (s : TopicState) (id : MessageIdType) (attempted : list PeerId) (succeeded : nat) (now : Z) :
  quiet s (publish_finish s id attempted succeeded now).1.
Proof. unfold publish_finish. cbn [fst]. repeat case_match; quiet_chain. Qed.
Lemma quiet_prune_deferred (s : TopicState) (now : Z) : quiet s (prune_deferred_iwants s now).
Proof. unfold prune_deferred_iwants. quiet_chain. Qed.
#[local] Hint Resolve quiet_prune_deferred : quiet.
Lemma quiet_retain_deferred (s : TopicState) (peer : PeerId) (ids : list MessageIdType) (now : Z) : quiet s (retain_deferred_iwant s peer ids now).1.
Proof. unfold retain_deferred_iwant. case_match; [|case_decide]; cbn [fst]; quiet_chain. Qed.

Lemma quiet_request_all (ids : list MessageIdType) (s : TopicState) (from : PeerId) (now : Z) : quiet s (request_all s from ids now).1.
Proof.
  revert s. induction ids as [|id ids IH]; intros s; cbn [request_all]; [apply quiet_refl|].
  destruct (may_ask s from id now) as [|f]; [apply IH|]. case_decide; [cbn [fst]; quiet_chain|].
  match goal with |- context [request_all ?x from ids now] => pose proof (IH x) as Hq; destruct (request_all x from ids now) end.
  cbn [fst] in *. eapply quiet_then; [|exact Hq]. quiet_chain.
Qed.
Lemma quiet_ihave (s : TopicState) (from : PeerId) (ids : list MessageIdType) (now : Z) : quiet s (ihave_section s from ids now).1.
Proof. unfold ihave_section. eapply quiet_then; [|apply quiet_request_all]. quiet_chain. Qed.
Lemma quiet_outcome (s : TopicState) (from : PeerId) (ids : list MessageIdType) (o : IwantOutcome) (now : Z) : quiet s (iwant_outcome s from ids o now).
Proof.
  destruct o; unfold iwant_outcome; [apply quiet_iwants| |apply quiet_iwants].
  match goal with |- context [retain_deferred_iwant ?x from ids now] =>
    pose proof (quiet_retain_deferred x from ids now) as Hq; destruct (retain_deferred_iwant x from ids now) as [s' kept] end.
  cbn [fst] in *. destruct kept; [|eapply quiet_then; [|apply quiet_iwants]]; (eapply quiet_then; [|exact Hq]); apply quiet_iwants.
Qed.

(** ** Serving *)

Lemma quiet_get_message (s : TopicState) (id : MessageIdType) (local : bool) (now : Z) : quiet s (get_message s id local now).1.
Proof.
  unfold get_message. destruct local.
  - cbn [get_local_origin_message fst]. quiet_chain.
  - pose proof (get_at_shrinks (cache (core s)) id now). destruct (get_at _ id now). cbn [fst] in *. by apply quiet_cache.
Qed.
Lemma get_message_resident (s : TopicState) (id : MessageIdType) (local : bool) (now : Z) (m : CachedMessage) :
  MessageCache.wf (cache (core s)) → (get_message s id local now).2 = Some m → ∃ e, (id, e) ∈ resident (cache (core s)) ∧ message e = m.
Proof.
  intros Hwf. unfold get_message. destruct local.
  - pose proof (get_local_resident (cache (core s)) id now m Hwf). by destruct (get_local_origin_message _ id now).
  - pose proof (get_at_resident (cache (core s)) id now m Hwf). by destruct (get_at _ id now).
Qed.

(** What is served is resident and not dropped. *)
Definition servable_in (s : TopicState) (ic : MessageIdType * CachedMessage) : Prop :=
  dropped ic.2 = false ∧ ∃ e, (ic.1, e) ∈ resident (cache (core s)) ∧ message e = ic.2.

Lemma quiet_collect (ids : list MessageIdType) (s : TopicState) (local : bool) (now : Z) :
  quiet s (collect s ids local now).1 ∧
  (MessageCache.wf (cache (core s)) → Forall (servable_in s) (collect s ids local now).2).
Proof.
  revert s. induction ids as [|id ids IH]; intros s; cbn [collect]; [split; [apply quiet_refl|by constructor]|].
  pose proof (quiet_get_message s id local now) as Hq. pose proof (get_message_resident s id local now) as Hres.
  destruct (get_message s id local now) as [s1 c]. cbn [fst snd] in *.
  destruct (IH s1) as [Hq1 Hall]. destruct (collect s1 ids local now) as [s2 rest]. cbn [fst snd] in *.
  split; [by eapply quiet_then|]. intros Hwf. destruct (proj1 Hq Hwf) as [Hwf1 Hsub].
  assert (Forall (servable_in s) rest) as Hrest.
  { eapply Forall_impl; [by apply Hall|]. intros [k m] (Hd & e & He & Hm). split; [done|]. exists e. split; [by apply Hsub|done]. }
  destruct c as [m|]; [|done]. destruct (dropped m) eqn:Hd; [done|]. constructor; [|done].
  split; [done|]. by apply Hres.
Qed.

Lemma quiet_iwant_section (s : TopicState) (from : PeerId) (ids : list MessageIdType) (local : bool) (now : Z) :
  quiet s (iwant_section s from ids local now).1 ∧
  (MessageCache.wf (cache (core s)) → Forall (servable_in s) (iwant_section s from ids local now).2).
Proof.
  unfold iwant_section. set (s0 := if local then s else touch s now).
  assert (quiet s s0) as Hq0 by (subst s0; destruct local; quiet_chain).
  assert (cache (core s0) = cache (core s)) as Hc by (subst s0; by destruct local, s).
  destruct (quiet_collect ids s0 local now) as [Hq Hall]. unfold servable_in in *. rewrite Hc in Hall.
  destruct (collect s0 ids local now) as [s1 to_send]. cbn [fst snd] in *.
  destruct to_send as [|x l]; cbn [fst snd]; (split; [|done]).
  - by eapply quiet_then.
  - eapply quiet_then; [|apply quiet_mesh]. destruct local; [|by eapply quiet_then].
    eapply quiet_then; [|apply quiet_activity]. eapply quiet_then; [|apply quiet_touch]. by eapply quiet_then.
Qed.

Lemma quiet_digest (s : TopicState) (theirs order : list MessageIdType) (now : Z) :
  quiet s (digest_section s theirs order now).1.1 ∧
  (MessageCache.wf (cache (core s)) → Forall (servable_in s) (digest_section s theirs order now).1.2).
Proof.
  unfold digest_section. assert (cache (core (touch s now)) = cache (core s)) as Hc by by destruct s.
  match goal with |- context [collect ?a ?b ?c ?d] => destruct (quiet_collect b a c d) as [Hq Hall]; destruct (collect a b c d) end.
  unfold servable_in in *. rewrite Hc in Hall. cbn [fst snd] in *. split; [|done].
  eapply quiet_then; [apply quiet_touch|done].
Qed.

(** ** Replies and late offers *)

Lemma claim_cache (x : Topic) (k : Key) (token now : Z) : cache (claim_eager_reply_for_iwant x k token now).1 = cache x.
Proof. unfold claim_eager_reply_for_iwant. by destruct (_ !! _). Qed.

Lemma retain_shrinks (x : Topic) (next : Z) (k : Key) (now : Z) : shrinks (cache x) (cache (retain_deferred_eager_reply x next k now).1.1).
Proof. unfold retain_deferred_eager_reply. case_match; [|case_decide]; apply prune_shrinks. Qed.
Lemma drop_own_cache (x : Topic) (own : option DeferredEagerReply) : cache (drop_own x own) = cache x.
Proof. by destruct own. Qed.

Lemma settle_shrinks (x : Topic) (next : Z) (c : EagerReplyCompletion) (o : EagerReplyOutcome) (now : Z) :
  shrinks (cache x) (cache (settle_eager_reply x next c o now).1).
Proof.
  unfold settle_eager_reply, admit_eager_reply_completion.
  assert (∀ y, shrinks (cache y) (cache (drop_own y (e_own_custody c)))) as Hdrop.
  { intros y. rewrite drop_own_cache. apply shrinks_refl. }
  destruct (eager_reply_claims x !! e_key c) as [cl|]; [|apply Hdrop]. case_decide; [|apply Hdrop].
  destruct o; cbn [apply_eager_reply_outcome fst]; [apply shrinks_refl|apply (retain_shrinks (set_claims x _))|].
  cbn [a_rerequested a_completion]. set (y := set_claims x _). change (cache x) with (cache y).
  destruct (c_rerequested cl); [|apply Hdrop]. eapply shrinks_trans; [apply Hdrop|apply retain_shrinks].
Qed.

Lemma quiet_offer (s : TopicState) (p : PeerId) (now : Z) : quiet s (queue_late_local_offer s p now).
Proof. unfold queue_late_local_offer, prune_late_local_offers. repeat case_match; quiet_chain. Qed.
Lemma quiet_page (s : TopicState) (p : PeerId) (now : Z) : quiet s (late_local_offer_keys s p now).1.
Proof. unfold late_local_offer_keys. repeat case_match; cbn [fst]; quiet_chain. Qed.
(** ** Stores under [eager_admit] and [publish_store] *)

Lemma is_payload_replay_cache (s : TopicState) (p : list Z) (now : Z) : cache (core (is_payload_replay s p now).1) = cache (core s).
Proof. unfold is_payload_replay. destruct (lru_get _ _). case_match; by destruct s. Qed.
Lemma replay_refused_cache (s : TopicState) (p : list Z) : cache (core (payload_replay_was_refused s p).1) = cache (core s).
Proof. unfold payload_replay_was_refused. destruct (lru_get _ _). by destruct s. Qed.
Lemma set_cache_cache (s : TopicState) (c : BoundedMessageCache) : cache (core (set_cache s c)) = c.
Proof. by destruct s. Qed.
Lemma set_cache_replay (s : TopicState) (c : BoundedMessageCache) : replay_cache (set_cache s c) = replay_cache s.
Proof. by destruct s. Qed.
Lemma refuse_cache (s : TopicState) (p : list Z) : cache (core (refuse_payload_replays s p)) = cache (core s).
Proof. by destruct s. Qed.
Lemma mark_cache (s : TopicState) (id : MessageIdType) : cache (core (mark_message_dropped s id)) = (mark_dropped (cache (core s)) id).1.
Proof. apply set_cache_cache. Qed.
#[local] Hint Rewrite is_payload_replay_cache replay_refused_cache set_cache_cache set_cache_replay refuse_cache mark_cache : stores.

(** The entry of a message that arrives or is published at [now]. *)
Definition new_entry (p : list Z) (h : MessageHeader) (local : bool) (now : Z) : CachedEntry :=
  mkEntry (mkMessage p h false local None) (estimate_message_bytes (mkMessage p h false local None)) now.

(** Entries of [s] that may be marked dropped, and one new entry. *)
Definition extends (s s' : TopicState) (k0 : MessageIdType) (e0 : CachedEntry) : Prop :=
  MessageCache.wf (cache (core s)) → MessageCache.wf (cache (core s')) ∧
  ∀ k e, (k, e) ∈ resident (cache (core s')) →
    (k, e) ∈ resident (cache (core s)) ∨ (∃ e1, (k, e1) ∈ resident (cache (core s)) ∧ e = set_dropped e1) ∨ k = k0 ∧ (e = e0 ∨ e = set_dropped e0).

Lemma extends_quiet (s s1 s2 : TopicState) (k0 : MessageIdType) (e0 : CachedEntry) :
  extends s s1 k0 e0 → shrinks (cache (core s1)) (cache (core s2)) → extends s s2 k0 e0.
Proof. intros He Hs Hwf. destruct (He Hwf) as [Hwf1 Hel]. destruct (Hs Hwf1) as [Hwf2 Hsub]. split; [done|]. intros k e Hin. by apply Hel, Hsub. Qed.

Lemma set_dropped_twice (e : CachedEntry) : set_dropped (set_dropped e) = set_dropped e.
Proof. done. Qed.

Lemma extends_mark (s s1 s2 : TopicState) (id k0 : MessageIdType) (e0 : CachedEntry) :
  extends s s1 k0 e0 → cache (core s2) = (mark_dropped (cache (core s1)) id).1 → extends s s2 k0 e0.
Proof.
  intros He Hs Hwf. destruct (He Hwf) as [Hwf1 Hel]. rewrite Hs. split; [by apply wf_mark_dropped|].
  intros k e [[_ Hin]|(_ & e1 & Hin & ->)]%mark_dropped_resident; [by apply Hel| |done].
  destruct (Hel k e1 Hin) as [?|[(e2 & ? & ->)|[-> [-> | ->]]]]; rewrite ?set_dropped_twice; eauto.
Qed.

Lemma extends_cache_message (s s1 s2 : TopicState) (id : MessageIdType) (p : list Z) (h : MessageHeader) (local : bool) (now : Z) :
  shrinks (cache (core s)) (cache (core s1)) → cache (core s2) = (cache_message (cache (core s1)) id p h local now now).1 →
  extends s s2 id (new_entry p h local now).
Proof.
  intros Hq Hc Hwf. destruct (Hq Hwf) as [Hwf1 Hsub]. rewrite Hc. split; [by apply wf_cache_message|].
  intros k e [Hin|[-> ->]]%cache_message_resident; [left; by apply Hsub|by right; right; split; [|left]|done].
Qed.

Lemma eager_store_extends (s : TopicState) (from : PeerId) (h : MessageHeader) (p : list Z) (now : Z) :
  extends s (eager_store s from h p now) (msg_id h) (new_entry p h false now) ∧ replay_cache (eager_store s from h p now) = replay_cache s.
Proof.
  unfold eager_store. set (s1 := record_inbound_peer_activity_for_state (touch s now) from now).
  assert (quiet s s1) as Hq1 by (subst s1; quiet_chain).
  set (s2 := set_cache s1 _). assert (replay_cache s2 = replay_cache s) as Hr by (unfold s2; rewrite set_cache_replay; apply Hq1).
  pose proof (quiet_then _ _ _ (quiet_scored s2 from now (λ x, Score.record_delivery x now)) (quiet_answer _ from (msg_id h) now)) as Hq2.
  split; [|rewrite <-Hr; apply Hq2]. eapply extends_quiet; [|apply Hq2].
  eapply extends_cache_message; [apply Hq1|apply set_cache_cache].
Qed.

(** ** The replay cache *)

Definition replayed (s : TopicState) : list (MessageIdType * PayloadReplayEntry) := lru_iter (replay_cache s).

(** What it holds under a key, and the list with an entry put in front. *)
Definition replay_of (s : TopicState) (k : MessageIdType) : option PayloadReplayEntry := assoc k (replayed s).
Definition replay_front (s : TopicState) (k : MessageIdType) (e : PayloadReplayEntry) : list (MessageIdType * PayloadReplayEntry) :=
  (k, e) :: without k (replayed s).

Record replay_wf (s : TopicState) : Prop := {
  rw_nodup : NoDup (replayed s).*1;
  rw_cap : lru_cap (replay_cache s) = REPLAY_CACHE_MAX_ENTRIES;
  rw_len : Z.of_nat (length (replayed s)) ≤ REPLAY_CACHE_MAX_ENTRIES;
}.

Lemma assoc_without {V : Type} (l : list (MessageIdType * V)) (k k' : MessageIdType) :
  assoc k' (without k l) = if decide (k' = k) then None else assoc k' l.
Proof.
  induction l as [|[k1 v] l IH]; [by destruct (decide _)|]. unfold without in *. cbn [assoc].
  destruct (decide (k1 = k)) as [->|Hk].
  - rewrite filter_cons_False by (cbn; naive_solver). rewrite IH. repeat case_decide; congruence.
  - rewrite filter_cons_True by done. cbn [assoc]. rewrite IH. repeat case_decide; congruence.
Qed.

Lemma assoc_front {V : Type} (l : list (MessageIdType * V)) (k k' : MessageIdType) (v : V) :
  assoc k' ((k, v) :: without k l) = if decide (k' = k) then Some v else assoc k' l.
Proof. cbn [assoc]. rewrite assoc_without. repeat case_decide; congruence. Qed.

Lemma assoc_take {V : Type} (l : list (MessageIdType * V)) (n : nat) (k : MessageIdType) (v : V) :
  assoc k (take n l) = Some v → assoc k l = Some v.
Proof. revert n. induction l as [|[k' v'] l IH]; intros [|n]; cbn; try done. case_decide; [done|apply IH]. Qed.

Lemma length_without {V : Type} (l : list (MessageIdType * V)) (k : MessageIdType) (v : V) :
  assoc k l = Some v → (length (without k l) < length l)%nat.
Proof.
  intros Ha. apply assoc_Some, list_elem_of_split in Ha as (l1 & l2 & ->). unfold without.
  rewrite filter_app, filter_cons_False by (cbn; naive_solver). rewrite !length_app. cbn.
  pose proof (length_filter (λ kv : MessageIdType * V, kv.1 ≠ k) l1). pose proof (length_filter (λ kv : MessageIdType * V, kv.1 ≠ k) l2). lia.
Qed.

Lemma without_front {V : Type} (l : list (MessageIdType * V)) (k : MessageIdType) (v : V) : without k ((k, v) :: without k l) = without k l.
Proof.
  unfold without. rewrite filter_cons_False by (cbn; naive_solver). rewrite list_filter_filter. apply list_filter_iff. naive_solver.
Qed.

(** The entry of a payload that counts as a replay. *)
Definition live_replay (now : Z) (e : PayloadReplayEntry) : bool := bool_decide (elapsed_ns now (rp_inserted_at e) < REPLAY_CACHE_TTL).

Lemma set_replay_replayed (s : TopicState) x : replayed (set_replay s x) = lru_iter x.
Proof. by destruct s. Qed.

Lemma replay_touch (s : TopicState) (now : Z) : replay_wf s → replay_wf (touch s now).
Proof. intros [? ? ?]. by destruct s. Qed.

(** The replay cache after one entry moved to the front. *)
Lemma replay_front_wf (s s' : TopicState) (k : MessageIdType) (e e' : PayloadReplayEntry) :
  replay_wf s → replay_of s k = Some e → lru_cap (replay_cache s') = lru_cap (replay_cache s) →
  replayed s' = replay_front s k e' → replay_wf s'.
Proof.
  intros [Hnd Hcap Hlen] Ha Hc Hr. pose proof (length_without _ _ _ Ha). split; rewrite ?Hr; [by apply NoDup_front|by rewrite Hc|cbn; lia].
Qed.

Lemma replay_of_front (s s' : TopicState) (k k' : MessageIdType) (e : PayloadReplayEntry) :
  replayed s' = replay_front s k e → replay_of s' k' = if decide (k' = k) then Some e else replay_of s k'.
Proof. unfold replay_of. intros ->. apply assoc_front. Qed.

Lemma is_payload_replay_spec (s : TopicState) (p : list Z) (now : Z) :
  replay_wf s →
  let '(s', b) := is_payload_replay s p now in
  replay_wf s' ∧ b = from_option (live_replay now) false (replay_of s (blake3 p)) ∧
  if b then ∀ k, replay_of s' k = replay_of s k
  else replayed s' = take (Z.to_nat REPLAY_CACHE_MAX_ENTRIES) (replay_front s (blake3 p) (mkReplay now false)).
Proof.
  intros Hw. assert (replay_cache (touch s now) = replay_cache s) as Ht by by destruct s.
  unfold is_payload_replay. rewrite Ht. set (k := blake3 p : MessageIdType).
  destruct (lru_get_spec (replay_cache s) k) as (Hr & Hcap & Hit). destruct (lru_get (replay_cache s) k) as [l o].
  cbn [fst] in Hr, Hcap, Hit. injection Hr as ->. fold (replayed s) in Hit |- *. fold (replay_of s k) in Hit |- *.
  match goal with |- context [if ?c then (_, true) else _] =>
    assert (c = from_option (live_replay now) false (replay_of s k)) as -> by by destruct (replay_of s k) end.
  assert (Hw' := Hw). destruct Hw' as [Hnd Hc Hlen]. destruct (from_option _ _ _) eqn:Hb.
  - destruct (replay_of s k) as [e|] eqn:Ha; [|done]. split; [|split; [done|]].
    + eapply (replay_front_wf s _ k e e); [done|done|by destruct s|by destruct s].
    + intros k'. rewrite (replay_of_front s _ k k' e); [|by destruct s]. case_decide; congruence.
  - assert (lru_iter (lru_put l k (mkReplay now false)) = take (Z.to_nat REPLAY_CACHE_MAX_ENTRIES) (replay_front s k (mkReplay now false)) ∧
      lru_cap (lru_put l k (mkReplay now false)) = REPLAY_CACHE_MAX_ENTRIES) as [Hi Hc'].
    { destruct (lru_put_spec l k (mkReplay now false)) as [Hc1 Hp]. rewrite Hcap, Hc in Hc1, Hp. split; [|done].
      rewrite Hp; [|done|].
      - unfold replay_front. do 2 f_equal. rewrite Hit. destruct (replay_of s k); [apply without_front|done].
      - rewrite Hit. destruct (replay_of s k) eqn:Ha; [|done]. apply length_without in Ha. cbn. lia. }
    split; [|split; [done|]].
    + split; [rewrite set_replay_replayed, Hi|by destruct s|rewrite set_replay_replayed, Hi, length_take; unfold REPLAY_CACHE_MAX_ENTRIES; lia].
      eapply sublist_NoDup; [|apply fmap_sublist, sublist_take]. by apply NoDup_front.
    + by rewrite set_replay_replayed, Hi.
Qed.

(** After a payload was looked up it has an entry; the others may be evicted,
    and are not changed. *)
Lemma replay_lookup (s : TopicState) (p : list Z) (now : Z) (k : MessageIdType) (e : PayloadReplayEntry) :
  replay_wf s → (is_payload_replay s p now).2 = false → replay_of (is_payload_replay s p now).1 k = Some e →
  k = blake3 p ∧ e = mkReplay now false ∨ k ≠ blake3 p ∧ replay_of s k = Some e.
Proof.
  intros Hw. pose proof (is_payload_replay_spec s p now Hw) as Hs. destruct (is_payload_replay s p now) as [s' b]. cbn [fst snd].
  intros ->. destruct Hs as (_ & _ & Hr). unfold replay_of. rewrite Hr. intros Ha%assoc_take.
  unfold replay_front in Ha. rewrite assoc_front in Ha. clear Hr. case_decide; [left; by injection Ha as <-|by right].
Qed.

Lemma refuse_spec (s : TopicState) (p : list Z) :
  replay_wf s → replay_wf (refuse_payload_replays s p) ∧
  ∀ k, replay_of (refuse_payload_replays s p) k =
    if decide (k = blake3 p) then (λ e, mkReplay (rp_inserted_at e) true) <$> replay_of s k else replay_of s k.
Proof.
  intros Hw. unfold refuse_payload_replays. set (f := λ e : PayloadReplayEntry, _). set (k0 := blake3 p : MessageIdType).
  destruct (lru_get_mut_spec (replay_cache s) k0 f) as (_ & Hcap & Hit). fold (replayed s) in Hit. fold (replay_of s k0) in Hit.
  set (l := (lru_get_mut (replay_cache s) k0 f).1) in *. destruct (replay_of s k0) as [e|] eqn:Ha.
  - split; [eapply (replay_front_wf s _ k0 e (f e)); [done|done|by destruct s|by destruct s]|].
    intros k. rewrite (replay_of_front s _ k0 k (f e)); [|by destruct s]. case_decide; [|done]. subst k. by rewrite Ha.
  - assert (replayed (set_replay s l) = replayed s) as Hr by by rewrite set_replay_replayed.
    split; [destruct Hw; split; rewrite ?Hr; [done|destruct s; cbn in *; congruence|done]|].
    intros k. unfold replay_of at 1. rewrite Hr. fold (replay_of s k). case_decide; [|done]. subst k. by rewrite Ha.
Qed.

Lemma was_refused_spec (s : TopicState) (p : list Z) :
  replay_wf s → replay_wf (payload_replay_was_refused s p).1 ∧
  (payload_replay_was_refused s p).2 = from_option rp_refused false (replay_of s (blake3 p)) ∧
  ∀ k, replay_of (payload_replay_was_refused s p).1 k = replay_of s k.
Proof.
  intros Hw. unfold payload_replay_was_refused. set (k0 := blake3 p : MessageIdType).
  destruct (lru_get_spec (replay_cache s) k0) as (Hr & Hcap & Hit).
  fold (replayed s) in *. fold (replay_of s k0) in *. destruct (lru_get (replay_cache s) k0) as [l o]. cbn [fst] in *. injection Hr as ->.
  destruct (replay_of s k0) as [e|] eqn:Ha; cbn [fst snd].
  - split; [eapply (replay_front_wf s _ k0 e e); [done|done|by destruct s|by destruct s]|]. split; [done|].
    intros k. rewrite (replay_of_front s _ k0 k e); [|by destruct s]. case_decide; congruence.
  - assert (replayed (set_replay s l) = replayed s) as Hr by by rewrite set_replay_replayed.
    split; [destruct Hw; split; rewrite ?Hr; [done|destruct s; cbn in *; congruence|done]|].
    split; [done|]. intros k. unfold replay_of at 1. by rewrite Hr.
Qed.
(** The replay cache after a lookup that found nothing: the payload has its
    entry, the others stay unless the cache was full. *)
Lemma replay_inserted (s s' : TopicState) (k0 : MessageIdType) (e0 : PayloadReplayEntry) :
  replay_wf s → replayed s' = take (Z.to_nat REPLAY_CACHE_MAX_ENTRIES) (replay_front s k0 e0) →
  replay_of s' k0 = Some e0 ∧
  ∀ k, k ≠ k0 → (∀ e, replay_of s' k = Some e → replay_of s k = Some e) ∧
    (Z.of_nat (length (replayed s)) < REPLAY_CACHE_MAX_ENTRIES → replay_of s' k = replay_of s k).
Proof.
  intros Hw Hr. unfold replay_of. rewrite Hr. assert (∃ n, Z.to_nat REPLAY_CACHE_MAX_ENTRIES = S n) as [n Hn] by by eexists.
  split; [rewrite Hn; unfold replay_front; cbn [take assoc]; by rewrite decide_True|].
  intros k Hk. split.
  - intros e Ha%assoc_take. unfold replay_front in Ha. rewrite assoc_front, decide_False in Ha by done. done.
  - intros Hlen. rewrite take_ge; [unfold replay_front; by rewrite assoc_front, decide_False|].
    unfold replay_front. cbn [length]. pose proof (length_filter (λ kv : MessageIdType * PayloadReplayEntry, kv.1 ≠ k0) (replayed s)).
    unfold without. lia.
Qed.

Lemma replay_wf_eq (s s' : TopicState) : replay_cache s' = replay_cache s → replay_wf s → replay_wf s' ∧ (∀ k, replay_of s' k = replay_of s k) ∧ replayed s' = replayed s.
Proof. intros Hr [? ? ?]. assert (replayed s' = replayed s) as Heq by (unfold replayed; by rewrite Hr). split; [split; rewrite ?Heq, ?Hr; done|]. split; [|done]. intros k. unfold replay_of. by rewrite Heq. Qed.

Lemma pop_all_spec (ks : list MessageIdType) (l : lru (K := MessageIdType) (V := PayloadReplayEntry)) :
  let l' := foldl (λ l k, (lru_pop l k).1) l ks in
  lru_cap l' = lru_cap l ∧ lru_iter l' = filter (λ kv, kv.1 ∉ ks) (lru_iter l).
Proof.
  revert l. induction ks as [|k ks IH]; intros l; cbn [foldl].
  - split; [done|]. symmetry. apply filter_all. intros x _. apply not_elem_of_nil.
  - destruct (IH (lru_pop l k).1) as [Hc Hi]. destruct (lru_pop_spec l k) as (_ & Hc1 & Hi1). split; [congruence|].
    rewrite Hi, Hi1. unfold without. rewrite list_filter_filter. apply list_filter_iff. intros x. rewrite not_elem_of_cons. naive_solver.
Qed.

Lemma clean_replay (s : TopicState) (now : Z) :
  replay_wf s → replay_wf (clean_cache s now) ∧
  (∀ k e, replay_of (clean_cache s now) k = Some e → replay_of s k = Some e) ∧
  (∀ k e, replay_of s k = Some e → replay_stale now e = false → replay_of (clean_cache s now) k = Some e) ∧
  (∀ k, k ∈ (replayed (clean_cache s now)).*1 → k ∈ (replayed s).*1).
Proof.
  intros [Hnd Hcap Hlen]. set (ks := (filter (λ kv, replay_stale now kv.2 = true) (replayed s)).*1).
  set (l := foldl (λ l k, (lru_pop l k).1) (replay_cache s) ks).
  assert (replay_cache (clean_cache s now) = l) as Hl by (unfold l, ks; by destruct s).
  destruct (pop_all_spec ks (replay_cache s)) as [Hc Hi]. fold l in Hc, Hi. fold (replayed s) in Hi.
  assert (replayed (clean_cache s now) = filter (λ kv, kv.1 ∉ ks) (replayed s)) as Hr by (unfold replayed at 1; by rewrite Hl).
  assert (NoDup (filter (λ kv, kv.1 ∉ ks) (replayed s)).*1) as Hnd' by by apply NoDup_filter_keys.
  split; [split; rewrite ?Hr, ?Hl; [done|congruence|pose proof (length_filter (λ kv, kv.1 ∉ ks) (replayed s)); lia]|].
  unfold replay_of. rewrite Hr. split; [|split].
  - intros k e [_ Hin]%assoc_Some%list_elem_of_filter. by apply assoc_elem.
  - intros k e Ha Hst. apply assoc_elem; [done|]. apply list_elem_of_filter. split; [|by apply assoc_Some].
    cbn. unfold ks. rewrite list_elem_of_fmap. intros ([k' e'] & -> & [Hst' Hin]%list_elem_of_filter). cbn in *.
    apply assoc_elem in Hin; [|done]. congruence.
  - intros k. rewrite !list_elem_of_fmap. intros (kv & -> & [_ ?]%list_elem_of_filter). by exists kv.
Qed.

End Stores.

Section Props.
Context `{Hashes} `{WireFormat} `{MlDsa} `{Libm} `{!SetIter PeerId}.
Context `{!LruCache MessageIdType CachedEntry} `{!LruPut MessageIdType PayloadReplayEntry}.
Context (policy : SignaturePolicy) (verdict : list Z → ValidationAction) (key : MlDsaKeyPair) (me : PeerId).
Context (frame_encodes : GossipMessage → bool) (encode_ids : list MessageIdType → option (list Z)).
Context (decode_ids : list Z → option (list MessageIdType)).
Context (encode_ae : AntiEntropyPayload → option (list Z)) (decode_ae : list Z → option AntiEntropyPayload).
Context (cache_config : PubSubCacheConfig) (configured : nat).

(** ** The sections that add to the caches *)

Lemma eager_admit_extends (s : TopicState) (from : PeerId) (m : GossipMessage) (now : Z) :
  match (eager_admit verdict s from m now).2 with
  | Duplicate => quiet s (eager_admit verdict s from m now).1
  | MissingPayload => (eager_admit verdict s from m now).1 = s
  | _ => ∃ p, gm_payload m = Some p ∧
      extends s (eager_admit verdict s from m now).1 (msg_id (gm_header m)) (new_entry p (gm_header m) false now)
  end.
Proof.
  unfold eager_admit. destruct (has_message s _); [apply quiet_verified_duplicate|].
  destruct (gm_payload m) as [p|]; [|done].
  destruct (eager_store_extends s from (gm_header m) p now) as [He _].
  set (s1 := eager_store s from (gm_header m) p now) in *.
  pose proof (is_payload_replay_cache s1 p now) as Hc. destruct (is_payload_replay s1 p now) as [s2 replay]. cbn [fst] in Hc.
  assert (extends s s2 (msg_id (gm_header m)) (new_entry p (gm_header m) false now)) as He2.
  { eapply extends_quiet; [exact He|]. rewrite Hc. apply shrinks_refl. }
  destruct replay.
  - pose proof (replay_refused_cache s2 p) as Hc3. destruct (payload_replay_was_refused s2 p) as [s3 refused]. cbn [fst snd] in *.
    exists p. split; [done|]. assert (extends s s3 (msg_id (gm_header m)) (new_entry p (gm_header m) false now)) as He3.
    { eapply extends_quiet; [exact He2|]. rewrite Hc3. apply shrinks_refl. }
    destruct refused; [|done]. eapply extends_mark; [exact He3|apply mark_cache].
  - case_decide; cbn [fst snd].
    + exists p. split; [done|]. eapply extends_mark; [exact He2|]. by rewrite refuse_cache, mark_cache.
    + pose proof (quiet_spread s2 from (msg_id (gm_header m)) p now (verdict p)) as Hq.
      destruct (eager_spread s2 _ _ _ _ _) as [s3 to]. cbn [fst snd] in *. exists p. split; [done|].
      eapply extends_quiet; [exact He2|apply Hq].
Qed.

Lemma publish_store_extends (s : TopicState) (m : GossipMessage) (p : list Z) (now : Z) :
  extends s (publish_store me s m p now).1 (msg_id (gm_header m)) (new_entry p (gm_header m) true now).
Proof.
  unfold publish_store. cbn [fst]. eapply extends_cache_message; [apply shrinks_refl|].
  set (s1 := set_cache s _). etransitivity; [|apply (set_cache_cache s)]. fold s1.
  rewrite <-(is_payload_replay_cache s1 p now). by destruct (is_payload_replay s1 p now).1.
Qed.
(** ** Where every message comes from *)

Notation entry_topic := (entry_topic cache_config configured).
Notation fresh_topic := (fresh_topic cache_config configured).
Notation call_step := (call_step policy verdict key me frame_encodes encode_ids decode_ids encode_ae decode_ae cache_config configured).
Notation pexec := (pexec policy verdict key me frame_encodes encode_ids decode_ids encode_ae decode_ae cache_config configured).
Notation prun := (prun policy verdict key me frame_encodes encode_ids decode_ids encode_ae decode_ae cache_config configured).

(** [NonZeroUsize] and [usize] bounds. *)
Definition config_ok : Prop := 1 ≤ max_messages_per_topic cache_config < U64_MAX ∧ 0 ≤ max_bytes_per_topic cache_config < U64_MAX.

Lemma fresh_topic_empty (now : Z) :
  config_ok → MessageCache.wf (cache (core (fresh_topic now))) ∧ resident (cache (core (fresh_topic now))) = [].
Proof. intros [? ?]. split; [by apply wf_empty_cache|]. apply lru_new_spec. Qed.

(** ** Invariants of a node

    A safety property of a node is given by what it says of the topic and the
    deliveries, of the frames and messages that are under way in a call, and
    of the wire.  [laws] are the conditions under which every step of every
    call, and everything else that happens, keeps it. *)

Lemma received_app (l l' : list Delivered) : received (l ++ l') = received l ++ received l'.
Proof. apply omap_app. Qed.

Record Guarantee := mkGuarantee {
  g_state : option TopicState → list Delivered → Prop;
  g_frame : PeerId → GossipMessage → Prop;          (* a frame that came in *)
  g_publish : TopicId → list Z → Z → Prop;           (* a payload that is published *)
  g_push : GossipMessage → Prop;                     (* a frame to be pushed *)
  g_serve : MessageIdType * CachedMessage → Prop;    (* a message to be served *)
  g_wire : Out → Prop;
  g_now : Z → Prop;                                  (* a reading of the clock *)
  g_forget : Prop;                                   (* the topic may be dropped *)
}.

(** Projections of a guarantee that is given as a record. *)
Ltac guarantee_simpl := cbn [g_state g_frame g_publish g_push g_serve g_wire g_now g_forget].

Section Laws.
Context (g : Guarantee).

Record laws : Prop := {
  l_fresh now rcv : g_now g now → g_state g None rcv → g_state g (Some (fresh_topic now)) rcv;
  l_quiet s s' rcv : quiet s s' → g_state g (Some s) rcv → g_state g (Some s') rcv;
  l_clean s now rcv : g_now g now → g_state g (Some s) rcv → g_state g (Some (clean_cache s now)) rcv;
  l_forget s rcv : g_forget g → g_state g (Some s) rcv → g_state g None rcv;
  l_admit s from m now rcv :
    g_now g now → g_frame g from m → verify_message_signature policy m = true → g_state g (Some s) rcv →
    match eager_admit verdict s from m now with
    | (_, MissingPayload) => True
    | (s', Accepted _) => g_state g (Some s') (rcv ++ [Received (mkDelivery from (msg_id (gm_header m)) (default [] (gm_payload m)))]) ∧ g_push g m
    | (s', _) => g_state g (Some s') rcv
    end;
  l_publish s t p epoch id now rcv :
    g_now g now → g_publish g t p epoch → g_state g (Some s) rcv →
    let m := signed_frame key t (calculate_msg_id me t epoch p) Eager 10 p in
    g_state g (Some (publish_store me s m p now).1) (rcv ++ [Published (mkDelivery me id p)]) ∧ g_push g m;
  l_wf s rcv : g_state g (Some s) rcv → MessageCache.wf (cache (core s));
  l_servable s rcv ic : g_state g (Some s) rcv → servable_in s ic → g_serve g ic;
  l_serve p ic : g_serve g ic → g_wire g (mkOut p (serve_frame key ic.2));
  l_push p m : g_push g m → g_wire g (mkOut p m);
  l_control p t id k ttl q : k ≠ Eager → g_wire g (mkOut p (signed_frame key t id k ttl q));
}.

Definition call_good (c : Call) : Prop :=
  match c with
  | Inbound from m => kind (gm_header m) = Eager → g_frame g from m
  | EagerProbe from m | EagerRecheck from m | EagerVerify from m => g_frame g from m
  | PublishStart t p epoch _ => g_publish g t p epoch
  | EagerPush m _ | PublishPush m _ _ | PublishFinish m _ _ | StrandedStart m | StrandedTry m _ | StrandedSend m _ _ | StrandedBook m _ _ => g_push g m
  | IwantClaim _ todo | IwantSettle _ _ todo _ => Forall (g_serve g) todo
  | RetrySign e c | RetryClaim e c => g_serve g (d_msg_id e, c)
  | _ => True
  end.

Record good (n : Node) : Prop := {
  gd_state : g_state g (pn_topic n) (pn_log n);
  gd_calls : Forall call_good (pn_calls n);
  gd_wire : Forall (g_wire g) (pn_wire n);
}.

(** What the operations of a run may be. *)
Definition op_good (t : TopicId) (o : POp) : Prop :=
  match o with
  | OEnter c => call_good (enter t c)
  | OStep _ ch => g_now g (ch_now ch)
  | OClean now => g_now g now
  | OUnsubscribe => g_forget g
  | _ => True
  end.

Context (L : laws).

Lemma good_topic (n : Node) (s : TopicState) : good n → g_state g (Some s) (pn_log n) → good (n_topic n s).
Proof. by intros [? ? ?] ?. Qed.
Lemma good_send (n : Node) (l : list Out) : good n → Forall (g_wire g) l → good (n_send n l).
Proof. intros [? ? ?] Hl. split; cbn; [done|done|by apply Forall_app]. Qed.
Lemma good_counters (n : Node) (a b : Z) : good n → good (n_counters n a b).
Proof. by intros [? ? ?]. Qed.

Lemma good_entry (n : Node) (now : Z) : good n → g_now g now → g_state g (Some (entry_topic n now)) (pn_log n).
Proof. intros [Hs _ _] Hnow. unfold Plumtree.entry_topic. destruct (pn_topic n); [done|]. by apply (l_fresh L). Qed.
(** A quiet change of the topic that the call found or made. *)
Lemma good_quiet_entry (n : Node) (now : Z) (s : TopicState) : good n → g_now g now → quiet (entry_topic n now) s → good (n_topic n s).
Proof. intros Hn Hnow Hq. apply good_topic; [done|]. eapply (l_quiet L); [exact Hq|]. by apply good_entry. Qed.
Lemma good_quiet (n : Node) (s s' : TopicState) : good n → pn_topic n = Some s → quiet s s' → good (n_topic n s').
Proof. intros Hn Hs Hq. apply good_topic; [done|]. eapply (l_quiet L); [exact Hq|]. rewrite <-Hs. apply Hn. Qed.
Lemma good_quiet_core (n : Node) (s : TopicState) (x : Topic) :
  good n → pn_topic n = Some s → shrinks (cache (core s)) (cache x) → good (n_topic n (set_core s x)).
Proof. intros Hn Hs Hq. eapply good_quiet; [done|done|]. split; by destruct s. Qed.

Lemma push_good (m : GossipMessage) (to attempted : list PeerId) :
  (∀ p, g_wire g (mkOut p m)) → Forall (g_wire g) (push_to m to attempted).
Proof. intros Hm. unfold push_to. apply Forall_fmap, Forall_true. intros p. apply Hm. Qed.

Lemma servable_good (s : TopicState) (rcv : list Delivered) (l : list (MessageIdType * CachedMessage)) :
  g_state g (Some s) rcv → Forall (servable_in s) l → Forall (g_serve g) l.
Proof. intros Hs Hl. eapply Forall_impl; [exact Hl|]. intros ic. by apply (l_servable L s rcv). Qed.

Lemma iwant_good (t : TopicId) (from : PeerId) (ids : list MessageIdType) (attempted : list PeerId) (m : GossipMessage) :
  iwant_frame key frame_encodes encode_ids t ids = Some m → ∀ p, g_wire g (mkOut p m).
Proof.
  unfold iwant_frame. destruct ids as [|id ids]; [done|]. intros (q & _ & Hm)%bind_Some p. case_match; [|done].
  injection Hm as <-. by apply (l_control L).
Qed.
Lemma request_good (t : TopicId) (from : PeerId) (ids : list MessageIdType) :
  Forall (g_wire g) (mkOut from <$> option_list (iwant_frame key frame_encodes encode_ids t ids)).
Proof.
  destruct (iwant_frame key frame_encodes encode_ids t ids) as [m|] eqn:Hm; cbn; [|constructor].
  constructor; [by eapply (iwant_good t from ids [])|constructor].
Qed.

Lemma digest_good (t : TopicId) (from : PeerId) (l : list (MessageIdType * CachedMessage)) (need : list MessageIdType) :
  Forall (g_serve g) l → Forall (g_wire g) (digest_frames key frame_encodes encode_ids t from l need).
Proof.
  intros Hl. unfold digest_frames. apply Forall_app. split; [|apply request_good].
  apply Forall_fmap. apply Forall_forall. intros ic [_ Hin]%list_elem_of_filter. rewrite Forall_forall in Hl. by apply (l_serve L), Hl.
Qed.

Lemma note_inbound_good (n : Node) (from : PeerId) (now : Z) : good n → g_now g now → good (note_inbound cache_config configured n from now).
Proof. intros Hn Hnow. eapply good_quiet_entry; [done|done|]. eapply quiet_then; [apply quiet_touch|apply quiet_activity]. Qed.

Lemma step_inbound_good (n : Node) (ch : Choice) (from : PeerId) (m : GossipMessage) :
  good n → g_now g (ch_now ch) → call_good (Inbound from m) →
  good (call_step n ch (Inbound from m)).1 ∧ call_good (call_step n ch (Inbound from m)).2.
Proof.
  intros Hn Hnow Hc. pose proof (note_inbound_good n from (ch_now ch) Hn Hnow) as Hn'. cbn [Plumtree.call_step call_good] in *. unfold inbound_step.
  destruct (kind (gm_header m)) eqn:Hk; try (split; [by destruct (verify_message_signature policy m)|done]).
  - split; [done|]. by apply Hc.
  - destruct (verify_message_signature policy m); [|done]. split; [done|]. by destruct (gm_payload m) as [p|]; [destruct (decode_ids p)|].
  - destruct (verify_message_signature policy m); [|done]. split; [done|]. by destruct (gm_payload m) as [p|]; [destruct (decode_ids p)|].
  - destruct (verify_message_signature policy m); [|done]. split; [done|]. by destruct (gm_payload m) as [p|]; [destruct (decode_ae p) as [[]|]|].
Qed.

Lemma step_stranded_good (n : Node) (ch : Choice) (m : GossipMessage) (deadline : Z) (l : list PeerId) :
  good n → g_push g m →
  (good (stranded_try n m deadline).1 ∧ call_good (stranded_try n m deadline).2) ∧
  (good (stranded_send n ch m deadline l).1 ∧ call_good (stranded_send n ch m deadline l).2) ∧
  (good (stranded_book n ch m deadline l).1 ∧ call_good (stranded_book n ch m deadline l).2).
Proof.
  intros Hn Hm. assert (∀ s q, pn_topic n = Some s → good (n_topic n (set_queues s q))) as Hq.
  { intros s q Hs. eapply good_quiet; [done|done|apply quiet_queues]. }
  unfold stranded_try, stranded_send, stranded_book. destruct (pn_topic n) as [s|] eqn:Hs; [|done]. split; [|split].
  - destruct (has_message s _); [|done]. destruct (filter _ _); [|done]. split; [by apply Hq|done].
  - assert (Forall (g_wire g) (push_to m l (ch_attempted ch))) as Hw by (apply push_good; intros; by apply (l_push L)).
    destruct (push_to m l (ch_attempted ch)); [|split; [by apply good_send|done]].
    destruct (_ && _); [done|]. split; [by apply Hq|done].
  - split; [by apply Hq|]. by destruct (_ && _).
Qed.

Lemma settle_step_good (n : Node) (c : EagerReplyCompletion) (o : EagerReplyOutcome) (now : Z) : good n → good (settle_step n c o now).
Proof.
  intros Hn. unfold settle_step. destruct (pn_topic n) as [s|] eqn:Hs; [|done].
  pose proof (settle_shrinks (core s) (pn_custody n) c o now) as Hcc.
  destruct (settle_eager_reply _ _ _ _ _) as [x custody]. apply good_counters. by eapply good_quiet_core.
Qed.

Lemma step_retry_start_good (n : Node) (now : Z) (e : DeferredEagerReply) :
  good n → good (retry_start n e now).1 ∧ call_good (retry_start n e now).2.
Proof.
  intros Hn. unfold retry_start. destruct (pn_topic n) as [s|] eqn:Hs; [|done].
  assert (good (n_topic n (set_core s (prune_deferred_eager_replies (core s) now)))) as Hn'.
  { eapply good_quiet_core; [done|done|]. apply prune_shrinks. }
  split; [done|]. destruct (_ && _); [|done]. destruct (assoc _ _) as [en|] eqn:Ha; [|done].
  destruct (dropped (message en)) eqn:Hd; [done|]. eapply (l_servable L); [apply Hn'|]. split; [done|]. exists en.
  split; [apply assoc_Some in Ha; by destruct s|done].
Qed.

Lemma step_retry_claim_good (n : Node) (ch : Choice) (e : DeferredEagerReply) (c : CachedMessage) :
  good n → g_serve g (d_msg_id e, c) → good (retry_claim_step key n ch e c).1 ∧ call_good (retry_claim_step key n ch e c).2.
Proof.
  intros Hn Hserve. unfold retry_claim_step. destruct (pn_topic n) as [s|] eqn:Hs; [|done].
  assert (∀ x, cache x = cache (core s) → good (n_topic n (set_core s x))) as Hq.
  { intros x Hx. eapply good_quiet_core; [done|done|]. rewrite Hx. apply shrinks_refl. }
  destruct (eager_reply_claimed _ _); [split; [by apply Hq|done]|]. case_decide; [|split; [by apply Hq|done]].
  split; [|done]. apply good_send; [by apply good_counters, Hq|]. constructor; [|constructor]. by apply (l_serve L _ (d_msg_id e, c)).
Qed.

Lemma step_verify_good (n : Node) (ch : Choice) (from : PeerId) (m : GossipMessage) :
  good n → g_now g (ch_now ch) → g_frame g from m →
  good (call_step n ch (EagerVerify from m)).1 ∧ call_good (call_step n ch (EagerVerify from m)).2.
Proof.
  intros Hn Hnow Hc. cbn [Plumtree.call_step]. destruct (verify_message_signature policy m) eqn:Hv; [|done].
  pose proof (l_admit L _ from m (ch_now ch) _ Hnow Hc Hv (good_entry n (ch_now ch) Hn Hnow)) as Hx.
  destruct (eager_admit verdict _ from m (ch_now ch)) as [s []]; cbn [fst snd] in *; [| done| | |].
  1-3: split; [by apply good_topic|done].
  destruct Hx as [Hs Hp]. split; [|done]. destruct Hn. by split.
Qed.

Lemma step_ihave_good (n : Node) (ch : Choice) (t : TopicId) (from : PeerId) (ids : list MessageIdType) :
  good n → g_now g (ch_now ch) →
  good (call_step n ch (IhaveStart t from ids)).1 ∧ call_good (call_step n ch (IhaveStart t from ids)).2.
Proof.
  intros Hn Hnow. cbn [Plumtree.call_step]. pose proof (quiet_ihave (entry_topic n (ch_now ch)) from ids (ch_now ch)) as Hq.
  destruct (ihave_section _ from ids (ch_now ch)) as [s req]. cbn [fst] in Hq.
  assert (good (n_topic n s)) as Hn' by (by eapply good_quiet_entry).
  destruct req as [|id req]; [done|]. destruct (iwant_frame key frame_encodes encode_ids t (id :: req)) as [m|] eqn:Hm; [|done].
  split; [|done]. apply good_send; [done|]. apply push_good. by eapply (iwant_good t from (id :: req) []).
Qed.

Lemma step_serve_good (n : Node) (ch : Choice) (from : PeerId) (id : MessageIdType) (cached : CachedMessage) (todo : list (MessageIdType * CachedMessage)) :
  good n → Forall (g_serve g) ((id, cached) :: todo) →
  good (serve_step key frame_encodes n ch from id cached todo).1 ∧ call_good (serve_step key frame_encodes n ch from id cached todo).2.
Proof.
  intros Hn [Hcached Htodo]%Forall_cons. unfold serve_step. destruct (pn_topic n) as [s|] eqn:Hs; [|done].
  pose proof (claim_cache (core s) (from, id) (pn_token n) (ch_now ch)) as Hcc.
  destruct (claim_eager_reply_for_iwant _ _ _ _) as [x owned]. cbn [fst] in Hcc.
  assert (good (n_topic n (set_core s x))) as Hn' by (eapply good_quiet_core; [done|done|rewrite Hcc; apply shrinks_refl]).
  destruct owned; [|done]. destruct (forwardable_payload _); [|split; [by apply good_counters|done]].
  destruct (frame_encodes _); [|split; [by apply good_counters|done]]. split; [|by destruct (ch_error ch)].
  apply good_send; [by apply good_counters|]. apply push_good. intros q. by apply (l_serve L q (id, cached)).
Qed.

Lemma step_publish_good (n : Node) (ch : Choice) (t : TopicId) (p : list Z) (epoch : Z) (target : option PeerId) :
  good n → g_now g (ch_now ch) → g_publish g t p epoch →
  good (call_step n ch (PublishStart t p epoch target)).1 ∧ call_good (call_step n ch (PublishStart t p epoch target)).2.
Proof.
  intros Hn Hnow Hc. cbn [Plumtree.call_step]. destruct (msg_id_after_local_sign _ _) as [id|]; [|done]. destruct (frame_encodes _); [|done].
  destruct (l_publish L _ t p epoch id (ch_now ch) _ Hnow Hc (good_entry n (ch_now ch) Hn Hnow)) as [Hs Hp].
  destruct (publish_store me _ _ p (ch_now ch)) as [s to]. split; [|done]. destruct Hn. by split.
Qed.

Lemma step_finish_good (n : Node) (ch : Choice) (m : GossipMessage) (attempted : list PeerId) (succeeded : nat) :
  good n → g_push g m →
  good (call_step n ch (PublishFinish m attempted succeeded)).1 ∧ call_good (call_step n ch (PublishFinish m attempted succeeded)).2.
Proof.
  intros Hn Hm. cbn [Plumtree.call_step]. destruct (pn_topic n) as [s|] eqn:Hs; [|by destruct (_ && _)].
  pose proof (quiet_publish_finish s (msg_id (gm_header m)) attempted succeeded (ch_now ch)) as Hq.
  destruct (publish_finish s _ attempted succeeded (ch_now ch)) as [s' stranded]. split; [by eapply good_quiet|by destruct stranded].
Qed.

Lemma step_digest_good (n : Node) (ch : Choice) (t : TopicId) (from : PeerId) (ids : list MessageIdType) :
  good n → g_now g (ch_now ch) →
  good (call_step n ch (DigestStart t from ids)).1 ∧ good (call_step n ch (ResponseStart t from ids)).1 ∧
  (good (call_step n ch (DigestSend t from)).1 ∧ call_good (call_step n ch (DigestSend t from)).2).
Proof.
  intros Hn Hnow. pose proof (good_entry n (ch_now ch) Hn Hnow) as Het. cbn [Plumtree.call_step]. split; [|split].
  - destruct (quiet_digest (entry_topic n (ch_now ch)) ids (ch_order ch) (ch_now ch)) as [Hq Hl].
    destruct (digest_section _ ids (ch_order ch) (ch_now ch)) as [[s l] need]. cbn [fst snd] in *.
    apply good_send; [by eapply good_quiet_entry|]. apply digest_good. eapply servable_good; [exact Het|]. by eapply Hl, (l_wf L).
  - destruct (pn_topic n) as [s|] eqn:Hs; cbn [response_section]; (apply good_send; [|apply request_good]); [|done].
    eapply good_quiet; [done|done|apply quiet_touch].
  - unfold digest_send. destruct (pn_topic n); [|done]. destruct (cached_message_ids _); [done|]. destruct (encode_ae _); [|done].
    destruct (frame_encodes _); [|done]. split; [|done]. apply good_send; [done|]. apply push_good. intros q. by apply (l_control L).
Qed.

Lemma step_iwant_good (n : Node) (ch : Choice) (from : PeerId) (ids : list MessageIdType) (local : bool) :
  good n → g_now g (ch_now ch) →
  good (call_step n ch (IwantStart from ids local)).1 ∧ call_good (call_step n ch (IwantStart from ids local)).2.
Proof.
  intros Hn Hnow. pose proof (good_entry n (ch_now ch) Hn Hnow) as Het. cbn [Plumtree.call_step].
  destruct (quiet_iwant_section (entry_topic n (ch_now ch)) from ids local (ch_now ch)) as [Hq Hl].
  destruct (iwant_section _ from ids local (ch_now ch)) as [s l]. cbn [fst snd] in *.
  assert (good (n_topic n s) ∧ Forall (g_serve g) l) as Hres.
  { split; [by eapply good_quiet_entry|]. eapply servable_good; [exact Het|]. by eapply Hl, (l_wf L). }
  destruct (pn_topic n), local; done.
Qed.

Lemma call_step_good (n : Node) (ch : Choice) (c : Call) :
  good n → g_now g (ch_now ch) → call_good c → good (call_step n ch c).1 ∧ call_good (call_step n ch c).2.
Proof.
  intros Hn Hnow Hc.
  destruct c as [from m|from m|from m|from m|m to|t p epoch target|m to target|m att suc|m|m dl|m dl to|m dl reached|t from ids|from ids o|from ids local|from todo|c o todo failed|e|e c|e c|c o|t from ids|t from ids|t|t to|ok].
  - by apply step_inbound_good.
  - split; [done|]. cbn [Plumtree.call_step]. by destruct (match pn_topic n with Some s => _ | None => _ end).
  - cbn [Plumtree.call_step]. destruct (pn_topic n) as [s|] eqn:Hs; [|done]. destruct (has_message s _); [|done].
    split; [|done]. eapply good_quiet; [done|done|apply quiet_duplicate].
  - by apply step_verify_good.
  - cbn [Plumtree.call_step]. destruct (forwardable_payload _); [|done]. destruct (frame_encodes m); [|done]. split; [|done].
    apply good_send; [done|]. apply push_good. intros q. by apply (l_push L).
  - by apply step_publish_good.
  - split; [|done]. apply good_send; [done|]. apply Forall_app. split; apply push_good; intros q; by apply (l_push L).
  - by apply step_finish_good.
  - done.
  - by apply (step_stranded_good n ch m dl []).
  - by apply (step_stranded_good n ch m dl to).
  - by apply (step_stranded_good n ch m dl reached).
  - by apply step_ihave_good.
  - cbn [Plumtree.call_step]. destruct (pn_topic n) as [s|] eqn:Hs; [|done]. split; [|done]. eapply good_quiet; [done|done|apply quiet_outcome].
  - by apply step_iwant_good.
  - destruct todo as [|[id cached] todo]; [done|]. by apply step_serve_good.
  - split; [by apply settle_step_good|]. cbn [Plumtree.call_step snd]. by destruct failed.
  - by apply step_retry_start_good.
  - cbn [Plumtree.call_step]. case_decide; [done|]. destruct (_ && _); [done|]. split; [|done].
    destruct (pn_topic n) as [s|] eqn:Hs; [|done]. unfold forget_custody. eapply good_quiet_core; [done|done|apply shrinks_refl].
  - by apply step_retry_claim_good.
  - split; [by apply settle_step_good|done].
  - split; [by apply (step_digest_good n ch t from ids)|]. cbn [Plumtree.call_step]. by destruct (digest_section _ _ _ _) as [[? ?] ?].
  - split; [by apply (step_digest_good n ch t from ids)|]. cbn [Plumtree.call_step]. by destruct (pn_topic n).
  - split; cbn [Plumtree.call_step]; (destruct (pn_topic n); [|done]); by destruct (_ ++ _).
  - by apply (step_digest_good n ch t to []).
  - done.
Qed.

Lemma on_topic_good (n : Node) (f : TopicState → TopicState) :
  good n → (∀ s, g_state g (Some s) (pn_log n) → g_state g (Some (f s)) (pn_log n)) → good (on_topic n f).
Proof.
  intros Hn Hf. unfold on_topic. destruct (pn_topic n) as [s|] eqn:Hs; [|done]. apply good_topic; [done|]. apply Hf. rewrite <-Hs. apply Hn.
Qed.
Lemma on_topic_quiet (n : Node) (f : TopicState → TopicState) : good n → (∀ s, quiet s (f s)) → good (on_topic n f).
Proof. intros Hn Hf. apply on_topic_good; [done|]. intros s. apply (l_quiet L), Hf. Qed.

Lemma pexec_good (t : TopicId) (n : Node) (o : POp) : op_good t o → good n → good (pexec t n o).
Proof.
  intros Ho Hn. destruct o as [c|i ch|m|q|now|p now|p now|p k|p k now|]; cbn [Plumtree.pexec].
  - destruct Hn. split; cbn; [done| |done]. apply Forall_app. by split; [|constructor].
  - destruct (pn_calls n !! i) as [c|] eqn:Hi; [|done].
    assert (call_good c) as Hc by (eapply Forall_lookup_1; [apply Hn|exact Hi]).
    destruct (call_step_good n ch c Hn Ho Hc) as [[Hs _ Hw] Hc']. destruct (call_step n ch c) as [n' c'].
    split; cbn; [done| |done]. apply Forall_insert; [apply Hn|done].
  - apply on_topic_quiet; [done|]. intros s. apply quiet_mesh.
  - apply on_topic_quiet; [done|]. intros s. apply quiet_queues.
  - apply on_topic_good; [done|]. intros s. by apply (l_clean L).
  - apply on_topic_quiet; [done|]. intros s. apply quiet_offer.
  - apply on_topic_quiet; [done|]. intros s. apply quiet_page.
  - apply on_topic_quiet; [done|]. intros s. apply quiet_offers.
  - apply on_topic_quiet; [done|]. intros s. apply quiet_offers.
  - destruct Hn as [Hs Hc Hw]. split; cbn; [|done|done]. destruct (pn_topic n); [|done]. by eapply (l_forget L).
Qed.

Lemma prun_good (t : TopicId) (os : list POp) (n : Node) : Forall (op_good t) os → good n → good (prun t n os).
Proof.
  intros Hos. revert n. induction Hos as [|o os Ho Hos IH]; intros n Hn; [done|]. cbn. apply IH. by apply pexec_good.
Qed.

Lemma start_good : g_state g None [] → good node_start.
Proof. intros Hs. by split. Qed.
End Laws.
(** ** The authenticity of what a node delivers and sends *)

Section Authentic.
Context (t : TopicId) (entered : Call → Prop) (Hconfig : config_ok).

(** A frame of this topic that came in and verifies. *)
Definition verified_frame (from : PeerId) (m : GossipMessage) : Prop :=
  (entered (Inbound from m) ∨ entered (EagerProbe from m)) ∧ Types.topic (gm_header m) = t ∧ kind (gm_header m) = Eager ∧ verify_message_signature policy m = true.
(** A frame that this node signed for a payload that its application published. *)
Definition published_frame (m : GossipMessage) : Prop :=
  ∃ p epoch target, entered (PublishStart t p epoch target) ∧ m = signed_frame key t (calculate_msg_id me t epoch p) Eager 10 p.

Definition origin (h : MessageHeader) (p : list Z) : Prop :=
  ∃ m, (published_frame m ∨ ∃ from, verified_frame from m) ∧ gm_header m = h ∧ gm_payload m = Some p.

Definition topic_origin (s : TopicState) : Prop :=
  MessageCache.wf (cache (core s)) ∧ ∀ k e, (k, e) ∈ resident (cache (core s)) → origin (header (message e)) (payload (message e)).

Definition received_origin (d : Delivery) : Prop :=
  ∃ m, verified_frame (dl_from d) m ∧ msg_id (gm_header m) = dl_id d ∧ gm_payload m = Some (dl_payload d).

Definition authentic : Guarantee := {|
  g_state o rcv := from_option topic_origin True o ∧ Forall received_origin (received rcv);
  g_frame from m := (entered (Inbound from m) ∨ entered (EagerProbe from m)) ∧ Types.topic (gm_header m) = t ∧ kind (gm_header m) = Eager;
  g_publish t' p epoch := t' = t ∧ ∃ target, entered (PublishStart t p epoch target);
  g_push m := ∃ p, gm_payload m = Some p ∧ origin (gm_header m) p;
  g_serve ic := origin (header ic.2) (payload ic.2);
  g_wire o := kind (gm_header (out_msg o)) = Eager → ∃ p, gm_payload (out_msg o) = Some p ∧ origin (gm_header (out_msg o)) p;
  g_now _ := True;
  g_forget := True;
|}.

Lemma topic_origin_extends (s s' : TopicState) (k0 : MessageIdType) (e0 : CachedEntry) :
  topic_origin s → extends s s' k0 e0 → origin (header (message e0)) (payload (message e0)) → topic_origin s'.
Proof.
  intros [Hwf Ho] Hs He0. destruct (Hs Hwf) as [? Hel]. split; [done|].
  intros k e [Hin|[(e1 & Hin & ->)|[-> [-> | ->]]]]%Hel; [by eapply Ho|by apply (Ho k e1)|done|done].
Qed.

Lemma topic_origin_shrinks (s s' : TopicState) : shrinks (cache (core s)) (cache (core s')) → topic_origin s → topic_origin s'.
Proof. intros Hs [Hwf Ho]. destruct (Hs Hwf) as [? Hsub]. split; [done|]. intros k e Hin. by eapply Ho, Hsub. Qed.

Lemma clean_shrinks (s : TopicState) (now : Z) : shrinks (cache (core s)) (cache (core (clean_cache s now))).
Proof. destruct s. apply prune_shrinks. Qed.

Lemma authentic_admit (s : TopicState) (from : PeerId) (m : GossipMessage) (now : Z) (rcv : list Delivered) :
  g_frame authentic from m → verify_message_signature policy m = true → g_state authentic (Some s) rcv →
  match eager_admit verdict s from m now with
  | (_, MissingPayload) => True
  | (s', Accepted _) => g_state authentic (Some s') (rcv ++ [Received (mkDelivery from (msg_id (gm_header m)) (default [] (gm_payload m)))]) ∧ g_push authentic m
  | (s', _) => g_state authentic (Some s') rcv
  end.
Proof.
  cbn. intros (Hin & Ht & Hk) Hv [Hs Hr].
  assert (verified_frame from m) as Hf by done.
  pose proof (eager_admit_extends s from m now) as Hx. destruct (eager_admit verdict s from m now) as [s' r]. cbn [fst snd] in Hx.
  assert (∀ p, gm_payload m = Some p → origin (gm_header m) p) as Hm.
  { intros p Hp. exists m. split; [right; by exists from|done]. }
  destruct r; [|done| | |].
  - split; [|done]. eapply topic_origin_shrinks; [apply Hx|done].
  - destruct Hx as (p & Hp & He). split; [|done]. eapply topic_origin_extends; [done|exact He|by apply Hm].
  - destruct Hx as (p & Hp & He). split; [|done]. eapply topic_origin_extends; [done|exact He|by apply Hm].
  - destruct Hx as (p & Hp & He). split; [split|].
    + eapply topic_origin_extends; [done|exact He|by apply Hm].
    + rewrite received_app. apply Forall_app. split; [done|]. constructor; [|done]. exists m. by rewrite Hp.
    + exists p. by split; [|apply Hm].
Qed.

Lemma authentic_laws : laws authentic.
Proof.
  unfold authentic. split; guarantee_simpl.
  - intros now rcv _ [_ Hr]. split; [|done]. destruct (fresh_topic_empty now Hconfig) as [? He].
    split; [done|]. intros k e. rewrite He. intros Hin. by apply not_elem_of_nil in Hin.
  - intros s s' rcv Hq [Hs Hr]. split; [|done]. eapply topic_origin_shrinks; [apply Hq|exact Hs].
  - intros s now rcv _ [Hs Hr]. split; [|done]. eapply topic_origin_shrinks; [apply clean_shrinks|exact Hs].
  - intros s rcv _ [_ Hr]. done.
  - intros s from m now rcv _. apply authentic_admit.
  - intros s t' p epoch id now rcv _ (-> & target & Hp) [Hs Hr]. set (m := signed_frame key t (calculate_msg_id me t epoch p) Eager 10 p).
    assert (origin (gm_header m) p) as Hm by (exists m; split; [left; by exists p, epoch, target|done]).
    split; [|by exists p]. split; [|by rewrite received_app, app_nil_r].
    eapply topic_origin_extends; [exact Hs|apply (publish_store_extends s m)|done].
  - intros s rcv [Hs _]. apply Hs.
  - intros s rcv [k m] [Hs _] (_ & e & Hin & Hm). cbn in *. subst m. by eapply (proj2 Hs).
  - intros p ic Ho _. by exists (payload ic.2).
  - intros p m Hp _. done.
  - done.
Qed.
End Authentic.

(** A verified frame with the policy that refuses version 1 is bound to its payload. *)
Lemma verified_binds_payload (m : GossipMessage) :
  policy = RejectV1 → verify_message_signature policy m = true → payload_hash (gm_header m) = Some (blake3 (default [] (gm_payload m))).
Proof.
  intros -> . unfold verify_message_signature, verify_payload_covering_signature.
  destruct (payload_hash (gm_header m)) as [h|].
  - repeat case_match; try done. intros [_ Hb%bool_decide_eq_true]%andb_true_iff. by rewrite Hb.
  - repeat case_match; try done. by rewrite andb_false_r.
Qed.

(** C3. Whatever the interleaving of calls, mesh changes and background work:
    every message that the application receives arrived in an EAGER frame of
    this topic from that sender whose signature verified, with that
    identifier and payload; and every EAGER frame that leaves (pushed,
    published, or served to an IWANT or a digest) carries the header and
    payload of such a frame or of one that this node's application published
    and this node signed.  With version 1 refused, the header of every EAGER
    frame that leaves commits to exactly the payload it carries. *)
Theorem plum_authentic (t : TopicId) (os : list POp) :
  config_ok →
  let n := prun t node_start os in
  let entered c := OEnter c ∈ os in
  (∀ d, d ∈ pn_received n → received_origin t entered d) ∧
  ∀ o, o ∈ pn_wire n → kind (gm_header (out_msg o)) = Eager →
    ∃ p, gm_payload (out_msg o) = Some p ∧ origin t entered (gm_header (out_msg o)) p ∧
      (policy = RejectV1 → payload_hash (gm_header (out_msg o)) = Some (blake3 p)).
Proof.
  intros Hcfg n entered.
  assert (good (authentic t entered) n) as [[_ Hr] _ Hw].
  { apply prun_good; [by apply authentic_laws| |by apply start_good].
    apply Forall_forall. intros [c| | | | | | | | |] Hin; try done. cbn.
    destruct c; cbn; try done; repeat case_decide; cbn; naive_solver. }
  split; [exact (proj1 (Forall_forall _ _) Hr)|]. pose proof (proj1 (Forall_forall _ _) Hw) as Hw'. intros o Ho Hk. destruct (Hw' o Ho Hk) as (p & Hp & Hor).
  exists p. split; [done|]. split; [done|]. intros Hpol. destruct Hor as (m & [Hpub|(from & _ & _ & _ & Hv)] & Hh & Hm).
  - destruct Hpub as (q & epoch & target & _ & ->). cbn in Hm, Hh. injection Hm as ->. by rewrite <-Hh.
  - rewrite <-Hh, (verified_binds_payload m Hpol Hv), Hm. done.
Qed.
(** What the section after the verification does to the replay cache. *)
Definition replay_effect (q : list Z) (now : Z) (s s' : TopicState) (r : Receipt) : Prop :=
  replay_wf s' ∧
  if from_option (live_replay now) false (replay_of s (blake3 q))
  then r = Replay ∧ ∀ k, replay_of s' k = replay_of s k
  else (r = Refused ∧ verdict q = DropMessage ∨ (∃ to, r = Accepted to) ∧ verdict q ≠ DropMessage) ∧
    replay_of s' (blake3 q) = Some (mkReplay now (match r with Refused => true | _ => false end)) ∧
    ∀ k, k ≠ blake3 q → (∀ e, replay_of s' k = Some e → replay_of s k = Some e) ∧
      (Z.of_nat (length (replayed s)) < REPLAY_CACHE_MAX_ENTRIES → replay_of s' k = replay_of s k).

Lemma eager_admit_replay (s : TopicState) (from : PeerId) (m : GossipMessage) (q : list Z) (now : Z) :
  replay_wf s → has_message s (msg_id (gm_header m)) = false → gm_payload m = Some q →
  replay_effect q now s (eager_admit verdict s from m now).1 (eager_admit verdict s from m now).2.
Proof.
  intros Hw Hhas Hq. unfold eager_admit. rewrite Hhas, Hq. set (id := msg_id (gm_header m)).
  destruct (eager_store_extends s from (gm_header m) q now) as [_ Hrs]. set (s1 := eager_store s from (gm_header m) q now) in *.
  destruct (replay_wf_eq s s1 Hrs Hw) as (Hw1 & Ho1 & Hl1).
  pose proof (is_payload_replay_spec s1 q now Hw1) as Hs. destruct (is_payload_replay s1 q now) as [s2 b].
  destruct Hs as (Hw2 & -> & Hs2). unfold replay_effect. rewrite <-Ho1. destruct (from_option _ _ _).
  - destruct (was_refused_spec s2 q Hw2) as (Hw3 & _ & Ho3). destruct (payload_replay_was_refused s2 q) as [s3 refused]. cbn [fst snd] in *.
    assert (replay_cache (if refused then mark_message_dropped s3 id else s3) = replay_cache s3) as Hr4 by (destruct refused; by destruct s3).
    destruct (replay_wf_eq _ _ Hr4 Hw3) as (Hw4 & Ho4 & _). split; [done|]. split; [done|]. intros k. by rewrite Ho4, Ho3, Hs2, Ho1.
  - destruct (replay_inserted s1 s2 (blake3 q) (mkReplay now false) Hw1 Hs2) as [Hin Hoth].
    assert (∀ k, k ≠ blake3 q → (∀ e, replay_of s2 k = Some e → replay_of s k = Some e) ∧
      (Z.of_nat (length (replayed s)) < REPLAY_CACHE_MAX_ENTRIES → replay_of s2 k = replay_of s k)) as Hoth'.
    { intros k Hk. rewrite <-Hl1, <-Ho1. by apply Hoth. }
    case_decide as Hv; cbn [fst snd].
    + assert (replay_cache (mark_message_dropped s2 id) = replay_cache s2) as Hr3 by by destruct s2.
      destruct (replay_wf_eq _ _ Hr3 Hw2) as (Hw3 & Ho3 & _). destruct (refuse_spec (mark_message_dropped s2 id) q Hw3) as [Hw4 Ho4].
      split; [done|]. split; [by left|]. split; [rewrite Ho4, decide_True, Ho3, Hin; done|].
      intros k Hk. rewrite Ho4, decide_False, Ho3 by done. by apply Hoth'.
    + pose proof (quiet_spread s2 from id q now (verdict q)) as [_ Hr3]. destruct (eager_spread s2 from id q now (verdict q)) as [s3 to].
      cbn [fst snd] in *. destruct (replay_wf_eq _ _ Hr3 Hw2) as (Hw3 & Ho3 & _).
      split; [done|]. split; [right; split; [by exists to|done]|]. split; [by rewrite Ho3|].
      intros k Hk. rewrite Ho3. by apply Hoth'.
Qed.

(** ... and what publishing does to it. *)
Lemma publish_replay (s : TopicState) (m : GossipMessage) (q : list Z) (now : Z) :
  replay_wf s → let s' := (publish_store me s m q now).1 in
  replay_wf s' ∧
  if from_option (live_replay now) false (replay_of s (blake3 q)) then ∀ k, replay_of s' k = replay_of s k
  else replay_of s' (blake3 q) = Some (mkReplay now false) ∧
    ∀ k, k ≠ blake3 q → (∀ e, replay_of s' k = Some e → replay_of s k = Some e) ∧
      (Z.of_nat (length (replayed s)) < REPLAY_CACHE_MAX_ENTRIES → replay_of s' k = replay_of s k).
Proof.
  intros Hw. unfold publish_store. cbn [fst]. set (s1 := set_cache s _).
  assert (replay_cache s1 = replay_cache s) as Hr1 by apply set_cache_replay.
  destruct (replay_wf_eq _ _ Hr1 Hw) as (Hw1 & Ho1 & Hl1).
  pose proof (is_payload_replay_spec s1 q now Hw1) as Hs. destruct (is_payload_replay s1 q now) as [s2 b]. cbn [fst].
  destruct Hs as (Hw2 & -> & Hs2). set (s3 := set_core_mesh _ _).
  assert (replay_cache s3 = replay_cache s2) as Hr3 by (unfold s3; by destruct s2).
  destruct (replay_wf_eq _ _ Hr3 Hw2) as (Hw3 & Ho3 & _). split; [done|]. rewrite <-Ho1. destruct (from_option _ _ _).
  - intros k. by rewrite Ho3, Hs2, Ho1.
  - destruct (replay_inserted s1 s2 (blake3 q) (mkReplay now false) Hw1 Hs2) as [Hin Hoth]. rewrite Ho3. split; [done|].
    intros k Hk. rewrite Ho3, <-Hl1, <-Ho1. by apply Hoth.
Qed.

(** ** A refused payload stays inside *)

Section Refused.
Context (p : list Z) (Hdrop : verdict p = DropMessage) (Hconfig : config_ok).

(** The payload's copies are marked, and so is its replay entry. *)
Record contained (s : TopicState) : Prop := {
  ct_wf : MessageCache.wf (cache (core s));
  ct_replay : replay_wf s;
  ct_copies : ∀ k e, (k, e) ∈ resident (cache (core s)) → payload (message e) = p → dropped (message e) = true;
  ct_entry : ∀ e, replay_of s (blake3 p) = Some e → rp_refused e = true;
}.

(** Payloads that do not collide with [p]. *)
Definition apart (q : list Z) : Prop := q = p ∨ blake3 q ≠ blake3 p.

Definition containment : Guarantee := {|
  g_state o rcv := from_option contained True o ∧ Forall (λ d, dl_payload d ≠ p) (received rcv);
  g_frame from m := apart (default [] (gm_payload m));
  g_publish t' q epoch := q ≠ p ∧ apart q;
  g_push m := gm_payload m ≠ Some p;
  g_serve ic := payload ic.2 ≠ p;
  g_wire o := kind (gm_header (out_msg o)) = Eager → gm_payload (out_msg o) ≠ Some p;
  g_now _ := True;
  g_forget := True;
|}.

Lemma contained_quiet (s s' : TopicState) : quiet s s' → contained s → contained s'.
Proof.
  intros [Hq Hr] [Hw [? ? ?] Hc He]. destruct (Hq Hw) as [? Hsub]. split; [done| | |].
  - by split; unfold replayed in *; rewrite Hr.
  - intros k e Hin. by eapply Hc, Hsub.
  - unfold replay_of, replayed. by rewrite Hr.
Qed.

(** A payload other than [p] may enter both caches. *)
Lemma contained_other (s s' : TopicState) (k0 : MessageIdType) (e0 : CachedEntry) :
  contained s → extends s s' k0 e0 → payload (message e0) ≠ p → replay_wf s' →
  (∀ e, replay_of s' (blake3 p) = Some e → ∃ e', replay_of s (blake3 p) = Some e' ∧ rp_refused e = rp_refused e') → contained s'.
Proof.
  intros [Hw _ Hc He] Hx Hne Hr Hsub. destruct (Hx Hw) as [Hw' Hel]. split; [done|done| |].
  - intros k e [Hin|[(e1 & Hin & ->)|[-> [-> | ->]]]]%Hel; [by eapply Hc|done|done|done].
  - intros e (e' & He' & ->)%Hsub. by apply He.
Qed.
(** The copy of [p] itself that arrives is marked at once. *)
Lemma eager_admit_marks (s : TopicState) (from : PeerId) (m : GossipMessage) (now : Z) :
  contained s → has_message s (msg_id (gm_header m)) = false → gm_payload m = Some p →
  ∃ s1, extends s s1 (msg_id (gm_header m)) (new_entry p (gm_header m) false now) ∧
    cache (core (eager_admit verdict s from m now).1) = (mark_dropped (cache (core s1)) (msg_id (gm_header m))).1.
Proof.
  intros [_ Hw _ He] Hhas Hq. unfold eager_admit. rewrite Hhas, Hq.
  destruct (eager_store_extends s from (gm_header m) p now) as [Hx Hrs]. set (s1 := eager_store s from (gm_header m) p now) in *.
  exists s1. split; [done|]. destruct (replay_wf_eq s s1 Hrs Hw) as (Hw1 & Ho1 & _).
  pose proof (is_payload_replay_spec s1 p now Hw1) as Hs. pose proof (is_payload_replay_cache s1 p now) as Hc.
  destruct (is_payload_replay s1 p now) as [s2 b]. cbn [fst] in Hc. destruct Hs as (Hw2 & -> & Hs2).
  destruct (from_option _ _ _) eqn:Hb.
  - destruct (was_refused_spec s2 p Hw2) as (_ & Hr & _). pose proof (replay_refused_cache s2 p) as Hc3.
    destruct (payload_replay_was_refused s2 p) as [s3 refused]. cbn [fst snd] in *.
    rewrite Hs2, Ho1 in Hr. rewrite Ho1 in Hb. destruct (replay_of s (blake3 p)) as [e|]; [|done]. cbn in Hr. rewrite (He e eq_refl) in Hr. subst refused.
    by rewrite mark_cache, Hc3, Hc.
  - rewrite decide_True by done. cbn [fst]. by rewrite refuse_cache, mark_cache, Hc.
Qed.

Lemma contained_admit (s : TopicState) (from : PeerId) (m : GossipMessage) (now : Z) :
  apart (default [] (gm_payload m)) → contained s →
  match eager_admit verdict s from m now with
  | (_, MissingPayload) => True
  | (s', Accepted _) => contained s' ∧ ∃ q, gm_payload m = Some q ∧ q ≠ p
  | (s', _) => contained s'
  end.
Proof.
  intros Hap Hs. pose proof (eager_admit_extends s from m now) as Hx.
  destruct (has_message s (msg_id (gm_header m))) eqn:Hhas.
  { unfold eager_admit. rewrite Hhas. eapply contained_quiet; [apply quiet_verified_duplicate|done]. }
  destruct (gm_payload m) as [q|] eqn:Hq; [|unfold eager_admit; by rewrite Hhas, Hq]. cbn in Hap.
  pose proof (eager_admit_replay s from m q now (ct_replay s Hs) Hhas Hq) as [Hw' Heff].
  assert (extends s (eager_admit verdict s from m now).1 (msg_id (gm_header m)) (new_entry q (gm_header m) false now)) as Hxq.
  { assert ((eager_admit verdict s from m now).2 ≠ Duplicate ∧ (eager_admit verdict s from m now).2 ≠ MissingPayload) as [Hd Hmp].
    { destruct (from_option _ _ _); [by destruct Heff as [-> _]|]. by destruct Heff as ([[-> _]|[[to ->] _]] & _). }
    destruct (eager_admit verdict s from m now).2; [done|done|..]; destruct Hx as (q' & [= <-] & ?); done. }
  destruct (decide (q = p)) as [->|Hne].
  - destruct (eager_admit_marks s from m now Hs Hhas Hq) as (s1 & Hx1 & Hc1).
    assert (contained (eager_admit verdict s from m now).1 ∧ ∀ to, (eager_admit verdict s from m now).2 ≠ Accepted to) as [Hok Hna].
    { destruct Hs as [Hw _ Hc He]. destruct (Hx1 Hw) as [Hw1 Hel]. split; [split; [rewrite Hc1; by apply wf_mark_dropped|done| |]|].
      - rewrite Hc1. intros k e [[Hk Hin]|(-> & e1 & _ & ->)]%mark_dropped_resident Hp; [|done|done].
        destruct (Hel k e Hin) as [?|[(e1 & ? & ->)|[-> _]]]; [by eapply Hc|done|done].
      - destruct (from_option _ _ _).
        + destruct Heff as [_ Heq]. rewrite Heq. apply He.
        + destruct Heff as ([[Hr _]|[_ ?]] & Hent & _); [|done]. rewrite Hent, Hr. by intros e [= <-].
      - intros to. destruct (from_option _ _ _); [destruct Heff as [-> _]; done|]. destruct Heff as ([[-> _]|[_ ?]] & _); done. }
    destruct (eager_admit verdict s from m now) as [s' [| | | |to]]; cbn [fst snd] in *; try done. by destruct (Hna to).
  - destruct Hap as [?|Hbl]; [done|].
    assert (∀ e, replay_of (eager_admit verdict s from m now).1 (blake3 p) = Some e → replay_of s (blake3 p) = Some e) as Hrep.
    { destruct (from_option _ _ _); [destruct Heff as [_ Heq]; intros e; by rewrite Heq|].
      destruct Heff as (_ & _ & Hoth). by apply (Hoth (blake3 p)). }
    assert (contained (eager_admit verdict s from m now).1) as Hok.
    { eapply contained_other; [done|exact Hxq|done|done|]. intros e He%Hrep. by exists e. }
    destruct (eager_admit verdict s from m now) as [s' []]; cbn [fst] in Hok; [done..|]. split; [done|by exists q].
Qed.
Lemma fresh_replay (now : Z) : replay_wf (fresh_topic now) ∧ replayed (fresh_topic now) = [].
Proof.
  destruct (lru_new_spec (K := MessageIdType) (V := PayloadReplayEntry) REPLAY_CACHE_MAX_ENTRIES) as [Hi Hc].
  split; [split; unfold replayed; cbn; rewrite ?Hi; [by apply NoDup_nil_2|done|done]|done].
Qed.

Lemma containment_laws : laws containment.
Proof.
  unfold containment. split; guarantee_simpl.
  - intros now rcv _ [_ Hr]. split; [|done]. destruct (fresh_topic_empty now Hconfig) as [? He]. destruct (fresh_replay now) as [? Hf].
    cbn [from_option]. split; [done|done| |].
    + intros k e. rewrite He. intros Hin. by apply not_elem_of_nil in Hin.
    + intros e. unfold replay_of. by rewrite Hf.
  - intros s s' rcv Hq [Hs Hr]. split; [|done]. by eapply contained_quiet.
  - intros s now rcv _ [[Hw Hrw Hc He] Hr]. split; [|done]. cbn [from_option].
    destruct (clean_shrinks s now Hw) as [Hw' Hsub]. destruct (clean_replay s now Hrw) as (Hrw' & Hsubr & _). split; [done|done| |].
    + intros k e Hin. by eapply Hc, Hsub.
    + intros e Ha. by apply He, Hsubr.
  - by intros s rcv _ [_ Hr].
  - intros s from m now rcv _ Hf _ [Hs Hr]. pose proof (contained_admit s from m now Hf Hs) as Ha.
    destruct (eager_admit verdict s from m now) as [s' []]; try done. destruct Ha as (? & q & -> & Hne).
    split; [|congruence]. split; [done|]. rewrite received_app. apply Forall_app. split; [done|]. by constructor.
  - intros s t' q epoch id now rcv _ [Hne Hap] [Hs Hr]. set (m := signed_frame key t' (calculate_msg_id me t' epoch q) Eager 10 q).
    split; [|cbn; congruence]. split; [|by rewrite received_app, app_nil_r]. cbn [from_option]. destruct Hap as [?|Hbl]; [done|].
    destruct (publish_replay s m q now (ct_replay s Hs)) as [Hw' Heff].
    eapply contained_other; [done|apply (publish_store_extends s m)|done|done|].
    intros e He. exists e. split; [|done]. destruct (from_option _ _ _); [by rewrite Heff in He|].
    destruct Heff as [_ Hoth]. by apply (Hoth (blake3 p)).
  - intros s rcv [Hs _]. apply Hs.
  - intros s rcv [k m] [Hs _] (Hd & e & Hin & Hm). cbn in *. subst m. intros Hp. pose proof (ct_copies s Hs k e Hin Hp). congruence.
  - intros q ic Hne _. cbn. congruence.
  - done.
  - done.
Qed.
End Refused.
(** Payloads that come in with EAGER frames or are published in a run. *)
Definition payload_in (os : list POp) (q : list Z) : Prop :=
  (∃ from m, (OEnter (Inbound from m) ∈ os ∨ OEnter (EagerProbe from m) ∈ os) ∧ default [] (gm_payload m) = q) ∨
  ∃ t epoch target, OEnter (PublishStart t q epoch target) ∈ os.

Lemma payload_in_frame (os : list POp) (c : Call) (from : PeerId) (m : GossipMessage) :
  OEnter c ∈ os → c = Inbound from m ∨ c = EagerProbe from m → payload_in os (default [] (gm_payload m)).
Proof. intros Hin [-> | ->]; left; exists from, m; eauto. Qed.

(** The calls that enter, as far as a guarantee looks at them. *)
Lemma enter_good (g : Guarantee) (t : TopicId) (c : Call) :
  (∀ from m, c = Inbound from m ∨ c = EagerProbe from m → g_frame g from m) →
  (∀ t' p epoch target, c = PublishStart t' p epoch target → g_publish g t' p epoch) → call_good g (enter t c).
Proof. intros Hf Hp. destruct c; cbn; try done; repeat case_decide; cbn; try done; [intros _; by apply Hf; left|by apply Hf; right|by eapply Hp]. Qed.

(** C2. A payload that the topic's validator refuses and that this node does not
    publish itself never reaches the application and never leaves the node:
    not by an eager push, and not in answer to an IWANT or a digest, whatever
    copies of it arrive in which frames and however the calls interleave.
    BLAKE3 must not give it the hash of another payload of the run. *)
Theorem refused_never_leaves (t : TopicId) (os : list POp) (p : list Z) :
  config_ok → verdict p = DropMessage →
  (∀ t' epoch target, OEnter (PublishStart t' p epoch target) ∉ os) →
  (∀ q, payload_in os q → blake3 q = blake3 p → q = p) →
  let n := prun t node_start os in
  (∀ d, d ∈ pn_received n → dl_payload d ≠ p) ∧
  ∀ o, o ∈ pn_wire n → kind (gm_header (out_msg o)) = Eager → gm_payload (out_msg o) ≠ Some p.
Proof.
  intros Hcfg Hdrop Hpub Hcol n.
  assert (∀ q, payload_in os q → apart p q) as Hap.
  { intros q Hq. destruct (decide (q = p)); [by left|right]. intros ?. by apply Hcol in Hq. }
  assert (good (containment p) n) as [[_ Hr] _ Hw].
  { apply prun_good; [by apply containment_laws| |by apply start_good].
    apply Forall_forall. intros [c| | | | | | | | |] Hin; try done. cbn.
    apply enter_good; intros *; [intros Hc; by eapply Hap, payload_in_frame|].
    intros ->. split; [intros ->; by eapply Hpub|]. apply Hap. right. eauto. }
  split; [exact (proj1 (Forall_forall _ _) Hr)|exact (proj1 (Forall_forall _ _) Hw)].
Qed.
(** ** Every payload is delivered at most once *)

Section Once.
Context (T0 : Z).

(** A window of one lifetime of a replay entry. *)
Definition in_window (now : Z) : Prop := T0 ≤ now < T0 + REPLAY_CACHE_TTL.

Lemma window_live (now : Z) (e : PayloadReplayEntry) :
  in_window now → in_window (rp_inserted_at e) → live_replay now e = true ∧ replay_stale now e = false.
Proof.
  unfold in_window, live_replay, replay_stale, elapsed_ns, sat_sub. intros ? ?. rewrite bool_decide_eq_true, bool_decide_eq_false. lia.
Qed.

Context (U : list (list Z)) (Hconfig : config_ok) (Hfew : Z.of_nat (length U) ≤ REPLAY_CACHE_MAX_ENTRIES).

(** What the subscribers have seen; a message from the network is news. *)
Definition seen (log : list Delivered) : list (list Z) := (λ x, dl_payload (delivery x)) <$> log.
Definition novel (log : list Delivered) : Prop := ∀ l1 d l2, log = l1 ++ Received d :: l2 → dl_payload d ∉ seen l1.

Lemma novel_snoc (log : list Delivered) (x : Delivered) :
  novel log → (∀ d, x = Received d → dl_payload d ∉ seen log) → novel (log ++ [x]).
Proof.
  intros Hl Hx l1 d l2 E. destruct l2 as [|y l2] using rev_ind.
  - apply app_inj_tail in E as [-> ->]. by apply Hx.
  - clear IHl2. rewrite app_comm_cons, app_assoc in E. apply app_inj_tail in E as [-> ->]. by eapply Hl.
Qed.
Lemma novel_received (log : list Delivered) : novel log → NoDup (dl_payload <$> received log).
Proof.
  induction log as [|x log IH] using rev_ind; intros Hl; [apply NoDup_nil_2|].
  assert (novel log) as Hl' by (intros l1 d l2 ->; apply (Hl l1 d (l2 ++ [x])); by rewrite <-app_assoc).
  rewrite received_app, fmap_app. apply NoDup_app. destruct x as [d|d]; (split; [by apply IH|]); cbn; (split; [|by repeat constructor; try apply not_elem_of_nil]); [|by intros ? _ ?%elem_of_nil].
  intros q Hq ->%list_elem_of_singleton. apply (Hl log d []); [done|]. apply list_elem_of_fmap in Hq as (d' & Hd & Hin).
  apply list_elem_of_omap in Hin as ([d''|] & Hin & [= ->]). apply list_elem_of_fmap. by exists (Received d').
Qed.

(** The replay cache knows every payload delivered or published; it holds hashes of [U]
    only, so that nothing was evicted, and nothing has expired. *)
Record remembers (s : TopicState) (log : list Delivered) : Prop := {
  rm_wf : MessageCache.wf (cache (core s));
  rm_replay : replay_wf s;
  rm_keys : ∀ k, k ∈ (replayed s).*1 → k ∈ blake3 <$> U;
  rm_window : ∀ k e, replay_of s k = Some e → in_window (rp_inserted_at e);
  rm_delivered : ∀ q, q ∈ seen log → is_Some (replay_of s (blake3 q));
}.

Definition once : Guarantee := {|
  g_state o log := novel log ∧ match o with Some s => remembers s log | None => log = [] end;
  g_frame from m := default [] (gm_payload m) ∈ U;
  g_publish t q epoch := q ∈ U;
  g_push _ := True;
  g_serve _ := True;
  g_wire _ := True;
  g_now := in_window;
  g_forget := False;
|}.

(** A new hash finds room. *)
Lemma replay_room (s : TopicState) (log : list Delivered) (q : list Z) :
  remembers s log → q ∈ U → replay_of s (blake3 q) = None → Z.of_nat (length (replayed s)) < REPLAY_CACHE_MAX_ENTRIES.
Proof.
  intros [_ [Hnd _ _] Hk _ _] Hq Hno. apply assoc_None in Hno.
  assert (length (blake3 q :: (replayed s).*1) ≤ length (blake3 <$> U))%nat as Hle.
  { apply submseteq_length, NoDup_submseteq; [by apply NoDup_cons|]. intros k [->|?]%elem_of_cons; [by apply list_elem_of_fmap_2|by apply Hk]. }
  cbn in Hle. rewrite !length_fmap in Hle. lia.
Qed.

Lemma remembers_quiet (s s' : TopicState) (log : list Delivered) : quiet s s' → remembers s log → remembers s' log.
Proof.
  intros [Hq Hr] [Hw Hrw Hk Hwin Hd]. destruct (Hq Hw) as [? _]. destruct (replay_wf_eq s s' Hr Hrw) as (? & Ho & Hl).
  split; [done|done|by rewrite Hl| |]; intros *; rewrite Ho; [apply Hwin|apply Hd].
Qed.

(** One payload of [U] is looked up, and entered if it was not there. *)
Lemma remembers_insert (s s' : TopicState) (log : list Delivered) (q : list Z) (now : Z) (refused : bool) :
  in_window now → q ∈ U → remembers s log → MessageCache.wf (cache (core s')) → replay_wf s' → replay_of s (blake3 q) = None →
  replay_of s' (blake3 q) = Some (mkReplay now refused) →
  (∀ k, k ≠ blake3 q → (Z.of_nat (length (replayed s)) < REPLAY_CACHE_MAX_ENTRIES → replay_of s' k = replay_of s k)) →
  remembers s' log.
Proof.
  intros Hnow Hq Hs Hw' Hrw' Hno Hent Hoth. pose proof (replay_room s log q Hs Hq Hno) as Hroom. destruct Hs as [_ _ Hk Hwin Hd].
  assert (∀ k, k ≠ blake3 q → replay_of s' k = replay_of s k) as Ho by auto.
  split; [done|done| | |].
  - intros k Hin. destruct (decide (k = blake3 q)) as [->|Hne]; [by apply list_elem_of_fmap_2|].
    apply Hk. destruct (replay_of s k) as [e|] eqn:Ha.
    + apply assoc_Some in Ha. apply list_elem_of_fmap. by exists (k, e).
    + rewrite <-Ho in Ha by done. by apply assoc_None in Ha.
  - intros k e. destruct (decide (k = blake3 q)) as [->|Hne]; [rewrite Hent; by intros [= <-]|]. rewrite Ho by done. apply Hwin.
  - intros q' Hin. destruct (decide (blake3 q' = blake3 q)) as [->|Hne]; [by rewrite Hent|]. rewrite Ho by done. by apply Hd.
Qed.

Lemma seen_snoc (log : list Delivered) (x : Delivered) : seen (log ++ [x]) = seen log ++ [dl_payload (delivery x)].
Proof. unfold seen. by rewrite fmap_app. Qed.
Lemma remembers_snoc (s : TopicState) (log : list Delivered) (x : Delivered) :
  is_Some (replay_of s (blake3 (dl_payload (delivery x)))) → remembers s log → remembers s (log ++ [x]).
Proof.
  intros Hx [? ? ? ? Hd]. split; [done..|]. intros q. rewrite seen_snoc. intros [Hin| ->%list_elem_of_singleton]%elem_of_app; [by apply Hd|done].
Qed.

Lemma remembers_same (s s' : TopicState) (log : list Delivered) :
  remembers s log → MessageCache.wf (cache (core s')) → replay_wf s' → (∀ k, replay_of s' k = replay_of s k) → remembers s' log.
Proof.
  intros [_ _ Hk Hwin Hd] Hw Hrw Ho. split; [done|done| | |].
  - intros k Hin. apply Hk. destruct (replay_of s k) as [e|] eqn:Ha.
    + apply assoc_Some in Ha. apply list_elem_of_fmap. by exists (k, e).
    + rewrite <-Ho in Ha. by apply assoc_None in Ha.
  - intros k e. rewrite Ho. apply Hwin.
  - intros d Hin. rewrite Ho. by apply Hd.
Qed.

(** In the window an entry of the replay cache is live. *)
Lemma replay_fresh (s : TopicState) (log : list Delivered) (k : MessageIdType) (now : Z) :
  in_window now → remembers s log → from_option (live_replay now) false (replay_of s k) = false → replay_of s k = None.
Proof.
  intros Hnow Hs Hl. destruct (replay_of s k) as [e|] eqn:Ha; [|done]. cbn in Hl.
  destruct (window_live now e Hnow (rm_window s log Hs k e Ha)). congruence.
Qed.

Lemma once_admit (s : TopicState) (from : PeerId) (m : GossipMessage) (now : Z) (log : list Delivered) :
  in_window now → default [] (gm_payload m) ∈ U → novel log → remembers s log →
  match eager_admit verdict s from m now with
  | (_, MissingPayload) => True
  | (s', Accepted _) =>
      let d := mkDelivery from (msg_id (gm_header m)) (default [] (gm_payload m)) in
      novel (log ++ [Received d]) ∧ remembers s' (log ++ [Received d])
  | (s', _) => remembers s' log
  end.
Proof.
  intros Hnow HU Hnd Hs. pose proof (eager_admit_extends s from m now) as Hx.
  destruct (has_message s (msg_id (gm_header m))) eqn:Hhas.
  { unfold eager_admit. rewrite Hhas. eapply remembers_quiet; [apply quiet_verified_duplicate|done]. }
  destruct (gm_payload m) as [q|] eqn:Hq; [|unfold eager_admit; by rewrite Hhas, Hq]. cbn in HU. cbn [default].
  destruct (eager_admit_replay s from m q now (rm_replay s log Hs) Hhas Hq) as [Hw' Heff].
  destruct (eager_admit verdict s from m now) as [s' r]. cbn [fst snd] in *.
  assert (r ≠ Duplicate → r ≠ MissingPayload → MessageCache.wf (cache (core s'))) as Hwf'.
  { intros Hd Hmp. destruct r; [done|done|..]; destruct Hx as (q' & _ & He); by apply He, Hs. }
  destruct (from_option _ _ _) eqn:Hl.
  - destruct Heff as [-> Ho]. apply (remembers_same s); [done|by apply Hwf'|done|done].
  - apply (replay_fresh s log) in Hl; [|done|done]. destruct Heff as (Hr & Hent & Hoth).
    assert (remembers s' log) as Hs'.
    { eapply remembers_insert; [done|exact HU|done| |done|done|exact Hent|intros k Hk; by apply Hoth].
      apply Hwf'; by destruct Hr as [[-> _]|[[to ->] _]]. }
    destruct Hr as [[-> _]|[[to ->] _]]; [done|]. cbn zeta. split; [|apply remembers_snoc; [cbn; by rewrite Hent|done]].
    apply novel_snoc; [done|]. intros d [= <-] Hin. cbn in Hin. destruct (rm_delivered s log Hs q Hin) as [e He]. congruence.
Qed.

Lemma once_laws : laws once.
Proof.
  unfold once. split; guarantee_simpl.
  - intros now log _ [Hnd ->]. split; [done|]. destruct (fresh_topic_empty now Hconfig) as [? _]. destruct (fresh_replay now) as [? Hf].
    split; [done|done| | |]; intros *; unfold replay_of; rewrite ?Hf; [intros Hin..|intros Hin]; by try apply not_elem_of_nil in Hin.
  - intros s s' log Hq [? Hs]. split; [done|]. by eapply remembers_quiet.
  - intros s now log Hnow [? [Hw Hrw Hk Hwin Hd]]. split; [done|]. destruct (clean_shrinks s now Hw) as [Hw' _].
    destruct (clean_replay s now Hrw) as (Hrw' & Hsub & Hkeep & Hkeys). split; [done|done| | |].
    + intros k Hin. by apply Hk, Hkeys.
    + intros k e Ha. by eapply Hwin, Hsub.
    + intros d Hin. destruct (Hd d Hin) as [e He]. exists e. apply Hkeep; [done|]. by apply window_live, (Hwin _ _ He).
  - done.
  - intros s from m now log Hnow Hf _ [Hnd Hs]. pose proof (once_admit s from m now log Hnow Hf Hnd Hs) as Ha.
    destruct (eager_admit verdict s from m now) as [s' []]; done.
  - intros s t q epoch id now log Hnow HU [Hnd Hs]. set (m := signed_frame key t (calculate_msg_id me t epoch q) Eager 10 q).
    split; [|done]. split; [by apply novel_snoc|]. destruct (publish_replay s m q now (rm_replay s log Hs)) as [Hw' Heff].
    destruct (publish_store_extends s m q now (rm_wf s log Hs)) as [Hwf' _]. destruct (from_option _ _ _) eqn:Hl.
    + apply remembers_snoc; [|by eapply remembers_same]. cbn. rewrite Heff. by destruct (replay_of s (blake3 q)).
    + apply (replay_fresh s log) in Hl; [|done|done]. destruct Heff as [Hent Hoth]. apply remembers_snoc; [eexists; exact Hent|].
      eapply remembers_insert; [done|exact HU|done|done|done|done|exact Hent|intros k Hk; by apply Hoth].
  - intros s log [_ Hs]. apply Hs.
  - done.
  - done.
  - done.
  - done.
Qed.
End Once.

(** C4. While the replay cache is not overrun, that is within its lifetime of
    five minutes and with at most 10000 different payloads: whatever the
    subscribers get from the network is news.  Its payload has been delivered to
    them by no earlier frame and by no earlier publish of this node, under
    whatever message identifiers, from whatever senders and in whatever
    concurrent calls the copies arrive; so each payload comes from the network
    at most once, and never as an echo of the node's own publish.  (Every
    publish also delivers to the node's own subscribers, which is up to the
    application.) *)
Theorem delivered_once (t : TopicId) (os : list POp) (U : list (list Z)) (T0 : Z) :
  config_ok → Z.of_nat (length U) ≤ REPLAY_CACHE_MAX_ENTRIES →
  (∀ q, payload_in os q → q ∈ U) →
  (∀ i ch, OStep i ch ∈ os → in_window T0 (ch_now ch)) → (∀ now, OClean now ∈ os → in_window T0 now) →
  OUnsubscribe ∉ os →
  let n := prun t node_start os in
  (∀ l1 d l2, pn_log n = l1 ++ Received d :: l2 → dl_payload d ∉ seen l1) ∧ NoDup (dl_payload <$> pn_received n).
Proof.
  intros Hcfg Hfew HU Hstep Hclean Hun n.
  assert (novel (pn_log n)) as Hnov; [|split; [exact Hnov|by apply novel_received]].
  assert (good (once T0 U) n) as [[Hnd _] _ _]; [|done].
  apply prun_good; [by apply once_laws| |apply start_good; split; [by intros [] ? ?|done]].
  apply Forall_forall. intros [c|i ch| | |now| | | | |] Hin; try done; cbn.
  - apply enter_good; intros *; [intros Hc; by eapply HU, payload_in_frame|]. intros ->. apply HU. right. eauto.
  - by eapply Hstep.
  - by apply Hclean.
Qed.
End Props.

(** ** IWANT claims *)

Section Claims.
Context `{Hashes} `{Libm} `{!SetIter PeerId}.
Context `{!LruCache MessageIdType CachedEntry} `{!LruPut MessageIdType PayloadReplayEntry}.


Definition deferred_ids (s : TopicState) : nat := sum_list_with (λ d, length (di_msg_ids d)) (deferred_iwants s).

Lemma outstanding_set_iwants (s : TopicState) x : outstanding_iwants (set_iwants s x) = x.
Proof. by destruct s. Qed.
Lemma has_message_iwants (s : TopicState) x id : has_message (set_iwants s x) id = has_message s id.
Proof. by destruct s. Qed.
Lemma outstanding_mesh (s : TopicState) m : outstanding_iwants (set_core_mesh s m) = outstanding_iwants s.
Proof. by destruct s. Qed.

Definition asked (from : PeerId) (now : Z) (e : OutstandingIwant) : Prop :=
  ow_peer e = from ∧ ow_requested_at e = now ∧ ow_retry_pending e = false ∧ ow_retry_not_before e = None.

(** One request: room is found unless the table is full of other claims. *)
Lemma ask_room (s : TopicState) (id : MessageIdType) :
  (size (outstanding_iwants s) ≤ MAX_IHAVE_BATCH_SIZE)%nat →
  ¬ (MAX_IHAVE_BATCH_SIZE ≤ size (delete id (outstanding_iwants s)))%nat ∨
  outstanding_iwants s !! id = None ∧ delete id (outstanding_iwants s) = outstanding_iwants s ∧ size (outstanding_iwants s) = MAX_IHAVE_BATCH_SIZE.
Proof.
  intros Hle. destruct (outstanding_iwants s !! id) as [e|] eqn:He.
  - left. rewrite map_size_delete, He. assert (size (outstanding_iwants s) ≠ 0%nat); [|cbn; lia].
    apply map_size_non_empty_iff. intros Hem. by rewrite Hem, lookup_empty in He.
  - rewrite delete_id by done. destruct (decide (size (outstanding_iwants s) = MAX_IHAVE_BATCH_SIZE)); [right|left; lia]. done.
Qed.

Record request_spec (s : TopicState) (from : PeerId) (ids : list MessageIdType) (now : Z) (s' : TopicState) (req : list MessageIdType) : Prop := {
  rq_bound : (size (outstanding_iwants s') ≤ MAX_IHAVE_BATCH_SIZE)%nat;
  rq_deferred : deferred_iwants s' = deferred_iwants s;
  rq_asked : ∀ id, id ∈ req → id ∈ ids ∧ has_message s id = false ∧ ∃ e, outstanding_iwants s' !! id = Some e ∧ asked from now e;
  rq_kept : ∀ id e, outstanding_iwants s !! id = Some e → asked from now e ∨ ow_peer e ≠ from ∧ ow_retry_not_before e = None →
    ∃ e', outstanding_iwants s' !! id = Some e' ∧ if decide (ow_peer e = from) then asked from now e' else e' = e;
  rq_complete : ∀ id, id ∈ ids → has_message s id = false → outstanding_iwants s !! id = None →
    id ∈ req ∨ size (outstanding_iwants s') = MAX_IHAVE_BATCH_SIZE;
}.

Lemma request_all_spec (from : PeerId) (ids : list MessageIdType) (now : Z) (s : TopicState) :
  (size (outstanding_iwants s) ≤ MAX_IHAVE_BATCH_SIZE)%nat →
  request_spec s from ids now (request_all s from ids now).1 (request_all s from ids now).2.
Proof.
  revert s. induction ids as [|id ids IH]; intros s Hle; cbn [request_all].
  { split; [done|done|set_solver| |set_solver]. intros id e He Ha. exists e. split; [done|].
    case_decide; [destruct Ha as [?|[? _]]; done|done]. }
  destruct (may_ask s from id now) as [|f] eqn:Hmay.
  { specialize (IH s Hle). destruct (request_all s from ids now) as [s' req]. cbn [fst snd] in *. destruct IH as [? ? Hask ? Hcomp].
    split; [done|done| |done|].
    - intros i Hi. destruct (Hask i Hi) as (? & ? & ?). split; [by right|done].
    - intros i [->|Hi]%elem_of_cons Hhas Hno; [|by apply Hcomp]. unfold may_ask in Hmay. by rewrite Hhas, Hno in Hmay. }
  rewrite outstanding_set_iwants. destruct (ask_room s id Hle) as [Hroom|(Hno & Hdel & Hfull)].
  2: { rewrite decide_True by (rewrite Hdel; lia). cbn [fst snd].
    split; rewrite ?outstanding_set_iwants, ?Hdel; [done|by destruct s|set_solver| |by right].
    intros i e He Ha. exists e. split; [done|]. case_decide; [destruct Ha as [?|[? _]]; done|done]. }
  rewrite decide_False by done. set (e0 := mkIwant from now false f None).
  match goal with |- context [request_all ?x from ids now] => set (s1 := x) end.
  assert (outstanding_iwants s1 = <[id := e0]> (delete id (outstanding_iwants s))) as Ho1.
  { unfold s1. by destruct s. }
  assert (∀ i, has_message s1 i = has_message s i) as Hh1 by (intros i; unfold s1; by destruct s).
  destruct (IH s1) as [Hb Hd Hask Hkept Hcomp].
  { rewrite Ho1, map_size_insert, lookup_delete_eq. cbn. lia. }
  destruct (request_all s1 from ids now) as [s' req]. cbn [fst snd] in *.
  assert (has_message s id = false ∧ ∀ e, outstanding_iwants s !! id = Some e → ow_peer e = from ∨ ow_retry_not_before e ≠ None) as [Hnew Hstolen].
  { unfold may_ask in Hmay. destruct (has_message s id); [done|]. split; [done|]. intros e He. rewrite He in Hmay.
    case_decide; [by left|right]. by destruct (ow_retry_not_before e). }
  assert (∃ e', outstanding_iwants s' !! id = Some e' ∧ asked from now e') as Hid.
  { destruct (Hkept id e0) as (e' & ? & Hx); [by rewrite Ho1, lookup_insert_eq|by left|]. rewrite decide_True in Hx by done. by exists e'. }
  split; [done|rewrite Hd; unfold s1; by destruct s| | |].
  - intros i [->|Hi]%elem_of_cons; [split; [by left|]; by split|]. destruct (Hask i Hi) as (? & ? & ?). rewrite <-Hh1. split; [by right|done].
  - intros i e He Ha. destruct (decide (i = id)) as [->|Hne].
    + destruct (Hstolen e He) as [Hp|Hn]; [|destruct Ha as [(_ & _ & _ & ?)|[_ ?]]; done].
      destruct Hid as (e' & ? & ?). exists e'. by rewrite decide_True.
    + apply Hkept; [by rewrite Ho1, lookup_insert_ne, lookup_delete_ne|done].
  - intros i [->|Hi]%elem_of_cons Hhas Hno; [left; by left|].
    destruct (decide (i = id)) as [->|Hne]; [left; by left|].
    destruct (Hcomp i Hi) as [?|?]; [by rewrite Hh1|by rewrite Ho1, lookup_insert_ne, lookup_delete_ne|left; by right|by right].
Qed.
Definition update_claim (from : PeerId) (f : OutstandingIwant → option OutstandingIwant) (m : gmap MessageIdType OutstandingIwant) (id : MessageIdType) :
    gmap MessageIdType OutstandingIwant :=
  match m !! id with
  | Some e => if decide (ow_peer e = from) then (match f e with Some e' => <[id := e']> m | None => delete id m end) else m
  | None => m
  end.

(** Updates of one peer's claims add none, and touch no other peer's. *)
Lemma update_claims_spec (s : TopicState) (from : PeerId) (ids : list MessageIdType) (f : OutstandingIwant → option OutstandingIwant) :
  let s' := update_claims s from ids f in
  (size (outstanding_iwants s') ≤ size (outstanding_iwants s))%nat ∧ deferred_iwants s' = deferred_iwants s ∧
  max_age (cache (core s')) = max_age (cache (core s)) ∧
  ∀ id e, outstanding_iwants s !! id = Some e → ow_peer e ≠ from → outstanding_iwants s' !! id = Some e.
Proof.
  unfold update_claims. cbn zeta. rewrite outstanding_set_iwants. split; [|split; [by destruct s|split; [by destruct s|]]].
  - change (size (foldl (update_claim from f) (outstanding_iwants s) ids) ≤ size (outstanding_iwants s))%nat.
    generalize (outstanding_iwants s). induction ids as [|id ids IH]; intros m; cbn; [done|]. etransitivity; [apply IH|].
    unfold update_claim. destruct (m !! id) as [e|] eqn:He; [|done]. case_decide; [|done].
    destruct (f e); [by rewrite map_size_insert_Some|]. rewrite map_size_delete, He. cbn. lia.
  - change (∀ id e, outstanding_iwants s !! id = Some e → ow_peer e ≠ from → foldl (update_claim from f) (outstanding_iwants s) ids !! id = Some e).
    generalize (outstanding_iwants s). induction ids as [|i ids IH]; intros m id e He Hp; cbn; [done|]. apply IH; [|done].
    unfold update_claim. destruct (m !! i) as [e1|] eqn:He1; [|done]. case_decide; [|done].
    assert (id ≠ i) by (intros ->; naive_solver). destruct (f e1); by rewrite ?lookup_insert_ne, ?lookup_delete_ne.
Qed.

Lemma prune_deferred_spec (s : TopicState) (now : Z) :
  let s' := prune_deferred_iwants s now in
  (size (outstanding_iwants s') ≤ size (outstanding_iwants s))%nat ∧ (deferred_ids s' ≤ deferred_ids s)%nat ∧
  (∀ id, has_message s' id = has_message s id) ∧ max_age (cache (core s')) = max_age (cache (core s)) ∧
  (∀ id e, outstanding_iwants s' !! id = Some e → outstanding_iwants s !! id = Some e) ∧
  ∀ id e, outstanding_iwants s !! id = Some e → iwant_recent now (max_age (cache (core s))) e = true → outstanding_iwants s' !! id = Some e.
Proof.
  assert (outstanding_iwants (prune_deferred_iwants s now) =
    filter (λ kv, iwant_recent now (max_age (cache (core s))) kv.2 = true) (outstanding_iwants s)) as Ho by by destruct s.
  assert (sublist (deferred_iwants (prune_deferred_iwants s now)) (deferred_iwants s)) as Hd by (destruct s; apply sublist_filter).
  cbn zeta. rewrite Ho. split; [apply map_size_filter|]. split; [|split; [by destruct s|split; [by destruct s|split]]].
  - unfold deferred_ids. induction Hd; cbn; lia.
  - intros id e [? _]%map_lookup_filter_Some. done.
  - intros id e He Hr. apply map_lookup_filter_Some. by split.
Qed.

Lemma retain_deferred_spec (s : TopicState) (peer : PeerId) (ids : list MessageIdType) (now : Z) :
  let s' := (retain_deferred_iwant s peer ids now).1 in
  (deferred_ids s ≤ MAX_DEFERRED_IWANT_IDS)%nat →
  (size (outstanding_iwants s') ≤ size (outstanding_iwants s))%nat ∧ (deferred_ids s' ≤ MAX_DEFERRED_IWANT_IDS)%nat ∧
  ∀ id e, outstanding_iwants s !! id = Some e → iwant_recent now (max_age (cache (core s))) e = true → outstanding_iwants s' !! id = Some e.
Proof.
  cbn zeta. intros Hd. unfold retain_deferred_iwant. destruct (prune_deferred_spec s now) as (Hsz & Hdef & _ & _ & _ & Hkeep).
  set (s1 := prune_deferred_iwants s now) in *. case_match; [cbn [fst]; split; [done|split; [lia|done]]|].
  case_decide as Hfull; cbn [fst]; [split; [done|split; [lia|done]]|].
  split; [by destruct s1|]. split; [|by destruct s1].
  fold (deferred_ids s1) in Hfull. unfold deferred_ids in *. destruct s1. cbn. rewrite sum_list_with_app. cbn in *. lia.
Qed.

Lemma request_all_age (from : PeerId) (ids : list MessageIdType) (now : Z) (s : TopicState) :
  max_age (cache (core (request_all s from ids now).1)) = max_age (cache (core s)).
Proof.
  revert s. induction ids as [|id ids IH]; intros s; cbn [request_all]; [done|].
  destruct (may_ask s from id now); [apply IH|]. case_decide; [by destruct s|].
  match goal with |- context [request_all ?x from ids now] => specialize (IH x); destruct (request_all x from ids now) end.
  cbn [fst] in *. rewrite IH. by destruct s.
Qed.

Lemma outcome_spec (s : TopicState) (from : PeerId) (ids : list MessageIdType) (o : IwantOutcome) (now : Z) (s' : TopicState) :
  (deferred_ids s ≤ MAX_DEFERRED_IWANT_IDS)%nat → s' = iwant_outcome s from ids o now →
  (size (outstanding_iwants s') ≤ size (outstanding_iwants s))%nat ∧ (deferred_ids s' ≤ MAX_DEFERRED_IWANT_IDS)%nat ∧
  ∀ id e, outstanding_iwants s !! id = Some e → ow_peer e ≠ from → iwant_recent now (max_age (cache (core s))) e = true →
    outstanding_iwants s' !! id = Some e.
Proof.
  intros Hd ->. assert (∀ f, let s1 := update_claims s from ids f in
    (size (outstanding_iwants s1) ≤ size (outstanding_iwants s))%nat ∧ (deferred_ids s1 ≤ MAX_DEFERRED_IWANT_IDS)%nat ∧
    ∀ id e, outstanding_iwants s !! id = Some e → ow_peer e ≠ from → outstanding_iwants s1 !! id = Some e) as Hup.
  { intros f s1. destruct (update_claims_spec s from ids f) as (? & Hdf & _ & ?). split; [done|]. split; [|done]. unfold s1, deferred_ids in *. by rewrite Hdf. }
  destruct o; unfold iwant_outcome.
  - match goal with |- context [update_claims s from ids ?f] => destruct (Hup f) as (? & ? & Hk) end. split; [done|]. split; [done|]. intros. by apply Hk.
  - match goal with |- context [update_claims s from ids ?f] => destruct (Hup f) as (Hs1 & Hd1 & Hk1); set (s1 := update_claims s from ids f) in * end.
    assert (max_age (cache (core s1)) = max_age (cache (core s))) as Hage by apply update_claims_spec.
    destruct (retain_deferred_spec s1 from ids now Hd1) as (Hs2 & Hd2 & Hk2). rewrite Hage in Hk2.
    destruct (retain_deferred_iwant s1 from ids now) as [s2 kept]. cbn [fst] in *.
    destruct kept; [split; [lia|]; split; [done|]; intros; apply Hk2; [by apply Hk1|done]|].
    destruct (update_claims_spec s2 from ids (λ _, None)) as (Hs3 & Hd3 & _ & Hk3).
    split; [lia|]. split; [unfold deferred_ids in *; by rewrite Hd3|]. intros. apply Hk3; [|done]. apply Hk2; [by apply Hk1|done].
  - match goal with |- context [update_claims s from ids ?f] => destruct (Hup f) as (? & ? & Hk) end. split; [done|]. split; [done|]. intros. by apply Hk.
Qed.

(** An IHAVE and the fate of the IWANT it causes.  The claims and the
    identifiers waiting for a retry stay within their bounds.  Only missing
    identifiers are requested, each under a new claim of the advertiser; an
    advertised identifier that is missing and unclaimed is requested unless
    the table is full; and a claim of another peer that has not failed is
    left exactly as it was. *)
Theorem ihave_claims (s : TopicState) (from : PeerId) (ids : list MessageIdType) (now now2 : Z) (o : IwantOutcome) :
  (size (outstanding_iwants s) ≤ MAX_IHAVE_BATCH_SIZE)%nat → (deferred_ids s ≤ MAX_DEFERRED_IWANT_IDS)%nat →
  let '(s1, req) := ihave_section s from ids now in
  let s2 := iwant_outcome s1 from req o now2 in
  (size (outstanding_iwants s2) ≤ MAX_IHAVE_BATCH_SIZE)%nat ∧ (deferred_ids s2 ≤ MAX_DEFERRED_IWANT_IDS)%nat ∧
  (∀ id, id ∈ req → id ∈ ids ∧ has_message s id = false ∧ ∃ e, outstanding_iwants s1 !! id = Some e ∧ asked from now e) ∧
  (∀ id, id ∈ ids → has_message s id = false → outstanding_iwants s !! id = None →
    id ∈ req ∨ size (outstanding_iwants s1) = MAX_IHAVE_BATCH_SIZE) ∧
  ∀ id e, outstanding_iwants s !! id = Some e → ow_peer e ≠ from → ow_retry_not_before e = None →
    iwant_recent now (max_age (cache (core s))) e = true → iwant_recent now2 (max_age (cache (core s))) e = true →
    outstanding_iwants s2 !! id = Some e.
Proof.
  intros Hsz Hdef. unfold ihave_section. set (s0 := prune_deferred_iwants (touch s now) now).
  destruct (prune_deferred_spec (touch s now) now) as (Hsz0 & Hdef0 & Hhas0 & Hage0 & Hsub0 & Hkeep0). fold s0 in Hsz0, Hdef0, Hhas0, Hage0, Hsub0, Hkeep0.
  assert (outstanding_iwants (touch s now) = outstanding_iwants s ∧ deferred_ids (touch s now) = deferred_ids s ∧
    cache (core (touch s now)) = cache (core s) ∧ ∀ id, has_message (touch s now) id = has_message s id) as (Ht1 & Ht2 & Ht3 & Ht4) by by destruct s.
  rewrite Ht1, Ht2, Ht3 in *. destruct (request_all_spec from ids now s0) as [Hb Hd Hask Hkept Hcomp]; [lia|].
  pose proof (request_all_age from ids now s0) as Hage.
  destruct (request_all s0 from ids now) as [s1 req]. cbn [fst snd] in *.
  assert (deferred_ids s1 ≤ MAX_DEFERRED_IWANT_IDS)%nat as Hdef1 by (unfold deferred_ids in *; rewrite Hd; lia).
  assert (∀ id e, outstanding_iwants s !! id = Some e → ow_peer e ≠ from → ow_retry_not_before e = None →
    iwant_recent now (max_age (cache (core s))) e = true → outstanding_iwants s1 !! id = Some e) as Hk1.
  { intros id e He Hp Hn Hr. destruct (Hkept id e) as (e' & He' & Hx); [by apply Hkeep0|by right|]. rewrite decide_False in Hx by done. by subst. }
  destruct (outcome_spec s1 from req o now2 _ Hdef1 eq_refl) as (Hsz2 & Hdef2 & Hk2). rewrite Hage, Hage0 in Hk2. split; [lia|]. split; [done|]. split; [|split].
  - intros id Hid. destruct (Hask id Hid) as (? & Hh & ?). rewrite Hhas0, Ht4 in Hh. done.
  - intros id Hid Hh Hno. apply Hcomp; [done|by rewrite Hhas0, Ht4|]. destruct (outstanding_iwants s0 !! id) as [e|] eqn:He; [|done].
    apply Hsub0 in He. congruence.
  - intros id e He Hp Hn Hr1 Hr2. apply Hk2; [by apply Hk1|done|done].
Qed.
End Claims.
End PlumtreeProps.
