(* ===== verification/PlumtreeNet.v ===== *)
(** * Broadcast over a network of Plumtree nodes

    The handlers of [Plumtree], composed over a network: one message floods
    the eager graph, and what a forged identifier does to it. *)

From S2P Require Import Prelude Types Identity Float64 PeerTiming MessageCache TopicMesh Announce EagerReply Plumtree PlumtreeProps.
Import Identity F64 Timing MessageCache TopicMesh Announce EagerReply Plumtree PlumtreeProps.

#[local] Open Scope Z_scope.

Module PlumtreeNet.
Section Net.
Context `{Hashes} `{WireFormat} `{MlDsa} `{Libm} `{!SetIter PeerId}.
Context `{!LruCache MessageIdType CachedEntry} `{!LruPut MessageIdType PayloadReplayEntry}.
Context (policy : SignaturePolicy) (verdict : list Z → ValidationAction).

(** ** The first arrival of a message *)

Definition eager_of (s : TopicState) : gset PeerId := eager_peers (mesh (core s)).
Definition lazy_of (s : TopicState) : gset PeerId := lazy_peers (mesh (core s)).

Lemma eager_store_peers (s : TopicState) (from : PeerId) (h : MessageHeader) (p : list Z) (now : Z) :
  eager_of (eager_store s from h p now) = eager_of s ∧ lazy_of (eager_store s from h p now) = lazy_of s.
Proof.
  unfold eager_store, answer_iwant. set (s1 := scored _ _ _ _).
  assert (eager_of s1 = eager_of s ∧ lazy_of s1 = lazy_of s) as [He Hl] by (unfold eager_of, lazy_of, s1; by destruct s as [[[]]]).
  clearbody s1. rewrite <-He, <-Hl. unfold eager_of, lazy_of. case_match; by destruct s1 as [[[]]].
Qed.

Lemma is_payload_replay_core (s : TopicState) (p : list Z) (now : Z) : core (is_payload_replay s p now).1 = core s.
Proof. unfold is_payload_replay. destruct (lru_get _ _). case_match; by destruct s. Qed.

(** A frame from a known peer, of a payload that was not seen: accepted, and
    pushed to every other eager peer. *)
Lemma eager_admit_first (s : TopicState) (from : PeerId) (m : GossipMessage) (p : list Z) (now : Z) :
  replay_wf s → has_message s (msg_id (gm_header m)) = false → gm_payload m = Some p → replay_of s (blake3 p) = None →
  verdict p = ForwardAndDeliver → from ∈ eager_of s ∪ lazy_of s →
  (eager_admit verdict s from m now).2 = Accepted (filter (λ q, q ≠ from) (siter (eager_of s))).
Proof.
  intros Hw Hhas Hp Hno Hv Hfrom. unfold eager_admit. rewrite Hhas, Hp.
  destruct (eager_store_extends s from (gm_header m) p now) as [_ Hr]. destruct (eager_store_peers s from (gm_header m) p now) as [He Hl].
  set (s1 := eager_store s from (gm_header m) p now) in *. destruct (replay_wf_eq s s1 Hr Hw) as (Hw1 & Ho1 & _).
  pose proof (is_payload_replay_spec s1 p now Hw1) as Hs. pose proof (is_payload_replay_core s1 p now) as Hc.
  destruct (is_payload_replay s1 p now) as [s2 b]. cbn [fst] in Hc. destruct Hs as (_ & -> & _). rewrite Ho1, Hno. cbn [from_option].
  rewrite Hv, decide_False by done. unfold eager_spread, learn_sender, push_targets, add_new_peer_lazy.
  assert (mesh (core s2) = mesh (core s1)) as Hm by by rewrite Hc.
  rewrite decide_True by (rewrite Hm; unfold eager_of, lazy_of in *; set_solver). cbn [snd]. f_equal.
  rewrite <-He. unfold eager_of. rewrite <-Hm. by destruct s2.
Qed.

(** ** Messages under a forged identifier *)

Lemma spread_cache (s : TopicState) (from : PeerId) (id : MessageIdType) (p : list Z) (now : Z) (a : ValidationAction) :
  cache (core (eager_spread s from id p now a).1) = cache (core s).
Proof.
  unfold eager_spread. assert (cache (core (learn_sender s from now)) = cache (core s)) as Hl.
  { unfold learn_sender. destruct (add_new_peer_lazy _ _). by destruct s. }
  rewrite <-Hl. destruct (learn_sender s from now), a; done.
Qed.

(** A message that fits the cache is resident after it was stored. *)
Lemma cache_message_contains (c : BoundedMessageCache) (id : MessageIdType) (p : list Z) (h : MessageHeader) (now : Z) :
  MessageCache.wf c → contains c id = false → estimate_message_bytes (mkMessage p h false false None) ≤ max_bytes c →
  contains (cache_message c id p h false now now).1 id = true.
Proof.
  intros Hwf Hno Hfit. apply bool_decide_eq_false in Hno. unfold cache_message, contains.
  destruct (wf_get_at c id now Hwf) as (Hw & (_ & Hmb & _) & Hg & _). destruct (get_at c id now) as [c1 o]. cbn [fst snd] in Hw, Hmb, Hg.
  destruct (assoc id (filter _ _)) as [e|] eqn:Ha in Hg.
  { exfalso. apply Hno. apply assoc_Some, list_elem_of_filter in Ha as [_ Ha]. exists e. by apply assoc_elem; [apply Hwf|]. }
  subst o. pose proof (insert_at_spec c1 id (mkMessage p h false false None) now Hw) as Hi. cbn [fmap option_fmap option_map].
  destruct (insert_at c1 id _ now) as [c2 acc]. cbn zeta in Hi. destruct Hi as (_ & _ & Hi). rewrite decide_False in Hi by lia.
  destruct Hi as (_ & kept & ev & _ & Hit & _). cbn [fst]. apply bool_decide_eq_true. rewrite Hit. cbn [assoc]. by rewrite decide_True.
Qed.

Lemma eager_store_resident (s : TopicState) (from : PeerId) (h : MessageHeader) (p : list Z) (now : Z) :
  MessageCache.wf (cache (core s)) → has_message s (msg_id h) = false →
  estimate_message_bytes (mkMessage p h false false None) ≤ max_bytes (cache (core s)) →
  has_message (eager_store s from h p now) (msg_id h) = true.
Proof.
  intros Hwf Hhas Hfit. set (s1 := record_inbound_peer_activity_for_state (touch s now) from now).
  assert (cache (core s1) = cache (core s)) as Hc1 by by destruct s.
  assert (cache (core (eager_store s from h p now)) = (cache_message (cache (core s)) (msg_id h) p h false now now).1) as Hc.
  { rewrite <-Hc1. unfold eager_store, answer_iwant. fold s1. clearbody s1. case_match; by destruct s1 as [[]]. }
  unfold has_message. rewrite Hc. by apply cache_message_contains.
Qed.
Lemma signed_frame_verifies (k : MlDsaKeyPair) (t : TopicId) (id : MessageIdType) (kd : MessageKind) (ttl : Z) (q : list Z) :
  good_key k → verify_message_signature policy (signed_frame k t id kd ttl q) = true.
Proof.
  intros [_ Hk]. unfold verify_message_signature, signed_frame. cbn [gm_header].
  set (h := Header.seal_payload_hash _ _). destruct (Hk (serialize h)) as (sig & Hs & _ & Hv).
  unfold verify_payload_covering_signature, verify_signature, sign_message. cbn [gm_header gm_payload gm_signature gm_public_key].
  rewrite Hs. cbn [from_option Datatypes.id]. rewrite Hv. cbn. by apply bool_decide_eq_true.
Qed.

(** C5. The identifier of a message is taken from its header and is not compared
    with what it should be.  Whoever has a key may sign any payload under the
    identifier of another message: the frame is verified, delivered and
    cached, and from then on the other message is dropped as a duplicate
    before it is looked at. *)
Theorem forged_id_suppresses (mallory : MlDsaKeyPair) (t : TopicId) (id : MessageIdType) (q : list Z) (s : TopicState)
    (from from' : PeerId) (now now' : Z) (genuine : GossipMessage) :
  good_key mallory → MessageCache.wf (cache (core s)) → replay_wf s →
  has_message s id = false → replay_of s (blake3 q) = None → verdict q ≠ DropMessage →
  Z.of_nat (length q) + MESSAGE_HEADER_OVERHEAD_BYTES + MESSAGE_CRYPTO_OVERHEAD_BYTES ≤ max_bytes (cache (core s)) →
  msg_id (gm_header genuine) = id →
  let '(s1, r) := handle_eager policy verdict s from (signed_frame mallory t id Eager 10 q) now in
  is_Some r ∧ handle_eager policy verdict s1 from' genuine now' = (eager_duplicate s1 from' now', None).
Proof.
  intros Hk Hwf Hrw Hno Hrep Hv Hfit Hid. set (m := signed_frame mallory t id Eager 10 q).
  unfold handle_eager at 1. change (msg_id (gm_header m)) with id. assert (verify_message_signature policy m = true) as Hver by by apply signed_frame_verifies.
  rewrite Hno, Hver.
  destruct (eager_admit_replay verdict s from m q now Hrw Hno eq_refl) as [_ Heff]. rewrite Hrep in Heff. cbn [from_option] in Heff.
  destruct Heff as ([[_ ?]|[[to Hto] _]] & _); [done|].
  assert (has_message (eager_admit verdict s from m now).1 id = true) as Hhas.
  { pose proof (eager_store_resident s from (gm_header m) q now Hwf Hno) as Hst. revert Hto. unfold eager_admit.
    change (msg_id (gm_header m)) with id. change (gm_payload m) with (Some q). rewrite Hno.
    set (s1 := eager_store s from (gm_header m) q now) in *. pose proof (is_payload_replay_cache s1 q now) as Hc.
    destruct (is_payload_replay s1 q now) as [s2 []]; cbn [fst] in Hc; [by destruct (payload_replay_was_refused s2 q)|]. rewrite decide_False by done.
    pose proof (spread_cache s2 from id q now (verdict q)) as Hc3. destruct (eager_spread s2 from id q now (verdict q)) as [s3 to3]. cbn [fst] in *.
    intros _. unfold has_message. rewrite Hc3, Hc. apply Hst. unfold estimate_message_bytes, u64_sat_add. cbn [payload].
    pose proof (wf_limits _ Hwf). unfold MESSAGE_HEADER_OVERHEAD_BYTES, MESSAGE_CRYPTO_OVERHEAD_BYTES in *. lia. }
  destruct (eager_admit verdict s from m now) as [s1 r]. cbn [fst snd] in *. subst r. split; [done|].
  unfold handle_eager. by rewrite Hid, Hhas.
Qed.
(** ** An unbroken call is [handle_eager] *)

Section Call.
Context (key : MlDsaKeyPair) (me : PeerId).
Context (frame_encodes : GossipMessage → bool) (encode_ids : list MessageIdType → option (list Z)).
Context (decode_ids : list Z → option (list MessageIdType)).
Context (encode_ae : AntiEntropyPayload → option (list Z)) (decode_ae : list Z → option AntiEntropyPayload).
Context (cache_config : PubSubCacheConfig) (configured : nat).

Fixpoint run_call (k : nat) (n : Node) (ch : Choice) (c : Call) : Node * Call :=
  match k with
  | O => (n, c)
  | S k =>
      let '(n, c) := call_step policy verdict key me frame_encodes encode_ids decode_ids encode_ae decode_ae cache_config configured n ch c in
      run_call k n ch c
  end.

Lemma run_call_handle_eager (n : Node) (ch : Choice) (s : TopicState) (from : PeerId) (m : GossipMessage) :
  pn_topic n = Some s →
  let '(s', r) := handle_eager policy verdict s from m (ch_now ch) in
  let '(n', c) := run_call 3 n ch (EagerProbe from m) in
  pn_topic n' = Some s' ∧ (∃ ok, c = Ended ok) ∧
  pn_received n' = pn_received n ++
    (match r with Some _ => [mkDelivery from (msg_id (gm_header m)) (default [] (gm_payload m))] | None => [] end) ∧
  pn_wire n' = pn_wire n ++ (if frame_encodes m then push_to m (default [] r) (ch_attempted ch) else []).
Proof.
  intros Hs. assert (pn_wire n = pn_wire n ++ (if frame_encodes m then push_to m [] (ch_attempted ch) else [])) as Hw.
  { destruct (frame_encodes m); by rewrite app_nil_r. }
  assert (pn_received n = pn_received n ++ []) as Hr by by rewrite app_nil_r.
  assert (∀ x y, received (x ++ y) = received x ++ received y) as Happ by (intros; apply omap_app).
  unfold pn_received in *. unfold handle_eager. cbn [run_call]. unfold call_step at 1. rewrite Hs. destruct (has_message s (msg_id (gm_header m))) eqn:Hh.
  { unfold call_step at 1. rewrite Hs, Hh. cbn. eauto. }
  unfold call_step at 1. destruct (verify_message_signature policy m) eqn:Hv; [|cbn; eauto].
  assert (entry_topic cache_config configured n (ch_now ch) = s) as He by (unfold entry_topic; by rewrite Hs). rewrite He.
  destruct (eager_admit verdict s from m (ch_now ch)) as [s' r] eqn:Ha. destruct r as [| | | |to]; cbn; eauto.
  destruct (forwardable_payload _); cbn; [|eauto]. destruct (frame_encodes m); cbn; [eauto|]. rewrite app_nil_r. eauto.
Qed.
End Call.

(** ** A broadcast

    The nodes' topics, the frames under way with their senders and receivers,
    and who delivered the message, latest first. *)

Record Network := mkNetwork {
  nt_nodes : gmap PeerId TopicState;
  nt_frames : list (PeerId * PeerId);
  nt_delivered : list PeerId;
}.

(** The [i]-th frame arrives.  Nothing is lost, in any order. *)
Definition net_arrive (m : GossipMessage) (n : Network) (i : nat) (now : Z) : Network :=
  match nt_frames n !! i with
  | None => n
  | Some (from, to) =>
      let frames := delete i (nt_frames n) in
      match nt_nodes n !! to with
      | None => mkNetwork (nt_nodes n) frames (nt_delivered n)
      | Some s =>
          let '(s', r) := handle_eager policy verdict s from m now in
          mkNetwork (<[to := s']> (nt_nodes n)) (frames ++ (pair to <$> default [] r))
            (match r with Some _ => to :: nt_delivered n | None => nt_delivered n end)
      end
  end.

Definition net_run (m : GossipMessage) (n : Network) (l : list (nat * Z)) : Network :=
  foldl (λ n it, net_arrive m n it.1 it.2) n l.

Section Broadcast.
Context (m : GossipMessage) (p : list Z) (nodes : gmap PeerId TopicState) (T0 : Z).

(** A node that has not seen the message. *)
Record unaware (s : TopicState) : Prop := {
  un_replay : replay_wf s;
  un_message : has_message s (msg_id (gm_header m)) = false;
  un_payload : replay_of s (blake3 p) = None;
}.
(** A node whose replay cache knows the payload. *)
Definition aware (s : TopicState) : Prop := replay_wf s ∧ ∃ e, replay_of s (blake3 p) = Some e ∧ in_window T0 (rp_inserted_at e).

(** The publisher [o] after [publish_store], and whom it pushes to. *)
Context (o : PeerId) (so : TopicState) (targets : list PeerId).

(** The eager graph at the start. *)
Definition edges (u : PeerId) : list PeerId :=
  if decide (u = o) then targets else match nodes !! u with Some s => siter (eager_of s) | None => [] end.
Definition edge (u v : PeerId) : Prop := v ∈ edges u.

Record broadcast_setup : Prop := {
  bs_verified : verify_message_signature policy m = true;
  bs_payload : gm_payload m = Some p;
  bs_forwardable : forwardable_payload p = true;
  bs_verdict : verdict p = ForwardAndDeliver;
  bs_origin : aware so;
  bs_unaware : ∀ u s, u ≠ o → nodes !! u = Some s → unaware s;
  (** An eager peer is a node, and knows the one that pushes to it. *)
  bs_known : ∀ u v, edge u v → v ≠ o → ∃ s, nodes !! v = Some s ∧ u ∈ eager_of s ∪ lazy_of s;
}.

Definition net_start : Network := mkNetwork (<[o := so]> nodes) (pair o <$> targets) [].
Definition informed (n : Network) : list PeerId := nt_delivered n ++ [o].

(** After [k] arrivals. *)
Record flooding (k : nat) (n : Network) : Prop := {
  fl_nodup : NoDup (informed n);
  fl_nodes : ∀ u, u ∈ informed n → u = o ∨ u ∈ dom nodes;
  fl_aware : ∀ u, u ∈ informed n → ∃ s, nt_nodes n !! u = Some s ∧ aware s;
  fl_unaware : ∀ u, u ∉ informed n → nt_nodes n !! u = nodes !! u;
  fl_edges : ∀ u v, u ∈ informed n → edge u v → v ∈ informed n ∨ (u, v) ∈ nt_frames n;
  fl_frames : ∀ u v, (u, v) ∈ nt_frames n → u ∈ informed n ∧ edge u v;
  fl_count : (k + length (nt_frames n) ≤ sum_list_with (λ u, length (edges u)) (informed n))%nat;
}.

Context (Hsetup : broadcast_setup).

Lemma net_start_flooding : flooding 0 net_start.
Proof.
  split; cbn.
  - apply NoDup_singleton.
  - intros u ->%list_elem_of_singleton. by left.
  - intros u ->%list_elem_of_singleton. exists so. rewrite lookup_insert_eq. split; [done|]. apply Hsetup.
  - intros u Hu. rewrite lookup_insert_ne; [done|]. intros ->. by apply Hu, list_elem_of_singleton.
  - intros u v ->%list_elem_of_singleton Hv. right. unfold edge, edges in Hv. rewrite decide_True in Hv by done. by apply list_elem_of_fmap_2.
  - intros u v (x & [= -> ->] & Hx)%list_elem_of_fmap. split; [by apply list_elem_of_singleton|]. unfold edge, edges. by rewrite decide_True.
  - unfold edges. rewrite decide_True by done. rewrite length_fmap. lia.
Qed.

(** A frame that reaches an aware node changes nothing that matters. *)
Lemma handle_aware (s : TopicState) (from : PeerId) (now : Z) :
  in_window T0 now → aware s → (handle_eager policy verdict s from m now).2 = None ∧ aware (handle_eager policy verdict s from m now).1.
Proof.
  intros Hnow [Hw (e & He & Hwin)]. unfold handle_eager. destruct (has_message s _) eqn:Hhas.
  - cbn [fst snd]. split; [done|]. destruct (quiet_duplicate s from now) as [_ Hr]. destruct (replay_wf_eq _ _ Hr Hw) as (? & Ho & _).
    split; [done|]. exists e. by rewrite Ho.
  - rewrite (bs_verified Hsetup). destruct (eager_admit_replay verdict s from m p now Hw Hhas (bs_payload Hsetup)) as [Hw' Heff].
    rewrite He in Heff. cbn [from_option] in Heff. destruct (window_live T0 now e Hnow Hwin) as [Hl _]. rewrite Hl in Heff.
    destruct Heff as [Hr Ho]. destruct (eager_admit verdict s from m now) as [s' r]. cbn [fst snd] in *. subst r. split; [done|].
    split; [done|]. exists e. by rewrite Ho.
Qed.

(** The first frame that reaches a node spreads the message over its edges. *)
Lemma handle_unaware (s : TopicState) (from : PeerId) (now : Z) :
  in_window T0 now → unaware s → from ∈ eager_of s ∪ lazy_of s →
  (handle_eager policy verdict s from m now).2 = Some (filter (λ q, q ≠ from) (siter (eager_of s))) ∧
  aware (handle_eager policy verdict s from m now).1.
Proof.
  intros Hnow [Hw Hhas Hno] Hfrom. unfold handle_eager. rewrite Hhas, (bs_verified Hsetup).
  pose proof (eager_admit_first s from m p now Hw Hhas (bs_payload Hsetup) Hno (bs_verdict Hsetup) Hfrom) as Hr.
  destruct (eager_admit_replay verdict s from m p now Hw Hhas (bs_payload Hsetup)) as [Hw' Heff].
  rewrite Hno in Heff. cbn [from_option] in Heff. destruct Heff as (_ & Hent & _).
  destruct (eager_admit verdict s from m now) as [s' r]. cbn [fst snd] in *. subst r. rewrite (bs_payload Hsetup). cbn [from_option Datatypes.id fst snd].
  split; [by rewrite (bs_forwardable Hsetup)|]. split; [done|]. by eexists.
Qed.

Lemma elem_of_delete {A : Type} (i : nat) (l : list A) (x y : A) : l !! i = Some y → x ∈ l → x = y ∨ x ∈ delete i l.
Proof.
  intros Hi (j & Hj)%list_elem_of_lookup. destruct (decide (j = i)) as [->|Hne]; [left; congruence|right].
  destruct (decide (j < i)%nat).
  - apply list_elem_of_lookup. exists j. by rewrite list_lookup_delete_lt.
  - apply list_elem_of_lookup. exists (pred j). rewrite list_lookup_delete_ge by lia. by replace (S (pred j)) with j by lia.
Qed.
Lemma elem_of_delete_sub {A : Type} (i : nat) (l : list A) (x : A) : x ∈ delete i l → x ∈ l.
Proof. intros Hx. eapply elem_of_submseteq; [exact Hx|]. apply sublist_submseteq, sublist_delete. Qed.
Lemma length_delete_lookup {A : Type} (i : nat) (l : list A) (y : A) : l !! i = Some y → length l = S (length (delete i l)).
Proof. intros Hi. pose proof (lookup_lt_Some _ _ _ Hi). rewrite length_delete by by eexists. lia. Qed.

(** A frame to an informed node is used up. *)
Lemma arrive_informed (k : nat) (n : Network) (i : nat) (now : Z) (u v : PeerId) :
  in_window T0 now → flooding k n → nt_frames n !! i = Some (u, v) → v ∈ informed n → flooding (S k) (net_arrive m n i now).
Proof.
  intros Hnow [Hnd Hnodes Haw Hun Hed Hfr Hc] Hi Hv. unfold net_arrive. rewrite Hi.
  destruct (Haw v Hv) as (s & Hs & Has). rewrite Hs. destruct (handle_aware s u now Hnow Has) as [Hr Has'].
  destruct (handle_eager policy verdict s u m now) as [s' r]. cbn [fst snd] in *. subst r. cbn [from_option].
  pose proof (length_delete_lookup _ _ _ Hi) as Hlen.
  unfold informed in *. rewrite app_nil_r. split; cbn [informed nt_nodes nt_frames nt_delivered]; [done|done| | | | |].
  - intros w Hw. destruct (decide (w = v)) as [->|Hne]; [rewrite lookup_insert_eq; eauto|]. rewrite lookup_insert_ne by done. by apply Haw.
  - intros w Hw. rewrite lookup_insert_ne; [by apply Hun|]. by intros ->.
  - intros w x Hw Hx. destruct (Hed w x Hw Hx) as [?|Hin]; [by left|].
    destruct (elem_of_delete i _ _ _ Hi Hin) as [[= -> ->]|?]; [by left|by right].
  - intros w x Hin. eapply Hfr, elem_of_delete_sub, Hin.
  - unfold informed. cbn [nt_delivered]. lia.
Qed.

(** A frame to a node that is not makes it so. *)
Lemma arrive_uninformed (k : nat) (n : Network) (i : nat) (now : Z) (u v : PeerId) :
  in_window T0 now → flooding k n → nt_frames n !! i = Some (u, v) → v ∉ informed n → flooding (S k) (net_arrive m n i now).
Proof.
  intros Hnow [Hnd Hnodes Haw Hun Hed Hfr Hc] Hi Hv. unfold net_arrive. rewrite Hi.
  destruct (Hfr u v) as [Hu Hedge]; [by eapply list_elem_of_lookup_2|].
  assert (v ≠ o) as Hvo by (intros ->; apply Hv; unfold informed; set_solver).
  destruct (bs_known Hsetup u v Hedge Hvo) as (s & Hs & Hknown). rewrite Hun, Hs by done.
  destruct (handle_unaware s u now Hnow (bs_unaware Hsetup v s Hvo Hs) Hknown) as [Hr Has'].
  destruct (handle_eager policy verdict s u m now) as [s' r]. cbn [fst snd] in *. subst r. cbn [from_option Datatypes.id].
  assert (edges v = siter (eager_of s)) as Hev by (unfold edges; by rewrite decide_False, Hs by done).
  pose proof (length_delete_lookup _ _ _ Hi) as Hlen.
  split; cbn [informed nt_nodes nt_frames nt_delivered]; unfold informed in *; cbn [nt_delivered app].
  - by apply NoDup_cons.
  - intros w [->|?]%elem_of_cons; [right; by apply elem_of_dom_2 in Hs|by apply Hnodes].
  - intros w. destruct (decide (w = v)) as [->|Hne]; [rewrite lookup_insert_eq; eauto|]. rewrite lookup_insert_ne by done.
    intros [?|Hw]%elem_of_cons; [done|]. by apply Haw.
  - intros w [Hne Hw]%not_elem_of_cons. rewrite lookup_insert_ne by done. by apply Hun.
  - intros w x [->|Hw]%elem_of_cons Hx.
    + destruct (decide (x = u)) as [->|Hne]; [left; by right|right]. apply elem_of_app. right. apply list_elem_of_fmap_2.
      apply list_elem_of_filter. split; [done|]. unfold edge in Hx. by rewrite <-Hev.
    + destruct (Hed w x Hw Hx) as [?|Hin]; [left; by right|]. destruct (elem_of_delete i _ _ _ Hi Hin) as [[= -> ->]|?]; [left; by left|].
      right. apply elem_of_app. by left.
  - intros w x [Hin|(y & [= -> ->] & Hy)%list_elem_of_fmap]%elem_of_app.
    + destruct (Hfr w x) as [? ?]; [by eapply elem_of_delete_sub|]. split; [by right|done].
    + split; [by left|]. apply list_elem_of_filter in Hy as [_ ?]. unfold edge. by rewrite Hev.
  - cbn. rewrite Hev, length_app, length_fmap. pose proof (length_filter (λ q : PeerId, q ≠ u) (siter (eager_of s))). lia.
Qed.

Lemma net_run_flooding (l : list (nat * Z)) (k : nat) (n : Network) :
  Forall (λ it, in_window T0 it.2) l → flooding k n →
  ∃ k', flooding (k + k') (net_run m n l) ∧ (k' ≤ length l)%nat ∧
    ((∀ l1 i now l2, l = l1 ++ (i, now) :: l2 → (i < length (nt_frames (net_run m n l1)))%nat) → k' = length l).
Proof.
  revert k n. induction l as [|[i now] l IH]; intros k n Hl Hn; [exists 0%nat; rewrite Nat.add_0_r; done|].
  apply Forall_cons in Hl as [Hnow Hl]. destruct (nt_frames n !! i) as [[u v]|] eqn:Hi.
  - assert (flooding (S k) (net_arrive m n i now)) as Hn'.
    { destruct (decide (v ∈ informed n)); [by eapply arrive_informed|by eapply arrive_uninformed]. }
    destruct (IH (S k) _ Hl Hn') as (k' & Hf & Hle & Hall). exists (S k'). rewrite Nat.add_succ_r.
    split; [done|]. split; [cbn; lia|]. intros Hv. cbn. f_equal. apply Hall.
    intros l1 j nw l2 ->. apply (Hv ((i, now) :: l1) j nw l2 eq_refl).
  - assert (net_arrive m n i now = n) as Hsame by (unfold net_arrive; by rewrite Hi).
    destruct (IH k n Hl Hn) as (k' & Hf & Hle & _). exists k'. cbn [net_run foldl fst snd]. rewrite Hsame. split; [done|]. split; [cbn; lia|].
    intros Hv. specialize (Hv [] i now l eq_refl). apply lookup_ge_None in Hi. cbn in Hv. lia.
Qed.
End Broadcast.
Lemma sum_submseteq {A : Type} (f : A → nat) (l k : list A) : l ⊆+ k → (sum_list_with f l ≤ sum_list_with f k)%nat.
Proof. induction 1; cbn; lia. Qed.

(** The publisher of the broadcast, and every other node once. *)
Definition everyone (nodes : gmap PeerId TopicState) (o : PeerId) : list PeerId := o :: elements (dom nodes ∖ {[o]}).

Lemma flooding_bound (p : list Z) (nodes : gmap PeerId TopicState) (T0 : Z) (o : PeerId) (targets : list PeerId) (k : nat) (n : Network) :
  flooding p nodes T0 o targets k n →
  (k + length (nt_frames n) ≤ sum_list_with (λ u, length (edges nodes o targets u)) (everyone nodes o))%nat.
Proof.
  intros [Hnd Hnodes _ _ _ _ Hc]. etransitivity; [exact Hc|]. apply sum_submseteq, NoDup_submseteq; [done|].
  intros u Hu. unfold everyone. destruct (decide (u = o)) as [->|Hne]; [by left|]. right. destruct (Hnodes u Hu) as [?|?]; [done|].
  apply elem_of_elements. set_solver.
Qed.

(** At rest, everyone that the eager graph reaches is informed. *)
Lemma flooding_complete (p : list Z) (nodes : gmap PeerId TopicState) (T0 : Z) (o : PeerId) (targets : list PeerId) (k : nat) (n : Network) (v : PeerId) :
  flooding p nodes T0 o targets k n → nt_frames n = [] → rtc (edge nodes o targets) o v → v ∈ informed o n.
Proof.
  intros Hf Hq. revert v. apply rtc_ind_r; [unfold informed; set_solver|]. intros v w _ Hvw IH.
  destruct (fl_edges _ _ _ _ _ _ _ Hf v w) as [?|Hin]; [done|done|done|]. rewrite Hq in Hin. by apply not_elem_of_nil in Hin.
Qed.

(** Publishing makes a node aware. *)
Lemma publish_aware (me : PeerId) (m : GossipMessage) (p : list Z) (T0 now : Z) (s : TopicState) :
  in_window T0 now → unaware m p s → aware p T0 (publish_store me s m p now).1.
Proof.
  intros Hnow [Hw _ Hno]. destruct (publish_replay me s m p now Hw) as [Hw' Heff]. rewrite Hno in Heff. cbn [from_option] in Heff.
  destruct Heff as [Hent _]. split; [done|]. by eexists.
Qed.

(** C1. A broadcast over a network of nodes that have not seen the payload, with
    frames arriving in any order and none lost, within the lifetime of a
    replay entry.  Nobody delivers the message twice; there are at most as
    many arrivals as edges in the eager graph at the start, so that it comes
    to rest; and when it has come to rest, every node that this graph reaches
    from the publisher has delivered the message. *)
Theorem broadcast_reaches_all (key : MlDsaKeyPair) (o : PeerId) (t : TopicId) (p : list Z) (epoch now0 T0 : Z)
    (nodes : gmap PeerId TopicState) (s0 : TopicState) (l : list (nat * Z)) :
  let m := signed_frame key t (calculate_msg_id o t epoch p) Eager 10 p in
  let '(so, targets) := publish_store o s0 m p now0 in
  good_key key → forwardable_payload p = true → verdict p = ForwardAndDeliver →
  unaware m p s0 → (∀ u s, u ≠ o → nodes !! u = Some s → unaware m p s) →
  (∀ u v, edge nodes o targets u v → v ≠ o → ∃ s, nodes !! v = Some s ∧ u ∈ eager_of s ∪ lazy_of s) →
  in_window T0 now0 → Forall (λ it, in_window T0 it.2) l →
  let n := net_run m (net_start nodes o so targets) l in
  NoDup (nt_delivered n) ∧ o ∉ nt_delivered n ∧
  ((∀ l1 i now l2, l = l1 ++ (i, now) :: l2 → (i < length (nt_frames (net_run m (net_start nodes o so targets) l1)))%nat) →
    (length l + length (nt_frames n) ≤ sum_list_with (λ u, length (edges nodes o targets u)) (everyone nodes o))%nat) ∧
  (nt_frames n = [] → ∀ v, rtc (edge nodes o targets) o v → v = o ∨ v ∈ nt_delivered n).
Proof.
  intros m. destruct (publish_store o s0 m p now0) as [so targets] eqn:Hpub.
  intros Hkey Hfw Hv Hs0 Hun Hkn Hnow0 Hl n.
  assert (broadcast_setup m p nodes T0 o so targets) as Hsetup.
  { split; [by apply signed_frame_verifies|done|done|done| |done|done].
    pose proof (publish_aware o m p T0 now0 s0 Hnow0 Hs0) as Ha. by rewrite Hpub in Ha. }
  destruct (net_run_flooding m p nodes T0 o so targets Hsetup l 0 (net_start nodes o so targets) Hl) as (k & Hf & _ & Hk).
  { eapply net_start_flooding, Hsetup. }
  fold n in Hf. destruct (proj1 (NoDup_app _ _) (fl_nodup _ _ _ _ _ _ _ Hf)) as (Hnd & Hno & _).
  split; [done|]. split; [intros Hin; apply (Hno o Hin); by left|]. split.
  - intros Hval. rewrite <-(Hk Hval). exact (flooding_bound p nodes T0 o targets k n Hf).
  - intros Hq v Hr. pose proof (flooding_complete p nodes T0 o targets k n v Hf Hq Hr) as Hin.
    apply elem_of_app in Hin as [?| ->%list_elem_of_singleton]; [by right|by left].
Qed.
End Net.
End PlumtreeNet.
