(* ===== verification/PlumtreeWitness.v ===== *)
(** * Plumtree: concrete runs

    A toy hash and signature, lists as LRU caches, and the runs that witness
    the theorems of [PlumtreeProps] and [PlumtreeNet]. *)

From S2P Require Import Prelude Types Identity Float64 PeerTiming MessageCache TopicMesh Announce EagerReply Plumtree PlumtreeProps PlumtreeNet.
Import Identity F64 Timing MessageCache TopicMesh Announce EagerReply Plumtree PlumtreeProps PlumtreeNet.

#[local] Open Scope Z_scope.

Module PlumtreeWitness.

(** ** Instances *)

Definition pad (l : list Z) : list Z := (λ z, z mod 256) <$> take 32 (l ++ replicate 32 0).
Lemma pad_array (l : list Z) : is_array 32 (pad l).
Proof.
  split.
  - unfold pad. rewrite length_fmap, length_take, length_app, length_replicate. lia.
  - apply Forall_fmap, Forall_true. intros z. unfold is_byte. cbn. pose proof (Z.mod_pos_bound z 256). lia.
Qed.

#[local] Instance pad_hashes : Hashes := {| blake3 := pad; sha256 := pad; blake3_array := pad_array; sha256_array := pad_array |}.
#[local] Instance wire : WireFormat := postcard_format.
#[local] Instance libm : Libm := {| powf _ _ := of_Z 1 |}.
#[local] Instance iter_peers : SetIter PeerId := canonical_siter.
#[local] Instance echo_crypto : MlDsa := {|
  pqc_generate r := Some ([r], [r]);
  pqc_secret_key := Some;
  pqc_public_key := Some;
  pqc_signature := Some;
  pqc_sign sk m := Some (1 :: m);
  pqc_verify pk m sig := Some (bool_decide (sig = 1 :: m));
|}.
#[local] Instance messages_lru : LruCache MessageIdType CachedEntry := MessageCacheWitness.ref_lru_cache.

(** [put] on the list: the key in front, and as many others as fit. *)
#[local] Instance replay_lru : LruCache MessageIdType PayloadReplayEntry := MessageCacheWitness.ref_lru_cache.
#[local] Instance replay_put : LruPut MessageIdType PayloadReplayEntry.
Proof.
  refine {| put_cache := replay_lru; lru_put c k v := (c.1, take (Z.to_nat c.1) ((k, v) :: without k c.2)) |}.
  intros [cap l] k v. done.
Defined.

(** ** One node *)

Definition kp : MlDsaKeyPair := mkKeyPair [7] [9].
Lemma kp_good : good_key kp.
Proof. split; [done|]. intros m. exists (1 :: m). split; [done|]. split; [done|]. unfold verify. cbn. by rewrite bool_decide_true. Qed.

Definition me : PeerId := mkPeerId [1].
Definition ann : PeerId := mkPeerId [2].
Definition ben : PeerId := mkPeerId [3].
Definition tp : TopicId := mkTopicId [5].
Definition spam : list Z := [66].
Definition judge (p : list Z) : ValidationAction := if decide (p = spam) then DropMessage else ForwardAndDeliver.
Definition enc_ok (m : GossipMessage) : bool := true.
Definition enc_ids (ids : list MessageIdType) : option (list Z) := Some (concat ids).
Definition dec_ids (l : list Z) : option (list MessageIdType) := Some ((λ z, [z]) <$> l).
Definition enc_ae (p : AntiEntropyPayload) : option (list Z) := match p with AEDigest ids => Some (0 :: concat ids) | AEResponse ids => Some (1 :: concat ids) end.
Definition dec_ae (l : list Z) : option AntiEntropyPayload :=
  match l with
  | 0 :: l => Some (AEDigest ((λ z, [z]) <$> l))
  | _ :: l => Some (AEResponse ((λ z, [z]) <$> l))
  | [] => None
  end.

Definition frame (id : Z) (p : list Z) : GossipMessage := signed_frame kp tp [id] Eager 10 p.
Definition at_time (now : Z) : Choice := mkChoice now [ann; ben] [] IwantSent Sent false false [[10]; [11]; [12]; [13]].
Definition steps (i k : nat) (now : Z) : list POp := replicate k (OStep i (at_time now)).

Notation node_after := (prun RejectV1 judge kp me enc_ok enc_ids dec_ids enc_ae dec_ae default_cache_config 0 tp node_start).

Lemma default_config_ok : config_ok default_cache_config.
Proof. split; cbn; unfold U64_MAX; lia. Qed.

(** Ann sends a message; Ben sends it again under another identifier, and both
    send spam, while the first copy is being handled.  Then Ben asks for
    everything and sends an empty digest, and the application publishes to
    peers that cannot be reached, which is tried again. *)
Definition ask : GossipMessage := signed_frame kp tp [10] IWant 10 [10; 11; 12; 13].
Definition compare : GossipMessage := signed_frame kp tp [0] AntiEntropy 1 [0; 10].
Definition story : list POp :=
  [OEnter (EagerProbe ann (frame 10 [4; 4])); OEnter (Inbound ben (frame 11 spam)); OEnter (Inbound ben (frame 12 [4; 4])); OEnter (Inbound ann (frame 13 spam))]
  ++ steps 1 2 100 ++ steps 0 3 100 ++ steps 2 4 101 ++ steps 1 3 102 ++ steps 3 4 103
  ++ [OEnter (Inbound ben ask)] ++ steps 4 7 200 ++ [OEnter (Inbound ben compare)] ++ steps 5 2 250
  ++ [OMesh (set_peers (mesh_new 0) {[ann]} ∅); OEnter (PublishStart tp [8] 3 (Some ben))] ++ steps 6 7 300.

Lemma story_runs :
  dl_payload <$> pn_received (node_after story) = [[4; 4]] ∧ dl_payload <$> pn_published (node_after story) = [[8]] ∧
  ((λ o, (out_to o, gm_payload (out_msg o))) <$> pn_wire (node_after story)) =
    [(ben, Some [4; 4]); (ben, Some [4; 4]); (ben, Some [4; 4]); (ann, Some [8]); (ben, Some [8]); (ann, Some [8])].
Proof. vm_compute. done. Qed.

Lemma plum_authentic_witness :
  config_ok default_cache_config ∧ length (pn_received (node_after story)) = 1%nat ∧ length (pn_wire (node_after story)) = 6%nat ∧
  (let n := node_after story in
   let entered c := OEnter c ∈ story in
   (∀ d, d ∈ pn_received n → received_origin RejectV1 tp entered d) ∧
   ∀ o, o ∈ pn_wire n → kind (gm_header (out_msg o)) = Eager →
     ∃ p, gm_payload (out_msg o) = Some p ∧ origin RejectV1 kp me tp entered (gm_header (out_msg o)) p ∧
       (RejectV1 = RejectV1 → payload_hash (gm_header (out_msg o)) = Some (blake3 p))).
Proof.
  split; [exact default_config_ok|]. split; [vm_compute; reflexivity|]. split; [vm_compute; reflexivity|].
  exact (plum_authentic RejectV1 judge kp me enc_ok enc_ids dec_ids enc_ae dec_ae default_cache_config 0 tp story default_config_ok).
Defined.

(** The payloads of the story. *)
Definition payload_of (o : POp) : option (list Z) :=
  match o with
  | OEnter (EagerProbe _ m) | OEnter (Inbound _ m) => Some (default [] (gm_payload m))
  | OEnter (PublishStart _ p _ _) => Some p
  | _ => None
  end.
Lemma payload_in_story (os : list POp) (q : list Z) : payload_in os q → q ∈ omap payload_of os.
Proof.
  intros [(from & m & [Hin|Hin] & <-)|(t & epoch & target & Hin)]; apply list_elem_of_omap; eexists; by split.
Qed.

Lemma story_payloads (q : list Z) : payload_in story q → q = [4; 4] ∨ q = spam ∨ q = [8] ∨ q = [10; 11; 12; 13] ∨ q = [0; 10].
Proof.
  intros Hq%payload_in_story. change (omap payload_of story) with [[4; 4]; spam; [4; 4]; spam; [10; 11; 12; 13]; [0; 10]; [8]] in Hq. set_solver.
Qed.

Lemma refused_never_leaves_witness :
  config_ok default_cache_config ∧ judge spam = DropMessage ∧
  (let n := node_after story in
   (∀ d, d ∈ pn_received n → dl_payload d ≠ spam) ∧
   ∀ o, o ∈ pn_wire n → kind (gm_header (out_msg o)) = Eager → gm_payload (out_msg o) ≠ Some spam).
Proof.
  split; [exact default_config_ok|]. split; [reflexivity|].
  apply (refused_never_leaves RejectV1 judge kp me enc_ok enc_ids dec_ids enc_ae dec_ae default_cache_config 0 tp story spam default_config_ok eq_refl).
  - intros t epoch target Hin. unfold story, steps in Hin. cbn in Hin. set_solver.
  - intros q [-> | [-> | [-> | [-> | ->]]]]%story_payloads; vm_compute; done.
Defined.

(** Then Ben sends the node's own publish back under another identifier, and
    Ann the first message again. *)
Definition echoed : list POp :=
  story ++ [OEnter (Inbound ben (frame 14 [8])); OEnter (Inbound ann (frame 15 [4; 4]))] ++ steps 7 4 301 ++ steps 8 4 302.

Lemma delivered_once_witness :
  config_ok default_cache_config ∧
  (λ x, dl_payload (delivery x)) <$> pn_log (node_after echoed) = [[4; 4]; [8]] ∧ length (pn_published (node_after echoed)) = 1%nat ∧
  (∀ l1 d l2, pn_log (node_after echoed) = l1 ++ Received d :: l2 → dl_payload d ∉ seen l1) ∧ NoDup (dl_payload <$> pn_received (node_after echoed)).
Proof.
  split; [exact default_config_ok|]. split; [vm_compute; reflexivity|]. split; [vm_compute; reflexivity|].
  apply (delivered_once RejectV1 judge kp me enc_ok enc_ids dec_ids enc_ae dec_ae default_cache_config 0 tp echoed [[4; 4]; spam; [8]; [10; 11; 12; 13]; [0; 10]] 0 default_config_ok).
  - cbn. unfold REPLAY_CACHE_MAX_ENTRIES. lia.
  - intros q Hq%payload_in_story. change (omap payload_of echoed) with [[4; 4]; spam; [4; 4]; spam; [10; 11; 12; 13]; [0; 10]; [8]; [8]; [4; 4]] in Hq. set_solver.
  - intros i ch Hin. assert (ch_now ch ∈ [100; 101; 102; 103; 200; 250; 300; 301; 302]) as Ht; [|unfold in_window, REPLAY_CACHE_TTL, NANOS_PER_SEC; set_solver by lia].
    unfold echoed, story, steps in Hin. cbn in Hin. set_solver.
  - intros now Hin. unfold echoed, story, steps in Hin. cbn in Hin. set_solver.
  - intros Hin. unfold echoed, story, steps in Hin. cbn in Hin. set_solver.
Defined.

(** ** Claims *)

(** Ann holds the claim of [21], and Ben advertises it with another. *)
Definition fresh (now : Z) : TopicState := fresh_topic default_cache_config 0 now.
Definition claimed : TopicState := (ihave_section (fresh 0) ann [[21]] 5).1.

Lemma ihave_claims_witness :
  (ihave_section claimed ben [[21]; [22]] 6).2 = [[22]] ∧
  (size (outstanding_iwants claimed) ≤ MAX_IHAVE_BATCH_SIZE)%nat ∧ (deferred_ids claimed ≤ MAX_DEFERRED_IWANT_IDS)%nat ∧
  (let '(s1, req) := ihave_section claimed ben [[21]; [22]] 6 in
   let s2 := iwant_outcome s1 ben req IwantDeferred 7 in
   (size (outstanding_iwants s2) ≤ MAX_IHAVE_BATCH_SIZE)%nat ∧ (deferred_ids s2 ≤ MAX_DEFERRED_IWANT_IDS)%nat ∧
   (∀ id, id ∈ req → id ∈ [[21]; [22]] ∧ has_message claimed id = false ∧ ∃ e, outstanding_iwants s1 !! id = Some e ∧ asked ben 6 e) ∧
   (∀ id, id ∈ [[21]; [22]] → has_message claimed id = false → outstanding_iwants claimed !! id = None →
     id ∈ req ∨ size (outstanding_iwants s1) = MAX_IHAVE_BATCH_SIZE) ∧
   ∀ id e, outstanding_iwants claimed !! id = Some e → ow_peer e ≠ ben → ow_retry_not_before e = None →
     iwant_recent 6 (max_age (cache (core claimed))) e = true → iwant_recent 7 (max_age (cache (core claimed))) e = true →
     outstanding_iwants s2 !! id = Some e).
Proof.
  assert (size (outstanding_iwants claimed) ≤ MAX_IHAVE_BATCH_SIZE)%nat as H1 by (apply Nat.leb_le; vm_compute; reflexivity).
  assert (deferred_ids claimed ≤ MAX_DEFERRED_IWANT_IDS)%nat as H2 by (apply Nat.leb_le; vm_compute; reflexivity).
  split; [vm_compute; reflexivity|]. split; [exact H1|]. split; [exact H2|].
  exact (ihave_claims claimed ben [[21]; [22]] 6 7 IwantDeferred H1 H2).
Defined.

(** The peer that holds a healthy claim may still ask again: its own second
    IHAVE is answered with a second IWANT, and an identifier that is repeated
    in one IHAVE is requested twice. *)
Lemma same_peer_rerequested :
  (ihave_section claimed ann [[21]] 6).2 = [[21]] ∧ (ihave_section (fresh 0) ann [[21]; [21]] 5).2 = [[21]; [21]].
Proof. split; vm_compute; reflexivity. Qed.

(** ** A forged identifier *)

Definition mallory : MlDsaKeyPair := mkKeyPair [13] [13].
Lemma mallory_good : good_key mallory.
Proof. split; [done|]. intros m. exists (1 :: m). split; [done|]. split; [done|]. unfold verify. cbn. by rewrite bool_decide_true. Qed.

(** What Ann is about to publish. *)
Definition genuine : GossipMessage := signed_frame kp tp (calculate_msg_id ann tp 3 [8]) Eager 10 [8].

Lemma forged_id_suppresses_witness :
  verify_message_signature RejectV1 genuine = true ∧ (handle_eager RejectV1 judge (fresh 0) ann genuine 20).2 = Some [] ∧
  (let '(s1, r) := handle_eager RejectV1 judge (fresh 0) ben (signed_frame mallory tp (calculate_msg_id ann tp 3 [8]) Eager 10 [0]) 10 in
   is_Some r ∧ handle_eager RejectV1 judge s1 ann genuine 20 = (eager_duplicate s1 ann 20, None)).
Proof.
  split; [vm_compute; reflexivity|]. split; [vm_compute; reflexivity|].
  apply (forged_id_suppresses RejectV1 judge mallory tp (calculate_msg_id ann tp 3 [8]) [0] (fresh 0) ben ann 10 20 genuine).
  - exact mallory_good.
  - apply (fresh_topic_empty default_cache_config 0 0 default_config_ok).
  - apply (fresh_replay default_cache_config 0 0).
  - vm_compute. reflexivity.
  - vm_compute. reflexivity.
  - done.
  - apply Z.leb_le. vm_compute. reflexivity.
  - reflexivity.
Defined.

(** ** A broadcast among three *)

Definition meshed (eager : gset PeerId) : TopicState := set_core_mesh (fresh 0) (set_peers (mesh_new 0) eager ∅).
Definition others : gmap PeerId TopicState := {[ann := meshed {[me; ben]}; ben := meshed {[me; ann]}]}.
Definition home : TopicState := meshed {[ann]}.
Definition news : GossipMessage := signed_frame kp tp (calculate_msg_id me tp 3 [8]) Eager 10 [8].
Definition arrivals : list (nat * Z) := [(0%nat, 20); (0%nat, 21); (0%nat, 22)].

Definition published : TopicState * list PeerId := publish_store me home news [8] 10.
Definition end_net : Network := net_run RejectV1 judge news (net_start others me published.1 published.2) arrivals.

Lemma meshed_unaware (eager : gset PeerId) : unaware news [8] (meshed eager).
Proof.
  destruct (fresh_replay default_cache_config 0 0) as [Hw Hr]. split; [|done|].
  - destruct Hw as [? ? ?]. split; done.
  - reflexivity.
Qed.

Lemma others_lookup (u : PeerId) (s : TopicState) : others !! u = Some s → ∃ eager, s = meshed eager.
Proof. unfold others. intros [[_ <-]|[_ [_ <-]%lookup_singleton_Some]]%lookup_insert_Some; eauto. Qed.

Lemma others_edge (u v : PeerId) : edge others me [ann] u v → u = me ∧ v = ann ∨ u = ann ∧ v ∈ [me; ben] ∨ u = ben ∧ v ∈ [me; ann].
Proof.
  unfold edge, edges. case_decide as Hu; [left; set_solver|]. destruct (others !! u) as [s|] eqn:Hs; [|set_solver].
  rewrite elem_of_siter. intros Hv. right.
  unfold others in Hs. apply lookup_insert_Some in Hs as [[<- <-]|[_ [<- <-]%lookup_singleton_Some]]; [left|right]; (split; [done|]).
  - change (v ∈ ({[me; ben]} : gset PeerId)) in Hv. set_solver.
  - change (v ∈ ({[me; ann]} : gset PeerId)) in Hv. set_solver.
Qed.

Lemma broadcast_reaches_all_witness :
  published.2 = [ann] ∧ nt_frames end_net = [] ∧ nt_delivered end_net = [ben; ann] ∧
  (NoDup (nt_delivered end_net) ∧ me ∉ nt_delivered end_net ∧
   ((∀ l1 i now l2, arrivals = l1 ++ (i, now) :: l2 →
      (i < length (nt_frames (net_run RejectV1 judge news (net_start others me published.1 published.2) l1)))%nat) →
     (length arrivals + length (nt_frames end_net) ≤ sum_list_with (λ u, length (edges others me published.2 u)) (everyone others me))%nat) ∧
   (nt_frames end_net = [] → ∀ v, rtc (edge others me published.2) me v → v = me ∨ v ∈ nt_delivered end_net)).
Proof.
  assert (published.2 = [ann]) as Ht by (vm_compute; reflexivity).
  split; [exact Ht|]. split; [vm_compute; reflexivity|]. split; [vm_compute; reflexivity|].
  pose proof (broadcast_reaches_all RejectV1 judge kp me tp [8] 3 10 0 others home arrivals) as Hb. cbn zeta in Hb. fold news in Hb.
  unfold end_net, published in *. destruct (publish_store me home news [8] 10) as [so targets]. cbn [fst snd] in *. subst targets.
  apply Hb; clear Hb.
  - exact kp_good.
  - vm_compute. reflexivity.
  - reflexivity.
  - apply meshed_unaware.
  - intros u s _ [eager ->]%others_lookup. apply meshed_unaware.
  - intros u v [[-> ->]|[[-> Hv]|[-> Hv]]]%others_edge Hne.
    + eexists. split; [reflexivity|]. apply elem_of_union_l. set_solver.
    + assert (v = ben) as -> by set_solver. eexists. split; [reflexivity|]. apply elem_of_union_l. set_solver.
    + assert (v = ann) as -> by set_solver. eexists. split; [reflexivity|]. apply elem_of_union_l. set_solver.
  - unfold in_window, REPLAY_CACHE_TTL, NANOS_PER_SEC. lia.
  - repeat constructor; unfold in_window, REPLAY_CACHE_TTL, NANOS_PER_SEC; cbn; lia.
Defined.
End PlumtreeWitness.
