(* ===== verification/KeyCodec.v ===== *)
(** * Key-cache wire formats ([crates/pubsub/src/key_cache.rs], first half)

    The version-3 frame replaces the signer's 1952-byte public key by its
    identifier on sessions that negotiated it; the controls announce, request
    and supply keys.  A frame is checked by a structural walk over its length
    prefixes before anything is materialised.

    The walk reads the encoding that the [postcard] crate documents: a length
    is a little-endian base-128 varint, a byte sequence is its length and its
    bytes, an option is a tag byte, a structure is its fields in order, an
    enumeration is its variant as a varint and the variant's fields.  The class
    [Postcard] holds the part of this that is the crate's: how it writes and
    reads a length. *)

From S2P Require Import Prelude Types Plumtree.
Import Plumtree.

#[local] Open Scope Z_scope.

(** A length as postcard documents it: groups of seven bits, least significant
    first, the top bit of a byte saying that another follows. *)
Fixpoint varint_groups (n : nat) (z : Z) : list Z :=
  match n with
  | O => []
  | S n => if bool_decide (z < 128) then [z] else (z mod 128 + 128) :: varint_groups n (z / 128)
  end.
Definition varint (z : Z) : list Z := varint_groups 10 z.

Class Postcard := {
  pc_format :: WireFormat;
  put_len : Z → list Z;
  get_len : list Z → option (Z * list Z);
  put_len_layout (n : Z) : u64 n → put_len n = varint n;
  get_len_put (n : Z) (rest : list Z) : u64 n → get_len (put_len n ++ rest) = Some (n, rest);
  enc_u8 (z : Z) : is_byte z → enc (VU8 z) = [z];
  enc_array (a : list Z) : Forall is_byte a → enc (VArray a) = a;
}.

Module KeyCodec.

(** ** Data *)

(** [b"\xffSGKC\x03"], [b"SGKEYC01"]. *)
Definition WIRE_MARKER : list Z := 255 :: bytes_of_string "SGKC" ++ [3].
Definition CONTROL_DOMAIN : list Z := bytes_of_string "saorsa-gossip/key-cache-control/v1".
Definition CONTROL_MAGIC : list Z := bytes_of_string "SGKEYC01".
Definition MAX_KEY_CACHE_CONTROL_BYTES : Z := 65536.
Definition KEY_BYTES : Z := 1952.
Definition SIGNATURE_BYTES : Z := 3309.
Definition MAX_CONTROL_ITEMS : nat := 32.

Inductive KeyMaterial :=
| KeyFull (key_id : PeerId) (public_key : list Z)
| KeyRef (key_id : PeerId).

Record WireMessage := mkWire {
  wm_header : MessageHeader;
  wm_payload : option (list Z);
  wm_signature : list Z;
  wm_key : KeyMaterial;
}.

Inductive Decoded :=
| DecodedFull (message : GossipMessage) (key_id : PeerId)
| DecodedRef (message : GossipMessage) (key_id : PeerId).

Inductive Control :=
| CtlHello (key_ref_version : Z)
| CtlAck (key_ids : list PeerId)
| CtlRequest (key_ids : list PeerId)
| CtlResponse (entries : list (PeerId * list Z)).

(** The errors, one per message of the source. *)
Inductive KeyError :=
| TruncatedLength | OversizedLength | LengthConversion | TruncatedField
| MissingPayloadTag | MalformedPayloadTag | ControlCap | InvalidSize
| InvalidControlKind | InvalidKeyTag | TrailingBytes | MissingMarker
| PostcardError | HashMismatch | BadMagic | BadKeyRefVersion
| BadItemCount.
#[global] Instance KeyError_eq_dec : EqDecision KeyError.
Proof. solve_decision. Defined.

Definition ensure (b : bool) (e : KeyError) : result () KeyError := if b then Ok () else Err e.

Definition len (l : list Z) : Z := Z.of_nat (length l).

Definition strip_prefix (p l : list Z) : option (list Z) :=
  if decide (take (length p) l = p) then Some (drop (length p) l) else None.

Definition is_v3 (bytes : list Z) : bool := bool_decide (is_Some (strip_prefix WIRE_MARKER bytes)).

(** ** The structural walk *)

(** The loop body for [index]; [value] is a [u128], which ten groups of seven
    bits do not fill. *)
Fixpoint take_varint_from (n : nat) (index value : Z) (input : list Z) : result (Z * list Z) KeyError :=
  match n with
  | O => Err OversizedLength
  | S n =>
    match input with
    | [] => Err TruncatedLength
    | byte :: rest =>
      let value := Z.lor value (Z.shiftl (Z.land byte 127) (index * 7)) in
      if bool_decide (Z.land byte 128 = 0) then
        if bool_decide (value ≤ U64_MAX) then Ok (value, rest) else Err LengthConversion
      else take_varint_from n (index + 1) value rest
    end
  end.
Definition take_varint (input : list Z) : result (Z * list Z) KeyError := take_varint_from 10 0 0 input.

Definition skip (input : list Z) (n : Z) : result (list Z) KeyError :=
  if bool_decide (n ≤ len input) then Ok (drop (Z.to_nat n) input) else Err TruncatedField.

Definition take_payload (input : list Z) (cap : option Z) : result (list Z) KeyError :=
  match input with
  | [] => Err MissingPayloadTag
  | 0 :: rest => Ok rest
  | 1 :: rest =>
      let? '(n, rest) := take_varint rest in
      let? _ := match cap with Some cap => ensure (bool_decide (n ≤ cap)) ControlCap | None => Ok () end in
      skip rest n
  | _ :: _ => Err MalformedPayloadTag
  end.

Definition take_sized_vec (input : list Z) (expected : Z) : result (list Z) KeyError :=
  let? '(n, rest) := take_varint input in
  let? _ := ensure (bool_decide (n = expected)) InvalidSize in
  skip rest n.

Definition of_postcard {A} (o : option A) : result A KeyError :=
  match o with Some a => Ok a | None => Err PostcardError end.

Section Codec.
Context `{Hashes} `{Postcard}.

Definition control_topic : TopicId := from_entity CONTROL_DOMAIN.

Definition preflight_legacy_control (bytes : list Z) : result bool KeyError :=
  let? '(header, rest) := of_postcard (deserialize bytes) in
  if negb (bool_decide (topic header = control_topic)) then Ok false else
  let? _ := ensure (bool_decide (kind header = Ping)) InvalidControlKind in
  let? rest := take_payload rest (Some MAX_KEY_CACHE_CONTROL_BYTES) in
  let? rest := take_sized_vec rest SIGNATURE_BYTES in
  let? rest := take_sized_vec rest KEY_BYTES in
  let? _ := ensure (bool_decide (rest = [])) TrailingBytes in
  Ok true.

Definition preflight_v3 (body : list Z) : result MessageHeader KeyError :=
  let? '(header, rest) := of_postcard (deserialize body) in
  let reserved_control := bool_decide (topic header = control_topic) in
  let? _ := if reserved_control then ensure (bool_decide (kind header = Ping)) InvalidControlKind else Ok () in
  let control_cap := if reserved_control then Some MAX_KEY_CACHE_CONTROL_BYTES else None in
  let? rest := take_payload rest control_cap in
  let? rest := take_sized_vec rest SIGNATURE_BYTES in
  let? '(variant, rest) := take_varint rest in
  let? _ := ensure (bool_decide (variant ≤ 1)) InvalidKeyTag in
  let? rest := skip rest 32 in
  let? rest := if bool_decide (variant = 0) then take_sized_vec rest KEY_BYTES else Ok rest in
  let? _ := ensure (bool_decide (rest = [])) TrailingBytes in
  Ok header.

Definition inspect_header (bytes : list Z) : result (MessageHeader * bool) KeyError :=
  match strip_prefix WIRE_MARKER bytes with
  | Some body =>
      let? header := preflight_v3 body in
      Ok (header, bool_decide (topic header = control_topic))
  | None =>
      let? '(header, rest) := of_postcard (deserialize bytes) in
      let reserved_control := bool_decide (topic header = control_topic) in
      let? _ := if reserved_control then let? _ := preflight_legacy_control bytes in Ok ()
        else
          let? rest := take_payload rest None in
          let? rest := take_sized_vec rest SIGNATURE_BYTES in
          let? _ := take_sized_vec rest KEY_BYTES in Ok () in
      Ok (header, reserved_control)
  end.

Definition peek_message_kind (frame : list Z) : option MessageKind :=
  let frame := default frame (strip_prefix WIRE_MARKER frame) in
  (λ hr, kind hr.1) <$> deserialize frame.

Record InspectedMessageHeader := mkInspected {
  in_topic : TopicId;
  in_kind : MessageKind;
  hop_local_control : bool;
}.

Definition inspect_message_header (frame : list Z) : option InspectedMessageHeader :=
  match inspect_header frame with
  | Ok (header, control) => Some (mkInspected (topic header) (kind header) control)
  | Err _ => None
  end.

(** ** postcard on the types of this file *)

Definition put_bytes (l : list Z) : list Z := put_len (len l) ++ l.
Definition put_payload (p : option (list Z)) : list Z := match p with None => [0] | Some l => 1 :: put_bytes l end.
Definition put_peer (p : PeerId) : list Z := enc (VArray (peer_bytes p)).
Definition put_key (k : KeyMaterial) : list Z :=
  match k with
  | KeyFull id key => put_len 0 ++ put_peer id ++ put_bytes key
  | KeyRef id => put_len 1 ++ put_peer id
  end.
Definition put_gossip (m : GossipMessage) : list Z :=
  serialize (gm_header m) ++ put_payload (gm_payload m) ++ put_bytes (gm_signature m) ++ put_bytes (gm_public_key m).
Definition put_wire (w : WireMessage) : list Z :=
  serialize (wm_header w) ++ put_payload (wm_payload w) ++ put_bytes (wm_signature w) ++ put_key (wm_key w).

Definition get_bytes (l : list Z) : option (list Z * list Z) :=
  '(n, l) ← get_len l;
  if bool_decide (n ≤ len l) then Some (take (Z.to_nat n) l, drop (Z.to_nat n) l) else None.
Definition get_payload (l : list Z) : option (option (list Z) * list Z) :=
  match l with
  | 0 :: l => Some (None, l)
  | 1 :: l => '(p, l) ← get_bytes l; Some (Some p, l)
  | _ => None
  end.
Definition get_peer (l : list Z) : option (PeerId * list Z) :=
  match dec (TyArray 32) l with Some (VArray a, l) => Some (mkPeerId a, l) | _ => None end.
Definition get_key (l : list Z) : option (KeyMaterial * list Z) :=
  '(variant, l) ← get_len l; '(id, l) ← get_peer l;
  match variant with
  | 0 => '(key, l) ← get_bytes l; Some (KeyFull id key, l)
  | 1 => Some (KeyRef id, l)
  | _ => None
  end.
Definition get_gossip (l : list Z) : option (GossipMessage * list Z) :=
  '(h, l) ← deserialize l; '(p, l) ← get_payload l; '(s, l) ← get_bytes l; '(k, l) ← get_bytes l;
  Some (mkGossip h p s k, l).
Definition get_wire (l : list Z) : option (WireMessage * list Z) :=
  '(h, l) ← deserialize l; '(p, l) ← get_payload l; '(s, l) ← get_bytes l; '(k, l) ← get_key l;
  Some (mkWire h p s k, l).

(** ** Frames *)

Definition encode (m : GossipMessage) (reference : bool) : result (list Z) KeyError :=
  let? _ := ensure (bool_decide (len (gm_public_key m) = KEY_BYTES)) InvalidSize in
  let? _ := ensure (bool_decide (len (gm_signature m) = SIGNATURE_BYTES)) InvalidSize in
  let key_id := from_pubkey (gm_public_key m) in
  let key := if reference then KeyRef key_id else KeyFull key_id (gm_public_key m) in
  Ok (WIRE_MARKER ++ put_wire (mkWire (gm_header m) (gm_payload m) (gm_signature m) key)).

Definition decode (bytes : list Z) : result Decoded KeyError :=
  let? body := match strip_prefix WIRE_MARKER bytes with Some b => Ok b | None => Err MissingMarker end in
  let? _ := preflight_v3 body in
  let? '(w, trailing) := of_postcard (get_wire body) in
  let? _ := ensure (bool_decide (trailing = [])) TrailingBytes in
  let? _ := ensure (bool_decide (len (wm_signature w) = SIGNATURE_BYTES)) InvalidSize in
  let message := mkGossip (wm_header w) (wm_payload w) (wm_signature w) in
  match wm_key w with
  | KeyFull key_id public_key =>
      let? _ := ensure (bool_decide (len public_key = KEY_BYTES)) InvalidSize in
      let? _ := ensure (bool_decide (from_pubkey public_key = key_id)) HashMismatch in
      Ok (DecodedFull (message public_key) key_id)
  | KeyRef key_id => Ok (DecodedRef (message []) key_id)
  end.

(** ** Controls *)

Definition put_seq {A} (put : A → list Z) (l : list A) : list Z := put_len (Z.of_nat (length l)) ++ concat (put <$> l).

(** An element takes at least a byte: a count beyond the bytes that are left
    is a truncated input. *)
Fixpoint get_elems {A} (get : list Z → option (A * list Z)) (fuel : nat) (n : Z) (l : list Z) : option (list A * list Z) :=
  if bool_decide (n = 0) then Some ([], l) else
  match fuel with
  | O => None
  | S fuel => '(x, l) ← get l; '(xs, l) ← get_elems get fuel (n - 1) l; Some (x :: xs, l)
  end.
Definition get_seq {A} (get : list Z → option (A * list Z)) (l : list Z) : option (list A * list Z) :=
  '(n, l) ← get_len l; get_elems get (length l) n l.

Definition put_entry (e : PeerId * list Z) : list Z := put_peer e.1 ++ put_bytes e.2.
Definition get_entry (l : list Z) : option ((PeerId * list Z) * list Z) :=
  '(id, l) ← get_peer l; '(key, l) ← get_bytes l; Some ((id, key), l).

Definition put_control (c : Control) : list Z :=
  match c with
  | CtlHello v => put_len 0 ++ enc (VU8 v)
  | CtlAck ids => put_len 1 ++ put_seq put_peer ids
  | CtlRequest ids => put_len 2 ++ put_seq put_peer ids
  | CtlResponse entries => put_len 3 ++ put_seq put_entry entries
  end.
Definition get_control (l : list Z) : option (Control * list Z) :=
  '(variant, l) ← get_len l;
  match variant with
  | 0 => match dec TyU8 l with Some (VU8 v, l) => Some (CtlHello v, l) | _ => None end
  | 1 => '(ids, l) ← get_seq get_peer l; Some (CtlAck ids, l)
  | 2 => '(ids, l) ← get_seq get_peer l; Some (CtlRequest ids, l)
  | 3 => '(entries, l) ← get_seq get_entry l; Some (CtlResponse entries, l)
  | _ => None
  end.

Record ControlPayload := mkControl { magic : list Z; ctl_version : Z; body : Control }.
Definition put_control_payload (p : ControlPayload) : list Z :=
  enc (VArray (magic p)) ++ enc (VU8 (ctl_version p)) ++ put_control (body p).
Definition get_control_payload (l : list Z) : option (ControlPayload * list Z) :=
  match dec (TyArray 8) l with
  | Some (VArray magic, l) =>
    match dec TyU8 l with
    | Some (VU8 v, l) => '(c, l) ← get_control l; Some (mkControl magic v c, l)
    | _ => None
    end
  | _ => None
  end.

Fixpoint validate_entries (entries : list (PeerId * list Z)) : result () KeyError :=
  match entries with
  | [] => Ok ()
  | (key_id, key) :: entries =>
      let? _ := ensure (bool_decide (len key = KEY_BYTES)) InvalidSize in
      let? _ := ensure (bool_decide (from_pubkey key = key_id)) HashMismatch in
      validate_entries entries
  end.

Definition item_count {A} (l : list A) : bool := bool_decide (length l ≠ 0 ∧ length l ≤ MAX_CONTROL_ITEMS)%nat.

Definition validate_control (c : Control) : result () KeyError :=
  match c with
  | CtlHello v => ensure (bool_decide (v = 1)) BadKeyRefVersion
  | CtlAck ids | CtlRequest ids => ensure (item_count ids) BadItemCount
  | CtlResponse entries => let? _ := ensure (item_count entries) BadItemCount in validate_entries entries
  end.

Definition encode_control (c : Control) : result (list Z) KeyError :=
  let? _ := validate_control c in
  let payload := put_control_payload (mkControl CONTROL_MAGIC 1 c) in
  let? _ := ensure (bool_decide (len payload ≤ MAX_KEY_CACHE_CONTROL_BYTES)) ControlCap in
  Ok payload.

Definition decode_control (payload : list Z) : result Control KeyError :=
  let? _ := ensure (bool_decide (len payload ≤ MAX_KEY_CACHE_CONTROL_BYTES)) ControlCap in
  let? '(value, trailing) := of_postcard (get_control_payload payload) in
  let? _ := ensure (bool_decide (trailing = [])) TrailingBytes in
  let? _ := ensure (bool_decide (magic value = CONTROL_MAGIC ∧ ctl_version value = 1)) BadMagic in
  let? _ := validate_control (body value) in
  Ok (body value).
End Codec.

(** ** Varints *)

Lemma group_bits (b : Z) : 0 ≤ b < 128 →
  Z.land b 127 = b ∧ Z.land b 128 = 0 ∧ Z.land (b + 128) 127 = b ∧ Z.land (b + 128) 128 ≠ 0.
Proof.
  intros Hb. assert (Hall : Forall (λ b, Z.land b 127 = b ∧ Z.land b 128 = 0 ∧ Z.land (b + 128) 127 = b ∧ Z.land (b + 128) 128 ≠ 0) (seqZ 0 128)).
  { apply (bool_decide_unpack _). by vm_compute. }
  rewrite Forall_forall in Hall. apply Hall, elem_of_seqZ. lia.
Qed.

Lemma take_varint_from_groups (n : nat) (index value z : Z) (rest : list Z) :
  n ≠ O → 0 ≤ index → 0 ≤ value < 2 ^ (index * 7) → 0 ≤ z < 2 ^ (Z.of_nat n * 7) →
  value + z * 2 ^ (index * 7) ≤ U64_MAX →
  take_varint_from n index value (varint_groups n z ++ rest) = Ok (value + z * 2 ^ (index * 7), rest).
Proof.
  revert index value z. induction n as [|n IH]; intros index value z Hn Hi Hv Hz Hmax; [done|]. simpl.
  case_bool_decide as Hs; simpl.
  - destruct (group_bits z ltac:(lia)) as (Hl & Ht & _). rewrite Hl, lor_shift by lia.
    by rewrite !bool_decide_true by done.
  - pose proof (Z.mod_pos_bound z 128 ltac:(lia)). destruct (group_bits (z mod 128) ltac:(lia)) as (_ & _ & Hl & Ht).
    assert (Hpow : 2 ^ ((index + 1) * 7) = 128 * 2 ^ (index * 7)).
    { replace ((index + 1) * 7) with (7 + index * 7) by lia. rewrite Z.pow_add_r by lia. done. }
    assert (Hpn : 2 ^ (Z.of_nat (S n) * 7) = 128 * 2 ^ (Z.of_nat n * 7)).
    { replace (Z.of_nat (S n) * 7) with (7 + Z.of_nat n * 7) by lia. rewrite Z.pow_add_r by lia. done. }
    assert (Heq : value + z mod 128 * 2 ^ (index * 7) + z / 128 * 2 ^ ((index + 1) * 7) = value + z * 2 ^ (index * 7)).
    { rewrite Hpow. pose proof (Z.div_mod z 128 ltac:(lia)). nia. }
    rewrite Hl, bool_decide_false, lor_shift by (done || lia). rewrite IH; [by rewrite Heq | | lia | | | lia].
    + intros ->. simpl in *. lia.
    + rewrite Hpow. nia.
    + split; [apply Z.div_pos; lia|]. apply Z.div_lt_upper_bound; lia.
Qed.

Lemma take_varint_varint (z : Z) (rest : list Z) : u64 z → take_varint (varint z ++ rest) = Ok (z, rest).
Proof.
  unfold u64, U64_MAX. intros Hz. unfold take_varint, varint. rewrite take_varint_from_groups; unfold U64_MAX; simpl; try lia.
  by rewrite Z.mul_1_r.
Qed.

Lemma byte_len_nonneg (l : list Z) : 0 ≤ len l.
Proof. unfold len. lia. Qed.

Lemma skip_app (l rest : list Z) (n : Z) : n = len l → skip (l ++ rest) n = Ok rest.
Proof.
  unfold skip, len. intros ->. rewrite bool_decide_true by (rewrite length_app; lia).
  by rewrite Nat2Z.id, drop_app_length.
Qed.

Lemma strip_prefix_app (p l : list Z) : strip_prefix p (p ++ l) = Some l.
Proof. unfold strip_prefix. by rewrite take_app_length, drop_app_length, decide_True. Qed.

(** ** Frames *)

Definition sized (l : list Z) : Prop := len l ≤ U64_MAX.

Section CodecFacts.
Context `{Hashes} `{Postcard}.

Lemma sized_u64 (l : list Z) : sized l → u64 (len l).
Proof. unfold sized, u64. pose proof (byte_len_nonneg l). lia. Qed.

Lemma take_varint_put (n : Z) (rest : list Z) : u64 n → take_varint (put_len n ++ rest) = Ok (n, rest).
Proof. intros Hn. rewrite put_len_layout by done. by apply take_varint_varint. Qed.

Lemma get_bytes_put (l rest : list Z) : sized l → get_bytes (put_bytes l ++ rest) = Some (l, rest).
Proof.
  intros Hl. unfold get_bytes, put_bytes. rewrite <-app_assoc, get_len_put by by apply sized_u64. simpl.
  rewrite bool_decide_true by (unfold len; rewrite length_app; lia).
  unfold len. by rewrite Nat2Z.id, take_app_length, drop_app_length.
Qed.

Lemma take_sized_put (l rest : list Z) (n : Z) : sized l → len l = n → take_sized_vec (put_bytes l ++ rest) n = Ok rest.
Proof.
  intros Hl <-. unfold take_sized_vec, put_bytes. rewrite <-app_assoc, take_varint_put by by apply sized_u64. simpl.
  rewrite bool_decide_true by done. by apply skip_app.
Qed.

Definition within (cap : option Z) (p : option (list Z)) : Prop :=
  match p with None => True | Some l => sized l ∧ match cap with Some c => len l ≤ c | None => True end end.

Lemma take_payload_put (p : option (list Z)) (cap : option Z) (rest : list Z) :
  within cap p → take_payload (put_payload p ++ rest) cap = Ok rest.
Proof.
  destruct p as [l|]; [|done]. intros [Hl Hc]. simpl. unfold put_bytes.
  rewrite <-app_assoc, take_varint_put by by apply sized_u64. simpl.
  destruct cap; simpl; [rewrite bool_decide_true by done; simpl|]; by apply skip_app.
Qed.

Lemma get_payload_put (p : option (list Z)) (cap : option Z) (rest : list Z) :
  within cap p → get_payload (put_payload p ++ rest) = Some (p, rest).
Proof. destruct p as [l|]; [|done]. intros [Hl _]. simpl. by rewrite get_bytes_put. Qed.

Lemma from_pubkey_array (key : list Z) : is_array 32 (peer_bytes (from_pubkey key)).
Proof. apply sha256_array. Qed.

Lemma get_peer_put (id : PeerId) (rest : list Z) : is_array 32 (peer_bytes id) → get_peer (put_peer id ++ rest) = Some (id, rest).
Proof. intros Hid. unfold get_peer, put_peer. rewrite dec_enc by done. by destruct id. Qed.

Lemma skip_peer (id : PeerId) (rest : list Z) : is_array 32 (peer_bytes id) → skip (put_peer id ++ rest) 32 = Ok rest.
Proof. intros [Hl Hb]. unfold put_peer. rewrite enc_array by done. apply skip_app. unfold len. by rewrite Hl. Qed.

Definition key_ok (k : KeyMaterial) : Prop :=
  match k with
  | KeyFull id key => is_array 32 (peer_bytes id) ∧ len key = KEY_BYTES
  | KeyRef id => is_array 32 (peer_bytes id)
  end.

Lemma key_sized (key : list Z) : len key = KEY_BYTES → sized key.
Proof. unfold sized, KEY_BYTES, U64_MAX. lia. Qed.
Lemma signature_sized (key : list Z) : len key = SIGNATURE_BYTES → sized key.
Proof. unfold sized, SIGNATURE_BYTES, U64_MAX. lia. Qed.

Lemma get_key_put (k : KeyMaterial) (rest : list Z) : key_ok k → get_key (put_key k ++ rest) = Some (k, rest).
Proof.
  destruct k as [id key|id]; simpl; [intros [Hid Hk]|intros Hid];
    unfold get_key; rewrite <-!app_assoc, get_len_put by done; simpl; rewrite get_peer_put by done; simpl; [|done].
  by rewrite get_bytes_put by by apply key_sized.
Qed.

(** The reserved topic carries only pings with a bounded payload. *)
Definition frame_ok (m : GossipMessage) : Prop :=
  Header.typed (gm_header m) ∧ Header.version_consistent (gm_header m) ∧
  len (gm_signature m) = SIGNATURE_BYTES ∧ len (gm_public_key m) = KEY_BYTES ∧
  within (if bool_decide (topic (gm_header m) = control_topic) then Some MAX_KEY_CACHE_CONTROL_BYTES else None) (gm_payload m) ∧
  (topic (gm_header m) = control_topic → kind (gm_header m) = Ping).

Definition key_of (m : GossipMessage) (reference : bool) : KeyMaterial :=
  if reference then KeyRef (from_pubkey (gm_public_key m)) else KeyFull (from_pubkey (gm_public_key m)) (gm_public_key m).
Definition wire_of (m : GossipMessage) (reference : bool) : WireMessage :=
  mkWire (gm_header m) (gm_payload m) (gm_signature m) (key_of m reference).

Lemma key_of_ok (m : GossipMessage) (reference : bool) : frame_ok m → key_ok (key_of m reference).
Proof. intros (_ & _ & _ & Hk & _). pose proof (from_pubkey_array (gm_public_key m)). by destruct reference. Qed.

Lemma encode_eq (m : GossipMessage) (reference : bool) : frame_ok m → encode m reference = Ok (WIRE_MARKER ++ put_wire (wire_of m reference)).
Proof. intros (_ & _ & Hs & Hk & _). unfold encode. by rewrite Hs, Hk, !bool_decide_true. Qed.

Lemma get_wire_put (m : GossipMessage) (reference : bool) (rest : list Z) :
  frame_ok m → get_wire (put_wire (wire_of m reference) ++ rest) = Some (wire_of m reference, rest).
Proof.
  intros Hok. destruct (Hok) as (Ht & Hv & Hs & Hk & Hp & _). unfold get_wire, put_wire. rewrite <-!app_assoc. simpl.
  rewrite deserialize_serialize by done. simpl. erewrite get_payload_put by done. simpl.
  rewrite get_bytes_put by by apply signature_sized. simpl. by rewrite get_key_put by by apply key_of_ok.
Qed.

Lemma preflight_v3_put (m : GossipMessage) (reference : bool) :
  frame_ok m → preflight_v3 (put_wire (wire_of m reference)) = Ok (gm_header m).
Proof.
  intros Hok. destruct (Hok) as (Ht & Hv & Hs & Hk & Hp & Hc). unfold preflight_v3, put_wire.
  rewrite deserialize_serialize by done. cbn [of_postcard result_bind wire_of wm_header wm_payload wm_signature wm_key].
  replace (if bool_decide _ then ensure _ _ else Ok ()) with (@Ok () KeyError ())
    by (case_bool_decide; [by rewrite bool_decide_true by auto|done]). cbn [result_bind].
  rewrite take_payload_put by done. cbn [result_bind]. rewrite take_sized_put by (done || by apply signature_sized). cbn [result_bind].
  pose proof (from_pubkey_array (gm_public_key m)) as Ha.
  destruct reference; cbn [key_of put_key]; rewrite take_varint_put by done; simpl.
  - rewrite <-(app_nil_r (put_peer _)), skip_peer by done. done.
  - rewrite skip_peer by done. cbn [result_bind]. rewrite <-(app_nil_r (put_bytes _)), take_sized_put by (done || by apply key_sized). done.
Qed.

Lemma decode_wire (m : GossipMessage) (reference : bool) :
  frame_ok m →
  decode (WIRE_MARKER ++ put_wire (wire_of m reference)) =
    Ok (if reference then DecodedRef (mkGossip (gm_header m) (gm_payload m) (gm_signature m) []) (from_pubkey (gm_public_key m))
        else DecodedFull m (from_pubkey (gm_public_key m))).
Proof.
  intros Hok. unfold decode. rewrite strip_prefix_app. cbn [result_bind]. rewrite preflight_v3_put by done. cbn [result_bind].
  rewrite <-(app_nil_r (put_wire _)), get_wire_put by done. destruct (Hok) as (_ & _ & Hs & Hk & _).
  cbn [of_postcard result_bind]. rewrite bool_decide_true by done. cbn [result_bind wire_of wm_signature ensure].
  rewrite Hs, bool_decide_true by done. cbn [result_bind ensure]. destruct reference; simpl; [done|].
  rewrite Hk, !bool_decide_true by done. by destruct m.
Qed.

(** ** What a decoded frame guarantees *)

Lemma ensure_Ok (b : bool) (e : KeyError) (u : ()) : ensure b e = Ok u → b = true.
Proof. by destruct b. Qed.

Lemma decode_sound (bytes : list Z) (d : Decoded) :
  decode bytes = Ok d →
  match d with
  | DecodedFull m id => len (gm_public_key m) = KEY_BYTES ∧ from_pubkey (gm_public_key m) = id ∧ len (gm_signature m) = SIGNATURE_BYTES
  | DecodedRef m id => gm_public_key m = [] ∧ len (gm_signature m) = SIGNATURE_BYTES
  end.
Proof.
  unfold decode. destruct (strip_prefix _ _); [|done]. cbn [result_bind]. destruct (preflight_v3 _); [|done]. cbn [result_bind].
  destruct (get_wire _) as [[w tr]|]; [|done]. cbn [result_bind of_postcard].
  repeat (case_bool_decide; cbn [ensure result_bind]; [|done]). destruct (wm_key w); [|naive_solver].
  repeat (case_bool_decide; cbn [ensure result_bind]; [|done]). naive_solver.
Qed.

(** ** Controls *)

Lemma get_elems_put {A} (put : A → list Z) (get : list Z → option (A * list Z)) (ok : A → Prop) (xs : list A) (fuel : nat) (rest : list Z) :
  (∀ (x : A) (rest : list Z), ok x → get (put x ++ rest) = Some (x, rest)) → Forall ok xs → (length xs ≤ fuel)%nat →
  get_elems get fuel (Z.of_nat (length xs)) (concat (put <$> xs) ++ rest) = Some (xs, rest).
Proof.
  intros Hget Hok. revert fuel. induction Hok as [|x xs Hx Hok IH]; intros fuel Hf.
  - by destruct fuel.
  - destruct fuel as [|fuel]; cbn [length] in Hf; [lia|]. cbn [get_elems length fmap list_fmap concat].
    rewrite bool_decide_false by lia. rewrite <-app_assoc, Hget by done. cbn [mbind option_bind].
    replace (Z.of_nat (S (length xs)) - 1) with (Z.of_nat (length xs)) by lia. by rewrite IH by lia.
Qed.

Lemma get_seq_put {A} (put : A → list Z) (get : list Z → option (A * list Z)) (ok : A → Prop) (xs : list A) (rest : list Z) :
  (∀ (x : A) (rest : list Z), ok x → get (put x ++ rest) = Some (x, rest)) → (∀ x : A, ok x → (1 ≤ length (put x))%nat) →
  Forall ok xs → u64 (Z.of_nat (length xs)) →
  get_seq get (put_seq put xs ++ rest) = Some (xs, rest).
Proof.
  intros Hget Hone Hok Hn. unfold get_seq, put_seq. rewrite <-app_assoc, get_len_put by done. simpl.
  eapply get_elems_put; [done..|]. rewrite length_app. enough (length xs ≤ length (concat (put <$> xs)))%nat by lia. clear Hn.
  induction Hok as [|x xs Hx Hok IH]; csimpl; [lia|]. rewrite length_app. specialize (Hone x Hx). lia.
Qed.

Lemma put_peer_length (id : PeerId) : is_array 32 (peer_bytes id) → length (put_peer id) = 32%nat.
Proof. intros [Hl Hb]. unfold put_peer. by rewrite enc_array. Qed.

Definition entry_ok (e : PeerId * list Z) : Prop := len e.2 = KEY_BYTES ∧ from_pubkey e.2 = e.1.

Lemma validate_entries_ok (entries : list (PeerId * list Z)) : validate_entries entries = Ok () ↔ Forall entry_ok entries.
Proof.
  induction entries as [|[id key] entries IH]; simpl; [done|]. rewrite Forall_cons. unfold entry_ok at 1; simpl.
  repeat (case_bool_decide; simpl; [|naive_solver]). naive_solver.
Qed.

Lemma get_entry_put (e : PeerId * list Z) (rest : list Z) : entry_ok e → get_entry (put_entry e ++ rest) = Some (e, rest).
Proof.
  destruct e as [id key]. intros [Hl Hid]. simpl in *. unfold get_entry, put_entry. rewrite <-app_assoc; simpl.
  rewrite get_peer_put by (rewrite <-Hid; apply from_pubkey_array). simpl. by rewrite get_bytes_put by by apply key_sized.
Qed.

Lemma put_key_length (key : list Z) : len key = KEY_BYTES → length (put_bytes key) = 1954%nat.
Proof.
  intros Hl. unfold put_bytes. rewrite length_app, put_len_layout, Hl by (rewrite ?Hl; done). unfold len, KEY_BYTES in Hl.
  change (length (varint KEY_BYTES)) with 2%nat. lia.
Qed.

Lemma put_entry_length (e : PeerId * list Z) : entry_ok e → length (put_entry e) = 1986%nat.
Proof.
  intros [Hl Hid]. unfold put_entry. rewrite length_app, put_key_length, put_peer_length by (done || rewrite <-Hid; apply from_pubkey_array). done.
Qed.

Lemma concat_length_const {A} (put : A → list Z) (k : nat) (xs : list A) :
  Forall (λ x, length (put x) = k) xs → length (concat (put <$> xs)) = (length xs * k)%nat.
Proof. induction 1 as [|x xs Hx _ IH]; csimpl; [done|]. rewrite length_app. lia. Qed.

(** What the type system guarantees of a control. *)
Definition control_typed (c : Control) : Prop :=
  match c with
  | CtlHello v => is_byte v
  | CtlAck ids | CtlRequest ids => Forall (λ id, is_array 32 (peer_bytes id)) ids
  | CtlResponse entries => Forall (λ e, is_array 32 (peer_bytes e.1)) entries
  end.

Lemma item_count_spec {A} (l : list A) : item_count l = true → (0 < length l ≤ 32)%nat.
Proof. unfold item_count, MAX_CONTROL_ITEMS. case_bool_decide; [lia|done]. Qed.

Lemma count_u64 {A} (l : list A) : (length l ≤ 32)%nat → u64 (Z.of_nat (length l)).
Proof. unfold u64, U64_MAX. lia. Qed.

Lemma put_count_length {A} (l : list A) : (length l ≤ 32)%nat → length (put_len (Z.of_nat (length l))) = 1%nat.
Proof. intros Hl. rewrite put_len_layout by by apply count_u64. unfold varint; simpl. by rewrite bool_decide_true by lia. Qed.

Lemma put_tag_length (n : Z) : 0 ≤ n < 128 → length (put_len n) = 1%nat.
Proof. intros Hn. rewrite put_len_layout by (unfold u64, U64_MAX; lia). unfold varint; simpl. by rewrite bool_decide_true by lia. Qed.

Lemma put_control_length (c : Control) : validate_control c = Ok () → control_typed c → len (put_control c) ≤ 65000.
Proof.
  unfold len. destruct c as [v|ids|ids|entries]; cbn [validate_control control_typed put_control]; intros Hv Ht.
  - rewrite length_app, put_tag_length, enc_u8 by (done || lia). cbn [length]. lia.
  - apply ensure_Ok, item_count_spec in Hv. unfold put_seq. rewrite !length_app, put_tag_length, put_count_length by lia.
    rewrite (concat_length_const _ 32) by (eapply Forall_impl; [done|]; intros; by apply put_peer_length). lia.
  - apply ensure_Ok, item_count_spec in Hv. unfold put_seq. rewrite !length_app, put_tag_length, put_count_length by lia.
    rewrite (concat_length_const _ 32) by (eapply Forall_impl; [done|]; intros; by apply put_peer_length). lia.
  - destruct (ensure _ _) eqn:Hc; [|done]. cbn [result_bind] in Hv. apply ensure_Ok, item_count_spec in Hc. unfold put_seq.
    rewrite !length_app, put_tag_length, put_count_length by lia. apply validate_entries_ok in Hv.
    rewrite (concat_length_const _ 1986) by (eapply Forall_impl; [exact Hv|]; apply put_entry_length). lia.
Qed.

Lemma get_control_put (c : Control) (rest : list Z) :
  validate_control c = Ok () → control_typed c → get_control (put_control c ++ rest) = Some (c, rest).
Proof.
  destruct c as [v|ids|ids|entries]; simpl; intros Hv Ht; unfold get_control; rewrite <-app_assoc, get_len_put by done; simpl.
  - by rewrite dec_enc.
  - apply ensure_Ok, item_count_spec in Hv. rewrite (get_seq_put _ _ (λ id, is_array 32 (peer_bytes id))); [done|..|done|apply count_u64; lia].
    + intros. by apply get_peer_put. + intros x Hx. rewrite put_peer_length by done. lia.
  - apply ensure_Ok, item_count_spec in Hv. rewrite (get_seq_put _ _ (λ id, is_array 32 (peer_bytes id))); [done|..|done|apply count_u64; lia].
    + intros. by apply get_peer_put. + intros x Hx. rewrite put_peer_length by done. lia.
  - destruct (ensure _ _) eqn:Hc; [|done]. simpl in Hv. apply ensure_Ok, item_count_spec in Hc. apply validate_entries_ok in Hv.
    rewrite (get_seq_put _ _ entry_ok); [done|..|done|apply count_u64; lia].
    + intros. by apply get_entry_put. + intros x Hx. rewrite put_entry_length by done. lia.
Qed.

(** Every control that passes validation can be sent: its encoding stays below
    the payload cap (the largest, 32 keys, needs 63563 bytes), and decoding it
    gives the control back. *)
Lemma control_transfer (c : Control) :
  validate_control c = Ok () → control_typed c →
  ∃ payload, encode_control c = Ok payload ∧ decode_control payload = Ok c ∧ len payload ≤ MAX_KEY_CACHE_CONTROL_BYTES.
Proof.
  intros Hv Ht. set (payload := put_control_payload (mkControl CONTROL_MAGIC 1 c)). exists payload.
  assert (Hmagic : is_array 8 CONTROL_MAGIC) by (apply (bool_decide_unpack _); by vm_compute).
  assert (Hl : len payload ≤ MAX_KEY_CACHE_CONTROL_BYTES).
  { pose proof (put_control_length c Hv Ht) as Hc. unfold len in Hc.
    unfold payload, put_control_payload, len, MAX_KEY_CACHE_CONTROL_BYTES. cbn [magic ctl_version body].
    rewrite !length_app, enc_array, enc_u8 by (done || apply Hmagic).
    destruct Hmagic as [-> _]. cbn [length]. lia. }
  split_and!; [|unfold decode_control|done].
  - unfold encode_control. rewrite Hv. cbn [result_bind]. fold payload. by rewrite bool_decide_true.
  - rewrite bool_decide_true by done. cbn [ensure result_bind]. unfold payload, put_control_payload, get_control_payload. cbn [magic ctl_version body].
    rewrite dec_enc by done. rewrite dec_enc by done. rewrite <-(app_nil_r (put_control c)), get_control_put by done.
    cbn [mbind option_bind of_postcard result_bind magic ctl_version body].
    rewrite !bool_decide_true by done. cbn [ensure result_bind]. by rewrite Hv.
Qed.

(** ** Legacy frames *)

Lemma serialize_head (h : MessageHeader) : Header.typed h → ∃ rest, serialize h = version h :: rest.
Proof.
  intros (Hv & _). unfold serialize, header_elements. rewrite fmap_app, concat_app. csimpl. rewrite enc_u8 by done. eauto.
Qed.

Lemma legacy_not_v3 (m : GossipMessage) : Header.typed (gm_header m) → version (gm_header m) ≠ 255 → strip_prefix WIRE_MARKER (put_gossip m) = None.
Proof.
  intros Ht Hv. destruct (serialize_head _ Ht) as [rest Hs]. unfold put_gossip. rewrite Hs. unfold strip_prefix.
  rewrite decide_False; [done|]. intros Heq. apply (f_equal head) in Heq. simpl in Heq. congruence.
Qed.

Lemma get_gossip_put (m : GossipMessage) (rest : list Z) : frame_ok m → get_gossip (put_gossip m ++ rest) = Some (m, rest).
Proof.
  intros Hok. destruct (Hok) as (Ht & Hv & Hs & Hk & Hp & _). unfold get_gossip, put_gossip. rewrite <-!app_assoc.
  rewrite deserialize_serialize by done. cbn [mbind option_bind]. erewrite get_payload_put by done. cbn [mbind option_bind].
  rewrite get_bytes_put by by apply signature_sized. cbn [mbind option_bind].
  rewrite get_bytes_put by by apply key_sized. by destruct m.
Qed.

Lemma take_payload_uncapped (p : option (list Z)) (cap : option Z) (rest : list Z) :
  within cap p → take_payload (put_payload p ++ rest) None = Ok rest.
Proof. intros Hp. apply take_payload_put. destruct p; [|done]. by destruct Hp. Qed.

Lemma inspect_legacy (m : GossipMessage) :
  frame_ok m → version (gm_header m) ≠ 255 →
  inspect_header (put_gossip m) = Ok (gm_header m, bool_decide (topic (gm_header m) = control_topic)).
Proof.
  intros Hok H255. destruct (Hok) as (Ht & Hv & Hs & Hk & Hp & Hc). unfold inspect_header. rewrite legacy_not_v3 by done.
  assert (Hd : deserialize (put_gossip m) = Some (gm_header m, put_payload (gm_payload m) ++ put_bytes (gm_signature m) ++ put_bytes (gm_public_key m)))
    by (apply deserialize_serialize; done).
  rewrite Hd. cbn [of_postcard result_bind]. case_bool_decide as Ht'.
  - unfold preflight_legacy_control. rewrite Hd. cbn [of_postcard result_bind]. rewrite bool_decide_true by done. cbn [negb].
    rewrite bool_decide_true by auto. cbn [ensure result_bind]. rewrite take_payload_put by done. cbn [result_bind].
    rewrite take_sized_put by (done || by apply signature_sized). cbn [result_bind].
    rewrite <-(app_nil_r (put_bytes (gm_public_key m))), take_sized_put by (done || by apply key_sized). cbn [result_bind].
    by rewrite bool_decide_true by done.
  - erewrite take_payload_uncapped by done. cbn [result_bind].
    rewrite take_sized_put by (done || by apply signature_sized). cbn [result_bind].
    by rewrite <-(app_nil_r (put_bytes (gm_public_key m))), take_sized_put by (done || by apply key_sized).
Qed.

Lemma inspect_v3 (m : GossipMessage) (reference : bool) :
  frame_ok m →
  inspect_header (WIRE_MARKER ++ put_wire (wire_of m reference)) = Ok (gm_header m, bool_decide (topic (gm_header m) = control_topic)).
Proof. intros Hok. unfold inspect_header. rewrite strip_prefix_app, preflight_v3_put by done. done. Qed.

Lemma wire_saving (m : GossipMessage) :
  frame_ok m → len (put_wire (wire_of m false)) = len (put_wire (wire_of m true)) + 1954.
Proof.
  intros (_ & _ & _ & Hk & _). unfold put_wire, len. cbn [wire_of wm_header wm_payload wm_signature wm_key key_of put_key].
  rewrite !length_app, (put_key_length (gm_public_key m)), !put_tag_length by (done || lia). lia.
Qed.
End CodecFacts.

(** ** Claims *)

Section Claims.
Context `{Hashes} `{Postcard}.

(** C10. The key-cache frame is transparent: a well-formed message is encoded in
    both forms; the full form decodes to the message and its signer, the
    reference form to the message without the key and the same signer, and is
    1954 bytes shorter; and the routing gates read the same header, and the
    same answer to "is this the reserved control topic", from the legacy frame
    and from both forms. *)
Theorem v3_roundtrip (m : GossipMessage) :
  frame_ok m → version (gm_header m) ≠ 255 →
  ∃ full ref,
    encode m false = Ok full ∧ encode m true = Ok ref ∧
    decode full = Ok (DecodedFull m (from_pubkey (gm_public_key m))) ∧
    decode ref = Ok (DecodedRef (mkGossip (gm_header m) (gm_payload m) (gm_signature m) []) (from_pubkey (gm_public_key m))) ∧
    len full = len ref + 1954 ∧
    is_v3 full = true ∧ is_v3 ref = true ∧ is_v3 (put_gossip m) = false ∧ get_gossip (put_gossip m) = Some (m, []) ∧
    ∀ frame, frame ∈ [put_gossip m; full; ref] →
      inspect_header frame = Ok (gm_header m, bool_decide (topic (gm_header m) = control_topic)).
Proof.
  intros Hok H255. exists (WIRE_MARKER ++ put_wire (wire_of m false)), (WIRE_MARKER ++ put_wire (wire_of m true)).
  rewrite !encode_eq, !decode_wire by done. unfold is_v3. rewrite !strip_prefix_app, legacy_not_v3 by (done || apply Hok).
  split_and!; try done.
  - pose proof (wire_saving m Hok) as Hs. unfold len in *. rewrite !length_app. lia.
  - rewrite <-(app_nil_r (put_gossip m)). by rewrite get_gossip_put.
  - intros frame Hin. rewrite !elem_of_cons in Hin. destruct Hin as [->|[->|[->|Hin]]]; [|by apply inspect_v3..|by apply elem_of_nil in Hin].
    by apply inspect_legacy.
Qed.
End Claims.

(** ** Witnesses *)

Module KeyCodecWitness.

Definition get_len_ref (l : list Z) : option (Z * list Z) := match take_varint l with Ok r => Some r | Err _ => None end.
Lemma get_len_ref_put (n : Z) (rest : list Z) : u64 n → get_len_ref (varint n ++ rest) = Some (n, rest).
Proof. intros Hn. unfold get_len_ref. by rewrite take_varint_varint. Qed.

Definition ref_postcard : Postcard :=
  {| pc_format := postcard_format; put_len := varint; get_len := get_len_ref;
     put_len_layout n _ := eq_refl; get_len_put := get_len_ref_put;
     enc_u8 z _ := eq_refl; enc_array a _ := eq_refl |}.
End KeyCodecWitness.
End KeyCodec.
