(* ===== verification/KeyCache.v ===== *)
(** * The key cache ([crates/pubsub/src/key_cache.rs], second half, and its
      callers in [crates/pubsub/src/lib.rs])

    Per authenticated session, the keys the peer acknowledged (so that frames
    to it may carry references), the keys to acknowledge, request and supply;
    globally, the keys by their identifier and the frames that wait for a key.
    Every operation runs under the mutex of the cache.

    The counters of [KeyCacheSnapshot] are a function of the field.  Logging,
    the stage statistics and the egress accounting of the callers are left out;
    what the legacy migration policy says of a topic is an argument of the
    caller. *)

From S2P Require Import Prelude Types Float64 MessageCache Plumtree KeyCodec.
Import F64 Plumtree KeyCodec.

#[local] Open Scope Z_scope.

Module KeyCache.

Definition MAX_SESSIONS : nat := 1024.
Definition MAX_QUEUED_IDS_PER_SESSION : nat := 64.
Definition MAX_PENDING_PER_SESSION : Z := 16.
Definition MAX_PENDING_BYTES_PER_SESSION : Z := 256 * 1024.
Definition MAX_PENDING_GLOBAL : Z := 1024.
Definition MAX_PENDING_BYTES_GLOBAL : Z := 8 * 1024 * 1024.
Definition PENDING_TTL : Z := 5 * NANOS_PER_SEC.
Definition CONTROL_BURST : f64 := of_Z 2.

Record AuthenticatedSession := mkSession { peer : PeerId; generation : Z }.
#[global] Instance AuthenticatedSession_eq_dec : EqDecision AuthenticatedSession.
Proof. solve_decision. Defined.

Inductive Stat :=
| full_out_frames | full_out_bytes | ref_out_frames | ref_out_bytes
| full_in_frames | full_in_bytes | ref_in_frames | ref_in_bytes
| cache_hits | cache_misses | cache_evictions | requests | responses
| pending_frames_high_water | pending_bytes_high_water | pending_timeouts
| pending_peer_limit_drops | pending_global_limit_drops | malformed_controls
| hash_mismatches | replay_success | replay_failure | unsolicited_response_keys
| critical_ref_mismatches.
#[global] Instance Stat_eq_dec : EqDecision Stat.
Proof. solve_decision. Defined.

Definition KeyCacheSnapshot : Type := Stat → Z.
Definition add_stat (st : KeyCacheSnapshot) (f : Stat) (n : Z) : KeyCacheSnapshot := λ g, if decide (g = f) then u64_sat_add (st f) n else st g.
Definition max_stat (st : KeyCacheSnapshot) (f : Stat) (n : Z) : KeyCacheSnapshot := λ g, if decide (g = f) then Z.max (st f) n else st g.

Record PendingFrame := mkFrame { pf_bytes : list Z; received_at : Z }.
Record PendingKey := mkPending { frames : list PendingFrame; requested : bool }.
Definition default_pending : PendingKey := mkPending [] false.

Record SessionState := mkSessionState {
  ss_generation : Z;
  hello_sent : bool;
  hello_pending : bool;
  hello_received : bool;
  queued_acks : gset PeerId;
  queued_requests : gset PeerId;
  queued_responses : gset PeerId;
  tokens : f64;
  last_refill : Z;
}.

Definition session_new (generation now : Z) : SessionState :=
  mkSessionState generation false false false ∅ ∅ ∅ CONTROL_BURST now.

Definition set_tokens (s : SessionState) (t : f64) (now : Z) : SessionState :=
  mkSessionState (ss_generation s) (hello_sent s) (hello_pending s) (hello_received s)
    (queued_acks s) (queued_requests s) (queued_responses s) t now.
Definition set_hello (s : SessionState) (sent pending received : bool) : SessionState :=
  mkSessionState (ss_generation s) sent pending received
    (queued_acks s) (queued_requests s) (queued_responses s) (tokens s) (last_refill s).
Definition set_acks (s : SessionState) (x : gset PeerId) : SessionState :=
  mkSessionState (ss_generation s) (hello_sent s) (hello_pending s) (hello_received s)
    x (queued_requests s) (queued_responses s) (tokens s) (last_refill s).
Definition set_requests (s : SessionState) (x : gset PeerId) : SessionState :=
  mkSessionState (ss_generation s) (hello_sent s) (hello_pending s) (hello_received s)
    (queued_acks s) x (queued_responses s) (tokens s) (last_refill s).
Definition set_responses (s : SessionState) (x : gset PeerId) : SessionState :=
  mkSessionState (ss_generation s) (hello_sent s) (hello_pending s) (hello_received s)
    (queued_acks s) (queued_requests s) x (tokens s) (last_refill s).

Definition consume_token (s : SessionState) (now : Z) : SessionState * bool :=
  let t := fmin (add (tokens s) (as_secs_f64 (elapsed_ns now (last_refill s)))) CONTROL_BURST in
  if ltb t (of_Z 1) then (set_tokens s t now, false) else (set_tokens s (sub t (of_Z 1)) now, true).

(** Insertion into a queue of identifiers that holds at most
    [MAX_QUEUED_IDS_PER_SESSION]. *)
Definition queue_id (x : gset PeerId) (id : PeerId) : gset PeerId :=
  if bool_decide (size x < MAX_QUEUED_IDS_PER_SESSION)%nat then {[id]} ∪ x else x.

Notation PKey := (PeerId * Z * PeerId)%type.

(** [LruCache::contains]. *)
Definition contains {K V : Type} `{!EqDecision K} `{!LruCache K V} (l : lru (K := K) (V := V)) (k : K) : bool :=
  bool_decide (is_Some (assoc k (lru_iter l))).

Section KeyCache.
Context `{Hashes} `{!LruPut PeerId (list Z)} `{!LruPut PKey ()}.
Context `{!HashIter PKey PendingKey} `{!HashIter PeerId SessionState} `{!SetIter PeerId}.

Notation KeyLru := (lru (K := PeerId) (V := list Z)).
Notation AckLru := (lru (K := PKey) (V := ())).

Record KeyCache := mkKeyCache {
  resolved : KeyLru;
  acknowledged : AckLru;
  announced_inbound : AckLru;
  sessions : gmap PeerId SessionState;
  pending : gmap PKey PendingKey;
  pending_frames : Z;
  pending_bytes : Z;
  stats : KeyCacheSnapshot;
}.

(** [KeyCache::default]. *)
Definition key_cache_default : KeyCache :=
  mkKeyCache (lru_new 2048) (lru_new 4096) (lru_new 4096) ∅ ∅ 0 0 (λ _, 0).

Definition set_resolved (c : KeyCache) (l : KeyLru) : KeyCache :=
  mkKeyCache l (acknowledged c) (announced_inbound c) (sessions c) (pending c) (pending_frames c) (pending_bytes c) (stats c).
Definition set_acknowledged (c : KeyCache) (l : AckLru) : KeyCache :=
  mkKeyCache (resolved c) l (announced_inbound c) (sessions c) (pending c) (pending_frames c) (pending_bytes c) (stats c).
Definition set_announced (c : KeyCache) (l : AckLru) : KeyCache :=
  mkKeyCache (resolved c) (acknowledged c) l (sessions c) (pending c) (pending_frames c) (pending_bytes c) (stats c).
Definition set_sessions (c : KeyCache) (m : gmap PeerId SessionState) : KeyCache :=
  mkKeyCache (resolved c) (acknowledged c) (announced_inbound c) m (pending c) (pending_frames c) (pending_bytes c) (stats c).
Definition set_pending (c : KeyCache) (m : gmap PKey PendingKey) (frames bytes : Z) : KeyCache :=
  mkKeyCache (resolved c) (acknowledged c) (announced_inbound c) (sessions c) m frames bytes (stats c).
Definition set_stats (c : KeyCache) (st : KeyCacheSnapshot) : KeyCache :=
  mkKeyCache (resolved c) (acknowledged c) (announced_inbound c) (sessions c) (pending c) (pending_frames c) (pending_bytes c) st.
Definition bump (c : KeyCache) (f : Stat) : KeyCache := set_stats c (add_stat (stats c) f 1).


Definition current (c : KeyCache) (s : AuthenticatedSession) : bool :=
  match sessions c !! peer s with Some st => bool_decide (ss_generation st = generation s) | None => false end.

(** ** Sessions *)

Definition remove_pending (c : KeyCache) (key : PKey) : KeyCache * option PendingKey :=
  match pending c !! key with
  | None => (c, None)
  | Some entry =>
      (set_pending c (delete key (pending c))
         (sat_sub (pending_frames c) (Z.of_nat (length (frames entry))))
         (sat_sub (pending_bytes c) (Z.of_nat (sum_list_with (λ f, length (pf_bytes f)) (frames entry)))),
       Some entry)
  end.

Definition of_peer (p : PeerId) (k : PKey) : bool := bool_decide (k.1.1 = p).

Definition clear_peer (c : KeyCache) (p : PeerId) : KeyCache :=
  let c := set_sessions c (delete p (sessions c)) in
  let keys := filter (of_peer p) (hiter (pending c)).*1 in
  let c := foldl (λ c key, (remove_pending c key).1) c keys in
  let ack_keys := filter (of_peer p) (lru_iter (acknowledged c)).*1 in
  let c := set_acknowledged c (foldl (λ l key, (lru_pop l key).1) (acknowledged c) ack_keys) in
  let inbound_keys := filter (of_peer p) (lru_iter (announced_inbound c)).*1 in
  set_announced c (foldl (λ l key, (lru_pop l key).1) (announced_inbound c) inbound_keys).

Definition observe_session (c : KeyCache) (s : AuthenticatedSession) (now : Z) : KeyCache :=
  let fresh c :=
    if bool_decide (size (sessions c) < MAX_SESSIONS)%nat
    then set_sessions c (<[peer s := session_new (generation s) now]> (sessions c)) else c in
  match sessions c !! peer s with
  | Some st => if bool_decide (ss_generation st = generation s) then c else fresh (clear_peer c (peer s))
  | None => fresh c
  end.

Definition forget_stale (c : KeyCache) (s : AuthenticatedSession) : KeyCache :=
  if current c s then clear_peer c (peer s) else c.

(** ** Negotiation *)

Definition supports_v3 (c : KeyCache) (s : AuthenticatedSession) : bool :=
  match sessions c !! peer s with
  | Some st => bool_decide (ss_generation st = generation s) && hello_sent st && hello_received st
  | None => false
  end.

(** [&&] does not look the acknowledgement up when the session does not support
    references. *)
Definition supports_ref (c : KeyCache) (s : AuthenticatedSession) (signer : PeerId) : KeyCache * bool :=
  if supports_v3 c s then
    let '(l, found) := lru_get (acknowledged c) (peer s, generation s, signer) in
    (set_acknowledged c l, bool_decide (is_Some found))
  else (c, false).

(** [sessions.get_mut(&session.peer)] of the same generation. *)
Definition update_session (c : KeyCache) (s : AuthenticatedSession) (f : SessionState → SessionState) : KeyCache :=
  match sessions c !! peer s with
  | Some st => if bool_decide (ss_generation st = generation s) then set_sessions c (<[peer s := f st]> (sessions c)) else c
  | None => c
  end.

Definition received_hello (c : KeyCache) (s : AuthenticatedSession) : KeyCache :=
  update_session c s (λ st, set_hello st (hello_sent st) (hello_pending st) true).

Definition acknowledge (c : KeyCache) (s : AuthenticatedSession) (keys : list PeerId) : KeyCache :=
  if current c s then
    set_acknowledged c (foldl (λ l key, lru_put l (peer s, generation s, key) ()) (acknowledged c) keys)
  else c.

(** ** Keys *)

Definition note_verified_key (c : KeyCache) (key_id : PeerId) (key : list Z) (s : option AuthenticatedSession) : KeyCache :=
  if bool_decide (len key ≠ KEY_BYTES ∨ from_pubkey key ≠ key_id) then bump c hash_mismatches else
  let c := if negb (contains (resolved c) key_id) && bool_decide (Z.of_nat (length (lru_iter (resolved c))) = lru_cap (resolved c))
           then bump c cache_evictions else c in
  let c := set_resolved c (lru_put (resolved c) key_id key) in
  match s with
  | None => c
  | Some s =>
      let announcement := (peer s, generation s, key_id) in
      let novel := negb (contains (announced_inbound c) announcement) in
      let c := set_announced c (lru_put (announced_inbound c) announcement ()) in
      if novel then update_session c s (λ st, set_acks st (queue_id (queued_acks st) key_id)) else c
  end.

Definition note_response_key (c : KeyCache) (s : AuthenticatedSession) (key_id : PeerId) (key : list Z) : KeyCache * bool :=
  match pending c !! (peer s, generation s, key_id) with
  | None => (bump c unsolicited_response_keys, false)
  | Some _ => (note_verified_key c key_id key None, true)
  end.

Definition record_critical_ref_mismatch (c : KeyCache) : KeyCache := bump c critical_ref_mismatches.

Definition lookup (c : KeyCache) (key_id : PeerId) : KeyCache * option (list Z) :=
  let '(l, key) := lru_get (resolved c) key_id in
  let c := set_resolved c l in
  (bump c (if key then cache_hits else cache_misses), key).

(** ** Frames that wait for a key *)

(** The [while let] over the front of the deque. *)
Fixpoint expire_front (now : Z) (fs : list PendingFrame) (c : KeyCache) : list PendingFrame * KeyCache :=
  match fs with
  | [] => ([], c)
  | f :: fs' =>
      if bool_decide (PENDING_TTL ≤ elapsed_ns now (received_at f)) then
        expire_front now fs'
          (bump (set_pending c (pending c) (sat_sub (pending_frames c) 1) (sat_sub (pending_bytes c) (len (pf_bytes f)))) pending_timeouts)
      else (fs, c)
  end.

Definition expire_key (now : Z) (c : KeyCache) (key : PKey) : KeyCache :=
  match pending c !! key with
  | None => c
  | Some entry =>
      let '(fs, c) := expire_front now (frames entry) c in
      if bool_decide (fs = []) then
        let c := set_pending c (delete key (pending c)) (pending_frames c) (pending_bytes c) in
        update_session c (mkSession key.1.1 key.1.2) (λ st, set_requests st (queued_requests st ∖ {[key.2]}))
      else set_pending c (<[key := mkPending fs (requested entry)]> (pending c)) (pending_frames c) (pending_bytes c)
  end.

Definition expire (c : KeyCache) (now : Z) : KeyCache := foldl (expire_key now) c (hiter (pending c)).*1.

Definition of_session (s : AuthenticatedSession) (kv : PKey * PendingKey) : bool :=
  bool_decide (kv.1.1.1 = peer s ∧ kv.1.1.2 = generation s).
Definition frames_bytes (fs : list PendingFrame) : nat := sum_list_with (λ f, length (pf_bytes f)) fs.

Definition peer_frames (c : KeyCache) (s : AuthenticatedSession) : Z :=
  Z.of_nat (sum_list_with (λ kv, length (frames kv.2)) (filter (of_session s) (hiter (pending c)))).
Definition peer_bytes_pending (c : KeyCache) (s : AuthenticatedSession) : Z :=
  Z.of_nat (sum_list_with (λ kv, frames_bytes (frames kv.2)) (filter (of_session s) (hiter (pending c)))).

Definition queue_miss (c : KeyCache) (s : AuthenticatedSession) (key_id : PeerId) (bytes : list Z) (now : Z) : KeyCache * bool :=
  let c := expire c now in
  if bool_decide (MAX_PENDING_PER_SESSION ≤ peer_frames c s ∨
                  MAX_PENDING_BYTES_PER_SESSION < u64_sat_add (peer_bytes_pending c s) (len bytes))
  then (bump c pending_peer_limit_drops, false) else
  if bool_decide (MAX_PENDING_GLOBAL ≤ pending_frames c ∨ MAX_PENDING_BYTES_GLOBAL < u64_sat_add (pending_bytes c) (len bytes))
  then (bump c pending_global_limit_drops, false) else
  let key := (peer s, generation s, key_id) in
  let entry := default default_pending (pending c !! key) in
  let c := set_pending c (<[key := entry]> (pending c)) (pending_frames c) (pending_bytes c) in
  let '(c, asked) :=
    if requested entry then (c, true) else
    match sessions c !! peer s with
    | Some st =>
        if bool_decide (ss_generation st = generation s ∧ (size (queued_requests st) < MAX_QUEUED_IDS_PER_SESSION)%nat)
        then (set_sessions c (<[peer s := set_requests st ({[key_id]} ∪ queued_requests st)]> (sessions c)), true)
        else (c, false)
    | None => (c, false)
    end in
  if negb asked then (bump c pending_peer_limit_drops, false) else
  let entry := mkPending (frames entry ++ [mkFrame bytes now]) true in
  let c := set_pending c (<[key := entry]> (pending c)) (u64_add (pending_frames c) 1) (u64_add (pending_bytes c) (len bytes)) in
  (set_stats c (max_stat (max_stat (stats c) pending_frames_high_water (pending_frames c)) pending_bytes_high_water (pending_bytes c)), true).

Definition take_pending (c : KeyCache) (s : AuthenticatedSession) (key_id : PeerId) : KeyCache * list (list Z) :=
  let '(c, entry) := remove_pending c (peer s, generation s, key_id) in
  (c, match entry with Some e => pf_bytes <$> frames e | None => [] end).

(** ** Controls *)

Definition queue_responses (c : KeyCache) (s : AuthenticatedSession) (ids : list PeerId) : KeyCache :=
  update_session c s (λ st,
    set_responses st (foldl (λ x id, if contains (resolved c) id then queue_id x id else x) (queued_responses st) ids)).

Definition take_ids (ids : gset PeerId) : gset PeerId * list PeerId :=
  let batch := take MAX_CONTROL_ITEMS (siter ids) in
  (foldl (λ x id, x ∖ {[id]}) ids batch, batch).

(** [filter_map(|id| self.resolved.get(&id) ...)]: each [get] touches the entry. *)
Fixpoint get_entries (l : KeyLru) (ids : list PeerId) : KeyLru * list (PeerId * list Z) :=
  match ids with
  | [] => (l, [])
  | id :: ids =>
      let '(l, key) := lru_get l id in
      let '(l, entries) := get_entries l ids in
      (l, match key with Some key => (id, key) :: entries | None => entries end)
  end.

Definition next_control (c : KeyCache) (s : AuthenticatedSession) (now : Z) : KeyCache * option Control :=
  let c := expire c now in
  match sessions c !! peer s with
  | None => (c, None)
  | Some st =>
    let put st := set_sessions c (<[peer s := st]> (sessions c)) in
    if negb (bool_decide (ss_generation st = generation s)) then (c, None) else
    if negb (hello_sent st) then
      if hello_pending st then (c, None) else
      let '(st, ok) := consume_token st now in
      if negb ok then (put st, None) else (put (set_hello st (hello_sent st) true (hello_received st)), Some (CtlHello 1))
    else if negb (hello_received st) then (c, None) else
    if bool_decide (queued_requests st ≠ ∅) then
      let '(st, ok) := consume_token st now in
      if negb ok then (put st, None) else
      let '(rest, key_ids) := take_ids (queued_requests st) in
      (bump (put (set_requests st rest)) requests, Some (CtlRequest key_ids))
    else if bool_decide (queued_responses st ≠ ∅) then
      let '(st, ok) := consume_token st now in
      if negb ok then (put st, None) else
      let '(rest, key_ids) := take_ids (queued_responses st) in
      let c := put (set_responses st rest) in
      let '(l, entries) := get_entries (resolved c) key_ids in
      let c := set_resolved c l in
      if bool_decide (entries = []) then (c, None) else (bump c responses, Some (CtlResponse entries))
    else if bool_decide (queued_acks st ≠ ∅) then
      let '(st, ok) := consume_token st now in
      if negb ok then (put st, None) else
      let '(rest, key_ids) := take_ids (queued_acks st) in
      (put (set_acks st rest), Some (CtlAck key_ids))
    else (c, None)
  end.

Definition requeue (x : gset PeerId) (ids : list PeerId) : gset PeerId := foldl queue_id x ids.

Definition control_result (c : KeyCache) (s : AuthenticatedSession) (control : Control) (sent : bool) : KeyCache :=
  update_session c s (λ st,
    match control with
    | CtlHello _ => set_hello st (hello_sent st || sent) false (hello_received st)
    | CtlAck key_ids => if sent then st else set_acks st (requeue (queued_acks st) key_ids)
    | CtlRequest key_ids => if sent then st else set_requests st (requeue (queued_requests st) key_ids)
    | CtlResponse entries => if sent then st else set_responses st (requeue (queued_responses st) entries.*1)
    end).

(** [KeyCache::sessions]. *)
Definition session_list (c : KeyCache) : list AuthenticatedSession :=
  (λ kv, mkSession kv.1 (ss_generation kv.2)) <$> hiter (sessions c).

(** ** Counters *)

Definition record_outbound (c : KeyCache) (reference : bool) (bytes : Z) : KeyCache :=
  if reference then set_stats c (add_stat (add_stat (stats c) ref_out_frames 1) ref_out_bytes bytes)
  else set_stats c (add_stat (add_stat (stats c) full_out_frames 1) full_out_bytes bytes).
Definition record_inbound (c : KeyCache) (reference : bool) (bytes : Z) : KeyCache :=
  if reference then set_stats c (add_stat (add_stat (stats c) ref_in_frames 1) ref_in_bytes bytes)
  else set_stats c (add_stat (add_stat (stats c) full_in_frames 1) full_in_bytes bytes).
Definition malformed_control (c : KeyCache) : KeyCache := bump c malformed_controls.
Definition hash_mismatch (c : KeyCache) : KeyCache := bump c hash_mismatches.
Definition replay_result (c : KeyCache) (success : bool) : KeyCache := bump c (if success then replay_success else replay_failure).
End KeyCache.
End KeyCache.
