(* ===== verification/KeyCacheProps.v ===== *)
(** * The key cache: its invariant

    Facts on the [lru] crate's cache as a set of entries, sums over a hash map,
    and the invariant of the key cache with its preservation by every
    operation. *)

From S2P Require Import Prelude Types Float64 MessageCache Plumtree KeyCodec KeyCache.
Import F64 Plumtree KeyCodec KeyCache.

#[local] Open Scope Z_scope.

Module KeyCacheProps.

Lemma Forall_elem {A} (P : A → Prop) (l : list A) (x : A) : Forall P l → x ∈ l → P x.
Proof. rewrite Forall_forall. auto. Qed.

(** ** An [LruCache] as a bounded set of entries *)

Section LruFacts.
Context {K V : Type} `{!EqDecision K} `{!LruPut K V}.
Notation Lru := (lru (K := K) (V := V)).

Record lru_wf (l : Lru) (cap : Z) : Prop := {
  lw_cap : lru_cap l = cap;
  lw_len : Z.of_nat (length (lru_iter l)) ≤ cap;
  lw_nodup : NoDup (lru_iter l).*1;
}.

Lemma lru_new_wf (cap : Z) : 0 ≤ cap → lru_wf (lru_new cap) cap ∧ lru_iter (lru_new cap : Lru) = [].
Proof. destruct (lru_new_spec (K := K) (V := V) cap) as [Hi Hc]. intros. split; [|done]. split; rewrite ?Hi; [done|done|constructor]. Qed.

Lemma lru_put_iter (l : Lru) (cap : Z) (k : K) (v : V) :
  lru_wf l cap → 0 < cap → lru_iter (lru_put l k v) = take (Z.to_nat cap) ((k, v) :: without k (lru_iter l)).
Proof. intros [<- Hl _] Hc. by apply lru_put_spec. Qed.

Lemma lru_put_wf (l : Lru) (cap : Z) (k : K) (v : V) : lru_wf l cap → 0 < cap → lru_wf (lru_put l k v) cap.
Proof.
  intros Hw Hc. pose proof (lru_put_iter _ _ k v Hw Hc) as Hi. destruct Hw as [<- Hl Hn]. split.
  - by apply lru_put_spec.
  - rewrite Hi, length_take. lia.
  - rewrite Hi. rewrite fmap_take. eapply sublist_NoDup; [|apply sublist_take]. by apply NoDup_front.
Qed.

Lemma lru_put_elem (l : Lru) (cap : Z) (k : K) (v : V) (kv : K * V) :
  lru_wf l cap → 0 < cap → kv ∈ lru_iter (lru_put l k v) → kv = (k, v) ∨ kv ∈ lru_iter l.
Proof.
  intros Hw Hc. rewrite (lru_put_iter l cap) by done. intros Hin. apply elem_of_take in Hin as (i & Hin & _).
  apply list_elem_of_lookup_2, elem_of_cons in Hin as [->|Hin]; [by left|right]. by apply elem_of_without in Hin as [_ ?].
Qed.

Lemma lru_put_front (l : Lru) (cap : Z) (k : K) (v : V) : lru_wf l cap → 0 < cap → assoc k (lru_iter (lru_put l k v)) = Some v.
Proof.
  intros Hw Hc. rewrite (lru_put_iter l cap) by done. replace (Z.to_nat cap) with (S (Z.to_nat (cap - 1))) by lia.
  cbn. by rewrite decide_True.
Qed.

Lemma lru_get_elem (l : Lru) (cap : Z) (k : K) (kv : K * V) :
  lru_wf l cap → kv ∈ lru_iter (lru_get l k).1 ↔ kv ∈ lru_iter l.
Proof.
  intros Hw. destruct (lru_get_spec l k) as (_ & _ & ->). destruct (assoc k (lru_iter l)) as [v|] eqn:Ha; [|done].
  rewrite elem_of_cons, elem_of_without. split.
  - intros [->|[_ ?]]; [by apply assoc_Some|done].
  - intros Hin. destruct (decide (kv.1 = k)) as [<-|Hne]; [left|by right].
    destruct kv as [k v']. cbn in *. apply assoc_elem in Hin; [|apply Hw]. congruence.
Qed.

Lemma lru_get_wf (l : Lru) (cap : Z) (k : K) : lru_wf l cap → lru_wf (lru_get l k).1 cap.
Proof.
  intros [<- Hl Hn]. destruct (lru_get_spec l k) as (_ & Hc & Hi). split; rewrite ?Hi; [done| |].
  - destruct (assoc k (lru_iter l)) as [v|] eqn:Ha; [|done]. apply assoc_Some, list_elem_of_split in Ha as (l1 & l2 & Hs).
    rewrite Hs in *. rewrite without_app_mid by done. cbn. rewrite !length_app in *. cbn in Hl. lia.
  - destruct (assoc k (lru_iter l)); [by apply NoDup_front|done].
Qed.

Lemma lru_get_value (l : Lru) (k : K) : (lru_get l k).2 = assoc k (lru_iter l).
Proof. destruct (lru_get_spec l k) as (-> & _). done. Qed.

Lemma lru_pop_wf (l : Lru) (cap : Z) (k : K) : lru_wf l cap → lru_wf (lru_pop l k).1 cap.
Proof.
  intros [<- Hl Hn]. destruct (lru_pop_spec l k) as (_ & Hc & Hi). split; rewrite ?Hi; [done| |].
  - unfold without. pose proof (length_filter (λ kv : K * V, kv.1 ≠ k) (lru_iter l)). lia.
  - by apply NoDup_filter_keys.
Qed.

Lemma lru_pops (ks : list K) (l : Lru) (cap : Z) :
  lru_wf l cap →
  lru_wf (foldl (λ l k, (lru_pop l k).1) l ks) cap ∧
  ∀ kv, kv ∈ lru_iter (foldl (λ l k, (lru_pop l k).1) l ks) ↔ kv.1 ∉ ks ∧ kv ∈ lru_iter l.
Proof.
  revert l. induction ks as [|k ks IH]; intros l Hw; cbn [foldl]; [set_solver|].
  destruct (IH (lru_pop l k).1) as [Hw' Hi]; [by apply lru_pop_wf|]. split; [done|]. intros kv. rewrite Hi.
  destruct (lru_pop_spec l k) as (_ & _ & ->). rewrite elem_of_without, not_elem_of_cons. tauto.
Qed.

Lemma lru_puts (ks : list K) (v : V) (l : Lru) (cap : Z) :
  lru_wf l cap → 0 < cap →
  lru_wf (foldl (λ l k, lru_put l k v) l ks) cap ∧
  ∀ kv, kv ∈ lru_iter (foldl (λ l k, lru_put l k v) l ks) → (kv.1 ∈ ks ∧ kv.2 = v) ∨ kv ∈ lru_iter l.
Proof.
  intros Hw Hc. revert l Hw. induction ks as [|k ks IH]; intros l Hw; cbn [foldl]; [auto|].
  destruct (IH (lru_put l k v)) as [Hw' Hi]; [by apply lru_put_wf|]. split; [done|]. intros kv Hin.
  destruct (Hi kv Hin) as [[? ?]|Hin']; [left; split; [by right|done]|]. eapply lru_put_elem in Hin' as [->|?]; [|by right|done|done].
  left. split; [by left|done].
Qed.

(** As many distinct keys as the cache holds leave nothing else in it. *)
Lemma lru_flood (kvs : list (K * V)) (l : Lru) (cap : Z) :
  lru_wf l cap → 0 < cap → NoDup kvs.*1 → Z.of_nat (length kvs) ≤ cap →
  lru_wf (foldl (λ l kv, lru_put l kv.1 kv.2) l kvs) cap ∧
  ∃ back, lru_iter (foldl (λ l kv, lru_put l kv.1 kv.2) l kvs) = reverse kvs ++ back.
Proof.
  intros Hw Hc. induction kvs as [|[k v] kvs IH] using rev_ind; intros Hnd Hlen; [by split; [|exists (lru_iter l)]|].
  rewrite fmap_app, length_app in *. cbn in Hnd, Hlen. apply NoDup_app in Hnd as (Hnd & Hnew & _).
  destruct IH as [Hw' [back Hb]]; [done|lia|]. rewrite foldl_app. cbn. split; [by apply lru_put_wf|].
  rewrite (lru_put_iter _ cap), Hb, reverse_app by done. cbn. unfold without. rewrite filter_app.
  rewrite (filter_all _ (reverse kvs)).
  - exists (take (Z.to_nat cap - S (length kvs)) (filter (λ kv : K * V, kv.1 ≠ k) back)).
    replace (Z.to_nat cap) with (S (Z.to_nat cap - 1)) at 1 by lia. cbn. f_equal. rewrite take_app_ge by (rewrite length_reverse; lia).
    rewrite length_reverse. do 2 f_equal. lia.
  - intros kv Hkv Heq. rewrite elem_of_reverse in Hkv. apply (Hnew kv.1); [exact (list_elem_of_fmap_2 fst _ _ Hkv)|]. rewrite Heq. by left.
Qed.

Lemma contains_elem (l : Lru) (k : K) : contains l k = true ↔ k ∈ (lru_iter l).*1.
Proof.
  unfold contains. rewrite bool_decide_eq_true. destruct (assoc k (lru_iter l)) as [v|] eqn:Ha.
  - split; [intros _|eauto]. apply list_elem_of_fmap. exists (k, v). split; [done|]. by apply assoc_Some.
  - apply assoc_None in Ha. split; [by intros []|done].
Qed.
End LruFacts.

(** ** Sums over a hash map *)

Section Sums.
Context {K V : Type} `{Countable K}.

Definition msum (w : K * V → nat) (m : gmap K V) : nat := sum_list_with w (map_to_list m).

Lemma sum_list_with_perm {A} (w : A → nat) (l k : list A) : l ≡ₚ k → sum_list_with w l = sum_list_with w k.
Proof. induction 1; cbn; lia. Qed.

Lemma sum_filter {A} (w : A → nat) (b : A → bool) (l : list A) :
  sum_list_with w (filter b l) = sum_list_with (λ x, if b x then w x else 0)%nat l.
Proof.
  induction l as [|x l IH]; [done|]. cbn [sum_list_with]. rewrite filter_cons, <-IH. destruct (b x) eqn:Hb.
  - by rewrite decide_True.
  - rewrite decide_False; [done|by intros []].
Qed.

Lemma msum_insert (w : K * V → nat) (m : gmap K V) (k : K) (v : V) : m !! k = None → msum w (<[k := v]> m) = (w (k, v) + msum w m)%nat.
Proof. intros Hk. unfold msum. by rewrite (sum_list_with_perm _ _ _ (map_to_list_insert m k v Hk)). Qed.

Lemma msum_delete (w : K * V → nat) (m : gmap K V) (k : K) (v : V) : m !! k = Some v → msum w m = (w (k, v) + msum w (delete k m))%nat.
Proof. intros Hk. unfold msum. by rewrite (sum_list_with_perm _ _ _ (symmetry (map_to_list_delete m k v Hk))). Qed.

Lemma msum_update (w : K * V → nat) (m : gmap K V) (k : K) (v v' : V) :
  m !! k = Some v → (msum w (<[k := v']> m) + w (k, v) = msum w m + w (k, v'))%nat.
Proof.
  intros Hk. rewrite (msum_delete w m k v Hk), <-insert_delete_eq, msum_insert by apply lookup_delete_eq. lia.
Qed.

Lemma msum_elem (w : K * V → nat) (m : gmap K V) (k : K) (v : V) : m !! k = Some v → (w (k, v) ≤ msum w m)%nat.
Proof. intros Hk. rewrite (msum_delete w m k v Hk). lia. Qed.

Lemma msum_mono (w w' : K * V → nat) (m : gmap K V) : (∀ kv, (w kv ≤ w' kv)%nat) → (msum w m ≤ msum w' m)%nat.
Proof. intros Hle. unfold msum. induction (map_to_list m) as [|kv l IH]; cbn; [lia|]. specialize (Hle kv). lia. Qed.
End Sums.

(** ** The frames that wait *)

Definition w_frames (kv : PKey * PendingKey) : nat := length (frames kv.2).
Definition w_bytes (kv : PKey * PendingKey) : nat := frames_bytes (frames kv.2).
Definition only (s : AuthenticatedSession) (w : PKey * PendingKey → nat) (kv : PKey * PendingKey) : nat :=
  if of_session s kv then w kv else 0%nat.

Record pend_wf (m : gmap PKey PendingKey) (n b : Z) : Prop := {
  pw_frames : n = Z.of_nat (msum w_frames m);
  pw_bytes : b = Z.of_nat (msum w_bytes m);
  pw_global : n ≤ MAX_PENDING_GLOBAL ∧ b ≤ MAX_PENDING_BYTES_GLOBAL;
  pw_session s : Z.of_nat (msum (only s w_frames) m) ≤ MAX_PENDING_PER_SESSION ∧
    Z.of_nat (msum (only s w_bytes) m) ≤ MAX_PENDING_BYTES_PER_SESSION;
  pw_entry : map_Forall (λ _ e, frames e = [] ↔ requested e = false) m;
}.

Lemma pend_empty : pend_wf ∅ 0 0.
Proof. split; try done; intros; split; done. Qed.

(** Fewer frames under a key. *)
Lemma pend_update (m : gmap PKey PendingKey) (n b : Z) (k : PKey) (e e' : PendingKey) :
  pend_wf m n b → m !! k = Some e →
  (length (frames e') ≤ length (frames e))%nat → (frames_bytes (frames e') ≤ frames_bytes (frames e))%nat →
  (frames e' = [] ↔ requested e' = false) →
  pend_wf (<[k := e']> m) (n - Z.of_nat (length (frames e)) + Z.of_nat (length (frames e')))
    (b - Z.of_nat (frames_bytes (frames e)) + Z.of_nat (frames_bytes (frames e'))).
Proof.
  intros [Hn Hb [Hg1 Hg2] Hs He] Hk Hl Hl' Hr.
  pose proof (msum_update w_frames m k e e' Hk) as H1. pose proof (msum_update w_bytes m k e e' Hk) as H2.
  unfold w_frames at 2 4 in H1. unfold w_bytes at 2 4 in H2. cbn in H1, H2. split.
  - lia.
  - lia.
  - lia.
  - intros s. specialize (Hs s) as [Hs1 Hs2].
    pose proof (msum_update (only s w_frames) m k e e' Hk) as H3. pose proof (msum_update (only s w_bytes) m k e e' Hk) as H4.
    assert (Hof : of_session s (k, e') = of_session s (k, e)) by done.
    unfold only at 2 4 in H3. unfold only at 2 4 in H4. rewrite Hof in H3, H4. unfold w_frames at 2 4 in H3. unfold w_bytes at 2 4 in H4.
    cbn in H3, H4. destruct (of_session s (k, e)); lia.
  - by apply map_Forall_insert_2.
Qed.

Lemma pend_delete (m : gmap PKey PendingKey) (n b : Z) (k : PKey) (e : PendingKey) :
  pend_wf m n b → m !! k = Some e →
  pend_wf (delete k m) (n - Z.of_nat (length (frames e))) (b - Z.of_nat (frames_bytes (frames e))).
Proof.
  intros [Hn Hb [Hg1 Hg2] Hs He] Hk.
  pose proof (msum_delete w_frames m k e Hk) as H1. pose proof (msum_delete w_bytes m k e Hk) as H2.
  unfold w_frames at 2 in H1. unfold w_bytes at 2 in H2. cbn in H1, H2. split; [lia|lia|lia| |].
  - intros s. specialize (Hs s). pose proof (msum_delete (only s w_frames) m k e Hk). pose proof (msum_delete (only s w_bytes) m k e Hk). lia.
  - by apply map_Forall_delete.
Qed.

Lemma pend_room (m : gmap PKey PendingKey) (n b : Z) (k : PKey) (e : PendingKey) :
  pend_wf m n b → m !! k = Some e → Z.of_nat (length (frames e)) ≤ n ∧ Z.of_nat (frames_bytes (frames e)) ≤ b.
Proof.
  intros [Hn Hb _ _ _] Hk. pose proof (msum_elem w_frames m k e Hk) as H1. pose proof (msum_elem w_bytes m k e Hk) as H2.
  unfold w_frames at 1 in H1. unfold w_bytes at 1 in H2. cbn in H1, H2. lia.
Qed.

(** An entry without frames, as [or_default] creates it. *)
Lemma pend_default (m : gmap PKey PendingKey) (n b : Z) (k : PKey) :
  pend_wf m n b → pend_wf (<[k := default default_pending (m !! k)]> m) n b.
Proof.
  intros Hw. destruct (m !! k) as [e|] eqn:Hk; cbn [default from_option Datatypes.id].
  - by rewrite insert_id.
  - destruct Hw as [Hn Hb Hg Hs He]. split; rewrite ?msum_insert by done; try done.
    + intros s. rewrite !msum_insert by done. specialize (Hs s). unfold only, w_frames, w_bytes, frames_bytes in *. cbn.
      by destruct (of_session s (k, default_pending)).
    + by apply map_Forall_insert_2.
Qed.

(** One more frame, where there is room. *)
Lemma pend_push (m : gmap PKey PendingKey) (n b : Z) (s : AuthenticatedSession) (id : PeerId) (e : PendingKey) (f : PendingFrame) :
  pend_wf m n b → m !! (peer s, generation s, id) = Some e →
  Z.of_nat (msum (only s w_frames) m) < MAX_PENDING_PER_SESSION →
  Z.of_nat (msum (only s w_bytes) m) + len (pf_bytes f) ≤ MAX_PENDING_BYTES_PER_SESSION →
  n < MAX_PENDING_GLOBAL → b + len (pf_bytes f) ≤ MAX_PENDING_BYTES_GLOBAL →
  pend_wf (<[(peer s, generation s, id) := mkPending (frames e ++ [f]) true]> m) (n + 1) (b + len (pf_bytes f)).
Proof.
  intros [Hn Hb Hg Hs He] Hk H1 H2 H3 H4. set (k := (peer s, generation s, id)) in *. set (e' := mkPending _ _).
  assert (Hlen : length (frames e') = S (length (frames e))) by (cbn; rewrite length_app; cbn; lia).
  assert (Hbytes : Z.of_nat (frames_bytes (frames e')) = Z.of_nat (frames_bytes (frames e)) + len (pf_bytes f)).
  { cbn. unfold frames_bytes, len. rewrite sum_list_with_app. cbn. lia. }
  pose proof (msum_update w_frames m k e e' Hk) as U1. pose proof (msum_update w_bytes m k e e' Hk) as U2.
  unfold w_frames at 2 4 in U1. unfold w_bytes at 2 4 in U2. cbn [snd] in U1, U2. split.
  - lia.
  - lia.
  - lia.
  - intros s'. pose proof (msum_update (only s' w_frames) m k e e' Hk) as U3. pose proof (msum_update (only s' w_bytes) m k e e' Hk) as U4.
    unfold only at 2 4 in U3. unfold only at 2 4 in U4. unfold w_frames at 2 4 in U3. unfold w_bytes at 2 4 in U4. cbn [snd] in U3, U4.
    assert (Hof : of_session s' (k, e') = of_session s' (k, e)) by done. rewrite Hof in U3, U4.
    destruct (of_session s' (k, e)) eqn:Hs'; [|specialize (Hs s'); lia].
    assert (s' = s) as ->; [|lia]. unfold of_session in Hs'. apply bool_decide_eq_true in Hs' as [Hp Hgn].
    destruct s, s'. cbn in *. by subst.
  - apply map_Forall_insert_2; [|done]. subst e'. cbn. split; [|done]. intros Hnil. apply app_eq_nil in Hnil as [_ ?]. done.
Qed.

(** ** The invariant *)

Definition session_ok (st : SessionState) : Prop :=
  (size (queued_acks st) ≤ MAX_QUEUED_IDS_PER_SESSION)%nat ∧
  (size (queued_requests st) ≤ MAX_QUEUED_IDS_PER_SESSION)%nat ∧
  (size (queued_responses st) ≤ MAX_QUEUED_IDS_PER_SESSION)%nat.

Definition gen_of (m : gmap PeerId SessionState) (p : PeerId) : option Z := ss_generation <$> m !! p.

Section Cache.
Context `{Hashes} `{!LruPut PeerId (list Z)} `{!LruPut PKey ()}.
Context `{!HashIter PKey PendingKey} `{!HashIter PeerId SessionState} `{!SetIter PeerId}.
Notation KeyLru := (lru (K := PeerId) (V := list Z)).
Notation AckLru := (lru (K := PKey) (V := ())).

Record kc_good (res : KeyLru) (ack ann : AckLru) (ses : gmap PeerId SessionState) (pend : gmap PKey PendingKey) (n b : Z) : Prop := {
  kg_res : lru_wf res 2048;
  kg_keys : Forall entry_ok (lru_iter res);
  kg_ack : lru_wf ack 4096;
  kg_ann : lru_wf ann 4096;
  kg_ack_current : Forall (λ kv : PKey * (), gen_of ses kv.1.1.1 = Some kv.1.1.2) (lru_iter ack);
  kg_size : (size ses ≤ MAX_SESSIONS)%nat;
  kg_sessions : map_Forall (λ _ st, session_ok st) ses;
  kg_pend : pend_wf pend n b;
  kg_pend_current : map_Forall (λ (k : PKey) e, requested e = true → gen_of ses k.1.1 = Some k.1.2) pend;
}.

Definition kc_wf (c : KeyCache) : Prop :=
  kc_good (resolved c) (acknowledged c) (announced_inbound c) (sessions c) (pending c) (pending_frames c) (pending_bytes c).

Lemma default_wf : kc_wf key_cache_default.
Proof.
  unfold kc_wf, key_cache_default; cbn.
  destruct (lru_new_wf (K := PeerId) (V := list Z) 2048) as [? Hr]; [lia|].
  destruct (lru_new_wf (K := PKey) (V := ()) 4096) as [? Ha]; [lia|].
  split; rewrite ?Hr, ?Ha; try done; first [apply pend_empty|rewrite map_size_empty; unfold MAX_SESSIONS; lia].
Qed.

Lemma bump_wf (c : KeyCache) (f : Stat) : kc_wf c → kc_wf (bump c f).
Proof. done. Qed.
Lemma set_stats_wf (c : KeyCache) (st : KeyCacheSnapshot) : kc_wf c → kc_wf (set_stats c st).
Proof. done. Qed.

Lemma queue_id_size (x : gset PeerId) (id : PeerId) :
  (size x ≤ MAX_QUEUED_IDS_PER_SESSION)%nat → (size (queue_id x id) ≤ MAX_QUEUED_IDS_PER_SESSION)%nat.
Proof.
  intros Hx. unfold queue_id. case_bool_decide; [|done].
  pose proof (size_union_alt {[id]} x) as Hu. rewrite size_singleton in Hu.
  pose proof (subseteq_size (x ∖ {[id]}) x ltac:(set_solver)). lia.
Qed.

Lemma foldl_queue_size (P : PeerId → bool) (ids : list PeerId) (x : gset PeerId) :
  (size x ≤ MAX_QUEUED_IDS_PER_SESSION)%nat →
  (size (foldl (λ x id, if P id then queue_id x id else x) x ids) ≤ MAX_QUEUED_IDS_PER_SESSION)%nat.
Proof. revert x. induction ids as [|id ids IH]; intros x Hx; cbn [foldl]; [done|]. apply IH. destruct (P id); [by apply queue_id_size|done]. Qed.

Lemma requeue_size (ids : list PeerId) (x : gset PeerId) :
  (size x ≤ MAX_QUEUED_IDS_PER_SESSION)%nat → (size (requeue x ids) ≤ MAX_QUEUED_IDS_PER_SESSION)%nat.
Proof. exact (foldl_queue_size (λ _, true) ids x). Qed.

Lemma take_ids_spec (x : gset PeerId) :
  (take_ids x).1 = x ∖ list_to_set (take_ids x).2 ∧ (∀ id, id ∈ (take_ids x).2 → id ∈ x) ∧ (length (take_ids x).2 ≤ MAX_CONTROL_ITEMS)%nat.
Proof.
  unfold take_ids; cbn [fst snd]. split_and!.
  - generalize (take MAX_CONTROL_ITEMS (siter x)). intros l. revert x. induction l as [|id l IH]; intros x; cbn [foldl list_to_set]; [set_solver|].
    rewrite IH. set_solver.
  - intros id Hin. apply elem_of_siter. apply elem_of_take in Hin as (i & Hin & _). by eapply list_elem_of_lookup_2.
  - rewrite length_take. lia.
Qed.

Lemma take_ids_size (x : gset PeerId) :
  (size x ≤ MAX_QUEUED_IDS_PER_SESSION)%nat → (size (take_ids x).1 ≤ MAX_QUEUED_IDS_PER_SESSION)%nat.
Proof. intros Hx. destruct (take_ids_spec x) as (-> & _). pose proof (subseteq_size (x ∖ list_to_set (take_ids x).2) x ltac:(set_solver)). lia. Qed.

(** A change of one session that keeps its generation. *)
Lemma session_put_wf (c : KeyCache) (p : PeerId) (st st' : SessionState) :
  kc_wf c → sessions c !! p = Some st → ss_generation st' = ss_generation st → session_ok st' →
  kc_wf (set_sessions c (<[p := st']> (sessions c))).
Proof.
  intros [] Hp Hg Hok. assert (Hgen : ∀ q, gen_of (<[p := st']> (sessions c)) q = gen_of (sessions c) q).
  { intros q. unfold gen_of. destruct (decide (q = p)) as [->|Hne]; [by rewrite lookup_insert_eq, Hp; cbn; rewrite Hg|by rewrite lookup_insert_ne]. }
  split; cbn; try done.
  - eapply Forall_impl; [done|]. intros kv. by rewrite Hgen.
  - by rewrite map_size_insert_Some by by rewrite Hp.
  - by apply map_Forall_insert_2.
  - intros k e He Hr. rewrite Hgen. by eapply kg_pend_current0.
Qed.

Lemma update_session_wf (c : KeyCache) (s : AuthenticatedSession) (f : SessionState → SessionState) :
  (∀ st, ss_generation (f st) = ss_generation st) → (∀ st, session_ok st → session_ok (f st)) →
  kc_wf c → kc_wf (update_session c s f).
Proof.
  intros Hg Hf Hw. unfold update_session. destruct (sessions c !! peer s) as [st|] eqn:Hs; [|done]. case_bool_decide; [|done].
  eapply session_put_wf; [done..|]. apply Hf. by eapply (kg_sessions _ _ _ _ _ _ _ Hw).
Qed.

(** ** Operations that remove waiting frames *)

Definition same_rest (c c' : KeyCache) : Prop :=
  resolved c' = resolved c ∧ acknowledged c' = acknowledged c ∧ announced_inbound c' = announced_inbound c ∧ sessions c' = sessions c.

Lemma remove_pending_spec (c : KeyCache) (k : PKey) :
  pend_wf (pending c) (pending_frames c) (pending_bytes c) →
  let c' := (remove_pending c k).1 in
  pend_wf (pending c') (pending_frames c') (pending_bytes c') ∧ same_rest c c' ∧ pending c' = delete k (pending c).
Proof.
  intros Hw. unfold remove_pending. destruct (pending c !! k) as [e|] eqn:Hk; cbn; [|by rewrite delete_id].
  split_and!; [|done|done]. destruct (pend_room _ _ _ _ _ Hw Hk) as [Hn Hb]. unfold frames_bytes in Hb.
  unfold sat_sub. rewrite !Z.max_r by lia. by apply (pend_delete _ _ _ _ _ Hw).
Qed.

Lemma remove_pendings_spec (ks : list PKey) (c : KeyCache) :
  pend_wf (pending c) (pending_frames c) (pending_bytes c) →
  let c' := foldl (λ c key, (remove_pending c key).1) c ks in
  pend_wf (pending c') (pending_frames c') (pending_bytes c') ∧ same_rest c c' ∧
  ∀ k, pending c' !! k = if decide (k ∈ ks) then None else pending c !! k.
Proof.
  revert c. induction ks as [|k ks IH]; intros c Hw; cbn [foldl]; [done|].
  destruct (remove_pending_spec c k Hw) as (Hw' & (? & ? & ? & ?) & Hd).
  destruct (IH (remove_pending c k).1 Hw') as (Hw'' & (? & ? & ? & ?) & Hl).
  split_and!; [done|split_and!; congruence|]. intros k'. rewrite Hl, Hd.
  destruct (decide (k' ∈ ks)); [by rewrite decide_True by by right|].
  destruct (decide (k' = k)) as [->|Hne]; [by rewrite lookup_delete_eq, decide_True by left|].
  rewrite lookup_delete_ne, decide_False by (done || set_solver). done.
Qed.

Lemma pend_good (c c' : KeyCache) :
  kc_wf c → same_rest c c' → pend_wf (pending c') (pending_frames c') (pending_bytes c') → 
  map_Forall (λ (k : PKey) e, requested e = true → gen_of (sessions c) k.1.1 = Some k.1.2) (pending c') → kc_wf c'.
Proof. intros [] (Hr & Ha & Hn & Hs) Hp Hc. split; rewrite ?Hr, ?Ha, ?Hn, ?Hs; done. Qed.

Lemma remove_pending_wf (c : KeyCache) (k : PKey) : kc_wf c → kc_wf (remove_pending c k).1.
Proof.
  intros Hw. destruct (remove_pending_spec c k (kg_pend _ _ _ _ _ _ _ Hw)) as (Hp & Hs & Hd).
  apply (pend_good c); [done..|]. rewrite Hd. by apply map_Forall_delete, Hw.
Qed.

Lemma clear_peer_wf (c : KeyCache) (p : PeerId) : kc_wf c → kc_wf (clear_peer c p) ∧ sessions (clear_peer c p) = delete p (sessions c).
Proof.
  intros Hw. unfold clear_peer. set (c0 := set_sessions c _). set (keys := filter (of_peer p) (hiter (pending c0)).*1).
  destruct (remove_pendings_spec keys c0 (kg_pend _ _ _ _ _ _ _ Hw)) as (Hp & (Hr & Ha & Hn & Hs) & Hl).
  set (c1 := foldl _ c0 keys) in *. destruct Hw.
  destruct (lru_pops (filter (of_peer p) (lru_iter (acknowledged c1)).*1) (acknowledged c1) 4096) as [Ha1 Ha2]; [by rewrite Ha|].
  destruct (lru_pops (filter (of_peer p) (lru_iter (announced_inbound c1)).*1) (announced_inbound c1) 4096) as [Hn1 _]; [by rewrite Hn|].
  assert (Hgen : ∀ q, q ≠ p → gen_of (delete p (sessions c)) q = gen_of (sessions c) q) by (intros q Hq; unfold gen_of; by rewrite lookup_delete_ne).
  split; [|done]. split; cbn; rewrite ?Hr, ?Hs; try done.
  - apply Forall_forall. intros kv [Hk Hin]%Ha2. rewrite Hgen; [rewrite Ha in Hin; rewrite Forall_forall in kg_ack_current0; by apply kg_ack_current0|].
    intros <-. apply Hk. apply list_elem_of_filter. split; [by apply bool_decide_pack|]. by apply list_elem_of_fmap_2.
  - etrans; [|done]. cbn. destruct (sessions c !! p) as [st|] eqn:Hst; [rewrite map_size_delete_Some by by rewrite Hst|by rewrite delete_id]. lia.
  - by apply map_Forall_delete.
  - intros k e He Hrq. rewrite Hl in He. destruct (decide (k ∈ keys)) as [|Hk]; [done|]. cbn. rewrite Hgen; [by eapply kg_pend_current0|].
    intros <-. apply Hk, list_elem_of_filter. split; [by apply bool_decide_pack|]. apply elem_of_hiter_keys. by exists e.
Qed.

Lemma observe_session_wf (c : KeyCache) (s : AuthenticatedSession) (now : Z) : kc_wf c → kc_wf (observe_session c s now).
Proof.
  intros Hw. assert (Hfresh : ∀ c, kc_wf c → sessions c !! peer s = None →
    kc_wf (if bool_decide (size (sessions c) < MAX_SESSIONS)%nat
           then set_sessions c (<[peer s := session_new (generation s) now]> (sessions c)) else c)).
  { clear c Hw. intros c [] Hn. case_bool_decide as Hsz; [|done].
    assert (Hgen : ∀ p g, gen_of (sessions c) p = Some g → gen_of (<[peer s := session_new (generation s) now]> (sessions c)) p = Some g).
    { intros p g Hg. unfold gen_of in *. rewrite lookup_insert_ne; [done|]. intros <-. by rewrite Hn in Hg. }
    split; cbn; try done.
    - eapply Forall_impl; [done|]. auto.
    - rewrite map_size_insert_None by done. lia.
    - apply map_Forall_insert_2; [|done]. unfold session_ok; cbn. rewrite size_empty. unfold MAX_QUEUED_IDS_PER_SESSION. lia.
    - intros k e He Hr. eauto. }
  unfold observe_session. destruct (sessions c !! peer s) as [st|] eqn:Hs; [case_bool_decide; [done|]|by apply Hfresh].
  destruct (clear_peer_wf c (peer s) Hw) as [Hw' Hc]. apply Hfresh; [done|]. by rewrite Hc, lookup_delete_eq.
Qed.

Lemma forget_stale_wf (c : KeyCache) (s : AuthenticatedSession) : kc_wf c → kc_wf (forget_stale c s).
Proof. intros Hw. unfold forget_stale. destruct (current c s); [by apply clear_peer_wf|done]. Qed.

Lemma supports_ref_wf (c : KeyCache) (s : AuthenticatedSession) (k : PeerId) : kc_wf c → kc_wf (supports_ref c s k).1.
Proof.
  intros Hw. unfold supports_ref. destruct (supports_v3 c s); [|done].
  pose proof (lru_get_wf (acknowledged c) 4096 (peer s, generation s, k) (kg_ack _ _ _ _ _ _ _ Hw)) as Hl.
  pose proof (λ kv, lru_get_elem (acknowledged c) 4096 (peer s, generation s, k) kv (kg_ack _ _ _ _ _ _ _ Hw)) as Hi.
  destruct (lru_get _ _) as [l v]. destruct Hw. split; cbn in *; try done.
  apply Forall_forall. intros kv. rewrite Hi. intros Hin. exact (Forall_elem _ _ _ kg_ack_current0 Hin).
Qed.

Lemma received_hello_wf (c : KeyCache) (s : AuthenticatedSession) : kc_wf c → kc_wf (received_hello c s).
Proof. by apply update_session_wf. Qed.

Lemma current_gen (c : KeyCache) (s : AuthenticatedSession) : current c s = true ↔ gen_of (sessions c) (peer s) = Some (generation s).
Proof.
  unfold current, gen_of. destruct (sessions c !! peer s) as [st|]; cbn; [|split; discriminate]. rewrite bool_decide_eq_true. split; congruence.
Qed.

Lemma acknowledge_wf (c : KeyCache) (s : AuthenticatedSession) (keys : list PeerId) : kc_wf c → kc_wf (acknowledge c s keys).
Proof.
  intros []. unfold acknowledge. destruct (current c s) eqn:Hc; [|done]. apply current_gen in Hc.
  destruct (lru_puts ((λ key, (peer s, generation s, key)) <$> keys) () (acknowledged c) 4096) as [Hl Hi]; [done|lia|].
  rewrite foldl_fmap in Hl, Hi. split; cbn; try done.
  apply Forall_forall. intros kv Hin. destruct (Hi kv Hin) as [[Hk _]|Hin']; [|exact (Forall_elem _ _ _ kg_ack_current0 Hin')].
  apply list_elem_of_fmap in Hk as (key & Hk & _). by rewrite Hk.
Qed.

Lemma resolved_put_wf (c : KeyCache) (id : PeerId) (key : list Z) :
  kc_wf c → entry_ok (id, key) → kc_wf (set_resolved c (lru_put (resolved c) id key)).
Proof.
  intros [] Hok. split; cbn; try done; [by apply lru_put_wf|].
  apply Forall_forall. intros kv Hin. eapply lru_put_elem in Hin as [->|Hin]; [done| |done|lia]. exact (Forall_elem _ _ _ kg_keys0 Hin).
Qed.

Lemma announce_wf (c : KeyCache) (k : PKey) : kc_wf c → kc_wf (set_announced c (lru_put (announced_inbound c) k ())).
Proof. intros []. split; cbn; try done. by apply lru_put_wf. Qed.

Lemma note_verified_key_wf (c : KeyCache) (id : PeerId) (key : list Z) (s : option AuthenticatedSession) :
  kc_wf c → kc_wf (note_verified_key c id key s).
Proof.
  intros Hw. unfold note_verified_key. case_bool_decide as Hbad; [done|].
  assert (Hok : entry_ok (id, key)). { unfold entry_ok; cbn. split; apply dec_stable; tauto. }
  set (c1 := if _ && _ then _ else c). assert (Hw1 : kc_wf c1) by (unfold c1; case_match; done).
  pose proof (resolved_put_wf c1 id key Hw1 Hok) as Hw2. destruct s as [s|]; [|done]. cbv zeta.
  pose proof (announce_wf _ (peer s, generation s, id) Hw2) as Hw3. match goal with |- context [if negb ?b then _ else _] => destruct b end; [done|]. apply update_session_wf; [done| |done].
  intros st (? & ? & ?). split_and!; [by apply queue_id_size|done..].
Qed.

Lemma note_response_key_wf (c : KeyCache) (s : AuthenticatedSession) (id : PeerId) (key : list Z) : kc_wf c → kc_wf (note_response_key c s id key).1.
Proof. intros Hw. unfold note_response_key. destruct (pending c !! _); [by apply note_verified_key_wf|done]. Qed.

Lemma resolved_get_wf (c : KeyCache) (id : PeerId) : kc_wf c → kc_wf (set_resolved c (lru_get (resolved c) id).1).
Proof.
  intros []. split; cbn; try done; [by apply lru_get_wf|].
  apply Forall_forall. intros kv Hin. rewrite (lru_get_elem _ 2048) in Hin by done. exact (Forall_elem _ _ _ kg_keys0 Hin).
Qed.

Lemma lookup_wf (c : KeyCache) (id : PeerId) : kc_wf c → kc_wf (lookup c id).1.
Proof. intros Hw. unfold lookup. pose proof (resolved_get_wf c id Hw). by destruct (lru_get _ _) as [? []]. Qed.

(** ** Expiry *)

Definition stale (now : Z) (f : PendingFrame) : Prop := PENDING_TTL ≤ elapsed_ns now (received_at f).

Lemma expire_front_spec (now : Z) (fs : list PendingFrame) (c : KeyCache) :
  Z.of_nat (length fs) ≤ pending_frames c → Z.of_nat (frames_bytes fs) ≤ pending_bytes c →
  let '(fs', c') := expire_front now fs c in
  ∃ dropped, fs = dropped ++ fs' ∧ Forall (stale now) dropped ∧ match fs' with [] => True | f :: _ => ¬ stale now f end ∧
    same_rest c c' ∧ pending c' = pending c ∧
    pending_frames c' = pending_frames c - Z.of_nat (length dropped) ∧ pending_bytes c' = pending_bytes c - Z.of_nat (frames_bytes dropped).
Proof.
  revert c. induction fs as [|f fs IH]; intros c Hn Hb; cbn [expire_front].
  - exists []. split_and!; try done; cbn; lia.
  - case_bool_decide as Hold; [|exists []; split_and!; try done; cbn; lia]. unfold frames_bytes in *. cbn [length sum_list_with] in Hn, Hb.
    match goal with |- context [expire_front now fs ?x] => set (c1 := x) end.
    assert (Hc1 : pending_frames c1 = pending_frames c - 1 ∧ pending_bytes c1 = pending_bytes c - len (pf_bytes f)).
    { unfold c1, bump; cbn. unfold sat_sub, len. lia. }
    specialize (IH c1). destruct (expire_front now fs c1) as [fs' c'].
    destruct IH as (dropped & -> & Hst & Hf & (? & ? & ? & ?) & ? & ? & ?); [unfold len in *; lia..|].
    exists (f :: dropped). split_and!; try done; [by constructor|..]; cbn [length sum_list_with]; unfold len in *; lia.
Qed.

Lemma expire_key_wf (now : Z) (c : KeyCache) (k : PKey) : kc_wf c → kc_wf (expire_key now c k).
Proof.
  intros Hw. unfold expire_key. destruct (pending c !! k) as [e|] eqn:Hk; [|done].
  destruct (pend_room _ _ _ _ _ (kg_pend _ _ _ _ _ _ _ Hw) Hk) as [Hn Hb].
  pose proof (expire_front_spec now (frames e) c Hn Hb) as Hspec. destruct (expire_front now (frames e) c) as [fs c'].
  destruct Hspec as (dropped & Hfs & _ & _ & (Hr & Ha & Hi & Hs) & Hp & Hn' & Hb').
  pose proof (kg_pend _ _ _ _ _ _ _ Hw) as Hpw. case_bool_decide as Hnil.
  - apply update_session_wf; [done|..].
    + intros st (? & ? & ?). split_and!; [done|cbn|done]. pose proof (subseteq_size (queued_requests st ∖ {[k.2]}) (queued_requests st) ltac:(set_solver)). lia.
    + subst fs. rewrite app_nil_r in Hfs. subst dropped. apply (pend_good c); [done|done| |cbn; rewrite Hp; by apply map_Forall_delete, Hw].
      cbn. rewrite Hp, Hn', Hb'. by apply pend_delete.
  - apply (pend_good c); [done|done| |].
    + cbn. rewrite Hp. replace (pending_frames c') with (pending_frames c - Z.of_nat (length (frames e)) + Z.of_nat (length fs))
        by (rewrite Hn', Hfs, length_app; lia).
      replace (pending_bytes c') with (pending_bytes c - Z.of_nat (frames_bytes (frames e)) + Z.of_nat (frames_bytes fs))
        by (rewrite Hb', Hfs; unfold frames_bytes; rewrite sum_list_with_app; lia).
      apply (pend_update _ _ _ k e (mkPending fs (requested e))); [done|done|cbn; rewrite Hfs, length_app; lia|cbn; rewrite Hfs; unfold frames_bytes; rewrite sum_list_with_app; lia|].
      cbn. pose proof (pw_entry _ _ _ Hpw k e Hk) as He. cbn in He. rewrite <-He, Hfs. split; [done|]. by intros [_ ?]%app_eq_nil.
    + cbn. rewrite Hp. apply map_Forall_insert_2; [|apply Hw]. cbn. intros Hreq. by apply (kg_pend_current _ _ _ _ _ _ _ Hw k e).
Qed.

Lemma expire_wf (c : KeyCache) (now : Z) : kc_wf c → kc_wf (expire c now).
Proof.
  unfold expire. generalize ((hiter (pending c)).*1). intros ks. revert c. induction ks as [|k ks IH]; intros c Hw; cbn [foldl]; [done|].
  by apply IH, expire_key_wf.
Qed.

(** ** Queueing a frame *)

Lemma peer_frames_msum (c : KeyCache) (s : AuthenticatedSession) : peer_frames c s = Z.of_nat (msum (only s w_frames) (pending c)).
Proof.
  unfold peer_frames, msum. rewrite sum_filter. f_equal. apply (sum_list_with_perm (only s w_frames)), hiter_perm.
Qed.

Lemma peer_bytes_msum (c : KeyCache) (s : AuthenticatedSession) : peer_bytes_pending c s = Z.of_nat (msum (only s w_bytes) (pending c)).
Proof.
  unfold peer_bytes_pending, msum. rewrite sum_filter. f_equal. apply (sum_list_with_perm (only s w_bytes)), hiter_perm.
Qed.

Lemma msum_default (w : PKey * PendingKey → nat) (m : gmap PKey PendingKey) (k : PKey) :
  w (k, default_pending) = 0%nat → msum w (<[k := default default_pending (m !! k)]> m) = msum w m.
Proof.
  intros Hw. destruct (m !! k) as [e|] eqn:Hk; cbn [default from_option Datatypes.id]; [by rewrite insert_id|].
  rewrite msum_insert by done. lia.
Qed.

Lemma only_default (s : AuthenticatedSession) (k : PKey) :
  only s w_frames (k, default_pending) = 0%nat ∧ only s w_bytes (k, default_pending) = 0%nat.
Proof. unfold only. by destruct (of_session _ _). Qed.

Lemma sat_add_le (a b m : Z) : m < U64_MAX → u64_sat_add a b ≤ m → a + b ≤ m.
Proof. unfold u64_sat_add. lia. Qed.

(** The part of [queue_miss] after the limits: what it stores when the request
    is outstanding. *)
Lemma push_wf (c : KeyCache) (s : AuthenticatedSession) (id : PeerId) (e : PendingKey) (bytes : list Z) (now : Z) :
  kc_wf c → pending c !! (peer s, generation s, id) = Some e → gen_of (sessions c) (peer s) = Some (generation s) →
  peer_frames c s < MAX_PENDING_PER_SESSION → peer_bytes_pending c s + len bytes ≤ MAX_PENDING_BYTES_PER_SESSION →
  pending_frames c < MAX_PENDING_GLOBAL → pending_bytes c + len bytes ≤ MAX_PENDING_BYTES_GLOBAL →
  kc_wf (set_pending c (<[(peer s, generation s, id) := mkPending (frames e ++ [mkFrame bytes now]) true]> (pending c))
    (u64_add (pending_frames c) 1) (u64_add (pending_bytes c) (len bytes))).
Proof.
  intros Hw Hk Hg H1 H2 H3 H4. rewrite peer_frames_msum in H1. rewrite peer_bytes_msum in H2.
  pose proof (kg_pend _ _ _ _ _ _ _ Hw) as Hp. pose proof (pw_frames _ _ _ Hp). pose proof (pw_bytes _ _ _ Hp). pose proof (byte_len_nonneg bytes).
  apply (pend_good c); [done|done| |].
  - cbn. unfold MAX_PENDING_GLOBAL, MAX_PENDING_BYTES_GLOBAL in *. rewrite !u64_add_exact by (unfold u64, U64_MAX; lia).
    by apply (pend_push _ _ _ _ _ e (mkFrame bytes now)).
  - cbn. apply map_Forall_insert_2; [done|apply Hw].
Qed.

Lemma entry_wf (c : KeyCache) (k : PKey) :
  kc_wf c → kc_wf (set_pending c (<[k := default default_pending (pending c !! k)]> (pending c)) (pending_frames c) (pending_bytes c)).
Proof.
  intros Hw. apply (pend_good c); [done|done|by apply pend_default, Hw|]. cbn. apply map_Forall_insert_2; [|apply Hw].
  destruct (pending c !! k) as [e|] eqn:Hk; cbn; [|done]. by apply (kg_pend_current _ _ _ _ _ _ _ Hw k e).
Qed.

Lemma queue_miss_wf (c : KeyCache) (s : AuthenticatedSession) (id : PeerId) (bytes : list Z) (now : Z) : kc_wf c → kc_wf (queue_miss c s id bytes now).1.
Proof.
  intros Hw. unfold queue_miss. apply (expire_wf c now) in Hw. set (c1 := expire c now) in *.
  case_bool_decide as Hl1; [done|]. case_bool_decide as Hl2; [done|]. set (k := (peer s, generation s, id)).
  pose proof (entry_wf c1 k Hw) as Hw2. set (e := default default_pending (pending c1 !! k)) in *.
  set (c2 := set_pending c1 (<[k := e]> (pending c1)) (pending_frames c1) (pending_bytes c1)) in *.
  assert (Hk : pending c2 !! k = Some e) by apply lookup_insert_eq.
  destruct (only_default s k) as [Hd1 Hd2].
  assert (Hlim : peer_frames c2 s < MAX_PENDING_PER_SESSION ∧ peer_bytes_pending c2 s + len bytes ≤ MAX_PENDING_BYTES_PER_SESSION ∧
    pending_frames c2 < MAX_PENDING_GLOBAL ∧ pending_bytes c2 + len bytes ≤ MAX_PENDING_BYTES_GLOBAL).
  { rewrite peer_frames_msum, peer_bytes_msum. change (pending c2) with (<[k := default default_pending (pending c1 !! k)]> (pending c1)).
    change (pending_frames c2) with (pending_frames c1). change (pending_bytes c2) with (pending_bytes c1). rewrite !msum_default, <-peer_frames_msum, <-peer_bytes_msum by done.
    assert (Hsat : ∀ a m, m < U64_MAX → ¬ m < u64_sat_add a (len bytes) → a + len bytes ≤ m) by (intros; apply sat_add_le; lia).
    split_and!; [lia| |lia|]; apply Hsat; (done || lia). }
  destruct Hlim as (L1 & L2 & L3 & L4). clear Hl1 Hl2 Hd1 Hd2.
  destruct (requested e) eqn:Hr; [cbn [negb]|destruct (sessions c2 !! peer s) as [st|] eqn:Hst; [case_bool_decide as Hb|done]; [cbn [negb]|done]]; apply set_stats_wf.
  - apply push_wf; try done. by apply (kg_pend_current _ _ _ _ _ _ _ Hw2 k e).
  - destruct Hb as [Hgen Hsz]. set (st' := set_requests st ({[id]} ∪ queued_requests st)).
    assert (Hw3 : kc_wf (set_sessions c2 (<[peer s := st']> (sessions c2)))).
    { eapply session_put_wf; [done|done|done|]. pose proof (kg_sessions _ _ _ _ _ _ _ Hw2 _ _ Hst) as (? & ? & ?). split_and!; [done| |done].
      pose proof (queue_id_size (queued_requests st) id ltac:(done)) as Hq. unfold queue_id in Hq. by rewrite bool_decide_true in Hq. }
    apply (push_wf _ s id e bytes now Hw3); try done. unfold gen_of. cbn. by rewrite lookup_insert_eq, <-Hgen.
Qed.

Lemma take_pending_wf (c : KeyCache) (s : AuthenticatedSession) (id : PeerId) : kc_wf c → kc_wf (take_pending c s id).1.
Proof.
  intros Hw. unfold take_pending. pose proof (remove_pending_wf c (peer s, generation s, id) Hw). by destruct (remove_pending _ _).
Qed.

(** ** Controls *)

Lemma queue_responses_wf (c : KeyCache) (s : AuthenticatedSession) (ids : list PeerId) : kc_wf c → kc_wf (queue_responses c s ids).
Proof.
  apply update_session_wf; [done|]. intros st (? & ? & ?). split_and!; [done|done|]. cbn. by apply foldl_queue_size.
Qed.

Lemma control_result_wf (c : KeyCache) (s : AuthenticatedSession) (x : Control) (sent : bool) : kc_wf c → kc_wf (control_result c s x sent).
Proof.
  apply update_session_wf; intros st; [by destruct x, sent|]. intros (? & ? & ?).
  destruct x, sent; split_and!; cbn; try done; by apply requeue_size.
Qed.

Lemma consume_token_same (st : SessionState) (now : Z) :
  let st' := (consume_token st now).1 in
  ss_generation st' = ss_generation st ∧ hello_sent st' = hello_sent st ∧ hello_pending st' = hello_pending st ∧ hello_received st' = hello_received st ∧
  queued_acks st' = queued_acks st ∧ queued_requests st' = queued_requests st ∧ queued_responses st' = queued_responses st.
Proof. unfold consume_token. by destruct (ltb _ _). Qed.

Lemma get_entries_spec (ids : list PeerId) (l : KeyLru) :
  lru_wf l 2048 →
  lru_wf (get_entries l ids).1 2048 ∧ (∀ kv, kv ∈ lru_iter (get_entries l ids).1 ↔ kv ∈ lru_iter l) ∧
  (get_entries l ids).2 = omap (λ id, (id,.) <$> assoc id (lru_iter l)) ids.
Proof.
  revert l. induction ids as [|id ids IH]; intros l Hl; [done|]. cbn [get_entries].
  pose proof (lru_get_wf l 2048 id Hl) as Hg. pose proof (λ kv, lru_get_elem l 2048 id kv Hl) as Hi. pose proof (lru_get_value l id) as Hv.
  destruct (lru_get l id) as [l1 v]. cbn [fst snd] in *. destruct (IH l1 Hg) as (Hw & Hi' & He). destruct (get_entries l1 ids) as [l2 es].
  cbn [fst snd] in *. split_and!; [done|intros kv; by rewrite Hi', Hi|]. subst v.
  assert (Hassoc : ∀ k, assoc k (lru_iter l1) = assoc k (lru_iter l)).
  { intros k. destruct (assoc k (lru_iter l)) as [v|] eqn:Ha.
    - apply assoc_elem; [apply Hg|]. apply Hi. by apply assoc_Some.
    - destruct (assoc k (lru_iter l1)) as [v|] eqn:Ha1; [|done]. apply assoc_Some, Hi, assoc_elem in Ha1; [congruence|apply Hl]. }
  cbn. rewrite He. assert (Ho : omap (λ id0, pair id0 <$> assoc id0 (lru_iter l1)) ids = omap (λ id0, pair id0 <$> assoc id0 (lru_iter l)) ids).
  { clear -Hassoc. induction ids as [|x xs IHx]; cbn; [done|]. by rewrite Hassoc, IHx. }
  rewrite Ho. by destruct (assoc id (lru_iter l)).
Qed.

Lemma get_entries_wf (c : KeyCache) (ids : list PeerId) : kc_wf c → kc_wf (set_resolved c (get_entries (resolved c) ids).1).
Proof.
  intros []. destruct (get_entries_spec ids (resolved c) kg_res0) as (Hw & Hi & _). split; cbn; try done.
  apply Forall_forall. intros kv Hin. apply Hi in Hin. exact (Forall_elem _ _ _ kg_keys0 Hin).
Qed.

Lemma next_control_wf (c : KeyCache) (s : AuthenticatedSession) (now : Z) : kc_wf c → kc_wf (next_control c s now).1.
Proof.
  intros Hw. unfold next_control. apply (expire_wf c now) in Hw. set (c1 := expire c now) in *.
  destruct (sessions c1 !! peer s) as [st|] eqn:Hst; [|done]. cbv zeta.
  case_bool_decide; cbn [negb]; [|done].
  pose proof (kg_sessions _ _ _ _ _ _ _ Hw _ _ Hst) as (Hk1 & Hk2 & Hk3).
  destruct (consume_token_same st now) as (T1 & T2 & T3 & T4 & T5 & T6 & T7).
  destruct (consume_token st now) as [st1 ok]. cbn [fst] in *.
  assert (Hput : ∀ st', ss_generation st' = ss_generation st → session_ok st' → kc_wf (set_sessions c1 (<[peer s := st']> (sessions c1))))
    by (intros; by eapply session_put_wf).
  assert (Hst1 : session_ok st1) by (unfold session_ok; by rewrite T5, T6, T7).
  destruct (hello_sent st); cbn [negb].
  2:{ destruct (hello_pending st); [done|]. destruct ok; cbn [negb fst]; by apply Hput. }
  destruct (hello_received st); cbn [negb]; [|done].
  pose proof (take_ids_size (queued_requests st1) ltac:(apply Hst1)) as S1. pose proof (take_ids_size (queued_responses st1) ltac:(apply Hst1)) as S2.
  pose proof (take_ids_size (queued_acks st1) ltac:(apply Hst1)) as S3.
  destruct Hst1 as (? & ? & ?).
  case_bool_decide; [destruct ok; cbn [negb]; [|by apply Hput]|].
  { destruct (take_ids (queued_requests st1)) as [rest ids]. apply bump_wf, Hput; [done|]. by split_and!. }
  case_bool_decide; [destruct ok; cbn [negb]; [|by apply Hput]|].
  { destruct (take_ids (queued_responses st1)) as [rest ids]. cbn [fst] in *.
    assert (Hw2 : kc_wf (set_sessions c1 (<[peer s := set_responses st1 rest]> (sessions c1)))) by (apply Hput; [done|by split_and!]).
    pose proof (get_entries_wf _ ids Hw2) as Hw3. destruct (get_entries _ ids) as [l es]. by case_bool_decide. }
  case_bool_decide; [destruct ok; cbn [negb]; [|by apply Hput]|done].
  destruct (take_ids (queued_acks st1)) as [rest ids]. apply Hput; [done|]. by split_and!.
Qed.
End Cache.
End KeyCacheProps.
