(* ===== verification/KeyExchange.v ===== *)
(** * Key references between two nodes ([crates/pubsub/src/lib.rs])

    The callers of the key cache: the decoding stage of [dispatch_message],
    which turns a frame into the message the handlers see or queues it until
    its signer's key is known; the control handler; the flusher's pass over a
    session; and every operation on the cache as a step, for the properties
    that hold in all reachable states.

    [live] is what the transport answers to [authenticated_session],
    [registered] what the migration policy says of a topic, [critical] whether
    the local registry gives a topic the highest priority.  A caller locks the
    cache several times; other callers may run in between, which is why the
    properties of all states are proved of the single operations. *)

From S2P Require Import Prelude Types Identity Float64 MessageCache Plumtree KeyCodec KeyCache KeyCacheProps.
Import F64 Identity Plumtree KeyCodec KeyCache KeyCacheProps.

#[local] Open Scope Z_scope.

Module KeyExchange.

Inductive DispatchError :=
| StaleSession | MigrationFrameTooLarge | NeedsProvenance | SignerNotAdjacent
| TrailingMigrationBytes | ReservedTopicNotPing | UndecodableMessage
| MissingControlPayload | Codec (e : KeyError).
#[global] Instance DispatchError_eq_dec : EqDecision DispatchError.
Proof. solve_decision. Defined.

(** What the decoding stage leaves: a message for the handler of its kind, or
    nothing because the frame waits for a key (or was refused by the queue). *)
Inductive Receipt := Handle (m : GossipMessage) | Waiting.

Definition with_key (m : GossipMessage) (key : list Z) : GossipMessage :=
  mkGossip (gm_header m) (gm_payload m) (gm_signature m) key.

Section Exchange.
Context `{Hashes} `{Postcard} `{!LruPut PeerId (list Z)} `{!LruPut PKey ()}.
Context `{!HashIter PKey PendingKey} `{!HashIter PeerId SessionState} `{!SetIter PeerId}.
Context (live : PeerId → option AuthenticatedSession) (registered critical : TopicId → bool).

(** ** Steps *)

Inductive KOp :=
| KObserve (s : AuthenticatedSession) (now : Z)
| KForget (s : AuthenticatedSession)
| KSupportsRef (s : AuthenticatedSession) (signer : PeerId)
| KHello (s : AuthenticatedSession)
| KAck (s : AuthenticatedSession) (keys : list PeerId)
| KVerified (key_id : PeerId) (key : list Z) (s : option AuthenticatedSession)
| KResponse (s : AuthenticatedSession) (key_id : PeerId) (key : list Z)
| KLookup (key_id : PeerId)
| KMiss (s : AuthenticatedSession) (key_id : PeerId) (bytes : list Z) (now : Z)
| KTake (s : AuthenticatedSession) (key_id : PeerId)
| KRequests (s : AuthenticatedSession) (ids : list PeerId)
| KNext (s : AuthenticatedSession) (now : Z)
| KResult (s : AuthenticatedSession) (control : Control) (sent : bool)
| KCount (st : KeyCacheSnapshot).

Definition kexec (c : KeyCache) (o : KOp) : KeyCache :=
  match o with
  | KObserve s now => observe_session c s now
  | KForget s => forget_stale c s
  | KSupportsRef s signer => (supports_ref c s signer).1
  | KHello s => received_hello c s
  | KAck s keys => acknowledge c s keys
  | KVerified id key s => note_verified_key c id key s
  | KResponse s id key => (note_response_key c s id key).1
  | KLookup id => (lookup c id).1
  | KMiss s id bytes now => (queue_miss c s id bytes now).1
  | KTake s id => (take_pending c s id).1
  | KRequests s ids => queue_responses c s ids
  | KNext s now => (next_control c s now).1
  | KResult s control sent => control_result c s control sent
  | KCount st => set_stats c st
  end.

Definition krun (c : KeyCache) (os : list KOp) : KeyCache := foldl kexec c os.

(** ** Receiving *)

Definition guard (b : bool) (e : DispatchError) : result () DispatchError := if b then Ok () else Err e.

(** The bound on a registered topic's frame, and the shape of a control, before
    anything is decoded. *)
Definition predecode (data : list Z) : result () DispatchError :=
  match deserialize data with
  | Some (header, _) =>
      let? _ := if bool_decide (topic header = control_topic)
                then match preflight_legacy_control data with Ok _ => Ok () | Err e => Err (Codec e) end else Ok () in
      if registered (topic header) then guard (bool_decide (len data ≤ 1024 * 1024 + 6000)) MigrationFrameTooLarge else Ok ()
  | None => Ok ()
  end.

(** A hop-local message must come from the adjacent peer. *)
Definition adjacent (m : GossipMessage) (signer from : PeerId) : result () DispatchError :=
  guard (bool_decide (kind (gm_header m) = Eager ∨ signer = from)) SignerNotAdjacent.

Definition decode_v3 (c : KeyCache) (from : PeerId) (session : option AuthenticatedSession) (data : list Z) (now : Z) :
    KeyCache * result Receipt DispatchError :=
  match session with
  | None => (c, Err NeedsProvenance)
  | Some s =>
    match decode data with
    | Err e => (if bool_decide (e = HashMismatch) then hash_mismatch c else c, Err (Codec e))
    | Ok (DecodedFull m key_id) =>
        match adjacent m key_id from with
        | Err e => (c, Err e)
        | Ok _ => (record_inbound c false (len data), Ok (Handle m))
        end
    | Ok (DecodedRef m key_id) =>
        match adjacent m key_id from with
        | Err e => (c, Err e)
        | Ok _ =>
          let c := if critical (topic (gm_header m)) then record_critical_ref_mismatch c else c in
          match lookup c key_id with
          | (c, None) => ((queue_miss (record_inbound c true (len data)) s key_id data now).1, Ok Waiting)
          | (c, Some key) => (record_inbound c true (len data), Ok (Handle (with_key m key)))
          end
        end
    end
  end.

Definition decode_legacy (c : KeyCache) (from : PeerId) (session : option AuthenticatedSession) (data : list Z) :
    KeyCache * result Receipt DispatchError :=
  match get_gossip data with
  | None => (c, Err UndecodableMessage)
  | Some (m, trailing) =>
      if registered (topic (gm_header m)) && negb (bool_decide (trailing = [])) then (c, Err TrailingMigrationBytes) else
      let control := bool_decide (topic (gm_header m) = control_topic) in
      if control && negb (match session with Some s => bool_decide (peer s = from) | None => false end
                          && bool_decide (from_pubkey (gm_public_key m) = from)) then (c, Err SignerNotAdjacent) else
      (if control then c else record_inbound c false (len data), Ok (Handle m))
  end.

(** [dispatch_message] up to the routing on the message kind. *)
Definition receive_frame (c : KeyCache) (from : PeerId) (session : option AuthenticatedSession) (data : list Z) (now : Z) :
    KeyCache * result Receipt DispatchError :=
  if match session with Some s => negb (bool_decide (peer s = from ∧ live from = Some s)) | None => false end
  then (c, Err StaleSession) else
  match predecode data with
  | Err e => (c, Err e)
  | Ok _ =>
    let '(c, r) := if is_v3 data then decode_v3 c from session data now else decode_legacy c from session data in
    match r with
    | Ok (Handle m) =>
        if bool_decide (topic (gm_header m) = control_topic ∧ kind (gm_header m) ≠ Ping) then (c, Err ReservedTopicNotPing)
        else if is_v3 data && bool_decide (kind (gm_header m) ≠ Eager) &&
                negb (match session with Some s => bool_decide (peer s = from) | None => false end
                      && bool_decide (from_pubkey (gm_public_key m) = from)) then (c, Err SignerNotAdjacent)
        else (c, Ok (Handle m))
    | r => (c, r)
    end
  end.

(** [handle_authenticated_message]. *)
Definition receive_authenticated (c : KeyCache) (s : AuthenticatedSession) (data : list Z) (now : Z) : KeyCache * result Receipt DispatchError :=
  let c := if bool_decide (live (peer s) = Some s) then observe_session c s now else c in
  receive_frame c (peer s) (Some s) data now.

(** [note_verified_inbound_key], which the handlers call once the signature of
    the message verified. *)
Definition note_verified_inbound_key (c : KeyCache) (m : GossipMessage) (session : option AuthenticatedSession) : KeyCache :=
  if bool_decide (topic (gm_header m) = control_topic) then c
  else note_verified_key c (from_pubkey (gm_public_key m)) (gm_public_key m) session.

(** ** Controls *)

(** The entries of a response: those that were asked for are learned, and
    release the frames that wait for them. *)
Fixpoint learn_entries (c : KeyCache) (s : AuthenticatedSession) (entries : list (PeerId * list Z)) : KeyCache * list (list Z) :=
  match entries with
  | [] => (c, [])
  | (key_id, key) :: entries =>
      let '(c, learned) := note_response_key c s key_id key in
      let '(c, fs) := if learned then take_pending c s key_id else (c, []) in
      let '(c, fs') := learn_entries c s entries in
      (c, fs ++ fs')
  end.

Definition apply_control (c : KeyCache) (s : AuthenticatedSession) (control : Control) : KeyCache * list (list Z) :=
  match control with
  | CtlHello _ => (received_hello c s, [])
  | CtlAck key_ids => (acknowledge c s key_ids, [])
  | CtlRequest key_ids => (queue_responses c s key_ids, [])
  | CtlResponse entries => learn_entries c s entries
  end.

(** [handle_key_cache_control] up to the replay: the frames to dispatch again. *)
Definition handle_key_cache_control (c : KeyCache) (from : PeerId) (session : option AuthenticatedSession) (m : GossipMessage) (now : Z) :
    KeyCache * result (list (list Z)) DispatchError :=
  match session with
  | None => (c, Err NeedsProvenance)
  | Some s =>
    if negb (bool_decide (peer s = from ∧ live from = Some s)) then (c, Err StaleSession) else
    if negb (bool_decide (from_pubkey (gm_public_key m) = from ∧ len (gm_public_key m) = 1952)) then (c, Err SignerNotAdjacent) else
    match gm_payload m with
    | None => (c, Err MissingControlPayload)
    | Some payload =>
      match decode_control payload with
      | Err e =>
          let c := malformed_control c in
          (if bool_decide (e = HashMismatch) then hash_mismatch c else c, Err (Codec e))
      | Ok control =>
          let '(c, frames) := apply_control (observe_session c s now) s control in (c, Ok frames)
      end
    end
  end.

(** One replayed frame: dispatched again, its outcome counted.  [handled] is
    what the handler of the message's kind returns. *)
Definition replay (c : KeyCache) (s : AuthenticatedSession) (frame : list Z) (now : Z) (handled : GossipMessage → bool) : KeyCache * option GossipMessage :=
  let '(c, r) := receive_frame c (peer s) (Some s) frame now in
  match r with
  | Ok (Handle m) => (replay_result c (handled m), Some m)
  | Ok Waiting => (replay_result c true, None)
  | Err _ => (replay_result c false, None)
  end.

(** [send_key_cache_control]: the signed message, [None] when encoding or
    signing fails; [nanos] is the system time. *)
Definition control_message `{MlDsa} (key : MlDsaKeyPair) (nanos : Z) (control : Control) : option GossipMessage :=
  payload ← match encode_control control with Ok payload => Some payload | Err _ => None end;
  let header := Header.seal_payload_hash (Header.new control_topic Ping 1) (Some payload) in
  let id := Header.calculate_msg_id (topic header) (u64_wrap nanos) (peer_id key) (blake3 payload) in
  let header := mkHeader (version header) (topic header) id (kind header) (hop header) (ttl header) (payload_hash header) in
  signature ← sign key (serialize header);
  Some (mkGossip header (Some payload) signature (public_key key)).

(** The flusher on one session: controls until there is none to send or a send
    fails.  [env] gives each round its clock reading and whether the send
    succeeded. *)
Fixpoint flush_session (c : KeyCache) (s : AuthenticatedSession) (env : list (Z * bool)) : KeyCache * list Control :=
  match env with
  | [] => (c, [])
  | (now, sent) :: env =>
      match next_control c s now with
      | (c, None) => (c, [])
      | (c, Some control) =>
          let c := control_result c s control sent in
          if sent then let '(c, rest) := flush_session c s env in (c, control :: rest) else (c, [])
      end
  end.

(** One tick over the sessions: the stale ones are forgotten. *)
Definition flush_tick (c : KeyCache) (env : AuthenticatedSession → list (Z * bool)) : KeyCache * list (AuthenticatedSession * Control) :=
  foldl (λ '(c, out) s,
    if bool_decide (live (peer s) = Some s)
    then let '(c, sent) := flush_session c s (env s) in (c, out ++ ((s,.) <$> sent))
    else (forget_stale c s, out)) (c, []) (session_list c).
End Exchange.
End KeyExchange.
