(* ===== verification/KeyExchangeProps.v ===== *)
(** * Key references: the properties

    The invariant in every reachable state; a reference is licensed by an
    acknowledgement of the same connection; a reference frame is the message it
    stands for; a missing key is recovered; and two ways in which recovery
    fails. *)

From S2P Require Import Prelude Types Identity Float64 MessageCache Plumtree KeyCodec KeyCache KeyCacheProps KeyExchange.
Import F64 Identity Plumtree KeyCodec KeyCache KeyCacheProps KeyExchange.

#[local] Open Scope Z_scope.

Module KeyExchangeProps.

Section Exchange.
Context `{Hashes} `{!LruPut PeerId (list Z)} `{!LruPut PKey ()}.
Context `{!HashIter PKey PendingKey} `{!HashIter PeerId SessionState} `{!SetIter PeerId}.

(** ** The invariant is kept *)

Lemma kexec_wf (c : KeyCache) (o : KOp) : kc_wf c → kc_wf (kexec c o).
Proof.
  destruct o; cbn [kexec]; auto using observe_session_wf, forget_stale_wf, supports_ref_wf, received_hello_wf, acknowledge_wf,
    note_verified_key_wf, note_response_key_wf, lookup_wf, queue_miss_wf, take_pending_wf, queue_responses_wf, next_control_wf,
    control_result_wf, set_stats_wf.
Qed.

Lemma krun_wf (os : list KOp) (c : KeyCache) : kc_wf c → kc_wf (krun c os).
Proof. revert c. induction os as [|o os IH]; intros c Hw; cbn; [done|]. by apply IH, kexec_wf. Qed.

(** The callers are sequences of steps. *)
Definition steps_to (c c' : KeyCache) : Prop := ∃ os, c' = krun c os.

Lemma steps_refl (c : KeyCache) : steps_to c c.
Proof. by exists []. Qed.
Lemma steps_one (c : KeyCache) (o : KOp) : steps_to c (kexec c o).
Proof. by exists [o]. Qed.
Lemma steps_trans (c1 c2 c3 : KeyCache) : steps_to c1 c2 → steps_to c2 c3 → steps_to c1 c3.
Proof. intros [os1 ->] [os2 ->]. exists (os1 ++ os2). unfold krun. by rewrite foldl_app. Qed.
Lemma steps_then (c1 c2 : KeyCache) (o : KOp) : steps_to c1 c2 → steps_to c1 (kexec c2 o).
Proof. intros Hs. eapply steps_trans; [done|]. apply steps_one. Qed.

Lemma bump_step (c : KeyCache) (f : Stat) : steps_to c (bump c f).
Proof. exact (steps_one c (KCount (add_stat (stats c) f 1))). Qed.
Lemma record_inbound_step (c : KeyCache) (r : bool) (n : Z) : steps_to c (record_inbound c r n).
Proof. unfold record_inbound. destruct r; apply (steps_one c (KCount _)). Qed.

(** ** What a step does to the negotiation of a session *)

Definition flag3 (st : SessionState) : Z * bool * bool := (ss_generation st, hello_sent st, hello_received st).
Definition flags (c : KeyCache) (p : PeerId) : option (Z * bool * bool) := flag3 <$> sessions c !! p.
Definition quiet (c c' : KeyCache) : Prop := acknowledged c' = acknowledged c ∧ ∀ p, flags c' p = flags c p.

Lemma kquiet_refl (c : KeyCache) : quiet c c.
Proof. done. Qed.
Lemma kquiet_trans (c1 c2 c3 : KeyCache) : quiet c1 c2 → quiet c2 c3 → quiet c1 c3.
Proof. intros [Ha Hf] [Ha' Hf']. split; [congruence|]. intros p. by rewrite Hf', Hf. Qed.

Lemma session_put_quiet (c : KeyCache) (p : PeerId) (st st' : SessionState) :
  sessions c !! p = Some st → flag3 st' = flag3 st → quiet c (set_sessions c (<[p := st']> (sessions c))).
Proof.
  intros Hp Hf. split; [done|]. intros q. unfold flags. cbn. destruct (decide (q = p)) as [->|Hne].
  - rewrite lookup_insert_eq, Hp. cbn. by rewrite Hf.
  - by rewrite lookup_insert_ne.
Qed.

Lemma update_session_quiet (c : KeyCache) (s : AuthenticatedSession) (f : SessionState → SessionState) :
  (∀ st, flag3 (f st) = flag3 st) → quiet c (update_session c s f).
Proof.
  intros Hf. unfold update_session. destruct (sessions c !! peer s) as [st|] eqn:Hs; [|done]. case_bool_decide; [|done].
  by eapply session_put_quiet.
Qed.

Lemma expire_quiet (c : KeyCache) (now : Z) : quiet c (expire c now).
Proof.
  unfold expire. generalize ((hiter (pending c)).*1). intros ks. revert c. induction ks as [|k ks IH]; intros c; cbn [foldl]; [done|].
  eapply kquiet_trans; [|apply IH]. unfold expire_key. destruct (pending c !! k) as [e|]; [|done].
  assert (Hf : ∀ fs c, quiet c (expire_front now fs c).2).
  { clear. induction fs as [|f fs IH]; intros c; cbn [expire_front]; [done|]. case_bool_decide; [|done]. eapply kquiet_trans; [|apply IH]. done. }
  specialize (Hf (frames e) c). destruct (expire_front now (frames e) c) as [fs c']. cbn [snd] in Hf. case_bool_decide; [|done].
  eapply kquiet_trans; [exact Hf|]. eapply kquiet_trans; [|by apply update_session_quiet]. done.
Qed.

Lemma note_verified_key_quiet (c : KeyCache) (id : PeerId) (key : list Z) (s : option AuthenticatedSession) : quiet c (note_verified_key c id key s).
Proof.
  unfold note_verified_key. destruct (bool_decide _); [done|]. cbv zeta. set (c1 := if _ && _ then _ else c).
  assert (Hq : quiet c c1) by (unfold c1; by case_match). clearbody c1. destruct s as [s|]; [|done].
  case_match; [|done]. eapply kquiet_trans; [exact Hq|]. eapply kquiet_trans; [|by apply update_session_quiet]. done.
Qed.

Lemma queue_miss_quiet (c : KeyCache) (s : AuthenticatedSession) (id : PeerId) (bytes : list Z) (now : Z) : quiet c (queue_miss c s id bytes now).1.
Proof.
  unfold queue_miss. eapply kquiet_trans; [apply (expire_quiet c now)|]. set (c1 := expire c now). do 2 (case_bool_decide; [done|]).
  set (e := default _ _). set (k := (peer s, generation s, id)). destruct (requested e); cbn [negb]; [done|].
  cbn [sessions set_pending]. destruct (sessions c1 !! peer s) as [st|] eqn:Hst; [|done]. case_bool_decide; [|done].
  exact (session_put_quiet c1 (peer s) st (set_requests st ({[id]} ∪ queued_requests st)) Hst eq_refl).
Qed.

Lemma next_control_quiet (c : KeyCache) (s : AuthenticatedSession) (now : Z) : quiet c (next_control c s now).1.
Proof.
  unfold next_control. eapply kquiet_trans; [apply (expire_quiet c now)|]. set (c1 := expire c now).
  destruct (sessions c1 !! peer s) as [st|] eqn:Hst; [|done]. cbv zeta. destruct (bool_decide (ss_generation st = generation s)); cbn [negb]; [|done].
  destruct (consume_token_same st now) as (T1 & T2 & T3 & T4 & _). destruct (consume_token st now) as [st1 ok]. cbn [fst] in *.
  assert (Hput : ∀ st', flag3 st' = flag3 st1 → quiet c1 (set_sessions c1 (<[peer s := st']> (sessions c1)))).
  { intros st' Hst'. apply (session_put_quiet c1 _ st); [done|]. rewrite Hst'. unfold flag3. by rewrite T1, T2, T4. }
  destruct (hello_sent st); cbn [negb].
  2:{ destruct (hello_pending st); [done|]. destruct ok; cbn [negb fst]; by apply Hput. }
  destruct (hello_received st); cbn [negb]; [|done].
  case_bool_decide; [destruct ok; cbn [negb]; [|by apply Hput]|].
  { destruct (take_ids (queued_requests st1)) as [rest ids]. by apply (Hput (set_requests st1 rest)). }
  case_bool_decide; [destruct ok; cbn [negb]; [|by apply Hput]|].
  { destruct (take_ids (queued_responses st1)) as [rest ids]. cbn [resolved set_sessions]. destruct (get_entries _ ids) as [l es].
    case_bool_decide; by apply (Hput (set_responses st1 rest)). }
  case_bool_decide; [destruct ok; cbn [negb]; [|by apply Hput]|done].
  destruct (take_ids (queued_acks st1)) as [rest ids]. by apply (Hput (set_acks st1 rest)).
Qed.

(** The steps that leave negotiation and acknowledgements alone. *)
Definition neutral (o : KOp) : Prop :=
  match o with
  | KVerified _ _ _ | KResponse _ _ _ | KLookup _ | KMiss _ _ _ _ | KTake _ _ | KRequests _ _ | KNext _ _ | KCount _ => True
  | KResult _ x sent => match x with CtlHello _ => sent = false | _ => True end
  | _ => False
  end.

Lemma neutral_quiet (c : KeyCache) (o : KOp) : neutral o → quiet c (kexec c o).
Proof.
  destruct o; cbn [neutral kexec]; intros Hn; try done.
  - apply note_verified_key_quiet.
  - unfold note_response_key. destruct (pending c !! _); [apply note_verified_key_quiet|done].
  - unfold lookup. by destruct (lru_get _ _).
  - apply queue_miss_quiet.
  - unfold take_pending, remove_pending. by destruct (pending c !! _).
  - by apply update_session_quiet.
  - apply next_control_quiet.
  - apply update_session_quiet. intros st. destruct control, sent; try done. unfold flag3. cbn. by rewrite orb_false_r.
Qed.

(** ** The life of a session *)

Definition acked (s : AuthenticatedSession) (k : PeerId) (c : KeyCache) : Prop := ((peer s, generation s, k), ()) ∈ lru_iter (acknowledged c).
Definition said_hello (s : AuthenticatedSession) (c : KeyCache) : Prop := ∃ r, flags c (peer s) = Some (generation s, true, r).
Definition heard_hello (s : AuthenticatedSession) (c : KeyCache) : Prop := ∃ x, flags c (peer s) = Some (generation s, x, true).

(** The steps that end the session [s]. *)
Definition ends (s : AuthenticatedSession) (o : KOp) : Prop :=
  match o with
  | KForget s' => s' = s
  | KObserve s' _ => peer s' = peer s ∧ generation s' ≠ generation s
  | _ => False
  end.

(** A step with [P] happened, and the session has not ended since. *)
Definition since (s : AuthenticatedSession) (P : KOp → Prop) (os : list KOp) : Prop :=
  ∃ pre o post, os = pre ++ o :: post ∧ P o ∧ Forall (λ o, ¬ ends s o) post.

Lemma since_ind (s : AuthenticatedSession) (P : KOp → Prop) (I : KeyCache → Prop) (c : KeyCache) :
  kc_wf c → ¬ I c → (∀ c o, kc_wf c → I (kexec c o) → (I c ∧ ¬ ends s o) ∨ P o) →
  ∀ os, I (krun c os) → since s P os.
Proof.
  intros Hw Hinit Hstep os. induction os as [|o os IH] using rev_ind; [done|]. unfold krun. rewrite foldl_app. cbn. intros HI.
  destruct (Hstep (krun c os) o (krun_wf os c Hw) HI) as [[HI' He]|HP].
  - destruct (IH HI') as (pre & o' & post & -> & HP & Hpost). exists pre, o', (post ++ [o]). rewrite <-app_assoc.
    split_and!; [done|done|]. rewrite Forall_app. by split; [|constructor].
  - exists os, o, []. done.
Qed.

Lemma clear_peer_effect (c : KeyCache) (p : PeerId) :
  kc_wf c →
  (∀ kv, kv ∈ lru_iter (acknowledged (clear_peer c p)) → kv.1.1.1 ≠ p ∧ kv ∈ lru_iter (acknowledged c)) ∧
  (∀ q, flags (clear_peer c p) q = if decide (q = p) then None else flags c q).
Proof.
  intros Hw. split.
  - unfold clear_peer. set (c0 := set_sessions c _). set (keys := filter (of_peer p) (hiter (pending c0)).*1).
    destruct (remove_pendings_spec keys c0 (kg_pend _ _ _ _ _ _ _ Hw)) as (_ & (_ & Ha & _) & _). set (c1 := foldl _ c0 keys) in *.
    cbn. intros kv Hin. rewrite Ha in Hin.
    destruct (lru_pops (filter (of_peer p) (lru_iter (acknowledged c)).*1) (acknowledged c) 4096 (kg_ack _ _ _ _ _ _ _ Hw)) as [_ Hi].
    apply Hi in Hin as [Hk Hin]. split; [|done]. intros <-. apply Hk, list_elem_of_filter.
    split; [by apply bool_decide_pack|]. by apply list_elem_of_fmap_2.
  - intros q. unfold flags. destruct (clear_peer_wf c p Hw) as [_ ->]. case_decide as Hq; [subst; by rewrite lookup_delete_eq|by rewrite lookup_delete_ne].
Qed.

Lemma acked_current (s : AuthenticatedSession) (k : PeerId) (c : KeyCache) : kc_wf c → acked s k c → ∃ x r, flags c (peer s) = Some (generation s, x, r).
Proof.
  intros Hw Hin. pose proof (Forall_elem _ _ _ (kg_ack_current _ _ _ _ _ _ _ Hw) Hin) as Hg. cbn in Hg. unfold gen_of in Hg. unfold flags, flag3.
  destruct (sessions c !! peer s) as [st|]; [|done]. cbn in *. injection Hg as <-. eauto.
Qed.

(** [KObserve] and [KForget] on a predicate that only the session's own
    operations establish. *)
Lemma observe_effect (c : KeyCache) (s' : AuthenticatedSession) (now : Z) :
  kc_wf c →
  (∀ kv, kv ∈ lru_iter (acknowledged (observe_session c s' now)) → kv ∈ lru_iter (acknowledged c)) ∧
  (∀ q, (flags (observe_session c s' now) q = flags c q ∧ (q = peer s' → ∀ g x r, flags c q = Some (g, x, r) → g = generation s')) ∨ (q = peer s' ∧
     (flags (observe_session c s' now) q = None ∨ flags (observe_session c s' now) q = Some (generation s', false, false)) ∧
     ∀ x r, flags c q ≠ Some (generation s', x, r))) ∧
  (∀ g, g ≠ generation s' → ∀ x r, flags c (peer s') = Some (g, x, r) →
     ∀ kv, kv ∈ lru_iter (acknowledged (observe_session c s' now)) → kv.1.1.1 ≠ peer s').
Proof.
  intros Hw. destruct (clear_peer_effect c (peer s') Hw) as [Hca Hcf]. unfold observe_session.
  assert (Hfr : ∀ c' b, acknowledged (if b : bool then set_sessions c' (<[peer s' := session_new (generation s') now]> (sessions c')) else c') = acknowledged c' ∧
    ∀ q, flags (if b then set_sessions c' (<[peer s' := session_new (generation s') now]> (sessions c')) else c') q =
      if decide (q = peer s' ∧ b = true) then Some (generation s', false, false) else flags c' q).
  { intros c' [|]; (split; [done|]); intros q; unfold flags; cbn.
    - case_decide as Hq; [destruct Hq as [-> _]; by rewrite lookup_insert_eq|]. rewrite lookup_insert_ne; [done|]. intros <-. by apply Hq.
    - rewrite decide_False; [done|]. by intros [_ ?]. }
  destruct (sessions c !! peer s') as [st|] eqn:Hst.
  - destruct (bool_decide_reflect (ss_generation st = generation s')) as [Hg|Hg].
    + assert (Hall : ∀ g x r, flags c (peer s') = Some (g, x, r) → g = generation s').
      { intros g x r. unfold flags, flag3. rewrite Hst. cbn. congruence. }
      split_and!; [done|left; by split; [|intros ->]|]. intros g Hne x r Hf. by apply Hall in Hf.
    + set (b := bool_decide _). destruct (Hfr (clear_peer c (peer s')) b) as [Hfa Hff]. rewrite Hfa. split_and!.
      * intros kv Hin. by apply Hca.
      * intros q. rewrite Hff, Hcf. destruct (decide (q = peer s')) as [->|Hq].
        -- right. split_and!; [done| |]. { destruct (decide (peer s' = peer s' ∧ b = true)); auto. } intros x r. unfold flags, flag3. rewrite Hst. cbn. congruence.
        -- left. rewrite decide_False; [done|]. by intros [-> _].
      * intros g _ x r _ kv Hin. by apply Hca.
  - set (b := bool_decide _). destruct (Hfr c b) as [Hfa Hff]. rewrite Hfa. split_and!; [done| |].
    + intros q. rewrite Hff. destruct (decide (q = peer s' ∧ b = true)) as [Hq|]; [right|left; split; [done|intros ->; unfold flags; by rewrite Hst]]. destruct Hq as [-> _]. split_and!; [done|auto|]. intros x r. unfold flags. by rewrite Hst.
    + intros g _ x r Hf. unfold flags in Hf. by rewrite Hst in Hf.
Qed.

Lemma update_session_ack (c : KeyCache) (s : AuthenticatedSession) (f : SessionState → SessionState) : acknowledged (update_session c s f) = acknowledged c.
Proof. unfold update_session. destruct (sessions c !! peer s); [by case_bool_decide|done]. Qed.

Lemma session_ext (s s' : AuthenticatedSession) : peer s = peer s' → generation s = generation s' → s = s'.
Proof. destruct s, s'. cbn. by intros -> ->. Qed.

Lemma acked_step (s : AuthenticatedSession) (k : PeerId) (c : KeyCache) (o : KOp) :
  kc_wf c → acked s k (kexec c o) → (acked s k c ∧ ¬ ends s o) ∨ ∃ keys, o = KAck s keys ∧ k ∈ keys.
Proof.
  intros Hw Hin.
  assert (Hkeep : acknowledged (kexec c o) = acknowledged c → ¬ ends s o → (acked s k c ∧ ¬ ends s o) ∨ ∃ keys, o = KAck s keys ∧ k ∈ keys).
  { intros Ha He. left. unfold acked in *. by rewrite <-Ha. }
  destruct o; try (apply Hkeep; [by apply (neutral_quiet c)|by intros []]); clear Hkeep; unfold acked in *; cbn [kexec ends] in *.
  - destruct (observe_effect c s0 now Hw) as (Ho & _ & He). left. split; [by apply Ho|]. intros [Hp Hg].
    destruct (acked_current s k c Hw (Ho _ Hin)) as (x & r & Hf). rewrite <-Hp in Hf. by eapply (He (generation s)) in Hin.
  - left. unfold forget_stale in Hin. destruct (current c s0) eqn:Hc.
    + destruct (clear_peer_effect c (peer s0) Hw) as [Hca _]. apply Hca in Hin as [Hne Hin]. split; [done|]. by intros ->.
    + split; [done|]. intros ->. destruct (acked_current s k c Hw Hin) as (x & r & Hf). apply not_true_iff_false in Hc. apply Hc, current_gen.
      unfold gen_of. unfold flags, flag3 in Hf. destruct (sessions c !! peer s); cbn in *; congruence.
  - left. split; [|by intros []]. unfold supports_ref in Hin. destruct (supports_v3 c s0); [|done].
    pose proof (λ kv, lru_get_elem (acknowledged c) 4096 (peer s0, generation s0, signer) kv (kg_ack _ _ _ _ _ _ _ Hw)) as Hi.
    destruct (lru_get _ _) as [l v]. cbn in *. by apply Hi.
  - left. unfold received_hello in Hin. rewrite update_session_ack in Hin. split; [done|by intros []].
  - unfold acknowledge in Hin. destruct (current c s0); [|left; split; [done|by intros []]].
    destruct (lru_puts ((λ key, (peer s0, generation s0, key)) <$> keys) () (acknowledged c) 4096) as [_ Hi]; [apply Hw|lia|].
    rewrite foldl_fmap in Hi. cbn in Hin. apply Hi in Hin as [[Hk _]|Hin]; [right|left; split; [done|by intros []]].
    apply list_elem_of_fmap in Hk as (key & Hk & Hin). cbn in Hk. injection Hk as Hp Hg ->. exists keys. split; [|done]. f_equal. by apply session_ext.
  - left. unfold control_result in Hin. rewrite update_session_ack in Hin. split; [done|by intros []].
Qed.

Lemma update_session_flags (c : KeyCache) (s : AuthenticatedSession) (f : SessionState → SessionState) (p : PeerId) :
  flags (update_session c s f) p = flags c p ∨
  ∃ st, p = peer s ∧ sessions c !! p = Some st ∧ ss_generation st = generation s ∧ flags (update_session c s f) p = Some (flag3 (f st)).
Proof.
  unfold update_session. destruct (sessions c !! peer s) as [st|] eqn:Hs; [|by left]. case_bool_decide as Hg; [|by left].
  destruct (decide (p = peer s)) as [->|Hp]; [right|left].
  - exists st. split_and!; [done..|]. unfold flags. cbn. by rewrite lookup_insert_eq.
  - unfold flags. cbn. by rewrite lookup_insert_ne.
Qed.

(** A predicate on the negotiation flags of [s] that a fresh session does not
    have. *)
Definition flag_pred (s : AuthenticatedSession) (Q : bool → bool → bool) (c : KeyCache) : Prop :=
  ∃ x r, flags c (peer s) = Some (generation s, x, r) ∧ Q x r = true.

Lemma flag_step (s : AuthenticatedSession) (Q : bool → bool → bool) (P : KOp → Prop) (c : KeyCache) (o : KOp) :
  Q false false = false →
  (∀ x r, Q x r = false → Q x true = true → P (KHello s)) →
  (∀ v x r, Q x r = false → Q (x || true) r = true → P (KResult s (CtlHello v) true)) →
  kc_wf c → flag_pred s Q (kexec c o) → (flag_pred s Q c ∧ ¬ ends s o) ∨ P o.
Proof.
  intros H0 Hh Hr Hw HQ.
  assert (Hkeep : flags (kexec c o) (peer s) = flags c (peer s) → ¬ ends s o → (flag_pred s Q c ∧ ¬ ends s o) ∨ P o).
  { intros Hf He. left. split; [|done]. unfold flag_pred in *. by rewrite <-Hf. }
  assert (Hupd : ∀ s0 f, kexec c o = update_session c s0 f → ¬ ends s o →
    (∀ st, ss_generation (f st) = ss_generation st) →
    (∀ st, s0 = s → Q (hello_sent st) (hello_received st) = false → Q (hello_sent (f st)) (hello_received (f st)) = true → P o) →
    (flag_pred s Q c ∧ ¬ ends s o) ∨ P o).
  { intros s0 f He Hne Hgen Hf. destruct (update_session_flags c s0 f (peer s)) as [Hs|(st & Hp & Hst & Hg & Hs)]; [apply Hkeep; [by rewrite He|done]|].
    destruct HQ as (x & r & Hfl & HQ). rewrite He, Hs in Hfl. injection Hfl as Hg' <- <-. rewrite Hgen in Hg'.
    destruct (Q (hello_sent st) (hello_received st)) eqn:Hq; [left|right].
    - split; [|done]. exists (hello_sent st), (hello_received st). unfold flags, flag3. rewrite Hst. cbn. by rewrite Hg'.
    - apply (Hf st); [apply session_ext; congruence|done|done]. }
  destruct o; try (apply Hkeep; [by apply (neutral_quiet c)|by intros []]); cbn [kexec ends] in *.
  - destruct (observe_effect c s0 now Hw) as (_ & Hf & _). destruct HQ as (x & r & Hfl & HQ). destruct (Hf (peer s)) as [[He Hsame]|(Hp & [He|He] & _)].
    + left. rewrite He in Hfl. split; [by exists x, r|]. intros [Hp Hg]. by apply Hg, eq_sym, (Hsame (eq_sym Hp) _ _ _ Hfl).
    + congruence.
    + rewrite He in Hfl. injection Hfl as _ <- <-. congruence.
  - left. destruct HQ as (x & r & Hfl & HQ). unfold forget_stale in Hfl. destruct (current c s0) eqn:Hc.
    + destruct (clear_peer_effect c (peer s0) Hw) as [_ Hcf]. rewrite Hcf in Hfl. case_decide as Hp; [done|]. split; [by exists x, r|]. by intros ->.
    + split; [by exists x, r|]. intros ->. apply not_true_iff_false in Hc. apply Hc, current_gen.
      unfold gen_of. unfold flags, flag3 in Hfl. destruct (sessions c !! peer s); cbn in *; congruence.
  - apply Hkeep; [|by intros []]. unfold supports_ref. destruct (supports_v3 c s0); [|done]. by destruct (lru_get _ _).
  - eapply Hupd; [done|by intros []|done|]. intros st -> Hq Hq'. by eapply Hh.
  - apply Hkeep; [|by intros []]. unfold acknowledge. by destruct (current c s0).
  - eapply Hupd; [done|by intros []|by destruct control, sent|]. intros st -> Hq Hq'.
    destruct control, sent; cbn in Hq'; try congruence; [by eapply Hr|]. rewrite orb_false_r in Hq'. congruence.
Qed.

(** ** Expiry, seen from a session and from an entry *)

Definition fewer_requests (st st' : SessionState) : Prop := ∃ X, X ⊆ queued_requests st ∧ st' = set_requests st X.

Lemma fewer_refl (st : SessionState) : fewer_requests st st.
Proof. exists (queued_requests st). by destruct st. Qed.
Lemma fewer_trans (st1 st2 st3 : SessionState) : fewer_requests st1 st2 → fewer_requests st2 st3 → fewer_requests st1 st3.
Proof. intros (X & HX & ->) (Y & HY & ->). exists Y. cbn in HY. split; [set_solver|done]. Qed.

(** An entry with a frame that is not stale stays, and so does its request. *)
Definition fresh_entry (now : Z) (f : PendingFrame) (e : PendingKey) : Prop := f ∈ frames e ∧ ¬ stale now f.

Lemma expire_front_suffix (now : Z) (fs : list PendingFrame) (c : KeyCache) :
  suffix (expire_front now fs c).1 fs ∧ (∀ f, f ∈ fs → ¬ stale now f → f ∈ (expire_front now fs c).1) ∧
  resolved (expire_front now fs c).2 = resolved c ∧ sessions (expire_front now fs c).2 = sessions c ∧ pending (expire_front now fs c).2 = pending c.
Proof.
  revert c. induction fs as [|f fs IH]; intros c; cbn [expire_front]; [done|]. case_bool_decide as Hs; [|by split_and!].
  match goal with |- context [expire_front now fs ?x] => destruct (IH x) as (H1 & H2 & H3 & H4 & H5) end. split_and!; [by apply suffix_cons_r| |done..].
  intros g [->|Hg]%elem_of_cons Hn; [done|]. by apply H2.
Qed.

Lemma expire_key_spec (now : Z) (c : KeyCache) (k k' : PKey) (f : PendingFrame) (e : PendingKey) :
  pending c !! k = Some e → fresh_entry now f e →
  (∃ e', pending (expire_key now c k') !! k = Some e' ∧ fresh_entry now f e' ∧ requested e' = requested e ∧ suffix (frames e') (frames e)) ∧
  (∀ p st, sessions c !! p = Some st → ∃ st', sessions (expire_key now c k') !! p = Some st' ∧ fewer_requests st st' ∧
     (p = k.1.1 → ss_generation st = k.1.2 → k.2 ∈ queued_requests st → k.2 ∈ queued_requests st')).
Proof.
  intros Hk [Hin Hfr]. unfold expire_key. destruct (pending c !! k') as [e0|] eqn:Hk'.
  2:{ split; [exists e; by split_and!|]. intros p st Hst. exists st. split_and!; [done|apply fewer_refl|done]. }
  destruct (expire_front_suffix now (frames e0) c) as (Hsuf & Hkeep & Hr & Hs & Hp). destruct (expire_front now (frames e0) c) as [fs c1]. cbn [fst snd] in *.
  case_bool_decide as Hnil.
  - assert (Hne : k ≠ k'). { intros ->. rewrite Hk in Hk'. injection Hk' as ->. specialize (Hkeep f Hin Hfr). subst fs. by apply elem_of_nil in Hkeep. }
    unfold update_session. cbn [sessions set_pending pending peer generation]. rewrite Hs, Hp. split.
    + exists e. destruct (sessions c !! k'.1.1); [case_bool_decide|]; cbn; rewrite ?Hp, lookup_delete_ne by done; by split_and!.
    + intros p st Hst. destruct (sessions c !! k'.1.1) as [st0|] eqn:Hst0; [case_bool_decide as Hg|].
      * cbn. destruct (decide (p = k'.1.1)) as [->|Hpk].
        -- rewrite lookup_insert_eq. rewrite Hst in Hst0. injection Hst0 as <-. eexists. split_and!; [done|eexists; split; [|done]; set_solver|].
           cbn. intros Hp1 Hg1 Hid. apply elem_of_difference. split; [done|]. rewrite elem_of_singleton. intros Heq. apply Hne.
           destruct k as [[]], k' as [[]]. cbn in *. congruence.
        -- rewrite lookup_insert_ne by done. exists st. split_and!; [done|apply fewer_refl|done].
      * cbn. rewrite ?Hs. exists st. split_and!; [done|apply fewer_refl|done].
      * cbn. rewrite ?Hs. exists st. split_and!; [done|apply fewer_refl|done].
  - cbn. rewrite Hs, Hp. split; [|intros p st Hst; exists st; split_and!; [done|apply fewer_refl|done]].
    destruct (decide (k = k')) as [<-|Hne].
    + rewrite lookup_insert_eq. rewrite Hk in Hk'. injection Hk' as <-. eexists. split_and!; [done|split; [by apply Hkeep|done]|done|done].
    + rewrite lookup_insert_ne by done. exists e. by split_and!.
Qed.

Lemma expire_spec (now : Z) (c : KeyCache) (k : PKey) (f : PendingFrame) (e : PendingKey) :
  pending c !! k = Some e → fresh_entry now f e →
  (∃ e', pending (expire c now) !! k = Some e' ∧ fresh_entry now f e' ∧ requested e' = requested e ∧ suffix (frames e') (frames e)) ∧
  (∀ p st, sessions c !! p = Some st → ∃ st', sessions (expire c now) !! p = Some st' ∧ fewer_requests st st' ∧
     (p = k.1.1 → ss_generation st = k.1.2 → k.2 ∈ queued_requests st → k.2 ∈ queued_requests st')).
Proof.
  unfold expire. generalize ((hiter (pending c)).*1). intros ks. revert c e. induction ks as [|k' ks IH]; intros c e Hk Hf; cbn [foldl].
  { split; [exists e; by split_and!|]. intros p st Hst. exists st. split_and!; [done|apply fewer_refl|done]. }
  destruct (expire_key_spec now c k k' f e Hk Hf) as [(e1 & Hk1 & Hf1 & Hr1 & Hs1) Hse1].
  destruct (IH _ _ Hk1 Hf1) as [(e2 & Hk2 & Hf2 & Hr2 & Hs2) Hse2]. split.
  - exists e2. split_and!; [done|done|congruence|by etrans].
  - intros p st Hst. destruct (Hse1 p st Hst) as (st1 & Hst1 & Hfew1 & Hid1). destruct (Hse2 p st1 Hst1) as (st2 & Hst2 & Hfew2 & Hid2).
    exists st2. split_and!; [done|by eapply fewer_trans|]. intros Hp Hg Hid. apply Hid2; [done| |by apply Hid1].
    destruct Hfew1 as (X & _ & ->). done.
Qed.

(** Without an entry in mind. *)
Lemma expire_rest (now : Z) (c : KeyCache) :
  resolved (expire c now) = resolved c ∧ (∀ k, pending c !! k = None → pending (expire c now) !! k = None) ∧
  (∀ p st, sessions c !! p = Some st → ∃ st', sessions (expire c now) !! p = Some st' ∧ fewer_requests st st').
Proof.
  unfold expire. generalize ((hiter (pending c)).*1). intros ks. revert c. induction ks as [|k' ks IH]; intros c; cbn [foldl].
  { split_and!; [done..|]. intros p st Hst. exists st. split; [done|apply fewer_refl]. }
  destruct (IH (expire_key now c k')) as (Hr & Hp & Hs). rewrite Hr.
  assert (Hone : resolved (expire_key now c k') = resolved c ∧ (∀ k, pending c !! k = None → pending (expire_key now c k') !! k = None) ∧
    (∀ p st, sessions c !! p = Some st → ∃ st', sessions (expire_key now c k') !! p = Some st' ∧ fewer_requests st st')).
  { clear. unfold expire_key. destruct (pending c !! k') as [e0|] eqn:Hk'.
    2:{ split_and!; [done..|]. intros p st Hst. exists st. split; [done|apply fewer_refl]. }
    destruct (expire_front_suffix now (frames e0) c) as (_ & _ & Hr & Hs & Hp). destruct (expire_front now (frames e0) c) as [fs c1]. cbn [fst snd] in *.
    case_bool_decide.
    - unfold update_session. cbn [sessions set_pending pending peer generation]. rewrite Hs. destruct (sessions c !! k'.1.1) as [st0|] eqn:Hst0; [case_bool_decide|]; cbn; rewrite ?Hs, ?Hp.
      + split_and!; [done|intros k Hk; by rewrite lookup_delete_None; right|]. intros p st Hst. destruct (decide (p = k'.1.1)) as [->|Hpk].
        * rewrite lookup_insert_eq. rewrite Hst in Hst0. injection Hst0 as <-. eexists. split; [done|]. eexists. split; [|done]. set_solver.
        * rewrite lookup_insert_ne by done. exists st. split; [done|apply fewer_refl].
      + split_and!; [done|intros k Hk; by rewrite lookup_delete_None; right|]. intros p st Hst. exists st. split; [done|apply fewer_refl].
      + split_and!; [done|intros k Hk; by rewrite lookup_delete_None; right|]. intros p st Hst. exists st. split; [done|apply fewer_refl].
    - cbn. rewrite Hs, Hp. split_and!; [done| |intros p st Hst; exists st; split; [done|apply fewer_refl]].
      intros k Hk. rewrite lookup_insert_ne; [done|]. intros <-. congruence. }
  destruct Hone as (Hr1 & Hp1 & Hs1). split_and!; [done|auto|].
  intros p st Hst. destruct (Hs1 p st Hst) as (st1 & Hst1 & Hf1). destruct (Hs p st1 Hst1) as (st2 & Hst2 & Hf2). exists st2. split; [done|]. by eapply fewer_trans.
Qed.

(** ** What the flusher may send *)

Definition asks_for (x : option Control) (id : PeerId) : Prop := match x with Some (CtlRequest ids) => id ∈ ids | _ => False end.
Definition offers (x : option Control) (id : PeerId) : Prop := match x with Some (CtlResponse es) => id ∈ es.*1 | _ => False end.

Definition tamer (st st' : SessionState) : Prop :=
  flag3 st' = flag3 st ∧ queued_requests st' ⊆ queued_requests st ∧ queued_responses st' ⊆ queued_responses st.

Lemma get_entries_known (ids : list PeerId) (l : lru (K := PeerId) (V := list Z)) (id : PeerId) :
  id ∈ (get_entries l ids).2.*1 → id ∈ (lru_iter l).*1.
Proof.
  revert l. induction ids as [|i ids IH]; intros l; cbn [get_entries]; [by intros ?%elem_of_nil|]. destruct (lru_get_spec l i) as (Hg & _ & Hi).
  destruct (lru_get l i) as [l1 v]. cbn [fst] in *. injection Hg as ->. specialize (IH l1). destruct (get_entries l1 ids) as [l2 es]. cbn [snd] in *.
  assert (Hsub : id ∈ (lru_iter l1).*1 → id ∈ (lru_iter l).*1).
  { rewrite Hi. destruct (assoc i (lru_iter l)) as [v|] eqn:Ha; [|done]. cbn. intros [->|Hin]%elem_of_cons.
    - apply list_elem_of_fmap. exists (i, v). split; [done|]. by apply assoc_Some.
    - apply list_elem_of_fmap in Hin as ([id' v'] & -> & [_ Hin]%elem_of_without). by apply (list_elem_of_fmap_2 fst _ _ Hin). }
  destruct (assoc i (lru_iter l)) as [v|] eqn:Ha; [|auto]. cbn. intros [->|Hin]%elem_of_cons; [|auto].
  apply list_elem_of_fmap. exists (i, v). split; [done|]. by apply assoc_Some.
Qed.

Lemma next_control_spec (c : KeyCache) (s : AuthenticatedSession) (now : Z) :
  let '(c', x) := next_control c s now in
  pending c' = pending (expire c now) ∧
  (∀ p st, sessions c !! p = Some st → ∃ st', sessions c' !! p = Some st' ∧ tamer st st') ∧
  (∀ id, asks_for x id → ∃ st, sessions (expire c now) !! peer s = Some st ∧ id ∈ queued_requests st) ∧
  (∀ id, offers x id → id ∈ (lru_iter (resolved c)).*1).
Proof.
  unfold next_control. destruct (expire_rest now c) as (Hr & _ & Hs). set (c1 := expire c now) in *.
  assert (Htame : ∀ p st, sessions c !! p = Some st → ∃ st', sessions c1 !! p = Some st' ∧ tamer st st').
  { intros p st Hst. destruct (Hs p st Hst) as (st' & Hst' & X & HX & ->). eexists. split; [done|]. by split_and!. }
  destruct (sessions c1 !! peer s) as [st1|] eqn:Hst1; [|by split_and!]. cbv zeta.
  destruct (bool_decide (ss_generation st1 = generation s)); cbn [negb]; [|by split_and!].
  destruct (consume_token_same st1 now) as (T1 & T2 & T3 & T4 & T5 & T6 & T7). destruct (consume_token st1 now) as [st2 ok]. cbn [fst] in *.
  assert (Hput : ∀ st3, tamer st2 st3 → ∀ p st, sessions c !! p = Some st → ∃ st', sessions (set_sessions c1 (<[peer s := st3]> (sessions c1))) !! p = Some st' ∧ tamer st st').
  { intros st3 (F1 & F2 & F3) p st Hst. destruct (Htame p st Hst) as (st' & Hst' & G1 & G2 & G3). cbn. destruct (decide (p = peer s)) as [->|Hne].
    - rewrite lookup_insert_eq. rewrite Hst' in Hst1. injection Hst1 as ->. exists st3. split; [done|].
      split_and!; [by rewrite F1, <-G1; unfold flag3; rewrite T1, T2, T4|set_solver|set_solver].
    - rewrite lookup_insert_ne by done. eexists. split; [done|]. by split_and!. }
  assert (Hsame : tamer st2 st2) by done.
  destruct (hello_sent st1); cbn [negb].
  2:{ destruct (hello_pending st1); [by split_and!|]. destruct ok; cbn [negb]; (split_and!; [done| |done|done]); by apply Hput. }
  destruct (hello_received st1); cbn [negb]; [|by split_and!].
  destruct (bool_decide (queued_requests st1 ≠ ∅)).
  { destruct ok; cbn [negb]; [|split_and!; [done| |done|done]; by apply Hput]. destruct (take_ids_spec (queued_requests st2)) as (Ht & Hin & _).
    destruct (take_ids (queued_requests st2)) as [rest ids]. cbn [fst snd] in *. split_and!; [done| | |done].
    - apply (Hput (set_requests st2 rest)). split_and!; [done|cbn; set_solver|done].
    - intros id Hid. exists st1. split; [done|]. rewrite <-T6. by apply Hin. }
  destruct (bool_decide (queued_responses st1 ≠ ∅)).
  { destruct ok; cbn [negb]; [|split_and!; [done| |done|done]; by apply Hput]. destruct (take_ids_spec (queued_responses st2)) as (Ht & _ & _).
    destruct (take_ids (queued_responses st2)) as [rest ids]. cbn [fst snd resolved set_sessions] in *. 
    pose proof (get_entries_known ids (resolved c1)) as Hes.
    destruct (get_entries (resolved c1) ids) as [l es]. cbn [snd] in Hes. rewrite <-Hr.
    assert (Hp := Hput (set_responses st2 rest)). destruct (bool_decide (es = [])); (split_and!; [done| |done|done || exact Hes]); apply Hp; (split_and!; [done|done|cbn; set_solver]). }
  destruct (bool_decide (queued_acks st1 ≠ ∅)); [|by split_and!].
  destruct ok; cbn [negb]; [|split_and!; [done| |done|done]; by apply Hput].
  destruct (take_ids (queued_acks st2)) as [rest ids]. split_and!; [done| |done|done]. by apply (Hput (set_acks st2 rest)).
Qed.

(** ** A frame that waits *)

Definition waiting_key (s : AuthenticatedSession) (id : PeerId) : PKey := (peer s, generation s, id).

(** The first frame for a key: accepted, it waits, and its key is queued to be
    asked for. *)
Lemma queue_miss_first (c : KeyCache) (s : AuthenticatedSession) (id : PeerId) (bytes : list Z) (now : Z) (st : SessionState) :
  (queue_miss c s id bytes now).2 = true → pending c !! waiting_key s id = None → sessions c !! peer s = Some st →
  let c' := (queue_miss c s id bytes now).1 in
  resolved c' = resolved c ∧ pending c' !! waiting_key s id = Some (mkPending [mkFrame bytes now] true) ∧
  ∃ X, X ⊆ queued_requests st ∧ sessions c' !! peer s = Some (set_requests st ({[id]} ∪ X)).
Proof.
  intros Hok Hnone Hst. unfold queue_miss in *. destruct (expire_rest now c) as (Hr & Hp & Hs). set (c1 := expire c now) in *.
  destruct (Hs _ _ Hst) as (st1 & Hst1 & X & HX & ->). specialize (Hp _ Hnone). fold (waiting_key s id) in *.
  do 2 (case_bool_decide; [done|]). rewrite Hp in *. cbn [default from_option Datatypes.id default_pending requested frames sessions set_pending] in *.
  rewrite Hst1 in *. case_bool_decide; [|done]. cbn [negb fst] in *. cbn. rewrite !lookup_insert_eq. split_and!; [done|done|].
  exists X. done.
Qed.

(** A further frame for a key that was asked for. *)
Lemma queue_miss_again (c : KeyCache) (s : AuthenticatedSession) (id : PeerId) (bytes : list Z) (now : Z) (e : PendingKey) (f : PendingFrame) :
  (queue_miss c s id bytes now).2 = true → pending c !! waiting_key s id = Some e → requested e = true → fresh_entry now f e →
  let c' := (queue_miss c s id bytes now).1 in
  (∃ e', pending c' !! waiting_key s id = Some e' ∧ requested e' = true ∧ mkFrame bytes now ∈ frames e') ∧
  (∀ p st, sessions c !! p = Some st → ∃ st', sessions c' !! p = Some st' ∧ fewer_requests st st').
Proof.
  intros Hok He Hreq Hf. unfold queue_miss in *. destruct (expire_spec now c _ f e He Hf) as [(e1 & He1 & _ & Hr1 & _) Hs]. set (c1 := expire c now) in *.
  do 2 (case_bool_decide; [done|]). fold (waiting_key s id) in *. rewrite He1 in *. cbn [default from_option Datatypes.id] in *. rewrite Hr1, Hreq in *. cbn.
  split.
  - rewrite lookup_insert_eq. eexists. split_and!; [done|done|]. cbn. apply elem_of_app. right. by apply list_elem_of_singleton.
  - intros p st Hst. destruct (Hs p st Hst) as (st' & Hst' & Hfew & _). eauto.
Qed.

(** ** A request that was lost *)

(** [id] was asked for on [s], is not queued to be asked for again, and a
    frame that arrived at [t] waits for it. *)
Definition asked_once (s : AuthenticatedSession) (id : PeerId) (t : Z) (c : KeyCache) : Prop :=
  (∃ e f, pending c !! waiting_key s id = Some e ∧ requested e = true ∧ f ∈ frames e ∧ received_at f = t) ∧
  ∃ st, sessions c !! peer s = Some st ∧ id ∉ queued_requests st.

(** Reference frames for [id] arrive; after each the flusher runs once. *)
Fixpoint traffic (c : KeyCache) (s : AuthenticatedSession) (id : PeerId) (l : list (list Z * Z)) : KeyCache * list (bool * option Control) :=
  match l with
  | [] => (c, [])
  | (bytes, now) :: l =>
      let '(c, ok) := queue_miss c s id bytes now in
      let '(c, x) := next_control c s now in
      let '(c, out) := traffic c s id l in (c, (ok, x) :: out)
  end.

(** Each arrival comes less than [PENDING_TTL] after the one before. *)
Fixpoint paced (t : Z) (l : list Z) : Prop :=
  match l with [] => True | now :: l => elapsed_ns now t < PENDING_TTL ∧ paced now l end.

Lemma traffic_step (c : KeyCache) (s : AuthenticatedSession) (id : PeerId) (bytes : list Z) (t now : Z) :
  asked_once s id t c → elapsed_ns now t < PENDING_TTL → (queue_miss c s id bytes now).2 = true →
  let c1 := (queue_miss c s id bytes now).1 in
  asked_once s id now (next_control c1 s now).1 ∧ ¬ asks_for (next_control c1 s now).2 id.
Proof.
  intros [(e & f & He & Hr & Hf & <-) (st & Hst & Hid)] Hpace Hok.
  assert (Hfe : fresh_entry now f e) by (split; [done|unfold stale; lia]).
  destruct (queue_miss_again c s id bytes now e f Hok He Hr Hfe) as [(e' & He' & Hr' & Hf') Hs']. set (c1 := (queue_miss c s id bytes now).1) in *. cbv zeta.
  destruct (Hs' _ _ Hst) as (st1 & Hst1 & X & HX & ->).
  assert (Hfe' : fresh_entry now (mkFrame bytes now) e') by (split; [done|unfold stale, elapsed_ns, PENDING_TTL, NANOS_PER_SEC; cbn; lia]).
  pose proof (next_control_spec c1 s now) as Hn. destruct (next_control c1 s now) as [c2 x]. cbn [fst snd]. destruct Hn as (Hp & Hs2 & Hask & _).
  destruct (expire_spec now c1 _ _ _ He' Hfe') as [(e2 & He2 & [Hf2 _] & Hr2 & _) Hse]. split.
  - split.
    + exists e2, (mkFrame bytes now). rewrite Hp. split_and!; [done|congruence|done|done].
    + destruct (Hs2 _ _ Hst1) as (st2 & Hst2 & _ & Hsub & _). exists st2. split; [done|]. cbn in Hsub. set_solver.
  - intros Ha. destruct (Hask id Ha) as (st3 & Hst3 & Hin). destruct (Hse _ _ Hst1) as (st4 & Hst4 & (Y & HY & ->) & _).
    rewrite Hst4 in Hst3. injection Hst3 as <-. cbn in *. set_solver.
Qed.

Lemma traffic_never_asks (l : list (list Z * Z)) (c : KeyCache) (s : AuthenticatedSession) (id : PeerId) (t : Z) :
  asked_once s id t c → paced t l.*2 → Forall (λ o, o.1 = true) (traffic c s id l).2 →
  Forall (λ o, ¬ asks_for o.2 id) (traffic c s id l).2.
Proof.
  revert c t. induction l as [|[bytes now] l IH]; intros c t Ha Hp Hok; cbn [traffic]; [constructor|]. cbn [fmap list_fmap paced snd] in Hp. destruct Hp as [Hp1 Hp2].
  cbn [traffic] in Hok. pose proof (λ Hq, traffic_step c s id bytes t now Ha Hp1 Hq) as Hstep. destruct (queue_miss c s id bytes now) as [c1 ok]. cbn [fst snd] in Hstep.
  destruct (next_control c1 s now) as [c2 x]. cbn [fst snd] in Hstep. specialize (IH c2 now). destruct (traffic c2 s id l) as [c3 out].
  cbn [fst snd] in *. apply Forall_cons in Hok as [Hok1 Hok]. cbn in Hok1. destruct (Hstep Hok1) as [Ha' Hx]. constructor; [done|]. by apply IH.
Qed.

(** ** A key that was displaced *)

Definition valid_key (key : list Z) : Prop := len key = KEY_BYTES.
Definition learn (c : KeyCache) (key : list Z) : KeyCache := note_verified_key c (from_pubkey key) key None.

Lemma learn_resolved (c : KeyCache) (key : list Z) :
  valid_key key →
  resolved (learn c key) = lru_put (resolved c) (from_pubkey key) key ∧ sessions (learn c key) = sessions c ∧
  acknowledged (learn c key) = acknowledged c ∧ pending (learn c key) = pending c.
Proof. intros Hk. unfold learn, note_verified_key. rewrite bool_decide_false by tauto. cbv zeta. by case_match. Qed.

Lemma learn_many (keys : list (list Z)) (c : KeyCache) :
  Forall valid_key keys →
  resolved (foldl learn c keys) = foldl (λ l kv, lru_put l kv.1 kv.2) (resolved c) ((λ key, (from_pubkey key, key)) <$> keys) ∧
  sessions (foldl learn c keys) = sessions c ∧ acknowledged (foldl learn c keys) = acknowledged c ∧ pending (foldl learn c keys) = pending c.
Proof.
  intros Hk. revert c. induction Hk as [|key keys Hkey _ IH]; intros c; [done|]. cbn [foldl fmap list_fmap].
  destruct (learn_resolved c key Hkey) as (Hr & Hs & Ha & Hp). destruct (IH (learn c key)) as (Hr' & Hs' & Ha' & Hp'). split_and!; [by rewrite Hr', Hr|congruence..].
Qed.

(** [2048] other signers displace every key that was known before. *)
Lemma learn_displaces (keys : list (list Z)) (c : KeyCache) (key : list Z) :
  kc_wf c → Forall valid_key keys → length keys = 2048%nat → NoDup (from_pubkey <$> key :: keys) →
  contains (resolved (foldl learn c keys)) (from_pubkey key) = false.
Proof.
  intros Hw Hk Hl Hnd. destruct (learn_many keys c Hk) as (-> & _). rewrite fmap_cons in Hnd. apply NoDup_cons in Hnd as [Hnew Hnd].
  set (kvs := (λ key, (from_pubkey key, key)) <$> keys). assert (Hkvs : kvs.*1 = from_pubkey <$> keys) by (unfold kvs; by rewrite <-list_fmap_compose).
  assert (Hlen : length kvs = 2048%nat) by (unfold kvs; by rewrite length_fmap).
  destruct (lru_flood kvs (resolved c) 2048) as [Hw' [back Hb]]; [apply Hw|lia|by rewrite Hkvs|lia|].
  apply not_true_iff_false. rewrite contains_elem, Hb. pose proof (lw_len _ _ Hw') as Hll. rewrite Hb, length_app, length_reverse in Hll.
  destruct back; [|cbn in Hll; lia]. rewrite app_nil_r, fmap_reverse, elem_of_reverse, Hkvs. done.
Qed.

(** The steps that teach [id]. *)
Definition teaches (id : PeerId) (o : KOp) : Prop :=
  match o with KVerified id' _ _ => id' = id | KResponse _ id' _ => id' = id | _ => False end.

Lemma note_verified_resolved (c : KeyCache) (id' : PeerId) (key : list Z) (s : option AuthenticatedSession) (id : PeerId) :
  kc_wf c → id ∈ (lru_iter (resolved (note_verified_key c id' key s))).*1 → id ∈ (lru_iter (resolved c)).*1 ∨ id' = id.
Proof.
  intros Hw. unfold note_verified_key. case_bool_decide; [by left|]. cbv zeta. set (c1 := if _ && _ then _ else c).
  assert (Hr1 : resolved c1 = resolved c) by (unfold c1; by case_match).
  set (c2 := match s with None => _ | Some s => _ end).
  assert (Hr2 : resolved c2 = lru_put (resolved c1) id' key).
  { unfold c2. destruct s as [s|]; [|done]. case_match; [|done]. unfold update_session. cbn. destruct (sessions c1 !! peer s); [by case_bool_decide|done]. }
  rewrite Hr2, Hr1. intros Hin. apply list_elem_of_fmap in Hin as (kv & -> & Hin).
  eapply lru_put_elem in Hin as [->|Hin]; [by right|left; by apply (list_elem_of_fmap_2 fst)|apply Hw|lia].
Qed.

Lemma update_session_resolved (c : KeyCache) (s : AuthenticatedSession) (f : SessionState → SessionState) : resolved (update_session c s f) = resolved c.
Proof. unfold update_session. destruct (sessions c !! peer s); [by case_bool_decide|done]. Qed.

Lemma clear_peer_resolved (c : KeyCache) (p : PeerId) : kc_wf c → resolved (clear_peer c p) = resolved c.
Proof.
  intros Hw. unfold clear_peer. set (c0 := set_sessions c _). set (keys := filter _ _).
  destruct (remove_pendings_spec keys c0 (kg_pend _ _ _ _ _ _ _ Hw)) as (_ & (Hr & _) & _). done.
Qed.

Lemma queue_miss_resolved (c : KeyCache) (s : AuthenticatedSession) (id : PeerId) (bytes : list Z) (now : Z) :
  resolved (queue_miss c s id bytes now).1 = resolved c.
Proof.
  unfold queue_miss. destruct (expire_rest now c) as (<- & _). set (c1 := expire c now). do 2 (case_bool_decide; [done|]).
  set (e := default _ _). destruct (requested e); [done|]. cbn [sessions set_pending]. destruct (sessions c1 !! peer s); [|done]. by case_bool_decide.
Qed.

Lemma next_control_resolved (c : KeyCache) (s : AuthenticatedSession) (now : Z) (id : PeerId) :
  kc_wf c → id ∈ (lru_iter (resolved (next_control c s now).1)).*1 → id ∈ (lru_iter (resolved c)).*1.
Proof.
  intros Hw. unfold next_control. destruct (expire_rest now c) as (Hr & _). pose proof (expire_wf c now Hw) as Hw1. rewrite <-Hr.
  set (c1 := expire c now) in *. destruct (sessions c1 !! peer s) as [st|]; [|done]. cbv zeta.
  destruct (bool_decide (ss_generation st = generation s)); cbn [negb]; [|done]. destruct (consume_token st now) as [st2 ok].
  destruct (hello_sent st); cbn [negb]; [|destruct (hello_pending st); [done|]; by destruct ok].
  destruct (hello_received st); cbn [negb]; [|done].
  destruct (bool_decide (queued_requests st ≠ ∅)); [destruct ok; cbn [negb]; [|done]; by destruct (take_ids _)|].
  destruct (bool_decide (queued_responses st ≠ ∅)).
  - destruct ok; cbn [negb]; [|done]. destruct (take_ids _) as [rest ids]. cbn [resolved set_sessions].
    destruct (get_entries_spec ids (resolved c1) (kg_res _ _ _ _ _ _ _ Hw1)) as (_ & Hi & _). destruct (get_entries _ ids) as [l es]. cbn [fst] in Hi.
    assert (Hl : id ∈ (lru_iter l).*1 → id ∈ (lru_iter (resolved c1)).*1).
    { intros Hin. apply list_elem_of_fmap in Hin as (kv & -> & Hin). apply (list_elem_of_fmap_2 fst). by apply Hi. }
    by case_bool_decide.
  - destruct (bool_decide (queued_acks st ≠ ∅)); [|done]. destruct ok; cbn [negb]; [|done]. by destruct (take_ids _).
Qed.

Lemma resolved_step (c : KeyCache) (o : KOp) (id : PeerId) :
  kc_wf c → id ∈ (lru_iter (resolved (kexec c o))).*1 → id ∈ (lru_iter (resolved c)).*1 ∨ teaches id o.
Proof.
  intros Hw. destruct o; cbn [kexec teaches]; intros Hin; try (left; exact Hin).
  - left. unfold observe_session in Hin. destruct (sessions c !! peer s) as [st|].
    + case_bool_decide; [done|]. case_bool_decide; cbn [resolved set_sessions] in Hin; by rewrite clear_peer_resolved in Hin.
    + by case_bool_decide.
  - left. unfold forget_stale in Hin. destruct (current c s); [by rewrite clear_peer_resolved in Hin|done].
  - left. unfold supports_ref in Hin. destruct (supports_v3 c s); [|done]. by destruct (lru_get _ _).
  - left. unfold received_hello in Hin. by rewrite update_session_resolved in Hin.
  - left. unfold acknowledge in Hin. by destruct (current c s).
  - by apply note_verified_resolved in Hin.
  - unfold note_response_key in Hin. destruct (pending c !! _); [by apply note_verified_resolved in Hin|by left].
  - left. unfold lookup in Hin. pose proof (λ kv, lru_get_elem (resolved c) 2048 key_id kv (kg_res _ _ _ _ _ _ _ Hw)) as Hi.
    destruct (lru_get _ _) as [l v]. cbn [fst] in *. assert (Hin' : id ∈ (lru_iter l).*1) by by destruct v.
    apply list_elem_of_fmap in Hin' as (kv & -> & Hin'). apply (list_elem_of_fmap_2 fst). by apply Hi.
  - left. by rewrite queue_miss_resolved in Hin.
  - left. unfold take_pending, remove_pending in Hin. by destruct (pending c !! _).
  - left. unfold queue_responses in Hin. by rewrite update_session_resolved in Hin.
  - left. by apply next_control_resolved in Hin.
  - left. unfold control_result in Hin. by rewrite update_session_resolved in Hin.
Qed.

Lemma unknown_run (os : list KOp) (c : KeyCache) (id : PeerId) :
  kc_wf c → id ∉ (lru_iter (resolved c)).*1 → Forall (λ o, ¬ teaches id o) os → id ∉ (lru_iter (resolved (krun c os))).*1.
Proof.
  intros Hw Hn Hos. revert c Hw Hn. induction Hos as [|o os Ho _ IH]; intros c Hw Hn; [done|]. cbn. apply IH; [by apply kexec_wf|].
  intros Hin. by apply resolved_step in Hin as [?|?].
Qed.
End Exchange.

Section Callers.
Context `{Hashes} `{Postcard} `{!LruPut PeerId (list Z)} `{!LruPut PKey ()}.
Context `{!HashIter PKey PendingKey} `{!HashIter PeerId SessionState} `{!SetIter PeerId}.
Context (live : PeerId → option AuthenticatedSession) (registered critical : TopicId → bool).

Lemma decode_v3_steps (c : KeyCache) (from : PeerId) (session : option AuthenticatedSession) (data : list Z) (now : Z) :
  steps_to c (decode_v3 critical c from session data now).1.
Proof.
  unfold decode_v3. destruct session as [s|]; [|apply steps_refl]. destruct (decode data) as [[m id|m id]|e].
  - destruct (adjacent m id from); [apply record_inbound_step|apply steps_refl].
  - destruct (adjacent m id from); [|apply steps_refl]. set (c1 := if critical _ then _ else c).
    assert (Hc1 : steps_to c c1) by (unfold c1; case_match; [apply bump_step|apply steps_refl]).
    pose proof (steps_then _ _ (KLookup id) Hc1) as Hl. cbn [kexec] in Hl. destruct (lookup c1 id) as [c2 [key|]]; cbn [fst] in *.
    + eapply steps_trans; [exact Hl|apply record_inbound_step].
    + apply (steps_then _ _ (KMiss s id data now)). eapply steps_trans; [exact Hl|apply record_inbound_step].
  - cbn. case_bool_decide; [apply bump_step|apply steps_refl].
Qed.

Lemma receive_frame_steps (c : KeyCache) (from : PeerId) (session : option AuthenticatedSession) (data : list Z) (now : Z) :
  steps_to c (receive_frame live registered critical c from session data now).1.
Proof.
  unfold receive_frame. match goal with |- context [if ?b then (c, Err StaleSession) else _] => destruct b end; [apply steps_refl|]. destruct (predecode _ _); [|apply steps_refl].
  assert (Hd : steps_to c (if is_v3 data then decode_v3 critical c from session data now else decode_legacy registered c from session data).1).
  { destruct (is_v3 data); [apply decode_v3_steps|]. unfold decode_legacy. destruct (get_gossip data) as [[m tr]|]; [|apply steps_refl].
    cbv zeta.
    repeat (case_match; cbn [fst]; try (apply steps_refl || apply record_inbound_step)). }
  destruct (if is_v3 data then _ else _) as [c' r]. cbn [fst] in Hd. destruct r as [[m|]|e]; [|done..]. by repeat case_match.
Qed.

Lemma learn_entries_steps (entries : list (PeerId * list Z)) (c : KeyCache) (s : AuthenticatedSession) : steps_to c (learn_entries c s entries).1.
Proof.
  revert c. induction entries as [|[id key] entries IH]; intros c; cbn [learn_entries]; [apply steps_refl|].
  pose proof (steps_one c (KResponse s id key)) as H1. cbn [kexec] in H1. destruct (note_response_key c s id key) as [c1 learned]. cbn [fst] in H1.
  assert (H2 : steps_to c1 (if learned then take_pending c1 s id else (c1, [])).1) by (destruct learned; [apply (steps_one c1 (KTake s id))|apply steps_refl]).
  destruct (if learned then _ else _) as [c2 fs]. cbn [fst] in H2. specialize (IH c2). destruct (learn_entries c2 s entries) as [c3 fs'].
  eapply steps_trans; [exact H1|]. by eapply steps_trans.
Qed.

Lemma apply_control_steps (c : KeyCache) (s : AuthenticatedSession) (x : Control) : steps_to c (apply_control c s x).1.
Proof.
  destruct x; cbn [apply_control fst];
    [apply (steps_one c (KHello s))|apply (steps_one c (KAck s _))|apply (steps_one c (KRequests s _))|apply learn_entries_steps].
Qed.

Lemma handle_control_steps (c : KeyCache) (from : PeerId) (session : option AuthenticatedSession) (m : GossipMessage) (now : Z) :
  steps_to c (handle_key_cache_control live c from session m now).1.
Proof.
  unfold handle_key_cache_control. destruct session as [s|]; [|apply steps_refl]. case_match; [apply steps_refl|]. case_match; [apply steps_refl|].
  destruct (gm_payload m); [|apply steps_refl]. destruct (decode_control _) as [x|e].
  - pose proof (apply_control_steps (observe_session c s now) s x) as Ha. destruct (apply_control _ s x) as [c' fs]. cbn [fst] in *.
    eapply steps_trans; [apply (steps_one c (KObserve s now))|done].
  - cbn [fst]. destruct (bool_decide (e = HashMismatch)); [|apply bump_step]. eapply steps_trans; apply bump_step.
Qed.

Lemma flush_session_steps (env : list (Z * bool)) (c : KeyCache) (s : AuthenticatedSession) : steps_to c (flush_session c s env).1.
Proof.
  revert c. induction env as [|[now sent] env IH]; intros c; cbn [flush_session]; [apply steps_refl|].
  pose proof (steps_one c (KNext s now)) as H1. cbn [kexec] in H1. destruct (next_control c s now) as [c1 [x|]]; cbn [fst] in *; [|done].
  pose proof (steps_then _ _ (KResult s x sent) H1) as H2. cbn [kexec] in H2. destruct sent; [|done].
  specialize (IH (control_result c1 s x true)). destruct (flush_session _ s env). cbn [fst] in *. by eapply steps_trans.
Qed.

(** ** Frames of this node's making, received *)

(** A frame's marker read as a header is a header of version 255 on a topic
    that starts with the rest of the marker.  Topics are hashes; the policy
    reserves and registers none of that form. *)
Definition marker_tail : list Z := tail WIRE_MARKER.
Definition avoids_marker : Prop := ∀ t, t = control_topic ∨ registered t = true → take 5 (topic_bytes t) ≠ marker_tail.

Lemma serialize_topic (h : MessageHeader) : Header.typed h → ∃ rest, serialize h = version h :: topic_bytes (topic h) ++ rest.
Proof.
  intros (Hv & [_ Ht] & _). unfold serialize, header_elements. rewrite fmap_app, concat_app. csimpl. rewrite enc_u8, enc_array by done.
  eexists. cbn. by rewrite <-!app_assoc.
Qed.

Lemma predecode_marker (m : GossipMessage) (rest : list Z) :
  Header.typed (gm_header m) → avoids_marker → predecode registered (WIRE_MARKER ++ serialize (gm_header m) ++ rest) = Ok ().
Proof.
  intros Ht Hav. destruct (serialize_topic _ Ht) as [r Hs]. rewrite Hs. destruct Ht as (Hv & [Hl Hb] & _).
  set (t := topic_bytes (topic (gm_header m))) in *.
  assert (Ha : is_array 32 (marker_tail ++ version (gm_header m) :: take 26 t)).
  { split; [rewrite length_app; cbn [length]; rewrite length_take, Hl; done|].
    apply Forall_app. split; [by apply (bool_decide_unpack _); vm_compute|]. constructor; [done|]. by apply Forall_take. }
  set (a := marker_tail ++ _) in Ha.
  assert (Hsplit : WIRE_MARKER ++ (version (gm_header m) :: t ++ r) ++ rest = enc (VU8 255) ++ enc (VArray a) ++ drop 26 t ++ r ++ rest).
  { rewrite enc_u8, (enc_array a) by (done || apply Ha). unfold a. cbn [app WIRE_MARKER marker_tail tail]. rewrite <-!app_assoc. cbn [app].
    rewrite <-(take_drop 26 t) at 1. by rewrite <-!app_assoc. }
  assert (Hne : ∀ h rest', deserialize (WIRE_MARKER ++ (version (gm_header m) :: t ++ r) ++ rest) = Some (h, rest') → topic h = mkTopicId a).
  { intros h rest'. rewrite Hsplit. unfold deserialize. rewrite dec_enc by done. rewrite dec_enc by done.
    intros Hd. repeat (case_match; simplify_eq/=; try done). }
  unfold predecode. destruct (deserialize _) as [[h rest']|]; [|done]. specialize (Hne h rest' eq_refl). rewrite Hne.
  assert (Hbad : ¬ (mkTopicId a = control_topic ∨ registered (mkTopicId a) = true)) by (intros Hbad; by apply (Hav _ Hbad)).
  rewrite bool_decide_false by tauto. cbn [result_bind]. destruct (registered (mkTopicId a)) eqn:Hr; [|done]. tauto.
Qed.

Definition from_here (s : AuthenticatedSession) : Prop := live (peer s) = Some s.

Lemma receive_v3 (c : KeyCache) (s : AuthenticatedSession) (m : GossipMessage) (reference : bool) (now : Z) :
  frame_ok m → avoids_marker → from_here s →
  receive_frame live registered critical c (peer s) (Some s) (WIRE_MARKER ++ put_wire (wire_of m reference)) now =
  (let '(c, r) := decode_v3 critical c (peer s) (Some s) (WIRE_MARKER ++ put_wire (wire_of m reference)) now in
   match r with
   | Ok (Handle m) =>
        if bool_decide (topic (gm_header m) = control_topic ∧ kind (gm_header m) ≠ Ping) then (c, Err ReservedTopicNotPing)
        else if bool_decide (kind (gm_header m) ≠ Eager) && negb (bool_decide (from_pubkey (gm_public_key m) = peer s)) then (c, Err SignerNotAdjacent)
        else (c, Ok (Handle m))
   | r => (c, r)
   end).
Proof.
  intros Hok Hav Hl. unfold receive_frame. rewrite bool_decide_true by done. cbn [negb].
  unfold put_wire. cbn [wire_of wm_header]. rewrite predecode_marker by (done || apply Hok).
  unfold is_v3. rewrite strip_prefix_app, (bool_decide_true (is_Some _)) by done. rewrite (bool_decide_true (peer s = peer s)) by done. done.
Qed.

Definition signer_id (m : GossipMessage) : PeerId := from_pubkey (gm_public_key m).
(** An application message, or a hop-local one signed by the sender itself. *)
Definition may_come_from (m : GossipMessage) (s : AuthenticatedSession) : Prop :=
  topic (gm_header m) ≠ control_topic ∧ (kind (gm_header m) = Eager ∨ signer_id m = peer s).

Lemma receive_full (c : KeyCache) (s : AuthenticatedSession) (m : GossipMessage) (now : Z) :
  frame_ok m → avoids_marker → from_here s → may_come_from m s →
  (receive_frame live registered critical c (peer s) (Some s) (WIRE_MARKER ++ put_wire (wire_of m false)) now).2 = Ok (Handle m).
Proof.
  intros Hok Hav Hl [Ht Hadj]. rewrite receive_v3 by done. unfold decode_v3. rewrite decode_wire by done. unfold adjacent. fold (signer_id m).
  rewrite bool_decide_true by done. cbn [guard]. rewrite bool_decide_false by tauto.
  destruct Hadj as [->|Hs]; [done|]. fold (signer_id m). by rewrite Hs, andb_comm, bool_decide_true.
Qed.

Lemma receive_ref (c : KeyCache) (s : AuthenticatedSession) (m : GossipMessage) (now : Z) :
  frame_ok m → avoids_marker → from_here s → may_come_from m s → 
  let c0 := if critical (topic (gm_header m)) then record_critical_ref_mismatch c else c in
  let frame := WIRE_MARKER ++ put_wire (wire_of m true) in
  receive_frame live registered critical c (peer s) (Some s) frame now =
  match lookup c0 (signer_id m) with
  | (c1, None) => ((queue_miss (record_inbound c1 true (len frame)) s (signer_id m) frame now).1, Ok Waiting)
  | (c1, Some key) =>
      (record_inbound c1 true (len frame),
       if bool_decide (kind (gm_header m) ≠ Eager) && negb (bool_decide (from_pubkey key = peer s)) then Err SignerNotAdjacent else Ok (Handle (with_key m key)))
  end.
Proof.
  intros Hok Hav Hl [Ht Hadj]. cbv zeta. rewrite receive_v3 by done. unfold decode_v3. rewrite decode_wire by done. unfold adjacent. fold (signer_id m). cbn [gm_header].
  rewrite bool_decide_true by done. cbn [guard]. destruct (lookup _ _) as [c1 [key|]]; [|done].
  cbn [with_key gm_header gm_public_key gm_payload gm_signature]. rewrite bool_decide_false by tauto. by destruct (_ && _).
Qed.
End Callers.
End KeyExchangeProps.
