(* ===== verification/KeyRecovery.v ===== *)
(** * Key references: recovery of a missing key, and the claims

    The exchange that a reference frame with an unknown signer starts, on both
    nodes, and the properties of the key cache as a whole. *)

From S2P Require Import Prelude Types Identity Float64 MessageCache Plumtree KeyCodec KeyCache KeyCacheProps KeyExchange KeyExchangeProps.
Import F64 Identity Plumtree KeyCodec KeyCache KeyCacheProps KeyExchange KeyExchangeProps.

#[local] Open Scope Z_scope.

Module KeyRecovery.

Section Recovery.
Context `{Hashes} `{!LruPut PeerId (list Z)} `{!LruPut PKey ()}.
Context `{!HashIter PKey PendingKey} `{!HashIter PeerId SessionState} `{!SetIter PeerId}.

(** A negotiated session with nothing queued before acknowledgements. *)
Record ready (c : KeyCache) (s : AuthenticatedSession) (st : SessionState) : Prop := {
  rd_session : sessions c !! peer s = Some st;
  rd_generation : ss_generation st = generation s;
  rd_sent : hello_sent st = true;
  rd_received : hello_received st = true;
  rd_requests : queued_requests st = ∅;
  rd_responses : queued_responses st = ∅;
}.

Lemma hiter_empty {V : Type} {K : Type} `{Countable K} `{!HashIter K V} : hiter (∅ : gmap K V) = [].
Proof. apply Permutation_nil. symmetry. rewrite hiter_perm. by rewrite map_to_list_empty. Qed.

Lemma expire_idle (c : KeyCache) (now : Z) : pending c = ∅ → expire c now = c.
Proof. intros Hp. unfold expire. by rewrite Hp, hiter_empty. Qed.

Lemma idle_counts (c : KeyCache) : kc_wf c → pending c = ∅ → pending_frames c = 0 ∧ pending_bytes c = 0.
Proof. intros Hw Hp. destruct (kg_pend _ _ _ _ _ _ _ Hw) as [Hn Hb _ _ _]. rewrite Hp in Hn, Hb. done. Qed.

Lemma queue_miss_idle (c : KeyCache) (s : AuthenticatedSession) (st : SessionState) (id : PeerId) (bytes : list Z) (now : Z) :
  kc_wf c → pending c = ∅ → ready c s st → len bytes ≤ MAX_PENDING_BYTES_PER_SESSION → (queue_miss c s id bytes now).2 = true.
Proof.
  intros Hw Hp [Hst Hg _ _ Hq _] Hlen. destruct (idle_counts c Hw Hp) as [Hn Hb]. pose proof (byte_len_nonneg bytes).
  unfold queue_miss. rewrite expire_idle by done.
  rewrite peer_frames_msum, peer_bytes_msum, Hp, Hn, Hb, lookup_empty.
  change (msum _ ∅) with 0%nat. unfold MAX_PENDING_BYTES_PER_SESSION in Hlen.
  rewrite !bool_decide_false by (unfold MAX_PENDING_PER_SESSION, MAX_PENDING_BYTES_PER_SESSION, MAX_PENDING_GLOBAL, MAX_PENDING_BYTES_GLOBAL, u64_sat_add; lia).
  cbn [default from_option Datatypes.id default_pending requested sessions set_pending]. rewrite Hst, bool_decide_true; [done|].
  split; [done|]. rewrite Hq, size_empty. unfold MAX_QUEUED_IDS_PER_SESSION. lia.
Qed.

Lemma siter_singleton (id : PeerId) : siter ({[id]} : gset PeerId) = [id].
Proof. apply Permutation_singleton_r. symmetry. by rewrite siter_perm, elements_singleton. Qed.

Lemma take_ids_singleton (id : PeerId) : take_ids {[id]} = (∅, [id]).
Proof. unfold take_ids. rewrite siter_singleton. cbn. f_equal. set_solver. Qed.

(** The flusher of a ready session with one queued request, or one queued
    response. *)
Lemma next_request (c : KeyCache) (s : AuthenticatedSession) (st : SessionState) (id : PeerId) (now : Z) (e : PendingKey) (f : PendingFrame) :
  sessions c !! peer s = Some st → ss_generation st = generation s → hello_sent st = true → hello_received st = true →
  queued_requests st = {[id]} → (consume_token st now).2 = true →
  pending c !! waiting_key s id = Some e → fresh_entry now f e →
  let '(c', x) := next_control c s now in
  x = Some (CtlRequest [id]) ∧ resolved c' = resolved c ∧
  (∃ e', pending c' !! waiting_key s id = Some e' ∧ f ∈ frames e' ∧ suffix (frames e') (frames e)) ∧
  ∃ st', sessions c' !! peer s = Some st' ∧ ss_generation st' = generation s.
Proof.
  intros Hst Hg Hsent Hrecv Hq Htok He Hf. unfold next_control. destruct (expire_spec now c _ f e He Hf) as [(e' & He' & [Hf' _] & _ & Hsuf) Hs].
  destruct (expire_rest now c) as (Hr & _). destruct (Hs _ _ Hst) as (st1 & Hst1 & (X & HX & ->) & Hid). set (c1 := expire c now) in *. rewrite Hst1. cbv zeta.
  assert (HX' : X = {[id]}). { apply set_eq. rewrite Hq in HX, Hid. specialize (Hid eq_refl Hg). cbn in Hid. set_solver. } subst X.
  cbn [ss_generation set_requests]. rewrite bool_decide_true by done. cbn [negb hello_sent set_requests hello_received queued_requests].
  rewrite Hsent, Hrecv. cbn [negb]. rewrite bool_decide_true by set_solver. unfold consume_token in *. cbn [tokens last_refill set_requests].
  set (t := fmin _ _) in *. destruct (ltb t (of_Z 1)); [done|]. cbn [negb queued_requests set_tokens set_requests]. rewrite take_ids_singleton.
  split_and!; [done|done|by exists e'|]. cbn. rewrite lookup_insert_eq. eexists. done.
Qed.

Lemma next_response (c : KeyCache) (s : AuthenticatedSession) (st : SessionState) (id : PeerId) (key : list Z) (now : Z) :
  sessions c !! peer s = Some st → ss_generation st = generation s → hello_sent st = true → hello_received st = true →
  queued_requests st = ∅ → queued_responses st = {[id]} → (consume_token st now).2 = true →
  assoc id (lru_iter (resolved c)) = Some key → lru_wf (resolved c) 2048 →
  (next_control c s now).2 = Some (CtlResponse [(id, key)]).
Proof.
  intros Hst Hg Hsent Hrecv Hq Hp Htok Hkey Hl. unfold next_control. destruct (expire_rest now c) as (Hr & _ & Hs).
  destruct (Hs _ _ Hst) as (st1 & Hst1 & X & HX & ->). set (c1 := expire c now) in *. rewrite Hst1. cbv zeta. rewrite Hq in HX.
  assert (X = ∅) as -> by set_solver. cbn [ss_generation set_requests]. rewrite bool_decide_true by done.
  cbn [negb hello_sent set_requests hello_received queued_requests queued_responses]. rewrite Hsent, Hrecv. cbn [negb].
  rewrite bool_decide_false by naive_solver. rewrite Hp, bool_decide_true by set_solver. unfold consume_token in *. cbn [tokens last_refill set_requests].
  set (t := fmin _ _) in *. destruct (ltb t (of_Z 1)); [done|]. cbn [negb queued_responses set_tokens set_requests]. rewrite Hp, take_ids_singleton.
  cbn [resolved set_sessions]. rewrite Hr. destruct (get_entries_spec [id] (resolved c) Hl) as (_ & _ & He).
  destruct (get_entries (resolved c) [id]) as [l es]. cbn [snd] in He. cbn in He. rewrite Hkey in He. cbn in He. subst es. done.
Qed.
End Recovery.

Section Messages.
Context `{Hashes} `{Postcard} `{MlDsa} `{!LruPut PeerId (list Z)} `{!LruPut PKey ()}.
Context `{!HashIter PKey PendingKey} `{!HashIter PeerId SessionState} `{!SetIter PeerId}.

Lemma control_message_ok (key : MlDsaKeyPair) (nanos : Z) (x : Control) :
  good_key key → validate_control x = Ok () → control_typed x →
  ∃ m payload, control_message key nanos x = Some m ∧ gm_payload m = Some payload ∧ decode_control payload = Ok x ∧ gm_public_key m = public_key key.
Proof.
  intros [_ Hsign] Hv Ht. destruct (control_transfer x Hv Ht) as (payload & He & Hd & _). unfold control_message. rewrite He. cbn [mbind option_bind].
  match goal with |- context [sign key ?h] => destruct (Hsign h) as (sig & -> & _) end. cbn. eauto 6.
Qed.

(** The peer's key signs its controls. *)
Definition speaks_for (key : MlDsaKeyPair) (p : PeerId) : Prop := good_key key ∧ len (public_key key) = KEY_BYTES ∧ from_pubkey (public_key key) = p.

Lemma handle_control_ok (live : PeerId → option AuthenticatedSession) (c : KeyCache) (s : AuthenticatedSession) (key : MlDsaKeyPair) (m : GossipMessage) (payload : list Z) (x : Control) (now : Z) (st : SessionState) :
  from_here live s → speaks_for key (peer s) → gm_public_key m = public_key key → gm_payload m = Some payload → decode_control payload = Ok x →
  sessions c !! peer s = Some st → ss_generation st = generation s →
  handle_key_cache_control live c (peer s) (Some s) m now = let '(c, fs) := apply_control c s x in (c, Ok fs).
Proof.
  intros Hl (_ & Hlen & Hid) Hk Hp Hd Hst Hg. unfold handle_key_cache_control. rewrite bool_decide_true by done. cbn [negb].
  rewrite Hk, bool_decide_true by done. cbn [negb]. rewrite Hp, Hd. unfold observe_session. by rewrite Hst, bool_decide_true.
Qed.

Lemma request_queued (c : KeyCache) (s : AuthenticatedSession) (st : SessionState) (id : PeerId) (key : list Z) :
  ready c s st → assoc id (lru_iter (resolved c)) = Some key →
  queue_responses c s [id] = set_sessions c (<[peer s := set_responses st {[id]}]> (sessions c)).
Proof.
  intros [Hst Hg _ _ _ Hq] Hkey. unfold queue_responses, update_session. rewrite Hst, bool_decide_true by done. do 3 f_equal.
  cbn. unfold contains. rewrite Hkey, bool_decide_true by done. unfold queue_id. rewrite Hq, size_empty, bool_decide_true by (unfold MAX_QUEUED_IDS_PER_SESSION; lia).
  f_equal. set_solver.
Qed.

Lemma response_learned (c : KeyCache) (s : AuthenticatedSession) (id : PeerId) (key : list Z) (e : PendingKey) :
  kc_wf c → entry_ok (id, key) → pending c !! waiting_key s id = Some e →
  let '(c', fs) := apply_control c s (CtlResponse [(id, key)]) in
  fs = pf_bytes <$> frames e ∧ assoc id (lru_iter (resolved c')) = Some key.
Proof.
  intros Hw [Hl Hid] He. cbn in Hl, Hid. subst id. cbn [apply_control learn_entries]. unfold note_response_key. fold (waiting_key s (from_pubkey key)). rewrite He.
  fold (learn c key). destruct (learn_resolved c key Hl) as (Hr & _ & _ & Hp). unfold take_pending, remove_pending. fold (waiting_key s (from_pubkey key)). rewrite Hp, He.
  rewrite app_nil_r. split; [done|]. cbn. rewrite Hr. apply (lru_put_front _ 2048); [apply Hw|lia].
Qed.

Lemma lookup_spec (c : KeyCache) (id : PeerId) : (lookup c id).2 = assoc id (lru_iter (resolved c)).
Proof. unfold lookup. pose proof (lru_get_value (resolved c) id) as Hv. by destruct (lru_get _ _). Qed.

Lemma lookup_rest (c : KeyCache) (id : PeerId) :
  sessions (lookup c id).1 = sessions c ∧ pending (lookup c id).1 = pending c.
Proof. unfold lookup. by destruct (lru_get _ _). Qed.
End Messages.

(** *** The three stages of recovery *)

Section Stages.
Context `{Hashes} `{Postcard} `{MlDsa} `{!LruPut PeerId (list Z)} `{!LruPut PKey ()}.
Context `{!HashIter PKey PendingKey} `{!HashIter PeerId SessionState} `{!SetIter PeerId}.
Context (live : PeerId → option AuthenticatedSession) (registered critical : TopicId → bool).

Definition ref_frame (m : GossipMessage) : list Z := WIRE_MARKER ++ put_wire (wire_of m true).

(** The receiver queues the frame, and the key is queued to be asked for. *)
Lemma frame_waits (c : KeyCache) (s : AuthenticatedSession) (st : SessionState) (m : GossipMessage) (now : Z) :
  kc_wf c → ready c s st → from_here live s → frame_ok m → avoids_marker registered → may_come_from m s →
  len (ref_frame m) ≤ MAX_PENDING_BYTES_PER_SESSION → pending c = ∅ → assoc (signer_id m) (lru_iter (resolved c)) = None →
  let '(c', r) := receive_frame live registered critical c (peer s) (Some s) (ref_frame m) now in
  r = Ok Waiting ∧ kc_wf c' ∧ pending c' !! waiting_key s (signer_id m) = Some (mkPending [mkFrame (ref_frame m) now] true) ∧
  sessions c' !! peer s = Some (set_requests st {[signer_id m]}).
Proof.
  intros Hw Hrd Hl Hok Hav Hcome Hsize Hidle Hunknown. unfold ref_frame in *. rewrite receive_ref by done. cbv zeta.
  set (id := signer_id m) in *. set (frame := WIRE_MARKER ++ put_wire (wire_of m true)) in *.
  set (c0 := if critical _ then _ else c). pose proof (lookup_spec c0 id) as Hlk. pose proof (lookup_rest c0 id) as [Hls Hlp].
  assert (Hw0 : kc_wf (lookup c0 id).1) by (apply lookup_wf; unfold c0; by case_match).
  assert (Hc0 : resolved c0 = resolved c ∧ sessions c0 = sessions c ∧ pending c0 = pending c) by (unfold c0; by case_match).
  destruct Hc0 as (Hc0r & Hc0s & Hc0p). rewrite Hc0r, Hunknown in Hlk. destruct (lookup c0 id) as [c1 v]. cbn [fst snd] in *. subst v.
  set (c2 := record_inbound c1 true (len frame)).
  assert (Hready2 : ready c2 s st) by (destruct Hrd; split; cbn; congruence). assert (Hidle2 : pending c2 = ∅) by (cbn; congruence).
  pose proof (queue_miss_idle c2 s st id frame now Hw0 Hidle2 Hready2 Hsize) as Hacc.
  destruct (queue_miss_first c2 s id frame now st Hacc) as (_ & Hpend & X & HX & Hses); [by rewrite Hidle2, lookup_empty|apply Hready2|].
  rewrite (rd_requests _ _ _ Hrd) in HX. assert (X = ∅) as -> by set_solver. rewrite union_empty_r_L in Hses.
  split_and!; [done|by apply queue_miss_wf|done|done].
Qed.

Lemma consume_requests (st : SessionState) (x : gset PeerId) (now : Z) : (consume_token (set_requests st x) now).2 = (consume_token st now).2.
Proof. unfold consume_token. cbn [tokens last_refill set_requests]. by destruct (ltb _ _). Qed.
Lemma consume_responses (st : SessionState) (x : gset PeerId) (now : Z) : (consume_token (set_responses st x) now).2 = (consume_token st now).2.
Proof. unfold consume_token. cbn [tokens last_refill set_responses]. by destruct (ltb _ _). Qed.

(** The peer that knows the key answers the request. *)
Lemma request_answered (key : MlDsaKeyPair) (c : KeyCache) (s : AuthenticatedSession) (st : SessionState) (id : PeerId) (pk : list Z) (n now now' : Z) :
  kc_wf c → ready c s st → from_here live s → speaks_for key (peer s) → is_array 32 (peer_bytes id) →
  assoc id (lru_iter (resolved c)) = Some pk → (consume_token st now').2 = true →
  ∃ request c1, control_message key n (CtlRequest [id]) = Some request ∧
    handle_key_cache_control live c (peer s) (Some s) request now = (c1, Ok []) ∧
    (next_control c1 s now').2 = Some (CtlResponse [(id, pk)]).
Proof.
  intros Hw Hrd Hl Hkey Hid Hknown Htok.
  destruct (control_message_ok key n (CtlRequest [id]) (proj1 Hkey)) as (request & payload & Hcm & Hpay & Hdec & Hpk); [done|by constructor|].
  exists request, (set_sessions c (<[peer s := set_responses st {[id]}]> (sessions c))). split_and!; [done| |].
  - rewrite (handle_control_ok live c s key request payload _ now st Hl Hkey Hpk Hpay Hdec (rd_session _ _ _ Hrd) (rd_generation _ _ _ Hrd)).
    cbn [apply_control]. by rewrite (request_queued c s st id pk Hrd Hknown).
  - destruct Hrd. eapply (next_response _ s (set_responses st {[id]}) id pk now'); try done; [apply lookup_insert_eq|by rewrite consume_responses|apply Hw].
Qed.

(** The answer releases the frame. *)
Lemma answer_releases (key : MlDsaKeyPair) (c : KeyCache) (s : AuthenticatedSession) (st : SessionState) (m : GossipMessage) (e : PendingKey) (n now t now' : Z) :
  kc_wf c → from_here live s → speaks_for key (peer s) → frame_ok m → avoids_marker registered → may_come_from m s →
  sessions c !! peer s = Some st → ss_generation st = generation s → pending c !! waiting_key s (signer_id m) = Some e → frames e = [mkFrame (ref_frame m) t] →
  ∃ response c1, control_message key n (CtlResponse [(signer_id m, gm_public_key m)]) = Some response ∧
    handle_key_cache_control live c (peer s) (Some s) response now = (c1, Ok [ref_frame m]) ∧
    (receive_frame live registered critical c1 (peer s) (Some s) (ref_frame m) now').2 = Ok (Handle m).
Proof.
  intros Hw Hl Hkey Hok Hav Hcome Hst Hg He Hfr.
  assert (Hentry : entry_ok (signer_id m, gm_public_key m)) by (split; [apply Hok|done]).
  destruct (control_message_ok key n (CtlResponse [(signer_id m, gm_public_key m)]) (proj1 Hkey)) as (response & payload & Hcm & Hpay & Hdec & Hpk).
  { cbn [validate_control]. unfold ensure, item_count. cbn [length]. rewrite bool_decide_true by (unfold MAX_CONTROL_ITEMS; lia). cbn [result_bind].
    by apply validate_entries_ok; constructor. } { constructor; [apply from_pubkey_array|constructor]. }
  pose proof (response_learned c s (signer_id m) (gm_public_key m) e Hw Hentry He) as Hlearn.
  pose proof (handle_control_ok live c s key response payload _ now st Hl Hkey Hpk Hpay Hdec Hst Hg) as Hh.
  destruct (apply_control c s _) as [c1 fs]. destruct Hlearn as [-> Hres]. rewrite Hfr in Hh. exists response, c1. split_and!; [done|exact Hh|].
  unfold ref_frame. rewrite receive_ref by done. set (c3 := if critical _ then _ else c1). pose proof (lookup_spec c3 (signer_id m)) as Hlk.
  assert (Hc3 : resolved c3 = resolved c1) by (unfold c3; by case_match). rewrite Hc3, Hres in Hlk.
  destruct (lookup c3 (signer_id m)) as [c4 v4]. cbn [snd] in *. subst v4. fold (signer_id m). destruct Hcome as [_ [->|Hs]].
  - unfold with_key. by destruct m.
  - rewrite Hs, (bool_decide_true (peer s = peer s)), andb_false_r by done. unfold with_key. by destruct m.
Qed.
End Stages.

(** ** Claims *)

Section Claims.
Context `{Hashes} `{Postcard} `{MlDsa} `{!LruPut PeerId (list Z)} `{!LruPut PKey ()}.
Context `{!HashIter PKey PendingKey} `{!HashIter PeerId SessionState} `{!SetIter PeerId}.

(** C8. The key cache is bounded and consistent in every reachable state: the
    counts of waiting frames and bytes are exact and within 1024 frames and
    8 MiB, within 16 frames and 256 KiB per session; at most 1024 sessions with
    at most 64 identifiers in each queue; every key of the cache has 1952 bytes
    and hashes to its identifier; an acknowledgement belongs to the current
    connection of its peer; and the same for the receiver, the control handler
    and the flusher, whatever ran before. *)
Theorem key_cache_invariant (live : PeerId → option AuthenticatedSession) (registered critical : TopicId → bool) (os : list KOp) :
  let c := krun key_cache_default os in
  kc_wf c ∧
  (∀ from session data now, kc_wf (receive_frame live registered critical c from session data now).1) ∧
  (∀ from session m now, kc_wf (handle_key_cache_control live c from session m now).1) ∧
  (∀ s env, kc_wf (flush_session c s env).1).
Proof.
  cbv zeta. pose proof (krun_wf os _ default_wf) as Hw.
  assert (Hto : ∀ c', steps_to (krun key_cache_default os) c' → kc_wf c') by (intros c' [os' ->]; by apply krun_wf).
  split_and!; [done|..]; intros; apply Hto; [apply receive_frame_steps|apply handle_control_steps|apply flush_session_steps].
Qed.

(** C6. A reference frame stands for the message: in every reachable state of
    the receiver, the full form of a message gives the handlers that message,
    and so does the legacy form on an unregistered topic; the reference form
    gives them the same message, key included, or waits when the signer's key is
    not known; nothing else happens.  Assumes that no other 1952-byte key hashes
    to the signer's identifier. *)
Theorem reference_transparent (live : PeerId → option AuthenticatedSession) (registered critical : TopicId → bool) (os : list KOp)
    (s : AuthenticatedSession) (m : GossipMessage) (now : Z) :
  let c := krun key_cache_default os in
  frame_ok m → version (gm_header m) ≠ 255 → avoids_marker registered → from_here live s → may_come_from m s →
  (∀ key, len key = KEY_BYTES → from_pubkey key = signer_id m → key = gm_public_key m) →
  ∃ full ref, encode m false = Ok full ∧ encode m true = Ok ref ∧
    let receive data := (receive_frame live registered critical c (peer s) (Some s) data now).2 in
    receive full = Ok (Handle m) ∧
    receive ref = Ok (if contains (resolved c) (signer_id m) then Handle m else Waiting) ∧
    (registered (topic (gm_header m)) = false → receive (put_gossip m) = Ok (Handle m)).
Proof.
  cbv zeta. intros Hok H255 Hav Hl Hcome Hinj. pose proof (krun_wf os _ default_wf) as Hw. set (c := krun key_cache_default os) in *.
  exists (WIRE_MARKER ++ put_wire (wire_of m false)), (WIRE_MARKER ++ put_wire (wire_of m true)). rewrite !encode_eq by done.
  split_and!; [done|done|by apply receive_full| |].
  - rewrite receive_ref by done. set (c0 := if critical _ then _ else c). assert (Hr : resolved c0 = resolved c) by (unfold c0; by case_match).
    pose proof (lookup_spec c0 (signer_id m)) as Hv. rewrite Hr in Hv. unfold contains. destruct (lookup c0 (signer_id m)) as [c1 v]. cbn [snd] in Hv. subst v.
    destruct (assoc (signer_id m) (lru_iter (resolved c))) as [key|] eqn:Ha; [|by rewrite bool_decide_false by by intros []].
    apply assoc_Some in Ha. destruct (Forall_elem _ _ _ (kg_keys _ _ _ _ _ _ _ Hw) Ha) as [Hlen Hid]. cbn [fst snd] in Hlen, Hid.
    rewrite (Hinj key Hlen Hid), (bool_decide_true (is_Some _)) by done. cbn [snd]. fold (signer_id m). destruct Hcome as [_ [->|Hs]].
    + unfold with_key. by destruct m.
    + rewrite Hs, (bool_decide_true (peer s = peer s)), andb_false_r by done. unfold with_key. by destruct m.
  - intros Hreg. unfold receive_frame. rewrite bool_decide_true by done. cbn [negb].
    assert (Hd : deserialize (put_gossip m) = Some (gm_header m, put_payload (gm_payload m) ++ put_bytes (gm_signature m) ++ put_bytes (gm_public_key m)))
      by (apply deserialize_serialize; apply Hok).
    unfold predecode. rewrite Hd, bool_decide_false, Hreg by apply Hcome. cbn [result_bind]. unfold is_v3. rewrite legacy_not_v3 by (done || apply Hok).
    rewrite bool_decide_false by by intros []. unfold decode_legacy. rewrite <-(app_nil_r (put_gossip m)), get_gossip_put, Hreg by done. cbn [andb].
    destruct Hcome as [Hne _]. rewrite (bool_decide_false (topic (gm_header m) = control_topic)) by done. cbn [andb]. rewrite bool_decide_false by tauto. done.
Qed.

(** C7. A missing key is recovered.  Node B holds a negotiated, idle session with
    A and receives a reference frame whose signer it does not know; the frame
    waits, B's next control asks for the key, A -- which knows it -- answers
    with it, and B's handler learns the key and releases the frame, which now
    decodes to the message that A sent.  Both controls travel as signed
    messages. *)
Theorem miss_recovered (livea liveb : PeerId → option AuthenticatedSession) (registered critical : TopicId → bool)
    (keya keyb : MlDsaKeyPair) (ca cb : KeyCache) (sa sb : AuthenticatedSession) (sta stb : SessionState) (m : GossipMessage)
    (t1 t2 t3 t4 t5 t6 n n' : Z) :
  let id := signer_id m in
  let frame := ref_frame m in
  kc_wf ca → kc_wf cb → ready ca sa sta → ready cb sb stb →
  from_here livea sa → from_here liveb sb → speaks_for keyb (peer sa) → speaks_for keya (peer sb) →
  frame_ok m → avoids_marker registered → may_come_from m sb → len frame ≤ MAX_PENDING_BYTES_PER_SESSION →
  pending cb = ∅ → assoc id (lru_iter (resolved cb)) = None → assoc id (lru_iter (resolved ca)) = Some (gm_public_key m) →
  (consume_token stb t2).2 = true → (consume_token sta t4).2 = true → elapsed_ns t2 t1 < PENDING_TTL →
  ∃ cb1 cb2 ca1 ca2 cb3 request response,
    receive_frame liveb registered critical cb (peer sb) (Some sb) frame t1 = (cb1, Ok Waiting) ∧
    next_control cb1 sb t2 = (cb2, Some (CtlRequest [id])) ∧
    control_message keyb n (CtlRequest [id]) = Some request ∧
    handle_key_cache_control livea ca (peer sa) (Some sa) request t3 = (ca1, Ok []) ∧
    next_control ca1 sa t4 = (ca2, Some (CtlResponse [(id, gm_public_key m)])) ∧
    control_message keya n' (CtlResponse [(id, gm_public_key m)]) = Some response ∧
    handle_key_cache_control liveb (control_result cb2 sb (CtlRequest [id]) true) (peer sb) (Some sb) response t5 = (cb3, Ok [frame]) ∧
    (receive_frame liveb registered critical cb3 (peer sb) (Some sb) frame t6).2 = Ok (Handle m).
Proof.
  cbv zeta. intros Hwa Hwb Hra Hrb Hla Hlb Hkb Hka Hok Hav Hcome Hsize Hidle Hunknown Hknown Htb Hta Hpace.
  pose proof (frame_waits liveb registered critical cb sb stb m t1 Hwb Hrb Hlb Hok Hav Hcome Hsize Hidle Hunknown) as Hwait.
  destruct (receive_frame liveb registered critical cb (peer sb) (Some sb) (ref_frame m) t1) as [cb1 r]. destruct Hwait as (-> & Hw1 & Hpend & Hses).
  assert (Hfresh : fresh_entry t2 (mkFrame (ref_frame m) t1) (mkPending [mkFrame (ref_frame m) t1] true)) by (split; [by left|unfold stale; cbn; lia]).
  assert (Htok : (consume_token (set_requests stb {[signer_id m]}) t2).2 = true) by by rewrite consume_requests.
  pose proof (next_request cb1 sb _ (signer_id m) t2 _ _ Hses (rd_generation _ _ _ Hrb) (rd_sent _ _ _ Hrb) (rd_received _ _ _ Hrb) eq_refl Htok Hpend Hfresh) as Hreq.
  pose proof (next_control_wf cb1 sb t2 Hw1) as Hw2. destruct (next_control cb1 sb t2) as [cb2 x] eqn:Hnb. cbn [fst] in Hw2.
  destruct Hreq as (-> & _ & (e2 & He2 & Hfe2 & Hsuf) & stb2 & Hst2 & Hg2).
  destruct (request_answered livea keyb ca sa sta (signer_id m) (gm_public_key m) n t3 t4 Hwa Hra Hla Hkb (from_pubkey_array _) Hknown Hta) as (request & ca1 & Hcm & Hha & Hna).
  destruct (next_control ca1 sa t4) as [ca2 y] eqn:Hnext. cbn [snd] in Hna. subst y.
  set (cb2' := control_result cb2 sb (CtlRequest [signer_id m]) true).
  assert (Hcb2' : pending cb2' = pending cb2 ∧ sessions cb2' !! peer sb = Some stb2).
  { unfold cb2', control_result, update_session. rewrite Hst2, bool_decide_true by done. cbn. by rewrite lookup_insert_eq. }
  destruct Hcb2' as [Hp2' Hst2']. rewrite <-Hp2' in He2.
  assert (Hframes : frames e2 = [mkFrame (ref_frame m) t1]).
  { cbn [frames] in Hsuf. destruct (frames e2) as [|f0 [|f1 l]]; [by apply elem_of_nil in Hfe2| |apply suffix_length in Hsuf; cbn in Hsuf; lia].
    by apply list_elem_of_singleton in Hfe2 as <-. }
  destruct (answer_releases liveb registered critical keya cb2' sb stb2 m e2 n' t5 t1 t6 (control_result_wf cb2 sb _ true Hw2) Hlb Hka Hok Hav Hcome Hst2' Hg2 He2 Hframes)
    as (response & cb3 & Hcm' & Hhb & Hfin).
  exists cb1, cb2, ca1, ca2, cb3, request, response. exact (conj eq_refl (conj Hnb (conj Hcm (conj Hha (conj Hnext (conj Hcm' (conj Hhb Hfin))))))).
Qed.

(** A lost answer is never asked for again while the key is in use.  Once
    the key was asked for, the cache does not ask again on that connection as
    long as reference frames for it keep arriving less than five seconds apart:
    each frame keeps the entry alive whose flag records that the request was
    sent, while the frames themselves expire. *)
Theorem lost_request_never_retried (c : KeyCache) (s : AuthenticatedSession) (id : PeerId) (t : Z) (arrivals : list (list Z * Z)) :
  asked_once s id t c → paced t arrivals.*2 → Forall (λ o, o.1 = true) (traffic c s id arrivals).2 →
  Forall (λ o, ¬ asks_for o.2 id) (traffic c s id arrivals).2.
Proof. apply traffic_never_asks. Qed.

(** A licensed reference can outlive the key.  When 2048 other signers were
    learned after a peer acknowledged a key, this node still sends the peer
    references to it, but no longer holds it: however it goes on, short of
    learning the key anew, no control it sends answers a request for it.  (The
    node's own key is learned once, when the node is made.) *)
Theorem displaced_key_strands_references (c : KeyCache) (s : AuthenticatedSession) (key : list Z) (others : list (list Z)) :
  kc_wf c → (supports_ref c s (from_pubkey key)).2 = true →
  Forall valid_key others → length others = 2048%nat → NoDup (from_pubkey <$> key :: others) →
  let c1 := foldl learn c others in
  (supports_ref c1 s (from_pubkey key)).2 = true ∧
  ∀ os s' now, Forall (λ o, ¬ teaches (from_pubkey key) o) os → ¬ offers (next_control (krun c1 os) s' now).2 (from_pubkey key).
Proof.
  intros Hw Href Hv Hlen Hnd c1. destruct (learn_many others c Hv) as (_ & Hs & Ha & _). fold c1 in Hs, Ha. split.
  - unfold supports_ref, supports_v3 in *. rewrite Hs, Ha. destruct (match sessions c !! peer s with Some _ => _ | None => _ end); [|done].
    by destruct (lru_get _ _).
  - intros os s' now Hos Hoff.
    assert (Hw1 : kc_wf c1) by (unfold c1; clear -Hw; revert c Hw; induction others as [|k ks IH]; intros c Hw; cbn; [done|]; apply IH; by apply note_verified_key_wf).
    pose proof (learn_displaces others c key Hw Hv Hlen Hnd) as Hd. fold c1 in Hd. apply not_true_iff_false in Hd. rewrite contains_elem in Hd.
    pose proof (next_control_spec (krun c1 os) s' now) as Hn. destruct (next_control (krun c1 os) s' now) as [c2 x]. destruct Hn as (_ & _ & _ & Hn).
    apply Hn in Hoff. by apply (unknown_run os c1 (from_pubkey key) Hw1 Hd Hos) in Hoff.
Qed.
End Claims.
End KeyRecovery.
