(* ===== verification/KeyCacheWitness.v ===== *)
(** * Key references: witnesses

    A hash that tells one key from all others, the reference caches, and two
    nodes that negotiated, on which the theorems of [KeyCodec.v] and
    [KeyRecovery.v] are applied. *)

From S2P Require Import Prelude Types Identity Float64 MessageCache Plumtree PlumtreeWitness KeyCodec KeyCache KeyCacheProps KeyExchange KeyExchangeProps KeyRecovery.
Import F64 Identity Plumtree KeyCodec KeyCache KeyCacheProps KeyExchange KeyExchangeProps KeyRecovery.

#[local] Open Scope Z_scope.

Module KeyCacheWitness.

Definition pk0 : list Z := replicate 1952 5.
Definition pk (n : Z) : list Z := replicate 1950 0 ++ [n / 256; n mod 256].

(** All ones for the identifier of [pk0]; for the rest, zero and the last bytes. *)
Definition toy (l : list Z) : list Z :=
  if decide (l = PEER_ID_DOMAIN_SEPARATOR ++ pk0) then replicate 32 1
  else 0 :: ((λ z, z mod 256) <$> take 31 (reverse l ++ replicate 31 0)).
Lemma toy_array (l : list Z) : is_array 32 (toy l).
Proof.
  unfold toy. case_decide; [split; [done|]; by apply (bool_decide_unpack _); vm_compute|]. split.
  - cbn [length]. rewrite length_fmap, length_take, length_app, length_replicate. lia.
  - constructor; [done|]. apply Forall_fmap, Forall_true. intros z. unfold is_byte. cbn. pose proof (Z.mod_pos_bound z 256). lia.
Qed.

#[local] Instance toy_hashes : Hashes := {| blake3 := toy; sha256 := toy; blake3_array := toy_array; sha256_array := toy_array |}.
#[local] Instance toy_postcard : Postcard := KeyCodecWitness.ref_postcard.
#[local] Instance toy_crypto : MlDsa := PlumtreeWitness.echo_crypto.
#[local] Instance keys_lru : LruCache PeerId (list Z) := MessageCacheWitness.ref_lru_cache.
#[local] Instance keys_put : LruPut PeerId (list Z).
Proof.
  refine {| put_cache := keys_lru; lru_put c k v := (c.1, take (Z.to_nat c.1) ((k, v) :: without k c.2)) |}.
  intros [cap l] k v. done.
Defined.
#[local] Instance acks_lru : LruCache PKey () := MessageCacheWitness.ref_lru_cache.
#[local] Instance acks_put : LruPut PKey ().
Proof.
  refine {| put_cache := acks_lru; lru_put c k v := (c.1, take (Z.to_nat c.1) ((k, v) :: without k c.2)) |}.
  intros [cap l] k v. done.
Defined.
#[local] Instance iter_pending : HashIter PKey PendingKey := canonical_iter.
#[local] Instance iter_sessions : HashIter PeerId SessionState := canonical_iter.
#[local] Instance iter_ids : SetIter PeerId := canonical_siter.

Definition id0 : PeerId := from_pubkey pk0.
Definition keya : MlDsaKeyPair := mkKeyPair pk0 [9].
Definition keyb : MlDsaKeyPair := mkKeyPair (pk 9) [9].
Lemma echo_good (key : MlDsaKeyPair) : public_key key ≠ [] → good_key key.
Proof. intros Hk. split; [done|]. intros m. exists (1 :: m). split; [done|]. split; [done|]. unfold verify. cbn. by rewrite bool_decide_true. Qed.

(** The session of the receiver with the author, and the author's with it. *)
Definition sb : AuthenticatedSession := mkSession id0 3.
Definition sa : AuthenticatedSession := mkSession (from_pubkey (pk 9)) 7.
Definition only_session (s : AuthenticatedSession) (p : PeerId) : option AuthenticatedSession := if decide (p = peer s) then Some s else None.
Definition none_registered (t : TopicId) : bool := false.

Definition m0 : GossipMessage :=
  mkGossip (mkHeader 2 (mkTopicId (replicate 32 7)) (replicate 32 8) Eager 0 10 (Some (replicate 32 3))) (Some [1; 2; 3]) (replicate 3309 4) pk0.

Definition hello (s : AuthenticatedSession) : list KOp := [KObserve s 0; KNext s 0; KResult s (CtlHello 1) true; KHello s].

Ltac evaluate := apply (bool_decide_unpack _); by vm_compute.

Lemma m0_ok : frame_ok m0.
Proof.
  unfold frame_ok, Header.typed, Header.version_consistent. split_and!; try evaluate; try done.
Qed.

Lemma m0_from (s : AuthenticatedSession) : may_come_from m0 s.
Proof. split; [by vm_compute|by left]. Qed.

Lemma nothing_registered : avoids_marker none_registered.
Proof. intros t [->|?]; [by vm_compute|done]. Qed.

Lemma v3_roundtrip_witness :
  ∃ full ref, encode m0 false = Ok full ∧ encode m0 true = Ok ref ∧ len full = len ref + 1954 ∧ decode full = Ok (DecodedFull m0 id0).
Proof.
  destruct (v3_roundtrip m0 m0_ok ltac:(done)) as (full & ref & H1 & H2 & H3 & _ & H5 & _). exists full, ref. by split_and!.
Defined.

Definition licensed_ops : list KOp := KVerified id0 pk0 None :: hello sb ++ [KAck sb [id0]].

Lemma toy_inj (key : list Z) : toy (PEER_ID_DOMAIN_SEPARATOR ++ key) = toy (PEER_ID_DOMAIN_SEPARATOR ++ pk0) → key = pk0.
Proof.
  unfold toy. generalize PEER_ID_DOMAIN_SEPARATOR. intros sep. rewrite (decide_True (P := sep ++ pk0 = sep ++ pk0)) by done.
  destruct (decide (sep ++ key = sep ++ pk0)) as [Hd|Hd]; [by apply app_inv_head in Hd|]. intros Heq. by apply (f_equal head) in Heq.
Qed.
Lemma only_key (key : list Z) : len key = KEY_BYTES → from_pubkey key = signer_id m0 → key = gm_public_key m0.
Proof. intros _ Heq. apply (f_equal peer_bytes) in Heq. exact (toy_inj key Heq). Qed.

Lemma reference_transparent_witness :
  ∃ ref, encode m0 true = Ok ref ∧
    (receive_frame (only_session sb) none_registered none_registered (krun key_cache_default licensed_ops) id0 (Some sb) ref 1).2 = Ok (Handle m0).
Proof.
  destruct (reference_transparent (only_session sb) none_registered none_registered licensed_ops sb m0 1 m0_ok ltac:(done) nothing_registered ltac:(by vm_compute) (m0_from sb) only_key)
    as (full & ref & _ & Href & _ & Hr & _).
  exists ref. split; [exact Href|]. etrans; [exact Hr|]. by vm_compute.
Defined.

(** ** Recovery *)

Definition ca : KeyCache := krun key_cache_default (KVerified id0 pk0 None :: hello sa).
Definition cb : KeyCache := krun key_cache_default (hello sb).
Definition session_of (c : KeyCache) (s : AuthenticatedSession) : SessionState := default (session_new 0 0) (sessions c !! peer s).

Lemma ca_ready : ready ca sa (session_of ca sa).
Proof. split; by vm_compute. Qed.
Lemma cb_ready : ready cb sb (session_of cb sb).
Proof. split; by vm_compute. Qed.

Lemma miss_recovered_witness :
  ∃ cb3, (receive_frame (only_session sb) none_registered none_registered cb3 id0 (Some sb) (ref_frame m0) 6).2 = Ok (Handle m0) ∧
         (receive_frame (only_session sb) none_registered none_registered cb id0 (Some sb) (ref_frame m0) 1).2 = Ok Waiting.
Proof.
  destruct (miss_recovered (only_session sa) (only_session sb) none_registered none_registered keya keyb ca cb sa sb (session_of ca sa) (session_of cb sb) m0
    1 2 3 4 5 6 0 0) as (cb1 & cb2 & ca1 & ca2 & cb3 & request & response & Hw & _ & _ & _ & _ & _ & _ & Hd);
    [apply krun_wf, default_wf|apply krun_wf, default_wf|apply ca_ready|apply cb_ready|by vm_compute|by vm_compute
    |split_and!; [by apply echo_good|by vm_compute|by vm_compute]|split_and!; [by apply echo_good|by vm_compute|by vm_compute]
    |apply m0_ok|apply nothing_registered|apply m0_from|by vm_compute|by vm_compute|by vm_compute|by vm_compute|by vm_compute|by vm_compute|by vm_compute|].
  exists cb3. split; [exact Hd|]. cbv zeta in Hw. change id0 with (peer sb). by rewrite Hw.
Defined.

(** ** Where recovery fails *)

Definition asked : KeyCache := krun key_cache_default (hello sb ++ [KMiss sb id0 [1; 2; 3] 0; KNext sb NANOS_PER_SEC; KResult sb (CtlRequest [id0]) true]).
Definition stream : list (list Z * Z) := (λ n, ([1; 2; 3], n * 2 * NANOS_PER_SEC)) <$> [1; 2; 3; 4; 5].

(** Five more frames in ten seconds, three of the six expired, and no request. *)
Lemma lost_request_never_retried_witness :
  Forall (λ o, ¬ asks_for o.2 id0) (traffic asked sb id0 stream).2 ∧ stats (traffic asked sb id0 stream).1 pending_timeouts = 3 ∧
  (traffic asked sb id0 stream).2.*2 = replicate 5 None.
Proof.
  split; [apply (lost_request_never_retried asked sb id0 0 stream)|split; by vm_compute].
  - split.
    + exists (mkPending [mkFrame [1; 2; 3] 0] true), (mkFrame [1; 2; 3] 0). split_and!; [by vm_compute|done|by left|done].
    + exists (session_of asked sb). split; [by vm_compute|]. by vm_compute.
  - by vm_compute.
  - evaluate.
Defined.

Definition crowd : list (list Z) := pk <$> seqZ 0 2048.

Lemma crowd_valid : Forall valid_key crowd.
Proof.
  apply Forall_fmap, Forall_true. intros n. unfold valid_key, len, pk, KEY_BYTES, compose. rewrite length_app, length_replicate. cbn [length]. lia.
Qed.

(** The last two bytes tell the keys apart. *)
Lemma toy_pk (sep : list Z) (n : Z) :
  (sep ++ pk n) ≠ sep ++ pk0 ∧ ∃ rest, 0 :: ((λ z, z mod 256) <$> take 31 (reverse (sep ++ pk n) ++ replicate 31 0)) = 0 :: n mod 256 mod 256 :: (n / 256) mod 256 :: rest.
Proof.
  split.
  - intros Heq. apply app_inv_head in Heq. apply (f_equal head) in Heq. unfold pk, pk0 in Heq.
    change 1950%nat with (S 1949) in Heq. change 1952%nat with (S 1951) in Heq. by cbn [replicate app head] in Heq.
  - unfold pk. rewrite !reverse_app. generalize (reverse (replicate 1950 0)) (reverse sep) (replicate 31 0). intros x y z. cbn.
    eexists. reflexivity.
Qed.

Lemma crowd_distinct : NoDup (from_pubkey <$> pk0 :: crowd).
Proof.
  assert (Htoy : ∀ n, ∃ rest, toy (PEER_ID_DOMAIN_SEPARATOR ++ pk n) = 0 :: n mod 256 mod 256 :: (n / 256) mod 256 :: rest).
  { intros n. destruct (toy_pk PEER_ID_DOMAIN_SEPARATOR n) as [Hne Hr]. unfold toy. by rewrite decide_False. }
  unfold crowd. rewrite fmap_cons, <-list_fmap_compose. constructor.
  - intros Hin. apply list_elem_of_fmap in Hin as (n & Heq & _). apply (f_equal peer_bytes) in Heq. unfold from_pubkey, compose in Heq. cbn [peer_bytes sha256 toy_hashes] in Heq.
    destruct (Htoy n) as [rest Hr]. rewrite Hr in Heq. unfold toy in Heq. rewrite decide_True in Heq by done. by apply (f_equal head) in Heq.
  - apply NoDup_fmap_2_strong; [|apply NoDup_seqZ]. intros n k Hn Hk Heq. apply elem_of_seqZ in Hn, Hk.
    apply (f_equal peer_bytes) in Heq. unfold from_pubkey, compose in Heq. cbn [peer_bytes sha256 toy_hashes] in Heq.
    destruct (Htoy n) as [r1 H1]. destruct (Htoy k) as [r2 H2]. rewrite H1, H2 in Heq. injection Heq as Hlo Hhi _.
    rewrite !(Z.mod_small (_ mod 256)) in Hlo by (apply Z.mod_pos_bound; lia).
    rewrite !(Z.mod_small (_ / 256)) in Hhi by (split; [apply Z.div_pos; lia|apply Z.div_lt_upper_bound; lia]).
    rewrite (Z.div_mod n 256), (Z.div_mod k 256) by lia. lia.
Qed.

Lemma displaced_key_strands_references_witness :
  (supports_ref (foldl learn (krun key_cache_default licensed_ops) crowd) sb id0).2 = true ∧
  ¬ offers (next_control (krun (foldl learn (krun key_cache_default licensed_ops) crowd) [KRequests sb [id0]]) sb NANOS_PER_SEC).2 id0.
Proof.
  destruct (displaced_key_strands_references (krun key_cache_default licensed_ops) sb pk0 crowd) as [Href Hno];
    [apply krun_wf, default_wf|by vm_compute| |by vm_compute| |].
  - apply crowd_valid.
  - apply crowd_distinct.
  - split; [exact Href|]. apply (Hno [KRequests sb [id0]] sb NANOS_PER_SEC). apply Forall_singleton. by intros [].
Defined.
End KeyCacheWitness.
