(* ===== verification/Compat.v ===== *)
(** * Migration of legacy senders ([crates/pubsub/src/compat.rs])

    Topics registered by trusted local configuration carry inner envelopes with
    their own signature; on those topics an adjacent peer may still speak the
    unsealed outer format, version 1, while it holds a grant: bound to one
    connection, at most a day long, revocable, and void for a peer that the
    durable journal of modern floors names.  All send paths consult this policy,
    and it composes with the key cache.

    [anyhow] errors are their messages.  A reading of a clock or of the journal
    is an argument, one per read of the source: the journal may change, or
    reading it fail, between two reads. *)

From S2P Require Import Prelude Types Identity MessageCache Plumtree KeyCodec KeyCache KeyExchange.
Import Identity Plumtree KeyCodec KeyCache KeyExchange.
Import MessageCache(mkInner, VerifiedInner, author, digest, revision).

#[local] Open Scope Z_scope.

Module Compat.

Notation Res A := (result A string).
Definition check (b : bool) (e : string) : Res () := if b then Ok () else Err e.

Definition MAX_TOPICS : nat := 128.
Definition MAX_GRANTS : nat := 1024.
Definition MAX_AUTHORS : nat := 1024.
Definition MAX_INNER_BYTES : Z := 1024 * 1024.
Definition MAX_CONTROL_IDS : Z := 1024.
Definition MAX_CONTROL_BYTES : Z := 1 + 2 + MAX_CONTROL_IDS * 32.
Definition MAX_CONTROL_WORK : Z := 4096.
Definition MAX_VARIANT_BYTES : Z := 4 * 1024 * 1024.
Definition MAX_RESPONSE_BYTES : Z := 16 * 1024 * 1024.
Definition MAX_FLOORS : Z := 65536.
Definition AUDITED_RECEIVER : list Z := bytes_of_string "x0x/0.30.1+signed-kv-inner-v3;saorsa-gossip-pubsub/0.5.66".

(** ** Inner envelopes *)

Inductive SignedKvFamily := Delta | StateSync.

Record SignedKvTopic := mkKvTopic {
  topic_name : list Z;
  family : SignedKvFamily;
  kv_revision : Z;
  authors : gset PeerId;
}.

Definition kv_new (delta_topic : list Z) (f : SignedKvFamily) (rev : Z) (known_authors : list PeerId) : Res SignedKvTopic :=
  let? _ := check (bool_decide (delta_topic ≠ [] ∧ len delta_topic ≤ 512)) "invalid KV topic" in
  let? _ := check (bool_decide (0 < rev)) "verifier revision must be positive" in
  let authors : gset PeerId := list_to_set (take (S MAX_AUTHORS) known_authors) in
  let? _ := check (bool_decide (authors ≠ ∅ ∧ (size authors ≤ MAX_AUTHORS)%nat)) "invalid author roster" in
  let topic_name := match f with Delta => delta_topic | StateSync => delta_topic ++ bytes_of_string "/state-sync" end in
  Ok (mkKvTopic topic_name f rev authors).

(** [u16::to_be_bytes] and [u16::from_be_bytes]. *)
Definition be16 (n : Z) : list Z := [n / 256; n mod 256].
Definition from_be16 (a b : Z) : Z := a * 256 + b.

Definition take_field (rest : list Z) : Res (list Z * list Z) :=
  match rest with
  | a :: b :: rest =>
      let n := from_be16 a b in
      if bool_decide (n ≤ len rest) then Ok (take (Z.to_nat n) rest, drop (Z.to_nat n) rest) else Err "truncated inner field"
  | _ => Err "truncated inner field"
  end.

Section Policy.
Context `{Hashes} `{Postcard} `{MlDsa}.
(** [postcard::take_from_bytes::<u32>]. *)
Context (get_u32 : list Z → option (Z * list Z)).

Definition kv_topic (t : SignedKvTopic) : TopicId := from_entity (topic_name t).

(** What a version-3 inner signature covers. *)
Definition signed_bytes (author_bytes topic rest : list Z) : list Z :=
  bytes_of_string "x0x-msg-v3" ++ author_bytes ++ be16 (len topic) ++ topic ++ rest.

Definition kv_verify (t : SignedKvTopic) (bytes : list Z) : Res VerifiedInner :=
  let? _ := check (bool_decide (len bytes ≤ MAX_INNER_BYTES)) "inner envelope exceeds bound" in
  let? _ := check (bool_decide (head bytes = Some 3)) "only topic-bound V3 inner envelopes are eligible" in
  let? _ := check (bool_decide (33 ≤ len bytes)) "truncated author" in
  let author_bytes := take 32 (drop 1 bytes) in
  let? '(key, rest) := take_field (drop 33 bytes) in
  let? '(signature, rest) := take_field rest in
  let? '(topic, rest) := take_field rest in
  let? _ := check (bool_decide (len key = 1952 ∧ len signature = 3309)) "invalid ML-DSA-65 shape" in
  let? _ := check (bool_decide (topic = topic_name t)) "inner topic mismatch" in
  let author := from_pubkey key in
  let? _ := check (bool_decide (peer_bytes author = author_bytes ∧ author ∈ authors t)) "unknown or mismatched inner author" in
  let? _ := check (bool_decide (len topic ≤ 65535)) "out of range integral type conversion attempted" in
  match verify key (signed_bytes author_bytes topic rest) signature with
  | None => Err "signature verification failed"
  | Some valid =>
      let? _ := check valid "invalid inner signature" in
      Ok (mkInner author (blake3 bytes) (kv_revision t))
  end.

(** ** The journal of modern floors *)

(** What one look at the file finds; [None] when it fails. *)
Record File := mkFile { modified : Z; contents : list Z }.
Record FloorStamp := mkStamp { st_modified : Z; st_len : Z }.
#[global] Instance FloorStamp_eq_dec : EqDecision FloorStamp.
Proof. solve_decision. Defined.

Definition stamp_read (f : option File) : Res FloorStamp :=
  match f with Some f => Ok (mkStamp (modified f) (len (contents f))) | None => Err "floor journal unavailable" end.

Record ModernFloors := mkFloors { floor_peers : gset PeerId; stamp : option FloorStamp }.

Definition FLOORS_HEADER : list Z := bytes_of_string "SG-FLOORS-1" ++ [10].
Definition floor_record (p : PeerId) : list Z := peer_bytes p ++ blake3 (peer_bytes p).

Definition read_bounded (f : option File) : Res (list Z) :=
  match f with Some f => Ok (take (Z.to_nat (12 + 64 * 65536 + 1)) (contents f)) | None => Err "floor journal unavailable" end.

(** The records of the body, 64 bytes each; [n] bounds their number. *)
Fixpoint decode_records (n : nat) (body : list Z) : Res (gset PeerId) :=
  match n with
  | O => Ok ∅
  | S n =>
      if bool_decide (body = []) then Ok ∅ else
      let record := take 64 body in
      let? _ := check (bool_decide (blake3 (take 32 record) = drop 32 record)) "corrupt floor record" in
      let? peers := decode_records n (drop 64 body) in
      Ok ({[mkPeerId (take 32 record)]} ∪ peers)
  end.

Definition floors_decode (bytes : list Z) : Res (gset PeerId) :=
  match strip_prefix FLOORS_HEADER bytes with
  | None => Err "invalid floor journal"
  | Some body =>
      let? _ := check (bool_decide (len body mod 64 = 0 ∧ len body ≤ 64 * MAX_FLOORS)) "invalid floor records" in
      decode_records (length body / 64) body
  end.

(** Three looks at the file: its metadata, its bytes, its metadata again. *)
Record Looks := mkLooks { look1 : option File; look2 : option File; look3 : option File }.

Definition refresh (f : ModernFloors) (l : Looks) : ModernFloors * Res () :=
  match stamp_read (look1 l) with
  | Err e => (f, Err e)
  | Ok st =>
    if bool_decide (stamp f = Some st) then (f, Ok ()) else
    match (let? bytes := read_bounded (look2 l) in let? disk := floors_decode bytes in
           let? st' := stamp_read (look3 l) in
           let? _ := check (bool_decide (st' = st)) "floor journal changed during read" in
           let? _ := check (bool_decide (floor_peers f ⊆ disk)) "floor journal rolled back" in Ok disk) with
    | Err e => (f, Err e)
    | Ok disk => (mkFloors disk (Some st), Ok ())
    end
  end.

Definition floors_open (l : Looks) : Res ModernFloors :=
  match refresh (mkFloors ∅ None) l with (f, Ok _) => Ok f | (_, Err e) => Err e end.

(** The outcome of opening the journal, and of the write with its
    synchronisation. *)
Record AppendIo := mkAppend { can_open : bool; can_write : bool }.

(** The file must not exist ([create_new]).  [torn] is what a failed write
    leaves; [dir_synced] the outcome of synchronising the directory. *)
Definition initialize (on_disk : option (list Z)) (io : AppendIo) (torn : list Z) (dir_synced : bool) (l : Looks) : option (list Z) * Res ModernFloors :=
  match on_disk with
  | Some bytes => (Some bytes, Err "file exists")
  | None =>
      if negb (can_open io) then (None, Err "floor journal unavailable") else
      if negb (can_write io) then (Some torn, Err "floor journal write failed") else
      if negb dir_synced then (Some FLOORS_HEADER, Err "directory sync failed") else
      (Some FLOORS_HEADER, floors_open l)
  end.

(** The bytes appended are [floor_record peer] when the result says so. *)
Definition floors_require_v2 (f : ModernFloors) (p : PeerId) (l : Looks) (io : AppendIo) : ModernFloors * option (list Z) * Res () :=
  match refresh f l with
  | (f, Err e) => (f, None, Err e)
  | (f, Ok _) =>
    if bool_decide (p ∈ floor_peers f) then (f, None, Ok ()) else
    if negb (bool_decide (Z.of_nat (size (floor_peers f)) < MAX_FLOORS)) then (f, None, Err "floor journal full") else
    if negb (can_open io) then (f, None, Err "floor journal unavailable") else
    let f := mkFloors (floor_peers f) None in
    if negb (can_write io) then (f, None, Err "floor journal write failed") else
    (mkFloors ({[p]} ∪ floor_peers f) None, Some (floor_record p), Ok ())
  end.

(** ** The policy *)

Record LegacyGrant := mkGrant {
  g_peer : PeerId;
  g_topic : TopicId;
  g_receiver : list Z;
  verifier_revision : Z;
  g_revision : Z;
  issuer : list Z;
  reason : list Z;
  expires : Z;
}.

Record BoundGrant := mkBound { b_grant : LegacyGrant; deadline : Z; b_session : AuthenticatedSession }.

Inductive MStat :=
| legacy_egress (kind : Z) | legacy_ingress (kind : Z) | denied_legacy | expired_grants | revoked_grants
| v2_payload_mismatches | invalid_inner | variant_signatures.
#[global] Instance MStat_eq_dec : EqDecision MStat.
Proof. solve_decision. Defined.

Definition MigrationStats : Type := MStat → Z.
Definition mcount (st : MigrationStats) (f : MStat) : MigrationStats := λ g, if decide (g = f) then u64_sat_add (st f) 1 else st g.

Record State := mkMigration {
  topics : gmap TopicId SignedKvTopic;
  grants : gmap (PeerId * TopicId) BoundGrant;
  revisions : gmap (PeerId * TopicId) Z;
  floors : option ModernFloors;
  floor_failed : bool;
  reject_v1 : bool;
  last_wall : option Z;
  control_window : option Z;
  control_spent : Z;
  response_window : option Z;
  response_bytes : Z;
  variants : gmap (list Z * Z) (list Z);
  variant_bytes : Z;
  mstats : MigrationStats;
}.

Definition migration_default : State := mkMigration ∅ ∅ ∅ None false false None None 0 None 0 ∅ 0 (λ _, 0).

Definition set_topics (s : State) (x : gmap TopicId SignedKvTopic) : State :=
  mkMigration x (grants s) (revisions s) (floors s) (floor_failed s) (reject_v1 s) (last_wall s) (control_window s) (control_spent s)
    (response_window s) (response_bytes s) (variants s) (variant_bytes s) (mstats s).
Definition set_grants (s : State) (x : gmap (PeerId * TopicId) BoundGrant) : State :=
  mkMigration (topics s) x (revisions s) (floors s) (floor_failed s) (reject_v1 s) (last_wall s) (control_window s) (control_spent s)
    (response_window s) (response_bytes s) (variants s) (variant_bytes s) (mstats s).
Definition set_revisions (s : State) (x : gmap (PeerId * TopicId) Z) : State :=
  mkMigration (topics s) (grants s) x (floors s) (floor_failed s) (reject_v1 s) (last_wall s) (control_window s) (control_spent s)
    (response_window s) (response_bytes s) (variants s) (variant_bytes s) (mstats s).
Definition set_floors (s : State) (x : option ModernFloors) (failed : bool) : State :=
  mkMigration (topics s) (grants s) (revisions s) x failed (reject_v1 s) (last_wall s) (control_window s) (control_spent s)
    (response_window s) (response_bytes s) (variants s) (variant_bytes s) (mstats s).
Definition set_reject (s : State) (x : bool) : State :=
  mkMigration (topics s) (grants s) (revisions s) (floors s) (floor_failed s) x (last_wall s) (control_window s) (control_spent s)
    (response_window s) (response_bytes s) (variants s) (variant_bytes s) (mstats s).
Definition set_wall (s : State) (x : option Z) : State :=
  mkMigration (topics s) (grants s) (revisions s) (floors s) (floor_failed s) (reject_v1 s) x (control_window s) (control_spent s)
    (response_window s) (response_bytes s) (variants s) (variant_bytes s) (mstats s).
Definition set_control (s : State) (w : option Z) (x : Z) : State :=
  mkMigration (topics s) (grants s) (revisions s) (floors s) (floor_failed s) (reject_v1 s) (last_wall s) w x
    (response_window s) (response_bytes s) (variants s) (variant_bytes s) (mstats s).
Definition set_response (s : State) (w : option Z) (x : Z) : State :=
  mkMigration (topics s) (grants s) (revisions s) (floors s) (floor_failed s) (reject_v1 s) (last_wall s) (control_window s) (control_spent s)
    w x (variants s) (variant_bytes s) (mstats s).
Definition set_variants (s : State) (x : gmap (list Z * Z) (list Z)) (n : Z) : State :=
  mkMigration (topics s) (grants s) (revisions s) (floors s) (floor_failed s) (reject_v1 s) (last_wall s) (control_window s) (control_spent s)
    (response_window s) (response_bytes s) x n (mstats s).
Definition count (s : State) (f : MStat) : State :=
  mkMigration (topics s) (grants s) (revisions s) (floors s) (floor_failed s) (reject_v1 s) (last_wall s) (control_window s) (control_spent s)
    (response_window s) (response_bytes s) (variants s) (variant_bytes s) (mcount (mstats s) f).

Definition registered (s : State) (t : TopicId) : bool := bool_decide (is_Some (topics s !! t)).

(** ** Configuration *)

Definition install_floors (s : State) (f : ModernFloors) : State * Res () :=
  match check (bool_decide (floors s = None) && negb (floor_failed s)) "floor store already initialized or failed" with
  | Err e => (s, Err e)
  | Ok _ => (set_floors s (Some f) (floor_failed s), Ok ())
  end.

Definition register (s : State) (t : SignedKvTopic) : State * Res () :=
  let id := kv_topic t in
  match (let? _ := check (bool_decide (id ≠ control_topic)) "reserved key-cache topic cannot be registered" in
         match topics s !! id with
         | Some old => check (bool_decide (kv_revision old < kv_revision t)) "verifier revision replay"
         | None => check (bool_decide (size (topics s) < MAX_TOPICS)%nat) "topic registry full"
         end) with
  | Err e => (s, Err e)
  | Ok _ =>
      let s := set_grants s (filter (λ kv, kv.1.2 ≠ id) (grants s)) in
      let s := set_variants s ∅ 0 in
      (set_topics s (<[id := t]> (topics s)), Ok ())
  end.

Definition require_v2 (s : State) (p : PeerId) (l : Looks) (io : AppendIo) : State * option (list Z) * Res () :=
  match floors s with
  | None => (s, None, Err "floor storage missing")
  | Some f =>
      let '(f, appended, r) := floors_require_v2 f p l io in
      let s := set_floors s (Some f) (match r with Err _ => true | Ok _ => floor_failed s end) in
      (set_grants s (filter (λ kv, kv.1.1 ≠ p) (grants s)), appended, r)
  end.

Definition check_clock (s : State) (now : Z) : State * Res () :=
  if match last_wall s with Some last => bool_decide (now < last) | None => false end
  then (set_grants s ∅, Err "clock rollback invalidated grants") else (set_wall s (Some now), Ok ()).

Definition check_floors (s : State) (l : Looks) : State * Res () :=
  if floor_failed s then (s, Err "floor storage failed") else
  match floors s with
  | None => (s, Err "floor storage uninitialized")
  | Some f =>
      match refresh f l with
      | (f, Ok _) => (set_floors s (Some f) (floor_failed s), Ok ())
      | (f, Err e) => (set_grants (set_floors s (Some f) true) ∅, Err e)
      end
  end.

Definition floored (s : State) (p : PeerId) : bool := match floors s with Some f => bool_decide (p ∈ floor_peers f) | None => false end.

(** The latest [Instant] that can be represented. *)
Definition INSTANT_MAX : Z := 9223372036854775807 * NANOS_PER_SEC + 999999999.
Definition DAY : Z := 86400 * NANOS_PER_SEC.

Definition grant_checks (s : State) (g : LegacyGrant) (session : AuthenticatedSession) : Res () :=
  let? _ := check (negb (reject_v1 s)) "bidirectional legacy service conflicts with RejectV1" in
  let? _ := check (bool_decide (g_receiver g = AUDITED_RECEIVER)) "unaudited receiver" in
  let? _ := check (bool_decide (g_peer g = peer session)) "session peer mismatch" in
  let? _ := check (bool_decide (issuer g ≠ [] ∧ len (issuer g) ≤ 128 ∧ reason g ≠ [] ∧ len (reason g) ≤ 256)) "invalid grant attribution" in
  match topics s !! g_topic g with
  | None => Err "unregistered topic"
  | Some policy => check (bool_decide (kv_revision policy = verifier_revision g)) "verifier mismatch"
  end.

(** [wall1] is read by [check_clock], [wall2] and [now] when the lifetime is
    converted. *)
Definition grant (s : State) (g : LegacyGrant) (session : AuthenticatedSession) (wall1 : Z) (l : Looks) (wall2 now : Z) : State * Res () :=
  match grant_checks s g session with
  | Err e => (s, Err e)
  | Ok _ =>
    match check_clock s wall1 with
    | (s, Err e) => (s, Err e)
    | (s, Ok _) =>
      match check_floors s l with
      | (s, Err e) => (s, Err e)
      | (s, Ok _) =>
        let key := (g_peer g, g_topic g) in
        match (let? _ := check (negb (floored s (g_peer g))) "V2Required floor conflict" in
               let? _ := check (bool_decide (default 0 (revisions s !! key) < g_revision g)) "grant revision replay" in
               let? _ := check (bool_decide (is_Some (revisions s !! key) ∨ (size (revisions s) < MAX_GRANTS)%nat)) "grant inventory full" in
               let? _ := check (bool_decide (wall2 ≤ expires g)) "second time provided was later than self" in
               let remaining := expires g - wall2 in
               let? _ := check (bool_decide (remaining ≠ 0 ∧ remaining ≤ DAY)) "grant lifetime must be at most 24 hours" in
               let? _ := check (bool_decide (now + remaining ≤ INSTANT_MAX)) "deadline overflow" in Ok (now + remaining)) with
        | Err e => (s, Err e)
        | Ok deadline =>
            let s := set_revisions s (<[key := g_revision g]> (revisions s)) in
            (set_grants s (<[key := mkBound g deadline session]> (grants s)), Ok ())
        end
      end
    end
  end.

Definition revoke (s : State) (p : PeerId) (t : TopicId) (rev : Z) : State * Res () :=
  let key := (p, t) in
  match (let? _ := check (bool_decide (default 0 (revisions s !! key) < rev)) "revocation revision replay" in
         check (bool_decide (is_Some (revisions s !! key) ∨ (size (revisions s) < MAX_GRANTS)%nat)) "grant inventory full") with
  | Err e => (s, Err e)
  | Ok _ =>
      let s := set_revisions s (<[key := rev]> (revisions s)) in
      (count (set_grants s (delete key (grants s))) revoked_grants, Ok ())
  end.

Definition record_payload_mismatch (s : State) : State := count s v2_payload_mismatches.

Definition set_signature_policy (s : State) (policy : SignaturePolicy) : State :=
  let reject := bool_decide (policy = RejectV1) in
  let s := set_reject s reject in
  if reject then set_grants s ∅ else s.

(** ** Admission *)

Definition verify_inner (s : State) (t : TopicId) (payload : list Z) : State * Res (option VerifiedInner) :=
  match topics s !! t with
  | None => (s, Ok None)
  | Some policy =>
      match kv_verify policy payload with
      | Ok v => (s, Ok (Some v))
      | Err e => (count s invalid_inner, Err e)
      end
  end.

(** A window of one second: [since] is its start. *)
Definition window_over (since : option Z) (now : Z) : bool :=
  match since with Some start => bool_decide (NANOS_PER_SEC ≤ elapsed_ns now start) | None => true end.

Definition admit_cache_serve (s : State) (t : TopicId) (bytes now : Z) : State * Res () :=
  if negb (registered s t) then (s, Ok ()) else
  let s := if window_over (response_window s) now then set_response s (Some now) 0 else s in
  if negb (bool_decide (bytes ≤ u64_sub MAX_RESPONSE_BYTES (response_bytes s))) then (s, Err "migration cache-serve byte rate exceeded") else
  (set_response s (response_window s) (u64_add (response_bytes s) bytes), Ok ()).

(** The readings of one admission: the clocks before the expiry check, the wall
    clock of [check_clock], the clocks of the final check, the journal. *)
Record Readings := mkReadings {
  now1 : Z; wall1 : Z;
  wall2 : Z;
  now3 : Z; wall3 : Z;
  looks : Looks;
}.

Definition drop_expired (s : State) (key : PeerId * TopicId) (r : Readings) : State :=
  match grants s !! key with
  | Some g =>
      if bool_decide (deadline g ≤ now1 r ∨ expires (b_grant g) ≤ wall1 r)
      then count (set_grants s (delete key (grants s))) expired_grants else s
  | None => s
  end.

Definition grant_valid (s : State) (t : TopicId) (session : AuthenticatedSession) (r : Readings) : bool :=
  match grants s !! (peer session, t) with
  | Some g =>
      bool_decide (b_session g = session ∧ now3 r < deadline g ∧ wall3 r < expires (b_grant g)) &&
      match topics s !! t with Some p => bool_decide (kv_revision p = verifier_revision (b_grant g)) | None => false end
  | None => false
  end.

(** The conjunction in [permitted], left to right. *)
Definition permitted_checks (s : State) (t : TopicId) (session : AuthenticatedSession) (r : Readings) : State * bool :=
  if reject_v1 s then (s, false) else
  match check_clock s (wall2 r) with
  | (s, Err _) => (s, false)
  | (s, Ok _) =>
    if negb (grant_valid s t session r) then (s, false) else
    match check_floors s (looks r) with
    | (s, Err _) => (s, false)
    | (s, Ok _) => (s, negb (floored s (peer session)))
    end
  end.

Definition permitted (s : State) (t : TopicId) (session : AuthenticatedSession) (r : Readings) : State * bool :=
  let s := drop_expired s (peer session, t) r in
  let '(s, valid) := permitted_checks s t session r in
  (if valid then s else count s denied_legacy, valid).

Definition kind_index (k : MessageKind) : Res Z :=
  match k with
  | Eager => Ok 0
  | IHave => Ok 1
  | IWant => Ok 2
  | AntiEntropy => Ok 3
  | _ => Err "message kind outside migration scope"
  end.

Definition control_work (m : GossipMessage) : Res Z :=
  let? k := kind_index (kind (gm_header m)) in
  let? _ := check (bool_decide (k ≠ 0)) "expected control" in
  match gm_payload m with
  | None => Err "missing control payload"
  | Some payload =>
    let? _ := check (bool_decide (len payload ≤ MAX_CONTROL_BYTES)) "control payload too large" in
    let? list :=
      (if bool_decide (k = 3) then
        let? _ := check (bool_decide (head payload = Some 0 ∨ head payload = Some 1)) "unknown anti-entropy variant" in Ok (drop 1 payload)
       else Ok payload) in
    match get_u32 list with
    | None => Err "malformed count"
    | Some (n, ids) =>
        let? _ := check (bool_decide (n ≤ MAX_CONTROL_IDS ∧ len ids = n * 32)) "malformed or oversized control list" in
        Ok (Z.max n 1)
    end
  end.

(** The budget of control work, one window for all peers. *)
Definition spend_control (s : State) (work now : Z) : State * Res () :=
  let s := if window_over (control_window s) now then set_control s (Some now) 0 else s in
  if negb (bool_decide (control_spent s + work ≤ MAX_CONTROL_WORK)) then (s, Err "control work rate exceeded") else
  (set_control s (control_window s) (control_spent s + work), Ok ()).

Definition ingress (s : State) (from : PeerId) (session : option AuthenticatedSession) (m : GossipMessage) (r : Readings) (now : Z) : State * Res () :=
  let t := topic (gm_header m) in
  if negb (registered s t) then (s, Ok ()) else
  match kind_index (kind (gm_header m)) with
  | Err e => (s, Err e)
  | Ok k =>
    let legacy :=
      if bool_decide (version (gm_header m) = 1) then
        match session with
        | None => (s, Err "legacy ingress requires authenticated session provenance")
        | Some x =>
            if negb (bool_decide (peer x = from)) then (s, Err "legacy ingress denied") else
            match permitted s t x r with
            | (s, true) => (count s (legacy_ingress k), Ok ())
            | (s, false) => (s, Err "legacy ingress denied")
            end
        end
      else (s, Ok ()) in
    match legacy with
    | (s, Err e) => (s, Err e)
    | (s, Ok _) =>
      if bool_decide (k = 0) then (s, Ok ()) else
      if negb (match session with Some x => bool_decide (peer x = from) | None => false end) then (s, Err "control requires adjacent session provenance") else
      if negb (bool_decide (from_pubkey (gm_public_key m) = from)) then (s, Err "control signer is not adjacent peer") else
      match control_work m with
      | Err e => (s, Err e)
      | Ok work => spend_control s work now
      end
    end
  end.

(** ** Egress *)

Definition verify_inner_if_eager (s : State) (m : GossipMessage) : State * Res () :=
  if bool_decide (kind (gm_header m) = Eager) then
    match gm_payload m with
    | None => (s, Err "missing inner payload")
    | Some p => match verify_inner s (topic (gm_header m)) p with (s, Ok _) => (s, Ok ()) | (s, Err e) => (s, Err e) end
    end
  else (s, match control_work m with Ok _ => Ok () | Err e => Err e end).

(** The message in the outer format [v], signed anew when it was in another. *)
Definition reformat (m : GossipMessage) (v : Z) (key : MlDsaKeyPair) : option GossipMessage :=
  if bool_decide (version (gm_header m) = v) then Some m else
  let h := gm_header m in
  let h := mkHeader v (topic h) (msg_id h) (kind h) (hop h) (ttl h) None in
  let h := if bool_decide (v = 2) then Header.seal_payload_hash h (gm_payload m) else h in
  signature ← sign key (serialize h);
  Some (mkGossip h (gm_payload m) signature (public_key key)).

Definition variant (s : State) (m : GossipMessage) (v : Z) (key : MlDsaKeyPair) (wire_digest : list Z) : State * Res (list Z) :=
  match variants s !! (wire_digest, v) with
  | Some bytes => (s, Ok bytes)
  | None =>
    match reformat m v key with
    | None => (s, Err "signing failed")
    | Some out =>
        let s := if bool_decide (version (gm_header m) = v) then s else count s variant_signatures in
        let bytes := put_gossip out in
        let s := if bool_decide (MAX_VARIANT_BYTES < variant_bytes s + len bytes) then set_variants s ∅ 0 else s in
        let s := if bool_decide (len bytes ≤ MAX_VARIANT_BYTES)
                 then set_variants s (<[(wire_digest, v) := bytes]> (variants s)) (variant_bytes s + len bytes) else s in
        (s, Ok bytes)
    end
  end.

Definition has_grant (s : State) (p : PeerId) (t : TopicId) : bool := bool_decide (is_Some (grants s !! (p, t))).

(** [None]: the destination stays on the legacy path. *)
Definition prepare_key_cache_egress (s : State) (live : PeerId → option AuthenticatedSession) (key : MlDsaKeyPair) (p : PeerId)
    (session : AuthenticatedSession) (bytes : list Z) (r : Readings) : State * Res (option (list Z)) :=
  match deserialize bytes with
  | None => (s, Err "malformed header")
  | Some (header, _) =>
    if negb (registered s (topic header)) then (s, Ok (Some bytes)) else
    match get_gossip bytes with
    | None => (s, Err "malformed message")
    | Some (m, trailing) =>
      if negb (bool_decide (trailing = [])) then (s, Err "trailing gossip bytes") else
      match verify_inner_if_eager s m with
      | (s, Err e) => (s, Err e)
      | (s, Ok _) =>
        let '(s, legacy) := if has_grant s p (topic header) && bool_decide (live p = Some session) then permitted s (topic header) session r else (s, false) in
        if legacy then (s, Ok None) else
        if bool_decide (version (gm_header m) = 2) then (s, Ok (Some bytes)) else
        match variant s m 2 key (blake3 bytes) with
        | (s, Ok out) => (s, Ok (Some out))
        | (s, Err e) => (s, Err e)
        end
      end
    end
  end.

Definition modern_allowed (s : State) (p : PeerId) (session : AuthenticatedSession) (t : TopicId) (r : Readings) : State * bool :=
  if negb (has_grant s p t) then (s, true) else let '(s, ok) := permitted s t session r in (s, negb ok).

(** What [send] hands to the transport: bytes, or a callback that decides when
    the connection admits them. *)
Inductive Egress := Now (bytes : list Z) | WhenAdmitted (m : GossipMessage) (wire_digest : list Z).

Definition send (s : State) (live : PeerId → option AuthenticatedSession) (me : PeerId) (key : MlDsaKeyPair) (p : PeerId) (bytes : list Z) (r : Readings) :
    State * Res Egress :=
  match deserialize bytes with
  | None => (s, Err "malformed header")
  | Some (header, _) =>
    if negb (registered s (topic header)) then (s, Ok (Now bytes)) else
    match get_gossip bytes with
    | None => (s, Err "malformed message")
    | Some (m, trailing) =>
      if negb (bool_decide (trailing = [])) then (s, Err "trailing gossip bytes") else
      match verify_inner_if_eager s m with
      | (s, Err e) => (s, Err e)
      | (s, Ok _) =>
        if negb (bool_decide (kind (gm_header m) = Eager)) && negb (bool_decide (peer_id key = me))
        then (s, Err "control signing key does not match authenticated transport identity") else
        let '(s, legacy) :=
          if has_grant s p (topic header)
          then match live p with Some session => permitted s (topic header) session r | None => (s, false) end else (s, false) in
        if legacy then (s, Ok (WhenAdmitted m (blake3 bytes))) else
        if bool_decide (version (gm_header m) = 2) then (s, Ok (Now bytes)) else
        match variant s m 2 key (blake3 bytes) with
        | (s, Ok out) => (s, Ok (Now out))
        | (s, Err e) => (s, Err e)
        end
      end
    end
  end.

(** The callback of a legacy send, on the session the connection has. *)
Definition admit_legacy (s : State) (key : MlDsaKeyPair) (p : PeerId) (m : GossipMessage) (wire_digest : list Z) (session : AuthenticatedSession) (r : Readings) :
    State * Res (list Z) :=
  let t := topic (gm_header m) in
  if negb (bool_decide (peer session = p)) then (s, Err "queued legacy send canceled") else
  match permitted s t session r with
  | (s, false) => (s, Err "queued legacy send canceled")
  | (s, true) =>
    let again :=
      if bool_decide (kind (gm_header m) = Eager) then
        match topics s !! t, gm_payload m with
        | None, _ => Err "topic removed"
        | Some _, None => Err "missing inner payload"
        | Some policy, Some payload => match kv_verify policy payload with Ok _ => Ok () | Err e => Err e end
        end
      else
        let? _ := check (bool_decide (from_pubkey (gm_public_key m) = peer_id key)) "transit control denied" in
        let? _ := control_work m in Ok () in
    match again with
    | Err e => (s, Err e)
    | Ok _ =>
      match variant s m 1 key wire_digest with
      | (s, Err e) => (s, Err e)
      | (s, Ok out) =>
        match kind_index (kind (gm_header m)) with
        | Err e => (s, Err e)
        | Ok k => (count s (legacy_egress k), Ok out)
        end
      end
    end
  end.
End Policy.

(** ** The transport that applies the policy

    [PolicyTransport] joins the migration policy and the key cache (the only
    constructor outside the tests gives it one); [live] is the inner transport's
    [authenticated_session]. *)

Section Transport.
Context `{Hashes} `{Postcard} `{MlDsa} `{!LruPut PeerId (list Z)} `{!LruPut PKey ()}.
Context `{!HashIter PKey PendingKey} `{!HashIter PeerId SessionState} `{!SetIter PeerId}.
Context (get_u32 : list Z → option (Z * list Z)) (live : PeerId → option AuthenticatedSession) (key : MlDsaKeyPair) (me : PeerId).

Record Shared := mkShared { migration : State; cache : KeyCache }.

(** The frames already encoded for one message, by content and form. *)
Notation Encoded := (gmap (list Z * bool) (list Z)).

Definition wire_bytes_for_peer_cached (x : Shared) (p : PeerId) (bytes : list Z) (priority : TopicPriority) (encoded : Encoded) (now : Z) (r : Readings) :
    Shared * Encoded * list Z :=
  if is_v3 bytes then (x, encoded, bytes) else
  match live p with
  | None => (x, encoded, bytes)
  | Some session =>
    let c := observe_session (cache x) session now in
    let x := mkShared (migration x) c in
    if negb (supports_v3 c session) then (x, encoded, bytes) else
    match prepare_key_cache_egress get_u32 (migration x) live key p session bytes r with
    | (s, Err _) | (s, Ok None) => (mkShared s c, encoded, bytes)
    | (s, Ok (Some prepared)) =>
      match get_gossip prepared with
      | None => (mkShared s c, encoded, prepared)
      | Some (m, _) =>
        if bool_decide (topic (gm_header m) = control_topic) then (mkShared s c, encoded, prepared) else
        let signer := from_pubkey (gm_public_key m) in
        let '(c, reference) := if bool_decide (priority ≠ Critical) then supports_ref c session signer else (c, false) in
        let cache_key := (blake3 prepared, reference) in
        match encoded !! cache_key with
        | Some wire => (mkShared s c, encoded, wire)
        | None =>
            let wire := match encode m reference with Ok wire => wire | Err _ => prepared end in
            (mkShared s c, <[cache_key := wire]> encoded, wire)
        end
      end
    end
  end.

(** One reading of the clocks per peer. *)
Fixpoint wire_bytes_for_peers (x : Shared) (peers : list (PeerId * Z * Readings)) (bytes : list Z) (priority : TopicPriority) (encoded : Encoded) :
    Shared * gmap PeerId (list Z) :=
  match peers with
  | [] => (x, ∅)
  | (p, now, r) :: peers =>
      let '(x, encoded, wire) := wire_bytes_for_peer_cached x p bytes priority encoded now r in
      let '(x, rest) := wire_bytes_for_peers x peers bytes priority encoded in
      (x, match rest !! p with Some _ => rest | None => <[p := wire]> rest end)
  end.

(** [record_legacy_full_outbound]: only well-formed frames outside the reserved
    topic count. *)
Definition record_legacy_full_outbound (c : KeyCache) (bytes : list Z) : KeyCache :=
  match inspect_header bytes with Ok (_, false) => record_outbound c false (len bytes) | _ => c end.

Inductive Sending :=
| Direct (bytes : list Z)
| GuardedV3 (session : AuthenticatedSession) (t : TopicId) (bytes : list Z)
| GuardedLegacy (m : GossipMessage) (wire_digest : list Z).

Definition send_to_peer (x : Shared) (p : PeerId) (bytes : list Z) (r : Readings) : Shared * Res Sending :=
  if is_v3 bytes then
    match live p with
    | None => (x, Err "v3 send requires authenticated session")
    | Some session =>
      match decode bytes with
      | Err _ => (x, Err "malformed v3 frame")
      | Ok d =>
        let '(t, signer, reference) :=
          match d with DecodedFull m id => (topic (gm_header m), id, false) | DecodedRef m id => (topic (gm_header m), id, true) end in
        if negb (supports_v3 (cache x) session) then (x, Err "v3 capability expired before send") else
        let '(c, known) := if reference then supports_ref (cache x) session signer else (cache x, true) in
        if negb known then (mkShared (migration x) c, Err "key acknowledgement expired before send") else
        (mkShared (migration x) (record_outbound c reference (len bytes)), Ok (GuardedV3 session t bytes))
      end
    end
  else if bool_decide (topics (migration x) = ∅) then (mkShared (migration x) (record_legacy_full_outbound (cache x) bytes), Ok (Direct bytes))
  else
    match send get_u32 (migration x) live me key p bytes r with
    | (s, Err e) => (mkShared s (cache x), Err e)
    | (s, Ok (Now out)) => (mkShared s (record_legacy_full_outbound (cache x) out), Ok (Direct out))
    | (s, Ok (WhenAdmitted m d)) => (mkShared s (cache x), Ok (GuardedLegacy m d))
    end.

(** The callback of a legacy send, with its count in the key cache. *)
Definition admit_guarded_legacy (x : Shared) (p : PeerId) (m : GossipMessage) (wire_digest : list Z) (session : AuthenticatedSession) (r : Readings) :
    Shared * Res (list Z) :=
  match admit_legacy get_u32 (migration x) key p m wire_digest session r with
  | (s, Ok out) => (mkShared s (record_legacy_full_outbound (cache x) out), Ok out)
  | (s, Err e) => (mkShared s (cache x), Err e)
  end.

(** The callback of [send_v3_guarded], on the session the connection has. *)
Definition admit_v3 (s : State) (p : PeerId) (session actual : AuthenticatedSession) (t : TopicId) (bytes : list Z) (r : Readings) : State * Res (list Z) :=
  if negb (bool_decide (actual = session)) then (s, Err "key-cache session changed before send") else
  if negb (registered s t) then (s, Ok bytes) else
  match modern_allowed s p actual t r with
  | (s, true) => (s, Ok bytes)
  | (s, false) => (s, Err "legacy grant became active before key-cache send")
  end.
End Transport.
End Compat.
