(* ===== verification/CompatProps.v ===== *)
(** * Migration of legacy senders: the properties

    Every operation on the policy as a logged step; what may happen while a
    grant is in force; the permanence of modern floors, in the process and in
    the journal; the bounds of the policy's state and the format of what leaves
    the node. *)

From S2P Require Import Prelude Types Identity MessageCache Plumtree KeyCodec KeyCache KeyCacheProps KeyExchange Compat.
Import Identity Plumtree KeyCodec KeyCache KeyExchange Compat.
Import MessageCache(mkInner, VerifiedInner).
Import KeyCacheProps(msum, msum_insert, msum_delete).

#[local] Open Scope Z_scope.

Module CompatProps.

Section Policy.
Context `{Hashes} `{Postcard} `{MlDsa}.
Context (get_u32 : list Z → option (Z * list Z)) (key : MlDsaKeyPair).

(** ** Steps *)

Inductive MOp :=
| MInstall (f : ModernFloors)
| MRegister (t : SignedKvTopic)
| MRequire (p : PeerId) (l : Looks) (io : AppendIo)
| MGrant (g : LegacyGrant) (session : AuthenticatedSession) (w1 : Z) (l : Looks) (w2 now : Z)
| MRevoke (p : PeerId) (t : TopicId) (rev : Z)
| MPolicy (policy : SignaturePolicy)
| MPermit (t : TopicId) (session : AuthenticatedSession) (r : Readings)
| MVariant (bytes : list Z) (v : Z)
| MServe (t : TopicId) (frame : list Z) (now : Z)
| MControl (m : GossipMessage) (now : Z)
| MStatistic (f : MStat).

Definition mexec (s : State) (o : MOp) : State * bool :=
  match o with
  | MInstall f => let '(s, r) := install_floors s f in (s, is_ok r)
  | MRegister t => let '(s, r) := register s t in (s, is_ok r)
  | MRequire p l io => let '(s, _, r) := require_v2 s p l io in (s, is_ok r)
  | MGrant g session w1 l w2 now => let '(s, r) := grant s g session w1 l w2 now in (s, is_ok r)
  | MRevoke p t rev => let '(s, r) := revoke s p t rev in (s, is_ok r)
  | MPolicy policy => (set_signature_policy s policy, true)
  | MPermit t session r => permitted s t session r
  | MVariant bytes v =>
      match get_gossip bytes with
      | Some (m, []) => let '(s, r) := variant s m v key (blake3 bytes) in (s, is_ok r)
      | _ => (s, false)
      end
  | MServe t frame now => let '(s, r) := admit_cache_serve s t (len frame) now in (s, is_ok r)
  | MControl m now =>
      match control_work get_u32 m with
      | Ok work => let '(s, r) := spend_control s work now in (s, is_ok r)
      | Err _ => (s, false)
      end
  | MStatistic f => (count s f, true)
  end.

(** The operations that ran, with whether they succeeded. *)
Notation Log := (list (MOp * bool)).
Fixpoint mrun (s : State) (os : list MOp) : State * Log :=
  match os with
  | [] => (s, [])
  | o :: os => let '(s, ok) := mexec s o in let '(s, log) := mrun s os in (s, (o, ok) :: log)
  end.

Lemma mrun_snoc (os : list MOp) (o : MOp) (s : State) :
  mrun s (os ++ [o]) = ((mexec (mrun s os).1 o).1, (mrun s os).2 ++ [(o, (mexec (mrun s os).1 o).2)]).
Proof.
  revert s. induction os as [|o' os IH]; intros s; cbn; [by destruct (mexec s o)|]. destruct (mexec s o') as [s1 ok]. rewrite IH. by destruct (mrun s1 os).
Qed.

(** ** Grants *)

(** A logged step that voids the grants of [k]. *)
Definition voids (k : PeerId * TopicId) (e : MOp * bool) : Prop :=
  match e with
  | (MRegister t, true) => kv_topic t = k.2
  | (MRequire p _ _, true) => p = k.1
  | (MRevoke p t _, true) => (p, t) = k
  | (MPolicy RejectV1, _) => True
  | (MGrant g _ _ _ _ _, true) => (g_peer g, g_topic g) = k
  | _ => False
  end.

Lemma check_clock_grants (s : State) (now : Z) : grants (check_clock s now).1 ⊆ grants s.
Proof. unfold check_clock. case_match; [apply map_empty_subseteq|done]. Qed.
Lemma check_floors_grants (s : State) (l : Looks) : grants (check_floors s l).1 ⊆ grants s.
Proof.
  unfold check_floors. destruct (floor_failed s); [done|]. destruct (floors s); [|done]. destruct (refresh _ _) as [f []]; [done|apply map_empty_subseteq].
Qed.
Lemma drop_expired_grants (s : State) (k : PeerId * TopicId) (r : Readings) : grants (drop_expired s k r) ⊆ grants s.
Proof. unfold drop_expired. destruct (grants s !! k); [|done]. case_bool_decide; [|done]. apply delete_subseteq. Qed.

Lemma permitted_grants (s : State) (t : TopicId) (session : AuthenticatedSession) (r : Readings) : grants (permitted s t session r).1 ⊆ grants s.
Proof.
  unfold permitted. etrans; [|apply (drop_expired_grants s (peer session, t) r)]. set (s1 := drop_expired _ _ _).
  assert (Hp : grants (permitted_checks s1 t session r).1 ⊆ grants s1).
  { unfold permitted_checks. destruct (reject_v1 s1); [done|]. pose proof (check_clock_grants s1 (wall2 r)) as Hc. destruct (check_clock s1 (wall2 r)) as [s2 []]; [|done].
    cbn [fst] in Hc. destruct (grant_valid s2 t session r); [|done]. etrans; [|exact Hc]. cbn [negb].
    pose proof (check_floors_grants s2 (looks r)) as Hf. by destruct (check_floors s2 (looks r)) as [s3 []]. }
  by destruct (permitted_checks s1 t session r) as [s2 []].
Qed.

Lemma variant_grants (s : State) (m : GossipMessage) (v : Z) (d : list Z) : grants (variant s m v key d).1 = grants s.
Proof.
  unfold variant. destruct (variants s !! (d, v)); [done|]. destruct (reformat m v key); [|done]. cbv zeta. by repeat case_bool_decide.
Qed.

(** A grant in force was issued by a logged [MGrant] that nothing voided since;
    what it records of that step. *)
Definition issued (k : PeerId * TopicId) (b : BoundGrant) (e : MOp * bool) : Prop :=
  ∃ session w1 l w2 now, e = (MGrant (b_grant b) session w1 l w2 now, true) ∧ k = (g_peer (b_grant b), g_topic (b_grant b)) ∧
    b_session b = session ∧ peer session = k.1 ∧ deadline b = now + (expires (b_grant b) - w2) ∧ 0 < expires (b_grant b) - w2 ≤ DAY.

Lemma grant_effect (s : State) (g : LegacyGrant) (session : AuthenticatedSession) (w1 : Z) (l : Looks) (w2 now : Z) (k : PeerId * TopicId) (b : BoundGrant) :
  grants (grant s g session w1 l w2 now).1 !! k = Some b →
  (grants s !! k = Some b ∧ ¬ (is_ok (grant s g session w1 l w2 now).2 = true ∧ (g_peer g, g_topic g) = k)) ∨
  issued k b (MGrant g session w1 l w2 now, is_ok (grant s g session w1 l w2 now).2).
Proof.
  assert (Hno : ∀ s', grants s' ⊆ grants s → grants s' !! k = Some b → (grants s !! k = Some b ∧ ¬ (false = true ∧ (g_peer g, g_topic g) = k)) ∨
    issued k b (MGrant g session w1 l w2 now, false)).
  { intros s' Hs Hb. left. split; [by eapply lookup_weaken|]. by intros []. }
  unfold grant. destruct (grant_checks s g session) eqn:Hgc; [|by apply (Hno s)].
  assert (Hpeer : g_peer g = peer session).
  { unfold grant_checks in Hgc. destruct (negb (reject_v1 s)); [|done]. cbn [check result_bind] in Hgc. case_bool_decide; [|done]. cbn [check result_bind] in Hgc.
    case_bool_decide as Hp; [exact Hp|done]. }
  pose proof (check_clock_grants s w1) as Hc. destruct (check_clock s w1) as [s1 []]; cbn [fst] in Hc; [|by apply (Hno s1)].
  pose proof (check_floors_grants s1 l) as Hf. destruct (check_floors s1 l) as [s2 []]; cbn [fst] in Hf; assert (Hold : grants s2 ⊆ grants s) by (by etrans); [|by apply (Hno s2)].
  destruct (negb (floored s2 (g_peer g))); [|by apply (Hno s2)]. cbn [check result_bind].
  do 2 (case_bool_decide; [|by apply (Hno s2)]; cbn [check result_bind]). case_bool_decide as Hlate; [|by apply (Hno s2)]. cbn [check result_bind].
  case_bool_decide as Hlife; [|by apply (Hno s2)]. cbn [check result_bind]. case_bool_decide; [|by apply (Hno s2)].
  cbn [check result_bind fst snd is_ok grants set_grants set_revisions]. intros Hb. destruct (decide (k = (g_peer g, g_topic g))) as [->|Hne].
  - rewrite lookup_insert_eq in Hb. injection Hb as <-. right. exists session, w1, l, w2, now. cbn. split_and!; try done; lia.
  - rewrite lookup_insert_ne in Hb by done. left. split; [by eapply lookup_weaken|]. intros [_ Heq]. congruence.
Qed.

Lemma grants_step (s : State) (o : MOp) (k : PeerId * TopicId) (b : BoundGrant) :
  grants (mexec s o).1 !! k = Some b →
  (grants s !! k = Some b ∧ ¬ voids k (o, (mexec s o).2)) ∨ issued k b (o, (mexec s o).2).
Proof.
  assert (Hsub : ∀ s', grants s' ⊆ grants s → grants s' !! k = Some b → grants s !! k = Some b) by (intros s' Hs Hb; by eapply lookup_weaken).
  destruct o; cbn [mexec].
  - unfold install_floors. destruct (check _ _); cbn; intros Hb; left; (split; [done|tauto]).
  - unfold register. set (r := let? _ := _ in _). destruct r as [u|e]; cbn [is_ok fst snd].
    + cbn. rewrite map_lookup_filter_Some. cbn. intros [Hb Hne]. left. split; [done|]. congruence.
    + intros Hb. left. split; [done|cbn; tauto].
  - unfold require_v2. destruct (floors s) as [f|]; [|intros Hb; left; split; [done|cbn; tauto]]. destruct (floors_require_v2 f p l io) as [[f' app] r]. cbn.
    rewrite map_lookup_filter_Some. cbn. intros [Hb Hne]. left. split; [done|]. destruct (is_ok r); congruence.
  - intros Hb. pose proof (grant_effect s g session w1 l w2 now k b) as Hg. destruct (grant s g session w1 l w2 now) as [s' r]. cbn [fst snd] in *.
    destruct (Hg Hb) as [[Hb' Hne]|Hi]; [left|by right]. split; [done|]. cbn. destruct (is_ok r) eqn:Hr; [|tauto]. intros Heq. by apply Hne.
  - unfold revoke. set (r := let? _ := _ in _). destruct r as [u|e]; cbn [is_ok fst snd].
    + cbn. rewrite lookup_delete_Some. intros [Hne Hb]. left. split; [done|congruence].
    + intros Hb. left. split; [done|cbn; tauto].
  - unfold set_signature_policy. destruct policy; cbn; intros Hb; [left; split; [done|tauto]|done].
  - intros Hb. left. split; [eapply Hsub; [apply permitted_grants|exact Hb]|cbn; tauto].
  - intros Hb. left. split; [|cbn; tauto]. destruct (get_gossip bytes) as [[m [|]]|]; try done.
    pose proof (variant_grants s m v (blake3 bytes)) as Hv. destruct (variant s m v key (blake3 bytes)) as [s' r]. cbn [fst] in *. by rewrite <-Hv.
  - unfold admit_cache_serve. intros Hb. left. split; [|cbn; tauto]. destruct (registered s t); cbn [negb] in Hb; [|done].
    destruct (window_over _ _); cbn in Hb; by case_bool_decide.
  - intros Hb. left. split; [|cbn; tauto]. destruct (control_work get_u32 m); [|done]. unfold spend_control in Hb. destruct (window_over _ _); cbn in Hb; by case_bool_decide.
  - intros Hb. left. split; [done|cbn; tauto].
Qed.

(** The grant [b] of [k] was issued in the log, and nothing voided it since. *)
Definition in_force (k : PeerId * TopicId) (b : BoundGrant) (log : list (MOp * bool)) : Prop :=
  ∃ pre e post, log = pre ++ e :: post ∧ issued k b e ∧ Forall (λ e, ¬ voids k e) post.

Lemma grants_in_force (os : list MOp) (k : PeerId * TopicId) (b : BoundGrant) :
  grants (mrun migration_default os).1 !! k = Some b → in_force k b (mrun migration_default os).2.
Proof.
  induction os as [|o os IH] using rev_ind; [done|]. rewrite mrun_snoc. cbn [fst snd]. intros Hb.
  destruct (grants_step _ o k b Hb) as [[Hb' Hv]|Hi].
  - destruct (IH Hb') as (pre & e & post & -> & He & Hpost). exists pre, e, (post ++ [(o, (mexec (mrun migration_default os).1 o).2)]).
    rewrite <-app_assoc. split_and!; [done|done|]. apply Forall_app. by split; [|constructor].
  - exists (mrun migration_default os).2, (o, (mexec (mrun migration_default os).1 o).2), []. by split_and!.
Qed.

(** ** Modern floors *)

Lemma refresh_mono (f : ModernFloors) (l : Looks) : floor_peers f ⊆ floor_peers (refresh f l).1.
Proof.
  unfold refresh. destruct (stamp_read (look1 l)) as [st|]; [|done]. destruct (bool_decide (stamp f = Some st)); [done|].
  destruct (read_bounded _) as [bytes|]; [|done]. cbn [result_bind]. destruct (floors_decode bytes) as [disk|]; [|done]. cbn [result_bind].
  destruct (stamp_read (look3 l)) as [st'|]; [|done]. cbn [result_bind]. destruct (bool_decide (st' = st)); [|done]. cbn [check result_bind].
  case_bool_decide; [|done]. done.
Qed.

Lemma check_floors_mono (s : State) (l : Looks) (p : PeerId) : floored s p = true → floored (check_floors s l).1 p = true.
Proof.
  unfold check_floors, floored. destruct (floor_failed s); [done|]. destruct (floors s) as [f|] eqn:Hf; [|done].
  pose proof (refresh_mono f l) as Hm. destruct (refresh f l) as [f' []]; cbn; rewrite !bool_decide_eq_true; set_solver.
Qed.

Lemma permitted_true (s : State) (t : TopicId) (session : AuthenticatedSession) (r : Readings) :
  (permitted s t session r).2 = true →
  ∃ b, grants s !! (peer session, t) = Some b ∧ b_session b = session ∧
    now1 r < deadline b ∧ wall1 r < expires (b_grant b) ∧ now3 r < deadline b ∧ wall3 r < expires (b_grant b) ∧
    reject_v1 s = false ∧ floored s (peer session) = false.
Proof.
  unfold permitted. set (k := (peer session, t)). set (s1 := drop_expired s k r).
  assert (Hs1 : (grants s1 !! k = grants s !! k ∧ ∀ b, grants s !! k = Some b → now1 r < deadline b ∧ wall1 r < expires (b_grant b)) ∨ grants s1 !! k = None).
  { unfold s1, drop_expired. destruct (grants s !! k) as [b|] eqn:Hb; [|left; split; [done|by intros]]. case_bool_decide; [right; apply lookup_delete_eq|].
    left. split; [done|]. intros b' [= <-]. lia. }
  assert (Hrest : reject_v1 s1 = reject_v1 s ∧ floors s1 = floors s) by (unfold s1, drop_expired; destruct (grants s !! k); [by case_bool_decide|done]).
  destruct Hrest as [Hrej Hfl]. unfold permitted_checks. destruct (reject_v1 s1) eqn:Hr1; [done|].
  destruct (check_clock s1 (wall2 r)) as [s2 [u|e]] eqn:Hclock; [|done].
  assert (Hs2 : grants s2 = grants s1 ∧ floors s2 = floors s1) by (unfold check_clock in Hclock; case_match; by simplify_eq/=). destruct Hs2 as [Hg2 Hf2].
  destruct (grant_valid s2 t session r) eqn:Hv; [|done]. cbn [negb]. unfold grant_valid in Hv. fold k in Hv. rewrite Hg2 in Hv.
  destruct (grants s1 !! k) as [b|] eqn:Hb; [|done]. apply andb_true_iff in Hv as [Hv _]. apply bool_decide_eq_true in Hv as (Hsess & Hn3 & Hw3).
  destruct (check_floors s2 (looks r)) as [s3 [u'|e]] eqn:Hfloor; [|done].
  destruct (floored s3 (peer session)) eqn:Hfl3; [done|]. intros _. destruct Hs1 as [[Hsame Hlive]|?]; [|done]. exists b.
  assert (Hmono : floored s (peer session) = false).
  { apply not_true_iff_false. intros Hin. apply not_true_iff_false in Hfl3. apply Hfl3. pose proof (check_floors_mono s2 (looks r) (peer session)) as Hm.
    rewrite Hfloor in Hm. apply Hm. unfold floored in *. by rewrite Hf2, Hfl. }
  assert (Hsome : grants s !! k = Some b) by by rewrite <-Hsame. destruct (Hlive b Hsome). split_and!; congruence || done.
Qed.

(** ** Floors only grow *)

Lemma check_clock_floors (s : State) (now : Z) : floors (check_clock s now).1 = floors s.
Proof. unfold check_clock. by case_match. Qed.

Lemma permitted_floored (s : State) (t : TopicId) (session : AuthenticatedSession) (r : Readings) (p : PeerId) :
  floored s p = true → floored (permitted s t session r).1 p = true.
Proof.
  intros Hp. unfold permitted. assert (Hq1 : floored (drop_expired s (peer session, t) r) p = true) by (unfold drop_expired; destruct (grants s !! _); [by case_bool_decide|done]).
  set (s1 := drop_expired _ _ _) in *. assert (Hc : floored (permitted_checks s1 t session r).1 p = true).
  { unfold permitted_checks. destruct (reject_v1 s1); [done|]. pose proof (check_clock_floors s1 (wall2 r)) as Hk. destruct (check_clock s1 (wall2 r)) as [s2 u]. cbn [fst] in Hk.
    assert (Hq2 : floored s2 p = true) by (unfold floored in *; by rewrite Hk). destruct u; [|done]. destruct (grant_valid s2 t session r); [|done]. cbn [negb].
    pose proof (check_floors_mono s2 (looks r) p Hq2). by destruct (check_floors s2 (looks r)) as [s3 []]. }
  by destruct (permitted_checks s1 t session r) as [s2 []].
Qed.

Lemma grant_floored (s : State) (g : LegacyGrant) (session : AuthenticatedSession) (w1 : Z) (l : Looks) (w2 now : Z) (p : PeerId) :
  floored s p = true → floored (grant s g session w1 l w2 now).1 p = true.
Proof.
  intros Hp. unfold grant. destruct (grant_checks s g session); [|done]. pose proof (check_clock_floors s w1) as Hk. destruct (check_clock s w1) as [s1 u]. cbn [fst] in Hk.
  assert (Hq1 : floored s1 p = true) by (unfold floored in *; by rewrite Hk). destruct u; [|done].
  pose proof (check_floors_mono s1 l p Hq1). destruct (check_floors s1 l) as [s2 []]; [|done]. by case_match.
Qed.

Lemma floors_require_mono (f : ModernFloors) (p : PeerId) (l : Looks) (io : AppendIo) :
  floor_peers f ⊆ floor_peers (floors_require_v2 f p l io).1.1 ∧
  (is_ok (floors_require_v2 f p l io).2 = true → p ∈ floor_peers (floors_require_v2 f p l io).1.1).
Proof.
  unfold floors_require_v2. pose proof (refresh_mono f l) as Hm. destruct (refresh f l) as [f1 [u|e]]; cbn [fst] in Hm; [|by split].
  destruct (bool_decide_reflect (p ∈ floor_peers f1)); [by split|]. destruct (bool_decide _); [|by split]. cbn [negb].
  destruct (can_open io); [|by split]. cbn [negb]. destruct (can_write io); [|by split]. cbn [negb fst snd floor_peers]. set_solver.
Qed.

Lemma require_floored (s : State) (p : PeerId) (l : Looks) (io : AppendIo) (q : PeerId) :
  (floored s q = true → floored (mexec s (MRequire p l io)).1 q = true) ∧ ((mexec s (MRequire p l io)).2 = true → floored (mexec s (MRequire p l io)).1 p = true).
Proof.
  cbn [mexec]. unfold require_v2, floored. destruct (floors s) as [f|] eqn:Hf; cbn [fst snd is_ok]; [|split; [by rewrite Hf|done]].
  destruct (floors_require_mono f p l io) as [Hm Hi]. destruct (floors_require_v2 f p l io) as [[f' app] r]. cbn in *. rewrite !bool_decide_eq_true. split; [set_solver|done].
Qed.

Lemma floored_step (s : State) (o : MOp) (p : PeerId) : floored s p = true → floored (mexec s o).1 p = true.
Proof.
  intros Hp. destruct o; cbn [mexec].
  - unfold install_floors. destruct (floors s) as [f0|] eqn:Hf; [|unfold floored in Hp; by rewrite Hf in Hp]. rewrite bool_decide_false by done. done.
  - unfold register. set (r := let? _ := _ in _). by destruct r.
  - by apply require_floored.
  - pose proof (grant_floored s g session w1 l w2 now p Hp). by destruct (grant _ _ _ _ _ _ _).
  - unfold revoke. set (r := let? _ := _ in _). by destruct r.
  - unfold set_signature_policy. by destruct policy.
  - by apply permitted_floored.
  - destruct (get_gossip bytes) as [[m [|]]|]; try done. unfold variant. destruct (variants s !! _); [done|]. destruct (reformat m v key); [|done]. cbv zeta.
    by repeat case_bool_decide.
  - unfold admit_cache_serve. destruct (registered s t); [|done]. cbn [negb]. destruct (window_over _ _); by case_bool_decide.
  - destruct (control_work get_u32 m); [|done]. unfold spend_control. destruct (window_over _ _); by case_bool_decide.
  - done.
Qed.

Lemma floored_run (os : list MOp) (s : State) (p : PeerId) : floored s p = true → floored (mrun s os).1 p = true.
Proof.
  revert s. induction os as [|o os IH]; intros s Hp; cbn; [done|]. pose proof (floored_step s o p Hp) as Hq1. destruct (mexec s o) as [s1 ok]. cbn in Hq1.
  specialize (IH s1 Hq1). by destruct (mrun s1 os).
Qed.

Lemma mrun_app (os os' : list MOp) (s : State) : (mrun s (os ++ os')).1 = (mrun (mrun s os).1 os').1.
Proof. revert s. induction os as [|o os IH]; intros s; cbn; [done|]. destruct (mexec s o) as [s1 ok]. specialize (IH s1). destruct (mrun s1 (os ++ os')), (mrun s1 os). done. Qed.

(** ** The journal *)

Lemma decode_records_snoc (n : nat) (body : list Z) (X : gset PeerId) (p : PeerId) :
  length body = (64 * n)%nat → is_array 32 (peer_bytes p) → decode_records n body = Ok X → decode_records (S n) (body ++ floor_record p) = Ok ({[p]} ∪ X).
Proof.
  intros Hl [Hp _]. assert (Hrec : length (floor_record p) = 64%nat) by (unfold floor_record; rewrite length_app, Hp; destruct (blake3_array (peer_bytes p)) as [-> _]; done).
  revert body X Hl. induction n as [|n IH]; intros body X Hl Hd.
  - destruct body; [|done]. cbn in Hd. injection Hd as <-. cbn [decode_records app]. rewrite bool_decide_false by (intros Hn; rewrite Hn in Hrec; done).
    rewrite (take_ge (floor_record p)) by lia. unfold floor_record.
    rewrite take_app_length' by done. rewrite drop_app_length' by done. rewrite bool_decide_true by done. cbn [check result_bind]. f_equal. destruct p. set_solver.
  - cbn [decode_records] in Hd. destruct (bool_decide_reflect (body = [])) as [->|Hne]; [cbn in Hl; lia|].
    remember (S n) as n1 eqn:Hn1. cbn [decode_records]. rewrite bool_decide_false by (destruct body; done).
    rewrite take_app_le, drop_app_le by lia. destruct (check _ _); [|done]. cbn [result_bind] in *.
    destruct (decode_records n (drop 64 body)) as [Y|] eqn:Hy; [|done]. cbn [result_bind] in Hd. injection Hd as <-. subst n1.
    rewrite (IH (drop 64 body) Y) by (rewrite ?length_drop; lia || done). cbn [result_bind]. f_equal. set_solver.
Qed.

Lemma floors_decode_snoc (journal : list Z) (X : gset PeerId) (p : PeerId) :
  floors_decode journal = Ok X → len journal + 64 ≤ 12 + 64 * MAX_FLOORS → is_array 32 (peer_bytes p) →
  floors_decode (journal ++ floor_record p) = Ok ({[p]} ∪ X).
Proof.
  intros Hd Hroom Hp. unfold floors_decode in *. unfold strip_prefix in *. destruct (decide (take (length FLOORS_HEADER) journal = FLOORS_HEADER)) as [Ht|]; [|done].
  set (body := drop (length FLOORS_HEADER) journal) in *.
  assert (Hj : length journal = (12 + length body)%nat).
  { unfold body. rewrite length_drop. apply (f_equal length) in Ht. rewrite length_take in Ht. change (length FLOORS_HEADER) with 12%nat in *. lia. }
  rewrite take_app_le, drop_app_le, decide_True by (done || (change (length FLOORS_HEADER) with 12%nat; lia)). fold body.
  assert (Hrec : length (floor_record p) = 64%nat) by (unfold floor_record; rewrite length_app; destruct Hp as [-> _]; destruct (blake3_array (peer_bytes p)) as [-> _]; done).
  case_bool_decide as Hb; [|done]. cbn [check result_bind] in Hd. destruct Hb as [Hm Hle]. unfold len in *.
  assert (Hlb : length body = (64 * (length body / 64))%nat).
  { apply Nat.div_exact; [done|]. apply Nat2Z.inj. rewrite Nat2Z.inj_mod. done. }
  rewrite bool_decide_true by (rewrite length_app, Hrec; split; [rewrite Nat2Z.inj_add; change (Z.of_nat 64) with (1 * 64); rewrite Z.mod_add by lia; done|lia]).
  cbn [check result_bind]. replace (length (body ++ floor_record p) / 64)%nat with (S (length body / 64))%nat.
  - by apply decode_records_snoc.
  - rewrite length_app, Hrec. replace (length body + 64)%nat with (length body + 1 * 64)%nat by lia. rewrite Nat.div_add by lia. lia.
Qed.

Definition steady (f : File) : Looks := mkLooks (Some f) (Some f) (Some f).

Lemma floors_open_steady (f : File) (X : gset PeerId) :
  floors_decode (contents f) = Ok X → len (contents f) ≤ 12 + 64 * MAX_FLOORS → floors_open (steady f) = Ok (mkFloors X (Some (mkStamp (modified f) (len (contents f))))).
Proof.
  intros Hd Hl. unfold floors_open, refresh, steady. cbn [look1 look2 look3 stamp_read stamp floor_peers]. rewrite bool_decide_false by done.
  unfold read_bounded. rewrite take_ge by (unfold len, MAX_FLOORS in Hl; lia). cbn [result_bind]. rewrite Hd. cbn [result_bind].
  rewrite bool_decide_true by done. cbn [check result_bind]. rewrite bool_decide_true by set_solver. done.
Qed.

(** ** Bounds *)

Definition w_variant (e : list Z * Z * list Z) : nat := length e.2.

Record policy_wf (s : State) : Prop := {
  pol_topics : (size (topics s) ≤ MAX_TOPICS)%nat;
  pol_named t k : topics s !! t = Some k → kv_topic k = t ∧ t ≠ control_topic;
  pol_revisions : (size (revisions s) ≤ MAX_GRANTS)%nat;
  pol_grants k b : grants s !! k = Some b → revisions s !! k = Some (g_revision (b_grant b));
  pol_variants : variant_bytes s = Z.of_nat (msum w_variant (variants s)) ∧ variant_bytes s ≤ MAX_VARIANT_BYTES;
  pol_control : 0 ≤ control_spent s ≤ MAX_CONTROL_WORK;
  pol_response : 0 ≤ response_bytes s ≤ MAX_RESPONSE_BYTES;
}.

Lemma policy_wf_default : policy_wf migration_default.
Proof. split; cbn; try done; lia || (unfold MAX_TOPICS, MAX_GRANTS; rewrite ?map_size_empty; lia) || (intros; by rewrite lookup_empty in *). Qed.

Lemma size_insert_room {K V} `{Countable K} (m : gmap K V) (k : K) (v : V) (n : nat) :
  (size m ≤ n)%nat → is_Some (m !! k) ∨ (size m < n)%nat → (size (<[k := v]> m) ≤ n)%nat.
Proof. intros Hn Hroom. rewrite map_size_insert. destruct (m !! k); cbn; [done|]. destruct Hroom as [[]|]; [done|lia]. Qed.

(** Less of the grants, and no other component touched but the counters, the
    clock and the journal. *)
Record quieter (s s' : State) : Prop := {
  qt_topics : topics s' = topics s;
  qt_grants : grants s' ⊆ grants s;
  qt_revisions : revisions s' = revisions s;
  qt_variants : variants s' = variants s ∧ variant_bytes s' = variant_bytes s;
  qt_control : control_spent s' = control_spent s;
  qt_response : response_bytes s' = response_bytes s;
}.
#[local] Instance quieter_po : PreOrder quieter.
Proof. split; [by split|]. intros s1 s2 s3 [? ? ? [] ? ?] [? ? ? [] ? ?]. split; try split; (etrans; eassumption) || congruence. Qed.

Lemma quieter_wf (s s' : State) : quieter s s' → policy_wf s → policy_wf s'.
Proof.
  intros [Ht Hg Hr [Hv Hb] Hc Hs] []. split; rewrite ?Ht, ?Hr, ?Hv, ?Hb, ?Hc, ?Hs; try done.
  intros k b Hk. apply pol_grants0. by eapply lookup_weaken.
Qed.

Lemma drop_expired_quieter (s : State) (k : PeerId * TopicId) (r : Readings) : quieter s (drop_expired s k r).
Proof. pose proof (drop_expired_grants s k r). unfold drop_expired in *. destruct (grants s !! k); [|done]. by case_bool_decide. Qed.
Lemma check_clock_quieter (s : State) (now : Z) : quieter s (check_clock s now).1.
Proof. pose proof (check_clock_grants s now). unfold check_clock in *. by case_match. Qed.
Lemma check_floors_quieter (s : State) (l : Looks) : quieter s (check_floors s l).1.
Proof.
  pose proof (check_floors_grants s l). unfold check_floors in *. destruct (floor_failed s); [done|]. destruct (floors s); [|done]. by destruct (refresh _ _) as [f []].
Qed.
Lemma permitted_quieter (s : State) (t : TopicId) (session : AuthenticatedSession) (r : Readings) : quieter s (permitted s t session r).1.
Proof.
  unfold permitted. etrans; [apply (drop_expired_quieter s (peer session, t) r)|]. set (s1 := drop_expired _ _ _).
  assert (Hp : quieter s1 (permitted_checks s1 t session r).1).
  { unfold permitted_checks. destruct (reject_v1 s1); [done|]. pose proof (check_clock_quieter s1 (wall2 r)) as Hc. destruct (check_clock s1 (wall2 r)) as [s2 []]; [|done].
    destruct (grant_valid s2 t session r); [|done]. etrans; [exact Hc|]. cbn [negb]. pose proof (check_floors_quieter s2 (looks r)). by destruct (check_floors s2 (looks r)) as [s3 []]. }
  destruct (permitted_checks s1 t session r) as [s2 []]; [done|]. cbn [fst] in *. by destruct Hp.
Qed.

Lemma policy_wf_grant (s : State) (g : LegacyGrant) (session : AuthenticatedSession) (w1 : Z) (l : Looks) (w2 now : Z) :
  policy_wf s → policy_wf (grant s g session w1 l w2 now).1.
Proof.
  intros Hw. unfold grant. destruct (grant_checks s g session); [|done]. pose proof (check_clock_quieter s w1) as Hc. destruct (check_clock s w1) as [s1 []]; cbn [fst] in Hc; apply quieter_wf in Hc; try done.
  pose proof (check_floors_quieter s1 l) as Hf. destruct (check_floors s1 l) as [s2 []]; cbn [fst] in Hf; apply quieter_wf in Hf; try done. clear Hc Hw.
  destruct (negb (floored s2 (g_peer g))); [|done]. cbn [check result_bind].
  case_bool_decide; [|done]. cbn [check result_bind]. case_bool_decide as Hroom; [|done]. cbn [check result_bind].
  do 3 (case_bool_decide; [|done]; cbn [check result_bind]). destruct Hf. split; cbn; try done.
  - by apply size_insert_room.
  - intros k b. destruct (decide (k = (g_peer g, g_topic g))) as [->|Hne]; [rewrite !lookup_insert_eq; by intros [= <-]|]. rewrite !lookup_insert_ne by done. apply pol_grants0.
Qed.

Lemma policy_wf_variant (s : State) (m : GossipMessage) (v : Z) (d : list Z) : policy_wf s → policy_wf (variant s m v key d).1.
Proof.
  intros []. unfold variant. destruct (variants s !! (d, v)) eqn:Hd; [done|]. destruct (reformat m v key) as [out|]; [|done]. cbv zeta. set (s1 := if bool_decide (version _ = _) then s else _).
  assert (Hs1 : policy_wf s1 ∧ variants s1 !! (d, v) = None) by (unfold s1; destruct (bool_decide _); (split; [by split|done])). clearbody s1. destruct Hs1 as [[] Hd1].
  set (b := put_gossip out). set (s2 := if bool_decide (MAX_VARIANT_BYTES < _) then _ else _).
  assert (Hs2 : policy_wf s2 ∧ variants s2 !! (d, v) = None ∧ (len b ≤ MAX_VARIANT_BYTES → variant_bytes s2 + len b ≤ MAX_VARIANT_BYTES)).
  { unfold s2. case_bool_decide as Hbig; (split; [split; try done|split; [done|cbn [variant_bytes set_variants]; lia]]). }
  clearbody s2. destruct Hs2 as ([] & Hd2 & Hroom). case_bool_decide as Hfit; [|by split]. specialize (Hroom Hfit). split; try done. cbn [fst variants variant_bytes set_variants].
  rewrite msum_insert by done. change (w_variant (d, v, b)) with (length b). unfold len in *. lia.
Qed.

Lemma control_work_pos (m : GossipMessage) (work : Z) : control_work get_u32 m = Ok work → 1 ≤ work.
Proof.
  unfold control_work. destruct (kind_index _); [|done]. cbn [result_bind]. destruct (check _ _); [|done]. cbn [result_bind]. destruct (gm_payload m); [|done].
  destruct (check _ _); [|done]. cbn [result_bind]. set (r := if bool_decide _ then _ else _). destruct r as [ids|]; [|done]. cbn [result_bind].
  destruct (get_u32 ids) as [[n rest]|]; [|done]. destruct (check _ _); [|done]. cbn [result_bind]. intros [= <-]. lia.
Qed.

Lemma policy_wf_step (s : State) (o : MOp) : policy_wf s → policy_wf (mexec s o).1.
Proof.
  intros Hw. destruct o; cbn [mexec].
  - unfold install_floors. destruct (check _ _); [|done]. by destruct Hw.
  - unfold register. destruct (bool_decide_reflect (kv_topic t ≠ control_topic)) as [Hc|]; [|done]. cbn [check result_bind].
    set (r := match topics s !! kv_topic t with Some _ => _ | None => _ end).
    assert (Hroom : is_ok r = true → is_Some (topics s !! kv_topic t) ∨ (size (topics s) < MAX_TOPICS)%nat).
    { unfold r. destruct (topics s !! kv_topic t); [by left|]. case_bool_decide; [by right|done]. }
    destruct r as [u|e]; [|done]. specialize (Hroom eq_refl). destruct Hw. split; cbn; try done.
    + by apply size_insert_room.
    + intros t' k. destruct (decide (t' = kv_topic t)) as [->|Hne]; [rewrite lookup_insert_eq; by intros [= <-]|]. rewrite lookup_insert_ne by done. apply pol_named0.
    + intros k b Hk. apply map_lookup_filter_Some in Hk as [Hk _]. by apply pol_grants0.
  - unfold require_v2. destruct (floors s) as [f|]; [|done]. destruct (floors_require_v2 f p l io) as [[f' app] r]. apply (quieter_wf s); [|done]. split; try done. cbn. apply map_filter_subseteq.
  - pose proof (policy_wf_grant s g session w1 l w2 now Hw). by destruct (grant _ _ _ _ _ _ _).
  - unfold revoke. set (r := let? _ := _ in _). assert (Hroom : is_ok r = true → is_Some (revisions s !! (p, t)) ∨ (size (revisions s) < MAX_GRANTS)%nat).
    { unfold r. destruct (check _ _); [|done]. cbn [result_bind]. by case_bool_decide. }
    destruct r as [u|e]; [|done]. specialize (Hroom eq_refl). destruct Hw. split; cbn; try done; [by apply size_insert_room|].
    intros k b. rewrite lookup_delete_Some. intros [Hne Hk]. rewrite lookup_insert_ne by done. by apply pol_grants0.
  - unfold set_signature_policy. destruct policy; cbn; [by destruct Hw|]. apply (quieter_wf s); [|done]. split; try done. apply map_empty_subseteq.
  - eapply quieter_wf; [apply permitted_quieter|done].
  - destruct (get_gossip bytes) as [[m [|]]|]; try done. pose proof (policy_wf_variant s m v (blake3 bytes) Hw). by destruct (variant _ _ _ _ _).
  - unfold admit_cache_serve. destruct (registered s t); [|done]. cbn [negb]. set (s1 := if window_over _ _ then _ else s).
    assert (Hw1 : policy_wf s1) by (unfold s1; destruct (window_over _ _); destruct Hw; by split). clearbody s1.
    case_bool_decide as Hfit; [|done]. destruct Hw1. cbn. unfold MAX_RESPONSE_BYTES in *.
    rewrite u64_sub_exact in Hfit by (unfold u64, U64_MAX; lia). pose proof (byte_len_nonneg frame). split; cbn; try done. rewrite u64_add_exact by (unfold u64, U64_MAX; lia).
    unfold MAX_RESPONSE_BYTES. lia.
  - destruct (control_work get_u32 m) as [work|] eqn:Hwork; [|done]. unfold spend_control. set (s1 := if window_over _ _ then _ else s).
    assert (Hw1 : policy_wf s1) by (unfold s1; destruct (window_over _ _); destruct Hw; by split). clearbody s1.
    case_bool_decide as Hfit; [|done]. destruct Hw1. split; cbn; try done. pose proof (control_work_pos m work Hwork). lia.
  - by destruct Hw.
Qed.

Lemma policy_wf_run (os : list MOp) : policy_wf (mrun migration_default os).1.
Proof. induction os as [|o os IH] using rev_ind; [apply policy_wf_default|]. rewrite mrun_snoc. by apply policy_wf_step. Qed.

End Policy.
End CompatProps.
