(* ===== verification/CompatEgress.v ===== *)
(** * Migration of legacy senders: the guarantees

    The whole paths ([ingress], [send] and its callbacks) as sequences of policy
    steps, what the cache of reformatted messages holds, and the theorems: no
    version-1 traffic on a registered topic without a live grant, modern floors
    that outlive the process, the bounds of the policy and the format of what is
    sent. *)

From S2P Require Import Prelude Types Identity MessageCache Plumtree KeyCodec KeyCache KeyCacheProps KeyExchange Compat CompatProps.
Import Identity Plumtree KeyCodec KeyCache KeyExchange Compat CompatProps.
Import MessageCache(mkInner, VerifiedInner).

#[local] Open Scope Z_scope.

Module CompatEgress.

(** ** Inner envelopes *)

Definition field (f : list Z) : list Z := be16 (len f) ++ f.

Lemma take_field_iff (l f rest : list Z) : Forall is_byte l → take_field l = Ok (f, rest) ↔ l = field f ++ rest ∧ len f ≤ 65535.
Proof.
  intros Hb. split.
  - destruct l as [|a [|b l]]; cbn [take_field]; try done. apply Forall_cons in Hb as [Ha Hb]. apply Forall_cons in Hb as [Hb _]. unfold is_byte in *.
    case_bool_decide as Hn; [|done]. intros [= <- <-]. unfold len, from_be16 in *. unfold field, be16, len. rewrite length_take, Nat.min_l, Z2Nat.id by lia.
    rewrite Z.div_add_l, Z.div_small, Z.add_0_r by lia. rewrite Z.add_comm, Z.mod_add, Z.mod_small by lia. cbn [app]. rewrite take_drop. split; [done|lia].
  - intros [-> Hl]. unfold field, be16. cbn [app take_field]. unfold from_be16. rewrite Z.mul_comm, <-Z.div_mod by done. pose proof (byte_len_nonneg f).
    rewrite bool_decide_true by (unfold len in *; rewrite length_app; lia). unfold len. rewrite Nat2Z.id, take_app_length, drop_app_length. done.
Qed.

Section Inner.
Context `{Hashes} `{MlDsa}.

(** The layout of a version-3 inner envelope. *)
Definition envelope (author : PeerId) (key signature topic rest : list Z) : list Z :=
  3 :: peer_bytes author ++ field key ++ field signature ++ field topic ++ rest.

Lemma envelope_parts (author : PeerId) (key signature topic rest : list Z) : length (peer_bytes author) = 32%nat →
  take 32 (drop 1 (envelope author key signature topic rest)) = peer_bytes author ∧
  drop 33 (envelope author key signature topic rest) = field key ++ field signature ++ field topic ++ rest ∧ 33 ≤ len (envelope author key signature topic rest).
Proof.
  intros Hl. unfold envelope. split_and!.
  - rewrite skipn_cons, drop_0. by rewrite take_app_length'.
  - rewrite skipn_cons. by rewrite drop_app_length'.
  - unfold len. cbn [length]. rewrite length_app. lia.
Qed.

(** C15. The verifier of inner envelopes accepts exactly the envelopes of the
    registered topic: those laid out as marker, author, key, signature, topic
    and body, of at most 1 MiB, whose key hashes to an author of the roster and
    whose signature verifies, under that key, the author, the topic and the
    body; and it reports that author, the digest of the bytes and the revision
    of the registration. *)
Theorem inner_envelope_accepted (t : SignedKvTopic) (bytes : list Z) (v : VerifiedInner) : Forall is_byte bytes →
  kv_verify t bytes = Ok v ↔
  ∃ key signature rest,
    bytes = envelope (from_pubkey key) key signature (topic_name t) rest ∧
    len bytes ≤ MAX_INNER_BYTES ∧ len key = 1952 ∧ len signature = 3309 ∧ len (topic_name t) ≤ 65535 ∧ from_pubkey key ∈ authors t ∧
    verify key (signed_bytes (peer_bytes (from_pubkey key)) (topic_name t) rest) signature = Some true ∧
    v = mkInner (from_pubkey key) (blake3 bytes) (kv_revision t).
Proof.
  intros Hb. unfold kv_verify. split.
  - case_bool_decide as Hlen; [|done]. cbn [check result_bind]. case_bool_decide as Hhead; [|done]. cbn [check result_bind]. case_bool_decide as H33; [|done]. cbn [check result_bind].
    destruct (take_field (drop 33 bytes)) as [[key r1]|] eqn:Hk; [|done]. cbn [result_bind]. apply take_field_iff in Hk as [Hk Hk']; [|by apply Forall_drop].
    assert (Hb1 : Forall is_byte r1) by (apply (Forall_drop _ 33) in Hb; rewrite Hk in Hb; by apply Forall_app in Hb as [_ ?]).
    destruct (take_field r1) as [[sig r2]|] eqn:Hs; [|done]. cbn [result_bind]. apply take_field_iff in Hs as [-> Hs]; [|done]. apply Forall_app in Hb1 as [_ Hb2].
    destruct (take_field r2) as [[topic rest]|] eqn:Ht; [|done]. cbn [result_bind]. apply take_field_iff in Ht as [-> Ht]; [|done].
    case_bool_decide as Hshape; [|done]. cbn [check result_bind]. case_bool_decide as Htopic; [|done]. cbn [check result_bind]. subst topic.
    case_bool_decide as Hauthor; [|done]. cbn [check result_bind]. rewrite bool_decide_true by done. cbn [check result_bind]. destruct Hauthor as [Hid Hin].
    destruct (verify _ _ _) as [[]|] eqn:Hv; [|done|done]. cbn [check result_bind]. intros [= <-]. exists key, sig, rest. rewrite <-Hid in Hv. split_and!; try done || tauto.
    unfold envelope. rewrite Hid, <-Hk. destruct bytes as [|b l]; [done|]. injection Hhead as ->. rewrite !skipn_cons, drop_0. by rewrite take_drop.
  - intros (key & sig & rest & -> & Hlen & Hkl & Hsl & Htl & Hin & Hv & ->). rewrite bool_decide_true by done. cbn [check result_bind].
    destruct (envelope_parts (from_pubkey key) key sig (topic_name t) rest) as (Ha & Hd & H33); [apply sha256_array|]. rewrite Ha, Hd. clear Ha Hd.
    assert (Hb1 : Forall is_byte (field key ++ field sig ++ field (topic_name t) ++ rest)) by (unfold envelope in Hb; apply Forall_cons in Hb as [_ Hb]; by apply Forall_app in Hb as [_ Hb]).
    rewrite bool_decide_true by done. cbn [check result_bind]. rewrite bool_decide_true by done. cbn [check result_bind].
    rewrite (proj2 (take_field_iff _ key (field sig ++ field (topic_name t) ++ rest) Hb1)) by (split; [done|lia]). cbn [result_bind].
    apply Forall_app in Hb1 as [_ Hb1]. rewrite (proj2 (take_field_iff _ sig (field (topic_name t) ++ rest) Hb1)) by (split; [done|lia]). cbn [result_bind].
    apply Forall_app in Hb1 as [_ Hb1]. rewrite (proj2 (take_field_iff _ (topic_name t) rest Hb1)) by done. cbn [result_bind].
    do 4 (rewrite bool_decide_true by done; cbn [check result_bind]). by rewrite Hv.
Qed.
End Inner.

Section Egress.
Context `{Hashes} `{Postcard} `{MlDsa}.
Context (get_u32 : list Z → option (Z * list Z)) (key : MlDsaKeyPair).

Notation mexec := (mexec get_u32 key).
Notation mrun := (mrun get_u32 key).
Notation reach os := (mrun migration_default os).1.

(** ** Paths as sequences of steps *)

Definition runs (s s' : State) : Prop := ∃ os, (mrun s os).1 = s'.
#[local] Instance runs_po : PreOrder runs.
Proof. split; [intros s; by exists []|]. intros s1 s2 s3 [os <-] [os' <-]. exists (os ++ os'). apply mrun_app. Qed.

Lemma runs_step (s : State) (o : MOp) : runs s (mexec s o).1.
Proof. exists [o]. cbn. by destruct (mexec s o). Qed.
Lemma runs_permitted (s : State) (t : TopicId) (session : AuthenticatedSession) (r : Readings) : runs s (permitted s t session r).1.
Proof. exact (runs_step s (MPermit t session r)). Qed.
Lemma runs_count (s : State) (f : MStat) : runs s (count s f).
Proof. exact (runs_step s (MStatistic f)). Qed.
Lemma runs_variant (s : State) (m : GossipMessage) (v : Z) (bytes : list Z) : get_gossip bytes = Some (m, []) → runs s (variant s m v key (blake3 bytes)).1.
Proof. intros Hm. pose proof (runs_step s (MVariant bytes v)) as Hr. cbn [CompatProps.mexec] in Hr. rewrite Hm in Hr. by destruct (variant _ _ _ _ _). Qed.

Lemma runs_verify_eager (s : State) (m : GossipMessage) : runs s (verify_inner_if_eager get_u32 s m).1.
Proof.
  unfold verify_inner_if_eager. case_bool_decide; [|done]. destruct (gm_payload m); [|done]. unfold verify_inner. destruct (topics s !! _); [|done].
  destruct (kv_verify _ _); [done|]. apply runs_count.
Qed.

Lemma runs_send (s : State) (live : PeerId → option AuthenticatedSession) (me p : PeerId) (bytes : list Z) (r : Readings) : runs s (send get_u32 s live me key p bytes r).1.
Proof.
  unfold send. destruct (deserialize bytes) as [[h rest]|]; [|done]. destruct (registered s (topic h)); [|done]. cbn [negb].
  destruct (get_gossip bytes) as [[m trailing]|] eqn:Hm; [|done]. destruct (bool_decide_reflect (trailing = [])) as [->|]; [|done]. cbn [negb].
  pose proof (runs_verify_eager s m) as Hv. destruct (verify_inner_if_eager get_u32 s m) as [s1 []]; [|done]. cbn [fst] in Hv.
  destruct (_ && _); [done|]. set (legacy := if has_grant s1 p (topic h) then _ else _).
  assert (Hl : runs s legacy.1). { etrans; [exact Hv|]. unfold legacy. destruct (has_grant _ _ _); [|done]. destruct (live p); [apply runs_permitted|done]. }
  destruct legacy as [s2 []]; [done|]. destruct (bool_decide _); [done|]. etrans; [exact Hl|]. pose proof (runs_variant s2 m 2 bytes Hm). by destruct (variant _ _ _ _ _) as [s3 []].
Qed.

Lemma runs_admit_legacy (s : State) (p : PeerId) (m : GossipMessage) (bytes : list Z) (session : AuthenticatedSession) (r : Readings) :
  get_gossip bytes = Some (m, []) → runs s (admit_legacy get_u32 s key p m (blake3 bytes) session r).1.
Proof.
  intros Hm. unfold admit_legacy. destruct (bool_decide (peer session = p)); [|done]. cbn [negb]. pose proof (runs_permitted s (topic (gm_header m)) session r) as Hp.
  destruct (permitted _ _ _ _) as [s1 []]; [|done]. cbv zeta. set (again := if bool_decide _ then _ else _). destruct again; [|done]. cbn [fst] in Hp.
  pose proof (runs_variant s1 m 1 bytes Hm) as Hv. destruct (variant _ _ _ _ _) as [s2 []]; cbn [fst] in Hv; [|by etrans].
  destruct (kind_index _); [|by etrans]. etrans; [exact Hp|]. etrans; [exact Hv|]. apply runs_count.
Qed.

Lemma runs_spend (s : State) (m : GossipMessage) (work now : Z) : control_work get_u32 m = Ok work → runs s (spend_control s work now).1.
Proof. intros Hw. pose proof (runs_step s (MControl m now)) as Hr. cbn [CompatProps.mexec] in Hr. rewrite Hw in Hr. by destruct (spend_control _ _ _). Qed.

Lemma runs_ingress (s : State) (from : PeerId) (session : option AuthenticatedSession) (m : GossipMessage) (r : Readings) (now : Z) :
  runs s (ingress get_u32 s from session m r now).1.
Proof.
  unfold ingress. destruct (registered s _); [|done]. cbn [negb]. destruct (kind_index _) as [k|]; [|done]. cbv zeta. set (legacy := if bool_decide (version _ = 1) then _ else _).
  assert (Hl : runs s legacy.1).
  { unfold legacy. destruct (bool_decide _); [|done]. destruct session as [x|]; [|done]. destruct (bool_decide _); [|done]. cbn [negb].
    pose proof (runs_permitted s (topic (gm_header m)) x r) as Hp. destruct (permitted _ _ _ _) as [s1 []]; [|done]. etrans; [exact Hp|]. apply runs_count. }
  destruct legacy as [s1 []]; [|done]. destruct (bool_decide (k = 0)); [done|]. destruct (negb _); [done|]. destruct (negb _); [done|].
  destruct (control_work get_u32 m) as [work|] eqn:Hw; [|done]. etrans; [exact Hl|]. by apply runs_spend with m.
Qed.

(** ** Reformatted messages *)

(** [out] carries [m] in the outer format [v]: the message itself, or the same
    content signed by this node, sealed when [v] is 2. *)
Definition in_format (m : GossipMessage) (v : Z) (out : list Z) : Prop :=
  ∃ m', out = put_gossip m' ∧ version (gm_header m') = v ∧ gm_payload m' = gm_payload m ∧
    topic (gm_header m') = topic (gm_header m) ∧ msg_id (gm_header m') = msg_id (gm_header m) ∧ kind (gm_header m') = kind (gm_header m) ∧
    hop (gm_header m') = hop (gm_header m) ∧ ttl (gm_header m') = ttl (gm_header m) ∧
    (m' = m ∨ (gm_public_key m' = public_key key ∧ sign key (serialize (gm_header m')) = Some (gm_signature m') ∧
      payload_hash (gm_header m') = if decide (v = 2) then Some (blake3 (default [] (gm_payload m))) else None)).

Lemma reformat_format (m m' : GossipMessage) (v : Z) : reformat m v key = Some m' → in_format m v (put_gossip m').
Proof.
  unfold reformat. case_bool_decide as Hv; [intros [= <-]; exists m; split_and!; auto|]. destruct (bool_decide_reflect (v = 2)) as [->|Hv2]; cbv zeta.
  - destruct (sign key _) as [sig|] eqn:Hs; [|done]. intros [= <-]. eexists. split; [done|]. cbn in *. split_and!; auto.
  - destruct (sign key _) as [sig|] eqn:Hs; [|done]. intros [= <-]. eexists. split; [done|]. cbn [gm_header gm_payload version topic msg_id kind hop ttl payload_hash gm_signature gm_public_key].
    rewrite decide_False by done. split_and!; auto.
Qed.

Definition variants_sound (os : list MOp) (s : State) : Prop :=
  ∀ d v b, variants s !! (d, v) = Some b → ∃ bytes m, MVariant bytes v ∈ os ∧ d = blake3 bytes ∧ get_gossip bytes = Some (m, []) ∧ in_format m v b.

Lemma variant_result (s : State) (m : GossipMessage) (v : Z) (d : list Z) :
  (∀ out, (variant s m v key d).2 = Ok out → variants s !! (d, v) = Some out ∨ in_format m v out) ∧
  (∀ d' v' b, variants (variant s m v key d).1 !! (d', v') = Some b → variants s !! (d', v') = Some b ∨ ((d', v') = (d, v) ∧ in_format m v b)).
Proof.
  unfold variant. destruct (variants s !! (d, v)) as [old|] eqn:Hd; [split; [intros out [= <-]; by left|auto]|].
  destruct (reformat m v key) as [m'|] eqn:Hr; [|split; [done|auto]]. apply reformat_format in Hr. cbv zeta. set (s1 := if bool_decide (version _ = _) then s else _).
  assert (Hs1 : variants s1 = variants s) by (unfold s1; by destruct (bool_decide _)). clearbody s1. split; [intros out [= <-]; by right|]. intros d' v' b.
  set (s2 := if bool_decide (MAX_VARIANT_BYTES < _) then _ else _).
  assert (Hs2 : variants s2 ⊆ variants s) by (unfold s2; destruct (bool_decide _); [apply map_empty_subseteq|by rewrite Hs1]). clearbody s2.
  cbn [fst]. destruct (bool_decide _); [|left; by eapply lookup_weaken]. cbn [variants set_variants]. rewrite lookup_insert_Some. intros [[Heq <-]|[_ Hb]]; [by right|].
  left. by eapply lookup_weaken.
Qed.

Lemma variants_kept (s : State) (o : MOp) : (∀ bytes v, o ≠ MVariant bytes v) → variants (mexec s o).1 ⊆ variants s.
Proof.
  intros Ho. destruct o; cbn [CompatProps.mexec].
  - unfold install_floors. by destruct (check _ _).
  - unfold register. set (r := let? _ := _ in _). destruct r; [apply map_empty_subseteq|done].
  - unfold require_v2. destruct (floors s); [|done]. by destruct (floors_require_v2 _ _ _ _) as [[f' app] r].
  - unfold grant. destruct (grant_checks s g session); [|done]. pose proof (qt_variants _ _ (check_clock_quieter s w1)) as [Hc _]. destruct (check_clock s w1) as [s1 []]; cbn [fst] in Hc; rewrite <-Hc; [|done].
    pose proof (qt_variants _ _ (check_floors_quieter s1 l)) as [Hf _]. destruct (check_floors s1 l) as [s2 []]; cbn [fst] in Hf; rewrite <-Hf; [|done]. cbv zeta. by destruct (result_bind _ _).
  - unfold revoke. set (r := let? _ := _ in _). by destruct r.
  - unfold set_signature_policy. by destruct policy.
  - by rewrite (proj1 (qt_variants _ _ (permitted_quieter s t session r))).
  - by destruct (Ho bytes v).
  - unfold admit_cache_serve. destruct (registered s t); [|done]. cbn [negb]. destruct (window_over _ _); by case_bool_decide.
  - destruct (control_work get_u32 m); [|done]. unfold spend_control. destruct (window_over _ _); by case_bool_decide.
  - done.
Qed.

Lemma variants_sound_run (os : list MOp) : variants_sound os (reach os).
Proof.
  induction os as [|o os IH] using rev_ind; [intros d v b Hb; exfalso; by apply (lookup_empty_Some (d, v) b)|]. rewrite mrun_snoc. cbn [fst]. intros d v b Hb.
  assert (Hold : variants (reach os) !! (d, v) = Some b → ∃ bytes m, MVariant bytes v ∈ os ++ [o] ∧ d = blake3 bytes ∧ get_gossip bytes = Some (m, []) ∧ in_format m v b).
  { intros Ho. destruct (IH d v b Ho) as (bytes & m & Hin & Hrest). exists bytes, m. split; [|done]. apply elem_of_app. by left. }
  destruct o; try (apply Hold; eapply lookup_weaken; [exact Hb|by apply variants_kept]). cbn [CompatProps.mexec] in Hb.
  destruct (get_gossip bytes) as [[m [|]]|] eqn:Hm; try by apply Hold.
  destruct (variant_result (reach os) m v0 (blake3 bytes)) as [_ Hins]. destruct (variant _ _ _ _ _) as [s' r]. destruct (Hins d v b Hb) as [|[[= -> ->] Hf]]; [by apply Hold|].
  exists bytes, m. split_and!; try done. apply elem_of_app. right. by constructor.
Qed.

(** No other message of the run has the digest of [bytes]. *)
Definition distinct (os : list MOp) (bytes : list Z) : Prop := ∀ b v, MVariant b v ∈ os → blake3 b = blake3 bytes → b = bytes.

Lemma variant_format (os : list MOp) (s : State) (m : GossipMessage) (v : Z) (bytes out : list Z) :
  variants s = variants (reach os) → distinct os bytes → get_gossip bytes = Some (m, []) → (variant s m v key (blake3 bytes)).2 = Ok out → in_format m v out.
Proof.
  intros Hs Hd Hm Hout. destruct (proj1 (variant_result s m v (blake3 bytes)) out Hout) as [Hc|]; [|done]. rewrite Hs in Hc.
  destruct (variants_sound_run os _ _ _ Hc) as (b & m' & Hin & Heq & Hm' & Hf). specialize (Hd b v Hin (symmetry Heq)) as ->. by simplify_eq.
Qed.

Lemma get_gossip_header (bytes : list Z) (m : GossipMessage) (rest : list Z) : get_gossip bytes = Some (m, rest) → ∃ tail, deserialize bytes = Some (gm_header m, tail).
Proof.
  unfold get_gossip. destruct (deserialize bytes) as [[h l]|]; [|done]. cbn. destruct (get_payload l) as [[pl l1]|]; [|done]. cbn. destruct (get_bytes l1) as [[sg l2]|]; [|done]. cbn.
  destruct (get_bytes l2) as [[k l3]|]; [|done]. cbn. intros [= <- <-]. by exists l.
Qed.

Lemma verify_eager_ok (s : State) (m : GossipMessage) :
  registered s (topic (gm_header m)) = true → (verify_inner_if_eager get_u32 s m).2 = Ok () →
  (verify_inner_if_eager get_u32 s m).1 = s ∧
  (kind (gm_header m) = Eager → ∃ policy payload v, topics s !! topic (gm_header m) = Some policy ∧ gm_payload m = Some payload ∧ kv_verify policy payload = Ok v).
Proof.
  intros Hreg%bool_decide_eq_true. unfold verify_inner_if_eager. case_bool_decide as Hk; [|intros _; by split]. destruct (gm_payload m) as [payload|]; [|done].
  unfold verify_inner. destruct (topics s !! _) as [policy|]; [|by destruct Hreg]. destruct (kv_verify policy payload) as [v|] eqn:Hv; [|done]. intros _. split; [done|].
  intros _. by exists policy, payload, v.
Qed.

Lemma admit_format (os : list MOp) (p : PeerId) (m : GossipMessage) (bytes : list Z) (x : AuthenticatedSession) (r : Readings) (out : list Z) :
  distinct os bytes → get_gossip bytes = Some (m, []) → (admit_legacy get_u32 (reach os) key p m (blake3 bytes) x r).2 = Ok out → in_format m 1 out.
Proof.
  intros Hd Hm. unfold admit_legacy. destruct (bool_decide (peer x = p)); [|done]. cbn [negb]. pose proof (qt_variants _ _ (permitted_quieter (reach os) (topic (gm_header m)) x r)) as [Hv _].
  destruct (permitted _ _ _ _) as [s1 []]; [|done]. cbv zeta. set (again := if bool_decide _ then _ else _). destruct again; [|done].
  pose proof (variant_format os s1 m 1 bytes out Hv Hd Hm) as Hf. destruct (variant _ _ _ _ _) as [s2 [o|]]; [|done]. destruct (kind_index _); [|done]. cbn [snd] in *. intros [= ->]. by apply Hf.
Qed.

(** ** The guarantees *)

(** At the readings [r] a grant licenses version 1 on [t] over [session]: issued
    to that very session, not voided since, in time by both clocks; version 1 is
    not rejected and the peer has no modern floor. *)
Definition licensed (os : list MOp) (t : TopicId) (session : AuthenticatedSession) (r : Readings) : Prop :=
  ∃ b, in_force (peer session, t) b (mrun migration_default os).2 ∧ b_session b = session ∧
    now1 r < deadline b ∧ wall1 r < expires (b_grant b) ∧ now3 r < deadline b ∧ wall3 r < expires (b_grant b) ∧
    reject_v1 (reach os) = false ∧ floored (reach os) (peer session) = false.

Lemma permitted_licensed (os : list MOp) (t : TopicId) (session : AuthenticatedSession) (r : Readings) :
  (permitted (reach os) t session r).2 = true → licensed os t session r.
Proof. intros Hp. destruct (permitted_true _ _ _ _ Hp) as (b & Hb & Hrest). exists b. split; [|done]. by apply grants_in_force. Qed.

Lemma admit_licensed (os : list MOp) (p : PeerId) (m : GossipMessage) (d : list Z) (x : AuthenticatedSession) (r : Readings) (out : list Z) :
  (admit_legacy get_u32 (reach os) key p m d x r).2 = Ok out →
  peer x = p ∧ licensed os (topic (gm_header m)) x r ∧
  (kind (gm_header m) = Eager → ∃ policy payload v, topics (reach os) !! topic (gm_header m) = Some policy ∧ gm_payload m = Some payload ∧ kv_verify policy payload = Ok v).
Proof.
  unfold admit_legacy. case_bool_decide as Hp; [|done]. cbn [negb]. pose proof (permitted_licensed os (topic (gm_header m)) x r) as Hl.
  pose proof (qt_topics _ _ (permitted_quieter (reach os) (topic (gm_header m)) x r)) as Htop. destruct (permitted _ _ _ _) as [s1 []]; [|done]. cbn [fst snd] in *. cbv zeta.
  set (again := if bool_decide _ then _ else _). intros Hout. split_and!; auto. intros Hk. unfold again in Hout. rewrite bool_decide_true, Htop in Hout by done.
  destruct (topics (reach os) !! topic (gm_header m)) as [policy|]; [|done]. destruct (gm_payload m) as [payload|]; [|done]. destruct (kv_verify policy payload) as [v|] eqn:Hkv; [|done].
  by exists policy, payload, v.
Qed.

(** C11. On a registered topic a version-1 message is accepted from a peer, and a
    version-1 message leaves for one, only while a grant licenses it: after any
    sequence of policy operations there is a successful grant for that peer and
    topic, bound to the very connection the message uses, that no registration,
    revocation, later grant, modern floor or rejection of version 1 has voided,
    and that neither the monotonic deadline nor the wall clock has passed; and
    for an application message the inner signature is verified again against
    the roster of that moment before the bytes are released. *)
Theorem legacy_requires_live_grant (os : list MOp) (t : TopicId) (m : GossipMessage) (r : Readings) :
  topic (gm_header m) = t →
  (∀ from session now, registered (reach os) t = true → version (gm_header m) = 1 → (ingress get_u32 (reach os) from session m r now).2 = Ok () →
    ∃ x, session = Some x ∧ peer x = from ∧ licensed os t x r) ∧
  (∀ p d x out, (admit_legacy get_u32 (reach os) key p m d x r).2 = Ok out →
    peer x = p ∧ licensed os t x r ∧
    (kind (gm_header m) = Eager → ∃ policy payload v, topics (reach os) !! t = Some policy ∧ gm_payload m = Some payload ∧ kv_verify policy payload = Ok v)).
Proof.
  intros Ht. split.
  - intros from session now Hreg Hv. unfold ingress. rewrite Ht, Hreg. cbn [negb]. destruct (kind_index _) as [k|]; [|done]. rewrite bool_decide_true by done. cbv zeta.
    destruct session as [x|]; [|done]. case_bool_decide as Hp; [|done]. cbn [negb]. pose proof (permitted_licensed os t x r) as Hl. destruct (permitted _ _ _ _) as [s1 []]; [|done].
    intros _. exists x. split_and!; auto.
  - intros p d x out. rewrite <-Ht. apply admit_licensed.
Qed.

Lemma floored_denied (s : State) (t : TopicId) (session : AuthenticatedSession) (r : Readings) :
  floored s (peer session) = true → (permitted s t session r).2 = false.
Proof. intros Hf. apply not_true_iff_false. intros Hp. destruct (permitted_true _ _ _ _ Hp) as (b & _ & _ & _ & _ & _ & _ & _ & Hno). congruence. Qed.

(** C12. A modern floor is permanent.  Once [require_v2] has succeeded for a
    peer, no later sequence of operations lets version 1 through for it; and
    when the requirement appended its record, the journal with that record
    opens after a restart, at any time, to a set with that peer and every peer
    recorded before, and a fresh policy with it installed denies version 1 to
    the peer for ever. *)
Theorem modern_floor_permanent (s s1 : State) (p : PeerId) (l : Looks) (io : AppendIo) (appended : option (list Z)) :
  require_v2 s p l io = (s1, appended, Ok ()) → is_array 32 (peer_bytes p) →
  (∀ os t x r, peer x = p → (permitted (mrun s1 os).1 t x r).2 = false) ∧
  (∀ record file X, appended = Some record → floors_decode (contents file) = Ok X → len (contents file) + 64 ≤ 12 + 64 * MAX_FLOORS →
    ∀ restart, ∃ f, floors_open (steady (mkFile restart (contents file ++ record))) = Ok f ∧ floor_peers f = {[p]} ∪ X ∧
      ∀ os t x r, peer x = p → (permitted (mrun migration_default (MInstall f :: os)).1 t x r).2 = false).
Proof.
  intros Hr Hp. split.
  - intros os t x r <-. apply floored_denied, floored_run. pose proof (proj2 (require_floored get_u32 key s (peer x) l io (peer x))) as Hq. cbn [CompatProps.mexec] in Hq. rewrite Hr in Hq. by apply Hq.
  - intros record file X Happ Hd Hroom restart. assert (record = floor_record p) as ->.
    { unfold require_v2 in Hr. destruct (floors s) as [f|]; [|done]. destruct (floors_require_v2 f p l io) as [[f' a] res] eqn:Hf. unfold floors_require_v2 in Hf.
      destruct (refresh f l) as [f1 []]; [|by simplify_eq]. repeat case_match; by simplify_eq. }
    eexists. split; [apply floors_open_steady; cbn; [by apply floors_decode_snoc|]|split; [done|]].
    + unfold len. rewrite length_app, Nat2Z.inj_add. unfold len in Hroom. enough (length (floor_record p) = 64%nat) by lia.
      unfold floor_record. rewrite length_app. destruct Hp as [-> _]. by destruct (blake3_array (peer_bytes p)) as [-> _].
    + intros os t x r <-. match goal with |- context [?o :: os] => change (o :: os) with ([o] ++ os) end. rewrite mrun_app. apply floored_denied, floored_run. apply bool_decide_eq_true. cbn. set_solver.
Qed.

(** C13. The policy's state stays within its bounds, whatever operations run: at
    most 128 topics, each under its own identifier and none the reserved one;
    at most 1024 peer-and-topic pairs with a revision, and each grant the one
    that set the revision; the cached variants account for their bytes and stay
    within 4 MiB; the control work and the response bytes of a window within
    their budgets, so that the unchecked subtraction of the response budget
    never wraps. *)
Theorem policy_invariant (os : list MOp) : policy_wf (reach os).
Proof. apply policy_wf_run. Qed.

(** C14. What [send] releases on a registered topic.  An application message
    leaves only if its inner envelope verified against the topic's roster.  At
    once, only a version-2 message leaves: the original bytes, or the same
    content sealed and signed by this node; version 1 is left to the callback,
    and whenever the callback releases bytes they are that same content in
    version 1.  The cache of variants, keyed by a digest, never mixes messages,
    as long as their digests differ. *)
Theorem egress_format (os : list MOp) (live : PeerId → option AuthenticatedSession) (me p : PeerId) (bytes : list Z) (m : GossipMessage) (r : Readings)
    (s' : State) (e : Egress) :
  distinct os bytes → get_gossip bytes = Some (m, []) → registered (reach os) (topic (gm_header m)) = true →
  send get_u32 (reach os) live me key p bytes r = (s', Ok e) →
  (kind (gm_header m) = Eager → ∃ policy payload v, topics (reach os) !! topic (gm_header m) = Some policy ∧ gm_payload m = Some payload ∧ kv_verify policy payload = Ok v) ∧
  match e with
  | Now out => (version (gm_header m) = 2 ∧ out = bytes) ∨ in_format m 2 out
  | WhenAdmitted m' d => m' = m ∧
      ∀ os' x r' out, distinct os' bytes → (admit_legacy get_u32 (reach os') key p m' d x r').2 = Ok out → in_format m 1 out
  end.
Proof.
  intros Hd Hm Hreg. unfold send. destruct (get_gossip_header bytes m [] Hm) as [tail ->]. rewrite Hreg, Hm. cbn [negb]. rewrite bool_decide_true by done. cbn [negb].
  pose proof (verify_eager_ok (reach os) m Hreg) as Hok. destruct (verify_inner_if_eager get_u32 (reach os) m) as [s1 [[]|e1]]; [|done]. cbn [fst snd] in *. destruct (Hok eq_refl) as [-> Heager].
  destruct (_ && _); [done|]. set (legacy := if has_grant _ p _ then _ else _).
  assert (Hl : variants legacy.1 = variants (reach os)). { unfold legacy. destruct (has_grant _ _ _); [|done]. destruct (live p); [|done]. apply permitted_quieter. }
  destruct legacy as [s2 []]; cbn [fst] in Hl.
  - intros [= <- <-]. split; [exact Heager|]. split; [done|]. intros os' x r' out Hd'. by apply admit_format.
  - case_bool_decide as Hv; [intros [= <- <-]; split; [exact Heager|by left]|]. pose proof (variant_format os s2 m 2 bytes) as Hf. destruct (variant _ _ _ _ _) as [s3 [out|]]; [|done].
    intros [= <- <-]. split; [exact Heager|]. right. by apply Hf.
Qed.

End Egress.
End CompatEgress.
