(* ===== verification/KeyLicence.v ===== *)
(** * Key references leave only under a licence

    The two places that decide on the reference form of a frame -- the encoder,
    for every peer of a fan-out, and the transport, when the frame is handed
    over -- and the callback that releases it, on top of the life of a session
    ([KeyExchangeProps.v]). *)

From S2P Require Import Prelude Types Identity Float64 MessageCache Plumtree KeyCodec KeyCache KeyCacheProps KeyExchange KeyExchangeProps Compat CompatProps CompatEgress.
Import F64 Identity Plumtree KeyCodec KeyCache KeyCacheProps KeyExchange KeyExchangeProps Compat CompatProps CompatEgress.

#[local] Open Scope Z_scope.

Module KeyLicence.
Section Licence.
Context `{Hashes} `{Postcard} `{MlDsa} `{!LruPut PeerId (list Z)} `{!LruPut PKey ()}.
Context `{!HashIter PKey PendingKey} `{!HashIter PeerId SessionState} `{!SetIter PeerId}.
Context (get_u32 : list Z → option (Z * list Z)) (key : MlDsaKeyPair) (live : PeerId → option AuthenticatedSession) (me : PeerId).

Notation reach mos := (mrun get_u32 key migration_default mos).1.

(** ** What the cache's answer stands for *)

(** The peer of [s] can resolve a reference to [signer]: on this very
    connection it acknowledged the key, this node's hello was sent and the
    peer's was received -- in any order -- and the connection has been neither
    replaced nor forgotten since any of the three. *)
Definition licence (os : list KOp) (s : AuthenticatedSession) (signer : PeerId) : Prop :=
  since s (λ o, ∃ keys, o = KAck s keys ∧ signer ∈ keys) os ∧ since s (λ o, ∃ v, o = KResult s (CtlHello v) true) os ∧ since s (λ o, o = KHello s) os.

Lemma supports_licence (os : list KOp) (s : AuthenticatedSession) (signer : PeerId) :
  (supports_ref (krun key_cache_default os) s signer).2 = true → licence os s signer.
Proof.
  intros Href. unfold supports_ref, supports_v3 in Href. set (c := krun key_cache_default os) in *.
  destruct (sessions c !! peer s) as [st|] eqn:Hst; [|done].
  destruct (bool_decide_reflect (ss_generation st = generation s)) as [Hg|]; [|done]. destruct (hello_sent st) eqn:Hsent; [|done]. destruct (hello_received st) eqn:Hrecv; [|done].
  assert (Hflags : flags c (peer s) = Some (generation s, true, true)) by (unfold flags, flag3; rewrite Hst; cbn; by rewrite Hg, Hsent, Hrecv).
  assert (Hack : acked s signer c).
  { cbn in Href. pose proof (lru_get_value (acknowledged c) (peer s, generation s, signer)) as Hv. destruct (lru_get _ _) as [l v]. cbn in *. subst v.
    apply bool_decide_eq_true in Href as [[] Hu]. by apply assoc_Some in Hu. }
  split_and!.
  - eapply (since_ind s _ (acked s signer) key_cache_default); [apply default_wf| |intros; by apply acked_step|done].
    unfold acked. cbn. destruct (lru_new_spec (K := PKey) (V := ()) 4096) as [-> _]. by intros ?%elem_of_nil.
  - eapply (since_ind s _ (flag_pred s (λ x _, x)) key_cache_default); [apply default_wf|by intros (x & r & Hf & _)| |by exists true, true].
    intros c' o Hw' HI. apply (flag_step s (λ x _, x) (λ o, ∃ v, o = KResult s (CtlHello v) true)); [done| | |done|done]; [by intros x r ->|eauto].
  - eapply (since_ind s _ (flag_pred s (λ _ r, r)) key_cache_default); [apply default_wf|by intros (x & r & Hf & _)| |by exists true, true].
    intros c' o Hw' HI. apply (flag_step s (λ _ r, r) (λ o, o = KHello s)); [done| | |done|done]; [done|by intros v x r ->].
Qed.

(** The encoder only observes sessions and looks acknowledgements up: its own
    steps license nothing. *)
Definition passive (o : KOp) : Prop := match o with KObserve _ _ | KSupportsRef _ _ => True | _ => False end.

Lemma since_passive (s : AuthenticatedSession) (P : KOp → Prop) (os extra : list KOp) :
  Forall (λ o, ¬ P o) extra → since s P (os ++ extra) → since s P os.
Proof.
  induction extra as [|e extra IH] using rev_ind; [by rewrite app_nil_r|]. intros [Hx He%Forall_inv]%Forall_app (pre & o & post & E & HP & Hpost).
  apply IH; [done|]. destruct post as [|y post] using rev_ind.
  - rewrite app_assoc in E. apply app_inj_tail in E as [_ ->]. destruct (He HP).
  - rewrite app_comm_cons, !app_assoc in E. apply app_inj_tail in E as [E ->]. exists pre, o, post. apply Forall_app in Hpost as [Hpost _]. done.
Qed.
Lemma licence_passive (os extra : list KOp) (s : AuthenticatedSession) (signer : PeerId) :
  Forall passive extra → licence (os ++ extra) s signer → licence os s signer.
Proof.
  intros Hx (Ha & Hs & Hr). split_and!; (apply (since_passive s _ os extra); [|done]); (eapply Forall_impl; [exact Hx|]).
  - by intros o Ho (keys & -> & _).
  - by intros o Ho [v ->].
  - by intros o Ho ->.
Qed.

(** ** The form of a message for modern peers *)

(** What [prepare_key_cache_egress] makes of a frame, whoever it is for. *)
Definition modern_form (s : State) (bytes : list Z) : option (list Z) :=
  '(h, _) ← deserialize bytes;
  if negb (registered s (topic h)) then Some bytes else
  '(m, _) ← get_gossip bytes;
  if bool_decide (version (gm_header m) = 2) then Some bytes else
  match variants s !! (blake3 bytes, 2) with Some b => Some b | None => put_gossip <$> reformat m 2 key end.

Lemma registered_topics (s s' : State) (t : TopicId) : topics s' = topics s → registered s' t = registered s t.
Proof. unfold registered. by intros ->. Qed.
Lemma modern_form_same (s s' : State) (bytes : list Z) : topics s' = topics s → variants s' = variants s → modern_form s' bytes = modern_form s bytes.
Proof. intros Ht Hv. unfold modern_form. destruct (deserialize bytes) as [[h l]|]; [|done]. cbn. by rewrite (registered_topics s s') , Hv. Qed.

Lemma variant_topics (s : State) (m : GossipMessage) (v : Z) (d : list Z) : topics (variant s m v key d).1 = topics s.
Proof. unfold variant. destruct (variants s !! _); [done|]. destruct (reformat m v key); [|done]. cbn zeta. by repeat case_bool_decide. Qed.
Lemma variant_value (s : State) (m : GossipMessage) (v : Z) (d : list Z) :
  match (variant s m v key d).2 with
  | Ok out => (match variants s !! (d, v) with Some b => Some b | None => put_gossip <$> reformat m v key end) = Some out
  | Err _ => True end ∧
  (match variants (variant s m v key d).1 !! (d, v) with Some b => Some b | None => put_gossip <$> reformat m v key end) =
  (match variants s !! (d, v) with Some b => Some b | None => put_gossip <$> reformat m v key end).
Proof.
  unfold variant. destruct (variants s !! (d, v)) as [b|] eqn:Hb; [cbn; by rewrite Hb|]. destruct (reformat m v key) as [out|] eqn:Hr; [|cbn; by rewrite Hb].
  cbn zeta. set (s1 := if bool_decide (version _ = v) then s else _). assert (variants s1 = variants s) as H1' by (unfold s1; by case_bool_decide).
  set (s2 := if bool_decide (MAX_VARIANT_BYTES < _) then _ else _). assert (variants s2 !! (d, v) = None) as H2' by (unfold s2; case_bool_decide; [apply lookup_empty|by rewrite H1']).
  cbn [fst snd]. split; [done|]. case_bool_decide; cbn; [by rewrite lookup_insert_eq|by rewrite H2'].
Qed.

Lemma verify_eager_state (s : State) (m : GossipMessage) :
  topics (verify_inner_if_eager get_u32 s m).1 = topics s ∧ variants (verify_inner_if_eager get_u32 s m).1 = variants s.
Proof.
  unfold verify_inner_if_eager. case_bool_decide; [|done]. destruct (gm_payload m); [|done]. unfold verify_inner. destruct (topics s !! _); [|done]. by destruct (kv_verify _ _).
Qed.

(** Preparing a frame yields its modern form, and does not change it. *)
Lemma prepare_modern (s : State) (p : PeerId) (session : AuthenticatedSession) (bytes : list Z) (r : Readings) :
  let '(s', res) := prepare_key_cache_egress get_u32 s live key p session bytes r in
  modern_form s' bytes = modern_form s bytes ∧ ∀ out, res = Ok (Some out) → modern_form s bytes = Some out.
Proof.
  unfold prepare_key_cache_egress. destruct (deserialize bytes) as [[h l]|] eqn:Hd; [|done].
  destruct (registered s (topic h)) eqn:Hreg; cbn [negb].
  2: { split; [done|]. intros out [= <-]. unfold modern_form. rewrite Hd. cbn. by rewrite Hreg. }
  destruct (get_gossip bytes) as [[m trailing]|] eqn:Hm; [|done]. destruct (negb _); [done|].
  pose proof (verify_eager_state s m) as Hv. destruct (verify_inner_if_eager get_u32 s m) as [s1 []]; cbn [fst] in Hv; destruct Hv as [Ht1 Hv1]; [|split; [by apply modern_form_same|done]].
  set (legacy := if has_grant s1 p (topic h) && _ then _ else _).
  assert (topics legacy.1 = topics s ∧ variants legacy.1 = variants s) as [Ht2 Hv2].
  { unfold legacy. destruct (_ && _); [|done]. pose proof (permitted_quieter s1 (topic h) session r) as Hq. rewrite (qt_topics _ _ Hq), (proj1 (qt_variants _ _ Hq)). done. }
  destruct legacy as [s2 []]; cbn [fst] in *; [split; [by apply modern_form_same|done]|].
  assert (modern_form s bytes = if bool_decide (version (gm_header m) = 2) then Some bytes else
            match variants s !! (blake3 bytes, 2) with Some b => Some b | None => put_gossip <$> reformat m 2 key end) as Hform.
  { unfold modern_form. rewrite Hd. cbn. rewrite Hreg. cbn [negb]. by rewrite Hm. }
  case_bool_decide as H2; [split; [by apply modern_form_same|]; intros out [= <-]; exact Hform|].
  pose proof (variant_value s2 m 2 (blake3 bytes)) as [Hout Hsame]. pose proof (variant_topics s2 m 2 (blake3 bytes)) as Ht3.
  rewrite Hv2 in Hout, Hsame. destruct (variant s2 m 2 key (blake3 bytes)) as [s3 res]. cbn [fst snd] in *.
  assert (modern_form s3 bytes = modern_form s bytes) as Hkeep.
  { rewrite Hform. unfold modern_form. rewrite Hd. cbn. rewrite (registered_topics s s3) by congruence. rewrite Hreg. cbn [negb]. rewrite Hm. cbn. by rewrite bool_decide_false by done. }
  destruct res as [o|e]; (split; [exact Hkeep|]); [|done]. intros out [= <-]. by rewrite Hform, Hout.
Qed.

Lemma serialize_v2 (h : MessageHeader) : version h = 2 → ∃ rest, serialize h = 2 :: rest.
Proof. intros Hv. unfold serialize, header_elements. rewrite fmap_app, concat_app. csimpl. rewrite Hv, enc_u8 by done. eauto. Qed.

(** A modern form of a legacy frame is not a key-cache frame. *)
Lemma modern_form_legacy (mos : list MOp) (bytes out : list Z) :
  is_v3 bytes = false → modern_form (reach mos) bytes = Some out → is_v3 out = false.
Proof.
  intros Hb. assert (∀ m, in_format key m 2 out → is_v3 out = false) as Hf.
  { intros m (m' & -> & Hv & _). destruct (serialize_v2 _ Hv) as [rest Hs]. unfold is_v3, strip_prefix, put_gossip. rewrite Hs. by rewrite decide_False. }
  unfold modern_form. destruct (deserialize bytes) as [[h l]|]; [|done]. cbn. destruct (negb _); [by intros [= <-]|]. destruct (get_gossip bytes) as [[m trailing]|]; [|done]. cbn.
  case_bool_decide; [by intros [= <-]|]. destruct (variants (reach mos) !! _) as [b|] eqn:Hv.
  - intros [= ->]. destruct (variants_sound_run get_u32 key mos _ _ _ Hv) as (b' & m' & _ & _ & _ & Hform). by eapply Hf.
  - intros (m' & Hr & ->)%fmap_Some. by eapply Hf, reformat_format.
Qed.

(** ** The encoder *)

(** What a fan-out keeps of its encodings. *)
Definition encodings_ok (form : option (list Z)) (encoded : gmap (list Z * bool) (list Z)) : Prop :=
  ∀ d reference wire, encoded !! (d, reference) = Some wire →
    ∃ out m rest, form = Some out ∧ get_gossip out = Some (m, rest) ∧ (encode m reference = Ok wire ∨ wire = out).

(** The frame for [p] is a key-cache frame of the message; the reference form
    only outside Critical topics and under a licence. *)
Definition chosen (os : list KOp) (form : option (list Z)) (priority : TopicPriority) (p : PeerId) (wire : list Z) : Prop :=
  is_v3 wire = true →
  ∃ out m rest reference, form = Some out ∧ get_gossip out = Some (m, rest) ∧ encode m reference = Ok wire ∧
    (reference = true → priority ≠ Critical ∧ ∃ s, live p = Some s ∧ licence os s (from_pubkey (gm_public_key m))).

(** The state of an encoder on its way. *)
Record encoding (os : list KOp) (form : option (list Z)) (bytes : list Z) (x : Shared) : Prop := {
  en_cache : ∃ extra, Forall passive extra ∧ cache x = krun key_cache_default (os ++ extra);
  en_form : modern_form (migration x) bytes = form;
}.

Lemma krun_snoc (c : KeyCache) (os : list KOp) (o : KOp) : krun c (os ++ [o]) = kexec (krun c os) o.
Proof. unfold krun. by rewrite foldl_app. Qed.

Lemma encode_peer (os : list KOp) (form : option (list Z)) (x : Shared) (p : PeerId) (bytes : list Z) (priority : TopicPriority)
    (encoded : gmap (list Z * bool) (list Z)) (now : Z) (r : Readings) :
  is_v3 bytes = false → (∀ out, form = Some out → is_v3 out = false) →
  encoding os form bytes x → encodings_ok form encoded →
  let '(x', encoded', wire) := wire_bytes_for_peer_cached get_u32 live key x p bytes priority encoded now r in
  encoding os form bytes x' ∧ encodings_ok form encoded' ∧ chosen os form priority p wire.
Proof.
  intros Hb Hform Hx He. unfold wire_bytes_for_peer_cached. rewrite Hb.
  assert (∀ wire, is_v3 wire = false → chosen os form priority p wire) as Hplain by (intros w Hw Hv; congruence).
  destruct (live p) as [session|] eqn:Hlive; [|split_and!; auto]. destruct Hx as [(extra & Hpas & Hc) Hf].
  set (c := observe_session (cache x) session now).
  assert (∃ extra, Forall passive extra ∧ c = krun key_cache_default (os ++ extra)) as (extra1 & Hpas1 & Hc1).
  { exists (extra ++ [KObserve session now]). split; [apply Forall_app; split; [done|by constructor]|]. unfold c. by rewrite Hc, app_assoc, krun_snoc. }
  assert (∀ s, modern_form s bytes = form → encoding os form bytes (mkShared s c)) as Hen by (intros s Hs; split; [by exists extra1|done]).
  destruct (supports_v3 c session); cbn [negb migration cache]; [|split_and!; auto].
  pose proof (prepare_modern (migration x) p session bytes r) as Hp. destruct (prepare_key_cache_egress _ _ _ _ _ _ _ _) as [s res]. destruct Hp as [Hsame Hout].
  rewrite Hf in Hsame, Hout. specialize (Hen s Hsame). destruct res as [[out|]|e]; [|split_and!; auto..]. specialize (Hout out eq_refl).
  destruct (get_gossip out) as [[m rest]|] eqn:Hm; [|split_and!; auto]. case_bool_decide as Hctl; [split_and!; auto|].
  set (signer := from_pubkey (gm_public_key m)). set (choice := if bool_decide (priority ≠ Critical) then supports_ref c session signer else (c, false)).
  assert ((∃ extra, Forall passive extra ∧ choice.1 = krun key_cache_default (os ++ extra)) ∧ (choice.2 = true → priority ≠ Critical ∧ licence os session signer)) as [Hc2 Hlic].
  { unfold choice. case_bool_decide as Hpr; [|split; [by exists extra1|done]]. split.
    - exists (extra1 ++ [KSupportsRef session signer]). split; [apply Forall_app; split; [done|by constructor]|]. by rewrite app_assoc, krun_snoc, Hc1.
    - intros Href. split; [done|]. apply (licence_passive os extra1); [done|]. apply supports_licence. by rewrite <-Hc1. }
  destruct choice as [c2 reference]. cbn [fst snd] in *.
  assert (encoding os form bytes (mkShared s c2)) as Hen2 by (by split).
  assert (∀ wire, encode m reference = Ok wire ∨ wire = out → chosen os form priority p wire) as Hcho.
  { intros w [Hw| ->]; [|by apply Hplain, Hform]. intros _. exists out, m, rest, reference. split_and!; [done..|]. intros Href. destruct (Hlic Href) as [? ?]. split; [done|by exists session]. }
  destruct (encoded !! (blake3 out, reference)) as [wire|] eqn:Henc.
  - destruct (He _ _ _ Henc) as (out' & m' & rest' & Hout' & Hm' & Hw). split_and!; [done|done|]. apply Hcho. by simplify_eq.
  - set (wire := match encode m reference with Ok w => w | Err _ => out end).
    assert (encode m reference = Ok wire ∨ wire = out) as Hw by (unfold wire; destruct (encode m reference); auto). split_and!; [done| |by apply Hcho].
    intros d r' w. rewrite lookup_insert_Some. intros [[[= <- <-] <-]|[_ Hw']]; [|by eapply He]. exists out, m, rest. by split_and!.
Qed.

Lemma encode_peers (os : list KOp) (form : option (list Z)) (x : Shared) (peers : list (PeerId * Z * Readings)) (bytes : list Z) (priority : TopicPriority)
    (encoded : gmap (list Z * bool) (list Z)) (p : PeerId) (wire : list Z) :
  is_v3 bytes = false → (∀ out, form = Some out → is_v3 out = false) →
  encoding os form bytes x → encodings_ok form encoded →
  (wire_bytes_for_peers get_u32 live key x peers bytes priority encoded).2 !! p = Some wire → chosen os form priority p wire.
Proof.
  intros Hb Hform. revert x encoded. induction peers as [|[[q now] r] peers IH]; intros x encoded Hx He; [done|]. cbn [wire_bytes_for_peers].
  pose proof (encode_peer os form x q bytes priority encoded now r Hb Hform Hx He) as Hq. destruct (wire_bytes_for_peer_cached _ _ _ _ _ _ _ _ _ _) as [[x' encoded'] w].
  destruct Hq as (Hx' & He' & Hw). specialize (IH x' encoded' Hx' He'). destruct (wire_bytes_for_peers _ _ _ _ _ _ _ _) as [x2 rest]. cbn [snd] in *.
  destruct (rest !! q) eqn:Hr; [done|]. cbn [snd]. rewrite lookup_insert_Some. by intros [[<- <-]|[_ Hl]]; [|apply IH].
Qed.

(** C9. References go only where they are licensed.  In every reachable state of
    the migration policy and of the key cache: (1) the cache says that a peer
    can resolve a reference only under a licence -- on this very connection the
    peer acknowledged that signer's key, this node's hello was sent and the
    peer's was received, in whatever order, and the connection has been neither
    replaced nor forgotten since any of the three; (2) the encoder gives a peer
    of a fan-out, whose other peers may be licensed or not, the reference form
    of a message only outside Critical topics and under a licence for its live
    connection; (3) a frame that decodes as a reference is handed to the
    transport only under such a licence at that moment, and is released
    unchanged and only on that connection. *)
Theorem reference_licensed (mos : list MOp) (os : list KOp) :
  let x := mkShared (reach mos) (krun key_cache_default os) in
  (∀ s signer, (supports_ref (cache x) s signer).2 = true → licence os s signer) ∧
  (∀ peers bytes priority p wire,
    is_v3 bytes = false → (wire_bytes_for_peers get_u32 live key x peers bytes priority ∅).2 !! p = Some wire →
    chosen os (modern_form (reach mos) bytes) priority p wire) ∧
  (∀ p bytes r m signer sending,
    decode bytes = Ok (DecodedRef m signer) → (send_to_peer get_u32 live key me x p bytes r).2 = Ok sending →
    ∃ s t, sending = GuardedV3 s t bytes ∧ live p = Some s ∧ licence os s signer ∧
      ∀ later actual r' out, (admit_v3 later p s actual t bytes r').2 = Ok out → actual = s ∧ out = bytes).
Proof.
  intros x. split_and!.
  - intros s signer. apply supports_licence.
  - intros peers bytes priority p wire Hb. apply encode_peers; [done|intros out; by apply modern_form_legacy| |].
    + split; [|done]. exists []. by rewrite app_nil_r.
    + intros d ref w. by rewrite lookup_empty.
  - intros p bytes r m signer sending Hd. unfold send_to_peer.
    assert (is_v3 bytes = true) as -> by (unfold is_v3, decode in *; by destruct (strip_prefix WIRE_MARKER bytes)).
    destruct (live p) as [s|]; [|done]. rewrite Hd. destruct (supports_v3 (cache x) s); cbn [negb]; [|done].
    pose proof (supports_licence os s signer) as Hl. change (cache x) with (krun key_cache_default os). destruct (supports_ref _ s signer) as [c []]; cbn [negb]; [|done].
    intros [= <-]. exists s, (topic (gm_header m)). split_and!; [done|done|by apply Hl|].
    intros later actual r' out. unfold admit_v3. case_bool_decide as Ha; cbn [negb]; [|done]. destruct (negb _); [by intros [= <-]|]. destruct (modern_allowed _ _ _ _ _) as [s' []]; by intros [= <-].
Qed.
End Licence.
End KeyLicence.
