(* ===== verification/CompatWitness.v ===== *)
(** * Migration of legacy senders: witnesses

    A registered topic with one author, a journal with its header only, and the
    runs on which the theorems of [CompatEgress.v] and [KeyLicence.v] are
    applied. *)

From S2P Require Import Prelude Types Identity MessageCache Plumtree PlumtreeWitness KeyCodec KeyCache KeyCacheProps KeyExchange KeyCacheWitness Compat CompatProps CompatEgress KeyLicence.
Import Identity Plumtree KeyCodec KeyCache KeyExchange Compat CompatProps CompatEgress KeyLicence.
Import MessageCache(mkInner, VerifiedInner).
Import KeyCacheWitness(pk0, toy_hashes, toy_postcard, id0, keya, sb, only_session, m0, hello, keys_put, acks_put, iter_pending, iter_sessions, iter_ids).

#[local] Open Scope Z_scope.

Module CompatWitness.

#[local] Existing Instance toy_hashes.
#[local] Existing Instance toy_postcard.

Definition sig0 : list Z := replicate 3309 4.
#[local] Instance one_signature : MlDsa := {|
  pqc_generate r := Some ([r], [r]);
  pqc_secret_key := Some;
  pqc_public_key := Some;
  pqc_signature := Some;
  pqc_sign _ _ := Some sig0;
  pqc_verify _ _ sig := Some (bool_decide (sig = sig0));
|}.

(** One byte: enough for the counts of the witnesses. *)
Definition get_small (l : list Z) : option (Z * list Z) := match l with n :: l => Some (n, l) | [] => None end.

Definition kvt : SignedKvTopic := mkKvTopic (bytes_of_string "kv") Delta 1 {[id0]}.
Definition body : list Z := [7; 8; 9].
Definition env : list Z := envelope id0 pk0 sig0 (bytes_of_string "kv") body.

Ltac evaluate := apply (bool_decide_unpack _); by vm_compute.

Lemma inner_envelope_accepted_witness : kv_verify kvt env = Ok (mkInner id0 (blake3 env) 1).
Proof.
  apply (inner_envelope_accepted kvt env (mkInner id0 (blake3 env) 1)); [evaluate|]. exists pk0, sig0, body. split_and!; try evaluate; try reflexivity.
Defined.

Definition journal : File := mkFile 100 FLOORS_HEADER.
Definition empty_floors : ModernFloors := mkFloors ∅ (Some (mkStamp 100 12)).
Definition g0 : LegacyGrant := mkGrant id0 (kv_topic kvt) AUDITED_RECEIVER 1 1 [105] [114] (50 + DAY).
Definition granted : list MOp := [MInstall empty_floors; MRegister kvt; MGrant g0 sb 50 (steady journal) 50 1000].
Definition later : Readings := mkReadings 2000 60 60 2000 60 (steady journal).
Definition m1 : GossipMessage := mkGossip (mkHeader 1 (kv_topic kvt) (replicate 32 8) Eager 0 10 None) (Some env) sig0 pk0.

Lemma legacy_requires_live_grant_witness :
  licensed get_small keya granted (kv_topic kvt) sb later ∧
  ∃ out, (admit_legacy get_small (mrun get_small keya migration_default granted).1 keya id0 m1 (blake3 (put_gossip m1)) sb later).2 = Ok out ∧ peer sb = id0.
Proof.
  destruct (legacy_requires_live_grant get_small keya granted (kv_topic kvt) m1 later eq_refl) as [Hin Hout]. split.
  - destruct (Hin id0 (Some sb) 2000) as (x & Hx & _ & Hl); [by vm_compute..|]. by injection Hx as <-.
  - exists (put_gossip m1). assert (Ha : (admit_legacy get_small (mrun get_small keya migration_default granted).1 keya id0 m1 (blake3 (put_gossip m1)) sb later).2 = Ok (put_gossip m1)) by by vm_compute.
    split; [exact Ha|]. by destruct (Hout id0 (blake3 (put_gossip m1)) sb (put_gossip m1) Ha) as [Hp _].
Defined.

Definition installed : State := (mrun get_small keya migration_default [MInstall empty_floors]).1.
Definition required : State := (require_v2 installed id0 (steady journal) (mkAppend true true)).1.1.
Lemma modern_floor_permanent_witness :
  (permitted (mrun get_small keya required granted).1 (kv_topic kvt) sb later).2 = false ∧
  ∃ f, floors_open (steady (mkFile 200 (FLOORS_HEADER ++ floor_record id0))) = Ok f ∧ id0 ∈ floor_peers f.
Proof.
  destruct (modern_floor_permanent get_small keya installed required id0 (steady journal) (mkAppend true true) (Some (floor_record id0))) as [Hrun Hdisk]; [reflexivity|split; evaluate|].
  split; [by apply Hrun|]. destruct (Hdisk (floor_record id0) journal ∅ eq_refl eq_refl ltac:(evaluate) 200) as (f & Hf & Hp & _). exists f. split; [exact Hf|]. rewrite Hp. set_solver.
Defined.

Definition is_now (r : result Egress string) : bool := match r with Ok (Now _) => true | _ => false end.
Definition unlicensed : list MOp := [MInstall empty_floors; MRegister kvt].
Lemma egress_format_witness :
  ∃ s' out, send get_small (mrun get_small keya migration_default unlicensed).1 (only_session sb) id0 keya id0 (put_gossip m1) later = (s', Ok (Now out)) ∧
    in_format keya m1 2 out.
Proof.
  destruct (send get_small (mrun get_small keya migration_default unlicensed).1 (only_session sb) id0 keya id0 (put_gossip m1) later) as [s' e] eqn:Hs.
  assert (He : is_now e = true) by (change e with (s', e).2; rewrite <-Hs; by vm_compute). destruct e as [[out|m' d]|err]; [|discriminate He|discriminate He]. exists s', out. split; [reflexivity|].
  destruct (egress_format get_small keya unlicensed (only_session sb) id0 id0 (put_gossip m1) m1 later s' (Now out)) as [_ Hf]; [|by vm_compute|by vm_compute|exact Hs|].
  - intros b v Hin. exfalso. unfold unlicensed in Hin. repeat (apply elem_of_cons in Hin as [Hin|Hin]; [done|]). by apply not_elem_of_nil in Hin.
  - destruct Hf as [[Hv _]|Hf]; [done|exact Hf].
Defined.

(** ** Two peers of a fan-out, one licensed *)

#[local] Existing Instances keys_put acks_put iter_pending iter_sessions iter_ids.

(** Both have negotiated; only the peer of [sb] acknowledged the key. *)
Definition so : AuthenticatedSession := mkSession (mkPeerId (replicate 32 9)) 5.
Definition two_sessions (p : PeerId) : option AuthenticatedSession := if decide (p = peer so) then Some so else only_session sb p.
Definition one_licensed : list KOp := KVerified id0 (gm_public_key m0) None :: KAck sb [id0] :: hello sb ++ hello so ++ [KAck sb [id0]].
#[local] Notation shared := (mkShared (mrun get_small keya migration_default []).1 (krun key_cache_default one_licensed)).
Definition wire_form (reference : bool) : list Z := match encode m0 reference with Ok w => w | Err _ => [] end.

Lemma reference_licensed_witness :
  let frames := (wire_bytes_for_peers get_small two_sessions keya shared [(peer so, 1, later); (id0, 1, later)] (put_gossip m0) Bulk ∅).2 in
  frames !! peer so = Some (wire_form false) ∧
  (frames !! id0 = Some (wire_form true) ∧ ∃ s, two_sessions id0 = Some s ∧ licence one_licensed s id0) ∧
  ∃ s t, (send_to_peer get_small two_sessions keya (peer so) shared id0 (wire_form true) later).2 = Ok (GuardedV3 s t (wire_form true)) ∧ licence one_licensed s id0.
Proof.
  intros frames. destruct (reference_licensed get_small keya two_sessions (peer so) [] one_licensed) as (_ & H2 & H3).
  assert (frames !! id0 = Some (wire_form true)) as Hf by evaluate. split; [evaluate|split].
  - split; [exact Hf|].
    assert (is_v3 (put_gossip m0) = false ∧ is_v3 (wire_form true) = true) as [Hb Hv] by (split; by vm_compute).
    destruct (H2 _ _ _ _ _ Hb Hf Hv) as (out & m & rest & reference & Hform & Hm & Hw & Hlic).
    assert (Some out = Some (put_gossip m0)) as [= ->] by (rewrite <-Hform; evaluate).
    assert (get_gossip (put_gossip m0) = Some (m0, [])) as Hm0 by (by vm_compute). rewrite Hm0 in Hm. injection Hm as <- <-.
    destruct reference; [destruct (Hlic eq_refl) as [_ Hl]; exact Hl|]. exfalso. revert Hw. by vm_compute.
  - assert (decode (wire_form true) = Ok (DecodedRef (mkGossip (gm_header m0) (gm_payload m0) (gm_signature m0) []) id0)) as Hd by (by vm_compute).
    destruct (send_to_peer get_small two_sessions keya (peer so) shared id0 (wire_form true) later).2 as [sending|e] eqn:Hs; [|exfalso; revert Hs; by vm_compute].
    destruct (H3 _ _ _ _ _ _ Hd Hs) as (s & t & -> & _ & Hlic & _). exists s, t. split; [reflexivity|exact Hlic].
Defined.
End CompatWitness.
