(* ===== verification/Coordinator.v ===== *)
(** * Coordinator adverts ([crates/coordinator])

    Nodes that offer to help others join advertise themselves: signed adverts,
    the adapter that stores them, the handler that authenticates them and
    answers queries, the bootstrap flow that picks one, the publisher, and the
    two deprecated caches.

    The clock is an argument: one reading per advert where the code reads it for
    each, in a function from the peer; [Instant]s are nanoseconds, [unix_millis]
    milliseconds.  The application's bootstrap cache, CBOR and ML-DSA are
    parameters.  A typed key is its bytes.  An [insert_advert] is one step: it
    awaits the bootstrap cache only after its own map is updated. *)

From S2P Require Import Prelude Types Identity MessageCache Plumtree.

#[local] Open Scope Z_scope.

(** ** Data *)

Module Coordinator.

Notation SocketAddr := (list Z * Z)%type.

Record PeerRoles := mkRoles { coordinator : bool; reflector : bool; rendezvous : bool; relay : bool }.
Definition roles_default : PeerRoles := mkRoles true true false false.

Inductive NatClass := Eim | Edm | Symmetric | Unknown.

Record AddrHint := mkHint { addr : SocketAddr; observed_at : Z }.
Definition hint_new (a : SocketAddr) (now : Z) : AddrHint := mkHint a now.

Record TransportHint := mkTransport { transport_type : string; endpoint : option string; available : bool }.
Definition transport_new (t : string) : TransportHint := mkTransport t None true.
Definition with_endpoint (t e : string) : TransportHint := mkTransport t (Some e) true.
Definition unavailable (h : TransportHint) : TransportHint := mkTransport (transport_type h) (endpoint h) false.

(** [CoordinatorAdvert] is the fields it signs, with the signature. *)
Record SignableFields := mkFields {
  v : Z;
  peer : PeerId;
  roles : PeerRoles;
  addr_hints : list AddrHint;
  nat_class : NatClass;
  not_before : Z;
  not_after : Z;
  score : Z;
  transport_hints : list TransportHint;
}.
Record CoordinatorAdvert := mkAdvert { fields : SignableFields; sig : list Z }.
Notation a_peer a := (peer (fields a)).

Record FindCoordinatorQuery := mkQuery { query_id : list Z; origin : PeerId; ttl : Z; created_at : Z }.
Record FindCoordinatorResponse := mkResponse { r_query_id : list Z; responder : PeerId; r_adverts : list CoordinatorAdvert }.

Inductive TraversalMethod := Direct | Reflexive | Relay.
Record BootstrapResult := mkResult { b_peer : PeerId; b_addr : SocketAddr; method : TraversalMethod }.
Inductive BootstrapAction := Connect (r : BootstrapResult) | SendQuery (q : FindCoordinatorQuery) | NoAction.

Record PeerCacheEntry := mkEntry {
  peer_id : PeerId;
  public_addrs : list SocketAddr;
  reflexive_addrs : list SocketAddr;
  relay_peer : option PeerId;
  last_success : Z;
  e_nat_class : NatClass;
  e_roles : PeerRoles;
}.

(** What serde and [ciborium] accept and return: a value of the Rust types whose
    byte strings fit the 4096-byte buffer of [ciborium::from_reader]. *)
Definition hint_ok (h : AddrHint) : Prop := (length (addr h).1 = 4%nat ∨ length (addr h).1 = 16%nat) ∧ Forall is_byte (addr h).1 ∧ 0 ≤ (addr h).2 < 65536 ∧ u64 (observed_at h).
Definition advert_ok (a : CoordinatorAdvert) : Prop :=
  is_byte (v (fields a)) ∧ is_array 32 (peer_bytes (a_peer a)) ∧ Forall hint_ok (addr_hints (fields a)) ∧ u64 (not_before (fields a)) ∧ u64 (not_after (fields a)) ∧
  - 2 ^ 31 ≤ score (fields a) < 2 ^ 31 ∧ Forall is_byte (sig a) ∧ (length (sig a) ≤ 4096)%nat.
End Coordinator.

(** The CBOR encodings of the derived serde implementations. *)
Class CoordCodec := {
  put_fields : Coordinator.SignableFields → list Z;
  put_advert : Coordinator.CoordinatorAdvert → list Z;
  get_cbor_advert : list Z → option Coordinator.CoordinatorAdvert;
  put_entries : list Coordinator.PeerCacheEntry → list Z;
  get_entries : list Z → option (list Coordinator.PeerCacheEntry);
  get_put_advert a : Coordinator.advert_ok a → get_cbor_advert (put_advert a) = Some a;
  get_entries_empty : get_entries [] = None;
}.

(** [ant_quic]'s bootstrap cache, owned by the application; the selections take
    the randomness they draw. *)
Class BootstrapCache := {
  BC : Type;
  CachedPeer : Type;
  cached_id : CachedPeer → PeerId;
  add_from_connection : BC → PeerId → list (list Z * Z) → BC;
  bc_select_coordinators : BC → nat → Z → list CachedPeer;
  bc_select_relay_peers : BC → nat → Z → list CachedPeer;
  bc_select_peers : BC → nat → Z → list CachedPeer;
  bc_record_success : BC → PeerId → Z → BC;
  bc_record_failure : BC → PeerId → BC;
  bc_remove : BC → PeerId → BC;
}.

Module CoordinatorOps.
Import Coordinator.

(** ** Adverts *)

Definition MAX_FIND_COORDINATOR_TTL : Z := 3.

Section Adverts.
Context `{Hashes} `{MlDsa} `{CoordCodec}.

Definition coordinator_topic : TopicId := mkTopicId (blake3 (bytes_of_string "saorsa-coordinator-topic")).

Definition advert_new (p : PeerId) (r : PeerRoles) (hints : list AddrHint) (nat : NatClass) (validity now : Z) : CoordinatorAdvert :=
  mkAdvert (mkFields 1 p r hints nat now (u64_add now validity) 0 []) [].

Definition set_transport_hints (a : CoordinatorAdvert) (l : list TransportHint) : CoordinatorAdvert :=
  let f := fields a in mkAdvert (mkFields (v f) (peer f) (roles f) (addr_hints f) (nat_class f) (not_before f) (not_after f) (score f) l) (sig a).
Definition with_transport_hints (a : CoordinatorAdvert) (l : list TransportHint) : CoordinatorAdvert := set_transport_hints a l.
Definition add_transport_hint (a : CoordinatorAdvert) (h : TransportHint) : CoordinatorAdvert := set_transport_hints a (transport_hints (fields a) ++ [h]).
Definition has_transport (a : CoordinatorAdvert) (t : string) : bool :=
  existsb (λ h, bool_decide (transport_type h = t) && available h) (transport_hints (fields a)).
Definition available_transports (a : CoordinatorAdvert) : list TransportHint := filter (λ h, available h = true) (transport_hints (fields a)).

Definition sign (a : CoordinatorAdvert) (key : list Z) : option CoordinatorAdvert :=
  s ← pqc_sign key (put_fields (fields a)); Some (mkAdvert (fields a) s).

(** [None] is an error. *)
Definition verify (a : CoordinatorAdvert) (public_key : list Z) : option bool :=
  s ← pqc_signature (sig a); pqc_verify public_key (put_fields (fields a)) s.

Definition is_valid (a : CoordinatorAdvert) (now : Z) : bool := bool_decide (not_before (fields a) ≤ now ∧ now ≤ not_after (fields a)).

Definition to_bytes (a : CoordinatorAdvert) : list Z := put_advert a.
Definition from_bytes (data : list Z) : option CoordinatorAdvert := get_cbor_advert data.

(** ** Queries *)

(** [rand_bytes] are the sixteen bytes drawn. *)
Definition query_new (origin : PeerId) (rand_bytes : list Z) (now : Z) : FindCoordinatorQuery :=
  mkQuery (blake3 (peer_bytes origin ++ rand_bytes)) origin MAX_FIND_COORDINATOR_TTL now.
Definition decrement_ttl (q : FindCoordinatorQuery) : FindCoordinatorQuery * bool :=
  if bool_decide (0 < ttl q) then (mkQuery (query_id q) (origin q) (ttl q - 1) (created_at q), true) else (q, false).
Definition is_expired (q : FindCoordinatorQuery) (now : Z) : bool := bool_decide (u64_add (created_at q) 30000 < now).

End Adverts.

(** ** The adapter *)

Section Adapter.
Context `{Hashes} `{MlDsa} `{CoordCodec} `{BootstrapCache} `{!HashIter PeerId CoordinatorAdvert}.

Record GossipCacheAdapter := mkAdapter { bootstrap_cache : BC; adverts : gmap PeerId CoordinatorAdvert }.
Definition adapter_new (b : BC) : GossipCacheAdapter := mkAdapter b ∅.
Definition set_adverts (c : GossipCacheAdapter) (m : gmap PeerId CoordinatorAdvert) : GossipCacheAdapter := mkAdapter (bootstrap_cache c) m.

Definition insert_advert (c : GossipCacheAdapter) (a : CoordinatorAdvert) (now : Z) : GossipCacheAdapter * bool :=
  if negb (is_valid a now) then (c, false) else
  (mkAdapter (add_from_connection (bootstrap_cache c) (a_peer a) (addr <$> addr_hints (fields a))) (<[a_peer a := a]> (adverts c)), true).

Definition get_advert (c : GossipCacheAdapter) (p : PeerId) (now : Z) : option CoordinatorAdvert :=
  a ← adverts c !! p; if is_valid a now then Some a else None.

(** The adverts valid at their readings, in the order of the map. *)
Definition valid_adverts (c : GossipCacheAdapter) (clk : PeerId → Z) : list CoordinatorAdvert :=
  filter (λ a, is_valid a (clk (a_peer a)) = true) ((hiter (adverts c)).*2).
(** [cmp::Reverse(a.score)]. *)
Definition by_score (a b : CoordinatorAdvert) : comparison := Z.compare (score (fields b)) (score (fields a)).
Definition get_all_adverts (c : GossipCacheAdapter) (clk : PeerId → Z) : list CoordinatorAdvert := sort_by by_score (valid_adverts c clk).
Definition get_adverts_by_role (c : GossipCacheAdapter) (role_filter : CoordinatorAdvert → bool) (clk : PeerId → Z) : list CoordinatorAdvert :=
  filter (λ a, role_filter a = true) (valid_adverts c clk).

Definition enrich (c : GossipCacheAdapter) (peers : list CachedPeer) (clk : PeerId → Z) : list (CachedPeer * option CoordinatorAdvert) :=
  (λ p, (p, get_advert c (cached_id p) (clk (cached_id p)))) <$> peers.
Definition select_coordinators (c : GossipCacheAdapter) (n : nat) (rand : Z) (clk : PeerId → Z) : list (CachedPeer * option CoordinatorAdvert) :=
  enrich c (bc_select_coordinators (bootstrap_cache c) n rand) clk.
Definition select_relays (c : GossipCacheAdapter) (n : nat) (rand : Z) (clk : PeerId → Z) : list (CachedPeer * option CoordinatorAdvert) :=
  enrich c (bc_select_relay_peers (bootstrap_cache c) n rand) clk.

Definition select_peers (c : GossipCacheAdapter) (n : nat) (rand : Z) : list CachedPeer := bc_select_peers (bootstrap_cache c) n rand.
Definition record_success (c : GossipCacheAdapter) (p : PeerId) (rtt_ms : Z) : GossipCacheAdapter := mkAdapter (bc_record_success (bootstrap_cache c) p rtt_ms) (adverts c).
Definition record_failure (c : GossipCacheAdapter) (p : PeerId) : GossipCacheAdapter := mkAdapter (bc_record_failure (bootstrap_cache c) p) (adverts c).

Definition advert_count (c : GossipCacheAdapter) : nat := size (adverts c).
Definition prune_expired_adverts (c : GossipCacheAdapter) (clk : PeerId → Z) : GossipCacheAdapter * nat :=
  let to_remove := (filter (λ pa, is_valid pa.2 (clk pa.1) = false) (hiter (adverts c))).*1 in
  (set_adverts c (foldl (λ m p, delete p m) (adverts c) to_remove), length to_remove).
Definition remove (c : GossipCacheAdapter) (p : PeerId) : GossipCacheAdapter := mkAdapter (bc_remove (bootstrap_cache c) p) (delete p (adverts c)).
Definition clear_adverts (c : GossipCacheAdapter) : GossipCacheAdapter := set_adverts c ∅.

(** ** The order of preference *)

Definition hint_weight (a : CoordinatorAdvert) : Z :=
  let r := roles (fields a) in Z.b2z (coordinator r) + Z.b2z (relay r) + Z.b2z (rendezvous r) + Z.b2z (reflector r).
Definition by_hint (a b : CoordinatorAdvert) : comparison :=
  match Z.compare (hint_weight b) (hint_weight a) with Eq => Z.compare (score (fields b)) (score (fields a)) | c => c end.
Definition sort_adverts_by_hint (l : list CoordinatorAdvert) : list CoordinatorAdvert := sort_by by_hint l.

(** The first advert with an address, and its first address. *)
Fixpoint select_best_from_adverts (l : list CoordinatorAdvert) : option BootstrapResult :=
  match l with
  | [] => None
  | a :: l => match addr_hints (fields a) with h :: _ => Some (mkResult (a_peer a) (addr h) Direct) | [] => select_best_from_adverts l end
  end.

(** ** The handler *)

(** [CoordinatorHandler] with the adapter apart: the adapter is shared by
    reference with the rest of the node, and may be absent. *)
Record CoordinatorHandler := mkHandler { h_peer_id : PeerId; seen_queries : gmap (list Z) Z }.
Definition handler_new (p : PeerId) : CoordinatorHandler := mkHandler p ∅.

Definition handle_advert (c : option GossipCacheAdapter) (a : CoordinatorAdvert) (public_key : list Z) (now : Z) : option GossipCacheAdapter * option bool :=
  if negb (bool_decide (from_pubkey public_key = a_peer a)) then (c, Some false) else
  match verify a public_key with
  | None => (c, None)
  | Some false => (c, Some false)
  | Some true =>
      match c with
      | Some c => let '(c, ok) := insert_advert c a now in (Some c, Some ok)
      | None => (None, Some true)
      end
  end.

(** [instant] is read when the query is recorded, [now] by the expiry check. *)
Definition handle_find_query (h : CoordinatorHandler) (c : option GossipCacheAdapter) (q : FindCoordinatorQuery) (instant now : Z) (clk : PeerId → Z) :
    CoordinatorHandler * option FindCoordinatorResponse :=
  if bool_decide (is_Some (seen_queries h !! query_id q)) then (h, None) else
  let h := mkHandler (h_peer_id h) (<[query_id q := instant]> (seen_queries h)) in
  if is_expired q now then (h, None) else
  let '(q, go) := decrement_ttl q in
  if negb go then (h, None) else
  let coordinators := match c with Some c => get_all_adverts c clk | None => [] end in
  (h, Some (mkResponse (query_id q) (h_peer_id h) (sort_adverts_by_hint coordinators))).

(** The entries of a map of times that are at most [max_age] old; [age] is the
    unit of the comparison. *)
Definition young (m : gmap (list Z) Z) (keep : Z → bool) : gmap (list Z) Z := filter (λ kv, keep kv.2 = true) m.

Definition handler_prune (h : CoordinatorHandler) (c : option GossipCacheAdapter) (clk : PeerId → Z) (now : Z) : CoordinatorHandler * option GossipCacheAdapter * nat :=
  let '(c, pruned) := match c with Some c => let '(c, n) := prune_expired_adverts c clk in (Some c, n) | None => (None, O) end in
  (mkHandler (h_peer_id h) (young (seen_queries h) (λ t, bool_decide (elapsed_ns now t ≤ 30 * NANOS_PER_SEC))), c, pruned).

(** ** Bootstrap *)

Record Bootstrap := mkBootstrap { boot_peer_id : PeerId; boot_cache : GossipCacheAdapter; pending_queries : gmap (list Z) Z }.
Definition set_boot_cache (b : Bootstrap) (c : GossipCacheAdapter) : Bootstrap := mkBootstrap (boot_peer_id b) c (pending_queries b).
Definition set_pending (b : Bootstrap) (m : gmap (list Z) Z) : Bootstrap := mkBootstrap (boot_peer_id b) (boot_cache b) m.

Definition best_advert (b : Bootstrap) (clk : PeerId → Z) : option BootstrapResult :=
  select_best_from_adverts (sort_adverts_by_hint (get_all_adverts (boot_cache b) clk)).

Definition find_coordinator (b : Bootstrap) (clk : PeerId → Z) (rand_bytes : list Z) (now instant : Z) : Bootstrap * BootstrapAction :=
  match (if bool_decide (get_all_adverts (boot_cache b) clk = []) then None else best_advert b clk) with
  | Some r => (b, Connect r)
  | None =>
      let q := query_new (boot_peer_id b) rand_bytes now in
      (set_pending b (<[query_id q := instant]> (pending_queries b)), SendQuery q)
  end.

(** One advert of a response, with the two readings of the clock. *)
Definition accept_response_advert (c : GossipCacheAdapter) (e : CoordinatorAdvert * (Z * Z)) : GossipCacheAdapter :=
  let '(a, (now1, now2)) := e in
  if bool_decide (sig a = []) then c else
  if negb (is_valid a now1) then c else (insert_advert c a now2).1.

Definition handle_find_response (b : Bootstrap) (r : FindCoordinatorResponse) (times : list (Z * Z)) (clk : PeerId → Z) : Bootstrap * option BootstrapAction :=
  let b := set_pending b (delete (r_query_id r) (pending_queries b)) in
  let b := set_boot_cache b (foldl accept_response_advert (boot_cache b) (zip (r_adverts r) times)) in
  (b, Connect <$> best_advert b clk).

(** [as_secs() > 30]: whole seconds. *)
Definition prune_expired_queries (b : Bootstrap) (now : Z) : Bootstrap * nat :=
  let kept := young (pending_queries b) (λ t, bool_decide (elapsed_ns now t / NANOS_PER_SEC ≤ 30)) in
  (set_pending b kept, (size (pending_queries b) - size kept)%nat).
End Adapter.

(** ** The publisher *)

Section Publisher.
Context `{MlDsa} `{CoordCodec}.

Record CoordinatorPublisher := mkPublisher {
  p_peer_id : PeerId;
  p_roles : PeerRoles;
  p_addr_hints : list SocketAddr;
  p_nat_class : NatClass;
  signing_key : option (list Z);
  validity_duration : Z;
}.
Definition publisher_new (p : PeerId) (r : PeerRoles) (hints : list SocketAddr) (nat : NatClass) : CoordinatorPublisher := mkPublisher p r hints nat None 3600000.
Definition set_signing_key (p : CoordinatorPublisher) (key : list Z) : CoordinatorPublisher :=
  mkPublisher (p_peer_id p) (p_roles p) (p_addr_hints p) (p_nat_class p) (Some key) (validity_duration p).
Definition with_validity_duration (p : CoordinatorPublisher) (ms : Z) : CoordinatorPublisher :=
  mkPublisher (p_peer_id p) (p_roles p) (p_addr_hints p) (p_nat_class p) (signing_key p) ms.

(** [clk i] is read for the [i]-th address, [now] for the advert. *)
Definition create_advert (p : CoordinatorPublisher) (clk : nat → Z) (now : Z) : result CoordinatorAdvert string :=
  let a := advert_new (p_peer_id p) (p_roles p) (imap (λ i x, hint_new x (clk i)) (p_addr_hints p)) (p_nat_class p) (validity_duration p) now in
  match signing_key p with
  | Some key => match sign a key with Some a => Ok a | None => Err "signing failed" end
  | None => Err "No signing key set"
  end.
Definition publish_advert (p : CoordinatorPublisher) (clk : nat → Z) (now : Z) : result (list Z) string :=
  let? a := create_advert p clk now in Ok (to_bytes a).

(** The task of [PeriodicPublisher]: per tick its readings and whether the
    receiver is still there.  What the receiver gets. *)
Fixpoint periodic (p : CoordinatorPublisher) (ticks : list ((nat → Z) * Z * bool)) : list (list Z) :=
  match ticks with
  | [] => []
  | (clk, now, open) :: ticks =>
      match publish_advert p clk now with
      | Ok bytes => if (open : bool) then bytes :: periodic p ticks else []
      | Err _ => periodic p ticks
      end
  end.
End Publisher.

(** ** The deprecated caches *)

Section AdvertCache.
Context `{!LruPut PeerId CoordinatorAdvert}.

(** [AdvertCache] is its LRU cache. *)
Notation AdvertCache := (@lru PeerId CoordinatorAdvert _ _).
Definition DEFAULT_CAPACITY : Z := 100.
Definition advert_cache_new (capacity : Z) : AdvertCache := lru_new (if bool_decide (capacity = 0) then DEFAULT_CAPACITY else capacity).
Definition cache_insert (c : AdvertCache) (a : CoordinatorAdvert) (now : Z) : AdvertCache * bool :=
  if negb (is_valid a now) then (c, false) else (lru_put c (a_peer a) a, true).
Definition cache_get (c : AdvertCache) (p : PeerId) (now : Z) : AdvertCache * option CoordinatorAdvert :=
  let '(c, r) := lru_get c p in (c, a ← r; if is_valid a now then Some a else None).
Definition cache_valid (c : AdvertCache) (clk : PeerId → Z) : list CoordinatorAdvert := filter (λ a, is_valid a (clk (a_peer a)) = true) ((lru_iter c).*2).
Definition cache_get_all_sorted (c : AdvertCache) (clk : PeerId → Z) : list CoordinatorAdvert := sort_by by_score (cache_valid c clk).
Definition cache_get_by_role (c : AdvertCache) (role_filter : CoordinatorAdvert → bool) (clk : PeerId → Z) : list CoordinatorAdvert :=
  filter (λ a, role_filter a = true) (cache_valid c clk).
Definition cache_prune_expired (c : AdvertCache) (clk : PeerId → Z) : AdvertCache * nat :=
  let to_remove := (filter (λ pa, is_valid pa.2 (clk pa.1) = false) (lru_iter c)).*1 in
  (foldl (λ c p, (lru_pop c p).1) c to_remove, length to_remove).
Definition cache_clear (c : AdvertCache) : AdvertCache := lru_new (lru_cap c).
Definition cache_len (c : AdvertCache) (clk : PeerId → Z) : nat := length (cache_valid c clk).
End AdvertCache.

Section PeerCache.
Context `{CoordCodec} `{!HashIter PeerId PeerCacheEntry}.

(** [PeerCache] is its map. *)
Notation PeerCache := (gmap PeerId PeerCacheEntry).

Definition entry_new (p : PeerId) (addrs : list SocketAddr) (nat : NatClass) (r : PeerRoles) (now : Z) : PeerCacheEntry := mkEntry p addrs [] None now nat r.
Definition with_reflexive_addrs (e : PeerCacheEntry) (addrs : list SocketAddr) : PeerCacheEntry :=
  mkEntry (peer_id e) (public_addrs e) addrs (relay_peer e) (last_success e) (e_nat_class e) (e_roles e).
Definition with_relay_peer (e : PeerCacheEntry) (p : PeerId) : PeerCacheEntry :=
  mkEntry (peer_id e) (public_addrs e) (reflexive_addrs e) (Some p) (last_success e) (e_nat_class e) (e_roles e).
Definition mark_success (e : PeerCacheEntry) (now : Z) : PeerCacheEntry :=
  mkEntry (peer_id e) (public_addrs e) (reflexive_addrs e) (relay_peer e) now (e_nat_class e) (e_roles e).
Definition is_recent (e : PeerCacheEntry) (now : Z) : bool := bool_decide (u64_sub now (last_success e) < 24 * 3600 * 1000).

Definition peer_insert (c : PeerCache) (e : PeerCacheEntry) : PeerCache := <[peer_id e := e]> c.
Definition get_coordinators (c : PeerCache) : list PeerCacheEntry :=
  sort_by (λ a b, Z.compare (last_success b) (last_success a)) (filter (λ e, coordinator (e_roles e) = true) ((hiter c).*2)).
Definition get_by_role (c : PeerCache) (role_filter : PeerCacheEntry → bool) : list PeerCacheEntry := filter (λ e, role_filter e = true) ((hiter c).*2).
Definition prune_old (c : PeerCache) (now : Z) : PeerCache * nat :=
  let cutoff := u64_sub now (7 * 24 * 3600 * 1000) in
  let to_remove := (filter (λ pe, last_success pe.2 < cutoff) (hiter c)).*1 in
  (foldl (λ m p, delete p m) c to_remove, length to_remove).

Definition peer_clear (c : PeerCache) : PeerCache := ∅.

(** The file, [None] when it does not exist.  [save] is two steps: [File::create]
    truncates, and only then is the lock taken and the content written. *)
Definition save_create (file : option (list Z)) : option (list Z) := Some [].
Definition save_write (c : PeerCache) (file : option (list Z)) : option (list Z) := Some (put_entries ((hiter c).*2)).
Definition load (file : option (list Z)) : result PeerCache string :=
  match file with
  | None => Ok ∅
  | Some data => match get_entries data with Some l => Ok (foldl peer_insert ∅ l) | None => Err "deserialization failed" end
  end.
End PeerCache.
End CoordinatorOps.
