(* ===== verification/CoordinatorProps.v ===== *)
(** * Coordinator adverts: the properties

    The order of preference and the choice it makes, where the stored adverts
    come from, queries answered at most once, an advert from its publisher to a
    node that joins, and what an unsolicited response can do. *)

From S2P Require Import Prelude Types Identity MessageCache Plumtree Coordinator.
Import Coordinator CoordinatorOps.

#[local] Open Scope Z_scope.

Module CoordinatorProps.
Notation a_peer a := (peer (fields a)).

(** ** Sorting by a comparison *)

Lemma sort_by_ordered {A} (cmp : A → A → comparison) (l : list A) :
  (∀ x y, cmp x y = Gt → cmp y x ≠ Gt) → (∀ x y z, cmp x y ≠ Gt → cmp y z ≠ Gt → cmp x z ≠ Gt) →
  StronglySorted (λ x y, cmp x y ≠ Gt) (sort_by cmp l).
Proof.
  intros Htotal Htrans. induction l as [|x l IH]; cbn; [constructor|]. unfold sort_by in IH.
  assert (Hi : ∀ s, StronglySorted (λ x y, cmp x y ≠ Gt) s → StronglySorted (λ x y, cmp x y ≠ Gt) (insert_by cmp x s)); [|by apply Hi].
  intros s Hs. induction Hs as [|y s Hs IHs Hy]; cbn; [repeat constructor|].
  assert (Hfront : cmp x y ≠ Gt → StronglySorted (λ x y, cmp x y ≠ Gt) (x :: y :: s)).
  { intros Hxy. constructor; [by constructor|]. constructor; [done|]. eapply Forall_impl; [exact Hy|]. cbn. intros z. by apply Htrans. }
  destruct (cmp x y) eqn:Hxy; [by apply Hfront..|]. constructor; [done|]. rewrite insert_by_perm. constructor; [by apply Htotal|done].
Qed.

(** [a] is preferred to [b], or as good. *)
Definition at_least (a b : CoordinatorAdvert) : Prop :=
  hint_weight b < hint_weight a ∨ (hint_weight b = hint_weight a ∧ score (fields b) ≤ score (fields a)).

Lemma by_hint_at_least (a b : CoordinatorAdvert) : by_hint a b ≠ Gt ↔ at_least a b.
Proof.
  unfold by_hint, at_least. destruct (Z.compare_spec (hint_weight b) (hint_weight a)) as [E|E|E].
  - destruct (Z.compare_spec (score (fields b)) (score (fields a))); split; intros Hc; try done; lia.
  - split; [lia|done].
  - split; [done|lia].
Qed.

Lemma sorted_by_hint (l : list CoordinatorAdvert) : StronglySorted at_least (sort_adverts_by_hint l).
Proof.
  assert (Hs : StronglySorted (λ x y, by_hint x y ≠ Gt) (sort_adverts_by_hint l)).
  2:{ induction Hs as [|x s Hs IH Hx]; constructor; [done|]. eapply Forall_impl; [exact Hx|]. intros y. apply by_hint_at_least. }
  apply sort_by_ordered.
  - intros x y Hxy. apply by_hint_at_least. assert (¬ at_least x y) as Hn by (intros Hl%by_hint_at_least; congruence). unfold at_least in *. lia.
  - intros x y z. rewrite !by_hint_at_least. unfold at_least. lia.
Qed.

(** The choice: the best advert with an address. *)
Lemma select_best_spec (l : list CoordinatorAdvert) : StronglySorted at_least l →
  match select_best_from_adverts l with
  | Some r => ∃ a h hs, a ∈ l ∧ addr_hints (fields a) = h :: hs ∧ r = mkResult (a_peer a) (addr h) Direct ∧ ∀ a', a' ∈ l → addr_hints (fields a') ≠ [] → at_least a a'
  | None => ∀ a, a ∈ l → addr_hints (fields a) = []
  end.
Proof.
  induction 1 as [|a l Hs IH Ha]; cbn; [by intros a ?%not_elem_of_nil|]. destruct (addr_hints (fields a)) as [|h hs] eqn:Hh.
  - destruct (select_best_from_adverts l) as [r|].
    + destruct IH as (b & h & hs & Hb & Hbh & -> & Hbest). exists b, h, hs. split_and!; [by right|done|done|]. intros a' [->|Ha']%elem_of_cons; [by rewrite Hh|by apply Hbest].
    + intros b [->|Hb]%elem_of_cons; [done|by apply IH].
  - exists a, h, hs. split_and!; [by left|done|done|]. intros a' [->|Ha']%elem_of_cons _; [unfold at_least; lia|]. by apply (proj1 (Forall_forall _ _) Ha).
Qed.

Section Node.
Context `{Hashes} `{MlDsa} `{CoordCodec} `{BootstrapCache} `{!HashIter PeerId CoordinatorAdvert}.

(** The cache holds [a], valid at its reading. *)
Definition held (c : GossipCacheAdapter) (clk : PeerId → Z) (a : CoordinatorAdvert) : Prop := (∃ p, adverts c !! p = Some a) ∧ is_valid a (clk (a_peer a)) = true.

Lemma elem_of_get_all (c : GossipCacheAdapter) (clk : PeerId → Z) (a : CoordinatorAdvert) : a ∈ get_all_adverts c clk ↔ held c clk a.
Proof.
  unfold get_all_adverts, valid_adverts, held. rewrite sort_by_perm, list_elem_of_filter, list_elem_of_fmap. split.
  - intros [Hv ([p b] & -> & Hin)]. split; [|done]. exists p. by apply elem_of_hiter.
  - intros [[p Hp] Hv]. split; [done|]. exists (p, a). split; [done|]. by apply elem_of_hiter.
Qed.
Lemma elem_of_by_hint (l : list CoordinatorAdvert) (a : CoordinatorAdvert) : a ∈ sort_adverts_by_hint l ↔ a ∈ l.
Proof. unfold sort_adverts_by_hint. by rewrite sort_by_perm. Qed.

Lemma best_advert_spec (b : Bootstrap) (clk : PeerId → Z) :
  match best_advert b clk with
  | Some r => ∃ a h hs, held (boot_cache b) clk a ∧ addr_hints (fields a) = h :: hs ∧ r = mkResult (a_peer a) (addr h) Direct ∧
      ∀ a', held (boot_cache b) clk a' → addr_hints (fields a') ≠ [] → at_least a a'
  | None => ∀ a, held (boot_cache b) clk a → addr_hints (fields a) = []
  end.
Proof.
  unfold best_advert. pose proof (select_best_spec _ (sorted_by_hint (get_all_adverts (boot_cache b) clk))) as Hs. destruct (select_best_from_adverts _) as [r|].
  - destruct Hs as (a & h & hs & Ha & Hh & -> & Hbest). rewrite elem_of_by_hint, elem_of_get_all in Ha. exists a, h, hs. split_and!; try done.
    intros a' Ha'. apply Hbest. by rewrite elem_of_by_hint, elem_of_get_all.
  - intros a Ha. apply Hs. by rewrite elem_of_by_hint, elem_of_get_all.
Qed.

(** ** Nodes

    The documented set-up: the handler has the adapter of the bootstrap. *)

Record Node := mkNode { boot : Bootstrap; handler : CoordinatorHandler }.
Definition node_new (p : PeerId) (b : BC) : Node := mkNode (mkBootstrap p (adapter_new b) ∅) (handler_new p).
Definition with_cache (n : Node) (c : GossipCacheAdapter) : Node := mkNode (set_boot_cache (boot n) c) (handler n).

Inductive COp :=
| CAdvert (a : CoordinatorAdvert) (public_key : list Z) (now : Z)
| CQuery (q : FindCoordinatorQuery) (instant now : Z) (clk : PeerId → Z)
| CFind (clk : PeerId → Z) (rand_bytes : list Z) (now instant : Z)
| CResponse (r : FindCoordinatorResponse) (times : list (Z * Z)) (clk : PeerId → Z)
| CPrune (clk : PeerId → Z) (now : Z)
| CPruneQueries (now : Z)
| CSuccess (p : PeerId) (rtt_ms : Z)
| CFailure (p : PeerId)
| CRemove (p : PeerId)
| CClear.

Definition cexec (n : Node) (o : COp) : Node :=
  let c := boot_cache (boot n) in
  match o with
  | CAdvert a pk now => with_cache n (default c (handle_advert (Some c) a pk now).1)
  | CQuery q instant now clk => mkNode (boot n) (handle_find_query (handler n) (Some c) q instant now clk).1
  | CFind clk rand now instant => mkNode (find_coordinator (boot n) clk rand now instant).1 (handler n)
  | CResponse r times clk => mkNode (handle_find_response (boot n) r times clk).1 (handler n)
  | CPrune clk now => let '(h, c', _) := handler_prune (handler n) (Some c) clk now in mkNode (set_boot_cache (boot n) (default c c')) h
  | CPruneQueries now => mkNode (prune_expired_queries (boot n) now).1 (handler n)
  | CSuccess p rtt => with_cache n (record_success c p rtt)
  | CFailure p => with_cache n (record_failure c p)
  | CRemove p => with_cache n (remove c p)
  | CClear => with_cache n (clear_adverts c)
  end.
Notation crun := (foldl cexec).

(** [a] arrived with the key of the peer it names and a signature that
    verifies under it; or it was in a response, with some signature bytes. *)
Definition sourced (os : list COp) (a : CoordinatorAdvert) : Prop :=
  (∃ pk now, CAdvert a pk now ∈ os ∧ from_pubkey pk = a_peer a ∧ verify a pk = Some true ∧ is_valid a now = true) ∨
  (∃ r times clk, CResponse r times clk ∈ os ∧ a ∈ r_adverts r ∧ sig a ≠ []).

Lemma sourced_mono (os os' : list COp) (a : CoordinatorAdvert) : os ⊆ os' → sourced os a → sourced os' a.
Proof. intros Hs [(pk & now & Hin & Hrest)|(r & times & clk & Hin & Hrest)]; [left; exists pk, now|right; exists r, times, clk]; eauto. Qed.

Lemma insert_advert_new (c : GossipCacheAdapter) (a : CoordinatorAdvert) (now : Z) (p : PeerId) (b : CoordinatorAdvert) :
  adverts (insert_advert c a now).1 !! p = Some b → adverts c !! p = Some b ∨ (b = a ∧ p = a_peer a ∧ is_valid a now = true).
Proof.
  unfold insert_advert. destruct (is_valid a now); cbn; [|by left]. rewrite lookup_insert_Some. intros [[<- <-]|[_ Hb]]; [by right|by left].
Qed.

Lemma response_new (l : list (CoordinatorAdvert * (Z * Z))) (c : GossipCacheAdapter) (p : PeerId) (b : CoordinatorAdvert) :
  adverts (foldl accept_response_advert c l) !! p = Some b → adverts c !! p = Some b ∨ (b ∈ l.*1 ∧ p = a_peer b ∧ sig b ≠ []).
Proof.
  revert c. induction l as [|[a [n1 n2]] l IH]; intros c; cbn; [by left|]. intros Hb. destruct (IH _ Hb) as [Hc|(Hin & Hrest)]; [|right; split; [by right|done]].
  unfold accept_response_advert in Hc. destruct (bool_decide_reflect (sig a = [])) as [|Hs]; [by left|]. destruct (is_valid a n1); [|by left].
  destruct (insert_advert_new _ _ _ _ _ Hc) as [|(-> & -> & _)]; [by left|]. right. split_and!; [by left|done|done].
Qed.

Lemma foldl_delete_subseteq {A} (l : list PeerId) (m : gmap PeerId A) : foldl (λ m p, delete p m) m l ⊆ m.
Proof. revert m. induction l as [|p l IH]; intros m; cbn; [done|]. etrans; [apply IH|apply delete_subseteq]. Qed.

Lemma cexec_adverts (n : Node) (o : COp) (p : PeerId) (a : CoordinatorAdvert) :
  adverts (boot_cache (boot (cexec n o))) !! p = Some a → adverts (boot_cache (boot n)) !! p = Some a ∨ (p = a_peer a ∧ sourced [o] a).
Proof.
  destruct o; cbn [cexec].
  - unfold handle_advert. destruct (bool_decide_reflect (from_pubkey public_key = a_peer a0)) as [Hid|]; [|by left]. cbn [negb].
    destruct (verify a0 public_key) as [[]|] eqn:Hv; [|by left..]. destruct (insert_advert (boot_cache (boot n)) a0 now) as [c' ok] eqn:Hi. cbn. intros Ha.
    replace c' with (insert_advert (boot_cache (boot n)) a0 now).1 in Ha by by rewrite Hi. destruct (insert_advert_new _ _ _ _ _ Ha) as [|(-> & -> & Hval)]; [by left|].
    right. split; [done|]. left. exists public_key, now. split_and!; try done. by left.
  - by left.
  - unfold find_coordinator. destruct (if bool_decide _ then _ else _); by left.
  - cbn. intros Ha. destruct (response_new _ _ _ _ Ha) as [|(Hin & Hp & Hs)]; [by left|]. right. split; [done|]. right. exists r, times, clk. split_and!; [by left| |done].
    clear -Hin. apply list_elem_of_fmap in Hin as ([x t] & -> & Hin). by apply elem_of_zip_l in Hin.
  - cbn. unfold prune_expired_adverts. cbn. intros Ha. left. eapply lookup_weaken; [exact Ha|apply foldl_delete_subseteq].
  - by left.
  - by left.
  - by left.
  - cbn. rewrite lookup_delete_Some. intros [_ Ha]. by left.
  - cbn. intros Ha. exfalso. by apply (lookup_empty_Some p a).
Qed.

Lemma advert_sourced (os : list COp) (p0 : PeerId) (b : BC) (p : PeerId) (a : CoordinatorAdvert) :
  adverts (boot_cache (boot (crun (node_new p0 b) os))) !! p = Some a → p = a_peer a ∧ sourced os a.
Proof.
  induction os as [|o os IH] using rev_ind; [intros Ha; exfalso; by apply (lookup_empty_Some p a)|]. rewrite foldl_app. cbn. intros Ha.
  destruct (cexec_adverts _ _ _ _ Ha) as [Hold|[Hp Hs]]; [|split; [done|eapply sourced_mono; [|exact Hs]; set_solver]].
  destruct (IH Hold) as [-> Hs]. split; [done|]. eapply sourced_mono; [|exact Hs]. set_solver.
Qed.

(** C29. Where a joining node connects.  After any run, [find_coordinator]
    connects to the first address of an advert that is valid at its reading and
    stored under its own peer, that came with the key of that peer and a
    signature valid under it or else in a response, and that no other valid
    advert with an address beats by the number of its roles and then by its
    score.  Otherwise no valid advert has an address, and it sends a fresh query
    of three hops and records it as pending. *)
Theorem bootstrap_choice (os : list COp) (p0 : PeerId) (b : BC) (clk : PeerId → Z) (rand : list Z) (now instant : Z) :
  let n := crun (node_new p0 b) os in let r := find_coordinator (boot n) clk rand now instant in
  match r.2 with
  | Connect x => r.1 = boot n ∧ ∃ a h hs, held (boot_cache (boot n)) clk a ∧ addr_hints (fields a) = h :: hs ∧ x = mkResult (a_peer a) (addr h) Direct ∧
      sourced os a ∧ ∀ a', held (boot_cache (boot n)) clk a' → addr_hints (fields a') ≠ [] → at_least a a'
  | SendQuery q => (∀ a, held (boot_cache (boot n)) clk a → addr_hints (fields a) = []) ∧
      q = mkQuery (blake3 (peer_bytes (boot_peer_id (boot n)) ++ rand)) (boot_peer_id (boot n)) 3 now ∧ pending_queries r.1 !! query_id q = Some instant
  | NoAction => False
  end.
Proof.
  intros n r. unfold r, find_coordinator. pose proof (best_advert_spec (boot n) clk) as Hbest. case_bool_decide as He.
  - cbn. split_and!; [|done|apply lookup_insert_eq]. intros a Ha. apply elem_of_get_all in Ha. rewrite He in Ha. by apply not_elem_of_nil in Ha.
  - destruct (best_advert (boot n) clk) as [x|]; cbn; [|split_and!; [done|done|apply lookup_insert_eq]]. split; [done|].
    destruct Hbest as (a & h & hs & Ha & Hh & -> & Hb). exists a, h, hs. split_and!; try done. destruct Ha as [[p Hp] _]. by eapply advert_sourced.
Qed.

(** ** Queries *)

(** The readings of a run: the monotonic clock does not go back, and the wall
    clock runs [off] nanoseconds ahead of it. *)
Fixpoint timed (off t : Z) (os : list COp) : Prop :=
  match os with
  | [] => True
  | CQuery _ instant now _ :: os => t ≤ instant ∧ (instant + off) / 1000000 ≤ now ∧ timed off instant os
  | CPrune _ now :: os => t ≤ now ∧ timed off now os
  | _ :: os => timed off t os
  end.

(** The query is remembered since [t0] or later, or thirty seconds passed. *)
Definition remembered (t0 : Z) (id : list Z) (n : Node) (t : Z) : Prop := is_Some (seen_queries (handler n) !! id) ∨ t0 + 30 * NANOS_PER_SEC < t.

Lemma seen_kept (t0 : Z) (id : list Z) (n : Node) (o : COp) (t t' : Z) :
  (∀ ts, seen_queries (handler n) !! id = Some ts → t0 ≤ ts) → t0 ≤ t → t ≤ t' → remembered t0 id n t →
  match o with CQuery _ instant _ _ => t' = instant | CPrune _ now => t' = now | _ => t' = t end →
  (∀ ts, seen_queries (handler (cexec n o)) !! id = Some ts → t0 ≤ ts) ∧ remembered t0 id (cexec n o) t'.
Proof.
  intros Hts H0t Ht Hr Ho. assert (Hr' : remembered t0 id n t') by (destruct Hr; [by left|right; lia]).
  destruct o; cbn [cexec]; try by split.
  - unfold handle_find_query. case_bool_decide as Hs; [by split|].
    assert (Hins : (∀ ts, <[query_id q := instant]> (seen_queries (handler n)) !! id = Some ts → t0 ≤ ts) ∧
      (is_Some (<[query_id q := instant]> (seen_queries (handler n)) !! id) ∨ t0 + 30 * NANOS_PER_SEC < t')).
    { split; [intros ts; rewrite lookup_insert_Some; intros [[_ <-]|[_ Hl]]; [lia|by apply Hts]|]. destruct Hr' as [Hl|]; [left|by right].
      rewrite lookup_insert_is_Some. destruct (decide (query_id q = id)); [by left|by right]. }
    unfold remembered. destruct (is_expired q now); [exact Hins|]. destruct (decrement_ttl q) as [q' []] eqn:Hd; cbn [negb fst handler seen_queries]; exact Hins.
  - subst t'. unfold handler_prune, prune_expired_adverts. unfold remembered, young. cbn. split; [intros ts [Hl _]%map_lookup_filter_Some; by apply Hts|].
    destruct Hr' as [[ts Hl]|]; [|by right]. destruct (decide (elapsed_ns now ts ≤ 30 * NANOS_PER_SEC)) as [Hy|Ho].
    + left. exists ts. apply map_lookup_filter_Some. split; [done|]. by apply bool_decide_eq_true.
    + right. specialize (Hts ts Hl). unfold elapsed_ns, NANOS_PER_SEC in *. lia.
Qed.

Lemma remembered_run (os : list COp) (off t0 t : Z) (id : list Z) (n : Node) (o : COp) :
  (∀ ts, seen_queries (handler n) !! id = Some ts → t0 ≤ ts) → t0 ≤ t → remembered t0 id n t → timed off t (os ++ [o]) →
  ∃ t', t ≤ t' ∧ remembered t0 id (crun n os) t' ∧ timed off t' [o].
Proof.
  revert n t. induction os as [|o' os IH]; intros n t Hts Hz Hr Ht; [by exists t|]. cbn [foldl app] in *.
  assert (∃ t', t ≤ t' ∧ match o' with CQuery _ instant _ _ => t' = instant | CPrune _ now => t' = now | _ => t' = t end ∧ timed off t' (os ++ [o])) as (t' & Hle & Ho & Ht').
  { destruct o'; cbn in Ht; try (by exists t); [destruct Ht as (? & _ & ?); by exists instant|destruct Ht as (? & ?); by exists now]. }
  destruct (seen_kept t0 id n o' t t' Hts Hz Hle Hr Ho) as [Hts' Hr']. destruct (IH _ t' Hts' ltac:(lia) Hr' Ht') as (t'' & ? & ? & ?). exists t''. split_and!; [lia|done|done].
Qed.

(** A query is answered at most once, although the memory of answered
    queries is pruned: if a node answered a query, then whatever happens in
    between, another query with that identifier is not answered, as long as it
    was created in an earlier millisecond than that in which the first was
    handled (and its expiry is representable): by the time it is forgotten it
    has expired. *)
Theorem query_answered_once (pre mid : list COp) (p0 : PeerId) (b : BC) (off : Z) (q q' : FindCoordinatorQuery) (i i' now now' : Z) (clk clk' : PeerId → Z) :
  let n := crun (node_new p0 b) pre in
  let n' := crun n (CQuery q i now clk :: mid) in
  is_Some (handle_find_query (handler n) (Some (boot_cache (boot n))) q i now clk).2 →
  query_id q' = query_id q → 0 ≤ created_at q' < (i + off) / 1000000 → created_at q' + 30000 ≤ U64_MAX →
  timed off i (mid ++ [CQuery q' i' now' clk']) →
  (handle_find_query (handler n') (Some (boot_cache (boot n'))) q' i' now' clk').2 = None.
Proof.
  intros n n' Hans Hid Hcr Hrep Ht.
  assert (Hseen : seen_queries (handler (cexec n (CQuery q i now clk))) !! query_id q = Some i).
  { cbn [cexec handler]. revert Hans. unfold handle_find_query. case_bool_decide; [by intros []|]. destruct (is_expired q now); [by intros []|].
    destruct (decrement_ttl q) as [q1 []]; cbn; [intros _; by rewrite lookup_insert_eq|by intros []]. }
  destruct (remembered_run mid off i i (query_id q) (cexec n (CQuery q i now clk)) (CQuery q' i' now' clk')) as (t & Hle & Hr & Hi' & Hnow & _); [|done|by left; exists i|done|].
  { intros ts. rewrite Hseen. intros [= <-]. lia. }
  cbn [foldl] in n'. fold n' in Hr. unfold handle_find_query. rewrite Hid. destruct Hr as [Hs|Hold]; [by rewrite bool_decide_true|]. case_bool_decide; [done|].
  unfold is_expired. rewrite u64_add_exact by (unfold u64; lia). rewrite bool_decide_true; [done|].
  assert ((i + off) / 1000000 + 30000 ≤ (i' + off) / 1000000); [|lia]. rewrite <-Z.div_add by done. apply Z.div_le_mono; [lia|]. unfold NANOS_PER_SEC in *. lia.
Qed.

(** ** Unsolicited responses *)

Definition forged (p : PeerId) (x : SocketAddr) (s : list Z) : CoordinatorAdvert :=
  mkAdvert (mkFields 1 p (mkRoles true true true true) [mkHint x 0] Eim 0 U64_MAX (2 ^ 31 - 1) []) s.

(** C30. A response is believed without a signature check, whether or not a query
    is pending: for any peer identity, address and non-empty signature bytes,
    one response replaces the advert stored for that peer, authenticated or
    not, by one that leads to the address, and the node connects there at
    once, and again at its next bootstrap, unless another valid advert already
    claims all four roles and the highest score. *)
Theorem response_hijacks_bootstrap (b : Bootstrap) (p from : PeerId) (x : SocketAddr) (s id : list Z) (t1 t2 : Z) (clk : PeerId → Z) :
  s ≠ [] → u64 t1 → u64 t2 → u64 (clk p) →
  (∀ p' a', p' ≠ p → adverts (boot_cache b) !! p' = Some a' → ¬ at_least a' (forged p x s)) →
  let r := handle_find_response b (mkResponse id from [forged p x s]) [(t1, t2)] clk in
  r.2 = Some (Connect (mkResult p x Direct)) ∧ get_advert (boot_cache r.1) p (clk p) = Some (forged p x s) ∧
  ∀ rand now instant, (find_coordinator r.1 clk rand now instant).2 = Connect (mkResult p x Direct).
Proof.
  intros Hs Hu1 Hu2 Hc Hothers r.
  assert (Hval : ∀ t, u64 t → is_valid (forged p x s) t = true) by (intros t Hu; apply bool_decide_eq_true; exact Hu).
  assert (Hmap : adverts (boot_cache r.1) = <[p := forged p x s]> (adverts (boot_cache b))).
  { unfold r, handle_find_response. cbn [r_adverts zip zip_with foldl accept_response_advert fst boot_cache set_boot_cache set_pending].
    rewrite bool_decide_false by done. rewrite Hval by done. cbn [negb]. unfold insert_advert. by rewrite Hval. }
  assert (Hheld : held (boot_cache r.1) clk (forged p x s)) by (split; [exists p; by rewrite Hmap, lookup_insert_eq|by apply Hval]).
  assert (Hbest : best_advert r.1 clk = Some (mkResult p x Direct)).
  { pose proof (best_advert_spec r.1 clk) as Hb. destruct (best_advert r.1 clk) as [y|]; [|by specialize (Hb _ Hheld)].
    destruct Hb as (a & h & hs & [[p' Ha] _] & Hh & -> & Hb). specialize (Hb _ Hheld ltac:(done)). rewrite Hmap, lookup_insert_Some in Ha.
    destruct Ha as [[_ <-]|[Hne Ha]]; [cbn in Hh; by injection Hh as <- <-|]. by destruct (Hothers p' a). }
  split_and!.
  - change r.2 with (Connect <$> best_advert r.1 clk). by rewrite Hbest.
  - unfold get_advert. rewrite Hmap, lookup_insert_eq. cbn [mbind option_bind]. by rewrite Hval.
  - intros rand now instant. unfold find_coordinator. rewrite bool_decide_false, Hbest; [done|]. intros Hn. apply elem_of_get_all in Hheld. rewrite Hn in Hheld. by apply not_elem_of_nil in Hheld.
Qed.

(** ** From the publisher to a joining node *)

(** The key pair of a publisher: what it signs verifies. *)
Definition keys_match (sk pk : list Z) : Prop :=
  ∀ m, ∃ s, pqc_sign sk m = Some s ∧ Forall is_byte s ∧ (length s ≤ 4096)%nat ∧ ∃ s', pqc_signature s = Some s' ∧ pqc_verify pk m s' = Some true.

(** C31. What a publisher publishes is found.  The bytes of a publisher with its
    own key parse, are accepted by any node that has the key, as long as the
    advert has not expired, and a node that knows no other advert then connects
    to the publisher's first address; once the advert has expired, it is
    neither returned nor offered, and pruning removes it. *)
Theorem published_advert_found (p : CoordinatorPublisher) (sk pk : list Z) (x : SocketAddr) (xs : list SocketAddr) (clk : nat → Z) (t : Z) :
  signing_key p = Some sk → keys_match sk pk → from_pubkey pk = p_peer_id p → p_addr_hints p = x :: xs →
  is_array 32 (peer_bytes (p_peer_id p)) → (∀ y, y ∈ p_addr_hints p → ∀ i, hint_ok (mkHint y (clk i))) → 0 ≤ t → 0 ≤ validity_duration p → t + validity_duration p ≤ U64_MAX →
  ∃ bytes a, publish_advert p clk t = Ok bytes ∧ from_bytes bytes = Some a ∧
    ∀ b t' rd clk' rand now instant, adverts (boot_cache b) = ∅ → t ≤ t' ≤ t + validity_duration p →
    ∃ c, handle_advert (Some (boot_cache b)) a pk t' = (Some c, Some true) ∧
      (t ≤ rd ≤ t + validity_duration p → get_advert c (p_peer_id p) rd = Some a) ∧
      (t ≤ clk' (p_peer_id p) ≤ t + validity_duration p → (find_coordinator (set_boot_cache b c) clk' rand now instant).2 = Connect (mkResult (p_peer_id p) x Direct)) ∧
      (t + validity_duration p < rd → get_advert c (p_peer_id p) rd = None) ∧
      (t + validity_duration p < clk' (p_peer_id p) → get_all_adverts c clk' = [] ∧ adverts (prune_expired_adverts c clk').1 = ∅).
Proof.
  intros Hsk Hkeys Hpk Haddr Harr Hok Ht Hv Hmax. set (f := fields (advert_new (p_peer_id p) (p_roles p) (imap (λ i y, hint_new y (clk i)) (p_addr_hints p)) (p_nat_class p) (validity_duration p) t)).
  destruct (Hkeys (put_fields f)) as (s & Hsign & Hsb & Hsl & s' & Hsig & Hver). set (a := mkAdvert f s).
  assert (Hnb : not_before f = t) by done. assert (Hna : not_after f = t + validity_duration p) by (cbn; apply u64_add_exact; unfold u64; lia).
  assert (Haok : advert_ok a).
  { split_and!; try done; cbn [a fields]; rewrite ?Hnb, ?Hna; try (unfold u64; lia). cbn. apply Forall_forall. intros h Hh. apply elem_of_lookup_imap in Hh as (i & y & -> & Hy).
    apply Hok. by eapply list_elem_of_lookup_2. }
  exists (put_advert a), a. split_and!.
  - unfold publish_advert, create_advert. rewrite Hsk. unfold sign. fold f. by rewrite Hsign.
  - by apply get_put_advert.
  - intros b t' rd clk' rand now instant Hempty Ht'.
    assert (Hvalid : ∀ u, is_valid a u = bool_decide (t ≤ u ∧ u ≤ t + validity_duration p)) by (intros u; unfold is_valid; cbn [a fields]; by rewrite Hnb, Hna).
    eexists. split; [|split_and!].
    + unfold handle_advert. rewrite bool_decide_true by done. cbn [negb]. unfold verify. cbn [a sig fields]. rewrite Hsig. cbn [mbind option_bind]. rewrite Hver. fold a.
      unfold insert_advert. rewrite Hvalid, bool_decide_true by lia. done.
    + intros Hrd. unfold get_advert. cbn [adverts]. rewrite lookup_insert_eq. cbn [mbind option_bind]. by rewrite Hvalid, bool_decide_true by lia.
    + intros Hrd. set (c := mkAdapter _ _). pose proof (best_advert_spec (set_boot_cache b c) clk') as Hb.
      assert (Hheld : held c clk' a). { split; [exists (p_peer_id p); apply lookup_insert_eq|]. rewrite Hvalid. by apply bool_decide_eq_true. }
      unfold find_coordinator. rewrite bool_decide_false by (intros Hn; apply elem_of_get_all in Hheld; cbn [boot_cache set_boot_cache] in Hn; rewrite Hn in Hheld; by apply not_elem_of_nil in Hheld).
      assert (Hh : addr_hints (fields a) = mkHint x (clk 0%nat) :: imap (λ i y, hint_new y (clk (S i))) xs) by (cbn; by rewrite Haddr).
      destruct (best_advert _ _) as [y|]; [|specialize (Hb a Hheld); by rewrite Hh in Hb]. destruct Hb as (a' & h & hs & [[p' Ha'] _] & Hh' & -> & _).
      cbn [boot_cache set_boot_cache c adverts] in Ha'. rewrite Hempty, insert_empty, lookup_singleton_Some in Ha'. destruct Ha' as [_ <-]. rewrite Hh in Hh'. by injection Hh' as <- _.
    + intros Hrd. unfold get_advert. cbn [adverts]. rewrite lookup_insert_eq. cbn [mbind option_bind]. by rewrite Hvalid, bool_decide_false by lia.
    + intros Hrd. set (c := mkAdapter _ _).
      assert (Hone : adverts c = {[p_peer_id p := a]}) by (cbn [c adverts]; by rewrite Hempty, insert_empty).
      assert (Hiter : hiter (adverts c) = [(p_peer_id p, a)]) by (apply Permutation_singleton_r; rewrite Hone, hiter_perm; by rewrite map_to_list_singleton).
      assert (Hexp : is_valid a (clk' (p_peer_id p)) = false) by (rewrite Hvalid; apply bool_decide_eq_false; lia).
      split.
      * unfold get_all_adverts, valid_adverts. rewrite Hiter. cbn [fmap list_fmap snd]. rewrite filter_cons_False by (cbn [a fields]; change (peer f) with (p_peer_id p); rewrite Hexp; done). done.
      * unfold prune_expired_adverts. rewrite Hiter. rewrite filter_cons_True by (cbn [fst snd]; exact Hexp). cbn. rewrite Hempty, insert_empty. by rewrite delete_singleton_eq.
Qed.
End Node.

(** ** The deprecated peer cache *)

Section PeerCache.
Context `{CoordCodec} `{!HashIter PeerId PeerCacheEntry}.

Definition keyed (c : gmap PeerId PeerCacheEntry) : Prop := map_Forall (λ p e, peer_id e = p) c.

Lemma keyed_insert (c : gmap PeerId PeerCacheEntry) (e : PeerCacheEntry) : keyed c → keyed (peer_insert c e).
Proof. intros Hc. by apply map_Forall_insert_2. Qed.

Lemma foldl_peer_insert (l : list (PeerId * PeerCacheEntry)) (c : gmap PeerId PeerCacheEntry) :
  Forall (λ pe, peer_id pe.2 = pe.1) l → NoDup l.*1 → foldl peer_insert c l.*2 = list_to_map l ∪ c.
Proof.
  revert c. induction l as [|[p e] l IH]; intros c; cbn; [by rewrite (left_id_L ∅ (∪))|]. intros [Hp Hl]%Forall_cons [Hnin Hnd]%NoDup_cons. cbn in Hp. subst p.
  rewrite IH by done. unfold peer_insert. by rewrite <-insert_union_r, insert_union_l by by apply not_elem_of_list_to_map_1.
Qed.

(** A saved cache loads as it was. *)
Lemma load_saved (c : gmap PeerId PeerCacheEntry) (file : option (list Z)) :
  keyed c → get_entries (put_entries ((hiter c).*2)) = Some ((hiter c).*2) → load (save_write c (save_create file)) = Ok c.
Proof.
  intros Hk Hcodec. unfold load, save_write. rewrite Hcodec. f_equal. rewrite foldl_peer_insert.
  - rewrite list_to_map_hiter. apply (right_id_L ∅ (∪)).
  - apply Forall_forall. intros [p e] Hin. apply elem_of_hiter in Hin. by apply (Hk p e).
  - apply NoDup_hiter_keys.
Qed.

(** A load between the truncation and the lock of a save fails, whatever the
    file held. *)
Lemma load_during_save (file : option (list Z)) : load (save_create file) = Err "deserialization failed".
Proof. unfold load, save_create. by rewrite get_entries_empty. Qed.

(** In the first seven days after the epoch the cutoff wraps. *)
Lemma prune_old_wraps (c : gmap PeerId PeerCacheEntry) (now : Z) :
  0 ≤ now < 604800000 → map_Forall (λ _ e, last_success e ≤ now) c → (prune_old c now).1 = ∅.
Proof.
  intros Hnow Hold. unfold prune_old. cbn [fst]. apply map_empty. intros p.
  assert (Hcut : u64_sub now (7 * 24 * 3600 * 1000) = now - 604800000 + (U64_MAX + 1)).
  { unfold u64_sub, u64_wrap. rewrite <-(Z.mod_small (now - 604800000 + (U64_MAX + 1)) (U64_MAX + 1)) by (unfold U64_MAX; lia).
    rewrite <-(Z.mod_add (now - 7 * 24 * 3600 * 1000) 1) by (unfold U64_MAX; lia). done. }
  rewrite Hcut. clear Hcut. apply eq_None_not_Some. intros [e He].
  assert (Hdel : ∀ (l : list PeerId) (m : gmap PeerId PeerCacheEntry), p ∈ l → foldl (λ m p, delete p m) m l !! p = None).
  { induction l as [|q l IH]; intros m; [by intros ?%not_elem_of_nil|]. intros Hin. cbn. destruct (decide (p ∈ l)); [by apply IH|].
    apply elem_of_cons in Hin as [<-|]; [|done]. apply eq_None_not_Some. intros [x Hx]. pose proof (lookup_weaken _ _ _ _ Hx (foldl_delete_subseteq l (delete p m))) as Hc. by rewrite lookup_delete_eq in Hc. }
  assert (Hc : c !! p = Some e) by (eapply lookup_weaken; [exact He|apply foldl_delete_subseteq]).
  rewrite Hdel in He; [done|]. apply list_elem_of_fmap. exists (p, e). split; [done|]. apply list_elem_of_filter. split; [|by apply elem_of_hiter].
  specialize (Hold p e Hc). cbn in *. unfold U64_MAX. lia.
Qed.
End PeerCache.
End CoordinatorProps.
