(* ===== verification/CoordinatorWitness.v ===== *)
(** * Coordinator adverts: witnesses

    A codec that numbers the values, a bootstrap cache that keeps nothing, and
    the runs on which the theorems of [CoordinatorProps.v] are applied. *)

From S2P Require Import Prelude Types Identity MessageCache Plumtree PlumtreeWitness KeyCodec KeyCacheWitness Coordinator CoordinatorProps.
Import Coordinator CoordinatorOps CoordinatorProps.
Import KeyCacheWitness(pk0, toy_hashes, id0).

#[local] Open Scope Z_scope.

Module CoordinatorWitness.

#[local] Existing Instance toy_hashes.

Definition sig0 : list Z := replicate 3309 4.
#[local] Instance one_signature : MlDsa := {|
  pqc_generate r := Some ([r], [r]);
  pqc_secret_key := Some;
  pqc_public_key := Some;
  pqc_signature := Some;
  pqc_sign _ _ := Some sig0;
  pqc_verify _ _ sig := Some (bool_decide (sig = sig0));
|}.

(** ** A codec *)

#[local] Instance hint_eq_dec : EqDecision AddrHint. Proof. solve_decision. Defined.
#[local] Instance hint_countable : Countable AddrHint := inj_countable' (λ h, (addr h, observed_at h)) (λ x, mkHint x.1 x.2) ltac:(by intros []).
#[local] Instance transport_eq_dec : EqDecision TransportHint. Proof. solve_decision. Defined.
#[local] Instance transport_countable : Countable TransportHint :=
  inj_countable' (λ h, (transport_type h, endpoint h, available h)) (λ x, mkTransport x.1.1 x.1.2 x.2) ltac:(by intros []).
#[local] Instance roles_eq_dec : EqDecision PeerRoles. Proof. solve_decision. Defined.
#[local] Instance roles_countable : Countable PeerRoles :=
  inj_countable' (λ r, (coordinator r, reflector r, rendezvous r, relay r)) (λ x, mkRoles x.1.1.1 x.1.1.2 x.1.2 x.2) ltac:(by intros []).
#[local] Instance nat_eq_dec : EqDecision NatClass. Proof. solve_decision. Defined.
#[local] Instance nat_countable : Countable NatClass :=
  inj_countable' (λ n, match n with Eim => 0 | Edm => 1 | Symmetric => 2 | Unknown => 3 end)
    (λ z, if decide (z = 0) then Eim else if decide (z = 1) then Edm else if decide (z = 2) then Symmetric else Unknown) ltac:(by intros []).
#[local] Instance fields_eq_dec : EqDecision SignableFields. Proof. solve_decision. Defined.
#[local] Instance fields_countable : Countable SignableFields :=
  inj_countable' (λ f, (v f, peer f, roles f, addr_hints f, (nat_class f, not_before f, not_after f, score f, transport_hints f)))
    (λ x, mkFields x.1.1.1.1 x.1.1.1.2 x.1.1.2 x.1.2 x.2.1.1.1.1 x.2.1.1.1.2 x.2.1.1.2 x.2.1.2 x.2.2) ltac:(by intros []).
#[local] Instance advert_eq_dec : EqDecision CoordinatorAdvert. Proof. solve_decision. Defined.
#[local] Instance advert_countable : Countable CoordinatorAdvert := inj_countable' (λ a, (fields a, sig a)) (λ x, mkAdvert x.1 x.2) ltac:(by intros []).

#[local] Instance numbering : CoordCodec.
Proof.
  refine {| put_fields f := [Zpos (encode f)]; put_advert a := [Zpos (encode a)];
    get_cbor_advert l := match l with [Zpos n] => decode n | _ => None end; put_entries _ := [0]; get_entries _ := None |}; [|done].
  intros a _. cbn. apply decode_encode.
Defined.
#[local] Instance no_cache : BootstrapCache := {|
  BC := (); CachedPeer := PeerId; cached_id p := p; add_from_connection b _ _ := b; bc_select_coordinators _ _ _ := []; bc_select_relay_peers _ _ _ := [];
  bc_select_peers _ _ _ := []; bc_record_success b _ _ := b; bc_record_failure b _ := b; bc_remove b _ := b |}.
#[local] Instance iter_adverts : HashIter PeerId CoordinatorAdvert := canonical_iter.

(** ** The theorems applied *)

Definition nothing : @BC no_cache := ().

Definition me : PeerId := mkPeerId (replicate 32 2).
Definition home : SocketAddr := ([127; 0; 0; 1], 9000).
Definition asked (created : Z) : FindCoordinatorQuery := mkQuery (replicate 32 6) id0 3 created.
Definition forget : list COp := [CPrune (λ _, 0) (30 * NANOS_PER_SEC + 7)].

Lemma query_answered_once_witness :
  let n := foldl cexec (node_new me nothing) (CQuery (asked 9) 7 10 (λ _, 0) :: forget) in
  (handle_find_query (handler n) (Some (boot_cache (boot n))) (asked 9) (31 * NANOS_PER_SEC) 31010 (λ _, 0)).2 = None.
Proof.
  apply (query_answered_once [] forget me nothing 10000000 (asked 9) (asked 9) 7 (31 * NANOS_PER_SEC) 10 31010 (λ _, 0) (λ _, 0)).
  - by eexists.
  - done.
  - by vm_compute.
  - by vm_compute.
  - cbn [timed forget app]. unfold NANOS_PER_SEC. split_and!; try done; lia.
Defined.

Definition honest : CoordinatorAdvert := mkAdvert (mkFields 1 id0 roles_default [mkHint home 1] Eim 0 100 0 []) sig0.
Definition joining : Bootstrap := mkBootstrap me (mkAdapter nothing {[id0 := honest]}) ∅.
Definition elsewhere : SocketAddr := ([10; 6; 6; 6], 666).

Lemma response_hijacks_bootstrap_witness :
  (find_coordinator joining (λ _, 50) [] 50 0).2 = Connect (mkResult id0 home Direct) ∧
  (handle_find_response joining (mkResponse [] me [forged id0 elsewhere [0]]) [(50, 50)] (λ _, 50)).2 = Some (Connect (mkResult id0 elsewhere Direct)).
Proof.
  split; [by vm_compute|].
  destruct (response_hijacks_bootstrap joining id0 me elsewhere [0] [] 50 50 (λ _, 50)) as [Hr _]; [done|by unfold u64, U64_MAX; lia..| |exact Hr].
  intros p' a' Hne. unfold joining. cbn [boot_cache adverts]. rewrite lookup_singleton_ne by done. done.
Defined.

Definition publisher : CoordinatorPublisher := set_signing_key (publisher_new id0 roles_default [home] Eim) [9].
Lemma sig0_matches : keys_match [9] pk0.
Proof. intros m. exists sig0. split; [done|]. split; [by apply Forall_replicate|]. split; [unfold sig0; rewrite length_replicate; lia|]. by exists sig0. Qed.

Lemma published_advert_found_witness :
  ∃ bytes a c, publish_advert publisher (λ _, 5) 10 = Ok bytes ∧ from_bytes bytes = Some a ∧
    handle_advert (Some (mkAdapter nothing ∅)) a pk0 20 = (Some c, Some true) ∧
    (find_coordinator (mkBootstrap me c ∅) (λ _, 30) [] 30 0).2 = Connect (mkResult id0 home Direct).
Proof.
  destruct (published_advert_found publisher [9] pk0 home [] (λ _, 5) 10 eq_refl sig0_matches eq_refl eq_refl) as (bytes & a & Hp & Hf & Hrest).
  - apply sha256_array.
  - intros y Hy%elem_of_cons i. destruct Hy as [->|Hy%not_elem_of_nil]; [|done]. split_and!; try done; [by left|by repeat constructor].
  - done.
  - done.
  - done.
  - destruct (Hrest (mkBootstrap me (mkAdapter nothing ∅) ∅) 20 30 (λ _, 30) [] 30 0 eq_refl ltac:(by split)) as (c & Hc & _ & Hfind & _).
    exists bytes, a, c. split_and!; [exact Hp|exact Hf|exact Hc|]. apply Hfind. by split.
Defined.

End CoordinatorWitness.
