(* ===== verification/Transport.v ===== *)
(** * The transport ([crates/transport])

    The adapter over ant-quic: peer tracking, the registry of authenticated
    sessions, guarded sends, sends with one reconnect, the receiver that stamps
    frames with the session they came over, and the classification of errors;
    and the protocol handler that routes gossip streams.

    ant-quic is not modelled: what the code reads from the node is an argument
    of each operation.  A connection is its stable id; [Instant]s are
    nanoseconds.  A future is one step: queue waits lie between the capture of a
    session and the admission, which take separate readings. *)

From S2P Require Import Prelude Types Identity KeyCodec KeyCache.
From Stdlib Require Import Ascii.
Import KeyCache(AuthenticatedSession, mkSession, generation).

#[local] Open Scope Z_scope.

Module Transport.
Notation SocketAddr := (list Z * Z)%type.

(** ** Stream types *)

Inductive GossipStreamType := Membership | PubSub | Bulk.
#[global] Instance stream_type_eq_dec : EqDecision GossipStreamType.
Proof. solve_decision. Defined.

Definition from_byte (b : Z) : option GossipStreamType :=
  if decide (b = 0) then Some Membership else if decide (b = 1) then Some PubSub else if decide (b = 2) then Some Bulk else None.
Definition to_byte (t : GossipStreamType) : Z := match t with Membership => 0 | PubSub => 1 | Bulk => 2 end.

(** [[stream_type_byte | data]]. *)
Definition frame (t : GossipStreamType) (data : list Z) : list Z := to_byte t :: data.

(** ** Errors *)

Inductive TransportError :=
| ConnectionFailed (peer_id : option PeerId) (addr : SocketAddr) (source : Anyhow)
| SendFailed (peer_id : PeerId) (source : Anyhow)
| ReceiveFailed (source : Anyhow)
| DialFailed (addr : SocketAddr) (source : Anyhow)
| InvalidPeerId (reason : string)
| InvalidConfig (reason : string)
| MtuExceeded (size mtu : Z)
| Closed
| Timeout (operation : string)
| Other (source : Anyhow)
| PeerNotConnected (peer_id : PeerId)
(** [anyhow::Error]: a transport error, or messages, the outermost first. *)
with Anyhow :=
| ATransport (e : TransportError)
| AText (outer : string) (causes : list string).

(** The [Display] and [Debug] implementations used in messages. *)
Class Display := {
  show_peer : PeerId → string;
  show_log_peer : PeerId → string;
  show_peer_debug : option PeerId → string;
  show_addr : SocketAddr → string;
  show_num : Z → string;
}.

#[local] Open Scope string_scope.

Fixpoint display `{Display} (e : TransportError) : string :=
  match e with
  | ConnectionFailed p a s => "Connection failed to peer " ++ show_peer_debug p ++ " at " ++ show_addr a ++ ": " ++ display_anyhow s
  | SendFailed p s => "Send failed to peer " ++ show_peer p ++ ": " ++ display_anyhow s
  | ReceiveFailed s => "Receive failed: " ++ display_anyhow s
  | DialFailed a s => "Dial failed to " ++ show_addr a ++ ": " ++ display_anyhow s
  | InvalidPeerId r => "Invalid peer ID: " ++ r
  | InvalidConfig r => "Invalid configuration: " ++ r
  | MtuExceeded n m => "Message size " ++ show_num n ++ " exceeds MTU " ++ show_num m
  | Closed => "Transport is closed"
  | Timeout o => "Operation '" ++ o ++ "' timed out"
  | Other s => "Transport error: " ++ display_anyhow s
  | PeerNotConnected p => "Peer " ++ show_peer p ++ " is not connected"
  end
with display_anyhow `{Display} (a : Anyhow) : string :=
  match a with ATransport e => display e | AText s _ => s end.

(** [{:#}] of messages: the chain, joined. *)
Definition display_chain (outer : string) (causes : list string) : string := foldl (λ s c, s ++ ": " ++ c) outer causes.

(** [str::to_lowercase]; beyond ASCII it yields no letter of the sentinels. *)
Definition lower_ascii (c : ascii) : ascii :=
  let n := nat_of_ascii c in if decide (65 ≤ n ≤ 90)%nat then ascii_of_nat (n + 32) else c.
Fixpoint to_lowercase (s : string) : string :=
  match s with EmptyString => EmptyString | String.String c s => String.String (lower_ascii c) (to_lowercase s) end.

(** [str::contains]. *)
Fixpoint contains (s sub : string) : bool :=
  String.prefix sub s || match s with EmptyString => false | String.String _ s => contains s sub end.

Definition NOT_CONNECTED_SENTINELS : list string := ["peer not found"; "not connected"; "no cached address"].
Definition has_sentinel (rendered : string) : bool := existsb (contains (to_lowercase rendered)) NOT_CONNECTED_SENTINELS.

Definition is_peer_not_connected `{Display} (e : TransportError) : bool :=
  match e with PeerNotConnected _ => true | _ => has_sentinel (display e) end.
Definition is_peer_not_connected_error `{Display} (e : Anyhow) : bool :=
  match e with ATransport e => is_peer_not_connected e | AText outer causes => has_sentinel (display_chain outer causes) end.

(** ** Configuration *)

#[local] Close Scope string_scope.

Record Config := mkConfig {
  bind_addr : SocketAddr;
  known_peers : list SocketAddr;
  channel_capacity : Z;
  stream_read_limit : Z;
  max_peers : nat;
  max_inflight_sends : nat;
  send_timeout : Z;
  keypair : option (list Z * list Z);
}.
Definition config_new (bind : SocketAddr) (known : list SocketAddr) : Config := mkConfig bind known 10000 (100 * 1024 * 1024) 1000 64 (15 * NANOS_PER_SEC) None.
Definition with_keypair (c : Config) (pk sk : list Z) : Config :=
  mkConfig (bind_addr c) (known_peers c) (channel_capacity c) (stream_read_limit c) (max_peers c) (max_inflight_sends c) (send_timeout c) (Some (pk, sk)).
Definition with_channel_capacity (c : Config) (n : Z) : Config :=
  mkConfig (bind_addr c) (known_peers c) n (stream_read_limit c) (max_peers c) (max_inflight_sends c) (send_timeout c) (keypair c).
Definition with_stream_read_limit (c : Config) (n : Z) : Config :=
  mkConfig (bind_addr c) (known_peers c) (channel_capacity c) n (max_peers c) (max_inflight_sends c) (send_timeout c) (keypair c).
Definition with_max_peers (c : Config) (n : nat) : Config :=
  mkConfig (bind_addr c) (known_peers c) (channel_capacity c) (stream_read_limit c) n (max_inflight_sends c) (send_timeout c) (keypair c).
Definition with_max_inflight_sends (c : Config) (n : nat) : Config :=
  mkConfig (bind_addr c) (known_peers c) (channel_capacity c) (stream_read_limit c) (max_peers c) (Nat.max n 1) (send_timeout c) (keypair c).
Definition with_send_timeout (c : Config) (t : Z) : Config :=
  mkConfig (bind_addr c) (known_peers c) (channel_capacity c) (stream_read_limit c) (max_peers c) (max_inflight_sends c) t (keypair c).

(** ** Authenticated sessions *)

Record SessionEntry := mkSessionEntry { connection : Z; ant_generation : Z; token : AuthenticatedSession; last_used : Z }.
Record AuthenticatedSessions := mkSessions { next : Z; peers : gmap PeerId SessionEntry }.
Definition sessions_default : AuthenticatedSessions := mkSessions 0 ∅.

(** What a lookup reads from the node: the peer's connection generation, its
    connection (if any) and whether it is closed, the generation again, which
    registered connections are closed, and the clock. *)
Record NodeView := mkView {
  generation1 : option Z;
  quic : option Z;
  closed : bool;
  generation2 : option Z;
  entry_closed : PeerId → bool;
  view_now : Z;
}.

Section Sessions.
Context `{!HashIter PeerId SessionEntry}.

(** The least recently used entry. *)
Definition oldest_session (m : gmap PeerId SessionEntry) : option PeerId :=
  fst <$> min_by (λ x y, bool_decide (last_used x.2 < last_used y.2)) (hiter m).

Definition open_session (s : AuthenticatedSessions) (max : nat) (p : PeerId) (conn gen now : Z) (is_closed : PeerId → bool) :
    AuthenticatedSessions * option (Z * AuthenticatedSession) :=
  if negb (bool_decide (next s < U64_MAX)) then (s, None) else
  let n := next s + 1 in
  let live := filter (λ kv, is_closed kv.1 = false) (peers s) in
  match (if bool_decide (max ≤ size live)%nat && bool_decide (live !! p = None) then
           match oldest_session live with Some o => Some (delete o live) | None => None end
         else Some live) with
  | None => (mkSessions (next s) live, None)
  | Some m =>
      let t := mkSession p n in
      (mkSessions n (<[p := mkSessionEntry conn gen t now]> m), Some (gen, t))
  end.

Definition current_session_for_peer (s : AuthenticatedSessions) (max : nat) (p : PeerId) (w : NodeView) : AuthenticatedSessions * option (Z * AuthenticatedSession) :=
  if bool_decide (max = 0%nat) then (s, None) else
  match generation1 w with
  | None => (s, None)
  | Some gen =>
    if bool_decide (gen = U64_MAX) then (s, None) else
    match quic w with
    | None => (s, None)
    | Some conn =>
      if closed w || negb (bool_decide (generation2 w = Some gen)) then (s, None) else
      match peers s !! p with
      | Some e =>
          if bool_decide (connection e = conn ∧ ant_generation e = gen) then
            (mkSessions (next s) (<[p := mkSessionEntry (connection e) (ant_generation e) (token e) (view_now w)]> (peers s)), Some (gen, token e))
          else open_session s max p conn gen (view_now w) (entry_closed w)
      | None => open_session s max p conn gen (view_now w) (entry_closed w)
      end
    end
  end.

Definition source_generation_matches (source : Z) (current : option Z) : bool := bool_decide (source ≠ U64_MAX ∧ current = Some source).

Definition stamped_receive_session (source : Z) (before : option Z) (registered : option (Z * AuthenticatedSession)) (after : option Z) : option AuthenticatedSession :=
  if negb (source_generation_matches source before) || negb (source_generation_matches source after) then None else
  '(g, s) ← registered; if bool_decide (g = source) then Some s else None.

Definition frame_guarded_admission (t : GossipStreamType) (expected actual : Z) (session : AuthenticatedSession) (current : option (Z * AuthenticatedSession))
    (admit_bytes : AuthenticatedSession → result (list Z) string) : result (list Z) string :=
  if bool_decide (actual ≠ expected ∨ current ≠ Some (expected, session)) then Err "authenticated session changed while queued" else
  let? data := admit_bytes session in Ok (frame t data).
End Sessions.

(** ** The adapter *)

Record UdpTransportAdapter := mkTransport {
  authenticated_sessions : AuthenticatedSessions;
  gossip_peer_id : PeerId;
  connected : gmap PeerId (SocketAddr * Z);
  bootstrap_peer_ids : gmap SocketAddr PeerId;
  config : Config;
  (** The identity of each peer's mutex, and the next one. *)
  peer_send_locks : gmap PeerId Z;
  next_lock : Z;
}.
Definition transport_new (c : Config) (p : PeerId) : UdpTransportAdapter := mkTransport sessions_default p ∅ ∅ c ∅ 0.
Definition set_sessions (t : UdpTransportAdapter) (x : AuthenticatedSessions) : UdpTransportAdapter :=
  mkTransport x (gossip_peer_id t) (connected t) (bootstrap_peer_ids t) (config t) (peer_send_locks t) (next_lock t).
Definition set_connected (t : UdpTransportAdapter) (x : gmap PeerId (SocketAddr * Z)) : UdpTransportAdapter :=
  mkTransport (authenticated_sessions t) (gossip_peer_id t) x (bootstrap_peer_ids t) (config t) (peer_send_locks t) (next_lock t).
Definition set_bootstrap (t : UdpTransportAdapter) (x : gmap SocketAddr PeerId) : UdpTransportAdapter :=
  mkTransport (authenticated_sessions t) (gossip_peer_id t) (connected t) x (config t) (peer_send_locks t) (next_lock t).
Definition set_locks (t : UdpTransportAdapter) (x : gmap PeerId Z) (n : Z) : UdpTransportAdapter :=
  mkTransport (authenticated_sessions t) (gossip_peer_id t) (connected t) (bootstrap_peer_ids t) (config t) x n.

Definition addr_is_usable (a : SocketAddr) : bool := negb (bool_decide (Forall (λ z, z = 0) a.1)) && negb (bool_decide (a.2 = 0)).

(** Opening the node's connections: the peers with their synthetic addresses. *)
Notation NodePeers := (list (PeerId * SocketAddr)).
Definition PEER_TTL : Z := 300 * NANOS_PER_SEC.

Definition refresh_peer (now : Z) (m : gmap PeerId (SocketAddr * Z)) (c : PeerId * SocketAddr) : gmap PeerId (SocketAddr * Z) :=
  let '(p, a) := c in
  if addr_is_usable a then <[p := (a, now)]> m else
  match m !! p with Some (old, _) => <[p := (old, now)]> m | None => m end.

Definition connected_peers (t : UdpTransportAdapter) (ant_peers : NodePeers) (now : Z) : UdpTransportAdapter * NodePeers :=
  let m := foldl (refresh_peer now) (connected t) ant_peers in
  let m := filter (λ kv, elapsed_ns now kv.2.2 ≤ PEER_TTL) m in
  (set_connected t m, filter (λ c, addr_is_usable c.2 = true) ant_peers).

Section Adapter.
Context `{!HashIter PeerId (SocketAddr * Z)} `{!HashIter PeerId SessionEntry} `{Display}.

Definition add_peer_with_lru (m : gmap PeerId (SocketAddr * Z)) (p : PeerId) (a : SocketAddr) (max : nat) (now : Z) : gmap PeerId (SocketAddr * Z) :=
  let m :=
    if bool_decide (max ≤ size m)%nat && bool_decide (m !! p = None) then
      match min_by (λ x y, bool_decide (x.2.2 < y.2.2)) (hiter m) with Some (o, _) => delete o m | None => m end
    else m in
  <[p := (a, now)]> m.

Definition update_peer_last_seen (m : gmap PeerId (SocketAddr * Z)) (p : PeerId) (now : Z) : gmap PeerId (SocketAddr * Z) :=
  match m !! p with Some (a, _) => <[p := (a, now)]> m | None => m end.

Definition add_peer (t : UdpTransportAdapter) (p : PeerId) (a : SocketAddr) (now : Z) : UdpTransportAdapter :=
  if negb (addr_is_usable a) then t else set_connected t (add_peer_with_lru (connected t) p a (max_peers (config t)) now).

Definition remove_peer (t : UdpTransportAdapter) (p : PeerId) : UdpTransportAdapter :=
  let t := set_connected t (delete p (connected t)) in set_locks t (delete p (peer_send_locks t)) (next_lock t).

(** The mutex a send of [p] waits for. *)
Definition peer_send_lock (t : UdpTransportAdapter) (p : PeerId) : UdpTransportAdapter * Z :=
  match peer_send_locks t !! p with
  | Some l => (t, l)
  | None => (set_locks t (<[p := next_lock t]> (peer_send_locks t)) (next_lock t + 1), next_lock t)
  end.

Definition get_connected_peer_id (t : UdpTransportAdapter) (a : SocketAddr) : option PeerId :=
  match bootstrap_peer_ids t !! a with
  | Some p => Some p
  | None => fst <$> head (filter (λ kv, kv.2.1 = a) (hiter (connected t)))
  end.

(** [cached] is the peer's entry of the bootstrap cache: its addresses and its
    external addresses; [None] also without a cache. *)
Definition cached_peer_addr (t : UdpTransportAdapter) (p : PeerId) (cached : option (list SocketAddr * list SocketAddr)) (now : Z) : UdpTransportAdapter * option SocketAddr :=
  let known := match connected t !! p with Some (a, _) => if addr_is_usable a then Some a else None | None => None end in
  match known with
  | Some a => (t, Some a)
  | None =>
    match cached with
    | None => (t, None)
    | Some (addresses, external) =>
      let usable l := head (filter (λ a, addr_is_usable a = true) l) in
      match (match usable addresses with Some a => Some a | None => usable external end) with
      | None => (t, None)
      | Some a => (add_peer t p a now, Some a)
      end
    end
  end.

(** [node.connect_addr] within two seconds. *)
Inductive Reconnect := Reached (p : PeerId) | ConnectError (e : string) | ConnectTimeout.

#[local] Open Scope string_scope.

Definition reconnect_peer (t : UdpTransportAdapter) (p : PeerId) (a : SocketAddr) (r : Reconnect) (now : Z) : UdpTransportAdapter * result () string :=
  match r with
  | Reached q =>
      if negb (bool_decide (q = p)) then (remove_peer t p, Err ("Reconnect returned unexpected peer " ++ show_log_peer q ++ " for " ++ show_log_peer p))
      else (add_peer t p a now, Ok ())
  | ConnectError e => (t, Err ("Reconnect to " ++ show_addr a ++ " for peer " ++ show_log_peer p ++ " failed: " ++ e))
  | ConnectTimeout => (t, Err ("Reconnect to " ++ show_addr a ++ " for peer " ++ show_log_peer p ++ " timed out"))
  end.

(** ** Sends *)

Inductive SendOutcome := Delivered | NodeError (e : string) | SendTimedOut.

(** What one send reads from the node, in order, a reconnect depending on the
    address it dials; readings that a path does not reach are not used. *)
Record SendEnv := mkSendEnv {
  node_peers : NodePeers;
  is_connected : bool;
  cached1 : option (list SocketAddr * list SocketAddr);
  reconnect1 : SocketAddr → Reconnect;
  send1 : SendOutcome;
  cached2 : option (list SocketAddr * list SocketAddr);
  reconnect2 : SocketAddr → Reconnect;
  send2 : SendOutcome;
  send_now : Z;
}.

(** How a send ends: the branches of [send_to_peer] and [send], which differ
    only in the errors they make of them. *)
Inductive SendEnd :=
| Sent
| ReconnectFailed (e : string)
| NoAddress
| NoRetryAddress (first : SendOutcome)
| RetryReconnectFailed (e : string)
| RetryFailed (second : SendOutcome).

(** The frames handed to the node, in order. *)
Definition send_path (t : UdpTransportAdapter) (p : PeerId) (ty : GossipStreamType) (data : list Z) (e : SendEnv) : UdpTransportAdapter * list (list Z) * SendEnd :=
  let '(t, _) := peer_send_lock t p in
  let '(t, _) := connected_peers t (node_peers e) (send_now e) in
  let '(t, ready) :=
    if is_connected e then (t, None) else
    match cached_peer_addr t p (cached1 e) (send_now e) with
    | (t, None) => (t, Some NoAddress)
    | (t, Some a) => match reconnect_peer t p a (reconnect1 e a) (send_now e) with (t, Ok _) => (t, None) | (t, Err x) => (t, Some (ReconnectFailed x)) end
    end in
  match ready with
  | Some failed => (t, [], failed)
  | None =>
    let buf := frame ty data in
    match send1 e with
    | Delivered => (t, [buf], Sent)
    | first =>
      match cached_peer_addr t p (cached2 e) (send_now e) with
      | (t, None) => (t, [buf], NoRetryAddress first)
      | (t, Some a) =>
        match reconnect_peer t p a (reconnect2 e a) (send_now e) with
        | (t, Err x) => (t, [buf], RetryReconnectFailed x)
        | (t, Ok _) => (t, [buf; buf], match send2 e with Delivered => Sent | second => RetryFailed second end)
        end
      end
    end
  end.

(** [GossipTransport::send_to_peer]. *)
Definition first_error (p : PeerId) (o : SendOutcome) : string :=
  match o with
  | NodeError e => "Failed to send to peer " ++ show_log_peer p ++ ": " ++ e
  | _ => "Send to peer " ++ show_log_peer p ++ " timed out"
  end.
Definition retry_error (p : PeerId) (o : SendOutcome) : string :=
  match o with
  | NodeError e => "Retry send to peer " ++ show_log_peer p ++ " failed: " ++ e
  | _ => "Retry send to peer " ++ show_log_peer p ++ " timed out"
  end.
Definition send_to_peer (t : UdpTransportAdapter) (p : PeerId) (ty : GossipStreamType) (data : list Z) (e : SendEnv) : UdpTransportAdapter * list (list Z) * result () Anyhow :=
  let '(t, sent, r) := send_path t p ty data e in
  (t, sent,
   match r with
   | Sent => Ok ()
   | ReconnectFailed _ | NoAddress | RetryReconnectFailed _ => Err (ATransport (PeerNotConnected p))
   | NoRetryAddress o => Err (AText ("Failed to send to peer " ++ show_log_peer p ++ " (no cached address): " ++ first_error p o) [])
   | RetryFailed o => Err (AText (retry_error p o) [])
   end).

(** [TransportAdapter::send]. *)
Definition adapter_error (o : SendOutcome) (timed_out : string) : string := match o with NodeError e => e | _ => timed_out end.
Definition adapter_send (t : UdpTransportAdapter) (p : PeerId) (ty : GossipStreamType) (data : list Z) (e : SendEnv) : UdpTransportAdapter * list (list Z) * result () TransportError :=
  let '(t, sent, r) := send_path t p ty data e in
  (t, sent,
   match r with
   | Sent => Ok ()
   | ReconnectFailed x | RetryReconnectFailed x => Err (SendFailed p (AText x []))
   | NoAddress => Err (SendFailed p (AText ("Peer " ++ show_log_peer p ++ " not connected and no cached address is available") []))
   | NoRetryAddress o =>
       Err (SendFailed p (AText ("Failed to send to peer " ++ show_log_peer p ++ " (no cached address): " ++ adapter_error o "Send to peer timed out") []))
   | RetryFailed o => Err (SendFailed p (AText (adapter_error o "Retry send to peer timed out") []))
   end).

#[local] Close Scope string_scope.

(** *** Guarded sends

    The session is captured before the queue waits, for a permit and for the
    peer's mutex; the node calls back with the generation it pinned, and the
    registry is read again. *)
Definition capture (t : UdpTransportAdapter) (p : PeerId) (w : NodeView) : UdpTransportAdapter * result (Z * AuthenticatedSession) string :=
  match current_session_for_peer (authenticated_sessions t) (max_peers (config t)) p w with
  | (s, Some x) => ((peer_send_lock (set_sessions t s) p).1, Ok x)
  | (s, None) => (set_sessions t s, Err "authenticated session unavailable"%string)
  end.
Definition admission (t : UdpTransportAdapter) (p : PeerId) (ty : GossipStreamType) (captured : Z * AuthenticatedSession) (actual : Z) (w : NodeView)
    (admit_bytes : AuthenticatedSession → result (list Z) string) : UdpTransportAdapter * result (list Z) string :=
  let '(s, current) := current_session_for_peer (authenticated_sessions t) (max_peers (config t)) p w in
  (set_sessions t s, frame_guarded_admission ty captured.1 actual captured.2 current admit_bytes).
Definition authenticated_session (t : UdpTransportAdapter) (p : PeerId) (w : NodeView) : UdpTransportAdapter * option AuthenticatedSession :=
  let '(s, r) := current_session_for_peer (authenticated_sessions t) (max_peers (config t)) p w in (set_sessions t s, snd <$> r).

(** ** The receiver and the acceptor *)

Record ReceivedFrame := mkReceived { rf_peer : PeerId; rf_type : GossipStreamType; rf_data : list Z; rf_session : option AuthenticatedSession }.

(** One frame from the node, stamped with the generation it came over; what is
    forwarded. *)
Definition receive_step (t : UdpTransportAdapter) (from : PeerId) (source : Z) (data : list Z) (before : option Z) (w : NodeView) (after : option Z) (now : Z) :
    UdpTransportAdapter * option ReceivedFrame :=
  match data with
  | [] => (t, None)
  | b :: payload =>
    match from_byte b with
    | None => (t, None)
    | Some ty =>
      let '(t, registered) :=
        if source_generation_matches source before then
          let '(s, r) := current_session_for_peer (authenticated_sessions t) (max_peers (config t)) from w in (set_sessions t s, r)
        else (t, None) in
      let session := stamped_receive_session source before registered after in
      (set_connected t (update_peer_last_seen (connected t) from now), Some (mkReceived from ty payload session))
    end
  end.

Definition accept_step (t : UdpTransportAdapter) (p : PeerId) (a : SocketAddr) (now : Z) : UdpTransportAdapter :=
  if addr_is_usable a then set_connected t (add_peer_with_lru (connected t) p a (max_peers (config t)) now) else t.

(** The background dial of one known peer, after [connect_addr] succeeded: the
    peer at that address, if the node lists it. *)
Definition known_peer_step (t : UdpTransportAdapter) (a : SocketAddr) (ant_peers : NodePeers) (now : Z) : UdpTransportAdapter :=
  match head (filter (λ c, c.2 = a) ant_peers) with
  | Some (p, _) => set_connected t (add_peer_with_lru (connected t) p a (max_peers (config t)) now)
  | None => t
  end.

(** ** Dialling *)

(** [connect_with_fallback]: the peer and its address. *)
Inductive Fallback := FallbackReached (p : PeerId) (remote : SocketAddr) | FallbackError (e : string).
Inductive CacheEvent := RecordSuccess (p : PeerId) | RecordFailure (p : PeerId).
(** [connect_addr] without a time limit. *)
Inductive DirectDial := DirectReached (p : PeerId) | DirectError (e : string).

#[local] Open Scope string_scope.

Definition connect_with_nat_fallback (t : UdpTransportAdapter) (a : SocketAddr) (f : Fallback) (now : Z) : UdpTransportAdapter * result PeerId string :=
  match f with
  | FallbackReached q remote => (add_peer t q (if addr_is_usable remote then remote else a) now, Ok q)
  | FallbackError e => (t, Err ("All connection strategies failed for " ++ show_addr a ++ ": " ++ e))
  end.

Definition unexpected (q p : PeerId) : string := "Connected to unexpected peer " ++ show_log_peer q ++ " when dialing " ++ show_log_peer p.
Definition dial (t : UdpTransportAdapter) (p : PeerId) (a : SocketAddr) (connected_already : bool) (direct : DirectDial) (f : Fallback) (now : Z) :
    UdpTransportAdapter * list CacheEvent * result () string :=
  if connected_already then (add_peer t p a now, [], Ok ()) else
  match direct with
  | DirectReached q =>
      if negb (bool_decide (q = p)) then (remove_peer t p, [], Err (unexpected q p)) else (add_peer t q a now, [RecordSuccess q], Ok ())
  | DirectError e =>
      match connect_with_nat_fallback t a f now with
      | (t, Ok q) => if negb (bool_decide (q = p)) then (remove_peer t p, [], Err (unexpected q p)) else (t, [RecordSuccess q], Ok ())
      | (t, Err fe) =>
          (remove_peer t p, [RecordFailure p],
           Err ("Failed to connect to peer " ++ show_peer p ++ " at " ++ show_addr a ++ ": direct failed (" ++ e ++ "), NAT fallback failed (" ++ fe ++ ")"))
      end
  end.

Definition dial_bootstrap (t : UdpTransportAdapter) (a : SocketAddr) (direct : DirectDial) (now : Z) : UdpTransportAdapter * list CacheEvent * result PeerId string :=
  match direct with
  | DirectReached q => (add_peer (set_bootstrap t (<[a := q]> (bootstrap_peer_ids t))) q a now, [RecordSuccess q], Ok q)
  | DirectError e => (t, [], Err ("Failed to connect to bootstrap: " ++ e))
  end.

(** [TransportAdapter::dial]. *)
Definition adapter_dial (t : UdpTransportAdapter) (a : SocketAddr) (ant_peers : NodePeers) (direct : DirectDial) (f : Fallback) (now : Z) :
    UdpTransportAdapter * list CacheEvent * result PeerId TransportError :=
  let '(t, live) := connected_peers t ant_peers now in
  match head (filter (λ c, c.2 = a) live) with
  | Some (p, _) => (t, [], Ok p)
  | None =>
    match direct with
    | DirectReached q => (add_peer t q a now, [RecordSuccess q], Ok q)
    | DirectError e =>
        match connect_with_nat_fallback t a f now with
        | (t, Ok q) => (t, [RecordSuccess q], Ok q)
        | (t, Err fe) => (t, [], Err (DialFailed a (AText ("direct failed (" ++ e ++ "), NAT fallback failed (" ++ fe ++ ")") [])))
        end
    end
  end.

#[local] Close Scope string_scope.

(** ** Closing *)

(** [GossipTransport::close] and [TransportAdapter::close]. *)
Definition adapter_close (t : UdpTransportAdapter) : UdpTransportAdapter := set_bootstrap (set_connected t ∅) ∅.
Definition close (t : UdpTransportAdapter) : UdpTransportAdapter :=
  let t := adapter_close t in set_sessions t (mkSessions (next (authenticated_sessions t)) ∅).
End Adapter.
End Transport.

(** ** The protocol handler

    [ant_quic::StreamType] and its three gossip values. *)
Class AntStreams := {
  StreamType : Type;
  StreamType_eq_dec :: EqDecision StreamType;
  st_membership : StreamType;
  st_pubsub : StreamType;
  st_bulk : StreamType;
  st_distinct : NoDup [st_membership; st_pubsub; st_bulk];
}.

Module ProtocolHandler.
Import Transport.

Section Handler.
Context `{AntStreams} {LinkError : Type}.

Definition to_ant_quic (t : GossipStreamType) : StreamType := match t with Membership => st_membership | PubSub => st_pubsub | Bulk => st_bulk end.
Definition from_ant_quic (s : StreamType) : option GossipStreamType :=
  if decide (s = st_membership) then Some Membership else if decide (s = st_pubsub) then Some PubSub else if decide (s = st_bulk) then Some Bulk else None.

Record HandlerMessage := mkMessage { hm_peer : PeerId; hm_stream : StreamType; hm_data : list Z }.

(** A direct handler; its effects are its own. *)
Notation Direct := (PeerId → list Z → result (option (list Z)) LinkError).
Record GossipProtocolHandler := mkHandler {
  channel : list HandlerMessage;
  receiver_gone : bool;
  membership_handler : option Direct;
  pubsub_handler : option Direct;
  bulk_handler : option Direct;
}.
Definition handler_new : GossipProtocolHandler := mkHandler [] false None None None.
Definition with_handlers (m p b : option Direct) : GossipProtocolHandler := mkHandler [] false m p b.
Definition set_membership_handler (h : GossipProtocolHandler) (d : Direct) : GossipProtocolHandler := mkHandler (channel h) (receiver_gone h) (Some d) (pubsub_handler h) (bulk_handler h).
Definition set_pubsub_handler (h : GossipProtocolHandler) (d : Direct) : GossipProtocolHandler := mkHandler (channel h) (receiver_gone h) (membership_handler h) (Some d) (bulk_handler h).
Definition set_bulk_handler (h : GossipProtocolHandler) (d : Direct) : GossipProtocolHandler := mkHandler (channel h) (receiver_gone h) (membership_handler h) (pubsub_handler h) (Some d).

Definition send_message (h : GossipProtocolHandler) (p : PeerId) (s : StreamType) (data : list Z) : GossipProtocolHandler :=
  if receiver_gone h then h else mkHandler (channel h ++ [mkMessage p s data]) (receiver_gone h) (membership_handler h) (pubsub_handler h) (bulk_handler h).

(** The three [handle_*_internal]. *)
Definition route (h : GossipProtocolHandler) (direct : option Direct) (p : PeerId) (s : StreamType) (data : list Z) : GossipProtocolHandler * result (option (list Z)) LinkError :=
  match direct with Some d => (h, d p data) | None => (send_message h p s data, Ok None) end.
Definition handle_stream (h : GossipProtocolHandler) (p : PeerId) (s : StreamType) (data : list Z) : GossipProtocolHandler * result (option (list Z)) LinkError :=
  if decide (s = st_membership) then route h (membership_handler h) p st_membership data else
  if decide (s = st_pubsub) then route h (pubsub_handler h) p st_pubsub data else
  if decide (s = st_bulk) then route h (bulk_handler h) p st_bulk data else (h, Ok None).
Definition handle_datagram (h : GossipProtocolHandler) (p : PeerId) (s : StreamType) (data : list Z) : GossipProtocolHandler := send_message h p s data.
End Handler.
End ProtocolHandler.
