(* ===== verification/TransportProps.v ===== *)
(** * The transport: the properties

    A session token names one connection, on the sending and on the receiving
    side; how failures are classified, what a send delivers and the exact cause of
    each of its results; peer tracking and its limit. *)

From Stdlib Require Import Ascii.
From S2P Require Import Prelude Types Identity MessageCache Plumtree KeyCodec KeyCache KeyExchange Compat CompatProps CompatEgress Transport.
Import KeyCache(AuthenticatedSession, mkSession, generation).
Import Transport.

#[local] Open Scope Z_scope.

Module TransportProps.

(** ** Stream types *)

Lemma from_to_byte (t : GossipStreamType) : from_byte (to_byte t) = Some t.
Proof. by destruct t. Qed.

Section Streams.
Context `{AntStreams}.
Lemma from_to_ant (t : GossipStreamType) : ProtocolHandler.from_ant_quic (ProtocolHandler.to_ant_quic t) = Some t.
Proof.
  pose proof st_distinct as Hd. rewrite !NoDup_cons, !not_elem_of_cons in Hd. destruct Hd as ((? & ? & _) & (? & _) & _).
  unfold ProtocolHandler.from_ant_quic. destruct t; cbn; repeat case_decide; congruence.
Qed.
End Streams.

(** ** The session registry *)

Section Registry.
Context `{!HashIter PeerId SessionEntry}.

(** The results [H] of lookups so far, and the registry after them. *)
Record registry_wf (R : list (Z * AuthenticatedSession)) (s : AuthenticatedSessions) : Prop := {
  reg_next : 0 ≤ next s ≤ U64_MAX;
  reg_issued x : x ∈ R → 1 ≤ generation x.2 ≤ next s;
  reg_unique x y : x ∈ R → y ∈ R → generation x.2 = generation y.2 → x = y;
  reg_entry p e : peers s !! p = Some e → KeyCache.peer (token e) = p ∧ (ant_generation e, token e) ∈ R;
}.

Lemma registry_wf_default : registry_wf [] sessions_default.
Proof. split; cbn; [unfold U64_MAX; lia|by intros x ?%not_elem_of_nil|by intros x y ?%not_elem_of_nil|]. intros p e Hp. exfalso. by apply (lookup_empty_Some p e). Qed.

Lemma registry_wf_fewer (R : list (Z * AuthenticatedSession)) (s : AuthenticatedSessions) (m : gmap PeerId SessionEntry) :
  m ⊆ peers s → registry_wf R s → registry_wf R (mkSessions (next s) m).
Proof. intros Hm []. split; try done. cbn. intros p e Hp. apply reg_entry0. by eapply lookup_weaken. Qed.

Lemma open_session_wf (R : list (Z * AuthenticatedSession)) (s : AuthenticatedSessions) (max : nat) (p : PeerId) (conn gen now : Z) (is_closed : PeerId → bool) :
  registry_wf R s →
  match open_session s max p conn gen now is_closed with
  | (s', Some x) => x.1 = gen ∧ KeyCache.peer x.2 = p ∧ registry_wf (x :: R) s'
  | (s', None) => registry_wf R s'
  end.
Proof.
  intros Hw. unfold open_session. case_bool_decide as Hn; cbn [negb]; [|done]. set (live := filter _ (peers s)).
  assert (Hlive : live ⊆ peers s) by apply map_filter_subseteq. set (m := if bool_decide _ && bool_decide _ then _ else Some live).
  assert (Hm : ∀ m', m = Some m' → m' ⊆ peers s).
  { intros m'. unfold m. destruct (_ && _); [|by intros [= <-]]. destruct (oldest_session live) as [o|]; [|done]. intros [= <-]. by etrans; [apply delete_subseteq|]. }
  clearbody m. destruct m as [m'|]; [|by apply registry_wf_fewer]. specialize (Hm m' eq_refl). destruct Hw. split_and!; [done|done|]. split; cbn [next peers].
  - lia.
  - intros x [->|Hx]%elem_of_cons; cbn; [lia|]. specialize (reg_issued0 x Hx). lia.
  - intros x y [->|Hx]%elem_of_cons [->|Hy]%elem_of_cons; cbn; intros Heq; [done| | |by apply reg_unique0].
    + specialize (reg_issued0 y Hy). lia.
    + specialize (reg_issued0 x Hx). lia.
  - intros q e. rewrite lookup_insert_Some. intros [[<- <-]|[_ Hq]]; [split; [done|by left]|]. cbn. destruct (reg_entry0 q e) as [? ?]; [by eapply lookup_weaken|]. split; [done|by right].
Qed.

Lemma registry_wf_again (R : list (Z * AuthenticatedSession)) (s : AuthenticatedSessions) (x : Z * AuthenticatedSession) : x ∈ R → registry_wf R s → registry_wf (x :: R) s.
Proof.
  intros Hx []. split; try done.
  - intros y [->|Hy]%elem_of_cons; auto.
  - intros y z [->|Hy]%elem_of_cons [->|Hz]%elem_of_cons; auto.
  - intros p e Hp. destruct (reg_entry0 p e Hp). split; [done|by right].
Qed.

Lemma current_session_wf (R : list (Z * AuthenticatedSession)) (s : AuthenticatedSessions) (max : nat) (p : PeerId) (w : NodeView) :
  registry_wf R s →
  match current_session_for_peer s max p w with
  | (s', Some x) => generation1 w = Some x.1 ∧ x.1 ≠ U64_MAX ∧ KeyCache.peer x.2 = p ∧ registry_wf (x :: R) s'
  | (s', None) => registry_wf R s'
  end.
Proof.
  intros Hw. unfold current_session_for_peer. case_bool_decide; [done|]. destruct (generation1 w) as [gen|] eqn:Hg; [|done]. case_bool_decide as Hmax; [done|].
  destruct (quic w) as [conn|]; [|done]. destruct (_ || _); [done|].
  assert (Hopen : match open_session s max p conn gen (view_now w) (entry_closed w) with
    | (s', Some x) => Some gen = Some x.1 ∧ x.1 ≠ U64_MAX ∧ KeyCache.peer x.2 = p ∧ registry_wf (x :: R) s' | (s', None) => registry_wf R s' end).
  { pose proof (open_session_wf R s max p conn gen (view_now w) (entry_closed w) Hw) as Ho. destruct (open_session _ _ _ _ _ _ _) as [s' [x|]]; [|done].
    destruct Ho as (<- & ? & ?). by split_and!. }
  destruct (peers s !! p) as [e|] eqn:He; [|exact Hopen]. case_bool_decide as Hsame; [|exact Hopen]. destruct Hsame as [_ <-].
  destruct (reg_entry _ _ Hw p e He) as [Hp Hin]. split_and!; try done. apply registry_wf_again; [done|]. destruct Hw. split; try done. cbn [peers].
  intros q f. rewrite lookup_insert_Some. intros [[<- <-]|[_ Hq]]; [by split|by apply reg_entry0].
Qed.

Lemma close_wf (R : list (Z * AuthenticatedSession)) (s : AuthenticatedSessions) : registry_wf R s → registry_wf R (mkSessions (next s) ∅).
Proof. apply registry_wf_fewer, map_empty_subseteq. Qed.
End Registry.

(** ** Runs of the adapter *)

Section Adapter.
Context `{!HashIter PeerId (SocketAddr * Z)} `{!HashIter PeerId SessionEntry} `{Display}.

Inductive TOp :=
| TReceive (from : PeerId) (source : Z) (data : list Z) (before : option Z) (w : NodeView) (after : option Z) (now : Z)
| TSession (p : PeerId) (w : NodeView)
| TCapture (p : PeerId) (w : NodeView)
| TAdmission (p : PeerId) (ty : GossipStreamType) (captured : Z * AuthenticatedSession) (actual : Z) (w : NodeView) (admit_bytes : AuthenticatedSession → result (list Z) string)
| TSend (p : PeerId) (ty : GossipStreamType) (data : list Z) (e : SendEnv)
| TDial (p : PeerId) (a : SocketAddr) (already : bool) (direct : DirectDial) (f : Fallback) (now : Z)
| TBootstrap (a : SocketAddr) (direct : DirectDial) (now : Z)
| TAdapterDial (a : SocketAddr) (l : list (PeerId * SocketAddr)) (direct : DirectDial) (f : Fallback) (now : Z)
| TAccept (p : PeerId) (a : SocketAddr) (now : Z)
| TKnown (a : SocketAddr) (l : list (PeerId * SocketAddr)) (now : Z)
| TPeers (l : list (PeerId * SocketAddr)) (now : Z)
| TClose
| TAdapterClose.

(** The step, and the session it used with the generation of the node's
    connection: the one a received frame came over, the one a lookup was for,
    the one admitted bytes are released to. *)
Definition texec (t : UdpTransportAdapter) (o : TOp) : UdpTransportAdapter * list (Z * AuthenticatedSession) :=
  match o with
  | TReceive from source data before w after now =>
      let '(t, f) := receive_step t from source data before w after now in
      (t, match f with Some f => match rf_session f with Some s => [(source, s)] | None => [] end | None => [] end)
  | TSession p w => let '(t, r) := authenticated_session t p w in (t, match generation1 w, r with Some g, Some s => [(g, s)] | _, _ => [] end)
  | TCapture p w => let '(t, r) := capture t p w in (t, match r with Ok x => [x] | Err _ => [] end)
  | TAdmission p ty captured actual w admit_bytes =>
      let '(t, r) := admission t p ty captured actual w admit_bytes in (t, match r with Ok _ => [(actual, captured.2)] | Err _ => [] end)
  | TSend p ty data e => ((send_to_peer t p ty data e).1.1, [])
  | TDial p a already direct f now => ((dial t p a already direct f now).1.1, [])
  | TBootstrap a direct now => ((dial_bootstrap t a direct now).1.1, [])
  | TAdapterDial a l direct f now => ((adapter_dial t a l direct f now).1.1, [])
  | TAccept p a now => (accept_step t p a now, [])
  | TKnown a l now => (known_peer_step t a l now, [])
  | TPeers l now => ((connected_peers t l now).1, [])
  | TClose => (close t, [])
  | TAdapterClose => (adapter_close t, [])
  end.
Fixpoint trun (t : UdpTransportAdapter) (os : list TOp) : UdpTransportAdapter * list (Z * AuthenticatedSession) :=
  match os with
  | [] => (t, [])
  | o :: os => let '(t, u) := texec t o in let '(t, us) := trun t os in (t, u ++ us)
  end.

(** Peer tracking leaves the sessions alone. *)
Lemma add_peer_sessions (t : UdpTransportAdapter) (p : PeerId) (a : SocketAddr) (now : Z) : authenticated_sessions (add_peer t p a now) = authenticated_sessions t.
Proof. unfold add_peer. by destruct (negb _). Qed.
Lemma cached_addr_sessions (t : UdpTransportAdapter) (p : PeerId) (c : option (list SocketAddr * list SocketAddr)) (now : Z) :
  authenticated_sessions (cached_peer_addr t p c now).1 = authenticated_sessions t.
Proof. unfold cached_peer_addr. repeat case_match; cbn; by rewrite ?add_peer_sessions. Qed.
Lemma reconnect_sessions (t : UdpTransportAdapter) (p : PeerId) (a : SocketAddr) (r : Reconnect) (now : Z) :
  authenticated_sessions (reconnect_peer t p a r now).1 = authenticated_sessions t.
Proof. unfold reconnect_peer. destruct r; [|done..]. destruct (negb _); cbn; by rewrite ?add_peer_sessions. Qed.
Lemma fallback_sessions (t : UdpTransportAdapter) (a : SocketAddr) (f : Fallback) (now : Z) :
  authenticated_sessions (connect_with_nat_fallback t a f now).1 = authenticated_sessions t.
Proof. destruct f; cbn; by rewrite ?add_peer_sessions. Qed.

Lemma lock_sessions (t : UdpTransportAdapter) (p : PeerId) : authenticated_sessions (peer_send_lock t p).1 = authenticated_sessions t.
Proof. unfold peer_send_lock. by destruct (peer_send_locks t !! p). Qed.

Lemma send_path_sessions (t : UdpTransportAdapter) (p : PeerId) (ty : GossipStreamType) (data : list Z) (e : SendEnv) :
  authenticated_sessions (send_path t p ty data e).1.1 = authenticated_sessions t.
Proof.
  unfold send_path. pose proof (lock_sessions t p) as Hlock.
  destruct (peer_send_lock t p) as [t1 lk]. cbn [fst] in Hlock. destruct (connected_peers t1 (node_peers e) (send_now e)) as [t2 l] eqn:Hc.
  assert (H2 : authenticated_sessions t2 = authenticated_sessions t) by (by rewrite <-Hlock; injection Hc as <- _). set (ready := if is_connected e then _ else _).
  assert (Hr : authenticated_sessions ready.1 = authenticated_sessions t).
  { unfold ready. destruct (is_connected e); [done|]. pose proof (cached_addr_sessions t2 p (cached1 e) (send_now e)) as Ha. destruct (cached_peer_addr t2 p _ _) as [t3 [a|]]; cbn in *; [|congruence].
    pose proof (reconnect_sessions t3 p a (reconnect1 e a) (send_now e)) as Hr. destruct (reconnect_peer t3 p a _ _) as [t4 []]; cbn in *; congruence. }
  clearbody ready. destruct ready as [t3 [failed|]]; cbn [fst] in Hr; [done|]. pose proof (cached_addr_sessions t3 p (cached2 e) (send_now e)) as Ha.
  destruct (send1 e); [done|..]; destruct (cached_peer_addr t3 p _ _) as [t4 [a|]]; cbn in *; try congruence;
    pose proof (reconnect_sessions t4 p a (reconnect2 e a) (send_now e)) as Hr2; destruct (reconnect_peer t4 p a _ _) as [t5 []]; cbn in *; congruence.
Qed.

Lemma dial_sessions (t : UdpTransportAdapter) (p : PeerId) (a : SocketAddr) (already : bool) (direct : DirectDial) (f : Fallback) (now : Z) :
  authenticated_sessions (dial t p a already direct f now).1.1 = authenticated_sessions t.
Proof.
  unfold dial. destruct already; cbn; [by rewrite add_peer_sessions|]. destruct direct as [q|e]; [destruct (negb _); cbn; by rewrite ?add_peer_sessions|].
  pose proof (fallback_sessions t a f now) as Hf. destruct (connect_with_nat_fallback t a f now) as [t1 [q|]]; cbn in *; [|done]. by destruct (negb _).
Qed.

(** The results of the registry so far contain what the step used. *)
Lemma texec_wf (R : list (Z * AuthenticatedSession)) (t : UdpTransportAdapter) (o : TOp) :
  registry_wf R (authenticated_sessions t) → ∃ R', R ⊆ R' ∧ (texec t o).2 ⊆ R' ∧ registry_wf R' (authenticated_sessions (texec t o).1).
Proof.
  intros Hw. assert (Hsame : ∀ t', authenticated_sessions t' = authenticated_sessions t → ∃ R', R ⊆ R' ∧ [] ⊆ R' ∧ registry_wf R' (authenticated_sessions t')).
  { intros t' ->. exists R. split_and!; [done|apply list_subseteq_nil|done]. }
  assert (Hlook : ∀ p w s r, current_session_for_peer (authenticated_sessions t) (max_peers (config t)) p w = (s, r) →
    ∃ R', R ⊆ R' ∧ registry_wf R' s ∧ match r with Some x => x ∈ R' ∧ generation1 w = Some x.1 | None => True end).
  { intros p w s r Hl. pose proof (current_session_wf R _ (max_peers (config t)) p w Hw) as Hs. rewrite Hl in Hs. destruct r as [x|]; [|by exists R].
    destruct Hs as (Hg & _ & _ & Hs). exists (x :: R). split_and!; [by apply list_subseteq_cons|done|by left|done]. }
  destruct o; cbn [texec].
  - unfold receive_step. destruct data as [|b payload]; [by apply Hsame|]. destruct (from_byte b) as [ty|]; [|by apply Hsame].
    destruct (source_generation_matches source before) eqn:Hb.
    + destruct (current_session_for_peer _ _ from w) as [s r] eqn:Hl. destruct (Hlook from w s r Hl) as (R' & HR & Hw' & Hr). cbn.
      exists R'. split_and!; [done| |done]. unfold stamped_receive_session. destruct (_ || _); [apply list_subseteq_nil|]. destruct r as [[g x]|]; cbn; [|apply list_subseteq_nil].
      case_bool_decide as Hg; [subst g|apply list_subseteq_nil]. destruct Hr as [Hr _]. intros y Hy%list_elem_of_singleton. by subst y.
    + cbn. unfold stamped_receive_session. rewrite Hb. cbn. by apply Hsame.
  - unfold authenticated_session. destruct (current_session_for_peer _ _ p w) as [s r] eqn:Hl. destruct (Hlook p w s r Hl) as (R' & HR & Hw' & Hr). cbn.
    exists R'. split_and!; [done| |done]. destruct r as [[g x]|]; cbn; [|destruct (generation1 w); apply list_subseteq_nil]. destruct Hr as [Hr ->]. intros y Hy%list_elem_of_singleton. by subst y.
  - unfold capture. destruct (current_session_for_peer _ _ p w) as [s r] eqn:Hl. destruct (Hlook p w s r Hl) as (R' & HR & Hw' & Hr). exists R'.
    destruct r as [x|]; cbn [fst snd]; rewrite ?lock_sessions; (split_and!; [done| |done]); [|apply list_subseteq_nil]. destruct Hr as [Hr _]. intros y Hy%list_elem_of_singleton. by subst y.
  - unfold admission. destruct (current_session_for_peer _ _ p w) as [s r] eqn:Hl. destruct (Hlook p w s r Hl) as (R' & HR & Hw' & Hr). cbn. exists R'. split_and!; [done| |done].
    unfold frame_guarded_admission. case_bool_decide as Hd; [apply list_subseteq_nil|]. destruct (admit_bytes captured.2); cbn; [|apply list_subseteq_nil].
    destruct (decide (actual = captured.1)) as [->|]; [|tauto]. destruct (decide (r = Some (captured.1, captured.2))) as [->|]; [|tauto]. destruct Hr as [Hr _]. intros y Hy%list_elem_of_singleton. by subst y.
  - apply Hsame. unfold send_to_peer. pose proof (send_path_sessions t p ty data e) as Hs. by destruct (send_path t p ty data e) as [[t1 l] r].
  - apply Hsame, dial_sessions.
  - apply Hsame. unfold dial_bootstrap. destruct direct; cbn; by rewrite ?add_peer_sessions.
  - apply Hsame. unfold adapter_dial. destruct (connected_peers t l now) as [t1 l1] eqn:Hc. assert (Hs1 : authenticated_sessions t1 = authenticated_sessions t) by (by injection Hc as <- _).
    destruct (head _) as [[q x]|]; [done|]. destruct direct as [q|e]; cbn; [by rewrite add_peer_sessions|]. pose proof (fallback_sessions t1 a f now) as Hf.
    destruct (connect_with_nat_fallback t1 a f now) as [t2 []]; cbn in *; congruence.
  - apply Hsame. unfold accept_step. by destruct (addr_is_usable a).
  - apply Hsame. unfold known_peer_step. by destruct (head _) as [[]|].
  - by apply Hsame.
  - cbn. exists R. split_and!; [done|apply list_subseteq_nil|]. by apply close_wf.
  - by apply Hsame.
Qed.

Lemma trun_wf (os : list TOp) (R : list (Z * AuthenticatedSession)) (t : UdpTransportAdapter) :
  registry_wf R (authenticated_sessions t) → ∃ R', (trun t os).2 ⊆ R' ∧ R ⊆ R' ∧ registry_wf R' (authenticated_sessions (trun t os).1).
Proof.
  revert R t. induction os as [|o os IH]; intros R t Hw; cbn; [by exists R; split_and!; [apply list_subseteq_nil|done|]|].
  destruct (texec_wf R t o Hw) as (R1 & HR & Hu & Hw1). destruct (texec t o) as [t1 u]. destruct (IH R1 t1 Hw1) as (R2 & Hus & HR2 & Hw2). destruct (trun t1 os) as [t2 us].
  exists R2. split_and!; [|by etrans|done]. cbn in *. intros x [Hx|Hx]%elem_of_app; [by apply HR2, Hu|by apply Hus].
Qed.

Lemma admission_frame (ty : GossipStreamType) (expected actual : Z) (session : AuthenticatedSession) (current : option (Z * AuthenticatedSession))
    (admit_bytes : AuthenticatedSession → result (list Z) string) (bytes : list Z) :
  frame_guarded_admission ty expected actual session current admit_bytes = Ok bytes →
  actual = expected ∧ current = Some (expected, session) ∧ ∃ data, admit_bytes session = Ok data ∧ bytes = frame ty data.
Proof.
  unfold frame_guarded_admission. case_bool_decide as Hd; [done|]. destruct (admit_bytes session) as [data|]; [|done]. cbn. intros [= <-].
  destruct (decide (actual = expected)); [|tauto]. destruct (decide (current = Some (expected, session))); [|tauto]. split_and!; try done. by exists data.
Qed.

(** C32. A session token names one connection.  In every run of the adapter --
    receiving, looking sessions up, guarded sends, reconnects, closing -- two
    uses of a token, be it on a received frame, by a lookup or on released
    bytes, are for one generation of one peer's connection.  Bytes leave a
    guarded send only on the generation that was captured with the token before
    the queue waits, and only the bytes that the callback made for that token. *)
Theorem session_names_connection (os : list TOp) (c : Config) (me : PeerId) :
  let run := trun (transport_new c me) os in
  (∀ x y, x ∈ run.2 → y ∈ run.2 → generation x.2 = generation y.2 → x = y) ∧
  (∀ p ty captured actual w admit_bytes bytes, (admission run.1 p ty captured actual w admit_bytes).2 = Ok bytes →
    actual = captured.1 ∧ KeyCache.peer captured.2 = p ∧ (∀ x, x ∈ run.2 → generation x.2 = generation captured.2 → x = captured) ∧
    ∃ data, admit_bytes captured.2 = Ok data ∧ bytes = frame ty data).
Proof.
  intros run. destruct (trun_wf os [] (transport_new c me) registry_wf_default) as (R & Hu & _ & Hw). fold run in Hu, Hw. split.
  - intros x y Hx Hy. by apply (reg_unique _ _ Hw); apply Hu.
  - intros p ty captured actual w admit_bytes bytes. unfold admission.
    pose proof (current_session_wf R _ (max_peers (config run.1)) p w Hw) as Hs. destruct (current_session_for_peer _ _ p w) as [s r]. cbn [snd]. intros Ha.
    apply admission_frame in Ha as (-> & -> & data & Hdata & ->). destruct captured as [g x]. cbn [fst snd] in *. destruct Hs as (_ & _ & Hp & Hw').
    split_and!; [done|done| |by exists data]. intros y Hy Hgen. apply (reg_unique _ _ Hw'); [right; by apply Hu|by left|done].
Qed.

(** C33. Version-1 bytes go out only on the connection that holds the grant.
    When a guarded send whose callback is the migration policy's releases
    bytes, whatever run of the transport and of the policy came before, a grant
    licenses the topic for exactly the captured session, and the node's
    connection is of the generation captured with it. *)
Theorem legacy_bytes_on_granted_session `{Hashes} `{Postcard} `{MlDsa} (get_u32 : list Z → option (Z * list Z)) (key : Identity.MlDsaKeyPair)
    (os : list TOp) (c : Config) (me p q : PeerId) (ty : GossipStreamType) (captured : Z * AuthenticatedSession) (actual : Z) (w : NodeView)
    (ms : list CompatProps.MOp) (m : Plumtree.GossipMessage) (d : list Z) (r : Compat.Readings) (bytes : list Z) :
  (admission (trun (transport_new c me) os).1 q ty captured actual w
     (λ x, (Compat.admit_legacy get_u32 (CompatProps.mrun get_u32 key Compat.migration_default ms).1 key p m d x r).2)).2 = Ok bytes →
  actual = captured.1 ∧ KeyCache.peer captured.2 = p ∧ q = p ∧ CompatEgress.licensed get_u32 key ms (topic (Plumtree.gm_header m)) captured.2 r.
Proof.
  destruct (trun_wf os [] (transport_new c me) registry_wf_default) as (R & Hu & _ & Hw). unfold admission.
  pose proof (current_session_wf R _ (max_peers (config (trun (transport_new c me) os).1)) q w Hw) as Hs. destruct (current_session_for_peer _ _ q w) as [s cur]. cbn [snd]. intros Ha.
  apply admission_frame in Ha as (-> & -> & data & Hdata & ->). destruct Hs as (_ & _ & Hq & _). cbn [snd] in Hq.
  destruct (CompatEgress.admit_licensed get_u32 key ms p m d captured.2 r data Hdata) as (Hp & Hl & _). split_and!; congruence || done.
Qed.

(** ** Classification of failures *)

#[local] Open Scope string_scope.

Lemma contains_app (a b s : string) : contains b s = true → contains (a ++ b) s = true.
Proof. intros Hb. induction a as [|c a IH]; [done|]. change (contains (String.String c (a ++ b)) s = true). cbn [contains]. by rewrite IH, orb_true_r. Qed.
Lemma to_lowercase_app (a b : string) : to_lowercase (a ++ b) = to_lowercase a ++ to_lowercase b.
Proof. induction a as [|c a IH]; [done|]. change (to_lowercase (String.String c (a ++ b)) = String.String (lower_ascii c) (to_lowercase a ++ to_lowercase b)). cbn [to_lowercase]. by rewrite IH. Qed.
Lemma has_sentinel_app (a b : string) : has_sentinel b = true → has_sentinel (a ++ b) = true.
Proof.
  unfold has_sentinel. rewrite !existsb_exists. intros (s & Hs & Hc). exists s. split; [done|]. rewrite to_lowercase_app. by apply contains_app.
Qed.
Lemma no_cached_address (b : string) : has_sentinel (" (no cached address): " ++ b) = true.
Proof. unfold has_sentinel. apply existsb_exists. exists "no cached address". split; [cbn; tauto|reflexivity]. Qed.

Lemma no_cached_address_error (p : PeerId) (o : SendOutcome) :
  is_peer_not_connected_error (AText ("Failed to send to peer " ++ show_log_peer p ++ " (no cached address): " ++ first_error p o) []) = true.
Proof. cbn [is_peer_not_connected_error display_chain foldl]. do 2 apply has_sentinel_app. apply no_cached_address. Qed.

#[local] Close Scope string_scope.

(** ** Sends *)

(** The address a send would dial for a peer: the one the adapter tracks, as
    refreshed from the node's connections and if it is usable; else the first
    usable one of the bootstrap cache, the peer's own before its external ones. *)
Definition usable_addr (l : list SocketAddr) : option SocketAddr := head (filter (λ a, addr_is_usable a = true) l).
Definition tracked_addr (t : UdpTransportAdapter) (p : PeerId) : option SocketAddr :=
  '(a, _) ← connected t !! p; if addr_is_usable a then Some a else None.
Definition cache_addr (cached : option (list SocketAddr * list SocketAddr)) : option SocketAddr :=
  '(addresses, external) ← cached; match usable_addr addresses with Some a => Some a | None => usable_addr external end.
Definition known_addr (t : UdpTransportAdapter) (p : PeerId) (cached : option (list SocketAddr * list SocketAddr)) : option SocketAddr :=
  match tracked_addr t p with Some a => Some a | None => cache_addr cached end.

Lemma usable_addr_usable (l : list SocketAddr) (a : SocketAddr) : usable_addr l = Some a → addr_is_usable a = true.
Proof. intros Ha%head_Some_elem_of. by apply list_elem_of_filter in Ha as [? _]. Qed.
Lemma known_addr_usable (t : UdpTransportAdapter) (p : PeerId) c (a : SocketAddr) : known_addr t p c = Some a → addr_is_usable a = true.
Proof.
  unfold known_addr, tracked_addr. destruct (connected t !! p) as [[b x]|]; cbn; [destruct (addr_is_usable b) eqn:E; [by intros [= <-]|]|].
  all: unfold cache_addr; destruct c as [[l l']|]; cbn; [|done]; destruct (usable_addr l) eqn:El; [intros [= <-]|intros ?]; by eapply usable_addr_usable.
Qed.

Lemma cached_peer_addr_known (t : UdpTransportAdapter) (p : PeerId) c (now : Z) : (cached_peer_addr t p c now).2 = known_addr t p c.
Proof.
  unfold cached_peer_addr, known_addr, tracked_addr, cache_addr, usable_addr. destruct (connected t !! p) as [[a x]|]; cbn; [destruct (addr_is_usable a); [done|]|].
  all: destruct c as [[l l']|]; cbn; [|done]; repeat case_match; by simplify_eq.
Qed.
Lemma reconnect_ok (t : UdpTransportAdapter) (p : PeerId) (a : SocketAddr) (rc : Reconnect) (now : Z) :
  match (reconnect_peer t p a rc now).2 with Ok _ => rc = Reached p ∧ (reconnect_peer t p a rc now).1 = add_peer t p a now | Err _ => rc ≠ Reached p end.
Proof. unfold reconnect_peer. destruct rc as [q| |]; [|done..]. destruct (bool_decide_reflect (q = p)) as [->|Hq]; cbn; [done|congruence]. Qed.
Lemma add_peer_known (t : UdpTransportAdapter) (p : PeerId) (a : SocketAddr) (now : Z) c :
  addr_is_usable a = true → known_addr (add_peer t p a now) p c = Some a.
Proof.
  intros Ha. unfold known_addr, tracked_addr, add_peer. rewrite Ha. cbn [negb connected set_connected]. unfold add_peer_with_lru. rewrite lookup_insert_eq. cbn. by rewrite Ha.
Qed.

(** What a send finds: its peers refreshed, an address to restore the connection
    with, a connection, and an address to retry with. *)
Section Found.
Context (t : UdpTransportAdapter) (p : PeerId) (e : SendEnv).

Definition refreshed : UdpTransportAdapter := (connected_peers (peer_send_lock t p).1 (node_peers e) (send_now e)).1.
Definition first_addr : option SocketAddr := known_addr refreshed p (cached1 e).
Definition linked : Prop := is_connected e = true ∨ ∃ a, first_addr = Some a ∧ reconnect1 e a = Reached p.
Definition second_addr : option SocketAddr := if is_connected e then known_addr refreshed p (cached2 e) else first_addr.
(** The first frame went to a connection of the peer and was not accepted. *)
Definition refused_once : Prop := linked ∧ send1 e ≠ Delivered.
End Found.

Lemma send_path_spec (t : UdpTransportAdapter) (p : PeerId) (ty : GossipStreamType) (data : list Z) (e : SendEnv) :
  let '(_, sent, r) := send_path t p ty data e in
  match r with
  | Sent =>
      (sent = [frame ty data] ∧ linked t p e ∧ send1 e = Delivered) ∨
      (sent = [frame ty data; frame ty data] ∧ refused_once t p e ∧ (∃ a, second_addr t p e = Some a ∧ reconnect2 e a = Reached p) ∧ send2 e = Delivered)
  | ReconnectFailed _ => sent = [] ∧ is_connected e = false ∧ ∃ a, first_addr t p e = Some a ∧ reconnect1 e a ≠ Reached p
  | NoAddress => sent = [] ∧ is_connected e = false ∧ first_addr t p e = None
  | NoRetryAddress o => sent = [frame ty data] ∧ o = send1 e ∧ refused_once t p e ∧ second_addr t p e = None
  | RetryReconnectFailed _ => sent = [frame ty data] ∧ refused_once t p e ∧ ∃ a, second_addr t p e = Some a ∧ reconnect2 e a ≠ Reached p
  | RetryFailed o =>
      sent = [frame ty data; frame ty data] ∧ o = send2 e ∧ refused_once t p e ∧ (∃ a, second_addr t p e = Some a ∧ reconnect2 e a = Reached p) ∧ send2 e ≠ Delivered
  end.
Proof.
  unfold send_path, refused_once, linked, second_addr, first_addr, refreshed. destruct (peer_send_lock t p) as [t1 lk]. cbn [fst].
  destruct (connected_peers t1 _ _) as [t2 l]. cbn [fst]. set (ready := if is_connected e then (t2, None) else _).
  assert (match ready.2 with
    | Some NoAddress => is_connected e = false ∧ known_addr t2 p (cached1 e) = None
    | Some (ReconnectFailed _) => is_connected e = false ∧ ∃ a, known_addr t2 p (cached1 e) = Some a ∧ reconnect1 e a ≠ Reached p
    | None => (is_connected e = true ∨ ∃ a, known_addr t2 p (cached1 e) = Some a ∧ reconnect1 e a = Reached p) ∧
        known_addr ready.1 p (cached2 e) = if is_connected e then known_addr t2 p (cached2 e) else known_addr t2 p (cached1 e)
    | _ => False end) as Hready.
  { unfold ready. destruct (is_connected e); [by split; [left|]|]. pose proof (cached_peer_addr_known t2 p (cached1 e) (send_now e)) as Hk.
    destruct (cached_peer_addr t2 p (cached1 e) (send_now e)) as [t3 [a|]]; cbn [snd] in Hk; [|by split].
    pose proof (reconnect_ok t3 p a (reconnect1 e a) (send_now e)) as Hr. destruct (reconnect_peer t3 p a _ _) as [t4 []]; cbn [fst snd] in *.
    - destruct Hr as [Hr ->]. split; [right; by exists a|]. rewrite <-Hk. apply add_peer_known. by eapply known_addr_usable.
    - split; [done|by exists a]. }
  clearbody ready. destruct ready as [t3 [failed|]]; cbn [fst snd] in Hready; [destruct failed; try done; by split|]. destruct Hready as [Hl Hk2].
  pose proof (cached_peer_addr_known t3 p (cached2 e) (send_now e)) as Hk. rewrite Hk2 in Hk.
  destruct (send1 e) as [|x|] eqn:H1; [by left|..]; destruct (cached_peer_addr t3 p _ _) as [t4 [a|]]; cbn [snd] in Hk; try (by split_and!);
    pose proof (reconnect_ok t4 p a (reconnect2 e a) (send_now e)) as Hr; destruct (reconnect_peer t4 p a _ _) as [t5 []]; cbn [fst snd] in Hr;
    try (split_and!; [done..|by exists a]); destruct Hr as [Hr _]; destruct (send2 e) eqn:H2; try (right); split_and!; try done; by exists a.
Qed.

(** C34. What a send delivers, and how it ends.  (1) The node gets at most two
    copies of the frame, type byte and data, and (2) the receiving side parses a
    frame back into that type and data.  Every result has its exact cause:
    (3) success, when the node accepted the first copy over the connection that
    was there or was restored at the known address, or, after a refusal, the
    second copy over a reconnect that reached that same peer; (4) the structured
    "peer not connected" exactly when there was no connection and the known
    address, if any, did not lead to the peer, or when the first copy was
    refused and a reconnect at the known address did not lead to it; (5) any
    other error exactly when both copies were refused, or the first one was and
    no address is known to retry with -- an error whose text the pub-sub layer
    takes for a disconnection although the peer may be connected. *)
Theorem send_outcome (t : UdpTransportAdapter) (p : PeerId) (ty : GossipStreamType) (data : list Z) (e : SendEnv) :
  let '(_, sent, r) := send_to_peer t p ty data e in
  let buf := frame ty data in
  let retried := ∃ a, second_addr t p e = Some a ∧ reconnect2 e a = Reached p in
  (sent = [] ∨ sent = [buf] ∨ sent = [buf; buf]) ∧
  (∀ t2 from source before w after now, ∃ s, (receive_step t2 from source buf before w after now).2 = Some (mkReceived from ty data s)) ∧
  (r = Ok () ↔ (sent = [buf] ∧ linked t p e ∧ send1 e = Delivered) ∨ (sent = [buf; buf] ∧ refused_once t p e ∧ retried ∧ send2 e = Delivered)) ∧
  (r = Err (ATransport (PeerNotConnected p)) ↔
    (sent = [] ∧ is_connected e = false ∧ ∀ a, first_addr t p e = Some a → reconnect1 e a ≠ Reached p) ∨
    (sent = [buf] ∧ refused_once t p e ∧ ∃ a, second_addr t p e = Some a ∧ reconnect2 e a ≠ Reached p)) ∧
  (∀ x, r = Err x → x ≠ ATransport (PeerNotConnected p) →
    (sent = [buf; buf] ∧ refused_once t p e ∧ retried ∧ send2 e ≠ Delivered) ∨
    (sent = [buf] ∧ refused_once t p e ∧ second_addr t p e = None ∧ is_peer_not_connected_error x = true)).
Proof.
  pose proof (send_path_spec t p ty data e) as Hs. unfold send_to_peer. destruct (send_path t p ty data e) as [[t1 sent] r].
  assert (Hparse : ∀ t2 from source before w after now, ∃ s, (receive_step t2 from source (frame ty data) before w after now).2 = Some (mkReceived from ty data s)).
  { intros t2 from source before w after now. unfold receive_step, frame. rewrite from_to_byte. destruct (if source_generation_matches source before then _ else _) as [t3 rr]. by eexists. }
  destruct r; cbn beta iota in Hs |- *; split_and!; try exact Hparse.
  all: try (intros x [= <-] Hx; right; split_and!; try apply Hs; by apply no_cached_address_error).
  all: try (unfold refused_once in *; naive_solver congruence).
Qed.

Lemma refresh_unusable (l : list (PeerId * SocketAddr)) (now : Z) (m : gmap PeerId (SocketAddr * Z)) (p : PeerId) :
  m !! p = None → (∀ a, (p, a) ∈ l → addr_is_usable a = false) → foldl (refresh_peer now) m l !! p = None.
Proof.
  revert m. induction l as [|[q a] l IH]; intros m Hm Hl; [done|]. cbn. apply IH; [|intros b Hb; apply Hl; by right].
  destruct (decide (q = p)) as [->|Hne].
  - rewrite (Hl a) by by left. by rewrite Hm.
  - destruct (addr_is_usable a); [by rewrite lookup_insert_ne|]. destruct (m !! q) as [[old ts]|]; [by rewrite lookup_insert_ne|done].
Qed.

(** A slow peer can pass for an absent one.  When a connected peer's only
    known address is unusable and a send to it times out, the adapter's error
    carries the words by which pub-sub recognises a peer that is not connected:
    a time-out on a live connection is classified as definitive. *)
Theorem live_timeout_classified_not_connected (t : UdpTransportAdapter) (p : PeerId) (ty : GossipStreamType) (data : list Z) (e : SendEnv) :
  is_connected e = true → send1 e = SendTimedOut → cached2 e = None → connected t !! p = None → (∀ a, (p, a) ∈ node_peers e → addr_is_usable a = false) →
  ∃ x, (send_to_peer t p ty data e).2 = Err x ∧ is_peer_not_connected_error x = true ∧ x ≠ ATransport (PeerNotConnected p).
Proof.
  intros Hc Hs Hcache Hp Hl. unfold send_to_peer, send_path. assert (Hlock : connected (peer_send_lock t p).1 = connected t) by (unfold peer_send_lock; by destruct (peer_send_locks t !! p)).
  destruct (peer_send_lock t p) as [t1 lk]. cbn [fst] in Hlock. unfold connected_peers. rewrite Hc, Hs, Hcache, Hlock. unfold cached_peer_addr. cbn [connected set_connected].
  set (m := filter _ (foldl _ _ _)). assert (Hm : m !! p = None).
  { apply map_lookup_filter_None. left. by apply refresh_unusable. }
  rewrite Hm. cbn [snd]. eexists. split; [done|]. split; [|done]. cbn [is_peer_not_connected_error display_chain foldl].
  do 2 apply has_sentinel_app. apply no_cached_address.
Qed.

(** ** Peer tracking *)

Lemma add_peer_bounded (m : gmap PeerId (SocketAddr * Z)) (p : PeerId) (a : SocketAddr) (max : nat) (now : Z) :
  (0 < max)%nat → (size m ≤ max)%nat → (size (add_peer_with_lru m p a max now) ≤ max)%nat.
Proof.
  intros Hmax Hm. unfold add_peer_with_lru. rewrite map_size_insert. case_bool_decide as Hfull; cbn [andb].
  - case_bool_decide as Hp.
    + destruct (min_by _ (hiter m)) as [[o oa]|] eqn:Hmin.
      * apply min_by_elem in Hmin. apply elem_of_hiter in Hmin. rewrite map_size_delete_Some by eauto. destruct (delete o m !! p); cbn; lia.
      * exfalso. assert (hiter m = []) as Hnil. { destruct (hiter m) as [|x l] eqn:Hl; [done|]. destruct (min_by_is_Some (λ x y, bool_decide (x.2.2 < y.2.2)) (x :: l)) as [y Hy]; [done|]. by rewrite Hy in Hmin. }
        apply (f_equal length) in Hnil. rewrite length_hiter in Hnil. cbn in Hnil. lia.
    + destruct (m !! p); [cbn; lia|done].
  - destruct (m !! p); cbn; lia.
Qed.

(** The refresh from the node does not observe the limit. *)
Lemma refresh_ignores_limit (c : Config) (me p q : PeerId) (a : SocketAddr) (now : Z) :
  p ≠ q → addr_is_usable a = true → size (connected (connected_peers (transport_new c me) [(p, a); (q, a)] now).1) = 2%nat.
Proof.
  intros Hne Ha. cbn. rewrite Ha. rewrite map_filter_id.
  - rewrite map_size_insert_None by by rewrite lookup_insert_ne. by rewrite insert_empty, map_size_singleton.
  - intros k [b ts]. rewrite !lookup_insert_Some, lookup_empty. cbn. intros [[_ [= _ <-]]|[_ [[_ [= _ <-]]|[_ ?]]]]; [..|done]; unfold elapsed_ns, PEER_TTL, NANOS_PER_SEC; lia.
Qed.

(** Removing a peer while a send holds or awaits its mutex lets the next send
    use another one. *)
Lemma lock_replaced (t : UdpTransportAdapter) (p : PeerId) : map_Forall (λ _ l, l < next_lock t) (peer_send_locks t) →
  (peer_send_lock (remove_peer (peer_send_lock t p).1 p) p).2 ≠ (peer_send_lock t p).2.
Proof.
  intros Hw. assert (Hnext : (peer_send_lock t p).2 < next_lock (peer_send_lock t p).1).
  { unfold peer_send_lock. destruct (peer_send_locks t !! p) as [l|] eqn:Hl; cbn; [exact (Hw p l Hl)|lia]. }
  unfold peer_send_lock at 1. cbn. rewrite lookup_delete_eq. cbn. lia.
Qed.
End Adapter.
End TransportProps.
