(* ===== verification/TransportWitness.v ===== *)
(** * The transport: witnesses

    Three connections of one peer, the last with the grant of
    [CompatWitness.v], and a peer known only by an unusable address. *)

From S2P Require Import Prelude Types Identity MessageCache Plumtree KeyCodec KeyCache KeyExchange KeyCacheWitness Compat CompatProps CompatEgress CompatWitness Transport TransportProps.
Import KeyCache(AuthenticatedSession, mkSession, generation).
Import Transport TransportProps.
Import KeyCacheWitness(toy_hashes, toy_postcard, id0, keya, sb).
Import CompatWitness(one_signature, get_small, granted, later, m1, kvt).

#[local] Open Scope Z_scope.

Module TransportWitness.

#[local] Existing Instance toy_hashes.
#[local] Existing Instance toy_postcard.
#[local] Existing Instance one_signature.
#[local] Instance iter_connected : HashIter PeerId (list Z * Z * Z) := canonical_iter.
#[local] Instance iter_entries : HashIter PeerId SessionEntry := canonical_iter.
#[local] Instance silent : Display := {| show_peer _ := ""%string; show_log_peer _ := ""%string; show_peer_debug _ := ""%string; show_addr _ := ""%string; show_num _ := ""%string |}.

Definition settings : Config := config_new ([127; 0; 0; 1], 9000) [].
Definition me : PeerId := mkPeerId (replicate 32 2).
Definition live (g : Z) : NodeView := mkView (Some g) (Some (100 + g)) false (Some g) (λ _, false) g.
Definition reconnects : list TOp := [TCapture id0 (live 10); TCapture id0 (live 20); TCapture id0 (live 30)].
Definition guarded : AuthenticatedSession → result (list Z) string :=
  λ x, (Compat.admit_legacy get_small (CompatProps.mrun get_small keya Compat.migration_default granted).1 keya id0 m1 (blake3 (KeyCodec.put_gossip m1)) x later).2.

Lemma legacy_bytes_on_granted_session_witness :
  (admission (trun (transport_new settings me) reconnects).1 id0 PubSub (30, sb) 30 (live 30) guarded).2 = Ok (frame PubSub (KeyCodec.put_gossip m1)) ∧
  CompatEgress.licensed get_small keya granted (Compat.kv_topic kvt) sb later.
Proof.
  assert (Ha : (admission (trun (transport_new settings me) reconnects).1 id0 PubSub (30, sb) 30 (live 30) guarded).2 = Ok (frame PubSub (KeyCodec.put_gossip m1))) by by vm_compute.
  split; [exact Ha|].
  destruct (legacy_bytes_on_granted_session get_small keya reconnects settings me id0 id0 PubSub (30, sb) 30 (live 30) granted m1 (blake3 (KeyCodec.put_gossip m1)) later _ Ha) as (_ & _ & _ & Hl).
  exact Hl.
Defined.

Definition slow : SendEnv := mkSendEnv [(id0, ([0; 0; 0; 0], 0))] true None (λ _, ConnectTimeout) SendTimedOut None (λ _, ConnectTimeout) SendTimedOut 5.
Lemma live_timeout_classified_not_connected_witness :
  ∃ x, (send_to_peer (transport_new settings me) id0 PubSub [1; 2] slow).2 = Err x ∧ is_peer_not_connected_error x = true.
Proof.
  destruct (live_timeout_classified_not_connected (transport_new settings me) id0 PubSub [1; 2] slow) as (x & Hx & Hc & _).
  - done.
  - done.
  - done.
  - done.
  - intros a Ha. apply list_elem_of_singleton in Ha. apply (f_equal snd) in Ha. cbn [snd] in Ha. rewrite Ha. reflexivity.
  - exists x. split; [exact Hx|exact Hc].
Defined.
End TransportWitness.
