(* ===== verification/Rendezvous.v ===== *)
(** * Rendezvous shards ([crates/rendezvous], [crates/runtime/src/rendezvous.rs])

    Provider summaries, the shard and the topic of a target, and the client that
    publishes, collects and lists providers.  CBOR and ML-DSA are parameters; a
    call of the [PubSub] trait is an effect in the result. *)

From stdpp Require Import pretty.
From S2P Require Import Prelude Types Identity.

#[local] Open Scope Z_scope.

Module Rendezvous.

(** ** Summaries *)

Inductive Capability := Site | IdentityCap.
Record SummaryData := mkSummaryData { bloom : option (list Z); iblt : option (list Z) }.

(** [ProviderSummary] is the fields it signs, with the signature. *)
Record SignableFields := mkFields {
  v : Z;
  target : list Z;
  provider : PeerId;
  cap : list Capability;
  have_root : bool;
  manifest_ver : option Z;
  summary : option SummaryData;
  exp : Z;
  extensions : option (list Z);
}.
Record ProviderSummary := mkSummary { fields : SignableFields; sig : list Z }.
Notation p_target s := (target (fields s)).
Notation p_provider s := (provider (fields s)).
Notation p_exp s := (exp (fields s)).

(** Byte strings that fit the buffer of [ciborium::from_reader], and the ranges
    of the Rust types.  A [SummaryData] that lacks one of its two strings is
    written without it and not read back: [with] without [default]. *)
Definition bytes_ok (l : list Z) : Prop := Forall is_byte l ∧ (length l ≤ 4096)%nat.
Definition opt_bytes_ok (l : option (list Z)) : Prop := match l with Some l => bytes_ok l | None => True end.
Definition summary_ok (s : ProviderSummary) : Prop :=
  let f := fields s in
  is_byte (v f) ∧ is_array 32 (target f) ∧ is_array 32 (peer_bytes (provider f)) ∧ (match manifest_ver f with Some n => u64 n | None => True end) ∧
  (match summary f with Some d => bloom d ≠ None ∧ iblt d ≠ None ∧ opt_bytes_ok (bloom d) ∧ opt_bytes_ok (iblt d) | None => True end) ∧ u64 (exp f) ∧ opt_bytes_ok (extensions f) ∧ bytes_ok (sig s).
End Rendezvous.

Class SummaryCodec := {
  put_summary_fields : Rendezvous.SignableFields → list Z;
  put_summary : Rendezvous.ProviderSummary → list Z;
  get_summary : list Z → option Rendezvous.ProviderSummary;
  get_put_summary s : Rendezvous.summary_ok s → get_summary (put_summary s) = Some s;
}.

Module RendezvousOps.
Import Rendezvous.

Definition SHARD_COUNT : Z := Z.shiftl 1 16.
Definition SHARD_MASK : Z := SHARD_COUNT - 1.
Definition RENDEZVOUS_PREFIX : list Z := bytes_of_string "saorsa-rendezvous".

(** [u32::from_le_bytes]. *)
Definition le32 (l : list Z) : Z :=
  match l with a :: b :: c :: d :: _ => Z.lor a (Z.lor (Z.shiftl b 8) (Z.lor (Z.shiftl c 16) (Z.shiftl d 24))) | _ => 0 end.

Section Summaries.
Context `{Hashes} `{MlDsa} `{SummaryCodec}.

Definition calculate_shard (target_id : list Z) : Z := Z.land (le32 (blake3 (RENDEZVOUS_PREFIX ++ target_id))) SHARD_MASK.

Definition summary_new (target : list Z) (p : PeerId) (capabilities : list Capability) (validity now : Z) : ProviderSummary :=
  mkSummary (mkFields 1 target p capabilities false None None (u64_add now validity) None) [].
Definition with_root (s : ProviderSummary) (b : bool) : ProviderSummary :=
  let f := fields s in mkSummary (mkFields (v f) (target f) (provider f) (cap f) b (manifest_ver f) (summary f) (exp f) (extensions f)) (sig s).
Definition with_manifest_version (s : ProviderSummary) (n : Z) : ProviderSummary :=
  let f := fields s in mkSummary (mkFields (v f) (target f) (provider f) (cap f) (have_root f) (Some n) (summary f) (exp f) (extensions f)) (sig s).
Definition with_summary (s : ProviderSummary) (d : SummaryData) : ProviderSummary :=
  let f := fields s in mkSummary (mkFields (v f) (target f) (provider f) (cap f) (have_root f) (manifest_ver f) (Some d) (exp f) (extensions f)) (sig s).
Definition with_extensions (s : ProviderSummary) (data : list Z) : ProviderSummary :=
  let f := fields s in mkSummary (mkFields (v f) (target f) (provider f) (cap f) (have_root f) (manifest_ver f) (summary f) (exp f) (Some data)) (sig s).
Definition is_valid (s : ProviderSummary) (now : Z) : bool := bool_decide (now ≤ p_exp s).

(** With parsed keys, and with raw bytes; [None] is an error. *)
Definition sign (s : ProviderSummary) (key : list Z) : option ProviderSummary :=
  g ← pqc_sign key (put_summary_fields (fields s)); Some (mkSummary (fields s) g).
Definition verify (s : ProviderSummary) (key : list Z) : option bool :=
  g ← pqc_signature (sig s); pqc_verify key (put_summary_fields (fields s)) g.
Definition sign_raw (s : ProviderSummary) (secret : list Z) : option ProviderSummary := key ← pqc_secret_key secret; sign s key.
Definition verify_raw (s : ProviderSummary) (public : list Z) : option bool := key ← pqc_public_key public; verify s key.

Definition to_bytes (s : ProviderSummary) : list Z := put_summary s.
Definition from_bytes (data : list Z) : option ProviderSummary := get_summary data.
Definition shard (s : ProviderSummary) : Z := calculate_shard (p_target s).
End Summaries.

(** ** The client *)

Section Client.
Context `{Hashes} `{SummaryCodec}.

(** [active_collectors]: the targets with a task. *)
Record RendezvousClient := mkClient {
  cached_summaries : gmap (list Z) (list ProviderSummary);
  subscriptions : gmap Z TopicId;
  active_collectors : gset (list Z);
}.
Definition client_new : RendezvousClient := mkClient ∅ ∅ ∅.
Inductive PubSubCall := Subscribe (t : TopicId) | Publish (t : TopicId) (data : list Z).

(** [format!("rendezvous_shard_{}", shard)] hashed. *)
Definition shard_topic (n : Z) : TopicId := mkTopicId (blake3 (bytes_of_string ("rendezvous_shard_" +:+ pretty (Z.to_N n)))).

Definition get_cached_summaries (c : RendezvousClient) (target_id : list Z) : list ProviderSummary := default [] (cached_summaries c !! target_id).

(** The receiver it subscribes with is dropped. *)
Definition subscribe_to_shard (c : RendezvousClient) (target_id : list Z) : RendezvousClient * list PubSubCall * Z :=
  let n := calculate_shard target_id in
  match subscriptions c !! n with
  | Some _ => (c, [], n)
  | None => (mkClient (cached_summaries c) (<[n := shard_topic n]> (subscriptions c)) (active_collectors c), [Subscribe (shard_topic n)], n)
  end.

(** [published] is the outcome of [PubSub::publish]. *)
Definition publish_provider_summary (s : ProviderSummary) (published : result () string) : list PubSubCall * result () string :=
  ([Publish (shard_topic (calculate_shard (p_target s))) (put_summary s)], published).

(** [clk i] is the reading for the [i]-th summary, [None] before the epoch. *)
Definition remaining (clk : nat → option Z) (i : nat) (s : ProviderSummary) : option (ProviderSummary * Z) :=
  now ← clk i; if bool_decide (p_exp s ≤ now) then None else Some (s, p_exp s - now).
Definition get_providers_for_target (c : RendezvousClient) (target_id : list Z) (clk : nat → option Z) : list ProviderSummary :=
  fst <$> sort_by (λ a b, Z.compare b.2 a.2) (omap id (imap (remaining clk) (get_cached_summaries c target_id))).

(** [iter_mut().find] by the provider, replaced in place, or pushed. *)
Fixpoint put_provider (s : ProviderSummary) (l : list ProviderSummary) : list ProviderSummary :=
  match l with
  | [] => [s]
  | x :: l => if decide (p_provider x = p_provider s) then s :: l else x :: put_provider s l
  end.

Definition process_incoming_summary (c : RendezvousClient) (target_id : list Z) (message_bytes : list Z) : RendezvousClient * result () string :=
  match get_summary message_bytes with
  | None => (c, Err "Invalid ProviderSummary payload")
  | Some s =>
      if negb (bool_decide (p_target s = target_id)) then (c, Err "Summary target mismatch") else
      (mkClient (<[target_id := put_provider s (get_cached_summaries c target_id)]> (cached_summaries c)) (subscriptions c) (active_collectors c), Ok ())
  end.

Definition start_collecting_for_target (c : RendezvousClient) (target_id : list Z) : RendezvousClient * list PubSubCall * result () string :=
  if bool_decide (target_id ∈ active_collectors c) then (c, [], Ok ()) else
  match subscriptions c !! calculate_shard target_id with
  | None => (c, [], Err "Not subscribed to shard for target")
  | Some t => (mkClient (cached_summaries c) (subscriptions c) ({[target_id]} ∪ active_collectors c), [Subscribe t], Ok ())
  end.

(** The task of a collector: messages of its topic, errors logged. *)
Definition collector_step (c : RendezvousClient) (target_id : list Z) (message : PeerId * list Z) : RendezvousClient := (process_incoming_summary c target_id message.2).1.
End Client.

(** ** Shards *)

Section Facts.
Context `{Hashes} `{MlDsa} `{SummaryCodec}.

Lemma mask_low (n : Z) : 0 ≤ n → Z.land n SHARD_MASK = n mod 65536.
Proof. intros Hn. change SHARD_MASK with (Z.ones 16). by rewrite Z.land_ones. Qed.

(** The shard is the first two bytes of the digest, little-endian. *)
Lemma shard_value (target_id : list Z) :
  ∃ a b rest, blake3 (RENDEZVOUS_PREFIX ++ target_id) = a :: b :: rest ∧ calculate_shard target_id = a + 256 * b ∧ 0 ≤ calculate_shard target_id < SHARD_COUNT.
Proof.
  unfold calculate_shard. destruct (blake3_array (RENDEZVOUS_PREFIX ++ target_id)) as [Hl Hb]. destruct (blake3 _) as [|a [|b [|c [|d rest]]]]; try done.
  exists a, b, (c :: d :: rest). split; [done|].
  apply Forall_cons in Hb as [Ha Hb]. apply Forall_cons in Hb as [Hb Hc]. apply Forall_cons in Hc as [Hc Hd]. apply Forall_cons in Hd as [Hd _]. unfold is_byte in *.
  assert (Hv : Z.land (le32 (a :: b :: c :: d :: rest)) SHARD_MASK = a + 256 * b); [|rewrite Hv; change SHARD_COUNT with 65536; lia].
  cbn [le32]. change SHARD_MASK with (Z.ones 16). rewrite !Z.land_lor_distr_l. rewrite !Z.land_ones by done. rewrite !Z.shiftl_mul_pow2 by done.
  rewrite (Z.mod_small a), (Z.mod_small (b * 2 ^ 8)) by lia.
  rewrite Z.mod_mul by done. replace (d * 2 ^ 24) with (d * 2 ^ 8 * 2 ^ 16) by lia. rewrite Z.mod_mul by done.
  rewrite !Z.lor_0_r, <-Z.shiftl_mul_pow2, lor_shift by lia. lia.
Qed.
End Facts.
End RendezvousOps.
