(* ===== verification/RendezvousProps.v ===== *)
(** * Rendezvous shards: the properties

    What the list of providers of a target holds after any run of the client,
    the way of a summary from its publisher to a seeker, and signatures. *)

From S2P Require Import Prelude Types Identity Rendezvous.
Import Rendezvous RendezvousOps.

#[local] Open Scope Z_scope.

Module RendezvousProps.
Notation p_target s := (target (fields s)).
Notation p_provider s := (provider (fields s)).
Notation p_exp s := (exp (fields s)).

(** ** Signatures *)

Section Signatures.
Context `{MlDsa} `{SummaryCodec}.

(** A signed summary has the fields it was made of and verifies under the
    key. *)
Lemma sign_verify (s s' : ProviderSummary) (sk pk : list Z) :
  (∀ m g, pqc_sign sk m = Some g → ∃ g', pqc_signature g = Some g' ∧ pqc_verify pk m g' = Some true) →
  sign s sk = Some s' → fields s' = fields s ∧ verify s' pk = Some true.
Proof.
  intros Hk. unfold sign. destruct (pqc_sign sk _) as [g|] eqn:Hg; [|done]. cbn. intros [= <-]. split; [done|].
  destruct (Hk _ _ Hg) as (g' & Hp & Hv). unfold verify. cbn. by rewrite Hp.
Qed.
End Signatures.

Section Client.
Context `{Hashes} `{SummaryCodec}.

(** ** One summary per provider *)

Definition find_provider (p : PeerId) (l : list ProviderSummary) : option ProviderSummary := head (filter (λ s, p_provider s = p) l).

Lemma put_provider_providers (s : ProviderSummary) (l : list ProviderSummary) (p : PeerId) :
  p ∈ (λ s, p_provider s) <$> put_provider s l ↔ p = p_provider s ∨ p ∈ (λ s, p_provider s) <$> l.
Proof.
  induction l as [|x l IH]; cbn; [by rewrite list_elem_of_singleton; set_solver|]. case_decide as Hx; cbn; rewrite !elem_of_cons; [rewrite Hx; tauto|rewrite IH; tauto].
Qed.
Lemma put_provider_NoDup (s : ProviderSummary) (l : list ProviderSummary) : NoDup ((λ s, p_provider s) <$> l) → NoDup ((λ s, p_provider s) <$> put_provider s l).
Proof.
  induction l as [|x l IH]; cbn; [intros _; apply NoDup_singleton|]. intros [Hx Hl]%NoDup_cons. case_decide as Heq; cbn; apply NoDup_cons.
  - by rewrite <-Heq.
  - split; [|by apply IH]. rewrite put_provider_providers. intros [?|?]; [congruence|done].
Qed.
Lemma elem_of_put_provider (s x : ProviderSummary) (l : list ProviderSummary) : NoDup ((λ s, p_provider s) <$> l) →
  x ∈ put_provider s l ↔ x = s ∨ (x ∈ l ∧ p_provider x ≠ p_provider s).
Proof.
  induction l as [|y l IH]; cbn; [intros _; rewrite list_elem_of_singleton; set_solver|]. intros [Hy Hl]%NoDup_cons. case_decide as Heq; rewrite !elem_of_cons.
  - split; [|naive_solver]. intros [->|Hin]; [by left|]. right. split; [by right|]. intros Hp. apply Hy. rewrite Heq, <-Hp. apply list_elem_of_fmap. by exists x.
  - rewrite IH by done. naive_solver.
Qed.

(** ** Runs *)

Inductive ROp := RSubscribe (target_id : list Z) | RCollect (target_id : list Z) | RMessage (target_id : list Z) (from : PeerId) (data : list Z).
Definition rexec (c : RendezvousClient) (o : ROp) : RendezvousClient :=
  match o with
  | RSubscribe t => (subscribe_to_shard c t).1.1
  | RCollect t => (start_collecting_for_target c t).1.1
  | RMessage t from data => collector_step c t (from, data)
  end.
Notation rrun := (foldl rexec client_new).

(** The summary of [t] that a message carries. *)
Definition carried (t : list Z) (o : ROp) : option ProviderSummary :=
  match o with
  | RMessage t' _ data => if decide (t' = t) then s ← get_summary data; if decide (p_target s = t) then Some s else None else None
  | _ => None
  end.
(** The last one that names the provider [p]. *)
Definition latest (t : list Z) (p : PeerId) (os : list ROp) : option ProviderSummary :=
  foldl (λ acc o, match carried t o with Some s => if decide (p_provider s = p) then Some s else acc | None => acc end) None os.

Record client_wf (os : list ROp) (c : RendezvousClient) : Prop := {
  cl_nodup t : NoDup ((λ s, p_provider s) <$> get_cached_summaries c t);
  cl_latest t s : s ∈ get_cached_summaries c t ↔ latest t (p_provider s) os = Some s;
  cl_topics n t : subscriptions c !! n = Some t → t = shard_topic n;
}.

Lemma latest_snoc (t : list Z) (p : PeerId) (os : list ROp) (o : ROp) :
  latest t p (os ++ [o]) = match carried t o with Some s => if decide (p_provider s = p) then Some s else latest t p os | None => latest t p os end.
Proof. unfold latest. by rewrite foldl_app. Qed.
Lemma latest_provider (t : list Z) (p : PeerId) (os : list ROp) (s : ProviderSummary) : latest t p os = Some s → p_provider s = p.
Proof.
  induction os as [|o os IH] using rev_ind; [done|]. rewrite latest_snoc. destruct (carried t o) as [x|]; [|done]. case_decide; [by intros [= <-]|done].
Qed.

Lemma rexec_wf (os : list ROp) (c : RendezvousClient) (o : ROp) : client_wf os c → client_wf (os ++ [o]) (rexec c o).
Proof.
  intros [Hnd Hlat Htop].
  assert (Hquiet : ∀ c', cached_summaries c' = cached_summaries c → (∀ t, carried t o = None) → (∀ n t, subscriptions c' !! n = Some t → t = shard_topic n) → client_wf (os ++ [o]) c').
  { intros c' Hc Ho Ht. assert (Hg : ∀ t, get_cached_summaries c' t = get_cached_summaries c t) by (intros t; unfold get_cached_summaries; by rewrite Hc).
    split; [intros t; by rewrite Hg| |done]. intros t s. by rewrite Hg, latest_snoc, Ho. }
  destruct o; cbn [rexec].
  - unfold subscribe_to_shard. destruct (subscriptions c !! _); [by apply Hquiet|]. apply Hquiet; [done|done|]. cbn. intros n t. rewrite lookup_insert_Some. intros [[<- <-]|[_ Ht]]; [done|by apply Htop].
  - unfold start_collecting_for_target. destruct (bool_decide _); [by apply Hquiet|]. destruct (subscriptions c !! _); by apply Hquiet.
  - unfold collector_step, process_incoming_summary. cbn [snd].
    assert (Hsame : (∀ t, carried t (RMessage target_id from data) = None) → client_wf (os ++ [RMessage target_id from data]) c) by (intros Ho; by apply Hquiet).
    destruct (get_summary data) as [s|] eqn:Hs; [|apply Hsame; intros t; cbn; case_decide; [by rewrite Hs|done]].
    case_bool_decide as Ht; cbn [negb fst]; [|apply Hsame; intros t; cbn; case_decide as Hd; [|done]; rewrite Hs; cbn; by rewrite decide_False by congruence].
    assert (Hcar : ∀ t, carried t (RMessage target_id from data) = if decide (target_id = t) then Some s else None).
    { intros t. cbn. case_decide as Hd; [|done]. rewrite Hs. cbn. by rewrite decide_True by congruence. }
    set (l := get_cached_summaries c target_id).
    assert (Hg : ∀ t, get_cached_summaries (mkClient (<[target_id := put_provider s l]> (cached_summaries c)) (subscriptions c) (active_collectors c)) t =
      if decide (target_id = t) then put_provider s l else get_cached_summaries c t).
    { intros t. unfold get_cached_summaries. cbn. case_decide as Hd; [by rewrite Hd, lookup_insert_eq|by rewrite lookup_insert_ne]. }
    split; [| |done].
    + intros t. rewrite Hg. case_decide; [|done]. apply put_provider_NoDup, Hnd.
    + intros t x. rewrite Hg, latest_snoc, Hcar. case_decide as Hd; [|apply Hlat]. rewrite elem_of_put_provider by apply Hnd. unfold l. rewrite Hlat, Hd. case_decide; naive_solver.
Qed.

Lemma rrun_wf (os : list ROp) : client_wf os (rrun os).
Proof.
  induction os as [|o os IH] using rev_ind; [|rewrite foldl_app; by apply rexec_wf].
  split; [intros t; apply NoDup_nil_2|intros t s; split; [by intros ?%not_elem_of_nil|done]|]. intros n t Hn. exfalso. by apply (lookup_empty_Some n t).
Qed.

Lemma remaining_const (now : Z) (i : nat) (l : list ProviderSummary) :
  omap id (imap (λ j, remaining (λ _, Some now) (i + j)) l) = (λ s, (s, p_exp s - now)) <$> filter (λ s, now < p_exp s) l.
Proof.
  revert i. induction l as [|s l IH]; intros i; [done|]. cbn [imap omap list_omap]. unfold remaining at 1. cbn [mbind option_bind].
  assert (Htail : imap ((λ j, remaining (λ _, Some now) (i + j)) ∘ S) l = imap (λ j, remaining (λ _, Some now) (S i + j)) l) by (apply imap_ext; intros; cbn; f_equal; lia).
  case_bool_decide as Hs; cbn [id].
  - rewrite filter_cons_False by lia. rewrite Htail. apply IH.
  - rewrite filter_cons_True by lia. cbn [fmap list_fmap]. f_equal. rewrite Htail. apply IH.
Qed.

Lemma fst_pairs {A B} (f : A → B) (l : list A) : fst <$> ((λ s, (s, f s)) <$> l) = l.
Proof. by rewrite <-list_fmap_compose, (list_fmap_ext _ id), list_fmap_id. Qed.

(** C35. What a seeker learns about a target.  After any run of the client the
    providers it lists, read within one millisecond, are exactly those whose
    latest summary for the target has not expired, one summary per provider,
    those valid longest first -- whoever sent them: no signature is asked for.
    And a summary that is published for a target goes to the topic the seeker's
    collector for that target listens on, and is listed once it arrives, until
    it expires. *)
Theorem providers_listed (os : list ROp) (t : list Z) (now : Z) :
  let l := get_providers_for_target (rrun os) t (λ _, Some now) in
  NoDup ((λ s, p_provider s) <$> l) ∧ StronglySorted (λ x y, p_exp y ≤ p_exp x) l ∧
  (∀ s, s ∈ l ↔ latest t (p_provider s) os = Some s ∧ now < p_exp s) ∧
  (∀ s from, summary_ok s → p_target s = t → now < p_exp s →
    let c := rexec (rrun os) (RSubscribe t) in let r := start_collecting_for_target c t in
    ∃ topic data, publish_provider_summary s (Ok ()) = ([Publish topic data], Ok ()) ∧ r.2 = Ok () ∧
      (r.1.2 = [Subscribe topic] ∨ (t ∈ active_collectors (rrun os) ∧ r.1.2 = [])) ∧
      s ∈ get_providers_for_target (collector_step r.1.1 t (from, data)) t (λ _, Some now)).
Proof.
  assert (Hget : ∀ c, get_providers_for_target c t (λ _, Some now) =
    fst <$> sort_by (λ a b, Z.compare b.2 a.2) ((λ s, (s, p_exp s - now)) <$> filter (λ s, now < p_exp s) (get_cached_summaries c t))).
  { intros c. unfold get_providers_for_target. f_equal. f_equal. apply (remaining_const now 0). }
  assert (Helem : ∀ c s, s ∈ get_providers_for_target c t (λ _, Some now) ↔ s ∈ get_cached_summaries c t ∧ now < p_exp s).
  { intros c s. rewrite Hget, sort_by_perm, fst_pairs, list_elem_of_filter. tauto. }
  destruct (rrun_wf os) as [Hnd Hlat Htop]. intros l. split_and!.
  - unfold l. rewrite Hget, sort_by_perm, fst_pairs. eapply sublist_NoDup; [apply Hnd|]. apply fmap_sublist, sublist_filter.
  - unfold l. rewrite Hget. set (m := sort_by _ _). assert (Hm : StronglySorted (λ x y, y.2 ≤ x.2) m ∧ Forall (λ x, x.2 = p_exp x.1 - now) m).
    { split; [|unfold m; rewrite sort_by_perm; apply Forall_fmap; by apply Forall_true]. unfold m.
      pose proof (sort_by_sorted (λ x : ProviderSummary * Z, - x.2) ((λ s, (s, p_exp s - now)) <$> filter (λ s, now < p_exp s) (get_cached_summaries (rrun os) t))) as Hs.
      assert (Hcmp : ∀ k, sort_by (λ x y : ProviderSummary * Z, Z.compare (- x.2) (- y.2)) k = sort_by (λ a b, Z.compare b.2 a.2) k).
      { induction k as [|x k IH]; [done|]. cbn. unfold sort_by in IH. rewrite IH. generalize (foldr (insert_by (λ a b : ProviderSummary * Z, (b.2 ?= a.2))) [] k).
        induction l0 as [|y l0 IHl]; [done|]. cbn. rewrite Z.compare_opp, IHl. done. }
      rewrite Hcmp in Hs. induction Hs as [|x k Hk IH Hx]; constructor; [done|]. eapply Forall_impl; [exact Hx|]. cbn. lia. }
    destruct Hm as [Hs Hf]. clearbody m. induction Hs as [|x k Hk IH Hx]; cbn; [constructor|]. apply Forall_cons in Hf as [Hfx Hf]. constructor; [by apply IH|].
    apply Forall_fmap, Forall_forall. intros y Hy. rewrite Forall_forall in Hx, Hf. specialize (Hx y Hy). specialize (Hf y Hy). cbn in *. lia.
  - intros s. unfold l. by rewrite Helem, Hlat.
  - intros s from Hok Ht Hexp c r. exists (shard_topic (calculate_shard t)), (put_summary s). split; [unfold publish_provider_summary; by rewrite Ht|].
    assert (Hsub : subscriptions c !! calculate_shard t = Some (shard_topic (calculate_shard t)) ∧ active_collectors c = active_collectors (rrun os)).
    { unfold c. cbn. unfold subscribe_to_shard. destruct (subscriptions (rrun os) !! _) as [t'|] eqn:Ht'; cbn; [by rewrite (Htop _ _ Ht') in Ht'|]. by rewrite lookup_insert_eq. }
    destruct Hsub as [Hsub Hact]. assert (Hr : r.2 = Ok () ∧ (r.1.2 = [Subscribe (shard_topic (calculate_shard t))] ∨ (t ∈ active_collectors (rrun os) ∧ r.1.2 = []))).
    { unfold r, start_collecting_for_target. rewrite Hact. case_bool_decide; [split; [done|by right]|]. rewrite Hsub. split; [done|by left]. }
    destruct Hr as [Hr1 Hr2]. split_and!; [done|done|]. apply Helem. split; [|done]. unfold collector_step, process_incoming_summary. cbn [snd]. rewrite get_put_summary by done.
    rewrite bool_decide_true by done. cbn [negb fst]. unfold get_cached_summaries at 1. cbn. rewrite lookup_insert_eq. cbn.
    assert (∀ k, s ∈ put_provider s k) as Hput; [|apply Hput]. induction k as [|x k IH]; cbn; [by left|]. case_decide; [by left|by right].
Qed.
End Client.
End RendezvousProps.
