(* ===== verification/RendezvousWitness.v ===== *)
(** * Rendezvous shards: witness

    A codec that numbers the values, and a summary published, collected and
    listed. *)

From S2P Require Import Prelude Types Identity Rendezvous RendezvousProps KeyCacheWitness.
Import Rendezvous RendezvousOps RendezvousProps.
Import KeyCacheWitness(toy_hashes).

#[local] Open Scope Z_scope.

Module RendezvousWitness.

#[local] Existing Instance toy_hashes.

#[local] Instance cap_eq_dec : EqDecision Capability. Proof. solve_decision. Defined.
#[local] Instance cap_countable : Countable Capability :=
  inj_countable' (λ c, match c with Site => true | IdentityCap => false end) (λ b : bool, if b then Site else IdentityCap) ltac:(by intros []).
#[local] Instance data_eq_dec : EqDecision SummaryData. Proof. solve_decision. Defined.
#[local] Instance data_countable : Countable SummaryData := inj_countable' (λ d, (bloom d, iblt d)) (λ x, mkSummaryData x.1 x.2) ltac:(by intros []).
#[local] Instance fields_eq_dec : EqDecision SignableFields. Proof. solve_decision. Defined.
#[local] Instance fields_countable : Countable SignableFields :=
  inj_countable' (λ f, (v f, target f, provider f, cap f, (have_root f, manifest_ver f, summary f, exp f, extensions f)))
    (λ x, mkFields x.1.1.1.1 x.1.1.1.2 x.1.1.2 x.1.2 x.2.1.1.1.1 x.2.1.1.1.2 x.2.1.1.2 x.2.1.2 x.2.2) ltac:(by intros []).
#[local] Instance summary_eq_dec : EqDecision ProviderSummary. Proof. solve_decision. Defined.
#[local] Instance summary_countable : Countable ProviderSummary := inj_countable' (λ s, (fields s, sig s)) (λ x, mkSummary x.1 x.2) ltac:(by intros []).
#[local] Instance numbering : SummaryCodec.
Proof.
  refine {| put_summary_fields f := [Zpos (encode f)]; put_summary s := [Zpos (encode s)]; get_summary l := match l with [Zpos n] => decode n | _ => None end |}.
  intros s _. cbn. apply decode_encode.
Defined.

Definition site : list Z := replicate 32 7.
Definition host : PeerId := mkPeerId (replicate 32 3).
Definition offer : ProviderSummary := with_extensions (summary_new site host [Site] 100 50) [1; 2].

Lemma providers_listed_witness :
  summary_ok offer ∧ ∃ topic data, publish_provider_summary offer (Ok ()) = ([Publish topic data], Ok ()) ∧
    offer ∈ get_providers_for_target (collector_step (start_collecting_for_target (rexec client_new (RSubscribe site)) site).1.1 site (host, data)) site (λ _, Some 120).
Proof.
  assert (Hok : summary_ok offer).
  { unfold summary_ok, is_array, opt_bytes_ok, bytes_ok, is_byte, u64, U64_MAX. cbn. split_and!; try lia; try done; by repeat constructor. }
  split; [exact Hok|]. destruct (providers_listed [] site 120) as (_ & _ & _ & Hp).
  destruct (Hp offer host Hok eq_refl ltac:(by vm_compute)) as (topic & data & Hpub & _ & _ & Hin). exists topic, data. split; [exact Hpub|exact Hin].
Defined.
End RendezvousWitness.
