(* ===== verification/CoordinatorClient.v ===== *)
(** * The runtime's coordinator client ([crates/runtime/src/coordinator.rs])

    Publishes the node's advert to its active view, asks a few active peers for
    coordinators and collects their answers, and asks a coordinator for the
    node's own address.

    The client reads messages straight from the transport, so a call takes the
    messages that arrive while it waits, each with the milliseconds since the
    wait began, and returns those it leaves for other readers.  CBOR and
    [SocketAddr]'s parser are parameters. *)

From S2P Require Import Prelude Types Identity KeyCodec Coordinator MembershipWire Transport.
Import Coordinator CoordinatorOps.

#[local] Open Scope Z_scope.

(** CBOR of a query. *)
Class QueryCodec := { put_query : FindCoordinatorQuery → list Z }.

Module CoordinatorClient.
Notation a_peer a := (peer (fields a)).

(** A frame handed to the transport. *)
Record Send := mkSend { to_peer : PeerId; stream : Transport.GossipStreamType; payload : list Z }.

(** What [receive_message] returned, and when. *)
Inductive Event := Received (p : PeerId) (st : Transport.GossipStreamType) (data : list Z) | ReceiveError.
Notation Arrivals := (list (Z * Event)).

Section Client.
Context `{Hashes} `{CoordCodec} `{QueryCodec} `{!HashIter PeerId CoordinatorAdvert} `{!MembershipWire.SliceRandom}.
(** [str::parse::<SocketAddr>] on UTF-8 bytes; no address has other bytes. *)
Variable parse_addr : list Z → option SocketAddr.

Record CoordinatorClient := mkClient { c_peer_id : PeerId; cached_adverts : list CoordinatorAdvert }.
Definition client_new (p : PeerId) : CoordinatorClient := mkClient p [].
Definition get_cached_adverts (c : CoordinatorClient) : list CoordinatorAdvert := cached_adverts c.

(** [clk i] is read for the [i]-th endpoint, [now] for the advert.  It is not
    signed.  A failed send is only counted. *)
Definition own_advert (c : CoordinatorClient) (roles : PeerRoles) (endpoints : list SocketAddr) (nc : NatClass) (validity : Z) (clk : nat → Z) (now : Z) : CoordinatorAdvert :=
  advert_new (c_peer_id c) roles (imap (λ i x, hint_new x (clk i)) endpoints) nc validity now.
Definition publish_coordinator_advert (c : CoordinatorClient) (roles : PeerRoles) (endpoints : list SocketAddr) (nc : NatClass) (validity : Z) (clk : nat → Z) (now : Z)
    (active_view : list PeerId) : CoordinatorClient * list Send :=
  let a := own_advert c roles endpoints nc validity clk now in
  (mkClient (c_peer_id c) (cached_adverts c ++ [a]), (λ p, mkSend p Transport.PubSub (put_advert a)) <$> active_view).

(** *** Answers

    The loop under [timeout]: [None] when the time is over before the loop
    ends, which drops what it gathered. *)
Definition note_advert (m : gmap PeerId CoordinatorAdvert) (data : list Z) : gmap PeerId CoordinatorAdvert :=
  match get_cbor_advert data with
  | Some a => match m !! a_peer a with Some _ => m | None => <[a_peer a := a]> m end
  | None => m
  end.
Fixpoint collect_loop (expected : list PeerId) (deadline : Z) (m : gmap PeerId CoordinatorAdvert) (env : Arrivals) : option (gmap PeerId CoordinatorAdvert) * Arrivals :=
  match env with
  | [] => (None, [])
  | (t, e) :: rest =>
      if bool_decide (deadline < t) then (None, env) else
      match e with
      | ReceiveError => (Some m, rest)
      | Received p st data =>
          if negb (bool_decide (st = Transport.Membership)) then collect_loop expected deadline m rest else
          if negb (bool_decide (p ∈ expected)) then collect_loop expected deadline m rest else
          let m := note_advert m data in
          if bool_decide (length expected ≤ size m)%nat then (Some m, rest) else collect_loop expected deadline m rest
      end
  end.
Definition collect_coordinator_responses (expected_peers : list PeerId) (timeout_secs : Z) (env : Arrivals) : list CoordinatorAdvert * Arrivals :=
  match collect_loop expected_peers (timeout_secs * 1000) ∅ env with
  | (Some m, rest) => ((hiter m).*2, rest)
  | (None, rest) => ([], rest)
  end.

(** The adverts of peers the cache has none of. *)
Definition merge_advert (cache : list CoordinatorAdvert) (a : CoordinatorAdvert) : list CoordinatorAdvert :=
  if existsb (λ b, bool_decide (a_peer b = a_peer a)) cache then cache else cache ++ [a].
Definition merge_adverts (c : CoordinatorClient) (l : list CoordinatorAdvert) : CoordinatorClient := mkClient (c_peer_id c) (foldl merge_advert (cached_adverts c) l).

(** What a lookup reads: the active view, entropy for the choice of peers, the
    randomness and the time of the query, which sends succeed, what arrives, and
    what other calls do to the client while it waits. *)
Record Lookup := mkLookup {
  active_view : list PeerId;
  entropy : Z;
  query_bytes : list Z;
  query_now : Z;
  send_ok : nat → bool;
  arrivals : Arrivals;
  meanwhile : CoordinatorClient → CoordinatorClient;
}.

Definition find_coordinators_via_foaf (c : CoordinatorClient) (ttl fanout : Z) (e : Lookup) : CoordinatorClient * list Send * list CoordinatorAdvert * Arrivals :=
  match cached_adverts c with
  | _ :: _ => (c, [], cached_adverts c, arrivals e)
  | [] =>
    if bool_decide (active_view e = []) then (c, [], [], arrivals e) else
    let selected := MembershipWire.choose_multiple (entropy e) (active_view e) (Z.to_nat fanout) in
    let sends := (λ p, mkSend p Transport.Membership (put_query (query_new (c_peer_id c) (query_bytes e) (query_now e)))) <$> selected in
    if negb (existsb (send_ok e) (List.seq 0 (length selected))) then (c, sends, [], arrivals e) else
    let '(adverts, rest) := collect_coordinator_responses selected (ttl * 3) (arrivals e) in
    (merge_adverts (meanwhile e c) adverts, sends, adverts, rest)
  end.

(** *** Address reflection *)

Definition REFLECT_REQUEST : list Z := bytes_of_string "ADDR_REFLECT_REQUEST".
Definition REFLECT_RESPONSE : list Z := bytes_of_string "ADDR_REFLECT_RESPONSE:".

Definition reflected (coordinator_peer : PeerId) (e : Event) : option SocketAddr :=
  match e with
  | Received p st data => if bool_decide (p = coordinator_peer ∧ st = Transport.Membership) then s ← KeyCodec.strip_prefix REFLECT_RESPONSE data; parse_addr s else None
  | ReceiveError => None
  end.
Fixpoint reflect_loop (coordinator_peer : PeerId) (env : Arrivals) : result SocketAddr string * Arrivals :=
  match env with
  | [] => (Err "Address reflection request timed out", [])
  | (t, e) :: rest =>
      if bool_decide (5000 < t) then (Err "Address reflection request timed out", env) else
      match e with
      | ReceiveError => (Err "No valid reflection response received", rest)
      | _ => match reflected coordinator_peer e with Some a => (Ok a, rest) | None => reflect_loop coordinator_peer rest end
      end
  end.
(** [sent] is the outcome of the send. *)
Definition request_address_reflection (coordinator_peer : PeerId) (sent : result () string) (env : Arrivals) : list Send * result SocketAddr string * Arrivals :=
  let request := [mkSend coordinator_peer Transport.Membership REFLECT_REQUEST] in
  match sent with
  | Err e => (request, Err ("Failed to send reflection request: " +:+ e), env)
  | Ok _ => let '(r, rest) := reflect_loop coordinator_peer env in (request, r, rest)
  end.

End Client.
End CoordinatorClient.
