(* ===== verification/CoordinatorClientProps.v ===== *)
(** * The runtime's coordinator client: the properties

    What a lookup asks and returns, what publishing does to later lookups, and
    where a reflected address comes from. *)

From S2P Require Import Prelude Types Identity KeyCodec Coordinator MembershipWire Transport CoordinatorClient.
Import Coordinator CoordinatorOps CoordinatorClient.

#[local] Open Scope Z_scope.

Module CoordinatorClientProps.
Notation a_peer a := (peer (fields a)).

Section Client.
Context `{Hashes} `{CoordCodec} `{QueryCodec} `{!HashIter PeerId CoordinatorAdvert} `{!MembershipWire.SliceRandom}.

(** ** Collecting *)

(** [a] came from one of the peers, in time, on the membership stream. *)
Definition answered (expected : list PeerId) (deadline : Z) (env : list (Z * Event)) (a : CoordinatorAdvert) : Prop :=
  ∃ t p data, (t, Received p Transport.Membership data) ∈ env ∧ t ≤ deadline ∧ p ∈ expected ∧ get_cbor_advert data = Some a.
Definition failed_receive (deadline : Z) (env : list (Z * Event)) : Prop := ∃ t, (t, ReceiveError) ∈ env ∧ t ≤ deadline.

Lemma answered_cons (expected : list PeerId) (deadline : Z) (x : Z * Event) (env : list (Z * Event)) (a : CoordinatorAdvert) :
  answered expected deadline env a → answered expected deadline (x :: env) a.
Proof. intros (t & p & data & Hin & Hrest). exists t, p, data. split; [by right|done]. Qed.

Notation adverts_ok P := (map_Forall (λ p a, p = a_peer a ∧ P a)).

Lemma note_advert_ok (P : CoordinatorAdvert → Prop) (m : gmap PeerId CoordinatorAdvert) (data : list Z) :
  (∀ a, get_cbor_advert data = Some a → P a) → adverts_ok P m → adverts_ok P (note_advert m data) ∧ (size (note_advert m data) ≤ S (size m))%nat.
Proof.
  intros Ha Hm. unfold note_advert. destruct (get_cbor_advert data) as [a|]; [|split; [done|lia]]. destruct (m !! a_peer a) as [b|] eqn:Hb; [split; [done|lia]|].
  rewrite map_size_insert_None by done. split; [|done]. apply map_Forall_insert_2; [|done]. split; [done|by apply Ha].
Qed.

Lemma collect_loop_spec (P : CoordinatorAdvert → Prop) (expected : list PeerId) (deadline : Z) (env : list (Z * Event)) : ∀ m,
  (∀ a, answered expected deadline env a → P a) → adverts_ok P m → (size m < length expected)%nat →
  match (collect_loop expected deadline m env).1 with
  | Some m' => adverts_ok P m' ∧ (size m' ≤ length expected)%nat ∧ (size m' = length expected ∨ failed_receive deadline env)
  | None => True
  end.
Proof.
  induction env as [|[t e] env IH]; intros m Hans Hm Hsize; [done|]. cbn. case_bool_decide as Ht; [done|].
  assert (Hrest : ∀ m', adverts_ok P m' → (size m' < length expected)%nat →
    match (collect_loop expected deadline m' env).1 with
    | Some m' => adverts_ok P m' ∧ (size m' ≤ length expected)%nat ∧ (size m' = length expected ∨ failed_receive deadline ((t, e) :: env)) | None => True end).
  { intros m' Hm' Hs'. assert (Hans' : ∀ a, answered expected deadline env a → P a) by (intros a Ha; by apply Hans, answered_cons). specialize (IH m' Hans' Hm' Hs').
    destruct (collect_loop expected deadline m' env).1; [|done]. destruct IH as (? & ? & [|(t' & Hin & ?)]); split_and!; try done; [by left|].
    right. exists t'. split; [by right|done]. }
  destruct e as [p st data|]; [|split_and!; [done|lia|]; right; exists t; split; [by left|lia]].
  case_bool_decide as Hst; cbn [negb]; [subst st|by apply Hrest]. case_bool_decide as Hp; cbn [negb]; [|by apply Hrest].
  destruct (note_advert_ok P m data) as [Hn Hns]; [|done|].
  { intros a Ha. apply Hans. exists t, p, data. split; [by left|]. by split; [lia|]. }
  case_bool_decide as Hfull; [|apply Hrest; [done|lia]]. split_and!; [done|lia|]. left. lia.
Qed.

(** ** Lookups *)

Lemma hiter_peers (m : gmap PeerId CoordinatorAdvert) (P : CoordinatorAdvert → Prop) : adverts_ok P m →
  NoDup ((λ a, a_peer a) <$> (hiter m).*2) ∧ (∀ a, a ∈ (hiter m).*2 → P a) ∧ length (hiter m).*2 = size m.
Proof.
  intros Hm. split_and!.
  - assert (Heq : (λ a, a_peer a) <$> (hiter m).*2 = (hiter m).*1); [|rewrite Heq; apply NoDup_hiter_keys].
    rewrite <-list_fmap_compose. apply list_fmap_ext. intros i [p a] Hi. cbn. symmetry. by apply (Hm p a), elem_of_hiter, list_elem_of_lookup_2 with i.
  - intros a ([p b] & -> & Hin)%list_elem_of_fmap. by apply (Hm p b), elem_of_hiter.
  - by rewrite length_fmap, length_hiter.
Qed.

(** C36. What a lookup asks and returns.  A client that holds adverts returns
    them, whatever their age, and asks nobody.  Otherwise it asks as many active
    peers as the fan-out allows, on the membership stream; the adverts it
    returns are answers of peers it asked that arrived in time, one per
    coordinator.  And unless a receive fails, it returns as many adverts as it
    asked peers or none at all: answers that name fewer coordinators than peers
    were asked are dropped when the time is over. *)
Theorem foaf_lookup (c : CoordinatorClient) (ttl fanout : Z) (e : Lookup) :
  let '(c', sends, l, rest) := find_coordinators_via_foaf c ttl fanout e in
  (cached_adverts c ≠ [] → c' = c ∧ sends = [] ∧ l = cached_adverts c ∧ rest = arrivals e) ∧
  (cached_adverts c = [] →
    (∀ s, s ∈ sends → to_peer s ∈ active_view e ∧ stream s = Transport.Membership ∧ payload s = put_query (query_new (c_peer_id c) (query_bytes e) (query_now e))) ∧
    length sends = Nat.min (Z.to_nat fanout) (length (active_view e)) ∧
    NoDup ((λ a, a_peer a) <$> l) ∧ (∀ a, a ∈ l → answered (to_peer <$> sends) (3000 * ttl) (arrivals e) a) ∧
    (l = [] ∨ length l = length sends ∨ failed_receive (3000 * ttl) (arrivals e))).
Proof.
  unfold find_coordinators_via_foaf. destruct (cached_adverts c) as [|x k]; [|by split].
  assert (Hnone : ∀ sends, NoDup ((λ a, a_peer a) <$> []) ∧ (∀ a, a ∈ [] → answered (to_peer <$> sends) (3000 * ttl) (arrivals e) a) ∧
    ((@nil CoordinatorAdvert) = [] ∨ length (@nil CoordinatorAdvert) = length sends ∨ failed_receive (3000 * ttl) (arrivals e))).
  { intros sends. split_and!; [constructor|by intros a ?%not_elem_of_nil|by left]. }
  case_bool_decide as Hv; [split; [done|]; intros _; rewrite Hv; split_and!; try apply (Hnone []); [by intros s ?%not_elem_of_nil|cbn; lia]|].
  set (selected := MembershipWire.choose_multiple _ _ _). set (q := put_query _). set (sends := (λ p, _) <$> selected).
  assert (Hsends : ∀ s, s ∈ sends → to_peer s ∈ active_view e ∧ stream s = Transport.Membership ∧ payload s = q).
  { intros s (p & -> & Hp)%list_elem_of_fmap. split_and!; [|done|done]. by eapply MembershipWire.choose_multiple_elem. }
  assert (Hlen : length sends = Nat.min (Z.to_nat fanout) (length (active_view e))) by (unfold sends; rewrite length_fmap; apply MembershipWire.choose_multiple_length).
  assert (Hto : to_peer <$> sends = selected) by (unfold sends; rewrite <-list_fmap_compose; apply list_fmap_id).
  destruct (existsb _ _) eqn:Hok; cbn [negb]; [|split; [done|]; intros _; split_and!; [done|done|apply (Hnone sends)..]].
  unfold collect_coordinator_responses. assert (Hpos : (size (∅ : gmap PeerId CoordinatorAdvert) < length selected)%nat).
  { rewrite map_size_empty. destruct selected; [done|cbn; lia]. }
  replace (ttl * 3 * 1000) with (3000 * ttl) by lia. assert (Hn : length sends = length selected) by apply length_fmap.
  pose proof (collect_loop_spec (answered selected (3000 * ttl) (arrivals e)) selected (3000 * ttl) (arrivals e) ∅ (λ a Ha, Ha) (map_Forall_empty _) Hpos) as Hc.
  destruct (collect_loop _ _ _ _) as [[m|] rest]; cbn [fst] in Hc; (split; [done|]; intros _; split_and!; [done|done|..]); try apply (Hnone sends).
  - apply (hiter_peers m (answered selected (3000 * ttl) (arrivals e))), Hc.
  - rewrite Hto. apply (hiter_peers m (answered selected (3000 * ttl) (arrivals e))), Hc.
  - destruct Hc as (Hm & _ & [Hs|Hf]); [|by right; right]. right. left. destruct (hiter_peers m _ Hm) as (_ & _ & Hl). lia.
Qed.

(** ** Publishing *)

(** The calls that change the client: lookups end with a merge. *)
Inductive COp :=
| CPublish (roles : PeerRoles) (endpoints : list SocketAddr) (nc : NatClass) (validity : Z) (clk : nat → Z) (now : Z) (active : list PeerId)
| CMerge (l : list CoordinatorAdvert).
Definition cexec (c : CoordinatorClient) (o : COp) : CoordinatorClient :=
  match o with
  | CPublish r ends nc validity clk now active => (publish_coordinator_advert c r ends nc validity clk now active).1
  | CMerge l => merge_adverts c l
  end.
Notation crun := (foldl cexec).

Lemma merge_advert_sub (l cache : list CoordinatorAdvert) : cache ⊆ foldl merge_advert cache l.
Proof.
  revert cache. induction l as [|a l IH]; intros cache; [done|]. cbn. etrans; [|apply IH]. unfold merge_advert. destruct (existsb _ _); [done|]. intros x Hx. apply elem_of_app. by left.
Qed.
Lemma cexec_sub (c : CoordinatorClient) (o : COp) : c_peer_id (cexec c o) = c_peer_id c ∧ cached_adverts c ⊆ cached_adverts (cexec c o).
Proof. split; [by destruct o|]. destruct o; cbn; [intros x Hx; apply elem_of_app; by left|apply merge_advert_sub]. Qed.
Lemma crun_sub (os : list COp) (c : CoordinatorClient) : c_peer_id (crun c os) = c_peer_id c ∧ cached_adverts c ⊆ cached_adverts (crun c os).
Proof.
  revert c. induction os as [|o os IH]; intros c; [done|]. cbn. destruct (IH (cexec c o)) as [-> Hs], (cexec_sub c o) as [-> Hs']. split; [done|by etrans].
Qed.

(** A node that has advertised itself finds nobody else.  After a client has
    published its own advert, every lookup, in every later state, sends nothing
    and returns the cache with that advert, however old; and the advert is not
    signed, so that no other node takes it from an answer. *)
Theorem published_then_silent (p : PeerId) (before after : list COp) (roles : PeerRoles) (endpoints : list SocketAddr) (nc : NatClass) (validity : Z) (clk : nat → Z) (now : Z)
    (active : list PeerId) `{BootstrapCache} :
  let a := own_advert (client_new p) roles endpoints nc validity clk now in
  let c := crun (client_new p) (before ++ [CPublish roles endpoints nc validity clk now active] ++ after) in
  (∀ ttl fanout e, find_coordinators_via_foaf c ttl fanout e = (c, [], cached_adverts c, arrivals e)) ∧ a ∈ cached_adverts c ∧ sig a = [] ∧
  ∀ (cache : GossipCacheAdapter) times, accept_response_advert cache (a, times) = cache.
Proof.
  intros a c. assert (Ha : a ∈ cached_adverts c).
  { unfold c. rewrite !foldl_app. apply (proj2 (crun_sub after _)). cbn. apply elem_of_app. right. apply list_elem_of_singleton.
    unfold a, own_advert. by rewrite (proj1 (crun_sub before _)). }
  split_and!; [|done|done|].
  - intros ttl fanout e. unfold find_coordinators_via_foaf. destruct (cached_adverts c) as [|x k]; [by apply not_elem_of_nil in Ha|done].
  - intros cache [t1 t2]. done.
Qed.

(** ** Address reflection *)

Section Reflection.
Variable parse_addr : list Z → option SocketAddr.

Lemma strip_prefix_Some (pre l r : list Z) : KeyCodec.strip_prefix pre l = Some r → l = pre ++ r.
Proof. unfold KeyCodec.strip_prefix. case_decide as Hp; [|done]. intros [= <-]. rewrite <-Hp at 1. by rewrite take_drop. Qed.

(** The address is the first that the coordinator names; what came before it
    is lost to other readers. *)
Lemma reflection_first (p : PeerId) (env rest : list (Z * Event)) (a : SocketAddr) : reflect_loop parse_addr p env = (Ok a, rest) →
  ∃ skipped t data s, env = skipped ++ (t, Received p Transport.Membership data) :: rest ∧ t ≤ 5000 ∧ data = REFLECT_RESPONSE ++ s ∧ parse_addr s = Some a ∧
    Forall (λ x, reflected parse_addr p x.2 = None) skipped.
Proof.
  induction env as [|[t e] env IH]; [done|]. cbn. case_bool_decide as Ht; [done|]. destruct e as [q st data|]; [|done].
  destruct (reflected parse_addr p (Received q st data)) as [b|] eqn:Hr.
  - intros [= -> ->]. cbn [reflected] in Hr. case_bool_decide as Hq; [|done]. destruct Hq as [-> ->]. destruct (KeyCodec.strip_prefix REFLECT_RESPONSE data) as [r|] eqn:Hpre; [|done].
    exists [], t, data, r. split_and!; [done|lia|exact (strip_prefix_Some _ _ _ Hpre)|exact Hr|constructor].
  - intros Hl. destruct (IH Hl) as (skipped & t' & data' & s & -> & Ht' & Hd & Hs & Hf). exists ((t, Received q st data) :: skipped), t', data', s. split_and!; try done. by constructor.
Qed.
End Reflection.
End Client.
End CoordinatorClientProps.
