(* ===== verification/Runtime.v ===== *)
(** * The runtime ([crates/runtime/src/runtime.rs], [crates/runtime/src/context.rs])

    The builder that puts a node together from an identity and a transport, and
    the context that makes both: which identity each part gets, and when
    building is refused.  ant-quic's node is a parameter; the parts are the
    initial states of their own files. *)

From S2P Require Import Prelude Types Identity MessageCache Plumtree KeyCodec KeyCache Compat HyParView Presence Coordinator CoordinatorClient Rendezvous Transport.
Import Identity Plumtree.

#[local] Open Scope Z_scope.

Notation SocketAddr := (list Z * Z)%type.

(** [ant_quic::Node]: the peer id of a node that starts.  With a key pair it is
    the id of the public key, as [MlDsaKeyPair::peer_id] computes it. *)
Class AntNode `{Hashes} `{MlDsa} := {
  node_with_config : SocketAddr → list SocketAddr → option (list Z * list Z) → Z → option PeerId;
  node_keypair b l pk sk pk' r p : pqc_public_key pk = Some pk' → node_with_config b l (Some (pk', sk)) r = Some p → p = from_pubkey pk;
}.

Module Runtime.

Section Runtime.
Context `{AntNode} `{!LruPut PeerId (list Z)} `{!LruPut (PeerId * Z * PeerId) ()}.
(** The health oracle that the application installs. *)
Context {Oracle : Type}.

(** [UdpTransportAdapter::with_config]; [r] is the randomness of the node. *)
Definition with_config (c : Transport.Config) (r : Z) : result Transport.UdpTransportAdapter string :=
  let? keys :=
    match Transport.keypair c with
    | None => Ok None
    | Some (pk, sk) =>
        match pqc_public_key pk with
        | None => Err "Invalid ML-DSA public key"%string
        | Some pk => match pqc_secret_key sk with None => Err "Invalid ML-DSA secret key"%string | Some sk => Ok (Some (pk, sk)) end
        end
    end in
  match node_with_config (Transport.bind_addr c) (Transport.known_peers c) keys r with
  | Some p => Ok (Transport.transport_new c p)
  | None => Err "Failed to create Node"%string
  end.

(** ** The parts *)

(** What [PlumtreePubSub] is made of: its identity, its key cache and its
    configuration. *)
Record PubSubParts := mkPubSub {
  ps_peer_id : PeerId;
  ps_signing_key : MlDsaKeyPair;
  ps_key_cache : KeyCache.KeyCache;
  ps_policy : SignaturePolicy;
  ps_cache_config : PubSubCacheConfig;
  ps_oracle : option Oracle;
}.
Definition new_with_cache_config (me : PeerId) (key : MlDsaKeyPair) (c : PubSubCacheConfig) : PubSubParts :=
  mkPubSub me key (KeyCache.note_verified_key KeyCache.key_cache_default (peer_id key) (public_key key) None) AcceptV1 c None.
Definition with_health_oracle (p : PubSubParts) (o : Oracle) : PubSubParts :=
  mkPubSub (ps_peer_id p) (ps_signing_key p) (ps_key_cache p) (ps_policy p) (ps_cache_config p) (Some o).

(** [groups_by_topic] is the map of groups that [presence] shares, its
    [m_groups]; [groups] is another map. *)
Record GossipRuntime := mkRuntime {
  identity : MlDsaKeyPair;
  rt_peer_id : PeerId;
  transport : Transport.UdpTransportAdapter;
  membership : HyParView.HyParViewMembership;
  pubsub : PubSubParts;
  presence : Presence.PresenceManager;
  groups : gmap string Group.GroupContext;
  coordinator : CoordinatorClient.CoordinatorClient;
  rendezvous : RendezvousOps.RendezvousClient;
}.

(** ** The builder *)

Record GossipRuntimeConfig := mkRtConfig { bind_addr : SocketAddr; known_peers : list SocketAddr; pubsub_cache : PubSubCacheConfig }.
Definition config_default : GossipRuntimeConfig := mkRtConfig ([0; 0; 0; 0], 0) [] default_cache_config.
Record GossipRuntimeBuilder := mkBuilder {
  b_config : GossipRuntimeConfig;
  b_identity : option MlDsaKeyPair;
  b_transport : option Transport.UdpTransportAdapter;
  b_oracle : option Oracle;
}.
Definition builder_new : GossipRuntimeBuilder := mkBuilder config_default None None None.
Definition set_config (b : GossipRuntimeBuilder) (c : GossipRuntimeConfig) : GossipRuntimeBuilder := mkBuilder c (b_identity b) (b_transport b) (b_oracle b).
Definition set_bind_addr (b : GossipRuntimeBuilder) (a : SocketAddr) : GossipRuntimeBuilder :=
  set_config b (mkRtConfig a (known_peers (b_config b)) (pubsub_cache (b_config b))).
Definition set_known_peers (b : GossipRuntimeBuilder) (l : list SocketAddr) : GossipRuntimeBuilder :=
  set_config b (mkRtConfig (bind_addr (b_config b)) l (pubsub_cache (b_config b))).
Definition set_pubsub_cache (b : GossipRuntimeBuilder) (c : PubSubCacheConfig) : GossipRuntimeBuilder :=
  set_config b (mkRtConfig (bind_addr (b_config b)) (known_peers (b_config b)) c).
Definition peer_health_oracle (b : GossipRuntimeBuilder) (o : Oracle) : GossipRuntimeBuilder := mkBuilder (b_config b) (b_identity b) (b_transport b) (Some o).
Definition set_identity (b : GossipRuntimeBuilder) (k : MlDsaKeyPair) : GossipRuntimeBuilder := mkBuilder (b_config b) (Some k) (b_transport b) (b_oracle b).
Definition with_transport (b : GossipRuntimeBuilder) (t : Transport.UdpTransportAdapter) : GossipRuntimeBuilder := mkBuilder (b_config b) (b_identity b) (Some t) (b_oracle b).

(** Identity and transport, resolved together; [kr] and [nr] are the randomness
    of a generated key pair and of the node. *)
Definition resolve (b : GossipRuntimeBuilder) (kr nr : Z) : result (MlDsaKeyPair * Transport.UdpTransportAdapter) string :=
  match b_identity b, b_transport b with
  | None, Some _ => Err "a pre-configured transport requires the matching identity"%string
  | Some k, Some t => if bool_decide (peer_id k = Transport.gossip_peer_id t) then Ok (k, t) else Err "identity peer-id does not match transport peer-id"%string
  | id_opt, None =>
      let? k := match id_opt with Some k => Ok k | None => match generate kr with Some k => Ok k | None => Err "key generation failed"%string end end in
      let? t := with_config (Transport.with_keypair (Transport.config_new (bind_addr (b_config b)) (known_peers (b_config b))) (public_key k) (secret_key k)) nr in
      Ok (k, t)
  end.

Definition build (b : GossipRuntimeBuilder) (kr nr : Z) : result GossipRuntime string :=
  let? ' (k, t) := resolve b kr nr in
  let me := peer_id k in
  let base := new_with_cache_config me k (pubsub_cache (b_config b)) in
  Ok (mkRuntime k me t (HyParView.new me HyParView.config_default)
        match b_oracle b with Some o => with_health_oracle base o | None => base end
        (Presence.new me ∅) ∅ (CoordinatorClient.client_new me) RendezvousOps.client_new).

(** ** The context *)

Record GossipContext := mkContext {
  cx_bind_addr : SocketAddr;
  cx_known_peers : list SocketAddr;
  cx_identity : option MlDsaKeyPair;
  channel_capacity : Z;
  max_peers : nat;
  stream_read_limit : Z;
}.
Definition context_default : GossipContext := mkContext ([0; 0; 0; 0], 0) [] None 10000 1000 (100 * 1024 * 1024).
Definition with_bind_addr (c : GossipContext) (a : SocketAddr) : GossipContext :=
  mkContext a (cx_known_peers c) (cx_identity c) (channel_capacity c) (max_peers c) (stream_read_limit c).
Definition with_known_peers (c : GossipContext) (l : list SocketAddr) : GossipContext :=
  mkContext (cx_bind_addr c) l (cx_identity c) (channel_capacity c) (max_peers c) (stream_read_limit c).
Definition add_known_peer (c : GossipContext) (a : SocketAddr) : GossipContext := with_known_peers c (cx_known_peers c ++ [a]).
Definition with_identity (c : GossipContext) (k : MlDsaKeyPair) : GossipContext :=
  mkContext (cx_bind_addr c) (cx_known_peers c) (Some k) (channel_capacity c) (max_peers c) (stream_read_limit c).
Definition with_channel_capacity (c : GossipContext) (n : Z) : GossipContext :=
  mkContext (cx_bind_addr c) (cx_known_peers c) (cx_identity c) n (max_peers c) (stream_read_limit c).
Definition with_max_peers (c : GossipContext) (n : nat) : GossipContext :=
  mkContext (cx_bind_addr c) (cx_known_peers c) (cx_identity c) (channel_capacity c) n (stream_read_limit c).
Definition with_stream_read_limit (c : GossipContext) (n : Z) : GossipContext :=
  mkContext (cx_bind_addr c) (cx_known_peers c) (cx_identity c) (channel_capacity c) (max_peers c) n.

Definition udp_config (c : GossipContext) (k : MlDsaKeyPair) : Transport.Config :=
  Transport.with_keypair
    (Transport.with_stream_read_limit
       (Transport.with_max_peers (Transport.with_channel_capacity (Transport.config_new (cx_bind_addr c) (cx_known_peers c)) (channel_capacity c)) (max_peers c))
       (stream_read_limit c))
    (public_key k) (secret_key k).
Definition context_build (c : GossipContext) (kr nr : Z) : result GossipRuntime string :=
  let? k := match cx_identity c with Some k => Ok k | None => match generate kr with Some k => Ok k | None => Err "failed to generate identity keypair"%string end end in
  let? t := match with_config (udp_config c k) nr with Ok t => Ok t | Err _ => Err "failed to create UDP transport adapter"%string end in
  match build (with_transport (set_identity (set_known_peers (set_bind_addr builder_new (cx_bind_addr c)) (cx_known_peers c)) k) t) kr nr with
  | Ok r => Ok r
  | Err _ => Err "failed to build GossipRuntime"%string
  end.
End Runtime.
End Runtime.
