(* ===== verification/RuntimeProps.v ===== *)
(** * The runtime: the properties

    The parts of a built runtime have one identity; when building is refused;
    what the presence manager of a built runtime can do. *)

From S2P Require Import Prelude Types Identity MessageCache Plumtree KeyCodec KeyCache Compat HyParView Presence Coordinator CoordinatorClient Rendezvous Transport Runtime.
Import Identity Runtime.

#[local] Open Scope Z_scope.

Module RuntimeProps.
Section Runtime.
Context `{AntNode} `{!LruPut PeerId (list Z)} `{!LruPut (PeerId * Z * PeerId) ()} {Oracle : Type}.
Notation GossipRuntime := (GossipRuntime (Oracle := Oracle)).
Notation GossipRuntimeBuilder := (GossipRuntimeBuilder (Oracle := Oracle)).

(** Every part acts for the peer of the runtime's identity. *)
Record coherent (r : GossipRuntime) : Prop := {
  co_identity : peer_id (identity r) = rt_peer_id r;
  co_transport : Transport.gossip_peer_id (transport r) = rt_peer_id r;
  co_membership : HyParView.local_peer_id (membership r) = rt_peer_id r;
  co_pubsub : ps_peer_id (pubsub r) = rt_peer_id r;
  co_key : ps_signing_key (pubsub r) = identity r;
  co_presence : Presence.m_peer_id (presence r) = rt_peer_id r;
  co_coordinator : CoordinatorClient.c_peer_id (coordinator r) = rt_peer_id r;
}.

Lemma with_config_keypair (c : Transport.Config) (k : MlDsaKeyPair) (nr : Z) (t : Transport.UdpTransportAdapter) :
  Transport.keypair c = Some (public_key k, secret_key k) → with_config c nr = Ok t → Transport.gossip_peer_id t = peer_id k ∧ Transport.config t = c.
Proof.
  intros Hk. unfold with_config. rewrite Hk. destruct (pqc_public_key (public_key k)) as [pk|] eqn:Hpk; [|done]. destruct (pqc_secret_key (secret_key k)) as [sk|]; [|done].
  cbn [result_bind]. destruct (node_with_config _ _ _ _) as [p|] eqn:Hn; [|done]. intros [= <-]. split; [|done]. by eapply node_keypair.
Qed.

Lemma resolve_spec (b : GossipRuntimeBuilder) (kr nr : Z) :
  match resolve b kr nr with
  | Ok (k, t) => peer_id k = Transport.gossip_peer_id t ∧ (∀ k', b_identity b = Some k' → k = k') ∧ (∀ t', b_transport b = Some t' → t = t')
  | Err _ => True
  end.
Proof.
  unfold resolve. destruct (b_identity b) as [k|], (b_transport b) as [t|]; [|..|done|].
  - case_bool_decide; [|done]. split_and!; [done|by intros k' [= <-]|by intros t' [= <-]].
  - cbn [result_bind]. destruct (with_config _ nr) as [t|] eqn:Ht; [|done]. cbn. apply (with_config_keypair _ k) in Ht as [Ht _]; [|done]. split_and!; [done|by intros k' [= <-]|done].
  - destruct (generate kr) as [k|]; [|done]. cbn [result_bind]. destruct (with_config _ nr) as [t|] eqn:Ht; [|done]. cbn. apply (with_config_keypair _ k) in Ht as [Ht _]; [|done]. by split_and!.
Qed.

(** A runtime that was built, and what it was built of. *)
Lemma build_spec (b : GossipRuntimeBuilder) (kr nr : Z) :
  match build b kr nr with
  | Ok r => coherent r ∧ resolve b kr nr = Ok (identity r, transport r) ∧ Presence.m_identity (presence r) = None
  | Err e => resolve b kr nr = Err e
  end.
Proof.
  unfold build. pose proof (resolve_spec b kr nr) as Hr. destruct (resolve b kr nr) as [[k t]|e]; [|done]. cbn [result_bind]. destruct Hr as [Hp _].
  split; [|done]. split; cbn; try done. all: by destruct (b_oracle b).
Qed.

(** One identity.  The identity, the transport, the membership, pub-sub with
    its signing key, presence and the coordinator client of a built runtime are
    of one peer; what the builder was given is what it uses; a transport is
    accepted exactly with an identity of its peer.  A context that gets as far
    as a transport yields a runtime, coherent and with the transport settings of
    the context. *)
Theorem built_runtime_coherent (b : GossipRuntimeBuilder) (c : GossipContext) (kr nr : Z) :
  (∀ r, build b kr nr = Ok r → coherent r ∧ (∀ k, b_identity b = Some k → identity r = k) ∧ (∀ t, b_transport b = Some t → transport r = t)) ∧
  (∀ t, b_transport b = Some t → is_ok (build b kr nr) = true ↔ ∃ k, b_identity b = Some k ∧ peer_id k = Transport.gossip_peer_id t) ∧
  (∀ r : GossipRuntime, context_build c kr nr = Ok r → coherent r ∧ Transport.config (transport r) = udp_config c (identity r) ∧ (∀ k, cx_identity c = Some k → identity r = k)) ∧
  context_build (Oracle := Oracle) c kr nr ≠ Err "failed to build GossipRuntime"%string.
Proof.
  assert (Hctx : ∀ k t, with_config (udp_config c k) nr = Ok t →
    ∃ r : GossipRuntime, build (with_transport (set_identity (set_known_peers (set_bind_addr builder_new (cx_bind_addr c)) (cx_known_peers c)) k) t) kr nr = Ok r ∧
      coherent r ∧ identity r = k ∧ transport r = t).
  { intros k t Ht. apply (with_config_keypair _ k) in Ht as [Ht _]; [|done]. set (b' := with_transport _ t). pose proof (build_spec b' kr nr) as Hb.
    assert (Hres : resolve b' kr nr = Ok (k, t)) by (unfold resolve; cbn; by rewrite bool_decide_true). rewrite Hres in Hb.
    destruct (build b' kr nr) as [r|]; [|done]. destruct Hb as (Hco & [= -> ->] & _). by exists r. }
  split_and!.
  - intros r Hr. pose proof (build_spec b kr nr) as Hb. pose proof (resolve_spec b kr nr) as Hs. rewrite Hr in Hb. destruct Hb as (Hco & Hres & _). rewrite Hres in Hs. by destruct Hs as (_ & ? & ?).
  - intros t Ht. pose proof (build_spec b kr nr) as Hb. unfold resolve in Hb. rewrite Ht in Hb. destruct (b_identity b) as [k|].
    + case_bool_decide as Hk; destruct (build b kr nr); cbn.
      * split; [by exists k|done].
      * done.
      * by destruct Hb as (_ & ? & _).
      * split; [done|]. by intros (k' & [= <-] & ?).
    + destruct (build b kr nr); cbn; [by destruct Hb as (_ & ? & _)|]. split; [done|]. by intros (k' & ? & _).
  - intros r. unfold context_build. destruct (match cx_identity c with Some k => Ok k | None => _ end) as [k|] eqn:Hk; [|done]. cbn [result_bind].
    destruct (with_config (udp_config c k) nr) as [t|] eqn:Ht; [|done]. cbn [result_bind]. destruct (Hctx k t Ht) as (r' & -> & Hco & <- & <-). intros [= <-].
    split_and!; [done|by apply (with_config_keypair _ (identity r')) in Ht as [_ ?]|]. intros k'. intros Hk'. rewrite Hk' in Hk. by injection Hk as ->.
  - unfold context_build. destruct (match cx_identity c with Some k => Ok k | None => _ end) as [k|e] eqn:Hk; cbn [result_bind].
    + destruct (with_config (udp_config c k) nr) as [t|] eqn:Ht; [|done]. cbn [result_bind]. by destruct (Hctx k t Ht) as (r' & -> & _).
    + destruct (cx_identity c); [done|]. destruct (generate kr); [done|]. by injection Hk as <-.
Qed.

(** A built runtime does not sign its beacons.  The presence manager of a
    runtime has no key until the application sets one: a beacon it builds keeps
    its empty signature, and no manager that requires signatures takes it,
    whatever its groups. *)
Theorem runtime_beacons_unsigned `{Presence.PresenceWire} (b : GossipRuntimeBuilder) (kr nr : Z) (s : Presence.PresenceManager) (topic : TopicId) (peer : PeerId)
    (fw : option string) (now ttl n : Z) (tag : list Z) (hints : list string) :
  match build b kr nr with
  | Ok r => Presence.validate_presence_record s true topic peer (Presence.sign_record (Presence.m_identity (presence r)) (Presence.build_record fw now tag hints ttl n)) = false
  | Err _ => True
  end.
Proof.
  pose proof (build_spec b kr nr) as Hb. destruct (build b kr nr) as [r|]; [|done]. destruct Hb as (_ & _ & ->). cbn [Presence.sign_record].
  unfold Presence.validate_presence_record. case_bool_decide; [|done].
  unfold Presence.build_record. repeat case_match; done.
Qed.
End Runtime.
End RuntimeProps.
