(* ===== verification/RuntimeWitness.v ===== *)
(** * The runtime: witness

    A node whose id is that of its key, and the runtimes built on it with and
    without a matching identity. *)

From S2P Require Import Prelude Types Identity MessageCache Plumtree KeyCodec KeyCache KeyCacheWitness Transport Runtime RuntimeProps.
Import Identity Runtime RuntimeProps.
Import KeyCacheWitness(toy_hashes, toy_crypto, keys_put, acks_put, keya, pk0).

#[local] Open Scope Z_scope.

Module RuntimeWitness.

#[local] Existing Instance toy_hashes.
#[local] Existing Instance toy_crypto.
#[local] Existing Instance keys_put.
#[local] Existing Instance acks_put.

#[local] Instance own_node : AntNode.
Proof.
  refine {| node_with_config _ _ keys r := Some (match keys with Some (pk, _) => from_pubkey pk | None => mkPeerId (replicate 32 r) end) |}.
  intros b l pk sk pk' r p Hpk [= <-]. cbn in Hpk. by injection Hpk as <-.
Defined.

Definition other : Transport.UdpTransportAdapter := Transport.transport_new (Transport.config_new ([127; 0; 0; 1], 9000) []) (mkPeerId (replicate 32 2)).

Lemma built_runtime_coherent_witness :
  (∃ r, build (Oracle := ()) (set_identity builder_new keya) 0 0 = Ok r ∧ coherent r) ∧
  is_ok (build (Oracle := ()) (with_transport (set_identity builder_new keya) other) 0 0) = false.
Proof.
  split.
  - destruct (built_runtime_coherent (Oracle := ()) (set_identity builder_new keya) context_default 0 0) as [Hb _].
    destruct (build (set_identity builder_new keya) 0 0) as [r|e] eqn:Hr; [|by vm_compute in Hr]. exists r. split; [done|]. by apply Hb.
  - destruct (built_runtime_coherent (Oracle := ()) (with_transport (set_identity builder_new keya) other) context_default 0 0) as (_ & Hb & _).
    apply not_true_is_false. intros Hok. destruct (proj1 (Hb other eq_refl) Hok) as (k & [= <-] & Hp). apply (f_equal peer_bytes) in Hp. vm_compute in Hp. discriminate.
Defined.
End RuntimeWitness.
