(* ===== verification/PeerScoring.v ===== *)
(** * Peer scores per topic ([crates/pubsub/src/peer_scoring.rs])

    The scoring engine behind the diagnostics: per topic and peer the time in
    the mesh, first deliveries, delivery deficit, invalid messages and
    behavioural penalty, decayed towards zero, with a weighted sum of them.  The
    scores gate nothing; the map of entries is bounded by the idle sweep.

    [Instant]s are nanoseconds, one per method; [f64] is [Float64.v]'s; the
    lock-wait timings of the engine are left out. *)

From Stdlib Require String.
From S2P Require Import Prelude Types Float64 PeerTiming.
Import F64.

#[local] Open Scope Z_scope.

Module PeerScoring.

Definition W_P1_TIME_IN_MESH : f64 := decimal 1 100.
Definition W_P2_FIRST_DELIVERY : f64 := of_Z 1.
Definition W_P3B_DELIVERY_DEFICIT : f64 := of_Z (-1).
Definition W_P4_INVALID_MESSAGE : f64 := of_Z (-100).
Definition W_P7_BEHAVIORAL : f64 := of_Z (-10).
Definition SCORE_DECAY_PER_SEC : f64 := decimal 97 100.
Definition P1_TIME_IN_MESH_CAP_SECS : f64 := of_Z 3600.
Definition GOSSIP_THRESHOLD : f64 := of_Z (-100).
Definition PUBLISH_THRESHOLD : f64 := of_Z (-1000).
Definition GRAYLIST_THRESHOLD : f64 := of_Z (-10000).

Record PeerScoringConfig := mkScoring {
  w_p1 : f64;
  w_p2 : f64;
  w_p3b : f64;
  w_p4 : f64;
  w_p7 : f64;
  decay_per_sec : f64;
  p1_time_cap_secs : f64;
  gossip_threshold : f64;
  publish_threshold : f64;
  graylist_threshold : f64;
}.
Definition config_default : PeerScoringConfig :=
  mkScoring W_P1_TIME_IN_MESH W_P2_FIRST_DELIVERY W_P3B_DELIVERY_DEFICIT W_P4_INVALID_MESSAGE W_P7_BEHAVIORAL SCORE_DECAY_PER_SEC P1_TIME_IN_MESH_CAP_SECS
    GOSSIP_THRESHOLD PUBLISH_THRESHOLD GRAYLIST_THRESHOLD.

(** [f64::is_finite]. *)
Definition is_finite (x : f64) : bool := match x with SpecFloat.S754_finite _ _ _ | SpecFloat.S754_zero _ => true | _ => false end.
Definition with_decay_per_sec (c : PeerScoringConfig) (decay : f64) : PeerScoringConfig :=
  mkScoring (w_p1 c) (w_p2 c) (w_p3b c) (w_p4 c) (w_p7 c)
    (if is_finite decay && ltb (of_Z 0) decay && leb decay (of_Z 1) then decay else SCORE_DECAY_PER_SEC)
    (p1_time_cap_secs c) (gossip_threshold c) (publish_threshold c) (graylist_threshold c).
Definition with_thresholds (c : PeerScoringConfig) (gossip publish graylist : f64) : PeerScoringConfig :=
  mkScoring (w_p1 c) (w_p2 c) (w_p3b c) (w_p4 c) (w_p7 c) (decay_per_sec c) (p1_time_cap_secs c) gossip publish graylist.

(** ** One entry *)

Record PeerScoreState := mkScore {
  joined_mesh_at : option Z;
  first_deliveries : f64;
  delivery_deficit : f64;
  invalid_messages : f64;
  behavioral_penalty : f64;
  last_decay_at : Z;
  last_activity : Z;
}.
Definition state_new (now : Z) : PeerScoreState := mkScore None (of_Z 0) (of_Z 0) (of_Z 0) (of_Z 0) now now.

Section Scoring.
Context `{Libm}.

Definition decay_to (e : PeerScoreState) (now : Z) (decay : f64) : PeerScoreState :=
  let elapsed := elapsed_ns now (last_decay_at e) in
  if bool_decide (elapsed = 0) then e else
  let factor := powf decay (as_secs_f64 elapsed) in
  mkScore (joined_mesh_at e) (mul (first_deliveries e) factor) (mul (delivery_deficit e) factor) (mul (invalid_messages e) factor) (mul (behavioral_penalty e) factor)
    now (last_activity e).

Definition p1_time (e : PeerScoreState) (now : Z) (c : PeerScoringConfig) : f64 :=
  match joined_mesh_at e with
  | Some joined => fmin (as_secs_f64 (elapsed_ns now joined)) (p1_time_cap_secs c)
  | None => of_Z 0
  end.
(** Sums and products associate to the left. *)
Definition state_score (e : PeerScoreState) (now : Z) (c : PeerScoringConfig) : f64 :=
  add (add (add (add (mul (w_p1 c) (p1_time e now c)) (mul (w_p2 c) (first_deliveries e))) (mul (w_p3b c) (delivery_deficit e)))
    (mul (mul (w_p4 c) (invalid_messages e)) (invalid_messages e))) (mul (mul (w_p7 c) (behavioral_penalty e)) (behavioral_penalty e)).

(** ** The engine *)

Notation Key := (TopicId * PeerId)%type.
Record PeerScoring := mkEngine { config : PeerScoringConfig; inner : gmap Key PeerScoreState }.
Definition with_config (c : PeerScoringConfig) : PeerScoring := mkEngine c ∅.
Definition engine_new : PeerScoring := with_config config_default.
Definition set_inner (s : PeerScoring) (m : gmap Key PeerScoreState) : PeerScoring := mkEngine (config s) m.

(** [retain] *)
Definition retain (s : PeerScoring) (keep : Key → PeerScoreState → bool) : PeerScoring * nat :=
  let m := filter (λ kv, keep kv.1 kv.2 = true) (inner s) in (set_inner s m, (size (inner s) - size m)%nat).
Definition remove_topic (s : PeerScoring) (t : TopicId) : PeerScoring * nat := retain s (λ k _, negb (bool_decide (k.1 = t))).
Definition retain_active_at (s : PeerScoring) (live : gset Key) (now max_idle : Z) : PeerScoring * nat :=
  retain s (λ k e, bool_decide (k ∈ live) || bool_decide (elapsed_ns now (last_activity e) ≤ max_idle)).
Definition forget_peer (s : PeerScoring) (p : PeerId) : PeerScoring := (retain s (λ k _, negb (bool_decide (k.2 = p)))).1.

(** The entry of a key, made if there is none. *)
Definition touch (s : PeerScoring) (k : Key) (now : Z) (f : PeerScoreState → PeerScoreState) : PeerScoring :=
  set_inner s (<[k := f (default (state_new now) (inner s !! k))]> (inner s)).
Definition note_mesh_join (s : PeerScoring) (k : Key) (now : Z) : PeerScoring :=
  touch s k now (λ e, mkScore (match joined_mesh_at e with None => Some now | Some j => Some j end) (first_deliveries e) (delivery_deficit e) (invalid_messages e)
    (behavioral_penalty e) (last_decay_at e) now).

(** Evidence: the entry is decayed, its clock set, and one component grows. *)
Definition record (s : PeerScoring) (k : Key) (now : Z) (f : PeerScoreState → PeerScoreState) : PeerScoring :=
  touch s k now (λ e, let e := decay_to e now (decay_per_sec (config s)) in
    f (mkScore (joined_mesh_at e) (first_deliveries e) (delivery_deficit e) (invalid_messages e) (behavioral_penalty e) (last_decay_at e) now)).
Definition add_first (x : f64) (e : PeerScoreState) : PeerScoreState :=
  mkScore (joined_mesh_at e) (add (first_deliveries e) x) (delivery_deficit e) (invalid_messages e) (behavioral_penalty e) (last_decay_at e) (last_activity e).
Definition add_deficit (x : f64) (e : PeerScoreState) : PeerScoreState :=
  mkScore (joined_mesh_at e) (first_deliveries e) (add (delivery_deficit e) x) (invalid_messages e) (behavioral_penalty e) (last_decay_at e) (last_activity e).
Definition add_invalid (x : f64) (e : PeerScoreState) : PeerScoreState :=
  mkScore (joined_mesh_at e) (first_deliveries e) (delivery_deficit e) (add (invalid_messages e) x) (behavioral_penalty e) (last_decay_at e) (last_activity e).
Definition add_penalty (x : f64) (e : PeerScoreState) : PeerScoreState :=
  mkScore (joined_mesh_at e) (first_deliveries e) (delivery_deficit e) (invalid_messages e) (add (behavioral_penalty e) x) (last_decay_at e) (last_activity e).
Definition positive_amount (x : f64) : f64 := if is_finite x && ltb (of_Z 0) x then x else of_Z 0.

Definition record_first_delivery (s : PeerScoring) (k : Key) (now : Z) : PeerScoring := record s k now (add_first (of_Z 1)).
Definition record_mesh_pruned (s : PeerScoring) (k : Key) (now : Z) : PeerScoring := record s k now (add_deficit (of_Z 1)).
Definition record_delivery_deficit (s : PeerScoring) (k : Key) (amount : f64) (now : Z) : PeerScoring := record s k now (add_deficit (positive_amount amount)).
Definition record_invalid_message (s : PeerScoring) (k : Key) (now : Z) : PeerScoring := record s k now (add_invalid (of_Z 1)).
Definition record_behavioral_penalty (s : PeerScoring) (k : Key) (amount : f64) (now : Z) : PeerScoring := record s k now (add_penalty (positive_amount amount)).

Definition tick_decay (s : PeerScoring) (now : Z) : PeerScoring := set_inner s ((λ e, decay_to e now (decay_per_sec (config s))) <$> inner s).

Definition score (s : PeerScoring) (k : Key) (now : Z) : PeerScoring * f64 :=
  match inner s !! k with
  | Some e => let e := decay_to e now (decay_per_sec (config s)) in (set_inner s (<[k := e]> (inner s)), state_score e now (config s))
  | None => (s, of_Z 0)
  end.

(** [>=] and [<]: false on NaN. *)
Definition is_gossiped_by (s : PeerScoring) (x : f64) : bool := leb (gossip_threshold (config s)) x.
Definition is_publishable_by (s : PeerScoring) (x : f64) : bool := leb (publish_threshold (config s)) x.
Definition is_graylisted (s : PeerScoring) (x : f64) : bool := ltb x (graylist_threshold (config s)).

(** ** The snapshot

    [show_topic] and [show_peer] are the identifiers' [Display]. *)

Record PeerScoreV2Snapshot := mkRow {
  topic_id : string;
  peer_id : string;
  row_score : f64;
  p1_time_in_mesh_secs : f64;
  p2_first_deliveries : f64;
  p3b_delivery_deficit : f64;
  p4_invalid_messages : f64;
  p7_behavioral_penalty : f64;
  graylisted : bool;
  publishable : bool;
  gossiped : bool;
}.

Section Snapshot.
Context `{!HashIter Key PeerScoreState} (show_topic : TopicId → string) (show_peer : PeerId → string).

Definition row (s : PeerScoring) (now : Z) (kv : Key * PeerScoreState) : PeerScoreV2Snapshot :=
  let e := kv.2 in
  let x := state_score e now (config s) in
  mkRow (show_topic kv.1.1) (show_peer kv.1.2) x (p1_time e now (config s)) (first_deliveries e) (delivery_deficit e) (invalid_messages e) (behavioral_penalty e)
    (is_graylisted s x) (is_publishable_by s x) (is_gossiped_by s x).

(** [partial_cmp(..).unwrap_or(Equal)], then the two strings. *)
Definition by_worst (a b : PeerScoreV2Snapshot) : comparison :=
  match default Eq (SpecFloat.SFcompare (row_score a) (row_score b)) with
  | Eq => match String.compare (topic_id a) (topic_id b) with Eq => String.compare (peer_id a) (peer_id b) | c => c end
  | c => c
  end.
Definition snapshot (s : PeerScoring) (now : Z) : PeerScoring * list PeerScoreV2Snapshot :=
  (tick_decay s now, sort_by by_worst ((λ kv, row s now (kv.1, decay_to kv.2 now (decay_per_sec (config s)))) <$> hiter (inner s))).
Definition tracked_peer_count (s : PeerScoring) : nat := size (inner s).
End Snapshot.
End Scoring.
End PeerScoring.
