(* ===== verification/PeerScoringProps.v ===== *)
(** * Peer scores per topic: the properties

    Which entries the engine keeps and what it knows of the join, as a function
    of the evidence alone; and what a snapshot shows. *)

From S2P Require Import Prelude Types Float64 PeerTiming PeerScoring.
Import F64 PeerScoring.

#[local] Open Scope Z_scope.

Module PeerScoringProps.
Notation Key := (TopicId * PeerId)%type.

Section Scoring.
Context `{Libm}.

(** ** Runs *)

Inductive SOp :=
| SJoin (k : Key) (now : Z)
| SFirst (k : Key) (now : Z)
| SPruned (k : Key) (now : Z)
| SDeficit (k : Key) (amount : f64) (now : Z)
| SInvalid (k : Key) (now : Z)
| SBehaviour (k : Key) (amount : f64) (now : Z)
| STick (now : Z)
| SScore (k : Key) (now : Z)
| SSnapshot (now : Z)
| SRetain (live : gset Key) (now max_idle : Z)
| SRemoveTopic (t : TopicId)
| SForget (p : PeerId).

(** A snapshot leaves the engine as [tick_decay] does. *)
Definition sexec (s : PeerScoring) (o : SOp) : PeerScoring :=
  match o with
  | SJoin k now => note_mesh_join s k now
  | SFirst k now => record_first_delivery s k now
  | SPruned k now => record_mesh_pruned s k now
  | SDeficit k x now => record_delivery_deficit s k x now
  | SInvalid k now => record_invalid_message s k now
  | SBehaviour k x now => record_behavioral_penalty s k x now
  | STick now | SSnapshot now => tick_decay s now
  | SScore k now => (score s k now).1
  | SRetain live now max_idle => (retain_active_at s live now max_idle).1
  | SRemoveTopic t => (remove_topic s t).1
  | SForget p => forget_peer s p
  end.

(** ** The specification

    Of a key: the time of its last evidence, and of the first join since it is
    tracked.  Reading the scores does not appear. *)
Notation Trace := (option (Z * option Z)).
Definition evidence (now : Z) (x : Trace) : Trace := Some (now, x ≫= snd).
Definition sstep (k : Key) (x : Trace) (o : SOp) : Trace :=
  match o with
  | SJoin k' now => if decide (k' = k) then Some (now, Some (default now (x ≫= snd))) else x
  | SFirst k' now | SPruned k' now | SDeficit k' _ now | SInvalid k' now | SBehaviour k' _ now => if decide (k' = k) then evidence now x else x
  | SRetain live now max_idle => y ← x; if decide (k ∈ live ∨ elapsed_ns now y.1 ≤ max_idle) then Some y else None
  | SRemoveTopic t => if decide (k.1 = t) then None else x
  | SForget p => if decide (k.2 = p) then None else x
  | STick _ | SScore _ _ | SSnapshot _ => x
  end.

Definition trace (e : PeerScoreState) : Z * option Z := (last_activity e, joined_mesh_at e).
Notation traced s k := (trace <$> (inner s !! k)).

Lemma decay_trace (e : PeerScoreState) (now : Z) (d : f64) : trace (decay_to e now d) = trace e.
Proof. unfold decay_to. by destruct (bool_decide _). Qed.

Lemma touch_trace (s : PeerScoring) (k k' : Key) (now : Z) (f : PeerScoreState → PeerScoreState) :
  traced (touch s k' now f) k = if decide (k' = k) then Some (trace (f (default (state_new now) (inner s !! k)))) else traced s k.
Proof. unfold touch. cbn. rewrite lookup_insert. by case_decide as Hk; [subst k'|]. Qed.

Lemma default_join (s : PeerScoring) (k : Key) (now : Z) : (trace (default (state_new now) (inner s !! k))).2 = traced s k ≫= snd.
Proof. by destruct (inner s !! k). Qed.

Lemma record_trace (s : PeerScoring) (k k' : Key) (now : Z) (f : PeerScoreState → PeerScoreState) : (∀ e, trace (f e) = trace e) →
  traced (record s k' now f) k = if decide (k' = k) then evidence now (traced s k) else traced s k.
Proof.
  intros Hf. unfold record. rewrite touch_trace. case_decide; [|done]. rewrite Hf. unfold evidence. f_equal. unfold trace at 1. cbn. f_equal.
  rewrite <-(default_join s k now), <-(decay_trace _ now (decay_per_sec (config s))). done.
Qed.

Lemma retain_trace (s : PeerScoring) (keep : Key → PeerScoreState → bool) (k : Key) :
  traced (retain s keep).1 k = e ← inner s !! k; if keep k e then Some (trace e) else None.
Proof.
  unfold retain. cbn. destruct (inner s !! k) as [e|] eqn:He; cbn.
  - destruct (keep k e) eqn:Hk.
    + by rewrite (proj2 (map_lookup_filter_Some _ _ _ _) (conj He Hk)).
    + rewrite (proj2 (map_lookup_filter_None _ _ _)); [done|]. right. intros e' He'. cbn. congruence.
  - by rewrite (proj2 (map_lookup_filter_None _ _ _)); [|by left].
Qed.

Lemma sexec_trace (s : PeerScoring) (o : SOp) (k : Key) : traced (sexec s o) k = sstep k (traced s k) o.
Proof.
  destruct o; cbn [sexec sstep].
  1: { unfold note_mesh_join. rewrite touch_trace. case_decide; [|done]. unfold trace at 1. cbn. do 2 f_equal. rewrite <-(default_join s k now). cbn.
       by destruct (joined_mesh_at _). }
  1-5: by apply record_trace.
  1, 3: unfold tick_decay; cbn; rewrite lookup_fmap; destruct (inner s !! k); cbn; by rewrite ?decay_trace.
  - unfold score. destruct (inner s !! k0) as [e|] eqn:He; [|done]. cbn. rewrite lookup_insert. case_decide as Hk; [|done]. subst k0. by rewrite He; cbn; rewrite decay_trace.
  - unfold retain_active_at. rewrite retain_trace. destruct (inner s !! k) as [e|]; [|done]. cbn.
    case_decide as Hd; cbn in Hd.
    + assert (Hk : bool_decide (k ∈ live) || bool_decide (elapsed_ns now (last_activity e) ≤ max_idle) = true) by (apply orb_true_iff; by rewrite !bool_decide_eq_true). by rewrite Hk.
    + by rewrite !bool_decide_false by tauto.
  - unfold remove_topic. rewrite retain_trace. destruct (inner s !! k) as [e|]; cbn; [|by case_decide]. case_bool_decide; by case_decide.
  - unfold forget_peer. rewrite retain_trace. destruct (inner s !! k) as [e|]; cbn; [|by case_decide]. case_bool_decide; by case_decide.
Qed.

(** C37. The scores follow the evidence.  After any run of the engine a topic and
    peer has an entry exactly when the specification tracks it, with the time of
    its last evidence and of its first join since: polling scores and snapshots,
    however often, neither keeps an idle entry alive nor ages a live one, so
    that the idle sweep removes exactly the pairs outside the mesh without
    evidence in its window. *)
Theorem scores_follow_evidence (c : PeerScoringConfig) (os : list SOp) (k : Key) :
  traced (foldl sexec (with_config c) os) k = foldl (sstep k) None os.
Proof.
  induction os as [|o os IH] using rev_ind; [cbn; by rewrite lookup_empty|]. by rewrite !foldl_app; cbn; rewrite sexec_trace, IH.
Qed.

(** ** Snapshots *)

(** The time in the mesh that counts is capped. *)
Lemma p1_capped (e : PeerScoreState) (now : Z) (c : PeerScoringConfig) :
  is_nan (p1_time_cap_secs c) = false → ltb (p1_time_cap_secs c) (of_Z 0) = false → ltb (p1_time_cap_secs c) (p1_time e now c) = false.
Proof.
  intros Hn Hc. unfold p1_time. destruct (joined_mesh_at e) as [j|]; [|exact Hc]. unfold fmin. destruct (is_nan (as_secs_f64 _)); [apply ltb_irrefl|]. rewrite Hn.
  destruct (ltb (p1_time_cap_secs c) (as_secs_f64 _)) eqn:Hl; [apply ltb_irrefl|done].
Qed.

(** One row per entry, with its values as of now. *)
Lemma snapshot_rows `{!HashIter Key PeerScoreState} (show_topic : TopicId → string) (show_peer : PeerId → string) (s : PeerScoring) (now : Z) :
  (snapshot show_topic show_peer s now).2 ≡ₚ row show_topic show_peer s now <$> map_to_list (inner (tick_decay s now)).
Proof.
  unfold snapshot, tick_decay. cbn [snd inner set_inner]. rewrite sort_by_perm, map_to_list_fmap, hiter_perm, <-list_fmap_compose. apply reflexive_eq.
  apply list_fmap_ext. by intros i [k e] _.
Qed.
End Scoring.
End PeerScoringProps.
