(* ===== verification/SendLayer.v ===== *)
(** * The send layer of pub-sub ([crates/pubsub/src/lib.rs])

    What stands between a message and the transport: the intent key under which
    its bytes are charged, the byte reservation, the admission gate with its Bulk
    depth, the claim on the peer's cooling state and outbound permit, the send
    with its time-outs, and the booking of results -- for one send
    ([send_to_peer_bounded_outcome_tracked]) and for a fan-out
    ([parallel_send_to_peers]), and for the rounds of the background tasks: the
    IHAVE flush, the anti-entropy digest, the retry of a stranded publish.  A send
    that carries a claimed EAGER reply is in [EagerReply.v]; the flusher's IWANT
    retries and late offers, which differ in what they book, are in [Plumtree.v].
    (The gate of critical data is open to what is not critical data: a time-out
    there is possible in the model for every send.)

    A call is a [Thread] between two of its critical sections; [exec] lets any
    thread move, so what the threads share ([Shared]) is shared as in the node.
    What a section reads outside the layer -- clock, health and connection
    snapshots, the outbound permit (its component is [SendBudget.v]), the fate
    of a frame at the transport -- is an argument of the step. *)

From S2P Require Import Prelude Types Float64 MessageCache PeerTiming TopicMesh Announce EagerReply Identity Plumtree KeyCodec SendBudget Admission Egress EgressProps.
Import F64 Timing MessageCache TopicMesh Announce EagerReply.

#[local] Open Scope Z_scope.

Module SendLayer.

(** ** Outcomes *)

Inductive PeerSendOutcome := OSent | OTimedOut | ONotConnected | ODeferred | OError.
Inductive ClaimSkipReason := TransportDisconnected | Cooling | Budget.
Inductive FanoutPeerStage := ByteRejected | AdmissionDropped | ClaimSkipped (r : ClaimSkipReason) | Attempted.

#[global] Instance ClaimSkipReason_eq_dec : EqDecision ClaimSkipReason.
Proof. solve_decision. Defined.

Record SendClaimSkips := mkSkips { transport_disconnected : nat; cooling : nat; budget_exhausted : nat }.
Definition no_skips : SendClaimSkips := mkSkips 0 0 0.
Definition add_skip (s : SendClaimSkips) (r : ClaimSkipReason) : SendClaimSkips :=
  match r with
  | TransportDisconnected => mkSkips (S (transport_disconnected s)) (cooling s) (budget_exhausted s)
  | Cooling => mkSkips (transport_disconnected s) (S (cooling s)) (budget_exhausted s)
  | Budget => mkSkips (transport_disconnected s) (cooling s) (S (budget_exhausted s))
  end.
Definition primary_reason (s : SendClaimSkips) : ClaimSkipReason :=
  if decide (0 < budget_exhausted s)%nat then Budget
  else if decide (0 < cooling s)%nat then Cooling
  else if decide (0 < transport_disconnected s)%nat then TransportDisconnected
  else Budget.

Record FanoutCounts := mkFanout {
  candidates : nat;
  byte_rejected : nat;
  admission_dropped : nat;
  claim_skipped : nat;
  claim_skipped_disconnected : nat;
  claim_skipped_cooling : nat;
  claim_skipped_budget : nat;
  attempted : nat;
  succeeded : nat;
}.

(** ** Health and connections *)

Definition effective_health_for_admission (priority : TopicPriority) (health : option PeerHealth) (connected : option bool) : option PeerHealth :=
  if bool_decide (priority = Normal ∧ (health = Some HealthSuspect ∨ health = Some HealthDead) ∧ connected = Some true) then None else health.
(** [None]: there is no snapshot. *)
Definition transport_connected_for_peer (snapshot : option (gset PeerId)) (p : PeerId) : option bool := (λ s, bool_decide (p ∈ s)) <$> snapshot.

(** ** Intents *)

Section Intent.
Context `{Hashes} `{Postcard}.

(** The message of a frame, if it is one. *)
Definition intent_message (bytes : list Z) : option Plumtree.GossipMessage :=
  if KeyCodec.is_v3 bytes then
    match KeyCodec.decode bytes with Ok (KeyCodec.DecodedFull m _) | Ok (KeyCodec.DecodedRef m _) => Some m | Err _ => None end
  else '(m, trailing) ← KeyCodec.get_gossip bytes; if bool_decide (trailing = []) then Some m else None.

Definition recovery_intent_key (topic : TopicId) (p : PeerId) (op : string) (bytes : list Z) : Egress.RecoveryIntentKey :=
  let hashed := topic_bytes topic ++ peer_bytes p ++ bytes_of_string op in
  match intent_message bytes with
  | Some m =>
      let family := hashed ++ msg_id (Plumtree.gm_header m) in
      let operation := family ++ match Plumtree.gm_payload m with Some payload => blake3 payload | None => [] end
        ++ (if KeyCodec.is_v3 bytes then KeyCodec.WIRE_MARKER ++ u64_to_le_bytes (KeyCodec.len bytes) else []) in
      Egress.mkKey (peer_bytes p) (topic_bytes topic) (blake3 family) (blake3 operation)
  | None =>
      let key := hashed ++ blake3 bytes in
      Egress.mkKey (peer_bytes p) (topic_bytes topic) (blake3 key) (blake3 key)
  end.
End Intent.

(** ** State *)

(** A frame: its label, the encoded message, what the policy transport makes of
    it for each peer ([CompatEgress.v]), and whether this node authored it
    ([local_origin]; a fan-out that detaches its accounting is a relay). *)
Record Frame := mkFrame { f_topic : TopicId; f_op : string; f_message : list Z; f_wire : PeerId → list Z; f_local : bool }.

Record Job := mkJob { j_peer : PeerId; j_frame : Frame; j_prio : TopicPriority }.

(** A send task: before the critical gate and the transport fence, at the
    transport, finished. *)
Inductive SendTask := KGate (r : option Egress.ByteReservation) | KFly | KDone (r : SendResult).

(** One send: waiting for bytes, before the cooling lookup, before the admission
    gate, before the claim, with an attempt. *)
Inductive Stage :=
| SWait (gen : Z) (class : Egress.RecoveryClass)
| SCool (r : option Egress.ByteReservation)
| SAdmit (r : option Egress.ByteReservation) (cooled : bool)
| SClaim (r : option Egress.ByteReservation)
| SSend (a : PeerSendAttempt) (k : SendTask).
Definition Res : Type := PeerSendOutcome * FanoutPeerStage.

(** A fan-out: its frame, the priority read at its start, how many peers it was
    called with, whether its bytes may be shed, and its reservations. *)
Record Fan := mkFan { fan_frame : Frame; fan_prio : TopicPriority; fan_candidates : nat; fan_shed : bool; fan_res : gmap PeerId Egress.ByteReservation }.

(** The counts of a Critical fan-out under an enforcing limiter. *)
Record Tally := mkTally {
  t_attempted : list PeerId;
  t_succeeded : nat;
  t_deferred : list PeerId;
  t_rejected : nat;
  t_dropped : nat;
  t_skipped : nat;
  t_skips : SendClaimSkips;
}.
Definition tally_new : Tally := mkTally [] 0 [] 0 0 0 no_skips.

(** What a background task sends: the IHAVE batch of a flush, the digest of an
    anti-entropy round, a stranded publish once more (its custody is in
    [Plumtree.v]). *)
Inductive Back := BFlush (w : Work) | BDigest | BRetry.

Inductive Thread :=
| TSingle (j : Job) (st : Stage)
(** The sends of such a fan-out ([None]: not polled yet), then its withheld
    announcement. *)
| TSeq (c : Fan) (kids : list (PeerId * option (Job * Stage))) (t : Tally)
| TSeqWithhold (c : Fan) (t : Tally)
(** Any other: the reservations one by one, the withheld announcement, the
    cooling lookup, the admissions one by one, the claims, the retained
    announcement, the sends. *)
| FReserve (c : Fan) (todo peers deferred : list PeerId)
| FWithhold (c : Fan) (peers deferred : list PeerId)
| FCool (c : Fan) (peers : list PeerId)
| FAdmit (c : Fan) (rejected : nat) (cooled : list PeerId) (connected : option (gset PeerId)) (todo admitted : list PeerId)
| FClaim (c : Fan) (rejected : nat) (admitted : list PeerId)
| FAnnounce (c : Fan) (rejected : nat) (admitted : list PeerId) (attempts : list PeerSendAttempt) (skips : SendClaimSkips)
| FSend (c : Fan) (admitted : list PeerId) (counts : FanoutCounts) (tasks : list (PeerSendAttempt * SendTask))
(** A background round: the reservations one by one, admission and claims in one
    section, the sends, the booking of a flush. *)
| BReserve (c : Fan) (b : Back) (todo peers deferred : list PeerId)
| BClaim (c : Fan) (b : Back) (peers deferred : list PeerId)
| BSend (c : Fan) (b : Back) (bulk deferred : list PeerId) (tasks : list (PeerSendAttempt * SendTask))
| BBook (c : Fan) (w : Work) (bulk deferred sent : list PeerId)
(** Claims dropped while armed: the probes are booked as timed out. *)
| TDrop (topic : TopicId) (probes : list PeerSendAttempt).

Inductive Done :=
| DoneSend (j : Job) (r : Res)
| DoneFan (c : Fan) (counts : FanoutCounts) (attempted_peers : list PeerId)
(** A background round: who accepted the frame, and for whom Bulk depth was taken
    and is not given back. *)
| DoneBack (c : Fan) (b : Back) (sent leaked : list PeerId).

(** What the threads share. *)
Record Shared `{!LruCache MessageIdType CachedEntry} := mkShared {
  adm : Admission.AdmissionControl;
  lim : Egress.LeafEgressLimiter;
  topics : gmap TopicId Topic;
  next_probe : Z;
  wire : list (PeerId * list Z);
}.

Section Layer.
Context `{Hashes} `{Postcard} `{Libm} `{!SetIter PeerId} `{!LruCache MessageIdType CachedEntry}.
Context `{!HashIter Egress.RecoveryIntentKey Egress.Intent} `{!HashIter Egress.Id Z} (cooling_config : AdaptiveCoolingConfig).

Definition set_adm (s : Shared) (x : Admission.AdmissionControl) : Shared := mkShared _ x (lim s) (topics s) (next_probe s) (wire s).
Definition set_lim (s : Shared) (x : Egress.LeafEgressLimiter) : Shared := mkShared _ (adm s) x (topics s) (next_probe s) (wire s).
Definition set_topics (s : Shared) (x : gmap TopicId Topic) (i : Z) : Shared := mkShared _ (adm s) (lim s) x i (wire s).
Definition set_topic (s : Shared) (t : TopicId) (x : Topic) : Shared := set_topics s (<[t := x]> (topics s)) (next_probe s).
Definition transmit (s : Shared) (p : PeerId) (bytes : list Z) : Shared := mkShared _ (adm s) (lim s) (topics s) (next_probe s) (wire s ++ [(p, bytes)]).

(** *** Frames *)

Definition frame_id (fr : Frame) : option MessageIdType := '(m, _) ← KeyCodec.get_gossip (f_message fr); Some (msg_id (Plumtree.gm_header m)).
Definition f_key (fr : Frame) (p : PeerId) : Egress.RecoveryIntentKey := recovery_intent_key (f_topic fr) p (f_op fr) (f_wire fr p).
Definition f_len (fr : Frame) (p : PeerId) : Z := KeyCodec.len (f_wire fr p).
Definition eager (fr : Frame) : bool := bool_decide (f_op fr = "EAGER"%string).
Definition is_data (fr : Frame) : bool := bool_decide (SendBudget.for_op (f_op fr) = SendBudget.Data).
Definition priority (s : Shared) (fr : Frame) : TopicPriority := Admission.priority_for (Admission.registry (adm s)) (f_topic fr).

Definition count (s : Shared) (f : Admission.AdmissionStats → Admission.AdmissionStats) : Shared :=
  set_adm s (Admission.with_stats (adm s) (f (Admission.stats (adm s)))).

(** *** Bulk depth *)

(** [BulkAdmissionGuard], [BulkAdmissionSetGuard]: what a guard releases when it
    is dropped. *)
Definition guarded (prio : TopicPriority) (l : list PeerId) : list PeerId := if bool_decide (prio = Bulk) then l else [].
Definition drop_guard (s : Shared) (l : list PeerId) : Shared := set_adm s (foldl Admission.release_bulk (adm s) l).

Definition single_held (j : Job) (st : Stage) : list PeerId :=
  match st with SClaim _ | SSend _ _ => guarded (j_prio j) [j_peer j] | _ => [] end.
Definition kid_held (k : PeerId * option (Job * Stage)) : list PeerId := match k.2 with Some (j, st) => single_held j st | None => [] end.
Definition held (x : Thread) : list PeerId :=
  match x with
  | TSingle j st => single_held j st
  | TSeq _ kids _ => concat (kid_held <$> kids)
  | FAdmit c _ _ _ _ admitted | FClaim c _ admitted | FAnnounce c _ admitted _ _ | FSend c admitted _ _ => guarded (fan_prio c) admitted
  | BSend _ _ bulk _ _ | BBook _ _ bulk _ _ => bulk
  | _ => []
  end.

(** *** Bytes *)

Definition charge (s : Shared) (fr : Frame) (p : PeerId) (charged : bool) : Shared :=
  set_lim s (Egress.record_purpose_demand (lim s) (topic_bytes (f_topic fr)) (f_op fr) (f_len fr p) charged).
(** A reservation that is never denied. *)
Definition protect (s : Shared) (fr : Frame) (p : PeerId) (now : Z) : Shared * option Egress.ByteReservation :=
  let '(l, r) := Egress.reserve_protected (lim s) (f_key fr p) (f_len fr p) (negb (f_local fr)) now in (set_lim s l, r).

(** The end of the wait: the demand is booked. *)
Definition reserved (s : Shared) (j : Job) (res : result Egress.ByteReservation Egress.ReserveError) : Shared * (Stage + Res) :=
  (charge s (j_frame j) (j_peer j) (is_ok res),
   match res with
   | Ok r => inl (SCool (Some r))
   | Err Egress.Disabled => inl (SCool None)
   | Err Egress.Deferred | Err Egress.WaiterLimit | Err Egress.Reconfigured => inr (ODeferred, ByteRejected)
   | Err Egress.Oversized | Err Egress.IntentLimit => inr (OError, ByteRejected)
   end).

Definition wait_class (j : Job) : Egress.RecoveryClass :=
  if bool_decide (j_prio j = Critical) && eager (j_frame j) then Egress.CriticalEager else Egress.Ordinary.
Definition protected_send (s : Shared) (j : Job) : bool := negb (Egress.enforcing (lim s)) || bool_decide (j_prio j = Critical) || f_local (j_frame j).

(** A send up to its first await. *)
Definition single_start (s : Shared) (p : PeerId) (fr : Frame) (now : Z) : Job * Shared * (Stage + Res) :=
  let j := mkJob p fr (priority s fr) in
  if negb (Egress.enabled (lim s)) then (j, s, inl (SCool None))
  else if protected_send s j then
    let '(s, r) := protect (charge s fr p true) fr p now in (j, s, inl (SCool r))
  else
    match Egress.reserve_recovery_enter (lim s) (f_key fr p) (wait_class j) with
    | Ok (l, gen) => (j, set_lim s l, inl (SWait gen (wait_class j)))
    | Err e => let '(s, x) := reserved s j (Err e) in (j, s, x)
    end.

(** [reserve_recovery_class] leaves its wait. *)
Definition wait_exit (s : Shared) (j : Job) (gen : Z) (class : Egress.RecoveryClass)
    (outcome : option (result Egress.ByteReservation Egress.ReserveError)) : Shared * result Egress.ByteReservation Egress.ReserveError :=
  let '(l, res) := Egress.reserve_recovery_exit (lim s) (f_key (j_frame j) (j_peer j)) gen class outcome false in (set_lim s l, res).
Definition wait_poll (s : Shared) (j : Job) (gen : Z) (class : Egress.RecoveryClass) (now : Z) : Shared * (Stage + Res) :=
  let '(l, res) := Egress.try_reserve_recovery_at_class (lim s) (f_key (j_frame j) (j_peer j)) (f_len (j_frame j) (j_peer j)) gen now class in
  let s := set_lim s l in
  match res with
  | Err Egress.Deferred => (s, inl (SWait gen class))
  | _ => let '(s, res) := wait_exit s j gen class (Some res) in reserved s j res
  end.

(** *** Claims *)

(** One peer of a claim, with the reason when it is skipped. *)
Definition claim_peer (s : Shared) (fr : Frame) (prio : TopicPriority) (now : Z) (conn : option bool) (granted : bool) (p : PeerId) :
    Shared * (PeerSendAttempt + ClaimSkipReason) :=
  let critical_data := bool_decide (prio = Critical) && is_data fr in
  let budget s := (if critical_data then count s Admission.record_critical_hard_error else s, inr Budget) in
  match topics s !! f_topic fr with
  | Some st =>
      let '(m, i, a) := claim_one (mesh st) (next_probe s) p now critical_data conn granted in
      let s' := set_topics s (<[f_topic fr := set_mesh st m]> (topics s)) i in
      match a with
      | Some a => (s', inl a)
      | None =>
          if bool_decide (conn = Some false) then (s', inr TransportDisconnected)
          else if bool_decide ((claim_send_attempt_at_for (mesh st) (next_probe s) p now critical_data).2 = None) then (s', inr Cooling)
          else budget s'
      end
  | None =>
      if bool_decide (conn = Some false) then (s, inr TransportDisconnected)
      else if granted then (s, inl (mkAttempt p SendAttemptKind.Normal None))
      else budget s
  end.

(** All peers of a claim, under one lock; [view] is what the snapshot and the
    budgets say at each position. *)
Fixpoint claim_all (s : Shared) (fr : Frame) (prio : TopicPriority) (now : Z) (view : nat → option bool * bool) (peers : list PeerId)
    (acc : list PeerSendAttempt * SendClaimSkips) : Shared * list PeerSendAttempt * SendClaimSkips :=
  match peers with
  | [] => (s, acc.1, acc.2)
  | p :: peers =>
      let '(s, r) := claim_peer s fr prio now (view 0%nat).1 (view 0%nat).2 p in
      claim_all s fr prio now (λ i, view (S i)) peers
        match r with inl a => (acc.1 ++ [a], acc.2) | inr why => (acc.1, add_skip acc.2 why) end
  end.
Definition claim_topic_send_attempts (s : Shared) (fr : Frame) (now : Z) (view : nat → option bool * bool) (peers : list PeerId) :
    Shared * list PeerSendAttempt * SendClaimSkips := claim_all s fr (priority s fr) now view peers ([], no_skips).

(** What a Critical control send without an attempt books. *)
Definition control_skip (s : Shared) (j : Job) (skips : SendClaimSkips) : Shared :=
  if bool_decide (j_prio j = Critical) && negb (is_data (j_frame j)) then
    count s (if decide (0 < budget_exhausted skips)%nat then Admission.record_critical_hard_error
             else if decide (0 < cooling skips)%nat then Admission.record_critical_cooling
             else if decide (0 < transport_disconnected skips)%nat then Admission.record_critical_no_target
             else Admission.record_critical_hard_error)
  else s.

(** *** Sends *)

Inductive TaskEvent := Engaged | GateTimeout | Answer (r : SendResult) | Panicked.

(** The results a transport send can have. *)
Definition transport_result (r : SendResult) : bool := match r with RSent | RTimedOut | RNotConnected | RError => true | _ => false end.

Definition is_sent (r : SendResult) : bool := match r with RSent => true | _ => false end.

Definition task_step (s : Shared) (fr : Frame) (p : PeerId) (k : SendTask) (ev : TaskEvent) : option (Shared * SendTask) :=
  match k, ev with
  | KGate _, GateTimeout => Some (s, KDone RTimedOut)
  | KGate r, Engaged =>
      let key := if Egress.enabled (lim s) || bool_decide (is_Some r) then Some (f_key fr p) else None in
      let '(l, valid) := Egress.validate_reservation (lim s) key r in
      let s := set_lim s l in
      Some (if valid then (transmit s p (f_wire fr p), KFly) else (s, KDone RError))
  | KFly, Answer r =>
      if transport_result r then
        Some (set_lim s (Egress.record_send_outcome (lim s) (topic_bytes (f_topic fr)) (f_op fr) (f_len fr p) (is_sent r)), KDone r)
      else None
  | KGate _, Panicked | KFly, Panicked => Some (s, KDone RPanicked)
  | _, _ => None
  end.

(** [record_topic_send_attempt_results_for_state]; [None] is a panic. *)
Definition book (s : Shared) (t : TopicId) (r : SendAttemptResults) (health : PeerId → option PeerHealth) (now : Z) : option Shared :=
  match topics s !! t with
  | Some st => st ← book_topic_send_attempt_results cooling_config health st r now; Some (set_topic s t st)
  | None => Some s
  end.

Definition outcome_of (r : SendResult) : PeerSendOutcome :=
  match r with RSent => OSent | RTimedOut => OTimedOut | RNotConnected => ONotConnected | RDeferred => ODeferred | RError | RPanicked => OError end.

(** *** One send *)

Inductive Event :=
| EPoll (now : Z)
| EDeadline
| ECool (now : Z)
| EAdmit (health : option PeerHealth) (conn : option bool)
| EClaim (now : Z) (conn : option bool) (granted : bool)
| ETask (ev : TaskEvent)
| EBook (now : Z) (health : PeerId → option PeerHealth).

(** Whether admission sees the peer as cooling. *)
Definition is_peer_currently_suppressed (s : Shared) (fr : Frame) (p : PeerId) (now : Z) : bool :=
  match topics s !! f_topic fr with Some st => is_peer_cooled_for_admission_at (mesh st) p now | None => false end.
Definition admit_raw (s : Shared) (fr : Frame) (p : PeerId) (health : option PeerHealth) (cooled : bool) : Shared * bool :=
  let '(a, d) := Admission.admit_ (adm s) (f_topic fr) p health cooled in
  (set_adm s a, match d with Admit => true | Drop _ => false end).
Definition admit_peer (s : Shared) (fr : Frame) (prio : TopicPriority) (p : PeerId) (health : option PeerHealth) (conn : option bool) (cooled : bool) :
    Shared * bool := admit_raw s fr p (effective_health_for_admission prio health conn) cooled.

(** One section of a send: it moves to another stage or ends with a result.
    [None]: not a step of the stage, or a panic. *)
Definition single_step (s : Shared) (j : Job) (st : Stage) (ev : Event) : option (Shared * (Stage + Res)) :=
  let fr := j_frame j in
  let p := j_peer j in
  match st, ev with
  | SWait gen class, EPoll now => Some (wait_poll s j gen class now)
  | SWait gen class, EDeadline => let '(s, res) := wait_exit s j gen class None in Some (reserved s j res)
  | SCool r, ECool now => Some (s, inl (SAdmit r (is_peer_currently_suppressed s fr p now)))
  | SAdmit r cooled, EAdmit health conn =>
      let '(s, ok) := admit_peer s fr (j_prio j) p health conn cooled in
      Some (s, if ok then inl (SClaim r) else inr (ODeferred, AdmissionDropped))
  | SClaim r, EClaim now conn granted =>
      let '(s, attempts, skips) := claim_topic_send_attempts s fr now (λ _, (conn, granted)) [p] in
      match attempts with
      | a :: _ => Some (s, inl (SSend a (KGate r)))
      | [] => Some (drop_guard (control_skip s j skips) (single_held j st), inr (ODeferred, ClaimSkipped (primary_reason skips)))
      end
  | SSend a (KDone r), EBook now health =>
      s ← book s (f_topic fr) (tracked_booking a r).2 health now;
      Some (drop_guard s (single_held j st), inr (outcome_of r, Attempted))
  | SSend a k, ETask ev => '(s, k) ← task_step s fr p k ev; Some (s, inl (SSend a k))
  | _, _ => None
  end.

(** The future of a send is dropped. *)
Definition single_cancel (s : Shared) (j : Job) (st : Stage) : Shared :=
  match st with
  | SWait gen class => (wait_exit s j gen class (Some (Err Egress.Deferred))).1
  | _ => drop_guard s (single_held j st)
  end.
Definition probes_of (attempts : list PeerSendAttempt) : list PeerSendAttempt := a ← attempts; recovery_probe_timeout a.
Definition single_probes (st : Stage) : list PeerSendAttempt := match st with SSend a _ => probes_of [a] | _ => [] end.

(** *** Critical fan-outs *)

Definition push_deferred (t : Tally) (p : PeerId) (rejected dropped skipped : nat) (skips : SendClaimSkips) : Tally :=
  mkTally (t_attempted t) (t_succeeded t) (t_deferred t ++ [p]) rejected dropped skipped skips.
Definition tally (t : Tally) (p : PeerId) (r : Res) : Tally :=
  match r.2 with
  | ByteRejected => push_deferred t p (S (t_rejected t)) (t_dropped t) (t_skipped t) (t_skips t)
  | AdmissionDropped => push_deferred t p (t_rejected t) (S (t_dropped t)) (t_skipped t) (t_skips t)
  | ClaimSkipped why => push_deferred t p (t_rejected t) (t_dropped t) (S (t_skipped t)) (add_skip (t_skips t) why)
  | Attempted =>
      mkTally (t_attempted t ++ [p]) (match r.1 with OSent => S (t_succeeded t) | _ => t_succeeded t end)
        (t_deferred t) (t_rejected t) (t_dropped t) (t_skipped t) (t_skips t)
  end.
Definition tally_counts (c : Fan) (t : Tally) : FanoutCounts :=
  mkFanout (fan_candidates c) (t_rejected t) (t_dropped t) (t_skipped t) (transport_disconnected (t_skips t)) (cooling (t_skips t))
    (budget_exhausted (t_skips t)) (length (t_attempted t)) (t_succeeded t).

(** *** Fan-outs *)

Definition with_queues (st : Topic) (q : Queues) : Topic := mkTopic (mesh st) q (cache st) (deferred_eager_replies st) (eager_reply_claims st).
Definition withhold (s : Shared) (fr : Frame) (peers : list PeerId) : Shared :=
  match frame_id fr, topics s !! f_topic fr with
  | Some id, Some st => set_topic s (f_topic fr) (with_queues st (queue_lazy_withheld (queues st) id peers false))
  | _, _ => s
  end.
Definition retain (s : Shared) (fr : Frame) (peers : list PeerId) (now : Z) : Shared :=
  match frame_id fr, topics s !! f_topic fr with
  | Some id, Some st => set_topic s (f_topic fr) (with_queues st (queue_retained_announce (queues st) id peers now))
  | _, _ => s
  end.

(** One peer of byte admission. *)
Definition add_reservation (c : Fan) (p : PeerId) (r : Egress.ByteReservation) : Fan :=
  mkFan (fan_frame c) (fan_prio c) (fan_candidates c) (fan_shed c) (<[p := r]> (fan_res c)).
Definition reserve_one (s : Shared) (c : Fan) (p : PeerId) (now : Z) : Shared * Fan * bool :=
  let fr := fan_frame c in
  if negb (fan_shed c) then
    let '(s, r) := protect s fr p now in
    (charge s fr p true, match r with Some r => add_reservation c p r | None => c end, true)
  else
    let '(l, res) := Egress.try_reserve_data (lim s) (f_key fr p) (f_len fr p) (negb (f_local fr)) now in
    let s := charge (set_lim s l) fr p (is_ok res) in
    match res with
    | Ok r => (s, add_reservation c p r, true)
    | Err Egress.Disabled => (s, c, true)
    | Err _ => (s, c, false)
    end.

(** The start of a fan-out. *)
Definition fan_start (s : Shared) (fr : Frame) (peers : list PeerId) : Thread :=
  let prio := priority s fr in
  let enforcing := Egress.enforcing (lim s) in
  let critical := bool_decide (prio = Critical) in
  let c := mkFan fr prio (length peers) (enforcing && negb (f_local fr) && negb critical) ∅ in
  if enforcing && critical && eager fr && f_local fr then TSeq c ((λ p, (p, None)) <$> peers) tally_new
  else if Egress.enabled (lim s) then FReserve c peers [] []
  else FCool c peers.

Fixpoint spawn_bounded_send_tasks (reservations : gmap PeerId Egress.ByteReservation) (attempts : list PeerSendAttempt) :
    list (PeerSendAttempt * SendTask) :=
  match attempts with
  | [] => []
  | a :: attempts => (a, KGate (reservations !! at_peer a)) :: spawn_bounded_send_tasks (delete (at_peer a) reservations) attempts
  end.

(** The end of the claim: the counts, and the sends if there are attempts. *)
Definition fan_counts (c : Fan) (rejected : nat) (admitted : list PeerId) (attempts : list PeerSendAttempt) (skips : SendClaimSkips) (sent : nat) : FanoutCounts :=
  mkFanout (fan_candidates c) rejected (fan_candidates c - rejected - length admitted) (length admitted - length attempts)
    (transport_disconnected skips) (cooling skips) (budget_exhausted skips) (length attempts) sent.
Definition set_succeeded (f : FanoutCounts) (n : nat) : FanoutCounts :=
  mkFanout (candidates f) (byte_rejected f) (admission_dropped f) (claim_skipped f) (claim_skipped_disconnected f) (claim_skipped_cooling f)
    (claim_skipped_budget f) (attempted f) n.

(** [collect_results] pops the tasks from the end. *)
Fixpoint collect_all (tasks : list (PeerSendAttempt * SendTask)) : option SendAttemptResults :=
  match tasks with
  | [] => Some (mkResults [] [] [])
  | (a, KDone r) :: tasks =>
      rs ← collect_all tasks;
      let x := collect_results a r in
      Some (mkResults (r_sent rs ++ r_sent x) (r_timed_out rs ++ r_timed_out x) (r_not_connected rs ++ r_not_connected x))
  | _ :: _ => None
  end.

Inductive FanEvent :=
| ENext
| EReserve (now : Z)
| ELock (now : Z)
| ECooled (now : Z) (connected : option (gset PeerId))
| EAdmitOne (health : option PeerHealth)
| EClaims (now : Z) (view : nat → option bool * bool)
| ESend (i : nat) (ev : TaskEvent)
| ECollect (now : Z) (health : PeerId → option PeerHealth)
| EBackClaim (now : Z) (connected : option (gset PeerId)) (health : PeerId → option PeerHealth) (view : nat → option bool * bool)
| EStart (i : nat) (now : Z)
| EKid (i : nat) (ev : Event).

(** What a step leaves: the thread, unless it has ended, and what it reports. *)
Definition Outcome : Type := Shared * option Thread * list Done.
Definition stay (s : Shared) (x : Thread) : option Outcome := Some (s, Some x, []).

(** A child of a Critical fan-out has moved. *)
Definition kid_next (s : Shared) (c : Fan) (kids : list (PeerId * option (Job * Stage))) (t : Tally) (i : nat) (p : PeerId) (j : Job) (x : Stage + Res) :
    option Outcome :=
  match x with
  | inl st => stay s (TSeq c (<[i := (p, Some (j, st))]> kids) t)
  | inr r => stay s (TSeq c (delete i kids) (tally t p r))
  end.
Definition seq_step (s : Shared) (c : Fan) (kids : list (PeerId * option (Job * Stage))) (t : Tally) (ev : FanEvent) : option Outcome :=
  match ev with
  | EStart i now =>
      '(p, k) ← kids !! i;
      match k with
      | None => let '(j, s, x) := single_start s p (fan_frame c) now in kid_next s c kids t i p j x
      | Some _ => None
      end
  | EKid i ev =>
      '(p, k) ← kids !! i; '(j, st) ← k;
      '(s, x) ← single_step s j st ev;
      kid_next s c kids t i p j x
  | ENext =>
      match kids with
      | [] =>
          if bool_decide (t_deferred t = []) || bool_decide (frame_id (fan_frame c) = None)
          then Some (s, None, [DoneFan c (tally_counts c t) (t_attempted t)])
          else stay s (TSeqWithhold c t)
      | _ => None
      end
  | _ => None
  end.

(** After the claims and the announcement: the sends, if there are attempts. *)
Definition spawn_sends (s : Shared) (c : Fan) (rejected : nat) (admitted : list PeerId) (attempts : list PeerSendAttempt) (skips : SendClaimSkips) : Outcome :=
  let counts := fan_counts c rejected admitted attempts skips 0 in
  match attempts with
  | [] => (drop_guard s (guarded (fan_prio c) admitted), None, [DoneFan c counts []])
  | _ =>
      (s, Some (FSend c admitted counts (spawn_bounded_send_tasks (fan_res c) attempts)),
       if f_local (fan_frame c) then [] else [DoneFan c counts (at_peer <$> attempts)])
  end.

Definition claim_skipped_peers (admitted : list PeerId) (attempts : list PeerSendAttempt) : list PeerId :=
  filter (λ p, p ∉ (at_peer <$> attempts)) admitted.

(** *** Background rounds *)

(** A round starts; a flush goes to the targets of its work. *)
Definition back_start (s : Shared) (b : Back) (fr : Frame) (peers : list PeerId) : Thread :=
  let peers := match b with BFlush w => work_targets w | _ => peers end in
  BReserve (mkFan fr (priority s fr) (length peers) false ∅) b peers [] [].

(** One peer of [reserve_recovery_targets]. *)
Definition reserve_target (s : Shared) (c : Fan) (p : PeerId) (now : Z) : Shared * Fan * bool :=
  let fr := fan_frame c in
  if negb (Egress.enabled (lim s)) then (s, c, true)
  else if negb (Egress.enforcing (lim s) && negb (f_local fr) && negb (bool_decide (fan_prio c = Critical))) then
    let '(s, r) := protect (charge s fr p true) fr p now in
    (s, match r with Some r => add_reservation c p r | None => c end, true)
  else
    let '(l, res) := Egress.try_reserve_recovery (lim s) (f_key fr p) (f_len fr p) now in
    let s := charge (set_lim s l) fr p (is_ok res) in
    match res with
    | Ok r => (s, add_reservation c p r, true)
    | Err _ => (s, c, false)
    end.

(** [filter_peers_through_admission_in_state]: the health is the snapshot's. *)
Fixpoint filter_peers_through_admission_in_state (s : Shared) (fr : Frame) (connected : option (gset PeerId)) (health : PeerId → option PeerHealth)
    (now : Z) (peers : list PeerId) : Shared * list PeerId :=
  match peers with
  | [] => (s, [])
  | p :: peers =>
      if bool_decide (transport_connected_for_peer connected p = Some false)
      then filter_peers_through_admission_in_state s fr connected health now peers
      else
        let '(s, ok) := admit_raw s fr p (health p) (is_peer_currently_suppressed s fr p now) in
        let '(s, admitted) := filter_peers_through_admission_in_state s fr connected health now peers in
        (s, if ok then p :: admitted else admitted)
  end.

(** The section under the topic's lock.  A digest without an attempt goes on to
    the next topic at once; the other rounds release what they took. *)
Definition back_claim (s : Shared) (c : Fan) (b : Back) (peers deferred : list PeerId) (now : Z) (connected : option (gset PeerId))
    (health : PeerId → option PeerHealth) (view : nat → option bool * bool) : Outcome :=
  let fr := fan_frame c in
  match topics s !! f_topic fr with
  | None => (s, None, [])
  | Some _ =>
      let prio := priority s fr in
      let '(s, admitted) := filter_peers_through_admission_in_state s fr connected health now peers in
      let bulk := guarded prio admitted in
      match admitted with
      | [] => (s, None, [])
      | _ =>
          let '(s, attempts, _) := claim_topic_send_attempts s fr now view admitted in
          match attempts, b with
          | [], BDigest => (s, None, [DoneBack c b [] bulk])
          | [], _ => (drop_guard s bulk, None, [DoneBack c b [] []])
          | _, _ => (s, Some (BSend c b bulk deferred (spawn_bounded_send_tasks (fan_res c) attempts)), [])
          end
      end
  end.

(** The results that a round books. *)
Definition probes_only (r : SendAttemptResults) : SendAttemptResults :=
  mkResults (r_sent r) (a ← r_timed_out r; recovery_probe_timeout a) (a ← r_not_connected r; recovery_probe_timeout a).
Definition back_results (b : Back) (tasks : list (PeerSendAttempt * SendTask)) : option SendAttemptResults :=
  match b, tasks with
  | BFlush _, _ => collect_all tasks
  | BRetry, _ => probes_only <$> collect_all tasks
  | BDigest, [(a, KDone r)] => Some (tracked_booking a r).2
  | BDigest, _ => None
  end.

Definition back_step (s : Shared) (x : Thread) (ev : FanEvent) : option Outcome :=
  match x, ev with
  | BReserve c b (p :: todo) peers deferred, EReserve now =>
      let '(s, c, ok) := reserve_target s c p now in
      stay s (BReserve c b todo (if ok then peers ++ [p] else peers) (if ok then deferred else deferred ++ [p]))
  | BReserve c b [] peers deferred, ENext =>
      match peers with [] => Some (s, None, []) | _ => stay s (BClaim c b peers deferred) end
  | BClaim c b peers deferred, EBackClaim now connected health view => Some (back_claim s c b peers deferred now connected health view)
  | BSend c b bulk deferred tasks, ESend i ev =>
      '(a, k) ← tasks !! i;
      '(s, k) ← task_step s (fan_frame c) (at_peer a) k ev;
      stay s (BSend c b bulk deferred (<[i := (a, k)]> tasks))
  | BSend c b bulk deferred tasks, ECollect now health =>
      rs ← back_results b tasks;
      s ← book s (f_topic (fan_frame c)) rs health now;
      let sent := at_peer <$> r_sent rs in
      match b with
      | BFlush w => stay s (BBook c w bulk deferred sent)
      | _ => Some (drop_guard s bulk, None, [DoneBack c b sent []])
      end
  | BBook c w bulk deferred sent, ELock _ =>
      let t := f_topic (fan_frame c) in
      let s := match topics s !! t with
               | Some st => set_topic s t (with_queues st (flush_done (queues st) w sent (negb (bool_decide (deferred = []))) (Egress.enforcing (lim s))))
               | None => s
               end in
      Some (drop_guard s bulk, None, [DoneBack c (BFlush w) sent []])
  | _, _ => None
  end.

Definition fan_step (s : Shared) (x : Thread) (ev : FanEvent) : option Outcome :=
  match x, ev with
  | TSeq c kids t, _ => seq_step s c kids t ev
  | TSeqWithhold c t, ELock _ => Some (withhold s (fan_frame c) (t_deferred t), None, [DoneFan c (tally_counts c t) (t_attempted t)])
  | FReserve c (p :: todo) peers deferred, EReserve now =>
      let '(s, c, ok) := reserve_one s c p now in
      stay s (FReserve c todo (if ok then peers ++ [p] else peers) (if ok then deferred else deferred ++ [p]))
  | FReserve c [] peers deferred, ENext =>
      stay s (if bool_decide (deferred = []) || negb (eager (fan_frame c)) || bool_decide (frame_id (fan_frame c) = None)
              then FCool c peers else FWithhold c peers deferred)
  | FWithhold c peers deferred, ELock _ => stay (withhold s (fan_frame c) deferred) (FCool c peers)
  | FCool c peers, ECooled now connected =>
      stay s (FAdmit c (fan_candidates c - length peers) (filter (λ p, is_peer_currently_suppressed s (fan_frame c) p now = true) peers) connected peers [])
  | FAdmit c rejected cooled connected (p :: todo) admitted, EAdmitOne health =>
      let conn := transport_connected_for_peer connected p in
      if bool_decide (conn = Some false) then stay s (FAdmit c rejected cooled connected todo admitted)
      else
        let '(s, ok) := admit_peer s (fan_frame c) (fan_prio c) p health conn (bool_decide (p ∈ cooled)) in
        stay s (FAdmit c rejected cooled connected todo (if ok then admitted ++ [p] else admitted))
  | FAdmit c rejected _ _ [] admitted, ENext =>
      match admitted with
      | [] => Some (s, None, [DoneFan c (fan_counts c rejected [] [] no_skips 0) []])
      | _ => stay s (FClaim c rejected admitted)
      end
  | FClaim c rejected admitted, EClaims now view =>
      let '(s, attempts, skips) := claim_topic_send_attempts s (fan_frame c) now view admitted in
      if eager (fan_frame c) && f_local (fan_frame c) && negb (bool_decide (claim_skipped_peers admitted attempts = []))
         && negb (bool_decide (frame_id (fan_frame c) = None))
      then stay s (FAnnounce c rejected admitted attempts skips)
      else Some (spawn_sends s c rejected admitted attempts skips)
  | FAnnounce c rejected admitted attempts skips, ELock now =>
      Some (spawn_sends (retain s (fan_frame c) (claim_skipped_peers admitted attempts) now) c rejected admitted attempts skips)
  | FSend c admitted counts tasks, ESend i ev =>
      '(a, k) ← tasks !! i;
      '(s, k) ← task_step s (fan_frame c) (at_peer a) k ev;
      stay s (FSend c admitted counts (<[i := (a, k)]> tasks))
  | FSend c admitted counts tasks, ECollect now health =>
      rs ← collect_all tasks;
      s ← book s (f_topic (fan_frame c)) rs health now;
      Some (drop_guard s (guarded (fan_prio c) admitted), None,
            if f_local (fan_frame c) then [DoneFan c (set_succeeded counts (length (r_sent rs))) (at_peer <$> tasks.*1)] else [])
  | TDrop t probes, ECollect now health => s ← book s t (mkResults [] probes []) health now; Some (s, None, [])
  | BReserve _ _ _ _ _, _ | BClaim _ _ _ _, _ | BSend _ _ _ _ _, _ | BBook _ _ _ _ _, _ => back_step s x ev
  | _, _ => None
  end.

(** The caller's future is dropped at an await: the guards release, and armed
    claims leave their probes to a task.  The detached accounting of a relay is
    nobody's future, and the background tasks run until shutdown. *)
Definition dropped (s : Shared) (t : TopicId) (probes : list PeerSendAttempt) : Outcome :=
  (s, match probes with [] => None | _ => Some (TDrop t probes) end, []).
Definition kid_cancel (s : Shared) (k : PeerId * option (Job * Stage)) : Shared :=
  match k.2 with Some (j, st) => single_cancel s j st | None => s end.
Definition kid_probes (k : PeerId * option (Job * Stage)) : list PeerSendAttempt := match k.2 with Some (_, st) => single_probes st | None => [] end.
Definition cancel (s : Shared) (x : Thread) : option Outcome :=
  match x with
  | TSingle j st => Some (dropped (single_cancel s j st) (f_topic (j_frame j)) (single_probes st))
  | TSeq c kids _ => Some (dropped (foldl kid_cancel s kids) (f_topic (fan_frame c)) (k ← kids; kid_probes k))
  | TSeqWithhold c _ | FWithhold c _ _ | FCool c _ => Some (dropped s (f_topic (fan_frame c)) [])
  | FClaim c _ admitted => Some (dropped (drop_guard s (held x)) (f_topic (fan_frame c)) [])
  | FAnnounce c _ admitted attempts _ => Some (dropped (drop_guard s (held x)) (f_topic (fan_frame c)) (probes_of attempts))
  | FSend c admitted _ tasks =>
      if f_local (fan_frame c) then Some (dropped (drop_guard s (held x)) (f_topic (fan_frame c)) (probes_of tasks.*1)) else None
  | FReserve _ _ _ _ | FAdmit _ _ _ _ _ _ | TDrop _ _ => None
  | BReserve _ _ _ _ _ | BClaim _ _ _ _ | BSend _ _ _ _ _ | BBook _ _ _ _ _ => None
  end.

(** *** The node *)

Record Node := mkNode { shared : Shared; threads : gmap nat Thread; log : list Done }.

Inductive Op :=
(** A call starts as thread [t]. *)
| OSend (t : nat) (p : PeerId) (fr : Frame) (now : Z)
| OFanout (t : nat) (fr : Frame) (peers : list PeerId)
| OBack (t : nat) (b : Back) (fr : Frame) (peers : list PeerId)
| OStep (t : nat) (ev : Event)
| OFan (t : nat) (ev : FanEvent)
| OCancel (t : nat)
(** What the rest of the node does meanwhile. *)
| ORegister (topic : TopicId) (prio : TopicPriority)
| OEgress (op : EgressProps.Op)
| OTopics (topics : gmap TopicId Topic) (next_probe : Z).

Definition leave (n : Node) (t : nat) (x : Outcome) : Node :=
  let '(s, next, dones) := x in
  mkNode s (match next with Some x => <[t := x]> (threads n) | None => delete t (threads n) end) (log n ++ dones).
Definition put_single (n : Node) (t : nat) (j : Job) (s : Shared) (x : Stage + Res) : Node :=
  leave n t (match x with inl st => (s, Some (TSingle j st), []) | inr r => (s, None, [DoneSend j r]) end).

Definition exec (n : Node) (op : Op) : option Node :=
  match op with
  | OSend t p fr now =>
      match threads n !! t with
      | None => let '(j, s, x) := single_start (shared n) p fr now in Some (put_single n t j s x)
      | Some _ => None
      end
  | OFanout t fr peers =>
      match threads n !! t with
      | None => Some (mkNode (shared n) (<[t := fan_start (shared n) fr peers]> (threads n)) (log n))
      | Some _ => None
      end
  | OBack t b fr peers =>
      match threads n !! t with
      | None => Some (mkNode (shared n) (<[t := back_start (shared n) b fr peers]> (threads n)) (log n))
      | Some _ => None
      end
  | OStep t ev =>
      match threads n !! t with
      | Some (TSingle j st) => '(s, x) ← single_step (shared n) j st ev; Some (put_single n t j s x)
      | _ => None
      end
  | OFan t ev => x ← threads n !! t; y ← fan_step (shared n) x ev; Some (leave n t y)
  | OCancel t => x ← threads n !! t; y ← cancel (shared n) x; Some (leave n t y)
  | ORegister topic prio =>
      Some (mkNode (set_adm (shared n) (Admission.with_registry (adm (shared n)) (Admission.register (Admission.registry (adm (shared n))) topic prio))) (threads n) (log n))
  | OEgress op => Some (mkNode (set_lim (shared n) (EgressProps.exec (lim (shared n)) op)) (threads n) (log n))
  | OTopics m i => Some (mkNode (set_topics (shared n) m i) (threads n) (log n))
  end.

Fixpoint run (n : Node) (ops : list Op) : option Node :=
  match ops with [] => Some n | op :: ops => n ← exec n op; run n ops end.
End Layer.
End SendLayer.
