(* ===== verification/SendLayerProps.v ===== *)
(** * What the send layer guarantees

    Over every interleaving of sends, fan-outs, background rounds, cancellations
    and what the rest of the node does meanwhile ([SendLayer.exec]): the Bulk
    depth equals what the guards hold and what unclaimed digests have lost, and
    the stages of a fan-out account for its peers. *)

From S2P Require Import Prelude Types Float64 MessageCache PeerTiming TopicMesh Announce EagerReply Identity Plumtree KeyCodec SendBudget Admission Egress EgressProps SendLayer.
Import F64 Timing MessageCache TopicMesh Announce EagerReply SendLayer.

#[local] Open Scope Z_scope.

Module SendLayerProps.
Section SendLayer.
Context `{Hashes} `{Postcard} `{Libm} `{!SetIter PeerId} `{!LruCache MessageIdType CachedEntry}.
Context `{!HashIter Egress.RecoveryIntentKey Egress.Intent} `{!HashIter Egress.Id Z} (cooling_config : AdaptiveCoolingConfig).

Abbreviation single_step := (single_step cooling_config).
Abbreviation fan_step := (fan_step cooling_config).
Abbreviation exec := (exec cooling_config).
Abbreviation run := (run cooling_config).

(** ** Bulk depth *)

(** How often a peer occurs in what a guard holds. *)
Definition occ (p : PeerId) (l : list PeerId) : Z := Z.of_nat (length (filter (λ q, q = p) l)).
Definition held_by (p : PeerId) (n : Node) : Z := map_sum (λ x, occ p (held x)) (threads n).

Lemma occ_app p l l' : occ p (l ++ l') = occ p l + occ p l'.
Proof. unfold occ. rewrite filter_app, length_app. lia. Qed.
Lemma occ_cons p q l : occ p (q :: l) = (if decide (q = p) then 1 else 0) + occ p l.
Proof. unfold occ. rewrite filter_cons. case_decide; cbn [length]; lia. Qed.
Lemma occ_nonneg p l : 0 ≤ occ p l.
Proof. unfold occ. lia. Qed.

Lemma held_nonneg p n : 0 ≤ held_by p n.
Proof.
  unfold held_by. destruct (decide (threads n = ∅)) as [-> |(t & x & Ht)%map_choose]; [by rewrite map_sum_empty|].
  transitivity (occ p (held x)); [apply occ_nonneg|]. apply (map_sum_le (λ x, occ p (held x)) _ t x); [|done]. intros z. apply occ_nonneg.
Qed.

(** From [a] to [a'], what is held goes from [b] to [c]. *)
Definition policy (a : Admission.AdmissionControl) : Admission.Registry * Admission.AdmissionConfig := (Admission.registry a, Admission.config a).
Definition moved (a a' : Admission.AdmissionControl) (b c : list PeerId) : Prop :=
  policy a' = policy a ∧
  (Admission.depth_ok a → (∀ q, occ q b ≤ Admission.depth a q) →
   Admission.depth_ok a' ∧ ∀ q, Admission.depth a' q = Admission.depth a q + occ q c - occ q b).

Lemma moved_same a l : moved a a l l.
Proof. split; [done|]. intros Ha Hl. split; [done|]. intros q. lia. Qed.

Lemma moved_trans a1 a2 a3 b c d : moved a1 a2 b c → moved a2 a3 c d → moved a1 a3 b d.
Proof.
  intros [Hr1 H1'] [Hr2 H2']. split; [congruence|]. intros Ha Hb. destruct (H1' Ha Hb) as [Ha2 Hd2].
  destruct (H2' Ha2) as [Ha3 Hd3]; [intros q; rewrite Hd2; specialize (Hb q); lia|]. split; [done|]. intros q. rewrite Hd3, Hd2. lia.
Qed.

(** What a guard does not hold is irrelevant to a change. *)
Lemma moved_frame a a' b c l : moved a a' b c → moved a a' (l ++ b) (l ++ c).
Proof.
  intros [Hr Hd]. split; [done|]. intros Ha Hb. destruct Hd as [Hok Hd]; [done|intros q; specialize (Hb q); rewrite occ_app in Hb; pose proof (occ_nonneg q l); lia|].
  split; [done|]. intros q. rewrite Hd, !occ_app. lia.
Qed.

Lemma moved_occ a a' b b' c c' : (∀ q, occ q b = occ q b') → (∀ q, occ q c = occ q c') → moved a a' b c → moved a a' b' c'.
Proof.
  intros Eb Ec [Hr Hd]. split; [done|]. intros Ha Hb. destruct Hd as [Hok Hd]; [done|intros q; rewrite Eb; apply Hb|].
  split; [done|]. intros q. by rewrite Hd, Eb, Ec.
Qed.

Lemma moved_count s f l : moved (adm s) (adm (count s f)) l l.
Proof. split; [done|]. intros Ha _. split; [done|]. intros q. unfold Admission.depth. cbn. lia. Qed.

Lemma moved_release a l : moved a (foldl Admission.release_bulk a l) l [].
Proof.
  revert a. induction l as [|p l IH]; intros a; [apply moved_same|]. cbn [foldl].
  eapply moved_trans; [|apply IH]. split; [unfold Admission.release_bulk; by destruct (Admission.per_peer a !! p)|].
  intros Ha Hb. split; [by apply (Admission.exec_depth_ok a (Admission.OpRelease p))|]. intros q.
  assert (0 < Admission.depth a p) as Hp. { specialize (Hb p). rewrite occ_cons, decide_True in Hb by done. pose proof (occ_nonneg p l). lia. }
  pose proof (Admission.exec_depth a (Admission.OpRelease p) q Ha Hp) as E. cbn in E. rewrite E, occ_cons. case_decide; lia.
Qed.

Lemma moved_drop s l : moved (adm s) (adm (drop_guard s l)) l [].
Proof. apply moved_release. Qed.

Lemma moved_admit_raw s fr p h cooled :
  moved (adm s) (adm (admit_raw s fr p h cooled).1) [] (if (admit_raw s fr p h cooled).2 then guarded (priority s fr) [p] else []).
Proof.
  unfold admit_raw. destruct (Admission.admit_ _ _ _ _ _) as [a d] eqn:E.
  pose proof (Admission.admit_spec (adm s) (f_topic fr) p h cooled) as (Hd & Hr & Hc & _).
  rewrite E in Hr, Hd, Hc. cbn [fst snd] in *. split; [unfold policy; cbn; congruence|]. intros Ha _.
  pose proof (Admission.exec_depth_ok (adm s) (Admission.OpAdmit (f_topic fr) p h cooled) Ha) as Hok.
  rewrite Admission.exec_admit_fst, E in Hok. split; [done|]. intros q.
  pose proof (Admission.exec_depth (adm s) (Admission.OpAdmit (f_topic fr) p h cooled) q Ha I) as Hq.
  rewrite Admission.exec_admit_fst, E in Hq. cbn [Admission.op_net fst snd set_adm adm] in *. rewrite E in Hq. cbn [snd] in Hq. rewrite Hq. fold (priority s fr).
  unfold guarded. destruct d; [|rewrite decide_False by naive_solver; cbn; lia].
  repeat case_decide; repeat case_bool_decide; rewrite ?occ_cons; cbn [occ]; repeat case_decide; unfold occ; cbn; try lia; naive_solver.
Qed.
Lemma moved_admit s fr prio p h conn cooled :
  prio = priority s fr →
  moved (adm s) (adm (admit_peer s fr prio p h conn cooled).1) []
    (if (admit_peer s fr prio p h conn cooled).2 then guarded prio [p] else []).
Proof. intros ->. apply moved_admit_raw. Qed.

Lemma claim_peer_moved s fr prio now conn granted p l : moved (adm s) (adm (claim_peer s fr prio now conn granted p).1) l l.
Proof.
  unfold claim_peer. destruct (topics s !! f_topic fr) as [st|].
  - destruct (claim_one _ _ _ _ _ _ _) as [[m i] [a|]]; [apply moved_same|].
    repeat case_bool_decide; try apply moved_same. destruct (_ && _); [apply (moved_count (set_topics s _ _))|apply moved_same].
  - case_bool_decide; [apply moved_same|]. destruct granted; [apply moved_same|]. destruct (_ && _); [apply moved_count|apply moved_same].
Qed.

Lemma claim_all_moved s fr prio now view peers acc l : moved (adm s) (adm (claim_all s fr prio now view peers acc).1.1) l l.
Proof.
  revert s view acc. induction peers as [|p peers IH]; intros s view acc; [apply moved_same|]. cbn [claim_all].
  pose proof (claim_peer_moved s fr prio now (view 0%nat).1 (view 0%nat).2 p l) as Hp. destruct (claim_peer _ _ _ _ _ _ _) as [s' r].
  eapply moved_trans; [exact Hp|]. apply IH.
Qed.

Lemma control_skip_moved s j skips l : moved (adm s) (adm (control_skip s j skips)) l l.
Proof. unfold control_skip. destruct (_ && _); [apply moved_count|apply moved_same]. Qed.

Lemma task_step_adm s fr p k ev s' k' : task_step s fr p k ev = Some (s', k') → adm s' = adm s.
Proof.
  unfold task_step. destruct k, ev; try done; try (by intros [= <- _]).
  - destruct (Egress.validate_reservation _ _ _) as [l []]; by intros [= <- _].
  - destruct (transport_result r); [|done]. by intros [= <- _].
Qed.

Lemma book_adm s t r health now s' : book cooling_config s t r health now = Some s' → adm s' = adm s.
Proof. unfold book. destruct (topics s !! t); [|by intros [= <-]]. intros (st & _ & [= <-])%bind_Some. done. Qed.

Lemma wait_exit_adm s j gen class o : adm (wait_exit s j gen class o).1 = adm s.
Proof. unfold wait_exit. by destruct (Egress.reserve_recovery_exit _ _ _ _ _ _). Qed.

Definition next_held (j : Job) (x : Stage + Res) : list PeerId := match x with inl st => single_held j st | inr _ => [] end.

Lemma reserved_next s j res : next_held j (reserved s j res).2 = [].
Proof. by destruct res as [r|[]]. Qed.

Lemma reserved_adm s j res : adm (reserved s j res).1 = adm s.
Proof. done. Qed.

Lemma wait_poll_moved s j gen class now : moved (adm s) (adm (wait_poll s j gen class now).1) [] (next_held j (wait_poll s j gen class now).2).
Proof.
  unfold wait_poll. destruct (Egress.try_reserve_recovery_at_class _ _ _ _ _ _) as [l res]. 
  assert (∀ res, moved (adm s) (adm (let '(s, res) := wait_exit (set_lim s l) j gen class (Some res) in reserved s j res).1) []
                   (next_held j (let '(s, res) := wait_exit (set_lim s l) j gen class (Some res) in reserved s j res).2)) as Hx.
  { intros res'. pose proof (wait_exit_adm (set_lim s l) j gen class (Some res')) as E. destruct (wait_exit _ _ _ _ _) as [s' res'']. cbn in E.
    rewrite (reserved_next s' j res''). cbn [reserved fst charge set_lim adm]. rewrite E. apply moved_same. }
  destruct res as [r|[]]; try apply Hx. apply moved_same.
Qed.

(** A job whose priority is the registered one. *)
Definition job_prio (a : Admission.AdmissionControl) (j : Job) : Prop := j_prio j = Admission.priority_for (Admission.registry a) (f_topic (j_frame j)).

Lemma single_step_moved s j st ev s' x :
  single_step s j st ev = Some (s', x) → job_prio (adm s) j → moved (adm s) (adm s') (single_held j st) (next_held j x).
Proof.
  intros E Hj. destruct st as [gen class|r|r cooled|r|a k]; destruct ev as [now| |now|health conn|now conn granted|ev0|now health]; try done; cbn [SendLayer.single_step] in E; try (by destruct k).
  - injection E as E. pose proof (wait_poll_moved s j gen class now) as Hm. by rewrite E in Hm.
  - pose proof (wait_exit_adm s j gen class None) as Ea. destruct (wait_exit _ _ _ _ _) as [s1 res]. apply (inj Some) in E.
    pose proof (reserved_next s1 j res) as Hn. pose proof (reserved_adm s1 j res) as Hr. rewrite E in Hn, Hr. cbn in *. rewrite Hn, Hr, Ea. apply moved_same.
  - injection E as <- <-. apply moved_same.
  - pose proof (moved_admit s (j_frame j) (j_prio j) (j_peer j) health conn cooled Hj) as Hm. destruct (admit_peer _ _ _ _ _ _ _) as [s1 ok].
    injection E as <- <-. by destruct ok.
  - unfold claim_topic_send_attempts in E. pose proof (claim_all_moved s (j_frame j) (priority s (j_frame j)) now (λ _, (conn, granted)) [j_peer j] ([], no_skips) (single_held j (SClaim r))) as Hm.
    destruct (claim_all _ _ _ _ _ _ _) as [[s1 attempts] skips]. cbn [fst] in Hm. destruct attempts as [|a attempts]; injection E as <- <-; [|exact Hm].
    eapply moved_trans; [exact Hm|]. eapply moved_trans; [apply control_skip_moved|apply moved_drop].
  - assert (('(s, k) ← task_step s (j_frame j) (j_peer j) k ev0; Some (s, inl (SSend a k) : Stage + Res)) = Some (s', x)) as E' by by destruct k.
    apply bind_Some in E' as ([s1 k'] & Ek & [= <- <-]). rewrite (task_step_adm _ _ _ _ _ _ _ Ek). apply moved_same.
  - destruct k; try done. apply bind_Some in E as (s1 & Ek & [= <- <-]). rewrite <-(book_adm _ _ _ _ _ _ Ek). apply moved_drop.
Qed.

Lemma single_start_moved s p fr now j s' x :
  single_start s p fr now = (j, s', x) → moved (adm s) (adm s') [] (next_held j x) ∧ j_prio j = priority s fr ∧ j_frame j = fr.
Proof.
  unfold single_start. destruct (negb _); [intros [= <- <- <-]; split; [apply moved_same|done]|].
  destruct (protected_send _ _).
  { unfold protect. destruct (Egress.reserve_protected _ _ _ _ _). intros [= <- <- <-]. split; [apply moved_same|done]. }
  destruct (Egress.reserve_recovery_enter _ _ _) as [[l gen]|e]; [intros [= <- <- <-]; split; [apply moved_same|done]|].
  intros [= <- <- <-]. split; [|done]. destruct e; apply moved_same.
Qed.

Lemma single_cancel_moved s j st : moved (adm s) (adm (single_cancel s j st)) (single_held j st) [].
Proof.
  destruct st as [gen class|r|r cooled|r|a k]; try apply moved_drop.
  cbn [single_cancel single_held]. rewrite wait_exit_adm. apply moved_same.
Qed.

(** *** A list of children *)

Section Children.
Context {A : Type} (f : A → list PeerId).

Lemma occ_delete l i x q : l !! i = Some x → occ q (concat (f <$> l)) = occ q (concat (f <$> delete i l)) + occ q (f x).
Proof.
  revert i. induction l as [|y l IH]; intros [|i] E; try done; cbn in E |- *.
  - injection E as ->. rewrite occ_app. lia.
  - rewrite !occ_app, (IH i E). apply Z.add_assoc.
Qed.

Lemma occ_insert l i x y q : l !! i = Some x → occ q (concat (f <$> <[i := y]> l)) = occ q (concat (f <$> delete i l)) + occ q (f y).
Proof.
  revert i. induction l as [|z l IH]; intros [|i] E; try done; cbn in E |- *.
  - rewrite occ_app. lia.
  - rewrite !occ_app. etransitivity; [apply (f_equal (Z.add _)), (IH i E)|]. apply Z.add_assoc.
Qed.
End Children.

Lemma moved_kid a a' (kids kids' : list (PeerId * option (Job * Stage))) i x b c :
  kids !! i = Some x → kid_held x = b → (∀ q, occ q (concat (kid_held <$> kids')) = occ q (concat (kid_held <$> delete i kids)) + occ q c) →
  moved a a' b c → moved a a' (concat (kid_held <$> kids)) (concat (kid_held <$> kids')).
Proof.
  intros Hi <- Hc Hm. eapply moved_occ; [| |apply (moved_frame _ _ _ _ (concat (kid_held <$> delete i kids)) Hm)]; intros q; rewrite occ_app.
  - by rewrite (occ_delete kid_held kids i x q Hi).
  - by rewrite Hc.
Qed.

(** *** Priorities *)

Definition jobs_of (x : Thread) : list Job :=
  match x with
  | TSingle j _ => [j]
  | TSeq _ kids _ => k ← kids; match k.2 with Some (j, _) => [j] | None => [] end
  | _ => []
  end.
Definition fan_of (x : Thread) : option Fan :=
  match x with
  | TSeq c _ _ | TSeqWithhold c _ | FReserve c _ _ _ | FWithhold c _ _ | FCool c _ | FAdmit c _ _ _ _ _ | FClaim c _ _ | FAnnounce c _ _ _ _
  | FSend c _ _ _ => Some c
  | TSingle _ _ | TDrop _ _ | BReserve _ _ _ _ _ | BClaim _ _ _ _ | BSend _ _ _ _ _ | BBook _ _ _ _ _ => None
  end.
Definition thread_prio (a : Admission.AdmissionControl) (x : Thread) : Prop :=
  (∀ j, j ∈ jobs_of x → job_prio a j) ∧
  (∀ c, fan_of x = Some c → fan_prio c = Admission.priority_for (Admission.registry a) (f_topic (fan_frame c))).

Lemma thread_prio_same a a' x : Admission.registry a' = Admission.registry a → thread_prio a x → thread_prio a' x.
Proof. unfold thread_prio, job_prio. by intros ->. Qed.

Lemma kid_next_moved s s' c kids t i p k j x y :
  kids !! i = Some (p, k) → moved (adm s) (adm s') (kid_held (p, k)) (next_held j x) → thread_prio (adm s) (TSeq c kids t) → job_prio (adm s) j →
  kid_next s' c kids t i p j x = Some y →
  moved (adm s) (adm y.1.1) (held (TSeq c kids t)) (default [] (held <$> y.1.2)) ∧ (∀ x', y.1.2 = Some x' → thread_prio (adm s) x').
Proof.
  intros Hi Hm [Hjs Hc] Hj E. unfold kid_next in E. destruct x as [st|r]; injection E as <-; cbn [fst snd fmap option_fmap option_map default held].
  - split; [eapply moved_kid; [done|done| |exact Hm]; intros q; by apply (occ_insert kid_held kids i (p, k))|].
    intros x' [= <-]. split; [|done]. intros j' (k' & Hj' & Hk')%list_elem_of_bind.
    apply list_elem_of_lookup in Hk' as [i' Hk']. destruct (decide (i = i')) as [<-|Hne].
    + rewrite list_lookup_insert_eq in Hk' by (by eapply lookup_lt_Some). injection Hk' as <-. apply list_elem_of_singleton in Hj'. by subst.
    + rewrite list_lookup_insert_ne in Hk' by done. apply Hjs, list_elem_of_bind. exists k'. split; [done|by eapply list_elem_of_lookup_2].
  - split; [eapply moved_kid; [done|done| |exact Hm]; intros q; cbn; unfold occ; cbn; lia|].
    intros x' [= <-]. split; [|done]. intros j' (k' & Hj' & Hk')%list_elem_of_bind. apply Hjs, list_elem_of_bind. exists k'. split; [done|].
    apply list_elem_of_lookup in Hk' as [i' Hk']. apply list_elem_of_lookup. destruct (decide (i' < i)%nat).
    + rewrite list_lookup_delete_lt in Hk' by done. by exists i'.
    + rewrite list_lookup_delete_ge in Hk' by lia. by exists (S i').
Qed.

Lemma guarded_snoc prio l p : guarded prio (l ++ [p]) = guarded prio l ++ guarded prio [p].
Proof. unfold guarded. by case_bool_decide. Qed.

Lemma withhold_adm s fr l : adm (withhold s fr l) = adm s.
Proof. unfold withhold. by destruct (frame_id fr), (topics s !! f_topic fr). Qed.
Lemma retain_adm s fr l now : adm (retain s fr l now) = adm s.
Proof. unfold retain. by destruct (frame_id fr), (topics s !! f_topic fr). Qed.

Lemma reserve_one_effect s c p now s' c' ok :
  reserve_one s c p now = (s', c', ok) → adm s' = adm s ∧ fan_prio c' = fan_prio c ∧ fan_frame c' = fan_frame c.
Proof.
  unfold reserve_one, protect. destruct (negb _).
  - destruct (Egress.reserve_protected _ _ _ _ _) as [l [r|]]; by intros [= <- <- _].
  - destruct (Egress.try_reserve_data _ _ _ _ _) as [l [r|[]]]; by intros [= <- <- _].
Qed.

Lemma spawn_sends_moved s c rejected admitted attempts skips :
  moved (adm s) (adm (spawn_sends s c rejected admitted attempts skips).1.1) (guarded (fan_prio c) admitted)
    (default [] (held <$> (spawn_sends s c rejected admitted attempts skips).1.2)) ∧
  ∀ x', (spawn_sends s c rejected admitted attempts skips).1.2 = Some x' → jobs_of x' = [] ∧ fan_of x' = Some c.
Proof. unfold spawn_sends. destruct attempts; cbn; [split; [apply moved_drop|done]|split; [apply moved_same|by intros x' [= <-]]]. Qed.

(** A step of a fan-out other than its children's. *)
Lemma same_fan a x x' c c' :
  thread_prio a x → fan_of x = Some c → fan_of x' = Some c' → fan_prio c' = fan_prio c → fan_frame c' = fan_frame c → jobs_of x' = [] → thread_prio a x'.
Proof. intros [_ Hc] Hx Hx' Hp Hf Hj. split; [rewrite Hj; by intros j ?%elem_of_nil|]. rewrite Hx'. intros c0 [= <-]. rewrite Hp, Hf. by apply Hc. Qed.

Lemma seq_step_moved s c kids t ev y :
  seq_step cooling_config s c kids t ev = Some y → thread_prio (adm s) (TSeq c kids t) →
  moved (adm s) (adm y.1.1) (held (TSeq c kids t)) (default [] (held <$> y.1.2)) ∧ (∀ x', y.1.2 = Some x' → thread_prio (adm s) x').
Proof.
  intros E Hx. destruct ev; try done; cbn [seq_step] in E.
  - destruct kids; [|done]. destruct (_ || _); injection E as <-; (split; [apply moved_same|]); [done|].
    intros x' [= <-]. by eapply same_fan.
  - apply bind_Some in E as ([p [k|]] & Hi & E); [done|]. destruct (single_start _ _ _ _) as [[j s'] x] eqn:Es.
    apply single_start_moved in Es as (Hm & Hp & Hf). eapply kid_next_moved; try done. unfold job_prio. rewrite Hp, Hf. done.
  - apply bind_Some in E as ([p k] & Hi & E). apply bind_Some in E as ([j st] & -> & E). apply bind_Some in E as ([s' x] & Es & E).
    assert (job_prio (adm s) j) as Hj.
    { apply Hx, list_elem_of_bind. exists (p, Some (j, st)). split; [by apply list_elem_of_singleton|by eapply list_elem_of_lookup_2]. }
    apply single_step_moved in Es; [|done]. by eapply kid_next_moved.
Qed.

Definition is_back (x : Thread) : bool := match x with BReserve _ _ _ _ _ | BClaim _ _ _ _ | BSend _ _ _ _ _ | BBook _ _ _ _ _ => true | _ => false end.

Lemma fan_step_moved s x ev y :
  is_back x = false → fan_step s x ev = Some y → thread_prio (adm s) x →
  moved (adm s) (adm y.1.1) (held x) (default [] (held <$> y.1.2)) ∧ (∀ x', y.1.2 = Some x' → thread_prio (adm s) x').
Proof.
  intros Hb E Hx. destruct x as [j st|c kids t|c t|c todo peers deferred|c peers deferred|c peers|c rejected cooled conn todo admitted|c rejected admitted|c rejected admitted attempts skips|c admitted counts tasks|c b todo peers deferred|c b peers deferred|c b bulk deferred tasks|c w bulk deferred sent|t probes]; try done.
  - by eapply seq_step_moved.
  - destruct ev; try done. injection E as <-. cbn. rewrite withhold_adm. split; [apply moved_same|done].
  - destruct todo as [|p todo], ev; try done.
    + cbn [SendLayer.fan_step] in E. injection E as <-. cbn. split; [case_match; apply moved_same|]. intros x' [= <-]. case_match; by eapply same_fan.
    + cbn [SendLayer.fan_step] in E. destruct (reserve_one s c p now) as [[s' c'] ok] eqn:Er. apply reserve_one_effect in Er as (Ha & Hp & Hf).
      injection E as <-. cbn. rewrite Ha. split; [apply moved_same|]. intros x' [= <-]. by eapply same_fan.
  - destruct ev; try done. injection E as <-. cbn. rewrite withhold_adm. split; [apply moved_same|]. intros x' [= <-]. by eapply same_fan.
  - destruct ev; try done. injection E as <-. split; [cbn; unfold guarded; case_bool_decide; apply moved_same|]. intros x' [= <-]. by eapply same_fan.
  - destruct todo as [|p todo], ev; try done; cbn [SendLayer.fan_step] in E.
    + destruct admitted as [|p admitted]; injection E as <-; cbn [fst snd fmap option_fmap option_map default held].
      * split; [unfold guarded; case_bool_decide; apply moved_same|done].
      * split; [apply moved_same|]. intros x' [= <-]. by eapply same_fan.
    + case_bool_decide; [injection E as <-; cbn; split; [apply moved_same|]; intros x' [= <-]; by eapply same_fan|].
      pose proof (moved_admit s (fan_frame c) (fan_prio c) p health (transport_connected_for_peer conn p) (bool_decide (p ∈ cooled)) (proj2 Hx c eq_refl)) as Hm.
      destruct (admit_peer _ _ _ _ _ _ _) as [s' ok]. injection E as <-. cbn [fst snd fmap option_fmap option_map default held] in *.
      split; [|intros x' [= <-]; by eapply same_fan]. apply (moved_frame _ _ _ _ (guarded (fan_prio c) admitted)) in Hm. rewrite app_nil_r in Hm.
      destruct ok; [by rewrite guarded_snoc|by rewrite app_nil_r in Hm].
  - destruct ev as [| | | | |now vw| | | | |]; try done. cbn [SendLayer.fan_step] in E. unfold claim_topic_send_attempts in E.
    pose proof (claim_all_moved s (fan_frame c) (priority s (fan_frame c)) now vw admitted ([], no_skips) (guarded (fan_prio c) admitted)) as Hm.
    destruct (claim_all _ _ _ _ _ _ _) as [[s' attempts] skips]. cbn [fst] in Hm. destruct (_ && _).
    + injection E as <-. split; [exact Hm|]. intros x' [= <-]. by eapply same_fan.
    + injection E as <-. destruct (spawn_sends_moved s' c rejected admitted attempts skips) as [Hm' Hj]. split; [by eapply moved_trans|].
      intros x' [Hj' Hf']%Hj. by eapply same_fan.
  - destruct ev; try done. injection E as <-.
    destruct (spawn_sends_moved (retain s (fan_frame c) (claim_skipped_peers admitted attempts) now) c rejected admitted attempts skips) as [Hm' Hj].
    rewrite retain_adm in Hm'. split; [done|]. intros x' [Hj' Hf']%Hj. by eapply same_fan.
  - destruct ev; try done; cbn [SendLayer.fan_step] in E.
    + apply bind_Some in E as ([a k] & _ & E). apply bind_Some in E as ([s' k'] & Ek & [= <-]). cbn. rewrite (task_step_adm _ _ _ _ _ _ _ Ek).
      split; [apply moved_same|]. intros x' [= <-]. by eapply same_fan.
    + apply bind_Some in E as (rs & _ & E). apply bind_Some in E as (s' & Eb & [= <-]). cbn [fst snd]. rewrite <-(book_adm _ _ _ _ _ _ Eb). split; [apply moved_drop|done].
  - destruct ev; try done. cbn [SendLayer.fan_step] in E. apply bind_Some in E as (s' & Eb & [= <-]). cbn. rewrite (book_adm _ _ _ _ _ _ Eb). split; [apply moved_same|done].
Qed.


(** *** Background rounds *)

(** What a report gives up for lost. *)
Definition leaks (d : Done) : list PeerId := match d with DoneBack _ _ _ l => l | _ => [] end.
Definition leaked (p : PeerId) (n : Node) : Z := occ p (concat (leaks <$> log n)).
Definition out_held (y : Outcome) : list PeerId := default [] (held <$> y.1.2) ++ concat (leaks <$> y.2).

Lemma reserve_target_adm s c p now : adm (reserve_target s c p now).1.1 = adm s.
Proof.
  unfold reserve_target, protect. destruct (negb (Egress.enabled _)); [done|]. destruct (negb _).
  - by destruct (Egress.reserve_protected _ _ _ _ _).
  - by destruct (Egress.try_reserve_recovery _ _ _ _) as [l [r|e]].
Qed.

Lemma guarded_cons prio p l : guarded prio (p :: l) = guarded prio [p] ++ guarded prio l.
Proof. unfold guarded. by case_bool_decide. Qed.

Lemma filter_moved s fr connected health now peers :
  let '(s', admitted) := filter_peers_through_admission_in_state s fr connected health now peers in
  moved (adm s) (adm s') [] (guarded (priority s fr) admitted).
Proof.
  revert s. induction peers as [|p peers IH]; intros s; cbn [filter_peers_through_admission_in_state].
  - unfold guarded. case_bool_decide; apply moved_same.
  - case_bool_decide; [apply IH|]. pose proof (moved_admit_raw s fr p (health p) (is_peer_currently_suppressed s fr p now)) as Hp.
    destruct (admit_raw _ _ _ _ _) as [s1 ok]. cbn [fst snd] in Hp. specialize (IH s1).
    destruct (filter_peers_through_admission_in_state _ _ _ _ _ _) as [s2 admitted].
    assert (priority s1 fr = priority s fr) as E by (unfold priority; by injection (proj1 Hp) as -> _). rewrite E in IH.
    destruct ok; [|by eapply moved_trans]. rewrite guarded_cons. eapply moved_trans; [exact Hp|].
    apply (moved_frame _ _ _ _ (guarded (priority s fr) [p])) in IH. by rewrite app_nil_r in IH.
Qed.

Lemma back_claim_moved s c b peers deferred now connected health vw :
  let y := back_claim s c b peers deferred now connected health vw in
  moved (adm s) (adm y.1.1) [] (out_held y) ∧ ∀ x', y.1.2 = Some x' → jobs_of x' = [] ∧ fan_of x' = None.
Proof.
  unfold back_claim. destruct (topics s !! f_topic (fan_frame c)); [|split; [apply moved_same|done]].
  pose proof (filter_moved s (fan_frame c) connected health now peers) as Hf. destruct (filter_peers_through_admission_in_state _ _ _ _ _ _) as [s1 admitted].
  set (bulk := guarded (priority s (fan_frame c)) admitted) in *. destruct admitted as [|p l].
  { split; [|done]. unfold bulk, guarded in Hf. case_bool_decide; exact Hf. }
  pose proof (claim_all_moved s1 (fan_frame c) (priority s1 (fan_frame c)) now vw (p :: l) ([], no_skips) bulk) as Hm.
  unfold claim_topic_send_attempts. destruct (claim_all _ _ _ _ _ _ _) as [[s2 attempts] skips]. cbn [fst] in Hm.
  pose proof (moved_trans _ _ _ _ _ _ Hf Hm) as Hm2. pose proof (moved_trans _ _ _ _ _ _ Hm2 (moved_drop s2 bulk)) as Hd. unfold out_held.
  destruct attempts as [|a attempts]; [destruct b|]; cbn [fst snd fmap option_fmap option_map list_fmap default leaks concat app held]; rewrite ?app_nil_r; (split; [done|]); try done.
  by intros x' [= <-].
Qed.

Lemma back_step_moved s x ev y :
  is_back x = true → back_step cooling_config s x ev = Some y →
  moved (adm s) (adm y.1.1) (held x) (out_held y) ∧ ∀ x', y.1.2 = Some x' → jobs_of x' = [] ∧ fan_of x' = None.
Proof.
  intros Hb E. unfold out_held. destruct x as [j st|c kids t|c t|c todo peers deferred|c peers deferred|c peers|c rejected cooled conn todo admitted|c rejected admitted|c rejected admitted attempts skips|c admitted counts tasks|c b todo peers deferred|c b peers deferred|c b bulk deferred tasks|c w bulk deferred sent|t probes]; try done; clear Hb.
  - destruct todo as [|p todo], ev; try done; cbn [back_step] in E.
    + destruct peers; injection E as <-; (split; [apply moved_same|]); [done|by intros x' [= <-]].
    + pose proof (reserve_target_adm s c p now) as Ha. destruct (reserve_target s c p now) as [[s' c'] ok]. injection E as <-. cbn in *. rewrite Ha.
      split; [apply moved_same|by intros x' [= <-]].
  - destruct ev as [| | | | |now vw| | |now connected health vw| |]; try done. injection E as <-. apply back_claim_moved.
  - destruct ev; try done; cbn [back_step] in E.
    + apply bind_Some in E as ([a k] & _ & E). apply bind_Some in E as ([s' k'] & Ek & [= <-]). cbn. rewrite (task_step_adm _ _ _ _ _ _ _ Ek), app_nil_r.
      split; [apply moved_same|by intros x' [= <-]].
    + apply bind_Some in E as (rs & _ & E). apply bind_Some in E as (s' & Eb & E). apply book_adm in Eb.
      destruct b; injection E as <-; cbn [fst snd fmap option_fmap option_map list_fmap default leaks concat app held]; rewrite ?app_nil_r, <-?Eb;
        (split; [first [apply moved_drop|apply moved_same]|]); try done. by intros x' [= <-].
  - destruct ev; try done. injection E as <-. cbn [fst snd fmap option_fmap option_map list_fmap default leaks concat app held]. split; [|done].
    set (s' := match topics s !! _ with Some st => _ | None => s end). replace (adm s) with (adm s') by (unfold s'; by destruct (topics s !! _)).
    apply moved_drop.
Qed.

(** The other calls leak nothing. *)
Lemma fan_step_leaks s x ev y : is_back x = false → fan_step s x ev = Some y → concat (leaks <$> y.2) = [].
Proof.
  intros Hb E. destruct x as [j st|c kids t|c t|c todo peers deferred|c peers deferred|c peers|c rejected cooled conn todo admitted|c rejected admitted|c rejected admitted attempts skips|c admitted counts tasks|c b todo peers deferred|c b peers deferred|c b bulk deferred tasks|c w bulk deferred sent|t probes]; try done; clear Hb.
  - cbn [SendLayer.fan_step] in E. destruct ev; try done; cbn [seq_step] in E.
    + destruct kids; [|done]. destruct (_ || _); by injection E as <-.
    + apply bind_Some in E as ([p [k|]] & Hi & E); [done|]. destruct (single_start _ _ _ _) as [[j s'] x]. by destruct x; injection E as <-.
    + apply bind_Some in E as ([p k] & Hi & E). apply bind_Some in E as ([j st] & -> & E). apply bind_Some in E as ([s' x] & Es & E). by destruct x; injection E as <-.
  - destruct ev; try done. by injection E as <-.
  - destruct todo, ev; try done; cbn [SendLayer.fan_step] in E; [by injection E as <-|]. destruct (reserve_one _ _ _ _) as [[s' c'] ok]. by injection E as <-.
  - destruct ev; try done. by injection E as <-.
  - destruct ev; try done. by injection E as <-.
  - destruct todo, ev; try done; cbn [SendLayer.fan_step] in E; [destruct admitted; by injection E as <-|].
    case_bool_decide; [by injection E as <-|]. destruct (admit_peer _ _ _ _ _ _ _). by injection E as <-.
  - destruct ev as [| | | | |now vw| | | | |]; try done. cbn [SendLayer.fan_step] in E. destruct (claim_topic_send_attempts _ _ _ _ _) as [[s' attempts] skips].
    destruct (_ && _); [by injection E as <-|]. injection E as <-. unfold spawn_sends. destruct attempts; [done|]. by destruct (f_local _).
  - destruct ev; try done. injection E as <-. unfold spawn_sends. destruct attempts; [done|]. by destruct (f_local _).
  - destruct ev; try done; cbn [SendLayer.fan_step] in E.
    + apply bind_Some in E as ([a k] & _ & E). by apply bind_Some in E as ([s' k'] & Ek & [= <-]).
    + apply bind_Some in E as (rs & _ & E). apply bind_Some in E as (s' & Eb & [= <-]). cbn. by destruct (f_local _).
  - destruct ev; try done. cbn [SendLayer.fan_step] in E. by apply bind_Some in E as (s' & Eb & [= <-]).
Qed.

Lemma step_moved s x ev y :
  fan_step s x ev = Some y → thread_prio (adm s) x →
  moved (adm s) (adm y.1.1) (held x) (out_held y) ∧ (∀ x', y.1.2 = Some x' → thread_prio (adm s) x').
Proof.
  intros E Hx. destruct (is_back x) eqn:Hb.
  - assert (back_step cooling_config s x ev = Some y) as E' by (by destruct x, ev).
    destruct (back_step_moved _ _ _ _ Hb E') as [Hm Hj]. split; [exact Hm|]. intros x' [Hj' Hf]%Hj. split; [rewrite Hj'; by intros j ?%elem_of_nil|by rewrite Hf].
  - destruct (fan_step_moved _ _ _ _ Hb E Hx) as [Hm Hp]. split; [|exact Hp]. unfold out_held. by rewrite (fan_step_leaks _ _ _ _ Hb E), app_nil_r.
Qed.

Lemma kids_cancel_moved s kids : moved (adm s) (adm (foldl kid_cancel s kids)) (concat (kid_held <$> kids)) [].
Proof.
  revert s. induction kids as [|k kids IH]; intros s; [apply moved_same|]. cbn [foldl fmap list_fmap concat].
  eapply moved_trans; [|apply IH]. destruct k as [p [[j st]|]]; cbn; [|apply moved_same].
  eapply moved_occ; [| |apply (moved_frame _ _ _ _ (concat (kid_held <$> kids)) (single_cancel_moved s j st))]; intros q; rewrite !occ_app; cbn; unfold occ; cbn; lia.
Qed.

Lemma cancel_moved s x y :
  cancel s x = Some y → moved (adm s) (adm y.1.1) (held x) (out_held y) ∧ (∀ x', y.1.2 = Some x' → thread_prio (adm s) x').
Proof.
  assert (∀ s' t probes, moved (adm s) (adm s') (held x) [] → Some (dropped s' t probes) = Some y →
            moved (adm s) (adm y.1.1) (held x) (out_held y) ∧ (∀ x', y.1.2 = Some x' → thread_prio (adm s) x')) as Hd.
  { intros s' t probes Hm [= <-]. destruct probes; (split; [exact Hm|]); [done|]. intros x' [= <-]. split; [by intros j ?%elem_of_nil|done]. }
  intros E. destruct x; cbn [cancel] in E; try done; try (eapply Hd; [|exact E]); try apply moved_drop; try apply moved_same.
  - apply single_cancel_moved.
  - apply kids_cancel_moved.
  - destruct (f_local _); [|done]. eapply Hd; [|exact E]. apply moved_drop.
Qed.

(** *** Runs *)

Record depth_inv (cfg : Admission.AdmissionConfig) (n : Node) : Prop := {
  di_config : Admission.config (adm (shared n)) = cfg;
  di_ok : Admission.depth_ok (adm (shared n));
  di_prio : ∀ t x, threads n !! t = Some x → thread_prio (adm (shared n)) x;
  di_depth : ∀ p, Admission.depth (adm (shared n)) p = held_by p n + leaked p n;
}.

(** A thread moves, starts ([None]) or ends. *)
Lemma leave_inv cfg n t y (old : list PeerId) :
  depth_inv cfg n → old = default [] (held <$> threads n !! t) →
  moved (adm (shared n)) (adm y.1.1) old (out_held y) → (∀ x', y.1.2 = Some x' → thread_prio (adm (shared n)) x') →
  depth_inv cfg (leave n t y).
Proof.
  intros [Hcfg Hok Hp Hd] Ho [Hr Hm] Hx. injection Hr as Hr Hc. destruct y as [[s' next] dones]. unfold out_held in Hm. cbn [fst snd] in *.
  assert (∀ q, occ q old ≤ Admission.depth (adm (shared n)) q) as Hle.
  { intros q. rewrite Ho. destruct (threads n !! t) as [x|] eqn:Et; cbn; [|destruct Hok as [_ Hk]; apply Hk].
    rewrite Hd. pose proof (occ_nonneg q (concat (leaks <$> log n))) as Hlk. unfold leaked.
    assert (occ q (held x) ≤ held_by q n) as Hh; [|lia]. apply (map_sum_le (λ x, occ q (held x)) _ t x); [|done]. intros z. apply occ_nonneg. }
  destruct (Hm Hok Hle) as [Hok' Hd']. split; cbn [leave shared threads].
  - congruence.
  - done.
  - intros t' x' Ht'. apply (thread_prio_same (adm (shared n))); [done|]. destruct next as [x|].
    + apply lookup_insert_Some in Ht' as [[-> <-]|[_ Ht']]; [by apply Hx|by eapply Hp].
    + apply lookup_delete_Some in Ht' as [_ Ht']. by eapply Hp.
  - intros q. rewrite Hd', Hd, occ_app. unfold held_by, leaked. cbn [threads log]. rewrite fmap_app, concat_app, occ_app. destruct (threads n !! t) as [x0|] eqn:Et; cbn in Ho; subst old; destruct next as [x|]; cbn.
    + rewrite (map_sum_update _ _ t x0 x) by done. lia.
    + rewrite (map_sum_delete _ (threads n) t x0) by done. change (occ q []) with 0. lia.
    + rewrite map_sum_insert by done. change (occ q []) with 0. lia.
    + rewrite delete_id by done. lia.
Qed.

(** A topic's priority changes only while no call for it is under way. *)
Definition topics_of (x : Thread) : list TopicId :=
  (f_topic ∘ j_frame <$> jobs_of x) ++ match fan_of x with Some c => [f_topic (fan_frame c)] | None => [] end.
Definition settled_op (n : Node) (op : Op) : Prop :=
  match op with
  | ORegister t prio => prio = Admission.priority_for (Admission.registry (adm (shared n))) t ∨ ∀ i x, threads n !! i = Some x → t ∉ topics_of x
  | _ => True
  end.
Fixpoint settled (n : Node) (ops : list Op) : Prop :=
  match ops with [] => True | op :: ops => settled_op n op ∧ ∀ n', exec n op = Some n' → settled n' ops end.

Lemma settled_without_registration ops n : Forall (λ op, match op with ORegister _ _ => False | _ => True end) ops → settled n ops.
Proof.
  revert n. induction ops as [|op ops IH]; intros n Hops; [done|]. apply Forall_cons in Hops as [Hop Hops].
  split; [by destruct op|]. intros n' _. by apply IH.
Qed.

Lemma register_prio a t prio x :
  (prio = Admission.priority_for (Admission.registry a) t ∨ t ∉ topics_of x) → thread_prio a x →
  thread_prio (Admission.with_registry a (Admission.register (Admission.registry a) t prio)) x.
Proof.
  intros Ht [Hj Hc].
  assert (∀ t', t' ∈ topics_of x → Admission.priority_for (Admission.register (Admission.registry a) t prio) t' = Admission.priority_for (Admission.registry a) t') as Hs.
  { intros t' Ht'. unfold Admission.priority_for, Admission.register in *. destruct (decide (t = t')) as [<-|Hne].
    - rewrite (lookup_insert_eq (Admission.registry a)). cbn. by destruct Ht.
    - by rewrite (lookup_insert_ne (Admission.registry a)). }
  unfold topics_of in Hs. split.
  - intros j Hjx. unfold job_prio. cbn. rewrite Hs; [by apply Hj|]. apply elem_of_app. left. by apply (list_elem_of_fmap_2 (f_topic ∘ j_frame)).
  - intros c Hcx. cbn. rewrite Hs; [by apply Hc|]. rewrite Hcx. apply elem_of_app. right. by apply list_elem_of_singleton.
Qed.

Lemma fan_start_idle s fr peers : held (fan_start s fr peers) = [] ∧ thread_prio (adm s) (fan_start s fr peers).
Proof.
  unfold fan_start. destruct (_ && _ && _ && _).
  - split; [cbn; by induction peers|]. split; [|by intros c [= <-]]. intros j (k & Hj & Hk)%list_elem_of_bind.
    apply list_elem_of_fmap in Hk as (p & -> & _). by apply elem_of_nil in Hj.
  - destruct (Egress.enabled _); (split; [done|]); (split; [by intros j ?%elem_of_nil|by intros c [= <-]]).
Qed.

Lemma put_single_inv cfg n t j s x old :
  depth_inv cfg n → old = default [] (held <$> threads n !! t) → moved (adm (shared n)) (adm s) old (next_held j x) → job_prio (adm (shared n)) j →
  depth_inv cfg (put_single n t j s x).
Proof.
  intros Hn Ho Hm Hj. unfold put_single. eapply leave_inv; [done|exact Ho| |]; destruct x as [st|r]; try done; [unfold out_held; by rewrite app_nil_r|].
  intros x' [= <-]. split; [|done]. by intros j' ->%list_elem_of_singleton.
Qed.

(** A call starts that holds nothing yet. *)
Lemma start_inv cfg n t x :
  depth_inv cfg n → threads n !! t = None → held x = [] → thread_prio (adm (shared n)) x → depth_inv cfg (mkNode (shared n) (<[t := x]> (threads n)) (log n)).
Proof.
  intros Hn Et Hh Hx. pose proof (leave_inv cfg n t (shared n, Some x, []) [] Hn) as Hi. cbn [leave] in Hi. rewrite app_nil_r in Hi. apply Hi.
  - by rewrite Et.
  - unfold out_held. cbn. rewrite Hh. apply moved_same.
  - by intros x' [= <-].
Qed.

Lemma exec_depth_inv cfg n op n' : depth_inv cfg n → settled_op n op → exec n op = Some n' → depth_inv cfg n'.
Proof.
  intros Hn Hs E. destruct op as [t p fr now|t fr peers|t b fr peers|t ev|t ev|t|t prio|op|m i]; cbn [SendLayer.exec] in E.
  - destruct (threads n !! t) eqn:Et; [done|]. destruct (single_start _ _ _ _) as [[j s'] x] eqn:Es. injection E as <-.
    apply single_start_moved in Es as (Hm & Hp & Hf). eapply put_single_inv; [done|by rewrite Et|exact Hm|]. unfold job_prio. by rewrite Hp, Hf.
  - destruct (threads n !! t) eqn:Et; [done|]. injection E as <-. destruct (fan_start_idle (shared n) fr peers) as [Hh Hp]. by apply start_inv.
  - destruct (threads n !! t) eqn:Et; [done|]. injection E as <-. apply start_inv; [done..|]. by split; [intros j ?%elem_of_nil|].
  - destruct (threads n !! t) as [[j st| | | | | | | | | | | | | |]|] eqn:Et; try done. apply bind_Some in E as ([s' x] & Es & [= <-]).
    assert (job_prio (adm (shared n)) j) as Hj by (apply (di_prio _ _ Hn _ _ Et), list_elem_of_singleton; done).
    eapply put_single_inv; [done|by rewrite Et|by eapply single_step_moved|done].
  - apply bind_Some in E as (x & Et & E). apply bind_Some in E as (y & Ey & [= <-]).
    apply step_moved in Ey as [Hm Hx]; [|by eapply di_prio]. eapply leave_inv; [done|by rewrite Et|exact Hm|exact Hx].
  - apply bind_Some in E as (x & Et & E). apply bind_Some in E as (y & Ey & [= <-]).
    apply cancel_moved in Ey as [Hm Hx]. eapply leave_inv; [done|by rewrite Et|exact Hm|exact Hx].
  - injection E as <-. destruct Hn as [Hcfg Hok Hp Hd]. split; [exact Hcfg|exact Hok| |exact Hd]. intros t' x Ht. cbn in Ht |- *. apply register_prio; [|by eapply Hp].
    destruct Hs as [Hs|Hs]; [by left|right; by eapply Hs].
  - injection E as <-. by destruct Hn.
  - injection E as <-. by destruct Hn.
Qed.

Lemma run_depth_inv cfg ops n n' : depth_inv cfg n → settled n ops → run n ops = Some n' → depth_inv cfg n'.
Proof.
  revert n. induction ops as [|op ops IH]; intros n Hn Hs E; [by injection E as <-|].
  cbn [SendLayer.run] in E. apply bind_Some in E as (n1 & E1 & E). destruct Hs as [Hs Hs']. eapply IH; [by eapply exec_depth_inv|by apply Hs'|done].
Qed.

(** What is lost stays lost. *)
Lemma exec_log n op n' : exec n op = Some n' → ∃ l, log n' = log n ++ l.
Proof.
  assert (∀ t y, ∃ l, log (leave n t y) = log n ++ l) as Hl by (intros t [[s x] dones]; by exists dones).
  intros E. destruct op as [t p fr now|t fr peers|t b fr peers|t ev|t ev|t|t prio|op|m i]; cbn [SendLayer.exec] in E;
    try (injection E as <-; exists []; by rewrite app_nil_r).
  - destruct (threads n !! t); [done|]. destruct (single_start _ _ _ _) as [[j s'] x]. injection E as <-. apply Hl.
  - destruct (threads n !! t); [done|]. injection E as <-. exists []. by rewrite app_nil_r.
  - destruct (threads n !! t); [done|]. injection E as <-. exists []. by rewrite app_nil_r.
  - destruct (threads n !! t) as [[]|]; try done. apply bind_Some in E as ([s' x] & _ & [= <-]). apply Hl.
  - apply bind_Some in E as (x & _ & E). apply bind_Some in E as (y & _ & [= <-]). apply Hl.
  - apply bind_Some in E as (x & _ & E). apply bind_Some in E as (y & _ & [= <-]). apply Hl.
Qed.
Lemma run_leaked ops n n' p : run n ops = Some n' → leaked p n ≤ leaked p n'.
Proof.
  revert n. induction ops as [|op ops IH]; intros n E; [by injection E as <-|]. cbn [SendLayer.run] in E.
  apply bind_Some in E as (n1 & E1 & E). apply IH in E. destruct (exec_log _ _ _ E1) as [l El]. unfold leaked in *.
  rewrite El, fmap_app, concat_app, occ_app in E. pose proof (occ_nonneg p (concat (leaks <$> l))). lia.
Qed.

(** A node without calls. *)
Record fresh (n : Node) : Prop := {
  fr_threads : threads n = ∅;
  fr_log : log n = [];
  fr_ok : Admission.depth_ok (adm (shared n));
  fr_depth : ∀ p, Admission.depth (adm (shared n)) p = 0;
}.
Lemma fresh_run n0 n ops : fresh n0 → settled n0 ops → run n0 ops = Some n → depth_inv (Admission.config (adm (shared n0))) n.
Proof.
  intros [Ht Hlog Hok Hz] Hs E. eapply run_depth_inv; [|exact Hs|exact E]. split; [done|done|by rewrite Ht|].
  intros p. rewrite Hz. unfold held_by, leaked. by rewrite Ht, Hlog, map_sum_empty.
Qed.
Lemma run_app ops ops' n n1 n2 : run n ops = Some n1 → run n1 ops' = Some n2 → run n (ops ++ ops') = Some n2.
Proof.
  revert n. induction ops as [|op ops IH]; intros n E E'; [by injection E as ->|]. cbn [SendLayer.run app] in *.
  apply bind_Some in E as (m & -> & E). cbn. by eapply IH.
Qed.

(** C38. The Bulk depth is exact.  From a node without calls, after any
    interleaving of sends, fan-outs, rounds of the background tasks,
    cancellations and other work in which a topic's priority is only registered
    while no call for it is under way: the Bulk depth of every peer is the number
    of calls' guards that hold it (as often as they hold it) and of the digests
    to it that found no attempt -- these alone are never given back -- and it is
    at most the threshold. *)
Theorem bulk_depth_exact (n0 n : Node) (ops : list Op) :
  fresh n0 → settled n0 ops → run n0 ops = Some n →
  (∀ p, Admission.depth (adm (shared n)) p = held_by p n + leaked p n ∧
        Admission.depth (adm (shared n)) p ≤ Admission.per_peer_bulk_slack_threshold (Admission.config (adm (shared n)))) ∧
  (threads n = ∅ → ∀ p, Admission.depth (adm (shared n)) p = leaked p n).
Proof.
  intros Hf Hs E. destruct (fresh_run _ _ _ Hf Hs E) as [_ Hok _ Hd].
  split; [intros p; split; [apply Hd|apply Hok]|]. intros Hn p. rewrite Hd. unfold held_by. by rewrite Hn, map_sum_empty.
Qed.

(** Digests that find no attempt end a peer's Bulk traffic: once as many of
    them as the threshold have gone to a peer, every later Bulk admission of that
    peer is refused, whatever its health and whatever the node does in between. *)
Lemma unclaimed_digests_block_bulk (n0 n n' : Node) (ops ops' : list Op) (p : PeerId) (fr : Frame) (health : option PeerHealth) (cooled : bool) :
  fresh n0 → settled n0 (ops ++ ops') → run n0 ops = Some n → run n ops' = Some n' →
  Admission.per_peer_bulk_slack_threshold (Admission.config (adm (shared n0))) ≤ leaked p n →
  priority (shared n') fr = Bulk → (admit_raw (shared n') fr p health cooled).2 = false.
Proof.
  intros Hf Hs E E' Hl Hp. apply (run_leaked _ _ _ p) in E' as Hm. destruct (fresh_run n0 n' (ops ++ ops') Hf Hs (run_app _ _ _ _ _ E E')) as [Hc _ _ Hd].
  pose proof (held_nonneg p n') as Hh.
  unfold admit_raw. pose proof (Admission.admit_spec (adm (shared n')) (f_topic fr) p health cooled) as [Ha _].
  destruct (Admission.admit_ _ _ _ _ _) as [a d]. cbn [snd] in *. subst d. unfold priority in Hp. rewrite Hp, Hc, Hd.
  unfold Admission.decision_spec. destruct health as [[]|], cooled; try done; cbn; by rewrite decide_False by lia.
Qed.

(** ** The accounts of a fan-out *)

Definition skips_total (k : SendClaimSkips) : nat := transport_disconnected k + cooling k + budget_exhausted k.
(** Its bytes may be refused. *)
Definition may_shed (fr : Frame) (prio : TopicPriority) : Prop := f_local fr = false ∧ prio ≠ Critical.

Record counts_ok (c : Fan) (f : FanoutCounts) (attempted_peers : list PeerId) : Prop := {
  co_candidates : candidates f = fan_candidates c;
  co_stages : candidates f = (byte_rejected f + admission_dropped f + claim_skipped f + attempted f)%nat;
  co_skips : claim_skipped f = (claim_skipped_disconnected f + claim_skipped_cooling f + claim_skipped_budget f)%nat;
  co_succeeded : (succeeded f ≤ attempted f)%nat;
  co_peers : length attempted_peers = attempted f;
  co_shed : byte_rejected f ≠ 0%nat → fan_shed c = true ∧ may_shed (fan_frame c) (fan_prio c);
}.
Definition done_ok (d : Done) : Prop :=
  match d with
  | DoneSend j r => r.2 = ByteRejected → may_shed (j_frame j) (j_prio j)
  | DoneFan c f l => counts_ok c f l
  | DoneBack _ b _ lost => lost = [] ∨ b = BDigest
  end.

(** Who waits for bytes may be refused them, and waits as [Ordinary]. *)
Definition single_ok (j : Job) (st : Stage) : Prop :=
  match st with SWait _ class => may_shed (j_frame j) (j_prio j) ∧ class = Egress.Ordinary | _ => True end.
Definition next_ok (j : Job) (x : Stage + Res) : Prop := match x with inl st => single_ok j st | inr r => done_ok (DoneSend j r) end.

Record tally_ok (c : Fan) (pending : nat) (t : Tally) : Prop := {
  to_total : fan_candidates c = (pending + t_rejected t + t_dropped t + t_skipped t + length (t_attempted t))%nat;
  to_skips : t_skipped t = skips_total (t_skips t);
  to_sent : (t_succeeded t ≤ length (t_attempted t))%nat;
  to_rejected : t_rejected t = 0%nat;
}.
Definition kid_ok (c : Fan) (k : PeerId * option (Job * Stage)) : Prop :=
  match k.2 with Some (j, st) => j_frame j = fan_frame c ∧ single_ok j st | None => True end.
Definition shed_ok (c : Fan) : Prop := fan_shed c = true → may_shed (fan_frame c) (fan_prio c).

Definition thread_ok (x : Thread) : Prop :=
  match x with
  | TSingle j st => single_ok j st
  | TSeq c kids t => f_local (fan_frame c) = true ∧ Forall (kid_ok c) kids ∧ tally_ok c (length kids) t
  | TSeqWithhold c t => tally_ok c 0 t
  | FReserve c todo peers deferred =>
      shed_ok c ∧ fan_candidates c = (length todo + length peers + length deferred)%nat ∧ (deferred ≠ [] → fan_shed c = true)
  | FWithhold c peers _ | FCool c peers => shed_ok c ∧ (length peers ≤ fan_candidates c)%nat ∧ (length peers ≠ fan_candidates c → fan_shed c = true)
  | FAdmit c rejected _ _ todo admitted => shed_ok c ∧ (rejected + length todo + length admitted ≤ fan_candidates c)%nat ∧ (rejected ≠ 0%nat → fan_shed c = true)
  | FClaim c rejected admitted => shed_ok c ∧ (rejected + length admitted ≤ fan_candidates c)%nat ∧ (rejected ≠ 0%nat → fan_shed c = true)
  | FAnnounce c rejected admitted attempts skips =>
      shed_ok c ∧ (rejected + length admitted ≤ fan_candidates c)%nat ∧ (rejected ≠ 0%nat → fan_shed c = true) ∧
      length admitted = (length attempts + skips_total skips)%nat
  | FSend c _ counts tasks => counts_ok c counts (at_peer <$> tasks.*1)
  | BReserve _ _ _ _ _ | BClaim _ _ _ _ | BSend _ _ _ _ _ | BBook _ _ _ _ _ | TDrop _ _ => True
  end.
Definition left_ok (y : Outcome) : Prop := (∀ x, y.1.2 = Some x → thread_ok x) ∧ Forall done_ok y.2.

Lemma stay_ok s x y : stay s x = Some y → thread_ok x → left_ok y.
Proof. intros [= <-] Hx. split; [by intros x' [= <-]|constructor]. Qed.

Lemma add_skip_total k r : skips_total (add_skip k r) = S (skips_total k).
Proof. destruct r; cbn; unfold skips_total; cbn; lia. Qed.

Lemma claim_all_total s fr prio now vw peers acc :
  let '(_, attempts, skips) := claim_all s fr prio now vw peers acc in
  (length attempts + skips_total skips = length acc.1 + skips_total acc.2 + length peers)%nat.
Proof.
  revert s vw acc. induction peers as [|p peers IH]; intros s vw acc; [cbn; lia|]. cbn [claim_all].
  destruct (claim_peer _ _ _ _ _ _ _) as [s' r].
  specialize (IH s' (λ i, vw (S i)) match r with inl a => (acc.1 ++ [a], acc.2) | inr why => (acc.1, add_skip acc.2 why) end).
  destruct (claim_all _ _ _ _ _ _ _) as [[s2 attempts] skips]. rewrite IH.
  destruct r; cbn [fst snd length]; rewrite ?length_app, ?add_skip_total; cbn; lia.
Qed.

Lemma reserved_ok s j res : may_shed (j_frame j) (j_prio j) → next_ok j (reserved s j res).2.
Proof. intros Hj. destruct res as [r|[]]; cbn; auto. Qed.

Lemma single_start_ok s p fr now j s' x : single_start s p fr now = (j, s', x) → next_ok j x.
Proof.
  unfold single_start. destruct (negb _); [by intros [= <- <- <-]|]. destruct (protected_send _ _) eqn:Ep.
  { unfold protect. destruct (Egress.reserve_protected _ _ _ _ _). by intros [= <- <- <-]. }
  unfold protected_send in Ep. cbn in Ep. apply orb_false_iff in Ep as [[_ Hc]%orb_false_iff Hl]. apply bool_decide_eq_false in Hc.
  destruct (Egress.reserve_recovery_enter _ _ _) as [[l gen]|e].
  - intros [= <- <- <-]. cbn. split; [done|]. unfold wait_class. cbn. by rewrite bool_decide_eq_false_2.
  - intros [= <- <- <-]. by apply (reserved_ok s (mkJob p fr (priority s fr)) (Err e)).
Qed.

Lemma single_step_ok s j st ev s' x : single_step s j st ev = Some (s', x) → single_ok j st → next_ok j x.
Proof.
  intros E Hj. destruct st as [gen class|r|r cooled|r|a k]; destruct ev as [now| |now|health conn|now conn granted|ev0|now health]; try done; cbn [SendLayer.single_step] in E; try (by destruct k).
  - destruct Hj as [Hj ->]. injection E as E. unfold wait_poll in E. destruct (Egress.try_reserve_recovery_at_class _ _ _ _ _ _) as [l [r|[]]];
      try (by injection E as <- <-); destruct (wait_exit _ _ _ _ _) as [s1 res]; pose proof (reserved_ok s1 j res Hj) as Hr; by rewrite E in Hr.
  - destruct Hj as [Hj ->]. destruct (wait_exit _ _ _ _ _) as [s1 res]. apply (inj Some) in E. pose proof (reserved_ok s1 j res Hj) as Hr. by rewrite E in Hr.
  - by injection E as <- <-.
  - destruct (admit_peer _ _ _ _ _ _ _) as [s1 ok]. injection E as <- <-. by destruct ok.
  - destruct (claim_topic_send_attempts _ _ _ _ _) as [[s1 attempts] skips]. by destruct attempts; injection E as <- <-.
  - assert (('(s, k) ← task_step s (j_frame j) (j_peer j) k ev0; Some (s, inl (SSend a k) : Stage + Res)) = Some (s', x)) as E' by by destruct k.
    by apply bind_Some in E' as ([s1 k'] & Ek & [= <- <-]).
  - destruct k; try done. by apply bind_Some in E as (s1 & Ek & [= <- <-]).
Qed.

Lemma tally_ok_step c pending t p r :
  r.2 ≠ ByteRejected → tally_ok c (S pending) t → tally_ok c pending (tally t p r).
Proof.
  intros Hr [Ht Hk Hs Hj]. unfold tally. destruct r as [o [| |why|]]; cbn [fst snd] in *; [done| | |]; split; cbn [t_rejected t_dropped t_skipped t_skips t_attempted t_succeeded push_deferred];
    rewrite ?add_skip_total, ?length_app; cbn [length]; try lia.
  destruct o; lia.
Qed.

Lemma tally_counts_ok c t : tally_ok c 0 t → counts_ok c (tally_counts c t) (t_attempted t).
Proof. intros [Ht Hk Hs Hj]. unfold skips_total in Hk. split; cbn; try lia. Qed.

Lemma local_not_shed fr prio : f_local fr = true → ¬ may_shed fr prio.
Proof. intros Hl [Hf _]. congruence. Qed.

Lemma kid_next_ok s c kids t i p k j x y :
  kids !! i = Some (p, k) → thread_ok (TSeq c kids t) → j_frame j = fan_frame c → next_ok j x →
  kid_next s c kids t i p j x = Some y → left_ok y.
Proof.
  intros Hi (Hl & Hkids & Ht) Hf Hx E. unfold kid_next in E. destruct x as [st|r]; eapply stay_ok; try exact E; cbn.
  - rewrite length_insert. split_and!; [done| |done]. apply Forall_insert; [done|]. by split.
  - split_and!; [done|by apply Forall_delete|]. apply tally_ok_step.
    + intros Hr%Hx. rewrite Hf in Hr. by eapply local_not_shed.
    + replace (S (length (delete i kids))) with (length kids); [done|]. rewrite length_delete by (by eexists). apply lookup_lt_Some in Hi. lia.
Qed.

Lemma seq_step_ok s c kids t ev y : seq_step cooling_config s c kids t ev = Some y → thread_ok (TSeq c kids t) → left_ok y.
Proof.
  intros E Hx. destruct ev; try done; cbn [seq_step] in E.
  - destruct kids; [|done]. destruct Hx as (_ & _ & Ht). destruct (_ || _); [|by eapply stay_ok]. injection E as <-.
    split; [done|]. constructor; [by apply tally_counts_ok|constructor].
  - apply bind_Some in E as ([p [k|]] & Hi & E); [done|]. destruct (single_start _ _ _ _) as [[j s'] x] eqn:Es.
    pose proof (single_start_moved _ _ _ _ _ _ _ Es) as (_ & _ & Hf). apply single_start_ok in Es. by eapply kid_next_ok.
  - apply bind_Some in E as ([p k] & Hi & E). apply bind_Some in E as ([j st] & -> & E). apply bind_Some in E as ([s' x] & Es & E).
    assert (kid_ok c (p, Some (j, st))) as [Hf Hj]. { destruct Hx as (_ & Hx & _). rewrite Forall_lookup in Hx. by apply (Hx i). }
    apply single_step_ok in Es; [|done]. by eapply kid_next_ok.
Qed.

Lemma reserve_one_shed s c p now s' c' ok :
  reserve_one s c p now = (s', c', ok) →
  fan_frame c' = fan_frame c ∧ fan_prio c' = fan_prio c ∧ fan_candidates c' = fan_candidates c ∧ fan_shed c' = fan_shed c ∧ (ok = false → fan_shed c = true).
Proof.
  unfold reserve_one, protect. destruct (fan_shed c) eqn:Es; cbn [negb].
  - destruct (Egress.try_reserve_data _ _ _ _ _) as [l [r|[]]]; intros [= <- <- <-]; cbn; rewrite ?Es; done.
  - destruct (Egress.reserve_protected _ _ _ _ _) as [l [r|]]; intros [= <- <- <-]; cbn; rewrite ?Es; done.
Qed.

Lemma fan_counts_ok c rejected admitted attempts skips :
  shed_ok c → (rejected + length admitted ≤ fan_candidates c)%nat → (rejected ≠ 0%nat → fan_shed c = true) →
  length admitted = (length attempts + skips_total skips)%nat → counts_ok c (fan_counts c rejected admitted attempts skips 0) (at_peer <$> attempts).
Proof. intros Hs Hc Hr Hk. unfold skips_total in Hk. split; cbn; rewrite ?length_fmap; try lia. intros Hj%Hr. split; [done|by apply Hs]. Qed.

Lemma spawned_attempts res attempts : (spawn_bounded_send_tasks res attempts).*1 = attempts.
Proof. revert res. induction attempts as [|a l IH]; intros res; [done|]. cbn. f_equal. apply IH. Qed.

Lemma spawn_sends_ok s c rejected admitted attempts skips :
  shed_ok c → (rejected + length admitted ≤ fan_candidates c)%nat → (rejected ≠ 0%nat → fan_shed c = true) →
  length admitted = (length attempts + skips_total skips)%nat → left_ok (spawn_sends s c rejected admitted attempts skips).
Proof.
  intros Hs Hc Hr Hk. pose proof (fan_counts_ok c rejected admitted attempts skips Hs Hc Hr Hk) as Hf. unfold spawn_sends.
  destruct attempts as [|a attempts]; [split; [done|by apply Forall_singleton]|]. split.
  - intros x [= <-]. cbn [thread_ok]. rewrite fmap_cons, spawned_attempts. exact Hf.
  - destruct (f_local _); [constructor|by apply Forall_singleton].
Qed.

Lemma collect_all_sent tasks rs : collect_all tasks = Some rs → (length (r_sent rs) ≤ length tasks)%nat.
Proof.
  revert rs. induction tasks as [|[a [r| |r]] tasks IH]; intros rs E; try done; [by injection E as <-|].
  cbn in E. apply bind_Some in E as (rs' & Hrs & [= <-]). specialize (IH _ Hrs). cbn. rewrite length_app. destruct r; cbn; lia.
Qed.

Lemma back_claim_ok s c b peers deferred now connected health vw : left_ok (back_claim s c b peers deferred now connected health vw).
Proof.
  unfold back_claim. destruct (topics s !! _); [|by split]. destruct (filter_peers_through_admission_in_state _ _ _ _ _ _) as [s1 admitted].
  destruct admitted as [|p l]; [by split|]. destruct (claim_topic_send_attempts _ _ _ _ _) as [[s2 attempts] skips].
  destruct attempts; [destruct b; (split; [done|]; apply Forall_singleton; cbn; auto)|]. split; [by intros x [= <-]|constructor].
Qed.

Lemma back_step_ok s x ev y : back_step cooling_config s x ev = Some y → left_ok y.
Proof.
  intros E. destruct x as [j st|c kids t|c t|c todo peers deferred|c peers deferred|c peers|c rejected cooled conn todo admitted|c rejected admitted|c rejected admitted attempts skips|c admitted counts tasks|c b todo peers deferred|c b peers deferred|c b bulk deferred tasks|c w bulk deferred sent|t probes]; try done.
  - destruct todo as [|p todo], ev; try done; cbn [back_step] in E; [destruct peers; [injection E as <-; by split|by eapply stay_ok]|].
    destruct (reserve_target s c p now) as [[s' c'] ok]. by eapply stay_ok.
  - destruct ev as [| | | | |now vw| | |now connected health vw| |]; try done. injection E as <-. apply back_claim_ok.
  - destruct ev; try done; cbn [back_step] in E.
    + apply bind_Some in E as ([a k] & _ & E). apply bind_Some in E as ([s' k'] & _ & E). by eapply stay_ok.
    + apply bind_Some in E as (rs & _ & E). apply bind_Some in E as (s' & _ & E).
      destruct b; [by eapply stay_ok| |]; injection E as <-; (split; [done|]; apply Forall_singleton; by left).
  - destruct ev; try done. injection E as <-. split; [done|]. apply Forall_singleton. by left.
Qed.

Lemma fan_step_ok s x ev y : fan_step s x ev = Some y → thread_ok x → left_ok y.
Proof.
  intros E Hx. destruct x as [j st|c kids t|c t|c todo peers deferred|c peers deferred|c peers|c rejected cooled conn todo admitted|c rejected admitted|c rejected admitted attempts skips|c admitted counts tasks|c b todo peers deferred|c b peers deferred|c b bulk deferred tasks|c w bulk deferred sent|t probes].
  - done.
  - by eapply seq_step_ok.
  - destruct ev; try done. injection E as <-. split; [done|]. constructor; [by apply tally_counts_ok|constructor].
  - destruct Hx as (Hs & Hc & Hd), todo as [|p todo], ev; try done; cbn [SendLayer.fan_step] in E.
    + eapply stay_ok; [exact E|]. cbn [length] in Hc.
      assert (thread_ok (FCool c peers)). { split_and!; [done|lia|]. intros Hne. apply Hd. intros ->. apply Hne. cbn in Hc. lia. }
      case_match; done.
    + destruct (reserve_one s c p now) as [[s' c'] ok] eqn:Er. apply reserve_one_shed in Er as (Hf & Hp & Hcc & Hsc & Hok).
      eapply stay_ok; [exact E|]. cbn. unfold shed_ok. rewrite Hf, Hp, Hcc, Hsc. cbn [length] in Hc. split_and!; [done| |].
      * destruct ok; rewrite length_app; cbn; lia.
      * destruct ok; [done|]. intros _. by apply Hok.
  - destruct ev; try done. by eapply stay_ok.
  - destruct Hx as (Hs & Hc & Hd). destruct ev; try done. eapply stay_ok; [exact E|]. cbn. split_and!; [done|lia|]. intros Hne. apply Hd. lia.
  - destruct Hx as (Hs & Hc & Hd), todo as [|p todo], ev; try done; cbn [SendLayer.fan_step length] in *.
    + destruct admitted as [|p admitted]; [|eapply stay_ok; [exact E|]; cbn in *; split_and!; [done|lia|done]].
      injection E as <-. split; [done|]. apply Forall_singleton. apply (fan_counts_ok c rejected [] [] no_skips); [done|cbn in *; lia|done|done].
    + case_bool_decide; [eapply stay_ok; [exact E|]; cbn in *; split_and!; [done|lia|done]|].
      destruct (admit_peer _ _ _ _ _ _ _) as [s' ok]. eapply stay_ok; [exact E|]. cbn. split_and!; [done| |done]. destruct ok; rewrite ?length_app; cbn; lia.
  - destruct Hx as (Hs & Hc & Hd). destruct ev as [| | | | |now vw| | | | |]; try done. cbn [SendLayer.fan_step] in E. unfold claim_topic_send_attempts in E.
    pose proof (claim_all_total s (fan_frame c) (priority s (fan_frame c)) now vw admitted ([], no_skips)) as Hk.
    destruct (claim_all _ _ _ _ _ _ _) as [[s' attempts] skips]. cbn in Hk. destruct (_ && _).
    + eapply stay_ok; [exact E|]. cbn. split_and!; [done|done|done|lia].
    + injection E as <-. apply spawn_sends_ok; [done|done|done|lia].
  - destruct Hx as (Hs & Hc & Hd & Hk). destruct ev; try done. injection E as <-. by apply spawn_sends_ok.
  - destruct ev; try done; cbn [SendLayer.fan_step] in E.
    + apply bind_Some in E as ([a k] & Hi & E). apply bind_Some in E as ([s' k'] & Ek & E). eapply stay_ok; [exact E|]. cbn [thread_ok] in *.
      rewrite list_fmap_insert. cbn. rewrite list_insert_id by (by rewrite list_lookup_fmap, Hi). done.
    + apply bind_Some in E as (rs & Hrs & E). apply bind_Some in E as (s' & Eb & [= <-]). split; [done|]. destruct (f_local _); [|constructor].
      constructor; [|constructor]. apply collect_all_sent in Hrs. destruct Hx as [H1' H2' H3' H4' H5' H6']. cbn in H5'. rewrite !length_fmap in H5'.
      split; cbn; rewrite ?length_fmap; try done; lia.
  - by eapply (back_step_ok s (BReserve c b todo peers deferred) ev).
  - by eapply (back_step_ok s (BClaim c b peers deferred) ev).
  - by eapply (back_step_ok s (BSend c b bulk deferred tasks) ev).
  - by eapply (back_step_ok s (BBook c w bulk deferred sent) ev).
  - destruct ev; try done. cbn [SendLayer.fan_step] in E. apply bind_Some in E as (s' & Eb & [= <-]). split; [done|constructor].
Qed.

Lemma cancel_ok s x y : cancel s x = Some y → left_ok y.
Proof.
  assert (∀ s' t probes, Some (dropped s' t probes) = Some y → left_ok y) as Hd.
  { intros s' t probes [= <-]. destruct probes; (split; [|constructor]); [done|]. by intros x' [= <-]. }
  intros E. destruct x; cbn [cancel] in E; try done; try (by eapply Hd). destruct (f_local _); [by eapply Hd|done].
Qed.

(** *** Runs *)

Definition node_ok (n : Node) : Prop := map_Forall (λ _ x, thread_ok x) (threads n) ∧ Forall done_ok (log n).

Lemma leave_ok n t y : node_ok n → left_ok y → node_ok (leave n t y).
Proof.
  intros [Ht Hl] [Hx Hd]. destruct y as [[s next] dones]. split; cbn in *; [|by apply Forall_app].
  destruct next as [x|]; [apply map_Forall_insert_2; auto|by apply map_Forall_delete].
Qed.

Lemma put_single_ok n t j s x : node_ok n → next_ok j x → node_ok (put_single n t j s x).
Proof.
  intros Hn Hx. unfold put_single. apply leave_ok; [done|]. destruct x as [st|r]; split; cbn; try done; [by intros x' [= <-]|by apply Forall_singleton].
Qed.

Lemma fan_start_ok s fr peers : thread_ok (fan_start s fr peers).
Proof.
  unfold fan_start. set (c := mkFan _ _ _ _ _). assert (shed_ok c) as Hs.
  { unfold shed_ok, c. cbn. intros [[_ Hl]%andb_true_iff Hc]%andb_true_iff. apply negb_true_iff in Hl, Hc. by apply bool_decide_eq_false in Hc. }
  destruct (_ && _ && _ && _) eqn:E.
  - apply andb_true_iff in E as [_ Hl]. split_and!; [done| |].
    + apply Forall_fmap, Forall_true. done.
    + rewrite length_fmap. split; cbn; lia.
  - destruct (Egress.enabled _); split_and!; cbn; try done; try lia.
Qed.

Lemma exec_node_ok n op n' : node_ok n → exec n op = Some n' → node_ok n'.
Proof.
  intros Hn E. destruct op as [t p fr now|t fr peers|t b fr peers|t ev|t ev|t|t prio|op|m i]; cbn [SendLayer.exec] in E; try (by injection E as <-).
  - destruct (threads n !! t); [done|]. destruct (single_start _ _ _ _) as [[j s'] x] eqn:Es. injection E as <-.
    apply put_single_ok; [done|]. by eapply single_start_ok.
  - destruct (threads n !! t); [done|]. injection E as <-. destruct Hn as [Ht Hl]. split; [|done]. apply map_Forall_insert_2; [apply fan_start_ok|done].
  - destruct (threads n !! t); [done|]. injection E as <-. destruct Hn as [Ht Hl]. split; [|done]. by apply map_Forall_insert_2.
  - destruct (threads n !! t) as [[j st| | | | | | | | | | | | | |]|] eqn:Et; try done. apply bind_Some in E as ([s' x] & Es & [= <-]).
    apply put_single_ok; [done|]. eapply single_step_ok; [done|]. by apply (proj1 Hn _ _ Et).
  - apply bind_Some in E as (x & Et & E). apply bind_Some in E as (y & Ey & [= <-]). apply leave_ok; [done|].
    eapply fan_step_ok; [done|]. by apply (proj1 Hn _ _ Et).
  - apply bind_Some in E as (x & Et & E). apply bind_Some in E as (y & Ey & [= <-]). apply leave_ok; [done|]. by eapply cancel_ok.
Qed.

Lemma run_node_ok ops n n' : node_ok n → run n ops = Some n' → node_ok n'.
Proof.
  revert n. induction ops as [|op ops IH]; intros n Hn E; [by injection E as <-|]. cbn [SendLayer.run] in E.
  apply bind_Some in E as (n1 & E1 & E). eapply IH; [|done]. by eapply exec_node_ok.
Qed.

(** C39. The accounts of every fan-out balance, on every return path and under
    every interleaving, reconfiguration and cancellation: each peer it was
    called with is in exactly one of the stages rejected for its bytes, dropped
    by admission, skipped by the claim, attempted; the skips are exactly the
    sum of their three reasons; no more sends succeed than were attempted; the
    peers reported as attempted are as many as counted.  And the opt-in byte
    budget only ever refuses what it may: relayed frames of topics that are not
    Critical, in a fan-out (started while the limiter enforces, [fan_shed]) as in
    a single send.  Of the background rounds, only an anti-entropy digest can end
    without giving back its Bulk depth. *)
Theorem fanout_accounts_balance (s : Shared) (ops : list Op) (n : Node) :
  run (mkNode s ∅ []) ops = Some n → Forall done_ok (log n).
Proof. intros E. apply run_node_ok in E as [_ Hl]; [done|]. split; [apply map_Forall_empty|constructor]. Qed.
End SendLayer.
End SendLayerProps.
