(* ===== verification/SendLayerFence.v ===== *)
(** * The byte reservations of the send layer

    With the limiter left as it is configured, every reservation a call holds
    opens the transport fence; and a local publish whose eager copy is skipped
    owes its announcement. *)

From S2P Require Import Prelude Types Float64 MessageCache PeerTiming TopicMesh Announce Probes EagerReply Identity Plumtree KeyCodec SendBudget Admission Egress EgressProps SendLayer SendLayerProps.
Import F64 Timing MessageCache TopicMesh Announce EagerReply SendLayer SendLayerProps.

#[local] Open Scope Z_scope.

Module SendLayerFence.
Section Fence.
Context `{Hashes} `{Postcard} `{Libm} `{!SetIter PeerId} `{!LruCache MessageIdType CachedEntry}.
Context `{!HashIter Egress.RecoveryIntentKey Egress.Intent} `{!HashIter Egress.Id Z} (cooling_config : AdaptiveCoolingConfig).

Abbreviation single_step := (single_step cooling_config).
Abbreviation fan_step := (fan_step cooling_config).
Abbreviation exec := (exec cooling_config).
Abbreviation run := (run cooling_config).
Abbreviation limiter_ok := EgressProps.limiter_ok.
Abbreviation config l := (Egress.config (Egress.state l)).
Abbreviation generation l := (Egress.generation (Egress.state l)).

(** ** Steps that leave the configuration *)

Definition steady (l l' : Egress.LeafEgressLimiter) : Prop :=
  limiter_ok l → limiter_ok l' ∧ config l' = config l ∧ generation l' = generation l.

Lemma steady_refl l : steady l l.
Proof. by intros Hl. Qed.
Lemma steady_trans l1 l2 l3 : steady l1 l2 → steady l2 l3 → steady l1 l3.
Proof. intros H1' H2' Hl. destruct (H1' Hl) as (Hl2 & Hc & Hg), (H2' Hl2) as (? & ? & ?). split_and!; [done|congruence..]. Qed.

Lemma steady_purpose l topic purpose f : steady l (Egress.update_purpose l topic purpose f).
Proof. intros Hl. split; [by apply EgressProps.update_purpose_effect|]. unfold Egress.update_purpose. by case_match. Qed.

Lemma steady_counter l k n : k ≠ Egress.ChargedBytes → steady l (Egress.with_state l (Egress.state l) (Egress.fetch_add k n (Egress.counters l))).
Proof. intros Hk [Hi Hc Hf]. split; [|done]. split; [done| |done]. cbn [Egress.with_state Egress.counters]. by rewrite EgressProps.fetch_add_other. Qed.

Lemma steady_data l key bytes relayed now : 0 ≤ bytes → steady l (Egress.try_reserve_data_at l key bytes relayed now).1.
Proof.
  intros Hb [Hi Hc Hf]. pose proof (EgressProps.try_reserve_data_effect l key bytes relayed now Hi Hc Hb) as He.
  destruct (Egress.try_reserve_data_at _ _ _ _ _) as [l' r]. destruct He as (Hi' & [d Hd] & _ & Hfl & _). cbn.
  pose proof (EgressProps.sp_config _ _ _ _ _ _ Hd) as Ec. pose proof (EgressProps.sp_generation _ _ _ _ _ _ Hd) as Eg.
  split_and!; [|done..]. split; [done|by eapply EgressProps.spent_range|]. by apply (EgressProps.flags_ok_same l).
Qed.

Lemma steady_protected l key bytes relayed now : 0 ≤ bytes → steady l (Egress.reserve_protected l key bytes relayed now).1.
Proof.
  intros Hb [Hi Hc Hf]. pose proof (EgressProps.reserve_protected_effect l key bytes relayed now Hi Hc Hb) as He.
  assert (generation (Egress.reserve_protected l key bytes relayed now).1 = generation l) as Eg.
  { unfold Egress.reserve_protected. pose proof (EgressProps.refill_effect (Egress.state l) (Egress.counters l) now Hi Hc) as Hr.
    destruct (Egress.refill _ _ _) as [s c]. destruct Hr as (_ & [d Hd] & _). rewrite <-(EgressProps.sp_generation _ _ _ _ _ _ Hd).
    destruct (Egress.config s); [|done]. cbn. by destruct (relayed && _). }
  destruct (Egress.reserve_protected _ _ _ _ _) as [l' r]. destruct He as (Hi' & Hc' & Hfl & Ec & _). cbn in *.
  split_and!; [|done..]. split; [done..|]. by apply (EgressProps.flags_ok_same l).
Qed.

Lemma steady_recovery l key bytes gen now class : 0 ≤ bytes → steady l (Egress.try_reserve_recovery_at_class l key bytes gen now class).1.
Proof.
  intros Hb [Hi Hc Hf]. pose proof (EgressProps.try_reserve_recovery_effect l key bytes gen now class Hi Hc Hb) as He.
  destruct (Egress.try_reserve_recovery_at_class _ _ _ _ _ _) as [l' r]. destruct He as (Hi' & [d Hd] & _ & Hfl & _). cbn.
  pose proof (EgressProps.sp_config _ _ _ _ _ _ Hd) as Ec. pose proof (EgressProps.sp_generation _ _ _ _ _ _ Hd) as Eg.
  split_and!; [|done..]. split; [done|by eapply EgressProps.spent_range|]. by apply (EgressProps.flags_ok_same l).
Qed.

Lemma steady_cancel l key gen : steady l (Egress.cancel_intent l key gen).
Proof.
  intros [Hi Hc Hf]. destruct (EgressProps.cancel_intent_effect l key gen Hi) as (Hi' & Hst & Hcn & Hfl).
  unfold EgressProps.static, EgressProps.fixed in Hst. injection Hst as Ec Eg _ _ _ _ _ _ _ _ _.
  split_and!; [|done..]. split; [done|by rewrite Hcn|]. by apply (EgressProps.flags_ok_same l).
Qed.

Lemma steady_unwait l peer class : steady l (Egress.drop_waiter_permit l peer class).
Proof.
  intros Hl. split; [by apply EgressProps.drop_waiter_permit_effect|]. unfold Egress.drop_waiter_permit.
  destruct (Egress.waiters_by_peer (Egress.state l) !! peer) as [[o k]|]; destruct class; cbn; try done; by case_decide.
Qed.

Lemma steady_wait l peer class l' : Egress.waiter_permit l peer class = Ok l' → steady l l'.
Proof.
  intros E Hl. split; [by eapply EgressProps.waiter_permit_effect|]. revert E. unfold Egress.waiter_permit.
  case_decide; [done|]. destruct (default _ _) as [o k]. case_decide; [done|]. destruct class; by intros [= <-].
Qed.

Lemma steady_enter l key class l' gen :
  Egress.reserve_recovery_enter l key class = Ok (l', gen) → steady l l' ∧ Egress.enabled l = true ∧ gen = generation l'.
Proof.
  unfold Egress.reserve_recovery_enter. destruct (Egress.enabled l); [|done]. cbn. destruct (Egress.waiter_permit l _ _) as [l1|] eqn:E; [|done].
  intros [= <- <-]. split; [|done]. eapply steady_trans; [by eapply steady_wait|]. by apply steady_counter.
Qed.

Lemma steady_exit l key gen class o : steady l (Egress.reserve_recovery_exit l key gen class o false).1.
Proof.
  unfold Egress.reserve_recovery_exit. destruct o as [[r|e]|]; cbn -[Egress.fetch_add Egress.with_state Egress.drop_waiter_permit Egress.cancel_intent]; (eapply steady_trans; [|apply steady_unwait]).
  - apply steady_refl.
  - apply steady_cancel.
  - eapply steady_trans; [|apply steady_cancel]. by apply steady_counter.
Qed.

Lemma steady_validate l key r : steady l (Egress.validate_reservation l key r).1.
Proof.
  unfold Egress.validate_reservation. destruct (negb _); [apply steady_refl|]. case_bool_decide; [apply steady_refl|]. cbn.
  destruct (match key, r with Some _, Some _ => _ | _, _ => _ end); [apply steady_refl|by apply steady_counter].
Qed.

Lemma steady_outcome l topic op bytes sent : steady l (Egress.record_send_outcome l topic op bytes sent).
Proof.
  unfold Egress.record_send_outcome. destruct (negb _); [apply steady_refl|]. eapply steady_trans; [|apply steady_purpose].
  destruct sent; by apply steady_counter.
Qed.

(** What the other users of the limiter may do. *)
Definition steady_egress (op : EgressProps.Op) : Prop := match op with EgressProps.OpConfigure _ _ => False | _ => EgressProps.op_typed op end.
Lemma steady_exec l op : steady_egress op → steady l (EgressProps.exec l op).
Proof.
  intros Hop. destruct op; cbn [EgressProps.exec]; try done.
  - apply steady_data. apply Hop.
  - apply steady_protected. apply Hop.
  - apply steady_recovery. apply Hop.
  - apply steady_cancel.
  - intros Hl. split; [by apply EgressProps.clear_deferred_residue_effect|done].
  - apply steady_validate.
  - apply steady_purpose.
  - apply steady_outcome.
  - destruct (Egress.waiter_permit l peer class) eqn:E; [by eapply steady_wait|apply steady_refl].
  - apply steady_unwait.
Qed.

(** ** Reservations that fit *)

(** What a reservation for [key] is under the present configuration. *)
Definition fits (l : Egress.LeafEgressLimiter) (key : Egress.RecoveryIntentKey) (r : option Egress.ByteReservation) : Prop :=
  r = match config l with Some _ => Some (Egress.mkReservation key (generation l)) | None => None end.

Lemma fits_steady l l' key r : config l' = config l → generation l' = generation l → fits l key r → fits l' key r.
Proof. unfold fits. by intros -> ->. Qed.

Lemma fits_opens s fr p r :
  limiter_ok (lim s) → fits (lim s) (f_key fr p) r → task_step s fr p (KGate r) Engaged = Some (transmit s p (f_wire fr p), KFly).
Proof.
  intros [_ _ [He _]] Hr. unfold fits in Hr. cbn [task_step]. unfold Egress.validate_reservation. rewrite He.
  destruct s as [a l tps np w]. cbn in *. subst r. destruct (config l) as [cfg|] eqn:Ec; cbn.
  - unfold Egress.matches. cbn. by rewrite !bool_decide_eq_true_2.
  - done.
Qed.

Lemma f_len_nonneg fr p : 0 ≤ f_len fr p.
Proof. unfold f_len, KeyCodec.len. lia. Qed.

Lemma charge_steady s fr p b : steady (lim s) (lim (charge s fr p b)).
Proof. apply steady_purpose. Qed.

Lemma protect_fits s fr p now : limiter_ok (lim s) → steady (lim s) (lim (protect s fr p now).1) ∧ fits (lim s) (f_key fr p) (protect s fr p now).2.
Proof.
  intros Hl. unfold protect. pose proof (steady_protected (lim s) (f_key fr p) (f_len fr p) (negb (f_local fr)) now (f_len_nonneg fr p)) as Hst.
  pose proof (EgressProps.reserve_protected_effect (lim s) (f_key fr p) (f_len fr p) (negb (f_local fr)) now (EgressProps.lim_inv _ Hl) (EgressProps.lim_charged _ Hl) (f_len_nonneg fr p)) as He.
  destruct (Egress.reserve_protected _ _ _ _ _) as [l r]. destruct He as (_ & _ & _ & _ & Hr). by split.
Qed.

(** ** The invariant of a send *)

Definition waits (l : Egress.LeafEgressLimiter) (gen : Z) : Prop := is_Some (config l) ∧ gen = generation l.
Definition stage_fits (l : Egress.LeafEgressLimiter) (j : Job) (st : Stage) : Prop :=
  match st with
  | SWait gen _ => waits l gen
  | SCool r | SAdmit r _ | SClaim r | SSend _ (KGate r) => fits l (f_key (j_frame j) (j_peer j)) r
  | SSend _ _ => True
  end.
Definition next_fits (l : Egress.LeafEgressLimiter) (j : Job) (x : Stage + Res) : Prop := match x with inl st => stage_fits l j st | inr _ => True end.

(** The outcome of a step: the limiter kept its configuration, what holds now
    held with respect to the old one. *)
Definition kept (l l' : Egress.LeafEgressLimiter) (P : Egress.LeafEgressLimiter → Prop) : Prop := steady l l' ∧ P l.

Lemma stage_fits_same l l' j st : config l' = config l → generation l' = generation l → stage_fits l j st → stage_fits l' j st.
Proof. unfold stage_fits, waits, fits. by intros -> ->. Qed.
Lemma next_fits_same l l' j x : config l' = config l → generation l' = generation l → next_fits l j x → next_fits l' j x.
Proof. intros Hc Hg. destruct x; [by apply stage_fits_same|done]. Qed.

Lemma reserved_fits s j res :
  match res with Ok r => fits (lim s) (f_key (j_frame j) (j_peer j)) (Some r) | Err Egress.Disabled => config (lim s) = None | Err _ => True end →
  next_fits (lim s) j (reserved s j res).2.
Proof. intros Hr. destruct res as [r|[]]; try done. cbn. unfold fits. by rewrite Hr. Qed.

Lemma single_start_fits s p fr now j s' x :
  limiter_ok (lim s) → single_start s p fr now = (j, s', x) → steady (lim s) (lim s') ∧ next_fits (lim s) j x.
Proof.
  intros Hl. pose proof (EgressProps.lim_flags _ Hl) as [He _]. unfold single_start.
  destruct (Egress.enabled (lim s)) eqn:Een; cbn [negb].
  2: { intros [= <- <- <-]. split; [apply steady_refl|]. symmetry in He. cbn. unfold fits. destruct (config (lim s)); [done|done]. }
  symmetry in He. apply bool_decide_eq_true in He. destruct (protected_send _ _).
  - pose proof (charge_steady s fr p true) as Hc. destruct (Hc Hl) as (Hl1 & Ec & Eg).
    destruct (protect_fits (charge s fr p true) fr p now Hl1) as [Hst Hf]. destruct (protect _ _ _ _) as [s1 r]. intros [= <- <- <-].
    split; [by eapply steady_trans|]. cbn. by apply (fits_steady (lim (charge s fr p true))).
  - destruct (Egress.reserve_recovery_enter _ _ _) as [[l gen]|e] eqn:Er.
    + apply steady_enter in Er as (Hst & _ & ->). intros [= <- <- <-]. split; [exact Hst|]. cbn. split; [done|by destruct (Hst Hl) as (_ & _ & ->)].
    + destruct (reserved s _ (Err e)) as [s1 x1] eqn:Ex. intros [= <- <- <-].
      assert (e ≠ Egress.Disabled) as Hne.
      { unfold Egress.reserve_recovery_enter in Er. rewrite Een in Er. cbn in Er. destruct (Egress.waiter_permit _ _ _) eqn:Ew; [done|].
        cbn in Er. injection Er as ->. unfold Egress.waiter_permit in Ew. case_decide; [by injection Ew as <-|].
        destruct (default _ _) as [o k]. case_decide; [by injection Ew as <-|by destruct (wait_class _)]. }
      split; [|by destruct e; injection Ex as <- <-]. replace s1 with (reserved s (mkJob p fr (priority s fr)) (Err e)).1 by by rewrite Ex. apply charge_steady.
Qed.

(** A configured limiter does not answer [Disabled]. *)
Lemma observe_error s c key i bytes now class : (Egress.observe_existing s c key i bytes now class).2 ≠ Some Egress.Disabled.
Proof.
  unfold Egress.observe_existing, Egress.upgrade_class. destruct (_ && _).
  - destruct (if decide _ then _ else _) as [[s1 c1] ok]. destruct ok; cbn; [|done].
    destruct (Egress.intents s1 !! key); cbn; repeat case_match; try done; by case_decide.
  - destruct (Egress.intents s !! key); [|done]. by case_decide.
Qed.
Lemma register_error s c key bytes now class : (Egress.register_new s c key bytes now class).2 ≠ Some Egress.Disabled.
Proof.
  unfold Egress.register_new. destruct (Egress.inherit_family _ _ _ _ _) as [s1 [[[o cr] cd] pr]]. 
  destruct (if _ || _ then _ else _) as [[s2 c2] ok]. by destruct ok.
Qed.

Lemma refill_config l now : limiter_ok l → Egress.config (Egress.refill (Egress.state l) (Egress.counters l) now).1 = config l.
Proof.
  intros [Hi Hc _]. pose proof (EgressProps.refill_effect (Egress.state l) (Egress.counters l) now Hi Hc) as Hr.
  destruct (Egress.refill _ _ _) as [s c]. destruct Hr as (_ & [d Hd] & _). by rewrite <-(EgressProps.sp_config _ _ _ _ _ _ Hd).
Qed.

Lemma recovery_enabled l key bytes gen now class :
  limiter_ok l → is_Some (config l) → (Egress.try_reserve_recovery_at_class l key bytes gen now class).2 ≠ Err Egress.Disabled.
Proof.
  intros Hl Hc. pose proof (refill_config l now Hl) as E. unfold Egress.try_reserve_recovery_at_class.
  destruct (Egress.refill _ _ _) as [s c]. cbn in E. case_decide; [done|]. destruct (Egress.config s) eqn:Es; [|by rewrite <-E in Hc; destruct Hc].
  case_decide; [done|].
  assert (∀ reg : Egress.State * Egress.EgressCounters * option Egress.ReserveError, reg.2 ≠ Some Egress.Disabled →
    (match reg with (s, c, Some e) => (Egress.with_state l s c, Err e)
     | (s, c, None) => let '(s, c) := Egress.charge_ready_recovery s c in
         match Egress.intents s !! key with
         | Some i => if Egress.pending i then (Egress.with_state l s c, Err Egress.Deferred)
                     else (Egress.with_state l (Egress.set_intents (delete key (Egress.intents s)) s) c, Ok (Egress.mkReservation key gen))
         | None => (Egress.with_state l s c, Err Egress.Deferred) end end).2 ≠ Err Egress.Disabled) as Hreg.
  { intros [[s1 c1] [e|]] He; cbn in *; [congruence|]. destruct (Egress.charge_ready_recovery s1 c1) as [s2 c2].
    destruct (Egress.intents s2 !! key); [|done]. by case_match. }
  apply Hreg. destruct (Egress.intents s !! key); [apply observe_error|apply register_error].
Qed.

Lemma data_enabled l key bytes relayed now :
  limiter_ok l → is_Some (config l) → (Egress.try_reserve_data_at l key bytes relayed now).2 ≠ Err Egress.Disabled.
Proof.
  intros Hl Hc. pose proof (refill_config l now Hl) as E. unfold Egress.try_reserve_data_at.
  destruct (Egress.refill _ _ _) as [s c]. cbn in E. destruct (Egress.config s) eqn:Es; [|by rewrite <-E in Hc; destruct Hc].
  case_decide; [done|]. by case_match.
Qed.

Lemma exit_result l key gen class o : (Egress.reserve_recovery_exit l key gen class o false).2 = default (Err Egress.Deferred) o.
Proof. unfold Egress.reserve_recovery_exit. by destruct o as [[r|e]|]. Qed.

Lemma wait_exit_fits s j gen class o :
  limiter_ok (lim s) → o ≠ Some (Err Egress.Disabled) →
  (∀ r, o = Some (Ok r) → fits (lim s) (f_key (j_frame j) (j_peer j)) (Some r)) →
  let '(s1, res) := wait_exit s j gen class o in
  steady (lim s) (lim (reserved s1 j res).1) ∧ next_fits (lim s) j (reserved s1 j res).2.
Proof.
  intros Hl Hne Hr. unfold wait_exit. pose proof (steady_exit (lim s) (f_key (j_frame j) (j_peer j)) gen class o) as Hst.
  pose proof (exit_result (lim s) (f_key (j_frame j) (j_peer j)) gen class o) as Ho. destruct (Egress.reserve_recovery_exit _ _ _ _ _ _) as [l res]. cbn in Ho, Hst. subst res.
  destruct (Hst Hl) as (_ & Ec & Eg). split; [eapply steady_trans; [exact Hst|apply (charge_steady (set_lim s l))]|].
  apply (next_fits_same l); [done..|]. apply (reserved_fits (set_lim s l)). destruct o as [[r|e]|]; cbn; [|destruct e; done|done].
  apply (fits_steady (lim s)); [done..|by apply Hr].
Qed.

Lemma wait_poll_fits s j gen class now s' x :
  limiter_ok (lim s) → waits (lim s) gen → wait_poll s j gen class now = (s', x) → steady (lim s) (lim s') ∧ next_fits (lim s) j x.
Proof.
  intros Hl [Hc Hg]. unfold wait_poll. set (key := f_key (j_frame j) (j_peer j)). set (len := f_len (j_frame j) (j_peer j)).
  pose proof (steady_recovery (lim s) key len gen now class (f_len_nonneg _ _)) as Hst.
  pose proof (EgressProps.try_reserve_recovery_effect (lim s) key len gen now class (EgressProps.lim_inv _ Hl) (EgressProps.lim_charged _ Hl) (f_len_nonneg _ _)) as He.
  pose proof (recovery_enabled (lim s) key len gen now class Hl Hc) as Hne.
  destruct (Egress.try_reserve_recovery_at_class _ _ _ _ _ _) as [l res]. destruct He as (_ & _ & _ & _ & Hr). cbn in Hst, Hne.
  destruct (Hst Hl) as (Hl' & Ec & Eg).
  assert (∀ o, o ≠ Some (Err Egress.Disabled) → (∀ r, o = Some (Ok r) → res = Ok r) →
    (let '(s0, res0) := wait_exit (set_lim s l) j gen class o in reserved s0 j res0) = (s', x) → steady (lim s) (lim s') ∧ next_fits (lim s) j x) as Hx.
  { intros o Ho Hok E. pose proof (wait_exit_fits (set_lim s l) j gen class o Hl' Ho) as Hw. destruct (wait_exit _ _ _ _ _) as [s1 res1].
    destruct Hw as [Hs1 Hf1].
    { intros r Er. specialize (Hok r Er). subst res. destruct Hr as [-> [cfg Hcfg]]. unfold fits. cbn. rewrite Ec, Eg, Hcfg. done. }
    rewrite E in Hs1, Hf1. cbn in Hs1, Hf1. split; [by eapply steady_trans|]. by apply (next_fits_same l). }
  destruct res as [r|e]; [apply Hx; [done|]; by intros ? [= ->]|].
  destruct e; [done| | |..]; try (apply Hx; [done|]; by intros ? [=]). intros [= <- <-]. split; [exact Hst|]. by split.
Qed.

(** ** What leaves the limiter alone *)

Lemma claim_peer_lim s fr prio now conn granted p :
  lim (claim_peer s fr prio now conn granted p).1 = lim s ∧ ∀ a, (claim_peer s fr prio now conn granted p).2 = inl a → at_peer a = p.
Proof.
  unfold claim_peer. destruct (topics s !! f_topic fr) as [st|].
  - destruct (claim_one _ _ _ _ _ _ _) as [[m i] [a|]] eqn:E.
    + split; [done|]. intros a' [= <-]. by apply (Probes.claim_one_spec _ _ _ _ _ _ _ _ _ _ E).
    + destruct (bool_decide (conn = Some false)); [done|]. destruct (bool_decide (_ = None)); [done|]. split; [by destruct (_ && _)|done].
  - destruct (bool_decide (conn = Some false)); [done|]. destruct granted; [split; [done|by intros a [= <-]]|]. split; [by destruct (_ && _)|done].
Qed.

Lemma claim_all_lim s fr prio now vw peers acc :
  lim (claim_all s fr prio now vw peers acc).1.1 = lim s ∧
  ∃ l, at_peer <$> (claim_all s fr prio now vw peers acc).1.2 = (at_peer <$> acc.1) ++ l ∧ l `sublist_of` peers.
Proof.
  revert s vw acc. induction peers as [|p peers IH]; intros s vw acc; [split; [done|]; exists []; by rewrite app_nil_r|]. cbn [claim_all].
  destruct (claim_peer_lim s fr prio now (vw 0%nat).1 (vw 0%nat).2 p) as [Hl Ha]. destruct (claim_peer _ _ _ _ _ _ _) as [s' r]. cbn in Hl, Ha.
  destruct (IH s' (λ i, vw (S i)) match r with inl a => (acc.1 ++ [a], acc.2) | inr why => (acc.1, add_skip acc.2 why) end) as [Hl' (l & E & Hs)].
  split; [by rewrite Hl'|]. rewrite E. destruct r as [a|why]; cbn.
  - exists (p :: l). rewrite fmap_app, <-app_assoc. cbn. rewrite (Ha a eq_refl). split; [done|by apply sublist_skip].
  - exists l. split; [done|by apply sublist_cons].
Qed.

Lemma claim_attempts s fr now vw peers :
  let '(s', attempts, _) := claim_topic_send_attempts s fr now vw peers in lim s' = lim s ∧ (at_peer <$> attempts) `sublist_of` peers.
Proof.
  unfold claim_topic_send_attempts. destruct (claim_all_lim s fr (priority s fr) now vw peers ([], no_skips)) as [Hl (l & E & Hs)].
  destruct (claim_all _ _ _ _ _ _ _) as [[s' attempts] skips]. cbn in *. split; [done|by rewrite E].
Qed.

Lemma task_step_steady s fr p k ev s' k' :
  task_step s fr p k ev = Some (s', k') → steady (lim s) (lim s') ∧ (∀ r, k' = KGate r → False).
Proof.
  unfold task_step. destruct k as [r| |r], ev as [| |a|]; try done; try (by intros [= <- <-]; split; [apply steady_refl|]).
  - pose proof (steady_validate (lim s) (if Egress.enabled (lim s) || bool_decide (is_Some r) then Some (f_key fr p) else None) r) as Hst.
    destruct (Egress.validate_reservation _ _ _) as [l []]; by intros [= <- <-].
  - destruct (transport_result a); [|done]. intros [= <- <-]. split; [apply steady_outcome|done].
Qed.

Lemma book_lim s t r health now s' : book cooling_config s t r health now = Some s' → lim s' = lim s.
Proof. unfold book. destruct (topics s !! t); [|by intros [= <-]]. by intros (st & _ & [= <-])%bind_Some. Qed.

Lemma single_step_fits s j st ev s' x :
  limiter_ok (lim s) → stage_fits (lim s) j st → single_step s j st ev = Some (s', x) → steady (lim s) (lim s') ∧ next_fits (lim s) j x.
Proof.
  intros Hl Hj E. destruct st as [gen class|r|r cooled|r|a k]; destruct ev as [now| |now|health conn|now conn granted|ev0|now health]; try done;
    cbn [SendLayer.single_step] in E; try (by destruct k).
  - apply (inj Some) in E. by eapply wait_poll_fits.
  - pose proof (wait_exit_fits s j gen class None Hl) as Hw. destruct (wait_exit _ _ _ _ _) as [s1 res]. apply (inj Some) in E.
    rewrite E in Hw. by apply Hw.
  - injection E as <- <-. by split; [apply steady_refl|].
  - unfold admit_peer, admit_raw in E. destruct (Admission.admit_ _ _ _ _ _) as [a d]. injection E as <- <-. split; [apply steady_refl|]. by destruct d.
  - pose proof (claim_attempts s (j_frame j) now (λ _, (conn, granted)) [j_peer j]) as Hc.
    destruct (claim_topic_send_attempts _ _ _ _ _) as [[s1 attempts] skips]. destruct Hc as [Hs1 _].
    destruct attempts as [|a attempts]; injection E as <- <-; rewrite <-?Hs1; cbn; [|split; [rewrite Hs1; apply steady_refl|by rewrite Hs1]].
    split; [|done]. unfold control_skip. destruct (_ && _); cbn; rewrite Hs1; apply steady_refl.
  - assert (('(s, k) ← task_step s (j_frame j) (j_peer j) k ev0; Some (s, inl (SSend a k) : Stage + Res)) = Some (s', x)) as E' by by destruct k.
    apply bind_Some in E' as ([s1 k'] & Ek & [= <- <-]). apply task_step_steady in Ek as [Hst Hk]. split; [done|]. destruct k'; [by destruct (Hk r)|done..].
  - destruct k; try done. apply bind_Some in E as (s1 & Eb & [= <- <-]). split; [|done]. cbn. rewrite (book_lim _ _ _ _ _ _ Eb). apply steady_refl.
Qed.

(** ** The invariant of a fan-out *)

Definition holds_fitting (l : Egress.LeafEgressLimiter) (c : Fan) (peers : list PeerId) : Prop :=
  ∀ p, p ∈ peers → fits l (f_key (fan_frame c) p) (fan_res c !! p).
Definition task_fits (l : Egress.LeafEgressLimiter) (fr : Frame) (t : PeerSendAttempt * SendTask) : Prop :=
  match t.2 with KGate r => fits l (f_key fr (at_peer t.1)) r | _ => True end.
Definition kid_fits (l : Egress.LeafEgressLimiter) (k : PeerId * option (Job * Stage)) : Prop :=
  match k.2 with Some (j, st) => stage_fits l j st | None => True end.
Definition thread_fits (l : Egress.LeafEgressLimiter) (x : Thread) : Prop :=
  match x with
  | TSingle j st => stage_fits l j st
  | TSeq _ kids _ => Forall (kid_fits l) kids
  | FReserve c todo peers deferred => is_Some (config l) ∧ NoDup (todo ++ peers) ∧ holds_fitting l c peers ∧ (∀ p, p ∉ peers → fan_res c !! p = None)
  | FWithhold c peers _ | FCool c peers | FClaim c _ peers => NoDup peers ∧ holds_fitting l c peers
  | FAdmit c _ _ _ todo admitted => NoDup (admitted ++ todo) ∧ holds_fitting l c (admitted ++ todo)
  | FAnnounce c _ admitted attempts _ => NoDup (at_peer <$> attempts) ∧ holds_fitting l c (at_peer <$> attempts)
  | FSend c _ _ tasks => Forall (task_fits l (fan_frame c)) tasks
  | BReserve c _ todo peers _ => NoDup (todo ++ peers) ∧ holds_fitting l c peers ∧ (∀ p, p ∉ peers → fan_res c !! p = None)
  | BClaim c _ peers _ => NoDup peers ∧ holds_fitting l c peers
  | BSend c _ _ _ tasks => Forall (task_fits l (fan_frame c)) tasks
  | TSeqWithhold _ _ | BBook _ _ _ _ _ | TDrop _ _ => True
  end.

Lemma thread_fits_same l l' x : config l' = config l → generation l' = generation l → thread_fits l x → thread_fits l' x.
Proof. unfold thread_fits, holds_fitting, task_fits, kid_fits, stage_fits, waits, fits. by intros -> ->. Qed.

Lemma holds_mono l c peers peers' : peers' ⊆ peers → holds_fitting l c peers → holds_fitting l c peers'.
Proof. intros Hs Hh p Hp. by apply Hh, Hs. Qed.

Lemma spawn_fits l fr res attempts :
  NoDup (at_peer <$> attempts) → (∀ p, p ∈ at_peer <$> attempts → fits l (f_key fr p) (res !! p)) →
  Forall (task_fits l fr) (spawn_bounded_send_tasks res attempts).
Proof.
  revert res. induction attempts as [|a attempts IH]; intros res Hnd Hf; [constructor|]. cbn in *. apply NoDup_cons in Hnd as [Ha Hnd].
  constructor; [apply Hf; by left|]. apply IH; [done|]. intros p Hp. rewrite lookup_delete_ne by (intros <-; done). apply Hf. by right.
Qed.

Definition left_fits (l : Egress.LeafEgressLimiter) (y : Outcome) : Prop := steady l (lim y.1.1) ∧ ∀ x, y.1.2 = Some x → thread_fits l x.

Lemma stay_fits l s x y : stay s x = Some y → steady l (lim s) → thread_fits l x → left_fits l y.
Proof. intros [= <-] Hs Hx. split; [done|by intros x' [= <-]]. Qed.

Lemma spawn_sends_fits l s c rejected admitted attempts skips :
  steady l (lim s) → NoDup (at_peer <$> attempts) → holds_fitting l c (at_peer <$> attempts) →
  left_fits l (spawn_sends s c rejected admitted attempts skips).
Proof.
  intros Hs Hnd Hf. unfold spawn_sends. destruct attempts; [by split|]. split; [done|]. intros x [= <-]. by apply (spawn_fits l (fan_frame c) (fan_res c) (p :: attempts)).
Qed.

Lemma kid_next_fits s s' c kids t i p j x y :
  Forall (kid_fits (lim s)) kids → steady (lim s) (lim s') → next_fits (lim s) j x → kid_next s' c kids t i p j x = Some y → left_fits (lim s) y.
Proof.
  intros Hk Hs Hx E. unfold kid_next in E. destruct x; eapply stay_fits; try exact E; try done; cbn; [by apply Forall_insert|by apply Forall_delete].
Qed.

Lemma seq_step_fits s c kids t ev y :
  limiter_ok (lim s) → seq_step cooling_config s c kids t ev = Some y → thread_fits (lim s) (TSeq c kids t) → left_fits (lim s) y.
Proof.
  intros Hl E Hx. destruct ev; try done; cbn [seq_step] in E.
  - destruct kids; [|done]. destruct (_ || _); [injection E as <-; split; [apply steady_refl|done]|]. by eapply stay_fits; [|apply steady_refl|].
  - apply bind_Some in E as ([p [k|]] & Hi & E); [done|]. destruct (single_start _ _ _ _) as [[j s'] x] eqn:Es.
    apply single_start_fits in Es as [Hs Hn]; [|done]. by eapply kid_next_fits.
  - apply bind_Some in E as ([p k] & Hi & E). apply bind_Some in E as ([j st] & -> & E). apply bind_Some in E as ([s' x] & Es & E).
    pose proof Hx as Hx'. cbn [thread_fits] in Hx'. rewrite Forall_lookup in Hx'. apply Hx' in Hi. apply single_step_fits in Es as [Hs Hn]; [|done|done]. by eapply kid_next_fits.
Qed.

Lemma reserve_one_fits s c p now s' c' ok :
  limiter_ok (lim s) → is_Some (config (lim s)) → fan_res c !! p = None → reserve_one s c p now = (s', c', ok) →
  steady (lim s) (lim s') ∧ fan_frame c' = fan_frame c ∧ (∀ q, q ≠ p → fan_res c' !! q = fan_res c !! q) ∧
  (if ok then fits (lim s) (f_key (fan_frame c) p) (fan_res c' !! p) else fan_res c' !! p = None).
Proof.
  intros Hl Hc Hp. unfold reserve_one. destruct (fan_shed c); cbn [negb].
  - set (key := f_key (fan_frame c) p). set (len := f_len (fan_frame c) p). set (relayed := negb (f_local (fan_frame c))).
    pose proof (steady_data (lim s) key len relayed now (f_len_nonneg _ _)) as Hst. pose proof (data_enabled (lim s) key len relayed now Hl Hc) as Hne.
    pose proof (EgressProps.try_reserve_data_effect (lim s) key len relayed now (EgressProps.lim_inv _ Hl) (EgressProps.lim_charged _ Hl) (f_len_nonneg _ _)) as He.
    unfold Egress.try_reserve_data. destruct (Egress.try_reserve_data_at _ _ _ _ _) as [l res]. destruct He as (_ & _ & _ & _ & Hr). cbn in Hst, Hne.
    assert (∀ b, steady (lim s) (lim (charge (set_lim s l) (fan_frame c) p b))) as Hs by (intros b; eapply steady_trans; [exact Hst|apply (charge_steady (set_lim s l))]).
    destruct res as [r|e]; [|destruct e; [done|..]; intros [= <- <- <-]; (split_and!; [apply Hs|done..])].
    intros [= <- <- <-]. split_and!; [apply Hs|done| |].
    + intros q Hq. cbn. by rewrite lookup_insert_ne.
    + cbn. rewrite lookup_insert_eq. destruct Hr as [-> _]. unfold fits. destruct Hc as [cfg ->]. done.
  - destruct (protect_fits s (fan_frame c) p now Hl) as [Hst Hf]. destruct (protect _ _ _ _) as [s1 r]. cbn in Hst, Hf.
    intros [= <- <- <-]. split; [eapply steady_trans; [exact Hst|apply charge_steady]|]. destruct r as [r|]; cbn.
    + split_and!; [done| |by rewrite lookup_insert_eq]. intros q Hq. by rewrite lookup_insert_ne.
    + split_and!; [done|done|by rewrite Hp].
Qed.

Lemma admit_raw_lim s fr p h cooled : lim (admit_raw s fr p h cooled).1 = lim s.
Proof. unfold admit_raw. by destruct (Admission.admit_ _ _ _ _ _). Qed.
Lemma admit_peer_lim s fr prio p h conn cooled : lim (admit_peer s fr prio p h conn cooled).1 = lim s.
Proof. apply admit_raw_lim. Qed.
Lemma withhold_lim s fr l : lim (withhold s fr l) = lim s.
Proof. unfold withhold. by destruct (frame_id fr), (topics s !! f_topic fr). Qed.
Lemma retain_lim s fr l now : lim (retain s fr l now) = lim s.
Proof. unfold retain. by destruct (frame_id fr), (topics s !! f_topic fr). Qed.

Lemma steady_eq l l' : l' = l → steady l l'.
Proof. intros ->. apply steady_refl. Qed.

(** One more peer has been asked for. *)
Lemma reserve_peers l c c' p todo peers (ok : bool) :
  NoDup (p :: todo ++ peers) → holds_fitting l c peers → (∀ q, q ∉ peers → fan_res c !! q = None) →
  fan_frame c' = fan_frame c → (∀ q, q ≠ p → fan_res c' !! q = fan_res c !! q) →
  (if ok then fits l (f_key (fan_frame c) p) (fan_res c' !! p) else fan_res c' !! p = None) →
  let peers' := if ok then peers ++ [p] else peers in
  NoDup (todo ++ peers') ∧ holds_fitting l c' peers' ∧ (∀ q, q ∉ peers' → fan_res c' !! q = None).
Proof.
  intros [Hp Hnd]%NoDup_cons Hh Hn Hf Hq Ho peers'. assert (p ∉ peers) as Hpp by (intros ?; apply Hp, elem_of_app; by right). subst peers'. split_and!.
  - destruct ok; [|done]. rewrite app_assoc. apply NoDup_app. split_and!; [done| |apply NoDup_singleton].
    intros q Hq' ->%list_elem_of_singleton. done.
  - intros q Hq'. rewrite Hf. destruct (decide (q = p)) as [->|Hne].
    + destruct ok; [done|by destruct Hpp].
    + rewrite Hq by done. apply Hh. destruct ok; [|done]. apply elem_of_app in Hq' as [?| ->%list_elem_of_singleton]; done.
  - intros q Hq'. destruct (decide (q = p)) as [->|Hne].
    + destruct ok; [|done]. destruct Hq'. apply elem_of_app. right. by apply list_elem_of_singleton.
    + rewrite Hq by done. apply Hn. intros ?. apply Hq'. destruct ok; [apply elem_of_app; by left|done].
Qed.

Lemma reserve_step_fits s c p todo peers deferred now y :
  limiter_ok (lim s) → thread_fits (lim s) (FReserve c (p :: todo) peers deferred) →
  fan_step s (FReserve c (p :: todo) peers deferred) (EReserve now) = Some y → left_fits (lim s) y.
Proof.
  intros Hl (Hc & Hnd & Hh & Hn) E. cbn [SendLayer.fan_step app] in *.
  assert (p ∉ peers) as Hpp by (apply NoDup_cons in Hnd as [Hp _]; intros ?; apply Hp, elem_of_app; by right).
  destruct (reserve_one s c p now) as [[s' c'] ok] eqn:Er.
  apply reserve_one_fits in Er as (Hst & Hf & Hq & Ho); [|done|done|by apply Hn]. eapply stay_fits; [exact E|done|].
  split; [done|]. by apply (reserve_peers (lim s) c c' p).
Qed.

(** *** Background rounds *)

Lemma reserve_target_fits s c p now s' c' ok :
  limiter_ok (lim s) → fan_res c !! p = None → reserve_target s c p now = (s', c', ok) →
  steady (lim s) (lim s') ∧ fan_frame c' = fan_frame c ∧ (∀ q, q ≠ p → fan_res c' !! q = fan_res c !! q) ∧
  (if ok then fits (lim s) (f_key (fan_frame c) p) (fan_res c' !! p) else fan_res c' !! p = None).
Proof.
  intros Hl Hp. pose proof (EgressProps.lim_flags _ Hl) as [He _]. unfold reserve_target.
  destruct (Egress.enabled (lim s)) eqn:Een; cbn [negb].
  2: { intros [= <- <- <-]. split_and!; [apply steady_refl|done|done|]. symmetry in He. unfold fits. by destruct (config (lim s)). }
  destruct (negb (_ && _ && _)).
  - pose proof (charge_steady s (fan_frame c) p true) as Hc. destruct (Hc Hl) as (Hl1 & Ec & Eg).
    destruct (protect_fits (charge s (fan_frame c) p true) (fan_frame c) p now Hl1) as [Hst Hf]. destruct (protect _ _ _ _) as [s1 r]. cbn [fst snd] in Hst, Hf.
    apply (fits_steady _ (lim s)) in Hf; [|by symmetry..]. intros [= <- <- <-]. split; [by eapply steady_trans|]. destruct r as [r|]; cbn.
    + split_and!; [done| |by rewrite lookup_insert_eq]. intros q Hq. by rewrite lookup_insert_ne.
    + split_and!; [done|done|by rewrite Hp].
  - set (key := f_key (fan_frame c) p). set (len := f_len (fan_frame c) p). unfold Egress.try_reserve_recovery, Egress.try_reserve_recovery_at.
    pose proof (steady_recovery (lim s) key len (generation (lim s)) now Egress.Ordinary (f_len_nonneg _ _)) as Hst.
    pose proof (EgressProps.try_reserve_recovery_effect (lim s) key len (generation (lim s)) now Egress.Ordinary (EgressProps.lim_inv _ Hl) (EgressProps.lim_charged _ Hl) (f_len_nonneg _ _)) as Hr.
    destruct (Egress.try_reserve_recovery_at_class _ _ _ _ _ _) as [l res]. destruct Hr as (_ & _ & _ & _ & Hr). cbn in Hst.
    assert (∀ b, steady (lim s) (lim (charge (set_lim s l) (fan_frame c) p b))) as Hs by (intros b; eapply steady_trans; [exact Hst|apply (charge_steady (set_lim s l))]).
    destruct res as [r|e]; intros [= <- <- <-]; [|split_and!; [apply Hs|done|done|exact Hp]].
    destruct Hr as [-> [cfg Hcfg]]. split_and!; [apply Hs|done| |].
    + intros q Hq. cbn. by rewrite lookup_insert_ne.
    + cbn. rewrite lookup_insert_eq. unfold fits. by rewrite Hcfg.
Qed.

Lemma filter_lim s fr connected health now peers :
  let '(s', admitted) := filter_peers_through_admission_in_state s fr connected health now peers in lim s' = lim s ∧ admitted `sublist_of` peers.
Proof.
  revert s. induction peers as [|p peers IH]; intros s; cbn [filter_peers_through_admission_in_state]; [done|].
  case_bool_decide.
  - specialize (IH s). destruct (filter_peers_through_admission_in_state _ _ _ _ _ _) as [s2 admitted]. destruct IH as [Hl Hs]. split; [done|by apply sublist_cons].
  - pose proof (admit_raw_lim s fr p (health p) (is_peer_currently_suppressed s fr p now)) as Ha. destruct (admit_raw _ _ _ _ _) as [s1 ok]. cbn in Ha.
    specialize (IH s1). destruct (filter_peers_through_admission_in_state _ _ _ _ _ _) as [s2 admitted]. destruct IH as [Hl Hs]. split; [congruence|].
    destruct ok; [by apply sublist_skip|by apply sublist_cons].
Qed.

Lemma back_claim_fits s c b peers deferred now connected health vw :
  NoDup peers → holds_fitting (lim s) c peers → left_fits (lim s) (back_claim s c b peers deferred now connected health vw).
Proof.
  intros Hnd Hh. unfold back_claim. destruct (topics s !! _); [|by split; [apply steady_refl|]].
  pose proof (filter_lim s (fan_frame c) connected health now peers) as Hf. destruct (filter_peers_through_admission_in_state _ _ _ _ _ _) as [s1 admitted].
  destruct Hf as [Hl1 Hsub]. destruct admitted as [|p l]; [by split; [apply steady_eq|]|].
  pose proof (claim_attempts s1 (fan_frame c) now vw (p :: l)) as Hc. destruct (claim_topic_send_attempts _ _ _ _ _) as [[s2 attempts] skips]. destruct Hc as [Hl2 Hsub2].
  assert (steady (lim s) (lim s2)) as Hst by (apply steady_eq; congruence).
  destruct attempts as [|a attempts]; [by destruct b; split|]. split; [done|]. intros x [= <-].
  assert ((at_peer <$> a :: attempts) `sublist_of` peers) as Hsa by by etrans.
  apply (spawn_fits (lim s) (fan_frame c) (fan_res c) (a :: attempts)); [by eapply sublist_NoDup|].
  intros q Hq. apply Hh. eapply elem_of_submseteq; [exact Hq|by apply sublist_submseteq].
Qed.

Lemma back_step_fits s x ev y : limiter_ok (lim s) → back_step cooling_config s x ev = Some y → thread_fits (lim s) x → left_fits (lim s) y.
Proof.
  intros Hl E Hx. destruct x as [j st|c kids t|c t|c todo peers deferred|c peers deferred|c peers|c rejected cooled conn todo admitted|c rejected admitted|c rejected admitted attempts skips|c admitted counts tasks|c b todo peers deferred|c b peers deferred|c b bulk deferred tasks|c w bulk deferred sent|t probes]; try done.
  - destruct Hx as (Hnd & Hh & Hn), todo as [|p todo], ev; try done; cbn [back_step] in E.
    + destruct peers; [injection E as <-; by split; [apply steady_refl|]|]. by eapply stay_fits; [exact E|apply steady_refl|].
    + assert (p ∉ peers) as Hpp by (cbn in Hnd; apply NoDup_cons in Hnd as [Hp _]; intros ?; apply Hp, elem_of_app; by right).
      destruct (reserve_target s c p now) as [[s' c'] ok] eqn:Er.
      apply reserve_target_fits in Er as (Hst & Hf & Hq & Ho); [|done|by apply Hn]. eapply stay_fits; [exact E|done|]. by apply (reserve_peers (lim s) c c' p).
  - destruct ev as [| | | | |now vw| | |now connected health vw| |]; try done. injection E as <-. destruct Hx. by apply back_claim_fits.
  - destruct ev; try done; cbn [back_step] in E.
    + apply bind_Some in E as ([a k] & Hi & E). apply bind_Some in E as ([s' k'] & Ek & E). apply task_step_steady in Ek as [Hst Hk].
      eapply stay_fits; [exact E|done|]. cbn. apply Forall_insert; [done|]. destruct k'; [by destruct (Hk r)|done..].
    + apply bind_Some in E as (rs & _ & E). apply bind_Some in E as (s' & Eb & E). apply book_lim in Eb.
      destruct b; injection E as <-; (split; [apply steady_eq; exact Eb|]); [by intros x' [= <-]|done..].
  - destruct ev; try done. injection E as <-. split; [|done]. cbn. apply steady_eq. by destruct (topics s !! _).
Qed.

Lemma fan_step_fits s x ev y : limiter_ok (lim s) → fan_step s x ev = Some y → thread_fits (lim s) x → left_fits (lim s) y.
Proof.
  intros Hl E Hx. destruct x as [j st|c kids t|c t|c todo peers deferred|c peers deferred|c peers|c rejected cooled conn todo admitted|c rejected admitted|c rejected admitted attempts skips|c admitted counts tasks|c b todo peers deferred|c b peers deferred|c b bulk deferred tasks|c w bulk deferred sent|t probes].
  - done.
  - by eapply seq_step_fits.
  - destruct ev; try done. injection E as <-. split; [apply steady_eq, withhold_lim|done].
  - destruct todo as [|p todo], ev; try done.
    + destruct Hx as (Hc & Hnd & Hh & Hn). eapply stay_fits; [exact E|apply steady_refl|]. by case_match.
    + by eapply reserve_step_fits.
  - destruct ev; try done. destruct Hx as [Hnd Hh]. eapply stay_fits; [exact E|apply steady_eq, withhold_lim|done].
  - destruct ev; try done. by eapply stay_fits; [exact E|apply steady_refl|].
  - destruct Hx as [Hnd Hh], todo as [|p todo], ev; try done; cbn [SendLayer.fan_step] in E.
    + rewrite app_nil_r in Hnd, Hh. destruct admitted; [injection E as <-; split; [apply steady_refl|done]|]. by eapply stay_fits; [exact E|apply steady_refl|].
    + assert (thread_fits (lim s) (FAdmit c rejected cooled conn todo admitted)) as Hdrop.
      { split.
        - apply NoDup_app in Hnd as (Ha & Hd & [_ Ht]%NoDup_cons). apply NoDup_app. split_and!; [done| |done]. intros q Hq Hq'. apply (Hd q Hq). by right.
        - eapply holds_mono; [|exact Hh]. intros q [?|?]%elem_of_app; apply elem_of_app; [by left|right; by right]. }
      case_bool_decide; [by eapply stay_fits; [exact E|apply steady_refl|]|].
      pose proof (admit_peer_lim s (fan_frame c) (fan_prio c) p health (transport_connected_for_peer conn p) (bool_decide (p ∈ cooled))) as Hal.
      destruct (admit_peer _ _ _ _ _ _ _) as [s' ok]. eapply stay_fits; [exact E|by apply steady_eq|]. destruct ok; [|exact Hdrop].
      cbn. by rewrite <-!app_assoc.
  - destruct ev as [| | | | |now vw| | | | |]; try done. cbn [SendLayer.fan_step] in E. destruct Hx as [Hnd Hh].
    pose proof (claim_attempts s (fan_frame c) now vw admitted) as Hc. destruct (claim_topic_send_attempts _ _ _ _ _) as [[s' attempts] skips]. destruct Hc as [Hs Hsub].
    assert (NoDup (at_peer <$> attempts) ∧ holds_fitting (lim s) c (at_peer <$> attempts)) as [Hnd' Hh'].
    { split; [by eapply sublist_NoDup|]. eapply holds_mono; [|exact Hh]. intros q Hq. by eapply elem_of_submseteq; [exact Hq|apply sublist_submseteq]. }
    destruct (_ && _); [eapply stay_fits; [exact E|by apply steady_eq|done]|]. injection E as <-. apply spawn_sends_fits; [by apply steady_eq|done..].
  - destruct ev; try done. destruct Hx as [Hnd Hh]. injection E as <-. apply spawn_sends_fits; [apply steady_eq, retain_lim|done..].
  - destruct ev; try done; cbn [SendLayer.fan_step] in E.
    + apply bind_Some in E as ([a k] & Hi & E). apply bind_Some in E as ([s' k'] & Ek & E). apply task_step_steady in Ek as [Hst Hk].
      eapply stay_fits; [exact E|done|]. cbn. apply Forall_insert; [done|]. destruct k'; [by destruct (Hk r)|done..].
    + apply bind_Some in E as (rs & _ & E). apply bind_Some in E as (s' & Eb & [= <-]). split; [|done]. cbn. apply steady_eq. by eapply book_lim.
  - by eapply (back_step_fits s (BReserve c b todo peers deferred) ev).
  - by eapply (back_step_fits s (BClaim c b peers deferred) ev).
  - by eapply (back_step_fits s (BSend c b bulk deferred tasks) ev).
  - by eapply (back_step_fits s (BBook c w bulk deferred sent) ev).
  - destruct ev; try done. cbn [SendLayer.fan_step] in E. apply bind_Some in E as (s' & Eb & [= <-]). split; [|done]. apply steady_eq. by eapply book_lim.
Qed.

Lemma single_cancel_steady s j st : steady (lim s) (lim (single_cancel s j st)).
Proof.
  destruct st; try apply steady_refl. cbn. unfold wait_exit.
  pose proof (steady_exit (lim s) (f_key (j_frame j) (j_peer j)) gen class (Some (Err Egress.Deferred))) as Hst.
  exact Hst.
Qed.

Lemma cancel_fits s x y : cancel s x = Some y → left_fits (lim s) y.
Proof.
  assert (∀ s' t probes, steady (lim s) (lim s') → Some (dropped s' t probes) = Some y → left_fits (lim s) y) as Hd.
  { intros s' t probes Hs [= <-]. destruct probes; (split; [done|]); [done|]. by intros x' [= <-]. }
  intros E. destruct x; cbn [cancel] in E; try done; try (eapply Hd; [|exact E]); try apply steady_refl.
  - apply single_cancel_steady.
  - clear. revert s. induction kids as [|k kids IH]; intros s; [apply steady_refl|]. cbn [foldl]. eapply steady_trans; [|apply IH].
    destruct k as [p [[j st]|]]; [apply single_cancel_steady|apply steady_refl].
  - destruct (f_local _); [|done]. eapply Hd; [|exact E]. apply steady_refl.
Qed.

(** *** Runs *)

Record fence_inv (n : Node) : Prop := {
  fi_ok : limiter_ok (lim (shared n));
  fi_fits : map_Forall (λ _ x, thread_fits (lim (shared n)) x) (threads n);
}.

Lemma leave_fence n t y : fence_inv n → left_fits (lim (shared n)) y → fence_inv (leave n t y).
Proof.
  intros [Hl Hf] [Hst Hx]. destruct y as [[s next] dones]. cbn in Hst, Hx. destruct (Hst Hl) as (Hl' & Hc & Hg). split; [done|]. cbn.
  assert (map_Forall (λ _ x, thread_fits (lim s) x) (threads n)) as Hf' by (intros i x Hi; apply (thread_fits_same (lim (shared n))); [done..|by eapply Hf]).
  destruct next as [x|]; [|by apply map_Forall_delete]. apply map_Forall_insert_2; [|done]. apply (thread_fits_same (lim (shared n))); [done..|by apply Hx].
Qed.

Lemma put_single_fence n t j s x : fence_inv n → steady (lim (shared n)) (lim s) → next_fits (lim (shared n)) j x → fence_inv (put_single n t j s x).
Proof. intros Hn Hst Hx. unfold put_single. apply leave_fence; [done|]. destruct x; (split; [done|]); [by intros x' [= <-]|done]. Qed.

Lemma fan_start_fits s fr peers : limiter_ok (lim s) → NoDup peers → thread_fits (lim s) (fan_start s fr peers).
Proof.
  intros Hl Hnd. pose proof (EgressProps.lim_flags _ Hl) as [He _]. unfold fan_start. destruct (_ && _ && _ && _); [by apply Forall_fmap, Forall_true|].
  destruct (Egress.enabled _); symmetry in He.
  - apply bool_decide_eq_true in He. rewrite <-(app_nil_r peers) in Hnd. split_and!; [done|done|by intros p ?%elem_of_nil|done].
  - apply bool_decide_eq_false in He. split; [done|]. intros p _. unfold fits. destruct (config (lim s)); [by destruct He|done].
Qed.

Lemma back_start_fits s b fr peers : NoDup (match b with BFlush w => work_targets w | _ => peers end) → thread_fits (lim s) (back_start s b fr peers).
Proof. intros Hnd. unfold back_start. split_and!; [by rewrite app_nil_r|by intros p ?%elem_of_nil|done]. Qed.

(** The limiter is not reconfigured, and a fan-out or round names a peer once. *)
Definition steady_op (op : SendLayer.Op) : Prop :=
  match op with OEgress op => steady_egress op | OFanout _ _ peers => NoDup peers
  | OBack _ b _ peers => NoDup (match b with BFlush w => work_targets w | _ => peers end) | _ => True end.

Lemma exec_fence n op n' : fence_inv n → steady_op op → exec n op = Some n' → fence_inv n'.
Proof.
  intros Hn Hop E. pose proof Hn as [Hl Hf]. destruct op as [t p fr now|t fr peers|t b fr peers|t ev|t ev|t|t prio|op|m i]; cbn [SendLayer.exec] in E.
  - destruct (threads n !! t); [done|]. destruct (single_start _ _ _ _) as [[j s'] x] eqn:Es. injection E as <-.
    apply single_start_fits in Es as [Hst Hx]; [|done]. by apply put_single_fence.
  - destruct (threads n !! t); [done|]. injection E as <-. split; [done|]. apply map_Forall_insert_2; [by apply fan_start_fits|done].
  - destruct (threads n !! t); [done|]. injection E as <-. split; [done|]. apply map_Forall_insert_2; [by apply back_start_fits|done].
  - destruct (threads n !! t) as [[j st| | | | | | | | | | | | | |]|] eqn:Et; try done. apply bind_Some in E as ([s' x] & Es & [= <-]).
    apply single_step_fits in Es as [Hst Hx]; [|done|by apply (Hf _ _ Et)]. by apply put_single_fence.
  - apply bind_Some in E as (x & Et & E). apply bind_Some in E as (y & Ey & [= <-]). apply leave_fence; [done|].
    eapply fan_step_fits; [done|exact Ey|by apply (Hf _ _ Et)].
  - apply bind_Some in E as (x & Et & E). apply bind_Some in E as (y & Ey & [= <-]). apply leave_fence; [done|]. by eapply cancel_fits.
  - injection E as <-. by split.
  - injection E as <-. destruct (steady_exec (lim (shared n)) op Hop Hl) as (Hl' & Hc & Hg). split; [done|].
    intros i x Hi. apply (thread_fits_same (lim (shared n))); [done..|by eapply Hf].
  - injection E as <-. by split.
Qed.

Lemma run_fence ops n n' : fence_inv n → Forall steady_op ops → run n ops = Some n' → fence_inv n'.
Proof.
  revert n. induction ops as [|op ops IH]; intros n Hn Hops E; [by injection E as <-|]. cbn [SendLayer.run] in E.
  apply Forall_cons in Hops as [Hop Hops]. apply bind_Some in E as (n1 & E1 & E). eapply IH; [by eapply exec_fence|done|done].
Qed.

(** The sends of a thread that are about to pass the fence. *)
Definition at_gate (x : Thread) : list (Frame * PeerId * option Egress.ByteReservation) :=
  match x with
  | TSingle j (SSend _ (KGate r)) => [(j_frame j, j_peer j, r)]
  | TSeq _ kids _ => k ← kids; match k.2 with Some (j, SSend _ (KGate r)) => [(j_frame j, j_peer j, r)] | _ => [] end
  | FSend c _ _ tasks | BSend c _ _ _ tasks => t ← tasks; match t.2 with KGate r => [(fan_frame c, at_peer t.1, r)] | _ => [] end
  | _ => []
  end.

Lemma at_gate_fits l x fr p r : thread_fits l x → (fr, p, r) ∈ at_gate x → fits l (f_key fr p) r.
Proof.
  intros Hx Hg. destruct x as [j st|c kids t|c t|c todo peers deferred|c peers deferred|c peers|c rejected cooled conn todo admitted|c rejected admitted|c rejected admitted attempts skips|c admitted counts tasks|c b todo peers deferred|c b peers deferred|c b bulk deferred tasks|c w bulk deferred sent|t probes]; cbn in Hg; try by apply elem_of_nil in Hg.
  - destruct st as [| | | |a [r'| |]]; try by apply elem_of_nil in Hg. apply list_elem_of_singleton in Hg as [= -> -> ->]. done.
  - apply list_elem_of_bind in Hg as ([q [[j st]|]] & Hg & Hk); cbn in Hg; [|by apply elem_of_nil in Hg]. cbn in Hx. rewrite Forall_forall in Hx. apply Hx in Hk. cbn in Hk.
    destruct st as [| | | |a [r'| |]]; try by apply elem_of_nil in Hg. apply list_elem_of_singleton in Hg as [= -> -> ->]. done.
  - apply list_elem_of_bind in Hg as ([a k] & Hg & Hk). cbn in Hx, Hg. rewrite Forall_forall in Hx. apply Hx in Hk. cbn in Hk.
    destruct k as [r'| |]; try by apply elem_of_nil in Hg. by apply list_elem_of_singleton in Hg as [= -> -> ->].
  - apply list_elem_of_bind in Hg as ([a k] & Hg & Hk). cbn in Hx, Hg. rewrite Forall_forall in Hx. apply Hx in Hk. cbn in Hk.
    destruct k as [r'| |]; try by apply elem_of_nil in Hg. by apply list_elem_of_singleton in Hg as [= -> -> ->].
Qed.

(** C40. While the byte limiter keeps its configuration, whatever else uses it
    and however sends, fan-outs and cancellations interleave: every send that
    was admitted and claimed carries exactly the reservation that the transport
    fence asks for (none with the limiter off), so the fence refuses no frame --
    past the gate, the frame is handed to the transport. *)
Theorem fence_admits_every_send (s : Shared) (ops : list SendLayer.Op) (n : Node) (t : nat) (x : Thread) (fr : Frame) (p : PeerId) (r : option Egress.ByteReservation) :
  limiter_ok (lim s) → Forall steady_op ops → run (mkNode s ∅ []) ops = Some n → threads n !! t = Some x → (fr, p, r) ∈ at_gate x →
  task_step (shared n) fr p (KGate r) Engaged = Some (transmit (shared n) p (f_wire fr p), KFly).
Proof.
  intros Hl Hops E Ht Hg. apply run_fence in E as [Hl' Hf]; [|by split|done]. apply fits_opens; [done|]. eapply at_gate_fits; [by eapply Hf|done].
Qed.

(** ** Skipped local publishes *)

(** A local EAGER fan-out whose claim has skipped peers announces to them: after
    the announcement each admitted peer is attempted or owed the identifier
    until the end of the retention time. *)
Lemma skipped_publish_owed s c rejected admitted attempts skips now y id st :
  frame_id (fan_frame c) = Some id → topics s !! f_topic (fan_frame c) = Some st → queues_ok (queues st) →
  (∀ p e, e ∈ lazy_withheld (queues st) → w_msg_id e = id → p ∉ w_served e) →
  fan_step s (FAnnounce c rejected admitted attempts skips) (ELock now) = Some y →
  ∃ st', topics y.1.1 !! f_topic (fan_frame c) = Some st' ∧
    ∀ p, p ∈ admitted → p ∈ at_peer <$> attempts ∨ owed (queues st') id p (now + RETAINED_ANNOUNCE_TTL).
Proof.
  intros Hid Hst Hq Hs E. injection E as <-.
  set (st' := with_queues st (queue_retained_announce (queues st) id (claim_skipped_peers admitted attempts) now)). exists st'. split.
  - assert (topics (spawn_sends (retain s (fan_frame c) (claim_skipped_peers admitted attempts) now) c rejected admitted attempts skips).1.1 =
            topics (retain s (fan_frame c) (claim_skipped_peers admitted attempts) now)) as -> by (unfold spawn_sends; by destruct attempts).
    unfold retain. rewrite Hid, Hst. apply lookup_insert_eq.
  - intros p Hp. destruct (decide (p ∈ at_peer <$> attempts)) as [|Hn]; [by left|]. right. apply retain_owes; [done| |by apply Hs].
    by apply list_elem_of_filter.
Qed.
End Fence.
End SendLayerFence.
