(* ===== verification/SendLayerWitness.v ===== *)
(** * The send layer: witnesses

    A Bulk fan-out, digests that use up a peer's Bulk depth, a fan-out under a
    spent byte budget, a send that waits for bytes, and a late registration that
    leaks Bulk depth. *)

From S2P Require Import Prelude Types Float64 MessageCache PeerTiming TopicMesh Announce EagerReply Identity Plumtree PlumtreeWitness KeyCodec KeyCacheWitness SendBudget Admission Egress EgressProps SendLayer SendLayerProps SendLayerFence.
Import F64 Timing MessageCache TopicMesh Announce EagerReply SendLayer SendLayerProps SendLayerFence.
Import PlumtreeWitness(libm, iter_peers, messages_lru).
Import KeyCacheWitness(toy_hashes, toy_postcard).

#[local] Open Scope Z_scope.

Module SendLayerWitness.

#[local] Existing Instance libm.
#[local] Existing Instance iter_peers.
#[local] Existing Instance messages_lru.
#[local] Existing Instance toy_hashes.
#[local] Existing Instance toy_postcard.
#[local] Instance intents_iter : HashIter Egress.RecoveryIntentKey Egress.Intent := canonical_iter.
#[local] Instance counts_iter : HashIter Egress.Id Z := canonical_iter.

Definition p1 : PeerId := mkPeerId (replicate 32 1).
Definition p2 : PeerId := mkPeerId (replicate 32 2).
Definition p3 : PeerId := mkPeerId (replicate 32 3).
Definition tp : TopicId := mkTopicId (replicate 32 7).
Definition cooling : AdaptiveCoolingConfig := Timing.config_default.
Definition admission (prio : TopicPriority) : Admission.AdmissionControl :=
  Admission.with_registry Admission.new (Admission.register (Admission.registry Admission.new) tp prio).

(** ** A Bulk fan-out to three peers, one of them not connected *)

Definition relay : Frame := mkFrame tp "EAGER" [1; 2] (λ _, [1; 2]) false.
Definition bulk_start : Node := mkNode (mkShared _ (admission Bulk) (Egress.disabled 0) ∅ 1 []) ∅ [].
Definition bulk_fan : list Op :=
  [OFanout 0 relay [p1; p2; p3]; OFan 0 (ECooled 0 (Some {[p1; p2]})); OFan 0 (EAdmitOne None); OFan 0 (EAdmitOne None); OFan 0 (EAdmitOne None);
   OFan 0 ENext; OFan 0 (EClaims 0 (λ i, (None, bool_decide (i = 0%nat))))].
Definition bulk_end : list Op := [OFan 0 (ESend 0 Engaged); OFan 0 (ESend 0 (Answer RSent)); OFan 0 (ECollect 0 (λ _, None))].

Definition reached (n : Node) (ops : list Op) : Node := default n (run cooling n ops).

Lemma bulk_fresh : fresh bulk_start.
Proof.
  split; [reflexivity|reflexivity| |reflexivity]. apply (Admission.depth_ok_new Admission.config_default). by split; vm_compute.
Qed.

Lemma bulk_depth_exact_witness :
  run cooling bulk_start (bulk_fan ++ bulk_end) = Some (reached bulk_start (bulk_fan ++ bulk_end)) ∧
  Admission.depth (adm (shared (reached bulk_start bulk_fan))) p1 = 1 ∧
  ∀ p, Admission.depth (adm (shared (reached bulk_start (bulk_fan ++ bulk_end)))) p = 0.
Proof.
  assert (run cooling bulk_start (bulk_fan ++ bulk_end) = Some (reached bulk_start (bulk_fan ++ bulk_end))) as E by (vm_compute; reflexivity).
  split; [exact E|]. split; [vm_compute; reflexivity|]. intros p.
  replace 0 with (leaked p (reached bulk_start (bulk_fan ++ bulk_end))) by (vm_compute; reflexivity). revert p.
  apply (bulk_depth_exact cooling bulk_start (reached bulk_start (bulk_fan ++ bulk_end)) (bulk_fan ++ bulk_end)); [exact bulk_fresh| |exact E|].
  - apply settled_without_registration. repeat (apply Forall_cons_2; [exact I|]). apply Forall_nil_2.
  - vm_compute. reflexivity.
Defined.

(** ** Digests to a peer without an outbound permit

    Each of the 64 rounds takes Bulk depth and gives none back; then a relay to
    the same peer is refused. *)

Definition digest : Frame := mkFrame tp "ANTI_ENTROPY" [3] (λ _, [3]) false.
Definition digest_start : Node :=
  mkNode (mkShared _ (admission Bulk) (Egress.disabled 0) {[tp := mkTopic (TopicMesh.mesh_new 8) queues_new (MessageCache.new 4 1024 0) [] ∅]} 1 []) ∅ [].
Definition digest_round : list Op :=
  [OBack 0 BDigest digest [p1]; OFan 0 (EReserve 0); OFan 0 ENext; OFan 0 (EBackClaim 0 (Some {[p1]}) (λ _, None) (λ _, (None, false)))].
Definition digests : list Op := concat (replicate 64 digest_round).
Definition relayed : list Op := [OSend 0 p1 relay 0; OStep 0 (ECool 0)].

Lemma digest_run n ops : bool_decide (is_Some (run cooling n ops)) = true → run cooling n ops = Some (reached n ops).
Proof. intros [n' E]%bool_decide_eq_true. unfold reached. by rewrite E. Qed.

Lemma digests_use_up_bulk_depth :
  (admit_raw (shared (reached digest_start (concat (replicate 63 digest_round)))) relay p1 None false).2 = true ∧
  (admit_raw (shared (reached (reached digest_start digests) relayed)) relay p1 None false).2 = false.
Proof.
  split; [vm_compute; reflexivity|]. apply (unclaimed_digests_block_bulk cooling digest_start (reached digest_start digests) (reached (reached digest_start digests) relayed) digests relayed).
  - split; [reflexivity|reflexivity| |reflexivity]. apply (Admission.depth_ok_new Admission.config_default). by split; vm_compute.
  - apply settled_without_registration. repeat (apply Forall_cons_2; [exact I|]). apply Forall_nil_2.
  - apply digest_run. vm_compute. reflexivity.
  - apply digest_run. vm_compute. reflexivity.
  - vm_compute. intros ?; discriminate.
  - vm_compute. reflexivity.
Qed.

(** Had the priority been registered between the start of a send and its
    admission, nobody would release the depth. *)
Definition late : list Op :=
  [OSend 0 p1 relay 0; ORegister tp Bulk; OStep 0 (ECool 0); OStep 0 (EAdmit None None); OStep 0 (EClaim 0 None true); OStep 0 (ETask Engaged);
   OStep 0 (ETask (Answer RSent)); OStep 0 (EBook 0 (λ _, None))].
Lemma late_registration_leaks :
  let n := reached (mkNode (mkShared _ Admission.new (Egress.disabled 0) ∅ 1 []) ∅ []) late in
  threads n = ∅ ∧ length (log n) = 1%nat ∧ Admission.depth (adm (shared n)) p1 = 1.
Proof. vm_compute. done. Qed.

(** ** A relayed fan-out under a spent byte budget

    The budget holds 200 bytes, 50 of them for recovery: the first frame fits,
    the second does not, the two short ones do; of these one peer is not
    connected and the other's lane is full. *)

Definition p4 : PeerId := mkPeerId (replicate 32 4).
Definition budget : Egress.LeafEgressConfig := Egress.mkConfig 0 1000 200 100 Egress.ShedNormal.
Definition enforced : Egress.LeafEgressLimiter := (Egress.configure (Egress.disabled 0) (Some budget) 0).1.
Definition long (p : PeerId) : list Z := replicate (if decide (p = p1 ∨ p = p2) then 80 else 10)%nat 9.
Definition heavy : Frame := mkFrame tp "EAGER" [1; 2] long false.
Definition shed_start : Shared := mkShared _ (admission Normal) enforced ∅ 1 [].
Definition shed_fan : list Op :=
  [OFanout 0 heavy [p1; p2; p3; p4]; OFan 0 (EReserve 0); OFan 0 (EReserve 0); OFan 0 (EReserve 0); OFan 0 (EReserve 0); OFan 0 ENext;
   OFan 0 (ECooled 0 (Some {[p1; p2; p4]})); OFan 0 (EAdmitOne None); OFan 0 (EAdmitOne None); OFan 0 (EAdmitOne None); OFan 0 ENext;
   OFan 0 (EClaims 0 (λ i, (Some true, bool_decide (i = 0%nat)))); OFan 0 (ESend 0 Engaged); OFan 0 (ESend 0 (Answer RSent)); OFan 0 (ECollect 0 (λ _, None))].

Lemma fanout_accounts_balance_witness :
  let n := reached (mkNode shed_start ∅ []) shed_fan in
  Forall done_ok (log n) ∧
  match log n with [DoneFan _ counts l] => counts = mkFanout 4 1 1 1 0 0 1 1 0 ∧ l = [p1] | _ => False end ∧ wire (shared n) = [(p1, replicate 80 9)].
Proof.
  split; [|vm_compute; done]. apply (fanout_accounts_balance cooling shed_start shed_fan). vm_compute. reflexivity.
Defined.

(** ** A relayed request that waits for its bytes *)

Definition request : Frame := mkFrame tp "IWANT" [1] (λ _, replicate 60 9) false.
Definition waiting : list Op :=
  [OSend 0 p1 request 0; OStep 0 (EPoll 0); OStep 0 (ECool 0); OStep 0 (EAdmit None None); OStep 0 (EClaim 0 None true)].

Lemma fence_admits_every_send_witness :
  let n := reached (mkNode shed_start ∅ []) waiting in
  let r := Some (Egress.mkReservation (f_key request p1) 1) in
  task_step (shared n) request p1 (KGate r) Engaged = Some (transmit (shared n) p1 (replicate 60 9), KFly).
Proof.
  set (n := reached (mkNode shed_start ∅ []) waiting). set (a := mkAttempt p1 SendAttemptKind.Normal None).
  apply (fence_admits_every_send cooling shed_start waiting n 0 (TSingle (mkJob p1 request Normal) (SSend a (KGate (Some (Egress.mkReservation (f_key request p1) 1)))))).
  - apply (EgressProps.configure_effect (Egress.disabled 0) (Some budget) 0); [apply EgressProps.disabled_ok|]. intros cfg [= <-]. by repeat split; vm_compute.
  - repeat (apply Forall_cons_2; [exact I|]). apply Forall_nil_2.
  - vm_compute. reflexivity.
  - vm_compute. reflexivity.
  - apply list_elem_of_singleton. reflexivity.
Defined.
End SendLayerWitness.
